(* ===== verification/_CoqProject ===== *)
-Q . S2P
Prelude.v
Hoare.v
CxxString.v
Buffer.v
Layout.v
Protocol.v
Stream.v
Wire.v
Codecs.v
StreamString.v
OrderedMap.v
StreamHelpers.v
StreamSpec.v
Encaps.v
EncapsSpec.v
OptionalSpec.v
EncapsWire.v
StreamOptional.v
StreamFrame.v
ObjectData.v
ObjectWrite.v
ObjectRead.v
ObjectTypes.v
ObjectSafe.v
ObjectSound.v
ObjectSpec.v
GraphWrite.v
GraphRead.v
GraphSpec.v
StringUtil.v
StringUtilSpec.v
Base64.v
Endpoint.v
EndpointText.v
EndpointWire.v
Identity.v
Reference.v
ReferenceSpec.v
ReferenceOrder.v
ServantManager.v
ServantManagerSpec.v
ImplicitContext.v
ImplicitContextSpec.v
GC.v
GCSpec.v
PropertyNames.v
Properties.v
PropertiesSpec.v
OptionsSplit.v
Options.v
OptionsSpec.v
OptionsParse.v
ReferenceFactory.v
ReferenceText.v
ReferenceWire.v
Dispatch.v
DispatchSpec.v
Invocation.v
InvocationSpec.v
Transceiver.v
ConnectionData.v
ConnectionSend.v
ConnectionState.v
Connection.v
ConnectionFrame.v
ConnectionQueue.v
ConnectionInv.v
ConnectionRequests.v
ConnectionDispatch.v
ConnectionOpen.v
ConnectionLife.v
ConnectionReceive.v
ConnectionParse.v
ConnectionNext.v
ConnectionMessage.v
ConnectionFinish.v
ConnectionSystem.v
ConnectionWire.v
ConnectionExample.v
ConnectionSpec.v
