(* ===== verification/Prelude.v ===== *)
(** * Ice Touch: a verification library for the C++ runtime

    The repository holds the client and server runtime of Ice for mobile
    platforms: a remote-procedure-call system whose core is C++ under
    src/cpp. This library models the parts of the runtime that compute: the
    connections that carry requests and replies, the invocations and dispatches
    at their ends, the marshalling engine, the references that proxies stand
    for with their endpoints, the text utilities all this rests on, the servant
    tables of an object adapter, the implicit contexts of threads, and the
    property sets and options that configure a communicator and the compilers.
    It proves what these parts promise to the rest of the program, for any input that a peer or a
    configuration file may contain.

    ** The parts of the program and the files that model them

    A request is marshalled by [BasicStream] into a [Buffer]; between the
    header, which [Protocol] defines, and the parameters stands an
    encapsulation. A [ConnectionI] frames the message, queues it and hands it
    to a transceiver; the peer's connection parses it, dispatches the request
    and sends the reply that finds its caller by the id of the request. An
    [Outgoing] writes a request and waits for what becomes of it, and its proxy
    retries it when it may; an [Incoming] reads the request, finds the servant
    for its identity in the [ServantManager] of the adapter, or asks a servant
    locator, and answers at once or through an [IncomingAsync]. Identities, facets and property files are text,
    handled by the string utilities and the native string converters. A proxy is
    a [Reference]: an identity with the endpoints of its object, the id of an
    adapter or neither. References are made from text, from properties and from
    streams, and are compared and changed by the runtime.

    - Prelude.v: bytes and strings ([ascii] for both [char] and [Ice::Byte]),
      machine integers ([to_signed], [to_unsigned]), little-endian bytes, the
      outcome type [result] (a value, a C++ exception, or a fault: a failed
      assertion, an undefined access, a loop out of fuel) and the state monad
      [M], whose state survives an exception as the objects of the program do.
    - CxxString.v: searches of [std::string], [istringstream >> int].
    - Buffer.v: [IceInternal::Buffer::Container] (Buffer.h, Buffer.cpp) with
      its block of memory, size, capacity, shrink counter and ownership, and
      [ByteSeq], the byte sequence that the stream is modelled on.
    - Layout.v: scalars in host memory and the pointer loops of
      BasicStream.cpp for the three byte orders ([Class Platform]).
    - Protocol.v: constants, versions and their text (Protocol.h, Protocol.cpp).
    - Stream.v: the data members of [BasicStream] (BasicStream.h) and the
      scalars, sequences, sizes and blobs (BasicStream.cpp). The
      state has the cursor as an offset, the address of the buffer, the chains
      of encapsulations and the two members that estimate sequences.
    - Wire.v, Codecs.v: what an operation does to the wire ([writes],
      [reads]), proved once for every basic type.
    - StreamString.v: enumerators, and strings with and without converter, the
      guess of the converted size and its correction. A converter is a record
      of two functions: it stands for code of the application.
    - StreamHelpers.v: the templates of StreamHelpers.h over a universe [ty]
      of marshalled types, dictionaries included; the classes [Writes] and
      [Reads] are what a helper needs of its element type. StreamOptional.v:
      the helpers for optional values, with their formats.
    - Encaps.v: encapsulations and optional values. [Class Coders] has the
      constructors of the encoders and decoders of objects, [ObjectDecoding],
      [ObjectEncoding] and [PendingObjects] the virtual functions that the
      stream calls, and [Class Host] the state they run in: the stream alone,
      or the stream in a world with objects.
    - ObjectData.v: the objects of a program, the state of the encoders and
      decoders (BasicStream.h) and the world they share with a stream.
      ObjectWrite.v, ObjectRead.v: the encoders and decoders of objects and
      exceptions for both encodings (BasicStream.cpp from line 1868 on), and
      the code that slice2cpp generates for a class. StreamFrame.v: reading
      values leaves the encapsulations alone. ObjectTypes.v, ObjectSafe.v,
      ObjectSound.v, ObjectSpec.v: class pointers keep their types.
      GraphWrite.v (with the grammar of the bytes), GraphRead.v, GraphSpec.v:
      graphs of objects are copied between hosts.
    - StringUtil.v: cpp/src/IceUtil/StringUtil.cpp.
    - Base64.v: cpp/src/Ice/Base64.cpp.
    - OrderedMap.v: the order of [std::map], for iterators and loops.
    - Identity.v: identities and their text (Instance.cpp,
      StringConverter.cpp).
    - Endpoint.v: TCP, SSL, UDP and opaque endpoints and the table of their
      factories (TcpEndpointI.cpp, UdpEndpointI.cpp, OpaqueEndpointI.cpp,
      IceSSL/EndpointI.cpp, EndpointFactoryManager.cpp). EndpointText.v: their
      text; [option_loop_words] replaces the loops over positions by a parser of
      words. EndpointWire.v: their wire form; EncapsWire.v: [sends] and
      [fetches], the counterparts of [writes] and [reads] for operations that
      open encapsulations.
    - Reference.v: references, their changes, comparison and choice of endpoints
      (Reference.h, Reference.cpp). ReferenceFactory.v: what makes and prints
      them (ReferenceFactory.cpp, ProxyFactory.cpp, Reference.cpp), over
      [Class Instance_], the configuration of a communicator. ReferenceSpec.v,
      ReferenceOrder.v, ReferenceText.v, ReferenceWire.v: what they promise.
    - ServantManager.v: cpp/src/Ice/ServantManager.cpp, iterators included.
    - Dispatch.v: requests on the side of the server (Incoming.cpp,
      IncomingAsync.cpp, DispatchInterceptor.cpp, the dispatch functions of
      Object.cpp and [ConnectionI::invokeAll]). An Incoming, the callbacks made
      from it and the calls of all of them are one state. DispatchSpec.v: the
      right to answer a request, and requests in arbitrary bytes.
    - Invocation.v: requests on the side of the client (Outgoing.cpp) and their
      retries (ProxyFactory.cpp, Proxy.cpp). InvocationSpec.v: requests,
      results and failures between hosts, and what retries may do.
    - ImplicitContext.v: ImplicitContextI.cpp, with the slots that the
      communicators of a process share; ImplicitContextSpec.v: its refinement
      to a map from objects and threads to contexts.
    - GC.v: reference counts, handles and the garbage collector (GC.cpp,
      IceUtil/Shared.cpp, Handle.h, SlicedData.cpp and the functions that
      slice2cpp generates for it), and what a program may do with its handles.
      GCSpec.v: counts are right, and collections are exact.
    - PropertyNames.v: the table of known properties (PropertyNames.cpp).
    - Properties.v: cpp/src/Ice/PropertiesI.cpp.
    - OptionsSplit.v, Options.v: cpp/src/IceUtil/Options.cpp, the splitter of
      command lines and the parser of options, whose two names share one object
      in a store. OptionsSpec.v: its invariant; OptionsParse.v: what it parses.
    - Hoare.v: weakest preconditions for the monad [M].
    - Transceiver.v: TcpTransceiver.cpp and UdpTransceiver.cpp over the answers
      of the socket, and [Class TransceiverLaws], what a connection relies on.
    - ConnectionData.v: the data of [ConnectionI] (ConnectionI.h): its states,
      its outgoing messages, its request tables with their hints, the batch and
      the timers as the calls made to them. ConnectionSend.v: headers, bzip2
      frames, the transceiver as a class, the watched operations.
      ConnectionState.v: [setState], [initialize], [validate].
      Connection.v: the rest of ConnectionI.cpp, an operation a definition.
    - ConnectionFrame.v, ConnectionQueue.v, ConnectionInv.v,
      ConnectionRequests.v, ConnectionDispatch.v, ConnectionOpen.v,
      ConnectionLife.v, ConnectionReceive.v, ConnectionParse.v,
      ConnectionNext.v, ConnectionMessage.v, ConnectionFinish.v: the invariant
      of a connection and a triple for every operation.
    - ConnectionSystem.v: a connection as a transition system; ConnectionWire.v:
      two connections and the bytes between them; ConnectionExample.v: concrete
      runs; ConnectionSpec.v: what a connection promises.
    - StreamSpec.v, EncapsSpec.v, OptionalSpec.v, StringUtilSpec.v,
      ServantManagerSpec.v, PropertiesSpec.v: what these parts promise.

    ** What the theorems show

    Connections. Every operation is a step of a transition system, under the
    lock that the code takes; steps of callers, dispatches, timers, the
    monitor and the thread pool interleave freely, within the guards and the
    assumptions listed below. There the state stays in order
    ([connection_invariant]) and no assertion fails, no iterator is invalid
    and no loop runs out of rounds ([connection_never_faults]); before the
    connection is closed, the hints of the request tables are an optimisation
    of a lookup ([find_reply_is_lookup]); closing is final; the bytes handed to the socket are the queued frames in order
    ([sendMessage_commits_in_order], [write_event_keeps_the_order]); a request
    and its reply arrive at their ends ([request_arrives], [reply_arrives]);
    when the connection closes, every caller hears of it
    ([finish_tells_each_call_once]).

    Marshalling. What a stream writes on any host is read back on any host,
    for every type built from the basic ones ([StreamSpec.message_roundtrip],
    by the codecs and the classes of StreamHelpers.v); the bytes do not depend
    on the host ([write_ty_host_independent]). Reading arbitrary bytes stays
    inside the buffer and fails with the documented exceptions, as long as the
    bytes of the announced elements and those of the buffer together do not
    pass an [Int] ([read_sequences_safe]; [seq_estimate_overflow] shows what
    happens beyond). The
    buffer refines a byte sequence ([Buffer.append_refines]).

    Encapsulations. Writing and reading one is a round trip that restores the
    chains ([encaps_roundtrip]); skipping and opening one respect its bounds;
    optional values that were written in a format other than the one of
    classes are found or skipped exactly ([readOptImpl_locates],
    [endReadEncaps_skips_unknown]).

    Optional values of every type arrive between hosts, with the values of
    other tags around them ([optional_value_arrives]).

    Objects. On any bytes, with both encodings, every class pointer that a
    program holds is null or refers to an instance of its type, graphs with
    cycles and preserved slices included ([class_pointers_typed]); the example
    of ObjectSpec.v sends such a graph in every format. A graph of objects with
    sharing and cycles, sent in the compact format of encoding 1.1 with
    every optional member unset, arrives as a copy of the graph at a receiver
    that has factories for its types ([object_graph_arrives]).

    Text. Escaping is undone by unescaping and shields the separators
    ([unescape_escape], [escape_shields]); identities, Base64, versions, lists
    and configuration lines are read back as they were written.

    References. A proxy is read back from its text ([proxy_text_roundtrip]) and
    arrives over the wire as the reference that the receiver's factory makes of
    it ([proxy_arrives]). Comparison is a strict weak order that agrees with
    equality and with the hash values ([reference_order_strict]): the operators
    compare codes of the references lexicographically. The endpoints for a
    connection are the suitable ones, secure ones first or last as the
    configuration says ([filterEndpoints_spec]).

    Servants. From construction on, every sequence of operations answers what
    a plain table answers ([ServantManagerSpec.manager_refines]); the lookup
    hints are an optimisation that no client can observe.

    Requests. The request that a client writes is the one that the server
    dispatches ([request_is_dispatched]); its results and its failures arrive
    at the caller ([results_arrive], [failure_arrives]). Every request of a
    message is answered once, whatever the code of the application does
    ([invokeAll_settles]); reading one from any bytes is safe
    ([read_current_total]). A request that was sent is repeated only when it is
    idempotent or was not executed ([sent_request_not_repeated]), and retries
    are bounded ([retries_bounded]).

    Implicit contexts. Contexts per thread answer what a map from objects and
    threads answers, though destroyed communicators hand their slots on to new
    ones ([implicit_contexts_refine]).

    Garbage. In every state that a program reaches, a collection ends, deletes
    the instances that no handle of the program leads to and no others, and
    leaves the others as they were ([collector_exact]); the counts are the
    numbers of handles and no handle dangles ([counts_right]).

    Options. A quoted command line is split into the words it was made of
    ([split_written]), options that were written are parsed to the answers that
    their declarations prescribe ([parse_written]), and no sequence of declarations, command lines and
    queries fails an assertion ([options_never_fault]).

    Properties. Setting a property changes one property and fails for an empty
    key only, with the table of known properties as it is; no line of a file
    makes the parser fail; what one set prints as options another one reads.

    Some theorems state where the code departs from its intent, on concrete
    inputs: [endReadEncaps_trap], [skipSlice_undefined], [seq_estimate_overflow],
    [close_timeout_scheduled_twice], [identity_roundtrip_backslash],
    [escaped_space_doubled], [mismatched_list_kept], [config_option_alone].

    ** Integers, fuel and bounds

    An [Int] of the source is a [Z] that [to_i32] wraps where the source
    converts or computes; sizes of containers are [nat]. Loops that are not
    structural take fuel: [skipOpts] and [readOptImpl] one unit per optional
    value (the theorems give the number that is enough; for the message of
    [endReadEncaps_trap] none is). [decodeString], [split_loop], [quote_loop],
    [separator_loop] and [Base64.wrap] run at most once per character, and
    their callers give them the length of the text; [unescapeString_total] and
    the round trips of escapes, lists, identities and Base64 hold for texts of
    any length and so show that it is enough. [quote_loop] moves behind the
    quote it found at each turn. The decoders of objects take a depth, one
    unit for each object that is nested in another one on the wire, and a fuel
    for slices, rounds and optional values; the theorem about types holds for
    any of them. [sendNext_loop] runs once per queued message
    and gets the length of the queue. The round trips of sequences assume fewer
    than 2^31 elements, and those of encapsulations a buffer below 2 GB, the
    range of the sizes of the protocol. The loops over the options of endpoints
    and proxies, the endpoints of a proxy and the quotes of a part run once per
    character at most and get the length of the text; the round trips of proxies
    hold for texts of any length. [words_loop] gets the length of the command
    line. [invoke_loop] runs once per request and gets their number.
    [retry_loop] runs over the answers of the tries, [retries_bounded] says how
    many are enough. [wait_while] runs over the events of a wait: out of events
    it waits for good, as the code does for a connection that never reports.
    The ids of implicit contexts are 64 bits wide: the theorem is about fewer
    than 2^63 events. [decRef] takes one unit for each destructor that runs
    inside another one and gets the number of instances; a marking gets the
    number of candidates ([collector_exact] shows that both are enough).
    [propertyToProxy] takes a depth for proxies whose properties name a locator or a router with properties of its own.

    ** Assumptions on the surroundings of a connection

    [Limits] fixes a message limit below 2^31 and no close timeout (with one,
    see [close_timeout_scheduled_twice]). Fewer than 2^31 requests are
    dispatched at a time: every step of ConnectionSystem.v asks for it ([fits]),
    since the code adds to its count without a check. The steps of the users
    carry the guards of that file: their messages stay below 2 GB, and a batch
    for a datagram fits a packet. [TransceiverLaws] says that a transceiver
    moves bytes between the socket and the stream and nothing else; [tcp_laws]
    and [udp_laws] of Transceiver.v prove it. [BZip2Laws] says that
    decompression undoes compression, [ReplyLaws] that reading a reply fails
    with a local exception only. The concrete runs of ConnectionExample.v and
    the witnesses show that these hypotheses hold together.

    ** What is not modelled

    Reference counts outside of GC.v (the other components own what they use),
    the text of traces and warnings, and the reason of an [UnmarshalOutOfBoundsException] are left
    out. The tables of locators and routers, the choice of a connection for a
    routable reference, the factories of connections, the request handlers and
    asynchronous invocations complete by remote calls on threads of the pool:
    what they answer is a parameter where another part uses it.
    Sockets, threads, timers, logging, metrics, the secure transport and the
    Slice compilers are outside of it: they are I/O, bindings of libraries of
    the platform, or systems of their own. Of slice2cpp only the shape of the
    functions that marshal a class, and that the collector calls, is modelled. *)

From stdpp Require Export base tactics list numbers gmap strings sorting.
From Stdlib Require Export ZArith Lia Ascii.
From Stdlib Require String.
Export String.StringSyntax.

#[global] Open Scope Z_scope.
#[global] Set Default Goal Selector "!".

Declare Scope cxx_scope.
Delimit Scope cxx_scope with cxx.
#[global] Open Scope cxx_scope.

(** ** Characters, bytes and strings

    [Ice::Byte] and [char] are both 8 bits wide and the code copies one to the
    other with [memcpy]; one type serves for both. *)

Abbreviation byte := ascii.
Abbreviation str := (list ascii).

Notation "'lit' s" := (String.list_ascii_of_string s%string)
  (at level 9, s at level 8, only parsing) : cxx_scope.

Definition ord (c : ascii) : Z := Z.of_N (N_of_ascii c).

(** Conversion of an integer to an 8-bit unsigned type. *)
Definition chr (z : Z) : ascii := ascii_of_N (Z.to_N (z mod 256)).

#[export] Instance byte_inhabited : Inhabited byte := populate (chr 0).

Lemma ord_range c : 0 <= ord c < 256.
Proof. unfold ord. pose proof (N_ascii_bounded c). lia. Qed.

Lemma chr_ord c : chr (ord c) = c.
Proof.
  unfold chr. rewrite Z.mod_small by apply ord_range.
  unfold ord. rewrite N2Z.id. apply ascii_N_embedding.
Qed.

Lemma ord_chr z : ord (chr z) = z mod 256.
Proof.
  unfold chr, ord. pose proof (Z.mod_pos_bound z 256).
  rewrite N_ascii_embedding by lia. lia.
Qed.

Lemma ord_chr_small z : 0 <= z < 256 -> ord (chr z) = z.
Proof. intros. rewrite ord_chr. apply Z.mod_small; lia. Qed.

Lemma ord_inj c d : ord c = ord d -> c = d.
Proof. intros H. by rewrite <- (chr_ord c), H, chr_ord. Qed.

Lemma ord_eqb_spec c d : ord c = ord d <-> c = d.
Proof. split; [apply ord_inj | by intros ->]. Qed.

(** Boolean equality of characters, as [==] and [switch] use it. *)
Definition ceq (c d : ascii) : bool := Ascii.eqb c d.

Lemma ceq_true c d : ceq c d = true <-> c = d.
Proof. apply Ascii.eqb_eq. Qed.

Lemma ceq_false c d : ceq c d = false <-> c <> d.
Proof. apply Ascii.eqb_neq. Qed.

Lemma ceq_refl c : ceq c c = true.
Proof. by apply ceq_true. Qed.

(** A property of one byte, checked by evaluation on all of them *)
Lemma forall_byte (P : ascii -> bool) :
  forallb (fun n => P (chr (Z.of_nat n))) (seq 0 256) = true -> forall c, P c = true.
Proof.
  intros H c. rewrite forallb_forall in H. pose proof (ord_range c).
  specialize (H (Z.to_nat (ord c))). rewrite Z2Nat.id, chr_ord in H by lia. apply H, in_seq. lia.
Qed.

(** ** Machine integers *)

(** Conversion to a signed type of [w] bits and to an unsigned one. *)
Definition to_signed (w : Z) (z : Z) : Z := (z + 2 ^ (w - 1)) mod 2 ^ w - 2 ^ (w - 1).
Definition to_unsigned (w : Z) (z : Z) : Z := z mod 2 ^ w.

Abbreviation to_i32 := (to_signed 32).
Abbreviation to_u64 := (to_unsigned 64).

Definition in_signed (w z : Z) : Prop := - 2 ^ (w - 1) <= z < 2 ^ (w - 1).

Lemma to_signed_id w z : 0 < w -> in_signed w z -> to_signed w z = z.
Proof.
  intros Hw [H1 H2]. unfold to_signed.
  assert (2 ^ w = 2 * 2 ^ (w - 1)) as E.
  { replace w with (Z.succ (w - 1)) at 1 by lia. rewrite Z.pow_succ_r by lia. done. }
  rewrite Z.mod_small; lia.
Qed.

Lemma to_signed_range w z : 0 < w -> in_signed w (to_signed w z).
Proof.
  intros Hw. unfold in_signed, to_signed.
  assert (2 ^ w = 2 * 2 ^ (w - 1)) as E.
  { replace w with (Z.succ (w - 1)) at 1 by lia. rewrite Z.pow_succ_r by lia. done. }
  assert (0 < 2 ^ (w - 1)) by (apply Z.pow_pos_nonneg; lia).
  pose proof (Z.mod_pos_bound (z + 2 ^ (w - 1)) (2 ^ w)). lia.
Qed.

Lemma to_signed_mod w z : 0 < w -> to_signed w (z mod 2 ^ w) = to_signed w z.
Proof.
  intros Hw. unfold to_signed. f_equal. by rewrite Zplus_mod_idemp_l.
Qed.

Lemma to_i32_id z : - 2 ^ 31 <= z < 2 ^ 31 -> to_i32 z = z.
Proof. intros. apply to_signed_id; [lia | done]. Qed.

(** ** Little-endian byte sequences *)

Fixpoint le_bytes (n : nat) (z : Z) : list byte :=
  match n with
  | O => []
  | S n' => chr z :: le_bytes n' (z / 256)
  end.

Fixpoint le_val (bs : list byte) : Z :=
  match bs with
  | [] => 0
  | c :: bs' => ord c + 256 * le_val bs'
  end.

Lemma length_le_bytes n z : length (le_bytes n z) = n.
Proof. revert z; induction n; intros; simpl; auto. Qed.

Lemma le_val_range bs : 0 <= le_val bs < 256 ^ Z.of_nat (length bs).
Proof.
  induction bs as [|c bs IH]; simpl length; [simpl; lia|].
  rewrite Nat2Z.inj_succ, Z.pow_succ_r by lia.
  pose proof (ord_range c). cbn [le_val]. lia.
Qed.

Lemma le_val_le_bytes n z : le_val (le_bytes n z) = z mod 256 ^ Z.of_nat n.
Proof.
  revert z; induction n as [|n IH]; intros z; cbn [le_bytes le_val].
  { by rewrite Z.mod_1_r. }
  rewrite IH, ord_chr, Nat2Z.inj_succ, Z.pow_succ_r by lia.
  rewrite Z.rem_mul_r by (try apply Z.pow_pos_nonneg; lia). lia.
Qed.

Lemma le_bytes_le_val bs : le_bytes (length bs) (le_val bs) = bs.
Proof.
  induction bs as [|c bs IH]; cbn [le_bytes le_val length]; [done|].
  pose proof (ord_range c). f_equal.
  - apply ord_inj. rewrite ord_chr.
    rewrite (Z.mul_comm 256), Z.mod_add by lia. by apply Z.mod_small.
  - assert ((ord c + 256 * le_val bs) / 256 = le_val bs) as -> by (Z.to_euclidean_division_equations; lia).
    done.
Qed.

Lemma le_bytes_mod n z : le_bytes n (z mod 256 ^ Z.of_nat n) = le_bytes n z.
Proof.
  rewrite <- le_val_le_bytes.
  rewrite <- (length_le_bytes n z) at 1. apply le_bytes_le_val.
Qed.

Lemma pow256 n : 256 ^ Z.of_nat n = 2 ^ (8 * Z.of_nat n).
Proof. rewrite Z.pow_mul_r by lia. done. Qed.

(** A signed value of [n] bytes survives its little-endian representation. *)
Lemma to_signed_le n z : (0 < n)%nat -> in_signed (8 * Z.of_nat n) z ->
  to_signed (8 * Z.of_nat n) (le_val (le_bytes n z)) = z.
Proof.
  intros Hn Hz. rewrite le_val_le_bytes, pow256.
  rewrite to_signed_mod by lia. apply to_signed_id; [lia|done].
Qed.

Lemma mod_to_signed w z : 0 < w -> to_signed w z mod 2 ^ w = z mod 2 ^ w.
Proof.
  intros Hw. unfold to_signed. rewrite (Z.mod_eq (z + 2 ^ (w - 1))) by lia.
  replace (z + 2 ^ (w - 1) - 2 ^ w * ((z + 2 ^ (w - 1)) / 2 ^ w) - 2 ^ (w - 1))
    with (z + - ((z + 2 ^ (w - 1)) / 2 ^ w) * 2 ^ w) by lia.
  apply Z.mod_add. lia.
Qed.

(** Converting to a signed type does not change the bytes. *)
Lemma le_bytes_to_signed n z : (0 < n)%nat ->
  le_bytes n (to_signed (8 * Z.of_nat n) z) = le_bytes n z.
Proof.
  intros Hn. rewrite <- (le_bytes_mod n z), <- (le_bytes_mod n (to_signed _ z)), pow256.
  by rewrite mod_to_signed by lia.
Qed.

(** ** Outcomes of C++ code

    [Throw] is a C++ exception, which a handler can catch. [Fault] is the
    rest: a failed [assert], an access outside an object, or a loop that used
    up the fuel of its model. *)

Inductive exn : Type :=
  | IllegalArgumentException (reason : str)
  | UnmarshalOutOfBoundsException
  | EncapsulationException (reason : str)
  | MarshalException (reason : str)
  | MemoryLimitException (requested maximum : Z)
  | NoObjectFactoryException (reason type : str)
  | UnexpectedObjectException (reason type expectedType : str)
  | UnknownUserException (unknown : str)
  | UnsupportedEncodingException (bad supported : Z * Z)
  | VersionParseException (s : str)
  | IdentityParseException (s : str)
  | AlreadyRegisteredException (kindOfObject id : str)
  | NotRegisteredException (kindOfObject id : str)
  | InitializationException (reason : str)
  | FileException (path : str)
  | BadAlloc
  | MemoryLimit
  | UnsupportedProtocolException (bad supported : Z * Z)
  | BadMagicException (badMagic : list byte)
  | IllegalMessageSizeException
  | UnknownMessageException
  | UnknownRequestIdException
  | UnknownReplyStatusException
  | ConnectionNotValidatedException
  | CompressionException (reason : str)
  | FeatureNotSupportedException (unsupportedFeature : str)
  | DatagramLimitException
  | CloseConnectionException
  | ForcedCloseConnectionException
  | ConnectionTimeoutException
  | ConnectTimeoutException
  | CloseTimeoutException
  | TimeoutException
  | CommunicatorDestroyedException
  | ObjectAdapterDeactivatedException
  | SocketException (error : Z)
  | ConnectionLostException (error : Z)
  | RequestFailedException (status : Z) (name category facet operation : str)
  | UnknownException (status : Z) (unknown : str)
  | EndpointParseException (s : str)
  | ProxyParseException (s : str)
  | ProxyUnmarshalException
  | IllegalIdentityException (name category : str)
  | EndpointSelectionTypeParseException (s : str)
  | FixedProxyException
  | NoEndpointException (proxy : str)
  | NullHandleException
  | APIException (reason : str)
  | BadOptException (reason : str)
  | ResponseSentException
  | UserException (ex : nat)
  | StdException (what : str)
  | OtherException
  | LocalExceptionWrapper (ex : exn) (retry : bool).

(** [catch(const Ice::LocalException&)] does not catch the exceptions of
    IceUtil and of the standard library, nor the wrapper that the proxies
    use to tell whether a request can be retried. User exceptions are known by
    numbers, and [OtherException] is what is no [std::exception]. *)
Definition is_local (e : exn) : bool :=
  match e with
  | IllegalArgumentException _ | NullHandleException | BadAlloc | APIException _ | BadOptException _
  | UserException _ | StdException _ | OtherException | LocalExceptionWrapper _ _ => false
  | _ => true
  end.

Inductive fault : Type := AssertionFailure | UndefinedBehaviour | OutOfFuel.

Inductive result (A : Type) : Type :=
  | Ok (a : A)
  | Throw (e : exn)
  | Fault (f : fault).
Arguments Ok {A} a.
Arguments Throw {A} e.
Arguments Fault {A} f.

#[export] Instance result_ret : MRet result := @Ok.
#[export] Instance result_bind : MBind result := fun A B k m =>
  match m with Ok a => k a | Throw e => Throw e | Fault f => Fault f end.

Definition is_ok {A} (r : result A) : bool := match r with Ok _ => true | _ => false end.

(** ** Stateful code

    The state survives an exception, as the objects it models do. *)

Definition M (S A : Type) : Type := S -> result A * S.

#[export] Instance M_ret S : MRet (M S) := fun A a s => (Ok a, s).
#[export] Instance M_bind S : MBind (M S) := fun A B k m s =>
  match m s with
  | (Ok a, s') => k a s'
  | (Throw e, s') => (Throw e, s')
  | (Fault f, s') => (Fault f, s')
  end.

Definition throw {S A} (e : exn) : M S A := fun s => (Throw e, s).
Definition faultM {S A} (f : fault) : M S A := fun s => (Fault f, s).
Definition get {S} : M S S := fun s => (Ok s, s).
Definition gets {S A} (f : S -> A) : M S A := fun s => (Ok (f s), s).
Definition modify {S} (f : S -> S) : M S unit := fun s => (Ok tt, f s).
Definition lift {S A} (r : result A) : M S A := fun s => (r, s).
Definition assertM {S} (b : bool) : M S unit :=
  if b then mret tt else faultM AssertionFailure.

Section monad_lemmas.
Context {S A B : Type}.
Implicit Types (m : M S A) (k : A -> M S B).

Lemma bind_ok m k s a s' : m s = (Ok a, s') -> mbind k m s = k a s'.
Proof. intros H. unfold mbind, M_bind. by rewrite H. Qed.

Lemma bind_throw m k s e s' : m s = (Throw e, s') -> mbind k m s = (Throw e, s').
Proof. intros H. unfold mbind, M_bind. by rewrite H. Qed.

Lemma bind_fault m k s f s' : m s = (Fault f, s') -> mbind k m s = (Fault f, s').
Proof. intros H. unfold mbind, M_bind. by rewrite H. Qed.

Lemma bind_get (k : S -> M S B) s : mbind k get s = k s s.
Proof. done. Qed.

Lemma bind_gets (f : S -> A) k s : mbind k (gets f) s = k (f s) s.
Proof. done. Qed.

Lemma bind_modify f (k : unit -> M S B) s : mbind k (modify f) s = k tt (f s).
Proof. done. Qed.

Lemma bind_ret (a : A) k s : mbind k (mret a) s = k a s.
Proof. done. Qed.

Lemma bind_assert (c : bool) (k : unit -> M S B) s : c = true -> mbind k (assertM c) s = k tt s.
Proof. by intros ->. Qed.

Lemma bind_lift (r : result A) k s a : r = Ok a -> mbind k (lift r) s = k a s.
Proof. by intros ->. Qed.

(** Inversion of a successful sequence. *)
Lemma bind_inv m k s b s'' : mbind k m s = (Ok b, s'') ->
  exists a s', m s = (Ok a, s') /\ k a s' = (Ok b, s'').
Proof.
  unfold mbind, M_bind. destruct (m s) as [[a|e|f] s'] eqn:E; intros H; simplify_eq.
  by exists a, s'.
Qed.
End monad_lemmas.

(** Two computations are equivalent when they agree on every state. *)
#[export] Instance M_equiv {S A} : Equiv (M S A) := fun m1 m2 => forall s, m1 s = m2 s.

#[export] Instance M_equivalence {S A} : Equivalence (equiv (A := M S A)).
Proof.
  split.
  - by intros m s.
  - by intros m1 m2 H s.
  - intros m1 m2 m3 H1 H2 s. by rewrite H1.
Qed.

#[export] Instance M_bind_proper {S A B} :
  Proper (pointwise_relation A (≡) ==> (≡) ==> (≡)) (mbind (M := M S) (A := A) (B := B)).
Proof.
  intros k1 k2 Hk m1 m2 Hm s. unfold mbind, M_bind. rewrite Hm.
  destruct (m2 s) as [[a|e|f] s']; [apply Hk|done|done].
Qed.

(** Case analysis and rewriting used by every component. *)

Ltac inv_ok :=
  repeat match goal with
  | H : mbind _ _ _ = (Ok _, _) |- _ =>
      let a := fresh "a" in let s := fresh "s" in let H1 := fresh "H" in
      apply bind_inv in H as (a & s & H1 & H)
  | H : mret _ _ = (Ok _, _) |- _ => injection H as ??; subst
  end.

(** One step of a sequence that cannot fail. *)
Ltac step := first [ rewrite bind_get | rewrite bind_gets | rewrite bind_modify | rewrite bind_ret ].
Ltac steps := repeat step.

(** Destruct the boolean test of an [if] in the goal, keeping its equation. *)
Ltac case_if :=
  match goal with
  | |- context [if ?b then _ else _] =>
      match type of b with bool => let E := fresh "E" in destruct b eqn:E end
  end.

Ltac bool_to_prop :=
  repeat match goal with
  | H : (_ && _) = true |- _ => apply andb_true_iff in H as [??]
  | H : (_ || _) = false |- _ => apply orb_false_iff in H as [??]
  | H : negb _ = true |- _ => apply negb_true_iff in H
  | H : negb _ = false |- _ => apply negb_false_iff in H
  | H : (_ <? _) = true |- _ => apply Z.ltb_lt in H
  | H : (_ <? _) = false |- _ => apply Z.ltb_ge in H
  | H : (_ <=? _) = true |- _ => apply Z.leb_le in H
  | H : (_ <=? _) = false |- _ => apply Z.leb_gt in H
  | H : (_ =? _) = true |- _ => apply Z.eqb_eq in H
  | H : (_ =? _) = false |- _ => apply Z.eqb_neq in H
  | H : (_ <? _)%nat = true |- _ => apply Nat.ltb_lt in H
  | H : (_ <? _)%nat = false |- _ => apply Nat.ltb_ge in H
  | H : (_ <=? _)%nat = true |- _ => apply Nat.leb_le in H
  | H : (_ <=? _)%nat = false |- _ => apply Nat.leb_gt in H
  | H : (_ =? _)%nat = true |- _ => apply Nat.eqb_eq in H
  | H : (_ =? _)%nat = false |- _ => apply Nat.eqb_neq in H
  | H : ceq _ _ = true |- _ => apply ceq_true in H
  | H : ceq _ _ = false |- _ => apply ceq_false in H
  end.

(** The lemmas that automate the common cases of the development. *)
Create HintDb cxx discriminated.
Create Rewrite HintDb cxx.
#[export] Hint Rewrite length_le_bytes le_val_le_bytes chr_ord : cxx.
#[export] Hint Resolve ord_range to_signed_range : cxx.
