(* ===== verification/Hoare.v ===== *)
(** * Reasoning about stateful code

    Weakest preconditions of the monad [M]: [wp m Q E s] says that [m], run in
    the state [s], does not fault, that it ends in [Q] when it returns and in
    [E] when it throws. The rules follow the statements of the source: a
    sequence, [try] and [catch], [assert], and an operation on a member of the
    state. *)

From S2P Require Import Prelude.

(** ** The handler of local exceptions and members of the state *)

Definition try_local {S A} (m : M S A) (handler : exn -> M S A) : M S A := fun s =>
  match m s with
  | (Throw e, s') => if is_local e then handler e s' else (Throw e, s')
  | r => r
  end.

(** [m] on the member of the state that [get_t] reads and [set_t] replaces *)
Definition on {S T A} (get_t : S -> T) (set_t : T -> S -> S) (m : M T A) : M S A := fun s =>
  let '(r, t) := m (get_t s) in (r, set_t t s).

(** [if(c) m] *)
Definition when {S} (c : bool) (m : M S unit) : M S unit := if c then m else mret tt.

Section wp.
Context {S A : Type}.

Definition wp (m : M S A) (Q : A -> S -> Prop) (E : exn -> S -> Prop) (s : S) : Prop :=
  match m s with
  | (Ok a, s') => Q a s'
  | (Throw e, s') => E e s'
  | (Fault _, _) => False
  end.

Lemma wp_conseq m (Q Q' : A -> S -> Prop) (E E' : exn -> S -> Prop) s :
  wp m Q E s -> (forall a s', Q a s' -> Q' a s') -> (forall e s', E e s' -> E' e s') -> wp m Q' E' s.
Proof. unfold wp. destruct (m s) as [[a|e|f] s']; naive_solver. Qed.

Lemma wp_ret a Q E s : Q a s -> wp (mret a) Q E s.
Proof. done. Qed.

Lemma wp_throw e Q E s : E e s -> wp (throw e) Q E s.
Proof. done. Qed.

Lemma wp_gets (f : S -> A) Q E s : Q (f s) s -> wp (gets f) Q E s.
Proof. done. Qed.

Lemma wp_lift (r : result A) (Q : A -> S -> Prop) (E : exn -> S -> Prop) s :
  match r with Ok a => Q a s | Throw e => E e s | Fault _ => False end -> wp (lift r) Q E s.
Proof. by destruct r. Qed.

Lemma wp_try m h Q E s :
  wp m Q (fun e s' => if is_local e then wp (h e) Q E s' else E e s') s -> wp (try_local m h) Q E s.
Proof.
  unfold wp, try_local. destruct (m s) as [[a|e|f] s']; [done| |done].
  by destruct (is_local e).
Qed.

Lemma wp_if (c : bool) m1 m2 Q E s :
  (c = true -> wp m1 Q E s) -> (c = false -> wp m2 Q E s) -> wp (if c then m1 else m2) Q E s.
Proof. destruct c; auto. Qed.
End wp.

Lemma wp_bind {S A B} (m : M S A) (k : A -> M S B) Q E s :
  wp m (fun a s' => wp (k a) Q E s') E s -> wp (mbind k m) Q E s.
Proof. unfold wp, mbind, M_bind. by destruct (m s) as [[a|e|f] s']. Qed.

Lemma wp_get {S} (Q : S -> S -> Prop) E s : Q s s -> wp get Q E s.
Proof. done. Qed.

Lemma wp_modify {S} (f : S -> S) (Q : unit -> S -> Prop) E s : Q tt (f s) -> wp (modify f) Q E s.
Proof. done. Qed.

Lemma wp_assert {S} (c : bool) (Q : unit -> S -> Prop) E s : c = true -> Q tt s -> wp (assertM c) Q E s.
Proof. by intros ->. Qed.

Lemma wp_when {S} (c : bool) m (Q : unit -> S -> Prop) E s :
  (c = true -> wp m Q E s) -> (c = false -> Q tt s) -> wp (when c m) Q E s.
Proof. unfold when. destruct c; intros H1 H2; [by apply H1|by apply H2]. Qed.

Lemma wp_on {S T A} (g : S -> T) u (m : M T A) Q E s :
  wp m (fun a t => Q a (u t s)) (fun e t => E e (u t s)) (g s) -> wp (on g u m) Q E s.
Proof. unfold wp, on. destruct (m (g s)) as [[a|e|f] t] eqn:E1; by rewrite ?E1. Qed.

(** What a computation that cannot fail does, from its equation *)
Lemma wp_eq {S A} (m : M S A) (Q : A -> S -> Prop) E s a s' : m s = (Ok a, s') -> Q a s' -> wp m Q E s.
Proof. unfold wp. by intros ->. Qed.

Lemma wp_inv_ok {S A} (m : M S A) (Q : A -> S -> Prop) E s a s' : wp m Q E s -> m s = (Ok a, s') -> Q a s'.
Proof. unfold wp. intros H E1. by rewrite E1 in H. Qed.

Lemma wp_elim {S A} (m : M S A) (Q : A -> S -> Prop) E s : wp m Q E s ->
  (exists a s', m s = (Ok a, s') /\ Q a s') \/ (exists e s', m s = (Throw e, s') /\ E e s').
Proof. unfold wp. destruct (m s) as [[a|e|f] s']; intros H; [left; eauto|right; eauto|done]. Qed.

(** ** What a computation leaves alone, however it ends *)

Definition frame {S T A} (g : S -> T) (m : M S A) : Prop := forall s, g ((m s).2) = g s.

Section frames.
Context {S T : Type} (g : S -> T).

Lemma frame_bind {A B} (m : M S A) (k : A -> M S B) : frame g m -> (forall a, frame g (k a)) -> frame g (mbind k m).
Proof.
  intros Hm Hk s. unfold mbind, M_bind. specialize (Hm s). destruct (m s) as [[a|e|f] s']; [|done|done].
  rewrite Hk. exact Hm.
Qed.

Lemma frame_ret {A} (a : A) : frame g (mret a).
Proof. done. Qed.
Lemma frame_throw {A} e : frame g (throw (A := A) e).
Proof. done. Qed.
Lemma frame_fault {A} f : frame g (faultM (A := A) f).
Proof. done. Qed.
Lemma frame_get : frame g get.
Proof. done. Qed.
Lemma frame_gets {A} (f : S -> A) : frame g (gets f).
Proof. done. Qed.
Lemma frame_lift {A} (r : result A) : frame g (lift r).
Proof. done. Qed.
Lemma frame_assert c : frame g (assertM c).
Proof. by destruct c. Qed.
Lemma frame_modify f : (forall s, g (f s) = g s) -> frame g (modify f).
Proof. done. Qed.
End frames.

Create HintDb frame discriminated.
#[export] Hint Resolve frame_ret frame_throw frame_fault frame_get frame_gets frame_lift frame_assert : frame.

(** Descend into a sequence of statements. *)
Ltac frames :=
  repeat match goal with
  | |- frame _ (mbind _ _) => apply frame_bind; [|intros ?]
  | |- frame _ (modify _) => apply frame_modify; done
  | |- frame _ (if ?c then _ else _) => destruct c
  | |- frame _ (match ?x with _ => _ end) => destruct x
  | |- frame _ _ => solve [eauto with frame nocore]
  end.

(** One statement of the program. *)
Ltac wp_step :=
  lazymatch goal with
  | |- wp (mbind _ _) _ _ _ => apply wp_bind
  | |- wp (mret _) _ _ _ => apply wp_ret
  | |- wp (throw _) _ _ _ => apply wp_throw
  | |- wp get _ _ _ => apply wp_get
  | |- wp (gets _) _ _ _ => apply wp_gets
  | |- wp (modify _) _ _ _ => apply wp_modify
  | |- wp (lift _) _ _ _ => apply wp_lift
  | |- wp (try_local _ _) _ _ _ => apply wp_try
  | |- wp (on _ _ _) _ _ _ => apply wp_on
  end.
Ltac wp_steps := repeat (wp_step; cbv beta).
