(* ===== verification/CxxString.v ===== *)
(** * The part of the C++ library the sources use on strings

    [std::string] searches return an index or [npos]; here [npos] is [None].
    [std::istringstream] is modelled for the one use the sources make of it:
    extract an [Int] and ask whether the end of the stream was reached. *)

From stdpp Require Import pretty.
From S2P Require Import Prelude.

(** [ostream << int]: decimal digits *)
Definition show_int (z : Z) : str := String.list_ascii_of_string (pretty z).

(** ** Character classes (the "C" locale) *)

Definition between (lo hi : Z) (c : ascii) : bool := (lo <=? ord c) && (ord c <=? hi).

Definition isspace (c : ascii) : bool := (ord c =? 32) || between 9 13 c.
Definition isdigit (c : ascii) : bool := between 48 57 c.
Definition islower (c : ascii) : bool := between 97 122 c.
Definition isupper (c : ascii) : bool := between 65 90 c.
Definition isascii (c : ascii) : bool := ord c <? 128.
Definition toupper (c : ascii) : ascii := if islower c then chr (ord c - 32) else c.
Definition tolower (c : ascii) : ascii := if isupper c then chr (ord c + 32) else c.

(** ** Searches *)

Definition mem_char (c : ascii) (s : str) : bool := existsb (ceq c) s.

Fixpoint find_if (P : ascii -> bool) (s : str) : option nat :=
  match s with
  | [] => None
  | c :: s' => if P c then Some 0%nat else S <$> find_if P s'
  end.

Definition find_if_from (P : ascii -> bool) (pos : nat) (s : str) : option nat :=
  (fun k => (pos + k)%nat) <$> find_if P (drop pos s).

(** [s.find(c, pos)] *)
Definition find_char (c : ascii) (pos : nat) (s : str) : option nat := find_if_from (ceq c) pos s.

(** [s.find_first_of(set, pos)] and [s.find_first_not_of(set, pos)] *)
Definition find_first_of (set : str) (pos : nat) (s : str) : option nat :=
  find_if_from (fun c => mem_char c set) pos s.
Definition find_first_not_of (set : str) (pos : nat) (s : str) : option nat :=
  find_if_from (fun c => negb (mem_char c set)) pos s.

(** [s.find_last_not_of(set)] *)
Definition find_last_not_of (set : str) (s : str) : option nat :=
  (fun k => (length s - 1 - k)%nat) <$> find_if (fun c => negb (mem_char c set)) (reverse s).

(** [s.compare(0, p.size(), p) == 0] *)
Fixpoint starts_with (p s : str) : bool :=
  match p, s with
  | [], _ => true
  | c :: p', d :: s' => ceq c d && starts_with p' s'
  | _ :: _, [] => false
  end.

(** [s.find(p)] *)
Fixpoint find_str (p s : str) : option nat :=
  if starts_with p s then Some 0%nat
  else match s with [] => None | _ :: s' => S <$> find_str p s' end.

(** [s.substr(pos, n)] for [pos <= s.size()] *)
Definition substr (pos n : nat) (s : str) : str := take n (drop pos s).

Definition str_eqb (s t : str) : bool := bool_decide (s = t).

(** ** [operator>>(istream&, int&)] followed by [eof()] *)

Fixpoint skip_space (s : str) : str :=
  match s with
  | c :: s' => if isspace c then skip_space s' else s
  | [] => []
  end.

Fixpoint read_digits (acc : option Z) (s : str) : option Z * str :=
  match s with
  | c :: s' =>
      if isdigit c then read_digits (Some (10 * default 0 acc + (ord c - 48))) s'
      else (acc, s)
  | [] => (acc, [])
  end.

Definition read_sign (s : str) : bool * str :=
  match s with
  | c :: s' => if ceq c "-" then (true, s') else if ceq c "+" then (false, s') else (false, s)
  | [] => (false, [])
  end.

(** [if(!(v >> value) || !v.eof())]: [Some] of the value when the test fails,
    that is when the whole text was one integer of the range of [Int]. *)
Definition istream_int_eof (s : str) : option Z :=
  let '(neg, s1) := read_sign (skip_space s) in
  match read_digits None s1 with
  | (Some n, []) =>
      let v := if neg then - n else n in
      if (- 2 ^ 31 <=? v) && (v <? 2 ^ 31) then Some v else None
  | _ => None
  end.

(** ** Lemmas *)

Lemma mem_char_spec c s : mem_char c s = true <-> c ∈ s.
Proof.
  unfold mem_char. rewrite existsb_exists. split.
  - intros (d & Hd & E). apply ceq_true in E as ->. by apply list_elem_of_In.
  - intros H. exists c. split; [by apply list_elem_of_In|apply ceq_refl].
Qed.

Lemma mem_char_false c s : mem_char c s = false <-> c ∉ s.
Proof. rewrite <- mem_char_spec. destruct (mem_char c s); naive_solver. Qed.

Lemma find_if_Some P s k : find_if P s = Some k ->
  exists c, s !! k = Some c /\ P c = true /\ Forall (fun d => P d = false) (take k s).
Proof.
  revert k; induction s as [|c s IH]; intros k H; simpl in H; [done|].
  destruct (P c) eqn:E.
  - injection H as <-. exists c. simpl. auto.
  - destruct (find_if P s) as [j|] eqn:F; [|done]. injection H as <-.
    destruct (IH j eq_refl) as (d & Hd & HP & Hall). exists d. simpl. auto.
Qed.

Lemma find_if_None P s : find_if P s = None <-> Forall (fun d => P d = false) s.
Proof.
  induction s as [|c s IH]; simpl; [by split; auto|].
  rewrite Forall_cons. destruct (P c) eqn:E; [naive_solver|].
  rewrite fmap_None, IH. naive_solver.
Qed.

Lemma find_if_app P s1 s2 c : Forall (fun d => P d = false) s1 -> P c = true ->
  find_if P (s1 ++ c :: s2) = Some (length s1).
Proof.
  induction 1 as [|d s1 Hd _ IH]; intros HP; simpl; [by rewrite HP|].
  by rewrite Hd, IH.
Qed.

Lemma starts_with_spec p s : starts_with p s = true <-> exists t, s = p ++ t.
Proof.
  revert s; induction p as [|c p IH]; intros s; simpl; [by split; eauto|].
  destruct s as [|d s]; [split; [done|by intros [t ?]]|].
  rewrite andb_true_iff, ceq_true, IH. naive_solver.
Qed.

Lemma starts_with_app p t : starts_with p (p ++ t) = true.
Proof. apply starts_with_spec. eauto. Qed.

Lemma find_str_zero p s : find_str p s = Some 0%nat <-> starts_with p s = true.
Proof.
  destruct s as [|c s]; simpl; destruct (starts_with p _) eqn:E; try by split.
  split; [|done]. intros H. by destruct (find_str p s).
Qed.

Lemma str_eqb_true s t : str_eqb s t = true <-> s = t.
Proof. apply bool_decide_eq_true. Qed.

Lemma str_eqb_false s t : str_eqb s t = false <-> s <> t.
Proof. apply bool_decide_eq_false. Qed.

#[export] Hint Rewrite mem_char_spec mem_char_false : cxx.

(** ** Printing and reading integers *)

Lemma pretty_N_char_digit x : (x < 10)%N ->
  isdigit (pretty_N_char x) = true /\ ord (pretty_N_char x) - 48 = Z.of_N x.
Proof.
  intros Hx. assert (x = 0 \/ x = 1 \/ x = 2 \/ x = 3 \/ x = 4 \/ x = 5 \/ x = 6 \/ x = 7 \/ x = 8 \/ x = 9)%N
    as Hc by lia.
  by repeat destruct Hc as [->|Hc]; [..|subst x].
Qed.

(** The decimal digits of [x] are read as [x] behind what was read before. *)
Lemma pretty_N_go_digits x : (0 < x)%N -> forall s, exists ds,
  String.list_ascii_of_string (pretty_N_go x s) = ds ++ String.list_ascii_of_string s /\
  Forall (fun c => isdigit c = true) ds /\ ds <> [] /\
  forall acc rest, read_digits acc (ds ++ rest) =
    read_digits (Some (10 ^ Z.of_nat (length ds) * default 0 acc + Z.of_N x)) rest.
Proof.
  induction (N.lt_wf_0 x) as [x _ IH]; intros Hx s. rewrite pretty_N_go_step by done.
  destruct (pretty_N_char_digit (x mod 10)) as [Hd Hv]; [by apply N.mod_lt|].
  pose proof (N.div_mod x 10 ltac:(done)) as Hdm.
  assert (Z.of_N x = 10 * Z.of_N (x / 10) + Z.of_N (x mod 10)) as Hdz by (rewrite Hdm at 1; lia).
  destruct (decide (x / 10 = 0)%N) as [E|E].
  - rewrite E, pretty_N_go_0. exists [pretty_N_char (x mod 10)].
    split; [done|]. split; [by constructor|]. split; [done|].
    intros acc rest. cbn [app read_digits length]. rewrite Hd, Hv.
    change (10 ^ Z.of_nat 1) with 10. rewrite E in Hdz. do 2 f_equal.
    revert Hdz. generalize (Z.of_N (x mod 10)), (Z.of_N x). intros u v. lia.
  - destruct (IH (x / 10)%N (N.div_lt x 10 Hx ltac:(done)) (proj1 (N.neq_0_lt_0 _) E) (String.String (pretty_N_char (x mod 10)) s))
      as (ds & Es & Hds & Hne & Hr).
    exists (ds ++ [pretty_N_char (x mod 10)]). rewrite Es, <- app_assoc. split; [done|].
    split; [by apply Forall_app; split; [|constructor]|]. split; [by destruct ds|].
    intros acc rest. rewrite <- app_assoc, Hr. cbn [app read_digits].
    change (default 0 (Some ?v)) with v. rewrite Hd, Hv. do 2 f_equal.
    rewrite length_app, Nat2Z.inj_add, Z.pow_add_r by lia.
    change (10 ^ Z.of_nat (length [_])) with 10.
    revert Hdz. generalize (Z.of_N (x mod 10)), (Z.of_N (x / 10)), (Z.of_N x), (default 0 acc). intros u v y d.
    generalize (10 ^ Z.of_nat (length ds)). intros k H. lia.
Qed.

Lemma show_pos_digits p : Forall (fun c => isdigit c = true) (show_int (Z.pos p)) /\ show_int (Z.pos p) <> [] /\
  read_digits None (show_int (Z.pos p)) = (Some (Z.pos p), []).
Proof.
  destruct (pretty_N_go_digits (N.pos p) ltac:(done) String.EmptyString) as (ds & Es & Hds & Hne & Hr).
  assert (show_int (Z.pos p) = ds) as -> by (etransitivity; [exact Es|apply app_nil_r]).
  split; [done|]. split; [done|]. specialize (Hr None []). rewrite app_nil_r in Hr. rewrite Hr.
  cbn [default read_digits]. do 2 f_equal. lia.
Qed.

(** Decimal digits, behind a minus sign for a negative integer *)
Lemma show_int_digits z : exists ds, Forall (fun c => isdigit c = true) ds /\ ds <> [] /\
  show_int z = (if z <? 0 then ["-"%char] else []) ++ ds.
Proof.
  destruct z as [|p|p].
  - exists ["0"%char]. by repeat constructor.
  - exists (show_int (Z.pos p)). by destruct (show_pos_digits p) as (? & ? & _).
  - exists (show_int (Z.pos p)). by destruct (show_pos_digits p) as (? & ? & _).
Qed.

Lemma digit_not_space c : isdigit c = true -> isspace c = false /\ ceq c "-" = false /\ ceq c "+" = false.
Proof.
  intros Hc. pose proof (forall_byte (fun c => negb (isdigit c) ||
    (negb (isspace c) && negb (ceq c "-") && negb (ceq c "+"))) ltac:(by vm_compute) c) as H.
  cbv beta in H. rewrite Hc in H. cbn [negb orb] in H. bool_to_prop. split; [done|]. by split; apply ceq_false.
Qed.

(** An [Int] is read back from its decimal representation. *)
Lemma istream_show_int z : - 2 ^ 31 <= z < 2 ^ 31 -> istream_int_eof (show_int z) = Some z.
Proof.
  intros Hz.
  assert (forall l : str, Forall (fun c => isdigit c = true) l -> l <> [] ->
    skip_space l = l /\ read_sign l = (false, l)) as Hl.
  { intros [|c l] Hd Hne; [done|]. apply Forall_cons in Hd as [Hc _].
    destruct (digit_not_space c Hc) as (H1 & H2 & H3). cbn. by rewrite H1, H2, H3. }
  unfold istream_int_eof. destruct z as [|p|p]; [done| |].
  - destruct (show_pos_digits p) as (Hd & Hne & Hr). destruct (Hl _ Hd Hne) as [-> ->]. rewrite Hr.
    rewrite (proj2 (Z.leb_le _ _)), (proj2 (Z.ltb_lt _ _)) by lia. done.
  - destruct (show_pos_digits p) as (Hd & Hne & Hr).
    change (show_int (Z.neg p)) with ("-"%char :: show_int (Z.pos p)). cbn [skip_space].
    change (isspace "-") with false. cbn [read_sign]. change (ceq "-" "-") with true. cbv iota. rewrite Hr.
    rewrite (proj2 (Z.leb_le _ _)), (proj2 (Z.ltb_lt _ _)) by lia. done.
Qed.
