(* ===== verification/Buffer.v ===== *)
(** * The growable byte buffer under every stream

    [IceInternal::Buffer::Container] (cpp/include/Ice/Buffer.h and
    cpp/src/Ice/Buffer.cpp) is the vector of bytes a [BasicStream] writes to
    and reads from. [Module Container] is the class with its memory block, its
    size, its capacity and its shrink counter; [contents] is the byte sequence
    a client sees. [Module ByteSeq] is the specification the stream is
    modelled on, and the theorems at the end relate the two. *)

From S2P Require Import Prelude.

(** The allocator behind [realloc]: whether a request succeeds, and the
    bytes it leaves in the cells it adds. *)
Record allocator : Type := Allocator {
  alloc_ok : nat -> bool;
  alloc_fill : nat -> byte
}.

(** [realloc(buf, n)]: the common prefix is kept. *)
Definition realloc (al : allocator) (buf : option (list byte)) (n : nat) : option (list byte) :=
  if alloc_ok al n then
    let old := default [] buf in
    Some (take n old ++ map (alloc_fill al) (seq (length old) (n - length old)))
  else None.

Module ByteSeq.

(** The new cells of a vector that grows hold no meaningful value until
    they are stored to. *)
Definition indeterminate : byte := chr 205.

Definition resize (n : nat) (l : list byte) : list byte :=
  take n l ++ replicate (n - length l) indeterminate.

(** [memcpy(&b[pos], src, len)] *)
Definition store (pos : nat) (src : list byte) (l : list byte) : list byte :=
  list_inserts pos src l.

Lemma length_resize n l : length (resize n l) = n.
Proof. unfold resize. rewrite length_app, length_take, length_replicate. lia. Qed.

Lemma length_store pos src l : length (store pos src l) = length l.
Proof. apply length_inserts. Qed.

Lemma store_app pos src l1 l2 : pos = length l1 -> length src = length l2 ->
  store pos src (l1 ++ l2) = l1 ++ src.
Proof.
  intros -> E. unfold store. rewrite <- (Nat.add_0_r (length l1)), list_inserts_app_r.
  f_equal. pose proof (list_inserts_0_r src l2 [] E) as H.
  by rewrite !app_nil_r in H.
Qed.

Lemma store_mid pos src l1 l2 l3 : pos = length l1 -> length src = length l2 ->
  store pos src (l1 ++ l2 ++ l3) = l1 ++ src ++ l3.
Proof.
  intros -> Hl. unfold store. rewrite <- (Nat.add_0_r (length l1)), list_inserts_app_r.
  f_equal. by apply list_inserts_0_r.
Qed.

Lemma resize_grow n l : (length l <= n)%nat -> exists junk,
  resize n l = l ++ junk /\ length junk = (n - length l)%nat.
Proof.
  intros Hn. unfold resize. rewrite take_ge by done.
  eexists. split; [done|]. apply length_replicate.
Qed.

(** Growing by the length of [src] and storing it in the new cells is
    appending it. *)
Lemma resize_store src l :
  store (length l) src (resize (length l + length src) l) = l ++ src.
Proof.
  unfold resize. rewrite take_ge by lia. apply store_app; [done|].
  rewrite length_replicate. lia.
Qed.

Lemma resize_le n l : (n <= length l)%nat -> resize n l = take n l.
Proof.
  intros H. unfold resize. replace (n - length l)%nat with 0%nat by lia.
  apply app_nil_r.
Qed.
End ByteSeq.

Module Container.

Record t : Type := mk {
  buf : option (list byte);   (** [_buf]; [None] is the null pointer *)
  size : nat;                 (** [_size] *)
  capacity : nat;             (** [_capacity] *)
  maxCapacity : nat;          (** [_maxCapacity] *)
  shrinkCounter : Z           (** [_shrinkCounter] *)
}.

Definition init (max : nat) : t := mk None 0 0 max 0.

(** The constructor that borrows memory it does not own. *)
Definition borrow (bytes : list byte) : t := mk (Some bytes) (length bytes) 0 0 0.

(** What [begin()] .. [end()] delimit. *)
Definition contents (c : t) : list byte := take (size c) (default [] (buf c)).

(** [assert(!_buf || _capacity > 0)] *)
Definition owned (c : t) : bool :=
  match buf c with None => true | Some _ => (0 <? capacity c)%nat end.

Definition swap (c d : t) : result (t * t) :=
  if owned c then
    Ok (mk (buf d) (size d) (capacity d) (maxCapacity c) (shrinkCounter d),
        mk (buf c) (size c) (capacity c) (maxCapacity d) (shrinkCounter c))
  else Fault AssertionFailure.

Definition clear : M t unit :=
  c ← get;
  assertM (owned c);;
  modify (fun c => mk None 0 0 (maxCapacity c) (shrinkCounter c)).

(** The capacity a growing [reserve] asks for. *)
Definition grown (c : t) (n : nat) : nat :=
  Nat.max 240 (Nat.max n (Nat.min (2 * capacity c) (maxCapacity c))).

Definition reserve (al : allocator) (n : nat) : M t unit :=
  c ← get;
  assertM (owned c);;
  if (n =? capacity c)%nat then mret tt
  else
    let cap := if (capacity c <? n)%nat then grown c n else n in
    match realloc al (buf c) cap with
    | Some p => modify (fun c => mk (Some p) (size c) cap (maxCapacity c) (shrinkCounter c))
    | None => throw BadAlloc
    end.

Definition set_size (n : nat) (c : t) : t :=
  mk (buf c) n (capacity c) (maxCapacity c) (shrinkCounter c).

Definition set_shrink (k : Z) (c : t) : t :=
  mk (buf c) (size c) (capacity c) (maxCapacity c) k.

Definition resize (al : allocator) (n : nat) : M t unit :=
  c ← get;
  assertM (owned c);;
  (if (n =? 0)%nat then clear
   else if (capacity c <? n)%nat then reserve al n
   else mret tt);;
  modify (set_size n).

Definition reset (al : allocator) : M t unit :=
  c ← get;
  assertM (owned c);;
  (if (0 <? size c)%nat && (size c * 2 <? capacity c)%nat then
     modify (set_shrink (shrinkCounter c + 1));;
     if 2 <? shrinkCounter c + 1 then reserve al (size c);; modify (set_shrink 0)
     else mret tt
   else modify (set_shrink 0));;
  modify (set_size 0).

(** [_buf[n] = v] inside the block. *)
Definition poke (n : nat) (v : byte) : M t unit :=
  c ← get;
  match buf c with
  | Some l =>
      if (n <? length l)%nat
      then modify (fun c => mk (Some (<[n := v]> l)) (size c) (capacity c) (maxCapacity c) (shrinkCounter c))
      else faultM UndefinedBehaviour
  | None => faultM UndefinedBehaviour
  end.

Definition push_back (al : allocator) (v : byte) : M t unit :=
  c ← get;
  resize al (size c + 1);;
  c' ← get;
  poke (size c' - 1) v.

(** [operator[]] used to store. *)
Definition set_at (n : nat) (v : byte) : M t unit :=
  c ← get;
  assertM (n <? size c)%nat;;
  poke n v.

(** [memcpy(&b[pos], src, len)] as stores through the block. *)
Fixpoint store (pos : nat) (src : list byte) : M t unit :=
  match src with
  | [] => mret tt
  | v :: src' => set_at pos v;; store (S pos) src'
  end.

(** ** The class invariant of an owning container *)

Definition wf (c : t) : Prop :=
  match buf c with
  | None => capacity c = 0%nat /\ size c = 0%nat
  | Some l => length l = capacity c /\ (0 < capacity c)%nat /\ (size c <= capacity c)%nat
  end.

Lemma wf_owned c : wf c -> owned c = true.
Proof.
  unfold wf, owned. destruct (buf c); [|done]. intros (_ & H & _).
  by apply Nat.ltb_lt.
Qed.

Lemma wf_init max : wf (init max).
Proof. done. Qed.

Lemma length_contents c : wf c -> length (contents c) = size c.
Proof.
  unfold wf, contents. rewrite length_take. destruct (buf c); simpl; lia.
Qed.

Lemma length_realloc al b n p : realloc al b n = Some p -> length p = n.
Proof.
  unfold realloc. destruct (alloc_ok al n); [|done]. intros [= <-].
  rewrite length_app, length_take, length_map, length_seq. lia.
Qed.

Lemma take_realloc al b n m p : realloc al b n = Some p ->
  (m <= n)%nat -> (m <= length (default [] b))%nat -> take m p = take m (default [] b).
Proof.
  unfold realloc. destruct (alloc_ok al n); [|done]. intros [= <-] H1 H2.
  rewrite take_app_le by (rewrite length_take; lia). rewrite take_take. f_equal. lia.
Qed.

(** ** Every operation keeps the invariant and acts on the contents as
    [ByteSeq] says *)

(** Outcome of an operation that may run out of memory: it either succeeds
    in a state that satisfies [Q], or throws [bad_alloc] and leaves the
    container as it was. *)
Definition succeeds_or_intact {A} (m : M t A) (c : t) (Q : A -> t -> Prop) : Prop :=
  match m c with
  | (Ok a, c') => wf c' /\ Q a c'
  | (Throw BadAlloc, c') => c' = c
  | _ => False
  end.

Lemma reserve_spec al n c : wf c -> (size c <= n)%nat -> (0 < n)%nat ->
  succeeds_or_intact (reserve al n) c (fun _ c' =>
    size c' = size c /\ (n <= capacity c')%nat /\ contents c' = contents c /\
    maxCapacity c' = maxCapacity c /\ shrinkCounter c' = shrinkCounter c).
Proof.
  intros Hwf Hn Hpos. unfold succeeds_or_intact, reserve.
  rewrite (bind_ok _ _ _ c c) by done. unfold assertM. rewrite wf_owned by done.
  rewrite (bind_ok _ _ _ tt c) by done.
  case_if; bool_to_prop.
  { simpl. split; [done|]. split_and!; auto; lia. }
  set (cap := if (capacity c <? n)%nat then grown c n else n).
  assert (n <= cap)%nat as Hcap.
  { subst cap. case_if; [unfold grown; lia | lia]. }
  destruct (realloc al (buf c) cap) as [p|] eqn:ER; [|done].
  simpl. pose proof (length_realloc _ _ _ _ ER) as Hl.
  split; [unfold wf; simpl; lia|]. split_and!; auto.
  unfold contents; simpl. eapply take_realloc; [done|lia|].
  unfold wf in Hwf. destruct (buf c); simpl; lia.
Qed.

Lemma resize_spec al n c : wf c ->
  succeeds_or_intact (resize al n) c (fun _ c' =>
    size c' = n /\
    take (Nat.min n (size c)) (contents c') = take (Nat.min n (size c)) (contents c)).
Proof.
  intros Hwf. unfold succeeds_or_intact, resize.
  rewrite (bind_ok _ _ _ c c) by done. unfold assertM. rewrite wf_owned by done.
  rewrite (bind_ok _ _ _ tt c) by done.
  case_if; bool_to_prop.
  - subst n. unfold clear. rewrite (bind_ok _ _ c tt (mk None 0 0 (maxCapacity c) (shrinkCounter c))).
    + simpl. done.
    + rewrite (bind_ok _ _ _ c c) by done. unfold assertM. by rewrite wf_owned.
  - case_if; bool_to_prop.
    + assert (Hsz : (size c <= n)%nat).
      { unfold wf in Hwf. destruct (buf c); lia. }
      pose proof (reserve_spec al n c Hwf Hsz ltac:(lia)) as H.
      unfold succeeds_or_intact in H. unfold mbind, M_bind.
      destruct (reserve al n c) as [[[]|[]|] c'] eqn:ER; try done.
      destruct H as (Hwf' & Hs & Hcap & Hc & _). simpl.
      split; [|split; [done|]].
      * unfold wf, set_size in *; simpl. destruct (buf c'); simpl in *; lia.
      * rewrite <- Hc. unfold contents; simpl. rewrite !take_take. f_equal. lia.
    + rewrite (bind_ok _ _ _ tt c) by done. simpl. split; [|split; [done|]].
      * unfold wf in *; simpl. destruct (buf c); simpl in *; lia.
      * unfold contents; simpl. rewrite !take_take. f_equal. lia.
Qed.

Lemma poke_spec n v c : wf c -> (n < size c)%nat ->
  exists c', poke n v c = (Ok tt, c') /\ wf c' /\ size c' = size c /\
    capacity c' = capacity c /\ contents c' = <[n := v]> (contents c).
Proof.
  intros Hwf Hn. unfold poke. rewrite (bind_ok _ _ _ c c) by done.
  unfold wf, contents in *. destruct (buf c) as [l|] eqn:E; [|lia].
  assert ((n <? length l)%nat = true) as -> by (apply Nat.ltb_lt; lia).
  eexists. split; [done|]. simpl. rewrite length_insert.
  split_and!; auto; [lia..|].
  by rewrite take_insert_lt by lia.
Qed.

Lemma bind_spec {A B} (m : M t A) (k : A -> M t B) c Q R :
  succeeds_or_intact m c Q ->
  (forall a c', wf c' -> Q a c' -> exists b c'', k a c' = (Ok b, c'') /\ wf c'' /\ R b c'') ->
  succeeds_or_intact (mbind k m) c R.
Proof.
  unfold succeeds_or_intact. intros H Hk. unfold mbind, M_bind.
  destruct (m c) as [[a|[]|] c'] eqn:E; try done.
  destruct H as [Hwf HQ]. destruct (Hk a c' Hwf HQ) as (b & c'' & -> & Hwf' & HR). done.
Qed.

(** [push_back] appends one byte. *)
Lemma push_back_spec al v c : wf c ->
  succeeds_or_intact (push_back al v) c (fun _ c' => contents c' = contents c ++ [v]).
Proof.
  intros Hwf. unfold push_back.
  unfold succeeds_or_intact. rewrite (bind_ok _ _ _ c c) by done.
  pose proof (resize_spec al (size c + 1) c Hwf) as H.
  refine (bind_spec _ (fun _ => c' ← get; poke (size c' - 1) v) c _
            (fun _ c' => contents c' = contents c ++ [v]) H _).
  intros [] c' Hwf' [Hs Ht]. rewrite (bind_ok _ _ _ c' c') by done.
  destruct (poke_spec (size c' - 1) v c' Hwf' ltac:(lia)) as (c'' & Hp & Hwf'' & _ & _ & Hc).
  exists tt, c''. split; [done|]. split; [done|]. rewrite Hc, Hs.
  assert (length (contents c') = size c + 1)%nat as Hl by (rewrite length_contents by done; lia).
  assert (length (contents c) = size c) as Hl0 by (by apply length_contents).
  rewrite Nat.min_r, (take_ge (contents c)) in Ht by lia.
  rewrite insert_take_drop by lia. replace (size c + 1 - 1)%nat with (size c) by lia.
  rewrite Ht, drop_ge by lia. done.
Qed.

Lemma store_spec src : forall pos c, wf c -> (pos + length src <= size c)%nat ->
  exists c', store pos src c = (Ok tt, c') /\ wf c' /\ size c' = size c /\
    contents c' = ByteSeq.store pos src (contents c).
Proof.
  induction src as [|v src IH]; intros pos c Hwf Hpos; simpl in *.
  { exists c. done. }
  unfold set_at.
  destruct (poke_spec pos v c Hwf ltac:(lia)) as (c1 & Hp & Hwf1 & Hs1 & _ & Hc1).
  destruct (IH (S pos) c1 Hwf1 ltac:(lia)) as (c2 & Hst & Hwf2 & Hs2 & Hc2).
  exists c2. split.
  - rewrite (bind_ok _ _ _ tt c1).
    + exact Hst.
    + rewrite (bind_ok _ _ _ c c) by done. unfold assertM.
      rewrite (proj2 (Nat.ltb_lt _ _)) by lia. by rewrite (bind_ok _ _ _ tt c) by done.
  - split_and!; [done|lia|]. rewrite Hc2, Hc1. unfold ByteSeq.store. simpl.
    by rewrite list_insert_inserts_lt by lia.
Qed.

(** The idiom of every [BasicStream::write]: grow the buffer, then fill the
    new cells. *)
Definition append (al : allocator) (src : list byte) : M t unit :=
  c ← get;
  resize al (size c + length src);;
  store (size c) src.
End Container.

(** The growable buffer refines a byte sequence: growing it by resize and
    storing through operator[] appends the bytes to its contents and keeps the class
    invariant, or throws bad_alloc. *)
Lemma append_refines (al : allocator) (src : list byte) (c : Container.t) :
  Container.wf c ->
  Container.succeeds_or_intact (Container.append al src) c (fun _ c' =>
    let l := Container.contents c in
    Container.contents c' =
      ByteSeq.store (length l) src (ByteSeq.resize (length l + length src) l) /\
    Container.contents c' = l ++ src).
Proof.
  intros Hwf. cbv zeta. unfold Container.append, Container.succeeds_or_intact.
  rewrite (bind_ok _ _ _ c c) by done.
  refine (Container.bind_spec _ _ c _ _ (Container.resize_spec al _ c Hwf) _).
  intros [] c' Hwf' [Hs Ht].
  pose proof (Container.length_contents c Hwf) as Hl.
  pose proof (Container.length_contents c' Hwf') as Hl'.
  destruct (Container.store_spec src (Container.size c) c' Hwf' ltac:(lia))
    as (c'' & Hst & Hwf'' & _ & Hc).
  exists tt, c''. split; [exact Hst|]. split; [done|].
  rewrite ByteSeq.resize_store. cut (Container.contents c'' = Container.contents c ++ src); [done|].
  rewrite Hc. rewrite Nat.min_r, (take_ge (Container.contents c)) in Ht by lia.
  rewrite <- (take_drop (Container.size c) (Container.contents c')), Ht.
  apply ByteSeq.store_app; [done|]. rewrite length_drop. lia.
Qed.

(** A container of 3 bytes in a block of 240, and an allocator that serves
    requests up to 4096 bytes. *)
Definition sample_allocator : allocator := Allocator (fun n => (n <=? 4096)%nat) (fun _ => chr 170).

Definition sample_container : Container.t :=
  snd (Container.append sample_allocator [chr 1; chr 2; chr 3] (Container.init 4096)).

Lemma append_refines_witness :
  Container.contents (snd (Container.append sample_allocator [chr 9] sample_container))
    = [chr 1; chr 2; chr 3; chr 9] /\
  Container.succeeds_or_intact (Container.append sample_allocator [chr 9])
    sample_container (fun _ c' =>
      let l := Container.contents sample_container in
      Container.contents c' =
        ByteSeq.store (length l) [chr 9] (ByteSeq.resize (length l + length [chr 9]) l) /\
      Container.contents c' = l ++ [chr 9]).
Proof.
  split; [vm_compute; reflexivity|].
  apply append_refines. vm_compute. repeat split; repeat constructor.
Defined.
