(* ===== verification/Layout.v ===== *)
(** * Scalars in host memory and the byte copies of the stream

    [BasicStream] moves scalars between host memory and the wire with pointer
    loops selected by [ICE_BIG_ENDIAN], [ICE_LITTLEBYTE_BIGWORD] and, for the
    zero-copy reads, by the x86 macros. This file models host memory, those
    loops with their pointers, and proves that each of them is the
    little-endian encoding whatever the host. *)

From S2P Require Import Prelude.

Inductive layout : Type :=
  | LittleEndian
  | BigEndian            (** [ICE_BIG_ENDIAN] *)
  | LittleByteBigWord.   (** [ICE_LITTLEBYTE_BIGWORD]: the two words of a double are swapped *)

(** What the preprocessor knows about the host. The zero-copy reads are
    compiled on x86 only, which is little-endian. *)
Class Platform : Type := {
  host : layout;
  host_x86 : bool;
  x86_is_little : host_x86 = true -> host = LittleEndian
}.

(** The fixed-size scalars of Slice. *)
Inductive scalar : Type := Short | Int | Long | Float | Double.

#[export] Instance scalar_eq_dec : EqDecision scalar.
Proof. solve_decision. Defined.

Definition sizeof (k : scalar) : nat :=
  match k with Short => 2 | Int | Float => 4 | Long | Double => 8 end.

(** Integers are signed values; a floating-point number is its IEEE bit
    pattern. *)
Definition in_range (k : scalar) (v : Z) : Prop :=
  match k with
  | Short | Int | Long => in_signed (8 * Z.of_nat (sizeof k)) v
  | Float | Double => 0 <= v < 2 ^ (8 * Z.of_nat (sizeof k))
  end.

Definition value_of_bits (k : scalar) (u : Z) : Z :=
  match k with
  | Short | Int | Long => to_signed (8 * Z.of_nat (sizeof k)) u
  | Float | Double => u
  end.

(** ** Host memory *)

Section memory.
Context `{PL : Platform}.

(** The order of the bytes of a scalar in memory, from their little-endian
    order and back. *)
Definition host_order (k : scalar) (le : list byte) : list byte :=
  match host with
  | LittleEndian => le
  | BigEndian => reverse le
  | LittleByteBigWord =>
      match k with Double => drop 4 le ++ take 4 le | _ => le end
  end.

Definition mem_of (k : scalar) (v : Z) : list byte :=
  host_order k (le_bytes (sizeof k) v).

Definition of_mem (k : scalar) (mem : list byte) : Z :=
  value_of_bits k (le_val (host_order k mem)).

(** An array of scalars occupies consecutive cells. *)
Definition array_mem (k : scalar) (vs : list Z) : list byte := vs ≫= mem_of k.

(** The [n] scalars of an array in memory. *)
Fixpoint array_of_mem (k : scalar) (n : nat) (mem : list byte) : list Z :=
  match n with
  | O => []
  | S n' => of_mem k (take (sizeof k) mem) :: array_of_mem k n' (drop (sizeof k) mem)
  end.
End memory.

(** ** Copies out of host memory *)

(** [*src] for a pointer that is an offset into [mem]. *)
Definition deref (mem : list byte) (src : Z) : byte := mem !!! Z.to_nat src.

(** [n] times [*dest++ = *src++]: the bytes stored, in order. *)
Fixpoint copy_up (mem : list byte) (src : Z) (n : nat) : list byte :=
  match n with
  | O => []
  | S n' => deref mem src :: copy_up mem (src + 1) n'
  end.

(** [n] times [*dest++ = *src--]. *)
Fixpoint copy_down (mem : list byte) (src : Z) (n : nat) : list byte :=
  match n with
  | O => []
  | S n' => deref mem src :: copy_down mem (src - 1) n'
  end.

(** The big-endian loop over a sequence: each element is copied downwards,
    then [src += 2 * sizeof(T)]. *)
Fixpoint copy_seq_down (mem : list byte) (src : Z) (w : nat) (sz : nat) : list byte :=
  match sz with
  | O => []
  | S sz' => copy_down mem src w ++
             copy_seq_down mem (src - Z.of_nat w + 2 * Z.of_nat w) w sz'
  end.

(** [dest[4] = *src++; ... dest[7] = *src++; dest[0] = *src++; ...] for one
    double; [dest] as a fresh cell of 8 bytes. *)
Definition copy_words (mem : list byte) (src : Z) : list byte :=
  list_inserts 0 (copy_up mem (src + 4) 4)
    (list_inserts 4 (copy_up mem src 4) (replicate 8 (chr 0))).

Fixpoint copy_seq_words (mem : list byte) (src : Z) (sz : nat) : list byte :=
  match sz with
  | O => []
  | S sz' => copy_words mem src ++ copy_seq_words mem (src + 8) sz'
  end.

(** ** Copies into host memory *)

(** [*dest-- = *src++] for each byte of [src]. *)
Fixpoint fill_down (mem : list byte) (dest : Z) (src : list byte) : list byte :=
  match src with
  | [] => mem
  | c :: src' => fill_down (<[Z.to_nat dest := c]> mem) (dest - 1) src'
  end.

(** The big-endian loop: [w] bytes downwards, then [dest += 2 * sizeof(T)]. *)
Fixpoint fill_seq_down (mem : list byte) (dest : Z) (w : nat) (src : list byte) (sz : nat) : list byte :=
  match sz with
  | O => mem
  | S sz' => fill_seq_down (fill_down mem dest (take w src))
               (dest - Z.of_nat w + 2 * Z.of_nat w) w (drop w src) sz'
  end.

(** [dest[4] = *src++; ...; dest[3] = *src++; dest += sizeof(Double)] *)
Fixpoint fill_seq_words (mem : list byte) (dest : nat) (src : list byte) (sz : nat) : list byte :=
  match sz with
  | O => mem
  | S sz' =>
      fill_seq_words
        (list_inserts dest (take 4 (drop 4 src)) (list_inserts (dest + 4) (take 4 src) mem))
        (dest + 8) (drop 8 src) sz'
  end.

Section copies.
Context `{PL : Platform}.

(** The bytes [write(T)] stores for one scalar. *)
Definition encode_scalar (k : scalar) (v : Z) : list byte :=
  let mem := mem_of k v in
  match host with
  | BigEndian => copy_down mem (Z.of_nat (sizeof k) - 1) (sizeof k)
  | LittleByteBigWord =>
      match k with Double => copy_words mem 0 | _ => copy_up mem 0 (sizeof k) end
  | LittleEndian => copy_up mem 0 (sizeof k)
  end.

(** The bytes [write(const T* begin, const T* end)] stores after the size. *)
Definition encode_array (k : scalar) (vs : list Z) : list byte :=
  let mem := array_mem k vs in
  let sz := length vs in
  match host with
  | BigEndian => copy_seq_down mem (Z.of_nat (sizeof k) - 1) (sizeof k) sz
  | LittleByteBigWord =>
      match k with Double => copy_seq_words mem 0 sz | _ => take (sz * sizeof k) mem end
  | LittleEndian => take (sz * sizeof k) mem
  end.

(** [read(T&)] from the [sizeof(T)] bytes under the cursor. *)
Definition decode_scalar (k : scalar) (src : list byte) : Z :=
  let cell := replicate (sizeof k) (chr 0) in
  match host with
  | BigEndian => of_mem k (fill_down cell (Z.of_nat (sizeof k) - 1) src)
  | LittleByteBigWord =>
      match k with
      | Double => of_mem k (fill_seq_words cell 0 src 1)
      | _ => of_mem k src
      end
  | LittleEndian => of_mem k src
  end.

(** [read(vector<T>&)] from [sz * sizeof(T)] bytes: the vector's memory is
    filled by the host's loop. *)
Definition decode_array (k : scalar) (sz : nat) (src : list byte) : list Z :=
  let cells := replicate (sz * sizeof k) (chr 0) in
  array_of_mem k sz
    match host with
    | BigEndian => fill_seq_down cells (Z.of_nat (sizeof k) - 1) (sizeof k) src sz
    | LittleByteBigWord =>
        match k with Double => fill_seq_words cells 0 src sz | _ => src end
    | LittleEndian => src
    end.
End copies.

(** ** The reference encoding *)

(** A sequence of scalars on the wire: little-endian, whatever the host. *)
Definition le_array_bytes (k : scalar) (vs : list Z) : list byte :=
  vs ≫= le_bytes (sizeof k).

Fixpoint le_array (k : scalar) (n : nat) (src : list byte) : list Z :=
  match n with
  | O => []
  | S n' => value_of_bits k (le_val (take (sizeof k) src)) :: le_array k n' (drop (sizeof k) src)
  end.

(** ** Lemmas on the loops *)

Lemma copy_up_spec mem n src : (src + n <= length mem)%nat ->
  copy_up mem (Z.of_nat src) n = take n (drop src mem).
Proof.
  revert src; induction n as [|n IH]; intros src H; cbn [copy_up]; [done|].
  replace (Z.of_nat src + 1) with (Z.of_nat (S src)) by lia. rewrite IH by lia.
  destruct (lookup_lt_is_Some_2 mem src) as [c Hc]; [lia|].
  unfold deref. rewrite Nat2Z.id, (list_lookup_total_correct _ _ _ Hc).
  by rewrite (drop_S mem c src Hc).
Qed.

Lemma copy_down_spec n : forall a b c, length b = n ->
  copy_down (a ++ b ++ c) (Z.of_nat (length a + n) - 1) n = reverse b.
Proof.
  induction n as [|n IH]; intros a b c Hb.
  { by destruct b. }
  destruct b as [|x b _] using rev_ind; [done|].
  rewrite length_app in Hb; simpl in Hb. cbn [copy_down].
  rewrite reverse_app. simpl. f_equal.
  - unfold deref. apply list_lookup_total_correct.
    rewrite lookup_app_r by lia. rewrite lookup_app_l by (rewrite length_app; simpl; lia).
    rewrite lookup_app_r by lia.
    by replace (Z.to_nat _ - _ - _)%nat with 0%nat by lia.
  - rewrite <- (app_assoc b). replace (_ - 1 - 1) with (Z.of_nat (length a + n) - 1) by lia.
    apply IH. lia.
Qed.

Lemma copy_seq_down_spec w : forall bss a c, Forall (fun b => length b = w) bss ->
  copy_seq_down (a ++ concat bss ++ c) (Z.of_nat (length a + w) - 1) w (length bss)
    = concat (reverse <$> bss).
Proof.
  induction bss as [|b bss IH]; intros a c H; [done|].
  apply Forall_cons in H as [Hb H]. cbn [copy_seq_down length concat fmap list_fmap].
  rewrite <- (app_assoc b). rewrite copy_down_spec by done. f_equal.
  rewrite (app_assoc a b). rewrite <- (IH (a ++ b) c H). f_equal.
  rewrite length_app. lia.
Qed.

Lemma copy_words_spec a b c : length b = 8%nat ->
  copy_words (a ++ b ++ c) (Z.of_nat (length a)) = drop 4 b ++ take 4 b.
Proof.
  intros Hb. unfold copy_words.
  replace (Z.of_nat (length a) + 4) with (Z.of_nat (length a + 4)) by lia.
  rewrite !copy_up_spec by (rewrite !length_app; lia).
  rewrite <- drop_drop, drop_app_length.
  do 9 (destruct b as [|? b]; try done).
Qed.

Lemma copy_seq_words_spec : forall bss a c, Forall (fun b => length b = 8%nat) bss ->
  copy_seq_words (a ++ concat bss ++ c) (Z.of_nat (length a)) (length bss)
    = concat ((fun b => drop 4 b ++ take 4 b) <$> bss).
Proof.
  induction bss as [|b bss IH]; intros a c H; [done|].
  apply Forall_cons in H as [Hb H]. cbn [copy_seq_words length concat fmap list_fmap].
  rewrite <- (app_assoc b). rewrite copy_words_spec by done. f_equal.
  rewrite (app_assoc a b). rewrite <- (IH (a ++ b) c H). f_equal.
  rewrite length_app. lia.
Qed.

Lemma fill_down_spec : forall src a b c, length b = length src ->
  fill_down (a ++ b ++ c) (Z.of_nat (length a + length b) - 1) src = a ++ reverse src ++ c.
Proof.
  induction src as [|x src IH]; intros a b c Hb; simpl in Hb.
  { by destruct b. }
  destruct b as [|y b _] using rev_ind; [done|].
  rewrite length_app in *; simpl in *.
  replace (Z.to_nat _) with (length a + length b)%nat by lia.
  rewrite insert_app_r. rewrite <- (app_assoc b), insert_app_r_alt by lia.
  rewrite Nat.sub_diag. simpl. replace (_ - 1 - 1) with (Z.of_nat (length a + length b) - 1) by lia.
  rewrite IH by lia. rewrite reverse_cons. by rewrite <- (app_assoc (reverse src)).
Qed.

Lemma fill_seq_down_spec w : forall bss a b, Forall (fun b => length b = w) bss ->
  length b = length (concat bss) ->
  fill_seq_down (a ++ b) (Z.of_nat (length a + w) - 1) w (concat bss) (length bss)
    = a ++ concat (reverse <$> bss).
Proof.
  induction bss as [|x bss IH]; intros a b H Hb.
  { simpl in *. by destruct b. }
  apply Forall_cons in H as [Hx H]. cbn [fill_seq_down length concat fmap list_fmap] in *.
  rewrite length_app in Hb. rewrite <- Hx, take_app_length, drop_app_length.
  rewrite <- (take_drop (length x) b).
  replace (length a + length x)%nat with (length a + length (take (length x) b))%nat
    by (rewrite length_take; lia).
  rewrite fill_down_spec by (rewrite length_take; lia).
  rewrite (app_assoc a (reverse x)), (app_assoc a (reverse x)), Hx.
  rewrite <- (IH (a ++ reverse x) (drop w b) H); [|rewrite length_drop; lia].
  f_equal. rewrite length_app, length_reverse, length_take. lia.
Qed.

Lemma fill_seq_words_spec : forall bss a b, Forall (fun b => length b = 8%nat) bss ->
  length b = length (concat bss) ->
  fill_seq_words (a ++ b) (length a) (concat bss) (length bss)
    = a ++ concat ((fun b => drop 4 b ++ take 4 b) <$> bss).
Proof.
  induction bss as [|x bss IH]; intros a b H Hb.
  { simpl in *. by destruct b. }
  apply Forall_cons in H as [Hx H]. cbn [fill_seq_words length concat fmap list_fmap] in *.
  rewrite length_app in Hb.
  destruct x as [|x0 [|x1 [|x2 [|x3 [|x4 [|x5 [|x6 [|x7 [|? ?]]]]]]]]]; try done.
  do 8 (destruct b as [|? b]; [done|]). simpl in Hb.
  set (x' := [x4; x5; x6; x7; x0; x1; x2; x3]).
  rewrite list_inserts_app_r. rewrite <- (Nat.add_0_r (length a)), list_inserts_app_r.
  simpl. rewrite ?take_0, ?drop_0. simpl.
  pose proof (IH (a ++ x') b H ltac:(lia)) as E. rewrite <- !app_assoc in E.
  rewrite length_app in E. rewrite Nat.add_0_r. exact E.
Qed.

(** Cutting a byte sequence into elements. *)
Fixpoint chunks (w n : nat) (src : list byte) : list (list byte) :=
  match n with
  | O => []
  | S n' => take w src :: chunks w n' (drop w src)
  end.

Lemma length_chunks w n src : length (chunks w n src) = n.
Proof. revert src; induction n; intros; simpl; auto. Qed.

Lemma chunks_widths w n src : length src = (n * w)%nat ->
  Forall (fun b => length b = w) (chunks w n src).
Proof.
  revert src; induction n as [|n IH]; intros src H; simpl in *; constructor.
  - rewrite length_take. lia.
  - apply IH. rewrite length_drop. lia.
Qed.

Lemma concat_chunks w n src : length src = (n * w)%nat -> concat (chunks w n src) = src.
Proof.
  revert src; induction n as [|n IH]; intros src H; simpl in *; [by destruct src|].
  rewrite IH by (rewrite length_drop; lia). apply take_drop.
Qed.

Lemma le_array_chunks k n src :
  le_array k n src = (fun b => value_of_bits k (le_val b)) <$> chunks (sizeof k) n src.
Proof. revert src; induction n; intros; simpl; f_equal; auto. Qed.

Lemma length_le_array k n src : length (le_array k n src) = n.
Proof. by rewrite le_array_chunks, length_fmap, length_chunks. Qed.

Lemma concat_widths {A} w (bss : list (list A)) : Forall (fun b => length b = w) bss ->
  length (concat bss) = (length bss * w)%nat.
Proof. induction 1; simpl; [done|]. rewrite length_app. lia. Qed.

Lemma le_array_bytes_concat k vs : le_array_bytes k vs = concat (le_bytes (sizeof k) <$> vs).
Proof. unfold le_array_bytes. induction vs; simpl; [done|]. by f_equal. Qed.

Section correctness.
Context `{PL : Platform}.

Lemma length_host_order k le : length le = sizeof k -> length (host_order k le) = sizeof k.
Proof.
  intros Hl. unfold host_order. destruct host; [done|by rewrite length_reverse|].
  destruct k; try done. simpl in *.
  rewrite length_app, length_drop, length_take. lia.
Qed.

Lemma host_order_involutive k le : length le = sizeof k ->
  host_order k (host_order k le) = le.
Proof.
  intros Hl. unfold host_order. destruct host; [done|apply reverse_involutive|].
  destruct k; try done.
  rewrite drop_app_length', take_app_length'; [apply take_drop|..];
    rewrite length_drop; simpl in *; lia.
Qed.

Lemma length_mem_of k v : length (mem_of k v) = sizeof k.
Proof. apply length_host_order, length_le_bytes. Qed.

Lemma mem_of_widths k vs : Forall (fun b => length b = sizeof k) (mem_of k <$> vs).
Proof. apply Forall_fmap, Forall_true. intros. apply length_mem_of. Qed.

Lemma array_mem_concat k vs : array_mem k vs = concat (mem_of k <$> vs).
Proof. induction vs; simpl; [done|]. by f_equal. Qed.

Lemma array_of_mem_concat k bss : Forall (fun b => length b = sizeof k) bss ->
  array_of_mem k (length bss) (concat bss) = of_mem k <$> bss.
Proof.
  induction 1 as [|b bss Hb _ IH]; [done|]. cbn [length array_of_mem concat fmap list_fmap].
  rewrite take_app_length' by done. by rewrite drop_app_length', IH by done.
Qed.

(** Writing a scalar stores its little-endian bytes. *)
Lemma encode_scalar_le k v : encode_scalar k v = le_bytes (sizeof k) v.
Proof.
  unfold encode_scalar, mem_of, host_order. pose proof (length_le_bytes (sizeof k) v) as Hl.
  assert (forall m, length m = sizeof k -> copy_up m 0 (sizeof k) = m) as Hup.
  { intros m Hm. change 0 with (Z.of_nat 0). rewrite copy_up_spec by lia.
    by rewrite drop_0, take_ge by lia. }
  destruct host.
  - by apply Hup.
  - pose proof (copy_down_spec (sizeof k) [] (reverse (le_bytes (sizeof k) v)) []) as E.
    rewrite app_nil_r, app_nil_l, length_reverse, reverse_involutive in E. by apply E.
  - destruct k; try by apply Hup.
    pose proof (copy_words_spec [] (drop 4 (le_bytes 8 v) ++ take 4 (le_bytes 8 v)) []) as E.
    rewrite app_nil_r, app_nil_l in E. simpl length in E. change (Z.of_nat 0) with 0 in E.
    simpl sizeof. rewrite E; [done..].
Qed.

(** So does writing an array, whichever loop the host
    compiles. *)
Lemma encode_array_le k vs : encode_array k vs = le_array_bytes k vs.
Proof.
  unfold encode_array. rewrite le_array_bytes_concat, array_mem_concat.
  pose proof (mem_of_widths k vs) as Hw.
  assert (length (concat (mem_of k <$> vs)) = (length vs * sizeof k)%nat) as Hl.
  { rewrite (concat_widths _ _ Hw). by rewrite length_fmap. }
  assert (mem_of k <$> vs = host_order k <$> (le_bytes (sizeof k) <$> vs)) as Hm.
  { by rewrite <- list_fmap_compose. }
  rewrite take_ge by lia. destruct host eqn:Eh.
  - rewrite Hm. f_equal. unfold host_order. rewrite Eh. by rewrite list_fmap_id.
  - pose proof (copy_seq_down_spec (sizeof k) (mem_of k <$> vs) [] [] Hw) as E.
    rewrite app_nil_r, app_nil_l, length_fmap in E. simpl length in E.
    rewrite Nat.add_0_l in E. rewrite E. f_equal. rewrite <- list_fmap_compose. apply list_fmap_ext.
    intros _ v _. simpl. unfold mem_of, host_order. rewrite Eh. apply reverse_involutive.
  - destruct k; try (rewrite Hm; f_equal; unfold host_order; rewrite Eh; by rewrite list_fmap_id).
    pose proof (copy_seq_words_spec (mem_of Double <$> vs) [] [] Hw) as E.
    rewrite app_nil_r, app_nil_l, length_fmap in E. simpl length in E.
    change (Z.of_nat 0) with 0 in E. rewrite E. f_equal.
    rewrite <- list_fmap_compose. apply list_fmap_ext. intros _ v _.
    pose proof (host_order_involutive Double _ (length_le_bytes 8 v)) as Hi.
    unfold mem_of, compose. unfold host_order in *. by rewrite Eh in *.
Qed.

Lemma decode_scalar_le k src : length src = sizeof k ->
  decode_scalar k src = value_of_bits k (le_val src).
Proof.
  intros Hl. unfold decode_scalar, of_mem. destruct host eqn:Eh.
  - unfold host_order. by rewrite Eh.
  - pose proof (fill_down_spec src [] (replicate (sizeof k) (chr 0)) []) as E.
    rewrite app_nil_r, app_nil_l, length_replicate, app_nil_r in E. simpl in E.
    rewrite E by done. unfold host_order. rewrite Eh. by rewrite reverse_involutive.
  - destruct k; try (unfold host_order; rewrite Eh; done).
    pose proof (fill_seq_words_spec [src] [] (replicate 8 (chr 0))) as E.
    simpl concat in E. rewrite !app_nil_r in E. rewrite !app_nil_l in E.
    change (length [src]) with 1%nat in E. change (length (@nil byte)) with 0%nat in E.
    change (sizeof Double) with 8%nat. rewrite E; [|by repeat constructor|done].
    pose proof (host_order_involutive Double src Hl) as Hi.
    simpl fmap. simpl concat. rewrite ?app_nil_r.
    unfold host_order in *. rewrite Eh in *. by rewrite Hi.
Qed.

Lemma of_mem_reorder k bss : Forall (fun b => length b = sizeof k) bss ->
  of_mem k <$> (host_order k <$> bss) = (fun b => value_of_bits k (le_val b)) <$> bss.
Proof.
  intros Hw. rewrite <- list_fmap_compose. apply list_fmap_ext. intros j b Hj. simpl.
  unfold of_mem. rewrite host_order_involutive; [done|].
  rewrite Forall_lookup in Hw. by eapply Hw.
Qed.

Lemma decode_array_le k sz src : length src = (sz * sizeof k)%nat ->
  decode_array k sz src = le_array k sz src.
Proof.
  intros Hl. unfold decode_array. rewrite le_array_chunks.
  pose proof (chunks_widths (sizeof k) sz src Hl) as Hw.
  pose proof (concat_chunks (sizeof k) sz src Hl) as Hc.
  set (bss := chunks (sizeof k) sz src) in *.
  assert (length bss = sz) as Hn by apply length_chunks.
  rewrite <- (of_mem_reorder k bss Hw).
  assert (Forall (fun b => length b = sizeof k) (host_order k <$> bss)) as Hw'.
  { apply Forall_fmap. eapply Forall_impl; [exact Hw|]. intros b Hb. by apply length_host_order. }
  rewrite <- (array_of_mem_concat k _ Hw'), length_fmap, Hn. f_equal.
  destruct host eqn:Eh.
  - rewrite <- Hc at 1. f_equal. unfold host_order. rewrite Eh. by rewrite list_fmap_id.
  - pose proof (fill_seq_down_spec (sizeof k) bss [] (replicate (sz * sizeof k) (chr 0)) Hw) as E.
    change (length (@nil byte)) with 0%nat in E.
    rewrite !app_nil_l, length_replicate, Hc, Hn, Nat.add_0_l in E. rewrite E by done.
    f_equal. unfold host_order. by rewrite Eh.
  - destruct k; try (rewrite <- Hc at 1; f_equal; unfold host_order; rewrite Eh; by rewrite list_fmap_id).
    pose proof (fill_seq_words_spec bss [] (replicate (sz * sizeof Double) (chr 0)) Hw) as E.
    change (length (@nil byte)) with 0%nat in E.
    rewrite !app_nil_l, length_replicate, Hc, Hn in E. rewrite E by done.
    f_equal. unfold host_order. by rewrite Eh.
Qed.

(** On a little-endian host the buffer itself is the array. *)
Lemma array_of_mem_le k sz src : host = LittleEndian -> length src = (sz * sizeof k)%nat ->
  array_of_mem k sz src = le_array k sz src.
Proof.
  intros Hh Hl. rewrite <- decode_array_le by done. unfold decode_array. by rewrite Hh.
Qed.
End correctness.

(** ** The reference encoding is lossless *)

Lemma value_of_bits_le k v : in_range k v ->
  value_of_bits k (le_val (le_bytes (sizeof k) v)) = v.
Proof.
  intros Hv. destruct k; unfold in_range, value_of_bits in *;
    try (apply to_signed_le; [simpl; lia|done]);
    rewrite le_val_le_bytes, pow256; by apply Z.mod_small.
Qed.

Lemma value_of_bits_range k bs : length bs = sizeof k -> in_range k (value_of_bits k (le_val bs)).
Proof.
  intros Hl. pose proof (le_val_range bs) as Hr. rewrite Hl, pow256 in Hr.
  destruct k; simpl in *; try (apply to_signed_range; lia); done.
Qed.

Lemma le_bytes_value k bs : length bs = sizeof k ->
  le_bytes (sizeof k) (value_of_bits k (le_val bs)) = bs.
Proof.
  intros Hl. destruct k; cbn [sizeof value_of_bits] in *; rewrite ?le_bytes_to_signed by lia;
    rewrite <- Hl; apply le_bytes_le_val.
Qed.

Lemma length_le_array_bytes k vs : length (le_array_bytes k vs) = (length vs * sizeof k)%nat.
Proof.
  rewrite le_array_bytes_concat. rewrite (concat_widths (sizeof k)).
  - by rewrite length_fmap.
  - apply Forall_fmap, Forall_true. intros. apply length_le_bytes.
Qed.

Lemma le_array_roundtrip k vs : Forall (in_range k) vs ->
  le_array k (length vs) (le_array_bytes k vs) = vs.
Proof.
  rewrite le_array_bytes_concat.
  induction 1 as [|v vs Hv _ IH]; [done|]. cbn [length le_array fmap list_fmap concat].
  rewrite take_app_length', drop_app_length' by (by rewrite length_le_bytes).
  by rewrite value_of_bits_le, IH.
Qed.
