(* ===== verification/Protocol.v ===== *)
(** * Versions and message headers of the Ice protocol

    cpp/include/Ice/Protocol.h and cpp/src/Ice/Protocol.cpp: the constants of
    the wire protocol, version compatibility and the parser of
    "major.minor". *)

From S2P Require Import Prelude CxxString.

Record EncodingVersion : Type := MkEncoding { major : byte; minor : byte }.

#[export] Instance EncodingVersion_eq_dec : EqDecision EncodingVersion.
Proof. solve_decision. Defined.

Definition encoding_eqb (v w : EncodingVersion) : bool :=
  ceq (major v) (major w) && ceq (minor v) (minor w).

Definition headerSize : nat := 14.

Definition magic : list byte := [chr 73; chr 99; chr 101; chr 80].
Definition protocolMajor : byte := chr 1.
Definition protocolMinor : byte := chr 0.
Definition protocolEncodingMajor : byte := chr 1.
Definition protocolEncodingMinor : byte := chr 0.
Definition encodingMajor : byte := chr 1.
Definition encodingMinor : byte := chr 1.

Definition requestMsg : byte := chr 0.
Definition requestBatchMsg : byte := chr 1.
Definition replyMsg : byte := chr 2.
Definition validateConnectionMsg : byte := chr 3.
Definition closeConnectionMsg : byte := chr 4.

Definition Encoding_1_0 : EncodingVersion := MkEncoding (chr 1) (chr 0).
Definition Encoding_1_1 : EncodingVersion := MkEncoding (chr 1) (chr 1).
Definition currentEncoding : EncodingVersion := MkEncoding encodingMajor encodingMinor.
Definition currentProtocol : EncodingVersion := MkEncoding protocolMajor protocolMinor.
Definition currentProtocolEncoding : EncodingVersion :=
  MkEncoding protocolEncodingMajor protocolEncodingMinor.

Definition requestHdr : list byte :=
  magic ++ [protocolMajor; protocolMinor; protocolEncodingMajor; protocolEncodingMinor;
            requestMsg; chr 0; chr 0; chr 0; chr 0; chr 0; chr 0; chr 0; chr 0; chr 0].
Definition requestBatchHdr : list byte :=
  magic ++ [protocolMajor; protocolMinor; protocolEncodingMajor; protocolEncodingMinor;
            requestBatchMsg; chr 0; chr 0; chr 0; chr 0; chr 0; chr 0; chr 0; chr 0; chr 0].
Definition replyHdr : list byte :=
  magic ++ [protocolMajor; protocolMinor; protocolEncodingMajor; protocolEncodingMinor;
            replyMsg; chr 0; chr 0; chr 0; chr 0; chr 0].

Definition isSupported (version supported : EncodingVersion) : bool :=
  ceq (major version) (major supported) && (ord (minor version) <=? ord (minor supported)).

Definition checkSupported (v supported : EncodingVersion) : result unit :=
  if isSupported v supported then Ok tt
  else Throw (UnsupportedEncodingException (ord (major v), ord (minor v))
                (ord (major supported), ord (minor supported))).

Definition checkSupportedEncoding (v : EncodingVersion) : result unit :=
  checkSupported v currentEncoding.
Definition checkSupportedProtocolEncoding (v : EncodingVersion) : result unit :=
  checkSupported v currentProtocolEncoding.

Definition checkSupportedProtocol (v : EncodingVersion) : result unit :=
  if isSupported v currentProtocol then Ok tt
  else Throw (UnsupportedProtocolException (ord (major v), ord (minor v))
                (ord (major currentProtocol), ord (minor currentProtocol))).

Definition getCompatible (v current : EncodingVersion) : EncodingVersion :=
  if negb (ceq (major v) (major current)) then v
  else if ord (minor v) <? ord (minor current) then v
  else current.

Definition getCompatibleEncoding (v : EncodingVersion) : EncodingVersion :=
  getCompatible v currentEncoding.
Definition getCompatibleProtocol (v : EncodingVersion) : EncodingVersion :=
  getCompatible v currentProtocol.

Definition stringToMajorMinor (s : str) : result EncodingVersion :=
  match find_first_of (lit ".") 0 s with
  | None => Throw (VersionParseException (lit "malformed version value `" ++ s ++ lit "'"))
  | Some pos =>
      match istream_int_eof (substr 0 pos s) with
      | None => Throw (VersionParseException (lit "invalid major version value `" ++ s ++ lit "'"))
      | Some majVersion =>
          match istream_int_eof (drop (pos + 1) s) with
          | None => Throw (VersionParseException (lit "invalid minor version value `" ++ s ++ lit "'"))
          | Some minVersion =>
              if (majVersion <? 1) || (255 <? majVersion) || (minVersion <? 0) || (255 <? minVersion)
              then Throw (VersionParseException (lit "range error in version `" ++ s ++ lit "'"))
              else Ok (MkEncoding (chr majVersion) (chr minVersion))
          end
      end
  end.

(** [operator<<] on a version, and [versionToString] *)
Definition versionToString (v : EncodingVersion) : str :=
  show_int (ord (major v)) ++ lit "." ++ show_int (ord (minor v)).

Definition stringToVersion (s : str) : result EncodingVersion := stringToMajorMinor s.

Lemma encoding_eqb_true v w : encoding_eqb v w = true <-> v = w.
Proof.
  unfold encoding_eqb. rewrite andb_true_iff, !ceq_true.
  destruct v, w; simpl; naive_solver.
Qed.

(** The encodings this runtime supports are exactly 1.0 and 1.1. *)
Lemma checkSupportedEncoding_ok v :
  checkSupportedEncoding v = Ok tt <-> v = Encoding_1_0 \/ v = Encoding_1_1.
Proof.
  unfold checkSupportedEncoding, checkSupported, isSupported.
  destruct v as [ma mi]; simpl. split.
  - case_if; [|done]. intros _. bool_to_prop. subst ma.
    change (ord encodingMinor) with 1 in *.
    pose proof (ord_range mi).
    assert (ord mi = 0 \/ ord mi = 1) as [Hm|Hm] by lia.
    + left. unfold Encoding_1_0. f_equal. by apply ord_inj.
    + right. unfold Encoding_1_1. f_equal. by apply ord_inj.
  - by intros [[= -> ->]|[= -> ->]].
Qed.

(** ** Printing and parsing versions *)

(** The decimal representation of a byte: no dot in it, and the parser reads
    it back. *)
Definition prints_back (n : Z) : bool :=
  bool_decide (istream_int_eof (show_int n) = Some n) && forallb (fun c => negb (mem_char c (lit "."))) (show_int n).

Lemma byte_prints_back c :
  istream_int_eof (show_int (ord c)) = Some (ord c) /\
  Forall (fun d => mem_char d (lit ".") = false) (show_int (ord c)).
Proof.
  pose proof (forall_byte (fun c => prints_back (ord c)) ltac:(by vm_compute) c) as H.
  apply andb_true_iff in H as [H1 H2].
  split; [by apply bool_decide_eq_true in H1|].
  rewrite Forall_forall. intros d Hd. rewrite forallb_forall in H2.
  apply negb_true_iff, H2. by apply list_elem_of_In.
Qed.

Lemma drop_S_app (l : str) c t : drop (S (length l)) (l ++ c :: t) = t.
Proof. induction l; simpl; [by rewrite drop_0|done]. Qed.

(** A version with a major number of at least 1 that is printed as major.minor
    is parsed back to the same version. *)
Lemma version_parsed v : 1 <= ord (major v) -> stringToVersion (versionToString v) = Ok v.
Proof.
  intros Hm. unfold stringToVersion, stringToMajorMinor, versionToString.
  destruct (byte_prints_back (major v)) as [Ha Hda]. destruct (byte_prints_back (minor v)) as [Hi _].
  pose proof (ord_range (major v)). pose proof (ord_range (minor v)).
  assert (find_first_of (lit ".") 0 (show_int (ord (major v)) ++ lit "." ++ show_int (ord (minor v)))
    = Some (length (show_int (ord (major v))))) as ->.
  { unfold find_first_of, find_if_from. rewrite drop_0.
    change (lit "." ++ ?l) with (chr 46 :: l). by rewrite find_if_app. }
  unfold substr. rewrite drop_0, take_app_length, Ha.
  rewrite Nat.add_1_r. change (lit "." ++ ?l) with (chr 46 :: l). rewrite drop_S_app, Hi.
  rewrite (proj2 (Z.ltb_ge (ord (major v)) 1)), (proj2 (Z.ltb_ge 255 (ord (major v)))),
    (proj2 (Z.ltb_ge (ord (minor v)) 0)), (proj2 (Z.ltb_ge 255 (ord (minor v)))) by lia.
  simpl. rewrite !chr_ord. by destruct v.
Qed.
