(* ===== verification/Stream.v ===== *)
(** * BasicStream: the state, the buffer and the scalars

    [IceInternal::BasicStream] (cpp/include/Ice/BasicStream.h and
    cpp/src/Ice/BasicStream.cpp) writes values at the end of its buffer [b]
    and reads them at its cursor [i]. Both directions are operations of the
    state monad [M] over [BasicStream]: an operation that throws leaves the
    stream in the state it had reached. *)

From S2P Require Import Prelude CxxString Buffer Layout Protocol.

(** ** Data *)

Inductive FormatType : Type := DefaultFormat | CompactFormat | SlicedFormat.

(** An encapsulation being read and one being written. The class pointers
    [decoder] and [encoder] point to objects of the types [D] and [E]. *)
Record ReadEncaps (D : Type) : Type := MkReadEncaps {
  re_start : Z;
  re_sz : Z;
  re_encoding : EncodingVersion;
  re_decoder : option D
}.

Record WriteEncaps (E : Type) : Type := MkWriteEncaps {
  we_start : nat;
  we_encoding : EncodingVersion;
  we_format : FormatType;
  we_encoder : option E
}.

Arguments MkReadEncaps {D}.
Arguments re_start {D}.
Arguments re_sz {D}.
Arguments re_encoding {D}.
Arguments re_decoder {D}.
Arguments MkWriteEncaps {E}.
Arguments we_start {E}.
Arguments we_encoding {E}.
Arguments we_format {E}.
Arguments we_encoder {E}.

(** A string converter is a plug-in of the application. [toUTF8] answers with
    the requests it makes to the [UTF8Buffer], how many bytes it asks for and
    the bytes it stores there, and how it ends. *)
Record StringConverter (T : Type) : Type := MkConverter {
  toUTF8 : list T -> list (nat * list byte) * result unit;
  fromUTF8 : list byte -> result (list T)
}.
Arguments MkConverter {T}.
Arguments toUTF8 {T}.
Arguments fromUTF8 {T}.

(** A code unit of [wchar_t]. *)
Abbreviation wchar := Z (only parsing).

(** The members of the stream. [i] is the offset of the cursor from
    [b.begin()], and [b_begin] the address of the first byte of the buffer.
    [closure_] is the address the owner of the stream keeps with it.
    An encapsulation pointer and its [previous] chain are a list, the current
    one first; its last element is the pre-allocated encapsulation, whose
    members are in [preRead] and [preWrite] when it is not in use. *)
Record BasicStream (D E : Type) : Type := MkStream {
  b : list byte;
  i : Z;
  b_begin : Z;
  encoding : EncodingVersion;
  readEncaps : list (ReadEncaps D);
  writeEncaps : list (WriteEncaps E);
  preRead : ReadEncaps D;
  preWrite : WriteEncaps E;
  sliceObjects_ : bool;
  messageSizeMax : nat;
  unlimited : bool;
  stringConverter : option (StringConverter ascii);
  wstringConverter : StringConverter wchar;
  startSeq : Z;
  minSeqSize : Z;
  sizePos : Z;
  closure_ : Z
}.
Arguments MkStream {D E}.
Arguments b {D E}.
Arguments i {D E}.
Arguments b_begin {D E}.
Arguments encoding {D E}.
Arguments readEncaps {D E}.
Arguments writeEncaps {D E}.
Arguments preRead {D E}.
Arguments preWrite {D E}.
Arguments sliceObjects_ {D E}.
Arguments messageSizeMax {D E}.
Arguments unlimited {D E}.
Arguments stringConverter {D E}.
Arguments wstringConverter {D E}.
Arguments startSeq {D E}.
Arguments minSeqSize {D E}.
Arguments sizePos {D E}.
Arguments closure_ {D E}.

Section setters.
Context {D E : Type}.
Implicit Type s : BasicStream D E.

Definition set_b x s := MkStream x (i s) (b_begin s) (encoding s) (readEncaps s) (writeEncaps s)
  (preRead s) (preWrite s) (sliceObjects_ s) (messageSizeMax s) (unlimited s) (stringConverter s)
  (wstringConverter s) (startSeq s) (minSeqSize s) (sizePos s) (closure_ s).
Definition set_i x s := MkStream (b s) x (b_begin s) (encoding s) (readEncaps s) (writeEncaps s)
  (preRead s) (preWrite s) (sliceObjects_ s) (messageSizeMax s) (unlimited s) (stringConverter s)
  (wstringConverter s) (startSeq s) (minSeqSize s) (sizePos s) (closure_ s).
Definition set_read (r : list (ReadEncaps D)) (p : ReadEncaps D) s := MkStream (b s) (i s) (b_begin s) (encoding s) r (writeEncaps s)
  p (preWrite s) (sliceObjects_ s) (messageSizeMax s) (unlimited s) (stringConverter s)
  (wstringConverter s) (startSeq s) (minSeqSize s) (sizePos s) (closure_ s).
Definition set_write (w : list (WriteEncaps E)) (p : WriteEncaps E) s := MkStream (b s) (i s) (b_begin s) (encoding s) (readEncaps s) w
  (preRead s) p (sliceObjects_ s) (messageSizeMax s) (unlimited s) (stringConverter s)
  (wstringConverter s) (startSeq s) (minSeqSize s) (sizePos s) (closure_ s).
Definition set_seq st mi s := MkStream (b s) (i s) (b_begin s) (encoding s) (readEncaps s) (writeEncaps s)
  (preRead s) (preWrite s) (sliceObjects_ s) (messageSizeMax s) (unlimited s) (stringConverter s)
  (wstringConverter s) st mi (sizePos s) (closure_ s).
Definition set_sizePos x s := MkStream (b s) (i s) (b_begin s) (encoding s) (readEncaps s) (writeEncaps s)
  (preRead s) (preWrite s) (sliceObjects_ s) (messageSizeMax s) (unlimited s) (stringConverter s)
  (wstringConverter s) (startSeq s) (minSeqSize s) x (closure_ s).
Definition set_slice x s := MkStream (b s) (i s) (b_begin s) (encoding s) (readEncaps s) (writeEncaps s)
  (preRead s) (preWrite s) x (messageSizeMax s) (unlimited s) (stringConverter s)
  (wstringConverter s) (startSeq s) (minSeqSize s) (sizePos s) (closure_ s).
Definition set_closure x s := MkStream (b s) (i s) (b_begin s) (encoding s) (readEncaps s) (writeEncaps s)
  (preRead s) (preWrite s) (sliceObjects_ s) (messageSizeMax s) (unlimited s) (stringConverter s)
  (wstringConverter s) (startSeq s) (minSeqSize s) (sizePos s) x.
End setters.

Section stream.
Context `{PL : Platform} {D E : Type}.
Local Abbreviation stream := (BasicStream D E).
Implicit Types (s : stream).

Definition b_size s : nat := length (b s).
(** [b.end() - b.begin()] *)
Definition b_end s : Z := Z.of_nat (b_size s).

(** The two constructors: an empty stream, and one over existing bytes at
    the address [at_]. *)
Definition fresh_read (e : EncodingVersion) : ReadEncaps D := MkReadEncaps 0 0 e None.
Definition fresh_write (e : EncodingVersion) : WriteEncaps E := MkWriteEncaps 0 e DefaultFormat None.

Definition stream_new (e : EncodingVersion) (max : nat) (unlim : bool)
    (sc : option (StringConverter ascii)) (wc : StringConverter wchar) : stream :=
  MkStream [] 0 0 e [] [] (fresh_read e) (fresh_write e) true max unlim sc wc (-1) 0 (-1) 0.

Definition stream_over (e : EncodingVersion) (max : nat) (bytes : list byte) (at_ : Z)
    (sc : option (StringConverter ascii)) (wc : StringConverter wchar) : stream :=
  MkStream bytes 0 at_ e [] [] (fresh_read e) (fresh_write e) true max false sc wc (-1) 0 (-1) 0.

(** ** The write side of the buffer *)

Definition resize (sz : nat) : M stream unit :=
  s ← get;
  if negb (unlimited s) && (messageSizeMax s <? sz)%nat
  then throw (MemoryLimitException (Z.of_nat sz) (Z.of_nat (messageSizeMax s)))
  else modify (fun s => set_b (ByteSeq.resize sz (b s)) s).

(** [b.push_back(v)] *)
Definition push_back (v : byte) : M stream unit :=
  modify (fun s => set_b (b s ++ [v]) s).

(** Stores through [&b[pos]], inside the buffer. *)
Definition store (pos : nat) (src : list byte) : M stream unit :=
  s ← get;
  if (pos + length src <=? b_size s)%nat
  then modify (fun s => set_b (ByteSeq.store pos src (b s)) s)
  else faultM UndefinedBehaviour.

(** [pos = b.size(); resize(pos + n); store n bytes at &b[pos]] *)
Definition append (src : list byte) : M stream unit :=
  pos ← gets b_size;
  resize (pos + length src);;
  store pos src.

(** ** The read side *)

Definition throwUnmarshalOutOfBounds {A} : M stream A := throw UnmarshalOutOfBoundsException.

(** [*p] for an address inside the buffer. *)
Definition byte_at (p : Z) : M stream byte :=
  s ← get;
  match (if 0 <=? p then b s !! Z.to_nat p else None) with
  | Some v => mret v
  | None => faultM UndefinedBehaviour
  end.

(** The [n] bytes from [p]. *)
Definition bytes_at (p : Z) (n : nat) : M stream (list byte) :=
  s ← get;
  if (0 <=? p) && (p + Z.of_nat n <=? b_end s)
  then mret (take n (drop (Z.to_nat p) (b s)))
  else faultM UndefinedBehaviour.

Definition advance (n : Z) : M stream unit := modify (fun s => set_i (i s + n) s).

(** ** Byte and bool *)

Definition write_Byte (v : byte) : M stream unit := push_back v.

Definition read_Byte : M stream byte :=
  s ← get;
  if b_end s <=? i s then throwUnmarshalOutOfBounds
  else v ← byte_at (i s); advance 1;; mret v.

Definition byte_of_bool (v : bool) : byte := if v then chr 1 else chr 0.

Definition write_Bool (v : bool) : M stream unit := push_back (byte_of_bool v).

Definition read_Bool : M stream bool :=
  s ← get;
  if b_end s <=? i s then throwUnmarshalOutOfBounds
  else v ← byte_at (i s); advance 1;; mret (negb (ord v =? 0)).

(** ** Fixed-size scalars *)

Definition write_scalar (k : scalar) (v : Z) : M stream unit :=
  pos ← gets b_size;
  resize (pos + sizeof k);;
  store pos (encode_scalar k v).

Definition read_scalar (k : scalar) : M stream Z :=
  s ← get;
  if b_end s - i s <? Z.of_nat (sizeof k) then throwUnmarshalOutOfBounds
  else
    src ← bytes_at (i s) (sizeof k);
    advance (Z.of_nat (sizeof k));;
    mret (decode_scalar k src).

Definition write_Short : Z -> M stream unit := write_scalar Short.
Definition read_Short : M stream Z := read_scalar Short.
Definition write_Int : Z -> M stream unit := write_scalar Int.
Definition read_Int : M stream Z := read_scalar Int.
Definition write_Long : Z -> M stream unit := write_scalar Long.
Definition read_Long : M stream Z := read_scalar Long.
Definition write_Float : Z -> M stream unit := write_scalar Float.
Definition read_Float : M stream Z := read_scalar Float.
Definition write_Double : Z -> M stream unit := write_scalar Double.
Definition read_Double : M stream Z := read_scalar Double.

(** [write(Int v, Container::iterator dest)] and [rewrite(value, p)] *)
Definition write_Int_at (v : Z) (dest : nat) : M stream unit := store dest (encode_scalar Int v).
Definition rewrite_ (value : Z) (p : nat) : M stream unit := write_Int_at value p.

(** ** Sizes *)

Definition writeSize (v : Z) : M stream unit :=
  assertM (0 <=? v);;
  if 254 <? v then write_Byte (chr 255);; write_Int v
  else write_Byte (chr v).

Definition rewriteSize (v : Z) (dest : nat) : M stream unit :=
  assertM (0 <=? v);;
  if 254 <? v then store dest [chr 255];; write_Int_at v (dest + 1)
  else store dest [chr v].

Definition readSize : M stream Z :=
  byte ← read_Byte;
  let val := ord byte in
  if val =? 255 then
    v ← read_Int;
    if v <? 0 then throwUnmarshalOutOfBounds else mret v
  else mret val.

Definition startSize : M stream unit :=
  modify (fun s => set_sizePos (to_i32 (b_end s)) s);;
  write_Int 0.

Definition endSize : M stream unit :=
  s ← get;
  assertM (0 <=? sizePos s);;
  rewrite_ (to_i32 (to_i32 (b_end s) - sizePos s - 4)) (Z.to_nat (sizePos s));;
  modify (set_sizePos (-1)).

(** ** Skipping: pointer arithmetic on a [size_t], which wraps *)

Definition skip (size : Z) : M stream unit :=
  s ← get;
  let addr := to_u64 (b_begin s + i s + size) in
  if b_begin s + b_end s <? addr then throwUnmarshalOutOfBounds
  else modify (fun s => set_i (addr - b_begin s) s).

Definition skipSize : M stream unit :=
  v ← read_Byte;
  if ord v =? 255 then skip 4 else mret tt.

(** ** Sequences *)

Definition readAndCheckSeqSize (minSize : Z) : M stream Z :=
  sz ← readSize;
  if sz =? 0 then mret sz
  else
    s ← get;
    (if (startSeq s =? -1) || (startSeq s + minSeqSize s <? i s)
     then modify (set_seq (to_i32 (i s)) (to_i32 (sz * minSize)))
     else modify (set_seq (startSeq s) (to_i32 (minSeqSize s + to_i32 (sz * minSize)))));;
    s' ← get;
    if to_i32 (b_end s') <? to_i32 (startSeq s' + minSeqSize s') then throwUnmarshalOutOfBounds
    else mret sz.

(** [write(const T* begin, const T* end)] *)
Definition write_array (k : scalar) (vs : list Z) : M stream unit :=
  let sz := to_i32 (Z.of_nat (length vs)) in
  writeSize sz;;
  if 0 <? sz then
    pos ← gets b_size;
    resize (pos + Z.to_nat sz * sizeof k);;
    store pos (encode_array k (take (Z.to_nat sz) vs))
  else mret tt.

(** Whether the host fills an array by a loop over its elements, which
    reads [sz] of them wherever the cursor stands, and not by [copy(begin, i, ...)]. *)
Definition loops (k : scalar) : bool :=
  match host with
  | LittleEndian => false
  | BigEndian => true
  | LittleByteBigWord => bool_decide (k = Double)
  end.

(** The bytes [copy(begin, i, dest)] reads after [i += n]. *)
Definition copied (p : Z) (n : Z) : M stream (list byte) :=
  if n <? 0 then faultM UndefinedBehaviour else bytes_at p (Z.to_nat n).

(** [i += sz * static_cast<int>(sizeof(T))], then the elements into fresh
    memory of [sz] elements. *)
Definition read_elements (k : scalar) (sz : Z) : M stream (list Z) :=
  s ← get;
  let n := to_i32 (sz * Z.of_nat (sizeof k)) in
  advance n;;
  src ← (if loops k then bytes_at (i s) (Z.to_nat sz * sizeof k) else copied (i s) n);
  mret (decode_array k (Z.to_nat sz) src).

(** [read(vector<T>&)]: the new contents of the vector. *)
Definition read_array (k : scalar) : M stream (list Z) :=
  sz ← readAndCheckSeqSize (Z.of_nat (sizeof k));
  if 0 <? sz then read_elements k sz else mret [].

(** [read(pair<const T*, const T*>&, ScopedArray<T>&)]: the elements between
    the two pointers. On x86 these point into the buffer. *)
Definition read_array_ptr (k : scalar) : M stream (list Z) :=
  sz ← readAndCheckSeqSize (Z.of_nat (sizeof k));
  if 0 <? sz then
    if host_x86 then
      s ← get;
      let n := to_i32 (sz * Z.of_nat (sizeof k)) in
      advance n;;
      src ← copied (i s) n;
      mret (array_of_mem k (Z.to_nat (n `div` Z.of_nat (sizeof k))) src)
    else read_elements k sz
  else mret [].

Definition write_ShortSeq : list Z -> M stream unit := write_array Short.
Definition read_ShortSeq : M stream (list Z) := read_array Short.
Definition read_ShortArray : M stream (list Z) := read_array_ptr Short.
Definition write_IntSeq : list Z -> M stream unit := write_array Int.
Definition read_IntSeq : M stream (list Z) := read_array Int.
Definition read_IntArray : M stream (list Z) := read_array_ptr Int.
Definition write_LongSeq : list Z -> M stream unit := write_array Long.
Definition read_LongSeq : M stream (list Z) := read_array Long.
Definition read_LongArray : M stream (list Z) := read_array_ptr Long.
Definition write_FloatSeq : list Z -> M stream unit := write_array Float.
Definition read_FloatSeq : M stream (list Z) := read_array Float.
Definition read_FloatArray : M stream (list Z) := read_array_ptr Float.
Definition write_DoubleSeq : list Z -> M stream unit := write_array Double.
Definition read_DoubleSeq : M stream (list Z) := read_array Double.
Definition read_DoubleArray : M stream (list Z) := read_array_ptr Double.

(** Sequences of bytes and of bools *)
Definition write_ByteSeq (bs : list byte) : M stream unit :=
  let sz := to_i32 (Z.of_nat (length bs)) in
  writeSize sz;;
  if 0 <? sz then
    pos ← gets b_size;
    resize (pos + Z.to_nat sz);;
    store pos (take (Z.to_nat sz) bs)
  else mret tt.

Definition read_ByteRange : M stream (list byte) :=
  sz ← readAndCheckSeqSize 1;
  if 0 <? sz then
    s ← get;
    v ← bytes_at (i s) (Z.to_nat sz);
    advance sz;;
    mret v
  else mret [].

Definition read_ByteSeq : M stream (list byte) :=
  p ← read_ByteRange;
  if (0 <? length p)%nat then mret p else mret [].

Definition write_BoolSeq (v : list bool) : M stream unit :=
  let sz := to_i32 (Z.of_nat (length v)) in
  writeSize sz;;
  if 0 <? sz then
    pos ← gets b_size;
    resize (pos + Z.to_nat sz);;
    store pos (byte_of_bool <$> v)
  else mret tt.

Definition write_BoolArray (v : list bool) : M stream unit :=
  let sz := to_i32 (Z.of_nat (length v)) in
  writeSize sz;;
  if 0 <? sz then
    pos ← gets b_size;
    resize (pos + Z.to_nat sz);;
    store pos (byte_of_bool <$> take (Z.to_nat sz) v)
  else mret tt.

Definition read_BoolSeq : M stream (list bool) :=
  sz ← readAndCheckSeqSize 1;
  if 0 <? sz then
    s ← get;
    v ← bytes_at (i s) (Z.to_nat sz);
    advance sz;;
    mret ((fun c => negb (ord c =? 0)) <$> v)
  else mret [].

(** Blobs: bytes with no size in front. *)
Definition writeBlob (v : list byte) : M stream unit :=
  if (0 <? length v)%nat then append v else mret tt.

Definition readBlob (sz : Z) : M stream (list byte) :=
  if 0 <? sz then
    s ← get;
    if b_end s - i s <? sz then throwUnmarshalOutOfBounds
    else
      v ← bytes_at (i s) (Z.to_nat sz);
      advance sz;;
      mret v
  else mret [].

Definition sliceObjects (doSlice : bool) : M stream unit := modify (set_slice doSlice).

(** The encoding of the current encapsulation, or of the stream. *)
Definition read_encoding s : EncodingVersion :=
  match readEncaps s with e :: _ => re_encoding e | [] => encoding s end.
Definition write_encoding s : EncodingVersion :=
  match writeEncaps s with e :: _ => we_encoding e | [] => encoding s end.

Definition getReadEncoding : M stream EncodingVersion := gets read_encoding.
Definition getWriteEncoding : M stream EncodingVersion := gets write_encoding.
End stream.
