(* ===== verification/Wire.v ===== *)
(** * What the stream operations do to the wire

    [writes m bs]: [m] appends exactly the bytes [bs] to the buffer, whatever
    the stream. [reads m bs v]: wherever the cursor stands on the bytes [bs],
    [m] answers [v] and leaves the cursor after them. A [Codec] is a writer
    and a reader of the same bytes; its laws are what the rest of the
    development uses. *)

From S2P Require Import Prelude CxxString Buffer Layout Protocol Stream.

(** The encoding of a size. *)
Definition size_bytes (v : Z) : list byte :=
  if 254 <? v then chr 255 :: le_bytes 4 v else [chr v].

(** What a stream keeps while values are written or read: its string
    converters and the encoding versions it reads and writes with. *)
Class Config := {
  c_string : option (StringConverter ascii);
  c_wstring : StringConverter wchar;
  c_read : EncodingVersion;
  c_write : EncodingVersion
}.

Section wire.
Context `{PL : Platform} `{CF : Config} {D E : Type}.
Local Abbreviation stream := (BasicStream D E).
Implicit Types (s : stream) (bs : list byte).

(** ** Writing *)

Definition configured s : Prop :=
  stringConverter s = c_string /\ wstringConverter s = c_wstring /\
  read_encoding s = c_read /\ write_encoding s = c_write.

(** The memory limit leaves room for [n] more bytes. *)
Definition fits s (n : nat) : Prop :=
  configured s /\ (unlimited s = true \/ (b_size s + n <= messageSizeMax s)%nat).

Definition appended bs s : stream := set_b (b s ++ bs) s.

(** [m] appends [bs]; on the way it needs room for [need] bytes. *)
Definition writes_within {A} (need : nat) (m : M stream A) bs (a : A) : Prop :=
  (length bs <= need)%nat /\
  forall s, fits s need -> m s = (Ok a, appended bs s).

Definition writes {A} (m : M stream A) bs (a : A) : Prop :=
  forall s, fits s (length bs) -> m s = (Ok a, appended bs s).

Lemma set_b_same s : set_b (b s) s = s.
Proof. by destruct s. Qed.

Lemma appended_nil s : appended [] s = s.
Proof. unfold appended. rewrite app_nil_r. apply set_b_same. Qed.

Lemma appended_app bs1 bs2 s : appended bs2 (appended bs1 s) = appended (bs1 ++ bs2) s.
Proof. unfold appended. simpl. by rewrite app_assoc. Qed.

Lemma b_size_appended bs s : b_size (appended bs s) = (b_size s + length bs)%nat.
Proof. unfold b_size, appended. simpl. by rewrite length_app. Qed.

Lemma fits_appended s bs n : fits s (length bs + n) -> fits (appended bs s) n.
Proof.
  unfold fits. rewrite b_size_appended. change (messageSizeMax (appended bs s)) with (messageSizeMax s).
  intros [? [?|?]]; (split; [done|]); [by left|right; lia].
Qed.

Lemma fits_le s m n : fits s n -> (m <= n)%nat -> fits s m.
Proof. unfold fits. intros [? [?|?]] ?; (split; [done|]); [by left|right; lia]. Qed.

Lemma writes_ret {A} (a : A) : writes (mret a) [] a.
Proof. intros s _. by rewrite appended_nil. Qed.

Lemma writes_bind {A B} (m : M stream A) (k : A -> M stream B) bs1 bs2 a c :
  writes m bs1 a -> writes (k a) bs2 c -> writes (mbind k m) (bs1 ++ bs2) c.
Proof.
  intros Hm Hk s Hf. rewrite length_app in Hf.
  assert (fits s (length bs1)) as Hf1 by (eapply fits_le; [done|lia]).
  rewrite (bind_ok _ _ _ _ _ (Hm s Hf1)).
  rewrite Hk by (by apply fits_appended). by rewrite appended_app.
Qed.

Lemma writes_is_within {A} (m : M stream A) bs a :
  writes m bs a -> writes_within (length bs) m bs a.
Proof. by split. Qed.

Lemma writes_within_bind {A B} n1 n2 (m : M stream A) (k : A -> M stream B) bs1 bs2 a c :
  writes_within n1 m bs1 a -> writes_within n2 (k a) bs2 c ->
  writes_within (n1 `max` (length bs1 + n2)) (mbind k m) (bs1 ++ bs2) c.
Proof.
  intros [Hl1 Hm] [Hl2 Hk]. split; [rewrite length_app; lia|]. intros s Hf.
  rewrite (bind_ok _ _ _ _ _ (Hm s ltac:(eapply fits_le; [done|lia]))).
  rewrite Hk; [by rewrite appended_app|]. apply fits_appended. eapply fits_le; [done|lia].
Qed.

Lemma resize_ok s n : fits s n ->
  resize (b_size s + n) s = (Ok tt, set_b (ByteSeq.resize (b_size s + n) (b s)) s).
Proof.
  intros Hf. unfold resize. step.
  assert (negb (unlimited s) && (messageSizeMax s <? b_size s + n)%nat = false) as ->; [|done].
  destruct Hf as [_ [->|Hf]]; [done|]. apply andb_false_iff. right. apply Nat.ltb_ge. lia.
Qed.

(** The idiom of every fixed-size write. *)
Lemma grow_store s src n : n = length src -> fits s n ->
  (resize (b_size s + n);; store (b_size s) src) s = (Ok tt, appended src s).
Proof.
  intros -> Hf. rewrite (bind_ok _ _ _ _ _ (resize_ok s _ Hf)).
  unfold store. step.
  assert ((b_size s + length src <=?
           b_size (set_b (ByteSeq.resize (b_size s + length src) (b s)) s))%nat = true) as ->.
  { unfold b_size at 2. simpl. rewrite ByteSeq.length_resize. apply Nat.leb_refl. }
  unfold modify, appended. simpl. unfold b_size. by rewrite <- ByteSeq.resize_store.
Qed.

Lemma append_writes bs : writes (append bs) bs tt.
Proof.
  intros s Hf. unfold append. step.
  by apply grow_store.
Qed.

Lemma write_Byte_writes v : writes (write_Byte v) [v] tt.
Proof. done. Qed.

Lemma write_Bool_writes v : writes (write_Bool v) [byte_of_bool v] tt.
Proof. done. Qed.

Lemma write_scalar_writes k v : writes (write_scalar k v) (le_bytes (sizeof k) v) tt.
Proof.
  intros s Hf. unfold write_scalar. step.
  rewrite encode_scalar_le. rewrite length_le_bytes in Hf.
  apply grow_store; [by rewrite length_le_bytes|done].
Qed.

Lemma writeSize_writes v : 0 <= v -> writes (writeSize v) (size_bytes v) tt.
Proof.
  intros Hv s Hf. unfold writeSize, size_bytes in *.
  rewrite bind_assert by (by apply Z.leb_le).
  case_if; [|by apply write_Byte_writes].
  apply (writes_bind (write_Byte (chr 255)) _ [chr 255] _ tt); [done| |done].
  apply (write_scalar_writes Int).
Qed.

(** ** Reading *)

(** The cursor is inside the buffer, the size of the buffer is an [Int],
    and the buffer is not at the very end of the address space. *)
Definition readable s : Prop :=
  0 <= i s <= b_end s /\ b_end s < 2 ^ 31 /\
  (0 <= b_begin s /\ b_begin s + 2 ^ 33 < 2 ^ 64) /\ configured s.

(** The sequences being read have promised at most [n] bytes behind the
    cursor: the estimate that [readAndCheckSeqSize] keeps. *)
Definition promised s (n : nat) : Prop :=
  startSeq s = -1 \/
  (0 <= startSeq s /\ 0 <= minSeqSize s /\ startSeq s + minSeqSize s <= i s + Z.of_nat n).

Definition remaining s : list byte := drop (Z.to_nat (i s)) (b s).

(** [s'] is [s] with its cursor moved by [n], sequence estimate apart. *)
Definition consumed s s' (n : nat) : Prop :=
  s' = set_seq (startSeq s') (minSeqSize s') (set_i (i s + Z.of_nat n) s).

(** [m] reads [bs], which has the [mu] bytes that an enclosing sequence
    counts for it, and the [k] bytes promised for the elements behind it
    stay promised. *)
Definition reads {A} (mu : nat) (m : M stream A) bs (a : A) : Prop :=
  (mu <= length bs)%nat /\
  forall s rest (k : nat), readable s -> remaining s = bs ++ rest -> (k <= length rest)%nat ->
  promised s (mu + k) ->
  exists s', m s = (Ok a, s') /\ consumed s s' (length bs) /\ promised s' k.

Lemma consumed_refl s : consumed s s 0.
Proof. unfold consumed. destruct s; simpl. by rewrite Z.add_0_r. Qed.

Lemma consumed_trans s s' s'' m n : consumed s s' m -> consumed s' s'' n -> consumed s s'' (m + n).
Proof.
  unfold consumed, set_seq, set_i. destruct s, s', s''. simpl.
  intros [=] [=]. subst. f_equal; lia.
Qed.

Lemma consumed_b s s' n : consumed s s' n -> b s' = b s.
Proof. intros ->. done. Qed.

Lemma consumed_i s s' n : consumed s s' n -> i s' = i s + Z.of_nat n.
Proof. intros ->. done. Qed.

Lemma remaining_length s bs rest : readable s -> remaining s = bs ++ rest ->
  i s + Z.of_nat (length bs + length rest) = b_end s.
Proof.
  intros [Hi _] Hr. apply (f_equal length) in Hr. unfold remaining, b_end, b_size in *.
  rewrite length_drop, length_app in Hr. lia.
Qed.

Lemma consumed_readable s s' bs rest : readable s -> remaining s = bs ++ rest ->
  consumed s s' (length bs) -> readable s' /\ remaining s' = rest.
Proof.
  intros Hs Hr Hc. pose proof (remaining_length _ _ _ Hs Hr) as Hl.
  destruct Hs as (Hi & He & Ha & Hcf). rewrite Hc. unfold readable, remaining, b_end, b_size in *. simpl.
  split; [split_and!; [lia..|exact Hcf]|].
  replace (Z.to_nat (i s + Z.of_nat (length bs))) with (Z.to_nat (i s) + length bs)%nat by lia.
  rewrite <- drop_drop. unfold remaining in Hr. by rewrite Hr, drop_app_length.
Qed.

Lemma consumed_set_i s n : consumed s (set_i (i s + Z.of_nat n) s) n.
Proof. unfold consumed. by destruct s. Qed.

(** A reader that leaves the sequence estimate alone. *)
Lemma reads_simple {A} mu (m : M stream A) bs a : mu = length bs ->
  (forall s rest, readable s -> remaining s = bs ++ rest ->
    m s = (Ok a, set_i (i s + Z.of_nat (length bs)) s)) -> reads mu m bs a.
Proof.
  intros ->. intros Hm. split; [lia|]. intros s rest k Hs Hr Hk Hp. eexists. split; [by eapply Hm|].
  split; [apply consumed_set_i|]. revert Hp. unfold promised. simpl. lia.
Qed.

Lemma reads_weaken {A} mu mu' (m : M stream A) bs a :
  reads mu m bs a -> (mu' <= mu)%nat -> reads mu' m bs a.
Proof.
  intros [Hl Hm] Hle. split; [lia|]. intros s rest k Hs Hr Hk Hp.
  eapply Hm; [done..|]. unfold promised in *. lia.
Qed.

Lemma reads_ret {A} (a : A) : reads 0 (mret a) [] a.
Proof.
  split; [done|]. intros s rest k Hs Hr Hk Hp. exists s. split_and!; [done|apply consumed_refl|done].
Qed.

Lemma reads_bind {A B} mu1 mu2 (m : M stream A) (k : A -> M stream B) bs1 bs2 a c :
  reads mu1 m bs1 a -> reads mu2 (k a) bs2 c -> reads (mu1 + mu2) (mbind k m) (bs1 ++ bs2) c.
Proof.
  intros [Hl1 Hm] [Hl2 Hk]. split; [rewrite length_app; lia|].
  intros s rest n Hs Hr Hn Hp. rewrite <- app_assoc in Hr.
  destruct (Hm s (bs2 ++ rest) (mu2 + n)%nat Hs Hr) as (s1 & E1 & C1 & P1).
  { rewrite length_app. lia. }
  { by rewrite Nat.add_assoc. }
  destruct (consumed_readable _ _ _ _ Hs Hr C1) as [Hs1 Hr1].
  destruct (Hk s1 rest n Hs1 Hr1 Hn P1) as (s2 & E2 & C2 & P2).
  exists s2. rewrite (bind_ok _ _ _ _ _ E1). split; [done|]. split; [|done].
  rewrite length_app. by eapply consumed_trans.
Qed.

Lemma reads_bind_nil {A B} mu (m : M stream A) (k : A -> M stream B) bs a c :
  reads mu m bs a -> reads 0 (k a) [] c -> reads mu (mbind k m) bs c.
Proof.
  intros H1 H2. rewrite <- (app_nil_r bs), <- (Nat.add_0_r mu). by eapply reads_bind.
Qed.

Lemma reads_gets {A B} mu (f : stream -> B) c (k : B -> M stream A) bs a :
  (forall s, readable s -> f s = c) -> reads mu (k c) bs a -> reads mu (mbind k (gets f)) bs a.
Proof.
  intros Hf [Hl Hk]. split; [done|]. intros s rest n Hs Hr Hn Hp. step.
  rewrite Hf by done. by eapply Hk.
Qed.

Lemma bytes_at_ok s bs rest : readable s -> remaining s = bs ++ rest ->
  bytes_at (i s) (length bs) s = (Ok bs, s).
Proof.
  intros Hs Hr. pose proof (remaining_length _ _ _ Hs Hr) as Hl.
  destruct Hs as (Hi & _). unfold bytes_at. step.
  assert ((0 <=? i s) && (i s + Z.of_nat (length bs) <=? b_end s) = true) as ->.
  { apply andb_true_iff; split; apply Z.leb_le; lia. }
  unfold remaining in Hr. rewrite Hr. by rewrite take_app_length.
Qed.

Lemma byte_at_ok s v rest : readable s -> remaining s = v :: rest ->
  byte_at (i s) s = (Ok v, s).
Proof.
  intros Hs Hr. destruct Hs as (Hi & _). unfold byte_at. step.
  rewrite (proj2 (Z.leb_le 0 (i s))) by lia. unfold remaining in Hr.
  apply (f_equal (.!! 0%nat)) in Hr. rewrite lookup_drop in Hr. rewrite Nat.add_0_r in Hr.
  by rewrite Hr.
Qed.
End wire.
