(* ===== verification/Codecs.v ===== *)
(** * The readers and writers of the basic types

    For every basic type of the stream: which bytes its writer appends, and
    that its reader takes them back to the value, on every host. [Codec] is
    the interface that the composite types are proved against. *)

From S2P Require Import Prelude CxxString Buffer Layout Protocol Stream Wire.

Section readers.
Context `{PL : Platform} `{CF : Config} {D E : Type}.
Local Abbreviation stream := (BasicStream D E).
Implicit Types (s : stream) (bs : list byte).

Lemma not_at_end s bs rest (n : Z) : readable s -> remaining s = bs ++ rest ->
  n = Z.of_nat (length bs) -> (b_end s - i s <? n) = false.
Proof.
  intros Hs Hr ->. pose proof (remaining_length _ _ _ Hs Hr). apply Z.ltb_ge. lia.
Qed.

Lemma read_Byte_reads v : reads 1 (read_Byte (D:=D) (E:=E)) [v] v.
Proof.
  apply reads_simple; [done|]. intros s rest Hs Hr. pose proof (remaining_length _ _ _ Hs Hr) as Hl.
  unfold read_Byte. step. simpl in Hl. rewrite (proj2 (Z.leb_gt (b_end s) (i s))) by lia.
  by rewrite (bind_ok _ _ _ _ _ (byte_at_ok _ _ _ Hs Hr)).
Qed.

Lemma read_Bool_reads v : reads 1 (read_Bool (D:=D) (E:=E)) [byte_of_bool v] v.
Proof.
  apply reads_simple; [done|]. intros s rest Hs Hr. pose proof (remaining_length _ _ _ Hs Hr) as Hl.
  unfold read_Bool. step. simpl in Hl. rewrite (proj2 (Z.leb_gt (b_end s) (i s))) by lia.
  rewrite (bind_ok _ _ _ _ _ (byte_at_ok _ _ _ Hs Hr)). by destruct v.
Qed.

Lemma read_scalar_reads k v : in_range k v ->
  reads (sizeof k) (read_scalar (D:=D) (E:=E) k) (le_bytes (sizeof k) v) v.
Proof.
  intros Hv. apply reads_simple; [by rewrite length_le_bytes|]. intros s rest Hs Hr.
  unfold read_scalar. step.
  rewrite (not_at_end _ _ _ _ Hs Hr) by (by rewrite length_le_bytes).
  rewrite <- (length_le_bytes (sizeof k) v) at 1.
  rewrite (bind_ok _ _ _ _ _ (bytes_at_ok _ _ _ Hs Hr)).
  unfold advance. steps. rewrite decode_scalar_le by apply length_le_bytes.
  by rewrite value_of_bits_le, length_le_bytes.
Qed.

Lemma readSize_reads v : 0 <= v < 2 ^ 31 -> reads 1 (readSize (D:=D) (E:=E)) (size_bytes v) v.
Proof.
  intros Hv. unfold readSize, size_bytes. destruct (254 <? v) eqn:Hb; bool_to_prop.
  - apply (reads_bind 1 0 _ _ [chr 255] _ (chr 255)); [apply read_Byte_reads|].
    rewrite ord_chr_small by lia. rewrite Z.eqb_refl.
    apply (reads_bind_nil 0 _ _ _ v).
    + eapply reads_weaken; [|apply Nat.le_0_l]. apply (read_scalar_reads Int).
      unfold in_range, in_signed. simpl. lia.
    + rewrite (proj2 (Z.ltb_ge v 0)) by lia. apply reads_ret.
  - apply (reads_bind_nil 1 _ _ _ (chr v)); [apply read_Byte_reads|].
    rewrite ord_chr_small by lia. rewrite (proj2 (Z.eqb_neq v 255)) by lia. apply reads_ret.
Qed.

(** ** Sequences *)

Lemma length_size_bytes v : (1 <= length (size_bytes v))%nat.
Proof. unfold size_bytes. case_if; simpl; lia. Qed.

(** The estimate accepts a sequence whose elements are in the buffer, and
    covers them from then on. *)
Lemma readAndCheckSeqSize_ok (n : Z) (w : nat) s rest k :
  readable s -> 0 <= n < 2 ^ 31 -> remaining s = size_bytes n ++ rest ->
  (Z.to_nat n * w + k <= length rest)%nat -> promised s (1 + k) ->
  exists s', readAndCheckSeqSize (Z.of_nat w) s = (Ok n, s') /\
    consumed s s' (length (size_bytes n)) /\ promised s' (Z.to_nat n * w + k).
Proof.
  intros Hs Hn Hr Hk Hp. pose proof (length_size_bytes n) as Hl1.
  pose proof (remaining_length _ _ _ Hs Hr) as Hl.
  destruct (readSize_reads n Hn) as [_ Hread].
  destruct (Hread s rest k Hs Hr ltac:(lia) Hp) as (s1 & E1 & C1 & P1).
  unfold readAndCheckSeqSize. rewrite (bind_ok _ _ _ _ _ E1).
  destruct (n =? 0) eqn:E0; bool_to_prop.
  { subst n. exists s1. auto. }
  pose proof (consumed_i _ _ _ C1) as Hi. pose proof (consumed_b _ _ _ C1) as Hb.
  destruct Hs as (Hsi & Hse & _). assert (b_end s1 = b_end s) as He by (unfold b_end, b_size; by rewrite Hb).
  assert (n * Z.of_nat w = Z.of_nat (Z.to_nat n * w)) as Hw
    by (by rewrite Nat2Z.inj_mul, Z2Nat.id by lia).
  revert Hk Hw. generalize (Z.to_nat n * w)%nat. intros nw Hk Hw.
  rewrite !(to_i32_id (n * _)) by lia.
  step. destruct ((startSeq s1 =? -1) || (startSeq s1 + minSeqSize s1 <? i s1)) eqn:Ec.
  - step. step. cbn [startSeq minSeqSize set_seq b_end b_size b].
    change (b_end (set_seq ?x ?y s1)) with (b_end s1).
    rewrite (to_i32_id (i s1)), !to_i32_id by lia. rewrite (proj2 (Z.ltb_ge _ _)) by lia.
    eexists. split; [done|]. split; [|right; simpl; lia].
    rewrite C1. unfold consumed. by destruct s.
  - apply orb_false_iff in Ec as [E2 E3]. bool_to_prop.
    destruct P1 as [?|P1]; [done|].
    step. step. cbn [startSeq minSeqSize set_seq].
    change (b_end (set_seq ?x ?y s1)) with (b_end s1).
    rewrite (to_i32_id (minSeqSize s1 + _)), !to_i32_id by lia. rewrite (proj2 (Z.ltb_ge _ _)) by lia.
    eexists. split; [done|]. split; [|right; simpl; lia].
    rewrite C1. unfold consumed. by destruct s.
Qed.

(** A sequence read: its size, then [n] elements of at least [w] bytes. *)
Lemma reads_seq {A} (n : Z) (w : nat) (k : Z -> M stream A) bs a :
  0 <= n < 2 ^ 31 -> reads (Z.to_nat n * w) (k n) bs a ->
  reads 1 (mbind k (readAndCheckSeqSize (Z.of_nat w))) (size_bytes n ++ bs) a.
Proof.
  intros Hn [Hl Hk]. pose proof (length_size_bytes n).
  split; [rewrite length_app; lia|]. intros s rest m Hs Hr Hm Hp. rewrite <- app_assoc in Hr.
  destruct (readAndCheckSeqSize_ok n w s (bs ++ rest) m Hs Hn Hr) as (s1 & E1 & C1 & P1);
    [rewrite length_app; lia|done|].
  destruct (consumed_readable _ _ _ _ Hs Hr C1) as [Hs1 Hr1].
  destruct (Hk s1 rest m Hs1 Hr1 Hm P1) as (s2 & E2 & C2 & P2).
  exists s2. rewrite (bind_ok _ _ _ _ _ E1). split; [done|]. split; [|done].
  rewrite length_app. by eapply consumed_trans.
Qed.

(** A size that is an [Int]. *)
Definition int_length {A} (l : list A) : Prop := Z.of_nat (length l) < 2 ^ 31.

Definition seq_bytes {A} (l : list A) (bs : list byte) : list byte :=
  size_bytes (Z.of_nat (length l)) ++ bs.

Lemma to_i32_length {A} (l : list A) : int_length l -> to_i32 (Z.of_nat (length l)) = Z.of_nat (length l).
Proof. intros Hl. apply to_i32_id. unfold int_length in Hl. lia. Qed.

Lemma nonempty_size {A} (l : list A) : l <> [] -> (0 <? Z.of_nat (length l)) = true.
Proof. destruct l; [done|]. intros _. apply Z.ltb_lt. simpl. lia. Qed.

(** The body that the writers of sequences share. *)
Lemma write_body_writes {A} (l : list A) (n : nat) src : int_length l ->
  (l = [] -> src = []) -> n = length src ->
  writes (writeSize (D:=D) (E:=E) (to_i32 (Z.of_nat (length l)));;
          if 0 <? to_i32 (Z.of_nat (length l))
          then pos ← gets b_size; resize (pos + n);; store pos src
          else mret tt) (seq_bytes l src) tt.
Proof.
  intros Hl Hnil Hn. rewrite to_i32_length by done.
  apply (writes_bind _ _ _ _ tt); [apply writeSize_writes; lia|].
  destruct (decide (l = [])) as [->|Hne].
  - rewrite Hnil by done. apply writes_ret.
  - rewrite nonempty_size by done. intros s Hf. step. apply grow_store; [done|]. by rewrite Hn.
Qed.

Lemma write_array_writes k vs : int_length vs ->
  writes (write_array (D:=D) (E:=E) k vs) (seq_bytes vs (le_array_bytes k vs)) tt.
Proof.
  intros Hl. unfold write_array. rewrite take_ge by (rewrite to_i32_length, Nat2Z.id by done; done).
  rewrite encode_array_le. apply write_body_writes; [done|by intros ->|].
  by rewrite to_i32_length, Nat2Z.id, length_le_array_bytes.
Qed.

Lemma write_ByteSeq_writes bs : int_length bs ->
  writes (write_ByteSeq (D:=D) (E:=E) bs) (seq_bytes bs bs) tt.
Proof.
  intros Hl. unfold write_ByteSeq. rewrite take_ge by (rewrite to_i32_length, Nat2Z.id by done; done).
  apply write_body_writes; [done|done|]. by rewrite to_i32_length, Nat2Z.id.
Qed.

Lemma write_BoolSeq_writes v : int_length v ->
  writes (write_BoolSeq (D:=D) (E:=E) v) (seq_bytes v (byte_of_bool <$> v)) tt.
Proof.
  intros Hl. apply write_body_writes; [done|by intros ->|].
  by rewrite to_i32_length, Nat2Z.id, length_fmap.
Qed.

Lemma write_BoolArray_writes v : int_length v ->
  writes (write_BoolArray (D:=D) (E:=E) v) (seq_bytes v (byte_of_bool <$> v)) tt.
Proof.
  intros Hl. unfold write_BoolArray. rewrite take_ge by (rewrite to_i32_length, Nat2Z.id by done; done).
  by apply write_BoolSeq_writes.
Qed.

Lemma writeBlob_writes v : writes (writeBlob (D:=D) (E:=E) v) v tt.
Proof. destruct v; [apply writes_ret|apply append_writes]. Qed.

(** The reading of [n] bytes at the cursor, with the cursor moved before or after. *)
Lemma reads_bytes {A} (g : list byte -> A) bs :
  reads (length bs) (s ← get; v ← bytes_at (D:=D) (E:=E) (i s) (length bs);
                     advance (Z.of_nat (length bs));; mret (g v)) bs (g bs).
Proof.
  apply reads_simple; [done|]. intros s rest Hs Hr. step.
  by rewrite (bind_ok _ _ _ _ _ (bytes_at_ok _ _ _ Hs Hr)).
Qed.

Lemma bytes_at_set_i p n x s :
  bytes_at p n (set_i x s) = (fst (bytes_at (D:=D) (E:=E) p n s), set_i x s).
Proof. unfold bytes_at. rewrite !bind_get. unfold b_end, b_size. simpl. by case_if. Qed.

Lemma reads_moved_bytes {A} (g : list byte -> A) bs :
  reads (length bs) (s ← get; advance (Z.of_nat (length bs));;
                     v ← bytes_at (D:=D) (E:=E) (i s) (length bs); mret (g v)) bs (g bs).
Proof.
  apply reads_simple; [done|]. intros s rest Hs Hr. unfold advance. steps.
  erewrite (bind_ok _ _ _ bs); [done|].
  by rewrite bytes_at_set_i, (bytes_at_ok _ _ _ Hs Hr).
Qed.

(** What is read is in the buffer, so its length is an [Int]. *)
Lemma reads_bounded {A} mu (m : M stream A) bs a : (mu <= length bs)%nat ->
  (int_length bs -> reads mu m bs a) -> reads mu m bs a.
Proof.
  intros Hl Hm. split; [done|]. intros s rest k Hs Hr.
  eapply Hm; [|done..]. pose proof (remaining_length _ _ _ Hs Hr).
  destruct Hs as (? & ? & _). unfold int_length. lia.
Qed.

Lemma read_elements_reads k vs : Forall (in_range k) vs ->
  reads (length vs * sizeof k) (read_elements (D:=D) (E:=E) k (Z.of_nat (length vs)))
    (le_array_bytes k vs) vs.
Proof.
  intros Hv. pose proof (length_le_array_bytes k vs) as Hl.
  apply reads_bounded; [lia|]. unfold int_length. intros Hb.
  pose proof (reads_moved_bytes (decode_array k (length vs)) (le_array_bytes k vs)) as Hr.
  rewrite decode_array_le, le_array_roundtrip in Hr by done.
  unfold read_elements, copied. rewrite Nat2Z.id, <- Nat2Z.inj_mul, <- Hl, to_i32_id by lia.
  rewrite (proj2 (Z.ltb_ge _ 0)), Nat2Z.id by lia. by destruct (loops k).
Qed.

Lemma read_array_reads k vs : int_length vs -> Forall (in_range k) vs ->
  reads 1 (read_array (D:=D) (E:=E) k) (seq_bytes vs (le_array_bytes k vs)) vs.
Proof.
  intros Hl Hv. unfold int_length in Hl. apply reads_seq; [lia|]. rewrite Nat2Z.id.
  destruct (decide (vs = [])) as [->|Hne]; [apply reads_ret|].
  rewrite nonempty_size by done. by apply read_elements_reads.
Qed.

Lemma read_array_ptr_reads k vs : int_length vs -> Forall (in_range k) vs ->
  reads 1 (read_array_ptr (D:=D) (E:=E) k) (seq_bytes vs (le_array_bytes k vs)) vs.
Proof.
  intros Hl Hv. unfold int_length in Hl. apply reads_seq; [lia|]. rewrite Nat2Z.id.
  destruct (decide (vs = [])) as [->|Hne]; [apply reads_ret|].
  rewrite nonempty_size by done. destruct host_x86 eqn:Hx; [|by apply read_elements_reads].
  pose proof (length_le_array_bytes k vs) as Hn.
  apply reads_bounded; [lia|]. unfold int_length. intros Hb.
  pose proof (reads_moved_bytes (array_of_mem k (length vs)) (le_array_bytes k vs)) as Hr.
  rewrite array_of_mem_le, le_array_roundtrip in Hr by (done || by apply x86_is_little).
  unfold copied. rewrite <- Nat2Z.inj_mul, to_i32_id by lia.
  rewrite <- Nat2Z.inj_div, Nat.div_mul, Nat2Z.id by (destruct k; done).
  rewrite (proj2 (Z.ltb_ge _ 0)), Nat2Z.id, <- Hn by lia. done.
Qed.

Lemma read_ByteRange_reads bs : int_length bs ->
  reads 1 (read_ByteRange (D:=D) (E:=E)) (seq_bytes bs bs) bs.
Proof.
  intros Hl. unfold int_length in Hl. apply (reads_seq _ 1); [lia|]. rewrite Nat2Z.id, Nat.mul_1_r.
  destruct (decide (bs = [])) as [->|Hne]; [apply reads_ret|].
  rewrite nonempty_size by done. apply (reads_bytes id).
Qed.

Lemma read_ByteSeq_reads bs : int_length bs ->
  reads 1 (read_ByteSeq (D:=D) (E:=E)) (seq_bytes bs bs) bs.
Proof.
  intros Hl. eapply reads_bind_nil; [by apply read_ByteRange_reads|].
  destruct bs; apply reads_ret.
Qed.

Lemma read_BoolSeq_reads v : int_length v ->
  reads 1 (read_BoolSeq (D:=D) (E:=E)) (seq_bytes v (byte_of_bool <$> v)) v.
Proof.
  intros Hl. unfold int_length in Hl. apply (reads_seq _ 1); [lia|]. rewrite Nat2Z.id, Nat.mul_1_r.
  destruct (decide (v = [])) as [->|Hne]; [apply reads_ret|].
  rewrite nonempty_size by done.
  pose proof (reads_bytes (fmap (fun c => negb (ord c =? 0))) (byte_of_bool <$> v)) as Hr.
  cbv beta in Hr. rewrite length_fmap in Hr.
  replace (_ <$> (byte_of_bool <$> v)) with v in Hr; [exact Hr|].
  clear. induction v as [|[] v IH]; [done|rewrite !fmap_cons; by f_equal..].
Qed.

Lemma readBlob_reads v : reads (length v) (readBlob (D:=D) (E:=E) (Z.of_nat (length v))) v v.
Proof.
  unfold readBlob. destruct (decide (v = [])) as [->|Hne]; [apply reads_ret|].
  rewrite nonempty_size by done. apply reads_simple; [done|]. intros s rest Hs Hr. step.
  rewrite (not_at_end _ _ _ _ Hs Hr), Nat2Z.id by done.
  by rewrite (bind_ok _ _ _ _ _ (bytes_at_ok _ _ _ Hs Hr)).
Qed.
End readers.
