(* ===== verification/StreamString.v ===== *)
(** * Strings on the stream

    Narrow and wide strings are UTF-8 on the wire, behind their size. With a
    string converter the size is known only after the conversion: the writer
    guesses it, converts straight into the buffer, and moves the bytes and
    patches the size when the guess was wrong. *)

From S2P Require Import Prelude CxxString Buffer Layout Protocol Stream Wire Codecs.

Section strings.
Context `{PL : Platform} `{CF : Config} {D E : Type}.
Local Abbreviation stream := (BasicStream D E).

(** [Buffer::Container::resize], behind the memory limit's back. *)
Definition b_resize (sz : nat) : M stream unit :=
  modify (fun s => set_b (ByteSeq.resize sz (b s)) s).

(** [StreamUTF8BufferI::getMoreBytes]: the offset of the bytes it answers. *)
Definition getMoreBytes (howMany : nat) (firstUnused : option nat) : M stream nat :=
  assertM (0 <? howMany)%nat;;
  match firstUnused with Some p => b_resize p | None => mret tt end;;
  pos ← gets b_size;
  resize (pos + howMany);;
  mret pos.

(** A run of a converter against that buffer: each request returns the
    bytes the last one left unused. It answers the end of what it wrote. *)
Fixpoint run_converter (firstUnused : option nat) (chunks : list (nat * list byte))
    (outcome : result unit) : M stream nat :=
  match chunks with
  | [] =>
      lift outcome;;
      match firstUnused with Some p => mret p | None => faultM UndefinedBehaviour end
  | (howMany, bs) :: chunks' =>
      pos ← getMoreBytes howMany firstUnused;
      (if (length bs <=? howMany)%nat then store pos bs else faultM UndefinedBehaviour);;
      run_converter (Some (pos + length bs)%nat) chunks' outcome
  end.

(** [memmove(b.begin() + dest, b.begin() + src, n)] *)
Definition memmove (dest src : nat) (n : Z) : M stream unit :=
  if n <? 0 then faultM UndefinedBehaviour
  else bs ← bytes_at (Z.of_nat src) (Z.to_nat n); store dest bs.

(** "Check against the guess": the bytes from [firstIndex] on are the string. *)
Definition fixGuess (guessedSize : Z) (firstIndex : nat) : M stream unit :=
  lastIndex ← gets b_size;
  let actualSize := to_i32 (Z.of_nat lastIndex - Z.of_nat firstIndex) in
  if guessedSize =? actualSize then mret tt
  else
    (if (guessedSize <=? 254) && (254 <? actualSize) then
       n ← gets b_size;
       resize (n + 4);;
       memmove (firstIndex + 4) firstIndex actualSize
     else if (254 <? guessedSize) && (actualSize <=? 254) then
       memmove (firstIndex - 4) firstIndex actualSize;;
       n ← gets b_size;
       resize (n - 4)
     else mret tt);;
    if guessedSize <=? 254 then rewriteSize actualSize (firstIndex - 1)
    else rewriteSize actualSize (firstIndex - 1 - 4).

(** The common text of [writeConverted(const string&)] and [write(const wstring&)]. *)
Definition write_converted_by {T} (conv : StringConverter T) (v : list T) : M stream unit :=
  let guessedSize := to_i32 (Z.of_nat (length v)) in
  writeSize guessedSize;;
  firstIndex ← gets b_size;
  lastByte ← run_converter None (fst (toUTF8 conv v)) (snd (toUTF8 conv v));
  n ← gets b_size;
  (if (lastByte =? n)%nat then mret tt else b_resize lastByte);;
  fixGuess guessedSize firstIndex.

Definition writeConverted (v : str) : M stream unit :=
  s ← get;
  match stringConverter s with
  | Some conv => write_converted_by conv v
  | None => faultM UndefinedBehaviour
  end.

Definition write_string (v : str) (convert : bool) : M stream unit :=
  s ← get;
  let sz := to_i32 (Z.of_nat (length v)) in
  if convert && (0 <? sz) && bool_decide (is_Some (stringConverter s)) then writeConverted v
  else
    writeSize sz;;
    if 0 <? sz then
      pos ← gets b_size;
      resize (pos + Z.to_nat sz);;
      store pos (take (Z.to_nat sz) v)
    else mret tt.

Definition write_wstring (v : list wchar) : M stream unit :=
  if (length v =? 0)%nat then writeSize 0
  else s ← get; write_converted_by (wstringConverter s) v.

Definition readConverted (sz : Z) : M stream str :=
  s ← get;
  match stringConverter s with
  | Some conv => bs ← bytes_at (i s) (Z.to_nat sz); lift (fromUTF8 conv bs)
  | None => faultM UndefinedBehaviour
  end.

Definition read_string (convert : bool) : M stream str :=
  sz ← readSize;
  if 0 <? sz then
    s ← get;
    if b_end s - i s <? sz then throwUnmarshalOutOfBounds
    else
      v ← (if convert && bool_decide (is_Some (stringConverter s)) then readConverted sz
           else bytes_at (i s) (Z.to_nat sz));
      advance sz;;
      mret v
  else mret [].

Definition read_wstring : M stream (list wchar) :=
  sz ← readSize;
  if 0 <? sz then
    s ← get;
    if b_end s - i s <? sz then throwUnmarshalOutOfBounds
    else
      bs ← bytes_at (i s) (Z.to_nat sz);
      v ← lift (fromUTF8 (wstringConverter s) bs);
      advance sz;;
      mret v
  else mret [].

(** Loops over the elements of a container *)
Fixpoint write_each {A} (w : A -> M stream unit) (l : list A) : M stream unit :=
  match l with [] => mret tt | x :: l' => w x;; write_each w l' end.

Fixpoint read_each {A} (r : M stream A) (n : nat) : M stream (list A) :=
  match n with O => mret [] | S n' => x ← r; l ← read_each r n'; mret (x :: l) end.

(** [write(const string* begin, const string* end, bool)] and the vectors of strings *)
Definition write_StringSeq (v : list str) (convert : bool) : M stream unit :=
  let sz := to_i32 (Z.of_nat (length v)) in
  writeSize sz;;
  if 0 <? sz then write_each (fun x => write_string x convert) (take (Z.to_nat sz) v) else mret tt.

Definition read_StringSeq (convert : bool) : M stream (list str) :=
  sz ← readAndCheckSeqSize 1;
  if 0 <? sz then read_each (read_string convert) (Z.to_nat sz) else mret [].

Definition write_WstringSeq (v : list (list wchar)) : M stream unit :=
  let sz := to_i32 (Z.of_nat (length v)) in
  writeSize sz;;
  if 0 <? sz then write_each write_wstring (take (Z.to_nat sz) v) else mret tt.

Definition read_WstringSeq : M stream (list (list wchar)) :=
  sz ← readAndCheckSeqSize 1;
  if 0 <? sz then read_each read_wstring (Z.to_nat sz) else mret [].

(** ** Enumerators *)

Definition readEnum (maxValue : Z) : M stream Z :=
  e ← getReadEncoding;
  if encoding_eqb e Encoding_1_0 then
    if maxValue <? 127 then value ← read_Byte; mret (ord value)
    else if maxValue <? 32767 then read_Short
    else read_Int
  else readSize.

Definition writeEnum (v maxValue : Z) : M stream unit :=
  e ← getWriteEncoding;
  if encoding_eqb e Encoding_1_0 then
    if maxValue <? 127 then write_Byte (chr v)
    else if maxValue <? 32767 then write_Short (to_signed 16 v)
    else write_Int v
  else writeSize v.

(** ** Buffer surgery

    The states of a converted write differ from the initial one in the
    buffer only: every step is a step of the buffer. *)

Implicit Types (s : stream) (x : list byte).

Definition room s (n : nat) : Prop := unlimited s = true \/ (n <= messageSizeMax s)%nat.

Lemma resize_set_b n x s : room s n ->
  resize n (set_b x s) = (Ok tt, set_b (ByteSeq.resize n x) s).
Proof.
  intros Hr. unfold resize. step. simpl.
  assert (negb (unlimited s) && (messageSizeMax s <? n)%nat = false) as ->; [|done].
  destruct Hr as [->|Hr]; [done|]. apply andb_false_iff. right. apply Nat.ltb_ge. lia.
Qed.

Lemma store_set_b pos src x s : (pos + length src <= length x)%nat ->
  store pos src (set_b x s) = (Ok tt, set_b (ByteSeq.store pos src x) s).
Proof.
  intros Hl. unfold store. step. unfold b_size. cbn [b set_b].
  by rewrite (proj2 (Nat.leb_le _ _) Hl).
Qed.

Lemma bytes_at_set_b pre bs rest s :
  bytes_at (Z.of_nat (length pre)) (length bs) (set_b (pre ++ bs ++ rest) s)
    = (Ok bs, set_b (pre ++ bs ++ rest) s).
Proof.
  unfold bytes_at. step. unfold b_end, b_size. cbn [b set_b].
  assert ((0 <=? Z.of_nat (length pre)) && (Z.of_nat (length pre) + Z.of_nat (length bs) <=?
    Z.of_nat (length (pre ++ bs ++ rest))) = true) as ->.
  { rewrite !length_app. apply andb_true_iff; split; apply Z.leb_le; lia. }
  by rewrite Nat2Z.id, drop_app_length, take_app_length.
Qed.

Lemma b_size_set_b x s : b_size (set_b x s) = length x.
Proof. done. Qed.

Lemma room_le s m n : room s n -> (m <= n)%nat -> room s m.
Proof. unfold room. intros [?|?] ?; [by left|right; lia]. Qed.

(** ** The converter protocol *)

Definition chunk_ok (c : nat * list byte) : Prop := (0 < fst c)%nat /\ (length (snd c) <= fst c)%nat.

Definition requested (chunks : list (nat * list byte)) : nat := sum_list_with fst chunks.
Definition stored (chunks : list (nat * list byte)) : list byte := concat (snd <$> chunks).

Lemma getMoreBytes_ok n fu pre junk s : (0 < n)%nat ->
  fu = Some (length pre) \/ (fu = None /\ junk = []) -> room s (length pre + n) ->
  exists junk', getMoreBytes n fu (set_b (pre ++ junk) s) = (Ok (length pre), set_b (pre ++ junk') s) /\
    length junk' = n.
Proof.
  intros Hn Hfu Hr. unfold getMoreBytes. rewrite bind_assert by (by apply Nat.ltb_lt).
  assert ((match fu with Some p => b_resize p | None => mret tt end) (set_b (pre ++ junk) s)
    = (Ok tt, set_b pre s)) as E0.
  { destruct Hfu as [->|[-> ->]]; [|by rewrite app_nil_r].
    unfold b_resize, modify. cbn [b set_b].
    rewrite ByteSeq.resize_le by (rewrite length_app; lia). by rewrite take_app_length. }
  rewrite (bind_ok _ _ _ _ _ E0). step. rewrite b_size_set_b.
  rewrite (bind_ok _ _ _ _ _ (resize_set_b _ pre s Hr)).
  destruct (ByteSeq.resize_grow (length pre + n) pre) as (junk' & -> & Hl); [lia|].
  exists junk'. split; [done|lia].
Qed.

Lemma run_converter_ok chunks : Forall chunk_ok chunks -> forall fu pre junk s,
  fu = Some (length pre) \/ (fu = None /\ junk = [] /\ chunks <> []) ->
  room s (length pre + requested chunks) ->
  exists junk', run_converter fu chunks (Ok tt) (set_b (pre ++ junk) s)
    = (Ok (length (pre ++ stored chunks)), set_b ((pre ++ stored chunks) ++ junk') s).
Proof.
  induction 1 as [|[n bs] chunks [Hn Hb] _ IH]; intros fu pre junk s Hfu Hr; cbn [run_converter].
  { destruct Hfu as [->|(_ & _ & ?)]; [|done]. exists junk.
    rewrite bind_lift with (a := tt) by done. unfold stored. cbn. by rewrite app_nil_r. }
  cbn [fst snd] in Hn, Hb. unfold requested in Hr. cbn [sum_list_with fst] in Hr.
  destruct (getMoreBytes_ok n fu pre junk s) as (junk1 & E1 & Hl1); [done|tauto| |].
  { eapply room_le; [done|lia]. }
  rewrite (bind_ok _ _ _ _ _ E1). rewrite (proj2 (Nat.leb_le _ _) Hb).
  assert (exists x y, junk1 = x ++ y /\ length bs = length x) as (x & y & -> & Hx).
  { exists (take (length bs) junk1), (drop (length bs) junk1).
    rewrite take_drop, length_take. split; [done|lia]. }
  erewrite bind_ok by (apply store_set_b; rewrite !length_app; lia).
  rewrite ByteSeq.store_mid by done.
  rewrite app_assoc, <- length_app.
  destruct (IH (Some (length (pre ++ bs))) (pre ++ bs) y s) as (junk' & ->);
    [by left| |].
  { eapply room_le; [done|]. rewrite length_app. unfold requested. lia. }
  exists junk'. unfold stored. cbn. by rewrite <- (app_assoc pre bs).
Qed.

(** ** Fixing the guess *)

Lemma store_mid_set_b pos pre src old rest s : pos = length pre -> length src = length old ->
  store pos src (set_b (pre ++ old ++ rest) s) = (Ok tt, set_b (pre ++ src ++ rest) s).
Proof.
  intros -> Hl. rewrite store_set_b by (rewrite !length_app; lia). by rewrite ByteSeq.store_mid.
Qed.

Lemma rewriteSize_ok pos pre old v rest s : pos = length pre -> 0 <= v ->
  length old = length (size_bytes v) ->
  rewriteSize v pos (set_b (pre ++ old ++ rest) s) = (Ok tt, set_b (pre ++ size_bytes v ++ rest) s).
Proof.
  intros -> Hv Hl. unfold rewriteSize, size_bytes in *. rewrite bind_assert by (by apply Z.leb_le).
  destruct (254 <? v); [|by apply store_mid_set_b].
  destruct old as [|c old]; [done|]. injection Hl as Hl.
  erewrite bind_ok by (apply (store_mid_set_b _ pre [chr 255] [c] (old ++ rest)); done).
  unfold write_Int_at. rewrite encode_scalar_le.
  change (pre ++ [chr 255] ++ old ++ rest) with (pre ++ [chr 255] ++ (old ++ rest)).
  rewrite (app_assoc pre [chr 255]), store_mid_set_b; [by rewrite <- (app_assoc pre)| |done].
  rewrite length_app. simpl. lia.
Qed.

Lemma memmove_ok dest src n pre mid bs rest x y s : src = length (pre ++ mid) -> n = Z.of_nat (length bs) ->
  pre ++ mid ++ bs ++ rest = x ++ y -> dest = length x -> (length bs <= length y)%nat ->
  memmove dest src n (set_b (x ++ y) s) = (Ok tt, set_b (x ++ bs ++ drop (length bs) y) s).
Proof.
  intros -> -> Hxy -> Hy. unfold memmove. rewrite (proj2 (Z.ltb_ge _ 0)), Nat2Z.id by lia.
  rewrite <- Hxy at 1. rewrite (app_assoc pre).
  rewrite (bind_ok _ _ _ _ _ (bytes_at_set_b _ _ _ _)). rewrite <- (app_assoc pre), Hxy.
  rewrite <- (take_drop (length bs) y) at 1.
  apply store_mid_set_b; [done|]. rewrite length_take. lia.
Qed.

Lemma fixGuess_grow pre g out s : 0 <= g <= 254 -> 254 < Z.of_nat (length out) ->
  room s (length pre + 1 + length out + 4) ->
  (n ← gets b_size; resize (n + 4);;
   memmove (length (pre ++ [chr g]) + 4) (length (pre ++ [chr g])) (Z.of_nat (length out)))
    (set_b (pre ++ [chr g] ++ out) s)
  = (Ok tt, set_b (pre ++ (chr g :: take 4 out) ++ out) s).
Proof.
  intros Hg Ho Hr. step. rewrite b_size_set_b.
  erewrite bind_ok by (apply resize_set_b; eapply room_le; [done|rewrite !length_app; simpl; lia]).
  destruct (ByteSeq.resize_grow (length (pre ++ [chr g] ++ out) + 4) (pre ++ [chr g] ++ out))
    as (junk & -> & Hj); [lia|].
  assert (length (take 4 out) = 4%nat) as Ht by (rewrite length_take; lia).
  assert ((pre ++ [chr g] ++ out) ++ junk
    = (pre ++ [chr g] ++ take 4 out) ++ (drop 4 out ++ junk)) as ->.
  { rewrite <- (take_drop 4 out) at 1. by rewrite <- !app_assoc. }
  rewrite (memmove_ok _ _ _ pre [chr g] out junk _ _ s).
  - rewrite drop_ge by (rewrite length_app, length_drop; lia). by rewrite app_nil_r, <- app_assoc.
  - done.
  - done.
  - rewrite <- (take_drop 4 out) at 1. by rewrite <- !app_assoc.
  - rewrite !length_app, Ht. simpl. lia.
  - rewrite length_app, length_drop. lia.
Qed.

Lemma fixGuess_shrink pre l4 out s : length l4 = 4%nat ->
  room s (length pre + 1 + length out) ->
  (memmove (length (pre ++ chr 255 :: l4) - 4) (length (pre ++ chr 255 :: l4)) (Z.of_nat (length out));;
   n ← gets b_size; resize (n - 4))
    (set_b (pre ++ (chr 255 :: l4) ++ out) s)
  = (Ok tt, set_b (pre ++ [chr 255] ++ out) s).
Proof.
  intros H4 Hr.
  assert (pre ++ (chr 255 :: l4) ++ out = (pre ++ [chr 255]) ++ (l4 ++ out)) as ->
    by (by rewrite <- app_assoc).
  erewrite bind_ok by (apply (memmove_ok _ _ _ pre (chr 255 :: l4) out [] _ _ s);
    [done|done|by rewrite app_nil_r, <- app_assoc
    |rewrite !length_app; simpl; lia|rewrite length_app; lia]).
  step. rewrite b_size_set_b, resize_set_b.
  - do 2 f_equal. rewrite ByteSeq.resize_le by lia.
    rewrite <- (app_assoc pre), !(app_assoc pre).
    rewrite (app_assoc _ out), take_app_le by (rewrite !length_app, length_drop, length_app; simpl; lia).
    apply take_ge. rewrite !length_app, length_drop, length_app. simpl. lia.
  - eapply room_le; [done|]. rewrite !length_app, length_drop, length_app. simpl. lia.
Qed.

Lemma leb_ltb a : (a <=? 254) = negb (254 <? a).
Proof. by rewrite Z.leb_antisym. Qed.

Lemma size_bytes_cases v :
  ((254 <? v) = true /\ size_bytes v = chr 255 :: le_bytes 4 v /\ 254 < v) \/
  ((254 <? v) = false /\ size_bytes v = [chr v] /\ v <= 254).
Proof. unfold size_bytes. destruct (254 <? v) eqn:E1; bool_to_prop; auto. Qed.

Lemma fixGuess_ok pre g out s : 0 <= g < 2 ^ 31 -> int_length out ->
  room s (length pre + length (size_bytes g) + length out + 4) ->
  fixGuess g (length (pre ++ size_bytes g)) (set_b (pre ++ size_bytes g ++ out) s)
    = (Ok tt, set_b (pre ++ size_bytes (Z.of_nat (length out)) ++ out) s).
Proof.
  intros Hg Ho Hr. unfold int_length in Ho. unfold fixGuess. step. rewrite b_size_set_b.
  replace (to_i32 _) with (Z.of_nat (length out))
    by (rewrite to_i32_id; rewrite !length_app; lia).
  destruct (g =? Z.of_nat (length out)) eqn:Eg; bool_to_prop; [by subst g|].
  rewrite (leb_ltb g), (leb_ltb (Z.of_nat (length out))).
  destruct (size_bytes_cases g) as [(-> & Ex & ?)|(-> & Ex & ?)];
    destruct (size_bytes_cases (Z.of_nat (length out))) as [(-> & Ey & ?)|(-> & Ey & ?)];
    rewrite Ex, ?Ey in *; simpl andb; simpl negb; cbv iota.
  - step. rewrite (rewriteSize_ok _ pre); rewrite ?Ey; [done| |lia|done].
    rewrite length_app. simpl. lia.
  - erewrite bind_ok by (apply fixGuess_shrink; [done|]; eapply room_le; [done|simpl; lia]).
    rewrite (rewriteSize_ok _ pre); rewrite ?Ey; [done| |lia|done].
    rewrite length_app. simpl. lia.
  - erewrite bind_ok by (apply fixGuess_grow; [lia|lia|]; eapply room_le; [done|simpl; lia]).
    rewrite (rewriteSize_ok _ pre); rewrite ?Ey; [done| |lia|].
    + rewrite length_app. simpl. lia.
    + simpl. rewrite length_take. lia.
  - step. rewrite (rewriteSize_ok _ pre); rewrite ?Ey; [done| |lia|done].
    rewrite length_app. simpl. lia.
Qed.

(** ** The writers and the readers *)

(** The converter turns [v] into [bs], requesting [need] bytes on the way. *)
Definition converts {T} (conv : StringConverter T) (v : list T) (bs : list byte) (need : nat) : Prop :=
  exists chunks, toUTF8 conv v = (chunks, Ok tt) /\ chunks <> [] /\ Forall chunk_ok chunks /\
    stored chunks = bs /\ requested chunks = need.

Lemma stored_requested chunks : Forall chunk_ok chunks ->
  (length (stored chunks) <= requested chunks)%nat.
Proof.
  induction 1 as [|[n bs] chunks [_ Hb] _ IH]; [done|].
  unfold stored, requested in *. cbn in *. rewrite length_app. lia.
Qed.

Lemma length_size_bytes_le v : (length (size_bytes v) <= 5)%nat.
Proof. unfold size_bytes. case_if; simpl; lia. Qed.

Lemma write_converted_by_writes {T} (conv : StringConverter T) v bs need :
  converts conv v bs need -> int_length v -> int_length bs ->
  writes_within (need + 9) (write_converted_by conv v) (seq_bytes bs bs) tt.
Proof.
  intros (chunks & Hconv & Hne & Hc & <- & <-) Hv Hb.
  pose proof (stored_requested _ Hc) as Hle.
  pose proof (length_size_bytes_le (Z.of_nat (length v))).
  pose proof (length_size_bytes_le (Z.of_nat (length (stored chunks)))).
  unfold seq_bytes. split; [rewrite length_app; lia|]. intros s Hf.
  unfold write_converted_by. rewrite Hconv, to_i32_length by done. cbn [fst snd].
  assert (room s (b_size s + requested chunks + 9)) as Hr.
  { destruct Hf as [_ [?|?]]; [by left|right; lia]. }
  erewrite bind_ok by (apply writeSize_writes; [lia|]; eapply fits_le; [done|lia]).
  unfold appended. step. rewrite b_size_set_b.
  set (pre := b s ++ size_bytes (Z.of_nat (length v))).
  destruct (run_converter_ok chunks Hc None pre [] s) as (junk & E1); [by right| |].
  { eapply room_le; [done|]. unfold pre. rewrite length_app. unfold b_size. lia. }
  rewrite app_nil_r in E1. rewrite (bind_ok _ _ _ _ _ E1). step. rewrite b_size_set_b.
  assert ((if (length (pre ++ stored chunks) =? length ((pre ++ stored chunks) ++ junk))%nat
           then mret tt else b_resize (length (pre ++ stored chunks)))
    (set_b ((pre ++ stored chunks) ++ junk) s) = (Ok tt, set_b (pre ++ stored chunks) s)) as E2.
  { case_if; bool_to_prop.
    - rewrite !length_app in E0. destruct junk; [by rewrite app_nil_r|simpl in E0; lia].
    - unfold b_resize, modify. cbn [b set_b].
      rewrite ByteSeq.resize_le by (rewrite !length_app; lia). by rewrite take_app_length. }
  rewrite (bind_ok _ _ _ _ _ E2). unfold pre. rewrite <- (app_assoc (b s)).
  unfold int_length in Hv. apply fixGuess_ok; [lia|done|].
  eapply room_le; [done|]. unfold b_size. lia.
Qed.

(** The converter that applies to narrow strings *)
Definition narrow (convert : bool) : option (StringConverter ascii) :=
  if convert then c_string else None.

(** [bs] is what a writer puts on the wire for a string, behind its size;
    it needs room for [need] bytes. *)
Definition string_wire (convert : bool) (v : str) (bs : list byte) (need : nat) : Prop :=
  int_length v /\ int_length bs /\
  match narrow convert, v with
  | Some conv, _ :: _ => exists n, converts conv v bs n /\ need = (n + 9)%nat
  | _, _ => bs = v /\ need = length (seq_bytes v v)
  end.

Definition wstring_wire (v : list wchar) (bs : list byte) (need : nat) : Prop :=
  int_length v /\ int_length bs /\
  match v with
  | [] => bs = [] /\ need = 1%nat
  | _ :: _ => exists n, converts c_wstring v bs n /\ need = (n + 9)%nat
  end.

(** A reader takes [bs] back to the string [v]. *)
Definition string_back (convert : bool) (bs : list byte) (v : str) : Prop :=
  match narrow convert, bs with
  | Some conv, _ :: _ => fromUTF8 conv bs = Ok v
  | _, _ => v = bs
  end.

Definition wstring_back (bs : list byte) (v : list wchar) : Prop :=
  match bs with [] => v = [] | _ :: _ => fromUTF8 c_wstring bs = Ok v end.

Lemma write_plain_writes (v : str) : int_length v ->
  writes_within (length (seq_bytes v v))
    (writeSize (D:=D) (E:=E) (to_i32 (Z.of_nat (length v)));;
     if 0 <? to_i32 (Z.of_nat (length v)) then
       pos ← gets b_size;
       resize (pos + Z.to_nat (to_i32 (Z.of_nat (length v))));;
       store pos (take (Z.to_nat (to_i32 (Z.of_nat (length v)))) v)
     else mret tt) (seq_bytes v v) tt.
Proof. intros Hv. apply writes_is_within, (write_ByteSeq_writes v Hv). Qed.

Lemma write_string_writes convert v bs need : string_wire convert v bs need ->
  writes_within need (write_string v convert) (seq_bytes bs bs) tt.
Proof.
  intros (Hv & Hb & Hw). unfold narrow in Hw.
  assert (bs = v /\ need = length (seq_bytes v v) /\
            convert && (0 <? Z.of_nat (length v)) && bool_decide (is_Some c_string) = false \/
          exists conv n, c_string = Some conv /\ converts conv v bs n /\ need = (n + 9)%nat /\
            convert && (0 <? Z.of_nat (length v)) && bool_decide (is_Some c_string) = true)
    as [(-> & -> & Hc)|(conv & n & Hs & Hconv & -> & Hc)].
  { destruct convert, v as [|x v], c_string as [conv|]; simpl in *; try (left; tauto).
    right. destruct Hw as (n & ? & ->). by exists conv, n. }
  - destruct (write_plain_writes v Hv) as [Hl Hw']. split; [done|]. intros s Hf.
    destruct Hf as [(Es & Hcf) Hf]. unfold write_string. step.
    rewrite Es, to_i32_length, Hc by done. rewrite to_i32_length in Hw' by done. by apply Hw'.
  - destruct (write_converted_by_writes conv v bs n) as [Hl Hw']; [done..|]. split; [done|].
    intros s Hf. pose proof Hf as [(Es & Hcf) _]. unfold write_string. step.
    rewrite Es, to_i32_length, Hc by done. unfold writeConverted. step. rewrite Es, Hs.
    by apply Hw'.
Qed.

Lemma write_wstring_writes v bs need : wstring_wire v bs need ->
  writes_within need (write_wstring v) (seq_bytes bs bs) tt.
Proof.
  intros (Hv & Hb & Hw). unfold write_wstring. destruct v as [|x v]; cbn [length Nat.eqb].
  - destruct Hw as [-> ->]. apply (writes_is_within _ [chr 0]), (writeSize_writes 0). done.
  - destruct Hw as (n & Hconv & ->).
    destruct (write_converted_by_writes c_wstring (x :: v) bs n) as [Hl Hw']; [done..|].
    split; [done|]. intros s Hf. pose proof Hf as [(_ & Es & _) _]. step. rewrite Es. by apply Hw'.
Qed.

(** The reading of a size, and then of as many bytes. *)
Lemma reads_sized {A} (dflt a : A) (f : stream -> Z -> M stream A) bs : int_length bs ->
  (bs = [] -> a = dflt) ->
  (forall s rest, bs <> [] -> readable s -> remaining s = bs ++ rest ->
    f s (Z.of_nat (length bs)) s = (Ok a, set_i (i s + Z.of_nat (length bs)) s)) ->
  reads 1 (sz ← readSize;
    if 0 <? sz then
      s ← get;
      if b_end s - i s <? sz then throwUnmarshalOutOfBounds else f s sz
    else mret dflt) (seq_bytes bs bs) a.
Proof.
  intros Hb Hnil Hf. unfold int_length in Hb. rewrite <- (Nat.add_0_r 1).
  eapply reads_bind; [apply readSize_reads; lia|].
  destruct (decide (bs = [])) as [->|Hne]; [rewrite Hnil by done; apply reads_ret|].
  rewrite nonempty_size by done. eapply reads_weaken; [|apply Nat.le_0_l].
  apply reads_simple; [done|]. intros s rest Hs Hr. step.
  rewrite (not_at_end _ _ _ _ Hs Hr) by done. by eapply Hf.
Qed.

Lemma read_string_reads convert v bs : int_length bs -> string_back convert bs v ->
  reads 1 (read_string convert) (seq_bytes bs bs) v.
Proof.
  intros Hb Hv. unfold string_back, narrow in Hv.
  apply reads_sized; [done|intros ->; by destruct convert, c_string|].
  intros s rest Hne Hs Hr. pose proof Hs as (_ & _ & _ & Es & _).
  destruct bs as [|c bs]; [done|]. rewrite Es, Nat2Z.id.
  pose proof (bytes_at_ok _ _ _ Hs Hr) as Hat.
  assert ((if convert && bool_decide (is_Some c_string)
    then readConverted (Z.of_nat (length (c :: bs))) else bytes_at (i s) (length (c :: bs))) s = (Ok v, s)) as E1.
  { destruct convert; [destruct c_string as [conv|] eqn:Ec|]; cbn [andb]; rewrite ?Hv; try done.
    rewrite bool_decide_eq_true_2 by done. unfold readConverted. step. rewrite Es, Nat2Z.id.
    rewrite (bind_ok _ _ _ _ _ Hat). unfold lift. by rewrite Hv. }
  by rewrite (bind_ok _ _ _ _ _ E1).
Qed.

Lemma read_wstring_reads v bs : int_length bs -> wstring_back bs v ->
  reads 1 read_wstring (seq_bytes bs bs) v.
Proof.
  intros Hb Hv. apply reads_sized; [done|by intros ->|].
  intros s rest Hne Hs Hr. pose proof Hs as (_ & _ & _ & _ & Es & _).
  destruct bs as [|c bs]; [done|]. rewrite Es, Nat2Z.id.
  rewrite (bind_ok _ _ _ _ _ (bytes_at_ok _ _ _ Hs Hr)).
  rewrite (bind_lift _ _ _ v) by done. done.
Qed.
End strings.
