(* ===== verification/OrderedMap.v ===== *)
(** * Ordered maps

    [std::map] keeps its keys in order; [begin()], the increment of an
    iterator and a loop over the map follow it. The maps are finite maps here,
    and the order is computed from their keys. *)

From S2P Require Import Prelude.

#[export] Instance ascii_countable : Countable ascii :=
  inj_countable' N_of_ascii ascii_of_N ascii_N_embedding.

(** ** Iterators *)

Section ordered.
Context {K V : Type} `{Countable K} (ltb : K -> K -> bool).

(** The least key that [P] accepts *)
Definition least (P : K -> bool) (m : gmap K V) : option K :=
  foldr (fun k best =>
    if P k then
      match best with
      | None => Some k
      | Some k' => if ltb k k' then Some k else Some k'
      end
    else best) None (map_to_list m).*1.

Definition begin (m : gmap K V) : option K := least (fun _ => true) m.
Definition next (k : K) (m : gmap K V) : option K := least (ltb k) m.

Lemma least_in P m k : least P m = Some k -> is_Some (m !! k).
Proof.
  unfold least. assert (forall l, (forall k', k' ∈ l -> is_Some (m !! k')) ->
    foldr (fun k best => if P k then match best with None => Some k
      | Some k' => if ltb k k' then Some k else Some k' end else best) None l = Some k -> is_Some (m !! k)) as Hl.
  { induction l as [|x l IH]; intros Hin E; [done|]. cbn [foldr] in E.
    assert (is_Some (m !! x)) as Hx by (apply Hin; left).
    assert (forall k', k' ∈ l -> is_Some (m !! k')) as Hin' by (intros; apply Hin; by right).
    destruct (P x); [|by apply IH].
    destruct (foldr _ None l) as [k'|] eqn:Ef; [|by simplify_eq].
    destruct (ltb x k'); simplify_eq; [done|]. by apply IH. }
  apply Hl. intros k' Hk'. apply list_elem_of_fmap in Hk' as ([k0 v] & -> & Hkv).
  apply elem_of_map_to_list in Hkv. by exists v.
Qed.

Lemma least_accepted P m k : least P m = Some k -> P k = true.
Proof.
  unfold least. induction (map_to_list m).*1 as [|x l IH]; intros E; [done|]. cbn [foldr] in E.
  destruct (P x) eqn:Ex; [|by apply IH].
  destruct (foldr _ None l) as [k'|] eqn:Ef; [|by simplify_eq].
  destruct (ltb x k'); simplify_eq; [done|]. by apply IH.
Qed.
End ordered.

(** Byte-wise comparison, as [std::string] has it *)
Fixpoint str_ltb (s t : str) : bool :=
  match s, t with
  | _, [] => false
  | [], _ :: _ => true
  | c :: s', d :: t' => (ord c <? ord d) || (ceq c d && str_ltb s' t')
  end.

Lemma str_ltb_total s t : str_ltb s t = false -> str_ltb t s = false -> s = t.
Proof.
  revert t. induction s as [|c s IH]; intros [|d t]; cbn; try done. intros H1 H2. bool_to_prop.
  assert (ord c = ord d) as E by lia. apply ord_inj in E as <-. rewrite ceq_refl in *. cbn in *.
  f_equal. by apply IH.
Qed.

Lemma str_ltb_asym s t : str_ltb s t = true -> str_ltb t s = false.
Proof.
  revert t. induction s as [|c s IH]; intros [|d t]; cbn; try done.
  intros H. apply orb_true_iff in H as [H|H].
  - bool_to_prop. apply orb_false_iff. split; [lia|]. apply andb_false_iff. left. apply ceq_false. intros ->. lia.
  - bool_to_prop. subst. rewrite ceq_refl. apply orb_false_iff. split; [lia|]. by apply IH.
Qed.

Lemma str_ltb_irrefl s : str_ltb s s = false.
Proof. destruct (str_ltb s s) eqn:E; [|done]. by rewrite (str_ltb_asym s s E) in E. Qed.

(** ** Loops over a map with string keys *)

Section loops.
Context {V : Type}.

(** The entries of [m] from [m.begin()] to [m.end()] *)
Definition in_order (m : gmap str V) : list (str * V) :=
  merge_sort (fun a b => negb (str_ltb (fst b) (fst a))) (map_to_list m).

Lemma in_order_Permutation (m : gmap str V) : in_order m ≡ₚ map_to_list m.
Proof. apply merge_sort_Permutation. Qed.

Lemma elem_of_in_order (m : gmap str V) k v : (k, v) ∈ in_order m <-> m !! k = Some v.
Proof. rewrite in_order_Permutation. apply elem_of_map_to_list. Qed.

Lemma in_order_sorted (m : gmap str V) :
  Sorted (fun p q => str_ltb (fst p) (fst q) = true) (in_order m).
Proof.
  assert (Total (fun a b : str * V => negb (str_ltb (fst b) (fst a)))) as HT.
  { intros a b. destruct (str_ltb (fst b) (fst a)) eqn:E; [right|by left].
    by rewrite (str_ltb_asym _ _ E). }
  pose proof (Sorted_merge_sort (fun a b => negb (str_ltb (fst b) (fst a))) (map_to_list m)) as HS.
  fold (in_order m) in HS.
  assert (NoDup (in_order m).*1) as HN.
  { rewrite in_order_Permutation. apply NoDup_fst_map_to_list. }
  induction HS as [|p l HS IH Hhd]; [constructor|]. cbn in HN. apply NoDup_cons in HN as [Hp HN].
  constructor; [by apply IH|]. destruct Hhd as [|q l Hq]; constructor.
  destruct (str_ltb (fst p) (fst q)) eqn:E; [done|]. exfalso. apply Hp.
  apply Is_true_eq_true, negb_true_iff in Hq. rewrite (str_ltb_total _ _ E Hq). cbn. left.
Qed.
End loops.
