(* ===== verification/StreamHelpers.v ===== *)
(** * StreamHelpers: composite types

    The templates of cpp/include/Ice/StreamHelpers.h and of BasicStream.h that
    marshal a type from its parts: structures, enumerators, sequences and
    arrays. [ty] is a universe of the types that the templates give a meaning
    to, [write_ty] and [read_ty] are the overloads of [BasicStream::write] and
    [BasicStream::read] that C++ selects for them. *)

From S2P Require Import Prelude OrderedMap CxxString Buffer Layout Protocol Stream Wire Codecs StreamString.

(** [StreamHelperCategory] is the constructor. [TStruct] is a structure of
    two members, so a structure of any number of members is a nesting of it;
    [TArray k] is a sequence of a scalar, and [TSeq] one of any other type.
    [TDict] is a dictionary, a [std::map]. *)
Inductive ty : Type :=
  | TByte | TBool
  | TScalar (k : scalar)
  | TByteSeq | TBoolSeq
  | TArray (k : scalar)
  | TArrayRange (k : scalar)
  | TString (convert : bool)
  | TWstring
  | TStringSeq (convert : bool)
  | TWstringSeq
  | TEnum (minValue maxValue : Z)
  | TStruct (t1 t2 : ty)
  | TSeq (t : ty)
  | TDict (t1 t2 : ty).

Fixpoint denote (t : ty) : Type :=
  match t with
  | TByte => byte
  | TBool => bool
  | TScalar _ | TEnum _ _ => Z
  | TByteSeq => list byte
  | TBoolSeq => list bool
  | TArray _ | TArrayRange _ => list Z
  | TString _ => str
  | TWstring => list wchar
  | TStringSeq _ => list str
  | TWstringSeq => list (list wchar)
  | TStruct t1 t2 => denote t1 * denote t2
  | TSeq t => list (denote t)
  | TDict t1 t2 => list (denote t1 * denote t2)
  end.

(** [std::lexicographical_compare] *)
Fixpoint list_ltb {A} (ltb : A -> A -> bool) (l m : list A) : bool :=
  match l, m with
  | _, [] => false
  | [], _ :: _ => true
  | x :: l', y :: m' => ltb x y || (negb (ltb y x) && list_ltb ltb l' m')
  end.

(** [operator<] of the types that can be keys; the one of a structure is
    generated and compares its members from the first to the last. *)
Fixpoint key_ltb (t : ty) : denote t -> denote t -> bool :=
  match t with
  | TByte => fun x y => ord x <? ord y
  | TBool => fun x y => negb x && y
  | TScalar _ | TEnum _ _ => Z.ltb
  | TByteSeq => str_ltb
  | TBoolSeq => list_ltb (fun x y => negb x && y)
  | TArray _ | TArrayRange _ => list_ltb Z.ltb
  | TString _ => str_ltb
  | TWstring => list_ltb Z.ltb
  | TStringSeq _ => list_ltb str_ltb
  | TWstringSeq => list_ltb (list_ltb Z.ltb)
  | TStruct t1 t2 => fun x y =>
      key_ltb t1 (fst x) (fst y) || (negb (key_ltb t1 (fst y) (fst x)) && key_ltb t2 (snd x) (snd y))
  | TSeq t => list_ltb (key_ltb t)
  | TDict _ _ => fun _ _ => false
  end.

(** [insert] of a key and the assignment of its value: an equivalent key keeps
    its entry. The entries of a map are listed in the order of its keys. *)
Fixpoint dict_insert {K V} (ltb : K -> K -> bool) (k : K) (v : V) (m : list (K * V)) : list (K * V) :=
  match m with
  | [] => [(k, v)]
  | (k', v') :: m' =>
      if ltb k k' then (k, v) :: m
      else if ltb k' k then (k', v') :: dict_insert ltb k v m'
      else (k', v) :: m'
  end.

(** [StreamableTraits<T>::minWireSize] *)
Fixpoint minWireSize (t : ty) : nat :=
  match t with
  | TScalar k => sizeof k
  | TStruct t1 t2 => minWireSize t1 + minWireSize t2
  | _ => 1
  end.

Section helpers.
Context `{PL : Platform} {D E : Type}.
Local Abbreviation stream := (BasicStream D E).

Definition out_of_range {A} : M stream A := throw (MarshalException (lit "enumerator out of range")).

Definition write_enum_helper (minValue maxValue v : Z) : M stream unit :=
  if (v <? minValue) || (maxValue <? v) then out_of_range
  else writeEnum v maxValue.

Definition read_enum_helper (minValue maxValue : Z) : M stream Z :=
  value ← readEnum maxValue;
  if (value <? minValue) || (maxValue <? value) then out_of_range
  else mret value.

Definition write_seq_helper {A} (w : A -> M stream unit) (v : list A) : M stream unit :=
  writeSize (to_i32 (Z.of_nat (length v)));;
  write_each w v.

Definition read_seq_helper {A} (minSize : nat) (r : M stream A) : M stream (list A) :=
  sz ← readAndCheckSeqSize (Z.of_nat minSize);
  read_each r (Z.to_nat sz).

Definition write_entry {A B} (wk : A -> M stream unit) (wv : B -> M stream unit) (p : A * B) : M stream unit :=
  wk (fst p);; wv (snd p).

Definition write_dict_helper {A B} (wk : A -> M stream unit) (wv : B -> M stream unit) (v : list (A * B))
    : M stream unit :=
  writeSize (to_i32 (Z.of_nat (length v)));;
  write_each (write_entry wk wv) v.

(** [while(sz--)] *)
Fixpoint read_entries {A B} (ltb : A -> A -> bool) (rk : M stream A) (rv : M stream B) (sz : nat)
    (m : list (A * B)) : M stream (list (A * B)) :=
  match sz with
  | O => mret m
  | S sz' => k ← rk; v ← rv; read_entries ltb rk rv sz' (dict_insert ltb k v m)
  end.

Definition read_dict_helper {A B} (ltb : A -> A -> bool) (rk : M stream A) (rv : M stream B)
    : M stream (list (A * B)) :=
  sz ← readSize;
  read_entries ltb rk rv (Z.to_nat sz) [].

Fixpoint write_ty (t : ty) : denote t -> M stream unit :=
  match t with
  | TByte => write_Byte
  | TBool => write_Bool
  | TScalar k => write_scalar k
  | TByteSeq => write_ByteSeq
  | TBoolSeq => write_BoolSeq
  | TArray k | TArrayRange k => write_array k
  | TString convert => fun v => write_string v convert
  | TWstring => write_wstring
  | TStringSeq convert => fun v => write_StringSeq v convert
  | TWstringSeq => write_WstringSeq
  | TEnum minValue maxValue => write_enum_helper minValue maxValue
  | TStruct t1 t2 => fun v => write_ty t1 (fst v);; write_ty t2 (snd v)
  | TSeq t => write_seq_helper (write_ty t)
  | TDict t1 t2 => write_dict_helper (write_ty t1) (write_ty t2)
  end.

Fixpoint read_ty (t : ty) : M stream (denote t) :=
  match t with
  | TByte => read_Byte
  | TBool => read_Bool
  | TScalar k => read_scalar k
  | TByteSeq => read_ByteSeq
  | TBoolSeq => read_BoolSeq
  | TArray k => read_array k
  | TArrayRange k => read_array_ptr k
  | TString convert => read_string convert
  | TWstring => read_wstring
  | TStringSeq convert => read_StringSeq convert
  | TWstringSeq => read_WstringSeq
  | TEnum minValue maxValue => read_enum_helper minValue maxValue
  | TStruct t1 t2 => v1 ← read_ty t1; v2 ← read_ty t2; mret (v1, v2)
  | TSeq t => read_seq_helper (minWireSize t) (read_ty t)
  | TDict t1 t2 => read_dict_helper (key_ltb t1) (read_ty t1) (read_ty t2)
  end.
End helpers.

(** ** The wire format

    [wire C1 C2 t v bs need]: a stream configured as [C1] writes [v] as the
    bytes [bs], with room for [need] bytes on the way, and one configured as
    [C2] may read them. It mentions no host. *)

Inductive each {A} (R : A -> list byte -> nat -> Prop) : list A -> list byte -> nat -> Prop :=
  | each_nil : each R [] [] 0
  | each_cons x l bs1 bs2 n1 n2 : R x bs1 n1 -> each R l bs2 n2 ->
      each R (x :: l) (bs1 ++ bs2) (n1 `max` (length bs1 + n2)).

(** The body of a sequence behind its size *)
Definition sized {A} (R : list A -> list byte -> nat -> Prop) (v : list A) (bs : list byte) (need : nat) : Prop :=
  exists body n, R v body n /\ bs = seq_bytes v body /\
    need = (length (size_bytes (Z.of_nat (length v))) + n)%nat /\ int_length v.

Definition exactly (bs' bs : list byte) (need : nat) : Prop := bs = bs' /\ need = length bs.

Definition enum_bytes (e : EncodingVersion) (maxValue v : Z) : list byte :=
  if encoding_eqb e Encoding_1_0 then
    if maxValue <? 127 then [chr v]
    else if maxValue <? 32767 then le_bytes 2 v
    else le_bytes 4 v
  else size_bytes v.

Definition string_rel (C1 C2 : Config) convert (v : str) (bs : list byte) (need : nat) : Prop :=
  exists body, bs = seq_bytes body body /\
    string_wire (CF:=C1) convert v body need /\ string_back (CF:=C2) convert body v.

Definition wstring_rel (C1 C2 : Config) (v : list wchar) (bs : list byte) (need : nat) : Prop :=
  exists body, bs = seq_bytes body body /\
    wstring_wire (CF:=C1) v body need /\ wstring_back (CF:=C2) body v.

Definition entry_rel {A B} (RA : A -> list byte -> nat -> Prop) (RB : B -> list byte -> nat -> Prop)
    (p : A * B) (bs : list byte) (need : nat) : Prop :=
  exists bs1 bs2 n1 n2, RA (fst p) bs1 n1 /\ RB (snd p) bs2 n2 /\
    bs = bs1 ++ bs2 /\ need = (n1 `max` (length bs1 + n2))%nat.

(** The entries of a map, in the order of their keys *)
Definition increasing {K V} (ltb : K -> K -> bool) : list (K * V) -> Prop :=
  StronglySorted (fun p q => ltb (fst p) (fst q) = true /\ ltb (fst q) (fst p) = false).

Fixpoint wire (C1 C2 : Config) (t : ty) : denote t -> list byte -> nat -> Prop :=
  match t with
  | TByte => fun v => exactly [v]
  | TBool => fun v => exactly [byte_of_bool v]
  | TScalar k => fun v bs need => exactly (le_bytes (sizeof k) v) bs need /\ in_range k v
  | TByteSeq => fun v bs need => exactly (seq_bytes v v) bs need /\ int_length v
  | TBoolSeq => fun v bs need => exactly (seq_bytes v (byte_of_bool <$> v)) bs need /\ int_length v
  | TArray k | TArrayRange k => fun v bs need =>
      exactly (seq_bytes v (le_array_bytes k v)) bs need /\ int_length v /\ Forall (in_range k) v
  | TString convert => string_rel C1 C2 convert
  | TWstring => wstring_rel C1 C2
  | TStringSeq convert => sized (each (string_rel C1 C2 convert))
  | TWstringSeq => sized (each (wstring_rel C1 C2))
  | TEnum minValue maxValue => fun v bs need =>
      exactly (enum_bytes (c_write (Config:=C1)) maxValue v) bs need /\
      c_read (Config:=C2) = c_write (Config:=C1) /\ 0 <= minValue <= v /\ v <= maxValue < 2 ^ 31
  | TStruct t1 t2 => entry_rel (wire C1 C2 t1) (wire C1 C2 t2)
  | TSeq t => sized (each (wire C1 C2 t))
  | TDict t1 t2 => fun v bs need =>
      sized (each (entry_rel (wire C1 C2 t1) (wire C1 C2 t2))) v bs need /\ increasing (key_ltb t1) v
  end.

(** ** The two halves of a codec

    [Writes R w]: [w] writes the values that [R] relates to bytes as those
    bytes. [Reads R mu r]: [r] takes them back, and counts [mu] of them for an
    enclosing sequence. The helpers below are proved against these interfaces
    and the basic types are their instances. *)

Class Writes `{PL : Platform} `{C1 : Config} {D E A : Type}
    (R : A -> list byte -> nat -> Prop) (w : A -> M (BasicStream D E) unit) : Prop :=
  writes_codec v bs need : R v bs need -> writes_within need (w v) bs tt.

Class Reads `{PL : Platform} `{C2 : Config} {D E A : Type}
    (R : A -> list byte -> nat -> Prop) (mu : nat) (r : M (BasicStream D E) A) : Prop :=
  reads_codec v bs need : R v bs need -> reads mu r bs v.

Section writers.
Context `{PL : Platform} {D E : Type} (C1 C2 : Config).
Local Existing Instance C1.
Local Abbreviation Writes := (@Writes PL C1 D E _).

#[export] Instance each_writes {A} R (w : A -> M (BasicStream D E) unit) :
  Writes R w -> Writes (each R) (write_each w).
Proof.
  intros Hw v bs need. induction 1 as [|x l bs1 bs2 n1 n2 Hx _ IH].
  - apply writes_is_within, writes_ret.
  - eapply writes_within_bind; [by apply Hw|done].
Qed.

Lemma sized_writes {A} (R : list A -> list byte -> nat -> Prop) w v bs need :
  Writes R w -> sized R v bs need ->
  writes_within need (writeSize (to_i32 (Z.of_nat (length v)));; w v) bs tt.
Proof.
  intros Hw (body & n & HR & -> & -> & Hl). rewrite to_i32_length by done.
  match goal with |- writes_within (?a + n) _ _ _ =>
    replace (a + n)%nat with (a `max` (a + n))%nat by lia end.
  eapply writes_within_bind; [apply writes_is_within, writeSize_writes; lia|by apply Hw].
Qed.

(** A writer that skips the loop over an empty container *)
Lemma sized_guarded_writes {A} (R : A -> list byte -> nat -> Prop) w v bs need :
  Writes R w -> sized (each R) v bs need ->
  writes_within need (writeSize (to_i32 (Z.of_nat (length v)));;
    if 0 <? to_i32 (Z.of_nat (length v))
    then write_each w (take (Z.to_nat (to_i32 (Z.of_nat (length v)))) v) else mret tt) bs tt.
Proof.
  intros Hw Hs. pose proof Hs as (body & n & _ & _ & _ & Hl).
  pose proof (sized_writes _ _ _ _ _ (each_writes R w Hw) Hs) as H.
  rewrite to_i32_length in H |- * by done. rewrite Nat2Z.id, take_ge by lia.
  destruct v; [done|]. by rewrite nonempty_size.
Qed.

#[export] Instance seq_helper_writes {A} (R : A -> list byte -> nat -> Prop) w :
  Writes R w -> Writes (sized (each R)) (write_seq_helper w).
Proof. intros Hw v bs need. apply sized_writes, _. Qed.

#[export] Instance entry_writes {A B} (RA : A -> list byte -> nat -> Prop) (RB : B -> list byte -> nat -> Prop) wk wv :
  Writes RA wk -> Writes RB wv -> Writes (entry_rel RA RB) (write_entry wk wv).
Proof.
  intros Hk Hv p bs need (bs1 & bs2 & n1 & n2 & H1 & H2 & -> & ->).
  eapply writes_within_bind; [by apply Hk|by apply Hv].
Qed.

#[export] Instance string_writes convert :
  Writes (string_rel C1 C2 convert) (fun v => write_string v convert).
Proof. intros v bs need (body & -> & Hw & _). by apply write_string_writes. Qed.

#[export] Instance wstring_writes : Writes (wstring_rel C1 C2) write_wstring.
Proof. intros v bs need (body & -> & Hw & _). by apply write_wstring_writes. Qed.

Lemma exactly_writes (m : M (BasicStream D E) unit) bs' bs need :
  exactly bs' bs need -> writes m bs' tt -> writes_within need m bs tt.
Proof. intros [-> ->]. apply writes_is_within. Qed.

Lemma writeEnum_writes v maxValue : 0 <= v ->
  writes (writeEnum (D:=D) (E:=E) v maxValue) (enum_bytes c_write maxValue v) tt.
Proof.
  intros Hv s Hf. pose proof Hf as [(_ & _ & _ & Ee) _].
  unfold writeEnum, getWriteEncoding, enum_bytes in *. step. rewrite Ee.
  destruct (encoding_eqb c_write Encoding_1_0); [|by apply writeSize_writes].
  destruct (maxValue <? 127); [by apply write_Byte_writes|].
  destruct (maxValue <? 32767); [|by apply (write_scalar_writes Int)].
  pose proof (le_bytes_to_signed 2 v ltac:(lia)) as Es. change (8 * Z.of_nat 2) with 16 in Es.
  unfold write_Short. pose proof (write_scalar_writes (D:=D) (E:=E) Short (to_signed 16 v)) as Hw.
  change (sizeof Short) with 2%nat in Hw. rewrite Es in Hw. by apply Hw.
Qed.

#[export] Instance ty_writes t : Writes (wire C1 C2 t) (write_ty t).
Proof.
  induction t; intros v bs need Hwire; cbn [wire write_ty] in *.
  - by eapply exactly_writes, write_Byte_writes.
  - by eapply exactly_writes, write_Bool_writes.
  - destruct Hwire as [Hx _]. by eapply exactly_writes, write_scalar_writes.
  - destruct Hwire as [Hx Hl]. by eapply exactly_writes, write_ByteSeq_writes.
  - destruct Hwire as [Hx Hl]. by eapply exactly_writes, write_BoolSeq_writes.
  - destruct Hwire as (Hx & Hl & _). by eapply exactly_writes, write_array_writes.
  - destruct Hwire as (Hx & Hl & _). by eapply exactly_writes, write_array_writes.
  - by apply string_writes.
  - by apply wstring_writes.
  - by eapply (sized_guarded_writes _ _ _ _ _ (string_writes convert)).
  - by eapply (sized_guarded_writes _ _ _ _ _ wstring_writes).
  - destruct Hwire as (Hx & _ & Hv & Hm). unfold write_enum_helper.
    rewrite (proj2 (Z.ltb_ge v minValue)), (proj2 (Z.ltb_ge maxValue v)) by lia.
    eapply exactly_writes, writeEnum_writes; [done|lia].
  - by apply (entry_writes _ _ _ _ IHt1 IHt2).
  - by eapply seq_helper_writes.
  - destruct Hwire as [Hs _]. eapply sized_writes; [|done]. by apply each_writes, entry_writes.
Qed.
End writers.

Section readers.
Context `{PL : Platform} {D E : Type} (C1 C2 : Config).
Local Existing Instance C2.
Local Abbreviation Reads := (@Reads PL C2 D E _).

Lemma each_reads {A} (R : A -> list byte -> nat -> Prop) mu r : Reads R mu r ->
  forall v bs need, each R v bs need ->
  reads (length v * mu) (read_each (D:=D) (E:=E) r (length v)) bs v.
Proof.
  intros Hr v bs need. induction 1 as [|x l bs1 bs2 n1 n2 Hx _ IH]; cbn [read_each length].
  { apply reads_ret. }
  eapply reads_bind; [by eapply Hr|]. by eapply reads_bind_nil, reads_ret.
Qed.

#[export] Instance seq_helper_reads {A} (R : A -> list byte -> nat -> Prop) mu r :
  Reads R mu r -> Reads (sized (each R)) 1 (read_seq_helper mu r).
Proof.
  intros Hr v bs need (body & n & HR & -> & -> & Hl). unfold int_length in Hl.
  apply reads_seq; [lia|]. rewrite Nat2Z.id. by eapply each_reads.
Qed.

Lemma dict_insert_last {K V} ltb (k : K) (v : V) m :
  Forall (fun p => ltb (fst p) k = true /\ ltb k (fst p) = false) m -> dict_insert ltb k v m = m ++ [(k, v)].
Proof. induction 1 as [|[k' v'] m [H1 H2] _ IH]; simpl; [done|]. cbn in *. by rewrite H1, H2, IH. Qed.

(** The entries arrive in order, each behind the ones that are there. *)
Lemma read_entries_reads {A B} (RA : A -> list byte -> nat -> Prop) (RB : B -> list byte -> nat -> Prop) ltb rk rv mu1 mu2 : Reads RA mu1 rk -> Reads RB mu2 rv ->
  forall v m bs need, each (entry_rel RA RB) v bs need -> increasing ltb (m ++ v) ->
  reads 0 (read_entries (D:=D) (E:=E) ltb rk rv (length v) m) bs (m ++ v).
Proof.
  intros Hk Hv v. induction v as [|[k x] v IH]; intros m bs need He Hs; inversion He; subst; cbn [read_entries length].
  { rewrite app_nil_r. apply reads_ret. }
  match goal with H : entry_rel _ _ _ _ _ |- _ => destruct H as (b1 & b2 & k1 & k2 & HA & HB & -> & _) end.
  rewrite <- app_assoc. apply (reads_weaken (mu1 + (mu2 + 0))); [|lia].
  eapply reads_bind; [by eapply Hk|]. eapply reads_bind; [by eapply Hv|].
  rewrite dict_insert_last.
  - replace (m ++ (k, x) :: v) with ((m ++ [(k, x)]) ++ v) in * by (by rewrite <- app_assoc). by eapply IH.
  - apply Forall_forall. intros p Hp. unfold increasing in Hs.
    apply StronglySorted_app in Hs as (Hs & _ & _). exact (Hs p (k, x) Hp (list_elem_of_here _ _)).
Qed.

Lemma dict_helper_reads {A B} (RA : A -> list byte -> nat -> Prop) (RB : B -> list byte -> nat -> Prop)
    ltb rk rv mu1 mu2 v bs need : Reads RA mu1 rk -> Reads RB mu2 rv ->
  sized (each (entry_rel RA RB)) v bs need -> increasing ltb v ->
  reads 1 (read_dict_helper (D:=D) (E:=E) ltb rk rv) bs v.
Proof.
  intros Hk Hv (body & n & HR & -> & -> & Hl) Hs. unfold int_length in Hl.
  apply (reads_bind 1 0 _ _ _ _ (Z.of_nat (length v))); [apply readSize_reads; lia|].
  rewrite Nat2Z.id. by eapply (read_entries_reads RA RB ltb rk rv mu1 mu2 Hk Hv v []).
Qed.

(** A reader that skips the loop over an empty container *)
Lemma sized_guarded_reads {A} (R : A -> list byte -> nat -> Prop) r : Reads R 1 r ->
  Reads (sized (each R)) 1 (sz ← readAndCheckSeqSize 1;
    if 0 <? sz then read_each r (Z.to_nat sz) else mret []).
Proof.
  intros Hr v bs need (body & n & HR & -> & -> & Hl). unfold int_length in Hl.
  apply (reads_seq _ 1); [lia|].
  pose proof (each_reads _ _ _ Hr _ _ _ HR). rewrite Nat2Z.id.
  destruct v; [done|]. by rewrite nonempty_size.
Qed.

#[export] Instance string_reads convert :
  Reads (string_rel C1 C2 convert) 1 (read_string convert).
Proof. intros v bs need (body & -> & (_ & Hb & _) & Hv). by apply read_string_reads. Qed.

#[export] Instance wstring_reads : Reads (wstring_rel C1 C2) 1 read_wstring.
Proof. intros v bs need (body & -> & (_ & Hb & _) & Hv). by apply read_wstring_reads. Qed.

Lemma readEnum_reads v maxValue : 0 <= v <= maxValue -> maxValue < 2 ^ 31 ->
  reads 1 (readEnum (D:=D) (E:=E) maxValue) (enum_bytes c_read maxValue v) v.
Proof.
  intros Hv Hm. unfold readEnum, enum_bytes.
  apply (reads_gets _ _ c_read); [by intros s (_ & _ & _ & _ & _ & ? & _)|].
  destruct (encoding_eqb c_read Encoding_1_0); [|apply readSize_reads; lia].
  destruct (maxValue <? 127) eqn:E1; [|destruct (maxValue <? 32767) eqn:E2]; bool_to_prop.
  - eapply reads_bind_nil; [apply read_Byte_reads|]. rewrite ord_chr_small by lia. apply reads_ret.
  - eapply reads_weaken; [apply (read_scalar_reads Short)|simpl; lia].
    unfold in_range, in_signed. simpl. lia.
  - eapply reads_weaken; [apply (read_scalar_reads Int)|simpl; lia].
    unfold in_range, in_signed. simpl. lia.
Qed.

#[export] Instance enum_reads minValue maxValue :
  Reads (wire C1 C2 (TEnum minValue maxValue)) 1 (read_enum_helper minValue maxValue).
Proof.
  intros v bs need ([-> _] & He & Hv & Hm). unfold read_enum_helper.
  rewrite <- He. eapply reads_bind_nil; [apply readEnum_reads; lia|].
  rewrite (proj2 (Z.ltb_ge v minValue)), (proj2 (Z.ltb_ge maxValue v)) by lia. apply reads_ret.
Qed.

#[export] Instance ty_reads t : Reads (wire C1 C2 t) (minWireSize t) (read_ty t).
Proof.
  induction t; intros v bs need Hwire; cbn [wire read_ty minWireSize] in *.
  - destruct Hwire as [-> _]. apply read_Byte_reads.
  - destruct Hwire as [-> _]. apply read_Bool_reads.
  - destruct Hwire as [[-> _] ?]. by apply read_scalar_reads.
  - destruct Hwire as [[-> _] ?]. by apply read_ByteSeq_reads.
  - destruct Hwire as [[-> _] ?]. by apply read_BoolSeq_reads.
  - destruct Hwire as ([-> _] & ? & ?). by apply read_array_reads.
  - destruct Hwire as ([-> _] & ? & ?). by apply read_array_ptr_reads.
  - by eapply string_reads.
  - by eapply wstring_reads.
  - by eapply (sized_guarded_reads _ _ (string_reads convert)).
  - by eapply (sized_guarded_reads _ _ wstring_reads).
  - by eapply enum_reads.
  - destruct Hwire as (bs1 & bs2 & n1 & n2 & H1 & H2 & -> & _). destruct v as [v1 v2].
    eapply reads_bind; [by eapply IHt1|]. eapply reads_bind_nil; [by eapply IHt2|apply reads_ret].
  - by eapply seq_helper_reads.
  - destruct Hwire as [Hs Ho]. by eapply dict_helper_reads.
Qed.
End readers.
