(* ===== verification/StreamSpec.v ===== *)
(** * What the stream promises

    The contract of the basic types: whatever the byte order of the two hosts,
    the bytes of a value are the same and reading them gives the value back;
    and whatever the bytes, a read stays inside the buffer. *)

From S2P Require Import Prelude CxxString Buffer Layout Protocol Stream Wire Codecs StreamString StreamHelpers.

(** ** Concrete hosts, configurations and values, for the examples *)
Module Sample.
Definition sparc : Platform :=
  {| host := BigEndian; host_x86 := false; x86_is_little := fun H => match H with eq_refl => I end |}.
Definition x86 : Platform :=
  {| host := LittleEndian; host_x86 := true; x86_is_little := fun _ => eq_refl |}.
Definition arm_fpa : Platform :=
  {| host := LittleByteBigWord; host_x86 := false; x86_is_little := fun H => match H with eq_refl => I end |}.

(** A converter that asks for two bytes for each character and uses one,
    and one that writes two bytes for each character. *)
Definition one_by_one : StringConverter ascii :=
  MkConverter (fun v => ((fun c => (2%nat, [c])) <$> v, Ok tt)) Ok.
Definition doubling : StringConverter Z :=
  MkConverter (fun v => ([(2 * length v, v ≫= fun c => [chr c; chr c])%nat], Ok tt))
    (fun bs => Ok (ord <$> take (length bs / 2) bs)).

Definition cfg : Config :=
  {| c_string := Some one_by_one; c_wstring := doubling;
     c_read := Encoding_1_1; c_write := Encoding_1_1 |}.

Definition sender : BasicStream unit unit :=
  stream_new Encoding_1_1 100 false (Some one_by_one) doubling.
Definition receiver (bytes : list byte) : BasicStream unit unit :=
  stream_over Encoding_1_1 100 bytes 4096 (Some one_by_one) doubling.

(** A double, a sequence of sequences of shorts, a string and an enumerator *)
Definition t : ty :=
  TStruct (TScalar Double) (TStruct (TSeq (TArray Short)) (TStruct (TString true) (TEnum 0 5))).
Definition v : denote t := (4608238818662570491, ([[1; -2]; []], (lit "ab", 3))).
Definition bytes : list byte := chr <$>
  [251; 89; 140; 66; 202; 192; 243; 63; 2; 2; 1; 0; 254; 255; 0; 2; 97; 98; 3].

Lemma v_wire : wire cfg cfg t v bytes 28.
Proof.
  eexists _, _, _, _. split_and!.
  - split; [by split|vm_compute; split; done].
  - eexists _, _, _, _. split_and!.
    + eexists _, _. split_and!; [|done|done|done].
      eapply each_cons; [|eapply each_cons; [|apply each_nil]]; (split; [by split|]).
      * split; [done|]. repeat constructor; vm_compute; done.
      * split; [done|constructor].
    + eexists _, _, _, _. split_and!.
      * exists (lit "ab"). split; [done|]. split; [|done]. split_and!; [done|done|].
        exists 4%nat. split; [|done]. eexists. split_and!; [done|done| |done|done].
        repeat constructor.
      * split; [by split|]. split; [done|]. vm_compute. split_and!; done.
      * done.
      * done.
    + done.
    + done.
  - vm_compute. done.
  - vm_compute. done.
Qed.
End Sample.

Section properties.
Context {D E D' E' : Type}.

(** C5. A value of any marshalled type (scalars, arrays, strings with or without a
    converter, enumerators, structures, nested sequences and dictionaries) that a
    stream on one host writes is appended as its wire bytes, and a stream on a host
    of any other byte order that stands on those bytes reads the same value and
    stops right behind it. *)
Theorem message_roundtrip (P1 P2 : Platform) (C1 C2 : Config) (t : ty) (v : denote t) bs need
    (s1 : BasicStream D E) (s2 : BasicStream D' E') rest :
  wire C1 C2 t v bs need ->
  fits (CF:=C1) s1 need ->
  readable (CF:=C2) s2 -> startSeq s2 = -1 -> remaining s2 = bs ++ rest ->
  write_ty (PL:=P1) t v s1 = (Ok tt, appended bs s1) /\
  exists s2', read_ty (PL:=P2) t s2 = (Ok v, s2') /\ consumed s2 s2' (length bs).
Proof.
  intros Hw Hf Hs Hseq Hr.
  split; [by apply (ty_writes (D:=D) (E:=E) C1 C2 t _ _ _ Hw)|].
  destruct (ty_reads (D:=D') (E:=E') C1 C2 t _ _ _ Hw) as [_ Hok].
  destruct (Hok s2 rest 0%nat Hs Hr) as (s2' & E1 & C & _); [lia|by left|by exists s2'].
Qed.
End properties.

Lemma message_roundtrip_witness :
  write_ty (PL:=Sample.sparc) Sample.t Sample.v Sample.sender = (Ok tt, appended Sample.bytes Sample.sender) /\
  exists s2', read_ty (PL:=Sample.x86) Sample.t (Sample.receiver Sample.bytes) = (Ok Sample.v, s2') /\
    consumed (Sample.receiver Sample.bytes) s2' 19.
Proof.
  apply (message_roundtrip Sample.sparc Sample.x86 Sample.cfg Sample.cfg Sample.t Sample.v
    Sample.bytes 28 Sample.sender (Sample.receiver Sample.bytes) []).
  - apply Sample.v_wire.
  - split; [by split_and!|right; vm_compute; lia].
  - unfold readable. vm_compute. split_and!; done || lia.
  - done.
  - by rewrite app_nil_r.
Defined.

(** ** The bytes do not depend on the host *)

Section hosts.
Context {D E : Type} (P1 P2 : Platform).
Local Abbreviation stream := (BasicStream D E).

(** Descend into a sequence of operations, and apply the lemmas of the
    database [host] to those that mention the host. *)
Ltac descend :=
  repeat match goal with
  | |- ?m ≡ ?m => reflexivity
  | |- mbind _ _ ≡ mbind _ _ => apply M_bind_proper; [intros ?|]
  | |- _ => solve [eauto with host nocore]
  | |- _ => case_match
  end.
Create HintDb host discriminated.

Lemma write_scalar_host k v :
  write_scalar (PL:=P1) (D:=D) (E:=E) k v ≡ write_scalar (PL:=P2) k v.
Proof. intros s. unfold write_scalar. by rewrite !encode_scalar_le. Qed.
Local Hint Resolve write_scalar_host : host.

Lemma writeSize_host v : writeSize (PL:=P1) (D:=D) (E:=E) v ≡ writeSize (PL:=P2) v.
Proof. unfold writeSize, write_Int. descend. Qed.
Local Hint Resolve writeSize_host : host.

Lemma rewriteSize_host v p : rewriteSize (PL:=P1) (D:=D) (E:=E) v p ≡ rewriteSize (PL:=P2) v p.
Proof. unfold rewriteSize, write_Int_at. rewrite !encode_scalar_le. descend. Qed.
Local Hint Resolve rewriteSize_host : host.

Lemma write_array_host k vs : write_array (PL:=P1) (D:=D) (E:=E) k vs ≡ write_array (PL:=P2) k vs.
Proof. unfold write_array. rewrite !encode_array_le. descend. Qed.
Local Hint Resolve write_array_host : host.

Lemma write_each_host {A} (w1 w2 : A -> M stream unit) l : (forall x, w1 x ≡ w2 x) ->
  write_each w1 l ≡ write_each w2 l.
Proof. intros Hw. induction l as [|x l IH]; simpl; [done|]. apply M_bind_proper; [by intros _|done]. Qed.

Lemma write_entry_host {A B} (k1 k2 : A -> M stream unit) (v1 v2 : B -> M stream unit) p :
  (forall x, k1 x ≡ k2 x) -> (forall x, v1 x ≡ v2 x) -> write_entry k1 v1 p ≡ write_entry k2 v2 p.
Proof. intros Hk Hv. apply M_bind_proper; [by intros _|done]. Qed.

Lemma write_converted_by_host {T} (conv : StringConverter T) v :
  write_converted_by (PL:=P1) (D:=D) (E:=E) conv v ≡ write_converted_by (PL:=P2) conv v.
Proof. unfold write_converted_by, fixGuess. descend. Qed.
Local Hint Resolve write_converted_by_host : host.

Lemma write_string_host v c : write_string (PL:=P1) (D:=D) (E:=E) v c ≡ write_string (PL:=P2) v c.
Proof. unfold write_string, writeConverted. descend. Qed.

Lemma write_wstring_host v : write_wstring (PL:=P1) (D:=D) (E:=E) v ≡ write_wstring (PL:=P2) v.
Proof. unfold write_wstring. descend. Qed.
Local Hint Resolve write_string_host write_wstring_host write_each_host write_entry_host : host.

(** C29. Two hosts of any byte orders that write the same value of any type to equal
    streams end in equal states with equal outcomes, errors included: the big-endian
    and swapped-word copy loops of the source are equivalent to the plain ones. *)
Theorem write_ty_host_independent t v (s : stream) :
  write_ty (PL:=P1) t v s = write_ty (PL:=P2) t v s.
Proof.
  revert s. change (write_ty (PL:=P1) (D:=D) (E:=E) t v ≡ write_ty (PL:=P2) t v).
  induction t; cbn [write_ty]; unfold write_ByteSeq, write_BoolSeq, write_StringSeq, write_WstringSeq,
    write_enum_helper, writeEnum, write_seq_helper, write_dict_helper, write_Short, write_Int; descend.
Qed.
End hosts.

(** ** Reading arbitrary bytes *)

(** The cursor is inside the buffer. *)
Definition in_bounds {D E} (s : BasicStream D E) : Prop := 0 <= i s <= b_end s.

Section arbitrary.
Context `{PL : Platform} {D E : Type}.
Local Abbreviation stream := (BasicStream D E).
Implicit Types s : stream.

Lemma length_remaining s : in_bounds s -> Z.of_nat (length (remaining s)) = b_end s - i s.
Proof. intros Hs. unfold remaining, in_bounds, b_end, b_size in *. rewrite length_drop. lia. Qed.

Lemma bytes_at_prefix s n : in_bounds s -> (n <= length (remaining s))%nat ->
  bytes_at (i s) n s = (Ok (take n (remaining s)), s).
Proof.
  intros Hs Hn. pose proof (length_remaining s Hs). unfold bytes_at, in_bounds in *. step.
  rewrite (proj2 (Z.leb_le 0 (i s))), (proj2 (Z.leb_le _ (b_end s))) by lia. done.
Qed.

Lemma byte_at_head s c r : in_bounds s -> remaining s = c :: r -> byte_at (i s) s = (Ok c, s).
Proof.
  intros Hs Hr. unfold byte_at, in_bounds in *. step. rewrite (proj2 (Z.leb_le 0 (i s))) by lia.
  assert (b s !! Z.to_nat (i s) = Some c) as ->; [|done].
  rewrite <- (Nat.add_0_r (Z.to_nat (i s))), <- lookup_drop.
  change (drop _ (b s)) with (remaining s). by rewrite Hr.
Qed.

Lemma read_Byte_any s : in_bounds s ->
  read_Byte s = match remaining s with
                | [] => (Throw UnmarshalOutOfBoundsException, s)
                | c :: _ => (Ok c, set_i (i s + 1) s)
                end.
Proof.
  intros Hs. pose proof (length_remaining s Hs) as Hl. unfold read_Byte. step.
  destruct (remaining s) as [|c r] eqn:Hr; simpl in Hl.
  - by rewrite (proj2 (Z.leb_le (b_end s) (i s))) by lia.
  - rewrite (proj2 (Z.leb_gt (b_end s) (i s))) by lia.
    by rewrite (bind_ok _ _ _ _ _ (byte_at_head _ _ _ Hs Hr)).
Qed.

Lemma read_scalar_any k s : in_bounds s ->
  read_scalar k s =
    if (length (remaining s) <? sizeof k)%nat then (Throw UnmarshalOutOfBoundsException, s)
    else (Ok (value_of_bits k (le_val (take (sizeof k) (remaining s)))),
          set_i (i s + Z.of_nat (sizeof k)) s).
Proof.
  intros Hs. pose proof (length_remaining s Hs) as Hl. unfold read_scalar. step.
  destruct (_ <? sizeof k)%nat eqn:E1; bool_to_prop.
  - by rewrite (proj2 (Z.ltb_lt (b_end s - i s) _)) by lia.
  - rewrite (proj2 (Z.ltb_ge (b_end s - i s) _)) by lia.
    rewrite (bind_ok _ _ _ _ _ (bytes_at_prefix _ _ Hs E1)).
    unfold advance. steps. rewrite decode_scalar_le by (rewrite length_take; lia). done.
Qed.

Lemma remaining_set_i s n : in_bounds s -> remaining (set_i (i s + Z.of_nat n) s) = drop n (remaining s).
Proof.
  intros Hs. unfold remaining, in_bounds in *. simpl. rewrite drop_drop. f_equal. lia.
Qed.

Lemma in_bounds_set_i s n : in_bounds s -> (n <= length (remaining s))%nat ->
  in_bounds (set_i (i s + Z.of_nat n) s).
Proof.
  intros Hs Hn. pose proof (length_remaining s Hs). unfold in_bounds, b_end, b_size in *. simpl. lia.
Qed.

(** On arbitrary bytes reading a scalar throws UnmarshalOutOfBoundsException
    with the stream unchanged exactly when fewer bytes remain than its size, and
    otherwise answers the value in range whose little-endian bytes stood at the
    cursor. *)
Theorem read_scalar_total k s : in_bounds s ->
  exists r s', read_scalar k s = (r, s') /\ in_bounds s' /\
    (if (length (remaining s) <? sizeof k)%nat
     then r = Throw UnmarshalOutOfBoundsException /\ s' = s
     else exists v, r = Ok v /\ in_range k v /\ remaining s = le_bytes (sizeof k) v ++ remaining s').
Proof.
  intros Hs. rewrite read_scalar_any by done. destruct (_ <? sizeof k)%nat eqn:E1; bool_to_prop.
  { by exists (Throw UnmarshalOutOfBoundsException), s. }
  assert (length (take (sizeof k) (remaining s)) = sizeof k) as Hl by (rewrite length_take; lia).
  eexists _, _. split; [done|]. split; [by apply in_bounds_set_i|].
  eexists. split; [done|]. split; [by apply value_of_bits_range|].
  rewrite remaining_set_i by done. rewrite le_bytes_value by done. by rewrite take_drop.
Qed.

(** The value of a size and how many bytes it takes, or how many bytes were
    read when they are not a size. *)
Definition size_at (l : list byte) : nat * option Z :=
  match l with
  | [] => (0%nat, None)
  | c :: l' =>
      if ord c =? 255 then
        if (length l' <? 4)%nat then (1%nat, None)
        else
          let v := to_signed 32 (le_val (take 4 l')) in
          (5%nat, if v <? 0 then None else Some v)
      else (1%nat, Some (ord c))
  end.

Lemma readSize_any s : in_bounds s ->
  readSize s =
    (match snd (size_at (remaining s)) with
     | Some v => Ok v
     | None => Throw UnmarshalOutOfBoundsException
     end, set_i (i s + Z.of_nat (fst (size_at (remaining s)))) s).
Proof.
  intros Hs. unfold readSize, size_at. pose proof (read_Byte_any s Hs) as Hb.
  destruct (remaining s) as [|c r] eqn:Hr.
  { rewrite (bind_throw _ _ _ _ _ Hb). simpl. rewrite Z.add_0_r. by destruct s. }
  rewrite (bind_ok _ _ _ _ _ Hb). destruct (ord c =? 255); [|done].
  pose proof (remaining_set_i s 1 Hs) as Hr1. rewrite Hr in Hr1. change (Z.of_nat 1) with 1 in Hr1.
  assert (in_bounds (set_i (i s + 1) s)) as Hs1.
  { apply (in_bounds_set_i s 1); [done|]. rewrite Hr. simpl. lia. }
  pose proof (read_scalar_any Int _ Hs1) as Hi. rewrite Hr1 in Hi. cbn [drop sizeof] in Hi.
  rewrite drop_0 in Hi. destruct (length r <? 4)%nat.
  - by rewrite (bind_throw _ _ _ _ _ Hi).
  - rewrite (bind_ok _ _ _ _ _ Hi). change (8 * Z.of_nat (sizeof Int)) with 32. cbn [fst snd].
    assert (set_i (i (set_i (i s + 1) s) + Z.of_nat 4) (set_i (i s + 1) s) = set_i (i s + Z.of_nat 5) s) as ->.
    { unfold set_i. simpl. f_equal. lia. }
    unfold value_of_bits. change (8 * Z.of_nat (sizeof Int)) with 32. by case_if.
Qed.
End arbitrary.

(** ** Sequences of arbitrary bytes *)

Section sequences.
Context `{PL : Platform} {D E : Type}.
Local Abbreviation stream := (BasicStream D E).
Implicit Types s : stream.

(** What the sequences being read have promised is in the buffer. *)
Definition seq_state s : Prop :=
  startSeq s = -1 \/
  (0 <= startSeq s /\ 0 <= minSeqSize s /\ startSeq s + minSeqSize s <= b_end s).

(** The size of the buffer and the bytes that the size at the cursor announces,
    for elements of [w] bytes, do not overflow an [Int] together. *)
Definition small_size (w : Z) s : Prop :=
  b_end s < 2 ^ 31 /\ forall n, snd (size_at (remaining s)) = Some n -> b_end s + n * w < 2 ^ 31.

Lemma size_at_range l n : snd (size_at l) = Some n -> 0 <= n.
Proof.
  unfold size_at. destruct l as [|c l]; [done|]. pose proof (ord_range c).
  repeat case_if; simpl; intros [=]; subst; bool_to_prop; lia.
Qed.

Lemma size_at_length l : (fst (size_at l) <= length l)%nat.
Proof.
  unfold size_at. destruct l as [|c l]; [done|]. destruct (_ =? 255); [|simpl; lia].
  destruct (_ <? 4)%nat eqn:E1; bool_to_prop; simpl; lia.
Qed.

Lemma readSize_bounds s n s' : in_bounds s -> readSize s = (Ok n, s') ->
  snd (size_at (remaining s)) = Some n /\ in_bounds s' /\ b s' = b s /\
  startSeq s' = startSeq s /\ minSeqSize s' = minSeqSize s.
Proof.
  intros Hs. rewrite readSize_any by done. intros H.
  destruct (snd (size_at (remaining s))); simplify_eq. split; [done|].
  split; [|done]. apply in_bounds_set_i; [done|apply size_at_length].
Qed.

Lemma in_bounds_seq x y s : in_bounds s -> in_bounds (set_seq x y s).
Proof. done. Qed.

(** An accepted sequence has its elements in the buffer. *)
Lemma readAndCheckSeqSize_safe w s : 0 <= w -> in_bounds s -> seq_state s -> small_size w s ->
  match readAndCheckSeqSize w s with
  | (Ok n, s') => 0 <= n /\ in_bounds s' /\ seq_state s' /\ i s' + n * w <= b_end s' /\ b s' = b s
  | (Throw e, s') => e = UnmarshalOutOfBoundsException /\ in_bounds s'
  | (Fault _, _) => False
  end.
Proof.
  intros Hw Hs Hq [Hb Hn]. unfold readAndCheckSeqSize.
  pose proof (readSize_any s Hs) as Hr.
  destruct (snd (size_at (remaining s))) as [n|] eqn:En.
  2:{ rewrite (bind_throw _ _ _ _ _ Hr). split; [done|].
      apply in_bounds_set_i; [done|apply size_at_length]. }
  rewrite (bind_ok _ _ _ _ _ Hr). revert Hr. generalize (set_i (i s + Z.of_nat (fst (size_at (remaining s)))) s).
  intros s1 Hr. destruct (readSize_bounds _ _ _ Hs Hr) as (_ & Hs1 & Hb1 & Hst & Hmi).
  pose proof (size_at_range _ _ En) as Hn0. specialize (Hn n eq_refl).
  assert (b_end s1 = b_end s) as He by (unfold b_end, b_size; by rewrite Hb1).
  destruct (n =? 0) eqn:E0; bool_to_prop.
  { subst n. simpl. unfold seq_state in *. rewrite Hst, Hmi, He. unfold in_bounds in Hs1.
    split_and!; [done|done|done|lia|done]. }
  assert (0 <= n * w) by nia. unfold in_bounds in Hs1.
  rewrite !(to_i32_id (n * w)) by lia. step.
  destruct ((startSeq s1 =? -1) || (startSeq s1 + minSeqSize s1 <? i s1)) eqn:Ec;
    [|apply orb_false_iff in Ec as [E2 E3]; bool_to_prop; destruct Hq as [Hq|Hq]; [congruence|]];
    steps; cbn [startSeq minSeqSize set_seq]; change (b_end (set_seq ?x ?y s1)) with (b_end s1).
  - rewrite (to_i32_id (i s1)), !to_i32_id by lia.
    destruct (b_end s1 <? _) eqn:E4; bool_to_prop;
      cbv beta iota delta [throwUnmarshalOutOfBounds throw mret M_ret]; [by split|].
    unfold seq_state. cbn [startSeq minSeqSize set_seq i b].
    change (b_end (set_seq ?x ?y s1)) with (b_end s1). split_and!; [lia|exact Hs1|right; lia|lia|done].
  - rewrite (to_i32_id (minSeqSize s1 + _)), !to_i32_id by lia.
    destruct (b_end s1 <? _) eqn:E4; bool_to_prop;
      cbv beta iota delta [throwUnmarshalOutOfBounds throw mret M_ret]; [by split|].
    unfold seq_state. cbn [startSeq minSeqSize set_seq i b].
    change (b_end (set_seq ?x ?y s1)) with (b_end s1). split_and!; [lia|exact Hs1|right; lia|lia|done].
Qed.

(** On arbitrary bytes readSize never leaves the buffer; it answers a non-
    negative Int whose one-byte or five-byte encoding stood at the cursor, or throws
    UnmarshalOutOfBoundsException. *)
Theorem readSize_outcomes s : in_bounds s ->
  match readSize s with
  | (Ok v, s') => 0 <= v < 2 ^ 31 /\ in_bounds s' /\
      (remaining s = size_bytes v ++ remaining s' \/
       v <= 254 /\ remaining s = chr 255 :: le_bytes 4 v ++ remaining s')
  | (Throw e, s') => e = UnmarshalOutOfBoundsException /\ in_bounds s'
  | (Fault _, _) => False
  end.
Proof.
  intros Hs. rewrite readSize_any by done.
  pose proof (in_bounds_set_i s _ Hs (size_at_length (remaining s))) as Hs'.
  destruct (snd (size_at (remaining s))) as [v|] eqn:Ev; [|done].
  pose proof (size_at_range _ _ Ev) as Hv. pose proof (remaining_set_i s (fst (size_at (remaining s))) Hs) as Hr.
  rewrite Hr. rewrite (and_comm (in_bounds _)), (and_assoc (0 <= v < _)). split; [|done].
  clear Hr Hs'. revert Ev. unfold size_at. destruct (remaining s) as [|c l] eqn:Hl; [done|].
  pose proof (ord_range c) as Hc. destruct (ord c =? 255) eqn:E1.
  - apply Z.eqb_eq in E1. assert (c = chr 255) as -> by (apply ord_inj; by rewrite ord_chr_small).
    destruct (length l <? 4)%nat eqn:E2; [done|]. bool_to_prop. cbn [fst snd drop]. case_if; [done|].
    intros [= <-]. assert (length (take 4 l) = 4%nat) as H4 by (rewrite length_take; lia).
    pose proof (value_of_bits_range Int (take 4 l) H4) as Hi. pose proof (le_bytes_value Int (take 4 l) H4) as Hle.
    unfold in_range, value_of_bits, in_signed in *. cbn [sizeof] in *.
    change (8 * Z.of_nat 4) with 32 in *. set (v := to_signed 32 _) in *.
    split; [lia|]. unfold size_bytes. destruct (254 <? v) eqn:E3; bool_to_prop.
    + left. cbn [app]. by rewrite Hle, take_drop.
    + right. split; [lia|]. by rewrite Hle, take_drop.
  - intros [= <-]. bool_to_prop. split; [lia|]. left. unfold size_bytes.
    rewrite (proj2 (Z.ltb_ge 254 (ord c))) by lia. by rewrite chr_ord.
Qed.

(** The elements of an accepted sequence are read inside the buffer. *)
Definition safe {A} (ok : A -> Prop) (m : M stream A) s : Prop :=
  match m s with
  | (Ok a, s') => ok a /\ in_bounds s'
  | (Throw e, s') => e = UnmarshalOutOfBoundsException /\ in_bounds s'
  | (Fault _, _) => False
  end.

Lemma safe_seq {A} (ok : A -> Prop) w (k : Z -> M stream A) s :
  0 <= w -> in_bounds s -> seq_state s -> small_size w s ->
  (forall n s', 0 <= n -> in_bounds s' -> i s' + n * w <= b_end s' -> b_end s' < 2 ^ 31 ->
    safe ok (k n) s') ->
  safe ok (mbind k (readAndCheckSeqSize w)) s.
Proof.
  intros Hw Hs Hq Hm Hk. pose proof (readAndCheckSeqSize_safe w s Hw Hs Hq Hm) as H.
  unfold safe, mbind, M_bind. destruct (readAndCheckSeqSize w s) as [[n|e|f] s']; [|done..].
  destruct H as (? & ? & _ & ? & Hb). apply Hk; [done..|].
  destruct Hm as [Hm _]. unfold b_end, b_size in *. by rewrite Hb.
Qed.

Lemma bytes_at_moved x p n s : in_bounds s -> p = i s -> (n <= length (remaining s))%nat ->
  bytes_at p n (set_i x s) = (Ok (take n (remaining s)), set_i x s).
Proof. intros Hs -> Hn. by rewrite bytes_at_set_i, bytes_at_prefix. Qed.

(** The sequence has [n] elements of its type, and the [n * w] bytes that it
    took were in the buffer. *)
Definition array_ok (k : scalar) (vs : list Z) : Prop := Forall (in_range k) vs.

Lemma le_array_ok k n l : length l = (n * sizeof k)%nat -> array_ok k (le_array k n l).
Proof.
  intros Hl. unfold array_ok. rewrite le_array_chunks. apply Forall_fmap.
  eapply Forall_impl; [by apply chunks_widths|]. intros bs Hbs. by apply value_of_bits_range.
Qed.

Lemma fits_bytes k n s : 0 <= n -> in_bounds s -> i s + n * Z.of_nat (sizeof k) <= b_end s ->
  b_end s < 2 ^ 31 ->
  to_i32 (n * Z.of_nat (sizeof k)) = Z.of_nat (Z.to_nat n * sizeof k) /\
  (Z.to_nat n * sizeof k <= length (remaining s))%nat.
Proof.
  intros Hn Hs Hi Hb. pose proof (length_remaining s Hs). unfold in_bounds in Hs.
  assert (n * Z.of_nat (sizeof k) = Z.of_nat (Z.to_nat n * sizeof k)) as Ew
    by (by rewrite Nat2Z.inj_mul, Z2Nat.id by lia).
  rewrite to_i32_id by lia. lia.
Qed.

Lemma read_elements_safe k n s : 0 <= n -> in_bounds s ->
  i s + n * Z.of_nat (sizeof k) <= b_end s -> b_end s < 2 ^ 31 ->
  safe (array_ok k) (read_elements k n) s.
Proof.
  intros Hn Hs Hi Hb. destruct (fits_bytes k n s Hn Hs Hi Hb) as [Ew Hl].
  unfold safe, read_elements, advance, copied. steps. rewrite Ew, (proj2 (Z.ltb_ge _ 0)), Nat2Z.id by lia.
  assert ((if loops k then bytes_at (i s) (Z.to_nat n * sizeof k) else bytes_at (i s) (Z.to_nat n * sizeof k))
    (set_i (i s + Z.of_nat (Z.to_nat n * sizeof k)) s)
    = (Ok (take (Z.to_nat n * sizeof k) (remaining s)), set_i (i s + Z.of_nat (Z.to_nat n * sizeof k)) s)) as E1.
  { destruct (loops k); by apply bytes_at_moved. }
  rewrite (bind_ok _ _ _ _ _ E1). cbn [mret M_ret].
  rewrite decode_array_le by (rewrite length_take; lia).
  split; [apply le_array_ok; rewrite length_take; lia|by apply in_bounds_set_i].
Qed.

(** C37. On arbitrary bytes, with the cursor and the estimate for enclosing
    sequences inside the buffer, reading a sequence of scalars (copied or zero-copy)
    either yields values of the type or throws UnmarshalOutOfBoundsException; it
    never reads outside the buffer and leaves the cursor inside it, provided that
    the size of the buffer plus the bytes that the size at the cursor announces is
    below 2^31; beyond that the sum that the code compares wraps around (a finding).
    *)
Theorem read_sequences_safe k s : in_bounds s -> seq_state s ->
  small_size (Z.of_nat (sizeof k)) s ->
  safe (array_ok k) (read_array k) s /\ safe (array_ok k) (read_array_ptr k) s.
Proof.
  intros Hs Hq Hm.
  split; (apply safe_seq; [lia|done..|]; intros n s' Hn Hs' Hi Hb;
    destruct (0 <? n); [|split; [constructor|done]]).
  - by apply read_elements_safe.
  - destruct host_x86 eqn:Hx; [|by apply read_elements_safe].
    destruct (fits_bytes k n s' Hn Hs' Hi Hb) as [Ew Hl].
    unfold safe, advance, copied. steps. rewrite Ew, (proj2 (Z.ltb_ge _ 0)), Nat2Z.id by lia.
    erewrite bind_ok by (by apply bytes_at_moved).
    rewrite <- Nat2Z.inj_div, Nat.div_mul, Nat2Z.id by (destruct k; done). cbn [mret M_ret].
    rewrite array_of_mem_le by (try apply x86_is_little; rewrite ?length_take; done || lia).
    split; [apply le_array_ok; rewrite length_take; lia|by apply in_bounds_set_i].
Qed.
End sequences.

Lemma read_scalar_total_witness :
  exists r s', read_scalar (PL:=Sample.sparc) Short (Sample.receiver [chr 1; chr 2; chr 3]) = (r, s') /\ in_bounds s' /\
    exists v, r = Ok v /\ in_range Short v /\
      remaining (Sample.receiver [chr 1; chr 2; chr 3]) = le_bytes 2 v ++ remaining s'.
Proof.
  apply (read_scalar_total (PL:=Sample.sparc) Short (Sample.receiver [chr 1; chr 2; chr 3])).
  vm_compute. done.
Defined.

Lemma readSize_outcomes_witness :
  match readSize (PL:=Sample.arm_fpa) (Sample.receiver (chr <$> [255; 7; 0; 0; 0; 9])) with
  | (Ok v, s') => 0 <= v < 2 ^ 31 /\ in_bounds s' /\
      (remaining (Sample.receiver (chr <$> [255; 7; 0; 0; 0; 9])) = size_bytes v ++ remaining s' \/
       v <= 254 /\ remaining (Sample.receiver (chr <$> [255; 7; 0; 0; 0; 9]))
                   = chr 255 :: le_bytes 4 v ++ remaining s')
  | (Throw e, s') => e = UnmarshalOutOfBoundsException /\ in_bounds s'
  | (Fault _, _) => False
  end.
Proof. apply (readSize_outcomes (PL:=Sample.arm_fpa)). vm_compute. done. Defined.

Lemma read_sequences_safe_witness :
  safe (array_ok Int) (read_array (PL:=Sample.sparc) Int) (Sample.receiver (chr <$> [2; 1; 0; 0; 0; 2; 0; 0; 0])) /\
  safe (array_ok Int) (read_array_ptr (PL:=Sample.sparc) Int) (Sample.receiver (chr <$> [2; 1; 0; 0; 0; 2; 0; 0; 0])).
Proof.
  apply (read_sequences_safe (PL:=Sample.sparc) Int).
  - vm_compute. done.
  - by left.
  - split; [vm_compute; done|]. intros n [= <-]. vm_compute. done.
Defined.

(** Five bytes that announce 2^29 longs, 2^30-1 shorts or 2^31-1 bytes pass the
    estimate of readAndCheckSeqSize, because the sum it compares with the size of the buffer is
    an int that wraps around. *)
Lemma seq_estimate_overflow :
  fst (readAndCheckSeqSize (PL:=Sample.x86) 8 (Sample.receiver (chr <$> [255; 0; 0; 0; 32]))) = Ok (2 ^ 29) /\
  fst (readAndCheckSeqSize (PL:=Sample.x86) 2 (Sample.receiver (chr <$> [255; 255; 255; 255; 63]))) = Ok (2 ^ 30 - 1) /\
  fst (readAndCheckSeqSize (PL:=Sample.x86) 1 (Sample.receiver (chr <$> [255; 255; 255; 255; 127]))) = Ok (2 ^ 31 - 1).
Proof. by vm_compute. Qed.

(** ** Converted strings *)

Section converted.
Context `{PL : Platform} `{CF : Config} {D E : Type}.

(** C32. Whatever pieces a string converter requests and fills, a converted string
    is appended as the size of its UTF-8 form followed by that form: the guessed
    size is corrected and the bytes are moved by four when the size needs more or
    fewer bytes than the guess. *)
Theorem writeConverted_exact (conv : StringConverter ascii) v chunks (s : BasicStream D E) :
  stringConverter s = Some conv -> toUTF8 conv v = (chunks, Ok tt) ->
  chunks <> [] -> Forall chunk_ok chunks ->
  int_length v -> int_length (stored chunks) ->
  (unlimited s = true \/ (b_size s + requested chunks + 9 <= messageSizeMax s)%nat) ->
  writeConverted v s =
    (Ok tt, appended (size_bytes (Z.of_nat (length (stored chunks))) ++ stored chunks) s).
Proof.
  intros Hs Hconv Hne Hc Hv Hb Hl. unfold writeConverted. step. rewrite Hs.
  set (cf := {| c_string := stringConverter s; c_wstring := wstringConverter s;
                c_read := read_encoding s; c_write := write_encoding s |}).
  apply (write_converted_by_writes (CF:=cf) conv v (stored chunks) (requested chunks)); [|done..|].
  - by exists chunks.
  - split; [by split_and!|]. destruct Hl; [by left|right; lia].
Qed.
End converted.

(** 130 characters that become 260 bytes: the size grows by four bytes. *)
Definition Sample_twice : StringConverter ascii :=
  MkConverter (fun v => ([(2 * length v, v ≫= fun c => [c; c])%nat], Ok tt)) Ok.

Lemma writeConverted_exact_witness :
  writeConverted (PL:=Sample.sparc) (replicate 130 (chr 97))
    (stream_new (D:=unit) (E:=unit) Encoding_1_1 0 true (Some Sample_twice) Sample.doubling)
  = (Ok tt, appended (chr 255 :: chr 4 :: chr 1 :: chr 0 :: chr 0 :: replicate 260 (chr 97))
      (stream_new Encoding_1_1 0 true (Some Sample_twice) Sample.doubling)).
Proof.
  apply (writeConverted_exact Sample_twice (replicate 130 (chr 97)) [(260%nat, replicate 260 (chr 97))]); try done.
  - repeat constructor.
  - by left.
Defined.
