(* ===== verification/Encaps.v ===== *)
(** * Encapsulations and optional values

    An encapsulation is a length, an encoding version and a body; they nest,
    and the stream keeps the ones being read and written in two chains. An
    optional value is a tag with a format, by which a reader that does not
    know the tag can skip it. [ObjectCoding] is what the stream needs of the
    encoders and decoders of classes, exceptions and slices. *)

From S2P Require Import Prelude CxxString Buffer Layout Protocol Stream Wire Codecs StreamString StreamHelpers.

Inductive OptionalFormat : Type :=
  | OptionalFormatF1 | OptionalFormatF2 | OptionalFormatF4 | OptionalFormatF8
  | OptionalFormatSize | OptionalFormatVSize | OptionalFormatFSize | OptionalFormatClass.

#[export] Instance OptionalFormat_eq_dec : EqDecision OptionalFormat.
Proof. solve_decision. Defined.

(** The enumerators are 0 to 7. *)
Definition format_code (f : OptionalFormat) : Z :=
  match f with
  | OptionalFormatF1 => 0 | OptionalFormatF2 => 1 | OptionalFormatF4 => 2 | OptionalFormatF8 => 3
  | OptionalFormatSize => 4 | OptionalFormatVSize => 5 | OptionalFormatFSize => 6
  | OptionalFormatClass => 7
  end.

(** [static_cast<OptionalFormat>(v & 0x07)] *)
Definition format_of_bits (v : Z) : OptionalFormat :=
  match Z.land v 7 with
  | 0 => OptionalFormatF1 | 1 => OptionalFormatF2 | 2 => OptionalFormatF4 | 3 => OptionalFormatF8
  | 4 => OptionalFormatSize | 5 => OptionalFormatVSize | 6 => OptionalFormatFSize
  | _ => OptionalFormatClass
  end.

Definition OPTIONAL_END_MARKER : byte := chr 255.

(** The constructors of the decoders and encoders of an encapsulation, and the
    default format of the communicator *)
Class Coders (D E : Type) := {
  new_EncapsDecoder10 : bool -> D;
  new_EncapsDecoder11 : bool -> D;
  new_EncapsEncoder10 : E;
  new_EncapsEncoder11 : E;
  defaultFormat : FormatType
}.

(** The state of a program that uses a stream: an operation of the stream
    runs in it. The simplest one is the stream itself. *)
Class Host (S D E : Type) := on_stream : forall A, M (BasicStream D E) A -> M S A.
Arguments on_stream {S D E _ A} m.

#[export] Instance stream_host {D E} : Host (BasicStream D E) D E := fun A m => m.
Arguments stream_host {D E} / A m.

(** The methods of [EncapsDecoder] and [EncapsEncoder] that the stream calls
    on the decoder or encoder of the current encapsulation. They reach the
    objects of the program, so they run in its state. *)
Class ObjectDecoding (S : Type) := {
  decoder_read : M S unit;
  decoder_readOpt : Z -> OptionalFormat -> M S bool
}.
Class ObjectEncoding (S : Type) := encoder_writeOpt : Z -> OptionalFormat -> M S bool.
Class PendingObjects (S : Type) := {
  decoder_readPendingObjects : M S unit;
  encoder_writePendingObjects : M S unit
}.

Section encaps.
Context `{PL : Platform} {D E : Type}.
Local Abbreviation stream := (BasicStream D E).

Definition throwEncapsulationException {A} : M stream A := throw (EncapsulationException []).

(** The generated operations on [EncodingVersion]: its two bytes *)
Definition write_EncodingVersion (v : EncodingVersion) : M stream unit :=
  write_Byte (major v);; write_Byte (minor v).

Definition read_EncodingVersion : M stream EncodingVersion :=
  ma ← read_Byte; mi ← read_Byte; mret (MkEncoding ma mi).

(** ** Writing *)

Definition push_write (encoding : EncodingVersion) (format : FormatType) : M stream unit :=
  modify (fun s =>
    set_write
      (MkWriteEncaps (b_size s) encoding format
         match writeEncaps s with [] => we_encoder (preWrite s) | _ :: _ => None end
       :: writeEncaps s) (preWrite s) s).

Definition startWriteEncaps (encoding : EncodingVersion) (format : FormatType) : M stream unit :=
  lift (checkSupportedEncoding encoding);;
  push_write encoding format;;
  write_Int 0;;
  write_EncodingVersion encoding.

Definition startWriteEncaps_default : M stream unit :=
  s ← get;
  match writeEncaps s with
  | e :: _ => startWriteEncaps (we_encoding e) (we_format e)
  | [] => startWriteEncaps (encoding s) DefaultFormat
  end.

(** [WriteEncaps::reset] *)
Definition reset_write (e : WriteEncaps E) : WriteEncaps E :=
  MkWriteEncaps (we_start e) (we_encoding e) (we_format e) None.

Definition pop_write (s : stream) : stream :=
  match writeEncaps s with
  | [] => s
  | [e] => set_write [] (reset_write e) s
  | _ :: previous => set_write previous (preWrite s) s
  end.

Definition endWriteEncaps : M stream unit :=
  s ← get;
  match writeEncaps s with
  | [] => faultM AssertionFailure
  | e :: _ =>
      let sz := to_i32 (Z.of_nat (b_size s) - Z.of_nat (we_start e)) in
      write_Int_at sz (we_start e);;
      modify pop_write
  end.

Definition not_in_an_encapsulation {A} : M stream A :=
  throw (EncapsulationException (lit "not in an encapsulation")).

Definition endWriteEncapsChecked : M stream unit :=
  s ← get;
  match writeEncaps s with [] => not_in_an_encapsulation | _ :: _ => endWriteEncaps end.

Definition writeEmptyEncaps (encoding : EncodingVersion) : M stream unit :=
  lift (checkSupportedEncoding encoding);;
  write_Int 6;;
  write_EncodingVersion encoding.

Definition writeEncaps_bytes (v : list byte) (sz : Z) : M stream unit :=
  if sz <? 6 then throwEncapsulationException
  else append (take (Z.to_nat sz) v).

(** ** Reading *)

Definition push_read : M stream unit :=
  modify (fun s =>
    let e := match readEncaps s with [] => preRead s | _ :: _ => MkReadEncaps 0 0 (MkEncoding (chr 0) (chr 0)) None end in
    set_read (MkReadEncaps (i s) (re_sz e) (re_encoding e) (re_decoder e) :: readEncaps s) (preRead s) s).

Definition update_read (f : ReadEncaps D -> ReadEncaps D) : M stream unit :=
  modify (fun s =>
    match readEncaps s with
    | [] => s
    | e :: previous => set_read (f e :: previous) (preRead s) s
    end).

(** [i - sizeof(Int) + sz > b.end()] *)
Definition encaps_overruns (sz : Z) (s : stream) : bool := b_end s <? i s - 4 + sz.

Definition startReadEncaps : M stream EncodingVersion :=
  push_read;;
  sz ← read_Int;
  if sz <? 6 then throwUnmarshalOutOfBounds
  else
    s ← get;
    if encaps_overruns sz s then throwUnmarshalOutOfBounds
    else
      update_read (fun e => MkReadEncaps (re_start e) sz (re_encoding e) (re_decoder e));;
      enc ← read_EncodingVersion;
      update_read (fun e => MkReadEncaps (re_start e) (re_sz e) enc (re_decoder e));;
      lift (checkSupportedEncoding enc);;
      mret enc.

Definition reset_read (e : ReadEncaps D) : ReadEncaps D :=
  MkReadEncaps (re_start e) (re_sz e) (re_encoding e) None.

Definition pop_read (s : stream) : stream :=
  match readEncaps s with
  | [] => s
  | [e] => set_read [] (reset_read e) s
  | _ :: previous => set_read previous (preRead s) s
  end.

Definition getReadEncapsSize : M stream Z :=
  s ← get;
  match readEncaps s with
  | [] => faultM AssertionFailure
  | e :: _ => mret (to_i32 (re_sz e - 4 - 2))
  end.

(** The header of an encapsulation that is not entered *)
Definition skip_encaps_header (too_small : exn) : M stream (Z * EncodingVersion) :=
  sz ← read_Int;
  if sz <? 6 then throw too_small
  else
    s ← get;
    if encaps_overruns sz s then throwUnmarshalOutOfBounds
    else
      enc ← read_EncodingVersion;
      advance (sz - 4 - 2);;
      mret (sz, enc).

Definition skipEncaps : M stream EncodingVersion :=
  r ← skip_encaps_header UnmarshalOutOfBoundsException; mret (snd r).

(** [readEncaps(const Byte*& v, Int& sz)]: the bytes from [v] on, of which
    there are [sz] *)
Definition readEncaps_bytes : M stream (list byte * EncodingVersion) :=
  s ← get;
  r ← skip_encaps_header (EncapsulationException []);
  v ← bytes_at (i s) (Z.to_nat (fst r));
  mret (v, snd r).

Definition skipEmptyEncaps : M stream EncodingVersion :=
  sz ← read_Int;
  if negb (sz =? 6) then throwEncapsulationException
  else
    s ← get;
    if b_end s <? i s + 2 then throwUnmarshalOutOfBounds
    else read_EncodingVersion.

(** ** Classes *)

Context `{CO : Coders D E}.

Definition initReadEncaps : M stream unit :=
  modify (fun s =>
    match readEncaps s with
    | [] =>
        let e := preRead s in
        set_read [MkReadEncaps (re_start e) (to_i32 (b_end s)) (re_encoding e) (re_decoder e)] e s
    | _ :: _ => s
    end);;
  s ← get;
  update_read (fun e =>
    match re_decoder e with
    | Some _ => e
    | None =>
        MkReadEncaps (re_start e) (re_sz e) (re_encoding e)
          (Some (if encoding_eqb (re_encoding e) Encoding_1_0
                 then new_EncapsDecoder10 (sliceObjects_ s) else new_EncapsDecoder11 (sliceObjects_ s)))
    end).

Definition initWriteEncaps : M stream unit :=
  modify (fun s =>
    let current :=
      match writeEncaps s with
      | [] =>
          let e := preWrite s in
          (MkWriteEncaps (b_size s) (we_encoding e) (we_format e) (we_encoder e), [])
      | e :: previous => (e, previous)
      end in
    let e := fst current in
    let format := match we_format e with DefaultFormat => defaultFormat | f => f end in
    let encoder :=
      match we_encoder e with
      | Some x => x
      | None => if encoding_eqb (we_encoding e) Encoding_1_0 then new_EncapsEncoder10 else new_EncapsEncoder11
      end in
    set_write (MkWriteEncaps (we_start e) (we_encoding e) format (Some encoder) :: snd current) (preWrite s) s).

Context {S : Type} {HO : Host S D E} {OC : ObjectDecoding S} {OE : ObjectEncoding S} {PO : PendingObjects S}.

(** [read(0, 0)] *)
Definition read_class : M S unit := on_stream initReadEncaps;; decoder_read.

Definition readPendingObjects : M S unit :=
  s ← on_stream get;
  match readEncaps s with
  | MkReadEncaps _ _ _ (Some _) :: _ => decoder_readPendingObjects
  | _ => if encoding_eqb (read_encoding s) Encoding_1_0 then on_stream skipSize else mret tt
  end.

Definition writePendingObjects : M S unit :=
  s ← on_stream get;
  match writeEncaps s with
  | MkWriteEncaps _ _ _ (Some _) :: _ => encoder_writePendingObjects
  | _ => if encoding_eqb (write_encoding s) Encoding_1_0 then on_stream (writeSize 0) else mret tt
  end.

(** ** Optional values *)

Definition skipOpt (type : OptionalFormat) : M S unit :=
  match type with
  | OptionalFormatF1 => on_stream (skip 1)
  | OptionalFormatF2 => on_stream (skip 2)
  | OptionalFormatF4 => on_stream (skip 4)
  | OptionalFormatF8 => on_stream (skip 8)
  | OptionalFormatSize => on_stream skipSize
  | OptionalFormatVSize => on_stream (sz ← readSize; skip sz)
  | OptionalFormatFSize => on_stream (sz ← read_Int; skip sz)
  | OptionalFormatClass => read_class
  end.

(** [i >= b.begin() + _currentReadEncaps->start + _currentReadEncaps->sz],
    with no current encapsulation a null pointer *)
Definition at_encaps_end : M stream bool :=
  s ← get;
  match readEncaps s with
  | [] => faultM UndefinedBehaviour
  | e :: _ => mret (re_start e + re_sz e <=? i s)
  end.

(** [i + n == b.begin() + _currentReadEncaps->start + _currentReadEncaps->sz] *)
Definition before_encaps_end (n : Z) : M stream bool :=
  s ← get;
  match readEncaps s with
  | [] => faultM UndefinedBehaviour
  | e :: _ => mret (i s + n =? re_start e + re_sz e)
  end.

Definition rewind (tag : Z) : Z := if tag <? 30 then 1 else if tag <? 255 then 2 else 6.

Definition unexpected_format (tag : Z) : exn :=
  MarshalException (lit "invalid optional data member `" ++ show_int tag ++ lit "': unexpected format").

Fixpoint readOpt_loop (fuel : nat) (readTag : Z) (expectedFormat : OptionalFormat) : M S bool :=
  match fuel with
  | O => faultM OutOfFuel
  | Datatypes.S fuel' =>
      fin ← on_stream at_encaps_end;
      if fin : bool then mret false
      else
        v ← on_stream read_Byte;
        if ceq v OPTIONAL_END_MARKER then on_stream (advance (-1));; mret false
        else
          let format := format_of_bits (ord v) in
          let bits := Z.shiftr (ord v) 3 in
          tag ← on_stream (if bits =? 30 then readSize else mret bits);
          if readTag <? tag then on_stream (advance (- rewind tag));; mret false
          else if tag <? readTag then skipOpt format;; readOpt_loop fuel' readTag expectedFormat
          else if bool_decide (format = expectedFormat) then mret true
          else throw (unexpected_format tag)
  end.

Definition readOptImpl (fuel : nat) (readTag : Z) (expectedFormat : OptionalFormat) : M S bool :=
  e ← on_stream getReadEncoding;
  if encoding_eqb e Encoding_1_0 then mret false else readOpt_loop fuel readTag expectedFormat.

Definition writeOptImpl (tag : Z) (type : OptionalFormat) : M stream bool :=
  e ← getWriteEncoding;
  if encoding_eqb e Encoding_1_0 then mret false
  else
    (if tag <? 30 then write_Byte (chr (Z.lor (format_code type) (ord (chr (Z.shiftl tag 3)))))
     else write_Byte (chr (Z.lor (format_code type) 240));; writeSize tag);;
    mret true.

Definition writeOpt (tag : Z) (format : OptionalFormat) : M S bool :=
  s ← on_stream get;
  match writeEncaps s with
  | [] => faultM AssertionFailure
  | MkWriteEncaps _ _ _ (Some _) :: _ => encoder_writeOpt tag format
  | _ => on_stream (writeOptImpl tag format)
  end.

Definition readOpt (fuel : nat) (tag : Z) (expectedFormat : OptionalFormat) : M S bool :=
  s ← on_stream get;
  match readEncaps s with
  | [] => faultM AssertionFailure
  | MkReadEncaps _ _ _ (Some _) :: _ => decoder_readOpt tag expectedFormat
  | _ => readOptImpl fuel tag expectedFormat
  end.

Fixpoint skipOpts (fuel : nat) : M S unit :=
  match fuel with
  | O => faultM OutOfFuel
  | Datatypes.S fuel' =>
      fin ← on_stream at_encaps_end;
      if fin : bool then mret tt
      else
        v ← on_stream read_Byte;
        if ceq v OPTIONAL_END_MARKER then mret tt
        else
          on_stream (if Z.shiftr (ord v) 3 =? 30 then skipSize else mret tt);;
          skipOpt (format_of_bits (ord v));;
          skipOpts fuel'
  end.

Definition endReadEncaps (fuel : nat) : M S unit :=
  s ← on_stream get;
  match readEncaps s with
  | [] => faultM AssertionFailure
  | e :: _ =>
      (if negb (encoding_eqb (re_encoding e) Encoding_1_0) then
         skipOpts fuel;;
         exact ← on_stream (before_encaps_end 0);
         if exact : bool then mret tt else on_stream throwEncapsulationException
       else
         on_stream (exact ← before_encaps_end 0;
           if exact : bool then mret tt
           else
             extra ← before_encaps_end 1;
             if extra : bool then advance 1 else throwEncapsulationException));;
      on_stream (modify pop_read)
  end.

Definition endReadEncapsChecked (fuel : nat) : M S unit :=
  s ← on_stream get;
  match readEncaps s with [] => on_stream not_in_an_encapsulation | _ :: _ => endReadEncaps fuel end.

(** ** Reuse of a stream *)

(** The chain without the encapsulations that were allocated: they are
    deleted, the pre-allocated one stays current. *)
Definition only_last {A} (l : list A) : list A := match last l with Some e => [e] | None => [] end.

Definition clear (s : stream) : stream :=
  set_slice true (set_sizePos (-1) (set_seq (-1) (minSeqSize s)
    (set_write (only_last (writeEncaps s)) (preWrite s)
      (set_read (only_last (readEncaps s)) (preRead s) s)))).

Definition resetEncaps (s : stream) : stream :=
  set_write (reset_write <$> only_last (writeEncaps s)) (reset_write (preWrite s))
    (set_read (reset_read <$> only_last (readEncaps s)) (reset_read (preRead s)) s).

Definition swap_rest (s other : stream) : stream :=
  MkStream (b other) (i other) (b_begin other) (encoding s) (readEncaps s) (writeEncaps s)
    (preRead s) (preWrite s) (sliceObjects_ s) (messageSizeMax s) (unlimited other) (stringConverter s)
    (wstringConverter s) (startSeq other) (minSeqSize other) (sizePos other) (closure_ other).

Definition swap (s other : stream) : stream * stream :=
  let s' := resetEncaps s in
  let other' := resetEncaps other in
  (swap_rest s' other', swap_rest other' s').

Definition get_closure : M stream Z := gets closure_.
Definition put_closure (p : Z) : M stream Z :=
  prev ← gets closure_; modify (set_closure p);; mret prev.
End encaps.

(** A program whose state is the stream runs its operations as they are. *)
Ltac unhost :=
  unfold on_stream; cbn [stream_host];
  repeat match goal with
  | |- context [fun (A : Type) (m : M (BasicStream ?D ?E) A) => m] =>
      change (fun (A : Type) (m : M (BasicStream D E) A) => m) with (@stream_host D E)
  end.
