(* ===== verification/EncapsSpec.v ===== *)
(** * What encapsulations and optional values promise

    An encapsulation that is written is read back by a stream on any host,
    whatever encapsulations are already open; a reader that does not know its
    contents skips it; and of the optional values of an encapsulation a reader
    finds the one it asks for, skipping the ones it does not know. *)

From S2P Require Import Prelude CxxString Buffer Layout Protocol Stream Wire Codecs StreamString.
From S2P Require Import StreamHelpers StreamSpec Encaps.

(** The bytes of an encapsulation *)
Definition encaps_bytes (enc : EncodingVersion) (body : list byte) : list byte :=
  le_bytes 4 (6 + Z.of_nat (length body)) ++ [major enc; minor enc] ++ body.

(** The configuration of a stream inside an encapsulation of encoding [enc]
    that it writes, or reads *)
Definition config_w {D E} (enc : EncodingVersion) (s : BasicStream D E) : Config :=
  {| c_string := stringConverter s; c_wstring := wstringConverter s;
     c_read := read_encoding s; c_write := enc |}.
Definition config_r {D E} (enc : EncodingVersion) (s : BasicStream D E) : Config :=
  {| c_string := stringConverter s; c_wstring := wstringConverter s;
     c_read := enc; c_write := write_encoding s |}.

Section writing.
Context `{PL : Platform} {D E : Type} `{CO : Coders D E} {OC : ObjectDecoding (BasicStream D E)}.
Local Abbreviation stream := (BasicStream D E).
Implicit Types s : stream.

Lemma config_any s : exists CF : Config, configured (CF:=CF) s.
Proof.
  exists {| c_string := stringConverter s; c_wstring := wstringConverter s;
            c_read := read_encoding s; c_write := write_encoding s |}. by split_and!.
Qed.

Lemma write_header_ok v (enc : EncodingVersion) s : room s (b_size s + 6) ->
  (write_Int v;; write_EncodingVersion enc) s
    = (Ok tt, appended (le_bytes 4 v ++ [major enc; minor enc]) s).
Proof.
  intros Hr. destruct (config_any s) as [CF Hc].
  apply (writes_bind (CF:=CF) _ _ _ _ tt); [apply (write_scalar_writes Int)|apply (writes_bind _ _ [_] [_] tt); done|].
  split; [done|]. rewrite length_app, length_le_bytes. destruct Hr as [?|?]; [by left|right; simpl; lia].
Qed.

Lemma startWriteEncaps_ok enc fmt s : checkSupportedEncoding enc = Ok tt -> room s (b_size s + 6) ->
  exists e, startWriteEncaps enc fmt s
      = (Ok tt, appended (le_bytes 4 0 ++ [major enc; minor enc]) (set_write (e :: writeEncaps s) (preWrite s) s)) /\
    we_encoding e = enc /\ we_start e = b_size s.
Proof.
  intros Hc Hr. unfold startWriteEncaps. rewrite (bind_lift _ _ _ tt) by done.
  unfold push_write. step. eexists. split; [by apply write_header_ok|done].
Qed.

Lemma endWriteEncaps_ok e prev pre old body s : writeEncaps s = e :: prev ->
  b s = pre ++ old ++ body -> we_start e = length pre -> length old = 4%nat ->
  Z.of_nat (4 + length body) < 2 ^ 31 ->
  endWriteEncaps s = (Ok tt, pop_write (set_b (pre ++ le_bytes 4 (4 + Z.of_nat (length body)) ++ body) s)).
Proof.
  intros Hw Hb Hst Hold Hl. unfold endWriteEncaps. step. rewrite Hw, Hst.
  unfold write_Int_at, b_size. rewrite encode_scalar_le, Hb, !length_app, Hold.
  replace (Z.of_nat (length pre + (4 + length body)) - Z.of_nat (length pre))
    with (4 + Z.of_nat (length body)) by lia.
  rewrite to_i32_id by lia.
  assert (s = set_b (pre ++ old ++ body) s) as Es by (rewrite <- Hb; by destruct s).
  rewrite Es at 1. erewrite bind_ok by (by apply store_mid_set_b). done.
Qed.

(** Popping the encapsulation that was pushed on [s], whatever was stored since *)
Lemma pop_pushed_write e x y z s :
  exists p, pop_write (set_b z (set_b y (set_b x (set_write (e :: writeEncaps s) (preWrite s) s))))
    = set_write (writeEncaps s) p (set_b z s).
Proof. destruct s as [????? w]. by destruct w; eexists. Qed.

(** The stream after an encapsulation: [bs] appended, and at the outermost
    level the pre-allocated encapsulation keeps what it was used for. *)
Lemma write_encaps_ok {A} enc fmt (m : M stream A) need body a s :
  checkSupportedEncoding enc = Ok tt ->
  writes_within (CF:=config_w enc s) need m body a ->
  (unlimited s = true \/ (b_size s + 6 + need <= messageSizeMax s)%nat) ->
  Z.of_nat (6 + length body) < 2 ^ 31 ->
  exists p, (startWriteEncaps enc fmt;; m;; endWriteEncaps) s
    = (Ok tt, set_write (writeEncaps s) p (appended (encaps_bytes enc body) s)).
Proof.
  intros Hc [Hn Hm] Hr Hl.
  assert (room s (b_size s + 6)) as Hr6 by (destruct Hr as [?|?]; [by left|right; lia]).
  destruct (startWriteEncaps_ok enc fmt s Hc Hr6) as (e & E1 & Hee & Hes).
  rewrite (bind_ok _ _ _ _ _ E1).
  assert (fits (CF:=config_w enc s)
    (appended (le_bytes 4 0 ++ [major enc; minor enc]) (set_write (e :: writeEncaps s) (preWrite s) s)) need) as Hf.
  { split; [by split_and!|]. rewrite b_size_appended, length_app, length_le_bytes.
    destruct Hr as [?|?]; [by left|right]. unfold b_size in *. simpl. lia. }
  rewrite (bind_ok _ _ _ _ _ (Hm _ Hf)).
  rewrite (endWriteEncaps_ok e (writeEncaps s) (b s) (le_bytes 4 0) ([major enc; minor enc] ++ body)).
  - rewrite length_app. change (length [major enc; minor enc]) with 2%nat.
    replace (4 + Z.of_nat (2 + length body)) with (6 + Z.of_nat (length body)) by lia.
    destruct (pop_pushed_write e (b s ++ (le_bytes 4 0 ++ [major enc; minor enc]))
      ((b s ++ (le_bytes 4 0 ++ [major enc; minor enc])) ++ body) (b s ++ encaps_bytes enc body) s) as [p Hp].
    exists p. exact (f_equal (pair (Ok tt)) Hp).
  - done.
  - unfold appended. simpl. by rewrite <- !app_assoc.
  - by rewrite Hes.
  - done.
  - rewrite length_app. simpl. lia.
Qed.
End writing.

Section reading.
Context `{PL : Platform} {D E : Type} `{CO : Coders D E} {OC : ObjectDecoding (BasicStream D E)}.
Local Abbreviation stream := (BasicStream D E).
Implicit Types s : stream.

Lemma in_bounds_remaining s bs rest : in_bounds s -> remaining s = bs ++ rest ->
  i s + Z.of_nat (length bs) + Z.of_nat (length rest) = b_end s.
Proof. intros Hs Hr. pose proof (length_remaining s Hs) as Hl. rewrite Hr, length_app in Hl. lia. Qed.

(** One step of reading, in a stream whose next bytes are known *)
Lemma read_Byte_next s c rest : in_bounds s -> remaining s = c :: rest ->
  read_Byte s = (Ok c, set_i (i s + 1) s) /\
  in_bounds (set_i (i s + 1) s) /\ remaining (set_i (i s + 1) s) = rest.
Proof.
  intros Hs Hr. rewrite read_Byte_any, Hr by done. split; [done|].
  pose proof (in_bounds_set_i s 1 Hs) as H1. pose proof (remaining_set_i s 1 Hs) as H2.
  rewrite Hr in H1, H2. split; [apply H1; simpl; lia|exact H2].
Qed.

Lemma read_scalar_next k v s rest : in_bounds s -> in_range k v ->
  remaining s = le_bytes (sizeof k) v ++ rest ->
  read_scalar k s = (Ok v, set_i (i s + Z.of_nat (sizeof k)) s) /\
  in_bounds (set_i (i s + Z.of_nat (sizeof k)) s) /\
  remaining (set_i (i s + Z.of_nat (sizeof k)) s) = rest.
Proof.
  intros Hs Hv Hr. rewrite read_scalar_any by done.
  rewrite Hr, length_app, length_le_bytes. rewrite (proj2 (Nat.ltb_ge _ _)) by lia.
  rewrite take_app_length', value_of_bits_le by (done || by rewrite length_le_bytes).
  split; [done|]. split.
  - apply in_bounds_set_i; [done|]. rewrite Hr, length_app, length_le_bytes. lia.
  - rewrite remaining_set_i, Hr by done. apply drop_app_length'. by rewrite length_le_bytes.
Qed.

Lemma set_i_set_i x y s : set_i x (set_i y s) = set_i x s.
Proof. done. Qed.

Lemma read_EncodingVersion_next s enc rest : in_bounds s ->
  remaining s = [major enc; minor enc] ++ rest ->
  read_EncodingVersion s = (Ok enc, set_i (i s + 2) s) /\
  in_bounds (set_i (i s + 2) s) /\ remaining (set_i (i s + 2) s) = rest.
Proof.
  intros Hs Hr. destruct (read_Byte_next _ _ _ Hs Hr) as (E1 & Hs1 & Hr1).
  destruct (read_Byte_next _ _ _ Hs1 Hr1) as (E2 & Hs2 & Hr2).
  unfold read_EncodingVersion. rewrite (bind_ok _ _ _ _ _ E1), (bind_ok _ _ _ _ _ E2).
  rewrite set_i_set_i in *. cbn [i set_i] in *.
  replace (i s + 1 + 1) with (i s + 2) in * by lia. by destruct enc.
Qed.

(** What [startReadEncaps] finds and leaves *)
Lemma startReadEncaps_ok enc body rest s : in_bounds s -> b_end s < 2 ^ 31 ->
  checkSupportedEncoding enc = Ok tt -> remaining s = encaps_bytes enc body ++ rest ->
  exists e s', startReadEncaps s = (Ok enc, s') /\
    s' = set_read (e :: readEncaps s) (preRead s) (set_i (i s + 6) s) /\
    re_start e = i s /\ re_sz e = 6 + Z.of_nat (length body) /\ re_encoding e = enc /\
    in_bounds s' /\ remaining s' = body ++ rest.
Proof.
  intros Hs Hb Hc Hr. pose proof (in_bounds_remaining _ _ _ Hs Hr) as Hl.
  unfold encaps_bytes in Hr, Hl. rewrite !length_app, length_le_bytes in Hl. simpl in Hl.
  unfold startReadEncaps, push_read. step. rewrite <- !app_assoc in Hr.
  set (s1 := set_read _ _ s).
  destruct (read_scalar_next Int (6 + Z.of_nat (length body)) s1 ([major enc; minor enc] ++ body ++ rest))
    as (E1 & Hs1 & Hr1); [done| |done|].
  { unfold in_range, in_signed. unfold in_bounds in Hs. simpl. lia. }
  unfold read_Int. rewrite (bind_ok _ _ _ _ _ E1). rewrite (proj2 (Z.ltb_ge _ 6)) by lia. step.
  assert (encaps_overruns (6 + Z.of_nat (length body)) (set_i (i s1 + Z.of_nat (sizeof Int)) s1) = false) as ->.
  { apply Z.ltb_ge. change (b_end (set_i _ s1)) with (b_end s). simpl. lia. }
  unfold update_read. step. cbn [readEncaps set_i set_read s1].
  match goal with |- context [mbind ?k ?m ?s0] => set (s2 := s0) end.
  destruct (read_EncodingVersion_next s2 enc (body ++ rest)) as (E2 & Hs2 & Hr2); [done|done|].
  rewrite (bind_ok _ _ _ _ _ E2). step.
  rewrite (bind_lift _ _ _ tt) by done.
  eexists (MkReadEncaps (i s) (6 + Z.of_nat (length body)) enc _), _.
  split; [reflexivity|]. split.
  - unfold set_read, set_i. simpl. f_equal. lia.
  - do 3 (split; [done|]). split; [exact Hs2|exact Hr2].
Qed.

Lemma endReadEncaps_ok fuel e prev s : readEncaps s = e :: prev -> i s = re_start e + re_sz e ->
  endReadEncaps (S fuel) s = (Ok tt, pop_read s).
Proof.
  intros He Hi. unfold endReadEncaps. unhost. step. rewrite He.
  assert (before_encaps_end 0 s = (Ok true, s)) as Hend.
  { unfold before_encaps_end. step. rewrite He, Hi, Z.add_0_r, Z.eqb_refl. done. }
  assert (at_encaps_end s = (Ok true, s)) as Hfin.
  { unfold at_encaps_end. step. rewrite He, Hi, Z.leb_refl. done. }
  assert (skipOpts (S fuel) s = (Ok tt, s)) as Hskip.
  { cbn [skipOpts]; unhost. by rewrite (bind_ok _ _ _ _ _ Hfin). }
  erewrite bind_ok; [done|]. case_if.
  - rewrite (bind_ok _ _ _ _ _ Hskip). by rewrite (bind_ok _ _ _ _ _ Hend).
  - by rewrite (bind_ok _ _ _ _ _ Hend).
Qed.

(** Popping the encapsulation that was pushed on [s], wherever the cursor went since *)
Lemma pop_pushed_read e j k st mi s : exists p,
  pop_read (set_seq st mi (set_i k (set_read (e :: readEncaps s) (preRead s) (set_i j s))))
    = set_read (readEncaps s) p (set_seq st mi (set_i k s)).
Proof. destruct s as [???? r]. by destruct r; eexists. Qed.

(** A reader of the body, between the two ends of an encapsulation *)
Lemma read_encaps_ok {A} enc (m : M stream A) mu body (a : A) rest fuel s :
  checkSupportedEncoding enc = Ok tt ->
  reads (CF:=config_r enc s) mu m body a ->
  in_bounds s -> b_end s < 2 ^ 31 -> 0 <= b_begin s -> b_begin s + 2 ^ 33 < 2 ^ 64 ->
  startSeq s = -1 -> remaining s = encaps_bytes enc body ++ rest ->
  exists p st mi,
    (enc' ← startReadEncaps; v ← m; endReadEncaps (S fuel);; mret (enc', v)) s
    = (Ok (enc, a), set_read (readEncaps s) p (set_seq st mi
          (set_i (i s + Z.of_nat (length (encaps_bytes enc body))) s))).
Proof.
  intros Hc [_ Hm] Hs Hb Ha1 Ha2 Hq Hr.
  destruct (startReadEncaps_ok enc body rest s Hs Hb Hc Hr) as (e & s1 & E1 & Es1 & Hst & Hsz & Henc & Hs1 & Hr1).
  rewrite (bind_ok _ _ _ _ _ E1).
  destruct (Hm s1 rest 0%nat) as (s2 & E2 & C2 & _); [|done|lia|left; by rewrite Es1|].
  { rewrite Es1 in *. split; [exact Hs1|]. by split_and!. }
  rewrite (bind_ok _ _ _ _ _ E2). pose proof (consumed_i _ _ _ C2) as Hi2.
  assert (length (encaps_bytes enc body) = 6 + length body)%nat as Hlen.
  { unfold encaps_bytes. rewrite !length_app, length_le_bytes. simpl. lia. }
  assert (readEncaps s2 = e :: readEncaps s) as Hre by (rewrite C2, Es1; done).
  erewrite bind_ok by (apply (endReadEncaps_ok fuel e (readEncaps s)); [done|];
    rewrite Hi2, Hst, Hsz, Es1; simpl; lia).
  assert (i s1 + Z.of_nat (length body) = i s + Z.of_nat (length (encaps_bytes enc body))) as Hend
    by (rewrite Hlen, Es1; cbn [i set_read set_i]; lia).
  unfold consumed in C2. rewrite Hend, Es1 in C2.
  destruct (pop_pushed_read e (i s + 6) (i s + Z.of_nat (length (encaps_bytes enc body)))
    (startSeq s2) (minSeqSize s2) s) as [p Hp].
  exists p, (startSeq s2), (minSeqSize s2). rewrite <- Hp, <- C2. done.
Qed.
End reading.

(** ** Round trip of an encapsulation *)

Section properties.
Context {D E D' E' : Type} {CO1 : Coders D E} {OC1 : ObjectDecoding (BasicStream D E)}
  {CO2 : Coders D' E'} {OC2 : ObjectDecoding (BasicStream D' E')}.

(** C6. Starting an encapsulation, writing a value and ending it appends the patched
    length, the encoding version and the body; on any other host starting to read
    it, reading the value and ending it answers the version and the value, ends
    behind the encapsulation and restores the chain of encapsulations. *)
Theorem encaps_roundtrip (P1 P2 : Platform) enc fmt (t : ty) (v : denote t) body need
    (s1 : BasicStream D E) (s2 : BasicStream D' E') rest fuel :
  checkSupportedEncoding enc = Ok tt ->
  wire (config_w enc s1) (config_r enc s2) t v body need ->
  (unlimited s1 = true \/ (b_size s1 + 6 + need <= messageSizeMax s1)%nat) ->
  Z.of_nat (6 + length body) < 2 ^ 31 ->
  in_bounds s2 -> b_end s2 < 2 ^ 31 -> 0 <= b_begin s2 -> b_begin s2 + 2 ^ 33 < 2 ^ 64 ->
  startSeq s2 = -1 -> remaining s2 = encaps_bytes enc body ++ rest ->
  (exists p, (startWriteEncaps (PL:=P1) enc fmt;; write_ty (PL:=P1) t v;; endWriteEncaps (PL:=P1)) s1
     = (Ok tt, set_write (writeEncaps s1) p (appended (encaps_bytes enc body) s1))) /\
  (exists p st mi,
     (enc' ← startReadEncaps (PL:=P2); v ← read_ty (PL:=P2) t; endReadEncaps (PL:=P2) (S fuel);; mret (enc', v)) s2
     = (Ok (enc, v), set_read (readEncaps s2) p (set_seq st mi
           (set_i (i s2 + Z.of_nat (length (encaps_bytes enc body))) s2)))).
Proof.
  intros Hc Hw Hroom Hlen Hs2 Hb Ha1 Ha2 Hq Hr. split.
  - eapply write_encaps_ok; [done| |done|done]. by apply (ty_writes _ _ t _ _ _ Hw).
  - eapply read_encaps_ok; [done| |done..]. by apply (ty_reads _ _ t _ _ _ Hw).
Qed.
End properties.

(** ** Encapsulations that are skipped, and arbitrary bytes *)

Section skipping.
Context `{PL : Platform} {D E : Type} `{CO : Coders D E} {OC : ObjectDecoding (BasicStream D E)}.
Local Abbreviation stream := (BasicStream D E).
Implicit Types s : stream.

Lemma skip_encaps_header_ok ex enc body rest s : in_bounds s -> b_end s < 2 ^ 31 ->
  remaining s = encaps_bytes enc body ++ rest ->
  skip_encaps_header ex s
    = (Ok (6 + Z.of_nat (length body), enc), set_i (i s + Z.of_nat (length (encaps_bytes enc body))) s).
Proof.
  intros Hs Hb Hr. pose proof (in_bounds_remaining _ _ _ Hs Hr) as Hl.
  unfold encaps_bytes in *. rewrite !length_app, length_le_bytes in *. simpl in Hl. simpl (length [_; _]).
  rewrite <- !app_assoc in Hr.
  destruct (read_scalar_next Int (6 + Z.of_nat (length body)) s ([major enc; minor enc] ++ body ++ rest))
    as (E1 & Hs1 & Hr1); [done| |done|].
  { unfold in_range, in_signed. unfold in_bounds in Hs. simpl. lia. }
  unfold skip_encaps_header, read_Int. rewrite (bind_ok _ _ _ _ _ E1).
  rewrite (proj2 (Z.ltb_ge _ 6)) by lia. step.
  assert (encaps_overruns (6 + Z.of_nat (length body)) (set_i (i s + Z.of_nat (sizeof Int)) s) = false) as ->.
  { apply Z.ltb_ge. change (b_end (set_i _ s)) with (b_end s). simpl. lia. }
  destruct (read_EncodingVersion_next _ enc (body ++ rest) Hs1 Hr1) as (E2 & _).
  rewrite (bind_ok _ _ _ _ _ E2). unfold advance. steps. unfold mret, M_ret.
  apply (f_equal2 pair); [done|]. unfold set_i. simpl. f_equal. lia.
Qed.

(** An encapsulation of any encoding, supported or not, is skipped to its exact
    end by skipEncaps, and readEncaps hands out exactly its bytes, header included.
    *)
Lemma skip_encaps_exact enc body rest s : in_bounds s -> b_end s < 2 ^ 31 ->
  remaining s = encaps_bytes enc body ++ rest ->
  let s' := set_i (i s + Z.of_nat (length (encaps_bytes enc body))) s in
  skipEncaps s = (Ok enc, s') /\
  readEncaps_bytes s = (Ok (encaps_bytes enc body, enc), s') /\
  remaining s' = rest.
Proof.
  intros Hs Hb Hr. cbv zeta.
  pose proof (skip_encaps_header_ok UnmarshalOutOfBoundsException _ _ _ _ Hs Hb Hr) as E1.
  pose proof (skip_encaps_header_ok (EncapsulationException []) _ _ _ _ Hs Hb Hr) as E2.
  split; [|split].
  - unfold skipEncaps. by rewrite (bind_ok _ _ _ _ _ E1).
  - unfold readEncaps_bytes. step. rewrite (bind_ok _ _ _ _ _ E2). cbn [fst snd].
    erewrite bind_ok; [done|]. rewrite bytes_at_moved; [|done|done|].
    + rewrite Hr, take_app_length'; [done|]. unfold encaps_bytes.
      rewrite !length_app, length_le_bytes. simpl. lia.
    + rewrite Hr, length_app. unfold encaps_bytes. rewrite !length_app, length_le_bytes. simpl. lia.
  - rewrite remaining_set_i, Hr by done. apply drop_app_length.
Qed.

Lemma read_EncodingVersion_any s : in_bounds s ->
  exists r s', read_EncodingVersion s = (r, s') /\ in_bounds s' /\ b s' = b s /\ readEncaps s' = readEncaps s /\
    match r with Ok _ => True | Throw e => e = UnmarshalOutOfBoundsException | Fault _ => False end.
Proof.
  intros Hs. unfold read_EncodingVersion. pose proof (read_Byte_any s Hs) as E1.
  destruct (remaining s) as [|c l] eqn:Hr.
  { rewrite (bind_throw _ _ _ _ _ E1). by eexists _, _. }
  destruct (read_Byte_next _ _ _ Hs Hr) as (E1' & Hs1 & Hr1). rewrite (bind_ok _ _ _ _ _ E1').
  pose proof (read_Byte_any _ Hs1) as E2. rewrite Hr1 in E2. destruct l as [|c' l].
  { rewrite (bind_throw _ _ _ _ _ E2). by eexists _, _. }
  destruct (read_Byte_next _ _ _ Hs1 Hr1) as (_ & Hs2 & _).
  rewrite (bind_ok _ _ _ _ _ E2). eexists _, _. split; [done|]. by split.
Qed.

(** On arbitrary bytes, starting to read an encapsulation either opens one that
    lies inside the buffer, is at least six bytes long and has encoding 1.0 or 1.1,
    or throws an out-of-bounds or unsupported-encoding exception with the
    encapsulation still on the chain. *)
Lemma startReadEncaps_bounds s : in_bounds s ->
  match startReadEncaps s with
  | (Ok enc, s') => (enc = Encoding_1_0 \/ enc = Encoding_1_1) /\ in_bounds s' /\
      exists e, readEncaps s' = e :: readEncaps s /\ re_encoding e = enc /\
        re_start e = i s /\ 6 <= re_sz e /\ re_start e + re_sz e <= b_end s
  | (Throw ex, s') => (ex = UnmarshalOutOfBoundsException \/
        exists bad supported, ex = UnsupportedEncodingException bad supported) /\ in_bounds s' /\
      exists e, readEncaps s' = e :: readEncaps s
  | (Fault _, _) => False
  end.
Proof.
  intros Hs. unfold startReadEncaps, push_read. step. set (s1 := set_read _ _ s).
  pose proof (read_scalar_any Int s1 Hs) as E1. unfold read_Int.
  destruct (_ <? sizeof Int)%nat eqn:El in E1.
  { rewrite (bind_throw _ _ _ _ _ E1). split; [by left|]. split; [done|by eexists]. }
  bool_to_prop. pose proof (in_bounds_set_i s1 4 Hs El) as Hs1.
  rewrite (bind_ok _ _ _ _ _ E1). change (Z.of_nat (sizeof Int)) with 4 in *. change (Z.of_nat 4) with 4 in *.
  set (sz := value_of_bits _ _). destruct (sz <? 6) eqn:E6.
  { split; [by left|]. split; [done|by eexists]. }
  step. destruct (encaps_overruns sz _) eqn:Eo.
  { split; [by left|]. split; [done|by eexists]. }
  unfold encaps_overruns in Eo. bool_to_prop. cbn [i set_i] in Eo.
  change (b_end (set_i (i s1 + 4) s1)) with (b_end s) in Eo. change (i s1) with (i s) in Eo.
  unfold update_read. step. cbn [readEncaps set_i set_read s1].
  match goal with |- context [mbind ?k ?m ?s0] => set (s2 := s0) end.
  destruct (read_EncodingVersion_any s2 Hs1) as (r & s3 & E3 & Hs3 & Hb3 & Hr3 & Hout).
  destruct r as [enc|e|]; [|subst e|done].
  2:{ rewrite (bind_throw _ _ _ _ _ E3). split; [by left|]. split; [done|]. rewrite Hr3. by eexists. }
  rewrite (bind_ok _ _ _ _ _ E3). step. rewrite Hr3. cbn [readEncaps set_read s2].
  destruct (checkSupportedEncoding enc) as [[]|ex|] eqn:Ec.
  - rewrite (bind_lift _ _ _ tt) by done. split; [by apply checkSupportedEncoding_ok|].
    split; [done|]. eexists. split; [done|]. simpl. split_and!; [done|done|lia|lia].
  - rewrite (bind_throw (lift (Throw ex)) _ _ ex _ eq_refl). split; [|split; [done|by eexists]].
    right. revert Ec. unfold checkSupportedEncoding, checkSupported. case_if; [done|]. intros [= <-]. by eexists _, _.
  - revert Ec. unfold checkSupportedEncoding, checkSupported. by case_if.
Qed.
End skipping.

(** ** Examples *)

(** A stream that no class is read from or written to *)
Definition no_coders : Coders unit unit :=
  {| new_EncapsDecoder10 := fun _ => tt; new_EncapsDecoder11 := fun _ => tt;
     new_EncapsEncoder10 := tt; new_EncapsEncoder11 := tt; defaultFormat := CompactFormat |}.
Definition no_classes : ObjectDecoding (BasicStream unit unit) :=
  {| decoder_read := faultM UndefinedBehaviour; decoder_readOpt := fun _ _ => faultM UndefinedBehaviour |}.
Definition no_encoders : ObjectEncoding (BasicStream unit unit) := fun _ _ => faultM UndefinedBehaviour.


Definition boxed : list byte := encaps_bytes Encoding_1_1 Sample.bytes.

Lemma encaps_roundtrip_witness :
  (exists p, (startWriteEncaps (PL:=Sample.sparc) Encoding_1_1 DefaultFormat;;
              write_ty (PL:=Sample.sparc) Sample.t Sample.v;; endWriteEncaps (PL:=Sample.sparc)) Sample.sender
     = (Ok tt, set_write [] p (appended boxed Sample.sender))) /\
  (exists p st mi,
     (enc' ← startReadEncaps (PL:=Sample.x86); v ← read_ty (PL:=Sample.x86) Sample.t;
      endReadEncaps (PL:=Sample.x86) (CO:=no_coders) (OC:=no_classes) 1;; mret (enc', v)) (Sample.receiver boxed)
     = (Ok (Encoding_1_1, Sample.v), set_read [] p (set_seq st mi (set_i 25 (Sample.receiver boxed))))).
Proof.
  apply (encaps_roundtrip (CO2:=no_coders) (OC2:=no_classes) Sample.sparc Sample.x86 Encoding_1_1 DefaultFormat Sample.t Sample.v
    Sample.bytes 28 Sample.sender (Sample.receiver boxed) [] 0%nat).
  - done.
  - apply Sample.v_wire.
  - right. vm_compute. lia.
  - by vm_compute.
  - by vm_compute.
  - by vm_compute.
  - by vm_compute.
  - by vm_compute.
  - done.
  - by rewrite app_nil_r.
Defined.

Lemma skip_encaps_exact_witness :
  let s := Sample.receiver (boxed ++ [chr 7]) in
  skipEncaps (PL:=Sample.x86) s = (Ok Encoding_1_1, set_i 25 s) /\
  readEncaps_bytes (PL:=Sample.x86) s = (Ok (boxed, Encoding_1_1), set_i 25 s) /\
  remaining (set_i 25 s) = [chr 7].
Proof.
  apply (skip_encaps_exact (PL:=Sample.x86) Encoding_1_1 Sample.bytes [chr 7]
    (Sample.receiver (boxed ++ [chr 7]))); vm_compute; done.
Defined.

Lemma startReadEncaps_bounds_witness :
  let s := Sample.receiver (chr <$> [7; 0; 0; 0; 1; 1]) in
  match startReadEncaps (PL:=Sample.x86) s with
  | (Ok enc, s') => (enc = Encoding_1_0 \/ enc = Encoding_1_1) /\ in_bounds s' /\
      exists e, readEncaps s' = e :: readEncaps s /\ re_encoding e = enc /\
        re_start e = i s /\ 6 <= re_sz e /\ re_start e + re_sz e <= b_end s
  | (Throw ex, s') => (ex = UnmarshalOutOfBoundsException \/
        exists bad supported, ex = UnsupportedEncodingException bad supported) /\ in_bounds s' /\
      exists e, readEncaps s' = e :: readEncaps s
  | (Fault _, _) => False
  end.
Proof. apply (startReadEncaps_bounds (PL:=Sample.x86)). vm_compute. done. Defined.
