(* ===== verification/OptionalSpec.v ===== *)
(** * What optional values promise

    The optional values at the end of an encapsulation are a list of tags,
    formats and payloads. Looking up a tag skips the values before it, finds
    it with its format or rewinds to the first value behind it; leaving the
    encapsulation skips them all. Payloads of the class format are read by a
    decoder and are not covered here. *)

From S2P Require Import Prelude CxxString Buffer Layout Protocol Stream Wire Codecs StreamString.
From S2P Require Import StreamHelpers StreamSpec Encaps EncapsSpec.

Record opt : Type := MkOpt { o_tag : Z; o_format : OptionalFormat; o_payload : list byte }.

(** What [writeOptImpl] puts before the payload *)
Definition tag_bytes (tag : Z) (f : OptionalFormat) : list byte :=
  if tag <? 30 then [chr (Z.lor (format_code f) (ord (chr (Z.shiftl tag 3))))]
  else chr (Z.lor (format_code f) 240) :: size_bytes tag.

Definition opt_bytes (o : opt) : list byte := tag_bytes (o_tag o) (o_format o) ++ o_payload o.
Definition opts_bytes (os : list opt) : list byte := concat (opt_bytes <$> os).

Lemma opts_bytes_cons o os : opts_bytes (o :: os) = opt_bytes o ++ opts_bytes os.
Proof. done. Qed.

(** The payload has the shape that the format announces. *)
Definition payload_ok (f : OptionalFormat) (bs : list byte) : Prop :=
  match f with
  | OptionalFormatF1 => length bs = 1%nat
  | OptionalFormatF2 => length bs = 2%nat
  | OptionalFormatF4 => length bs = 4%nat
  | OptionalFormatF8 => length bs = 8%nat
  | OptionalFormatSize => exists n, 0 <= n < 2 ^ 31 /\ bs = size_bytes n
  | OptionalFormatVSize => exists data, int_length data /\ bs = seq_bytes data data
  | OptionalFormatFSize => exists data, int_length data /\
      bs = le_bytes 4 (Z.of_nat (length data)) ++ data
  | OptionalFormatClass => False
  end.

Definition opt_ok (o : opt) : Prop := 0 <= o_tag o < 2 ^ 31 /\ payload_ok (o_format o) (o_payload o).

(** The values that a lookup of [tag] passes, and the format it finds. *)
Fixpoint locate (tag : Z) (os : list opt) : list opt * option OptionalFormat :=
  match os with
  | [] => ([], None)
  | o :: os' =>
      if o_tag o <? tag then (o :: fst (locate tag os'), snd (locate tag os'))
      else ([], if o_tag o =? tag then Some (o_format o) else None)
  end.

(** ** Tags *)

Definition tag_check (f : OptionalFormat) (tag : Z) : bool :=
  let v := chr (Z.lor (format_code f) (ord (chr (Z.shiftl tag 3)))) in
  negb (ceq v OPTIONAL_END_MARKER) && bool_decide (format_of_bits (ord v) = f) &&
  (Z.shiftr (ord v) 3 =? tag).

Lemma tag_check_all f : forallb (tag_check f) (Z.of_nat <$> seq 0 30) = true.
Proof. by destruct f. Qed.

Lemma small_tag f tag : 0 <= tag < 30 ->
  let v := chr (Z.lor (format_code f) (ord (chr (Z.shiftl tag 3)))) in
  ceq v OPTIONAL_END_MARKER = false /\ format_of_bits (ord v) = f /\ Z.shiftr (ord v) 3 = tag.
Proof.
  intros Ht. pose proof (tag_check_all f) as H. rewrite forallb_forall in H.
  specialize (H tag). unfold tag_check in H.
  assert (In tag (Z.of_nat <$> seq 0 30)) as Hin.
  { apply list_elem_of_In, list_elem_of_fmap. exists (Z.to_nat tag). rewrite Z2Nat.id by lia.
    split; [done|]. apply elem_of_seq. lia. }
  specialize (H Hin). bool_to_prop.
  match goal with Hb : bool_decide _ = true |- _ => apply bool_decide_eq_true in Hb end.
  cbv zeta. split_and!; [by apply ceq_false|done|done].
Qed.

Lemma large_tag f :
  let v := chr (Z.lor (format_code f) 240) in
  ceq v OPTIONAL_END_MARKER = false /\ format_of_bits (ord v) = f /\ Z.shiftr (ord v) 3 = 30.
Proof. by destruct f. Qed.

Lemma length_tag_bytes tag f : Z.of_nat (length (tag_bytes tag f)) = rewind tag.
Proof.
  unfold tag_bytes, rewind, size_bytes. destruct (tag <? 30); [done|].
  destruct (254 <? tag) eqn:E1, (tag <? 255) eqn:E2; bool_to_prop; done || lia.
Qed.

Section optionals.
Context `{PL : Platform} {D E : Type} `{CO : Coders D E} {OC : ObjectDecoding (BasicStream D E)}.
Local Abbreviation stream := (BasicStream D E).
Implicit Types s : stream.

(** A stream on which the pointer arithmetic of [skip] does not wrap *)
Definition addressable s : Prop :=
  in_bounds s /\ b_end s < 2 ^ 31 /\ 0 <= b_begin s /\ b_begin s + 2 ^ 33 < 2 ^ 64.

Lemma addressable_set_i s bs rest : addressable s -> remaining s = bs ++ rest ->
  addressable (set_i (i s + Z.of_nat (length bs)) s) /\
  remaining (set_i (i s + Z.of_nat (length bs)) s) = rest.
Proof.
  intros [Hs Ha] Hr. split; [split; [|exact Ha]|].
  - apply in_bounds_set_i; [done|]. rewrite Hr, length_app. lia.
  - rewrite remaining_set_i, Hr by done. apply drop_app_length.
Qed.

Lemma skip_next n bs rest s : addressable s -> remaining s = bs ++ rest -> n = Z.of_nat (length bs) ->
  skip n s = (Ok tt, set_i (i s + Z.of_nat (length bs)) s).
Proof.
  intros [Hs Ha] Hr ->. pose proof (in_bounds_remaining _ _ _ Hs Hr) as Hl.
  unfold in_bounds in Hs. unfold skip. step. unfold to_unsigned.
  rewrite Z.mod_small by lia. rewrite (proj2 (Z.ltb_ge _ _)) by lia.
  unfold modify. do 2 f_equal. lia.
Qed.

Lemma readSize_next n rest s : in_bounds s -> 0 <= n < 2 ^ 31 -> remaining s = size_bytes n ++ rest ->
  readSize s = (Ok n, set_i (i s + Z.of_nat (length (size_bytes n))) s).
Proof.
  intros Hs Hn Hr. rewrite readSize_any, Hr by done.
  assert (size_at (size_bytes n ++ rest) = (length (size_bytes n), Some n)) as ->; [|done].
  unfold size_bytes, size_at. destruct (254 <? n) eqn:E1; bool_to_prop; cbn [app].
  - rewrite ord_chr_small, Z.eqb_refl by lia. rewrite length_app, length_le_bytes.
    rewrite (proj2 (Nat.ltb_ge _ _)) by lia. rewrite take_app_length' by (by rewrite length_le_bytes).
    rewrite (to_signed_le 4) by (unfold in_signed; lia). by rewrite (proj2 (Z.ltb_ge n 0)) by lia.
  - rewrite ord_chr_small by lia. by rewrite (proj2 (Z.eqb_neq n 255)) by lia.
Qed.

Lemma skipSize_next n rest s : addressable s -> 0 <= n < 2 ^ 31 -> remaining s = size_bytes n ++ rest ->
  skipSize s = (Ok tt, set_i (i s + Z.of_nat (length (size_bytes n))) s).
Proof.
  intros Hs Hn Hr. unfold skipSize, size_bytes in *.
  destruct (254 <? n) eqn:E1; bool_to_prop; cbn [app] in Hr.
  - destruct (read_Byte_next _ _ _ (proj1 Hs) Hr) as (E2 & _).
    destruct (addressable_set_i s [chr 255] _ Hs Hr) as [Hs1 Hr1].
    rewrite (bind_ok _ _ _ _ _ E2), ord_chr_small, Z.eqb_refl by lia.
    erewrite skip_next; [|exact Hs1|exact Hr1|by rewrite length_le_bytes].
    unfold set_i. cbn [i length]. do 2 f_equal. lia.
  - destruct (read_Byte_next _ _ _ (proj1 Hs) Hr) as (E2 & _).
    rewrite (bind_ok _ _ _ _ _ E2), ord_chr_small by lia. by rewrite (proj2 (Z.eqb_neq n 255)) by lia.
Qed.

Lemma skipOpt_next f bs rest s : addressable s -> payload_ok f bs -> remaining s = bs ++ rest ->
  skipOpt f s = (Ok tt, set_i (i s + Z.of_nat (length bs)) s).
Proof.
  intros Hs Hp Hr. destruct f; cbn [payload_ok skipOpt] in *; unhost;
    try (by eapply skip_next; [..|rewrite Hp]).
  - destruct Hp as (n & Hn & ->). by eapply skipSize_next.
  - destruct Hp as (data & Hl & ->). unfold seq_bytes, int_length in *. rewrite <- app_assoc in Hr.
    erewrite bind_ok by (eapply (readSize_next (Z.of_nat (length data))); [apply Hs|lia|done]).
    destruct (addressable_set_i _ _ _ Hs Hr) as [Hs1 Hr1].
    erewrite skip_next by done. rewrite length_app. unfold set_i. cbn [i]. do 2 f_equal. lia.
  - destruct Hp as (data & Hl & ->). unfold int_length in *. rewrite <- app_assoc in Hr.
    destruct (read_scalar_next Int (Z.of_nat (length data)) s (data ++ rest)) as (E1 & _); [apply Hs| |done|].
    { unfold in_range, in_signed. simpl. lia. }
    unfold read_Int. rewrite (bind_ok _ _ _ _ _ E1).
    destruct (addressable_set_i _ _ _ Hs Hr) as [Hs1 Hr1]. rewrite length_le_bytes in Hs1, Hr1.
    erewrite skip_next by done. rewrite length_app, length_le_bytes.
    unfold set_i. cbn [i sizeof]. do 2 f_equal. lia.
  - done.
Qed.

Lemma set_i_add m n s : set_i (i (set_i (i s + m) s) + n) (set_i (i s + m) s) = set_i (i s + (m + n)) s.
Proof. unfold set_i. simpl. f_equal. lia. Qed.

Lemma set_i_0 s : set_i (i s + 0) s = s.
Proof. destruct s. unfold set_i. simpl. by rewrite Z.add_0_r. Qed.

(** The header of an optional value, read or skipped *)
Lemma tag_next tag f rest s : addressable s -> 0 <= tag < 2 ^ 31 ->
  remaining s = tag_bytes tag f ++ rest ->
  exists v, read_Byte s = (Ok v, set_i (i s + 1) s) /\
    ceq v OPTIONAL_END_MARKER = false /\ format_of_bits (ord v) = f /\
    (if Z.shiftr (ord v) 3 =? 30 then readSize else mret (Z.shiftr (ord v) 3)) (set_i (i s + 1) s)
      = (Ok tag, set_i (i s + Z.of_nat (length (tag_bytes tag f))) s) /\
    (if Z.shiftr (ord v) 3 =? 30 then skipSize else mret tt) (set_i (i s + 1) s)
      = (Ok tt, set_i (i s + Z.of_nat (length (tag_bytes tag f))) s).
Proof.
  intros Hs Ht Hr. unfold tag_bytes in *. destruct (tag <? 30) eqn:E1; bool_to_prop.
  - destruct (small_tag f tag) as (Hm & Hf & Hb); [lia|].
    destruct (read_Byte_next _ _ _ (proj1 Hs) Hr) as (E2 & _).
    eexists. split; [exact E2|]. split; [done|]. split; [done|]. rewrite Hb.
    by rewrite (proj2 (Z.eqb_neq tag 30)) by lia.
  - destruct (large_tag f) as (Hm & Hf & Hb).
    destruct (read_Byte_next _ _ _ (proj1 Hs) Hr) as (E2 & _).
    destruct (addressable_set_i s [_] _ Hs Hr) as [Hs1 Hr1]. change (Z.of_nat (length [_])) with 1 in *.
    eexists. split; [exact E2|]. split; [done|]. split; [done|]. rewrite Hb, Z.eqb_refl.
    rewrite (readSize_next tag rest), (skipSize_next tag rest) by (done || apply Hs1).
    rewrite set_i_add. cbn [length]. rewrite Nat2Z.inj_succ.
    by replace (1 + Z.of_nat (length (size_bytes tag))) with (Z.succ (Z.of_nat (length (size_bytes tag)))) by lia.
Qed.

(** The optional values [os] stand between the cursor and the end of the
    encapsulation, or, if [marked], the marker that ends them. *)
Definition opts_at (marked : bool) (os : list opt) s : Prop :=
  addressable s /\ Forall opt_ok os /\
  exists e prev tail, readEncaps s = e :: prev /\ remaining s = opts_bytes os ++ tail /\
    if marked then
      i s + Z.of_nat (length (opts_bytes os)) < re_start e + re_sz e /\
      exists tail', tail = OPTIONAL_END_MARKER :: tail'
    else i s + Z.of_nat (length (opts_bytes os)) = re_start e + re_sz e.

Lemma tag_bytes_nonempty tag f : (0 < length (tag_bytes tag f))%nat.
Proof. unfold tag_bytes. case_if; simpl; lia. Qed.

Lemma opts_at_cons mk o os s : opts_at mk (o :: os) s ->
  opt_ok o /\ addressable s /\ at_encaps_end s = (Ok false, s) /\
  remaining s = tag_bytes (o_tag o) (o_format o) ++ o_payload o ++ drop (length (opt_bytes o)) (remaining s) /\
  opts_at mk os (set_i (i s + Z.of_nat (length (opt_bytes o))) s).
Proof.
  intros (Hs & Hok & e & prev & tail & He & Hr & Hend). apply Forall_cons in Hok as [Ho Hos].
  rewrite opts_bytes_cons in *. rewrite <- app_assoc in Hr. rewrite length_app in Hend.
  pose proof (tag_bytes_nonempty (o_tag o) (o_format o)) as Hpos.
  assert (length (opt_bytes o) = length (tag_bytes (o_tag o) (o_format o)) + length (o_payload o))%nat as Hlen
    by (unfold opt_bytes; by rewrite length_app).
  destruct (addressable_set_i _ _ _ Hs Hr) as [Hs1 Hr1].
  split_and!; [done|done| | |].
  - unfold at_encaps_end. step. rewrite He. rewrite (proj2 (Z.leb_gt _ _)); [done|]. destruct mk; lia.
  - rewrite Hr at 1. rewrite Hr, drop_app_length. unfold opt_bytes. by rewrite <- app_assoc.
  - split; [done|]. split; [done|]. exists e, prev, tail. split; [done|]. split; [done|].
    cbn [i set_i]. destruct mk; [destruct Hend; split; [|done]|]; lia.
Qed.

(** What remains at the end of the values *)
Lemma opts_at_nil mk s : opts_at mk [] s ->
  at_encaps_end s = (Ok (negb mk), s) /\
  (mk = true -> read_Byte s = (Ok OPTIONAL_END_MARKER, set_i (i s + 1) s)).
Proof.
  intros (Hs & _ & e & prev & tail & He & Hr & Hend).
  unfold opts_bytes in *. cbn in Hr, Hend. rewrite Z.add_0_r in Hend.
  unfold at_encaps_end. rewrite bind_get, He. destruct mk.
  - destruct Hend as [Hend (tail' & ->)]. rewrite (proj2 (Z.leb_gt _ _)) by lia. split; [done|]. intros _.
    by destruct (read_Byte_next _ _ _ (proj1 Hs) Hr).
  - by rewrite (proj2 (Z.leb_le _ _)) by lia.
Qed.

Lemma readOpt_loop_ok readTag f mk os : forall fuel s, (length os < fuel)%nat -> opts_at mk os s ->
  readOpt_loop fuel readTag f s =
    match snd (locate readTag os) with
    | None => (Ok false, set_i (i s + Z.of_nat (length (opts_bytes (fst (locate readTag os))))) s)
    | Some f' =>
        (if bool_decide (f' = f) then Ok true else Throw (unexpected_format readTag),
         set_i (i s + (Z.of_nat (length (opts_bytes (fst (locate readTag os)))) + rewind readTag)) s)
    end.
Proof.
  induction os as [|o os IH]; intros [|fuel] s Hfuel Hat; simpl in Hfuel; try lia; cbn [readOpt_loop locate]; unhost.
  - destruct (opts_at_nil mk s Hat) as [E1 E2]; rewrite (bind_ok _ _ _ _ _ E1). destruct mk; cbn.
    + rewrite (bind_ok _ _ _ _ _ (E2 eq_refl)). unfold advance. rewrite ceq_refl. steps. unfold mret, M_ret.
      by rewrite set_i_add.
    + by rewrite set_i_0.
  - destruct (opts_at_cons _ _ _ _ Hat) as ((Ht & Hp) & Hs & E1 & Hr & Hat').
    destruct (tag_next _ _ _ _ Hs Ht Hr) as (v & E2 & Hm & Hf & E3 & _).
    rewrite (bind_ok _ _ _ _ _ E1), (bind_ok _ _ _ _ _ E2), Hm, (bind_ok _ _ _ _ _ E3), Hf.
    rewrite length_tag_bytes.
    destruct (o_tag o <? readTag) eqn:E4; cbn [fst snd]; bool_to_prop.
    + rewrite (proj2 (Z.ltb_ge readTag (o_tag o))) by lia.
      destruct (addressable_set_i _ _ _ Hs Hr) as [Hs1 Hr1]. rewrite length_tag_bytes in Hs1, Hr1.
      rewrite (bind_ok _ _ _ _ _ (skipOpt_next _ _ _ _ Hs1 Hp Hr1)), set_i_add.
      unfold opt_bytes in Hat'. rewrite length_app, Nat2Z.inj_add, length_tag_bytes in Hat'.
      rewrite IH by (done || lia). rewrite opts_bytes_cons.
      unfold opt_bytes. rewrite !length_app, !Nat2Z.inj_add, length_tag_bytes.
      destruct (snd (locate readTag os)); rewrite set_i_add; by rewrite !Z.add_assoc.
    + destruct (readTag <? o_tag o) eqn:E5; bool_to_prop.
      * rewrite (proj2 (Z.eqb_neq (o_tag o) readTag)) by lia. unfold advance. steps.
        unfold mret, M_ret. rewrite set_i_add. by replace (rewind (o_tag o) + - rewind (o_tag o)) with 0 by lia.
      * assert (o_tag o = readTag) as -> by lia. rewrite Z.eqb_refl. by case_bool_decide.
Qed.

(** C30. Among optional values that are well formed (sizes that are not negative,
    payloads that are complete) and of which none has the class format, and in a
    buffer below 2 GB, looking up a tag terminates, skips the values with smaller
    tags and either stops at the payload of the tag (or reports a format mismatch)
    or answers false with the cursor rewound to the first value with a larger tag,
    the end marker or the end of the encapsulation. *)
Theorem readOptImpl_locates readTag f mk os fuel s : (length os < fuel)%nat -> opts_at mk os s ->
  read_encoding s <> Encoding_1_0 ->
  readOptImpl fuel readTag f s =
    match snd (locate readTag os) with
    | None => (Ok false, set_i (i s + Z.of_nat (length (opts_bytes (fst (locate readTag os))))) s)
    | Some f' =>
        (if bool_decide (f' = f) then Ok true else Throw (unexpected_format readTag),
         set_i (i s + (Z.of_nat (length (opts_bytes (fst (locate readTag os)))) +
                       Z.of_nat (length (tag_bytes readTag f')))) s)
    end.
Proof.
  intros Hf Hat He. unfold readOptImpl, getReadEncoding. unhost. step.
  destruct (encoding_eqb _ _) eqn:E1; [by apply encoding_eqb_true in E1|].
  rewrite (readOpt_loop_ok readTag f mk os) by done.
  destruct (snd (locate readTag os)); [by rewrite length_tag_bytes|done].
Qed.

(** With encoding 1.1 the header of an optional value is one byte for a tag
    below 30 and the escape byte with the tag as a size otherwise. *)
Theorem writeOptImpl_exact tag f s : 0 <= tag -> write_encoding s = Encoding_1_1 ->
  (unlimited s = true \/ (b_size s + length (tag_bytes tag f) <= messageSizeMax s)%nat) ->
  writeOptImpl tag f s = (Ok true, appended (tag_bytes tag f) s).
Proof.
  intros Ht He Hl. unfold writeOptImpl, getWriteEncoding. step. rewrite He.
  change (encoding_eqb Encoding_1_1 Encoding_1_0) with false. cbv iota.
  destruct (config_any s) as [CF Hc].
  assert (fits (CF:=CF) s (length (tag_bytes tag f))) as Hfit by (by split).
  unfold tag_bytes in *. destruct (tag <? 30).
  - done.
  - erewrite bind_ok; [done|].
    apply (writes_bind (CF:=CF) _ _ [_] (size_bytes tag) tt); [done|by apply writeSize_writes|done].
Qed.

Lemma skipOpts_ok mk os : forall fuel s, (length os < fuel)%nat -> opts_at mk os s ->
  skipOpts fuel s
    = (Ok tt, set_i (i s + (Z.of_nat (length (opts_bytes os)) + if mk then 1 else 0)) s).
Proof.
  induction os as [|o os IH]; intros [|fuel] s Hfuel Hat; simpl in Hfuel; try lia; cbn [skipOpts]; unhost.
  - destruct (opts_at_nil mk s Hat) as [E1 E2]; rewrite (bind_ok _ _ _ _ _ E1). destruct mk; cbn.
    + by rewrite (bind_ok _ _ _ _ _ (E2 eq_refl)).
    + by rewrite set_i_0.
  - destruct (opts_at_cons _ _ _ _ Hat) as ((Ht & Hp) & Hs & E1 & Hr & Hat').
    destruct (tag_next _ _ _ _ Hs Ht Hr) as (v & E2 & Hm & Hf & _ & E3).
    rewrite (bind_ok _ _ _ _ _ E1), (bind_ok _ _ _ _ _ E2), Hm, (bind_ok _ _ _ _ _ E3), Hf.
    destruct (addressable_set_i _ _ _ Hs Hr) as [Hs1 Hr1].
    rewrite (bind_ok _ _ _ _ _ (skipOpt_next _ _ _ _ Hs1 Hp Hr1)), set_i_add.
    unfold opt_bytes in Hat'. rewrite length_app, Nat2Z.inj_add in Hat'.
    rewrite (IH fuel _ ltac:(lia) Hat').
    rewrite set_i_add, opts_bytes_cons. unfold opt_bytes. rewrite !length_app, !Nat2Z.inj_add.
    do 2 f_equal. lia.
Qed.

(** C34. Leaving an encapsulation of encoding 1.1 whose optional values that were
    not read are well formed (sizes that are not negative, payloads that are
    complete), are not of the class format, and end at the end of the encapsulation,
    with or without an end marker, terminates, skips them all and leaves the cursor
    exactly at that end; the buffer is below 2 GB. *)
Theorem endReadEncaps_skips_unknown mk os fuel e prev s : (length os < fuel)%nat ->
  readEncaps s = e :: prev -> re_encoding e = Encoding_1_1 -> opts_at mk os s ->
  i s + Z.of_nat (length (opts_bytes os)) + (if mk then 1 else 0) = re_start e + re_sz e ->
  endReadEncaps fuel s = (Ok tt, pop_read (set_i (re_start e + re_sz e) s)).
Proof.
  intros Hf He Henc Hat Hend. unfold endReadEncaps. unhost. step. rewrite He, Henc.
  change (negb (encoding_eqb Encoding_1_1 Encoding_1_0)) with true. cbv iota.
  erewrite bind_ok; [done|]. rewrite (bind_ok _ _ _ _ _ (skipOpts_ok mk os fuel s Hf Hat)).
  rewrite Z.add_assoc, Hend. unfold before_encaps_end.
  erewrite bind_ok by (rewrite bind_get; cbn [readEncaps set_i]; by rewrite He).
  cbn [i set_i]. by rewrite Z.add_0_r, Z.eqb_refl.
Qed.
End optionals.

(** A five-byte optional value of the format FSize and of size -5: skipping it
    moves the cursor back to its tag. *)
Definition trap : BasicStream unit unit :=
  set_read [MkReadEncaps 0 16 Encoding_1_1 None] (fresh_read Encoding_1_1)
    (set_i 6 (Sample.receiver (chr <$> [16; 0; 0; 0; 1; 1; 6; 251; 255; 255; 255; 0; 0; 0; 0; 0]))).

Lemma skipOpts_trap fuel :
  skipOpts (PL:=Sample.x86) (CO:=no_coders) (OC:=no_classes) fuel trap = (Fault OutOfFuel, trap).
Proof.
  induction fuel as [|fuel IH]; [done|].
  change (skipOpts (PL:=Sample.x86) (CO:=no_coders) (OC:=no_classes) fuel trap = (Fault OutOfFuel, trap)). done.
Qed.

(** Leaving the encapsulation of a concrete sixteen-byte message whose optional
    value has the fixed size -5 never returns: skip adds the negative size to the
    cursor, which goes back to the tag of the value, whatever the fuel. *)
Lemma endReadEncaps_trap fuel :
  endReadEncaps (PL:=Sample.x86) (CO:=no_coders) (OC:=no_classes) fuel trap = (Fault OutOfFuel, trap).
Proof.
  unfold endReadEncaps. unhost. step. cbn [readEncaps trap set_read re_encoding].
  change (negb (encoding_eqb Encoding_1_1 Encoding_1_0)) with true. cbv iota.
  apply bind_fault. apply bind_fault, skipOpts_trap.
Qed.

(** ** Examples *)

(** Three values, with tags 1, 40 and 300 *)
Definition three_opts : list opt :=
  [MkOpt 1 OptionalFormatF2 [chr 7; chr 8]; MkOpt 40 OptionalFormatVSize [chr 1; chr 9];
   MkOpt 300 OptionalFormatF1 [chr 3]].

Definition inside (bs : list byte) : BasicStream unit unit :=
  set_read [MkReadEncaps 0 (Z.of_nat (length bs)) Encoding_1_1 None] (fresh_read Encoding_1_1)
    (Sample.receiver bs).

Lemma three_opts_at : opts_at false three_opts (inside (opts_bytes three_opts)).
Proof.
  split; [vm_compute; done|]. split.
  - repeat constructor; try done. exists [chr 9]. done.
  - eexists _, _, []. split; [done|]. split; [by vm_compute|by vm_compute].
Qed.

Lemma readOptImpl_locates_witness :
  readOptImpl (PL:=Sample.x86) (CO:=no_coders) (OC:=no_classes) 4 40 OptionalFormatVSize (inside (opts_bytes three_opts))
  = (Ok true, set_i 5 (inside (opts_bytes three_opts))).
Proof.
  apply (readOptImpl_locates (PL:=Sample.x86) (CO:=no_coders) (OC:=no_classes) 40 OptionalFormatVSize false three_opts 4
    (inside (opts_bytes three_opts))).
  - simpl. lia.
  - apply three_opts_at.
  - done.
Defined.

Lemma writeOptImpl_exact_witness :
  writeOptImpl (PL:=Sample.sparc) 40 OptionalFormatVSize Sample.sender
  = (Ok true, appended [chr 245; chr 40] Sample.sender).
Proof.
  apply (writeOptImpl_exact (PL:=Sample.sparc) 40 OptionalFormatVSize Sample.sender); [lia|done|].
  right. vm_compute. lia.
Defined.

Lemma endReadEncaps_skips_unknown_witness :
  endReadEncaps (PL:=Sample.x86) (CO:=no_coders) (OC:=no_classes) 4 (inside (opts_bytes three_opts))
  = (Ok tt, pop_read (set_i 14 (inside (opts_bytes three_opts)))).
Proof.
  apply (endReadEncaps_skips_unknown (PL:=Sample.x86) (CO:=no_coders) (OC:=no_classes) false three_opts 4
    (MkReadEncaps 0 14 Encoding_1_1 None) [] (inside (opts_bytes three_opts))).
  - simpl. lia.
  - done.
  - done.
  - apply three_opts_at.
  - by vm_compute.
Defined.
