(* ===== verification/EncapsWire.v ===== *)
(** * What the operations that open encapsulations do to the wire

    An operation that writes or reads a whole encapsulation on the way leaves
    the chain of encapsulations as it was, but for what the pre-allocated one
    was last used for. [sends] and [fetches] say so in the manner of [writes]
    and [reads] of Wire.v, and compose as they do. *)

From S2P Require Import Prelude CxxString Buffer Layout Protocol Stream Wire Codecs StreamString.
From S2P Require Import StreamHelpers StreamSpec Encaps EncapsSpec.

Section wire.
Context `{PL : Platform} {D E : Type} `{CO : Coders D E} {OC : ObjectDecoding (BasicStream D E)}.
Local Abbreviation stream := (BasicStream D E).
Implicit Types s : stream.

(** The same configuration with another encoding for what is written, or read *)
Definition writing_with (enc : EncodingVersion) (C : Config) : Config :=
  {| c_string := c_string; c_wstring := c_wstring; c_read := c_read; c_write := enc |}.
Definition reading_with (enc : EncodingVersion) (C : Config) : Config :=
  {| c_string := c_string; c_wstring := c_wstring; c_read := enc; c_write := c_write |}.

Lemma config_w_with (C : Config) enc s : configured s -> config_w enc s = writing_with enc C.
Proof. intros (E1 & E2 & E3 & E4). unfold config_w, writing_with. by rewrite E1, E2, E3. Qed.

Lemma config_r_with (C : Config) enc s : configured s -> config_r enc s = reading_with enc C.
Proof. intros (E1 & E2 & E3 & E4). unfold config_r, reading_with. by rewrite E1, E2, E4. Qed.

(** ** Writing *)

Definition sends (C : Config) (need : nat) (m : M stream unit) (bs : list byte) : Prop :=
  (length bs <= need)%nat /\
  forall s, fits s need -> exists p, m s = (Ok tt, set_write (writeEncaps s) p (appended bs s)).

Lemma sends_writes (C : Config) need (m : M stream unit) bs : writes_within need m bs tt -> sends C need m bs.
Proof. intros [Hl Hm]. split; [done|]. intros s Hf. exists (preWrite s). rewrite Hm by done. by destruct s. Qed.

Lemma fits_written (C : Config) s p bs n : fits s (length bs + n) -> fits (set_write (writeEncaps s) p (appended bs s)) n.
Proof. intros H. apply (fits_appended s bs n) in H. exact H. Qed.

Lemma sends_bind (C : Config) n1 n2 (m k : M stream unit) bs1 bs2 : sends C n1 m bs1 -> sends C n2 k bs2 ->
  sends C (n1 `max` (length bs1 + n2)) (m;; k) (bs1 ++ bs2).
Proof.
  intros [Hl1 Hm] [Hl2 Hk]. split; [rewrite length_app; lia|]. intros s Hf.
  destruct (Hm s) as [p E1]; [eapply fits_le; [exact Hf|lia]|]. rewrite (bind_ok _ _ _ _ _ E1).
  destruct (Hk (set_write (writeEncaps s) p (appended bs1 s))) as [q E2].
  { apply fits_written. eapply fits_le; [exact Hf|lia]. }
  exists q. rewrite E2, <- appended_app. done.
Qed.

Lemma sends_le (C : Config) n n' (m : M stream unit) bs : sends C n m bs -> (n <= n')%nat -> sends C n' m bs.
Proof. intros [Hl Hm] Hn. split; [lia|]. intros s Hf. apply Hm. by eapply (fits_le s). Qed.

(** What is known of the stream it is run in *)
Lemma sends_in (C : Config) need (m : stream -> M stream unit) bs : (length bs <= need)%nat ->
  (forall s, configured s -> sends C need (m s) bs) -> sends C need (s ← get; m s) bs.
Proof. intros Hl Hm. split; [done|]. intros s Hf. step. apply Hm; [apply Hf|done]. Qed.

Lemma length_encaps_bytes enc body : length (encaps_bytes enc body) = (6 + length body)%nat.
Proof. unfold encaps_bytes. rewrite !length_app, length_le_bytes. done. Qed.

Lemma sends_encaps (C : Config) enc fmt need (m : M stream unit) body : checkSupportedEncoding enc = Ok tt ->
  writes_within (CF := writing_with enc C) need m body tt -> Z.of_nat (6 + length body) < 2 ^ 31 ->
  sends C (6 + need) (startWriteEncaps enc fmt;; m;; endWriteEncaps) (encaps_bytes enc body).
Proof.
  intros He Hm Hl. pose proof (proj1 Hm) as Hn. split; [rewrite length_encaps_bytes; lia|]. intros s [Hc Hf].
  apply (write_encaps_ok enc fmt m need body tt); [done| |destruct Hf; [by left|right; lia]|done].
  by rewrite (config_w_with C).
Qed.

(** ** Reading *)

Definition fetched s s' (n : nat) : Prop :=
  exists p, s' = set_read (readEncaps s) p (set_seq (startSeq s') (minSeqSize s') (set_i (i s + Z.of_nat n) s)).

Definition fetches {A} (C : Config) (m : M stream A) (bs : list byte) (a : A) : Prop :=
  forall s rest (k : nat), readable s -> remaining s = bs ++ rest -> (k <= length rest)%nat -> promised s k ->
    exists s', m s = (Ok a, s') /\ fetched s s' (length bs) /\ promised s' k.

Lemma fetched_consumed s s' n : consumed s s' n -> fetched s s' n.
Proof. intros H. exists (preRead s). unfold consumed in H. rewrite H at 1. by destruct s. Qed.

Lemma set_read_twice s r r' p q a b c d x y :
  set_read r q (set_seq a b (set_i x (set_read r' p (set_seq c d (set_i y s))))) = set_read r q (set_seq a b (set_i x s)).
Proof. by destruct s. Qed.

Lemma fetched_trans s s' s'' m n : fetched s s' m -> fetched s' s'' n -> fetched s s'' (m + n).
Proof.
  intros [p Hp] [q Hq]. exists q.
  assert (readEncaps s' = readEncaps s /\ i s' = i s + Z.of_nat m) as [Hr Hi] by (rewrite Hp; by destruct s).
  rewrite Hr, Hi in Hq. replace (i s + Z.of_nat (m + n)) with (i s + Z.of_nat m + Z.of_nat n) by lia.
  etransitivity; [exact Hq|]. rewrite Hp at 1. apply set_read_twice.
Qed.

Lemma fetched_readable (C : Config) s s' bs rest : readable s -> remaining s = bs ++ rest -> fetched s s' (length bs) ->
  readable s' /\ remaining s' = rest.
Proof.
  intros Hs Hr [p Hp].
  destruct (consumed_readable s (set_seq (startSeq s') (minSeqSize s') (set_i (i s + Z.of_nat (length bs)) s)) bs rest Hs Hr)
    as [H1 H2]; [done|]. rewrite Hp. split; [exact H1|exact H2].
Qed.

Lemma fetches_reads {A} (C : Config) mu (m : M stream A) bs a : reads mu m bs a -> fetches C m bs a.
Proof.
  intros Hm s rest k Hs Hr Hk Hp. destruct (reads_weaken _ 0 _ _ _ Hm ltac:(lia)) as [_ Hm'].
  destruct (Hm' s rest k Hs Hr Hk Hp) as (s' & E1 & Hc & Hp'). exists s'. by split_and!; [|apply fetched_consumed|].
Qed.

Lemma fetches_bind {A B} (C : Config) (m : M stream A) (k : A -> M stream B) bs1 bs2 a c :
  fetches C m bs1 a -> fetches C (k a) bs2 c -> fetches C (mbind k m) (bs1 ++ bs2) c.
Proof.
  intros Hm Hk s rest n Hs Hr Hn Hp. rewrite <- app_assoc in Hr.
  destruct (Hm s (bs2 ++ rest) n Hs Hr) as (s1 & E1 & F1 & P1); [rewrite length_app; lia|done|].
  destruct (fetched_readable C _ _ _ _ Hs Hr F1) as [Hs1 Hr1].
  destruct (Hk s1 rest n Hs1 Hr1 Hn P1) as (s2 & E2 & F2 & P2). exists s2.
  rewrite (bind_ok _ _ _ _ _ E1), length_app. split; [done|]. split; [by eapply fetched_trans|done].
Qed.

Lemma fetches_ret {A} (C : Config) (a : A) : fetches C (mret a) [] a.
Proof. eapply fetches_reads, reads_ret. Qed.

Lemma fetches_bind_ret {A B} (C : Config) (m : M stream A) (f : A -> B) bs a :
  fetches C m bs a -> fetches C (x ← m; mret (f x)) bs (f a).
Proof. intros Hm. rewrite <- (app_nil_r bs). eapply fetches_bind; [exact Hm|apply fetches_ret]. Qed.

(** A reader of the body between the two ends of an encapsulation; it may ask
    for the size of the body. *)
Lemma fetches_encaps {A B} (C : Config) enc (m : M stream A) body (a : A) (f : EncodingVersion -> A -> B) fuel :
  checkSupportedEncoding enc = Ok tt ->
  (forall s rest k, readable (CF := reading_with enc C) s -> remaining s = body ++ rest -> (k <= length rest)%nat ->
    promised s k -> (exists e prev, readEncaps s = e :: prev /\ re_sz e = 6 + Z.of_nat (length body)) ->
    exists s', m s = (Ok a, s') /\ consumed s s' (length body) /\ promised s' k) ->
  fetches C (enc' ← startReadEncaps; v ← m; endReadEncaps (S fuel);; mret (f enc' v)) (encaps_bytes enc body) (f enc a).
Proof.
  intros Hc Hm s rest k Hs Hr Hk Hp. pose proof Hs as (Hi & Hb & [Ha1 Ha2] & Hconf).
  destruct (startReadEncaps_ok enc body rest s Hi Hb Hc Hr) as (e & s1 & E1 & Es1 & Hst & Hsz & Henc & Hs1 & Hr1).
  rewrite (bind_ok _ _ _ _ _ E1).
  destruct (Hm s1 rest k) as (s2 & E2 & C2 & P2); [|done|done| |eexists e, _; by rewrite Es1|].
  { rewrite <- (config_r_with C enc s Hconf). rewrite Es1 in *. split; [exact Hs1|]. by split_and!. }
  { rewrite Es1. revert Hp. unfold promised. cbn. lia. }
  rewrite (bind_ok _ _ _ _ _ E2). pose proof (consumed_i _ _ _ C2) as Hi2.
  assert (readEncaps s2 = e :: readEncaps s) as Hre by (rewrite C2, Es1; done).
  erewrite bind_ok by (apply (endReadEncaps_ok fuel e (readEncaps s)); [done|];
    rewrite Hi2, Hst, Hsz, Es1; simpl; lia).
  assert (i s1 + Z.of_nat (length body) = i s + Z.of_nat (length (encaps_bytes enc body))) as Hend
    by (rewrite length_encaps_bytes, Es1; cbn [i set_read set_i]; lia).
  eexists. split; [reflexivity|]. unfold consumed in C2. rewrite Hend, Es1 in C2.
  destruct (pop_pushed_read e (i s + 6) (i s + Z.of_nat (length (encaps_bytes enc body)))
    (startSeq s2) (minSeqSize s2) s) as [p Hpop].
  assert (pop_read s2 = set_read (readEncaps s) p (set_seq (startSeq s2) (minSeqSize s2)
    (set_i (i s + Z.of_nat (length (encaps_bytes enc body))) s))) as Epop by (rewrite <- Hpop, <- C2; done).
  rewrite Epop. split; [by exists p|]. revert P2. rewrite C2. done.
Qed.
End wire.
