(* ===== verification/StreamOptional.v ===== *)
(** * Optional values of composite types

    [StreamOptionalHelper] and [StreamOptionalContainerHelper] of
    cpp/include/Ice/StreamHelpers.h and the members [read] and [write] for
    optionals of BasicStream.h: the format that C++ computes for a type and
    what stands before a value of it, so that a reader that does not know the
    tag can skip it. *)

From S2P Require Import Prelude OrderedMap CxxString Buffer Layout Protocol Stream Wire Codecs StreamString.
From S2P Require Import StreamHelpers StreamSpec Encaps EncapsSpec OptionalSpec.

(** [StreamableTraits<T>::fixedLength] *)
Fixpoint fixedLength (t : ty) : bool :=
  match t with
  | TByte | TBool | TScalar _ => true
  | TStruct t1 t2 => fixedLength t1 && fixedLength t2
  | _ => false
  end.

(** How [StreamOptionalHelper] writes a type: as it is, behind its size as a
    size ([counted n] for [n] elements of a sequence), or behind its size as an
    int that is patched. *)
Inductive framing : Type := Plain | Counted | Patched.

Definition container (fixed : bool) (sz : nat) : framing :=
  if fixed then if (sz =? 1)%nat then Plain else Counted else Patched.

Definition framing_of (t : ty) : framing :=
  match t with
  | TByte | TBool | TScalar _ | TString _ | TWstring | TBoolSeq | TEnum _ _ => Plain
  | TByteSeq => container true 1
  | TArray k | TArrayRange k => container true (sizeof k)
  | TStringSeq _ | TWstringSeq => container false 1
  | TSeq t' => container (fixedLength t') (minWireSize t')
  | TStruct _ _ => if fixedLength t then Counted else Patched
  | TDict t1 t2 => container (fixedLength t1 && fixedLength t2) (minWireSize t1 + minWireSize t2)
  end.

(** [StreamOptionalHelper<T, ...>::optionalFormat] *)
Definition optionalFormat (t : ty) : OptionalFormat :=
  match t with
  | TByte | TBool => OptionalFormatF1
  | TScalar Short => OptionalFormatF2
  | TScalar (Int | Float) => OptionalFormatF4
  | TScalar (Long | Double) => OptionalFormatF8
  | TEnum _ _ => OptionalFormatSize
  | _ => match framing_of t with Patched => OptionalFormatFSize | _ => OptionalFormatVSize end
  end.

(** [sz * n + (n < 255 ? 1 : 5)] of a container, [minWireSize] of a structure *)
Definition counted_size (t : ty) : denote t -> Z :=
  match t with
  | TArray k | TArrayRange k => fun v =>
      let n := to_i32 (Z.of_nat (length v)) in
      to_i32 (Z.of_nat (sizeof k) * n + (if n <? 255 then 1 else 5))
  | TSeq t' => fun v =>
      let n := to_i32 (Z.of_nat (length v)) in
      to_i32 (Z.of_nat (minWireSize t') * n + (if n <? 255 then 1 else 5))
  | TDict t1 t2 => fun v =>
      let n := to_i32 (Z.of_nat (length v)) in
      to_i32 (Z.of_nat (minWireSize t1 + minWireSize t2) * n + (if n <? 255 then 1 else 5))
  | t' => fun _ => Z.of_nat (minWireSize t')
  end.

Section optional.
Context `{PL : Platform} {D E : Type}.
Local Abbreviation stream := (BasicStream D E).

(** [write(Int(0)); p = pos(); ...; rewrite(pos() - p, p - 4)] *)
Definition write_patched (m : M stream unit) : M stream unit :=
  write_Int 0;;
  p ← gets b_size;
  m;;
  q ← gets b_size;
  rewrite_ (to_i32 (Z.of_nat q - Z.of_nat p)) (p - 4).

Definition write_optional_ty (t : ty) (v : denote t) : M stream unit :=
  match framing_of t with
  | Plain => write_ty t v
  | Counted => writeSize (counted_size t v);; write_ty t v
  | Patched => write_patched (write_ty t v)
  end.

Definition read_optional_ty (t : ty) : M stream (denote t) :=
  match framing_of t with
  | Plain => read_ty t
  | Counted => skipSize;; read_ty t
  | Patched => skip 4;; read_ty t
  end.

Context {S : Type} {HO : Host S D E} {CO : Coders D E} {OC : ObjectDecoding S} {OE : ObjectEncoding S}.

(** [write(Int tag, const Optional<T>&)] and [read(Int tag, Optional<T>&)] *)
Definition write_opt (tag : Z) (t : ty) (v : option (denote t)) : M S unit :=
  match v with
  | None => mret tt
  | Some x =>
      wanted ← writeOpt tag (optionalFormat t);
      if wanted : bool then on_stream (write_optional_ty t x) else mret tt
  end.

Definition read_opt (fuel : nat) (tag : Z) (t : ty) : M S (option (denote t)) :=
  found ← readOpt fuel tag (optionalFormat t);
  if found : bool then x ← on_stream (read_optional_ty t); mret (Some x) else mret None.
End optional.

(** ** The payload of an optional value *)

Definition opt_payload (t : ty) (v : denote t) (bs : list byte) : list byte :=
  match framing_of t with
  | Plain => bs
  | Counted => size_bytes (counted_size t v) ++ bs
  | Patched => le_bytes 4 (Z.of_nat (length bs)) ++ bs
  end.

Lemma size_bytes_length n : 0 <= n -> Z.of_nat (length (size_bytes n)) = if n <? 255 then 1 else 5.
Proof.
  intros Hn. unfold size_bytes. destruct (254 <? n) eqn:E1, (n <? 255) eqn:E2; bool_to_prop; simpl; lia.
Qed.

Lemma each_length {A} (R : A -> list byte -> nat -> Prop) sz : (forall x bs n, R x bs n -> length bs = sz) ->
  forall v bs n, each R v bs n -> length bs = (sz * length v)%nat.
Proof. intros HR v bs n. induction 1; simpl; [lia|]. rewrite length_app. erewrite HR by done. lia. Qed.

Section payload.
Context (C1 C2 : Config).

Lemma fixed_length t v bs need : fixedLength t = true -> wire C1 C2 t v bs need -> length bs = minWireSize t.
Proof.
  revert v bs need. induction t; intros v bs need Hf Hw; cbn in Hf, Hw |- *; try done.
  - by destruct Hw as [-> _].
  - by destruct Hw as [-> _].
  - destruct Hw as [[-> _] _]. apply length_le_bytes.
  - apply andb_true_iff in Hf as [H1 H2]. destruct Hw as (b1 & b2 & n1 & n2 & W1 & W2 & -> & _).
    rewrite length_app. by rewrite (IHt1 _ _ _ H1 W1), (IHt2 _ _ _ H2 W2).
Qed.

Lemma each_payload {A} (R : A -> list byte -> nat -> Prop) sz v bs need :
  (forall x bs n, R x bs n -> length bs = sz) -> sized (each R) v bs need -> int_length bs ->
  exists body, bs = size_bytes (Z.of_nat (length v)) ++ body /\ length body = (sz * length v)%nat /\
    to_i32 (Z.of_nat sz * to_i32 (Z.of_nat (length v)) +
      (if to_i32 (Z.of_nat (length v)) <? 255 then 1 else 5)) = Z.of_nat (length bs).
Proof.
  intros HR (body & n & HE & -> & _ & Hl) Hb. unfold seq_bytes, int_length in *.
  pose proof (each_length _ _ HR _ _ _ HE) as HL. pose proof (size_bytes_length (Z.of_nat (length v)) ltac:(lia)) as HS.
  rewrite length_app in *. exists body. split_and!; [done|done|].
  rewrite (to_i32_length v) by done. rewrite <- HS. rewrite to_i32_id; lia.
Qed.

(** An array of scalars is a sequence of elements of a fixed size. *)
Lemma array_payload k (v : list Z) bs : bs = seq_bytes v (le_array_bytes k v) -> int_length v -> int_length bs ->
  to_i32 (Z.of_nat (sizeof k) * to_i32 (Z.of_nat (length v)) +
    (if to_i32 (Z.of_nat (length v)) <? 255 then 1 else 5)) = Z.of_nat (length bs).
Proof.
  intros -> Hl Hb. rewrite to_i32_length by done. unfold seq_bytes, int_length in *.
  pose proof (size_bytes_length (Z.of_nat (length v)) ltac:(lia)) as HS.
  rewrite length_app, length_le_array_bytes in *. rewrite <- HS. rewrite to_i32_id; lia.
Qed.

Lemma container_framing fixed sz : container fixed sz = Counted -> fixed = true.
Proof. by destruct fixed. Qed.

(** The size that stands before a counted value is the number of its bytes. *)
Lemma counted_size_ok t v bs need : framing_of t = Counted -> wire C1 C2 t v bs need -> int_length bs ->
  counted_size t v = Z.of_nat (length bs).
Proof.
  intros Hc Hw Hb. destruct t; try done; cbn [wire counted_size] in *.
  - destruct Hw as ([E1 _] & Hl & _). by apply (array_payload k v).
  - destruct Hw as ([E1 _] & Hl & _). by apply (array_payload k v).
  - cbn [framing_of] in Hc. destruct (fixedLength (TStruct t1 t2)) eqn:Hf; [|done].
    by rewrite (fixed_length (TStruct t1 t2) _ _ _ Hf Hw).
  - apply container_framing in Hc as Hf.
    by destruct (each_payload _ (minWireSize t) _ _ _ (fun x b n => fixed_length t x b n Hf) Hw Hb) as (? & _ & _ & ?).
  - apply container_framing in Hc as Hf. destruct Hw as [Hw _].
    by destruct (each_payload _ (minWireSize t1 + minWireSize t2) _ _ _
      (fun x b n (Hx : entry_rel _ _ x b n) => fixed_length (TStruct t1 t2) x b n Hf Hx) Hw Hb) as (? & _ & _ & ?).
Qed.

Lemma minWireSize_pos t : (0 < minWireSize t)%nat.
Proof. induction t; cbn; try lia. by destruct k; cbn; lia. Qed.

Lemma container_format fixed sz : container fixed sz = Plain -> fixed = true /\ sz = 1%nat.
Proof. destruct fixed; [|done]. unfold container. destruct (sz =? 1)%nat eqn:E1; [|done]. by bool_to_prop. Qed.

(** What the helpers write has the shape that the format announces. *)
Lemma opt_payload_ok t v bs need : c_write (Config:=C1) <> Encoding_1_0 -> int_length bs -> wire C1 C2 t v bs need ->
  payload_ok (optionalFormat t) (opt_payload t v bs).
Proof.
  intros He Hb Hw. unfold opt_payload. destruct (framing_of t) eqn:F.
  - destruct t; try done; cbn [optionalFormat wire payload_ok] in *; rewrite ?F; cbn [payload_ok].
    + by destruct Hw as [-> _].
    + by destruct Hw as [-> _].
    + destruct Hw as [[-> _] _]. destruct k; apply length_le_bytes.
    + destruct Hw as [[-> _] Hl]. by exists v.
    + destruct Hw as [[-> _] Hl]. exists (byte_of_bool <$> v). unfold int_length, seq_bytes. by rewrite length_fmap.
    + by destruct k.
    + by destruct k.
    + destruct Hw as (body & -> & (_ & Hl & _) & _). by exists body.
    + destruct Hw as (body & -> & (_ & Hl & _) & _). by exists body.
    + destruct Hw as ([-> _] & _ & Hv & Hm). exists v. split; [lia|]. unfold enum_bytes.
      destruct (encoding_eqb _ _) eqn:E1; [by apply encoding_eqb_true in E1|done].
    + cbn [framing_of] in F. by destruct (fixedLength _).
    + apply (container_format (fixedLength t) (minWireSize t)) in F as [Hf Hs].
      destruct (each_payload _ _ _ _ _ (fun x b n => fixed_length t x b n Hf) Hw Hb) as (body & Eb & Hlb & _).
      rewrite Hs, Nat.mul_1_l in Hlb. exists body. unfold seq_bytes. rewrite Hlb. split; [|done].
      unfold int_length in *. rewrite Eb, length_app in Hb. lia.
    + apply (container_format _ (minWireSize t1 + minWireSize t2)) in F as [_ Hs]. pose proof (minWireSize_pos t1). pose proof (minWireSize_pos t2). lia.
  - assert (optionalFormat t = OptionalFormatVSize) as -> by (destruct t; try done; cbn [optionalFormat]; by rewrite F).
    rewrite (counted_size_ok t v bs need F Hw Hb). by exists bs.
  - assert (optionalFormat t = OptionalFormatFSize) as -> by (destruct t; try done; cbn [optionalFormat]; by rewrite F).
    by exists bs.
Qed.
End payload.

(** ** Writing and reading it *)

Section codec.
Context `{PL : Platform} {D E : Type}.
Local Abbreviation stream := (BasicStream D E).

Lemma write_patched_writes `{CF : Config} need (m : M stream unit) bs : int_length bs ->
  writes_within need m bs tt -> writes_within (4 + need) (write_patched m) (le_bytes 4 (Z.of_nat (length bs)) ++ bs) tt.
Proof.
  intros Hb [Hl Hm]. split; [rewrite length_app, length_le_bytes; lia|]. intros s Hf.
  pose proof (write_scalar_writes Int 0 s ltac:(eapply fits_le; [exact Hf|simpl; lia])) as E1.
  unfold write_patched, write_Int. rewrite (bind_ok _ _ _ _ _ E1). step.
  rewrite (bind_ok _ _ _ _ _ (Hm (appended (le_bytes 4 0) s) ltac:(apply fits_appended; exact Hf))).
  step. unfold rewrite_, write_Int_at. rewrite encode_scalar_le, !b_size_appended, !length_le_bytes. change (sizeof Int) with 4%nat.
  replace (Z.of_nat (b_size s + 4 + length bs) - Z.of_nat (b_size s + 4)) with (Z.of_nat (length bs)) by lia.
  rewrite (to_i32_length bs) by done. replace (b_size s + 4 - 4)%nat with (b_size s) by lia.
  unfold appended. cbn [b set_b]. rewrite <- (app_assoc (b s)).
  exact (store_mid_set_b (b_size s) (b s) (le_bytes 4 (Z.of_nat (length bs))) (le_bytes 4 0) bs s eq_refl eq_refl).
Qed.

Lemma skip_reads `{CF : Config} n bs : n = Z.of_nat (length bs) -> reads 0 (skip (D:=D) (E:=E) n) bs tt.
Proof.
  intros ->. apply (reads_weaken (length bs)); [|lia]. apply reads_simple; [done|]. intros s rest Hs Hr.
  pose proof (remaining_length _ _ _ Hs Hr) as Hl. destruct Hs as (Hi & He & Ha & _).
  unfold skip. step. unfold to_unsigned. rewrite Z.mod_small by lia. rewrite (proj2 (Z.ltb_ge _ _)) by lia.
  unfold modify. do 2 f_equal. lia.
Qed.

Lemma skipSize_reads `{CF : Config} n : 0 <= n < 2 ^ 31 -> reads 0 (skipSize (D:=D) (E:=E)) (size_bytes n) tt.
Proof.
  intros Hn. unfold skipSize, size_bytes. destruct (254 <? n) eqn:E1; bool_to_prop.
  - apply (reads_weaken (1 + 0)); [|lia].
    eapply (reads_bind 1 0 _ _ [chr 255]); [apply read_Byte_reads|]. rewrite ord_chr_small, Z.eqb_refl by lia.
    apply skip_reads. by rewrite length_le_bytes.
  - apply (reads_weaken 1); [|lia]. eapply reads_bind_nil; [apply read_Byte_reads|].
    rewrite ord_chr_small by lia. rewrite (proj2 (Z.eqb_neq n 255)) by lia. apply reads_ret.
Qed.

(** The room that writing an optional value needs *)
Definition opt_need (t : ty) (v : denote t) (need : nat) : nat :=
  match framing_of t with
  | Plain => need
  | Counted => length (size_bytes (counted_size t v)) + need
  | Patched => 4 + need
  end.

Lemma write_optional_writes (C1 C2 : Config) t v bs need : wire C1 C2 t v bs need -> int_length bs ->
  writes_within (CF:=C1) (opt_need t v need) (write_optional_ty (D:=D) (E:=E) t v) (opt_payload t v bs) tt.
Proof.
  intros Hw Hb. pose proof (ty_writes (D:=D) (E:=E) C1 C2 t _ _ _ Hw) as H.
  unfold opt_need, write_optional_ty, opt_payload. destruct (framing_of t) eqn:F; [done| |by apply write_patched_writes].
  rewrite (counted_size_ok C1 C2 t v bs need F Hw Hb).
  match goal with |- writes_within (?a + need) _ _ _ => replace (a + need)%nat with (a `max` (a + need))%nat by lia end.
  eapply writes_within_bind; [|exact H]. apply writes_is_within, writeSize_writes. lia.
Qed.

Lemma read_optional_reads (C1 C2 : Config) t v bs need : wire C1 C2 t v bs need -> int_length bs ->
  reads (CF:=C2) 0 (read_optional_ty (D:=D) (E:=E) t) (opt_payload t v bs) v.
Proof.
  intros Hw Hb. pose proof (ty_reads (D:=D) (E:=E) C1 C2 t _ _ _ Hw) as H.
  apply (reads_weaken _ 0) in H; [|lia]. unfold read_optional_ty, opt_payload. destruct (framing_of t) eqn:F; [done| |].
  - rewrite (counted_size_ok C1 C2 t v bs need F Hw Hb). unfold int_length in Hb.
    eapply (reads_bind 0 0); [apply skipSize_reads; lia|done].
  - eapply (reads_bind 0 0); [apply skip_reads; by rewrite length_le_bytes|done].
Qed.
End codec.

(** ** An optional value from one host to another *)

Lemma locate_app tag os1 o os2 : Forall (fun p => o_tag p < tag) os1 -> o_tag o = tag ->
  locate tag (os1 ++ o :: os2) = (os1, Some (o_format o)).
Proof.
  intros H1 <-. induction H1 as [|p os Hp _ IH]; cbn [app locate].
  - by rewrite Z.ltb_irrefl, Z.eqb_refl.
  - rewrite (proj2 (Z.ltb_lt _ _)) by done. by rewrite IH.
Qed.

Section properties.
Context {D E D' E' : Type} {OE1 : ObjectEncoding (BasicStream D E)}
  {CO2 : Coders D' E'} {OC2 : ObjectDecoding (BasicStream D' E')}.

Lemma write_opt_ok (P1 : Platform) (C1 C2 : Config) t v bs need tag e prev (s : BasicStream D E) :
  wire C1 C2 t v bs need -> int_length bs -> 0 <= tag ->
  writeEncaps s = e :: prev -> we_encoder e = None -> we_encoding e = Encoding_1_1 ->
  fits (CF:=C1) s (length (tag_bytes tag (optionalFormat t)) + opt_need t v need) ->
  write_opt (PL:=P1) tag t (Some v) s
    = (Ok tt, appended (opt_bytes (MkOpt tag (optionalFormat t) (opt_payload t v bs))) s).
Proof.
  intros Hw Hb Ht He Hn Hv Hf. unfold write_opt, writeOpt.
  destruct (write_optional_writes (PL:=P1) (D:=D) (E:=E) C1 C2 t v bs need Hw Hb) as [_ Hm].
  erewrite bind_ok.
  2:{ unhost. step. rewrite He. destruct e as [? ? ? [|]]; [done|].
      apply writeOptImpl_exact; [done|unfold write_encoding; by rewrite He|].
      destruct (fits_le _ (length (tag_bytes tag (optionalFormat t))) _ Hf ltac:(lia)) as [_ Hr]. exact Hr. }
  cbv iota. unhost. rewrite Hm by (by apply fits_appended). unfold opt_bytes. cbn [o_tag o_format o_payload].
  by rewrite appended_app.
Qed.

Lemma read_opt_ok (P2 : Platform) (C1 C2 : Config) t v bs need tag mk os1 os2 fuel e prev (s : BasicStream D' E') :
  let o := MkOpt tag (optionalFormat t) (opt_payload t v bs) in
  wire C1 C2 t v bs need -> int_length bs -> configured (CF:=C2) s -> startSeq s = -1 ->
  readEncaps s = e :: prev -> re_decoder e = None -> re_encoding e <> Encoding_1_0 ->
  opts_at mk (os1 ++ o :: os2) s -> Forall (fun p => o_tag p < tag) os1 -> (length os1 + S (length os2) < fuel)%nat ->
  exists s', read_opt (PL:=P2) fuel tag t s = (Ok (Some v), s') /\
    consumed s s' (length (opts_bytes os1) + length (opt_bytes o)).
Proof.
  intros o Hw Hb Hcf Hq He Hd Henc Hat Hlt Hfuel. unfold read_opt, readOpt.
  destruct (read_optional_reads (PL:=P2) (D:=D') (E:=E') C1 C2 t v bs need Hw Hb) as [_ Hm].
  set (n := (length (opts_bytes os1) + length (tag_bytes tag (optionalFormat t)))%nat).
  erewrite (bind_ok _ _ _ true (set_i (i s + Z.of_nat n) s)).
  2:{ unhost. step. rewrite He. destruct e as [? ? ? [|]]; [done|].
      rewrite (readOptImpl_locates tag (optionalFormat t) mk (os1 ++ o :: os2)) by
        (rewrite ?length_app; simpl; lia || done || (unfold read_encoding; by rewrite He)).
      rewrite (locate_app tag os1 o os2) by done. cbn [fst snd o_format o]. rewrite bool_decide_true by done.
      unfold n. by rewrite Nat2Z.inj_add. }
  destruct Hat as (Hs & _ & _ & _ & tail & _ & Hr & _).
  assert (remaining s = (opts_bytes os1 ++ tag_bytes tag (optionalFormat t)) ++ opt_payload t v bs ++ (opts_bytes os2 ++ tail)) as Hr'.
  { rewrite Hr. unfold opts_bytes. rewrite fmap_app, concat_app. cbn [fmap list_fmap concat]. unfold opt_bytes at 2.
    cbn [o o_tag o_format o_payload]. by rewrite <- !app_assoc. }
  destruct (addressable_set_i _ _ _ Hs Hr') as [[Hin (Hlen & Ha1 & Ha2)] Hr2]. rewrite length_app in Hin, Hlen, Ha1, Ha2, Hr2.
  fold n in Hin, Hlen, Ha1, Ha2, Hr2.
  destruct (Hm (set_i (i s + Z.of_nat n) s) _ 0%nat ltac:(split_and!; [apply Hin|apply Hin|done..|exact Hcf]) Hr2 ltac:(lia)
    (or_introl Hq)) as (s' & E1 & Hc & _).
  cbv iota. unhost. rewrite (bind_ok _ _ _ _ _ E1). exists s'. split; [done|].
  replace (_ + length (opt_bytes o))%nat with (n + length (opt_payload t v bs))%nat.
  - eapply consumed_trans; [|exact Hc]. apply consumed_set_i.
  - unfold opt_bytes. rewrite length_app. cbn [o o_tag o_format o_payload]. unfold n. lia.
Qed.

(** C33. An optional value of any marshalled type is written as its tag with the
    format of the type and a payload that old receivers skip, and a receiver on any
    host that stands on a list of optional values finds it behind those of smaller
    tags, reads the same value and stops right behind it. *)
Theorem optional_value_arrives (P1 P2 : Platform) (C1 C2 : Config) t v bs need tag mk os1 os2 fuel e1 prev1 e2 prev2
    (s1 : BasicStream D E) (s2 : BasicStream D' E') :
  let o := MkOpt tag (optionalFormat t) (opt_payload t v bs) in
  wire C1 C2 t v bs need -> int_length bs -> 0 <= tag < 2 ^ 31 ->
  writeEncaps s1 = e1 :: prev1 -> we_encoder e1 = None -> we_encoding e1 = Encoding_1_1 ->
  fits (CF:=C1) s1 (length (tag_bytes tag (optionalFormat t)) + opt_need t v need) ->
  configured (CF:=C2) s2 -> startSeq s2 = -1 ->
  readEncaps s2 = e2 :: prev2 -> re_decoder e2 = None -> re_encoding e2 <> Encoding_1_0 ->
  opts_at mk (os1 ++ o :: os2) s2 -> Forall (fun p => o_tag p < tag) os1 -> (length os1 + S (length os2) < fuel)%nat ->
  write_opt (PL:=P1) tag t (Some v) s1 = (Ok tt, appended (opt_bytes o) s1) /\
  opt_ok o /\
  exists s2', read_opt (PL:=P2) fuel tag t s2 = (Ok (Some v), s2') /\
    consumed s2 s2' (length (opts_bytes os1) + length (opt_bytes o)).
Proof.
  intros o Hw Hb Ht He1 Hn1 Hv1 Hf Hcf Hq He2 Hd2 Hv2 Hat Hlt Hfuel. split; [|split].
  - apply (write_opt_ok P1 C1 C2 t v bs need tag e1 prev1); by auto with lia.
  - split; [done|]. apply (opt_payload_ok C1 C2 t v bs need); [|done..]. destruct Hf as [(_ & _ & _ & Hw1) _].
    unfold write_encoding in Hw1. rewrite He1, Hv1 in Hw1. by rewrite <- Hw1.
  - by apply (read_opt_ok P2 C1 C2 t v bs need tag mk os1 os2 fuel e2 prev2).
Qed.
End properties.

(** ** Example: a dictionary behind the tag 40, between two other values *)

Definition scores : ty := TDict (TScalar Int) TBool.
Definition some_scores : denote scores := [(1, true); (7, false)].
Definition score_bytes : list byte := chr <$> [2; 1; 0; 0; 0; 1; 7; 0; 0; 0; 0].
Definition score_opts : list opt :=
  [MkOpt 1 OptionalFormatF2 [chr 7; chr 8]; MkOpt 40 OptionalFormatVSize (chr 11 :: score_bytes);
   MkOpt 300 OptionalFormatF1 [chr 3]].

Definition in_encaps : BasicStream unit unit :=
  set_write [MkWriteEncaps 0 Encoding_1_1 DefaultFormat None] (fresh_write Encoding_1_1) Sample.sender.

Lemma scores_wire : wire Sample.cfg Sample.cfg scores some_scores score_bytes 11.
Proof.
  split.
  - exists (chr <$> [1; 0; 0; 0; 1; 7; 0; 0; 0; 0]), 10%nat. split_and!; [|done|done|done].
    refine (each_cons _ (1, true) [(7, false)] (chr <$> [1; 0; 0; 0; 1]) (chr <$> [7; 0; 0; 0; 0]) 5 5 _ _).
    + exists (chr <$> [1; 0; 0; 0]), [chr 1], 4%nat, 1%nat. by split_and!.
    + refine (each_cons _ (7, false) [] (chr <$> [7; 0; 0; 0; 0]) [] 5 0 _ (each_nil _)).
      exists (chr <$> [7; 0; 0; 0]), [chr 0], 4%nat, 1%nat. by split_and!.
  - repeat constructor.
Qed.

Lemma score_opts_at : opts_at false score_opts (inside (opts_bytes score_opts)).
Proof.
  split; [vm_compute; done|]. split.
  - repeat constructor; try done. by exists score_bytes.
  - eexists _, _, []. split; [done|]. split; [by vm_compute|by vm_compute].
Qed.

Lemma optional_value_arrives_witness :
  write_opt (PL:=Sample.sparc) (OE:=no_encoders) 40 scores (Some some_scores) in_encaps
    = (Ok tt, appended (chr <$> [245; 40; 11; 2; 1; 0; 0; 0; 1; 7; 0; 0; 0; 0]) in_encaps) /\
  opt_ok (MkOpt 40 OptionalFormatVSize (chr 11 :: score_bytes)) /\
  exists s2', read_opt (PL:=Sample.x86) (CO:=no_coders) (OC:=no_classes) 4 40 scores (inside (opts_bytes score_opts))
    = (Ok (Some some_scores), s2') /\
    consumed (inside (opts_bytes score_opts)) s2' (3 + 14).
Proof.
  apply (optional_value_arrives (OE1:=no_encoders) (CO2:=no_coders) (OC2:=no_classes)
    Sample.sparc Sample.x86 Sample.cfg Sample.cfg scores some_scores score_bytes 11 40 false
    [MkOpt 1 OptionalFormatF2 [chr 7; chr 8]] [MkOpt 300 OptionalFormatF1 [chr 3]] 4
    (MkWriteEncaps 0 Encoding_1_1 DefaultFormat None) []
    (MkReadEncaps 0 (Z.of_nat (length (opts_bytes score_opts))) Encoding_1_1 None) []
    in_encaps (inside (opts_bytes score_opts))).
  - apply scores_wire.
  - done.
  - lia.
  - done.
  - done.
  - done.
  - split; [by split_and!|right; vm_compute; lia].
  - by split_and!.
  - done.
  - done.
  - done.
  - done.
  - apply score_opts_at.
  - repeat constructor.
  - simpl. lia.
Defined.
