(* ===== verification/StreamFrame.v ===== *)
(** * Reading leaves the encapsulations alone

    Reading values moves the cursor and the estimate of sequences of a stream:
    its chain of encapsulations, with their decoders, stays as it is, whatever
    the bytes and however the reading ends. *)

From S2P Require Import Prelude Hoare OrderedMap CxxString Buffer Layout Protocol Stream Wire Codecs StreamString.
From S2P Require Import StreamHelpers StreamSpec Encaps OptionalSpec StreamOptional.

Section frames.
Context `{PL : Platform} {D E : Type}.
Local Abbreviation stream := (BasicStream D E).

(** The encapsulations that are being read, and the pre-allocated one *)
Definition read_chain (s : stream) : list (ReadEncaps D) * ReadEncaps D := (readEncaps s, preRead s).
Local Abbreviation quiet := (frame read_chain).

Lemma read_Byte_quiet : quiet read_Byte.
Proof. unfold read_Byte, byte_at, advance, throwUnmarshalOutOfBounds. frames. Qed.
Lemma read_Bool_quiet : quiet read_Bool.
Proof. unfold read_Bool, byte_at, advance, throwUnmarshalOutOfBounds. frames. Qed.
Lemma bytes_at_quiet p n : quiet (bytes_at p n).
Proof. unfold bytes_at. frames. Qed.
Lemma advance_quiet n : quiet (advance n).
Proof. unfold advance. frames. Qed.
Local Hint Resolve read_Byte_quiet read_Bool_quiet bytes_at_quiet advance_quiet : frame.

Lemma read_scalar_quiet k : quiet (read_scalar k).
Proof. unfold read_scalar, throwUnmarshalOutOfBounds. frames. Qed.
Local Hint Resolve read_scalar_quiet : frame.
Lemma read_Int_quiet : quiet read_Int.
Proof. apply read_scalar_quiet. Qed.
Local Hint Resolve read_Int_quiet : frame.
Lemma readSize_quiet : quiet readSize.
Proof. unfold readSize, throwUnmarshalOutOfBounds. frames. Qed.
Lemma skip_quiet n : quiet (skip n).
Proof. unfold skip, throwUnmarshalOutOfBounds. frames. Qed.
Local Hint Resolve readSize_quiet skip_quiet : frame.
Lemma skipSize_quiet : quiet skipSize.
Proof. unfold skipSize. frames. Qed.
Lemma readAndCheckSeqSize_quiet n : quiet (readAndCheckSeqSize n).
Proof. unfold readAndCheckSeqSize, throwUnmarshalOutOfBounds. frames. Qed.
Local Hint Resolve skipSize_quiet readAndCheckSeqSize_quiet : frame.

Lemma read_each_quiet {A} (r : M stream A) n : quiet r -> quiet (read_each r n).
Proof. intros Hr. induction n as [|n IH]; cbn [read_each]; frames. Qed.

Lemma read_string_quiet convert : quiet (read_string convert).
Proof. unfold read_string, readConverted, throwUnmarshalOutOfBounds. frames. Qed.
Lemma read_wstring_quiet : quiet read_wstring.
Proof. unfold read_wstring, throwUnmarshalOutOfBounds. frames. Qed.
Local Hint Resolve read_each_quiet read_string_quiet read_wstring_quiet : frame.

Lemma read_array_quiet k : quiet (read_array k).
Proof. unfold read_array, read_elements, copied. frames. Qed.
Lemma read_array_ptr_quiet k : quiet (read_array_ptr k).
Proof. unfold read_array_ptr, read_elements, copied. frames. Qed.
Local Hint Resolve read_array_quiet read_array_ptr_quiet : frame.

Lemma read_entries_quiet {A B} ltb (rk : M stream A) (rv : M stream B) n m :
  quiet rk -> quiet rv -> quiet (read_entries ltb rk rv n m).
Proof. intros Hk Hv. revert m. induction n as [|n IH]; intros m; cbn [read_entries]; frames. Qed.
Local Hint Resolve read_entries_quiet : frame.

Lemma read_ty_quiet t : quiet (read_ty t).
Proof.
  induction t; cbn [read_ty]; unfold read_ByteSeq, read_ByteRange, read_BoolSeq, read_StringSeq, read_WstringSeq,
    read_enum_helper, readEnum, getReadEncoding, read_Short, read_seq_helper, read_dict_helper, out_of_range; frames.
Qed.
Local Hint Resolve read_ty_quiet : frame.

Lemma read_optional_ty_quiet t : quiet (read_optional_ty t).
Proof. unfold read_optional_ty. frames. Qed.

Lemma at_encaps_end_quiet : quiet at_encaps_end.
Proof. unfold at_encaps_end. frames. Qed.
End frames.

#[export] Hint Resolve read_Byte_quiet read_Bool_quiet bytes_at_quiet advance_quiet read_scalar_quiet read_Int_quiet
  readSize_quiet skip_quiet skipSize_quiet readAndCheckSeqSize_quiet read_string_quiet read_ty_quiet
  read_optional_ty_quiet at_encaps_end_quiet : frame.
