(* ===== verification/ObjectData.v ===== *)
(** * Objects and exceptions: the data

    The state of the encoders and decoders of class instances and user
    exceptions ([EncapsEncoder], [EncapsDecoder] and their subclasses of
    cpp/include/Ice/BasicStream.h), the objects of the program that they
    marshal, and the world that both share with a stream. *)

From S2P Require Import Prelude Hoare OrderedMap CxxString Buffer Layout Protocol Stream Wire Codecs StreamString.
From S2P Require Import StreamHelpers Encaps OptionalSpec StreamOptional.

(** ** Objects of the program

    The classes are generated from Slice definitions. An instance is a list
    of slices, the most derived one first, as [__writeImpl] and [__readImpl]
    of the generated code go through them: each has the type id and the
    compact id (-1 for none) that the generated code passes to the stream, and
    its data members in order, the optional ones at the end. Objects refer to
    each other by their position in the heap; they are never moved. *)

Abbreviation oref := nat (only parsing).
Abbreviation sref := nat (only parsing).

Inductive slot : Type :=
  | SData (t : ty) (v : denote t)
  | SClass (declared : str) (p : option oref)
  | SOptional (tag : Z) (t : ty) (v : option (denote t)).

Record Slice : Type := MkSlice {
  sl_typeId : str;
  sl_compactId : Z;
  sl_members : list slot
}.

(** [in_preserve]: the class preserves the slices it does not know, in
    [__slicedData]. [in_unknown] is the type id of an [UnknownSlicedObject]. *)
Record Instance : Type := MkInstance {
  in_slices : list Slice;
  in_preserve : bool;
  in_slicedData : option (list sref);
  in_unknown : option str;
  in_usesClasses : bool
}.

(** [Ice::Object::ice_staticId()] *)
Definition Object_id : str := lit "::Ice::Object".

(** [ice_ids] and [ice_id] *)
Definition ice_ids (x : Instance) : list str := (sl_typeId <$> in_slices x) ++ [Object_id].
Definition ice_id (x : Instance) : str := default Object_id (head (sl_typeId <$> in_slices x)).

(** [dynamicCast] to the class of that type id succeeds. *)
Definition is_a (x : Instance) (declared : str) : bool := bool_decide (declared ∈ ice_ids x).

(** A new [UnknownSlicedObject] *)
Definition UnknownSlicedObject (typeId : str) : Instance := MkInstance [] true None (Some typeId) false.

(** [Ice::SliceInfo]: a slice of a type that was not known *)
Record SliceInfo : Type := MkSliceInfo {
  si_typeId : str;
  si_compactId : Z;
  si_bytes : list byte;
  si_objects : list (option oref);
  si_hasOptionalMembers : bool;
  si_isLastSlice : bool
}.

(** A local variable of the caller that an object is read into *)
Record Param : Type := MkParam { pa_declared : str; pa_value : option oref }.

Record Heap : Type := MkHeap {
  h_objects : list Instance;
  h_slices : list SliceInfo;
  h_params : list Param
}.

(** Where a smart pointer lives: member [k] of slice [n] of an object, element
    [k] of the objects of a preserved slice, or a variable of the caller. *)
Inductive addr : Type :=
  | AMember (o : oref) (n k : nat)
  | ASlice (x : sref) (k : nat)
  | AParam (p : nat).

(** [PatchFunc] is [patchHandle<T>] for the class with the type id
    [pt_declared]. *)
Record Patch : Type := MkPatch { pt_declared : str; pt_addr : addr }.

(** ** Decoders *)

Inductive SliceType : Type := NoSlice | ObjectSlice | ExceptionSlice.

#[export] Instance SliceType_eq_dec : EqDecision SliceType.
Proof. solve_decision. Defined.

(** [EncapsDecoder] *)
Record DecoderBase : Type := MkDecoderBase {
  d_sliceObjects : bool;
  patchMap : gmap Z (list Patch);
  unmarshaledMap : gmap Z oref;
  typeIdReadMap : gmap Z str;
  typeIdReadIndex : Z;
  objectList : list oref
}.

(** [EncapsDecoder10] *)
Record Decoder10 : Type := MkDecoder10 {
  d10_sliceType : SliceType;
  d10_skipFirstSlice : bool;
  d10_sliceSize : Z;
  d10_typeId : str
}.

(** [EncapsDecoder11::InstanceData] *)
Record ReadInstance : Type := MkReadInstance {
  ri_sliceType : SliceType;
  ri_skipFirstSlice : bool;
  ri_slices : list sref;
  ri_indirectionTables : list (list Z);
  ri_sliceFlags : Z;
  ri_sliceSize : Z;
  ri_typeId : str;
  ri_compactId : Z;
  ri_indirectPatchList : list (Z * Patch)
}.

(** [EncapsDecoder11]. [d11_stack] is [_current] with its [previous] chain;
    [d11_spare] the chain of [next] behind it: the data that was allocated and
    is used again. *)
Record Decoder11 : Type := MkDecoder11 {
  d11_stack : list ReadInstance;
  d11_spare : list ReadInstance;
  d11_objectIdIndex : Z
}.

Inductive DecoderVersion : Type := V10 (d : Decoder10) | V11 (d : Decoder11).
Record Decoder : Type := MkDecoder { d_base : DecoderBase; d_version : DecoderVersion }.

(** ** Encoders *)

(** [EncapsEncoder] *)
Record EncoderBase : Type := MkEncoderBase {
  marshaledMap : gmap oref Z;
  typeIdWriteMap : gmap str Z;
  typeIdWriteIndex : Z
}.

(** [EncapsEncoder10] *)
Record Encoder10 : Type := MkEncoder10 {
  e10_sliceType : SliceType;
  e10_writeSlice : nat;
  e10_objectIdIndex : Z;
  toBeMarshaledMap : gmap oref Z
}.

(** [EncapsEncoder11::InstanceData] *)
Record WriteInstance : Type := MkWriteInstance {
  wi_sliceType : SliceType;
  wi_firstSlice : bool;
  wi_sliceFlags : Z;
  wi_writeSlice : nat;
  wi_sliceFlagsPos : nat;
  wi_indirectionMap : gmap oref Z;
  wi_indirectionTable : list (option oref)
}.

Record Encoder11 : Type := MkEncoder11 {
  e11_stack : list WriteInstance;
  e11_spare : list WriteInstance;
  e11_objectIdIndex : Z
}.

Inductive EncoderVersion : Type := W10 (e : Encoder10) | W11 (e : Encoder11).
Record Encoder : Type := MkEncoder { e_base : EncoderBase; e_version : EncoderVersion }.

(** The constructors *)
Definition new_base (slice : bool) : DecoderBase := MkDecoderBase slice ∅ ∅ ∅ 0 [].

(** [DefaultsAndOverrides] of the communicator *)
Class Defaults : Type := default_format : FormatType.

#[export] Instance ice_coders {DF : Defaults} : Coders Decoder Encoder := {|
  new_EncapsDecoder10 slice := MkDecoder (new_base slice) (V10 (MkDecoder10 NoSlice false 0 []));
  new_EncapsDecoder11 slice := MkDecoder (new_base slice) (V11 (MkDecoder11 [] [] 1));
  new_EncapsEncoder10 := MkEncoder (MkEncoderBase ∅ ∅ 0) (W10 (MkEncoder10 NoSlice 0 0 ∅));
  new_EncapsEncoder11 := MkEncoder (MkEncoderBase ∅ ∅ 0) (W11 (MkEncoder11 [] [] 1));
  defaultFormat := default_format
|}.

(** ** The world *)

(** The calls to [ice_preMarshal] and [ice_postUnmarshal] of the objects: what
    an application does there is not modelled, that and when they are called
    is. *)
Inductive hook : Type := PreMarshal (o : oref) | PostUnmarshal (o : oref).

Record world : Type := MkWorld {
  w_stream : BasicStream Decoder Encoder;
  w_heap : Heap;
  w_hooks : list hook
}.

Definition set_stream s w := MkWorld s (w_heap w) (w_hooks w).
Definition set_heap h w := MkWorld (w_stream w) h (w_hooks w).

#[export] Instance world_host : Host world Decoder Encoder := fun A m => on w_stream set_stream m.

Definition call_hook (x : hook) : M world unit :=
  modify (fun w => MkWorld (w_stream w) (w_heap w) (w_hooks w ++ [x])).

(** [*p] for a handle that is not null *)
Definition deref (o : oref) : M world Instance :=
  w ← get;
  match h_objects (w_heap w) !! o with
  | Some x => mret x
  | None => faultM UndefinedBehaviour
  end.

(** [new T] *)
Definition allocate (x : Instance) : M world oref :=
  w ← get;
  modify (set_heap (MkHeap (h_objects (w_heap w) ++ [x]) (h_slices (w_heap w)) (h_params (w_heap w))));;
  mret (length (h_objects (w_heap w))).

Definition set_objects l (h : Heap) : Heap := MkHeap l (h_slices h) (h_params h).
Definition set_slices l (h : Heap) : Heap := MkHeap (h_objects h) l (h_params h).
Definition set_params l (h : Heap) : Heap := MkHeap (h_objects h) (h_slices h) l.
Definition mod_heap (f : Heap -> Heap) : M world unit := modify (fun w => set_heap (f (w_heap w)) w).

Definition set_member (k : nat) (m : slot) (l : Slice) : Slice :=
  MkSlice (sl_typeId l) (sl_compactId l) (<[k := m]> (sl_members l)).
Definition set_slot (n k : nat) (m : slot) (x : Instance) : Instance :=
  MkInstance (alter (set_member k m) n (in_slices x)) (in_preserve x) (in_slicedData x) (in_unknown x)
    (in_usesClasses x).
Definition set_slicedData d (x : Instance) : Instance :=
  MkInstance (in_slices x) (in_preserve x) d (in_unknown x) (in_usesClasses x).

Definition update_object (o : oref) (f : Instance -> Instance) : M world unit :=
  mod_heap (fun h => set_objects (alter f o (h_objects h)) h).

Definition store_slot (o : oref) (n k : nat) (m : slot) : M world unit := update_object o (set_slot n k m).

(** The class pointer at [a] is assigned. *)
Definition assign_member (k : nat) (v : option oref) (l : Slice) : Slice :=
  MkSlice (sl_typeId l) (sl_compactId l)
    (alter (fun m => match m with SClass declared _ => SClass declared v | m => m end) k (sl_members l)).
Definition assign_slot (n k : nat) (v : option oref) (x : Instance) : Instance :=
  MkInstance (alter (assign_member k v) n (in_slices x)) (in_preserve x) (in_slicedData x) (in_unknown x)
    (in_usesClasses x).
Definition assign_object (k : nat) (v : option oref) (x : SliceInfo) : SliceInfo :=
  MkSliceInfo (si_typeId x) (si_compactId x) (si_bytes x) (<[k := v]> (si_objects x))
    (si_hasOptionalMembers x) (si_isLastSlice x).
Definition assign (a : addr) (v : option oref) (h : Heap) : Heap :=
  match a with
  | AMember o n k => set_objects (alter (assign_slot n k v) o (h_objects h)) h
  | ASlice x k => set_slices (alter (assign_object k v) x (h_slices h)) h
  | AParam p => set_params (alter (fun q => MkParam (pa_declared q) v) p (h_params h)) h
  end.

(** [__patch(handle, v)] of the generated code, with [throwUOE] *)
Definition throwUOE {A} (expectedType : str) (x : Instance) : M world A :=
  match in_unknown x with
  | Some typeId => throw (NoObjectFactoryException [] typeId)
  | None => throw (UnexpectedObjectException
      (lit "expected element of type `" ++ expectedType ++ lit "' but received '" ++ ice_id x) (ice_id x) expectedType)
  end.

Definition patchHandle (p : Patch) (v : option oref) : M world unit :=
  match v with
  | None => mod_heap (assign (pt_addr p) None)
  | Some o =>
      x ← deref o;
      if is_a x (pt_declared p) then mod_heap (assign (pt_addr p) (Some o))
      else mod_heap (assign (pt_addr p) None);; throwUOE (pt_declared p) x
  end.
