(* ===== verification/ObjectWrite.v ===== *)
(** * Objects and exceptions: the encoders

    [EncapsEncoder], [EncapsEncoder10] and [EncapsEncoder11] of
    cpp/src/Ice/BasicStream.cpp, with the generated code that they call and
    that calls them back. With encoding 1.0 a reference is written as an index
    and the objects follow in rounds; with encoding 1.1 an object is written
    where it is first met, in the compact format at once, in the sliced format
    in the indirection table behind the slice. *)

From S2P Require Import Prelude Hoare OrderedMap CxxString Buffer Layout Protocol Stream Wire Codecs StreamString.
From S2P Require Import StreamHelpers Encaps OptionalSpec StreamOptional ObjectData.

Definition FLAG_HAS_TYPE_ID_STRING : Z := 1.
Definition FLAG_HAS_TYPE_ID_INDEX : Z := 2.
Definition FLAG_HAS_TYPE_ID_COMPACT : Z := 3.
Definition FLAG_HAS_OPTIONAL_MEMBERS : Z := 4.
Definition FLAG_HAS_INDIRECTION_TABLE : Z := 8.
Definition FLAG_HAS_SLICE_SIZE : Z := 16.
Definition FLAG_IS_LAST_SLICE : Z := 32.

(** [flags & f] as a condition *)
Definition has (flags f : Z) : bool := negb (Z.land flags f =? 0).

#[export] Instance FormatType_eq_dec : EqDecision FormatType.
Proof. solve_decision. Defined.

(** The order of the addresses of objects, which [std::map] of pointers
    follows; it is the allocator's. *)
Class Allocator : Type := address : oref -> Z.

Section encoders.
Context `{PL : Platform} {DF : Defaults} {AL : Allocator}.

(** ** The encoder of the current encapsulation, its base and its version *)

Definition encoder_of (s : BasicStream Decoder Encoder) : option Encoder :=
  match writeEncaps s with e :: _ => we_encoder e | [] => None end.
Definition put_encoder (x : Encoder) (s : BasicStream Decoder Encoder) : BasicStream Decoder Encoder :=
  match writeEncaps s with
  | e :: prev => set_write (MkWriteEncaps (we_start e) (we_encoding e) (we_format e) (Some x) :: prev) (preWrite s) s
  | [] => s
  end.

(** [assert(_currentWriteEncaps && _currentWriteEncaps->encoder)] *)
Definition get_encoder : M world Encoder :=
  w ← get;
  match encoder_of (w_stream w) with Some x => mret x | None => faultM AssertionFailure end.
Definition set_encoder (x : Encoder) : M world unit := modify (fun w => set_stream (put_encoder x (w_stream w)) w).

Definition get_ebase : M world EncoderBase := x ← get_encoder; mret (e_base x).
Definition set_ebase (base : EncoderBase) : M world unit := x ← get_encoder; set_encoder (MkEncoder base (e_version x)).
Definition set_eversion (v : EncoderVersion) : M world unit := x ← get_encoder; set_encoder (MkEncoder (e_base x) v).

(** [this] in a method of a subclass *)
Definition this_e10 : M world Encoder10 :=
  x ← get_encoder; match e_version x with W10 e => mret e | W11 _ => faultM UndefinedBehaviour end.
Definition this_e11 : M world Encoder11 :=
  x ← get_encoder; match e_version x with W11 e => mret e | W10 _ => faultM UndefinedBehaviour end.

(** [_encaps->format] *)
Definition current_format : M world FormatType :=
  s ← on_stream get; mret (match writeEncaps s with e :: _ => we_format e | [] => DefaultFormat end).

Definition registerTypeId (typeId : str) : M world Z :=
  base ← get_ebase;
  match typeIdWriteMap base !! typeId with
  | Some k => mret k
  | None =>
      let index := to_i32 (typeIdWriteIndex base + 1) in
      set_ebase (MkEncoderBase (marshaledMap base) (<[typeId := index]> (typeIdWriteMap base)) index);;
      mret (-1)
  end.

(** ** Encoding 1.0 *)

Definition registerObject (v : oref) : M world Z :=
  e ← this_e10;
  base ← get_ebase;
  match toBeMarshaledMap e !! v with
  | Some k => mret k
  | None =>
      match marshaledMap base !! v with
      | Some k => mret k
      | None =>
          let index := to_i32 (e10_objectIdIndex e + 1) in
          set_eversion (W10 (MkEncoder10 (e10_sliceType e) (e10_writeSlice e) index
            (<[v := index]> (toBeMarshaledMap e))));;
          mret index
      end
  end.

Definition write10 (v : option oref) : M world unit :=
  match v with
  | Some o => index ← registerObject o; on_stream (write_Int (to_i32 (- index)))
  | None => on_stream (write_Int 0)
  end.

Definition set_e10_sliceType (t : SliceType) : M world unit :=
  e ← this_e10;
  set_eversion (W10 (MkEncoder10 t (e10_writeSlice e) (e10_objectIdIndex e) (toBeMarshaledMap e))).

Definition startSlice10 (typeId : str) : M world unit :=
  e ← this_e10;
  (if bool_decide (e10_sliceType e = ObjectSlice) then
     index ← registerTypeId typeId;
     if index <? 0 then on_stream (write_Bool false;; write_string typeId false)
     else on_stream (write_Bool true;; writeSize index)
   else on_stream (write_string typeId false));;
  on_stream (write_Int 0);;
  e ← this_e10;
  pos ← on_stream (gets b_size);
  set_eversion (W10 (MkEncoder10 (e10_sliceType e) pos (e10_objectIdIndex e) (toBeMarshaledMap e))).

Definition patch_slice_size (writeSlice : nat) : M (BasicStream Decoder Encoder) unit :=
  s ← get;
  write_Int_at (to_i32 (Z.of_nat (b_size s) - Z.of_nat writeSlice + 4)) (writeSlice - 4).

Definition endSlice10 : M world unit := e ← this_e10; on_stream (patch_slice_size (e10_writeSlice e)).

Definition endInstance10 : M world unit :=
  e ← this_e10;
  (if bool_decide (e10_sliceType e = ObjectSlice) then
     startSlice10 Object_id;; on_stream (writeSize 0);; endSlice10
   else mret tt);;
  set_e10_sliceType NoSlice.

(** ** Encoding 1.1

    [writeInstance] is the member function on the objects that are nested in
    the one that is being written. *)

Variable writeInstance : option oref -> M world unit.

(** [_current] *)
Definition current_w : M world WriteInstance :=
  e ← this_e11; match e11_stack e with c :: _ => mret c | [] => faultM UndefinedBehaviour end.
Definition set_current_w (c : WriteInstance) : M world unit :=
  e ← this_e11;
  match e11_stack e with
  | _ :: stack => set_eversion (W11 (MkEncoder11 (c :: stack) (e11_spare e) (e11_objectIdIndex e)))
  | [] => faultM UndefinedBehaviour
  end.

Definition set_sliceFlags (flags : Z) : M world unit :=
  c ← current_w;
  set_current_w (MkWriteInstance (wi_sliceType c) (wi_firstSlice c) flags (wi_writeSlice c) (wi_sliceFlagsPos c)
    (wi_indirectionMap c) (wi_indirectionTable c)).
Definition add_sliceFlags (flag : Z) : M world unit := c ← current_w; set_sliceFlags (Z.lor (wi_sliceFlags c) flag).
Definition set_indirection (map : gmap oref Z) (table : list (option oref)) : M world unit :=
  c ← current_w;
  set_current_w (MkWriteInstance (wi_sliceType c) (wi_firstSlice c) (wi_sliceFlags c) (wi_writeSlice c)
    (wi_sliceFlagsPos c) map table).

Definition write11 (v : option oref) : M world unit :=
  match v with
  | None => on_stream (writeSize 0)
  | Some o =>
      e ← this_e11;
      format ← current_format;
      match e11_stack e with
      | c :: _ =>
          if bool_decide (format = SlicedFormat) then
            match wi_indirectionMap c !! o with
            | None =>
                let table := wi_indirectionTable c ++ [Some o] in
                let idx := to_i32 (Z.of_nat (length table)) in
                set_indirection (<[o := idx]> (wi_indirectionMap c)) table;;
                on_stream (writeSize idx)
            | Some k => on_stream (writeSize k)
            end
          else writeInstance v
      | [] => writeInstance v
      end
  end.

Definition startSlice11 (typeId : str) (compactId : Z) (last : bool) : M world unit :=
  c ← current_w;
  assertM (bool_decide (wi_indirectionTable c = [] /\ wi_indirectionMap c = ∅));;
  flagsPos ← on_stream (gets b_size);
  format ← current_format;
  let sliced := bool_decide (format = SlicedFormat) in
  set_current_w (MkWriteInstance (wi_sliceType c) (wi_firstSlice c)
    (Z.lor (if sliced then FLAG_HAS_SLICE_SIZE else 0) (if last then FLAG_IS_LAST_SLICE else 0))
    (wi_writeSlice c) flagsPos (wi_indirectionMap c) (wi_indirectionTable c));;
  on_stream (write_Byte (chr 0));;
  (if bool_decide (wi_sliceType c = ObjectSlice) then
     if sliced || wi_firstSlice c then
       if 0 <=? compactId then add_sliceFlags FLAG_HAS_TYPE_ID_COMPACT;; on_stream (writeSize compactId)
       else
         index ← registerTypeId typeId;
         if index <? 0 then add_sliceFlags FLAG_HAS_TYPE_ID_STRING;; on_stream (write_string typeId false)
         else add_sliceFlags FLAG_HAS_TYPE_ID_INDEX;; on_stream (writeSize index)
     else mret tt
   else on_stream (write_string typeId false));;
  (if sliced then on_stream (write_Int 0) else mret tt);;
  pos ← on_stream (gets b_size);
  c ← current_w;
  set_current_w (MkWriteInstance (wi_sliceType c) false (wi_sliceFlags c) pos (wi_sliceFlagsPos c)
    (wi_indirectionMap c) (wi_indirectionTable c)).

Fixpoint write_instances (l : list (option oref)) : M world unit :=
  match l with [] => mret tt | v :: l' => writeInstance v;; write_instances l' end.

Definition endSlice11 : M world unit :=
  c ← current_w;
  (if has (wi_sliceFlags c) FLAG_HAS_OPTIONAL_MEMBERS then on_stream (write_Byte OPTIONAL_END_MARKER) else mret tt);;
  (if has (wi_sliceFlags c) FLAG_HAS_SLICE_SIZE then on_stream (patch_slice_size (wi_writeSlice c)) else mret tt);;
  (if bool_decide (wi_indirectionTable c = []) then mret tt
   else
     format ← current_format;
     assertM (bool_decide (format = SlicedFormat));;
     add_sliceFlags FLAG_HAS_INDIRECTION_TABLE;;
     on_stream (writeSize (to_i32 (Z.of_nat (length (wi_indirectionTable c)))));;
     write_instances (wi_indirectionTable c);;
     set_indirection ∅ []);;
  c ← current_w;
  on_stream (store (wi_sliceFlagsPos c) [chr (wi_sliceFlags c)]).

#[export] Instance encoder_calls : ObjectEncoding world := fun tag format =>
  x ← get_encoder;
  match e_version x with
  | W10 _ => mret false
  | W11 e =>
      wanted ← on_stream (writeOptImpl tag format);
      (match e11_stack e with
       | [] => mret tt
       | _ :: _ => if wanted : bool then add_sliceFlags FLAG_HAS_OPTIONAL_MEMBERS else mret tt
       end);;
      mret wanted
  end.

Definition slice_info (x : sref) : M world SliceInfo :=
  w ← get; match h_slices (w_heap w) !! x with Some i => mret i | None => faultM UndefinedBehaviour end.

Fixpoint write_preserved (l : list sref) : M world unit :=
  match l with
  | [] => mret tt
  | p :: l' =>
      info ← slice_info p;
      startSlice11 (si_typeId info) (si_compactId info) (si_isLastSlice info);;
      on_stream (writeBlob (si_bytes info));;
      (if si_hasOptionalMembers info then add_sliceFlags FLAG_HAS_OPTIONAL_MEMBERS else mret tt);;
      c ← current_w;
      set_indirection (wi_indirectionMap c) (si_objects info);;
      endSlice11;;
      write_preserved l'
  end.

Definition writeSlicedData (slices : list sref) : M world unit :=
  format ← current_format;
  if negb (bool_decide (format = SlicedFormat)) then mret tt else write_preserved slices.

Definition fresh_w : WriteInstance := MkWriteInstance NoSlice false 0 0 0 ∅ [].

Definition startInstance11 (t : SliceType) (data : option (list sref)) : M world unit :=
  e ← this_e11;
  let '(c, spare) := match e11_spare e with c :: spare => (c, spare) | [] => (fresh_w, []) end in
  set_eversion (W11 (MkEncoder11
    (MkWriteInstance t true (wi_sliceFlags c) (wi_writeSlice c) (wi_sliceFlagsPos c) (wi_indirectionMap c)
       (wi_indirectionTable c) :: e11_stack e) spare (e11_objectIdIndex e)));;
  match data with Some slices => writeSlicedData slices | None => mret tt end.

Definition endInstance11 : M world unit :=
  e ← this_e11;
  match e11_stack e with
  | c :: stack => set_eversion (W11 (MkEncoder11 stack (c :: e11_spare e) (e11_objectIdIndex e)))
  | [] => faultM UndefinedBehaviour
  end.

(** ** The virtual functions *)

Definition encoder_write (v : option oref) : M world unit :=
  x ← get_encoder; match e_version x with W10 _ => write10 v | W11 _ => write11 v end.
Definition encoder_startInstance (t : SliceType) (data : option (list sref)) : M world unit :=
  x ← get_encoder; match e_version x with W10 _ => set_e10_sliceType t | W11 _ => startInstance11 t data end.
Definition encoder_endInstance : M world unit :=
  x ← get_encoder; match e_version x with W10 _ => endInstance10 | W11 _ => endInstance11 end.
Definition encoder_startSlice (typeId : str) (compactId : Z) (last : bool) : M world unit :=
  x ← get_encoder; match e_version x with W10 _ => startSlice10 typeId | W11 _ => startSlice11 typeId compactId last end.
Definition encoder_endSlice : M world unit :=
  x ← get_encoder; match e_version x with W10 _ => endSlice10 | W11 _ => endSlice11 end.

(** [BasicStream::write(const ObjectPtr&)] *)
Definition write_object (v : option oref) : M world unit := on_stream initWriteEncaps;; encoder_write v.

(** ** The generated code *)

Definition write_member (m : slot) : M world unit :=
  match m with
  | SData t v => on_stream (write_ty t v)
  | SClass _ p => write_object p
  | SOptional tag t v => write_opt tag t v
  end.

Fixpoint write_members (l : list slot) : M world unit :=
  match l with [] => mret tt | m :: l' => write_member m;; write_members l' end.

(** [__writeImpl], with its upcalls *)
Fixpoint writeImpl (l : list Slice) : M world unit :=
  match l with
  | [] => mret tt
  | x :: l' =>
      encoder_startSlice (sl_typeId x) (sl_compactId x) (match l' with [] => true | _ => false end);;
      write_members (sl_members x);;
      encoder_endSlice;;
      writeImpl l'
  end.

(** [__write] *)
Definition write_instance (t : SliceType) (o : oref) : M world unit :=
  x ← deref o;
  encoder_startInstance t (if in_preserve x then in_slicedData x else None);;
  writeImpl (in_slices x);;
  encoder_endInstance.

(** The body of [writeInstance] *)
Definition writeInstance_body (v : option oref) : M world unit :=
  match v with
  | None => faultM AssertionFailure
  | Some o =>
      base ← get_ebase;
      match marshaledMap base !! o with
      | Some k => on_stream (writeSize k)
      | None =>
          e ← this_e11;
          let index := to_i32 (e11_objectIdIndex e + 1) in
          set_encoder (MkEncoder (MkEncoderBase (<[o := index]> (marshaledMap base)) (typeIdWriteMap base)
            (typeIdWriteIndex base)) (W11 (MkEncoder11 (e11_stack e) (e11_spare e) index)));;
          call_hook (PreMarshal o);;
          on_stream (writeSize 1);;
          write_instance ObjectSlice o
      end
  end.
End encoders.

(** Objects nest as deep as there are objects that are not written yet. *)
Fixpoint writeInstance `{PL : Platform} {DF : Defaults} {AL : Allocator} (fuel : nat) (v : option oref)
    : M world unit :=
  match fuel with
  | O => faultM OutOfFuel
  | S fuel' => writeInstance_body (writeInstance fuel') v
  end.

Section streams.
Context `{PL : Platform} {DF : Defaults} {AL : Allocator} (fuel : nat).

(** The objects of a round in the order of their addresses *)
Definition by_address (m : gmap oref Z) : list (oref * Z) :=
  merge_sort (fun p q => address (fst p) <=? address (fst q)) (map_to_list m).

Fixpoint write_round (l : list (oref * Z)) : M world unit :=
  match l with
  | [] => mret tt
  | (o, index) :: l' =>
      on_stream (write_Int index);;
      call_hook (PreMarshal o);;
      write_instance (writeInstance fuel) ObjectSlice o;;
      write_round l'
  end.

(** [while(!_toBeMarshaledMap.empty())] *)
Fixpoint write_rounds (rounds : nat) : M world unit :=
  e ← this_e10;
  if bool_decide (toBeMarshaledMap e = ∅) then mret tt
  else
    match rounds with
    | O => faultM OutOfFuel
    | S rounds' =>
        base ← get_ebase;
        let saved := toBeMarshaledMap e in
        set_encoder (MkEncoder (MkEncoderBase (marshaledMap base ∪ saved) (typeIdWriteMap base) (typeIdWriteIndex base))
          (W10 (MkEncoder10 (e10_sliceType e) (e10_writeSlice e) (e10_objectIdIndex e) ∅)));;
        on_stream (writeSize (to_i32 (Z.of_nat (size saved))));;
        write_round (by_address saved);;
        write_rounds rounds'
    end.

Definition encoder_writePending : M world unit :=
  x ← get_encoder;
  match e_version x with
  | W10 _ => write_rounds fuel;; on_stream (writeSize 0)
  | W11 _ => mret tt
  end.

(** [EncapsEncoder10::write(const UserException&)] and
    [EncapsEncoder11::write(const UserException&)] *)
Definition encoder_write_exception (o : oref) : M world unit :=
  x ← get_encoder;
  match e_version x with
  | W10 _ =>
      v ← deref o;
      on_stream (write_Bool (in_usesClasses v));;
      write_instance (writeInstance fuel) ExceptionSlice o;;
      if in_usesClasses v then encoder_writePending else mret tt
  | W11 _ => write_instance (writeInstance fuel) ExceptionSlice o
  end.

Definition writeException (o : oref) : M world unit := on_stream initWriteEncaps;; encoder_write_exception o.

(** [write] of a class pointer from outside an object *)
Definition stream_write (v : option oref) : M world unit := write_object (writeInstance fuel) v.
End streams.
