(* ===== verification/ObjectRead.v ===== *)
(** * Objects and exceptions: the decoders

    [EncapsDecoder], [EncapsDecoder10] and [EncapsDecoder11] of
    cpp/src/Ice/BasicStream.cpp. A decoder creates an instance of the most
    derived type it knows and slices off the rest, lets the generated code read
    its members, and patches the pointers that refer to it, those that were
    read before the instance included. *)

From S2P Require Import Prelude Hoare OrderedMap CxxString Buffer Layout Protocol Stream Wire Codecs StreamString.
From S2P Require Import StreamHelpers Encaps OptionalSpec StreamOptional ObjectData ObjectWrite.

(** [CompactIdResolver::resolve] of the application *)
Inductive Resolution : Type :=
  | Resolved (typeId : str)
  | ResolveLocal (ex : exn)
  | ResolveStd (what : str)
  | ResolveOther.

(** The factories a decoder asks: the communicator's object factory manager,
    the static table of generated factories, and the resolver of compact ids.
    A factory creates an object for a type id, or answers null. *)
Class Factories : Type := {
  user_factory : str -> option (str -> option Instance);
  table_factory : str -> option (str -> option Instance);
  exception_factory : str -> option (str -> Instance);
  compactIdResolver : option (Z -> Resolution);
  table_typeId : Z -> str
}.

(** [std::map::insert]: an entry that is there stays. *)
Definition insert_new {V} (k : Z) (v : V) (m : gmap Z V) : gmap Z V :=
  match m !! k with Some _ => m | None => <[k := v]> m end.

Section decoders.
Context `{PL : Platform} {DF : Defaults} {FA : Factories}.

(** ** The decoder of the current encapsulation, its base and its version *)

Definition decoder_of (s : BasicStream Decoder Encoder) : option Decoder :=
  match readEncaps s with e :: _ => re_decoder e | [] => None end.
Definition put_decoder (x : Decoder) (s : BasicStream Decoder Encoder) : BasicStream Decoder Encoder :=
  match readEncaps s with
  | e :: prev => set_read (MkReadEncaps (re_start e) (re_sz e) (re_encoding e) (Some x) :: prev) (preRead s) s
  | [] => s
  end.

Definition get_decoder : M world Decoder :=
  w ← get;
  match decoder_of (w_stream w) with Some x => mret x | None => faultM AssertionFailure end.
Definition set_decoder (x : Decoder) : M world unit := modify (fun w => set_stream (put_decoder x (w_stream w)) w).

Definition get_dbase : M world DecoderBase := x ← get_decoder; mret (d_base x).
Definition mod_dbase (f : DecoderBase -> DecoderBase) : M world unit :=
  x ← get_decoder; set_decoder (MkDecoder (f (d_base x)) (d_version x)).
Definition set_dversion (v : DecoderVersion) : M world unit := x ← get_decoder; set_decoder (MkDecoder (d_base x) v).

Definition this_d10 : M world Decoder10 :=
  x ← get_decoder; match d_version x with V10 d => mret d | V11 _ => faultM UndefinedBehaviour end.
Definition this_d11 : M world Decoder11 :=
  x ← get_decoder; match d_version x with V11 d => mret d | V10 _ => faultM UndefinedBehaviour end.

Definition set_patchMap m (x : DecoderBase) :=
  MkDecoderBase (d_sliceObjects x) m (unmarshaledMap x) (typeIdReadMap x) (typeIdReadIndex x) (objectList x).
Definition set_unmarshaledMap m (x : DecoderBase) :=
  MkDecoderBase (d_sliceObjects x) (patchMap x) m (typeIdReadMap x) (typeIdReadIndex x) (objectList x).
Definition set_typeIds m k (x : DecoderBase) :=
  MkDecoderBase (d_sliceObjects x) (patchMap x) (unmarshaledMap x) m k (objectList x).
Definition set_objectList l (x : DecoderBase) :=
  MkDecoderBase (d_sliceObjects x) (patchMap x) (unmarshaledMap x) (typeIdReadMap x) (typeIdReadIndex x) l.

(** ** [EncapsDecoder] *)

Definition readTypeId (isIndex : bool) : M world str :=
  if isIndex then
    index ← on_stream readSize;
    base ← get_dbase;
    match typeIdReadMap base !! index with
    | Some typeId => mret typeId
    | None => throw UnmarshalOutOfBoundsException
    end
  else
    typeId ← on_stream (read_string false);
    mod_dbase (fun x =>
      let k := to_i32 (typeIdReadIndex x + 1) in set_typeIds (insert_new k typeId (typeIdReadMap x)) k x);;
    mret typeId.

(** [if(factory) v = factory->create(typeId)] *)
Definition create_with (factory : option (str -> option Instance)) (typeId : str) : M world (option oref) :=
  match factory ≫= (fun create => create typeId) with
  | Some x => o ← allocate x; mret (Some o)
  | None => mret None
  end.

Definition newInstance (typeId : str) : M world (option oref) :=
  v ← create_with (user_factory typeId) typeId;
  match v with
  | Some _ => mret v
  | None =>
      v ← create_with (user_factory []) typeId;
      match v with
      | Some _ => mret v
      | None =>
          match table_factory typeId with
          | None => mret None
          | Some _ =>
              v ← create_with (table_factory typeId) typeId;
              assertM (bool_decide (is_Some v));;
              mret v
          end
      end
  end.

Definition addPatchEntry (index : Z) (p : Patch) : M world unit :=
  assertM (0 <? index);;
  base ← get_dbase;
  match unmarshaledMap base !! index with
  | Some v => patchHandle p (Some v)
  | None =>
      mod_dbase (fun x =>
        set_patchMap (<[index := default [] (patchMap x !! index) ++ [p]]> (patchMap x)) x)
  end.

Fixpoint patch_all (l : list Patch) (v : oref) : M world unit :=
  match l with [] => mret tt | p :: l' => patchHandle p (Some v);; patch_all l' v end.

Fixpoint post_unmarshal (l : list oref) : M world unit :=
  match l with [] => mret tt | v :: l' => call_hook (PostUnmarshal v);; post_unmarshal l' end.

(** ** The generated code that reads an object

    [instance_read t o] is [__read] of the object or exception [o]; it is
    defined below, over the virtual functions of the decoder. *)

Section unmarshal.
Variable instance_read : SliceType -> oref -> M world unit.

Definition unmarshal (index : Z) (v : oref) : M world unit :=
  mod_dbase (fun x => set_unmarshaledMap (insert_new index v (unmarshaledMap x)) x);;
  instance_read ObjectSlice v;;
  base ← get_dbase;
  (match patchMap base !! index with
   | Some l =>
       assertM (0 <? Z.of_nat (length l));;
       patch_all l v;;
       mod_dbase (fun x => set_patchMap (delete index (patchMap x)) x)
   | None => mret tt
   end);;
  base ← get_dbase;
  if bool_decide (objectList base = []) && bool_decide (patchMap base = ∅) then call_hook (PostUnmarshal v)
  else
    mod_dbase (fun x => set_objectList (objectList x ++ [v]) x);;
    if bool_decide (patchMap base = ∅) then
      base ← get_dbase;
      post_unmarshal (objectList base);;
      mod_dbase (set_objectList [])
    else mret tt.
End unmarshal.

(** ** Encoding 1.0 *)

Definition invalid_object_id : exn := MarshalException (lit "invalid object id").
Definition missing_instance : exn := MarshalException (lit "index for class received, but no instance").

Definition read10 (patch : option Patch) : M world unit :=
  match patch with
  | None => faultM AssertionFailure
  | Some p =>
      index ← on_stream read_Int;
      if 0 <? index then throw invalid_object_id
      else
        let index := to_i32 (- index) in
        if index =? 0 then patchHandle p None else addPatchEntry index p
  end.

Definition set_d10 (f : Decoder10 -> Decoder10) : M world unit := d ← this_d10; set_dversion (V10 (f d)).

Definition startInstance10 (t : SliceType) : M world unit :=
  d ← this_d10;
  assertM (bool_decide (d10_sliceType d = t));;
  set_d10 (fun d => MkDecoder10 (d10_sliceType d) true (d10_sliceSize d) (d10_typeId d)).

Definition startSlice_d10 : M world str :=
  d ← this_d10;
  if d10_skipFirstSlice d then
    set_d10 (fun d => MkDecoder10 (d10_sliceType d) false (d10_sliceSize d) (d10_typeId d));;
    mret (d10_typeId d)
  else
    typeId ← (if bool_decide (d10_sliceType d = ObjectSlice) then
      isIndex ← on_stream read_Bool; readTypeId isIndex
    else on_stream (read_string false));
    set_d10 (fun d => MkDecoder10 (d10_sliceType d) (d10_skipFirstSlice d) (d10_sliceSize d) typeId);;
    size ← on_stream read_Int;
    set_d10 (fun d => MkDecoder10 (d10_sliceType d) (d10_skipFirstSlice d) size (d10_typeId d));;
    if size <? 4 then throw UnmarshalOutOfBoundsException else mret typeId.

Definition endInstance_d10 : M world unit :=
  d ← this_d10;
  (if bool_decide (d10_sliceType d = ObjectSlice) then
     startSlice_d10;;
     sz ← on_stream readSize;
     if negb (sz =? 0) then throw (MarshalException (lit "invalid Object slice")) else mret tt
   else mret tt);;
  set_d10 (fun d => MkDecoder10 NoSlice (d10_skipFirstSlice d) (d10_sliceSize d) (d10_typeId d)).

Definition skipSlice10 : M world unit :=
  d ← this_d10;
  assertM (4 <=? d10_sliceSize d);;
  on_stream (skip (d10_sliceSize d - 4)).

(** ** Encoding 1.1

    [readInstance index patch] is the member function on the objects that are
    nested in the one that is being read; [fuel] bounds the optional values of
    a slice. *)

Variable readInstance : Z -> option Patch -> M world Z.
Variable fuel : nat.

Definition current_r : M world ReadInstance :=
  d ← this_d11; match d11_stack d with c :: _ => mret c | [] => faultM UndefinedBehaviour end.
Definition mod_current_r (f : ReadInstance -> ReadInstance) : M world unit :=
  d ← this_d11;
  match d11_stack d with
  | c :: stack => set_dversion (V11 (MkDecoder11 (f c :: stack) (d11_spare d) (d11_objectIdIndex d)))
  | [] => faultM UndefinedBehaviour
  end.

Definition set_ri_skip b c := MkReadInstance (ri_sliceType c) b (ri_slices c) (ri_indirectionTables c)
  (ri_sliceFlags c) (ri_sliceSize c) (ri_typeId c) (ri_compactId c) (ri_indirectPatchList c).
Definition set_ri_slices l t c := MkReadInstance (ri_sliceType c) (ri_skipFirstSlice c) l t
  (ri_sliceFlags c) (ri_sliceSize c) (ri_typeId c) (ri_compactId c) (ri_indirectPatchList c).
Definition set_ri_flags x c := MkReadInstance (ri_sliceType c) (ri_skipFirstSlice c) (ri_slices c)
  (ri_indirectionTables c) x (ri_sliceSize c) (ri_typeId c) (ri_compactId c) (ri_indirectPatchList c).
Definition set_ri_size x c := MkReadInstance (ri_sliceType c) (ri_skipFirstSlice c) (ri_slices c)
  (ri_indirectionTables c) (ri_sliceFlags c) x (ri_typeId c) (ri_compactId c) (ri_indirectPatchList c).
Definition set_ri_typeId x c := MkReadInstance (ri_sliceType c) (ri_skipFirstSlice c) (ri_slices c)
  (ri_indirectionTables c) (ri_sliceFlags c) (ri_sliceSize c) x (ri_compactId c) (ri_indirectPatchList c).
Definition set_ri_id x y c := MkReadInstance (ri_sliceType c) (ri_skipFirstSlice c) (ri_slices c)
  (ri_indirectionTables c) (ri_sliceFlags c) (ri_sliceSize c) x y (ri_indirectPatchList c).
Definition set_ri_patches l c := MkReadInstance (ri_sliceType c) (ri_skipFirstSlice c) (ri_slices c)
  (ri_indirectionTables c) (ri_sliceFlags c) (ri_sliceSize c) (ri_typeId c) (ri_compactId c) l.

Definition read11 (patch : option Patch) : M world unit :=
  index ← on_stream readSize;
  if index <? 0 then throw invalid_object_id
  else if index =? 0 then match patch with Some p => patchHandle p None | None => mret tt end
  else
    d ← this_d11;
    let nested := (readInstance index patch;; mret tt) in
    match d11_stack d with
    | c :: _ =>
        if has (ri_sliceFlags c) FLAG_HAS_INDIRECTION_TABLE then
          match patch with
          | Some p =>
              mod_current_r (fun c => set_ri_patches (ri_indirectPatchList c ++ [(to_i32 (index - 1), p)]) c)
          | None => mret tt
          end
        else nested
    | [] => nested
    end.

Definition fresh_r : ReadInstance := MkReadInstance NoSlice false [] [] 0 0 [] 0 [].

Definition push (t : SliceType) : M world unit :=
  d ← this_d11;
  let '(c, spare) := match d11_spare d with c :: spare => (c, spare) | [] => (fresh_r, []) end in
  set_dversion (V11 (MkDecoder11
    (MkReadInstance t false (ri_slices c) (ri_indirectionTables c) (ri_sliceFlags c) (ri_sliceSize c) (ri_typeId c)
       (ri_compactId c) (ri_indirectPatchList c) :: d11_stack d) spare (d11_objectIdIndex d))).

Definition startInstance_d11 (t : SliceType) : M world unit :=
  c ← current_r;
  assertM (bool_decide (ri_sliceType c = t));;
  mod_current_r (set_ri_skip true).

Definition startSlice_d11 : M world str :=
  c ← current_r;
  if ri_skipFirstSlice c then mod_current_r (set_ri_skip false);; mret (ri_typeId c)
  else
    v ← on_stream read_Byte;
    let flags := ord v in
    mod_current_r (set_ri_flags flags);;
    (if bool_decide (ri_sliceType c = ObjectSlice) then
       if Z.land flags FLAG_HAS_TYPE_ID_COMPACT =? FLAG_HAS_TYPE_ID_COMPACT then
         mod_current_r (set_ri_typeId []);;
         compactId ← on_stream readSize;
         mod_current_r (set_ri_id [] compactId)
       else if has flags (Z.lor FLAG_HAS_TYPE_ID_STRING FLAG_HAS_TYPE_ID_INDEX) then
         typeId ← readTypeId (has flags FLAG_HAS_TYPE_ID_INDEX);
         mod_current_r (set_ri_id typeId (-1))
       else mod_current_r (set_ri_id [] (-1))
     else
       typeId ← on_stream (read_string false);
       mod_current_r (set_ri_typeId typeId));;
    (if has flags FLAG_HAS_SLICE_SIZE then
       size ← on_stream read_Int;
       mod_current_r (set_ri_size size);;
       if size <? 4 then throw UnmarshalOutOfBoundsException else mret tt
     else mod_current_r (set_ri_size 0));;
    c ← current_r;
    mret (ri_typeId c).

(** The indices of an indirection table of [n] entries *)
Fixpoint read_table (n : nat) : M world (list Z) :=
  match n with
  | O => mret []
  | S n' =>
      sz ← on_stream readSize;
      index ← readInstance sz None;
      l ← read_table n';
      mret (index :: l)
  end.

Fixpoint resolve_indirect (table : list Z) (l : list (Z * Patch)) : M world unit :=
  match l with
  | [] => mret tt
  | (index, p) :: l' =>
      assertM (0 <=? index);;
      if to_i32 (Z.of_nat (length table)) <=? index
      then throw (MarshalException (lit "indirection out of range"))
      else
        match table !! Z.to_nat index with
        | Some k => addPatchEntry k p
        | None => faultM UndefinedBehaviour
        end;;
        resolve_indirect table l'
  end.

(** [read(0, 0)] on the decoder, as [skipOpt] calls it *)
Definition decoder_read_patch (patch : option Patch) : M world unit :=
  x ← get_decoder; match d_version x with V10 _ => read10 patch | V11 _ => read11 patch end.

Definition fuelled_readOpt (read0 : M world unit) (readTag : Z) (format : OptionalFormat) : M world bool :=
  let DC := {| decoder_read := read0; decoder_readOpt := fun _ _ => mret false |} in
  x ← get_decoder;
  match d_version x with
  | V10 _ => mret false
  | V11 d =>
      match d11_stack d with
      | c :: _ =>
          if has (ri_sliceFlags c) FLAG_HAS_OPTIONAL_MEMBERS then readOptImpl (OC:=DC) fuel readTag format
          else mret false
      | [] => readOptImpl (OC:=DC) fuel readTag format
      end
  end.

#[export] Instance decoder_calls : ObjectDecoding world := {|
  decoder_read := decoder_read_patch None;
  decoder_readOpt := fuelled_readOpt (decoder_read_patch None)
|}.

Definition endSlice_d11 : M world unit :=
  c ← current_r;
  (if has (ri_sliceFlags c) FLAG_HAS_OPTIONAL_MEMBERS then skipOpts fuel else mret tt);;
  if has (ri_sliceFlags c) FLAG_HAS_INDIRECTION_TABLE then
    n ← on_stream (readAndCheckSeqSize 1);
    table ← read_table (Z.to_nat n);
    if bool_decide (table = []) then throw (MarshalException (lit "empty indirection table"))
    else
      c ← current_r;
      if bool_decide (ri_indirectPatchList c = []) && negb (has (ri_sliceFlags c) FLAG_HAS_OPTIONAL_MEMBERS)
      then throw (MarshalException (lit "no references to indirection table"))
      else
        resolve_indirect table (ri_indirectPatchList c);;
        mod_current_r (set_ri_patches [])
  else mret tt.

(** [mostDerivedId.substr(2)] of a scoped name *)
Definition unscoped (typeId : str) : str :=
  match typeId with
  | ":"%char :: ":"%char :: (_ :: _ as rest) => rest
  | _ => typeId
  end.

(** [vector<Byte>(start, stop)] *)
Definition range (start stop : Z) : M (BasicStream Decoder Encoder) (list byte) :=
  if stop <? start then faultM UndefinedBehaviour else bytes_at start (Z.to_nat (stop - start)).

Definition add_slice (info : SliceInfo) : M world sref :=
  w ← get;
  mod_heap (fun h => set_slices (h_slices h ++ [info]) h);;
  mret (length (h_slices (w_heap w))).

Definition skipSlice11 : M world unit :=
  c ← current_r;
  start ← on_stream (gets i);
  (if has (ri_sliceFlags c) FLAG_HAS_SLICE_SIZE then
     assertM (4 <=? ri_sliceSize c);;
     on_stream (skip (ri_sliceSize c - 4))
   else if bool_decide (ri_sliceType c = ObjectSlice) then
     throw (NoObjectFactoryException
       (lit "compact format prevents slicing (the sender should use the sliced format instead)") (ri_typeId c))
   else throw (UnknownUserException (unscoped (ri_typeId c))));;
  let hasOptional := has (ri_sliceFlags c) FLAG_HAS_OPTIONAL_MEMBERS in
  stop ← on_stream (gets i);
  bytes ← on_stream (range start (if hasOptional then stop - 1 else stop));
  table ← (if has (ri_sliceFlags c) FLAG_HAS_INDIRECTION_TABLE then
      n ← on_stream (readAndCheckSeqSize 1); read_table (Z.to_nat n)
    else mret []);
  info ← add_slice (MkSliceInfo (ri_typeId c) (ri_compactId c) bytes [] hasOptional
    (has (ri_sliceFlags c) FLAG_IS_LAST_SLICE));
  mod_current_r (fun c => set_ri_slices (ri_slices c ++ [info]) (ri_indirectionTables c ++ [table]) c).

Fixpoint patch_table (x : sref) (table : list Z) (k : nat) : M world unit :=
  match table with
  | [] => mret tt
  | index :: table' => addPatchEntry index (MkPatch Object_id (ASlice x k));; patch_table x table' (S k)
  end.

Definition resize_objects (n : nat) (x : SliceInfo) : SliceInfo :=
  MkSliceInfo (si_typeId x) (si_compactId x) (si_bytes x) (take n (si_objects x ++ replicate n None))
    (si_hasOptionalMembers x) (si_isLastSlice x).

Fixpoint patch_slices (slices : list sref) (tables : list (list Z)) : M world unit :=
  match slices, tables with
  | x :: slices', table :: tables' =>
      mod_heap (fun h => set_slices (alter (resize_objects (length table)) x (h_slices h)) h);;
      patch_table x table 0;;
      patch_slices slices' tables'
  | _, _ => mret tt
  end.

Definition readSlicedData : M world (option (list sref)) :=
  c ← current_r;
  if bool_decide (ri_slices c = []) then mret None
  else
    assertM (length (ri_slices c) =? length (ri_indirectionTables c))%nat;;
    patch_slices (ri_slices c) (ri_indirectionTables c);;
    mret (Some (ri_slices c)).

Definition endInstance_d11 (preserve : bool) : M world (option (list sref)) :=
  slicedData ← (if preserve then readSlicedData else mret None);
  d ← this_d11;
  match d11_stack d with
  | c :: stack =>
      set_dversion (V11 (MkDecoder11 stack (set_ri_slices [] [] c :: d11_spare d) (d11_objectIdIndex d)));;
      mret slicedData
  | [] => faultM UndefinedBehaviour
  end.

(** ** The virtual functions *)

Definition decoder_startInstance (t : SliceType) : M world unit :=
  x ← get_decoder; match d_version x with V10 _ => startInstance10 t | V11 _ => startInstance_d11 t end.
Definition decoder_endInstance (preserve : bool) : M world (option (list sref)) :=
  x ← get_decoder; match d_version x with V10 _ => endInstance_d10;; mret None | V11 _ => endInstance_d11 preserve end.
Definition decoder_startSlice : M world str :=
  x ← get_decoder; match d_version x with V10 _ => startSlice_d10 | V11 _ => startSlice_d11 end.
Definition decoder_endSlice : M world unit :=
  x ← get_decoder; match d_version x with V10 _ => mret tt | V11 _ => endSlice_d11 end.

(** [BasicStream::read] with a patch function *)
Definition read_object (p : Patch) : M world unit := on_stream initReadEncaps;; decoder_read_patch (Some p).

(** ** The generated code *)

Definition read_member (o : oref) (n k : nat) (m : slot) : M world unit :=
  match m with
  | SData t _ => v ← on_stream (read_ty t); store_slot o n k (SData t v)
  | SClass declared _ => read_object (MkPatch declared (AMember o n k))
  | SOptional tag t _ => v ← read_opt fuel tag t; store_slot o n k (SOptional tag t v)
  end.

Fixpoint read_members (o : oref) (n k : nat) (l : list slot) : M world unit :=
  match l with [] => mret tt | m :: l' => read_member o n k m;; read_members o n (S k) l' end.

(** [__readImpl], with its upcalls *)
Fixpoint readImpl (o : oref) (n : nat) (l : list Slice) : M world unit :=
  match l with
  | [] => mret tt
  | x :: l' =>
      decoder_startSlice;;
      read_members o n 0 (sl_members x);;
      decoder_endSlice;;
      readImpl o (S n) l'
  end.

(** [__read] *)
Definition read_instance (t : SliceType) (o : oref) : M world unit :=
  x ← deref o;
  decoder_startInstance t;;
  readImpl o 0 (in_slices x);;
  slicedData ← decoder_endInstance (in_preserve x);
  if in_preserve x then update_object o (set_slicedData slicedData) else mret tt.

(** ** Reading instances *)

(** The loop of [EncapsDecoder10::readInstance] *)
Fixpoint find_instance10 (slices : nat) (mostDerivedId : str) : M world oref :=
  match slices with
  | O => faultM OutOfFuel
  | S slices' =>
      d ← this_d10;
      if bool_decide (d10_typeId d = Object_id) then throw (NoObjectFactoryException [] mostDerivedId)
      else
        v ← newInstance (d10_typeId d);
        match v with
        | Some o => mret o
        | None =>
            base ← get_dbase;
            if negb (d_sliceObjects base)
            then throw (NoObjectFactoryException (lit "object slicing is disabled") (d10_typeId d))
            else skipSlice10;; startSlice_d10;; find_instance10 slices' mostDerivedId
        end
  end.

Definition readInstance10 : M world unit :=
  index ← on_stream read_Int;
  if index <=? 0 then throw invalid_object_id
  else
    set_d10 (fun d => MkDecoder10 ObjectSlice false (d10_sliceSize d) (d10_typeId d));;
    mostDerivedId ← startSlice_d10;
    v ← find_instance10 fuel mostDerivedId;
    unmarshal read_instance index v.

Definition resolve_compactId (compactId : Z) : M world str :=
  typeId ← (match compactIdResolver with
    | None => mret []
    | Some resolve =>
        match resolve compactId with
        | Resolved typeId => mret typeId
        | ResolveLocal ex => throw ex
        | ResolveStd what => throw (MarshalException (lit "exception in CompactIdResolver for ID " ++
            show_int compactId ++ match what with [] => [] | _ => ":"%char :: chr 10 :: what end))
        | ResolveOther => throw (MarshalException (lit "unknown exception in CompactIdResolver for ID " ++ show_int compactId))
        end
    end);
  mret (match typeId with [] => table_typeId compactId | _ => typeId end).

(** The loop of [EncapsDecoder11::readInstance] *)
Fixpoint find_instance11 (slices : nat) (mostDerivedId : str) : M world oref :=
  match slices with
  | O => faultM OutOfFuel
  | S slices' =>
      c ← current_r;
      (if 0 <=? ri_compactId c then
         mod_current_r (set_ri_typeId []);;
         typeId ← resolve_compactId (ri_compactId c);
         mod_current_r (set_ri_typeId typeId)
       else mret tt);;
      c ← current_r;
      v ← (match ri_typeId c with [] => mret None | _ => newInstance (ri_typeId c) end);
      match v with
      | Some o => mret o
      | None =>
          base ← get_dbase;
          if negb (d_sliceObjects base)
          then throw (NoObjectFactoryException (lit "object slicing is disabled") (ri_typeId c))
          else
            skipSlice11;;
            c ← current_r;
            if has (ri_sliceFlags c) FLAG_IS_LAST_SLICE then
              v ← newInstance Object_id;
              match v with Some o => mret o | None => allocate (UnknownSlicedObject mostDerivedId) end
            else startSlice_d11;; find_instance11 slices' mostDerivedId
      end
  end.

(** The body of [EncapsDecoder11::readInstance] *)
Definition readInstance11_body (index : Z) (patch : option Patch) : M world Z :=
  assertM (0 <? index);;
  if 1 <? index then
    match patch with Some p => addPatchEntry index p | None => mret tt end;;
    mret index
  else
    push ObjectSlice;;
    d ← this_d11;
    let index := to_i32 (d11_objectIdIndex d + 1) in
    set_dversion (V11 (MkDecoder11 (d11_stack d) (d11_spare d) index));;
    mostDerivedId ← startSlice_d11;
    v ← find_instance11 fuel mostDerivedId;
    unmarshal read_instance index v;;
    d ← this_d11;
    base ← get_dbase;
    (if bool_decide (d11_stack d = []) && negb (bool_decide (patchMap base = ∅)) then throw missing_instance
     else mret tt);;
    match patch with Some p => patchHandle p (Some v) | None => mret tt end;;
    mret index.
End decoders.

(** Objects nest at most as deep as they are on the wire. *)
Fixpoint readInstance11 `{PL : Platform} {DF : Defaults} {FA : Factories} (depth fuel : nat) (index : Z)
    (patch : option Patch) : M world Z :=
  match depth with
  | O => faultM OutOfFuel
  | S depth' => readInstance11_body (readInstance11 depth' fuel) fuel index patch
  end.

Section streams.
Context `{PL : Platform} {DF : Defaults} {FA : Factories} (depth fuel : nat).

Definition read_instance_at (t : SliceType) (o : oref) : M world unit := read_instance (readInstance11 depth fuel) fuel t o.

(** ** The objects behind the parameters, with encoding 1.0 *)

Fixpoint read_round (num : nat) : M world unit :=
  match num with O => mret tt | S num' => readInstance10 (readInstance11 depth fuel) fuel;; read_round num' end.

(** [do ... while(num)] *)
Fixpoint read_rounds (rounds : nat) : M world unit :=
  match rounds with
  | O => faultM OutOfFuel
  | S rounds' =>
      num ← on_stream readSize;
      read_round (Z.to_nat num);;
      if num =? 0 then mret tt else read_rounds rounds'
  end.

Definition readPendingObjects10 : M world unit :=
  read_rounds fuel;;
  base ← get_dbase;
  if bool_decide (patchMap base = ∅) then mret tt else throw missing_instance.

Definition decoder_readPending : M world unit :=
  x ← get_decoder; match d_version x with V10 _ => readPendingObjects10 | V11 _ => mret tt end.

(** ** User exceptions

    [throwException] answers the exception that it throws. *)

(** [exceptionFactory->createAndThrow(typeId)] and the handler that reads it *)
Definition throw_read (create : str -> Instance) (typeId : str) (after : M world unit) : M world oref :=
  o ← allocate (create typeId);
  read_instance_at ExceptionSlice o;;
  after;;
  mret o.

Definition find_factory (factory : option (str -> Instance)) (typeId : str) : option (str -> Instance) :=
  match factory with Some f => Some f | None => exception_factory typeId end.

Fixpoint throw_slices10 (slices : nat) (factory : option (str -> Instance)) (usesClasses : bool) : M world oref :=
  match slices with
  | O => faultM OutOfFuel
  | S slices' =>
      d ← this_d10;
      match find_factory factory (d10_typeId d) with
      | Some create => throw_read create (d10_typeId d) (if usesClasses then readPendingObjects10 else mret tt)
      | None => skipSlice10;; startSlice_d10;; throw_slices10 slices' factory usesClasses
      end
  end.

Definition throwException10 (factory : option (str -> Instance)) : M world oref :=
  d ← this_d10;
  assertM (bool_decide (d10_sliceType d = NoSlice));;
  usesClasses ← on_stream read_Bool;
  set_d10 (fun d => MkDecoder10 ExceptionSlice false (d10_sliceSize d) (d10_typeId d));;
  startSlice_d10;;
  throw_slices10 fuel factory usesClasses.

Fixpoint throw_slices11 (slices : nat) (factory : option (str -> Instance)) (mostDerivedId : str) : M world oref :=
  match slices with
  | O => faultM OutOfFuel
  | S slices' =>
      c ← current_r;
      match find_factory factory (ri_typeId c) with
      | Some create => throw_read create (ri_typeId c) (mret tt)
      | None =>
          skipSlice11 (readInstance11 depth fuel);;
          c ← current_r;
          if has (ri_sliceFlags c) FLAG_IS_LAST_SLICE then throw (UnknownUserException (unscoped mostDerivedId))
          else startSlice_d11;; throw_slices11 slices' factory mostDerivedId
      end
  end.

Definition throwException11 (factory : option (str -> Instance)) : M world oref :=
  d ← this_d11;
  assertM (bool_decide (d11_stack d = []));;
  push ExceptionSlice;;
  mostDerivedId ← startSlice_d11;
  throw_slices11 fuel factory mostDerivedId.

Definition throwException (factory : option (str -> Instance)) : M world oref :=
  on_stream initReadEncaps;;
  x ← get_decoder;
  match d_version x with V10 _ => throwException10 factory | V11 _ => throwException11 factory end.

(** ** The operations of the stream on classes *)

#[export] Instance ice_pending {AL : Allocator} : PendingObjects world := {|
  decoder_readPendingObjects := decoder_readPending;
  encoder_writePendingObjects := encoder_writePending fuel
|}.

(** [read] of a class pointer of the static type [declared] into a variable *)
Definition stream_read (declared : str) (p : nat) : M world unit :=
  read_object (readInstance11 depth fuel) (MkPatch declared (AParam p)).
End streams.
