(* ===== verification/ObjectTypes.v ===== *)
(** * Class pointers keep their types

    Whatever bytes a decoder is given, a class pointer of the program is null
    or refers to an object that is an instance of its static type: a pointer
    is only assigned by [patchHandle], and every patch that is waiting for an
    object remembers the type of the pointer at its address. *)

From S2P Require Import Prelude Hoare OrderedMap CxxString Buffer Layout Protocol Stream Wire Codecs StreamString.
From S2P Require Import StreamHelpers StreamSpec Encaps OptionalSpec StreamOptional ObjectData ObjectWrite ObjectRead.

(** ** The shape of an object: what reading does not change *)

Inductive kind : Type := KData (t : ty) | KClass (declared : str) | KOptional (tag : Z) (t : ty).

Definition slot_kind (m : slot) : kind :=
  match m with SData t _ => KData t | SClass d _ => KClass d | SOptional tag t _ => KOptional tag t end.
Definition slice_shape (l : Slice) : str * list kind := (sl_typeId l, slot_kind <$> sl_members l).
Definition shape (x : Instance) : list (str * list kind) := slice_shape <$> in_slices x.

Lemma shape_is_a x x' d : shape x = shape x' -> is_a x d = is_a x' d.
Proof.
  intros H. unfold is_a, ice_ids. assert (sl_typeId <$> in_slices x = sl_typeId <$> in_slices x') as ->; [|done].
  apply (f_equal (fmap fst)) in H. unfold shape in H. by rewrite <- !list_fmap_compose in H.
Qed.

Lemma alter_same {A B} (g : A -> B) f i (l : list A) : (forall x, l !! i = Some x -> g (f x) = g x) ->
  g <$> alter f i l = g <$> l.
Proof.
  intros H. apply list_eq. intros j. rewrite !list_lookup_fmap. destruct (decide (i = j)) as [->|Hne].
  - rewrite list_lookup_alter_eq. destruct (l !! j) eqn:E; cbn; [|done]. by rewrite H.
  - by rewrite list_lookup_alter_ne.
Qed.

(** Member [k] of slice [n] *)
Definition slot_at (x : Instance) (n k : nat) : option slot := l ← in_slices x !! n; sl_members l !! k.

Lemma set_member_shape k m l : (slot_kind <$> sl_members l !! k) = Some (slot_kind m) ->
  slice_shape (set_member k m l) = slice_shape l.
Proof.
  intros H. unfold slice_shape. cbn. f_equal. rewrite list_fmap_insert. apply list_insert_id.
  by rewrite list_lookup_fmap.
Qed.

Lemma set_slot_shape n k m x : slot_kind <$> slot_at x n k = Some (slot_kind m) -> shape (set_slot n k m x) = shape x.
Proof.
  intros H. unfold shape. cbn. apply alter_same. intros l Hl. apply set_member_shape.
  unfold slot_at in H. by rewrite Hl in H.
Qed.

Lemma assign_slot_shape n k v x : shape (assign_slot n k v x) = shape x.
Proof.
  unfold shape. cbn. apply alter_same. intros l _. unfold slice_shape. cbn. f_equal. apply alter_same.
  by intros [].
Qed.

(** ** Well-typed heaps *)

Definition ref_ok (h : Heap) (declared : str) (v : option oref) : Prop :=
  match v with None => True | Some o => exists x, h_objects h !! o = Some x /\ is_a x declared = true end.

Definition slot_ok (h : Heap) (m : slot) : Prop :=
  match m with SClass declared p => ref_ok h declared p | _ => True end.
Definition object_ok (h : Heap) (x : Instance) : Prop :=
  Forall (fun l => Forall (slot_ok h) (sl_members l)) (in_slices x).

Record heap_typed (h : Heap) : Prop := {
  typed_objects : Forall (object_ok h) (h_objects h);
  typed_slices : Forall (fun x => Forall (ref_ok h Object_id) (si_objects x)) (h_slices h);
  typed_params : Forall (fun p => ref_ok h (pa_declared p) (pa_value p)) (h_params h)
}.

(** The objects and the variables of [h] are still there, with their types. *)
Record grows (h h' : Heap) : Prop := {
  grows_object o x : h_objects h !! o = Some x -> exists x', h_objects h' !! o = Some x' /\ shape x' = shape x;
  grows_param p : pa_declared <$> h_params h' !! p = pa_declared <$> h_params h !! p
}.

#[export] Instance grows_preorder : PreOrder grows.
Proof.
  split.
  - intros h. split; [eauto|done].
  - intros h1 h2 h3 [H1 P1] [H2 P2]. split.
    + intros o x Hx. destruct (H1 o x Hx) as (x' & Hx' & E1). destruct (H2 o x' Hx') as (x'' & Hx'' & E2).
      exists x''. split; [done|congruence].
    + intros p. by rewrite P2.
Qed.

Lemma ref_ok_grows h h' d v : grows h h' -> ref_ok h d v -> ref_ok h' d v.
Proof.
  intros [Ho _]. destruct v as [o|]; [|done]. intros (x & Hx & Ha). destruct (Ho o x Hx) as (x' & Hx' & E).
  exists x'. split; [done|]. by rewrite (shape_is_a x' x).
Qed.

Lemma slot_ok_grows h h' m : grows h h' -> slot_ok h m -> slot_ok h' m.
Proof. intros Hg. destruct m; [done|by apply ref_ok_grows|done]. Qed.

Lemma object_ok_grows h h' x : grows h h' -> object_ok h x -> object_ok h' x.
Proof.
  intros Hg. unfold object_ok. intros H. eapply Forall_impl; [exact H|]. intros l Hl.
  eapply Forall_impl; [exact Hl|]. intros m. by apply slot_ok_grows.
Qed.

(** The address of a patch holds a class pointer of the type of the patch. *)
Definition patch_ok (h : Heap) (p : Patch) : Prop :=
  match pt_addr p with
  | AMember o n k => exists x, h_objects h !! o = Some x /\
      slot_kind <$> slot_at x n k = Some (KClass (pt_declared p))
  | ASlice _ _ => pt_declared p = Object_id
  | AParam q => pa_declared <$> h_params h !! q = Some (pt_declared p)
  end.

Lemma slot_kind_at x x' n k : shape x = shape x' -> slot_kind <$> slot_at x n k = slot_kind <$> slot_at x' n k.
Proof.
  intros H. assert (forall y, slot_kind <$> slot_at y n k = (shape y !! n) ≫= (fun l => l.2 !! k)) as Hs.
  { intros y. unfold slot_at, shape. rewrite list_lookup_fmap. destruct (in_slices y !! n); cbn; [|done].
    by rewrite list_lookup_fmap. }
  by rewrite !Hs, H.
Qed.

Lemma patch_ok_grows h h' p : grows h h' -> patch_ok h p -> patch_ok h' p.
Proof.
  intros [Ho Hp]. unfold patch_ok. destruct (pt_addr p) as [o n k|x k|q].
  - intros (x & Hx & E). destruct (Ho o x Hx) as (x' & Hx' & Es). exists x'. split; [done|].
    by rewrite (slot_kind_at x' x).
  - done.
  - by rewrite Hp.
Qed.

(** ** Assigning pointers and members *)

Lemma objects_grow f o h : (forall x, h_objects h !! o = Some x -> shape (f x) = shape x) ->
  grows h (set_objects (alter f o (h_objects h)) h).
Proof.
  intros Hf. split; [|done]. intros o' x Hx. cbn. destruct (decide (o = o')) as [->|Hne].
  - exists (f x). rewrite list_lookup_alter_eq, Hx. auto.
  - exists x. by rewrite list_lookup_alter_ne.
Qed.

Lemma objects_typed f o h : heap_typed h -> (forall x, h_objects h !! o = Some x -> shape (f x) = shape x) ->
  (forall x h', h_objects h !! o = Some x -> grows h h' -> object_ok h' x -> object_ok h' (f x)) ->
  heap_typed (set_objects (alter f o (h_objects h)) h).
Proof.
  intros [H1 H2 H3] Hf Hok. pose proof (objects_grow f o h Hf) as Hg. split.
  - cbn. apply Forall_alter.
    + eapply Forall_impl; [exact H1|]. intros x. by apply object_ok_grows.
    + intros x Hx. by apply Hok.
  - eapply Forall_impl; [exact H2|]. intros x Hx. eapply Forall_impl; [exact Hx|]. intros v. by apply ref_ok_grows.
  - eapply Forall_impl; [exact H3|]. intros p. by apply ref_ok_grows.
Qed.

Lemma assign_grows a v h : grows h (assign a v h).
Proof.
  destruct a as [o n k|x k|p]; cbn.
  - apply objects_grow. intros x _. apply assign_slot_shape.
  - split; eauto.
  - split; [by eauto|]. intros q. cbn. destruct (decide (p = q)) as [->|Hne].
    + rewrite list_lookup_alter_eq. by destruct (h_params h !! q).
    + by rewrite list_lookup_alter_ne.
Qed.

Lemma assign_typed p v h : heap_typed h -> patch_ok h p -> ref_ok h (pt_declared p) v ->
  heap_typed (assign (pt_addr p) v h).
Proof.
  intros Ht Hp Hv. pose proof (assign_grows (pt_addr p) v h) as Hg. unfold patch_ok in Hp.
  destruct (pt_addr p) as [o n k|x k|q]; cbn [assign] in *.
  - apply objects_typed; [done|intros; apply assign_slot_shape|]. intros x h' Hx Hg' Hok.
    unfold object_ok in *. cbn. apply Forall_alter; [exact Hok|]. intros l Hl Hm. cbn.
    apply Forall_alter; [exact Hm|]. intros m Hmk _. destruct Hp as (x' & Hx' & Ek). simplify_eq.
    unfold slot_at in Ek. rewrite Hl in Ek. cbn in Ek. rewrite Hmk in Ek. cbn in Ek.
    destruct m; [done| |done]. cbn in Ek |- *. simplify_eq. by eapply ref_ok_grows.
  - destruct Ht as [H1 H2 H3]. split; [exact H1| |exact H3]. cbn. apply Forall_alter; [exact H2|].
    intros y _ Hy. cbn. destruct (decide (k < length (si_objects y))%nat).
    + apply Forall_insert; [exact Hy|]. by rewrite Hp in Hv.
    + rewrite list_insert_ge by lia. exact Hy.
  - destruct Ht as [H1 H2 H3]. split; [exact H1|exact H2|]. cbn. apply Forall_alter; [exact H3|].
    intros y Hy _. cbn. rewrite Hy in Hp. injection Hp as Hp. rewrite Hp. exact Hv.
Qed.

Lemma store_slot_typed o n k m x h : heap_typed h -> h_objects h !! o = Some x ->
  slot_kind <$> slot_at x n k = Some (slot_kind m) -> (forall h', slot_ok h' m) ->
  heap_typed (set_objects (alter (set_slot n k m) o (h_objects h)) h) /\
  grows h (set_objects (alter (set_slot n k m) o (h_objects h)) h).
Proof.
  intros Ht Hx Hk Hm.
  assert (forall y, h_objects h !! o = Some y -> shape (set_slot n k m y) = shape y) as Hs.
  { intros y Hy. simplify_eq. by apply set_slot_shape. }
  split; [|by apply objects_grow]. apply objects_typed; [done..|]. intros y h' _ _ Hok.
  unfold object_ok in *. cbn. apply Forall_alter; [exact Hok|]. intros l _ Hl. cbn.
  destruct (decide (k < length (sl_members l))%nat); [by apply Forall_insert|by rewrite list_insert_ge by lia].
Qed.
