(* ===== verification/ObjectSafe.v ===== *)
(** * The decoders keep class pointers typed

    The invariant of a world whose heap is well typed, and that every
    operation of the decoders keeps it: on any bytes, whether it returns,
    throws or fails. *)

From S2P Require Import Prelude Hoare OrderedMap CxxString Buffer Layout Protocol Stream Wire Codecs StreamString.
From S2P Require Import StreamHelpers StreamSpec Encaps OptionalSpec StreamOptional StreamFrame.
From S2P Require Import ObjectData ObjectWrite ObjectRead ObjectTypes.

(** ** The invariant *)

Record base_typed (h : Heap) (x : DecoderBase) : Prop := {
  typed_patches k l : patchMap x !! k = Some l -> Forall (patch_ok h) l;
  typed_unmarshaled k o : unmarshaledMap x !! k = Some o -> is_Some (h_objects h !! o)
}.

Definition instance_typed (h : Heap) (c : ReadInstance) : Prop :=
  Forall (fun e => patch_ok h e.2) (ri_indirectPatchList c).
Definition version_typed (h : Heap) (v : DecoderVersion) : Prop :=
  match v with V10 _ => True | V11 d => Forall (instance_typed h) (d11_stack d ++ d11_spare d) end.
Definition decoder_typed (h : Heap) (d : Decoder) : Prop := base_typed h (d_base d) /\ version_typed h (d_version d).

(** The decoder of an encapsulation, if it has one *)
Definition encaps_typed (h : Heap) (e : ReadEncaps Decoder) : Prop :=
  match re_decoder e with Some d => decoder_typed h d | None => True end.

Definition typed (w : world) : Prop :=
  heap_typed (w_heap w) /\ Forall (encaps_typed (w_heap w)) (preRead (w_stream w) :: readEncaps (w_stream w)).

Lemma base_typed_grows h h' x : grows h h' -> base_typed h x -> base_typed h' x.
Proof.
  intros Hg [H1 H2]. split.
  - intros k l Hl. eapply Forall_impl; [by eapply H1|]. intros p. by apply patch_ok_grows.
  - intros k o Ho. destruct (H2 k o Ho) as [y Hy]. destruct (grows_object _ _ Hg o y Hy) as (y' & ? & _). by exists y'.
Qed.

Lemma decoder_typed_grows h h' d : grows h h' -> decoder_typed h d -> decoder_typed h' d.
Proof.
  intros Hg [Hb Hv]. split; [by eapply base_typed_grows|]. destruct (d_version d) as [|d']; [done|].
  eapply Forall_impl; [exact Hv|]. intros c Hc. eapply Forall_impl; [exact Hc|]. intros e. by apply patch_ok_grows.
Qed.

(** A world whose heap has grown *)
Lemma typed_heap w h' : typed w -> heap_typed h' -> grows (w_heap w) h' -> typed (set_heap h' w).
Proof.
  intros [_ Hd] Ht Hg. split; [done|]. eapply Forall_impl; [exact Hd|]. intros e. unfold encaps_typed.
  destruct (re_decoder e); [by apply decoder_typed_grows|done].
Qed.

(** ** Steps that keep it *)

Definition keeps {A} (m : M world A) (Q : A -> world -> Prop) (w : world) : Prop :=
  typed (m w).2 /\ grows (w_heap w) (w_heap (m w).2) /\ forall a, (m w).1 = Ok a -> Q a (m w).2.

(** An operation that keeps it from any typed world *)
Definition safe {A} (m : M world A) : Prop := forall w, typed w -> keeps m (fun _ _ => True) w.

Lemma keeps_return {A} (a : A) Q w : typed w -> Q a w -> keeps (mret a) Q w.
Proof. intros Ht HQ. split; [done|]. split; [done|]. cbn. by intros a' [= <-]. Qed.

Lemma keeps_raise {A} e (Q : A -> world -> Prop) w : typed w -> keeps (throw e) Q w.
Proof. intros Ht. split; [done|]. by split. Qed.

Lemma keeps_fault {A} f (Q : A -> world -> Prop) w : typed w -> keeps (faultM f) Q w.
Proof. intros Ht. split; [done|]. by split. Qed.

Lemma keeps_seq {A B} (m : M world A) (k : A -> M world B) Q w :
  keeps m (fun a w' => typed w' -> grows (w_heap w) (w_heap w') -> keeps (k a) Q w') w -> keeps (mbind k m) Q w.
Proof.
  unfold keeps, mbind, M_bind. intros (Ht & Hg & HQ). destruct (m w) as [[a|e|f] w'] eqn:E; cbn in *.
  - destruct (HQ a eq_refl Ht Hg) as (Ht2 & Hg2 & HQ2). split; [done|]. split; [by etrans|done].
  - split; [done|]. by split.
  - split; [done|]. by split.
Qed.

Lemma keeps_weaken {A} (m : M world A) (Q Q' : A -> world -> Prop) w :
  keeps m Q w -> (forall a w', Q a w' -> Q' a w') -> keeps m Q' w.
Proof. intros (Ht & Hg & HQ) H. split; [done|]. split; [done|]. auto. Qed.

Lemma safe_keeps {A} (m : M world A) (Q : A -> world -> Prop) w : safe m -> typed w ->
  (forall a w', typed w' -> grows (w_heap w) (w_heap w') -> Q a w') -> keeps m Q w.
Proof. intros Hm Ht HQ. destruct (Hm w Ht) as (Ht' & Hg & _). split; [done|]. split; [done|]. auto. Qed.

Lemma safe_bind {A B} (m : M world A) (k : A -> M world B) : safe m -> (forall a, safe (k a)) -> safe (mbind k m).
Proof. intros Hm Hk w Ht. apply keeps_seq, safe_keeps; [done..|]. intros a w' Ht' _ _ _. exact (Hk a w' Ht'). Qed.

Lemma safe_ret {A} (a : A) : safe (mret a).
Proof. intros w Ht. by apply keeps_return. Qed.
Lemma safe_throw {A} e : safe (throw (A := A) e).
Proof. intros w Ht. by apply keeps_raise. Qed.
Lemma safe_fault {A} f : safe (faultM (A := A) f).
Proof. intros w Ht. by apply keeps_fault. Qed.
Lemma safe_assert c : safe (assertM c).
Proof. intros w Ht. by destruct c. Qed.

Lemma safe_stream {A} (m : M _ A) : frame read_chain m -> safe (on_stream m).
Proof.
  intros Hm w [Hh Hd]. specialize (Hm (w_stream w)). unfold keeps, on_stream, world_host, on.
  destruct (m (w_stream w)) as [r s']. cbn in *. split; [|by split].
  split; [done|]. cbn. injection Hm as -> ->. exact Hd.
Qed.

Lemma keeps_get_stream (Q : _ -> world -> Prop) w : typed w -> Q (w_stream w) w -> keeps (on_stream get) Q w.
Proof. intros Ht HQ. unfold keeps. cbn. destruct w. split; [done|]. split; [done|]. by intros a [= <-]. Qed.

(** ** The decoder *)

Lemma keeps_get_decoder (Q : Decoder -> world -> Prop) w : typed w ->
  (forall x, decoder_typed (w_heap w) x -> decoder_of (w_stream w) = Some x -> Q x w) -> keeps get_decoder Q w.
Proof.
  intros Ht HQ. unfold get_decoder. unfold keeps. rewrite bind_get.
  destruct (decoder_of (w_stream w)) as [x|] eqn:E; cbn; [|by split].
  split; [done|]. split; [done|]. intros a [= <-]. apply HQ; [|done]. destruct Ht as [_ Hd]. unfold decoder_of in E.
  destruct (readEncaps (w_stream w)) as [|e l]; [done|]. apply Forall_cons in Hd as [_ Hd].
  apply Forall_cons in Hd as [He _]. unfold encaps_typed in He. by rewrite E in He.
Qed.

Lemma keeps_set_decoder x (Q : unit -> world -> Prop) w : typed w -> decoder_typed (w_heap w) x ->
  (forall s, Q tt (set_stream s w)) -> keeps (set_decoder x) Q w.
Proof.
  intros [Hh Hd] Hx HQ. unfold keeps. cbn. split; [|split; [done|intros [] _; apply HQ]].
  split; [done|]. cbn. unfold put_decoder. destruct (readEncaps (w_stream w)) as [|e l] eqn:E; [by rewrite E|].
  apply Forall_cons in Hd as [Hp Hd]. apply Forall_cons in Hd as [_ Hd]. constructor; [done|by constructor].
Qed.

Lemma keeps_get_dbase (Q : DecoderBase -> world -> Prop) w : typed w ->
  (forall x, base_typed (w_heap w) x -> Q x w) -> keeps get_dbase Q w.
Proof.
  intros Ht HQ. apply keeps_seq, keeps_get_decoder; [done|]. intros x [Hx _] _ _ _. by apply keeps_return; [|apply HQ].
Qed.

Lemma keeps_mod_dbase f (Q : unit -> world -> Prop) w : typed w ->
  (forall x, base_typed (w_heap w) x -> base_typed (w_heap w) (f x)) -> (forall s, Q tt (set_stream s w)) ->
  keeps (mod_dbase f) Q w.
Proof.
  intros Ht Hf HQ. apply keeps_seq, keeps_get_decoder; [done|]. intros x [Hx Hv] _ _ _.
  apply keeps_set_decoder; [done| |done]. split; [by apply Hf|done].
Qed.

Lemma safe_set_dversion v : (forall h, version_typed h v) -> safe (set_dversion v).
Proof.
  intros Hv w Ht. apply keeps_seq, keeps_get_decoder; [done|]. intros x [Hx _] _ _ _.
  apply keeps_set_decoder; [done| |done]. by split.
Qed.

Lemma keeps_set_dversion v (Q : unit -> world -> Prop) w : typed w -> version_typed (w_heap w) v ->
  (forall s, Q tt (set_stream s w)) -> keeps (set_dversion v) Q w.
Proof.
  intros Ht Hv HQ. apply keeps_seq, keeps_get_decoder; [done|]. intros x [Hx _] _ _ _.
  apply keeps_set_decoder; [done| |done]. by split.
Qed.

Lemma safe_this_d10 : safe this_d10.
Proof.
  intros w Ht. apply keeps_seq, keeps_get_decoder; [done|]. intros x _ _ _ _.
  destruct (d_version x); [by apply keeps_return|by apply keeps_fault].
Qed.

Lemma safe_set_d10 f : safe (set_d10 f).
Proof. apply safe_bind; [apply safe_this_d10|]. intros d. by apply safe_set_dversion. Qed.

Lemma keeps_this_d11 (Q : Decoder11 -> world -> Prop) w : typed w ->
  (forall d, version_typed (w_heap w) (V11 d) -> Q d w) -> keeps this_d11 Q w.
Proof.
  intros Ht HQ. apply keeps_seq, keeps_get_decoder; [done|]. intros x [_ Hv] _ _ _.
  destruct (d_version x); [by apply keeps_fault|]. by apply keeps_return; [|apply HQ].
Qed.

Lemma keeps_current_r (Q : ReadInstance -> world -> Prop) w : typed w ->
  (forall c, instance_typed (w_heap w) c -> Q c w) -> keeps current_r Q w.
Proof.
  intros Ht HQ. apply keeps_seq, keeps_this_d11; [done|]. intros d Hd _ _.
  destruct (d11_stack d) as [|c l] eqn:E; [by apply keeps_fault|]. apply keeps_return; [done|]. apply HQ.
  cbn in Hd. rewrite E in Hd. by apply Forall_cons in Hd as [? _].
Qed.

Lemma safe_mod_current_r f : (forall h c, instance_typed h c -> instance_typed h (f c)) -> safe (mod_current_r f).
Proof.
  intros Hf w Ht. apply keeps_seq, keeps_this_d11; [done|]. intros d Hd _ _.
  destruct (d11_stack d) as [|c l] eqn:E; [by apply keeps_fault|]. apply keeps_set_dversion; [done| |done].
  cbn in *. rewrite E in Hd. cbn in *. apply Forall_cons in Hd as [Hc Hl]. constructor; [by apply Hf|done].
Qed.

(** ** The heap *)

Lemma keeps_mod_heap f (Q : unit -> world -> Prop) w : typed w -> heap_typed (f (w_heap w)) ->
  grows (w_heap w) (f (w_heap w)) -> Q tt (set_heap (f (w_heap w)) w) -> keeps (mod_heap f) Q w.
Proof.
  intros Ht Hh Hg HQ. unfold keeps. cbn. split; [by apply typed_heap|]. split; [done|]. by intros [] _.
Qed.

Lemma keeps_deref o (Q : Instance -> world -> Prop) w : typed w ->
  (forall x, h_objects (w_heap w) !! o = Some x -> Q x w) -> keeps (deref o) Q w.
Proof.
  intros Ht HQ. unfold keeps, deref. rewrite bind_get.
  destruct (h_objects (w_heap w) !! o) as [x|] eqn:E; cbn; [|by split].
  split; [done|]. split; [done|]. intros a [= <-]. by apply HQ.
Qed.

Lemma safe_hook x : safe (call_hook x).
Proof. intros w [Hh Hd]. by split. Qed.

(** A new object has null pointers only. *)
Definition new_slot (m : slot) : Prop := match m with SClass _ p => p = None | _ => True end.
Definition new_object (x : Instance) : Prop := Forall (fun l => Forall new_slot (sl_members l)) (in_slices x).

Lemma objects_app_grows h x : grows h (set_objects (h_objects h ++ [x]) h).
Proof.
  split; [|done]. intros o y Hy. exists y. split; [|done]. cbn. by rewrite lookup_app_l by (by eapply lookup_lt_Some).
Qed.

Lemma keeps_allocate x (Q : oref -> world -> Prop) w : typed w -> new_object x ->
  (forall o w', is_Some (h_objects (w_heap w') !! o) -> Q o w') -> keeps (allocate x) Q w.
Proof.
  intros Ht Hx HQ. pose proof (objects_app_grows (w_heap w) x) as Hg.
  unfold keeps, allocate. rewrite bind_get, bind_modify. cbn. split; [|split; [done|]].
  - apply typed_heap; [done| |done]. destruct Ht as [[H1 H2 H3] _]. split.
    + cbn. apply Forall_app. split.
      * eapply Forall_impl; [exact H1|]. intros y. by apply object_ok_grows.
      * constructor; [|done]. eapply Forall_impl; [exact Hx|]. intros l Hl. eapply Forall_impl; [exact Hl|].
        intros [| |]; try done. cbn. by intros ->.
    + eapply Forall_impl; [exact H2|]. intros y Hy. eapply Forall_impl; [exact Hy|]. intros v. by apply ref_ok_grows.
    + eapply Forall_impl; [exact H3|]. intros p. by apply ref_ok_grows.
  - intros o [= <-]. apply HQ. cbn. exists x. by rewrite lookup_app_r, Nat.sub_diag.
Qed.

Lemma slices_grow h l : grows h (set_slices l h).
Proof. split; [by eauto|done]. Qed.

Lemma keeps_set_slices (f : Heap -> list SliceInfo) w (Q : unit -> world -> Prop) : typed w ->
  Forall (fun x => Forall (ref_ok (w_heap w) Object_id) (si_objects x)) (f (w_heap w)) ->
  (forall w', Q tt w') -> keeps (mod_heap (fun h => set_slices (f h) h)) Q w.
Proof.
  intros Ht Hf HQ. apply keeps_mod_heap; [done| |apply slices_grow|done].
  destruct Ht as [[H1 H2 H3] _]. by split.
Qed.

Lemma keeps_patchHandle p v (Q : unit -> world -> Prop) w : typed w -> patch_ok (w_heap w) p ->
  (forall w', Q tt w') -> keeps (patchHandle p v) Q w.
Proof.
  intros Ht Hp HQ. destruct v as [o|]; cbn [patchHandle].
  - apply keeps_seq, keeps_deref; [done|]. intros x Hx _ _. destruct (is_a x (pt_declared p)) eqn:E.
    + apply keeps_mod_heap; [done|apply assign_typed; [apply Ht|done|]|apply assign_grows|done].
      exists x. by split.
    + apply keeps_seq, keeps_mod_heap; [done|by apply assign_typed; [apply Ht| |]|apply assign_grows|].
      intros Ht' _. unfold throwUOE. destruct (in_unknown x); by apply keeps_raise.
  - apply keeps_mod_heap; [done|by apply assign_typed; [apply Ht| |]|apply assign_grows|done].
Qed.

Create HintDb safe discriminated.
#[export] Hint Resolve safe_ret safe_throw safe_fault safe_assert safe_hook safe_this_d10 safe_set_d10 : safe.
#[export] Hint Extern 1 (safe (on_stream _)) => apply safe_stream; solve [eauto with frame nocore] : safe.
#[export] Hint Extern 1 (safe (mod_current_r _)) => apply safe_mod_current_r; intros; done : safe.

(** Descend into a sequence of statements. *)
Ltac safes :=
  repeat match goal with
  | |- safe (mbind _ _) => apply safe_bind; [|intros ?]
  | |- safe (if ?c then _ else _) => destruct c
  | |- safe (match ?x with _ => _ end) => destruct x
  | |- safe _ => solve [eauto with safe nocore]
  end.

(** ** The operations of the decoders *)

(** The factories create objects of generated classes: their pointers are
    null. *)
Class FactoryLaws (FA : Factories) : Prop := {
  user_creates id f typeId x : user_factory id = Some f -> f typeId = Some x -> new_object x;
  table_creates id f typeId x : table_factory id = Some f -> f typeId = Some x -> new_object x;
  exception_creates id f typeId : exception_factory id = Some f -> new_object (f typeId)
}.

Section decoders.
Context `{PL : Platform} {DF : Defaults} {FA : Factories} {FL : FactoryLaws FA}.

Lemma safe_readTypeId isIndex : safe (readTypeId isIndex).
Proof.
  destruct isIndex; cbn [readTypeId].
  - apply safe_bind; [safes|]. intros index w Ht. apply keeps_seq, keeps_get_dbase; [done|]. intros x _ _ _.
    destruct (_ !! _); [by apply keeps_return|by apply keeps_raise].
  - apply safe_bind; [safes|]. intros typeId w Ht. apply keeps_seq, keeps_mod_dbase; [done|by intros x [? ?]|].
    intros s Ht' _. by apply keeps_return.
Qed.

(** A handle that is null or refers to an object *)
Definition handle_ok (v : option oref) (w : world) : Prop :=
  match v with Some o => is_Some (h_objects (w_heap w) !! o) | None => True end.

Lemma keeps_create_with f typeId (Q : option oref -> world -> Prop) w : typed w ->
  (forall g x, f = Some g -> g typeId = Some x -> new_object x) ->
  (forall v w', handle_ok v w' -> Q v w') -> keeps (create_with f typeId) Q w.
Proof.
  intros Ht Hf HQ. unfold create_with. destruct f as [g|]; cbn; [|by apply keeps_return; [|apply HQ]].
  destruct (g typeId) as [x|] eqn:E; [|by apply keeps_return; [|apply HQ]].
  apply keeps_seq, keeps_allocate; [done|by eapply Hf|]. intros o w' Ho Ht' _. apply keeps_return; [done|]. by apply HQ.
Qed.

Lemma keeps_newInstance typeId (Q : option oref -> world -> Prop) w : typed w ->
  (forall v w', handle_ok v w' -> Q v w') -> keeps (newInstance typeId) Q w.
Proof.
  intros Ht HQ. unfold newInstance.
  apply keeps_seq, keeps_create_with; [done|intros; by eapply user_creates|].
  intros [o|] w1 H1 Ht1 _; [by apply keeps_return; [|apply HQ]|].
  apply keeps_seq, keeps_create_with; [done|intros; by eapply user_creates|].
  intros [o|] w2 H2 Ht2 _; [by apply keeps_return; [|apply HQ]|].
  destruct (table_factory typeId) as [f|] eqn:E; [|by apply keeps_return; [|apply HQ]].
  apply keeps_seq, keeps_create_with; [done|intros g x [= <-]; by eapply table_creates|].
  intros [o|] w3 H3 Ht3 _; cbn; [by apply keeps_return; [|apply HQ]|].
  by apply (keeps_fault AssertionFailure).
Qed.

Lemma keeps_addPatchEntry index p (Q : unit -> world -> Prop) w : typed w -> patch_ok (w_heap w) p ->
  (forall w', Q tt w') -> keeps (addPatchEntry index p) Q w.
Proof.
  intros Ht Hp HQ. apply keeps_seq, safe_keeps; [apply safe_assert|done|]. intros _ w1 Ht1 Hg1 _ _.
  apply keeps_seq, keeps_get_dbase; [done|]. intros x Hx _ _.
  assert (patch_ok (w_heap w1) p) as Hp1 by by eapply patch_ok_grows.
  destruct (unmarshaledMap x !! index) as [v|]; [by apply keeps_patchHandle|].
  apply keeps_mod_dbase; [done| |done]. intros y [H1 H2]. split; [|done]. cbn. intros k l.
  destruct (decide (index = k)) as [->|Hne]; [|rewrite lookup_insert_ne by done; apply H1].
  rewrite lookup_insert_eq. intros [= <-]. apply Forall_app. split; [|by constructor].
  destruct (patchMap y !! k) as [l'|] eqn:E; [by eapply H1|constructor].
Qed.

Lemma keeps_patch_all l v (Q : unit -> world -> Prop) : forall w, typed w -> Forall (patch_ok (w_heap w)) l ->
  (forall w', Q tt w') -> keeps (patch_all l v) Q w.
Proof.
  induction l as [|p l IH]; intros w Ht Hl HQ; cbn [patch_all]; [by apply keeps_return|].
  apply Forall_cons in Hl as [Hp Hl]. pose proof (keeps_patchHandle p (Some v) (fun _ _ => True) w Ht Hp) as H.
  apply keeps_seq. eapply keeps_weaken; [by apply H|]. intros [] w' _ Ht' Hg. apply IH; [done| |done].
  eapply Forall_impl; [exact Hl|]. intros q. by apply patch_ok_grows.
Qed.

Lemma safe_post_unmarshal l : safe (post_unmarshal l).
Proof. induction l as [|v l IH]; cbn [post_unmarshal]; safes. Qed.

Section unmarshal.
Variable instance_read : SliceType -> oref -> M world unit.
Hypothesis read_safe : forall t o, safe (instance_read t o).

Lemma keeps_unmarshal index v w : typed w -> is_Some (h_objects (w_heap w) !! v) ->
  keeps (unmarshal instance_read index v) (fun _ _ => True) w.
Proof.
  intros Ht Hv. apply keeps_seq, keeps_mod_dbase; [done| |].
  { intros x [H1 H2]. split; [exact H1|]. cbn. intros k o. unfold insert_new.
    destruct (unmarshaledMap x !! index) eqn:E; [apply H2|].
    destruct (decide (index = k)) as [->|Hne]; [|rewrite lookup_insert_ne by done; apply H2].
    rewrite lookup_insert_eq. by intros [= <-]. }
  intros s Ht1 _. apply keeps_seq, safe_keeps; [apply read_safe|done|]. intros _ w2 _ _ Ht2 _.
  apply keeps_seq, keeps_get_dbase; [done|]. intros x [Hx _] _ _. apply keeps_seq.
  match goal with |- keeps ?m ?Q w2 => assert (keeps m (fun _ _ => True) w2) as H; [|eapply keeps_weaken; [exact H|]] end.
  { destruct (patchMap x !! index) as [l|] eqn:E; [|by apply keeps_return]. apply Hx in E.
    apply keeps_seq, safe_keeps; [apply safe_assert|done|]. intros _ w3 Ht3 Hg3 _ _.
    apply keeps_seq, keeps_patch_all; [done| |].
    { eapply Forall_impl; [exact E|]. intros p. by apply patch_ok_grows. }
    intros w4 Ht4 _. apply keeps_mod_dbase; [done| |done]. intros y [H1 H2]. split; [|done]. cbn. intros k l'.
    intros Hl. apply lookup_delete_Some in Hl as [_ Hl]. by eapply H1. }
  intros _ w3 _ Ht3 _. apply keeps_seq, keeps_get_dbase; [done|]. intros y _ _ _.
  destruct (_ && _); [by apply safe_hook|]. apply keeps_seq, keeps_mod_dbase; [done|by intros z [? ?]|].
  intros s4 Ht4 _. case_bool_decide; [|by apply keeps_return].
  apply keeps_seq, keeps_get_dbase; [done|]. intros z _ _ _.
  apply keeps_seq, safe_keeps; [apply safe_post_unmarshal|done|]. intros _ w5 _ _ Ht5 _.
  apply keeps_mod_dbase; [done|by intros u [? ?]|done].
Qed.
End unmarshal.

Lemma safe_startInstance10 t : safe (startInstance10 t).
Proof. unfold startInstance10. safes. Qed.
Lemma safe_startSlice_d10 : safe startSlice_d10.
Proof. pose proof safe_readTypeId. unfold startSlice_d10. safes. Qed.
Hint Resolve safe_startInstance10 safe_startSlice_d10 safe_readTypeId : safe.
Lemma safe_endInstance_d10 : safe endInstance_d10.
Proof. unfold endInstance_d10. safes. Qed.
Lemma safe_skipSlice10 : safe skipSlice10.
Proof. unfold skipSlice10. safes. Qed.
Hint Resolve safe_endInstance_d10 safe_skipSlice10 : safe.

Lemma keeps_read10 patch w : typed w -> match patch with Some p => patch_ok (w_heap w) p | None => True end ->
  keeps (read10 patch) (fun _ _ => True) w.
Proof.
  intros Ht Hp. destruct patch as [p|]; cbn [read10]; [|by apply keeps_fault].
  apply keeps_seq, safe_keeps; [by apply safe_stream, read_Int_quiet|done|]. intros index w1 Ht1 Hg1 _ _.
  assert (patch_ok (w_heap w1) p) by by eapply patch_ok_grows.
  destruct (0 <? index); [by apply keeps_raise|]. cbv zeta.
  destruct (_ =? 0); [by apply keeps_patchHandle|by apply keeps_addPatchEntry].
Qed.
End decoders.
