(* ===== verification/ObjectSound.v ===== *)
(** * The decoders keep class pointers typed: instances, slices, exceptions

    The recursion of the decoders: reading an instance reads its slices, which
    read the instances nested in them. *)

From S2P Require Import Prelude Hoare OrderedMap CxxString Buffer Layout Protocol Stream Wire Codecs StreamString.
From S2P Require Import StreamHelpers StreamSpec Encaps OptionalSpec StreamOptional StreamFrame.
From S2P Require Import ObjectData ObjectWrite ObjectRead ObjectTypes ObjectSafe.

Section nested.
Context `{PL : Platform} {DF : Defaults} {FA : Factories} {FL : FactoryLaws FA}.
Variable readInstance : Z -> option Patch -> M world Z.
Variable fuel : nat.

Definition patch_opt_ok (h : Heap) (p : option Patch) : Prop := match p with Some p => patch_ok h p | None => True end.

Lemma patch_opt_grows h h' p : grows h h' -> patch_opt_ok h p -> patch_opt_ok h' p.
Proof. destruct p; [apply patch_ok_grows|done]. Qed.

Hypothesis nested_safe : forall index patch w, typed w -> patch_opt_ok (w_heap w) patch ->
  keeps (readInstance index patch) (fun _ _ => True) w.

Lemma safe_nested index : safe (readInstance index None).
Proof. intros w Ht. by apply nested_safe. Qed.
Hint Resolve safe_nested : safe.

Lemma keeps_read11 patch w : typed w -> patch_opt_ok (w_heap w) patch ->
  keeps (read11 readInstance patch) (fun _ _ => True) w.
Proof.
  intros Ht Hp. apply keeps_seq, safe_keeps; [by apply safe_stream, readSize_quiet|done|].
  intros index w1 Ht1 Hg1 _ _. assert (patch_opt_ok (w_heap w1) patch) as Hp1 by by eapply patch_opt_grows.
  destruct (index <? 0); [by apply keeps_raise|]. destruct (index =? 0).
  { destruct patch as [p|]; [by apply keeps_patchHandle|by apply keeps_return]. }
  apply keeps_seq, keeps_this_d11; [done|]. intros d Hd _ _. cbv zeta.
  assert (keeps (readInstance index patch;; mret tt) (fun _ _ => True) w1) as Hn.
  { apply keeps_seq. eapply keeps_weaken; [by apply nested_safe|]. intros k w2 _ Ht2 _. by apply keeps_return. }
  destruct (d11_stack d) as [|c l]; [exact Hn|]. destruct (has _ _); [|exact Hn].
  destruct patch as [p|]; [|by apply keeps_return].
  apply keeps_seq, keeps_this_d11; [done|]. intros d' Hd' _ _.
  destruct (d11_stack d') as [|c' l'] eqn:E; [by apply keeps_fault|]. apply keeps_set_dversion; [done| |done].
  cbn in Hd' |- *. rewrite E in Hd'. apply Forall_cons in Hd' as [Hc' Hl']. constructor; [|done].
  unfold instance_typed in *. cbn. apply Forall_app. split; [done|by constructor].
Qed.

Lemma keeps_decoder_read patch w : typed w -> patch_opt_ok (w_heap w) patch ->
  keeps (decoder_read_patch readInstance patch) (fun _ _ => True) w.
Proof.
  intros Ht Hp. apply keeps_seq, keeps_get_decoder; [done|]. intros x _ _ _ _.
  destruct (d_version x); [by apply keeps_read10|by apply keeps_read11].
Qed.

Lemma safe_initReadEncaps : safe (on_stream initReadEncaps).
Proof.
  intros w [Hh Hd]. unfold keeps, on_stream, world_host, on.
  assert (forall h b, decoder_typed h (new_EncapsDecoder10 b) /\ decoder_typed h (new_EncapsDecoder11 b)) as Hnew.
  { intros h b. split; (split; [split; cbn; intros k x E; by rewrite lookup_empty in E|constructor]). }
  set (s' := (initReadEncaps (w_stream w)).2).
  assert (initReadEncaps (w_stream w) = (Ok tt, s') /\
    Forall (encaps_typed (w_heap w)) (preRead s' :: readEncaps s')) as [E Hs'].
  { unfold s', initReadEncaps, update_read. rewrite bind_modify, bind_get. split; [done|]. cbn.
    apply Forall_cons in Hd as [Hp Hd]. destruct (readEncaps (w_stream w)) as [|e l] eqn:E; cbn.
    - constructor; [done|]. constructor; [|done]. unfold encaps_typed in *. cbn.
      destruct (re_decoder (preRead (w_stream w))); cbn; [done|]. destruct (encoding_eqb _ _); apply Hnew.
    - rewrite E. cbn. apply Forall_cons in Hd as [He Hd]. constructor; [done|]. constructor; [|done].
      unfold encaps_typed in *. destruct (re_decoder e) eqn:Ed; cbn; [by rewrite Ed|].
      destruct (encoding_eqb _ _); apply Hnew. }
  rewrite E. split; [by split|]. by split.
Qed.
Hint Resolve safe_initReadEncaps : safe.

Lemma safe_decoder_read0 : safe (decoder_read_patch readInstance None).
Proof. intros w Ht. by apply keeps_decoder_read. Qed.
Hint Resolve safe_decoder_read0 : safe.

(** The optional values, whose class pointers the decoder skips *)
Section optionals.
Context {OC : ObjectDecoding world} (Hread : safe decoder_read).

Lemma safe_skipOpt f : safe (skipOpt f).
Proof. destruct f; cbn [skipOpt]; unfold read_class; safes; apply safe_stream; frames. Qed.
Hint Resolve safe_skipOpt : safe.

Lemma safe_skipOpts n : safe (skipOpts n).
Proof.
  induction n as [|n IH]; cbn [skipOpts]; [apply safe_fault|]. safes. apply safe_stream. frames.
Qed.

Lemma safe_readOptImpl n tag f : safe (readOptImpl n tag f).
Proof.
  unfold readOptImpl, getReadEncoding. safes. induction n as [|n IH]; cbn [readOpt_loop]; safes; apply safe_stream; frames.
Qed.
End optionals.

Lemma safe_readOpt tag f : safe (decoder_readOpt (ObjectDecoding := decoder_calls readInstance fuel) tag f).
Proof.
  intros w Ht. apply keeps_seq, keeps_get_decoder; [done|]. intros x _ _ _ _. destruct (d_version x) as [d|d].
  - by apply keeps_return.
  - destruct (d11_stack d) as [|c l].
    + by apply safe_readOptImpl; [apply safe_decoder_read0|].
    + destruct (has _ _); [by apply safe_readOptImpl; [apply safe_decoder_read0|]|by apply keeps_return].
Qed.

Lemma safe_read_opt tag t : safe (read_opt (OC:=decoder_calls readInstance fuel) fuel tag t).
Proof.
  unfold read_opt, readOpt. safes; first [apply safe_readOpt|apply safe_readOptImpl, safe_decoder_read0].
Qed.

(** ** Slices *)

Lemma safe_push t : safe (push t).
Proof.
  intros w Ht. apply keeps_seq, keeps_this_d11; [done|]. intros d Hd _ _. cbn in Hd. apply Forall_app in Hd as [Hs Hp].
  destruct (d11_spare d) as [|c spare]; apply keeps_set_dversion; try done; cbn.
  - rewrite app_nil_r. constructor; [constructor|done].
  - apply Forall_cons in Hp as [Hc Hp]. constructor; [done|]. by apply Forall_app.
Qed.

Lemma safe_current_r : safe current_r.
Proof. intros w Ht. by apply keeps_current_r. Qed.
Hint Resolve safe_push safe_current_r : safe.

Lemma safe_this_d11 : safe this_d11.
Proof. intros w Ht. by apply keeps_this_d11. Qed.
Hint Resolve safe_this_d11 : safe.

Lemma safe_startInstance_d11 t : safe (startInstance_d11 t).
Proof. unfold startInstance_d11. safes. Qed.

Hint Resolve safe_readTypeId : safe.
Lemma safe_startSlice_d11 : safe startSlice_d11.
Proof. unfold startSlice_d11. safes. Qed.
Hint Resolve safe_startInstance_d11 safe_startSlice_d11 : safe.

Lemma safe_read_table n : safe (read_table readInstance n).
Proof. induction n as [|n IH]; cbn [read_table]; safes. Qed.
Hint Resolve safe_read_table : safe.

Lemma keeps_resolve_indirect table l : forall w, typed w -> Forall (fun e => patch_ok (w_heap w) e.2) l ->
  keeps (resolve_indirect table l) (fun _ _ => True) w.
Proof.
  induction l as [|[k p] l IH]; intros w Ht Hl; cbn [resolve_indirect]; [by apply keeps_return|].
  apply Forall_cons in Hl as [Hp Hl]. cbn in Hp.
  apply keeps_seq, safe_keeps; [apply safe_assert|done|]. intros _ w1 Ht1 Hg1 _ _.
  destruct (_ <=? k); [by apply keeps_raise|]. apply keeps_seq.
  destruct (table !! Z.to_nat k) as [j|]; [|by apply keeps_fault].
  eapply keeps_weaken; [apply (keeps_addPatchEntry j p (fun _ _ => True)); [done|by eapply patch_ok_grows|done]|].
  intros [] w2 _ Ht2 Hg2. apply IH; [done|]. eapply Forall_impl; [exact Hl|]. intros e.
  apply patch_ok_grows. by etrans.
Qed.

Lemma safe_endSlice_d11 : safe (endSlice_d11 readInstance fuel).
Proof.
  unfold endSlice_d11. apply safe_bind; [apply safe_current_r|]. intros c0. apply safe_bind.
  { destruct (has _ _); [apply safe_skipOpts, safe_decoder_read0|apply safe_ret]. }
  intros _. destruct (has _ _); [|apply safe_ret]. do 2 (apply safe_bind; [safes|intros ?]).
  case_bool_decide; [apply safe_throw|]. intros w Ht. apply keeps_seq, keeps_current_r; [done|]. intros c Hc _ _.
  destruct (_ && _); [by apply keeps_raise|]. apply keeps_seq.
  eapply keeps_weaken; [by apply keeps_resolve_indirect|]. intros [] w1 _ Ht1 _.
  apply safe_mod_current_r; [|done]. intros h c' _. constructor.
Qed.

Lemma range_quiet start stop : frame read_chain (range start stop).
Proof. unfold range. frames. Qed.

Lemma safe_add_slice info : si_objects info = [] -> safe (add_slice info).
Proof.
  intros Hi w Ht. unfold add_slice. apply keeps_seq. split; [by destruct w|]. split; [done|]. intros a [= <-] _ _.
  apply keeps_seq, keeps_set_slices; [done| |].
  - apply Forall_app. split; [apply Ht|]. constructor; [|done]. by rewrite Hi.
  - intros w' Ht' _. by apply keeps_return.
Qed.

Lemma safe_skipSlice11 : safe (skipSlice11 readInstance).
Proof.
  unfold skipSlice11. pose proof range_quiet. apply safe_bind; [apply safe_current_r|]. intros c.
  apply safe_bind; [safes|]. intros start. apply safe_bind; [safes|]. intros _. cbv zeta.
  apply safe_bind; [safes|]. intros stop. apply safe_bind; [apply safe_stream, range_quiet|]. intros bytes.
  apply safe_bind; [safes|]. intros table. apply safe_bind; [by apply safe_add_slice|]. intros info.
  by apply safe_mod_current_r.
Qed.

Lemma safe_patch_table x table k : safe (patch_table x table k).
Proof.
  revert k. induction table as [|index table IH]; intros k; cbn [patch_table]; [apply safe_ret|].
  apply safe_bind; [|done]. intros w Ht. by apply keeps_addPatchEntry.
Qed.

Lemma safe_patch_slices slices tables : safe (patch_slices slices tables).
Proof.
  revert tables. induction slices as [|x slices IH]; intros [|table tables]; cbn [patch_slices]; try apply safe_ret.
  apply safe_bind; [|intros _; apply safe_bind; [apply safe_patch_table|done]].
  intros w Ht. apply keeps_set_slices; [done| |done]. apply Forall_alter; [apply Ht|].
  intros y _ Hy. cbn. apply Forall_take, Forall_app. split; [done|]. by apply Forall_replicate.
Qed.

Lemma safe_endInstance_d11 preserve : safe (endInstance_d11 preserve).
Proof.
  unfold endInstance_d11. apply safe_bind.
  { destruct preserve; [|apply safe_ret]. unfold readSlicedData.
    apply safe_bind; [apply safe_current_r|]. intros c. case_bool_decide; [apply safe_ret|].
    apply safe_bind; [apply safe_assert|]. intros _. apply safe_bind; [apply safe_patch_slices|]. intros _. apply safe_ret. }
  intros slicedData w Ht. apply keeps_seq, keeps_this_d11; [done|]. intros d Hd _ _.
  destruct (d11_stack d) as [|c l] eqn:E; [by apply keeps_fault|].
  apply keeps_seq, keeps_set_dversion; [done| |].
  - cbn in *. rewrite E in Hd. apply Forall_app in Hd as [Hs Hp]. apply Forall_cons in Hs as [Hc Hs].
    apply Forall_app. split; [done|by constructor].
  - intros s Ht' _. by apply keeps_return.
Qed.
(** ** The generated code *)

Lemma safe_update_object o f : (forall x, shape (f x) = shape x) -> (forall h x, object_ok h x -> object_ok h (f x)) ->
  safe (update_object o f).
Proof.
  intros Hs Hf w Ht. apply keeps_mod_heap; [done| | |done].
  - apply objects_typed; [apply Ht|done|]. intros x h' _ _. apply Hf.
  - by apply objects_grow.
Qed.

Lemma safe_read_object p w : typed w -> patch_ok (w_heap w) p ->
  keeps (read_object readInstance p) (fun _ _ => True) w.
Proof.
  intros Ht Hp. apply keeps_seq, safe_keeps; [apply safe_initReadEncaps|done|]. intros _ w1 Ht1 Hg1 _ _.
  apply keeps_decoder_read; [done|]. by eapply patch_ok_grows.
Qed.

(** Slice [n] of the object [o] has the members [l] from [k] on, up to their
    values. *)
Definition members_at (h : Heap) (o : oref) (n k : nat) (l : list slot) : Prop :=
  exists x, h_objects h !! o = Some x /\
    forall j m, l !! j = Some m -> slot_kind <$> slot_at x n (k + j) = Some (slot_kind m).

Lemma members_at_grows h h' o n k l : grows h h' -> members_at h o n k l -> members_at h' o n k l.
Proof.
  intros Hg (x & Hx & Hl). destruct (grows_object _ _ Hg o x Hx) as (x' & Hx' & Es). exists x'. split; [done|].
  intros j m Hm. rewrite (slot_kind_at x' x) by done. by apply Hl.
Qed.

Lemma keeps_store_slot o n k m l w : typed w -> members_at (w_heap w) o n k (m :: l) -> (forall h, slot_ok h m) ->
  forall m', slot_kind m' = slot_kind m -> (forall h, slot_ok h m') ->
  keeps (store_slot o n k m') (fun _ _ => True) w.
Proof.
  intros Ht (x & Hx & Hl) _ m' Hk Hok. specialize (Hl 0%nat m eq_refl). rewrite Nat.add_0_r in Hl.
  destruct (store_slot_typed o n k m' x (w_heap w)) as [H1 H2]; [apply Ht|done|by rewrite Hk|done|].
  by apply keeps_mod_heap.
Qed.

Lemma keeps_read_member o n k m l w : typed w -> members_at (w_heap w) o n k (m :: l) ->
  keeps (read_member readInstance fuel o n k m) (fun _ _ => True) w.
Proof.
  intros Ht Hm. destruct m as [t v|declared p|tag t v]; cbn [read_member].
  - apply keeps_seq, safe_keeps; [apply safe_stream, read_ty_quiet|done|]. intros v' w1 Ht1 Hg1 _ _.
    eapply keeps_store_slot; [done|by eapply members_at_grows|done|done|done].
  - apply safe_read_object; [done|]. destruct Hm as (x & Hx & Hl). exists x. split; [done|].
    specialize (Hl 0%nat _ eq_refl). by rewrite Nat.add_0_r in Hl.
  - apply keeps_seq, safe_keeps; [apply safe_read_opt|done|]. intros v' w1 Ht1 Hg1 _ _.
    eapply keeps_store_slot; [done|by eapply members_at_grows|done|done|done].
Qed.

Lemma keeps_read_members o n l : forall k w, typed w -> members_at (w_heap w) o n k l ->
  keeps (read_members readInstance fuel o n k l) (fun _ _ => True) w.
Proof.
  induction l as [|m l IH]; intros k w Ht Hm; cbn [read_members]; [by apply keeps_return|].
  apply keeps_seq. eapply keeps_weaken; [by eapply keeps_read_member|]. intros [] w1 _ Ht1 Hg1. apply IH; [done|].
  eapply members_at_grows; [done|]. destruct Hm as (x & Hx & Hl). exists x. split; [done|]. intros j m' Hj.
  replace (S k + j)%nat with (k + S j)%nat by lia. by apply Hl.
Qed.

Definition slices_at (h : Heap) (o : oref) (n : nat) (l : list Slice) : Prop :=
  forall j x, l !! j = Some x -> members_at h o (n + j) 0 (sl_members x).

Lemma slices_at_grows h h' o n l : grows h h' -> slices_at h o n l -> slices_at h' o n l.
Proof. intros Hg Hl j x Hx. eapply members_at_grows; [done|]. by apply Hl. Qed.

Lemma safe_decoder_startSlice : safe decoder_startSlice.
Proof. unfold decoder_startSlice. intros w Ht. apply keeps_seq, keeps_get_decoder; [done|]. intros x _ _ _ _.
  destruct (d_version x); [by apply safe_startSlice_d10|by apply safe_startSlice_d11]. Qed.

Lemma safe_decoder_endSlice : safe (decoder_endSlice readInstance fuel).
Proof. intros w Ht. apply keeps_seq, keeps_get_decoder; [done|]. intros x _ _ _ _.
  destruct (d_version x); [by apply keeps_return|by apply safe_endSlice_d11]. Qed.

Lemma keeps_readImpl o l : forall n w, typed w -> slices_at (w_heap w) o n l ->
  keeps (readImpl readInstance fuel o n l) (fun _ _ => True) w.
Proof.
  induction l as [|x l IH]; intros n w Ht Hl; cbn [readImpl]; [by apply keeps_return|].
  apply keeps_seq, safe_keeps; [apply safe_decoder_startSlice|done|]. intros _ w1 Ht1 Hg1 _ _.
  apply keeps_seq. eapply keeps_weaken.
  { apply keeps_read_members; [done|]. eapply members_at_grows; [done|]. specialize (Hl 0%nat x eq_refl).
    by rewrite Nat.add_0_r in Hl. }
  intros [] w2 _ Ht2 Hg2. apply keeps_seq, safe_keeps; [apply safe_decoder_endSlice|done|]. intros _ w3 Ht3 Hg3 _ _.
  apply IH; [done|]. apply (slices_at_grows (w_heap w)); [by etrans; [|etrans]|]. intros j y Hy.
  replace (S n + j)%nat with (n + S j)%nat by lia. by apply Hl.
Qed.

Lemma safe_read_instance t o : safe (read_instance readInstance fuel t o).
Proof.
  intros w Ht. apply keeps_seq, keeps_deref; [done|]. intros x Hx _ _.
  apply keeps_seq, safe_keeps; [|done|].
  { intros w' Ht'. apply keeps_seq, keeps_get_decoder; [done|]. intros d _ _ _ _.
    destruct (d_version d); [by apply safe_startInstance10|by apply safe_startInstance_d11]. }
  intros _ w1 Ht1 Hg1 _ _. apply keeps_seq. eapply keeps_weaken.
  { apply keeps_readImpl; [done|]. apply (slices_at_grows (w_heap w)); [done|]. intros j l Hl. exists x.
    split; [done|]. intros k m Hm. unfold slot_at. cbn. rewrite Hl. cbn. by rewrite Hm. }
  intros [] w2 _ Ht2 _. apply keeps_seq, safe_keeps; [|done|].
  { intros w' Ht'. apply keeps_seq, keeps_get_decoder; [done|]. intros d _ _ _ _. destruct (d_version d).
    - apply safe_bind; [apply safe_endInstance_d10|intros _; apply safe_ret|done].
    - by apply safe_endInstance_d11. }
  intros slicedData w3 Ht3 _ _ _. destruct (in_preserve x); [|by apply keeps_return].
  by apply safe_update_object.
Qed.

(** ** Instances *)

Lemma keeps_find_instance10 n mostDerivedId (Q : oref -> world -> Prop) : forall w, typed w ->
  (forall o w', is_Some (h_objects (w_heap w') !! o) -> Q o w') -> keeps (find_instance10 n mostDerivedId) Q w.
Proof.
  induction n as [|n IH]; intros w Ht HQ; cbn [find_instance10]; [by apply keeps_fault|].
  apply keeps_seq, safe_keeps; [apply safe_this_d10|done|]. intros d w1 Ht1 _ _ _.
  case_bool_decide; [by apply keeps_raise|].
  apply keeps_seq, keeps_newInstance; [done|]. intros [o|] w2 Ho Ht2 _; [by apply keeps_return; [|apply HQ]|].
  apply keeps_seq, keeps_get_dbase; [done|]. intros x _ _ _. destruct (negb _); [by apply keeps_raise|].
  apply keeps_seq, safe_keeps; [apply safe_skipSlice10|done|]. intros _ w3 Ht3 _ _ _.
  apply keeps_seq, safe_keeps; [apply safe_startSlice_d10|done|]. intros _ w4 Ht4 _ _ _. by apply IH.
Qed.

Lemma safe_readInstance10 : safe (readInstance10 readInstance fuel).
Proof.
  apply safe_bind; [safes|]. intros index. destruct (index <=? 0); [apply safe_throw|].
  apply safe_bind; [apply safe_set_d10|]. intros _. apply safe_bind; [apply safe_startSlice_d10|]. intros typeId w Ht.
  apply keeps_seq, keeps_find_instance10; [done|]. intros o w1 Ho Ht1 _.
  apply keeps_unmarshal; [intros; apply safe_read_instance|done|done].
Qed.

Lemma safe_resolve_compactId k : safe (resolve_compactId k).
Proof.
  unfold resolve_compactId. apply safe_bind; [|intros ?; apply safe_ret].
  destruct compactIdResolver as [f|]; [|apply safe_ret].
  destruct (f k) as [?|?|[]|]; first [apply safe_ret|apply safe_throw].
Qed.

Lemma keeps_find_instance11 n mostDerivedId (Q : oref -> world -> Prop) : forall w, typed w ->
  (forall o w', is_Some (h_objects (w_heap w') !! o) -> Q o w') ->
  keeps (find_instance11 readInstance n mostDerivedId) Q w.
Proof.
  induction n as [|n IH]; intros w Ht HQ; cbn [find_instance11]; [by apply keeps_fault|].
  apply keeps_seq, safe_keeps; [apply safe_current_r|done|]. intros c w1 Ht1 _ _ _.
  apply keeps_seq, safe_keeps; [|done|].
  { destruct (0 <=? _); [|apply safe_ret]. apply safe_bind; [by apply safe_mod_current_r|]. intros _.
    apply safe_bind; [apply safe_resolve_compactId|]. intros ?. by apply safe_mod_current_r. }
  intros _ w2 Ht2 _ _ _. apply keeps_seq, keeps_current_r; [done|]. intros c2 _ _ _. apply keeps_seq.
  assert (keeps match ri_typeId c2 with [] => mret None | _ :: _ => newInstance (ri_typeId c2) end handle_ok w2) as H.
  { destruct (ri_typeId c2); [by apply keeps_return|by apply keeps_newInstance]. }
  eapply keeps_weaken; [exact H|]. intros [o|] w3 Ho Ht3 _; [by apply keeps_return; [|apply HQ]|].
  apply keeps_seq, keeps_get_dbase; [done|]. intros x _ _ _. destruct (negb _); [by apply keeps_raise|].
  apply keeps_seq, safe_keeps; [apply safe_skipSlice11|done|]. intros _ w4 Ht4 _ _ _.
  apply keeps_seq, keeps_current_r; [done|]. intros c4 _ _ _. destruct (has _ _).
  - apply keeps_seq, keeps_newInstance; [done|]. intros [o|] w5 Ho5 Ht5 _; [by apply keeps_return; [|apply HQ]|].
    apply keeps_allocate; [done|constructor|done].
  - apply keeps_seq, safe_keeps; [apply safe_startSlice_d11|done|]. intros _ w5 Ht5 _ _ _. by apply IH.
Qed.

Lemma keeps_readInstance11_body index patch w : typed w -> patch_opt_ok (w_heap w) patch ->
  keeps (readInstance11_body readInstance fuel index patch) (fun _ _ => True) w.
Proof.
  intros Ht Hp. apply keeps_seq, safe_keeps; [apply safe_assert|done|]. intros _ w1 Ht1 Hg1 _ _.
  assert (patch_opt_ok (w_heap w1) patch) as Hp1 by by eapply patch_opt_grows.
  destruct (1 <? index).
  { apply keeps_seq. destruct patch as [p|]; [apply keeps_addPatchEntry; [done..|]|apply keeps_return; [done|]];
      intros; by apply keeps_return. }
  apply keeps_seq, safe_keeps; [apply safe_push|done|]. intros _ w2 Ht2 Hg2 _ _.
  apply keeps_seq, keeps_this_d11; [done|]. intros d Hd _ _. cbv zeta.
  apply keeps_seq, keeps_set_dversion; [done|exact Hd|]. intros s Ht3 _.
  apply keeps_seq, safe_keeps; [apply safe_startSlice_d11|done|]. intros typeId w4 Ht4 Hg4 _ _.
  apply keeps_seq, keeps_find_instance11; [done|]. intros o w5 Ho Ht5 Hg5.
  apply keeps_seq. eapply keeps_weaken; [apply keeps_unmarshal; [intros; apply safe_read_instance|done|done]|].
  intros _ w6 _ Ht6 Hg6. apply keeps_seq, keeps_this_d11; [done|]. intros d6 _ _ _.
  apply keeps_seq, keeps_get_dbase; [done|]. intros x _ _ _.
  apply keeps_seq. destruct (_ && _); [by apply keeps_raise|]. apply keeps_return; [done|]. intros _ _.
  assert (patch_opt_ok (w_heap w6) patch) as Hp6.
  { eapply patch_opt_grows; [|exact Hp1]. etrans; [exact Hg2|]. etrans; [exact Hg4|]. by etrans. }
  apply keeps_seq. destruct patch as [p|]; [apply keeps_patchHandle; [done..|]|apply keeps_return; [done|]];
    intros; by apply keeps_return.
Qed.
End nested.

(** ** The recursion *)

Section recursion.
Context `{PL : Platform} {DF : Defaults} {FA : Factories} {FL : FactoryLaws FA}.

Lemma keeps_readInstance11 depth fuel index patch w : typed w -> patch_opt_ok (w_heap w) patch ->
  keeps (readInstance11 depth fuel index patch) (fun _ _ => True) w.
Proof.
  revert index patch w. induction depth as [|depth IH]; intros index patch w Ht Hp; cbn [readInstance11].
  - by apply keeps_fault.
  - by apply keeps_readInstance11_body.
Qed.

Lemma keeps_stream_read depth fuel declared p w : typed w ->
  pa_declared <$> h_params (w_heap w) !! p = Some declared ->
  keeps (stream_read depth fuel declared p) (fun _ _ => True) w.
Proof. intros Ht Hp. apply safe_read_object; [apply keeps_readInstance11|done|done]. Qed.

Lemma safe_readPendingObjects10 depth fuel : safe (readPendingObjects10 depth fuel).
Proof.
  unfold readPendingObjects10. apply safe_bind.
  - generalize fuel at 2 as rounds. intros rounds. induction rounds as [|rounds IH]; cbn [read_rounds]; [apply safe_fault|].
    apply safe_bind; [safes|]. intros num. apply safe_bind.
    + induction (Z.to_nat num) as [|k IHk]; cbn [read_round]; [apply safe_ret|].
      apply safe_bind; [|done]. by apply safe_readInstance10, keeps_readInstance11.
    + intros _. destruct (num =? 0); [apply safe_ret|done].
  - intros _ w Ht. apply keeps_seq, keeps_get_dbase; [done|]. intros x _ _ _.
    case_bool_decide; [by apply keeps_return|by apply keeps_raise].
Qed.

Lemma safe_readPendingObjects {AL : Allocator} depth fuel :
  safe (readPendingObjects (PO := ice_pending depth fuel)).
Proof.
  unfold readPendingObjects. safes; try (apply safe_stream; frames).
  intros w Ht. apply keeps_seq, keeps_get_decoder; [done|]. intros x _ _ _ _.
  destruct (d_version x); [by apply safe_readPendingObjects10|by apply keeps_return].
Qed.

(** Exceptions are created by the factory of the stub or by the table. *)
Definition factory_ok (f : option (str -> Instance)) : Prop :=
  match f with Some f => forall typeId, new_object (f typeId) | None => True end.

Lemma find_factory_new f typeId create : factory_ok f -> find_factory f typeId = Some create ->
  new_object (create typeId).
Proof.
  intros Hf. unfold find_factory. destruct f as [g|]; [intros [= <-]; apply Hf|]. intros H. by eapply exception_creates.
Qed.

Lemma keeps_throw_read depth fuel create typeId after w : typed w -> new_object (create typeId) -> safe after ->
  keeps (throw_read depth fuel create typeId after) (fun _ _ => True) w.
Proof.
  intros Ht Hn Ha. apply keeps_seq, keeps_allocate; [done..|]. intros o w1 _ Ht1 _.
  apply safe_bind; [apply safe_read_instance, keeps_readInstance11|intros _|done].
  apply safe_bind; [done|]. intros _. apply safe_ret.
Qed.

Lemma safe_throwException depth fuel f : factory_ok f -> safe (throwException depth fuel f).
Proof.
  intros Hf. apply safe_bind; [apply safe_initReadEncaps|]. intros _ w Ht.
  apply keeps_seq, keeps_get_decoder; [done|]. intros x _ _ _ _. destruct (d_version x).
  - revert w Ht. change (safe (throwException10 depth fuel f)). unfold throwException10.
    apply safe_bind; [apply safe_this_d10|]. intros d0. apply safe_bind; [apply safe_assert|]. intros _.
    apply safe_bind; [safes|]. intros usesClasses. apply safe_bind; [apply safe_set_d10|]. intros _.
    apply safe_bind; [apply safe_startSlice_d10|]. intros _.
    generalize fuel at 2 as slices. intros slices. induction slices as [|slices IH]; cbn [throw_slices10]; [apply safe_fault|].
    apply safe_bind; [apply safe_this_d10|]. intros d2. destruct (find_factory f _) as [create|] eqn:E.
    + intros w Ht. apply keeps_throw_read; [done|by eapply find_factory_new|].
      destruct usesClasses; [apply safe_readPendingObjects10|apply safe_ret].
    + apply safe_bind; [apply safe_skipSlice10|]. intros _. by apply safe_bind; [apply safe_startSlice_d10|].
  - revert w Ht. change (safe (throwException11 depth fuel f)). unfold throwException11.
    apply safe_bind; [apply safe_this_d11|]. intros d2. apply safe_bind; [apply safe_assert|]. intros _.
    apply safe_bind; [apply safe_push|]. intros _. apply safe_bind; [apply safe_startSlice_d11|]. intros typeId.
    generalize fuel at 2 as slices. intros slices. induction slices as [|slices IH]; cbn [throw_slices11]; [apply safe_fault|].
    apply safe_bind; [apply safe_current_r|]. intros c. destruct (find_factory f _) as [create|] eqn:E.
    + intros w Ht. apply keeps_throw_read; [done|by eapply find_factory_new|apply safe_ret].
    + apply safe_bind; [apply safe_skipSlice11, keeps_readInstance11|]. intros _.
      apply safe_bind; [apply safe_current_r|]. intros c2. destruct (has _ _); [apply safe_throw|].
      by apply safe_bind; [apply safe_startSlice_d11|].
Qed.
End recursion.
