(* ===== verification/ObjectSpec.v ===== *)
(** * Objects and exceptions: what decoding guarantees

    Programs that read classes and exceptions from a stream, as sequences of
    the operations of the stream: whatever they are sent, their class pointers
    keep their types. *)

From S2P Require Import Prelude Hoare OrderedMap CxxString Buffer Layout Protocol Stream Wire Codecs StreamString.
From S2P Require Import StreamHelpers StreamSpec Encaps OptionalSpec StreamOptional StreamFrame.
From S2P Require Import ObjectData ObjectWrite ObjectRead ObjectTypes ObjectSafe ObjectSound.

(** ** Programs that read *)

(** An operation of a stream that is being read: [ReadClass p] reads a class
    pointer into the variable [p], [ThrowException f] a user exception with
    the factory [f]. *)
Inductive reading : Type :=
  | StartReadEncaps
  | EndReadEncaps
  | ReadClass (p : nat)
  | ReadValue (t : ty)
  | ReadOptional (tag : Z) (t : ty)
  | ReadPendingObjects
  | ThrowException (factory : option (str -> Instance)).

Section readings.
Context `{PL : Platform} {DF : Defaults} {FA : Factories} {AL : Allocator} (depth fuel : nat).

Definition perform (r : reading) : M world unit :=
  let OC := decoder_calls (readInstance11 depth fuel) fuel in
  match r with
  | StartReadEncaps => on_stream startReadEncaps;; mret tt
  | EndReadEncaps => endReadEncapsChecked fuel
  | ReadClass p =>
      w ← get;
      match h_params (w_heap w) !! p with
      | Some q => stream_read depth fuel (pa_declared q) p
      | None => faultM UndefinedBehaviour
      end
  | ReadValue t => on_stream (read_ty t);; mret tt
  | ReadOptional tag t => read_opt fuel tag t;; mret tt
  | ReadPendingObjects => readPendingObjects (PO := ice_pending depth fuel)
  | ThrowException factory => throwException depth fuel factory;; mret tt
  end.

(** The program catches what an operation throws and goes on. *)
Fixpoint perform_all (l : list reading) (w : world) : world :=
  match l with [] => w | r :: l' => perform_all l' (perform r w).2 end.

Definition reading_ok (r : reading) : Prop := match r with ThrowException f => factory_ok f | _ => True end.

(** ** The chain of encapsulations *)

Context {FL : FactoryLaws FA}.

Lemma safe_chain {A} (m : M _ A) :
  (forall h s, Forall (encaps_typed h) (preRead s :: readEncaps s) ->
    Forall (encaps_typed h) (preRead (m s).2 :: readEncaps (m s).2)) -> safe (on_stream m).
Proof.
  intros Hm w [Hh Hd]. specialize (Hm (w_heap w) (w_stream w) Hd). unfold keeps, on_stream, world_host, on.
  destruct (m (w_stream w)) as [r s']. cbn in *. by split; [split|split].
Qed.

Lemma safe_bind_stream {A B} (m : M (BasicStream Decoder Encoder) A) (k : A -> M _ B) :
  safe (on_stream m) -> (forall a, safe (on_stream (k a))) -> safe (on_stream (mbind k m)).
Proof.
  intros Hm Hk w Ht. pose proof (safe_bind (on_stream m) (fun a => on_stream (k a)) Hm Hk w Ht) as H.
  unfold keeps, on_stream, world_host, on, mbind, M_bind in *.
  destruct (m (w_stream w)) as [[a|e|f] s'] eqn:Em; cbn in *; [|done..].
  by destruct (k a s') as [r s''].
Qed.

Lemma safe_push_read : safe (on_stream push_read).
Proof.
  apply safe_chain. intros h s H. cbn. apply Forall_cons in H as [Hp Hd].
  destruct (readEncaps s) as [|e l]; cbn; repeat constructor; try done; by apply Forall_cons in Hd as [].
Qed.

Lemma safe_pop_read : safe (on_stream (modify pop_read)).
Proof.
  apply safe_chain. intros h s H. cbn. unfold pop_read. destruct (readEncaps s) as [|e l] eqn:El; cbn; [by rewrite El|].
  apply Forall_cons in H as [Hp Hd]. apply Forall_cons in Hd as [He Hd].
  destruct l as [|e' l]; cbn; constructor; try done; by constructor.
Qed.

Lemma safe_update_read f : (forall h e, encaps_typed h e -> encaps_typed h (f e)) -> safe (on_stream (update_read f)).
Proof.
  intros Hf. apply safe_chain. intros h s H. cbn. destruct (readEncaps s) as [|e l] eqn:El; cbn; [by rewrite El|].
  apply Forall_cons in H as [Hp Hd]. apply Forall_cons in Hd as [He Hd]. repeat constructor; auto.
Qed.

Lemma safe_startReadEncaps : safe (on_stream startReadEncaps).
Proof.
  unfold startReadEncaps, throwUnmarshalOutOfBounds.
  apply safe_bind_stream; [apply safe_push_read|]. intros _.
  apply safe_bind_stream; [apply safe_stream; frames|]. intros sz.
  destruct (sz <? 6); [apply safe_stream; frames|].
  apply safe_bind_stream; [apply safe_stream; frames|]. intros s.
  destruct (encaps_overruns sz s); [apply safe_stream; frames|].
  apply safe_bind_stream; [by apply safe_update_read|]. intros _.
  apply safe_bind_stream; [apply safe_stream; unfold read_EncodingVersion; frames|]. intros enc.
  apply safe_bind_stream; [by apply safe_update_read|]. intros _.
  apply safe_stream. frames.
Qed.

Lemma safe_endReadEncaps : safe (endReadEncaps (OC := decoder_calls (readInstance11 depth fuel) fuel) fuel).
Proof.
  unfold endReadEncaps, before_encaps_end, throwEncapsulationException. safes;
    first [apply safe_skipOpts, safe_decoder_read0, keeps_readInstance11|apply safe_pop_read|apply safe_stream; frames].
Qed.

Lemma safe_perform r : reading_ok r -> safe (perform r).
Proof.
  intros Hr. destruct r; cbn [perform].
  - apply safe_bind; [apply safe_startReadEncaps|]. intros _. apply safe_ret.
  - unfold endReadEncapsChecked, not_in_an_encapsulation. safes. apply safe_endReadEncaps.
  - intros w Ht. unfold keeps. rewrite bind_get. destruct (h_params (w_heap w) !! p) as [q|] eqn:E;
      [|by apply (keeps_fault UndefinedBehaviour (fun _ _ => True))].
    apply keeps_stream_read; [done|]. by rewrite E.
  - safes.
  - apply safe_bind; [|intros; apply safe_ret]. apply safe_read_opt, keeps_readInstance11.
  - apply safe_readPendingObjects.
  - apply safe_bind; [by apply safe_throwException|]. intros _. apply safe_ret.
Qed.

Lemma perform_all_typed l : forall w, Forall reading_ok l -> typed w ->
  typed (perform_all l w) /\ grows (w_heap w) (w_heap (perform_all l w)).
Proof.
  induction l as [|r l IH]; intros w Hl Ht; cbn [perform_all]; [by split|].
  apply Forall_cons in Hl as [Hr Hl]. destruct (safe_perform r Hr w Ht) as (Ht' & Hg & _).
  destruct (IH _ Hl Ht') as [Ht2 Hg2]. split; [done|by etrans].
Qed.
End readings.

(** C3. Whatever bytes a program reads values, classes, optional values and
    exceptions from, with either encoding and in any order, and whatever it catches:
    every class pointer of an object, of a preserved slice or of a variable is null
    or refers to an object that is an instance of its static type, and the objects
    and variables that were there keep their types. *)
Theorem class_pointers_typed `{PL : Platform} `{DF : Defaults} {FA : Factories} {FL : FactoryLaws FA} {AL : Allocator}
    depth fuel enc max bytes at_ conv wconv h l :
  heap_typed h -> Forall reading_ok l ->
  let w := perform_all depth fuel l (MkWorld (stream_over enc max bytes at_ conv wconv) h []) in
  heap_typed (w_heap w) /\
  (forall p q o, h_params (w_heap w) !! p = Some q -> pa_value q = Some o ->
     exists x, h_objects (w_heap w) !! o = Some x /\ is_a x (pa_declared q) = true) /\
  (forall p, pa_declared <$> h_params (w_heap w) !! p = pa_declared <$> h_params h !! p) /\
  (forall o x, h_objects h !! o = Some x -> exists x', h_objects (w_heap w) !! o = Some x' /\ shape x' = shape x).
Proof.
  intros Hh Hl w. destruct (perform_all_typed depth fuel l (MkWorld (stream_over enc max bytes at_ conv wconv) h []) Hl)
    as ((Ht & _) & [Ho Hp]); [by split; [|repeat constructor]|]. fold w in Ht, Ho, Hp.
  split; [done|]. split; [|done]. intros p q o Hq Ho'. destruct Ht as [_ _ H3].
  eapply Forall_lookup_1 in H3; [|exact Hq]. by rewrite Ho' in H3.
Qed.

(** ** A concrete program *)

Module SampleObjects.
(** [class Base { Base left; Base right; }] and [class Node extends Base
    { int value; }], which has a factory in the static table *)
Definition node (v : Z) (l r : option oref) : Instance :=
  MkInstance [MkSlice (lit "::Node") (-1) [SData (TScalar Int) v];
    MkSlice (lit "::Base") (-1) [SClass (lit "::Base") l; SClass (lit "::Base") r]] false None None false.

#[export] Instance types : Factories := {|
  user_factory _ := None;
  table_factory t := if bool_decide (t = lit "::Node") then Some (fun _ => Some (node 0 None None)) else None;
  exception_factory _ := None;
  compactIdResolver := None;
  table_typeId _ := []
|}.

#[export] Instance types_laws : FactoryLaws types.
Proof.
  split; [done| |done]. intros id f typeId x. cbn. case_bool_decide; [|done]. intros [= <-] [= <-]. by repeat constructor.
Qed.
#[export] Instance addresses : Allocator := fun o => Z.of_nat o.
#[local] Existing Instance Sample.x86.

(** The encapsulation that a root and what it refers to are sent in *)
Definition sent (format : FormatType) (enc : EncodingVersion) (h : Heap) : list byte :=
  let DF : Defaults := format in
  b (w_stream ((on_stream (startWriteEncaps enc DefaultFormat);; stream_write 10 (Some 0%nat);;
    writePendingObjects (PO := ice_pending 10 10);; on_stream endWriteEncaps)
    (MkWorld (stream_new enc 1000 false None Sample.doubling) h [])).2).

Definition empty_heap (declared : str) : Heap := MkHeap [] [] [MkParam declared None].
Definition readings : list reading := [StartReadEncaps; ReadClass 0; ReadPendingObjects; EndReadEncaps].
Definition received (enc : EncodingVersion) (bytes : list byte) (declared : str) : world :=
  let DF : Defaults := SlicedFormat in
  perform_all 10 10 readings (MkWorld (stream_over enc 1000 bytes 4096 None Sample.doubling) (empty_heap declared) []).

(** Two nodes that refer to each other, the first one to itself as well *)
Definition graph : Heap := MkHeap [node 1 (Some 1%nat) (Some 0%nat); node 2 (Some 0%nat) None] [] [].

(** It arrives in both formats of encoding 1.1 and with encoding 1.0. *)
Example graph_arrives :
  (fun fe => h_objects (w_heap (received fe.2 (sent fe.1 fe.2 graph) (lit "::Base")))) <$>
    [(SlicedFormat, Encoding_1_1); (CompactFormat, Encoding_1_1); (SlicedFormat, Encoding_1_0)] =
  replicate 3 (h_objects graph).
Proof. vm_compute. reflexivity. Qed.

(** A slice of an unknown type that claims optional members and has no bytes *)
Definition empty_slice : list byte := chr <$> [14; 0; 0; 0; 1; 1; 1; 21; 1; 88; 4; 0; 0; 0].
End SampleObjects.

Lemma class_pointers_typed_witness :
  let DF : Defaults := SlicedFormat in
  let bytes := SampleObjects.sent SlicedFormat Encoding_1_1 SampleObjects.graph in
  let w := SampleObjects.received Encoding_1_1 bytes (lit "::Other") in
  length (h_objects (w_heap w)) = 2%nat /\ heap_typed (w_heap w).
Proof.
  split; [vm_compute; reflexivity|].
  refine (proj1 (class_pointers_typed (PL := Sample.x86) (DF := SlicedFormat)
    (FL := SampleObjects.types_laws) 10 10 Encoding_1_1 1000
    (SampleObjects.sent SlicedFormat Encoding_1_1 SampleObjects.graph) 4096 None Sample.doubling
    (SampleObjects.empty_heap (lit "::Other")) SampleObjects.readings _ _)).
  - split; [constructor|constructor|constructor; [exact I|constructor]].
  - repeat constructor.
Defined.

(** A slice of an unknown type without bytes that claims optional members: the
    end of the range that is preserved is before its start. *)
Theorem skipSlice_undefined :
  let DF : Defaults := SlicedFormat in
  let w := MkWorld (stream_over Encoding_1_1 1000 SampleObjects.empty_slice 4096 None Sample.doubling)
    (SampleObjects.empty_heap (lit "::Base")) [] in
  let perform := perform (PL := Sample.x86) (FA := SampleObjects.types) (AL := SampleObjects.addresses) 10 10 in
  (perform (ReadClass 0) (perform StartReadEncaps w).2).1 = Fault UndefinedBehaviour.
Proof. vm_compute. reflexivity. Qed.
