(* ===== verification/GraphWrite.v ===== *)
(** * The wire format of object graphs, and its encoder

    What the compact format of encoding 1.1 writes for a class pointer: a
    grammar over the objects and the type ids that were written before. An
    object is written where it is first met; from then on its index stands for
    it. [writeInstance] terminates on every graph, cycles included, and writes a
    sentence of [instance_wire]; GraphRead.v proves that the decoder understands
    these sentences. *)

From S2P Require Import Prelude Hoare OrderedMap CxxString Buffer Layout Protocol Stream Wire Codecs StreamString.
From S2P Require Import StreamHelpers StreamSpec Encaps OptionalSpec StreamOptional ObjectData ObjectWrite ObjectRead.
From S2P Require Import ObjectTypes.

(** No exception is thrown. *)
Definition never {S} : exn -> S -> Prop := fun _ _ => False.

(** The objects and the type ids that are on the wire, in the order of their
    indices *)
Record Marshaled : Type := MkMarshaled { seen : list oref; tids : list str }.

Definition nothing : Marshaled := MkMarshaled [] [].
Definition meet (o : oref) (m : Marshaled) : Marshaled := MkMarshaled (seen m ++ [o]) (tids m).

(** The indices of the [n]th object and of the [n]th type id *)
Definition object_index (n : nat) : Z := Z.of_nat n + 2.
Definition typeId_index (n : nat) : Z := Z.of_nat n + 1.

(** The flag that announces the type id of a first slice, its bytes, and the
    type ids that are known behind it. Indices and lengths are [Int]s. *)
Inductive typeId_wire (typeId : str) (compactId : Z) (l : list str) : Z -> list byte -> list str -> Prop :=
  | wire_compact : 0 <= compactId < 2 ^ 31 ->
      typeId_wire typeId compactId l FLAG_HAS_TYPE_ID_COMPACT (size_bytes compactId) l
  | wire_index n : compactId < 0 -> l !! n = Some typeId -> typeId_index n < 2 ^ 31 ->
      typeId_wire typeId compactId l FLAG_HAS_TYPE_ID_INDEX (size_bytes (typeId_index n)) l
  | wire_string : compactId < 0 -> (typeId ∉ l) -> int_length typeId -> typeId_index (length l) < 2 ^ 31 ->
      typeId_wire typeId compactId l FLAG_HAS_TYPE_ID_STRING (seq_bytes typeId typeId) (l ++ [typeId]).

Definition last_flag (l : list Slice) : Z := match l with [] => FLAG_IS_LAST_SLICE | _ => 0 end.

Section wire.
Context (C1 C2 : Config) (h : Heap).

Section members.
Variable instance_wire : oref -> Marshaled -> list byte -> Marshaled -> Prop.

Inductive member_wire : slot -> Marshaled -> list byte -> Marshaled -> Prop :=
  | wire_data t v bs need m : wire C1 C2 t v bs need -> member_wire (SData t v) m bs m
  | wire_null d m : member_wire (SClass d None) m (size_bytes 0) m
  | wire_object d o bs m m' : instance_wire o m bs m' -> member_wire (SClass d (Some o)) m bs m'
  | wire_unset tag t m : member_wire (SOptional tag t None) m [] m.

Inductive members_wire : list slot -> Marshaled -> list byte -> Marshaled -> Prop :=
  | members_nil m : members_wire [] m [] m
  | members_cons x l bs1 bs2 m m1 m2 : member_wire x m bs1 m1 -> members_wire l m1 bs2 m2 ->
      members_wire (x :: l) m (bs1 ++ bs2) m2.

(** The slices behind the first one have no type id. *)
Inductive slices_wire : list Slice -> Marshaled -> list byte -> Marshaled -> Prop :=
  | slices_nil m : slices_wire [] m [] m
  | slices_cons x l bs1 bs2 m m1 m2 : members_wire (sl_members x) m bs1 m1 -> slices_wire l m1 bs2 m2 ->
      slices_wire (x :: l) m (chr (last_flag l) :: bs1 ++ bs2) m2.

Inductive object_wire : list Slice -> Marshaled -> list byte -> Marshaled -> Prop :=
  | wire_slices x l flag ids bs0 bs1 bs2 m m1 m2 :
      typeId_wire (sl_typeId x) (sl_compactId x) (tids m) flag bs0 ids ->
      members_wire (sl_members x) (MkMarshaled (seen m) ids) bs1 m1 ->
      slices_wire l m1 bs2 m2 ->
      object_wire (x :: l) m (chr (Z.lor (last_flag l) flag) :: bs0 ++ bs1 ++ bs2) m2.
End members.

(** An object, or the index of one that was met; [d] bounds the nesting. *)
Fixpoint instance_wire (d : nat) (o : oref) (m : Marshaled) (bs : list byte) (m' : Marshaled) : Prop :=
  match d with
  | O => False
  | S d' =>
      (exists n, seen m !! n = Some o /\ object_index n < 2 ^ 31 /\ bs = size_bytes (object_index n) /\ m' = m) \/
      ((o ∉ seen m) /\ object_index (length (seen m)) < 2 ^ 31 /\ exists x body, h_objects h !! o = Some x /\ bs = size_bytes 1 ++ body /\
        object_wire (instance_wire d') (in_slices x) (meet o m) body m')
  end.

(** ** Objects that can be sent

    Their values can be written, their pointers refer to objects, the type
    ids and compact ids have their sizes, and no optional member is set. *)

Definition member_ok (s : slot) : Prop :=
  match s with
  | SData t v => exists bs need, wire C1 C2 t v bs need
  | SClass _ (Some o) => is_Some (h_objects h !! o)
  | SClass _ None => True
  | SOptional _ _ v => v = None
  end.

Definition slice_sendable (l : Slice) : Prop :=
  Forall member_ok (sl_members l) /\ int_length (sl_typeId l) /\ sl_compactId l < 2 ^ 31.
Definition object_sendable (x : Instance) : Prop := in_slices x <> [] /\ Forall slice_sendable (in_slices x).

Record sendable : Prop := {
  sendable_objects : Forall object_sendable (h_objects h);
  sendable_count : Z.of_nat (length (h_objects h)) < 2 ^ 31 - 2
}.

(** ** Growth *)

Definition extends (m m' : Marshaled) : Prop := (exists l, seen m' = seen m ++ l) /\ exists l, tids m' = tids m ++ l.

#[export] Instance extends_preorder : PreOrder extends.
Proof.
  split.
  - intros m. split; exists []; by rewrite app_nil_r.
  - intros m1 m2 m3 [[l E1] [k E2]] [[l' E3] [k' E4]].
    split; [exists (l ++ l')|exists (k ++ k')]; by rewrite ?E3, ?E4, ?E1, ?E2, app_assoc.
Qed.

Lemma extends_seen m m' n o : extends m m' -> seen m !! n = Some o -> seen m' !! n = Some o.
Proof. intros [[l ->] _] Hn. by apply lookup_app_l_Some. Qed.
End wire.

(** ** The encoder *)

Section writing.
Context `{PL : Platform} {DF : Defaults} {AL : Allocator} (C1 C2 : Config) (h : Heap).
Local Existing Instance C1.

(** The stream before the graph, in an encapsulation of the compact format *)
Variable s0 : BasicStream Decoder Encoder.
Variables (e0 : WriteEncaps Encoder) (prev0 : list (WriteEncaps Encoder)).
Hypothesis compact : we_format e0 = CompactFormat.
Hypothesis s0_configured : configured s0.
Hypothesis s0_encoding : write_encoding s0 = we_encoding e0.
Hypothesis s0_unlimited : unlimited s0 = true.

(** The world when [bs] is written *)
Definition writing (bs : list byte) (enc : Encoder) (hooks : list hook) : world :=
  MkWorld (set_write (MkWriteEncaps (we_start e0) (we_encoding e0) (we_format e0) (Some enc) :: prev0) (preWrite s0)
    (appended bs s0)) h hooks.

Lemma writing_fits bs enc hooks n : fits (w_stream (writing bs enc hooks)) n.
Proof.
  split; [|by left]. destruct s0_configured as (H1 & H2 & H3 & H4). split; [done|]. split; [done|]. split; [done|].
  by rewrite <- H4, s0_encoding.
Qed.

Lemma wp_stream {A} need (m : M _ A) bs a (Q : A -> world -> Prop) bs0 enc hooks :
  writes_within need m bs a -> Q a (writing (bs0 ++ bs) enc hooks) -> wp (on_stream m) Q never (writing bs0 enc hooks).
Proof.
  intros [_ Hm] HQ. apply wp_on. eapply wp_eq; [apply Hm, writing_fits|].
  revert HQ. unfold writing, set_stream. cbn. by rewrite <- appended_app.
Qed.

(** ** The state of the encoder *)

Definition maps_ok (m : Marshaled) (objects : gmap oref Z) (ids : gmap str Z) : Prop :=
  (forall o k, objects !! o = Some k <-> exists n, seen m !! n = Some o /\ k = object_index n) /\
  (forall t k, ids !! t = Some k <-> exists n, tids m !! n = Some t /\ k = typeId_index n).

Definition clean (c : WriteInstance) : Prop := wi_indirectionTable c = [] /\ wi_indirectionMap c = ∅.

(** The encoder when [m] is on the wire, in the instances [stack] *)
Definition encoder_at (m : Marshaled) (stack : list WriteInstance) (x : Encoder) : Prop :=
  exists objects ids spare, x = MkEncoder (MkEncoderBase objects ids (Z.of_nat (length (tids m))))
      (W11 (MkEncoder11 stack spare (1 + Z.of_nat (length (seen m))))) /\
    maps_ok m objects ids /\ Forall clean spare.

Lemma maps_ok_nothing : maps_ok nothing ∅ ∅.
Proof. split; intros; rewrite lookup_empty; (split; [done|]); by intros (n & ? & _). Qed.

Lemma insert_index {A} `{EqDecision A, Countable A} (l : list A) (index : nat -> Z) (x : A) (f : gmap A Z) :
  (forall y k, f !! y = Some k <-> exists n, l !! n = Some y /\ k = index n) -> (x ∉ l) ->
  forall y k, <[x := index (length l)]> f !! y = Some k <-> exists n, (l ++ [x]) !! n = Some y /\ k = index n.
Proof.
  intros Hf Hx y k. destruct (decide (x = y)) as [->|Hne].
  - rewrite lookup_insert_eq. split.
    + intros [= <-]. exists (length l). by rewrite lookup_app_r, Nat.sub_diag.
    + intros (n & Hn & ->). apply lookup_app_Some in Hn as [Hn|[Hl Hn]].
      * exfalso. apply Hx. by eapply list_elem_of_lookup_2.
      * destruct (n - length l)%nat eqn:E; [|done]. by replace n with (length l) by lia.
  - rewrite lookup_insert_ne, Hf by done. split; intros (n & Hn & ->); exists n; (split; [|done]).
    + by apply lookup_app_l_Some.
    + apply lookup_app_Some in Hn as [Hn|[_ Hn]]; [done|]. by destruct (n - length l)%nat; cbn in Hn; simplify_eq.
Qed.

Lemma maps_ok_fresh m objects ids o : maps_ok m objects ids -> objects !! o = None -> (o ∉ seen m).
Proof.
  intros [H1 _] Ho Hin. apply list_elem_of_lookup in Hin as [n Hn].
  assert (objects !! o = Some (object_index n)) by (apply H1; eauto). congruence.
Qed.

(** One statement that looks at or replaces the encoder *)
Local Ltac enc := apply wp_bind; eapply wp_eq; [reflexivity|cbv beta zeta].

(** ** Slices *)

Definition slice_at (pos : nat) (flags : Z) (c : WriteInstance) : Prop :=
  clean c /\ wi_sliceType c = ObjectSlice /\ wi_firstSlice c = false /\ wi_sliceFlags c = flags /\
  wi_sliceFlagsPos c = (length (b s0) + pos)%nat.

Lemma wp_registerTypeId m stack x t (Q : Z -> world -> Prop) bs0 hooks :
  encoder_at m stack x -> Z.of_nat (length (tids m)) + 1 < 2 ^ 31 ->
  (forall n, tids m !! n = Some t -> Q (typeId_index n) (writing bs0 x hooks)) ->
  (forall x', (t ∉ tids m) -> encoder_at (MkMarshaled (seen m) (tids m ++ [t])) stack x' -> Q (-1) (writing bs0 x' hooks)) ->
  wp (registerTypeId t) Q never (writing bs0 x hooks).
Proof.
  intros (objects & ids & spare & -> & [Ho Hi] & Hs) Hn Hknown Hnew. unfold registerTypeId. enc.
  cbn [typeIdWriteMap e_base typeIdWriteIndex marshaledMap]. destruct (ids !! t) as [k|] eqn:E.
  - apply wp_ret. apply Hi in E as (n & Hl & ->). by apply Hknown.
  - rewrite to_i32_id by lia. enc. apply wp_ret.
    assert (t ∉ tids m) as Ht.
    { intros Hin. apply list_elem_of_lookup in Hin as [n Hl].
      assert (ids !! t = Some (typeId_index n)) by (apply Hi; eauto). congruence. }
    apply Hnew; [done|]. eexists objects, _, spare. split.
    + cbn. rewrite length_app, Nat2Z.inj_add. reflexivity.
    + split; [|done]. split; [done|]. cbn. by apply (insert_index (tids m) typeId_index).
Qed.

Lemma encoder_at_current m c stack x : encoder_at m (c :: stack) x ->
  forall c', exists x', encoder_at m (c' :: stack) x' /\ forall bs0 hooks,
    set_current_w c' (writing bs0 x hooks) = (Ok tt, writing bs0 x' hooks).
Proof.
  intros (objects & ids & spare & -> & Hm & Hs) c'. eexists. split; [by eexists objects, ids, spare|]. reflexivity.
Qed.

Lemma encoder_at_get m c stack x : encoder_at m (c :: stack) x -> forall bs0 hooks,
  current_w (writing bs0 x hooks) = (Ok c, writing bs0 x hooks).
Proof. by intros (objects & ids & spare & -> & _). Qed.

Lemma get_format bs0 x hooks : current_format (writing bs0 x hooks) = (Ok CompactFormat, writing bs0 x hooks).
Proof.
  change (current_format (writing bs0 x hooks)) with (Ok (we_format e0), writing bs0 x hooks). by rewrite compact.
Qed.

Lemma get_pos bs0 x hooks :
  on_stream (gets b_size) (writing bs0 x hooks) = (Ok (length (b s0) + length bs0)%nat, writing bs0 x hooks).
Proof. cbn. unfold writing, b_size. cbn. by rewrite length_app. Qed.

Lemma wp_add_sliceFlags m c stack x flag (Q : unit -> world -> Prop) bs0 hooks : encoder_at m (c :: stack) x ->
  (forall x', encoder_at m (MkWriteInstance (wi_sliceType c) (wi_firstSlice c) (Z.lor (wi_sliceFlags c) flag)
      (wi_writeSlice c) (wi_sliceFlagsPos c) (wi_indirectionMap c) (wi_indirectionTable c) :: stack) x' ->
    Q tt (writing bs0 x' hooks)) ->
  wp (add_sliceFlags flag) Q never (writing bs0 x hooks).
Proof.
  intros Hx HQ. unfold add_sliceFlags, set_sliceFlags.
  apply wp_bind; eapply wp_eq; [by eapply encoder_at_get|].
  apply wp_bind; eapply wp_eq; [by eapply encoder_at_get|].
  edestruct encoder_at_current as (x' & Hx' & E); [done|]. eapply wp_eq; [apply E|]. by apply HQ.
Qed.

Lemma write_typeId_writes t : int_length t -> exists need, writes_within need (write_string (D:=Decoder) (E:=Encoder) t false) (seq_bytes t t) tt.
Proof. intros Ht. eexists. by eapply write_string_writes. Qed.

Lemma wp_startSlice11 m c stack x bs0 hooks (first : bool) typeId compactId (last : bool) (Q : unit -> world -> Prop) :
  encoder_at m (c :: stack) x -> clean c -> wi_sliceType c = ObjectSlice -> wi_firstSlice c = first ->
  int_length typeId -> compactId < 2 ^ 31 -> Z.of_nat (length (tids m)) + 1 < 2 ^ 31 ->
  (forall flag bs ids x' c', (if first then typeId_wire typeId compactId (tids m) flag bs ids
      else flag = 0 /\ bs = [] /\ ids = tids m) ->
    encoder_at (MkMarshaled (seen m) ids) (c' :: stack) x' ->
    slice_at (length bs0) (Z.lor (if last then FLAG_IS_LAST_SLICE else 0) flag) c' ->
    Q tt (writing (bs0 ++ chr 0 :: bs) x' hooks)) ->
  wp (startSlice11 typeId compactId last) Q never (writing bs0 x hooks).
Proof.
  intros Hx [Hc1 Hc2] Ht Hf Hid Hcid Hl HQ. unfold startSlice11.
  apply wp_bind; eapply wp_eq; [by eapply encoder_at_get|].
  apply wp_bind, wp_assert; [by apply bool_decide_eq_true|].
  apply wp_bind; eapply wp_eq; [apply get_pos|]. apply wp_bind; eapply wp_eq; [apply get_format|].
  cbv zeta. rewrite bool_decide_eq_false_2 by done. cbn [orb]. rewrite Z.lor_0_l.
  set (flags := if last then FLAG_IS_LAST_SLICE else 0) in *.
  edestruct encoder_at_current as (x1 & Hx1 & E1); [done|]. apply wp_bind; eapply wp_eq; [apply E1|].
  apply wp_bind. eapply wp_stream; [apply writes_is_within, write_Byte_writes|].
  rewrite Ht, bool_decide_eq_true_2, Hf by done. cbn [wi_sliceFlags].
  (* what follows the type id *)
  assert (forall flag bs ids x' c', (if first then typeId_wire typeId compactId (tids m) flag bs ids
      else flag = 0 /\ bs = [] /\ ids = tids m) ->
      encoder_at (MkMarshaled (seen m) ids) (c' :: stack) x' ->
      clean c' -> wi_sliceType c' = ObjectSlice -> wi_sliceFlags c' = Z.lor flags flag ->
      wi_sliceFlagsPos c' = (length (b s0) + length bs0)%nat ->
      wp (mret tt;; pos ← on_stream (gets b_size); c ← current_w;
        set_current_w (MkWriteInstance (wi_sliceType c) false (wi_sliceFlags c) pos (wi_sliceFlagsPos c)
          (wi_indirectionMap c) (wi_indirectionTable c))) Q never (writing ((bs0 ++ [chr 0]) ++ bs) x' hooks)) as Hend.
  { intros flag bs ids x' c' Hw Hx' Hc' Ht' Hf' Hp'. apply wp_bind, wp_ret.
    apply wp_bind; eapply wp_eq; [apply get_pos|]. apply wp_bind; eapply wp_eq; [by eapply encoder_at_get|].
    edestruct encoder_at_current as (x2 & Hx2 & E2); [exact Hx'|]. eapply wp_eq; [apply E2|].
    rewrite <- app_assoc. eapply HQ; [done|exact Hx2|]. destruct Hc'. by repeat split. }
  destruct first; [|].
  - destruct (0 <=? compactId) eqn:Ec; bool_to_prop.
    + apply wp_bind, wp_bind. eapply wp_add_sliceFlags; [exact Hx1|]. intros x2 Hx2.
      eapply wp_stream; [by apply writes_is_within, writeSize_writes|].
      eapply Hend; [by apply wire_compact|exact Hx2|..]; done.
    + apply wp_bind, wp_bind. eapply wp_registerTypeId; [exact Hx1|done| |].
      * intros n Hn. unfold typeId_index. rewrite (proj2 (Z.ltb_ge _ _)) by lia.
        apply wp_bind. eapply wp_add_sliceFlags; [exact Hx1|]. intros x2 Hx2.
        eapply wp_stream; [apply writes_is_within, writeSize_writes; lia|].
        eapply Hend; [apply wire_index; [done|done|unfold typeId_index; apply lookup_lt_Some in Hn; lia]|exact Hx2|..]; done.
      * intros x2 Hn Hx2. cbn [Z.ltb]. change (-1 <? 0) with true. cbv iota.
        apply wp_bind. eapply wp_add_sliceFlags; [exact Hx2|]. intros x3 Hx3.
        destruct (write_typeId_writes typeId Hid) as [need Hw]. eapply wp_stream; [exact Hw|].
        eapply Hend; [apply wire_string; [done|done|done|unfold typeId_index; lia]|exact Hx3|..]; done.
  - apply wp_bind, wp_ret. rewrite <- (app_nil_r (bs0 ++ [chr 0])).
    eapply Hend; [done| |..]; [by destruct m|done..|by rewrite Z.lor_0_r|done].
Qed.

Lemma wp_endSlice11 wi m c stack x bs0 bs1 hooks flags (Q : unit -> world -> Prop) :
  encoder_at m (c :: stack) x -> slice_at (length bs0) flags c ->
  has flags FLAG_HAS_OPTIONAL_MEMBERS = false -> has flags FLAG_HAS_SLICE_SIZE = false ->
  Q tt (writing (bs0 ++ chr flags :: bs1) x hooks) ->
  wp (endSlice11 wi) Q never (writing (bs0 ++ chr 0 :: bs1) x hooks).
Proof.
  intros Hx ([Hc1 Hc2] & Ht & Hf & Hfl & Hp) H1 H2 HQ. unfold endSlice11.
  apply wp_bind; eapply wp_eq; [by eapply encoder_at_get|]. rewrite Hfl, H1, H2, Hc1.
  apply wp_bind, wp_ret. apply wp_bind, wp_ret. apply wp_bind, wp_ret.
  apply wp_bind; eapply wp_eq; [by eapply encoder_at_get|]. rewrite Hfl, Hp.
  apply wp_on. unfold store. apply wp_bind, wp_get. cbv beta.
  assert (length (b s0) + length bs0 + length [chr flags] <= b_size (w_stream (writing (bs0 ++ chr 0 :: bs1) x hooks)))%nat as Hle.
  { unfold b_size. cbn. rewrite !length_app. cbn. lia. }
  rewrite (proj2 (Nat.leb_le _ _) Hle). apply wp_modify.
  assert (ByteSeq.store (length (b s0) + length bs0) [chr flags] (b s0 ++ bs0 ++ [chr 0] ++ bs1) =
    b s0 ++ bs0 ++ [chr flags] ++ bs1) as E.
  { rewrite app_assoc, ByteSeq.store_mid by (rewrite ?length_app; done). by rewrite <- app_assoc. }
  change (b (w_stream (writing (bs0 ++ chr 0 :: bs1) x hooks))) with (b s0 ++ bs0 ++ [chr 0] ++ bs1).
  rewrite E. exact HQ.
Qed.

(** ** Objects *)

Definition valid (m : Marshaled) : Prop :=
  NoDup (seen m) /\ Forall (fun o => is_Some (h_objects h !! o)) (seen m) /\ (length (tids m) <= length (seen m))%nat.
Definition unseen (m : Marshaled) : nat := (length (h_objects h) - length (seen m))%nat.

Lemma valid_count m : valid m -> (length (seen m) <= length (h_objects h))%nat.
Proof.
  intros (Hn & Hf & _). rewrite <- (length_seq (length (h_objects h)) 0).
  apply submseteq_length, NoDup_submseteq; [done|]. intros o Ho. apply elem_of_seq.
  eapply Forall_forall in Hf; [|exact Ho]. apply lookup_lt_is_Some in Hf. lia.
Qed.

Lemma unseen_extends m m' : extends m m' -> (unseen m' <= unseen m)%nat.
Proof. intros [[l E] _]. unfold unseen. rewrite E, length_app. lia. Qed.

(** What was written is a sentence of [G]. *)
Definition wrote (G : Marshaled -> list byte -> Marshaled -> Prop) (m : Marshaled) stack bs0 : unit -> world -> Prop :=
  fun _ w => exists bs m' x' hooks', w = writing (bs0 ++ bs) x' hooks' /\ G m bs m' /\ encoder_at m' stack x' /\
    extends m m' /\ valid m'.

Lemma wp_wrote_bind {A} G m stack bs0 (p : M world unit) (k : unit -> M world A) Q w :
  wp p (wrote G m stack bs0) never w ->
  (forall bs m' x' hooks', G m bs m' -> encoder_at m' stack x' -> extends m m' -> valid m' ->
    wp (k tt) Q never (writing (bs0 ++ bs) x' hooks')) -> wp (mbind k p) Q never w.
Proof.
  intros Hp Hk. apply wp_bind. eapply wp_conseq; [exact Hp| |done].
  intros [] w' (bs & m' & x' & hooks' & -> & HG & Hx & He & Hv). by eapply Hk.
Qed.

Lemma wp_version {A} (f g : M world A) m stack x Q bs0 hooks : encoder_at m stack x ->
  wp g Q never (writing bs0 x hooks) ->
  wp (x ← get_encoder; match e_version x with W10 _ => f | W11 _ => g end) Q never (writing bs0 x hooks).
Proof. intros (objects & ids & spare & -> & _) H. exact H. Qed.

Lemma get_initWriteEncaps bs0 x hooks :
  on_stream initWriteEncaps (writing bs0 x hooks) = (Ok tt, writing bs0 x hooks).
Proof. unfold writing. rewrite compact. reflexivity. Qed.

Section nested.
Variables (wi : option oref -> M world unit) (G : oref -> Marshaled -> list byte -> Marshaled -> Prop) (d : nat).

(** [wi] writes the objects that are nested in the one being written. *)
Hypothesis nested : forall o m stack x bs0 hooks, valid m -> is_Some (h_objects h !! o) -> (unseen m < d)%nat ->
  encoder_at m stack x -> wp (wi (Some o)) (wrote (G o) m stack bs0) never (writing bs0 x hooks).

Lemma wrote_stream {A} need (p : M _ A) bs (K : Marshaled -> list byte -> Marshaled -> Prop) m stack x bs0 hooks a :
  writes_within need p bs a -> K m bs m -> encoder_at m stack x -> valid m ->
  wp (on_stream p) (fun _ => wrote K m stack bs0 tt) never (writing bs0 x hooks).
Proof. intros Hp HK Hx Hv. eapply wp_stream; [exact Hp|]. by exists bs, m, x, hooks. Qed.

Lemma wp_write_member s m stack x bs0 hooks : member_ok C1 C2 h s -> valid m -> (unseen m < d)%nat ->
  encoder_at m stack x ->
  wp (write_member wi s) (wrote (member_wire C1 C2 G s) m stack bs0) never (writing bs0 x hooks).
Proof.
  intros Hs Hv Hd Hx. destruct s as [t v|declared [o|]|tag t v]; cbn [write_member member_ok] in *.
  - destruct Hs as (bs & need & Hw). eapply wp_conseq; [|by intros [] w H; exact H|done].
    eapply wrote_stream; [by eapply (ty_writes C1 C2 t)|by econstructor|done..].
  - apply wp_bind; eapply wp_eq; [apply get_initWriteEncaps|]. eapply wp_version; [exact Hx|].
    cbn [write11]. pose proof Hx as (objects & ids & spare & E & _).
    apply wp_bind; eapply wp_eq; [by rewrite E|]. apply wp_bind; eapply wp_eq; [apply get_format|].
    cbn [e11_stack]. rewrite (bool_decide_eq_false_2 (CompactFormat = SlicedFormat)) by done.
    assert (wp (wi (Some o)) (wrote (member_wire C1 C2 G (SClass declared (Some o))) m stack bs0) never
      (writing bs0 x hooks)) as H; [|by destruct stack].
    eapply wp_conseq; [by apply nested| |done]. intros [] w (bs & m' & x' & hooks' & ? & HG & ?).
    exists bs, m', x', hooks'. split; [done|]. split; [by constructor|done].
  - apply wp_bind; eapply wp_eq; [apply get_initWriteEncaps|]. eapply wp_version; [exact Hx|]. cbn [write11].
    eapply wp_conseq; [|by intros [] w H; exact H|done].
    eapply wrote_stream; [apply writes_is_within, (writeSize_writes 0); done|constructor|done..].
  - subst v. cbn [write_opt]. apply wp_ret. exists [], m, x, hooks. rewrite app_nil_r. split; [done|].
    split; [constructor|done].
Qed.

Lemma wp_write_members l : forall m stack x bs0 hooks, Forall (member_ok C1 C2 h) l -> valid m -> (unseen m < d)%nat ->
  encoder_at m stack x ->
  wp (write_members wi l) (wrote (members_wire C1 C2 G l) m stack bs0) never (writing bs0 x hooks).
Proof.
  induction l as [|s l IH]; intros m stack x bs0 hooks Hl Hv Hd Hx; cbn [write_members].
  - apply wp_ret. exists [], m, x, hooks. rewrite app_nil_r. split; [done|]. by split; [constructor|].
  - apply Forall_cons in Hl as [Hs Hl]. eapply wp_wrote_bind; [by apply wp_write_member|].
    intros bs m1 x1 hooks1 HG Hx1 He Hv1. pose proof (unseen_extends _ _ He).
    eapply wp_conseq; [apply IH; [done|done|lia|done]| |done].
    intros [] w (bs2 & m2 & x2 & hooks2 & -> & HG2 & Hx2 & He2 & Hv2). exists (bs ++ bs2), m2, x2, hooks2.
    rewrite app_assoc. split; [done|]. split; [by econstructor|]. split; [done|]. split; [by etrans|done].
Qed.

(** Slice [y], with the slices [l] behind it *)
Lemma wp_write_slice (first : bool) y l m c stack x bs0 hooks (k : M world unit) (Q : unit -> world -> Prop) :
  Forall (member_ok C1 C2 h) (sl_members y) -> int_length (sl_typeId y) -> sl_compactId y < 2 ^ 31 ->
  valid m -> (first = true -> (length (tids m) < length (seen m))%nat) -> (unseen m < d)%nat ->
  Z.of_nat (length (h_objects h)) < 2 ^ 31 - 2 ->
  encoder_at m (c :: stack) x -> clean c -> wi_sliceType c = ObjectSlice -> wi_firstSlice c = first ->
  (forall flag ids bs1 bs2 m2 x' c' hooks', (if first then typeId_wire (sl_typeId y) (sl_compactId y) (tids m) flag bs1 ids
      else flag = 0 /\ bs1 = [] /\ ids = tids m) ->
    members_wire C1 C2 G (sl_members y) (MkMarshaled (seen m) ids) bs2 m2 ->
    encoder_at m2 (c' :: stack) x' -> clean c' -> wi_sliceType c' = ObjectSlice -> wi_firstSlice c' = false ->
    extends m m2 -> valid m2 ->
    wp k Q never (writing (bs0 ++ chr (Z.lor (last_flag l) flag) :: bs1 ++ bs2) x' hooks')) ->
  wp (encoder_startSlice (sl_typeId y) (sl_compactId y) (match l with [] => true | _ => false end);;
      write_members wi (sl_members y);; encoder_endSlice wi;; k) Q never (writing bs0 x hooks).
Proof.
  intros Hms Hid Hcid Hv Hfirst Hd Hn Hx Hc Ht Hf HQ. pose proof (valid_count _ Hv) as Hcount.
  destruct Hv as (Hv1 & Hv2 & Hv3).
  apply wp_bind. eapply wp_version; [exact Hx|]. eapply wp_startSlice11; [done..|lia|].
  intros flag bs1 ids x1 c1 Hflag Hx1 Hc1. set (m1 := MkMarshaled (seen m) ids) in *.
  assert (extends m m1 /\ valid m1) as [He1 Hvalid1].
  { assert (ids = tids m \/ first = true /\ exists t, ids = tids m ++ [t]) as [->|[-> [t ->]]].
    - destruct first; [|by destruct Hflag as (_ & _ & ->); left].
      destruct Hflag; [by left|by left|by right; eauto].
    - split; [by destruct m|done].
    - specialize (Hfirst eq_refl). split; [split; [exists []; by rewrite app_nil_r|by exists [t]]|].
      split; [done|]. split; [done|]. cbn. rewrite length_app. cbn. lia. }
  pose proof (unseen_extends _ _ He1) as Hu1.
  eapply wp_wrote_bind; [apply (wp_write_members (sl_members y) m1); [done..|lia|exact Hx1]|].
  intros bs2 m2 x2 hooks2 HG Hx2 He2 Hv2'. apply wp_bind. eapply wp_version; [exact Hx2|].
  replace ((bs0 ++ chr 0 :: bs1) ++ bs2) with (bs0 ++ chr 0 :: bs1 ++ bs2) by (by rewrite <- app_assoc).
  assert (Z.lor (if match l with [] => true | _ => false end then FLAG_IS_LAST_SLICE else 0) flag =
    Z.lor (last_flag l) flag) as Ef by (by destruct l).
  rewrite Ef in Hc1. eapply wp_endSlice11; [exact Hx2|exact Hc1| | |].
  - destruct first; [destruct Hflag|destruct Hflag as (-> & _)]; by destruct l.
  - destruct first; [destruct Hflag|destruct Hflag as (-> & _)]; by destruct l.
  - destruct Hc1 as (? & ? & ? & _). eapply HQ; try done. by etrans.
Qed.

(** The state behind slices *)
Definition wrote_slices (K : Marshaled -> list byte -> Marshaled -> Prop) (m : Marshaled) stack bs0 : unit -> world -> Prop :=
  fun _ w => exists bs m' x' c' hooks', w = writing (bs0 ++ bs) x' hooks' /\ K m bs m' /\
    encoder_at m' (c' :: stack) x' /\ clean c' /\ extends m m' /\ valid m'.

Hypothesis count : Z.of_nat (length (h_objects h)) < 2 ^ 31 - 2.

Lemma wp_writeImpl_rest l : forall m c stack x bs0 hooks, Forall (slice_sendable C1 C2 h) l -> valid m -> (unseen m < d)%nat ->
  encoder_at m (c :: stack) x -> clean c -> wi_sliceType c = ObjectSlice -> wi_firstSlice c = false ->
  wp (writeImpl wi l) (wrote_slices (slices_wire C1 C2 G l) m stack bs0) never (writing bs0 x hooks).
Proof.
  induction l as [|y l IH]; intros m c stack x bs0 hooks Hl Hv Hd Hx Hc Ht Hf; cbn [writeImpl].
  - apply wp_ret. exists [], m, x, c, hooks. rewrite app_nil_r. split; [done|]. by split; [constructor|].
  - apply Forall_cons in Hl as [(Hm & Hid & Hcid) Hl]. eapply (wp_write_slice false); [done..|].
    intros flag ids bs1 bs2 m2 x' c' hooks' (-> & -> & ->) HG Hx' Hc' Ht' Hf' He Hv'.
    pose proof (unseen_extends _ _ He). eapply wp_conseq; [eapply IH; [done|done|lia|exact Hx'|done..]| |done].
    intros [] w (bs3 & m3 & x3 & c3 & hooks3 & -> & HG3 & Hx3 & Hc3 & He3 & Hv3).
    exists (chr (last_flag l) :: bs2 ++ bs3), m3, x3, c3, hooks3. split.
    { f_equal. rewrite Z.lor_0_r, <- app_assoc. done. }
    split; [econstructor; [|done]; by destruct m|]. split; [done|]. split; [done|]. split; [by etrans|done].
Qed.

Lemma wp_writeImpl_object y l m c stack x bs0 hooks : Forall (slice_sendable C1 C2 h) (y :: l) -> valid m -> (unseen m < d)%nat ->
  (length (tids m) < length (seen m))%nat ->
  encoder_at m (c :: stack) x -> clean c -> wi_sliceType c = ObjectSlice -> wi_firstSlice c = true ->
  wp (writeImpl wi (y :: l)) (wrote_slices (object_wire C1 C2 G (y :: l)) m stack bs0) never (writing bs0 x hooks).
Proof.
  intros Hl Hv Hd Hlt Hx Hc Ht Hf. cbn [writeImpl]. apply Forall_cons in Hl as [(Hm & Hid & Hcid) Hl].
  eapply (wp_write_slice true); [done..|].
  intros flag ids bs1 bs2 m2 x' c' hooks' Hflag HG Hx' Hc' Ht' Hf' He Hv'.
  pose proof (unseen_extends _ _ He). eapply wp_conseq; [eapply wp_writeImpl_rest; [done|done|lia|exact Hx'|done..]| |done].
  intros [] w (bs3 & m3 & x3 & c3 & hooks3 & -> & HG3 & Hx3 & Hc3 & He3 & Hv3).
  exists (chr (Z.lor (last_flag l) flag) :: bs1 ++ bs2 ++ bs3), m3, x3, c3, hooks3. split.
  { f_equal. by rewrite <- app_assoc, <- !app_comm_cons, <- app_assoc. }
  split; [by econstructor|]. split; [done|]. split; [done|]. split; [by etrans|done].
Qed.

Lemma wp_startInstance11 m stack x data (Q : unit -> world -> Prop) bs0 hooks : encoder_at m stack x ->
  (forall c x', encoder_at m (c :: stack) x' -> clean c -> wi_sliceType c = ObjectSlice -> wi_firstSlice c = true ->
    Q tt (writing bs0 x' hooks)) ->
  wp (startInstance11 wi ObjectSlice data) Q never (writing bs0 x hooks).
Proof.
  intros (objects & ids & spare & -> & Hm & Hs) HQ. unfold startInstance11. enc. cbn [e11_spare e11_stack e11_objectIdIndex].
  set (c := match spare with c :: _ => c | [] => fresh_w end).
  assert (clean c) as Hc by (destruct Hs; [by split|done]).
  set (c1 := MkWriteInstance ObjectSlice true (wi_sliceFlags c) (wi_writeSlice c) (wi_sliceFlagsPos c) (wi_indirectionMap c)
    (wi_indirectionTable c)).
  set (x1 := MkEncoder (MkEncoderBase objects ids (Z.of_nat (length (tids m))))
    (W11 (MkEncoder11 (c1 :: stack) (tail spare) (1 + Z.of_nat (length (seen m)))))).
  assert (encoder_at m (c1 :: stack) x1) as Hx1.
  { eexists objects, ids, _. split; [done|]. split; [done|]. by destruct Hs. }
  assert (wp (match data with Some slices => writeSlicedData wi slices | None => mret tt end) Q never
    (writing bs0 x1 hooks)) as H.
  { destruct data as [slices|]; [|by apply wp_ret, (HQ c1)]. unfold writeSlicedData.
    apply wp_bind; eapply wp_eq; [apply get_format|]. rewrite bool_decide_eq_false_2 by done. by apply wp_ret, (HQ c1). }
  destruct spare; enc; exact H.
Qed.

Lemma wp_endInstance11 m c stack x (Q : unit -> world -> Prop) bs0 hooks : encoder_at m (c :: stack) x -> clean c ->
  (forall x', encoder_at m stack x' -> Q tt (writing bs0 x' hooks)) ->
  wp endInstance11 Q never (writing bs0 x hooks).
Proof.
  intros (objects & ids & spare & -> & Hm & Hs) Hc HQ. unfold endInstance11. enc. cbn [e11_stack].
  eapply wp_eq; [reflexivity|]. apply HQ. eexists objects, ids, _. split; [done|]. split; [done|]. by constructor.
Qed.

Lemma wp_write_instance o x0 m stack x bs0 hooks : h_objects h !! o = Some x0 -> object_sendable C1 C2 h x0 ->
  valid m -> (unseen m < d)%nat -> (length (tids m) < length (seen m))%nat -> encoder_at m stack x ->
  wp (write_instance wi ObjectSlice o) (wrote (object_wire C1 C2 G (in_slices x0)) m stack bs0) never (writing bs0 x hooks).
Proof.
  intros Ho [Hne Hsl] Hv Hd Hlt Hx. unfold write_instance.
  apply wp_bind; eapply wp_eq; [unfold deref; rewrite bind_get; cbn; by rewrite Ho|].
  apply wp_bind. eapply wp_version; [exact Hx|]. eapply wp_startInstance11; [exact Hx|].
  intros c x1 Hx1 Hc Ht Hf. destruct (in_slices x0) as [|y l]; [done|].
  apply wp_bind. eapply wp_conseq; [by eapply wp_writeImpl_object| |done].
  intros [] w (bs & m' & x' & c' & hooks' & -> & HG & Hx' & Hc' & He & Hv'). eapply wp_version; [exact Hx'|].
  eapply wp_endInstance11; [exact Hx'|done|]. intros x2 Hx2. by exists bs, m', x2, hooks'.
Qed.
End nested.

Hypothesis h_sendable : sendable C1 C2 h.

Lemma meet_valid o m : valid m -> is_Some (h_objects h !! o) -> (o ∉ seen m) -> valid (meet o m).
Proof.
  intros (H1 & H2 & H3) Ho Hn. split; [|split].
  - apply NoDup_app. split; [done|]. split; [|apply NoDup_singleton]. intros y Hy Hy'. by apply list_elem_of_singleton in Hy' as ->.
  - apply Forall_app. split; [done|by constructor].
  - cbn. rewrite length_app. cbn. lia.
Qed.

(** [writeInstance] terminates when [d] is above the number of the objects
    that are left; they nest no deeper than that either. *)
Lemma wp_writeInstance d : forall k o m stack x bs0 hooks, valid m -> is_Some (h_objects h !! o) ->
  (unseen m < d)%nat -> (unseen m < k)%nat -> encoder_at m stack x ->
  wp (writeInstance d (Some o)) (wrote (instance_wire C1 C2 h k o) m stack bs0) never (writing bs0 x hooks).
Proof.
  destruct h_sendable as [Hobjects Hcount].
  induction d as [|d IH]; intros [|k] o m stack x bs0 hooks Hv [x0 Ho] Hd Hk Hx; [lia..|].
  cbn [writeInstance]. unfold writeInstance_body. pose proof (valid_count _ Hv) as Hc.
  destruct Hx as (objects & ids & spare & -> & Hm & Hs). enc. cbn [marshaledMap e_base].
  destruct (objects !! o) as [i|] eqn:E.
  - destruct Hm as [Hm1 Hm2]. pose proof E as E'. apply Hm1 in E' as (n & Hn & ->). pose proof (lookup_lt_Some _ _ _ Hn).
    eapply wp_stream; [apply writes_is_within, writeSize_writes; unfold object_index; lia|].
    eexists _, m, _, hooks. split; [done|]. split; [left; exists n; split; [done|]; split; [unfold object_index; lia|done]|].
    split; [by exists objects, ids, spare|done].
  - pose proof (maps_ok_fresh _ _ _ _ Hm E) as Hfresh.
    assert (valid (meet o m)) as Hv' by (apply meet_valid; [done|by exists x0|done]).
    pose proof (valid_count _ Hv') as Hc'. cbn in Hc'. rewrite length_app in Hc'. cbn in Hc'.
    assert (unseen (meet o m) < unseen m)%nat as Hlt by (unfold unseen; cbn; rewrite length_app; cbn; lia).
    enc. cbn [e11_objectIdIndex e11_stack e11_spare]. rewrite to_i32_id by lia. enc. enc.
    set (x1 := MkEncoder _ _).
    assert (encoder_at (meet o m) stack x1) as Hx1.
    { eexists _, ids, spare. split; [unfold x1; cbn; rewrite length_app; cbn; do 3 f_equal; lia|]. split; [|done].
      destruct Hm as [Hm1 Hm2]. split; [|done]. cbn. replace (1 + Z.of_nat (length (seen m)) + 1) with
        (object_index (length (seen m))) by (unfold object_index; lia). by apply insert_index. }
    apply wp_bind. eapply wp_stream; [by apply writes_is_within, (writeSize_writes 1)|].
    eapply wp_conseq; [eapply (wp_write_instance (writeInstance d) (instance_wire C1 C2 h k) (d `min` k))| |done].
    + intros; apply IH; [done|done|lia|lia|done].
    + exact Hcount.
    + exact Ho.
    + by eapply Forall_lookup_1 in Hobjects.
    + exact Hv'.
    + lia.
    + cbn. rewrite length_app. cbn. destruct Hv as (_ & _ & ?). lia.
    + exact Hx1.
    + intros [] w (bs & m' & x' & hooks' & -> & HG & Hx' & He & Hv2).
      exists (size_bytes 1 ++ bs), m', x', hooks'. rewrite app_assoc. split; [done|].
      split; [right; split; [done|]; split; [unfold object_index; lia|by exists x0, bs]|]. split; [done|]. split; [|done].
      etrans; [|exact He]. split; [by exists [o]|]. exists []. cbn. by rewrite app_nil_r.
Qed.

(** ** Class pointers one behind the other *)

Inductive roots_wire (k : nat) : list (option oref) -> Marshaled -> list byte -> Marshaled -> Prop :=
  | roots_nil m : roots_wire k [] m [] m
  | roots_cons v l bs1 bs2 m m1 m2 : member_wire C1 C2 (instance_wire C1 C2 h k) (SClass Object_id v) m bs1 m1 ->
      roots_wire k l m1 bs2 m2 -> roots_wire k (v :: l) m (bs1 ++ bs2) m2.

Fixpoint write_roots (fuel : nat) (l : list (option oref)) : M world unit :=
  match l with [] => mret tt | v :: l' => stream_write fuel v;; write_roots fuel l' end.

Definition root_ok (v : option oref) : Prop := match v with Some o => is_Some (h_objects h !! o) | None => True end.

Lemma wp_write_roots fuel k l : forall m stack x bs0 hooks, Forall root_ok l -> valid m -> (unseen m < fuel)%nat ->
  (unseen m < k)%nat -> encoder_at m stack x ->
  wp (write_roots fuel l) (wrote (roots_wire k l) m stack bs0) never (writing bs0 x hooks).
Proof.
  induction l as [|v l IH]; intros m stack x bs0 hooks Hl Hv Hf Hk Hx; cbn [write_roots].
  - apply wp_ret. exists [], m, x, hooks. rewrite app_nil_r. split; [done|]. by split; [constructor|].
  - apply Forall_cons in Hl as [Ho Hl].
    change (stream_write fuel v) with (write_member (writeInstance fuel) (SClass Object_id v)).
    eapply wp_wrote_bind.
    { eapply (wp_write_member _ (instance_wire C1 C2 h k) (fuel `min` k)); [|by destruct v|done|lia|exact Hx].
      intros. apply wp_writeInstance; [done|done|lia|lia|done]. }
    intros bs m1 x1 hooks1 HG Hx1 He Hv1. pose proof (unseen_extends _ _ He).
    eapply wp_conseq; [apply IH; [done|done|lia|lia|done]| |done].
    intros [] w (bs2 & m2 & x2 & hooks2 & -> & HG2 & Hx2 & He2 & Hv2). exists (bs ++ bs2), m2, x2, hooks2.
    rewrite app_assoc. split; [done|]. split; [by econstructor|]. split; [done|]. split; [by etrans|done].
Qed.
End writing.
