(* ===== verification/GraphRead.v ===== *)
(** * The decoder understands the grammar of object graphs

    A receiver that has a factory for every type reads a sentence of
    [instance_wire] into a copy of the graph: new objects in the order of their
    indices, with the same data, whose pointers refer to the copies. *)

From S2P Require Import Prelude Hoare OrderedMap CxxString Buffer Layout Protocol Stream Wire Codecs StreamString.
From S2P Require Import StreamHelpers StreamSpec Encaps OptionalSpec StreamOptional ObjectData ObjectWrite ObjectRead.
From S2P Require Import ObjectTypes GraphWrite.

(** What [newInstance] answers for a type id *)
Definition created `{FA : Factories} (typeId : str) : option Instance :=
  match user_factory typeId ≫= (fun create => create typeId) with
  | Some x => Some x
  | None =>
      match user_factory [] ≫= (fun create => create typeId) with
      | Some x => Some x
      | None => table_factory typeId ≫= (fun create => create typeId)
      end
  end.

(** The type id that a compact id is resolved to *)
Definition resolved `{FA : Factories} (compactId : Z) : option str :=
  match compactIdResolver with
  | Some resolve =>
      match resolve compactId with
      | Resolved [] => Some (table_typeId compactId)
      | Resolved typeId => Some typeId
      | _ => None
      end
  | None => Some (table_typeId compactId)
  end.

(** The receiver makes an object of the type of [x]: the same slices with
    members of the same types. *)
Definition receivable `{FA : Factories} (x : Instance) : Prop :=
  exists l ls x0, in_slices x = l :: ls /\ sl_typeId l <> [] /\
    created (sl_typeId l) = Some x0 /\ shape x0 = shape x /\
    (0 <= sl_compactId l -> resolved (sl_compactId l) = Some (sl_typeId l)).

(** ** Copies

    [base] is the number of objects the receiver had; the copy of the [n]th
    object on the wire is object [base + n]. *)

Section copies.
Variable base : nat.

Definition ref_copy (m : Marshaled) (p p' : option oref) : Prop :=
  match p with
  | None => p' = None
  | Some o => exists n, seen m !! n = Some o /\ p' = Some (base + n)%nat
  end.
Definition slot_copy (m : Marshaled) (s s' : slot) : Prop :=
  match s with
  | SClass declared p => exists p', s' = SClass declared p' /\ ref_copy m p p'
  | _ => s' = s
  end.
Definition slice_copy (m : Marshaled) (l l' : Slice) : Prop :=
  sl_typeId l' = sl_typeId l /\ Forall2 (slot_copy m) (sl_members l) (sl_members l').
Definition object_copy (m : Marshaled) (x x' : Instance) : Prop := Forall2 (slice_copy m) (in_slices x) (in_slices x').

Lemma ref_copy_extends m m' p p' : extends m m' -> ref_copy m p p' -> ref_copy m' p p'.
Proof.
  intros He. destruct p as [o|]; [|done]. intros (n & Hn & ->). exists n. split; [by eapply extends_seen|done].
Qed.
Lemma slot_copy_extends m m' s s' : extends m m' -> slot_copy m s s' -> slot_copy m' s s'.
Proof.
  intros He. destruct s; try done. intros (p' & -> & Hp). exists p'. split; [done|by eapply ref_copy_extends].
Qed.
Lemma slots_copy_extends m m' l l' : extends m m' -> Forall2 (slot_copy m) l l' -> Forall2 (slot_copy m') l l'.
Proof. intros He H. eapply Forall2_impl; [exact H|]. intros s s'. by apply slot_copy_extends. Qed.
Lemma slice_copy_extends m m' l l' : extends m m' -> slice_copy m l l' -> slice_copy m' l l'.
Proof. intros He [H1 H2]. split; [done|by eapply slots_copy_extends]. Qed.
Lemma object_copy_extends m m' x x' : extends m m' -> object_copy m x x' -> object_copy m' x x'.
Proof. intros He H. eapply Forall2_impl; [exact H|]. intros l l'. by apply slice_copy_extends. Qed.

Lemma slot_copy_kind m s s' : slot_copy m s s' -> slot_kind s' = slot_kind s.
Proof. destruct s; cbn; [by intros ->|by intros (p' & -> & _)|by intros ->]. Qed.

Lemma object_copy_shape m x x' : object_copy m x x' -> shape x' = shape x.
Proof.
  unfold object_copy, shape. induction 1 as [|l l' ls ls' [Ht Hm] _ IH]; [done|]. cbn. f_equal; [|exact IH].
  unfold slice_shape. rewrite Ht. f_equal. induction Hm as [|s s' k k' Hs _ IHm]; [done|]. cbn. f_equal; [|exact IHm].
  by eapply slot_copy_kind.
Qed.
End copies.

(** ** Edits of an object that is being read, while others are added *)

Definition edit (f : Instance -> Instance) (pos : oref) (l : list Instance) (h : Heap) : Heap :=
  set_objects (alter f pos (h_objects h ++ l)) h.
Definition grow (l : list Instance) (h : Heap) : Heap := set_objects (h_objects h ++ l) h.

Lemma edit_edit f g pos l l' h : (pos < length (h_objects h))%nat ->
  edit g pos l' (edit f pos l h) = edit (fun x => g (f x)) pos (l ++ l') h.
Proof.
  intros Hp. unfold edit, set_objects. cbn. f_equal.
  rewrite app_assoc, !(alter_app_l _ (h_objects h ++ l)) by (rewrite ?length_alter, length_app; lia).
  rewrite alter_app_l by (rewrite length_alter, length_app; lia). f_equal. by rewrite list_alter_alter_eq.
Qed.

Lemma edit_grow g pos l l' h : (pos < length (h_objects h))%nat -> edit g pos l' (grow l h) = edit g pos (l ++ l') h.
Proof. intros Hp. unfold edit, grow, set_objects. cbn. by rewrite app_assoc. Qed.

Lemma edit_length f pos l h : length (h_objects (edit f pos l h)) = (length (h_objects h) + length l)%nat.
Proof. unfold edit. cbn. by rewrite length_alter, length_app. Qed.

Lemma edit_at f pos l h x : h_objects h !! pos = Some x -> h_objects (edit f pos l h) !! pos = Some (f x).
Proof.
  intros Hx. unfold edit. cbn. rewrite list_lookup_alter_eq. rewrite lookup_app_l by (by eapply lookup_lt_Some).
  by rewrite Hx.
Qed.

Lemma edit_nil_ext f g pos h : (forall x, h_objects h !! pos = Some x -> f x = g x) -> edit f pos [] h = edit g pos [] h.
Proof.
  intros H. unfold edit. f_equal. apply list_alter_ext; [|done]. intros x. rewrite app_nil_r. apply H.
Qed.

(** ** Reading *)

Section reading.
Context `{PL : Platform} {DF : Defaults} {FA : Factories} (C1 C2 : Config) (h : Heap).
Local Existing Instance C2.

(** The stream before the graph, in an encapsulation *)
Variable s0 : BasicStream Decoder Encoder.
Variables (e0 : ReadEncaps Decoder) (prev0 : list (ReadEncaps Decoder)) (base : nat).
Hypothesis s0_configured : configured s0.
Hypothesis s0_encoding : read_encoding s0 = re_encoding e0.
Hypothesis s0_size : b_end s0 < 2 ^ 31.
Hypothesis s0_address : 0 <= b_begin s0 /\ b_begin s0 + 2 ^ 33 < 2 ^ 64.

(** The world with the cursor at [j] *)
Definition reading (j : Z) (q : Z * Z) (dec : Decoder) (hp : Heap) (hooks : list hook) : world :=
  MkWorld (set_read (MkReadEncaps (re_start e0) (re_sz e0) (re_encoding e0) (Some dec) :: prev0) (preRead s0)
    (set_seq q.1 q.2 (set_i j s0))) hp hooks.

Definition ahead (j : Z) (bs : list byte) : Prop := 0 <= j <= b_end s0 /\ drop (Z.to_nat j) (b s0) = bs.

(** No sequence is being read. *)
Definition settled (j : Z) (q : Z * Z) : Prop := q.1 = -1 \/ (0 <= q.1 /\ 0 <= q.2 /\ q.1 + q.2 <= j).

Lemma ahead_app j bs rest : ahead j (bs ++ rest) -> ahead (j + Z.of_nat (length bs)) rest.
Proof.
  intros [Hj Hd]. split.
  - apply (f_equal length) in Hd. unfold b_end, b_size in *. rewrite length_drop, length_app in Hd. lia.
  - replace (Z.to_nat (j + Z.of_nat (length bs))) with (Z.to_nat j + length bs)%nat by lia.
    by rewrite <- drop_drop, Hd, drop_app_length.
Qed.

Lemma wp_read {A} mu (m : M _ A) bs a rest (Q : A -> world -> Prop) j q dec hp hooks :
  reads mu m bs a -> ahead j (bs ++ rest) -> settled j q ->
  (forall q', ahead (j + Z.of_nat (length bs)) rest -> settled (j + Z.of_nat (length bs)) q' ->
    Q a (reading (j + Z.of_nat (length bs)) q' dec hp hooks)) ->
  wp (on_stream m) Q never (reading j q dec hp hooks).
Proof.
  intros [_ Hm] Ha Hq HQ. pose proof (ahead_app _ _ _ Ha) as Ha'. destruct Ha as [Hj Hd].
  destruct (Hm (w_stream (reading j q dec hp hooks)) rest 0%nat) as (s' & E & Hc & Hp).
  - destruct s0_configured as (H1 & H2 & H3 & H4). split; [done|]. split; [done|]. split; [done|].
    split; [done|]. split; [done|]. split; [|done]. by rewrite <- H3, s0_encoding.
  - done.
  - lia.
  - destruct Hq as [Hq|Hq]; [by left|right]. cbn. lia.
  - apply wp_on. eapply wp_eq; [exact E|]. rewrite Hc.
    apply (HQ (startSeq s', minSeqSize s')); [done|]. destruct Hp as [Hp|Hp]; [by left|right].
    pose proof (consumed_i _ _ _ Hc) as Hi. cbn in Hi, Hp |- *. lia.
Qed.

(** ** The state of the decoder *)

Definition read_maps_ok (m : Marshaled) (objects : gmap Z oref) (ids : gmap Z str) : Prop :=
  (forall k o, objects !! k = Some o <-> exists n, (n < length (seen m))%nat /\ k = object_index n /\ o = (base + n)%nat) /\
  (forall k t, ids !! k = Some t <-> exists n, tids m !! n = Some t /\ k = typeId_index n).

Definition fresh (c : ReadInstance) : Prop :=
  ri_slices c = [] /\ ri_indirectionTables c = [] /\ ri_indirectPatchList c = [].

(** The decoder when [m] was read and [count] objects were begun, in the
    instances [stack] *)
Definition decoder_in (count : nat) (m : Marshaled) (stack : list ReadInstance) (x : Decoder) : Prop :=
  exists slice objects ids spare,
    x = MkDecoder (MkDecoderBase slice ∅ objects ids (Z.of_nat (length (tids m))) [])
      (V11 (MkDecoder11 stack spare (1 + Z.of_nat count))) /\
    read_maps_ok m objects ids /\ Forall fresh spare.
Definition decoder_at (m : Marshaled) : list ReadInstance -> Decoder -> Prop := decoder_in (length (seen m)) m.

Lemma read_maps_ok_nothing : read_maps_ok nothing ∅ ∅.
Proof.
  split; intros; rewrite lookup_empty; (split; [done|]); intros (n & Hn & _); [cbn in Hn; lia|done].
Qed.

(** The objects that were met are in the heap, with their shapes. *)
Definition heap_at (m : Marshaled) (hp : Heap) : Prop :=
  length (h_objects hp) = (base + length (seen m))%nat /\
  forall n o, seen m !! n = Some o -> exists x x', h_objects h !! o = Some x /\
    h_objects hp !! (base + n)%nat = Some x' /\ shape x' = shape x.

(** [l] are the copies of the objects from the [k]th one on. *)
Definition built (m : Marshaled) (k : nat) (l : list Instance) : Prop :=
  length (seen m) = (k + length l)%nat /\
  forall i x', l !! i = Some x' -> exists o x, seen m !! (k + i)%nat = Some o /\ h_objects h !! o = Some x /\
    object_copy base m x x'.

Lemma built_nil m : built m (length (seen m)) [].
Proof. split; [cbn; lia|done]. Qed.

Lemma built_app m m' k l l' : extends m m' -> built m k l -> built m' (length (seen m)) l' -> built m' k (l ++ l').
Proof.
  intros He [H1 H2] [H3 H4]. split; [rewrite length_app; lia|]. intros i x' Hi.
  apply lookup_app_Some in Hi as [Hi|[Hl Hi]].
  - destruct (H2 i x' Hi) as (o & x & Ho & Hx & Hc). exists o, x. split; [by eapply extends_seen|].
    split; [done|]. by eapply object_copy_extends.
  - destruct (H4 _ _ Hi) as (o & x & Ho & Hx & Hc). exists o, x. split; [|done]. rewrite <- Ho. f_equal. lia.
Qed.

(** Growth and an edit that keeps the shape *)
Lemma heap_at_grow m m' l hp : extends m m' -> heap_at m hp -> built m' (length (seen m)) l -> heap_at m' (grow l hp).
Proof.
  intros He [Hl Hh] [Hn Hb]. split; [cbn; rewrite length_app; lia|]. intros n o Ho. cbn.
  destruct (decide (n < length (seen m))%nat) as [Hlt|Hge].
  - apply lookup_lt_is_Some in Hlt as [o' Ho']. pose proof (extends_seen _ _ _ _ He Ho') as E. rewrite Ho in E.
    injection E as <-. destruct (Hh n o Ho') as (x & x' & Hx & Hx' & Hs). exists x, x'. split; [done|].
    split; [by apply lookup_app_l_Some|done].
  - assert (is_Some (l !! (n - length (seen m))%nat)) as [x' Hx'].
    { apply lookup_lt_is_Some. apply lookup_lt_Some in Ho. lia. }
    destruct (Hb _ _ Hx') as (o' & x & Ho' & Hx & Hc). replace (length (seen m) + (n - length (seen m)))%nat with n in Ho' by lia.
    rewrite Ho in Ho'. injection Ho' as <-. exists x, x'. split; [done|]. split; [|by eapply object_copy_shape].
    rewrite lookup_app_r by lia. rewrite <- Hx'. f_equal. lia.
Qed.

Lemma heap_at_edit m m' f pos l hp : extends m m' -> heap_at m hp -> built m' (length (seen m)) l ->
  (pos < length (h_objects hp))%nat -> (forall x, h_objects hp !! pos = Some x -> shape (f x) = shape x) ->
  heap_at m' (edit f pos l hp).
Proof.
  intros He Hh Hb Hp Hf. destruct (heap_at_grow _ _ _ _ He Hh Hb) as [Hl Hh']. split; [cbn in *; by rewrite length_alter|].
  intros n o Ho. destruct (Hh' n o Ho) as (x & x' & Hx & Hx' & Hs). cbn in Hx' |- *.
  destruct (decide (pos = base + n)%nat) as [->|Hne].
  - exists x, (f x'). rewrite list_lookup_alter_eq, Hx'. split; [done|]. split; [done|].
    rewrite lookup_app_l in Hx' by done. by rewrite Hf.
  - exists x, x'. by rewrite list_lookup_alter_ne.
Qed.

(** One statement that looks at or replaces the decoder *)
Local Ltac dec := apply wp_bind; eapply wp_eq; [reflexivity|cbv beta zeta].

Definition target_ok (p : Patch) (o : oref) : Prop :=
  exists x, h_objects h !! o = Some x /\ is_a x (pt_declared p) = true.

Lemma wp_patchHandle m o p n (Q : unit -> world -> Prop) j q x hp hooks : heap_at m hp -> seen m !! n = Some o ->
  target_ok p o -> Q tt (reading j q x (assign (pt_addr p) (Some (base + n)%nat) hp) hooks) ->
  wp (patchHandle p (Some (base + n)%nat)) Q never (reading j q x hp hooks).
Proof.
  intros [_ Hh] Hn (y & Hy & Ha) HQ. destruct (Hh n o Hn) as (y' & x' & Hy' & Hx' & Hs). simplify_eq.
  unfold patchHandle. apply wp_bind; eapply wp_eq; [unfold deref; rewrite bind_get; cbn; by rewrite Hx'|].
  rewrite (shape_is_a _ _ _ Hs), Ha. by apply wp_modify.
Qed.

(** ** Headers of slices *)

Lemma decoder_at_current count m c stack x : decoder_in count m (c :: stack) x ->
  (forall j q hp hooks, current_r (reading j q x hp hooks) = (Ok c, reading j q x hp hooks)) /\
  forall f, exists x', decoder_in count m (f c :: stack) x' /\
    forall j q hp hooks, mod_current_r f (reading j q x hp hooks) = (Ok tt, reading j q x' hp hooks).
Proof.
  intros (slice & objects & ids & spare & -> & Hm & Hs). split; [done|]. intros f. eexists.
  split; [by eexists slice, objects, ids, spare|]. reflexivity.
Qed.

Lemma wp_current {A} count m c stack x (k : ReadInstance -> M world A) Q j q hp hooks : decoder_in count m (c :: stack) x ->
  wp (k c) Q never (reading j q x hp hooks) -> wp (mbind k current_r) Q never (reading j q x hp hooks).
Proof. intros Hx HQ. apply wp_bind. eapply wp_eq; [by apply (proj1 (decoder_at_current _ _ _ _ _ Hx))|done]. Qed.

Lemma wp_mod_current count m c stack x f (Q : unit -> world -> Prop) j q hp hooks : decoder_in count m (c :: stack) x ->
  (forall x', decoder_in count m (f c :: stack) x' -> Q tt (reading j q x' hp hooks)) ->
  wp (mod_current_r f) Q never (reading j q x hp hooks).
Proof.
  intros Hx HQ. destruct (proj2 (decoder_at_current _ _ _ _ _ Hx) f) as (x' & Hx' & E). eapply wp_eq; [apply E|]. by apply HQ.
Qed.

Lemma wp_readTypeId_index count m stack x t n rest (Q : str -> world -> Prop) j q hp hooks : decoder_in count m stack x ->
  tids m !! n = Some t -> typeId_index n < 2 ^ 31 ->
  ahead j (size_bytes (typeId_index n) ++ rest) -> settled j q ->
  (forall q' j', j' = j + Z.of_nat (length (size_bytes (typeId_index n))) -> ahead j' rest -> settled j' q' ->
    Q t (reading j' q' x hp hooks)) ->
  wp (readTypeId true) Q never (reading j q x hp hooks).
Proof.
  intros (slice & objects & ids & spare & -> & [Hm1 Hm2] & Hs) Hn Hlt Ha Hq HQ. cbn [readTypeId].
  pose proof (lookup_lt_Some _ _ _ Hn).
  apply wp_bind. eapply wp_read; [apply (readSize_reads (typeId_index n)); unfold typeId_index in *; lia|exact Ha|done|].
  intros q' Ha' Hq'. dec. cbn [typeIdReadMap d_base].
  assert (ids !! typeId_index n = Some t) as -> by (apply Hm2; eauto). by apply wp_ret, HQ.
Qed.

Lemma wp_readTypeId_string count m stack x t rest (Q : str -> world -> Prop) j q hp hooks : decoder_in count m stack x ->
  int_length t -> typeId_index (length (tids m)) < 2 ^ 31 ->
  ahead j (seq_bytes t t ++ rest) -> settled j q ->
  (forall q' j' x', j' = j + Z.of_nat (length (seq_bytes t t)) -> ahead j' rest -> settled j' q' ->
    decoder_in count (MkMarshaled (seen m) (tids m ++ [t])) stack x' -> Q t (reading j' q' x' hp hooks)) ->
  wp (readTypeId false) Q never (reading j q x hp hooks).
Proof.
  intros (slice & objects & ids & spare & -> & [Hm1 Hm2] & Hs) Ht Hlt Ha Hq HQ. cbn [readTypeId].
  apply wp_bind. eapply wp_read; [by apply (read_string_reads false t t)|exact Ha|done|].
  intros q' Ha' Hq'. dec. apply wp_ret. eapply HQ; [done..|].
  cbn [typeIdReadIndex d_base d_version]. rewrite to_i32_id by (unfold typeId_index in *; lia). eexists slice, objects, _, spare. split.
  { cbn. rewrite length_app, Nat2Z.inj_add. reflexivity. }
  split; [|done]. split; [done|]. intros k t'. unfold insert_new.
  replace (Z.of_nat (length (tids m)) + 1) with (typeId_index (length (tids m))) by (unfold typeId_index; lia).
  assert (ids !! typeId_index (length (tids m)) = None) as ->.
  { destruct (ids !! _) as [t2|] eqn:E; [|done]. apply Hm2 in E as (n & Hn & E). apply lookup_lt_Some in Hn.
    unfold typeId_index in E. lia. }
  destruct (decide (k = typeId_index (length (tids m)))) as [->|Hne].
  - rewrite lookup_insert_eq. cbn. split.
    + intros [= <-]. exists (length (tids m)). by rewrite lookup_app_r, Nat.sub_diag.
    + intros (n & Hn & E). assert (n = length (tids m)) as -> by (unfold typeId_index in E; lia).
      rewrite lookup_app_r, Nat.sub_diag in Hn by lia. cbn in Hn. by simplify_eq.
  - rewrite lookup_insert_ne, Hm2 by done. cbn. split; intros (n & Hn & ->); exists n; (split; [|done]).
    + by apply lookup_app_l_Some.
    + apply lookup_app_Some in Hn as [Hn|[Hl Hn]]; [done|]. exfalso. apply Hne.
      apply lookup_lt_Some in Hn. cbn in Hn. f_equal. lia.
Qed.

(** The slice that is being read has no size, indirection table or optional
    members. *)
Definition plain_flags (flags : Z) : Prop :=
  has flags FLAG_HAS_SLICE_SIZE = false /\ has flags FLAG_HAS_INDIRECTION_TABLE = false /\
  has flags FLAG_HAS_OPTIONAL_MEMBERS = false.
Definition in_slice (c : ReadInstance) : Prop :=
  fresh c /\ ri_sliceType c = ObjectSlice /\ ri_skipFirstSlice c = false /\ plain_flags (ri_sliceFlags c).

(** The type of the slice, as its id or as its compact id *)
Definition identified (typeId : str) (compactId : Z) (c : ReadInstance) : Prop :=
  (0 <= compactId /\ ri_compactId c = compactId) \/ (ri_compactId c = -1 /\ ri_typeId c = typeId).

Lemma flags_cases l flag typeId compactId ids0 bs ids : typeId_wire typeId compactId ids0 flag bs ids \/ flag = 0 ->
  plain_flags (Z.lor (last_flag l) flag) /\ ord (chr (Z.lor (last_flag l) flag)) = Z.lor (last_flag l) flag.
Proof. intros [[| |]| ->]; destruct l; by repeat split. Qed.

Lemma wp_first_header count m c stack x l typeId compactId flag bs ids rest (Q : str -> world -> Prop) j q hp hooks :
  decoder_in count m (c :: stack) x -> fresh c -> ri_sliceType c = ObjectSlice -> ri_skipFirstSlice c = false ->
  typeId_wire typeId compactId (tids m) flag bs ids ->
  ahead j (chr (Z.lor (last_flag l) flag) :: bs ++ rest) -> settled j q ->
  (forall q' j' x' c', j' = j + Z.of_nat (length (chr 0 :: bs)) -> ahead j' rest -> settled j' q' ->
    decoder_in count (MkMarshaled (seen m) ids) (c' :: stack) x' -> in_slice c' -> identified typeId compactId c' ->
    Q (ri_typeId c') (reading j' q' x' hp hooks)) ->
  wp startSlice_d11 Q never (reading j q x hp hooks).
Proof.
  intros Hx Hc Ht Hk Hw Ha Hq HQ. destruct (flags_cases l flag _ _ _ _ _ (or_introl Hw)) as [Hflags Hord].
  pose proof Hflags as (Hf1 & Hf2 & Hf3). unfold startSlice_d11. eapply wp_current; [exact Hx|]. rewrite Hk.
  apply wp_bind. eapply (wp_read 1 _ [_]); [apply read_Byte_reads|exact Ha|done|]. intros q1 Ha1 Hq1.
  cbv zeta. rewrite Hord. apply wp_bind. eapply wp_mod_current; [exact Hx|]. intros x1 Hx1. rewrite Ht, bool_decide_eq_true_2 by done.
  (* what follows the type id *)
  assert (forall q2 j2 x2 c2, j2 = j + Z.of_nat (length (chr 0 :: bs)) -> ahead j2 rest -> settled j2 q2 ->
    decoder_in count (MkMarshaled (seen m) ids) (c2 :: stack) x2 -> fresh c2 -> ri_sliceType c2 = ObjectSlice ->
    ri_skipFirstSlice c2 = false -> ri_sliceFlags c2 = Z.lor (last_flag l) flag -> identified typeId compactId c2 ->
    wp ((if has (Z.lor (last_flag l) flag) FLAG_HAS_SLICE_SIZE then
       size ← on_stream read_Int;
       mod_current_r (set_ri_size size);;
       if size <? 4 then throw UnmarshalOutOfBoundsException else mret tt
     else mod_current_r (set_ri_size 0));;
    c ← current_r;
    mret (ri_typeId c)) Q never (reading j2 q2 x2 hp hooks)) as Hend.
  { intros q2 j2 x2 c2 Hj2 Ha2 Hq2 Hx2 Hc2 Ht2 Hk2 Hf Hi2. rewrite Hf1. apply wp_bind.
    eapply wp_mod_current; [exact Hx2|]. intros x3 Hx3. eapply wp_current; [exact Hx3|]. apply wp_ret.
    eapply HQ; [done..|exact Hx3| |].
    - split; [done|]. split; [done|]. split; [done|]. cbn. by rewrite Hf.
    - exact Hi2. }
  destruct Hw as [Hc0|n Hc0 Hl Hn|Hc0 Hl Hid Hn].
  - assert ((Z.land (Z.lor (last_flag l) FLAG_HAS_TYPE_ID_COMPACT) FLAG_HAS_TYPE_ID_COMPACT =? FLAG_HAS_TYPE_ID_COMPACT) = true)
      as -> by (by destruct l).
    apply wp_bind, wp_bind. eapply wp_mod_current; [exact Hx1|]. intros x2 Hx2.
    apply wp_bind. eapply wp_read; [by apply (readSize_reads compactId)|exact Ha1|done|]. intros q2 Ha2 Hq2.
    eapply wp_mod_current; [exact Hx2|]. intros x3 Hx3.
    eapply Hend; [cbn [length]; lia|done|done|destruct m; exact Hx3|done..|left; split; [lia|done]].
  - assert ((Z.land (Z.lor (last_flag l) FLAG_HAS_TYPE_ID_INDEX) FLAG_HAS_TYPE_ID_COMPACT =? FLAG_HAS_TYPE_ID_COMPACT) = false)
      as -> by (by destruct l).
    assert (has (Z.lor (last_flag l) FLAG_HAS_TYPE_ID_INDEX) (Z.lor FLAG_HAS_TYPE_ID_STRING FLAG_HAS_TYPE_ID_INDEX) = true /\
      has (Z.lor (last_flag l) FLAG_HAS_TYPE_ID_INDEX) FLAG_HAS_TYPE_ID_INDEX = true) as [-> ->] by (by destruct l).
    apply wp_bind, wp_bind. eapply wp_readTypeId_index; [exact Hx1|done|done|exact Ha1|done|]. intros q2 j2 -> Ha2 Hq2.
    eapply wp_mod_current; [exact Hx1|]. intros x3 Hx3.
    eapply Hend; [cbn [length]; lia|done|done|destruct m; exact Hx3|done..|right; done].
  - assert ((Z.land (Z.lor (last_flag l) FLAG_HAS_TYPE_ID_STRING) FLAG_HAS_TYPE_ID_COMPACT =? FLAG_HAS_TYPE_ID_COMPACT) = false)
      as -> by (by destruct l).
    assert (has (Z.lor (last_flag l) FLAG_HAS_TYPE_ID_STRING) (Z.lor FLAG_HAS_TYPE_ID_STRING FLAG_HAS_TYPE_ID_INDEX) = true /\
      has (Z.lor (last_flag l) FLAG_HAS_TYPE_ID_STRING) FLAG_HAS_TYPE_ID_INDEX = false) as [-> ->] by (by destruct l).
    apply wp_bind, wp_bind. eapply wp_readTypeId_string; [exact Hx1|done|done|exact Ha1|done|]. intros q2 j2 x2 -> Ha2 Hq2 Hx2.
    eapply wp_mod_current; [exact Hx2|]. intros x3 Hx3.
    eapply Hend; [cbn [length]; lia|done|done|exact Hx3|done..|right; done].
Qed.

(** The header of a slice behind the first one *)
Lemma wp_next_header m c stack x (l : list Slice) rest (Q : str -> world -> Prop) j q hp hooks :
  decoder_at m (c :: stack) x -> in_slice c -> ahead j (chr (last_flag l) :: rest) -> settled j q ->
  (forall q' x' c' t, ahead (j + 1) rest -> settled (j + 1) q' -> decoder_at m (c' :: stack) x' -> in_slice c' ->
    Q t (reading (j + 1) q' x' hp hooks)) ->
  wp startSlice_d11 Q never (reading j q x hp hooks).
Proof.
  intros Hx (Hc & Ht & Hk & _) Ha Hq HQ.
  destruct (flags_cases l 0 [] 0 [] [] [] (or_intror eq_refl)) as [Hflags Hord]. rewrite Z.lor_0_r in Hflags, Hord.
  pose proof Hflags as (Hf1 & Hf2 & Hf3).
  unfold startSlice_d11. eapply wp_current; [exact Hx|]. rewrite Hk.
  apply wp_bind. eapply (wp_read 1 _ [_]); [apply read_Byte_reads|exact Ha|done|]. intros q1 Ha1 Hq1.
  cbv zeta. rewrite Hord. apply wp_bind. eapply wp_mod_current; [exact Hx|]. intros x1 Hx1. rewrite Ht, bool_decide_eq_true_2 by done.
  assert ((Z.land (last_flag l) FLAG_HAS_TYPE_ID_COMPACT =? FLAG_HAS_TYPE_ID_COMPACT) = false /\
    has (last_flag l) (Z.lor FLAG_HAS_TYPE_ID_STRING FLAG_HAS_TYPE_ID_INDEX) = false) as [-> ->] by (by destruct l).
  apply wp_bind. eapply wp_mod_current; [exact Hx1|]. intros x2 Hx2. rewrite Hf1.
  apply wp_bind. eapply wp_mod_current; [exact Hx2|]. intros x3 Hx3. eapply wp_current; [exact Hx3|]. apply wp_ret.
  eapply HQ; [done|done|exact Hx3|done].
Qed.

(** ** New objects *)

Lemma wp_create_with f t (Q : option oref -> world -> Prop) j q x hp hooks :
  match f ≫= (fun create => create t) with
  | Some x0 => Q (Some (length (h_objects hp))) (reading j q x (grow [x0] hp) hooks)
  | None => Q None (reading j q x hp hooks)
  end -> wp (create_with f t) Q never (reading j q x hp hooks).
Proof. unfold create_with. destruct (f ≫= _) as [x0|]; intros HQ; exact HQ. Qed.

Lemma wp_newInstance t x0 (Q : option oref -> world -> Prop) j q x hp hooks : created t = Some x0 ->
  Q (Some (length (h_objects hp))) (reading j q x (grow [x0] hp) hooks) ->
  wp (newInstance t) Q never (reading j q x hp hooks).
Proof.
  intros Hc HQ. unfold newInstance. unfold created in Hc.
  apply wp_bind, wp_create_with. destruct (user_factory t ≫= _) as [y|]; [by simplify_eq; apply wp_ret|].
  apply wp_bind, wp_create_with. destruct (user_factory [] ≫= _) as [y|]; [by simplify_eq; apply wp_ret|].
  destruct (table_factory t) as [f|] eqn:E; [|done]. apply wp_bind, wp_create_with. rewrite Hc.
  apply wp_bind, wp_assert; [done|]. by apply wp_ret.
Qed.

Lemma wp_resolve_compactId compactId t (Q : str -> world -> Prop) w : resolved compactId = Some t -> Q t w ->
  wp (resolve_compactId compactId) Q never w.
Proof.
  unfold resolved, resolve_compactId. intros Hr HQ. apply wp_bind. destruct compactIdResolver as [resolve|].
  - destruct (resolve compactId) as [[|c t']| | |]; [..|done|done|done]; apply wp_ret, wp_ret; by simplify_eq.
  - apply wp_ret, wp_ret. by simplify_eq.
Qed.

Lemma wp_find_instance11 count ri fuel m c stack x t compactId x0 mostDerived (Q : oref -> world -> Prop) j q hp hooks :
  decoder_in count m (c :: stack) x -> in_slice c -> identified t compactId c -> t <> [] -> created t = Some x0 ->
  (0 <= compactId -> resolved compactId = Some t) ->
  (forall x' c', decoder_in count m (c' :: stack) x' -> in_slice c' ->
    Q (length (h_objects hp)) (reading j q x' (grow [x0] hp) hooks)) ->
  wp (find_instance11 ri (S fuel) mostDerived) Q never (reading j q x hp hooks).
Proof.
  intros Hx Hc Hi Ht Hcr Hr HQ. cbn [find_instance11]. eapply wp_current; [exact Hx|]. apply wp_bind.
  assert (forall x2 c2, decoder_in count m (c2 :: stack) x2 -> in_slice c2 -> ri_typeId c2 = t ->
    wp (c ← current_r;
      v ← (match ri_typeId c with [] => mret None | _ => newInstance (ri_typeId c) end);
      match v with
      | Some o => mret o
      | None =>
          base ← get_dbase;
          if negb (d_sliceObjects base)
          then throw (NoObjectFactoryException (lit "object slicing is disabled") (ri_typeId c))
          else
            skipSlice11 ri;;
            c ← current_r;
            if has (ri_sliceFlags c) FLAG_IS_LAST_SLICE then
              v ← newInstance Object_id;
              match v with Some o => mret o | None => allocate (UnknownSlicedObject mostDerived) end
            else startSlice_d11;; find_instance11 ri fuel mostDerived
      end) Q never (reading j q x2 hp hooks)) as Hend.
  { intros x2 c2 Hx2 Hc2 Ht2. eapply wp_current; [exact Hx2|]. rewrite Ht2. apply wp_bind.
    destruct t as [|ch t']; [done|]. eapply wp_newInstance; [done|]. apply wp_ret. by eapply HQ. }
  destruct Hi as [[H0 Hi]|[Hi Htc]].
  - rewrite Hi. rewrite (proj2 (Z.leb_le 0 _)) by done.
    apply wp_bind. eapply wp_mod_current; [exact Hx|]. intros x2 Hx2.
    apply wp_bind. eapply wp_resolve_compactId; [by apply Hr|]. eapply wp_mod_current; [exact Hx2|]. intros x3 Hx3.
    by eapply Hend.
  - rewrite Hi. apply wp_ret. by eapply Hend.
Qed.

(** ** Members *)

Definition set_slots (n k : nat) (ss : list slot) (x : Instance) : Instance :=
  MkInstance (alter (fun l => MkSlice (sl_typeId l) (sl_compactId l) (list_inserts k ss (sl_members l))) n (in_slices x))
    (in_preserve x) (in_slicedData x) (in_unknown x) (in_usesClasses x).

Lemma set_slots_nil n k x : set_slots n k [] x = x.
Proof. unfold set_slots. rewrite list_alter_id; [by destruct x|]. by intros []. Qed.

Lemma set_slots_cons n k s ss x : set_slots n (S k) ss (set_slot n k s x) = set_slots n k (s :: ss) x.
Proof.
  unfold set_slots, set_slot. cbn. f_equal. rewrite list_alter_alter_eq. apply list_alter_ext; [|done].
  intros l _. cbn. f_equal. symmetry. apply list_insert_inserts_lt. lia.
Qed.

Definition stack_plain (stack : list ReadInstance) : Prop :=
  match stack with c :: _ => has (ri_sliceFlags c) FLAG_HAS_INDIRECTION_TABLE = false | [] => True end.

(** What reading a class pointer with the patch [p] does *)
Definition object_read (r : option Patch -> M world unit) (G : Marshaled -> list byte -> Marshaled -> Prop) (o : oref) : Prop :=
  forall m bs m' stack x rest p j q hp hooks (Q : unit -> world -> Prop), G m bs m' ->
    decoder_at m stack x -> stack_plain stack -> ahead j (bs ++ rest) -> settled j q -> heap_at m hp ->
    target_ok p o ->
    (forall l q' x' hooks' n, decoder_at m' stack x' -> ahead (j + Z.of_nat (length bs)) rest ->
      settled (j + Z.of_nat (length bs)) q' -> extends m m' -> built m' (length (seen m)) l -> seen m' !! n = Some o ->
      Q tt (reading (j + Z.of_nat (length bs)) q' x' (assign (pt_addr p) (Some (base + n)%nat) (grow l hp)) hooks')) ->
    wp (r (Some p)) Q never (reading j q x hp hooks).

Lemma assign_edit pos n k declared v v0 y l hp : h_objects hp !! pos = Some y ->
  slot_at y n k = Some (SClass declared v0) ->
  assign (AMember pos n k) v (grow l hp) = edit (set_slot n k (SClass declared v)) pos l hp.
Proof.
  intros Hy Hs. unfold edit. cbn. unfold grow, set_objects. cbn. f_equal. apply list_alter_ext; [|done].
  intros x Hx. rewrite lookup_app_l in Hx by (by eapply lookup_lt_Some). simplify_eq.
  unfold assign_slot, set_slot. f_equal. apply list_alter_ext; [|done]. intros sl Hsl.
  unfold slot_at in Hs. rewrite Hsl in Hs. cbn in Hs. unfold assign_member, set_member. f_equal.
  rewrite list_insert_alter. apply list_alter_ext; [|done]. intros s0' E. by simplify_eq.
Qed.

Lemma get_initReadEncaps j q x hp hooks :
  on_stream initReadEncaps (reading j q x hp hooks) = (Ok tt, reading j q x hp hooks).
Proof. done. Qed.

Lemma wp_decoder_version {A} count (f g : M world A) m stack x Q j q hp hooks : decoder_in count m stack x ->
  wp g Q never (reading j q x hp hooks) ->
  wp (x ← get_decoder; match d_version x with V10 _ => f | V11 _ => g end) Q never (reading j q x hp hooks).
Proof. intros (slice & objects & ids & spare & -> & _) H. exact H. Qed.

(** The object at [pos] is being read: its slot [k] of slice [n] is of the
    type of [s]. *)
Definition slot_being_read (hp : Heap) (pos : oref) (n k : nat) (s : slot) : Prop :=
  exists y s0', h_objects hp !! pos = Some y /\ slot_at y n k = Some s0' /\ slot_kind s0' = slot_kind s.

Section nested.
Variables (ri : Z -> option Patch -> M world Z) (fuel : nat) (G : oref -> Marshaled -> list byte -> Marshaled -> Prop).
Hypothesis nested : forall o, object_read (read11 ri) (G o) o.

Lemma readOpt_unset m c stack x tag f j q hp hooks : decoder_at m (c :: stack) x ->
  has (ri_sliceFlags c) FLAG_HAS_OPTIONAL_MEMBERS = false ->
  readOpt (OC := decoder_calls ri fuel) fuel tag f (reading j q x hp hooks) = (Ok false, reading j q x hp hooks).
Proof.
  intros (slice & objects & ids & spare & -> & _) Hf.
  transitivity ((if has (ri_sliceFlags c) FLAG_HAS_OPTIONAL_MEMBERS then
      readOptImpl (OC := {| decoder_read := decoder_read_patch ri None; decoder_readOpt := fun _ _ => mret false |}) fuel tag f
    else mret false) (reading j q (MkDecoder (MkDecoderBase slice ∅ objects ids (Z.of_nat (length (tids m))) [])
      (V11 (MkDecoder11 (c :: stack) spare (1 + Z.of_nat (length (seen m)))))) hp hooks)); [reflexivity|by rewrite Hf].
Qed.

Lemma wp_read_member pos n k s0' s m bs m' c stack x rest j q hp hooks (Q : unit -> world -> Prop) :
  member_wire C1 C2 G s m bs m' -> slot_ok h s -> slot_kind s0' = slot_kind s ->
  slot_being_read hp pos n k s -> decoder_at m (c :: stack) x -> in_slice c ->
  ahead j (bs ++ rest) -> settled j q -> heap_at m hp ->
  (forall s' l q' x' hooks', slot_copy base m' s s' -> decoder_at m' (c :: stack) x' ->
    ahead (j + Z.of_nat (length bs)) rest -> settled (j + Z.of_nat (length bs)) q' -> extends m m' ->
    built m' (length (seen m)) l ->
    Q tt (reading (j + Z.of_nat (length bs)) q' x' (edit (set_slot n k s') pos l hp) hooks')) ->
  wp (read_member ri fuel pos n k s0') Q never (reading j q x hp hooks).
Proof.
  intros Hw Hok Hkind (y & s1 & Hy & Hs1 & Hk1) Hx Hc Ha Hq Hh HQ.
  pose proof (edit_nil_ext (set_slot n k s) (set_slot n k s) pos hp ltac:(done)) as Hedit.
  destruct Hw as [t v bs need m Hw|declared m|declared o bs m m' Hw|tag t m].
  - destruct s0' as [t0 v0| |]; [|done..]. cbn in Hkind. simplify_eq. cbn [read_member].
    apply wp_bind. eapply wp_read; [by eapply (ty_reads C1 C2 t)|exact Ha|done|]. intros q' Ha' Hq'.
    unfold store_slot, update_object. apply wp_modify.
    replace (set_objects _ _) with (edit (set_slot n k (SData t v)) pos [] hp) by (unfold edit; by rewrite app_nil_r).
    eapply HQ; [done..|apply built_nil].
  - destruct s0' as [|d0 p0|]; [done| |done]. cbn in Hkind. simplify_eq. cbn [read_member].
    apply wp_bind; eapply wp_eq; [apply get_initReadEncaps|]. eapply wp_decoder_version; [exact Hx|].
    unfold read11. apply wp_bind. eapply wp_read; [by apply (readSize_reads 0)|exact Ha|done|]. intros q' Ha' Hq'.
    cbn [Z.ltb Z.eqb]. change (0 <? 0) with false. change (0 =? 0) with true. cbv iota. apply wp_modify.
    destruct s1 as [|d1 p1|]; [done| |done]. cbn in Hk1. simplify_eq.
    replace (assign _ _ _) with (edit (set_slot n k (SClass declared None)) pos [] hp).
    + eapply HQ; [by exists None|done..|apply built_nil].
    + symmetry. rewrite <- (assign_edit _ _ _ _ _ _ _ _ _ Hy Hs1). cbn. unfold grow. by rewrite app_nil_r.
  - destruct s0' as [|d0 p0|]; [done| |done]. cbn in Hkind. simplify_eq. cbn [read_member].
    apply wp_bind; eapply wp_eq; [apply get_initReadEncaps|]. eapply wp_decoder_version; [exact Hx|].
    destruct s1 as [|d1 p1|]; [done| |done]. cbn in Hk1. simplify_eq.
    eapply nested; [exact Hw|exact Hx| |exact Ha|done|exact Hh|exact Hok|].
    { apply Hc. }
    intros l q' x' hooks' i Hx' Ha' Hq' He Hb Hi. cbn [pt_addr]. rewrite (assign_edit _ _ _ _ _ _ _ _ _ Hy Hs1).
    eapply HQ; [|done..]. exists (Some (base + i)%nat). split; [done|]. by exists i.
  - destruct s0' as [| |tag0 t0 v0]; [done..|]. cbn in Hkind. simplify_eq. cbn [read_member].
    pose proof Hc as (_ & _ & _ & _ & _ & Hf).
    apply wp_bind, wp_bind. eapply wp_eq; [exact (readOpt_unset m c stack x tag _ j q hp hooks Hx Hf)|].
    apply wp_ret. unfold store_slot, update_object. apply wp_modify.
    replace (set_objects _ _) with (edit (set_slot n k (SOptional tag t None)) pos [] hp) by (unfold edit; by rewrite app_nil_r).
    specialize (HQ (SOptional tag t None) [] q x hooks). cbn [length] in HQ. rewrite Z.add_0_r in HQ.
    apply HQ; [done|exact Hx|done..|apply built_nil].
Qed.

(** Slice [n] of the object at [pos] has members of the kinds [ks] from the
    [k]th one on. *)
Definition being_read (hp : Heap) (pos : oref) (n k : nat) (ks : list kind) : Prop :=
  exists y l, h_objects hp !! pos = Some y /\ in_slices y !! n = Some l /\ drop k (slot_kind <$> sl_members l) = ks.

Lemma being_read_slot hp pos n k s ss : being_read hp pos n k (slot_kind <$> s :: ss) -> slot_being_read hp pos n k s.
Proof.
  intros (y & l & Hy & Hl & Hk). apply (f_equal (fun ks => ks !! 0%nat)) in Hk. rewrite lookup_drop, Nat.add_0_r in Hk.
  rewrite list_lookup_fmap in Hk. destruct (sl_members l !! k) as [s1|] eqn:E; [|done].
  exists y, s1. split; [done|]. unfold slot_at. rewrite Hl. cbn. cbn in Hk. by simplify_eq.
Qed.

Lemma being_read_next hp pos n k s s' ss l : being_read hp pos n k (slot_kind <$> s :: ss) -> slot_kind s' = slot_kind s ->
  being_read (edit (set_slot n k s') pos l hp) pos n (S k) (slot_kind <$> ss).
Proof.
  intros (y & sl & Hy & Hl & Hk) Hs. exists (set_slot n k s' y), (set_member k s' sl).
  split; [by apply edit_at|]. split.
  - cbn. by rewrite list_lookup_alter_eq, Hl.
  - cbn. rewrite list_fmap_insert. rewrite drop_insert_lt by lia.
    replace (S k) with (k + 1)%nat by lia. by rewrite <- drop_drop, Hk.
Qed.

Lemma being_read_shape hp pos n k s s' ss y : being_read hp pos n k (slot_kind <$> s :: ss) -> slot_kind s' = slot_kind s ->
  h_objects hp !! pos = Some y -> shape (set_slot n k s' y) = shape y.
Proof.
  intros Hb Hs Hy. destruct (being_read_slot _ _ _ _ _ _ Hb) as (y' & s1 & Hy' & Hs1 & Hk). simplify_eq.
  apply set_slot_shape. rewrite Hs1. cbn. congruence.
Qed.

Lemma wp_read_members pos n ss : forall k sk m bs m' c stack x rest j q hp hooks (Q : unit -> world -> Prop),
  members_wire C1 C2 G ss m bs m' -> Forall (slot_ok h) ss -> slot_kind <$> sk = slot_kind <$> ss ->
  being_read hp pos n k (slot_kind <$> ss) -> decoder_at m (c :: stack) x -> in_slice c ->
  ahead j (bs ++ rest) -> settled j q -> heap_at m hp ->
  (forall ss' l q' x' hooks', Forall2 (slot_copy base m') ss ss' -> decoder_at m' (c :: stack) x' ->
    ahead (j + Z.of_nat (length bs)) rest -> settled (j + Z.of_nat (length bs)) q' -> extends m m' ->
    built m' (length (seen m)) l -> heap_at m' (edit (set_slots n k ss') pos l hp) ->
    Q tt (reading (j + Z.of_nat (length bs)) q' x' (edit (set_slots n k ss') pos l hp) hooks')) ->
  wp (read_members ri fuel pos n k sk) Q never (reading j q x hp hooks).
Proof.
  induction ss as [|s ss IH]; intros k sk m bs m' c stack x rest j q hp hooks Q Hw Hok Hkinds Hb Hx Hc Ha Hq Hh HQ.
  - apply fmap_nil_inv in Hkinds as ->. inversion Hw; subst. cbn [read_members]. apply wp_ret.
    assert (edit (set_slots n k []) pos [] hp = hp) as E.
    { unfold edit. rewrite app_nil_r, list_alter_id by (intros; apply set_slots_nil). by destruct hp. }
    specialize (HQ [] [] q x hooks). rewrite E in HQ. cbn [length] in HQ. rewrite Z.add_0_r in HQ.
    by apply HQ; [constructor|..|apply built_nil|].
  - destruct sk as [|s0' sk]; [done|]. pose proof Hkinds as Hkinds'. injection Hkinds' as Hk0 Hks. cbn [read_members].
    apply Forall_cons in Hok as [Hok Hoks]. inversion Hw as [|? ? bs1 bs2 ? m1 ? Hw1 Hw2]; subst.
    rewrite <- app_assoc in Ha. pose proof Hb as (y & sl & Hy & _). pose proof (lookup_lt_Some _ _ _ Hy) as Hpos.
    apply wp_bind. eapply wp_read_member; [exact Hw1|done|done|by eapply being_read_slot|exact Hx|done|exact Ha|done..|].
    intros s' l1 q1 x1 hooks1 Hs' Hx1 Ha1 Hq1 He1 Hb1. pose proof (slot_copy_kind _ _ _ _ Hs') as Hks'.
    assert (heap_at m1 (edit (set_slot n k s') pos l1 hp)) as Hh1.
    { eapply heap_at_edit; [done..|]. intros y' Hy'. by eapply being_read_shape. }
    eapply (IH (S k)); [exact Hw2|done|done|by eapply being_read_next|exact Hx1|done|exact Ha1|done|exact Hh1|].
    intros ss' l2 q2 x2 hooks2 Hss' Hx2 Ha2 Hq2 He2 Hb2 Hh2. rewrite edit_edit in Hh2 |- * by done.
    assert (edit (fun z => set_slots n (S k) ss' (set_slot n k s' z)) pos (l1 ++ l2) hp =
      edit (set_slots n k (s' :: ss')) pos (l1 ++ l2) hp) as E.
    { unfold edit. f_equal. apply list_alter_ext; [|done]. intros z _. apply set_slots_cons. }
    rewrite E in Hh2 |- *. rewrite length_app, Nat2Z.inj_add, Z.add_assoc in HQ.
    eapply HQ; [|done..| | |done].
    + constructor; [|done]. by eapply slot_copy_extends.
    + by etrans.
    + by eapply built_app.
Qed.

(** ** Slices *)

Fixpoint set_slices (n : nat) (l : list (list slot)) (x : Instance) : Instance :=
  match l with [] => x | ss :: l' => set_slices (S n) l' (set_slots n 0 ss x) end.

(** The slices of the object at [pos] have the shapes [l] from the [n]th one on. *)
Definition slices_being_read (hp : Heap) (pos : oref) (n : nat) (l : list (str * list kind)) : Prop :=
  exists y, h_objects hp !! pos = Some y /\ drop n (shape y) = l.

Lemma slices_being_read_members hp pos n l ls : slices_being_read hp pos n (slice_shape <$> l :: ls) ->
  being_read hp pos n 0 (slot_kind <$> sl_members l).
Proof.
  intros (y & Hy & Hs). apply (f_equal (fun k => k !! 0%nat)) in Hs. rewrite lookup_drop, Nat.add_0_r in Hs.
  unfold shape in Hs. rewrite list_lookup_fmap in Hs. destruct (in_slices y !! n) as [l'|] eqn:E; [|done].
  cbn in Hs. injection Hs as Ht Hk. exists y, l'. done.
Qed.

Lemma set_slots_shape n ss l x : in_slices x !! n = Some l -> slot_kind <$> ss = slot_kind <$> sl_members l ->
  shape (set_slots n 0 ss x) = shape x.
Proof.
  intros Hl Hk. unfold shape. cbn. apply alter_same. intros l' Hl'. simplify_eq. unfold slice_shape. cbn. f_equal.
  assert (length ss = length (sl_members l)) as Hlen by (apply (f_equal length) in Hk; by rewrite !length_fmap in Hk).
  rewrite <- (app_nil_r ss), list_inserts_0_l by done. done.
Qed.

Lemma slots_copy_kinds m l l' : Forall2 (slot_copy base m) l l' -> slot_kind <$> l' = slot_kind <$> l.
Proof. induction 1 as [|s s' l l' Hs _ IH]; [done|]. cbn. f_equal; [by eapply slot_copy_kind|exact IH]. Qed.

Lemma slices_being_read_next hp pos n l ls m ss new : slices_being_read hp pos n (slice_shape <$> l :: ls) ->
  Forall2 (slot_copy base m) (sl_members l) ss ->
  slices_being_read (edit (set_slots n 0 ss) pos new hp) pos (S n) (slice_shape <$> ls).
Proof.
  intros Hb Hss. destruct (slices_being_read_members _ _ _ _ _ Hb) as (y & l' & Hy & Hl' & Hk).
  destruct Hb as (y' & Hy' & Hs). rewrite Hy in Hy'. injection Hy' as <-. rewrite drop_0 in Hk. exists (set_slots n 0 ss y). split; [by apply edit_at|].
  rewrite (set_slots_shape n ss l') by (first [done|rewrite Hk; by eapply slots_copy_kinds]).
  replace (S n) with (n + 1)%nat by lia. by rewrite <- drop_drop, Hs.
Qed.

Lemma decoder_endSlice_plain m c stack x j q hp hooks : decoder_at m (c :: stack) x -> in_slice c ->
  decoder_endSlice ri fuel (reading j q x hp hooks) = (Ok tt, reading j q x hp hooks).
Proof.
  intros Hx (_ & _ & _ & _ & H2 & H3).
  assert (wp (decoder_endSlice ri fuel) (fun _ w => w = reading j q x hp hooks) never (reading j q x hp hooks)) as H.
  { eapply wp_decoder_version; [exact Hx|]. unfold endSlice_d11. eapply wp_current; [exact Hx|]. rewrite H2, H3.
    by apply wp_bind, wp_ret, wp_ret. }
  destruct (wp_elim _ _ _ _ H) as [([] & w & E & ->)|(? & ? & _ & [])]. exact E.
Qed.

(** What is left of [readImpl] behind the header of slice [n] *)
Lemma wp_read_slice pos n l ls sk m bs m' c stack x rest j q hp hooks (k : M world unit) (Q : unit -> world -> Prop) :
  members_wire C1 C2 G (sl_members l) m bs m' -> Forall (slot_ok h) (sl_members l) ->
  slot_kind <$> sk = slot_kind <$> sl_members l ->
  slices_being_read hp pos n (slice_shape <$> l :: ls) -> decoder_at m (c :: stack) x -> in_slice c ->
  ahead j (bs ++ rest) -> settled j q -> heap_at m hp ->
  (forall ss' new q' x' hooks', Forall2 (slot_copy base m') (sl_members l) ss' -> decoder_at m' (c :: stack) x' ->
    ahead (j + Z.of_nat (length bs)) rest -> settled (j + Z.of_nat (length bs)) q' -> extends m m' ->
    built m' (length (seen m)) new -> heap_at m' (edit (set_slots n 0 ss') pos new hp) ->
    slices_being_read (edit (set_slots n 0 ss') pos new hp) pos (S n) (slice_shape <$> ls) ->
    wp k Q never (reading (j + Z.of_nat (length bs)) q' x' (edit (set_slots n 0 ss') pos new hp) hooks')) ->
  wp (read_members ri fuel pos n 0 sk;; decoder_endSlice ri fuel;; k) Q never (reading j q x hp hooks).
Proof.
  intros Hw Hok Hsk Hb Hx Hc Ha Hq Hh HQ. apply wp_bind.
  eapply wp_read_members; [exact Hw|done|done|by eapply slices_being_read_members|exact Hx|done|exact Ha|done|done|].
  intros ss' new q' x' hooks' Hss Hx' Ha' Hq' He Hnew Hh'.
  apply wp_bind; eapply wp_eq; [by eapply decoder_endSlice_plain|].
  apply HQ; try done. by eapply slices_being_read_next.
Qed.

(** The state behind slices from the [n]th one on *)
Definition slices_read pos n (ls : list Slice) m m' stack rest j hp (Q : unit -> world -> Prop) : Prop :=
  forall sss new c' q' x' hooks', Forall2 (fun l ss => Forall2 (slot_copy base m') (sl_members l) ss) ls sss ->
    decoder_at m' (c' :: stack) x' -> in_slice c' -> ahead j rest -> settled j q' -> extends m m' ->
    built m' (length (seen m)) new -> heap_at m' (edit (set_slices n sss) pos new hp) ->
    Q tt (reading j q' x' (edit (set_slices n sss) pos new hp) hooks').

Lemma slices_read_cons pos n l ls m m1 m2 stack rest j hp Q ss new1 :
  slices_read pos n (l :: ls) m m2 stack rest j hp Q -> Forall2 (slot_copy base m1) (sl_members l) ss ->
  extends m m1 -> built m1 (length (seen m)) new1 -> (pos < length (h_objects hp))%nat ->
  slices_read pos (S n) ls m1 m2 stack rest j (edit (set_slots n 0 ss) pos new1 hp) Q.
Proof.
  intros HQ Hss He1 Hb1 Hp sss new2 c' q' x' hooks' Hsss Hx' Hc' Ha' Hq' He2 Hb2 Hh2.
  rewrite edit_edit in Hh2 |- * by done. eapply (HQ (ss :: sss)); try done.
  - constructor; [|done]. by eapply slots_copy_extends.
  - by etrans.
  - by eapply built_app.
Qed.

Lemma slices_being_read_lt hp pos n l : slices_being_read hp pos n l -> (pos < length (h_objects hp))%nat.
Proof. intros (y & Hy & _). by eapply lookup_lt_Some. Qed.

Lemma wp_readImpl_rest pos ls : forall n sk m bs m' c stack x rest j q hp hooks (Q : unit -> world -> Prop),
  slices_wire C1 C2 G ls m bs m' -> Forall (fun l => Forall (slot_ok h) (sl_members l)) ls ->
  slice_shape <$> sk = slice_shape <$> ls -> slices_being_read hp pos n (slice_shape <$> ls) ->
  decoder_at m (c :: stack) x -> in_slice c -> ahead j (bs ++ rest) -> settled j q -> heap_at m hp ->
  slices_read pos n ls m m' stack rest (j + Z.of_nat (length bs)) hp Q ->
  wp (readImpl ri fuel pos n sk) Q never (reading j q x hp hooks).
Proof.
  induction ls as [|l ls IH]; intros n sk m bs m' c stack x rest j q hp hooks Q Hw Hok Hsk Hb Hx Hc Ha Hq Hh HQ.
  - apply fmap_nil_inv in Hsk as ->. inversion Hw; subst. cbn [readImpl]. apply wp_ret.
    assert (edit (set_slices n []) pos [] hp = hp) as E.
    { unfold edit. rewrite app_nil_r, list_alter_id by done. by destruct hp. }
    cbn [length] in HQ. rewrite Z.add_0_r in HQ. specialize (HQ [] [] c q x hooks). rewrite E in HQ.
    by apply HQ; [constructor|..|apply built_nil|].
  - destruct sk as [|s0' sk]; [done|]. injection Hsk as Ht Hk Hsk. cbn [readImpl].
    apply Forall_cons in Hok as [Hok Hoks]. inversion Hw as [|? ? bs1 bs2 ? m1 ? Hw1 Hw2]; subst.
    pose proof (slices_being_read_lt _ _ _ _ Hb) as Hpos. rewrite <- app_comm_cons, <- app_assoc in Ha.
    apply wp_bind. eapply wp_decoder_version; [exact Hx|]. eapply wp_next_header; [exact Hx|done|exact Ha|done|].
    intros q1 x1 c1 _ Ha1 Hq1 Hx1 Hc1.
    eapply wp_read_slice; [exact Hw1|exact Hok|exact Hk|exact Hb|exact Hx1|exact Hc1|exact Ha1|exact Hq1|exact Hh|].
    intros ss new q2 x2 hooks2 Hss Hx2 Ha2 Hq2 He Hnew Hh2 Hb2.
    eapply IH; [exact Hw2|exact Hoks|exact Hsk|exact Hb2|exact Hx2|exact Hc1|exact Ha2|exact Hq2|exact Hh2|].
    replace (j + 1 + Z.of_nat (length bs1) + Z.of_nat (length bs2)) with
      (j + Z.of_nat (length (chr (last_flag ls) :: bs1 ++ bs2))) by (cbn [length]; rewrite length_app; lia).
    by eapply slices_read_cons.
Qed.

Lemma wp_skipped_header m c stack x j q hp hooks (Q : str -> world -> Prop) :
  decoder_at m (c :: stack) x -> ri_skipFirstSlice c = true ->
  (forall x' t, decoder_at m (set_ri_skip false c :: stack) x' -> Q t (reading j q x' hp hooks)) ->
  wp (decoder_startSlice) Q never (reading j q x hp hooks).
Proof.
  intros Hx Hc HQ. eapply wp_decoder_version; [exact Hx|]. unfold startSlice_d11. eapply wp_current; [exact Hx|].
  rewrite Hc. apply wp_bind. eapply wp_mod_current; [exact Hx|]. intros x' Hx'. apply wp_ret. by apply HQ.
Qed.

(** The slices of an object whose first header was read *)
Lemma wp_readImpl_first pos l ls sk m bs1 m1 bs2 m2 c stack x rest j q hp hooks (Q : unit -> world -> Prop) :
  members_wire C1 C2 G (sl_members l) m bs1 m1 -> slices_wire C1 C2 G ls m1 bs2 m2 ->
  Forall (fun l => Forall (slot_ok h) (sl_members l)) (l :: ls) ->
  slice_shape <$> sk = slice_shape <$> l :: ls -> slices_being_read hp pos 0 (slice_shape <$> l :: ls) ->
  decoder_at m (c :: stack) x -> ri_skipFirstSlice c = true -> in_slice (set_ri_skip false c) ->
  ahead j (bs1 ++ bs2 ++ rest) -> settled j q -> heap_at m hp ->
  slices_read pos 0 (l :: ls) m m2 stack rest (j + Z.of_nat (length (bs1 ++ bs2))) hp Q ->
  wp (readImpl ri fuel pos 0 sk) Q never (reading j q x hp hooks).
Proof.
  intros Hw1 Hw2 Hok Hsk Hb Hx Hskip Hc Ha Hq Hh HQ. destruct sk as [|s0' sk]; [done|]. injection Hsk as Ht Hk Hsk.
  cbn [readImpl]. apply Forall_cons in Hok as [Hok Hoks]. pose proof (slices_being_read_lt _ _ _ _ Hb) as Hpos.
  apply wp_bind. eapply wp_skipped_header; [exact Hx|done|]. intros x1 _ Hx1.
  eapply wp_read_slice; [exact Hw1|exact Hok|exact Hk|exact Hb|exact Hx1|exact Hc|exact Ha|exact Hq|exact Hh|].
  intros ss new q2 x2 hooks2 Hss Hx2 Ha2 Hq2 He Hnew Hh2 Hb2.
  eapply wp_readImpl_rest; [exact Hw2|exact Hoks|exact Hsk|exact Hb2|exact Hx2|exact Hc|exact Ha2|exact Hq2|exact Hh2|].
  rewrite length_app, Nat2Z.inj_add, Z.add_assoc in HQ. by eapply slices_read_cons.
Qed.

(** What the slices were set to *)
Lemma set_slices_copy m ls : forall n sss y, drop n (shape y) = slice_shape <$> ls ->
  Forall2 (fun l ss => Forall2 (slot_copy base m) (sl_members l) ss) ls sss ->
  Forall2 (slice_copy base m) ls (drop n (in_slices (set_slices n sss y))) /\
  take n (in_slices (set_slices n sss y)) = take n (in_slices y).
Proof.
  induction ls as [|l ls IH]; intros n sss y Hy Hsss.
  - apply Forall2_nil_inv_l in Hsss as ->. cbn [set_slices]. split; [|done].
    unfold shape in Hy. rewrite <- fmap_drop in Hy. apply fmap_nil_inv in Hy as ->. constructor.
  - apply Forall2_cons_inv_l in Hsss as (ss & sss' & Hss & Hsss & ->). cbn [set_slices].
    destruct (in_slices y !! n) as [l'|] eqn:El.
    2:{ exfalso. unfold shape in Hy. rewrite <- fmap_drop in Hy. rewrite drop_ge in Hy by (by apply lookup_ge_None). done. }
    pose proof Hy as Hy0. unfold shape in Hy. rewrite <- fmap_drop in Hy. rewrite (drop_S _ _ _ El) in Hy.
    injection Hy as Ht Hk Hrest. pose proof (slots_copy_kinds _ _ _ Hss) as Hkss.
    destruct (IH (S n) sss' (set_slots n 0 ss y)) as [H1 H2]; [|done|].
    { rewrite (set_slots_shape n ss l' y El) by congruence. unfold shape. by rewrite <- fmap_drop. }
    set (z := set_slices (S n) sss' (set_slots n 0 ss y)) in *.
    assert (in_slices z !! n = Some (MkSlice (sl_typeId l') (sl_compactId l') ss)) as Hz.
    { rewrite <- (lookup_take_lt _ (S n)) by lia. rewrite H2, lookup_take_lt by lia. cbn.
      rewrite list_lookup_alter_eq, El. cbn. do 2 f_equal. rewrite <- (app_nil_r ss) at 1. apply list_inserts_0_l.
      apply (f_equal length) in Hk, Hkss. rewrite !length_fmap in *. congruence. }
    split.
    + rewrite (drop_S _ _ _ Hz). constructor; [by split|done].
    + apply (f_equal (take n)) in H2. rewrite !take_take, !Nat.min_l in H2 by lia. rewrite H2. cbn. by rewrite take_alter_ge.
Qed.

(** ** Objects *)

Lemma wp_endInstance m c stack x preserve j q hp hooks (Q : option (list sref) -> world -> Prop) :
  decoder_at m (c :: stack) x -> fresh c ->
  (forall x', decoder_at m stack x' -> Q None (reading j q x' hp hooks)) ->
  wp (decoder_endInstance preserve) Q never (reading j q x hp hooks).
Proof.
  intros Hx Hc HQ. pose proof Hc as (Hc1 & Hc2 & Hc3). eapply wp_decoder_version; [exact Hx|]. unfold endInstance_d11.
  assert (wp (if preserve : bool then readSlicedData else mret None) (fun v w => v = None /\ w = reading j q x hp hooks) never
    (reading j q x hp hooks)) as H.
  { destruct preserve; [|by apply wp_ret]. unfold readSlicedData. eapply wp_current; [exact Hx|]. rewrite Hc1. by apply wp_ret. }
  apply wp_bind. eapply wp_conseq; [exact H| |done]. intros v w [-> ->].
  destruct Hx as (slice & objects & ids & spare & -> & Hm & Hs). dec. cbn [d11_stack]. dec. apply wp_ret. apply HQ.
  eexists slice, objects, ids, _. split; [done|]. split; [done|]. constructor; [|done]. by repeat split.
Qed.

Lemma wp_read_instance pos l ls y m bs1 m1 bs2 m2 c stack x rest j q hp hooks (Q : unit -> world -> Prop) :
  members_wire C1 C2 G (sl_members l) m bs1 m1 -> slices_wire C1 C2 G ls m1 bs2 m2 ->
  Forall (fun l => Forall (slot_ok h) (sl_members l)) (l :: ls) ->
  h_objects hp !! pos = Some y -> shape y = slice_shape <$> l :: ls ->
  decoder_at m (c :: stack) x -> in_slice c ->
  ahead j (bs1 ++ bs2 ++ rest) -> settled j q -> heap_at m hp ->
  (forall f new q' x' hooks', Forall2 (slice_copy base m2) (l :: ls) (in_slices (f y)) -> shape (f y) = shape y ->
    decoder_at m2 stack x' -> ahead (j + Z.of_nat (length (bs1 ++ bs2))) rest ->
    settled (j + Z.of_nat (length (bs1 ++ bs2))) q' -> extends m m2 -> built m2 (length (seen m)) new ->
    Q tt (reading (j + Z.of_nat (length (bs1 ++ bs2))) q' x' (edit f pos new hp) hooks')) ->
  wp (read_instance ri fuel ObjectSlice pos) Q never (reading j q x hp hooks).
Proof.
  intros Hw1 Hw2 Hok Hy Hs Hx Hc Ha Hq Hh HQ. unfold read_instance.
  apply wp_bind; eapply wp_eq; [unfold deref; rewrite bind_get; cbn; by rewrite Hy|].
  apply wp_bind. eapply wp_decoder_version; [exact Hx|]. unfold startInstance_d11. eapply wp_current; [exact Hx|].
  pose proof Hc as (Hc1 & Hc2 & Hc3 & Hc4). apply wp_bind, wp_assert; [by apply bool_decide_eq_true|].
  eapply wp_mod_current; [exact Hx|]. intros x1 Hx1. apply wp_bind.
  eapply wp_readImpl_first; [exact Hw1|exact Hw2|exact Hok|exact Hs| |exact Hx1|done| |exact Ha|exact Hq|exact Hh|].
  { by exists y. }
  { destruct Hc1 as (? & ? & ?). by split; [|split]. }
  intros sss new c2 q2 x2 hooks2 Hsss Hx2 Hc2' Ha2 Hq2 He Hnew Hh2.
  apply wp_bind. eapply wp_endInstance; [exact Hx2|apply Hc2'|]. intros x3 Hx3.
  destruct (set_slices_copy m2 (l :: ls) 0 sss y Hs Hsss) as [Hcopy _]. rewrite drop_0 in Hcopy.
  assert (shape (set_slices 0 sss y) = shape y) as Hshape.
  { rewrite Hs. apply (object_copy_shape base m2 (MkInstance (l :: ls) false None None false)). exact Hcopy. }
  destruct (in_preserve y).
  - unfold update_object. apply wp_modify.
    replace (set_objects _ _) with (edit (fun z => set_slicedData None (set_slices 0 sss z)) pos new hp).
    + by apply HQ.
    + unfold edit, set_objects. cbn. by rewrite list_alter_alter_eq.
  - apply wp_ret. by apply HQ.
Qed.
End nested.

Lemma wp_unmarshal ir index o m stack x pos j q hp hooks (Q : unit -> world -> Prop) :
  decoder_in (S (length (seen m))) m stack x -> index = object_index (length (seen m)) -> pos = (base + length (seen m))%nat ->
  (forall x', decoder_at (meet o m) stack x' ->
    wp (ir ObjectSlice pos) (fun _ w => exists m' j' q' x' stack' hp' hooks', w = reading j' q' x' hp' hooks' /\
      decoder_at m' stack' x' /\ forall hooks', Q tt (reading j' q' x' hp' hooks')) never (reading j q x' hp hooks)) ->
  wp (unmarshal ir index pos) Q never (reading j q x hp hooks).
Proof.
  intros (slice & objects & ids & spare & -> & [Hm1 Hm2] & Hs) -> -> HQ. unfold unmarshal. dec.
  apply wp_bind. eapply wp_conseq; [apply HQ| |done].
  - eexists slice, _, ids, spare. split; [cbn; rewrite length_app; cbn; do 3 f_equal; lia|]. split; [|done].
    split; [|exact Hm2]. intros k o'. cbn. rewrite length_app. cbn. unfold insert_new.
    destruct (decide (k = object_index (length (seen m)))) as [->|Hne].
    + assert (objects !! object_index (length (seen m)) = None) as ->.
      { destruct (objects !! _) as [o2|] eqn:E; [|done]. apply Hm1 in E as (n & Hn & E & _). unfold object_index in E. lia. }
      rewrite lookup_insert_eq. split.
      * intros [= <-]. exists (length (seen m)). split; [lia|done].
      * intros (n & Hn & E & ->). do 2 f_equal. unfold object_index in E. lia.
    + assert ((match objects !! object_index (length (seen m)) with Some _ => objects
        | None => <[object_index (length (seen m)):=(base + length (seen m))%nat]> objects end) !! k = objects !! k) as ->.
      { destruct (objects !! object_index _); [done|]. by rewrite lookup_insert_ne. }
      rewrite Hm1. split; intros (n & Hn & -> & ->); exists n; (split; [|done]); [lia|].
      destruct (decide (n = length (seen m))) as [->|]; [done|lia].
  - intros [] w (m' & j' & q' & x' & stack' & hp' & hooks' & -> & Hx' & HQ').
    destruct Hx' as (slice' & objects' & ids' & spare' & -> & _). dec. cbn [patchMap d_base]. rewrite lookup_empty.
    apply wp_bind, wp_ret. dec. cbn [objectList patchMap d_base]. rewrite !bool_decide_eq_true_2 by done. cbn [andb].
    eapply wp_eq; [reflexivity|]. apply HQ'.
Qed.

Lemma wp_read11_nested ri m stack x index rest p (Q : unit -> world -> Prop) j q hp hooks : decoder_at m stack x ->
  stack_plain stack -> 0 < index < 2 ^ 31 -> ahead j (size_bytes index ++ rest) -> settled j q ->
  (forall q', ahead (j + Z.of_nat (length (size_bytes index))) rest -> settled (j + Z.of_nat (length (size_bytes index))) q' ->
    wp (ri index (Some p);; mret tt) Q never (reading (j + Z.of_nat (length (size_bytes index))) q' x hp hooks)) ->
  wp (read11 ri (Some p)) Q never (reading j q x hp hooks).
Proof.
  intros Hx Hst Hi Ha Hq HQ. unfold read11. apply wp_bind.
  eapply wp_read; [apply (readSize_reads index); lia|exact Ha|exact Hq|]. intros q' Ha' Hq'.
  rewrite (proj2 (Z.ltb_ge index 0)), (proj2 (Z.eqb_neq index 0)) by lia. specialize (HQ q' Ha' Hq').
  destruct Hx as (slice & objects & ids & spare & -> & _). dec. cbn [d11_stack].
  destruct stack as [|c stack]; [exact HQ|]. cbn in Hst. rewrite Hst. exact HQ.
Qed.

Lemma wp_push m stack x (Q : unit -> world -> Prop) j q hp hooks : decoder_at m stack x ->
  (forall c x', decoder_at m (c :: stack) x' -> fresh c -> ri_sliceType c = ObjectSlice -> ri_skipFirstSlice c = false ->
    Q tt (reading j q x' hp hooks)) ->
  wp (push ObjectSlice) Q never (reading j q x hp hooks).
Proof.
  intros (slice & objects & ids & spare & -> & Hm & Hs) HQ. unfold push. dec. cbn [d11_spare].
  destruct Hs as [|c spare Hc Hs]; eapply wp_eq; try reflexivity; (eapply HQ; [eexists slice, objects, ids, _; done|done..]).
Qed.

Lemma grow_nil hp : grow [] hp = hp.
Proof. unfold grow. rewrite app_nil_r. by destruct hp. Qed.

Lemma edit_new f hp x0 l : edit f (length (h_objects hp)) l (grow [x0] hp) = grow (f x0 :: l) hp.
Proof.
  unfold edit, grow, set_objects. cbn. f_equal. rewrite <- app_assoc. cbn.
  rewrite <- (Nat.add_0_r (length (h_objects hp))). by rewrite alter_app_r.
Qed.

Hypothesis h_typed : heap_typed h.
Hypothesis h_receivable : Forall receivable (h_objects h).

Section instances.
Variables (depth fuel : nat).
Hypothesis nested : forall o, object_read (read11 (readInstance11 depth (S fuel))) (instance_wire C1 C2 h depth o) o.

(** The body of [readInstance11] for an object that is met first *)
Lemma wp_readInstance11_new o x0 body m m' stack x rest p j q hp hooks (Q : Z -> world -> Prop) :
  (o ∉ seen m) -> object_index (length (seen m)) < 2 ^ 31 -> h_objects h !! o = Some x0 ->
  object_wire C1 C2 (instance_wire C1 C2 h depth) (in_slices x0) (meet o m) body m' ->
  decoder_at m stack x -> ahead j (body ++ rest) -> settled j q -> heap_at m hp -> target_ok p o ->
  (forall l q' x' hooks' n, decoder_at m' stack x' -> ahead (j + Z.of_nat (length body)) rest ->
    settled (j + Z.of_nat (length body)) q' -> extends m m' -> built m' (length (seen m)) l -> seen m' !! n = Some o ->
    Q (object_index (length (seen m)))
      (reading (j + Z.of_nat (length body)) q' x' (assign (pt_addr p) (Some (base + n)%nat) (grow l hp)) hooks')) ->
  wp (readInstance11_body (readInstance11 depth (S fuel)) (S fuel) 1 (Some p)) Q never (reading j q x hp hooks).
Proof.
  intros Ho Hcount Hx0 Hw Hx Ha Hq Hh Hp HQ. unfold readInstance11_body.
  apply wp_bind, wp_assert; [done|]. change (1 <? 1) with false. cbv iota.
  apply wp_bind. eapply wp_push; [exact Hx|]. intros c1 x1 Hx1 Hc1 Ht1 Hk1.
  destruct Hx1 as (slice & objects & ids1 & spare & -> & Hm & Hs). dec. cbn [d11_objectIdIndex d11_stack d11_spare].
  rewrite to_i32_id by (unfold object_index in Hcount; lia). dec.
  assert (decoder_in (S (length (seen m))) m (c1 :: stack) (MkDecoder (MkDecoderBase slice ∅ objects ids1
    (Z.of_nat (length (tids m))) []) (V11 (MkDecoder11 (c1 :: stack) spare (1 + Z.of_nat (length (seen m)) + 1))))) as Hx2.
  { eexists slice, objects, ids1, spare. split; [|done].
    by replace (1 + Z.of_nat (S (length (seen m)))) with (1 + Z.of_nat (length (seen m)) + 1) by lia. }
  inversion Hw as [y ls flag ids bs0 bs1 bs2 ? m1 ? Htid Hmem Hsl Ey]; subst.
  cbn [tids meet seen] in Htid. rewrite <- app_comm_cons, <- !app_assoc in Ha.
  eapply Forall_lookup_1 in h_receivable as (l' & ls' & y0 & El & Hne & Hcr & Hshape & Hres); [|exact Hx0].
  rewrite El in Ey. injection Ey as -> ->.
  apply wp_bind. eapply wp_first_header; [exact Hx2|done..|exact Htid|exact Ha|done|].
  intros q2 j2 x2 c2 -> Ha2 Hq2 Hx2' Hc2 Hid2. apply wp_bind.
  eapply wp_find_instance11; [exact Hx2'|done|exact Hid2|done|exact Hcr|exact Hres|].
  intros x3 c3 Hx3 Hc3. apply wp_bind.
  set (pos := length (h_objects hp)). set (mo := MkMarshaled (seen m) ids) in *.
  assert (extends m mo) as Hemo.
  { split; [exists []; by rewrite app_nil_r|]. destruct Htid; [exists []; by rewrite app_nil_r..|by eexists]. }
  assert (heap_at (meet o mo) (grow [y0] hp)) as Hh1.
  { destruct Hh as [Hl Hh]. split; [cbn; rewrite !length_app; cbn; lia|]. intros n o' Hn. cbn in Hn |- *.
    apply lookup_app_Some in Hn as [Hn|[Hge Hn]].
    - destruct (Hh n o' Hn) as (z & z' & Hz & Hz' & Hs'). exists z, z'. split; [done|]. split; [|done]. by apply lookup_app_l_Some.
    - destruct (n - length (seen m))%nat eqn:E; [|done]. cbn in Hn. injection Hn as <-. exists x0, y0. split; [done|].
      split; [|done]. rewrite lookup_app_r by lia. by replace (base + n - length (h_objects hp))%nat with 0%nat by lia. }
  assert (pos = (base + length (seen mo))%nat) as Hpos by apply Hh.
  eapply (wp_unmarshal _ _ o mo); [exact Hx3|unfold object_index; cbn; lia|exact Hpos|]. intros x4 Hx4.
  assert (slot_ok_all : Forall (fun l => Forall (slot_ok h) (sl_members l)) (in_slices x0)).
  { destruct h_typed as [H1 _ _]. by eapply Forall_lookup_1 in H1. }
  rewrite El in slot_ok_all.
  eapply (wp_read_instance _ _ _ nested pos l' ls' y0); [exact Hmem|exact Hsl|exact slot_ok_all| | |exact Hx4|exact Hc3|exact Ha2|exact Hq2|exact Hh1|].
  { unfold pos. cbn. by rewrite lookup_app_r, Nat.sub_diag. }
  { rewrite Hshape. unfold shape. by rewrite El. }
  intros f new q5 x5 hooks5 Hcopy Hfs Hx5 Ha5 Hq5 He5 Hnew. unfold pos in *. rewrite edit_new.
  eexists _, _, _, _, _, _, _. split; [reflexivity|]. split; [exact Hx5|]. intros hooks6.
  destruct Hx5 as (slice5 & objects5 & ids5 & spare5 & -> & Hm5). dec. dec. cbn [patchMap d_base].
  rewrite (bool_decide_eq_true_2 (∅ = ∅)) by done. rewrite andb_false_r. apply wp_bind, wp_ret.
  assert (seen m' !! length (seen m) = Some o) as Hseen.
  { eapply extends_seen; [exact He5|]. cbn. by rewrite lookup_app_r, Nat.sub_diag. }
  assert (extends m m') as He.
  { etrans; [exact Hemo|]. etrans; [|exact He5]. split; [by exists [o]|exists []; by rewrite app_nil_r]. }
  assert (built m' (length (seen m)) (f y0 :: new)) as Hbuilt.
  { destruct Hnew as [Hn1 Hn2]. cbn in Hn1, Hn2. rewrite length_app in Hn1, Hn2. cbn in Hn1, Hn2. split; [cbn; lia|].
    intros [|i] x' Hi; cbn in Hi.
    - simplify_eq. exists o, x0. rewrite Nat.add_0_r. split; [done|]. split; [done|]. unfold object_copy. by rewrite El.
    - destruct (Hn2 i x' Hi) as (o' & z & Ho' & Hz). exists o', z. split; [|done]. rewrite <- Ho'. f_equal. lia. }
  change (w_heap (reading j q _ hp hooks)) with hp. apply wp_bind.
  assert (heap_at m' (grow (f y0 :: new) hp)) as Hh5.
  { rewrite <- edit_new. eapply heap_at_edit; [exact He5|exact Hh1|exact Hnew|cbn; rewrite length_app; cbn; lia|].
    intros z Hz. cbn in Hz. rewrite lookup_app_r, Nat.sub_diag in Hz by lia. by injection Hz as <-. }
  rewrite Hpos. eapply (wp_patchHandle m' o p (length (seen m))); [exact Hh5|exact Hseen|exact Hp|]. apply wp_ret.
  replace (1 + Z.of_nat (length (seen m)) + 1) with (object_index (length (seen m))) by (unfold object_index; lia).
  assert (j + Z.of_nat (length (chr 0 :: bs0)) + Z.of_nat (length (bs1 ++ bs2)) =
    j + Z.of_nat (length (chr (Z.lor (last_flag ls') flag) :: bs0 ++ bs1 ++ bs2))) as Ej.
  { cbn [length]. rewrite !length_app. lia. }
  rewrite Ej in Ha5, Hq5 |- *. apply HQ; [|done..]. by eexists slice5, objects5, ids5, spare5.
Qed.

Lemma object_read_next o : object_read (read11 (readInstance11 (S depth) (S fuel))) (instance_wire C1 C2 h (S depth) o) o.
Proof.
  intros m bs m' stack x rest p j q hp hooks Q Hw Hx Hst Ha Hq Hh Hp HQ.
  destruct Hw as [(n & Hn & Hlt & -> & ->)|(Ho & Hlt & x0 & body & Hx0 & -> & Hbody)].
  - eapply (wp_read11_nested _ _ _ _ (object_index n)); [exact Hx|exact Hst|unfold object_index in *; lia|exact Ha|exact Hq|].
    intros q1 Ha1 Hq1. cbn [readInstance11]. unfold readInstance11_body. apply wp_bind.
    apply wp_bind, wp_assert; [apply Z.ltb_lt; unfold object_index; lia|].
    rewrite (proj2 (Z.ltb_lt 1 _)) by (unfold object_index; lia). apply wp_bind. unfold addPatchEntry.
    apply wp_bind, wp_assert; [apply Z.ltb_lt; unfold object_index; lia|].
    pose proof Hx as (slice & objects & ids & spare & -> & [Hm1 _] & _). dec. cbn [unmarshaledMap d_base].
    assert (objects !! object_index n = Some (base + n)%nat) as ->.
    { apply Hm1. exists n. split; [by eapply lookup_lt_Some|done]. }
    eapply wp_patchHandle; [exact Hh|exact Hn|exact Hp|]. apply wp_ret, wp_ret.
    rewrite <- (grow_nil hp). eapply HQ; [exact Hx|exact Ha1|exact Hq1|done|apply built_nil|exact Hn].
  - rewrite <- app_assoc in Ha. eapply (wp_read11_nested _ _ _ _ 1); [exact Hx|exact Hst|lia|exact Ha|exact Hq|].
    intros q1 Ha1 Hq1. cbn [readInstance11]. apply wp_bind.
    eapply wp_readInstance11_new; [exact Ho|exact Hlt|exact Hx0|exact Hbody|exact Hx|exact Ha1|exact Hq1|exact Hh|exact Hp|].
    intros l q2 x2 hooks2 n Hx2 Ha2 Hq2 He Hb Hn. apply wp_ret.
    assert (j + Z.of_nat (length (size_bytes 1)) + Z.of_nat (length body) = j + Z.of_nat (length (size_bytes 1 ++ body))) as Ej
      by (rewrite length_app; lia).
    rewrite Ej in Ha2, Hq2 |- *. by eapply HQ.
Qed.
End instances.

(** The decoder understands an object, or the index of one. *)
Lemma object_read_instance depth fuel : forall o,
  object_read (read11 (readInstance11 depth (S fuel))) (instance_wire C1 C2 h depth o) o.
Proof.
  induction depth as [|depth IH]; intros o; [by intros m bs m' stack x rest p j q hp hooks Q []|].
  by apply object_read_next.
Qed.

(** ** Class pointers one behind the other *)

Fixpoint read_roots (depth fuel : nat) (l : list (nat * str)) : M world unit :=
  match l with [] => mret tt | (p, declared) :: l' => stream_read depth fuel declared p;; read_roots depth fuel l' end.

(** The variable [p] refers to the copy of [v]. *)
Definition param_copy (m : Marshaled) (hp : Heap) (p : nat) (v : option oref) : Prop :=
  exists v', pa_value <$> h_params hp !! p = Some v' /\ ref_copy base m v v'.

(** [hp'] is [hp] with the copies of the objects that [m'] has and [m] has
    not; the variables outside of [ps] are as they were. *)
Definition copied (m m' : Marshaled) (ps : list nat) (hp hp' : Heap) : Prop :=
  exists new, h_objects hp' = h_objects hp ++ new /\ built m' (length (seen m)) new /\ heap_at m' hp' /\
    h_slices hp' = h_slices hp /\ length (h_params hp') = length (h_params hp) /\
    forall p, (p ∉ ps) -> h_params hp' !! p = h_params hp !! p.

Lemma copied_trans m m1 m2 ps1 ps2 hp hp1 hp2 : extends m1 m2 -> copied m m1 ps1 hp hp1 -> copied m1 m2 ps2 hp1 hp2 ->
  copied m m2 (ps1 ++ ps2) hp hp2.
Proof.
  intros He (new1 & H1 & Hb1 & Hh1 & Hs1 & Hl1 & Hp1) (new2 & H2 & Hb2 & Hh2 & Hs2 & Hl2 & Hp2).
  exists (new1 ++ new2). rewrite H2, H1, Hs2, Hl2, app_assoc. split; [done|]. split; [by eapply built_app|].
  split; [done|]. split; [done|]. split; [done|]. intros p Hp. apply not_elem_of_app in Hp as [? ?].
  by rewrite Hp2, Hp1.
Qed.

Lemma wp_read_root depth fuel p declared v m bs m' x rest j q hp hooks :
  member_wire C1 C2 (instance_wire C1 C2 h depth) (SClass Object_id v) m bs m' -> ref_ok h declared v ->
  (p < length (h_params hp))%nat -> decoder_at m [] x -> ahead j (bs ++ rest) -> settled j q -> heap_at m hp ->
  wp (stream_read depth (S fuel) declared p) (fun _ w => exists q' x' hooks' hp',
    w = reading (j + Z.of_nat (length bs)) q' x' hp' hooks' /\ decoder_at m' [] x' /\
    ahead (j + Z.of_nat (length bs)) rest /\ settled (j + Z.of_nat (length bs)) q' /\ extends m m' /\
    copied m m' [p] hp hp' /\ param_copy m' hp' p v) never (reading j q x hp hooks).
Proof.
  intros Hw Hok Hp Hx Ha Hq Hh. apply lookup_lt_is_Some in Hp as [y Hy].
  assert (forall v' new, extends m m' -> built m' (length (seen m)) new -> ref_copy base m' v v' ->
    copied m m' [p] hp (assign (AParam p) v' (grow new hp)) /\ param_copy m' (assign (AParam p) v' (grow new hp)) p v) as Hend.
  { intros v' new He Hb Hv. split.
    - exists new. split; [done|]. split; [done|]. split; [by apply (heap_at_grow m)|]. split; [done|].
      split; [cbn; by rewrite length_alter|]. intros p' Hp'. cbn. rewrite list_lookup_alter_ne; [done|].
      intros ->. apply Hp'. by left.
    - exists v'. split; [|done]. cbn. by rewrite list_lookup_alter_eq, Hy. }
  unfold stream_read. apply wp_bind; eapply wp_eq; [apply get_initReadEncaps|]. eapply wp_decoder_version; [exact Hx|].
  inversion Hw as [|? ?|? o ? ? ? Hi|]; subst.
  - unfold read11. apply wp_bind. eapply wp_read; [by apply (readSize_reads 0)|exact Ha|done|]. intros q' Ha' Hq'.
    change (0 <? 0) with false. change (0 =? 0) with true. cbv iota. apply wp_modify.
    destruct (Hend None []) as [H1 H2]; [done|apply built_nil|done|]. rewrite grow_nil in H1, H2.
    by exists q', x, hooks, (assign (AParam p) None hp).
  - eapply object_read_instance; [exact Hi|exact Hx|done|exact Ha|exact Hq|exact Hh|exact Hok|].
    intros l q' x' hooks' n Hx' Ha' Hq' He Hb Hn. exists q', x', hooks', (assign (AParam p) (Some (base + n)%nat) (grow l hp)).
    do 5 (split; [done|]). apply Hend; [done|done|by exists n].
Qed.

Lemma wp_read_roots depth fuel l : forall ps m bs m' x rest j q hp hooks,
  roots_wire C1 C2 h depth l m bs m' -> NoDup (fst <$> ps) ->
  Forall2 (fun p v => ref_ok h (snd p) v /\ (fst p < length (h_params hp))%nat) ps l ->
  decoder_at m [] x -> ahead j (bs ++ rest) -> settled j q -> heap_at m hp ->
  wp (read_roots depth (S fuel) ps) (fun _ w => exists q' x' hooks' hp',
    w = reading (j + Z.of_nat (length bs)) q' x' hp' hooks' /\ decoder_at m' [] x' /\
    ahead (j + Z.of_nat (length bs)) rest /\ extends m m' /\ copied m m' (fst <$> ps) hp hp' /\
    Forall2 (fun p v => param_copy m' hp' (fst p) v) ps l) never (reading j q x hp hooks).
Proof.
  induction l as [|v l IH]; intros ps m bs m' x rest j q hp hooks Hw Hnd Hps Hx Ha Hq Hh.
  - apply Forall2_nil_inv_r in Hps as ->. inversion Hw; subst. cbn [read_roots]. apply wp_ret.
    exists q, x, hooks, hp. cbn [length]. rewrite Z.add_0_r. do 4 (split; [done|]). split; [|constructor].
    exists []. rewrite app_nil_r. split; [done|]. split; [apply built_nil|done].
  - apply Forall2_cons_inv_r in Hps as ([p declared] & ps' & [Hok Hp] & Hps & ->). cbn in Hok, Hp, Hnd.
    apply NoDup_cons in Hnd as [Hnin Hnd]. inversion Hw as [|? ? bs1 bs2 ? m1 ? Hw1 Hw2]; subst. cbn [read_roots].
    rewrite <- app_assoc in Ha. apply wp_bind. eapply wp_conseq; [by eapply wp_read_root| |done].
    intros [] w (q1 & x1 & hooks1 & hp1 & -> & Hx1 & Ha1 & Hq1 & He1 & Hc1 & Hp1).
    pose proof Hc1 as (new1 & _ & _ & Hh1 & _ & Hl1 & _).
    eapply wp_conseq; [eapply IH; [exact Hw2|exact Hnd| |exact Hx1|exact Ha1|exact Hq1|exact Hh1]| |done].
    { eapply Forall2_impl; [exact Hps|]. intros p' v'. by rewrite Hl1. }
    intros [] w (q2 & x2 & hooks2 & hp2 & -> & Hx2 & Ha2 & He2 & Hc2 & Hp2). exists q2, x2, hooks2, hp2.
    rewrite length_app, Nat2Z.inj_add, Z.add_assoc. do 3 (split; [done|]). split; [by etrans|].
    split; [by eapply (copied_trans _ m1 _ [p])|]. constructor; [|done].
    destruct Hp1 as (v' & Hv' & Hr). exists v'. destruct Hc2 as (_ & _ & _ & _ & _ & _ & Hrest). cbn. rewrite Hrest by done.
    split; [done|]. by eapply ref_copy_extends.
Qed.
End reading.
