(* ===== verification/GraphSpec.v ===== *)
(** * Object graphs arrive

    A program writes class pointers in the compact format, another one reads
    them into its variables: it gets a copy of the graph they refer to, with
    its cycles and everything that is shared, as many objects as were sent. *)

From S2P Require Import Prelude Hoare OrderedMap CxxString Buffer Layout Protocol Stream Wire Codecs StreamString.
From S2P Require Import StreamHelpers StreamSpec Encaps OptionalSpec StreamOptional ObjectData ObjectWrite ObjectRead.
From S2P Require Import ObjectTypes ObjectSpec GraphWrite GraphRead.

(** The heap [h'] of the receiver, which was [h2], has the objects of [h] that
    [m] lists as new objects, and its variables [ps] refer to those of [roots]. *)
Record graph_copied (h h2 h' : Heap) (m : Marshaled) (ps : list (nat * str)) (roots : list (option oref)) : Prop := {
  copies_distinct : NoDup (seen m);
  copies_new : exists new, h_objects h' = h_objects h2 ++ new /\ length new = length (seen m);
  copies_equal n o : seen m !! n = Some o -> exists x x', h_objects h !! o = Some x /\
    h_objects h' !! (length (h_objects h2) + n)%nat = Some x' /\ object_copy (length (h_objects h2)) m x x';
  copies_roots : Forall2 (fun p v => param_copy (length (h_objects h2)) m h' (fst p) v) ps roots;
  copies_else : h_slices h' = h_slices h2 /\ forall p, (p ∉ fst <$> ps) -> h_params h' !! p = h_params h2 !! p
}.

Lemma bind_same {S A B} (p : M S A) (k : A -> M S B) w w' a : p w = (Ok a, w') -> p w' = (Ok a, w') ->
  (p ≫= k) w = (p ≫= k) w'.
Proof. intros H1 H2. by rewrite (bind_ok _ _ _ _ _ H1), (bind_ok _ _ _ _ _ H2). Qed.

Section sender.
Context `{PL : Platform} {DF : Defaults} {AL : Allocator} (C1 C2 : Config) (h : Heap).
Local Existing Instance C1.
Context (s1 : BasicStream Decoder Encoder) (e1 : WriteEncaps Encoder) (prev1 : list (WriteEncaps Encoder)).
Hypothesis s1_encaps : writeEncaps s1 = e1 :: prev1.
Hypothesis s1_new : we_encoder e1 = None.
Hypothesis s1_encoding : we_encoding e1 = Encoding_1_1.
Hypothesis s1_format : we_format e1 = CompactFormat \/ we_format e1 = DefaultFormat /\ default_format = CompactFormat.

(** The encapsulation when its encoder is made *)
Definition opened : WriteEncaps Encoder := MkWriteEncaps (we_start e1) (we_encoding e1) CompactFormat None.

Lemma first_initWriteEncaps : exists x, encoder_at nothing [] x /\
  on_stream initWriteEncaps (MkWorld s1 h []) = (Ok tt, writing h s1 opened prev1 [] x []).
Proof.
  exists new_EncapsEncoder11. split.
  - exists ∅, ∅, []. split; [done|]. split; [apply maps_ok_nothing|done].
  - unfold on_stream, world_host, on. cbn. unfold writing, set_stream. cbn. rewrite s1_encaps. cbn.
    rewrite s1_new, s1_encoding. cbn. rewrite appended_nil.
    by destruct s1_format as [->|[-> E]]; [|unfold defaultFormat; cbn; rewrite E].
Qed.

Lemma write_roots_first x fuel v l :
  on_stream initWriteEncaps (MkWorld s1 h []) = (Ok tt, writing h s1 opened prev1 [] x []) ->
  write_roots fuel (v :: l) (MkWorld s1 h []) = write_roots fuel (v :: l) (writing h s1 opened prev1 [] x []).
Proof.
  intros E. cbn [write_roots]. unfold stream_write, write_object.
  assert (forall w : world, ((on_stream initWriteEncaps;; encoder_write (writeInstance fuel) v);; write_roots fuel l) w =
    (on_stream initWriteEncaps;; encoder_write (writeInstance fuel) v;; write_roots fuel l) w) as Hassoc.
  { intros w. unfold mbind, M_bind. by destruct (on_stream initWriteEncaps w) as [[]]. }
  rewrite !Hassoc. eapply bind_same; [exact E|]. by apply get_initWriteEncaps.
Qed.
End sender.

Section receiver.
Context `{PL : Platform} {DF : Defaults} {FA : Factories} (C1 C2 : Config) (h : Heap).
Local Existing Instance C2.
Context (s2 : BasicStream Decoder Encoder) (e2 : ReadEncaps Decoder) (prev2 : list (ReadEncaps Decoder)) (h2 : Heap).
Hypothesis s2_encaps : readEncaps s2 = e2 :: prev2.
Hypothesis s2_new : re_decoder e2 = None.
Hypothesis s2_encoding : re_encoding e2 = Encoding_1_1.

Lemma first_initReadEncaps : exists x, decoder_at (length (h_objects h2)) nothing [] x /\
  on_stream initReadEncaps (MkWorld s2 h2 []) =
    (Ok tt, reading s2 e2 prev2 (i s2) (startSeq s2, minSeqSize s2) x h2 []).
Proof.
  exists (new_EncapsDecoder11 (sliceObjects_ s2)). split.
  - exists (sliceObjects_ s2), ∅, ∅, []. split; [done|]. split; [apply read_maps_ok_nothing|done].
  - unfold on_stream, world_host, on, initReadEncaps, update_read. cbn [w_stream]. rewrite bind_modify, bind_get, s2_encaps.
    unfold modify. rewrite s2_encaps, s2_new, s2_encoding. unfold reading, set_stream. cbn.
    assert (set_seq (startSeq s2) (minSeqSize s2) (set_i (i s2) s2) = s2) as -> by (by destruct s2). by rewrite s2_encoding.
Qed.

Lemma read_roots_first x depth fuel p l :
  on_stream initReadEncaps (MkWorld s2 h2 []) = (Ok tt, reading s2 e2 prev2 (i s2) (startSeq s2, minSeqSize s2) x h2 []) ->
  read_roots depth fuel (p :: l) (MkWorld s2 h2 []) =
    read_roots depth fuel (p :: l) (reading s2 e2 prev2 (i s2) (startSeq s2, minSeqSize s2) x h2 []).
Proof.
  intros E. destruct p as [p declared]. cbn [read_roots]. unfold stream_read, read_object.
  set (k := decoder_read_patch _ _).
  assert (forall w : world, ((on_stream initReadEncaps;; k);; read_roots depth fuel l) w =
    (on_stream initReadEncaps;; k;; read_roots depth fuel l) w) as Hassoc.
  { intros w. unfold mbind, M_bind. by destruct (on_stream initReadEncaps w) as [[]]. }
  rewrite !Hassoc. eapply bind_same; [exact E|]. done.
Qed.

Hypothesis s2_settled : startSeq s2 = -1.
Hypothesis h_typed : heap_typed h.
Hypothesis h_receivable : Forall receivable (h_objects h).

(** What is read of the sentence of the roots [roots] *)
Lemma read_roots_copies depth fuel ps roots bs m rest : roots_wire C1 C2 h depth roots nothing bs m -> valid h m ->
  roots <> [] -> NoDup (fst <$> ps) ->
  Forall2 (fun p v => ref_ok h (snd p) v /\ (fst p < length (h_params h2))%nat) ps roots ->
  readable s2 -> remaining s2 = bs ++ rest ->
  exists w2, read_roots depth (S fuel) ps (MkWorld s2 h2 []) = (Ok tt, w2) /\
    remaining (w_stream w2) = rest /\ graph_copied h h2 (w_heap w2) m ps roots.
Proof.
  intros Hroots Hv Hne Hnd Hps Hread Hrem. destruct ps as [|p ps]; [by inversion Hps; subst|].
  destruct first_initReadEncaps as (x2 & Hx2 & E2). rewrite (read_roots_first _ _ _ _ _ E2).
  pose proof Hread as (Hi & Hsize & Haddr & Hconf).
  eassert (wp (read_roots depth (S fuel) (p :: ps)) ?[Q] never
    (reading s2 e2 prev2 (i s2) (startSeq s2, minSeqSize s2) x2 h2 [])) as H.
  { eapply (wp_read_roots C1 C2 h s2 e2 prev2 (length (h_objects h2)));
      [exact Hconf| |exact Hsize|exact Haddr|exact h_typed|exact h_receivable|exact Hroots|exact Hnd|exact Hps|exact Hx2| | |].
    - unfold read_encoding. by rewrite s2_encaps.
    - split; [exact Hi|exact Hrem].
    - by left.
    - split; [cbn; lia|done]. }
  destruct (wp_elim _ _ _ _ H) as [([] & w2 & Er & q' & x3 & hooks3 & hp' & -> & _ & Ha3 & _ & Hcop & Hpar)|(? & ? & _ & [])].
  eexists. split; [exact Er|]. split; [apply Ha3|]. cbn [w_heap reading].
  destruct Hcop as (new & Hnew & [Hlen Hb] & _ & Hsl & _ & Helse). cbn in Hlen, Hb.
  split; [apply Hv|by exists new| |exact Hpar|by split].
  intros n o Ho. assert (is_Some (new !! n)) as [y' Hy'].
  { apply lookup_lt_is_Some. rewrite <- Hlen. by eapply lookup_lt_Some. }
  destruct (Hb n y' Hy') as (o' & y & Ho' & Hy & Hcopy). rewrite Ho in Ho'. injection Ho' as <-.
  exists y, y'. split; [done|]. split; [|done]. rewrite Hnew, lookup_app_r by lia. rewrite <- Hy'. f_equal. lia.
Qed.
End receiver.

(** C4. Class pointers to a graph of fewer than 2^31 - 2 objects, with shared
    objects and cycles, whose optional members are all unset, written in the compact
    format of encoding 1.1 on one host and read on any other with a factory for the
    type of every object, leave there a copy of the graph: one new object for each
    object reached, of its type and with its values, whose class pointers and the
    variables of the reader refer to the copies of what they referred to, behind the
    objects that were there; and reading stops right behind what was written. *)
Theorem object_graph_arrives (P1 P2 : Platform) (DF1 DF2 : Defaults) (AL : Allocator) (FA : Factories) (C1 C2 : Config)
    (h h2 : Heap) s1 e1 prev1 s2 e2 prev2 ps roots fuel depth rfuel :
  heap_typed h -> sendable C1 C2 h -> Forall receivable (h_objects h) ->
  writeEncaps s1 = e1 :: prev1 -> we_encoder e1 = None -> we_encoding e1 = Encoding_1_1 ->
  we_format e1 = CompactFormat \/ we_format e1 = DefaultFormat /\ default_format (Defaults := DF1) = CompactFormat ->
  configured (CF := C1) s1 -> unlimited s1 = true ->
  readEncaps s2 = e2 :: prev2 -> re_decoder e2 = None -> re_encoding e2 = Encoding_1_1 -> startSeq s2 = -1 ->
  (length (h_objects h) < fuel)%nat -> (length (h_objects h) < depth)%nat -> roots <> [] -> NoDup (fst <$> ps) ->
  Forall2 (fun p v => ref_ok h (snd p) v /\ (fst p < length (h_params h2))%nat) ps roots ->
  exists bs w1 m, write_roots (PL := P1) (DF := DF1) fuel roots (MkWorld s1 h []) = (Ok tt, w1) /\
    w_heap w1 = h /\ b (w_stream w1) = b s1 ++ bs /\
    forall rest, readable (CF := C2) s2 -> remaining s2 = bs ++ rest ->
      exists w2, read_roots (PL := P2) (DF := DF2) depth (S rfuel) ps (MkWorld s2 h2 []) = (Ok tt, w2) /\
        remaining (w_stream w2) = rest /\ graph_copied h h2 (w_heap w2) m ps roots.
Proof.
  intros Ht Hs Hr He1 Hn1 Hv1 Hf1 Hc1 Hu1 He2 Hn2 Hv2 Hq2 Hfuel Hdepth Hne Hnd Hps.
  destruct roots as [|v roots]; [done|]. destruct ps as [|p ps]; [by inversion Hps|].
  destruct (first_initWriteEncaps (DF := DF1) h s1 e1 prev1 He1 Hn1 Hv1 Hf1) as (x1 & Hx1 & E1).
  assert (wp (write_roots (PL := P1) (DF := DF1) fuel (v :: roots)) (wrote h s1 (opened e1) prev1 (roots_wire C1 C2 h depth (v :: roots)) nothing [] [])
    never (writing h s1 (opened e1) prev1 [] x1 [])) as Hw.
  { apply (wp_write_roots C1 C2); [done|done| |done|done| | | | |exact Hx1].
    - unfold write_encoding. by rewrite He1.
    - eapply Forall2_Forall_r; [exact Hps|]. apply Forall_true. intros p' v' [Ho _]. destruct v' as [o|]; [|done].
      destruct Ho as (y & Hy & _). by exists y.
    - split; [constructor|]. split; [constructor|done].
    - unfold unseen. cbn. lia.
    - unfold unseen. cbn. lia. }
  destruct (wp_elim _ _ _ _ Hw) as [([] & w1 & Ew & bs & m & x' & hooks' & -> & Hroots & Hx' & He & Hv)|(? & ? & _ & [])].
  eexists bs, _, m. rewrite (write_roots_first _ _ _ _ _ _ _ _ E1).
  split; [exact Ew|]. split; [done|]. split; [done|]. intros rest Hread Hrem.
  by eapply (read_roots_copies (PL := P2) (DF := DF2) C1 C2 h s2 e2 prev2 h2).
Qed.

(** ** A concrete graph *)

Module SampleGraph.
Import SampleObjects.

(** The two nodes of [SampleObjects.graph], which refer to each other, are sent
    with a null pointer between them. *)
Definition roots : list (option oref) := [Some 0%nat; None; Some 1%nat].
Definition variables : list (nat * str) := [(2%nat, lit "::Base"); (0%nat, lit "::Base"); (1%nat, lit "::Node")].

Definition out : BasicStream Decoder Encoder :=
  (startWriteEncaps (PL := Sample.sparc) Encoding_1_1 CompactFormat (stream_new Encoding_1_1 1000 true (Some Sample.one_by_one) Sample.doubling)).2.
Definition e1 : WriteEncaps Encoder := MkWriteEncaps 0 Encoding_1_1 CompactFormat None.
Definition e2 : ReadEncaps Decoder := MkReadEncaps 0 0 Encoding_1_1 None.

Definition sent_roots : M world unit := write_roots (PL := Sample.sparc) (DF := SlicedFormat) (AL := addresses) 3 roots.
Definition bytes : list byte := drop (b_size out) (b (w_stream (sent_roots (MkWorld out graph [])).2)).
Definition into : BasicStream Decoder Encoder :=
  set_read [e2] (fresh_read Encoding_1_1) (stream_over Encoding_1_1 1000 bytes 4096 (Some Sample.one_by_one) Sample.doubling).
Definition three : Heap := MkHeap [node 9 None None] []
  [MkParam (lit "::Base") (Some 0%nat); MkParam (lit "::Node") None; MkParam (lit "::Base") None].

Lemma graph_typed : heap_typed graph.
Proof.
  assert (forall o, (o < 2)%nat -> ref_ok graph (lit "::Base") (Some o)) as H.
  { intros [|[|o]] Ho; [eexists; split; reflexivity..|lia]. }
  split; [|constructor|constructor]. repeat first [apply H; lia|constructor].
Qed.

Lemma graph_sendable : sendable Sample.cfg Sample.cfg graph.
Proof.
  assert (forall v l r, in_range Int v -> root_ok graph l -> root_ok graph r ->
    object_sendable Sample.cfg Sample.cfg graph (node v l r)) as H.
  { intros v l r Hv Hl Hr. split; [done|]. repeat constructor; cbn; try lia; [|by destruct l|by destruct r].
    exists (le_bytes 4 v), (length (le_bytes 4 v)). by repeat split; apply Hv. }
  split; [|cbn; lia]. apply Forall_cons; split; [|apply Forall_singleton];
    apply H; cbn; unfold in_signed; try lia; eauto.
Qed.

Lemma graph_receivable : Forall receivable (h_objects graph).
Proof.
  assert (forall v l r, receivable (node v l r)) as H; [|apply Forall_cons; split; [|apply Forall_singleton]; apply H].
  intros v l r. eexists _, _, (node 0 None None). split; [reflexivity|]. split; [done|]. split; [by vm_compute|].
  split; [done|]. intros Hc. cbn in Hc. lia.
Qed.

Lemma into_readable : readable (CF := Sample.cfg) into.
Proof.
  assert ((b_end into <? 1000) = true) as E by by vm_compute. apply Z.ltb_lt in E.
  assert (0 <= b_end into) by (unfold b_end; lia).
  split; [change (i into) with 0; lia|]. split; [lia|]. split; [change (b_begin into) with 4096; lia|]. by repeat split.
Qed.
End SampleGraph.

Lemma object_graph_arrives_witness : exists w2 m,
  read_roots (PL := Sample.x86) (DF := CompactFormat) (FA := SampleObjects.types) 3 1 SampleGraph.variables
    (MkWorld SampleGraph.into SampleGraph.three []) = (Ok tt, w2) /\
  graph_copied SampleObjects.graph SampleGraph.three (w_heap w2) m SampleGraph.variables SampleGraph.roots.
Proof.
  destruct (object_graph_arrives Sample.sparc Sample.x86 SlicedFormat CompactFormat SampleObjects.addresses SampleObjects.types
    Sample.cfg Sample.cfg SampleObjects.graph SampleGraph.three SampleGraph.out SampleGraph.e1 [] SampleGraph.into SampleGraph.e2
    [] SampleGraph.variables SampleGraph.roots 3 3 0 SampleGraph.graph_typed SampleGraph.graph_sendable
    SampleGraph.graph_receivable) as (bs & w1 & m & E & _ & Hb & Hr).
  - done.
  - done.
  - done.
  - by left.
  - by split_and!.
  - done.
  - done.
  - done.
  - done.
  - done.
  - cbn. lia.
  - cbn. lia.
  - done.
  - repeat constructor; set_solver.
  - repeat constructor; cbn; try lia; eexists; split; reflexivity.
  - destruct (Hr []) as (w2 & E2 & _ & Hc).
    + apply SampleGraph.into_readable.
    + rewrite app_nil_r. transitivity SampleGraph.bytes; [reflexivity|].
      unfold SampleGraph.bytes, SampleGraph.sent_roots. rewrite E. cbn [snd w_stream]. rewrite Hb. apply drop_app_length.
    + exists w2, m. split; [exact E2|exact Hc].
Defined.
