(* ===== verification/StringUtil.v ===== *)
(** * String utilities

    cpp/src/IceUtil/StringUtil.cpp: escape sequences, splitting and joining,
    trimming, quotes and the wildcard matcher. Positions are indices into the
    string, as in the source. *)

From S2P Require Import Prelude CxxString.

(** [s[pos]] for [pos < s.size()] *)
Definition at_ (s : str) (pos : nat) : ascii := s !!! pos.

Definition backslash : ascii := "092".
Definition dquote : ascii := "034".
Definition squote : ascii := "039".

(** ** Escape sequences *)

(** The digits of an [unsigned int] in a string of 32 characters, from the
    last one *)
Fixpoint octal_loop (charPos : nat) (n : Z) (s : str) : str :=
  match charPos with
  | O => s
  | S charPos' =>
      let s' := chr (48 + Z.land n 7) :: s in
      let n' := Z.shiftr n 3 in
      if n' =? 0 then s' else octal_loop charPos' n' s'
  end.

Definition toOctalString (n : Z) : str := octal_loop 32 n [].

Definition printable (c : ascii) : bool := (32 <=? ord c) && (ord c <=? 126).

(** [encodeChar(b, s, special)]: what it appends to [s] *)
Definition encodeChar (b : ascii) (special : str) : str :=
  if ceq b backslash then [backslash; backslash]
  else if ceq b squote then [backslash; squote]
  else if ceq b dquote then [backslash; dquote]
  else if ceq b (chr 8) then [backslash; "b"%char]
  else if ceq b (chr 12) then [backslash; "f"%char]
  else if ceq b (chr 10) then [backslash; "n"%char]
  else if ceq b (chr 13) then [backslash; "r"%char]
  else if ceq b (chr 9) then [backslash; "t"%char]
  else if negb (printable b) then
    let octal := toOctalString (ord b) in
    backslash :: replicate (3 - length octal) "0"%char ++ octal
  else if mem_char b special then [backslash; b]
  else [b].

Definition escapeString (s special : str) : result str :=
  if existsb (fun c => (ord c <? 32) || (126 <? ord c)) special
  then Throw (IllegalArgumentException (lit "special characters must be in ASCII range 32-126"))
  else Ok (s ≫= fun c => encodeChar c special).

Definition checkChar (s : str) (pos : nat) : result ascii :=
  let c := at_ s pos in
  if negb (printable c) then
    Throw (IllegalArgumentException
      ((if (0 <? pos)%nat then lit "character after `" ++ substr 0 pos s ++ lit "'" else lit "first character")
       ++ lit " is not a printable ASCII character (ordinal " ++ show_int (ord c) ++ lit ")"))
  else Ok c.

(** The digits of an octal escape, at most [j]: the value and the position
    behind them *)
Fixpoint octal_value (j : nat) (s : str) (start end_ : nat) (val : Z) : Z * nat :=
  match j with
  | O => (val, start)
  | S j' =>
      if (start <? end_)%nat then
        let charVal := ord (at_ s start) - 48 in
        if (charVal <? 0) || (7 <? charVal) then (val, start)
        else octal_value j' s (S start) end_ (val * 8 + charVal)
      else (val, start)
  end.

(** The character and [nextStart] *)
Definition decodeChar (s : str) (start end_ : nat) : result (ascii * nat) :=
  if negb ((start <? end_)%nat && (end_ <=? length s)%nat) then Fault AssertionFailure
  else if negb (ceq (at_ s start) backslash) then
    c ← checkChar s start; Ok (c, S start)
  else if (start + 1 =? end_)%nat then
    Throw (IllegalArgumentException (lit "trailing backslash"))
  else
    let start := S start in
    let d := at_ s start in
    if ceq d backslash || ceq d squote || ceq d dquote then Ok (d, S start)
    else if ceq d "b" then Ok (chr 8, S start)
    else if ceq d "f" then Ok (chr 12, S start)
    else if ceq d "n" then Ok (chr 10, S start)
    else if ceq d "r" then Ok (chr 13, S start)
    else if ceq d "t" then Ok (chr 9, S start)
    else if between 48 55 d then
      let '(val, next) := octal_value 3 s start end_ 0 in
      if 255 <? val then
        Throw (IllegalArgumentException (lit "octal value \" ++ toOctalString val ++ lit " (" ++ show_int val
          ++ lit ") is out of range"))
      else Ok (chr val, next)
    else c ← checkChar s start; Ok (c, S start).

Fixpoint decodeString (fuel : nat) (s : str) (start end_ : nat) (sb : str) : result str :=
  if (start <? end_)%nat then
    match fuel with
    | O => Fault OutOfFuel
    | S fuel' =>
        r ← decodeChar s start end_;
        decodeString fuel' s (snd r) end_ (sb ++ [fst r])
    end
  else Ok sb.

(** Each turn of the loop decodes at least one character. *)
Definition unescapeString (s : str) (start end_ : nat) : result str :=
  if (start <=? end_)%nat && (end_ <=? length s)%nat
  then decodeString (end_ - start) s start end_ []
  else Fault AssertionFailure.

(** ** Splitting and joining *)

(** The loop of [splitString]: [quoteChar] is [None] for ['\0']. It runs once
    per position at most. *)
Fixpoint split_loop (fuel : nat) (s delim : str) (pos : nat) (quoteChar : option ascii) (elt : str)
    (result : list str) : list str * str * option ascii :=
  match fuel with
  | O => (result, elt, quoteChar)
  | S fuel' =>
      if (pos <? length s)%nat then
        let c := at_ s pos in
        let next := (pos + 1 <? length s)%nat in
        let d := at_ s (pos + 1) in
        let take_at p := split_loop fuel' s delim (p + 1) quoteChar (elt ++ [at_ s p]) result in
        match quoteChar with
        | None =>
            if ceq c dquote || ceq c squote then split_loop fuel' s delim (pos + 1) (Some c) elt result
            else if ceq c backslash && next && (ceq d squote || ceq d dquote) then take_at (pos + 1)%nat
            else if mem_char c delim then
              split_loop fuel' s delim (pos + 1) None []
                (if (0 <? length elt)%nat then result ++ [elt] else result)
            else take_at pos
        | Some q =>
            if ceq c backslash && next && ceq d q then take_at (pos + 1)%nat
            else if ceq c q then split_loop fuel' s delim (pos + 1) None elt result
            else take_at pos
        end
      else (result, elt, quoteChar)
  end.

(** What is appended to [result], and the answer *)
Definition splitString (s delim : str) : list str * bool :=
  let '(result, elt, quoteChar) := split_loop (length s) s delim 0 None [] [] in
  (if (0 <? length elt)%nat then result ++ [elt] else result,
   match quoteChar with None => true | Some _ => false end).

Fixpoint join_rest (values : list str) (delimiter : str) : str :=
  match values with [] => [] | v :: vs => delimiter ++ v ++ join_rest vs delimiter end.

Definition joinString (values : list str) (delimiter : str) : str :=
  match values with [] => [] | v :: vs => v ++ join_rest vs delimiter end.

(** ** Trimming, quotes, patterns *)

Definition whitespace : str := [chr 32; chr 9; chr 13; chr 10].

Definition trim (s : str) : str :=
  match find_first_not_of whitespace 0 s with
  | None => []
  | Some beg =>
      match find_last_not_of whitespace s with
      | Some last => substr beg (last - beg + 1) s
      | None => drop beg s
      end
  end.

(** The position of the closing quote, 0 when [s] does not start with a quote,
    [None] (npos) when the quote is not closed *)
Fixpoint quote_loop (fuel : nat) (s : str) (quoteChar : ascii) (start : nat) : option nat :=
  match fuel with
  | O => None
  | S fuel' =>
      if (start <? length s)%nat then
        match find_char quoteChar start s with
        | Some pos =>
            if negb (ceq (at_ s (pos - 1)) backslash) then Some pos
            else quote_loop fuel' s quoteChar (pos + 1)
        | None => None
        end
      else None
  end.

Definition checkQuote (s : str) (start : nat) : option nat :=
  let quoteChar := if (start <? length s)%nat then at_ s start else chr 0 in
  if ceq quoteChar dquote || ceq quoteChar squote
  then quote_loop (length s) s quoteChar (start + 1)
  else Some 0%nat.

Definition match_ (s pat : str) (emptyMatch : bool) : result bool :=
  if (length s =? 0)%nat || (length pat =? 0)%nat then Fault AssertionFailure
  else
    match find_char "*" 0 pat with
    | None => Ok (str_eqb s pat)
    | Some beginIndex =>
        if (length s <? beginIndex)%nat || negb (str_eqb (substr 0 beginIndex s) (substr 0 beginIndex pat))
        then Ok false
        else
          let endLength := (length pat - beginIndex - 1)%nat in
          if (length s <? endLength)%nat then Ok false
          else
            let endIndex := (length s - endLength)%nat in
            if (endIndex <? beginIndex)%nat || (negb emptyMatch && (endIndex =? beginIndex)%nat)
            then Ok false
            else if negb (str_eqb (substr endIndex (length s) s) (substr (beginIndex + 1) (length pat) pat))
            then Ok false
            else Ok true
    end.

(** ** Characters *)

Definition toLower (s : str) : str := (fun c => if isascii c then tolower c else c) <$> s.
Definition toUpper (s : str) : str := (fun c => if isascii c then toupper c else c) <$> s.
Definition isAlpha (c : ascii) : bool := between 97 122 c || between 65 90 c.
Definition isDigit (c : ascii) : bool := between 48 57 c.
Definition removeWhitespace (s : str) : str := List.filter (fun c => negb (isspace c)) s.
