(* ===== verification/StringUtilSpec.v ===== *)
(** * What the string utilities promise

    Escaping is undone by unescaping and leaves no special character bare;
    unescaping always ends; splitting undoes joining; trimming and matching
    do what their comments say. *)

From S2P Require Import Prelude CxxString StringUtil.

(** ** Escaping and unescaping *)

(** Decoding of the front of a list: the character and how many characters
    were consumed. *)
Fixpoint octal_front (j : nat) (l : str) (val : Z) : Z * nat :=
  match j, l with
  | S j', c :: l' =>
      let charVal := ord c - 48 in
      if (charVal <? 0) || (7 <? charVal) then (val, 0%nat)
      else let '(v, n) := octal_front j' l' (val * 8 + charVal) in (v, S n)
  | _, _ => (val, 0%nat)
  end.

Definition decode_front (l : str) : option (ascii * nat) :=
  match l with
  | [] => None
  | c :: l' =>
      if negb (ceq c backslash) then if printable c then Some (c, 1%nat) else None
      else
        match l' with
        | [] => None
        | d :: _ =>
            if ceq d backslash || ceq d squote || ceq d dquote then Some (d, 2%nat)
            else if ceq d "b" then Some (chr 8, 2%nat)
            else if ceq d "f" then Some (chr 12, 2%nat)
            else if ceq d "n" then Some (chr 10, 2%nat)
            else if ceq d "r" then Some (chr 13, 2%nat)
            else if ceq d "t" then Some (chr 9, 2%nat)
            else if between 48 55 d then
              let '(val, n) := octal_front 3 l' 0 in
              if 255 <? val then None else Some (chr val, S n)
            else if printable d then Some (d, 2%nat) else None
        end
  end.

Lemma drop_at s start : (start < length s)%nat -> drop start s = at_ s start :: drop (S start) s.
Proof.
  intros H. unfold at_. apply lookup_lt_is_Some in H as [c Hc].
  rewrite (list_lookup_total_correct _ _ _ Hc). by apply drop_S.
Qed.

Lemma octal_front_value j : forall s start val v n,
  octal_front j (drop start s) val = (v, n) ->
  octal_value j s start (length s) val = (v, (start + n)%nat).
Proof.
  induction j as [|j IH]; intros s start val v n Hf; cbn [octal_front octal_value] in *.
  { injection Hf as -> <-. by rewrite Nat.add_0_r. }
  destruct (start <? length s)%nat eqn:E1; bool_to_prop.
  - rewrite (drop_at s start E1) in Hf. case_if.
    + injection Hf as -> <-. by rewrite Nat.add_0_r.
    + destruct (octal_front j (drop (S start) s) _) as [v' n'] eqn:E2. injection Hf as -> <-.
      rewrite (IH _ _ _ _ _ E2). f_equal. lia.
  - rewrite drop_ge in Hf by done. injection Hf as -> <-. by rewrite Nat.add_0_r.
Qed.

Lemma checkChar_printable s pos : printable (at_ s pos) = true -> checkChar s pos = Ok (at_ s pos).
Proof. intros H. unfold checkChar. by rewrite H. Qed.

Lemma decode_front_correct s start c n : decode_front (drop start s) = Some (c, n) ->
  decodeChar s start (length s) = Ok (c, (start + n)%nat).
Proof.
  intros H. assert (start < length s)%nat as Hlt.
  { apply Nat.nle_gt. intros Hge. by rewrite drop_ge in H. }
  rewrite (drop_at s start Hlt) in H. unfold decodeChar.
  rewrite (proj2 (Nat.ltb_lt _ _) Hlt), Nat.leb_refl. cbn [andb negb decode_front] in H |- *.
  destruct (ceq (at_ s start) backslash); cbn [negb] in H |- *.
  2:{ destruct (printable (at_ s start)) eqn:Ep; [|done]. injection H as <- <-.
      rewrite checkChar_printable by done. simpl. by rewrite Nat.add_1_r. }
  destruct (start + 1 =? length s)%nat eqn:E1; bool_to_prop.
  { by rewrite drop_ge in H by lia. }
  destruct (octal_front 3 (drop (S start) s) 0) as [val k] eqn:Eo.
  rewrite (drop_at s (S start)) in H by lia. apply octal_front_value in Eo. rewrite Eo.
  repeat (case_if; [by simplify_eq; do 2 f_equal; lia|]).
  destruct (between 48 55 _).
  - destruct (255 <? val); [done|]. simplify_eq. do 2 f_equal. lia.
  - destruct (printable (at_ s (S start))) eqn:Ep; [|done]. rewrite checkChar_printable by done.
    simplify_eq. simpl. do 2 f_equal. lia.
Qed.

(** The characters that an escape sequence reserves *)
Definition reserved : str := lit "bfnrt01234567".

Definition special_ok (special : str) : Prop :=
  Forall (fun c => printable c = true /\ mem_char c reserved = false) special.

(** The escape sequence of each character is decoded back, whatever follows. *)
Lemma decode_encode c special post : special_ok special ->
  decode_front (encodeChar c special ++ post) = Some (c, length (encodeChar c special)).
Proof.
  intros Hs. assert (mem_char c special = true -> mem_char c reserved = false) as Hr.
  { intros Hc. apply mem_char_spec in Hc. unfold special_ok in Hs. rewrite Forall_forall in Hs.
    by destruct (Hs c Hc). }
  clear Hs. unfold encodeChar. revert Hr. generalize (mem_char c special) as m.
  destruct c as [[] [] [] [] [] [] [] []]; intros []; intros Hr;
    solve [reflexivity | discriminate (Hr eq_refl)].
Qed.

Lemma encodeChar_nonempty c special : (0 < length (encodeChar c special))%nat.
Proof. unfold encodeChar. repeat case_if; simpl; lia. Qed.

Lemma decodeString_encoded special l : special_ok special -> forall fuel s start sb,
  drop start s = (l ≫= fun c => encodeChar c special) -> (start <= length s)%nat ->
  (length s - start <= fuel)%nat ->
  decodeString fuel s start (length s) sb = Ok (sb ++ l).
Proof.
  intros Hs. induction l as [|c l IH]; intros fuel s start sb Hd Hle Hf.
  - assert (length s <= start)%nat as Hge by (apply (f_equal length) in Hd; rewrite length_drop in Hd; simpl in Hd; lia).
    destruct fuel; cbn [decodeString]; rewrite (proj2 (Nat.ltb_ge _ _) Hge); by rewrite app_nil_r.
  - cbn [mbind list_bind] in Hd. pose proof (encodeChar_nonempty c special) as Hn.
    assert (start < length s)%nat as Hlt.
    { apply (f_equal length) in Hd. rewrite length_drop, length_app in Hd. lia. }
    destruct fuel as [|fuel]; [lia|]. cbn [decodeString]. rewrite (proj2 (Nat.ltb_lt _ _) Hlt).
    rewrite (decode_front_correct s start c (length (encodeChar c special)))
      by (rewrite Hd; by apply decode_encode).
    cbn [mbind result_bind fst snd]. rewrite IH; [by rewrite <- app_assoc| | |lia].
    + rewrite <- drop_drop, Hd. apply drop_app_length.
    + apply (f_equal length) in Hd. rewrite length_drop, length_app in Hd. lia.
Qed.

Lemma special_ok_printable special : special_ok special ->
  existsb (fun c => (ord c <? 32) || (126 <? ord c)) special = false.
Proof.
  intros Hs. apply not_true_iff_false. intros H. apply existsb_exists in H as (c & Hc & H).
  unfold special_ok in Hs. rewrite Forall_forall in Hs.
  destruct (Hs c (proj2 (list_elem_of_In _ _) Hc)) as [Hp _]. unfold printable in Hp.
  apply orb_true_iff in H. bool_to_prop. destruct H; bool_to_prop; lia.
Qed.

(** C39. Unescaping an escaped string gives the string back, for every string of
    bytes and every set of special characters that are printable and do not start
    another escape sequence. *)
Theorem unescape_escape s special : special_ok special ->
  exists e, escapeString s special = Ok e /\ unescapeString e 0 (length e) = Ok s.
Proof.
  intros Hs. unfold escapeString. rewrite special_ok_printable by done.
  eexists. split; [done|]. unfold unescapeString. rewrite Nat.leb_refl. cbn [Nat.leb andb].
  rewrite (decodeString_encoded special s) by (done || lia). done.
Qed.

Lemma unescape_escape_witness :
  exists e, escapeString (chr 200 :: lit "3/\") (lit "/") = Ok e /\
    unescapeString e 0 (length e) = Ok (chr 200 :: lit "3/\").
Proof. apply unescape_escape. repeat constructor. Defined.

(** Every character of [e] is printable, and a special one only occurs behind
    the backslash of an escape sequence. *)
Fixpoint shielded (special e : str) : bool :=
  match e with
  | [] => true
  | c :: e' =>
      if ceq c backslash then
        match e' with [] => false | d :: e'' => printable d && shielded special e'' end
      else printable c && negb (mem_char c special) && shielded special e'
  end.

Lemma octal_digits c : printable c = false -> exists d1 d2 d3,
  replicate (3 - length (toOctalString (ord c))) "0"%char ++ toOctalString (ord c) = [d1; d2; d3] /\
  between 48 55 d1 = true /\ between 48 55 d2 = true /\ between 48 55 d3 = true.
Proof.
  destruct c as [[] [] [] [] [] [] [] []]; intros Hp; try discriminate;
    eexists _, _, _; split_and!; reflexivity.
Qed.

Lemma digit_printable d : between 48 55 d = true -> printable d = true.
Proof. unfold between, printable. intros. bool_to_prop. apply andb_true_iff; split; apply Z.leb_le; lia. Qed.

Lemma shielded_encode c special e : mem_char backslash special = false ->
  (forall d, between 48 55 d = true -> mem_char d special = false) ->
  shielded special e = true ->
  shielded special (encodeChar c special ++ e) = true.
Proof.
  intros Hb Hd He. unfold encodeChar. repeat (case_if; [exact He|]).
  destruct (printable c) eqn:Ep; cbn [negb].
  - bool_to_prop. case_if; cbn [app shielded].
    + rewrite ceq_refl. by rewrite Ep, He.
    + rewrite (proj2 (ceq_false c backslash)) by done. by rewrite Ep, E7, He.
  - destruct (octal_digits c Ep) as (d1 & d2 & d3 & -> & H1 & H2 & H3). cbn [app shielded].
    rewrite ceq_refl. rewrite !(proj2 (ceq_false _ backslash)) by (intros ->; discriminate).
    rewrite !Hd, !digit_printable, He by done. done.
Qed.

(** An escaped string has printable characters only, and a special character
    occurs in it only behind the backslash of an escape sequence. *)
Lemma escape_shields s special : special_ok special -> mem_char backslash special = false ->
  exists e, escapeString s special = Ok e /\ shielded special e = true.
Proof.
  intros Hs Hb. unfold escapeString. rewrite special_ok_printable by done.
  eexists. split; [done|]. induction s as [|c s IH]; [done|]. cbn [mbind list_bind].
  apply shielded_encode; [done| |done]. intros d Hdig. apply mem_char_false. intros Hin.
  unfold special_ok in Hs. rewrite Forall_forall in Hs. destruct (Hs d Hin) as [_ Hr].
  revert Hdig Hr. destruct d as [[] [] [] [] [] [] [] []]; cbv; congruence.
Qed.

Lemma escape_shields_witness :
  exists e, escapeString (lit "a/b\") (lit "/") = Ok e /\ shielded (lit "/") e = true.
Proof. apply escape_shields; [repeat constructor|done]. Defined.

(** An outcome that is a value or an [IllegalArgumentException] *)
Definition value_or_illegal {A} (ok : A -> Prop) (r : result A) : Prop :=
  match r with
  | Ok a => ok a
  | Throw (IllegalArgumentException _) => True
  | _ => False
  end.

Lemma checkChar_outcome s pos : value_or_illegal (fun c => c = at_ s pos) (checkChar s pos).
Proof. unfold checkChar. by case_if. Qed.

Lemma octal_value_progress j s end_ : forall start val, (start <= end_)%nat ->
  (start <= snd (octal_value j s start end_ val) <= end_)%nat.
Proof.
  induction j as [|j IH]; intros start val Hle; cbn [octal_value]; [simpl; lia|].
  destruct (start <? end_)%nat eqn:E1; bool_to_prop; [|simpl; lia].
  case_if; [simpl; lia|]. specialize (IH (S start) (val * 8 + (ord (at_ s start) - 48))). lia.
Qed.

Lemma decodeChar_progress s start end_ : (start < end_)%nat -> (end_ <= length s)%nat ->
  value_or_illegal (fun r => start < snd r <= end_)%nat (decodeChar s start end_).
Proof.
  intros Hlt Hle. unfold decodeChar.
  rewrite (proj2 (Nat.ltb_lt _ _) Hlt), (proj2 (Nat.leb_le _ _) Hle). cbn [andb negb].
  destruct (ceq (at_ s start) backslash) eqn:Eb; cbn [negb].
  2:{ pose proof (checkChar_outcome s start) as Hc.
      destruct (checkChar s start) as [c|[]|]; simpl in *; done || lia. }
  destruct (start + 1 =? end_)%nat eqn:E1; [done|]. bool_to_prop.
  repeat (case_if; [simpl; lia|]). destruct (between 48 55 _) eqn:Ed.
  - pose proof (octal_value_progress 3 s end_ (S start) 0 ltac:(lia)) as Hp.
    assert (S start < snd (octal_value 3 s (S start) end_ 0))%nat as Hp'.
    { cbn [octal_value]. rewrite (proj2 (Nat.ltb_lt (S start) end_)) by lia.
      unfold between in Ed. bool_to_prop.
      rewrite (proj2 (Z.ltb_ge _ 0)), (proj2 (Z.ltb_ge 7 _)) by lia. cbn [orb].
      pose proof (octal_value_progress 2 s end_ (S (S start)) (0 * 8 + (ord (at_ s (S start)) - 48)) ltac:(lia)) as Hp2.
      cbn [octal_value] in Hp2. lia. }
    destruct (octal_value 3 s (S start) end_ 0) as [val next]. simpl in Hp, Hp'. case_if; simpl; [done|lia].
  - pose proof (checkChar_outcome s (S start)) as Hc.
    destruct (checkChar s (S start)) as [c|[]|]; simpl in *; done || lia.
Qed.

Lemma decodeString_total fuel : forall s start end_ sb, (end_ <= length s)%nat -> (end_ - start <= fuel)%nat ->
  value_or_illegal (fun _ => True) (decodeString fuel s start end_ sb).
Proof.
  induction fuel as [|fuel IH]; intros s start end_ sb Hle Hf; cbn [decodeString];
    (destruct (start <? end_)%nat eqn:E1; bool_to_prop; [|done]); [lia|].
  pose proof (decodeChar_progress s start end_ E1 Hle) as Hp.
  destruct (decodeChar s start end_) as [[c next]|[]|]; simpl in Hp |- *; try done.
  apply IH; [done|lia].
Qed.

(** Unescaping any part of any string ends with a string or an
    IllegalArgumentException: the loop makes progress and never reads behind the
    end. *)
Lemma unescapeString_total s start end_ : (start <= end_ <= length s)%nat ->
  value_or_illegal (fun _ => True) (unescapeString s start end_).
Proof.
  intros [H1 H2]. unfold unescapeString.
  rewrite (proj2 (Nat.leb_le _ _) H1), (proj2 (Nat.leb_le _ _) H2). by apply decodeString_total.
Qed.

Lemma unescapeString_total_witness : value_or_illegal (fun _ => True) (unescapeString (lit "a\777b") 0 6).
Proof. apply unescapeString_total. simpl. lia. Defined.

(** ** Patterns *)

Definition matches (s pat : str) (emptyMatch : bool) : Prop :=
  (("*"%char ∉ pat) /\ s = pat) \/
  exists pre mid post, pat = pre ++ "*"%char :: post /\ ("*"%char ∉ pre) /\ s = pre ++ mid ++ post /\
    (emptyMatch = true \/ mid <> []).

Lemma find_char_None c s : find_char c 0 s = None <-> c ∉ s.
Proof.
  unfold find_char, find_if_from. rewrite drop_0, fmap_None, find_if_None, Forall_forall.
  setoid_rewrite ceq_false. split; [intros H Hin; by destruct (H c Hin)|intros H d Hd ->; done].
Qed.

Lemma find_char_Some c s k : find_char c 0 s = Some k ->
  (c ∉ take k s) /\ s = take k s ++ c :: drop (S k) s /\ (k < length s)%nat.
Proof.
  unfold find_char, find_if_from. rewrite drop_0. intros H.
  apply fmap_Some in H as (j & Hj & ->). simpl. apply find_if_Some in Hj as (d & Hd & Hc & Hall).
  apply ceq_true in Hc as ->. split_and!.
  - intros Hin. rewrite Forall_forall in Hall. specialize (Hall _ Hin). by rewrite ceq_refl in Hall.
  - rewrite <- (take_drop j s) at 1. f_equal. by apply drop_S.
  - by eapply lookup_lt_Some.
Qed.

Lemma find_char_app c pre post : c ∉ pre -> find_char c 0 (pre ++ c :: post) = Some (length pre).
Proof.
  intros H. unfold find_char, find_if_from. rewrite drop_0, find_if_app; [done| |apply ceq_refl].
  apply Forall_forall. intros d Hd. apply ceq_false. by intros ->.
Qed.

(** The tests behind the first wildcard, as one equation *)
Lemma wildcard_split (s pre post : str) (strict : bool) :
  negb ((length s <? length pre)%nat || negb (str_eqb (take (length pre) s) pre)) &&
  negb (length s <? length post)%nat &&
  negb ((length s - length post <? length pre)%nat || (strict && (length s - length post =? length pre)%nat)) &&
  str_eqb (drop (length s - length post) s) post = true <->
  exists mid, s = pre ++ mid ++ post /\ (strict = false \/ mid <> []).
Proof.
  split.
  - intros H. bool_to_prop. match goal with
    | H1 : str_eqb _ pre = true, H2 : str_eqb _ post = true |- _ => apply str_eqb_true in H1, H2; rename H1 into Hpre, H2 into Hpost end.
    exists (take (length s - length post - length pre) (drop (length pre) s)). split.
    + rewrite <- (take_drop (length pre) s) at 1. rewrite Hpre. f_equal.
      rewrite <- (take_drop (length s - length post - length pre) (drop (length pre) s)) at 1. f_equal.
      rewrite drop_drop. rewrite <- Hpost at 2. f_equal. lia.
    + destruct strict; [right|by left]. intros Hm. apply (f_equal length) in Hm.
      rewrite length_take, length_drop in Hm. simpl in Hm.
      match goal with Hs : true && _ = false |- _ => simpl in Hs end. bool_to_prop. lia.
  - intros (mid & -> & Hm). rewrite !length_app.
    replace (length pre + (length mid + length post) - length post)%nat with (length pre + length mid)%nat by lia.
    rewrite take_app_length, <- drop_drop, drop_app_length, drop_app_length.
    rewrite !(proj2 (str_eqb_true _ _)) by done.
    rewrite (proj2 (Nat.ltb_ge _ (length pre))), (proj2 (Nat.ltb_ge _ (length post))),
      (proj2 (Nat.ltb_ge (length pre + length mid) _)) by lia. cbn [orb negb andb].
    destruct strict; [|done]. destruct Hm as [Hm|Hm]; [done|]. destruct mid; [done|].
    simpl. by rewrite (proj2 (Nat.eqb_neq _ _)) by lia.
Qed.

(** The wildcard matcher accepts a string exactly when it equals a pattern
    without a star, or consists of what stands before the first star, something
    (which may be empty if emptyMatch is set) and what stands behind the star. *)
Lemma match_spec s pat emptyMatch : s <> [] -> pat <> [] ->
  match_ s pat emptyMatch = Ok true <-> matches s pat emptyMatch.
Proof.
  intros Hs Hp. unfold match_. rewrite !(proj2 (Nat.eqb_neq (length _) 0)) by (by rewrite length_zero_iff_nil).
  cbn [orb]. destruct (find_char "*" 0 pat) as [k|] eqn:Ef.
  2:{ apply find_char_None in Ef. split.
      - intros [= H]. apply str_eqb_true in H. by left.
      - intros [[_ ->]|(pre & mid & post & -> & _)]; [by rewrite (proj2 (str_eqb_true pat pat))|].
        exfalso. apply Ef. set_solver. }
  apply find_char_Some in Ef as (Hnin & Epat & Hk). revert Epat Hnin.
  generalize (take k pat) (drop (S k) pat) (length_take_le pat k ltac:(lia)).
  intros pre post Hlen -> Hnin. subst k.
  transitivity (exists mid, s = pre ++ mid ++ post /\ (negb emptyMatch = false \/ mid <> [])).
  - rewrite <- wildcard_split. unfold substr. rewrite !drop_0, take_app_length, Nat.add_1_r.
    rewrite length_app. cbn [length].
    replace (length pre + S (length post) - length pre - 1)%nat with (length post) by lia.
    assert (drop (S (length pre)) (pre ++ "*"%char :: post) = post) as ->.
    { rewrite <- Nat.add_1_r, <- drop_drop, drop_app_length. done. }
    rewrite !(take_ge _ (length s)), (take_ge post) by (rewrite ?length_drop; lia).
    destruct (_ || negb (str_eqb _ pre)); [done|]. destruct (length s <? length post)%nat; [done|].
    destruct (_ || (_ && _)); [done|]. by destruct (str_eqb _ post).
  - unfold matches. split.
    + intros (mid & -> & Hm). right. exists pre, mid, post. split_and!; try done.
      destruct emptyMatch; [by left|]. destruct Hm; [done|by right].
    + intros [[Hn _]|(pre' & mid & post' & Epat & Hn & -> & Hm)].
      { exfalso. apply Hn. set_solver. }
      pose proof (find_char_app _ _ post Hnin) as E1. pose proof (find_char_app _ _ post' Hn) as E2.
      rewrite Epat, E2 in E1. injection E1 as E1. apply app_inj_1 in Epat as [-> [= ->]]; [|done].
      exists mid. split; [done|]. destruct emptyMatch; [by left|]. destruct Hm; [done|by right].
Qed.

Lemma match_total s pat emptyMatch : s <> [] -> pat <> [] -> exists r, match_ s pat emptyMatch = Ok r.
Proof.
  intros Hs Hp. unfold match_. rewrite !(proj2 (Nat.eqb_neq (length _) 0)) by (by rewrite length_zero_iff_nil).
  cbn [orb]. destruct (find_char "*" 0 pat); [|by eexists]. cbv zeta. repeat case_if; by eexists.
Qed.

Lemma match_spec_witness :
  match_ (lit "Ice.Trace.Network") (lit "Ice.*.Network") false = Ok true <->
  matches (lit "Ice.Trace.Network") (lit "Ice.*.Network") false.
Proof. by apply match_spec. Defined.

(** ** Trimming *)

Lemma find_last_not_of_Some set s k : find_last_not_of set s = Some k ->
  exists c, s = take k s ++ c :: drop (S k) s /\ (c ∉ set) /\ Forall (fun d => d ∈ set) (drop (S k) s) /\
    (k < length s)%nat.
Proof.
  unfold find_last_not_of. intros H. apply fmap_Some in H as (j & Hj & ->).
  apply find_if_Some in Hj as (c & Hc & Hn & Hall). apply negb_true_iff, mem_char_false in Hn.
  pose proof (lookup_lt_Some _ _ _ Hc) as Hlt. rewrite length_reverse in Hlt.
  rewrite reverse_lookup in Hc by done. replace (length s - S j)%nat with (length s - 1 - j)%nat in Hc by lia.
  exists c. split_and!; [|done| |lia].
  - rewrite <- (take_drop (length s - 1 - j) s) at 1. f_equal. by apply drop_S.
  - replace (S (length s - 1 - j)) with (length s - j)%nat by lia.
    rewrite take_reverse in Hall by lia. rewrite Forall_reverse in Hall.
    eapply Forall_impl; [exact Hall|]. intros d Hd. apply negb_false_iff in Hd. by apply mem_char_spec.
Qed.

Definition blank (c : ascii) : Prop := c ∈ whitespace.

Lemma find_first_not_of_Some set s k : find_first_not_of set 0 s = Some k ->
  exists c, s = take k s ++ c :: drop (S k) s /\ (c ∉ set) /\ Forall (fun d => d ∈ set) (take k s) /\
    (k < length s)%nat.
Proof.
  unfold find_first_not_of, find_if_from. rewrite drop_0. intros H. apply fmap_Some in H as (j & Hj & ->).
  simpl. apply find_if_Some in Hj as (c & Hc & Hn & Hall). apply negb_true_iff, mem_char_false in Hn.
  exists c. split_and!; [|done| |by eapply lookup_lt_Some].
  - rewrite <- (take_drop j s) at 1. f_equal. by apply drop_S.
  - eapply Forall_impl; [exact Hall|]. intros d Hd. apply negb_false_iff in Hd. by apply mem_char_spec.
Qed.

Lemma trim_parts s : exists a z, s = a ++ trim s ++ z /\ Forall blank a /\ Forall blank z /\
  (trim s = [] \/ exists c t d u, trim s = c :: t /\ trim s = u ++ [d] /\ ~ blank c /\ ~ blank d).
Proof.
  unfold trim. destruct (find_first_not_of whitespace 0 s) as [k|] eqn:E1.
  2:{ exists s, []. simpl. rewrite app_nil_r. split_and!; [done| |constructor|by left].
      unfold find_first_not_of, find_if_from in E1. rewrite drop_0, fmap_None, find_if_None in E1.
      eapply Forall_impl; [exact E1|]. intros d Hd. apply negb_false_iff in Hd. by apply mem_char_spec. }
  destruct (find_first_not_of_Some _ _ _ E1) as (c & Es & Hc & Ha & Hk).
  destruct (find_last_not_of whitespace s) as [j|] eqn:E2.
  2:{ unfold find_last_not_of in E2. rewrite fmap_None, find_if_None in E2. exfalso. apply Hc.
      rewrite Forall_reverse, Forall_forall in E2. apply mem_char_spec, negb_false_iff, E2.
      rewrite Es. set_solver. }
  destruct (find_last_not_of_Some _ _ _ E2) as (d & Es' & Hd & Hz & Hj).
  assert (k <= j)%nat as Hkj.
  { apply Nat.nlt_ge. intros Hlt. apply Hd. rewrite Forall_forall in Ha. apply Ha.
    assert (s !! j = Some d) as Hjd.
    { rewrite Es', lookup_app_r by (rewrite length_take; lia). rewrite length_take.
      by replace (j - j `min` length s)%nat with 0%nat by lia. }
    apply list_elem_of_lookup. exists j. by rewrite lookup_take_lt. }
  assert (substr k (j - k + 1) s = take (j - k) (drop k s) ++ [d]) as Esub.
  { unfold substr. rewrite Nat.add_1_r. apply take_S_r. rewrite lookup_drop.
    replace (k + (j - k))%nat with j by lia. rewrite Es', lookup_app_r by (rewrite length_take; lia).
    rewrite length_take. by replace (j - j `min` length s)%nat with 0%nat by lia. }
  exists (take k s), (drop (S j) s). split_and!; [|done|done|right].
  - rewrite <- (take_drop k s) at 1. f_equal. unfold substr.
    rewrite <- (take_drop (j - k + 1) (drop k s)) at 1. f_equal. rewrite drop_drop. f_equal. lia.
  - exists c, (take (j - k) (drop (S k) s)), d, (take (j - k) (drop k s)). split_and!; [|done|done|done].
    unfold substr. rewrite (drop_S s c k), Nat.add_1_r; [done|].
    rewrite Es, lookup_app_r by (rewrite length_take; lia).
    rewrite length_take. by replace (k - k `min` length s)%nat with 0%nat by lia.
Qed.

(** The first and the last character, when they are not blank *)
Definition edged (s : str) : Prop :=
  exists c d, head s = Some c /\ last s = Some d /\ ~ blank c /\ ~ blank d.

Lemma trim_nonempty c s : ~ blank c -> trim (c :: s) <> [].
Proof.
  intros Hc E. destruct (trim_parts (c :: s)) as (a & z & Es & Ha & Hz & _). rewrite E in Es. cbn in Es.
  apply Hc. assert (Forall blank (c :: s)) as H by (rewrite Es; by apply Forall_app). by apply Forall_cons in H as [H _].
Qed.

Lemma trim_id s : edged s -> trim s = s.
Proof.
  intros (c & d & Hh & Hl & Hc & Hd). destruct (trim_parts s) as (a & z & Es & Ha & Hz & _).
  assert (a = []) as ->.
  { destruct a as [|x a]; [done|]. apply Forall_cons in Ha as [Hx _]. rewrite Es in Hh. by injection Hh as ->. }
  destruct z as [|x z] using rev_ind; [by rewrite app_nil_r in Es|].
  apply Forall_app in Hz as [_ Hz]. apply Forall_cons in Hz as [Hx _].
  rewrite Es in Hl. cbn [app] in Hl. rewrite app_assoc, last_snoc in Hl. by injection Hl as ->.
Qed.

(** Trimming takes blanks from both ends of a string, and what is left is empty
    or starts and ends with a character that is not blank. *)
Theorem trim_spec s : exists a z, s = a ++ trim s ++ z /\ Forall blank a /\ Forall blank z /\
  (trim s = [] \/ exists c t d u, trim s = c :: t /\ trim s = u ++ [d] /\ ~ blank c /\ ~ blank d).
Proof. apply trim_parts. Qed.

(** ** Splitting what was joined *)

(** A character that [splitString] takes as it is *)
Definition plain (c : ascii) : Prop := c <> dquote /\ c <> squote /\ c <> backslash.

Fixpoint split_plain (delim l elt : str) (result : list str) : list str * str * option ascii :=
  match l with
  | [] => (result, elt, None)
  | c :: l' =>
      if mem_char c delim
      then split_plain delim l' [] (if (0 <? length elt)%nat then result ++ [elt] else result)
      else split_plain delim l' (elt ++ [c]) result
  end.

Lemma split_loop_plain delim l : Forall plain l -> forall fuel s pos elt result,
  drop pos s = l -> (pos <= length s)%nat -> (length l <= fuel)%nat ->
  split_loop fuel s delim pos None elt result = split_plain delim l elt result.
Proof.
  induction 1 as [|c l (H1 & H2 & H3) _ IH]; intros fuel s pos elt result Hd Hle Hf; simpl in Hf.
  - assert (length s <= pos)%nat by (apply (f_equal length) in Hd; rewrite length_drop in Hd; simpl in Hd; lia).
    destruct fuel; cbn [split_loop split_plain]; [done|]. by rewrite (proj2 (Nat.ltb_ge _ _)).
  - assert (pos < length s)%nat as Hlt by (apply (f_equal length) in Hd; rewrite length_drop in Hd; simpl in Hd; lia).
    destruct fuel as [|fuel]; [lia|]. cbn [split_loop split_plain]. rewrite (proj2 (Nat.ltb_lt _ _) Hlt).
    rewrite (drop_at s pos Hlt) in Hd. injection Hd as Hc Hd. rewrite Hc.
    rewrite !(proj2 (ceq_false _ _)) by done. cbn [orb andb].
    rewrite Nat.add_1_r. case_if; apply IH; done || lia.
Qed.

Lemma split_plain_word delim v : Forall (fun c => mem_char c delim = false) v -> forall l elt result,
  split_plain delim (v ++ l) elt result = split_plain delim l (elt ++ v) result.
Proof.
  induction 1 as [|c v Hc _ IH]; intros l elt result; [by rewrite app_nil_r|].
  cbn [app split_plain]. rewrite Hc, IH. by rewrite <- app_assoc.
Qed.

Lemma split_plain_delims delim d : Forall (fun c => mem_char c delim = true) d -> forall l result,
  split_plain delim (d ++ l) [] result = split_plain delim l [] result.
Proof. induction 1 as [|c d Hc _ IH]; intros l result; [done|]. cbn [app split_plain]. by rewrite Hc, IH. Qed.

(** A word that survives: not empty, no delimiter, quote or backslash in it *)
Definition word (delim v : str) : Prop :=
  v <> [] /\ Forall plain v /\ Forall (fun c => mem_char c delim = false) v.

Definition separator (delim d : str) : Prop :=
  d <> [] /\ Forall plain d /\ Forall (fun c => mem_char c delim = true) d.

Lemma last_cons_default {A} (v w : A) vs : List.last (w :: vs) v = List.last vs w.
Proof. revert v w. induction vs as [|x vs IH]; intros v w; [done|]. change (List.last (x :: vs) v = List.last (x :: vs) w). by rewrite !IH. Qed.

Lemma split_plain_join delim d vs : separator delim d -> Forall (word delim) vs -> forall elt result,
  elt <> [] ->
  split_plain delim (join_rest vs d) elt result
    = (result ++ take (length vs) (elt :: vs), List.last vs elt, None).
Proof.
  intros (Hd & _ & Hdel). induction 1 as [|v vs (Hv & _ & Hw) _ IH]; intros elt result He;
    cbn [join_rest split_plain length take].
  { by rewrite app_nil_r. }
  destruct d as [|c d]; [done|]. inversion_clear Hdel as [|?? Hc Hdel']. cbn [app split_plain]. rewrite Hc.
  destruct elt as [|e elt]; [done|]. cbn [length Nat.ltb Nat.leb].
  rewrite split_plain_delims, split_plain_word by done. rewrite IH by done.
  cbn [app]. rewrite <- app_assoc. cbn [app]. by rewrite last_cons_default.
Qed.

Lemma join_rest_plain delim d vs : separator delim d -> Forall (word delim) vs -> Forall plain (join_rest vs d).
Proof.
  intros (_ & Hp & _). induction 1 as [|v vs (_ & Hv & _) _ IH]; cbn [join_rest]; [constructor|].
  by repeat (apply Forall_app; split).
Qed.

(** Splitting what joinString made of words without delimiters, quotes or
    backslashes gives the words back. *)
Theorem split_join delim d vs : separator delim d -> Forall (word delim) vs ->
  splitString (joinString vs d) delim = (vs, true).
Proof.
  intros Hd Hvs. unfold splitString. destruct vs as [|v vs]; [done|].
  inversion_clear Hvs as [|?? Hv Hvs']. pose proof Hv as (Hne & Hp & Hw).
  assert (Forall plain (joinString (v :: vs) d)) as Hall.
  { apply Forall_app. split; [done|]. by eapply join_rest_plain. }
  rewrite (split_loop_plain delim _ Hall) by (done || lia).
  cbn [joinString]. rewrite split_plain_word by done. cbn [app].
  rewrite (split_plain_join delim d vs Hd Hvs' v []) by done. cbn [app].
  assert (List.last vs v <> []) as Hl.
  { clear -Hne Hvs'. revert v Hne. induction Hvs' as [|w vs (Hw & _) _ IH]; intros v Hne; [done|].
    rewrite last_cons_default. by apply IH. }
  destruct (List.last vs v) as [|c t] eqn:El; [done|]. cbn [length Nat.ltb Nat.leb].
  f_equal. rewrite <- El. clear. revert v. induction vs as [|w vs IH]; intros v; [done|].
  rewrite last_cons_default. cbn [length take app]. f_equal. apply (IH w).
Qed.

Lemma split_join_witness :
  splitString (joinString [lit "tcp"; lit "ssl"; lit "udp"] (lit ", ")) (lit ", ") = ([lit "tcp"; lit "ssl"; lit "udp"], true).
Proof. apply split_join; [repeat constructor; done|repeat constructor; done]. Defined.
