(* ===== verification/Base64.v ===== *)
(** * Base64

    cpp/src/Ice/Base64.cpp: encoding in lines of 76 characters and decoding
    that ignores every character outside the alphabet. Bytes are combined
    with the shifts and masks of the source. *)

From S2P Require Import Prelude CxxString StringUtil.

Module Base64.

Definition encode_char (uc : Z) : ascii :=
  if uc <? 26 then chr (65 + uc)
  else if uc <? 52 then chr (97 + (uc - 26))
  else if uc <? 62 then chr (48 + (uc - 52))
  else if uc =? 62 then "+"%char
  else "/"%char.

Definition decode_char (c : ascii) : Z :=
  if between 65 90 c then ord c - 65
  else if between 97 122 c then ord c - 97 + 26
  else if between 48 57 c then ord c - 48 + 52
  else if ceq c "+" then 62
  else 63.

Definition isBase64 (c : ascii) : bool :=
  between 65 90 c || between 97 122 c || between 48 57 c || ceq c "+" || ceq c "/" || ceq c "=".

(** One turn of the loop of [encode]: the bytes at [i], [i + 1] and
    [i + 2], the last two of which may be missing *)
Definition encode_group (p1 : byte) (p2 p3 : option byte) : str :=
  let by1 := ord p1 in
  let by2 := from_option ord 0 p2 in
  let by3 := from_option ord 0 p3 in
  let by4 := Z.shiftr by1 2 in
  let by5 := Z.lor (Z.shiftl (Z.land by1 3) 4) (Z.shiftr by2 4) in
  let by6 := Z.lor (Z.shiftl (Z.land by2 15) 2) (Z.shiftr by3 6) in
  let by7 := Z.land by3 63 in
  [encode_char by4; encode_char by5;
   match p2 with Some _ => encode_char by6 | None => "="%char end;
   match p3 with Some _ => encode_char by7 | None => "="%char end].

Fixpoint encode_loop (plainSeq : list byte) : str :=
  match plainSeq with
  | [] => []
  | [p1] => encode_group p1 None None
  | [p1; p2] => encode_group p1 (Some p2) None
  | p1 :: p2 :: p3 :: rest => encode_group p1 (Some p2) (Some p3) ++ encode_loop rest
  end.

Definition crlf : str := [chr 13; chr 10].

(** Each turn copies 76 characters. *)
Fixpoint wrap (fuel : nat) (retval : str) : str :=
  match fuel with
  | O => retval
  | S fuel' =>
      if (76 <? length retval)%nat then take 76 retval ++ crlf ++ wrap fuel' (drop 76 retval)
      else retval
  end.

Definition encode (plainSeq : list byte) : str :=
  if (length plainSeq =? 0)%nat then []
  else let retval := encode_loop plainSeq in wrap (length retval) retval.

(** One turn of the loop of [decode] *)
Definition decode_group (c1 : ascii) (c2 c3 c4 : option ascii) : list byte :=
  let c2 := default "A"%char c2 in
  let c3 := default "A"%char c3 in
  let c4 := default "A"%char c4 in
  let by1 := decode_char c1 in
  let by2 := decode_char c2 in
  let by3 := decode_char c3 in
  let by4 := decode_char c4 in
  [chr (Z.lor (Z.shiftl by1 2) (Z.shiftr by2 4))] ++
  (if negb (ceq c3 "=") then [chr (Z.lor (Z.shiftl (Z.land by2 15) 4) (Z.shiftr by3 2))] else []) ++
  (if negb (ceq c4 "=") then [chr (Z.lor (Z.shiftl (Z.land by3 3) 6) by4)] else []).

Fixpoint decode_loop (newStr : str) : list byte :=
  match newStr with
  | [] => []
  | [c1] => decode_group c1 None None None
  | [c1; c2] => decode_group c1 (Some c2) None None
  | [c1; c2; c3] => decode_group c1 (Some c2) (Some c3) None
  | c1 :: c2 :: c3 :: c4 :: rest => decode_group c1 (Some c2) (Some c3) (Some c4) ++ decode_loop rest
  end.

Definition decode (s : str) : list byte :=
  let newStr := List.filter isBase64 s in
  if (length newStr =? 0)%nat then [] else decode_loop newStr.

(** ** The alphabet *)

Definition alphabet_check (u : Z) : bool :=
  (decode_char (encode_char u) =? u) && isBase64 (encode_char u) && negb (ceq (encode_char u) "=").

Lemma alphabet_all : forallb (fun n => alphabet_check (Z.of_nat n)) (seq 0 64) = true.
Proof. by vm_compute. Qed.

Lemma alphabet u : 0 <= u < 64 ->
  decode_char (encode_char u) = u /\ isBase64 (encode_char u) = true /\ ceq (encode_char u) "=" = false.
Proof.
  intros Hu. pose proof alphabet_all as H. rewrite forallb_forall in H.
  specialize (H (Z.to_nat u)). rewrite Z2Nat.id in H by lia.
  specialize (H ltac:(apply in_seq; lia)). unfold alphabet_check in H. bool_to_prop.
  split_and!; [done|done|by apply ceq_false].
Qed.

(** Bits that do not overlap add up. *)
Lemma lor_disjoint a b k : 0 <= k -> 0 <= b < 2 ^ k -> Z.lor (Z.shiftl a k) b = a * 2 ^ k + b.
Proof.
  intros Hk Hb. rewrite <- Z.shiftl_mul_pow2 by done.
  destruct (decide (b = 0)) as [->|Hb0]; [by rewrite Z.lor_0_r, Z.add_0_r|].
  pose proof (Z.add_lor_land (Z.shiftl a k) b) as H.
  assert (Z.land (Z.shiftl a k) b = 0) as E; [|lia].
  apply Z.bits_inj'. intros n Hn. rewrite Z.land_spec, Z.bits_0.
  destruct (Z.ltb_spec n k).
  - by rewrite Z.shiftl_spec_low.
  - rewrite (Z.bits_above_log2 b n); [apply andb_false_r|lia|].
    apply Z.log2_lt_pow2; [lia|].
    apply (Z.lt_le_trans _ (2 ^ k)); [lia|]. by apply Z.pow_le_mono_r.
Qed.

Lemma shiftr_div a k : 0 <= k -> Z.shiftr a k = a / 2 ^ k.
Proof. apply Z.shiftr_div_pow2. Qed.

Lemma land_mod a k : 0 <= k -> Z.land a (2 ^ k - 1) = a mod 2 ^ k.
Proof. intros Hk. rewrite <- Z.land_ones by done. by rewrite Z.ones_equiv. Qed.

Lemma land_3 a : Z.land a 3 = a mod 4.
Proof. by apply (land_mod a 2). Qed.
Lemma land_15 a : Z.land a 15 = a mod 16.
Proof. by apply (land_mod a 4). Qed.
Lemma land_63 a : Z.land a 63 = a mod 64.
Proof. by apply (land_mod a 6). Qed.

(** The four sextets of three bytes *)
Lemma encode_group_eq p1 p2 p3 :
  encode_group p1 p2 p3 =
    [encode_char (ord p1 / 4);
     encode_char ((ord p1 mod 4) * 16 + from_option ord 0 p2 / 16);
     match p2 with Some _ => encode_char ((from_option ord 0 p2 mod 16) * 4 + from_option ord 0 p3 / 64)
                 | None => "="%char end;
     match p3 with Some _ => encode_char (from_option ord 0 p3 mod 64) | None => "="%char end].
Proof.
  pose proof (ord_range p1).
  assert (0 <= from_option ord 0 p2 < 256) by (destruct p2 as [c|]; simpl; [apply ord_range|lia]).
  assert (0 <= from_option ord 0 p3 < 256) by (destruct p3 as [c|]; simpl; [apply ord_range|lia]).
  unfold encode_group. cbv zeta.
  rewrite !shiftr_div by lia.
  rewrite land_3, land_15, land_63.
  rewrite !lor_disjoint by ((split; [apply Z.div_pos; lia|apply Z.div_lt_upper_bound; lia]) || lia).
  done.
Qed.

Lemma chr_eq x c : x = ord c -> chr x = c.
Proof. intros ->. apply chr_ord. Qed.

(** The bytes of four sextets *)
Lemma sextets_bytes u1 u2 u3 u4 : 0 <= u1 < 64 -> 0 <= u2 < 64 -> 0 <= u3 < 64 -> 0 <= u4 < 64 ->
  Z.lor (Z.shiftl u1 2) (Z.shiftr u2 4) = u1 * 4 + u2 / 16 /\
  Z.lor (Z.shiftl (Z.land u2 15) 4) (Z.shiftr u3 2) = (u2 mod 16) * 16 + u3 / 4 /\
  Z.lor (Z.shiftl (Z.land u3 3) 6) u4 = (u3 mod 4) * 64 + u4.
Proof.
  intros. rewrite !shiftr_div, land_15, land_3 by lia.
  rewrite !lor_disjoint by ((split; [apply Z.div_pos; lia|apply Z.div_lt_upper_bound; lia]) || lia). done.
Qed.

Definition present (p : option byte) : list byte := match p with Some c => [c] | None => [] end.

Ltac divmod := Z.to_euclidean_division_equations; lia.

Lemma decode_encode_group p1 p2 p3 : (p2 = None -> p3 = None) ->
  match encode_group p1 p2 p3 with
  | [c1; c2; c3; c4] => decode_group c1 (Some c2) (Some c3) (Some c4)
  | _ => []
  end = p1 :: present p2 ++ present p3.
Proof.
  intros Hp. rewrite encode_group_eq. pose proof (ord_range p1). unfold decode_group. cbn [default from_option id].
  destruct p2 as [p2|]; [|rewrite (Hp eq_refl)]; [pose proof (ord_range p2); destruct p3 as [p3|]|];
    cbn [from_option present app].
  - pose proof (ord_range p3).
    destruct (alphabet (ord p1 / 4)) as (-> & _); [divmod|].
    destruct (alphabet ((ord p1 mod 4) * 16 + ord p2 / 16)) as (-> & _); [divmod|].
    destruct (alphabet ((ord p2 mod 16) * 4 + ord p3 / 64)) as (-> & _ & ->); [divmod|].
    destruct (alphabet (ord p3 mod 64)) as (-> & _ & ->); [divmod|].
    edestruct (sextets_bytes (ord p1 / 4) ((ord p1 mod 4) * 16 + ord p2 / 16)
      ((ord p2 mod 16) * 4 + ord p3 / 64) (ord p3 mod 64)) as (-> & -> & ->); try divmod.
    cbn [negb app]. repeat f_equal; apply chr_eq; divmod.
  - destruct (alphabet (ord p1 / 4)) as (-> & _); [divmod|].
    destruct (alphabet ((ord p1 mod 4) * 16 + ord p2 / 16)) as (-> & _); [divmod|].
    destruct (alphabet ((ord p2 mod 16) * 4 + 0 / 64)) as (-> & _ & ->); [divmod|].
    edestruct (sextets_bytes (ord p1 / 4) ((ord p1 mod 4) * 16 + ord p2 / 16)
      ((ord p2 mod 16) * 4 + 0 / 64) 0) as (-> & -> & _); try divmod.
    cbn [negb app]. rewrite ceq_refl. cbn [negb app]. repeat f_equal; apply chr_eq; divmod.
  - destruct (alphabet (ord p1 / 4)) as (-> & _); [divmod|].
    destruct (alphabet ((ord p1 mod 4) * 16 + 0 / 16)) as (-> & _); [divmod|].
    edestruct (sextets_bytes (ord p1 / 4) ((ord p1 mod 4) * 16 + 0 / 16) 0 0) as (-> & _ & _); try divmod.
    rewrite ceq_refl. cbn [negb app]. repeat f_equal; apply chr_eq; divmod.
Qed.

(** ** Round trip *)

Lemma list_ind3 {A} (P : list A -> Prop) :
  P [] -> (forall a, P [a]) -> (forall a b, P [a; b]) ->
  (forall a b c l, P l -> P (a :: b :: c :: l)) -> forall l, P l.
Proof.
  intros H0 H1 H2 H3. fix IH 1. intros [|a [|b [|c l]]]; [done|done|done|]. apply H3, IH.
Qed.

Lemma decode_encode_loop l : decode_loop (encode_loop l) = l.
Proof.
  induction l as [|a|a b|a b c l IH] using list_ind3; [done|..].
  - pose proof (decode_encode_group a None None (fun _ => eq_refl)) as H. cbn [encode_loop].
    rewrite encode_group_eq in *. cbn [decode_loop]. by rewrite H.
  - pose proof (decode_encode_group a (Some b) None (fun _ => eq_refl)) as H. cbn [encode_loop].
    rewrite encode_group_eq in *. cbn [decode_loop]. by rewrite H.
  - cbn [encode_loop]. pose proof (decode_encode_group a (Some b) (Some c)) as H.
    rewrite encode_group_eq in *. cbn [app decode_loop]. rewrite H by done. by rewrite IH.
Qed.

Lemma encode_loop_alphabet l : Forall (fun c => isBase64 c = true) (encode_loop l).
Proof.
  assert (forall u, 0 <= u < 64 -> isBase64 (encode_char u) = true) as Hu by (intros u Hb; destruct (alphabet u Hb); tauto).
  induction l as [|a|a b|a b c l IH] using list_ind3; cbn [encode_loop];
    rewrite ?encode_group_eq; [constructor|..];
    repeat (apply Forall_app; split; [|done]); pose proof (ord_range a);
    try pose proof (ord_range b); try pose proof (ord_range c); cbn [from_option];
    repeat first [apply Forall_cons; split; [done || (apply Hu; divmod)|]]; try done.
Qed.

(** The lines of the output, and what joins them *)
Fixpoint join_lines (ls : list str) : str :=
  match ls with [] => [] | [l] => l | l :: ls' => l ++ crlf ++ join_lines ls' end.

Lemma wrap_lines fuel : forall s, (length s <= fuel)%nat -> exists ls,
  wrap fuel s = join_lines ls /\ concat ls = s /\ Forall (fun l => length l <= 76)%nat ls /\ ls <> [].
Proof.
  induction fuel as [|fuel IH]; intros s Hs; cbn [wrap].
  { destruct s; [|simpl in Hs; lia]. exists [[]]. split_and!; [done|done| |done]. apply Forall_singleton. simpl. lia. }
  destruct (76 <? length s)%nat eqn:E1; bool_to_prop.
  - destruct (IH (drop 76 s)) as (ls & Hw & Hc & Hl & Hne); [rewrite length_drop; lia|].
    exists (take 76 s :: ls). destruct ls as [|l ls]; [done|]. split_and!; [by rewrite Hw| | |done].
    + cbn [concat] in *. by rewrite Hc, take_drop.
    + constructor; [rewrite length_take; lia|done].
  - exists [s]. split_and!; [done|apply app_nil_r| |done]. by apply Forall_singleton.
Qed.

Lemma filter_all s : Forall (fun c => isBase64 c = true) s -> List.filter isBase64 s = s.
Proof. induction 1 as [|c s Hc _ IH]; simpl; [done|]. by rewrite Hc, IH. Qed.

Lemma filter_lines ls : List.filter isBase64 (join_lines ls) = List.filter isBase64 (concat ls).
Proof.
  induction ls as [|l ls IH]; [done|]. destruct ls as [|l' ls]; [cbn [concat join_lines]; by rewrite app_nil_r|].
  change (join_lines (l :: l' :: ls)) with (l ++ crlf ++ join_lines (l' :: ls)).
  rewrite !List.filter_app, IH. simpl. by rewrite !List.filter_app.
Qed.

(** Decoding the Base64 text of any bytes gives the bytes back, line breaks and
    padding included. *)
Lemma decode_encode_id l : decode (encode l) = l.
Proof.
  unfold encode, decode. destruct (length l =? 0)%nat eqn:E0.
  { apply Nat.eqb_eq in E0. by destruct l. }
  cbv zeta. destruct (wrap_lines (length (encode_loop l)) (encode_loop l)) as (ls & -> & Hc & _); [lia|].
  rewrite filter_lines, Hc, filter_all by apply encode_loop_alphabet.
  rewrite decode_encode_loop. destruct (length (encode_loop l) =? 0)%nat eqn:E1; [|done].
  apply Nat.eqb_eq in E1. rewrite <- (decode_encode_loop l). by destruct (encode_loop l).
Qed.

(** The Base64 text consists of lines of at most 76 characters of the alphabet,
    joined by carriage return and line feed. *)
Theorem encode_wellformed l : exists ls, encode l = join_lines ls /\
  Forall (fun line => (length line <= 76)%nat /\ Forall (fun c => isBase64 c = true) line) ls.
Proof.
  unfold encode. destruct (length l =? 0)%nat; [by exists []|]. cbv zeta.
  destruct (wrap_lines (length (encode_loop l)) (encode_loop l)) as (ls & -> & Hc & Hl & _); [lia|].
  exists ls. split; [done|]. pose proof (encode_loop_alphabet l) as Ha. rewrite <- Hc in Ha.
  clear Hc. induction Hl as [|line ls Hline _ IH]; [constructor|].
  cbn [concat] in Ha. apply Forall_app in Ha as [H1 H2]. constructor; [done|by apply IH].
Qed.

(** Bytes that fit in one line are encoded without line breaks. *)
Lemma length_encode_loop l : length (encode_loop l) = (4 * ((length l + 2) / 3))%nat.
Proof.
  induction l as [|a|a b|a b c l IH] using list_ind3; [done..|].
  cbn [encode_loop length]. rewrite encode_group_eq, length_app, IH.
  replace (S (S (S (length l))) + 2)%nat with (length l + 2 + 1 * 3)%nat by lia.
  rewrite Nat.div_add by done. cbn [length]. lia.
Qed.

Lemma encode_line l : (1 <= length l <= 57)%nat -> encode l = encode_loop l /\ encode l <> [] /\
  Forall (fun c => isBase64 c = true) (encode l).
Proof.
  intros Hl. pose proof (length_encode_loop l) as He.
  assert (1 <= (length l + 2) / 3 <= 19)%nat.
  { clear He. split; [apply Nat.div_le_lower_bound; lia|]. apply Nat.lt_succ_r, Nat.Div0.div_lt_upper_bound. lia. }
  assert (encode l = encode_loop l) as E.
  { unfold encode. rewrite (proj2 (Nat.eqb_neq _ _)) by lia. cbv zeta.
    destruct (encode_loop l) as [|c s] eqn:El; [done|]. cbn [length wrap] in *.
    by rewrite (proj2 (Nat.ltb_ge _ _)) by lia. }
  split; [done|]. rewrite E. split; [|apply encode_loop_alphabet]. intros E0. rewrite E0 in He. cbn [length] in He. lia.
Qed.
End Base64.
