(* ===== verification/Endpoint.v ===== *)
(** * Endpoints

    Where a server can be reached: cpp/src/Ice/TcpEndpointI.cpp,
    UdpEndpointI.cpp, OpaqueEndpointI.cpp, cpp/src/IceSSL/EndpointI.cpp and
    the table of endpoint factories, EndpointFactoryManager.cpp. An endpoint
    has a text ([toString]) that a factory parses, and a form on the wire. The
    classes that derive from [EndpointI] are the constructors of one type;
    the endpoints of TCP and of SSL have the same members. *)

From S2P Require Import Prelude CxxString Layout Protocol Stream Encaps StreamString StringUtil Base64 OrderedMap StreamHelpers.

(** ** Data *)

(** The members of [TcpEndpointI] and of [IceSSL::EndpointI] *)
Record TcpEndpoint : Type := MkTcp {
  tcp_host : str;
  tcp_port : Z;
  tcp_timeout : Z;
  tcp_connectionId : str;
  tcp_compress : bool
}.

(** The members of [UdpEndpointI] *)
Record UdpEndpoint : Type := MkUdp {
  udp_host : str;
  udp_port : Z;
  mcastInterface : str;
  mcastTtl : Z;
  udp_connect : bool;
  udp_connectionId : str;
  udp_compress : bool
}.

(** The members of [OpaqueEndpointI] *)
Record OpaqueEndpoint : Type := MkOpaque {
  opaque_type : Z;
  rawEncoding : EncodingVersion;
  rawBytes : list byte
}.

Inductive EndpointI : Type :=
  | TcpEndpointI (e : TcpEndpoint)
  | SslEndpointI (e : TcpEndpoint)
  | UdpEndpointI (e : UdpEndpoint)
  | OpaqueEndpointI (e : OpaqueEndpoint).

#[export] Instance TcpEndpoint_eq_dec : EqDecision TcpEndpoint.
Proof. solve_decision. Defined.
#[export] Instance UdpEndpoint_eq_dec : EqDecision UdpEndpoint.
Proof. solve_decision. Defined.
#[export] Instance OpaqueEndpoint_eq_dec : EqDecision OpaqueEndpoint.
Proof. solve_decision. Defined.
#[export] Instance EndpointI_eq_dec : EqDecision EndpointI.
Proof. solve_decision. Defined.

Definition TCPEndpointType : Z := 1.
Definition SSLEndpointType : Z := 2.
Definition UDPEndpointType : Z := 3.

(** The endpoint factories that a communicator can have *)
Inductive EndpointFactory : Type := TcpEndpointFactory | SslEndpointFactory | UdpEndpointFactory.

#[export] Instance EndpointFactory_eq_dec : EqDecision EndpointFactory.
Proof. solve_decision. Defined.

(** What the endpoints use of [DefaultsAndOverrides] *)
Class EndpointDefaults : Type := { defaultHost : str; defaultProtocol : str }.

(** ** Words of a text *)

Definition delim : str := [chr 32; chr 9; chr 10; chr 13].

(** [s.find_first_of(set, beg)], or the end of the text *)
Definition find_end (set : str) (beg : nat) (s : str) : nat := default (length s) (find_first_of set beg s).

(** The argument of an option, which must not start with a minus sign, and the
    position behind it *)
Definition endpoint_argument (s : str) (end_ : nat) : str * nat :=
  match find_first_not_of delim end_ s with
  | Some argumentBeg =>
      if negb (ceq (at_ s argumentBeg) "-") then
        let end_ := find_end delim argumentBeg s in (substr argumentBeg (end_ - argumentBeg) s, end_)
      else ([], end_)
  | None => ([], end_)
  end.

(** The argument without the quotes around it *)
Definition unquoted (argument : str) : str :=
  if ceq (at_ argument 0) dquote && ceq (at_ argument (length argument - 1)) dquote
  then substr 1 (length argument - 2) argument else argument.

(** The loop over the options: [parse option argument e] is the body behind the
    extraction of the option and its argument. *)
Fixpoint option_loop {T} (malformed : str -> exn) (parse : str -> str -> T -> result T)
    (fuel : nat) (s : str) (end_ : nat) (e : T) : result T :=
  match fuel with
  | O => Fault OutOfFuel
  | S fuel' =>
      match find_first_not_of delim end_ s with
      | None => Ok e
      | Some beg =>
          let end_ := find_end delim beg s in
          let option := substr beg (end_ - beg) s in
          if negb (length option =? 2)%nat || negb (ceq (at_ option 0) "-") then Throw (malformed option)
          else
            let '(argument, end_) := endpoint_argument s end_ in
            e ← parse option argument e;
            option_loop malformed parse fuel' s end_ e
      end
  end.

(** ** The text of TCP and SSL endpoints *)

(** [EndpointParseException] with the reason [what] about the endpoint of the
    protocol [proto] with the options [s] *)
Definition endpoint_error (proto s what : str) : exn :=
  EndpointParseException (what ++ lit "`" ++ proto ++ lit " " ++ s ++ lit "'").

Definition expected_option (proto s option : str) : exn :=
  endpoint_error proto s (lit "expected an endpoint option but found `" ++ option ++ lit "' in endpoint ").

Definition no_argument (proto s option : str) : exn :=
  endpoint_error proto s (lit "no argument provided for " ++ option ++ lit " option in endpoint ").

Definition unexpected_argument (proto s option argument : str) : exn :=
  endpoint_error proto s (lit "unexpected argument `" ++ argument ++ lit "' provided for " ++ option ++ lit " option in ").

Definition parse_port (proto s argument : str) : result Z :=
  match istream_int_eof argument with
  | None => Throw (endpoint_error proto s (lit "invalid port value `" ++ argument ++ lit "' in endpoint "))
  | Some port =>
      if (port <? 0) || (65535 <? port)
      then Throw (endpoint_error proto s (lit "port value `" ++ argument ++ lit "' out of range in endpoint "))
      else Ok port
  end.

Definition tcp_option (proto s option argument : str) (e : TcpEndpoint) : result TcpEndpoint :=
  let argument := unquoted argument in
  let c := at_ option 1 in
  if ceq c "h" then
    if (length argument =? 0)%nat then Throw (no_argument proto s option)
    else Ok (MkTcp argument (tcp_port e) (tcp_timeout e) (tcp_connectionId e) (tcp_compress e))
  else if ceq c "p" then
    if (length argument =? 0)%nat then Throw (no_argument proto s option)
    else
      port ← parse_port proto s argument;
      Ok (MkTcp (tcp_host e) port (tcp_timeout e) (tcp_connectionId e) (tcp_compress e))
  else if ceq c "t" then
    if (length argument =? 0)%nat then Throw (no_argument proto s option)
    else
      match istream_int_eof argument with
      | None => Throw (endpoint_error proto s (lit "invalid timeout value `" ++ argument ++ lit "' in endpoint "))
      | Some timeout => Ok (MkTcp (tcp_host e) (tcp_port e) timeout (tcp_connectionId e) (tcp_compress e))
      end
  else if ceq c "z" then
    if negb (length argument =? 0)%nat then Throw (unexpected_argument proto s option argument)
    else Ok (MkTcp (tcp_host e) (tcp_port e) (tcp_timeout e) (tcp_connectionId e) true)
  else Throw (endpoint_error proto s (lit "unknown option `" ++ option ++ lit "' in endpoint ")).

(** The host that is used when none is given, and [-h *] *)
Definition effective_host `{EndpointDefaults} (proto s host : str) (oaEndpoint : bool) : result str :=
  if (length host =? 0)%nat then Ok defaultHost
  else if str_eqb host (lit "*") then
    if oaEndpoint then Ok []
    else Throw (endpoint_error proto s (lit "`-h *' not valid for proxy endpoint "))
  else Ok host.

(** [TcpEndpointI(instance, str, oaEndpoint)] *)
Definition tcp_parse `{EndpointDefaults} (proto s : str) (oaEndpoint : bool) : result TcpEndpoint :=
  e ← option_loop (expected_option proto s) (tcp_option proto s) (S (length s)) s 0 (MkTcp [] 0 (-1) [] false);
  host ← effective_host proto s (tcp_host e) oaEndpoint;
  Ok (MkTcp host (tcp_port e) (tcp_timeout e) (tcp_connectionId e) (tcp_compress e)).

(** [ -h host], with quotes around a host with a colon *)
Definition host_text (host : str) : str :=
  if (length host =? 0)%nat then []
  else
    let addQuote := bool_decide (is_Some (find_char ":" 0 host)) in
    lit " -h " ++ (if addQuote then [dquote] else []) ++ host ++ (if addQuote then [dquote] else []).

Definition tcp_toString (proto : str) (e : TcpEndpoint) : str :=
  proto ++ host_text (tcp_host e) ++ lit " -p " ++ show_int (tcp_port e) ++
  (if tcp_timeout e =? -1 then [] else lit " -t " ++ show_int (tcp_timeout e)) ++
  (if tcp_compress e then lit " -z" else []).

(** ** The text of UDP endpoints *)

(** The argument of an option: a quoted one extends to the closing quote. *)
Definition udp_argument (s : str) (end_ : nat) : result (str * nat) :=
  match find_first_not_of delim end_ s with
  | Some beg =>
      if negb (ceq (at_ s beg) "-") then
        end_ ←
          (if ceq (at_ s beg) dquote then
             match find_first_of [dquote] (beg + 1) s with
             | None => Throw (endpoint_error (lit "udp") s (lit "mismatched quotes around `' in endpoint "))
             | Some end_ => Ok (S end_)
             end
           else Ok (find_end delim beg s));
        Ok (unquoted (substr beg (end_ - beg) s), end_)
      else Ok ([], end_)
  | None => Ok ([], end_)
  end.

Definition udp_option (s option argument : str) (e : UdpEndpoint) : result UdpEndpoint :=
  let udp := lit "udp" in
  let '(MkUdp host port mif ttl conn conId co) := e in
  if str_eqb option (lit "-h") then
    if (length argument =? 0)%nat then Throw (no_argument udp s option)
    else Ok (MkUdp argument port mif ttl conn conId co)
  else if str_eqb option (lit "-p") then
    if (length argument =? 0)%nat then Throw (no_argument udp s option)
    else port ← parse_port udp s argument; Ok (MkUdp host port mif ttl conn conId co)
  else if str_eqb option (lit "-c") then
    if negb (length argument =? 0)%nat then Throw (unexpected_argument udp s option argument)
    else Ok (MkUdp host port mif ttl true conId co)
  else if str_eqb option (lit "-z") then
    if negb (length argument =? 0)%nat then Throw (unexpected_argument udp s option argument)
    else Ok (MkUdp host port mif ttl conn conId true)
  else if str_eqb option (lit "-v") || str_eqb option (lit "-e") then
    if (length argument =? 0)%nat then Throw (no_argument udp s option)
    else
      match stringToMajorMinor argument with
      | Throw (VersionParseException why) =>
          Throw (EndpointParseException
            (lit "invalid version `" ++ argument ++ lit "' in endpoint `udp " ++ s ++ lit "':" ++ [chr 10] ++ why))
      | Throw ex => Throw ex
      | Fault f => Fault f
      | Ok _ => Ok e
      end
  else if str_eqb option (lit "--interface") then
    if (length argument =? 0)%nat then Throw (no_argument udp s option)
    else Ok (MkUdp host port argument ttl conn conId co)
  else if str_eqb option (lit "--ttl") then
    if (length argument =? 0)%nat then Throw (no_argument udp s option)
    else
      match istream_int_eof argument with
      | None => Throw (endpoint_error udp s (lit "invalid TTL value `" ++ argument ++ lit "' in endpoint "))
      | Some ttl => Ok (MkUdp host port mif ttl conn conId co)
      end
  else Throw (endpoint_error udp s (lit "unknown option `" ++ option ++ lit "' in endpoint ")).

Fixpoint udp_loop (fuel : nat) (s : str) (end_ : nat) (e : UdpEndpoint) : result UdpEndpoint :=
  match fuel with
  | O => Fault OutOfFuel
  | S fuel' =>
      match find_first_not_of delim end_ s with
      | None => Ok e
      | Some beg =>
          let end_ := find_end delim beg s in
          let option := substr beg (end_ - beg) s in
          if negb (ceq (at_ option 0) "-") then Throw (expected_option (lit "udp") s option)
          else
            r ← udp_argument s end_;
            e ← udp_option s option (fst r) e;
            udp_loop fuel' s (snd r) e
      end
  end.

(** [UdpEndpointI(instance, str, oaEndpoint)] *)
Definition udp_parse `{EndpointDefaults} (s : str) (oaEndpoint : bool) : result UdpEndpoint :=
  e ← udp_loop (S (length s)) s 0 (MkUdp [] 0 [] (-1) false [] false);
  host ← effective_host (lit "udp") s (udp_host e) oaEndpoint;
  Ok (MkUdp host (udp_port e) (mcastInterface e) (mcastTtl e) (udp_connect e) (udp_connectionId e) (udp_compress e)).

Definition udp_toString (e : UdpEndpoint) : str :=
  lit "udp" ++ host_text (udp_host e) ++ lit " -p " ++ show_int (udp_port e) ++
  (if (0 <? length (mcastInterface e))%nat then lit " --interface " ++ mcastInterface e else []) ++
  (if mcastTtl e =? -1 then [] else lit " --ttl " ++ show_int (mcastTtl e)) ++
  (if udp_connect e then lit " -c" else []) ++
  (if udp_compress e then lit " -z" else []).

(** ** The text of opaque endpoints *)

Record OpaqueParse : Type := MkOpaqueParse { op_endpoint : OpaqueEndpoint; topt : nat; vopt : nat }.

Definition opaque_option (s option argument : str) (p : OpaqueParse) : result OpaqueParse :=
  let opaque := lit "opaque" in
  let '(MkOpaqueParse (MkOpaque type enc bytes) topt vopt) := p in
  let c := at_ option 1 in
  if ceq c "t" then
    if (length argument =? 0)%nat then Throw (no_argument opaque s option)
    else
      match istream_int_eof argument with
      | None => Throw (endpoint_error opaque s (lit "invalid type value `" ++ argument ++ lit "' in endpoint "))
      | Some t =>
          if (t <? 0) || (65535 <? t)
          then Throw (endpoint_error opaque s (lit "type value `" ++ argument ++ lit "' out of range in endpoint "))
          else if (1 <? S topt)%nat then Throw (endpoint_error opaque s (lit "multiple -t options in endpoint "))
          else Ok (MkOpaqueParse (MkOpaque (to_signed 16 t) enc bytes) (S topt) vopt)
      end
  else if ceq c "v" then
    if (length argument =? 0)%nat then Throw (no_argument opaque s option)
    else
      match List.find (fun c => negb (Base64.isBase64 c)) argument with
      | Some c =>
          Throw (endpoint_error opaque s
            (lit "invalid base64 character `" ++ [c] ++ lit "' (ordinal " ++ show_int (to_signed 8 (ord c)) ++ lit ") in endpoint "))
      | None =>
          if (1 <? S vopt)%nat then Throw (endpoint_error opaque s (lit "multiple -v options in endpoint "))
          else Ok (MkOpaqueParse (MkOpaque type enc (Base64.decode argument)) topt (S vopt))
      end
  else if ceq c "e" then
    if (length argument =? 0)%nat then Throw (no_argument opaque s option)
    else
      match stringToVersion argument with
      | Throw (VersionParseException why) =>
          Throw (EndpointParseException
            (lit "invalid encoding version `" ++ argument ++ lit "' in endpoint `opaque " ++ s ++ lit "':" ++ [chr 10] ++ why))
      | Throw ex => Throw ex
      | Fault f => Fault f
      | Ok enc => Ok (MkOpaqueParse (MkOpaque type enc bytes) topt vopt)
      end
  else Throw (endpoint_error opaque s (lit "invalid option `" ++ option ++ lit "' in endpoint ")).

(** [OpaqueEndpointI(str)] *)
Definition opaque_parse (s : str) : result OpaqueEndpoint :=
  let opaque := lit "opaque" in
  p ← option_loop (expected_option opaque s) (opaque_option s) (S (length s)) s 0
        (MkOpaqueParse (MkOpaque 0 Encoding_1_0 []) 0 0);
  if negb (topt p =? 1)%nat then Throw (endpoint_error opaque s (lit "no -t option in endpoint "))
  else if negb (vopt p =? 1)%nat then Throw (endpoint_error opaque s (lit "no -v option in endpoint "))
  else Ok (op_endpoint p).

Definition opaque_toString (e : OpaqueEndpoint) : str :=
  lit "opaque -t " ++ show_int (opaque_type e) ++ lit " -e " ++ versionToString (rawEncoding e) ++
  lit " -v " ++ Base64.encode (rawBytes e).

(** ** The methods of [EndpointI] *)

Definition endpoint_toString (e : EndpointI) : str :=
  match e with
  | TcpEndpointI e => tcp_toString (lit "tcp") e
  | SslEndpointI e => tcp_toString (lit "ssl") e
  | UdpEndpointI e => udp_toString e
  | OpaqueEndpointI e => opaque_toString e
  end.

Definition endpoint_type (e : EndpointI) : Z :=
  match e with
  | TcpEndpointI _ => TCPEndpointType
  | SslEndpointI _ => SSLEndpointType
  | UdpEndpointI _ => UDPEndpointType
  | OpaqueEndpointI e => opaque_type e
  end.

Definition endpoint_timeout (e : EndpointI) : Z :=
  match e with TcpEndpointI e | SslEndpointI e => tcp_timeout e | _ => -1 end.

Definition change_timeout (timeout : Z) (e : EndpointI) : EndpointI :=
  let change e := MkTcp (tcp_host e) (tcp_port e) timeout (tcp_connectionId e) (tcp_compress e) in
  match e with
  | TcpEndpointI e => TcpEndpointI (change e)
  | SslEndpointI e => SslEndpointI (change e)
  | e => e
  end.

Definition endpoint_connectionId (e : EndpointI) : str :=
  match e with
  | TcpEndpointI e | SslEndpointI e => tcp_connectionId e
  | UdpEndpointI e => udp_connectionId e
  | OpaqueEndpointI _ => []
  end.

Definition change_connectionId (connectionId : str) (e : EndpointI) : EndpointI :=
  let change e := MkTcp (tcp_host e) (tcp_port e) (tcp_timeout e) connectionId (tcp_compress e) in
  match e with
  | TcpEndpointI e => TcpEndpointI (change e)
  | SslEndpointI e => SslEndpointI (change e)
  | UdpEndpointI e =>
      UdpEndpointI (MkUdp (udp_host e) (udp_port e) (mcastInterface e) (mcastTtl e) (udp_connect e) connectionId
        (udp_compress e))
  | e => e
  end.

Definition endpoint_compress (e : EndpointI) : bool :=
  match e with
  | TcpEndpointI e | SslEndpointI e => tcp_compress e
  | UdpEndpointI e => udp_compress e
  | OpaqueEndpointI _ => false
  end.

Definition change_compress (compress : bool) (e : EndpointI) : EndpointI :=
  let change e := MkTcp (tcp_host e) (tcp_port e) (tcp_timeout e) (tcp_connectionId e) compress in
  match e with
  | TcpEndpointI e => TcpEndpointI (change e)
  | SslEndpointI e => SslEndpointI (change e)
  | UdpEndpointI e =>
      UdpEndpointI (MkUdp (udp_host e) (udp_port e) (mcastInterface e) (mcastTtl e) (udp_connect e)
        (udp_connectionId e) compress)
  | e => e
  end.

Definition datagram (e : EndpointI) : bool := match e with UdpEndpointI _ => true | _ => false end.
Definition secure (e : EndpointI) : bool := match e with SslEndpointI _ => true | _ => false end.
Definition is_opaque (e : EndpointI) : bool := match e with OpaqueEndpointI _ => true | _ => false end.

(** [equivalent]: the same kind of endpoint, at the same host and port *)
Definition equivalent (e e' : EndpointI) : bool :=
  match e, e' with
  | TcpEndpointI e, TcpEndpointI e' | SslEndpointI e, SslEndpointI e' =>
      str_eqb (tcp_host e') (tcp_host e) && (tcp_port e' =? tcp_port e)
  | UdpEndpointI e, UdpEndpointI e' =>
      str_eqb (udp_host e') (udp_host e) && (udp_port e' =? udp_port e)
  | _, _ => false
  end.

(** ** Comparison *)

(** The pattern of the comparison operators: the next member decides between
    objects that agree on this one. *)
Definition before {A} (lt : A -> A -> bool) (x y : A) (rest : bool) : bool :=
  if lt x y then true else if lt y x then false else rest.

Definition bool_ltb (x y : bool) : bool := negb x && y.

(** The generated operators of the struct [EncodingVersion] *)
Definition version_ltb (v w : EncodingVersion) : bool :=
  before Z.ltb (ord (major v)) (ord (major w)) (before Z.ltb (ord (minor v)) (ord (minor w)) false).

Definition tcp_eqb (e e' : TcpEndpoint) : bool :=
  if negb (str_eqb (tcp_host e) (tcp_host e')) then false
  else if negb (tcp_port e =? tcp_port e') then false
  else if negb (tcp_timeout e =? tcp_timeout e') then false
  else if negb (str_eqb (tcp_connectionId e) (tcp_connectionId e')) then false
  else if negb (Bool.eqb (tcp_compress e) (tcp_compress e')) then false
  else true.

Definition tcp_ltb (e e' : TcpEndpoint) : bool :=
  before str_ltb (tcp_host e) (tcp_host e')
  (before Z.ltb (tcp_port e) (tcp_port e')
  (before Z.ltb (tcp_timeout e) (tcp_timeout e')
  (before str_ltb (tcp_connectionId e) (tcp_connectionId e')
  (before bool_ltb (tcp_compress e) (tcp_compress e') false)))).

Definition udp_eqb (e e' : UdpEndpoint) : bool :=
  if negb (str_eqb (udp_host e) (udp_host e')) then false
  else if negb (udp_port e =? udp_port e') then false
  else if negb (Bool.eqb (udp_compress e) (udp_compress e')) then false
  else if negb (str_eqb (udp_connectionId e) (udp_connectionId e')) then false
  else if negb (Bool.eqb (udp_connect e) (udp_connect e')) then false
  else if negb (mcastTtl e =? mcastTtl e') then false
  else if negb (str_eqb (mcastInterface e) (mcastInterface e')) then false
  else true.

Definition udp_ltb (e e' : UdpEndpoint) : bool :=
  before str_ltb (udp_host e) (udp_host e')
  (before Z.ltb (udp_port e) (udp_port e')
  (before str_ltb (udp_connectionId e) (udp_connectionId e')
  (before bool_ltb (udp_compress e) (udp_compress e')
  (before bool_ltb (udp_connect e) (udp_connect e')
  (before Z.ltb (mcastTtl e) (mcastTtl e')
  (before str_ltb (mcastInterface e) (mcastInterface e') false)))))).

Definition opaque_eqb (e e' : OpaqueEndpoint) : bool :=
  if negb (opaque_type e =? opaque_type e') then false
  else if negb (encoding_eqb (rawEncoding e) (rawEncoding e')) then false
  else if negb (str_eqb (rawBytes e) (rawBytes e')) then false
  else true.

Definition opaque_ltb (e e' : OpaqueEndpoint) : bool :=
  before Z.ltb (opaque_type e) (opaque_type e')
  (before version_ltb (rawEncoding e) (rawEncoding e')
  (before str_ltb (rawBytes e) (rawBytes e') false)).

Definition endpoint_eqb (e e' : EndpointI) : bool :=
  match e, e' with
  | TcpEndpointI e, TcpEndpointI e' | SslEndpointI e, SslEndpointI e' => tcp_eqb e e'
  | UdpEndpointI e, UdpEndpointI e' => udp_eqb e e'
  | OpaqueEndpointI e, OpaqueEndpointI e' => opaque_eqb e e'
  | _, _ => false
  end.

(** Endpoints of different classes are ordered by their types. *)
Definition endpoint_ltb (e e' : EndpointI) : bool :=
  match e, e' with
  | TcpEndpointI e, TcpEndpointI e' | SslEndpointI e, SslEndpointI e' => tcp_ltb e e'
  | UdpEndpointI e, UdpEndpointI e' => udp_ltb e e'
  | OpaqueEndpointI e, OpaqueEndpointI e' => opaque_ltb e e'
  | e, e' => endpoint_type e <? endpoint_type e'
  end.

(** ** Hash values (cpp/src/Ice/HashUtil.h) *)

Definition hashAdd_Int (h value : Z) : Z :=
  to_i32 (Z.lxor (to_unsigned 32 (to_i32 (h * 32 + h))) (to_unsigned 32 (2654435761 * value))).
Definition hashAdd_bool (h : Z) (value : bool) : Z :=
  to_i32 (Z.lxor (to_i32 (h * 32 + h)) (if value then 1 else 0)).
Definition hashAdd_string (h : Z) (value : str) : Z :=
  fold_left (fun h c => to_i32 (Z.lxor (to_i32 (h * 32 + h)) (to_signed 8 (ord c)))) value h.

Definition tcp_hash (type : Z) (e : TcpEndpoint) : Z :=
  let h := hashAdd_string (hashAdd_Int 5381 type) (tcp_host e) in
  let h := hashAdd_Int (hashAdd_Int h (tcp_port e)) (tcp_timeout e) in
  hashAdd_bool (hashAdd_string h (tcp_connectionId e)) (tcp_compress e).

Definition udp_hash (e : UdpEndpoint) : Z :=
  let h := hashAdd_string (hashAdd_Int 5381 UDPEndpointType) (udp_host e) in
  let h := hashAdd_string (hashAdd_Int h (udp_port e)) (mcastInterface e) in
  let h := hashAdd_bool (hashAdd_Int h (mcastTtl e)) (udp_connect e) in
  hashAdd_bool (hashAdd_string h (udp_connectionId e)) (udp_compress e).

Definition opaque_hash (e : OpaqueEndpoint) : Z :=
  let h := hashAdd_Int (hashAdd_Int 5381 (opaque_type e)) (ord (major (rawEncoding e))) in
  fold_left (fun h c => hashAdd_Int h (ord c)) (rawBytes e) (hashAdd_Int h (ord (minor (rawEncoding e)))).

(** [hashInit] *)
Definition endpoint_hash (e : EndpointI) : Z :=
  match e with
  | TcpEndpointI e => tcp_hash TCPEndpointType e
  | SslEndpointI e => tcp_hash SSLEndpointType e
  | UdpEndpointI e => udp_hash e
  | OpaqueEndpointI e => opaque_hash e
  end.

(** ** On the wire *)

Section wire.
Context `{PL : Platform} {D E : Type} `{CO : Coders D E} {OC : ObjectDecoding (BasicStream D E)}.
Local Abbreviation stream := (BasicStream D E).

Definition tcp_streamWrite (type : Z) (e : TcpEndpoint) : M stream unit :=
  write_Short type;;
  startWriteEncaps_default;;
  write_string (tcp_host e) false;;
  write_Int (tcp_port e);;
  write_Int (tcp_timeout e);;
  write_Bool (tcp_compress e);;
  endWriteEncaps.

Definition udp_streamWrite (e : UdpEndpoint) : M stream unit :=
  write_Short UDPEndpointType;;
  startWriteEncaps_default;;
  write_string (udp_host e) false;;
  write_Int (udp_port e);;
  enc ← getWriteEncoding;
  (if encoding_eqb enc Encoding_1_0 then
     write_EncodingVersion currentProtocol;; write_EncodingVersion Encoding_1_0
   else mret tt);;
  write_Bool (udp_compress e);;
  endWriteEncaps.

Definition opaque_streamWrite (e : OpaqueEndpoint) : M stream unit :=
  write_Short (opaque_type e);;
  startWriteEncaps (rawEncoding e) DefaultFormat;;
  writeBlob (rawBytes e);;
  endWriteEncaps.

Definition endpoint_streamWrite (e : EndpointI) : M stream unit :=
  match e with
  | TcpEndpointI e => tcp_streamWrite TCPEndpointType e
  | SslEndpointI e => tcp_streamWrite SSLEndpointType e
  | UdpEndpointI e => udp_streamWrite e
  | OpaqueEndpointI e => opaque_streamWrite e
  end.

(** [TcpEndpointI(s)]. The fuel is for the optional values that may stand at
    the end of the encapsulation. *)
Definition tcp_read (fuel : nat) : M stream TcpEndpoint :=
  startReadEncaps;;
  host ← read_string false;
  port ← read_Int;
  timeout ← read_Int;
  compress ← read_Bool;
  endReadEncaps fuel;;
  mret (MkTcp host port timeout [] compress).

Definition udp_read (fuel : nat) : M stream UdpEndpoint :=
  startReadEncaps;;
  host ← read_string false;
  port ← read_Int;
  enc ← getReadEncoding;
  (if encoding_eqb enc Encoding_1_0 then read_Byte;; read_Byte;; read_Byte;; read_Byte;; mret tt else mret tt);;
  compress ← read_Bool;
  endReadEncaps fuel;;
  mret (MkUdp host port [] (-1) false [] compress).

Definition opaque_read (fuel : nat) (type : Z) : M stream OpaqueEndpoint :=
  enc ← startReadEncaps;
  sz ← getReadEncapsSize;
  bytes ← readBlob sz;
  endReadEncaps fuel;;
  mret (MkOpaque type enc bytes).

(** ** The factories and their manager *)

Definition factory_type (f : EndpointFactory) : Z :=
  match f with
  | TcpEndpointFactory => TCPEndpointType
  | SslEndpointFactory => SSLEndpointType
  | UdpEndpointFactory => UDPEndpointType
  end.

Definition factory_protocol (f : EndpointFactory) : str :=
  match f with
  | TcpEndpointFactory => lit "tcp"
  | SslEndpointFactory => lit "ssl"
  | UdpEndpointFactory => lit "udp"
  end.

Definition factory_create `{EndpointDefaults} (f : EndpointFactory) (s : str) (oaEndpoint : bool) : result EndpointI :=
  match f with
  | TcpEndpointFactory => e ← tcp_parse (lit "tcp") s oaEndpoint; Ok (TcpEndpointI e)
  | SslEndpointFactory => e ← tcp_parse (lit "ssl") s oaEndpoint; Ok (SslEndpointI e)
  | UdpEndpointFactory => e ← udp_parse s oaEndpoint; Ok (UdpEndpointI e)
  end.

Definition factory_read (fuel : nat) (f : EndpointFactory) : M stream EndpointI :=
  match f with
  | TcpEndpointFactory => e ← tcp_read fuel; mret (TcpEndpointI e)
  | SslEndpointFactory => e ← tcp_read fuel; mret (SslEndpointI e)
  | UdpEndpointFactory => e ← udp_read fuel; mret (UdpEndpointI e)
  end.

(** [EndpointFactoryManager::add] *)
Definition add_factory (f : EndpointFactory) (factories : list EndpointFactory) : result (list EndpointFactory) :=
  if existsb (fun g => factory_type g =? factory_type f) factories then Fault AssertionFailure
  else Ok (factories ++ [f]).

(** [EndpointFactoryManager::get] *)
Definition get_factory (type : Z) (factories : list EndpointFactory) : option EndpointFactory :=
  List.find (fun f => factory_type f =? type) factories.

(** The last factory of a protocol: the loop does not stop at the first one. *)
Definition factory_of (protocol : str) (factories : list EndpointFactory) : option EndpointFactory :=
  List.find (fun f => str_eqb (factory_protocol f) protocol) (reverse factories).

(** [EndpointFactoryManager::create]. [temporary] is the stream it makes for
    an opaque endpoint. *)
Definition endpoint_create `{EndpointDefaults} (fuel : nat) (temporary : stream) (factories : list EndpointFactory)
    (s : str) (oaEndpoint : bool) : result (option EndpointI) :=
  match find_first_not_of delim 0 s with
  | None => Throw (EndpointParseException (lit "value has no non-whitespace characters"))
  | Some beg =>
      let end_ := find_end delim beg s in
      let protocol := substr beg (end_ - beg) s in
      let protocol := if str_eqb protocol (lit "default") then defaultProtocol else protocol in
      match factory_of protocol factories with
      | Some f => e ← factory_create f (drop end_ s) oaEndpoint; Ok (Some e)
      | None =>
          if str_eqb protocol (lit "opaque") then
            ue ← opaque_parse (drop end_ s);
            match get_factory (opaque_type ue) factories with
            | Some f =>
                fst ((opaque_streamWrite ue;;
                      modify (set_i 0);;
                      read_Short;;
                      e ← factory_read fuel f; mret (Some e)) temporary)
            | None => Ok (Some (OpaqueEndpointI ue))
            end
          else Ok None
      end
  end.

(** [EndpointFactoryManager::read] *)
Definition endpoint_read (fuel : nat) (factories : list EndpointFactory) : M stream EndpointI :=
  type ← read_Short;
  match get_factory type factories with
  | Some f => factory_read fuel f
  | None => e ← opaque_read fuel type; mret (OpaqueEndpointI e)
  end.
End wire.
