(* ===== verification/EndpointText.v ===== *)
(** * The text of an endpoint

    The option loops of the endpoint parsers work on positions of the text.
    They compute what a parser of the list of its words computes; so the text
    of an endpoint is parsed back to the endpoint. *)

From S2P Require Import Prelude CxxString Layout Protocol Stream Encaps StreamString StringUtil StringUtilSpec Base64.
From S2P Require Import OrderedMap StreamHelpers Endpoint.

(** ** Words *)

Definition is_delim (c : ascii) : bool := mem_char c delim.
Arguments is_delim : simpl never.

(** The words of a text: what stands between delimiters *)
Fixpoint words (l : str) : list str :=
  match l with
  | [] => []
  | c :: l' =>
      if is_delim c then words l'
      else
        let ws := words l' in
        match l' with
        | [] => [[c]]
        | d :: _ =>
            if is_delim d then [c] :: ws
            else match ws with w :: ws => (c :: w) :: ws | [] => [[c]] end
        end
  end.

Definition no_delims (l : str) : Prop := Forall (fun c => is_delim c = false) l.
Definition a_word (w : str) : Prop := w <> [] /\ no_delims w.

(** [l] is empty or starts with a delimiter. *)
Definition at_break (l : str) : Prop := match l with [] => True | c :: _ => is_delim c = true end.

Lemma words_delims d l : Forall (fun c => is_delim c = true) d -> words (d ++ l) = words l.
Proof. induction 1 as [|c d Hc _ IH]; [done|]. cbn [app words]. by rewrite Hc. Qed.

Lemma words_word w l : a_word w -> at_break l -> words (w ++ l) = w :: words l.
Proof.
  intros [Hne Hw] Hl. induction Hw as [|c w Hc Hw IH]; [done|]. cbn [app words]. rewrite Hc.
  destruct w as [|d w].
  - cbn [app]. destruct l as [|e l]; [done|]. cbn in Hl. by rewrite Hl.
  - rewrite (IH ltac:(done)). cbn [app]. apply Forall_cons in Hw as [-> _]. done.
Qed.

(** The words, each behind a space *)
Definition spaced (ws : list str) : str := ws ≫= fun w => chr 32 :: w.

Lemma spaced_app ws vs : spaced (ws ++ vs) = spaced ws ++ spaced vs.
Proof. apply bind_app. Qed.

Lemma words_spaced ws : Forall a_word ws -> words (spaced ws) = ws.
Proof.
  induction 1 as [|w ws Hw Hws IH]; [done|]. change (spaced (w :: ws)) with ((chr 32 :: w) ++ spaced ws).
  cbn [app words]. change (is_delim (chr 32)) with true. cbv iota.
  rewrite words_word; [by rewrite IH|done|]. by destruct ws.
Qed.

(** ** Searches for words *)

Lemma find_if_from_Some P pos s k : find_if_from P pos s = Some k ->
  (pos <= k < length s)%nat /\ P (at_ s k) = true /\
  exists l, drop pos s = l ++ drop k s /\ Forall (fun c => P c = false) l /\ length l = (k - pos)%nat.
Proof.
  unfold find_if_from. intros (j & Hj & ->)%fmap_Some. apply find_if_Some in Hj as (c & Hc & HP & Hall).
  rewrite lookup_drop in Hc. pose proof (lookup_lt_Some _ _ _ Hc).
  split; [lia|]. split; [by unfold at_; rewrite (list_lookup_total_correct _ _ _ Hc)|].
  exists (take j (drop pos s)). split; [by rewrite <- drop_drop, take_drop|]. split; [done|].
  rewrite length_take, length_drop. lia.
Qed.

Lemma find_if_from_None P pos s : find_if_from P pos s = None -> Forall (fun c => P c = false) (drop pos s).
Proof. unfold find_if_from. intros H%fmap_None. by apply find_if_None. Qed.

Lemma not_negb b : negb b = false -> b = true.
Proof. by destruct b. Qed.

Lemma no_word pos s : find_first_not_of delim pos s = None -> words (drop pos s) = [].
Proof.
  intros H%find_if_from_None. rewrite <- (app_nil_r (drop pos s)). apply words_delims.
  eapply Forall_impl; [exact H|]. intros c. apply not_negb.
Qed.

Lemma substr_at s beg e l : drop beg s = l ++ drop e s -> length l = (e - beg)%nat -> substr beg (e - beg) s = l.
Proof. intros H Hl. unfold substr. rewrite H. by apply take_app_length'. Qed.

(** The next word of [s] behind [pos], from [beg] to [find_end delim beg s] *)
Lemma next_word pos s beg : find_first_not_of delim pos s = Some beg ->
  let e := find_end delim beg s in let w := substr beg (e - beg) s in
  words (drop pos s) = w :: words (drop e s) /\ a_word w /\ at_ w 0 = at_ s beg /\ (pos <= beg < e)%nat /\ (e <= length s)%nat.
Proof.
  intros H e w. destruct (find_if_from_Some _ _ _ _ H) as (Hb & Hc & l & Hl & Hd & _).
  apply negb_true_iff in Hc.
  assert (exists l2, drop beg s = l2 ++ drop e s /\ no_delims l2 /\ length l2 = (e - beg)%nat /\
    at_break (drop e s) /\ (beg <= e <= length s)%nat) as (l2 & H2 & Hn2 & Hl2 & Hbr & He).
  { unfold e, find_end. destruct (find_first_of delim beg s) as [k|] eqn:F; cbn [default from_option].
    - destruct (find_if_from_Some _ _ _ _ F) as (Hk & Hck & l2 & H2 & Hd2 & Hlen2). exists l2.
      do 3 (split; [done|]). unfold id. split; [|lia]. rewrite (drop_at s k) by lia. exact Hck.
    - exists (drop beg s). rewrite drop_all, app_nil_r, length_drop. split; [done|].
      split; [by apply find_if_from_None|]. split; [done|]. split; [done|lia]. }
  assert (w = l2) as -> by (by apply substr_at).
  assert (l2 <> []) as Hne.
  { intros ->. cbn in H2. rewrite <- H2, (drop_at s beg) in Hbr by lia. cbn in Hbr. unfold is_delim in Hbr. congruence. }
  assert (a_word l2) as Hw by done. split; [|split; [done|]].
  - rewrite Hl, words_delims by (eapply Forall_impl; [exact Hd|]; intros c; apply not_negb).
    rewrite H2. by apply words_word.
  - split.
    + destruct l2 as [|c l2]; [done|]. rewrite (drop_at s beg) in H2 by lia. injection H2 as -> _. done.
    + destruct l2; [done|]. cbn in Hl2. lia.
Qed.

(** ** The loop over the options *)

(** An argument does not start with a minus sign. *)
Definition dashed (w : str) : bool := ceq (at_ w 0) "-".

Section options.
Context {T : Type} (malformed : str -> exn) (parse : str -> str -> T -> result T).

(** The parser of a list of words *)
Fixpoint parse_words (ws : list str) (e : T) : result T :=
  match ws with
  | [] => Ok e
  | option :: ws' =>
      if negb (length option =? 2)%nat || negb (dashed option) then Throw (malformed option)
      else
        match ws' with
        | argument :: ws'' =>
            if dashed argument then e ← parse option [] e; parse_words ws' e
            else e ← parse option argument e; parse_words ws'' e
        | [] => e ← parse option [] e; parse_words ws' e
        end
  end.

Lemma endpoint_argument_words s e : (e <= length s)%nat ->
  let '(argument, e') := endpoint_argument s e in
  (e <= e' <= length s)%nat /\
  match words (drop e s) with
  | w :: ws => if dashed w then argument = [] /\ e' = e else argument = w /\ words (drop e' s) = ws
  | [] => argument = [] /\ e' = e
  end.
Proof.
  intros He. unfold endpoint_argument.
  destruct (find_first_not_of delim e s) as [beg|] eqn:F; [|by rewrite no_word].
  destruct (next_word _ _ _ F) as (Hw & _ & Hat & H1 & H2). rewrite Hw. unfold dashed. rewrite Hat.
  destruct (ceq (at_ s beg) "-"); cbn [negb]; [done|]. split; [lia|done].
Qed.

Theorem option_loop_words fuel : forall s end_ e, (length s - end_ < fuel)%nat -> (end_ <= length s)%nat ->
  option_loop malformed parse fuel s end_ e = parse_words (words (drop end_ s)) e.
Proof.
  induction fuel as [|fuel IH]; intros s end_ e Hf He; [lia|]. cbn [option_loop].
  destruct (find_first_not_of delim end_ s) as [beg|] eqn:F; [|by rewrite no_word].
  destruct (next_word _ _ _ F) as (Hw & _ & _ & H1 & H2). rewrite Hw. cbn [parse_words].
  unfold dashed at 1. case_if; [done|].
  pose proof (endpoint_argument_words s _ H2) as Ha. destruct (endpoint_argument s _) as [argument e'].
  destruct Ha as [He' Ha].
  assert (forall e, option_loop malformed parse fuel s e' e = parse_words (words (drop e' s)) e) as IH'
    by (intros; apply IH; lia).
  destruct (words (drop (find_end delim beg s) s)) as [|w ws] eqn:Ew.
  - destruct Ha as [-> ->]. destruct (parse _ [] e); cbn; [|done|done]. by rewrite IH', Ew.
  - destruct (dashed w); destruct Ha as [-> Hr].
    + destruct (parse _ [] e); cbn; [|done|done]. by rewrite IH', Hr, Ew.
    + destruct (parse _ w e); cbn; [|done|done]. by rewrite IH', Hr.
Qed.
End options.

(** ** Words at known places *)

Lemma find_end_word s pos w rest : drop pos s = w ++ rest -> (pos <= length s)%nat -> no_delims w -> at_break rest ->
  find_end delim pos s = (pos + length w)%nat.
Proof.
  intros Hs Hpos Hw Hr. unfold find_end, find_first_of, find_if_from. rewrite Hs.
  assert (length s = pos + length w + length rest)%nat as Hl.
  { apply (f_equal length) in Hs. rewrite length_drop, length_app in Hs. lia. }
  destruct rest as [|c rest].
  - rewrite (proj2 (find_if_None _ _)); [cbn in *; lia|]. rewrite app_nil_r. exact Hw.
  - by rewrite find_if_app.
Qed.

(** A word behind a space at [pos] *)
Lemma spaced_word s pos w rest : drop pos s = chr 32 :: w ++ rest -> a_word w -> at_break rest ->
  find_first_not_of delim pos s = Some (S pos) /\ find_end delim (S pos) s = (S pos + length w)%nat /\
  substr (S pos) (length w) s = w /\ at_ s (S pos) = at_ w 0 /\ drop (S pos + length w) s = rest.
Proof.
  intros Hs [Hne Hw] Hr.
  assert (drop (S pos) s = w ++ rest) as Hs1 by (by rewrite <- Nat.add_1_r, <- drop_drop, Hs).
  assert (S pos <= length s)%nat as Hpos.
  { apply (f_equal length) in Hs. rewrite length_drop in Hs. cbn in Hs. lia. }
  split_and!.
  - unfold find_first_not_of, find_if_from. rewrite Hs. cbn [find_if].
    change (mem_char (chr 32) delim) with true. cbn [negb fmap option_fmap option_map].
    destruct w as [|c w]; [done|]. apply Forall_cons in Hw as [Hc _]. cbn [app find_if].
    unfold is_delim in Hc. rewrite Hc. cbn. f_equal. lia.
  - by apply find_end_word with rest.
  - unfold substr. rewrite Hs1. apply take_app_length.
  - destruct w as [|c w]; [done|]. apply (f_equal (fun l => l !!! 0%nat)) in Hs1.
    rewrite lookup_total_drop, Nat.add_0_r in Hs1. exact Hs1.
  - rewrite <- drop_drop, Hs1. apply drop_app_length.
Qed.

Lemma break_spaced ws : at_break (spaced ws).
Proof. by destruct ws. Qed.

(** ** The loop of the UDP parser *)

(** A quoted argument, without spaces, ends with its second quote. *)
Definition quotable (w : str) : Prop :=
  a_word w /\ (at_ w 0 = dquote -> exists h, w = dquote :: h ++ [dquote] /\ dquote ∉ h).

Fixpoint parse_udp_words (s : str) (ws : list str) (e : UdpEndpoint) : result UdpEndpoint :=
  match ws with
  | [] => Ok e
  | option :: ws' =>
      if negb (dashed option) then Throw (expected_option (lit "udp") s option)
      else
        match ws' with
        | argument :: ws'' =>
            if dashed argument then e ← udp_option s option [] e; parse_udp_words s ws' e
            else e ← udp_option s option (unquoted argument) e; parse_udp_words s ws'' e
        | [] => e ← udp_option s option [] e; parse_udp_words s ws' e
        end
  end.

Lemma find_dquote s pos h rest : drop pos s = h ++ dquote :: rest -> dquote ∉ h ->
  find_first_of [dquote] pos s = Some (pos + length h)%nat.
Proof.
  intros Hs Hh. unfold find_first_of, find_if_from. rewrite Hs, find_if_app; [done| |done].
  apply Forall_forall. intros c Hc. apply mem_char_false. set_solver.
Qed.

Lemma udp_argument_word s pos w rest : drop pos s = chr 32 :: w ++ rest -> quotable w -> at_break rest ->
  udp_argument s pos = if dashed w then Ok ([], pos) else Ok (unquoted w, (S pos + length w)%nat).
Proof.
  intros Hs [Hw Hq] Hr. destruct (spaced_word _ _ _ _ Hs Hw Hr) as (F & He & Hsub & Hat & Hd).
  unfold udp_argument. rewrite F. unfold dashed. rewrite Hat.
  destruct (ceq (at_ w 0) "-"); cbn [negb]; [done|]. destruct (ceq (at_ w 0) dquote) eqn:Ed.
  - apply ceq_true in Ed. destruct (Hq Ed) as (h & -> & Hh).
    assert (drop (S pos + 1) s = h ++ dquote :: rest) as Hs2.
    { replace (S pos + 1)%nat with (pos + 2)%nat by lia. rewrite <- drop_drop, Hs.
      change (drop 2 (chr 32 :: (dquote :: h ++ [dquote]) ++ rest)) with ((h ++ [dquote]) ++ rest).
      by rewrite <- app_assoc. }
    rewrite (find_dquote _ _ _ _ Hs2 Hh). cbn [mbind result_bind].
    assert (S (S pos + 1 + length h) = S pos + length (dquote :: h ++ [dquote]))%nat as ->
      by (cbn [length]; rewrite length_app; cbn; lia).
    replace (S pos + length (dquote :: h ++ [dquote]) - S pos)%nat with (length (dquote :: h ++ [dquote])) by lia.
    by rewrite Hsub.
  - cbn [mbind result_bind]. rewrite He.
    replace (S pos + length w - S pos)%nat with (length w) by lia. by rewrite Hsub.
Qed.

Lemma udp_loop_words s fuel : forall ws pos e, Forall quotable ws -> (length ws < fuel)%nat ->
  drop pos s = spaced ws -> udp_loop fuel s pos e = parse_udp_words s ws e.
Proof.
  induction fuel as [|fuel IH]; intros ws pos e Hws Hf Hs; [lia|]. cbn [udp_loop].
  destruct ws as [|option ws].
  { unfold find_first_not_of, find_if_from. by rewrite Hs. }
  apply Forall_cons in Hws as [Ho Hws]. cbn [length] in Hf. change (spaced (option :: ws)) with (chr 32 :: option ++ spaced ws) in Hs.
  destruct (spaced_word _ _ _ _ Hs (proj1 Ho) (break_spaced ws)) as (F & He & Hsub & Hat & Hd).
  rewrite F, He. replace (S pos + length option - S pos)%nat with (length option) by lia. rewrite Hsub.
  cbn [parse_udp_words]. change (ceq (at_ option 0) "-") with (dashed option). case_if; [done|].
  destruct ws as [|argument ws].
  - assert (udp_argument s (S pos + length option) = Ok ([], (S pos + length option)%nat)) as ->.
    { unfold udp_argument, find_first_not_of, find_if_from. by rewrite Hd. }
    cbn [mbind result_bind fst snd]. destruct (udp_option s option [] e); [|done|done].
    cbn [mbind result_bind]. apply (IH []); [done|cbn in *; lia|done].
  - pose proof Hws as [Ha Hws']%Forall_cons. cbn [length] in Hf.
    change (spaced (argument :: ws)) with (chr 32 :: argument ++ spaced ws) in Hd.
    rewrite (udp_argument_word _ _ _ _ Hd Ha (break_spaced ws)).
    destruct (spaced_word _ _ _ _ Hd (proj1 Ha) (break_spaced ws)) as (_ & _ & _ & _ & Hd').
    destruct (dashed argument); cbn [mbind result_bind fst snd].
    + destruct (udp_option s option [] e); [|done|done]. cbn [mbind result_bind]. apply IH; [done|cbn; lia|done].
    + destruct (udp_option s option _ e); [|done|done]. cbn [mbind result_bind]. apply IH; [done|lia|done].
Qed.

(** Splits a claim about all the words of a list that is built by [::] and [++]. *)
Ltac word_list := repeat first [apply Forall_nil_2 | apply Forall_cons_2 | apply Forall_app_2].

(** ** Endpoints whose text is parsed back *)

(** A host that can stand in the text of an endpoint *)
Definition hostname (h : str) : Prop :=
  a_word h /\ h <> lit "*" /\ dashed h = false /\ dquote ∉ h.

Definition int_text (z : Z) : Prop := z = -1 \/ 0 <= z < 2 ^ 31.

Section text.
Context `{ED : EndpointDefaults}.

(** The empty host is printed as no host, which stands for the default. *)
Definition host_printable (h : str) : Prop := h = [] /\ defaultHost = [] \/ hostname h.

Definition tcp_printable (e : TcpEndpoint) : Prop :=
  host_printable (tcp_host e) /\ 0 <= tcp_port e <= 65535 /\ int_text (tcp_timeout e) /\ tcp_connectionId e = [].

Definition udp_printable (e : UdpEndpoint) : Prop :=
  host_printable (udp_host e) /\ 0 <= udp_port e <= 65535 /\
  (mcastInterface e = [] \/ hostname (mcastInterface e)) /\ int_text (mcastTtl e) /\ udp_connectionId e = [].

(** The type is in the range of [Short] that has no sign, and the bytes fit in
    one line of Base64. *)
Definition opaque_printable (e : OpaqueEndpoint) : Prop :=
  0 <= opaque_type e < 2 ^ 15 /\ 1 <= ord (major (rawEncoding e)) /\ (1 <= length (rawBytes e) <= 57)%nat.

(** *** The pieces of a text *)

Definition quoted_host (h : str) : str :=
  if bool_decide (is_Some (find_char ":" 0 h)) then dquote :: h ++ [dquote] else h.

Definition host_words (h : str) : list str := match h with [] => [] | _ => [lit "-h"; quoted_host h] end.

Lemma host_text_words h : host_text h = spaced (host_words h).
Proof.
  unfold host_text, host_words, quoted_host. destruct h as [|c h]; [done|].
  change (length (c :: h) =? 0)%nat with false. cbv iota.
  case_bool_decide; cbn [spaced mbind list_bind]; unfold spaced; cbn; by rewrite ?app_nil_r, <- ?app_assoc.
Qed.

Lemma dquote_word : is_delim dquote = false.
Proof. done. Qed.

Lemma quoted_host_ok h : hostname h ->
  quotable (quoted_host h) /\ dashed (quoted_host h) = false /\ unquoted (quoted_host h) = h.
Proof.
  intros ([Hne Hw] & _ & Hd & Hq). unfold quoted_host. case_bool_decide.
  - split; [split; [split|]|split].
    + done.
    + constructor; [done|]. apply Forall_app. split; [done|by constructor].
    + intros _. by exists h.
    + done.
    + unfold unquoted. change (at_ (dquote :: h ++ [dquote]) 0) with dquote.
      assert (at_ (dquote :: h ++ [dquote]) (length (dquote :: h ++ [dquote]) - 1) = dquote) as ->.
      { cbn [length]. rewrite length_app. unfold at_.
        replace (S (length h + length [dquote]) - 1)%nat with (S (length h)) by (cbn; lia).
        rewrite lookup_total_cons_ne_0 by done. cbn [pred]. by rewrite list_lookup_total_middle. }
      change (ceq dquote dquote) with true. cbn [andb length]. rewrite length_app.
      replace (S (length h + length [dquote]) - 2)%nat with (length h) by (cbn; lia).
      unfold substr. cbn [drop]. apply take_app_length.
  - assert (at_ h 0 <> dquote) as Hat.
    { intros E. apply Hq. destruct h; [done|]. cbn in E. subst. left. }
    split; [split; [done|by intros]|]. split; [done|]. unfold unquoted.
    by rewrite (proj2 (ceq_false _ _) Hat).
Qed.

Lemma show_int_word z : a_word (show_int z) /\ at_ (show_int z) 0 <> dquote /\ at_ (show_int z) 0 <> squote.
Proof.
  destruct (show_int_digits z) as (ds & Hd & Hne & ->).
  assert (forall c, isdigit c = true -> is_delim c = false /\ c <> dquote /\ c <> squote) as Hc.
  { intros c E. pose proof (forall_byte (fun c => negb (isdigit c) || (negb (is_delim c) && negb (ceq c dquote) &&
      negb (ceq c squote))) ltac:(by vm_compute) c) as H. cbv beta in H. rewrite E in H. cbn [negb orb] in H.
    bool_to_prop. done. }
  assert (no_delims ds) as Hn by (eapply Forall_impl; [exact Hd|]; intros c E; by apply Hc).
  destruct (z <? 0); cbn [app].
  - split; [split; [done|by constructor]|done].
  - split; [done|]. destruct ds as [|d ds]; [done|]. apply Forall_cons in Hd as [Hd _]. cbn. by apply Hc.
Qed.

Lemma show_int_dashed z : dashed (show_int z) = (z <? 0).
Proof.
  destruct (show_int_digits z) as (ds & Hd & Hne & ->). destruct (z <? 0); [done|]. cbn [app].
  destruct ds as [|d ds]; [done|]. apply Forall_cons in Hd as [Hd _]. unfold dashed. cbn.
  by apply digit_not_space.
Qed.

Lemma unquoted_id w : at_ w 0 <> dquote -> unquoted w = w.
Proof. intros H. unfold unquoted. by rewrite (proj2 (ceq_false _ _) H). Qed.

Lemma nonempty_length {A} (l : list A) : l <> [] -> (length l =? 0)%nat = false.
Proof. by destruct l. Qed.

Lemma parse_port_show proto s p : 0 <= p <= 65535 -> parse_port proto s (show_int p) = Ok p.
Proof.
  intros H. unfold parse_port. rewrite istream_show_int by lia.
  by rewrite (proj2 (Z.ltb_ge p 0)), (proj2 (Z.ltb_ge 65535 p)) by lia.
Qed.

(** The words of an optional integer *)
Definition int_words (option : str) (z : Z) : list str := if z =? -1 then [] else [option; show_int z].

Lemma effective_host_ok proto s h oa : host_printable h -> effective_host proto s h oa = Ok h.
Proof.
  unfold effective_host. intros [[-> Hd]|([Hne _] & Hs & _)].
  - cbn. by rewrite Hd.
  - rewrite nonempty_length by done. by rewrite (proj2 (str_eqb_false _ _) Hs).
Qed.

Lemma tcp_words proto e : tcp_printable e ->
  tcp_toString proto e = proto ++ spaced (host_words (tcp_host e) ++ [lit "-p"; show_int (tcp_port e)] ++
    int_words (lit "-t") (tcp_timeout e) ++ if tcp_compress e then [lit "-z"] else []).
Proof.
  intros _. unfold tcp_toString, int_words. rewrite host_text_words, !spaced_app.
  destruct (tcp_timeout e =? -1), (tcp_compress e); cbn [spaced mbind list_bind]; unfold spaced; cbn;
    by rewrite ?app_nil_r, <- ?app_assoc.
Qed.

(** One option of [parse_words] *)
Lemma parse_flag {T} malformed (parse : str -> str -> T -> result T) o ws e e' :
  length o = 2%nat -> dashed o = true -> match ws with w :: _ => dashed w = true | [] => True end ->
  parse o [] e = Ok e' -> parse_words malformed parse (o :: ws) e = parse_words malformed parse ws e'.
Proof.
  intros Hl Hd Hw Hp. cbn [parse_words]. rewrite Hl, Hd. cbn [negb orb Nat.eqb].
  destruct ws as [|w ws]; [|rewrite Hw]; by rewrite Hp.
Qed.

Lemma parse_argument {T} malformed (parse : str -> str -> T -> result T) o a ws e e' :
  length o = 2%nat -> dashed o = true -> dashed a = false ->
  parse o a e = Ok e' -> parse_words malformed parse (o :: a :: ws) e = parse_words malformed parse ws e'.
Proof. intros Hl Hd Ha Hp. cbn [parse_words]. rewrite Hl, Hd, Ha. cbn [negb orb Nat.eqb]. by rewrite Hp. Qed.

Lemma int_text_range z : int_text z -> - 2 ^ 31 <= z < 2 ^ 31.
Proof. unfold int_text. lia. Qed.

Lemma tcp_parse_words proto s e : tcp_printable e ->
  parse_words (expected_option proto s) (tcp_option proto s)
    (host_words (tcp_host e) ++ [lit "-p"; show_int (tcp_port e)] ++ int_words (lit "-t") (tcp_timeout e) ++
      (if tcp_compress e then [lit "-z"] else [])) (MkTcp [] 0 (-1) [] false) = Ok e.
Proof.
  intros (Hh & Hp & Ht & Hc). destruct e as [h p t c z]. cbn [tcp_host tcp_port tcp_timeout tcp_connectionId tcp_compress] in *.
  subst c. destruct (show_int_word p) as ([Hp1 _] & Hp2 & _). destruct (show_int_word t) as ([Ht1 _] & Ht2 & _).
  transitivity (parse_words (expected_option proto s) (tcp_option proto s)
    ([lit "-p"; show_int p] ++ int_words (lit "-t") t ++ (if z then [lit "-z"] else [])) (MkTcp h 0 (-1) [] false)).
  { destruct Hh as [[-> _]|Hh]; [done|]. destruct (quoted_host_ok h Hh) as (_ & Hd & Hu).
    pose proof Hh as ([Hne _] & _). destruct h as [|x h]; [done|]. cbn [host_words app].
    apply parse_argument; [done|done|exact Hd|]. unfold tcp_option. rewrite Hu. by rewrite nonempty_length. }
  cbn [app]. erewrite parse_argument; [|done|done|rewrite show_int_dashed; apply Z.ltb_ge; lia|].
  2:{ unfold tcp_option. rewrite unquoted_id by done. cbn [at_]. rewrite nonempty_length by done.
      change (ceq (at_ (lit "-p") 1) "h") with false. change (ceq (at_ (lit "-p") 1) "p") with true. cbv iota.
      by rewrite parse_port_show. }
  cbn [tcp_host tcp_timeout tcp_connectionId tcp_compress].
  transitivity (parse_words (expected_option proto s) (tcp_option proto s) (if z then [lit "-z"] else []) (MkTcp h p t [] false)).
  { unfold int_words. destruct Ht as [->|Ht]; [done|]. rewrite (proj2 (Z.eqb_neq t (-1))) by lia. cbn [app].
    apply parse_argument; [done|done|rewrite show_int_dashed; apply Z.ltb_ge; lia|].
    unfold tcp_option. rewrite unquoted_id by done. rewrite nonempty_length by done.
    change (at_ (lit "-t") 1) with "t"%char. cbn [ceq]. 
    change (ceq "t" "h") with false. change (ceq "t" "p") with false. change (ceq "t" "t") with true. cbv iota.
    by rewrite istream_show_int by lia. }
  by destruct z.
Qed.

Lemma host_words_ok h : host_printable h -> Forall quotable (host_words h).
Proof.
  intros [[-> _]|Hh]; [constructor|]. pose proof Hh as ([Hne _] & _). destruct h; [done|].
  word_list; [by split; [split; [|repeat constructor]|]|by apply quoted_host_ok].
Qed.

Lemma quotable_words ws : Forall quotable ws -> Forall a_word ws.
Proof. intros H. eapply Forall_impl; [exact H|]. by intros w []. Qed.

Lemma int_word_quotable z : quotable (show_int z).
Proof. destruct (show_int_word z) as (Hw & Hq & _). by split. Qed.

Lemma int_words_ok o z : quotable o -> Forall quotable (int_words o z).
Proof. intros Ho. unfold int_words. case_if; word_list; [done|apply int_word_quotable]. Qed.

Lemma option_quotable (o : str) : forallb (fun c => negb (is_delim c)) o && negb (bool_decide (o = [])) &&
  negb (ceq (at_ o 0) dquote) = true -> quotable o.
Proof.
  intros H. bool_to_prop. split; [split|].
  - intros ->. done.
  - apply Forall_forall. intros c Hc. rewrite forallb_forall in H.
    by apply negb_true_iff, H, list_elem_of_In.
  - intros E. by destruct (H0 E).
Qed.

Lemma if_words_ok (c : bool) o : quotable o -> Forall quotable (if c then [o] else []).
Proof. intros H. destruct c; word_list. done. Qed.

(** *** TCP and SSL *)

Lemma tcp_text proto e oa : tcp_printable e ->
  exists ws, tcp_toString proto e = proto ++ spaced ws /\ tcp_parse proto (spaced ws) oa = Ok e.
Proof.
  intros H. pose proof H as (Hh & _ & _ & Hc). eexists. split; [by apply tcp_words|]. unfold tcp_parse.
  rewrite option_loop_words by lia. rewrite drop_0, words_spaced.
  - rewrite tcp_parse_words by done. cbn [mbind result_bind]. rewrite effective_host_ok by done. by destruct e.
  - apply quotable_words. word_list; by eauto using host_words_ok, int_word_quotable, int_words_ok, if_words_ok, option_quotable.
Qed.

(** *** UDP *)

Definition udp_word_list (e : UdpEndpoint) : list str :=
  host_words (udp_host e) ++ [lit "-p"; show_int (udp_port e)] ++
  (match mcastInterface e with [] => [] | m => [lit "--interface"; m] end) ++ int_words (lit "--ttl") (mcastTtl e) ++
  (if udp_connect e then [lit "-c"] else []) ++ (if udp_compress e then [lit "-z"] else []).

Lemma udp_words e : udp_toString e = lit "udp" ++ spaced (udp_word_list e).
Proof.
  unfold udp_toString, udp_word_list, int_words. rewrite host_text_words, !spaced_app.
  destruct (mcastInterface e), (mcastTtl e =? -1), (udp_connect e), (udp_compress e); unfold spaced; cbn;
    by rewrite ?app_nil_r, <- ?app_assoc.
Qed.

Lemma parse_udp_flag s o ws e e' : dashed o = true -> match ws with w :: _ => dashed w = true | [] => True end ->
  udp_option s o [] e = Ok e' -> parse_udp_words s (o :: ws) e = parse_udp_words s ws e'.
Proof.
  intros Hd Hw Hp. cbn [parse_udp_words]. rewrite Hd. cbn [negb].
  destruct ws as [|w ws]; [|rewrite Hw]; by rewrite Hp.
Qed.

Lemma parse_udp_argument s o a ws e e' : dashed o = true -> dashed a = false ->
  udp_option s o (unquoted a) e = Ok e' -> parse_udp_words s (o :: a :: ws) e = parse_udp_words s ws e'.
Proof. intros Hd Ha Hp. cbn [parse_udp_words]. rewrite Hd, Ha. cbn [negb]. by rewrite Hp. Qed.

Lemma hostname_at h : hostname h -> at_ h 0 <> dquote.
Proof. intros (_ & _ & _ & Hq) E. apply Hq. destruct h; [done|]. cbn in E. subst. left. Qed.

Lemma udp_parse_words s e : udp_printable e -> parse_udp_words s (udp_word_list e) (MkUdp [] 0 [] (-1) false [] false) = Ok e.
Proof.
  intros (Hh & Hp & Hm & Ht & Hc). destruct e as [h p m t c id z]. unfold udp_word_list.
  cbn [udp_host udp_port mcastInterface mcastTtl udp_connect udp_connectionId udp_compress] in *. subst id.
  destruct (show_int_word p) as ([Hp1 _] & Hp2 & _). destruct (show_int_word t) as ([Ht1 _] & Ht2 & _).
  set (rest := (if c then [lit "-c"] else []) ++ (if z then [lit "-z"] else [])).
  set (ttl := int_words (lit "--ttl") t ++ rest). set (mif := match m with [] => [] | _ => _ end).
  transitivity (parse_udp_words s ([lit "-p"; show_int p] ++ mif ++ ttl) (MkUdp h 0 [] (-1) false [] false)).
  { destruct Hh as [[-> _]|Hh]; [done|]. destruct (quoted_host_ok h Hh) as (_ & Hd & Hu).
    pose proof Hh as ([Hne _] & _). destruct h as [|x h]; [done|]. cbn [host_words app].
    apply parse_udp_argument; [done|exact Hd|]. rewrite Hu. done. }
  transitivity (parse_udp_words s (mif ++ ttl) (MkUdp h p [] (-1) false [] false)).
  { cbn [app]. apply parse_udp_argument; [done|rewrite show_int_dashed; apply Z.ltb_ge; lia|].
    rewrite unquoted_id by done. unfold udp_option. rewrite nonempty_length by done.
    change (str_eqb (lit "-p") (lit "-h")) with false. change (str_eqb (lit "-p") (lit "-p")) with true. cbv iota.
    by rewrite parse_port_show. }
  transitivity (parse_udp_words s ttl (MkUdp h p m (-1) false [] false)).
  { destruct Hm as [->|Hm]; [done|]. pose proof Hm as ([Hne _] & _ & Hd & _). pose proof (hostname_at m Hm).
    destruct m as [|x m]; [done|]. cbn [mif app]. apply parse_udp_argument; [done|exact Hd|]. by rewrite unquoted_id. }
  transitivity (parse_udp_words s rest (MkUdp h p m t false [] false)); [|by destruct c, z].
  unfold ttl, int_words. destruct Ht as [->|Ht]; [done|]. rewrite (proj2 (Z.eqb_neq t (-1))) by lia. cbn [app].
  apply parse_udp_argument; [done|rewrite show_int_dashed; apply Z.ltb_ge; lia|].
  rewrite unquoted_id by done. unfold udp_option. rewrite nonempty_length, istream_show_int by (done || lia). done.
Qed.

Lemma udp_text e oa : udp_printable e ->
  exists ws, udp_toString e = lit "udp" ++ spaced ws /\ udp_parse (spaced ws) oa = Ok e.
Proof.
  intros H. pose proof H as (Hh & _ & Hm & _ & Hc). eexists. split; [by apply udp_words|].
  assert (Forall quotable (udp_word_list e)) as Hq.
  { assert (Forall quotable (match mcastInterface e with [] => [] | m => [lit "--interface"; m] end)) as Hi.
    { destruct Hm as [->|Hm]; [constructor|]. pose proof (hostname_at _ Hm). destruct Hm as [Hm _].
      destruct (mcastInterface e); [constructor|]. word_list; [by apply option_quotable|by split]. }
    unfold udp_word_list.
    word_list; by eauto using host_words_ok, int_word_quotable, int_words_ok, if_words_ok, option_quotable. }
  unfold udp_parse. rewrite (udp_loop_words _ _ (udp_word_list e)); [|done| |done].
  - rewrite udp_parse_words by done. cbn [mbind result_bind]. rewrite effective_host_ok by done. by destruct e.
  - clear. induction (udp_word_list e) as [|w ws IH]; [cbn; lia|].
    change (spaced (w :: ws)) with ((chr 32 :: w) ++ spaced ws). rewrite length_app. cbn. lia.
Qed.

(** *** Opaque endpoints *)

Lemma base64_word l : (1 <= length l <= 57)%nat ->
  a_word (Base64.encode l) /\ dashed (Base64.encode l) = false /\
  List.find (fun c => negb (Base64.isBase64 c)) (Base64.encode l) = None.
Proof.
  intros Hl. destruct (Base64.encode_line l Hl) as (_ & Hne & Hall).
  assert (forall c, Base64.isBase64 c = true -> is_delim c = false /\ ceq c "-" = false) as Hc.
  { intros c E. pose proof (forall_byte (fun c => negb (Base64.isBase64 c) || (negb (is_delim c) && negb (ceq c "-")))
      ltac:(by vm_compute) c) as H. cbv beta in H. rewrite E in H. cbn [negb orb] in H. apply andb_true_iff in H as [H1 H2].
    by split; apply negb_true_iff. }
  split; [split; [done|]|split].
  - eapply Forall_impl; [exact Hall|]. intros c E. by apply Hc.
  - destruct (Base64.encode l) as [|c s]; [done|]. apply Forall_cons in Hall as [E _]. unfold dashed. cbn. by apply Hc.
  - clear Hne. induction Hall as [|c s E _ IH]; [done|]. cbn. rewrite E. exact IH.
Qed.

Lemma version_word v : a_word (versionToString v) /\ dashed (versionToString v) = false.
Proof.
  unfold versionToString. destruct (show_int_word (ord (major v))) as ([Hne Hw] & _).
  destruct (show_int_word (ord (minor v))) as ([_ Hw2] & _). pose proof (show_int_dashed (ord (major v))) as Hd.
  pose proof (ord_range (major v)). rewrite (proj2 (Z.ltb_ge _ _)) in Hd by lia.
  split; [split|].
  - by destruct (show_int (ord (major v))).
  - apply Forall_app. split; [done|]. by constructor.
  - by destruct (show_int (ord (major v))).
Qed.

Lemma opaque_text e : opaque_printable e ->
  exists ws, opaque_toString e = lit "opaque" ++ spaced ws /\ opaque_parse (spaced ws) = Ok e.
Proof.
  intros (Ht & Hm & Hb). destruct e as [t v l]. cbn [opaque_type rawEncoding rawBytes] in *.
  destruct (base64_word l Hb) as (Hlw & Hld & Hlf). destruct (version_word v) as [Hvw Hvd].
  destruct (show_int_word t) as (Htw & _).
  exists [lit "-t"; show_int t; lit "-e"; versionToString v; lit "-v"; Base64.encode l].
  split; [unfold opaque_toString, spaced; cbn; by rewrite ?app_nil_r, <- ?app_assoc|].
  unfold opaque_parse. rewrite option_loop_words by lia. rewrite drop_0, words_spaced.
  2:{ word_list; try done; by split; [|repeat constructor]. }
  erewrite parse_argument; [|done|done|rewrite show_int_dashed; apply Z.ltb_ge; lia|].
  2:{ unfold opaque_option. rewrite nonempty_length, istream_show_int by (apply Htw || lia).
      change (ceq (at_ (lit "-t") 1) "t") with true. cbv iota.
      rewrite (proj2 (Z.ltb_ge t 0)), (proj2 (Z.ltb_ge 65535 t)) by lia. cbn [orb Nat.ltb Nat.leb].
      rewrite to_signed_id by (unfold in_signed; lia). reflexivity. }
  erewrite parse_argument; [|done|done|done|].
  2:{ unfold opaque_option. rewrite nonempty_length by apply Hvw.
      change (ceq (at_ (lit "-e") 1) "t") with false. change (ceq (at_ (lit "-e") 1) "v") with false.
      change (ceq (at_ (lit "-e") 1) "e") with true. cbv iota. by rewrite version_parsed. }
  erewrite parse_argument; [|done|done|done|].
  2:{ unfold opaque_option. rewrite nonempty_length, Hlf, Base64.decode_encode_id by apply Hlw. reflexivity. }
  done.
Qed.
End text.

(** ** The factories *)

Definition factory_for (e : EndpointI) (factories : list EndpointFactory) : Prop :=
  match e with
  | TcpEndpointI _ => TcpEndpointFactory ∈ factories
  | SslEndpointI _ => SslEndpointFactory ∈ factories
  | UdpEndpointI _ => UdpEndpointFactory ∈ factories
  | OpaqueEndpointI e => get_factory (opaque_type e) factories = None
  end.

Definition printable_endpoint `{EndpointDefaults} (e : EndpointI) : Prop :=
  match e with
  | TcpEndpointI e | SslEndpointI e => tcp_printable e
  | UdpEndpointI e => udp_printable e
  | OpaqueEndpointI e => opaque_printable e
  end.

Lemma factory_of_found f factories : f ∈ factories -> factory_of (factory_protocol f) factories = Some f.
Proof.
  intros Hf. unfold factory_of. destruct (List.find _ _) as [g|] eqn:F.
  - apply find_some in F as [_ F]. apply str_eqb_true in F. by destruct f, g.
  - exfalso. apply elem_of_reverse in Hf. apply list_elem_of_In in Hf. pose proof (find_none _ _ F f Hf) as H.
    cbv beta in H. by rewrite (proj2 (str_eqb_true _ _) eq_refl) in H.
Qed.

Lemma factory_of_opaque factories : factory_of (lit "opaque") factories = None.
Proof. unfold factory_of. induction (reverse factories) as [|f l IH]; [done|]. cbn. by destruct f. Qed.

Section create.
Context `{PL : Platform} {D E : Type} `{CO : Coders D E} {OC : ObjectDecoding (BasicStream D E)} `{ED : EndpointDefaults}.

Lemma create_word fuel tmp factories proto ws oa : a_word proto -> proto <> lit "default" ->
  endpoint_create (D := D) (E := E) fuel tmp factories (proto ++ spaced ws) oa =
    match factory_of proto factories with
    | Some f => e ← factory_create f (spaced ws) oa; Ok (Some e)
    | None =>
        if str_eqb proto (lit "opaque") then
          ue ← opaque_parse (spaced ws);
          match get_factory (opaque_type ue) factories with
          | Some f => fst ((opaque_streamWrite ue;; modify (set_i 0);; read_Short;;
                      e ← factory_read fuel f; mret (Some e)) tmp)
          | None => Ok (Some (OpaqueEndpointI ue))
          end
        else Ok None
    end.
Proof.
  intros [Hne Hw] Hd. unfold endpoint_create.
  assert (find_first_not_of delim 0 (proto ++ spaced ws) = Some 0%nat) as ->.
  { destruct proto as [|c p]; [done|]. apply Forall_cons in Hw as [Hc _].
    unfold find_first_not_of, find_if_from. cbn. unfold is_delim in Hc. cbn in Hc. by rewrite Hc. }
  assert (find_end delim 0 (proto ++ spaced ws) = length proto) as ->.
  { by rewrite (find_end_word _ _ proto (spaced ws)); [|rewrite drop_0|lia| |apply break_spaced]. }
  rewrite Nat.sub_0_r. unfold substr. rewrite drop_0, take_app_length, drop_app_length.
  by rewrite (proj2 (str_eqb_false _ _) Hd).
Qed.

(** A printable endpoint is made again from its text. *)
Lemma endpoint_text_parsed fuel tmp factories e oa : factory_for e factories -> printable_endpoint e ->
  endpoint_create (D := D) (E := E) fuel tmp factories (endpoint_toString e) oa = Ok (Some e).
Proof.
  destruct e as [e|e|e|e]; intros Hf Hp; cbn [endpoint_toString factory_for printable_endpoint] in *.
  - destruct (tcp_text (lit "tcp") e oa Hp) as (ws & -> & Hw). rewrite create_word by (by repeat constructor).
    assert (factory_of (lit "tcp") factories = Some TcpEndpointFactory) as -> by exact (factory_of_found _ _ Hf).
    cbn [factory_create]. by rewrite Hw.
  - destruct (tcp_text (lit "ssl") e oa Hp) as (ws & -> & Hw). rewrite create_word by (by repeat constructor).
    assert (factory_of (lit "ssl") factories = Some SslEndpointFactory) as -> by exact (factory_of_found _ _ Hf).
    cbn [factory_create]. by rewrite Hw.
  - destruct (udp_text e oa Hp) as (ws & -> & Hw). rewrite create_word by (by repeat constructor).
    assert (factory_of (lit "udp") factories = Some UdpEndpointFactory) as -> by exact (factory_of_found _ _ Hf).
    cbn [factory_create]. by rewrite Hw.
  - destruct (opaque_text e Hp) as (ws & -> & Hw). rewrite create_word by (by repeat constructor).
    rewrite factory_of_opaque, Hw. cbn [mbind result_bind]. by rewrite Hf.
Qed.
End create.
