(* ===== verification/EndpointWire.v ===== *)
(** * Endpoints on the wire

    What an endpoint writes is read back by the peer's table of factories: the
    type of the endpoint selects the factory, and an endpoint of an unknown type
    is kept as bytes, which another process may understand. *)

From S2P Require Import Prelude CxxString Buffer Layout Protocol Stream Wire Codecs StreamString.
From S2P Require Import OrderedMap StreamHelpers StreamSpec Encaps EncapsSpec EncapsWire StringUtil Base64 Endpoint EndpointText.

(** Sequences of a computation, whatever their nesting *)
Ltac by_steps :=
  intros; unfold mbind, M_bind, mret, M_ret; cbv beta iota;
  repeat match goal with
  | |- context [match ?x with (_, _) => _ end] =>
      lazymatch x with
      | context [match _ with (_, _) => _ end] => fail
      | _ => destruct x as [[?|?|?] ?]; cbv beta iota
      end
  | |- context [if encoding_eqb ?v ?w then _ else _] => destruct (encoding_eqb v w); cbv beta iota
  end; try done.

(** ** The bytes of an endpoint *)

Definition tcp_body (e : TcpEndpoint) : list byte :=
  seq_bytes (tcp_host e) (tcp_host e) ++ le_bytes 4 (tcp_port e) ++ le_bytes 4 (tcp_timeout e) ++
  [byte_of_bool (tcp_compress e)].

Definition versions (enc : EncodingVersion) : list byte :=
  if encoding_eqb enc Encoding_1_0
  then [major currentProtocol; minor currentProtocol; major Encoding_1_0; minor Encoding_1_0] else [].

Definition udp_body (enc : EncodingVersion) (e : UdpEndpoint) : list byte :=
  seq_bytes (udp_host e) (udp_host e) ++ le_bytes 4 (udp_port e) ++ versions enc ++ [byte_of_bool (udp_compress e)].

(** The encoding of the encapsulation of an endpoint, when the stream writes
    with [enc], and its contents *)
Definition endpoint_encoding (enc : EncodingVersion) (e : EndpointI) : EncodingVersion :=
  match e with OpaqueEndpointI e => rawEncoding e | _ => enc end.

Definition endpoint_body (enc : EncodingVersion) (e : EndpointI) : list byte :=
  match e with
  | TcpEndpointI e | SslEndpointI e => tcp_body e
  | UdpEndpointI e => udp_body enc e
  | OpaqueEndpointI e => rawBytes e
  end.

Definition endpoint_bytes (enc : EncodingVersion) (e : EndpointI) : list byte :=
  le_bytes 2 (endpoint_type e) ++ encaps_bytes (endpoint_encoding enc e) (endpoint_body enc e).

(** What has a representation on the wire *)
Definition sendable_endpoint (enc : EncodingVersion) (e : EndpointI) : Prop :=
  checkSupportedEncoding (endpoint_encoding enc e) = Ok tt /\
  Z.of_nat (6 + length (endpoint_body enc e)) < 2 ^ 31 /\
  match e with
  | TcpEndpointI e | SslEndpointI e => int_length (tcp_host e) /\ in_range Int (tcp_port e) /\ in_range Int (tcp_timeout e)
  | UdpEndpointI e => int_length (udp_host e) /\ in_range Int (udp_port e)
  | OpaqueEndpointI e => in_range Short (opaque_type e)
  end.

(** What arrives: connection ids, the multicast settings and the connect flag
    are not transmitted. *)
Definition transmitted (e : EndpointI) : EndpointI :=
  match e with
  | TcpEndpointI e => TcpEndpointI (MkTcp (tcp_host e) (tcp_port e) (tcp_timeout e) [] (tcp_compress e))
  | SslEndpointI e => SslEndpointI (MkTcp (tcp_host e) (tcp_port e) (tcp_timeout e) [] (tcp_compress e))
  | UdpEndpointI e => UdpEndpointI (MkUdp (udp_host e) (udp_port e) [] (-1) false [] (udp_compress e))
  | OpaqueEndpointI e => OpaqueEndpointI e
  end.

Section wire.
Context `{PL : Platform} {D E : Type} `{CO : Coders D E} {OC : ObjectDecoding (BasicStream D E)}.
Local Abbreviation stream := (BasicStream D E).
Implicit Types s : stream.

(** ** Writing *)

Lemma sends_eq (C : Config) need (m m' : M stream unit) bs : (forall s, m s = m' s) -> sends C need m' bs -> sends C need m bs.
Proof. intros He [Hl Hm]. split; [done|]. intros s Hf. rewrite He. by apply Hm. Qed.

Lemma host_written `{C : Config} (h : str) : int_length h ->
  writes_within (length (seq_bytes h h)) (write_string (D := D) (E := E) h false) (seq_bytes h h) tt.
Proof. intros Hh. by apply write_string_writes; split_and!. Qed.

Lemma writes_seq `{C : Config} n1 (m k : M stream unit) bs1 bs2 : writes_within n1 m bs1 tt -> writes_within (length bs2) k bs2 tt ->
  writes_within (n1 `max` (length bs1 + length bs2)) (m;; k) (bs1 ++ bs2) tt.
Proof. intros Hm Hk. by eapply writes_within_bind. Qed.

Lemma within_bytes `{C : Config} n (m : M stream unit) bs : writes_within n m bs tt -> n = length bs -> writes_within (length bs) m bs tt.
Proof. by intros H <-. Qed.

Lemma writes_then `{C : Config} (m k : M stream unit) bs1 bs2 : writes_within (length bs1) m bs1 tt ->
  writes_within (length bs2) k bs2 tt -> writes_within (length (bs1 ++ bs2)) (m;; k) (bs1 ++ bs2) tt.
Proof. intros Hm Hk. eapply within_bytes; [by eapply writes_seq|rewrite length_app; lia]. Qed.

Lemma tcp_body_written `{C : Config} e : int_length (tcp_host e) ->
  writes_within (length (tcp_body e))
    (write_string (D := D) (E := E) (tcp_host e) false;; write_Int (tcp_port e);; write_Int (tcp_timeout e);; write_Bool (tcp_compress e))
    (tcp_body e) tt.
Proof.
  intros Hh. apply writes_then; [by apply host_written|].
  apply writes_then; [apply writes_is_within, (write_scalar_writes Int)|].
  apply writes_then; [apply writes_is_within, (write_scalar_writes Int)|]. apply writes_is_within, write_Bool_writes.
Qed.

Lemma udp_body_written `{C : Config} e : int_length (udp_host e) ->
  writes_within (length (udp_body c_write e))
    (write_string (D := D) (E := E) (udp_host e) false;; write_Int (udp_port e);; enc ← getWriteEncoding;
     (if encoding_eqb enc Encoding_1_0 then
        write_EncodingVersion currentProtocol;; write_EncodingVersion Encoding_1_0
      else mret tt);; write_Bool (udp_compress e)) (udp_body c_write e) tt.
Proof.
  intros Hh. apply writes_then; [by apply host_written|].
  apply writes_then; [apply writes_is_within, (write_scalar_writes Int)|].
  split; [done|]. intros s Hf. unfold getWriteEncoding. step.
  replace (write_encoding s) with (c_write (Config := C)) by (symmetry; apply Hf).
  revert s Hf. apply (writes_then _ _ (versions c_write) [_]); [|apply writes_is_within, write_Bool_writes].
  unfold versions. case_if; [|apply writes_is_within, writes_ret].
  apply (writes_then _ _ [_; _] [_; _]); apply (writes_then _ _ [_] [_]); apply writes_is_within, write_Byte_writes.
Qed.

Lemma endpoint_sends (C : Config) e : sendable_endpoint c_write e ->
  sends C (length (endpoint_bytes c_write e)) (endpoint_streamWrite (D := D) (E := E) e) (endpoint_bytes c_write e).
Proof.
  intros (Henc & Hlen & He). unfold endpoint_bytes. rewrite length_app, length_le_bytes, length_encaps_bytes.
  assert (forall (m : M stream unit) body, body = endpoint_body c_write e -> writes_within (CF := writing_with c_write C) (length body) m body tt ->
    endpoint_encoding c_write e = c_write ->
    sends C (6 + length body) (startWriteEncaps_default;; m;; endWriteEncaps) (encaps_bytes c_write body)) as Hdef.
  { intros m body -> Hm Ee. rewrite Ee in Henc.
    eapply sends_eq with (m' := s ← get; (match writeEncaps s with
      | e :: _ => startWriteEncaps (we_encoding e) (we_format e) | [] => startWriteEncaps (encoding s) DefaultFormat end;; m;; endWriteEncaps)).
    { intros s. unfold startWriteEncaps_default. step. unfold mbind at 1, M_bind. unfold get. done. }
    apply sends_in; [rewrite length_encaps_bytes; lia|]. intros s (_ & _ & _ & Hw). unfold write_encoding in Hw.
    destruct (writeEncaps s); rewrite Hw; by apply sends_encaps. }
  assert (forall (m : M stream unit) bs need, sends C need m bs ->
    sends C (2 + need) (write_Short (endpoint_type e);; m) (le_bytes 2 (endpoint_type e) ++ bs)) as Htype.
  { intros m bs need Hm. eapply sends_le; [eapply sends_bind; [|exact Hm]|].
    - apply sends_writes, writes_is_within, (write_scalar_writes Short).
    - rewrite length_le_bytes. cbn. lia. }
  destruct e as [e|e|e|e]; cbn [endpoint_streamWrite endpoint_encoding endpoint_type] in *.
  - eapply sends_eq; [|apply Htype, Hdef; [done|apply (tcp_body_written (C := writing_with c_write C)), He|done]].
    unfold tcp_streamWrite. by_steps.
  - eapply sends_eq; [|apply Htype, Hdef; [done|apply (tcp_body_written (C := writing_with c_write C)), He|done]].
    unfold tcp_streamWrite. by_steps.
  - eapply sends_eq; [|apply Htype, Hdef; [done|apply (udp_body_written (C := writing_with c_write C)), He|done]].
    unfold udp_streamWrite. by_steps.
  - apply Htype, sends_encaps; [done|apply writes_is_within, writeBlob_writes|done].
Qed.

(** ** Reading *)

Lemma fetches_eq {A} (C : Config) (m m' : M stream A) bs a : (forall s, m s = m' s) -> fetches C m' bs a -> fetches C m bs a.
Proof. intros He Hm s rest k Hs Hr Hk Hp. rewrite He. by eapply Hm. Qed.

Lemma host_read `{C : Config} (h : str) : int_length h -> reads 1 (read_string (D := D) (E := E) false) (seq_bytes h h) h.
Proof. intros Hh. by apply read_string_reads. Qed.

Lemma reads_then_ret {A B} `{C : Config} mu (m : M stream A) (f : A -> B) bs a :
  reads mu m bs a -> reads mu (x ← m; mret (f x)) bs (f a).
Proof.
  intros Hm. rewrite <- (app_nil_r bs), <- (Nat.add_0_r mu). eapply reads_bind; [exact Hm|apply reads_ret].
Qed.

Definition tcp_fields : M stream TcpEndpoint :=
  host ← read_string false; port ← read_Int; timeout ← read_Int; compress ← read_Bool;
  mret (MkTcp host port timeout [] compress).

Definition udp_fields : M stream UdpEndpoint :=
  host ← read_string false; port ← read_Int; enc ← getReadEncoding;
  (if encoding_eqb enc Encoding_1_0 then read_Byte;; read_Byte;; read_Byte;; read_Byte;; mret tt else mret tt);;
  compress ← read_Bool;
  mret (MkUdp host port [] (-1) false [] compress).

Lemma tcp_fields_read `{C : Config} e : int_length (tcp_host e) -> in_range Int (tcp_port e) -> in_range Int (tcp_timeout e) ->
  exists mu, reads mu tcp_fields (tcp_body e) (MkTcp (tcp_host e) (tcp_port e) (tcp_timeout e) [] (tcp_compress e)).
Proof.
  intros Hh Hp Ht. eexists. eapply reads_bind; [by apply host_read|].
  eapply reads_bind; [by apply (read_scalar_reads Int)|]. eapply reads_bind; [by apply (read_scalar_reads Int)|].
  eapply reads_then_ret with (f := fun c => MkTcp _ _ _ [] c), read_Bool_reads.
Qed.

Lemma udp_fields_read `{C : Config} e : int_length (udp_host e) -> in_range Int (udp_port e) ->
  exists mu, reads mu udp_fields (udp_body c_read e) (MkUdp (udp_host e) (udp_port e) [] (-1) false [] (udp_compress e)).
Proof.
  intros Hh Hp. eexists. eapply reads_bind; [by apply host_read|].
  eapply reads_bind; [by apply (read_scalar_reads Int)|]. eapply reads_gets with (c := c_read).
  { intros s Hs. apply Hs. }
  eapply (reads_bind 0 1 _ _ _ _ tt); [|eapply reads_then_ret with (f := fun c => MkUdp _ _ [] (-1) false [] c), read_Bool_reads].
  unfold versions. case_if; [|apply reads_ret].
  eapply reads_weaken; [|apply (Nat.le_0_l 4)].
  eapply (reads_bind 1 3 _ _ [_] [_; _; _]); [apply read_Byte_reads|].
  eapply (reads_bind 1 2 _ _ [_] [_; _]); [apply read_Byte_reads|].
  eapply (reads_bind 1 1 _ _ [_] [_]); [apply read_Byte_reads|].
  eapply (reads_then_ret 1 _ (fun _ => tt)), read_Byte_reads.
Qed.

Lemma fetches_body {A B} (C : Config) enc mu (m : M stream A) body (a : A) (f : A -> B) fuel :
  checkSupportedEncoding enc = Ok tt -> reads (CF := reading_with enc C) mu m body a ->
  fetches C (startReadEncaps;; v ← m; endReadEncaps (S fuel);; mret (f v)) (encaps_bytes enc body) (f a).
Proof.
  intros He Hm. apply (fetches_encaps C enc m body a (fun _ => f) fuel He).
  intros s rest k Hs Hr Hk Hp _. destruct (reads_weaken _ 0 _ _ _ Hm ltac:(lia)) as [_ Hm']. by eapply Hm'.
Qed.

Lemma opaque_fetches (C : Config) enc bytes type fuel : checkSupportedEncoding enc = Ok tt ->
  Z.of_nat (6 + length bytes) < 2 ^ 31 ->
  fetches C (opaque_read (S fuel) type) (encaps_bytes enc bytes) (MkOpaque type enc bytes).
Proof.
  intros He Hl. eapply fetches_eq with (m' := enc ← startReadEncaps; v ← (sz ← getReadEncapsSize; readBlob sz);
    endReadEncaps (S fuel);; mret (MkOpaque type enc v)); [unfold opaque_read; by_steps|].
  apply (fetches_encaps C enc _ bytes bytes (fun enc v => MkOpaque type enc v) fuel He).
  intros s rest k Hs Hr Hk Hp (e & prev & Ere & Esz). unfold getReadEncapsSize.
  assert ((s ← get; match readEncaps s with [] => faultM AssertionFailure | e :: _ => mret (to_i32 (re_sz e - 4 - 2)) end)
    s = (Ok (Z.of_nat (length bytes)), s)) as E1.
  { step. rewrite Ere, Esz.
    replace (6 + Z.of_nat (length bytes) - 4 - 2) with (Z.of_nat (length bytes)) by lia. by rewrite to_i32_id by lia. }
  rewrite (bind_ok _ _ _ _ _ E1).
  destruct (reads_weaken _ 0 _ _ _ (readBlob_reads (CF := reading_with enc C) (D := D) (E := E) bytes) ltac:(lia)) as [_ Hm].
  by eapply Hm.
Qed.

Lemma endpoint_fetches (C : Config) fuel factories e : sendable_endpoint c_read e -> factory_for e factories ->
  fetches C (endpoint_read (S fuel) factories) (endpoint_bytes c_read e) (transmitted e).
Proof.
  intros (He & Hl & Hr) Hf.
  assert (forall f, get_factory (factory_type f) factories = Some f \/ f ∉ factories) as Hget.
  { intros f. unfold get_factory. destruct (List.find _ _) as [g|] eqn:F; [left|right].
    - apply find_some in F as [_ F]. apply Z.eqb_eq in F. by destruct f, g.
    - intros Hin%list_elem_of_In. pose proof (find_none _ _ F f Hin) as H. cbv beta in H. by rewrite Z.eqb_refl in H. }
  unfold endpoint_bytes, endpoint_read. eapply fetches_bind.
  { eapply fetches_reads, (read_scalar_reads Short). destruct e; [..|exact Hr]; done. }
  destruct e as [e|e|e|e]; cbn [endpoint_type endpoint_encoding endpoint_body factory_for transmitted] in *.
  - destruct (Hget TcpEndpointFactory) as [Hg|Hg]; [|done].
    change (get_factory TCPEndpointType factories = Some TcpEndpointFactory) in Hg. rewrite Hg.
    destruct Hr as (Hh & Hp & Ht). destruct (tcp_fields_read (C := reading_with c_read C) e Hh Hp Ht) as [mu Hm].
    eapply fetches_eq; [|by eapply (fetches_body C c_read mu tcp_fields _ _ TcpEndpointI fuel)].
    unfold factory_read, tcp_read, tcp_fields. by_steps.
  - destruct (Hget SslEndpointFactory) as [Hg|Hg]; [|done].
    change (get_factory SSLEndpointType factories = Some SslEndpointFactory) in Hg. rewrite Hg.
    destruct Hr as (Hh & Hp & Ht). destruct (tcp_fields_read (C := reading_with c_read C) e Hh Hp Ht) as [mu Hm].
    eapply fetches_eq; [|by eapply (fetches_body C c_read mu tcp_fields _ _ SslEndpointI fuel)].
    unfold factory_read, tcp_read, tcp_fields. by_steps.
  - destruct (Hget UdpEndpointFactory) as [Hg|Hg]; [|done].
    change (get_factory UDPEndpointType factories = Some UdpEndpointFactory) in Hg. rewrite Hg.
    destruct Hr as (Hh & Hp). destruct (udp_fields_read (C := reading_with c_read C) e Hh Hp) as [mu Hm].
    eapply fetches_eq; [|by eapply (fetches_body C c_read mu udp_fields _ _ UdpEndpointI fuel)].
    unfold factory_read, udp_read, udp_fields, getReadEncoding, gets. by_steps.
  - rewrite Hf. apply fetches_bind_ret with (f := OpaqueEndpointI). destruct e as [t enc l]. by apply opaque_fetches.
Qed.
End wire.
