(* ===== verification/Identity.v ===== *)
(** * Identities and their text

    [Instance::identityToString] and [Instance::stringToIdentity]
    (cpp/src/Ice/Instance.cpp) with the conversions of
    cpp/src/Ice/StringConverter.cpp they call. The text of an identity is its
    category and its name, escaped, with a slash between them. *)

From S2P Require Import Prelude CxxString Stream StringUtil StringUtilSpec.

Record Identity : Type := MkIdentity { name : str; category : str }.

#[export] Instance Identity_eq_dec : EqDecision Identity.
Proof. solve_decision. Defined.

(** The converter stores its output in one buffer that grows on request. *)
Definition nativeToUTF8 (converter : option (StringConverter ascii)) (s : str) : result str :=
  match converter, s with
  | None, _ | _, [] => Ok s
  | Some conv, _ => _ ← snd (toUTF8 conv s); Ok (concat (snd <$> fst (toUTF8 conv s)))
  end.

Definition UTF8ToNative (converter : option (StringConverter ascii)) (s : str) : result str :=
  match converter, s with
  | None, _ | _, [] => Ok s
  | Some conv, _ => fromUTF8 conv s
  end.

Definition slash_ : ascii := "/".

Definition identityToString (converter : option (StringConverter ascii)) (ident : Identity) : result str :=
  name ← nativeToUTF8 converter (name ident);
  category ← nativeToUTF8 converter (category ident);
  if (length category =? 0)%nat then escapeString name [slash_]
  else
    c ← escapeString category [slash_];
    n ← escapeString name [slash_];
    Ok (c ++ [slash_] ++ n).

(** The search for the separator: the position of the only slash that no
    backslash precedes *)
Fixpoint separator_loop (fuel : nat) (s : str) (pos : nat) (slash : option nat) : result (option nat) :=
  match fuel with
  | O => Fault OutOfFuel
  | S fuel' =>
      match find_char slash_ pos s with
      | None => Ok slash
      | Some p =>
          if (p =? 0)%nat || negb (ceq (at_ s (p - 1)) backslash) then
            match slash with
            | None => separator_loop fuel' s (p + 1) (Some p)
            | Some _ =>
                Throw (IdentityParseException (lit "unescaped backslash in identity `" ++ s ++ lit "'"))
            end
          else separator_loop fuel' s (p + 1) slash
      end
  end.

(** [catch(const IllegalArgumentException& e)] *)
Definition identity_part (what s : str) (r : result str) : result str :=
  match r with
  | Throw (IllegalArgumentException reason) =>
      Throw (IdentityParseException (lit "invalid " ++ what ++ lit " `" ++ s ++ lit "': " ++ reason))
  | r => r
  end.

Definition stringToIdentity (converter : option (StringConverter ascii)) (s : str) : result Identity :=
  slash ← separator_loop (S (length s)) s 0 None;
  parts ←
    match slash with
    | None =>
        n ← identity_part (lit "identity name") s (unescapeString s 0 (length s));
        Ok (n, [])
    | Some slash =>
        c ← identity_part (lit "category in identity") s (unescapeString s 0 slash);
        n ← (if (slash + 1 <? length s)%nat
             then identity_part (lit "name in identity") s (unescapeString s (slash + 1) (length s))
             else Ok []);
        Ok (n, c)
    end;
  name ← UTF8ToNative converter (fst parts);
  category ← UTF8ToNative converter (snd parts);
  Ok (MkIdentity name category).

(** ** The separator *)

(** A slash that no backslash precedes *)
Definition bare (s : str) (p : nat) : Prop :=
  s !! p = Some slash_ /\ (p = 0%nat \/ s !! (p - 1)%nat <> Some backslash).

Lemma find_char_from c pos s :
  match find_char c pos s with
  | Some p => (pos <= p)%nat /\ s !! p = Some c /\ forall q, (pos <= q < p)%nat -> s !! q <> Some c
  | None => forall q, (pos <= q)%nat -> s !! q <> Some c
  end.
Proof.
  unfold find_char, find_if_from. destruct (find_if (ceq c) (drop pos s)) as [k|] eqn:E; simpl.
  - apply find_if_Some in E as (d & Hd & Hc & Hall). apply ceq_true in Hc as <-.
    rewrite lookup_drop in Hd. split; [lia|]. split; [done|]. intros q Hq Hs.
    rewrite Forall_forall in Hall. specialize (Hall c). rewrite ceq_refl in Hall.
    discriminate Hall. apply list_elem_of_lookup. exists (q - pos)%nat.
    rewrite lookup_take_lt, lookup_drop by lia. by replace (pos + (q - pos))%nat with q by lia.
  - apply find_if_None in E. rewrite Forall_forall in E. intros q Hq Hs.
    specialize (E c). rewrite ceq_refl in E. discriminate E. apply list_elem_of_lookup.
    exists (q - pos)%nat. rewrite lookup_drop. by replace (pos + (q - pos))%nat with q by lia.
Qed.

Lemma bare_test s p : s !! p = Some slash_ ->
  (p =? 0)%nat || negb (ceq (at_ s (p - 1)) backslash) = true <-> bare s p.
Proof.
  intros Hp. unfold bare. pose proof (lookup_lt_Some _ _ _ Hp) as Hlt.
  rewrite orb_true_iff, negb_true_iff, ceq_false, Nat.eqb_eq.
  assert (s !! (p - 1)%nat = Some (at_ s (p - 1))) as E.
  { apply list_lookup_lookup_total_lt. lia. }
  rewrite E. split; [intros [?|Hn]; split; auto; right; congruence|].
  intros [_ [?|Hn]]; [by left|right; congruence].
Qed.

Lemma separator_loop_none s slash : forall fuel pos, (length s - pos < fuel)%nat ->
  (forall p, (pos <= p)%nat -> ~ bare s p) -> separator_loop fuel s pos slash = Ok slash.
Proof.
  induction fuel as [|fuel IH]; intros pos Hf Hn; [lia|]. cbn [separator_loop].
  pose proof (find_char_from slash_ pos s) as Hfind. destruct (find_char slash_ pos s) as [p|]; [|done].
  destruct Hfind as (Hle & Hp & _). pose proof (lookup_lt_Some _ _ _ Hp).
  destruct (_ || _) eqn:E.
  - apply bare_test in E; [|done]. by destruct (Hn p Hle).
  - apply IH; [lia|]. intros q Hq. apply Hn. lia.
Qed.

Lemma separator_loop_one s k : bare s k -> forall fuel pos, (length s - pos < fuel)%nat -> (pos <= k)%nat ->
  (forall p, (pos <= p)%nat -> bare s p -> p = k) -> separator_loop fuel s pos None = Ok (Some k).
Proof.
  intros Hk. induction fuel as [|fuel IH]; intros pos Hf Hpos Hn; [lia|]. cbn [separator_loop].
  pose proof (find_char_from slash_ pos s) as Hfind. destruct (find_char slash_ pos s) as [p|].
  2:{ by destruct (Hfind k Hpos (proj1 Hk)). }
  destruct Hfind as (Hle & Hp & Hbefore). pose proof (lookup_lt_Some _ _ _ Hp).
  assert (p <= k)%nat as Hpk.
  { apply Nat.nlt_ge. intros Hlt. destruct (Hbefore k); [lia|apply Hk]. }
  destruct (_ || _) eqn:E.
  - apply bare_test in E; [|done]. pose proof (Hn p Hle E) as ->.
    apply separator_loop_none; [lia|]. intros q Hq Hb. specialize (Hn q). lia || (apply Hn in Hb; lia).
  - apply IH; [lia| |].
    + destruct (decide (p = k)) as [->|]; [|lia]. apply bare_test in Hk; [|done]. congruence.
    + intros q Hq. apply Hn. lia.
Qed.

(** ** Escaped text *)

Definition escaped (s : str) : str := s ≫= fun c => encodeChar c [slash_].

Lemma slash_special : special_ok [slash_].
Proof. repeat constructor. Qed.

Lemma escapeString_slash s : escapeString s [slash_] = Ok (escaped s).
Proof. done. Qed.

(** What the escape sequences of all characters look like: a slash is the
    second character, behind the backslash, and the last character is a
    backslash only for a backslash. *)
Definition escape_check (c : ascii) : bool :=
  forallb (fun p => negb (bool_decide (encodeChar c [slash_] !! p = Some slash_)) ||
    ((p =? 1)%nat && bool_decide (encodeChar c [slash_] !! 0%nat = Some backslash))) (seq 0 4) &&
  (length (encodeChar c [slash_]) <=? 4)%nat &&
  (ceq c backslash || negb (bool_decide (last (encodeChar c [slash_]) = Some backslash))).

Lemma escape_checked c : escape_check c = true.
Proof. revert c. apply forall_byte. by vm_compute. Qed.

Lemma encodeChar_slash c p : encodeChar c [slash_] !! p = Some slash_ ->
  p = 1%nat /\ encodeChar c [slash_] !! 0%nat = Some backslash.
Proof.
  intros Hp. pose proof (escape_checked c) as H. unfold escape_check in H.
  apply andb_true_iff in H as [H _]. apply andb_true_iff in H as [H Hl]. apply Nat.leb_le in Hl.
  pose proof (lookup_lt_Some _ _ _ Hp). rewrite forallb_forall in H.
  specialize (H p ltac:(apply in_seq; lia)). rewrite bool_decide_eq_true_2 in H by done. cbn [negb orb] in H.
  apply andb_true_iff in H as [H1 H2]. split; [by apply Nat.eqb_eq|by apply bool_decide_eq_true in H2].
Qed.

Lemma escaped_slash s p : escaped s !! p = Some slash_ ->
  (0 < p)%nat /\ escaped s !! (p - 1)%nat = Some backslash.
Proof.
  revert p. induction s as [|c s IH]; intros p Hp; [done|].
  change (escaped (c :: s)) with (encodeChar c [slash_] ++ escaped s) in *.
  apply lookup_app_Some in Hp as [Hp|[Hle Hp]].
  - apply encodeChar_slash in Hp as [-> Hp]. split; [lia|]. by rewrite lookup_app_l by (by eapply lookup_lt_Some).
  - destruct (IH _ Hp) as [Hpos Hprev]. split; [lia|].
    rewrite lookup_app_r by lia. by replace (p - 1 - length (encodeChar c [slash_]))%nat
      with (p - length (encodeChar c [slash_]) - 1)%nat by lia.
Qed.

Lemma encodeChar_last c : c <> backslash -> last (encodeChar c [slash_]) <> Some backslash.
Proof.
  intros Hc E. pose proof (escape_checked c) as H. unfold escape_check in H.
  apply andb_true_iff in H as [_ H]. rewrite bool_decide_eq_true_2 in H by done.
  apply orb_true_iff in H as [H|H]; [by apply ceq_true in H|done].
Qed.

Lemma last_escaped s : s <> [] -> last s <> Some backslash -> last (escaped s) <> Some backslash.
Proof.
  intros Hne Hl. destruct s as [|c s] using rev_ind; [done|].
  unfold escaped. rewrite bind_app. cbn [mbind list_bind]. rewrite app_nil_r.
  rewrite last_app in *. cbn in Hl. pose proof (encodeChar_nonempty c [slash_]).
  pose proof (encodeChar_last c ltac:(congruence)) as He.
  destruct (last (encodeChar c [slash_])) eqn:E; [done|]. apply last_None in E. rewrite E in *. simpl in *. lia.
Qed.

Lemma escaped_nil s : escaped s = [] -> s = [].
Proof.
  destruct s as [|c s]; [done|]. change (escaped (c :: s)) with (encodeChar c [slash_] ++ escaped s).
  intros H. apply app_nil in H as [H _]. pose proof (encodeChar_nonempty c [slash_]). rewrite H in *. simpl in *. lia.
Qed.

(** ** Unescaping a prefix *)

Lemma at_take s n p : (p < n)%nat -> at_ (take n s) p = at_ s p.
Proof. intros Hp. unfold at_. rewrite !list_lookup_total_alt. by rewrite lookup_take_lt. Qed.

Lemma octal_value_take j s end_ : forall start val,
  octal_value j (take end_ s) start end_ val = octal_value j s start end_ val.
Proof.
  induction j as [|j IH]; intros start val; cbn [octal_value]; [done|].
  destruct (start <? end_)%nat eqn:E; [|done]. bool_to_prop. rewrite at_take by done. by rewrite IH.
Qed.

Lemma checkChar_take s end_ p : (p < end_)%nat -> checkChar (take end_ s) p = checkChar s p.
Proof.
  intros Hp. unfold checkChar, substr. rewrite at_take by done. rewrite !drop_0, take_take.
  by rewrite Nat.min_l by lia.
Qed.

Lemma decodeChar_take s start end_ : (end_ <= length s)%nat ->
  decodeChar (take end_ s) start end_ = decodeChar s start end_.
Proof.
  intros Hle. unfold decodeChar. rewrite length_take, Nat.min_l by done. rewrite Nat.leb_refl.
  rewrite (proj2 (Nat.leb_le _ _) Hle). rewrite andb_true_r.
  destruct (start <? end_)%nat eqn:E; [|done]. bool_to_prop. cbn [negb].
  rewrite at_take by done. rewrite checkChar_take by done. case_if; [done|].
  destruct (start + 1 =? end_)%nat eqn:E1; [done|]. bool_to_prop.
  rewrite at_take, octal_value_take, checkChar_take by lia. done.
Qed.

Lemma decodeString_take s end_ : (end_ <= length s)%nat -> forall fuel start sb,
  decodeString fuel (take end_ s) start end_ sb = decodeString fuel s start end_ sb.
Proof.
  intros Hle. induction fuel as [|fuel IH]; intros start sb; cbn [decodeString]; [done|].
  destruct (start <? end_)%nat; [|done]. rewrite decodeChar_take by done.
  destruct (decodeChar s start end_) as [r|e|f]; simpl; [apply IH|done|done].
Qed.

Lemma unescape_prefix v rest : unescapeString (escaped v ++ rest) 0 (length (escaped v)) = Ok v.
Proof.
  unfold unescapeString. rewrite length_app. rewrite (proj2 (Nat.leb_le (length (escaped v)) _)) by lia. cbn [Nat.leb andb].
  rewrite <- decodeString_take by (rewrite length_app; lia). rewrite take_app_length.
  pose proof (decodeString_encoded [slash_] v slash_special (length (escaped v) - 0) (escaped v) 0 []) as H.
  rewrite H; [done|done|lia|lia].
Qed.

Lemma unescape_suffix pre v :
  unescapeString (pre ++ escaped v) (length pre) (length (pre ++ escaped v)) = Ok v.
Proof.
  unfold unescapeString. rewrite Nat.leb_refl. rewrite (proj2 (Nat.leb_le _ _)) by (rewrite length_app; lia).
  cbn [andb]. rewrite (decodeString_encoded [slash_] v slash_special); [done| |rewrite length_app; lia|lia].
  by rewrite drop_app_length.
Qed.

(** ** Round trip *)

Lemma bare_text c n p : c <> [] -> last c <> Some backslash ->
  bare (escaped c ++ slash_ :: escaped n) p <-> p = length (escaped c).
Proof.
  intros Hc Hl. split.
  - intros [Hp Hprev]. apply lookup_app_Some in Hp as [Hp|[Hle Hp]].
    + destruct (escaped_slash _ _ Hp) as [Hpos Hb]. destruct Hprev as [->|Hprev]; [lia|].
      destruct Hprev. rewrite lookup_app_l by (by eapply lookup_lt_Some). done.
    + destruct (p - length (escaped c))%nat as [|q] eqn:Eq; [lia|]. cbn in Hp.
      destruct (escaped_slash _ _ Hp) as [Hpos Hb]. destruct Hprev as [->|Hprev]; [lia|].
      destruct Hprev. rewrite lookup_app_r by lia.
      replace (p - 1 - length (escaped c))%nat with (S (q - 1)) by lia. done.
  - intros ->. split; [by rewrite lookup_app_r, Nat.sub_diag by lia|]. right.
    pose proof (last_escaped c Hc Hl) as He.
    destruct (escaped c) as [|x e] eqn:Ee; [by apply escaped_nil in Ee|].
    rewrite lookup_app_l by (simpl; lia). by rewrite last_lookup, <- Nat.sub_1_r in He.
Qed.

Lemma bare_none n p : ~ bare (escaped n) p.
Proof. intros [Hp Hprev]. destruct (escaped_slash _ _ Hp) as [Hpos Hb]. destruct Hprev as [->|?]; [lia|done]. Qed.

(** The parts of the text of an identity, before they are converted *)
Definition separator_and_parts (s : str) : result (str * str) :=
  slash ← separator_loop (S (length s)) s 0 None;
  match slash with
  | None =>
      n ← identity_part (lit "identity name") s (unescapeString s 0 (length s));
      Ok (n, [])
  | Some slash =>
      c ← identity_part (lit "category in identity") s (unescapeString s 0 slash);
      n ← (if (slash + 1 <? length s)%nat
           then identity_part (lit "name in identity") s (unescapeString s (slash + 1) (length s))
           else Ok []);
      Ok (n, c)
  end.

Lemma parts_name n : separator_and_parts (escaped n) = Ok (n, []).
Proof.
  unfold separator_and_parts. rewrite separator_loop_none; [|lia|intros; apply bare_none].
  cbn [mbind result_bind]. pose proof (unescape_suffix [] n) as H. cbn [app length] in H. by rewrite H.
Qed.

Lemma parts_category c n : c <> [] -> last c <> Some backslash ->
  separator_and_parts (escaped c ++ [slash_] ++ escaped n) = Ok (n, c).
Proof.
  intros Hc Hl. unfold separator_and_parts. cbn [app].
  rewrite (separator_loop_one _ (length (escaped c))); [|by apply bare_text|lia|lia|].
  2:{ intros p _ Hb. by apply bare_text in Hb. }
  cbn [mbind result_bind]. rewrite unescape_prefix. cbn [identity_part mbind result_bind].
  pose proof (unescape_suffix (escaped c ++ [slash_]) n) as H.
  rewrite <- app_assoc in H. rewrite (length_app (escaped c) [slash_]) in H. cbn [app length] in H. rewrite H.
  destruct (length (escaped c) + 1 <? length (escaped c ++ slash_ :: escaped n))%nat eqn:E; [done|].
  bool_to_prop. rewrite length_app in E. simpl in E.
  destruct n as [|x n]; [done|]. pose proof (encodeChar_nonempty x [slash_]).
  change (escaped (x :: n)) with (encodeChar x [slash_] ++ escaped n) in E. rewrite length_app in E. lia.
Qed.

(** [u] is the UTF-8 form of [s], and the converter recovers [s] from it. *)
Definition survives (converter : option (StringConverter ascii)) (s u : str) : Prop :=
  nativeToUTF8 converter s = Ok u /\ UTF8ToNative converter u = Ok s.

(** The text of an identity with the UTF-8 forms [n] and [c] of its name and its
    category *)
Definition identity_text (n c : str) : str := if (length c =? 0)%nat then escaped n else escaped c ++ [slash_] ++ escaped n.

(** An identity whose name and category survive the string converter, and whose
    category in UTF-8 does not end in a backslash, is printed and parsed back to
    itself. *)
Lemma identity_text_parsed converter id n c :
  survives converter (name id) n -> survives converter (category id) c -> last c <> Some backslash ->
  identityToString converter id = Ok (identity_text n c) /\ stringToIdentity converter (identity_text n c) = Ok id.
Proof.
  intros [Hn Hn'] [Hc Hc'] Hl. unfold identityToString, identity_text. rewrite Hn, Hc. cbn [mbind result_bind].
  assert (forall text, separator_and_parts text = Ok (n, c) -> stringToIdentity converter text = Ok id) as Hparts.
  { intros text E. unfold stringToIdentity. unfold separator_and_parts in E.
    destruct (separator_loop _ _ _ _) as [slash| |]; cbn [mbind result_bind] in *; [|done|done].
    destruct (match slash with None => _ | Some _ => _ end) as [parts| |]; [|done|done].
    injection E as ->. cbn [mbind result_bind fst snd]. rewrite Hn'. cbn [mbind result_bind]. rewrite Hc'.
    by destruct id. }
  destruct (length c =? 0)%nat eqn:E0.
  - apply Nat.eqb_eq, length_zero_iff_nil in E0 as ->. split; [apply escapeString_slash|].
    apply Hparts, parts_name.
  - rewrite !escapeString_slash. cbn [mbind result_bind]. split; [done|].
    apply Hparts, parts_category; [|done]. by intros ->.
Qed.

(** A converter that stores a mark before every character *)
Definition marking_converter : StringConverter ascii := {|
  toUTF8 := fun s => ([((2 * length s)%nat, s ≫= fun c => ["^"%char; c])], Ok tt);
  fromUTF8 := fun s => Ok (List.filter (fun c => negb (ceq c "^")) s) |}.

Example identity_text_marked :
  identityToString (Some marking_converter) (MkIdentity (lit "a/b") (lit "x\y")) = Ok (lit "^x^\\^y/^a^\/^b").
Proof. by vm_compute. Qed.

(** The identity with the category a\ and the name b is printed as a\\/b, which
    is parsed as the identity with the name a\/b and no category: the separator
    behind an escaped backslash is taken for an escaped slash. *)
Lemma identity_roundtrip_backslash :
  identityToString None (MkIdentity (lit "b") (lit "a\")) = Ok (lit "a\\/b") /\
  stringToIdentity None (lit "a\\/b") = Ok (MkIdentity (lit "a\/b") []).
Proof. by vm_compute. Qed.
