(* ===== verification/Reference.v ===== *)
(** * References

    What a proxy refers to: cpp/src/Ice/Reference.h and Reference.cpp. A
    reference is immutable: [change...] answers a new one. A fixed reference is
    bound to a connection; a routable one holds the endpoints of its object, or
    the id of an adapter, or neither of them (a well-known object), and may use
    a locator and a router, which are given by their own references. *)

From S2P Require Import Prelude CxxString Layout Protocol Stream StringUtil OrderedMap StreamHelpers Identity Endpoint.

(** ** Data *)

Inductive Mode : Type := ModeTwoway | ModeOneway | ModeBatchOneway | ModeDatagram | ModeBatchDatagram.

#[export] Instance Mode_eq_dec : EqDecision Mode.
Proof. solve_decision. Defined.

Definition mode_code (m : Mode) : Z :=
  match m with
  | ModeTwoway => 0 | ModeOneway => 1 | ModeBatchOneway => 2 | ModeDatagram => 3 | ModeBatchDatagram => 4
  end.

Inductive EndpointSelectionType : Type := Random | Ordered.

#[export] Instance EndpointSelectionType_eq_dec : EqDecision EndpointSelectionType.
Proof. solve_decision. Defined.

Definition selection_code (t : EndpointSelectionType) : Z := match t with Random => 0 | Ordered => 1 end.

(** The members of [Reference], without the cached hash value *)
Record ReferenceBase : Type := MkBase {
  _mode : Mode;
  _secure : bool;
  _identity : Identity;
  _context : gmap str str;
  _facet : str;
  _protocol : EncodingVersion;
  _encoding : EncodingVersion;
  _overrideCompress : bool;
  _compress : bool
}.

(** The members of [RoutableReference] that are no references *)
Record RoutableMembers : Type := MkRoutable {
  _endpoints : list EndpointI;
  _adapterId : str;
  _collocationOptimized : bool;
  _cacheConnection : bool;
  _preferSecure : bool;
  _endpointSelection : EndpointSelectionType;
  _locatorCacheTimeout : Z;
  _overrideTimeout : bool;
  _timeout : Z;
  _connectionId : str
}.

(** What a fixed reference uses of its connection: its address, its endpoint,
    and the exception that [throwException] throws *)
Record FixedConnection : Type := MkFixedConnection {
  fc_address : Z;
  fc_endpoint : EndpointI;
  fc_exception : option exn
}.

(** A [LocatorInfo] and a [RouterInfo] are known by the proxy of the locator and
    of the router: the tables keep one object for each of them. *)
Inductive Reference : Type :=
  | FixedReference (base : ReferenceBase) (_fixedConnection : FixedConnection)
  | RoutableReference (base : ReferenceBase) (m : RoutableMembers) (_locatorInfo _routerInfo : option Reference).

Definition base_of (r : Reference) : ReferenceBase :=
  match r with FixedReference base _ | RoutableReference base _ _ _ => base end.

Definition set_base (base : ReferenceBase) (r : Reference) : Reference :=
  match r with
  | FixedReference _ c => FixedReference base c
  | RoutableReference _ m l ro => RoutableReference base m l ro
  end.

Definition getMode (r : Reference) : Mode := _mode (base_of r).
Definition getSecure (r : Reference) : bool := _secure (base_of r).
Definition getIdentity (r : Reference) : Identity := _identity (base_of r).
Definition getFacet (r : Reference) : str := _facet (base_of r).
Definition getProtocol (r : Reference) : EncodingVersion := _protocol (base_of r).
Definition getEncoding (r : Reference) : EncodingVersion := _encoding (base_of r).

Definition getEndpoints (r : Reference) : list EndpointI :=
  match r with FixedReference _ _ => [] | RoutableReference _ m _ _ => _endpoints m end.
Definition getAdapterId (r : Reference) : str :=
  match r with FixedReference _ _ => [] | RoutableReference _ m _ _ => _adapterId m end.
Definition getLocatorInfo (r : Reference) : option Reference :=
  match r with FixedReference _ _ => None | RoutableReference _ _ l _ => l end.
Definition getRouterInfo (r : Reference) : option Reference :=
  match r with FixedReference _ _ => None | RoutableReference _ _ _ ro => ro end.
Definition getCollocationOptimized (r : Reference) : bool :=
  match r with FixedReference _ _ => false | RoutableReference _ m _ _ => _collocationOptimized m end.
Definition getCacheConnection (r : Reference) : bool :=
  match r with FixedReference _ _ => true | RoutableReference _ m _ _ => _cacheConnection m end.
Definition getPreferSecure (r : Reference) : bool :=
  match r with FixedReference _ _ => false | RoutableReference _ m _ _ => _preferSecure m end.
Definition getEndpointSelection (r : Reference) : EndpointSelectionType :=
  match r with FixedReference _ _ => Random | RoutableReference _ m _ _ => _endpointSelection m end.
Definition getLocatorCacheTimeout (r : Reference) : Z :=
  match r with FixedReference _ _ => 0 | RoutableReference _ m _ _ => _locatorCacheTimeout m end.
Definition getConnectionId (r : Reference) : str :=
  match r with FixedReference _ _ => [] | RoutableReference _ m _ _ => _connectionId m end.

Definition no_endpoints (l : list EndpointI) : bool := (length l =? 0)%nat.
Definition empty_string (s : str) : bool := (length s =? 0)%nat.

Definition isIndirect (r : Reference) : bool :=
  match r with FixedReference _ _ => false | RoutableReference _ m _ _ => no_endpoints (_endpoints m) end.
Definition isWellKnown (r : Reference) : bool :=
  match r with
  | FixedReference _ _ => false
  | RoutableReference _ m _ _ => no_endpoints (_endpoints m) && empty_string (_adapterId m)
  end.

(** [RoutableReference(...)], whose constructor asserts that it does not get
    endpoints and an adapter id *)
Definition new_RoutableReference (ident : Identity) (facet : str) (mode : Mode) (secure : bool)
    (protocol encoding : EncodingVersion) (endpoints : list EndpointI) (adapterId : str)
    (locatorInfo routerInfo : option Reference) (collocationOptimized cacheConnection preferSecure : bool)
    (endpointSelection : EndpointSelectionType) (locatorCacheTimeout : Z) : result Reference :=
  if empty_string adapterId || no_endpoints endpoints then
    Ok (RoutableReference (MkBase mode secure ident ∅ facet protocol encoding false false)
      (MkRoutable endpoints adapterId collocationOptimized cacheConnection preferSecure endpointSelection
        locatorCacheTimeout false (-1) []) locatorInfo routerInfo)
  else Fault AssertionFailure.

(** ** Comparison *)

(** The generated operators of the struct [Identity] *)
Definition identity_ltb (i j : Identity) : bool :=
  before str_ltb (name i) (name j) (before str_ltb (category i) (category j) false).

(** [map<string, string>] compares its entries in the order of the keys. *)
Definition entry_ltb (p q : str * str) : bool :=
  before str_ltb (fst p) (fst q) (before str_ltb (snd p) (snd q) false).
Definition context_ltb (c c' : gmap str str) : bool := list_ltb entry_ltb (in_order c) (in_order c').

(** [Reference::operator==] *)
Definition base_eqb (r r' : ReferenceBase) : bool :=
  if negb (bool_decide (_mode r = _mode r')) then false
  else if negb (Bool.eqb (_secure r) (_secure r')) then false
  else if negb (bool_decide (_identity r = _identity r')) then false
  else if negb (bool_decide (_context r = _context r')) then false
  else if negb (str_eqb (_facet r) (_facet r')) then false
  else if negb (Bool.eqb (_overrideCompress r) (_overrideCompress r')) ||
          (_overrideCompress r && negb (Bool.eqb (_compress r) (_compress r'))) then false
  else if negb (encoding_eqb (_protocol r) (_protocol r')) then false
  else if negb (encoding_eqb (_encoding r) (_encoding r')) then false
  else true.

(** [Reference::operator<] *)
Definition base_ltb (r r' : ReferenceBase) : bool :=
  before Z.ltb (mode_code (_mode r)) (mode_code (_mode r'))
  (before identity_ltb (_identity r) (_identity r')
  (before context_ltb (_context r) (_context r')
  (before str_ltb (_facet r) (_facet r')
  (before bool_ltb (_overrideCompress r) (_overrideCompress r')
  (let rest :=
     before bool_ltb (_secure r) (_secure r')
     (before version_ltb (_protocol r) (_protocol r')
     (before version_ltb (_encoding r) (_encoding r') false)) in
   if _overrideCompress r then before bool_ltb (_compress r) (_compress r') rest else rest))))).

(** [Handle] compares the objects behind two pointers; null is the least. *)
Definition handle_eqb {A} (eqb : A -> A -> bool) (p q : option A) : bool :=
  match p, q with Some x, Some y => eqb x y | None, None => true | _, _ => false end.

(** [p < q] and [q < p] *)
Definition handle_order {A} (order : A -> A -> bool * bool) (p q : option A) : bool * bool :=
  match p, q with
  | Some x, Some y => order x y
  | None, Some _ => (true, false)
  | Some _, None => (false, true)
  | None, None => (false, false)
  end.

Fixpoint endpoints_eqb (l m : list EndpointI) : bool :=
  match l, m with
  | [], [] => true
  | e :: l', e' :: m' => endpoint_eqb e e' && endpoints_eqb l' m'
  | _, _ => false
  end.

(** [operator==] of [FixedReference] and [RoutableReference] *)
Fixpoint reference_eqb (r r' : Reference) : bool :=
  match r, r' with
  | FixedReference b c, FixedReference b' c' =>
      if negb (base_eqb b b') then false else fc_address c =? fc_address c'
  | RoutableReference b m l ro, RoutableReference b' m' l' ro' =>
      if negb (base_eqb b b') then false
      else if negb (Bool.eqb (_preferSecure m) (_preferSecure m')) then false
      else if negb (Bool.eqb (_collocationOptimized m) (_collocationOptimized m')) then false
      else if negb (Bool.eqb (_cacheConnection m) (_cacheConnection m')) then false
      else if negb (bool_decide (_endpointSelection m = _endpointSelection m')) then false
      else if negb (str_eqb (_connectionId m) (_connectionId m')) then false
      else if negb (Bool.eqb (_overrideTimeout m) (_overrideTimeout m')) ||
              (_overrideTimeout m && negb (_timeout m =? _timeout m')) then false
      else if negb (handle_eqb reference_eqb ro ro') then false
      else if negb (handle_eqb reference_eqb l l') then false
      else if negb (endpoints_eqb (_endpoints m) (_endpoints m')) then false
      else if negb (str_eqb (_adapterId m) (_adapterId m')) then false
      else if negb (_locatorCacheTimeout m =? _locatorCacheTimeout m') then false
      else true
  | _, _ => false
  end.

(** The members of [RoutableReference], from [_preferSecure] on. [ro_lt] and
    [ro_gt] say whether the router of the left reference is less, or greater, than
    the one of the right reference, [l_lt] and [l_gt] the same of the locators. *)
Definition routable_ltb (m m' : RoutableMembers) (ro_lt ro_gt l_lt l_gt : bool) : bool :=
  before bool_ltb (_preferSecure m) (_preferSecure m')
  (before bool_ltb (_collocationOptimized m) (_collocationOptimized m')
  (before bool_ltb (_cacheConnection m) (_cacheConnection m')
  (before Z.ltb (selection_code (_endpointSelection m)) (selection_code (_endpointSelection m'))
  (before str_ltb (_connectionId m) (_connectionId m')
  (before bool_ltb (_overrideTimeout m) (_overrideTimeout m')
  (let rest :=
     if ro_lt then true
     else if ro_gt then false
     else if l_lt then true
     else if l_gt then false
     else
       before str_ltb (_adapterId m) (_adapterId m')
       (before (list_ltb endpoint_ltb) (_endpoints m) (_endpoints m')
       (before Z.ltb (_locatorCacheTimeout m) (_locatorCacheTimeout m') false)) in
   if _overrideTimeout m then before Z.ltb (_timeout m) (_timeout m') rest else rest)))))).

(** [operator<] of a class starts with the one of [Reference]. *)
Definition base_before (b b' : ReferenceBase) (rest : bool) : bool :=
  if base_ltb b b' then true else if negb (base_eqb b b') then false else rest.

(** [operator<] of [FixedReference] and [RoutableReference], called for [r < r'] and
    for [r' < r], which are both needed for the routers and the locators. Routable
    references come before fixed ones. *)
Fixpoint reference_order (r r' : Reference) : bool * bool :=
  match r, r' with
  | FixedReference b c, FixedReference b' c' =>
      (base_before b b' (fc_address c <? fc_address c'), base_before b' b (fc_address c' <? fc_address c))
  | FixedReference b _, RoutableReference b' _ _ _ => (base_before b b' false, base_before b' b true)
  | RoutableReference b _ _ _, FixedReference b' _ => (base_before b b' true, base_before b' b false)
  | RoutableReference b m l ro, RoutableReference b' m' l' ro' =>
      let '(ro_lt, ro_gt) := handle_order reference_order ro ro' in
      let '(l_lt, l_gt) := handle_order reference_order l l' in
      (base_before b b' (routable_ltb m m' ro_lt ro_gt l_lt l_gt),
       base_before b' b (routable_ltb m' m ro_gt ro_lt l_gt l_lt))
  end.

Definition reference_ltb (r r' : Reference) : bool := fst (reference_order r r').

(** ** Hash values *)

(** [Reference::hashInit] *)
Definition base_hash (r : ReferenceBase) : Z :=
  let h := hashAdd_bool (hashAdd_Int 5381 (mode_code (_mode r))) (_secure r) in
  let h := hashAdd_string (hashAdd_string h (name (_identity r))) (category (_identity r)) in
  let h := fold_left (fun h kv => hashAdd_string (hashAdd_string h (fst kv)) (snd kv)) (in_order (_context r)) h in
  let h := hashAdd_bool (hashAdd_string h (_facet r)) (_overrideCompress r) in
  let h := if _overrideCompress r then hashAdd_bool h (_compress r) else h in
  let h := hashAdd_Int (hashAdd_Int h (ord (major (_protocol r)))) (ord (minor (_protocol r))) in
  hashAdd_Int (hashAdd_Int h (ord (major (_encoding r)))) (ord (minor (_encoding r))).

Definition reference_hash (r : Reference) : Z :=
  match r with
  | FixedReference b _ => base_hash b
  | RoutableReference b m _ _ => hashAdd_string (base_hash b) (_adapterId m)
  end.

(** ** Changes *)

(** [ReferenceFactory::copy] answers null for a reference without an identity,
    and its callers use the result without a check. *)
Definition copy (r : Reference) : result Reference :=
  if empty_string (name (getIdentity r)) && empty_string (category (getIdentity r))
  then Throw NullHandleException else Ok r.

Definition change_base (unchanged : bool) (f : ReferenceBase -> ReferenceBase) (r : Reference) : result Reference :=
  if unchanged then Ok r else r ← copy r; Ok (set_base (f (base_of r)) r).

Definition changeContext (newContext : gmap str str) (r : Reference) : result Reference :=
  change_base false (fun '(MkBase mo se id _ fa pr en oc co) => MkBase mo se id newContext fa pr en oc co) r.

Definition changeMode (newMode : Mode) (r : Reference) : result Reference :=
  change_base (bool_decide (newMode = getMode r))
    (fun '(MkBase _ se id cx fa pr en oc co) => MkBase newMode se id cx fa pr en oc co) r.

Definition changeSecure (newSecure : bool) (r : Reference) : result Reference :=
  change_base (Bool.eqb newSecure (getSecure r))
    (fun '(MkBase mo _ id cx fa pr en oc co) => MkBase mo newSecure id cx fa pr en oc co) r.

Definition changeIdentity (newIdentity : Identity) (r : Reference) : result Reference :=
  change_base (bool_decide (newIdentity = getIdentity r))
    (fun '(MkBase mo se _ cx fa pr en oc co) => MkBase mo se newIdentity cx fa pr en oc co) r.

Definition changeFacet (newFacet : str) (r : Reference) : result Reference :=
  change_base (str_eqb newFacet (getFacet r))
    (fun '(MkBase mo se id cx _ pr en oc co) => MkBase mo se id cx newFacet pr en oc co) r.

Definition change_encoding_base (encoding : EncodingVersion) (r : Reference) : result Reference :=
  change_base (encoding_eqb (getEncoding r) encoding)
    (fun '(MkBase mo se id cx fa pr _ oc co) => MkBase mo se id cx fa pr encoding oc co) r.

(** The compression is unchanged when it is overridden with the same value. *)
Definition compress_unchanged (newCompress : bool) (r : Reference) : bool :=
  _overrideCompress (base_of r) && Bool.eqb newCompress (_compress (base_of r)).

(** [FixedProxyException] for a fixed reference *)
Definition change_routable (unchanged : RoutableMembers -> bool) (f : RoutableMembers -> RoutableMembers)
    (r : Reference) : result Reference :=
  match r with
  | FixedReference _ _ => Throw FixedProxyException
  | RoutableReference base m l ro =>
      if unchanged m then Ok r else r ← copy r; Ok (RoutableReference base (f m) l ro)
  end.

Definition set_endpoints (endpoints : list EndpointI) (m : RoutableMembers) : RoutableMembers :=
  MkRoutable endpoints (_adapterId m) (_collocationOptimized m) (_cacheConnection m) (_preferSecure m)
    (_endpointSelection m) (_locatorCacheTimeout m) (_overrideTimeout m) (_timeout m) (_connectionId m).

Definition changeCompress (newCompress : bool) (r : Reference) : result Reference :=
  r' ← change_base (compress_unchanged newCompress r)
    (fun '(MkBase mo se id cx fa pr en _ _) => MkBase mo se id cx fa pr en true newCompress) r;
  match r' with
  | RoutableReference base m l ro =>
      if negb (compress_unchanged newCompress r) && negb (no_endpoints (_endpoints m))
      then Ok (RoutableReference base (set_endpoints (change_compress newCompress <$> _endpoints m) m) l ro)
      else Ok r'
  | FixedReference _ _ => Ok r'
  end.

(** [applyOverrides]: on one endpoint *)
Definition override_endpoint (base : ReferenceBase) (m : RoutableMembers) (e : EndpointI) : EndpointI :=
  let e := change_connectionId (_connectionId m) e in
  let e := if _overrideCompress base then change_compress (_compress base) e else e in
  if _overrideTimeout m then change_timeout (_timeout m) e else e.

Definition applyOverrides (base : ReferenceBase) (m : RoutableMembers) (endpoints : list EndpointI) : list EndpointI :=
  override_endpoint base m <$> endpoints.

Definition changeEndpoints (newEndpoints : list EndpointI) (r : Reference) : result Reference :=
  change_routable (fun m => endpoints_eqb newEndpoints (_endpoints m))
    (fun m => set_endpoints (applyOverrides (base_of r) m newEndpoints)
       (MkRoutable [] [] (_collocationOptimized m) (_cacheConnection m) (_preferSecure m)
          (_endpointSelection m) (_locatorCacheTimeout m) (_overrideTimeout m) (_timeout m) (_connectionId m))) r.

Definition changeAdapterId (newAdapterId : str) (r : Reference) : result Reference :=
  change_routable (fun m => str_eqb newAdapterId (_adapterId m))
    (fun '(MkRoutable _ _ co ca ps es lt ot ti ci) => MkRoutable [] newAdapterId co ca ps es lt ot ti ci) r.

Definition changeCollocationOptimized (new : bool) (r : Reference) : result Reference :=
  change_routable (fun m => Bool.eqb new (_collocationOptimized m))
    (fun '(MkRoutable ep ad _ ca ps es lt ot ti ci) => MkRoutable ep ad new ca ps es lt ot ti ci) r.

Definition changeCacheConnection (new : bool) (r : Reference) : result Reference :=
  change_routable (fun m => Bool.eqb new (_cacheConnection m))
    (fun '(MkRoutable ep ad co _ ps es lt ot ti ci) => MkRoutable ep ad co new ps es lt ot ti ci) r.

Definition changePreferSecure (new : bool) (r : Reference) : result Reference :=
  change_routable (fun m => Bool.eqb new (_preferSecure m))
    (fun '(MkRoutable ep ad co ca _ es lt ot ti ci) => MkRoutable ep ad co ca new es lt ot ti ci) r.

Definition changeEndpointSelection (new : EndpointSelectionType) (r : Reference) : result Reference :=
  change_routable (fun m => bool_decide (new = _endpointSelection m))
    (fun '(MkRoutable ep ad co ca ps _ lt ot ti ci) => MkRoutable ep ad co ca ps new lt ot ti ci) r.

Definition changeLocatorCacheTimeout (timeout : Z) (r : Reference) : result Reference :=
  change_routable (fun m => timeout =? _locatorCacheTimeout m)
    (fun '(MkRoutable ep ad co ca ps es _ ot ti ci) => MkRoutable ep ad co ca ps es timeout ot ti ci) r.

Definition changeTimeout (newTimeout : Z) (r : Reference) : result Reference :=
  change_routable (fun m => _overrideTimeout m && (newTimeout =? _timeout m))
    (fun '(MkRoutable ep ad co ca ps es lt _ _ ci) =>
       MkRoutable (change_timeout newTimeout <$> ep) ad co ca ps es lt true newTimeout ci) r.

Definition changeConnectionId (id : str) (r : Reference) : result Reference :=
  change_routable (fun m => str_eqb id (_connectionId m))
    (fun '(MkRoutable ep ad co ca ps es lt ot ti _) =>
       MkRoutable (change_connectionId id <$> ep) ad co ca ps es lt ot ti id) r.

(** *** Locators and routers *)

(** [LocatorManager::get] and [RouterManager::get], as far as the reference that
    stands for their result is concerned: the locator can't be located, the
    router can't be routed. *)
Definition locator_get (loc : option Reference) : result (option Reference) :=
  match loc with
  | None => Ok None
  | Some (FixedReference _ _) => Throw FixedProxyException
  | Some (RoutableReference _ _ None _ as l) => Ok (Some l)
  | Some (RoutableReference b m (Some _) ro as l) => copy l;; Ok (Some (RoutableReference b m None ro))
  end.

Definition router_get (rtr : option Reference) : result (option Reference) :=
  match rtr with
  | None => Ok None
  | Some (FixedReference _ _) => Throw FixedProxyException
  | Some (RoutableReference _ _ _ None as r) => Ok (Some r)
  | Some (RoutableReference b m l (Some _) as r) => copy r;; Ok (Some (RoutableReference b m l None))
  end.

Definition changeLocator (newLocator : option Reference) (r : Reference) : result Reference :=
  match r with
  | FixedReference _ _ => Throw FixedProxyException
  | RoutableReference base m l ro =>
      newLocatorInfo ← locator_get newLocator;
      if handle_eqb reference_eqb newLocatorInfo l then Ok r
      else copy r;; Ok (RoutableReference base m newLocatorInfo ro)
  end.

Definition changeRouter (newRouter : option Reference) (r : Reference) : result Reference :=
  match r with
  | FixedReference _ _ => Throw FixedProxyException
  | RoutableReference base m l ro =>
      newRouterInfo ← router_get newRouter;
      if handle_eqb reference_eqb newRouterInfo ro then Ok r
      else copy r;; Ok (RoutableReference base m l newRouterInfo)
  end.

(** A routable reference also changes the encoding that its locator is called
    with. *)
Fixpoint changeEncoding (encoding : EncodingVersion) (r : Reference) : result Reference :=
  r' ← change_encoding_base encoding r;
  match r with
  | RoutableReference _ m (Some locator) ro =>
      if negb (encoding_eqb (getEncoding r) encoding) && negb (encoding_eqb (getEncoding locator) encoding) then
        locator' ← changeEncoding encoding locator;
        locInfo ← locator_get (Some locator');
        Ok (RoutableReference (base_of r') m locInfo ro)
      else Ok r'
  | _ => Ok r'
  end.

(** ** Connections *)

(** What the choice of a connection takes from [DefaultsAndOverrides] *)
Class Overrides : Type := { overrideSecure : option bool; override_compress : option bool }.

Definition for_datagrams (m : Mode) : bool :=
  match m with ModeDatagram | ModeBatchDatagram => true | _ => false end.

(** [FixedReference::getConnection]: the connection and whether to compress *)
Definition fixed_getConnection `{OV : Overrides} (base : ReferenceBase) (c : FixedConnection)
    : result (FixedConnection * bool) :=
  let e := fc_endpoint c in
  if negb (Bool.eqb (for_datagrams (_mode base)) (datagram e)) then Throw (NoEndpointException [])
  else
    let secure_only := default (_secure base) overrideSecure in
    if secure_only && negb (secure e) then Throw (NoEndpointException [])
    else
      match fc_exception c with
      | Some ex => Throw ex
      | None =>
          Ok (c, match override_compress with
                 | Some compress => compress
                 | None => if _overrideCompress base then _compress base else endpoint_compress e
                 end)
      end.

(** [remove_if] followed by [erase] keeps the others in their order. *)
Definition removing (P : EndpointI -> bool) (l : list EndpointI) : list EndpointI := List.filter (fun e => negb (P e)) l.

(** [stable_partition] *)
Definition stable_partition (P : EndpointI -> bool) (l : list EndpointI) : list EndpointI :=
  List.filter P l ++ List.filter (fun e => negb (P e)) l.

(** [RoutableReference::filterEndpoints]. [random_shuffle] is what
    [std::random_shuffle] makes of a list. *)
Definition filterEndpoints `{OV : Overrides} (random_shuffle : list EndpointI -> list EndpointI)
    (base : ReferenceBase) (m : RoutableMembers) (allEndpoints : list EndpointI) : list EndpointI :=
  let endpoints := removing is_opaque allEndpoints in
  let endpoints :=
    if for_datagrams (_mode base) then removing (fun e => negb (datagram e)) endpoints
    else removing datagram endpoints in
  let endpoints := match _endpointSelection m with Random => random_shuffle endpoints | Ordered => endpoints end in
  if default (_secure base) overrideSecure then removing (fun e => negb (secure e)) endpoints
  else if _preferSecure m then stable_partition secure endpoints
  else stable_partition (fun e => negb (secure e)) endpoints.
