(* ===== verification/ReferenceSpec.v ===== *)
(** * What references promise

    The endpoints that a connection is attempted to: which ones, and in what
    order. *)

From S2P Require Import Prelude CxxString Layout Protocol Stream Endpoint Reference.

Section filter.
Context `{OV : Overrides} (random_shuffle : list EndpointI -> list EndpointI).

(** An endpoint of a known type that fits the mode of the reference and is secure if
    only secure endpoints may be used *)
Definition secure_only (b : ReferenceBase) : bool := default (_secure b) overrideSecure.

Definition usable (b : ReferenceBase) (e : EndpointI) : bool :=
  negb (is_opaque e) && Bool.eqb (datagram e) (for_datagrams (_mode b)) && (negb (secure_only b) || secure e).

Lemma filter_filter (P Q : EndpointI -> bool) l : List.filter P (List.filter Q l) = List.filter (fun e => Q e && P e) l.
Proof.
  induction l as [|e l IH]; [done|]. cbn. destruct (Q e); cbn; [|exact IH]. destruct (P e); by rewrite IH.
Qed.

Lemma filter_same (P Q : EndpointI -> bool) l : (forall e, P e = Q e) -> List.filter P l = List.filter Q l.
Proof. intros H. induction l as [|e l IH]; [done|]. cbn. by rewrite H, IH. Qed.

Lemma filter_perm (P : EndpointI -> bool) l m : l ≡ₚ m -> List.filter P l ≡ₚ List.filter P m.
Proof.
  induction 1 as [|e l m _ IH|e f l|l m n _ IH1 _ IH2]; [done|..]; cbn.
  - destruct (P e); by rewrite IH.
  - destruct (P e), (P f); try done. apply perm_swap.
  - by rewrite IH1.
Qed.

Lemma partition_perm P l : stable_partition P l ≡ₚ l.
Proof.
  unfold stable_partition. induction l as [|e l IH]; [done|]. cbn. destruct (P e); cbn [negb].
  - by rewrite <- app_comm_cons, IH.
  - by rewrite <- Permutation_middle, IH.
Qed.

Lemma filter_forall (P : EndpointI -> bool) l : Forall (fun e => P e = true) (List.filter P l).
Proof. apply Forall_forall. intros e He%list_elem_of_In. by apply filter_In in He as [_ He]. Qed.

Lemma filter_none (P : EndpointI -> bool) l : Forall (fun e => P e = false) l -> List.filter P l = [].
Proof. induction 1 as [|e l He _ IH]; [done|]. cbn. by rewrite He. Qed.

Lemma filter_true (l : list EndpointI) : List.filter (fun _ => true) l = l.
Proof. induction l as [|e l IH]; cbn; by rewrite ?IH. Qed.

(** A stable partition keeps the order inside of each part. *)
Lemma partition_part (P Q : EndpointI -> bool) l : (forall e, Q e = P e) \/ (forall e, Q e = negb (P e)) ->
  List.filter P (stable_partition Q l) = List.filter P l.
Proof.
  intros H. unfold stable_partition. rewrite List.filter_app, !filter_filter. destruct H as [H|H].
  - rewrite (filter_same (fun e => Q e && P e) P) by (intros e; rewrite H; by destruct (P e)).
    rewrite (filter_none (fun e => negb (Q e) && P e)); [apply app_nil_r|].
    apply Forall_forall. intros e _. rewrite H. by destruct (P e).
  - rewrite (filter_none (fun e => Q e && P e)).
    + apply filter_same. intros e. rewrite H. by destruct (P e).
    + apply Forall_forall. intros e _. rewrite H. by destruct (P e).
Qed.

(** The endpoints in the order before the secure ones are preferred, or not *)
Definition selected (b : ReferenceBase) (m : RoutableMembers) (l : list EndpointI) : list EndpointI :=
  let fit := List.filter (fun e => negb (is_opaque e) && Bool.eqb (datagram e) (for_datagrams (_mode b))) l in
  match _endpointSelection m with Random => random_shuffle fit | Ordered => fit end.

Lemma filterEndpoints_selected b m l : filterEndpoints random_shuffle b m l =
  if secure_only b then List.filter secure (selected b m l)
  else if _preferSecure m then stable_partition secure (selected b m l)
  else stable_partition (fun e => negb (secure e)) (selected b m l).
Proof.
  unfold filterEndpoints, selected, removing. fold (secure_only b).
  assert ((if for_datagrams (_mode b)
    then List.filter (fun e => negb (negb (datagram e))) (List.filter (fun e => negb (is_opaque e)) l)
    else List.filter (fun e => negb (datagram e)) (List.filter (fun e => negb (is_opaque e)) l)) =
    List.filter (fun e => negb (is_opaque e) && Bool.eqb (datagram e) (for_datagrams (_mode b))) l) as ->.
  { destruct (for_datagrams (_mode b)); rewrite filter_filter; apply filter_same; intros e; by destruct (datagram e). }
  destruct (secure_only b); [|done]. apply filter_same. intros e. apply negb_involutive.
Qed.

(** C23. The endpoints that a connection is attempted to are the known ones that fit
    the mode of the reference and are secure if security is demanded, each as often
    as it is given; the secure ones come first if they are demanded or preferred and
    last otherwise, and with ordered selection both groups keep their order. *)
Theorem filterEndpoints_spec b m l : (forall k, random_shuffle k ≡ₚ k) ->
  filterEndpoints random_shuffle b m l ≡ₚ List.filter (usable b) l /\
  (exists first rest, filterEndpoints random_shuffle b m l = first ++ rest /\
    Forall (fun e => secure e = secure_only b || _preferSecure m) first /\
    Forall (fun e => secure e = negb (secure_only b || _preferSecure m)) rest) /\
  (_endpointSelection m = Ordered -> forall kind,
    List.filter (fun e => Bool.eqb (secure e) kind) (filterEndpoints random_shuffle b m l) =
    List.filter (fun e => Bool.eqb (secure e) kind) (List.filter (usable b) l)).
Proof.
  intros Hsh. rewrite !filterEndpoints_selected. set (k := selected b m l).
  assert (k ≡ₚ List.filter (fun e => negb (is_opaque e) && Bool.eqb (datagram e) (for_datagrams (_mode b))) l) as Hk.
  { unfold k, selected. destruct (_endpointSelection m); [apply Hsh|done]. }
  assert (forall P, (forall e, P e = negb (secure_only b) || secure e) ->
    List.filter P (List.filter (fun e => negb (is_opaque e) && Bool.eqb (datagram e) (for_datagrams (_mode b))) l) =
    List.filter (usable b) l) as Hu.
  { intros P HP. rewrite filter_filter. apply filter_same. intros e. unfold usable. by rewrite HP. }
  assert (secure_only b = false -> k ≡ₚ List.filter (usable b) l) as Hk0.
  { intros Hs. rewrite Hk, <- (Hu (fun _ => true)) by (by rewrite Hs). by rewrite filter_true. }
  split_and!.
  - destruct (secure_only b) eqn:Es; [|destruct (_preferSecure m); rewrite partition_perm; by apply Hk0].
    rewrite (filter_perm secure _ _ Hk). by rewrite Hu.
  - destruct (secure_only b) eqn:Es; [exists (List.filter secure k), []|destruct (_preferSecure m); eexists _, _].
    + rewrite app_nil_r. split_and!; [done|apply filter_forall|constructor].
    + split_and!; [done|apply filter_forall|]. eapply Forall_impl; [apply filter_forall|]. intros e He. by apply negb_true_iff.
    + split_and!; [done| |]; (eapply Forall_impl; [apply filter_forall|]); intros e He; cbn; [by apply negb_true_iff|].
      cbn in He. by rewrite negb_involutive in He.
  - intros Ho kind. assert (k = List.filter (fun e => negb (is_opaque e) && Bool.eqb (datagram e) (for_datagrams (_mode b))) l) as Ek.
    { unfold k, selected. by rewrite Ho. }
    destruct (secure_only b) eqn:Es; [by rewrite Ek, Hu|].
    assert (k = List.filter (usable b) l) as <-.
    { by rewrite Ek, <- (Hu (fun _ => true)), filter_true. }
    destruct (_preferSecure m); apply partition_part; destruct kind.
    + left. intros e. by destruct (secure e).
    + right. intros e. by destruct (secure e).
    + right. intros e. by destruct (secure e).
    + left. intros e. by destruct (secure e).
Qed.
End filter.

Module SampleFilter.
Definition no_overrides : Overrides := {| overrideSecure := None; override_compress := None |}.
Definition base : ReferenceBase := MkBase ModeOneway false (Identity.MkIdentity (lit "a") []) ∅ [] Encoding_1_0 Encoding_1_1 false false.
Definition members : RoutableMembers := MkRoutable [] [] true true true Ordered 0 false (-1) [].
Definition tcp (p : Z) : EndpointI := TcpEndpointI (MkTcp (lit "h") p (-1) [] false).
Definition ssl (p : Z) : EndpointI := SslEndpointI (MkTcp (lit "h") p (-1) [] false).
Definition udp : EndpointI := UdpEndpointI (MkUdp (lit "h") 5 [] (-1) false [] false).
Definition all : list EndpointI := [tcp 1; OpaqueEndpointI (MkOpaque 9 Encoding_1_1 []); ssl 2; udp; tcp 3; ssl 4].
End SampleFilter.

Lemma filterEndpoints_spec_witness :
  filterEndpoints (OV := SampleFilter.no_overrides) reverse SampleFilter.base SampleFilter.members SampleFilter.all =
    [SampleFilter.ssl 2; SampleFilter.ssl 4; SampleFilter.tcp 1; SampleFilter.tcp 3] /\
  filterEndpoints (OV := SampleFilter.no_overrides) reverse SampleFilter.base SampleFilter.members SampleFilter.all ≡ₚ
    List.filter (usable (OV := SampleFilter.no_overrides) SampleFilter.base) SampleFilter.all.
Proof.
  split; [by vm_compute|].
  apply (filterEndpoints_spec (OV := SampleFilter.no_overrides) reverse SampleFilter.base SampleFilter.members SampleFilter.all).
  apply reverse_Permutation.
Defined.
