(* ===== verification/ReferenceOrder.v ===== *)
(** * The order of references

    References are keys of maps: [operator<] must be a strict weak order whose
    equivalence is [operator==], and equal references must have equal hash
    values. The comparison operators compare member by member; they compare codes
    of the objects, lists of integers, in lexicographical order. *)

From S2P Require Import Prelude CxxString Layout Protocol Stream StringUtil OrderedMap StreamHelpers Identity Endpoint EndpointText Reference.

(** ** Codes *)

Definition lex : list Z -> list Z -> bool := list_ltb Z.ltb.

Lemma lex_irrefl l : lex l l = false.
Proof. induction l as [|x l IH]; [done|]. unfold lex in *. cbn. by rewrite Z.ltb_irrefl, IH. Qed.

Lemma lex_total l : forall m, lex l m = false -> lex m l = false -> l = m.
Proof.
  induction l as [|x l IH]; intros [|y m] H1 H2; try done. unfold lex in *. cbn in *.
  apply orb_false_iff in H1 as [H1 H3], H2 as [H2 H4]. rewrite H1, H2 in *. cbn in *. bool_to_prop.
  assert (x = y) as -> by lia. f_equal. by apply IH.
Qed.

Lemma lex_trans l : forall m n, lex l m = true -> lex m n = true -> lex l n = true.
Proof.
  induction l as [|x l IH]; intros [|y m] [|z n] H1 H2; try done. unfold lex in *. cbn in *.
  apply orb_true_iff in H1, H2. apply orb_true_iff.
  destruct H1 as [H1|[H1 H3]%andb_true_iff], H2 as [H2|[H2 H4]%andb_true_iff]; bool_to_prop.
  - left. apply Z.ltb_lt. lia.
  - left. apply Z.ltb_lt. lia.
  - left. apply Z.ltb_lt. lia.
  - destruct (decide (x < z)); [left; by apply Z.ltb_lt|right]. apply andb_true_iff.
    split; [apply negb_true_iff, Z.ltb_ge; lia|by eapply IH].
Qed.

(** [key] codes the order [ltb] and the equality [eqb] of the objects of [P]:
    whatever follows a code is compared only for equal objects. *)
Record coded {A} (P : A -> Prop) (ltb eqb : A -> A -> bool) (key : A -> list Z) : Prop := {
  coded_lt : forall x y s t, P x -> P y -> lex (key x ++ s) (key y ++ t) = before ltb x y (lex s t);
  coded_inj : forall x y s t, P x -> P y -> key x ++ s = key y ++ t -> eqb x y = true /\ s = t;
  coded_same : forall x y, P x -> P y -> eqb x y = true -> key x = key y
}.

Definition anything {A} (x : A) : Prop := True.

(** ** Codes of the basic types *)

Definition int_key (z : Z) : list Z := [z].
Definition bool_key (c : bool) : list Z := [Z.b2z c].

Lemma coded_Z : coded anything Z.ltb Z.eqb int_key.
Proof.
  split.
  - intros x y s t _ _. unfold lex, before. cbn. destruct (x <? y) eqn:Hxy; [done|]. cbn. by destruct (y <? x).
  - intros x y s t _ _ [= -> ->]. by rewrite Z.eqb_refl.
  - by intros x y _ _ ->%Z.eqb_eq.
Qed.

Lemma coded_bool : coded anything bool_ltb Bool.eqb bool_key.
Proof.
  split.
  - by intros [] [] s t _ _.
  - by intros [] [] s t _ _ [= ->].
  - by intros [] [].
Qed.

Fixpoint string_key (s : str) : list Z := match s with [] => [0] | c :: s' => ord c + 1 :: string_key s' end.

Lemma coded_string : coded anything str_ltb str_eqb string_key.
Proof.
  split.
  - intros x y s t _ _. revert y. induction x as [|c x IH]; intros [|d y]; unfold lex, before in *; cbn.
    + done.
    + pose proof (ord_range d). by rewrite (proj2 (Z.ltb_lt 0 (ord d + 1))) by lia.
    + pose proof (ord_range c). by rewrite (proj2 (Z.ltb_ge (ord c + 1) 0)), (proj2 (Z.ltb_lt 0 (ord c + 1))) by lia.
    + rewrite IH.
      assert (forall a b : Z, (a + 1 <? b + 1) = (a <? b)) as E by (intros a b; destruct (a <? b) eqn:F; bool_to_prop; [apply Z.ltb_lt|apply Z.ltb_ge]; lia).
      rewrite !E. destruct (ord c <? ord d) eqn:H1, (ord d <? ord c) eqn:H2; bool_to_prop; try lia; cbn; try done.
      * assert (c <> d) by (intros ->; lia). by rewrite (proj2 (ceq_false c d)).
      * assert (ord c = ord d) as F by lia. apply ord_inj in F as ->. by rewrite ceq_refl.
  - intros x y s t _ _. revert y. induction x as [|c x IH]; intros [|d y] H; cbn in H.
    + by injection H.
    + pose proof (ord_range d). injection H as H _. lia.
    + pose proof (ord_range c). injection H as H _. lia.
    + injection H as H1 H2. destruct (IH _ H2) as [Hxy Hst]. apply str_eqb_true in Hxy as ->. assert (ord c = ord d) as F by lia. apply ord_inj in F as ->.
      split; [|done]. by apply str_eqb_true.
  - by intros x y _ _ ->%str_eqb_true.
Qed.

Section codes.
Context {A : Type} (P : A -> Prop) (ltb eqb : A -> A -> bool) (key : A -> list Z) (Hc : coded P ltb eqb key).

(** *** What a code says about the operators *)

Lemma coded_key_lt x y : P x -> P y -> ltb x y = true -> lex (key x) (key y) = true.
Proof.
  intros Hx Hy H. pose proof (coded_lt _ _ _ _ Hc x y [] [] Hx Hy) as E. rewrite !app_nil_r in E. rewrite E.
  unfold before. by rewrite H.
Qed.

Lemma coded_irrefl x : P x -> ltb x x = false.
Proof.
  intros Hx. destruct (ltb x x) eqn:H; [|done]. apply coded_key_lt in H; [|done..]. by rewrite lex_irrefl in H.
Qed.

Lemma coded_ltb x y : P x -> P y -> ltb x y = lex (key x) (key y).
Proof.
  intros Hx Hy. pose proof (coded_lt _ _ _ _ Hc x y [] [] Hx Hy) as E. rewrite !app_nil_r in E. rewrite E. unfold before.
  destruct (ltb x y), (ltb y x); done.
Qed.

Lemma coded_eqb x y : P x -> P y -> eqb x y = true <-> key x = key y.
Proof.
  intros Hx Hy. split; [by apply (coded_same _ _ _ _ Hc)|]. intros E.
  apply (coded_inj _ _ _ _ Hc x y [] []); [done..|]. by rewrite E.
Qed.

Lemma coded_neither x y : P x -> P y -> eqb x y = negb (ltb x y) && negb (ltb y x).
Proof.
  intros Hx Hy. rewrite !coded_ltb by done. destruct (eqb x y) eqn:E.
  - apply coded_eqb in E as ->; [|done..]. by rewrite lex_irrefl.
  - destruct (lex (key x) (key y)) eqn:H1; [done|]. destruct (lex (key y) (key x)) eqn:H2; [done|].
    pose proof (lex_total _ _ H1 H2) as F. apply coded_eqb in F; [|done..]. congruence.
Qed.

(** *** Lists, handles and members *)

Definition list_key (l : list A) : list Z := (l ≫= fun x => 1 :: key x) ++ [0].

Fixpoint list_eqb (l m : list A) : bool :=
  match l, m with
  | [], [] => true
  | x :: l', y :: m' => eqb x y && list_eqb l' m'
  | _, _ => false
  end.

Lemma coded_list : coded (Forall P) (list_ltb ltb) list_eqb list_key.
Proof.
  assert (forall x l s, list_key (x :: l) ++ s = 1 :: key x ++ list_key l ++ s) as Hk.
  { intros x l s. unfold list_key. cbn. by rewrite <- !app_assoc. }
  split.
  - intros l m s t Hl. revert m. induction Hl as [|x l Hx Hl IH]; intros m Hm; destruct Hm as [|y m Hy Hm]; try done.
    rewrite !Hk. specialize (IH m Hm). unfold lex in *. cbn [list_ltb]. rewrite Z.ltb_irrefl. cbn [negb orb andb].
    change (list_ltb Z.ltb) with lex in *. rewrite (coded_lt _ _ _ _ Hc), IH by done. unfold before. cbn [list_ltb].
    by destruct (ltb x y), (ltb y x).
  - intros l m s t Hl. revert m. induction Hl as [|x l Hx Hl IH]; intros m Hm; destruct Hm as [|y m Hy Hm]; rewrite ?Hk; intros E.
    + by injection E.
    + done.
    + done.
    + injection E as E. apply (coded_inj _ _ _ _ Hc) in E as [H1 E]; [|done..]. destruct (IH m Hm E) as [H2 ->].
      cbn. by rewrite H1, H2.
  - intros l m Hl. revert m. induction Hl as [|x l Hx Hl IH]; intros m Hm; destruct Hm as [|y m Hy Hm]; try done.
    cbn [list_eqb]. intros [H1 H2]%andb_true_iff. pose proof (Hk x l []) as E1. pose proof (Hk y m []) as E2.
    rewrite !app_nil_r in E1, E2. rewrite E1, E2. f_equal. f_equal; [by apply (coded_same _ _ _ _ Hc)|by apply IH].
Qed.

(** [operator<] of two handles: null is the least. *)
Definition handle_ltb (p q : option A) : bool :=
  match p, q with Some x, Some y => ltb x y | None, Some _ => true | _, None => false end.

Definition handle_key (p : option A) : list Z := match p with Some x => 1 :: key x | None => [0] end.

Lemma coded_handle : coded (fun p => match p with Some x => P x | None => True end)
  handle_ltb (handle_eqb eqb) handle_key.
Proof.
  split.
  - intros [x|] [y|] s t Hx Hy; try done. unfold lex. cbn [handle_key app list_ltb]. rewrite Z.ltb_irrefl. cbn [negb orb andb].
    by apply (coded_lt _ _ _ _ Hc).
  - intros [x|] [y|] s t Hx Hy E; cbn in E; try done; injection E as E; [|done]. by apply (coded_inj _ _ _ _ Hc).
  - intros [x|] [y|] Hx Hy E; try done. cbn. f_equal. by apply (coded_same _ _ _ _ Hc).
Qed.

Lemma coded_member {B} (f : B -> A) : (coded (fun x => P (f x)) (fun x y => ltb (f x) (f y)) (fun x y => eqb (f x) (f y)) (fun x => key (f x))).
Proof.
  split; intros x y.
  - intros s t Hx Hy. by apply (coded_lt _ _ _ _ Hc).
  - intros s t Hx Hy. by apply (coded_inj _ _ _ _ Hc).
  - intros Hx Hy. by apply (coded_same _ _ _ _ Hc).
Qed.
End codes.

(** ** Objects that are compared member by member *)

(** Compares the codes of the members, from the first to the last. *)
Ltac compare_members :=
  repeat first
    [ rewrite (coded_lt _ _ _ _ coded_Z) by done
    | rewrite (coded_lt _ _ _ _ coded_bool) by done
    | rewrite (coded_lt _ _ _ _ coded_string) by done ].

(** The first member on which two objects differ decides. *)
Ltac first_difference :=
  unfold before; repeat (match goal with
    |- context [if ?c then _ else _] => lazymatch c with if _ then _ else _ => fail | _ => destruct c end end; try done).

(** Rewrites with the members that equality tests found equal. *)
Ltac equal_fields :=
  repeat match goal with
  | Hb : bool_decide (_ = _) = true |- _ => apply bool_decide_eq_true in Hb; rewrite Hb in *; clear Hb
  | Hb : Bool.eqb _ _ = true |- _ => apply eqb_prop in Hb; rewrite Hb in *; clear Hb
  | Hb : encoding_eqb _ _ = true |- _ => apply encoding_eqb_true in Hb; rewrite Hb in *; clear Hb
  | Hb : str_eqb _ _ = true |- _ => apply str_eqb_true in Hb; rewrite Hb in *; clear Hb
  | Hb : (_ =? _) = true |- _ => apply Z.eqb_eq in Hb; rewrite Hb in *; clear Hb
  end.

(** The members of objects with the same code are equal. *)
Ltac split_code E :=
  repeat first
    [ apply (coded_inj _ _ _ _ coded_bool) in E as [? E]; [|done|done]
    | apply (coded_inj _ _ _ _ coded_Z) in E as [? E]; [|done|done]
    | apply (coded_inj _ _ _ _ coded_string) in E as [? E]; [|done|done] ].

Ltac equal_members := repeat match goal with H : _ = true |- _ => rewrite H; clear H end.

(** The tests that an equality operator made *)
Ltac tested H :=
  repeat match type of H with (if negb ?c then false else _) = true => destruct c eqn:?; cbn [negb] in H; [|done] end.

Ltac same_members :=
  repeat first
    [ by apply (coded_same _ _ _ _ coded_bool) | by apply (coded_same _ _ _ _ coded_Z) | by apply (coded_same _ _ _ _ coded_string)
    | f_equal ].

Definition tcp_key (e : TcpEndpoint) : list Z :=
  string_key (tcp_host e) ++ int_key (tcp_port e) ++ int_key (tcp_timeout e) ++ string_key (tcp_connectionId e) ++
  bool_key (tcp_compress e).

Lemma coded_tcp : coded anything tcp_ltb tcp_eqb tcp_key.
Proof.
  split; intros x y; unfold tcp_key.
  - intros s t _ _. rewrite <- !app_assoc. compare_members. unfold tcp_ltb. first_difference.
  - intros s t _ _ E. rewrite <- !app_assoc in E. split_code E. split; [|done]. unfold tcp_eqb. by equal_members.
  - intros _ _ H. unfold tcp_eqb in H. tested H. same_members.
Qed.

Definition udp_key (e : UdpEndpoint) : list Z :=
  string_key (udp_host e) ++ int_key (udp_port e) ++ string_key (udp_connectionId e) ++ bool_key (udp_compress e) ++
  bool_key (udp_connect e) ++ int_key (mcastTtl e) ++ string_key (mcastInterface e).

Lemma coded_udp : coded anything udp_ltb udp_eqb udp_key.
Proof.
  split; intros x y; unfold udp_key.
  - intros s t _ _. rewrite <- !app_assoc. compare_members. unfold udp_ltb. first_difference.
  - intros s t _ _ E. rewrite <- !app_assoc in E. split_code E. split; [|done]. unfold udp_eqb. by equal_members.
  - intros _ _ H. unfold udp_eqb in H. tested H. same_members.
Qed.

Definition version_key (v : EncodingVersion) : list Z := int_key (ord (major v)) ++ int_key (ord (minor v)).

Lemma coded_version : coded anything version_ltb encoding_eqb version_key.
Proof.
  split; intros x y; unfold version_key.
  - intros s t _ _. rewrite <- !app_assoc. compare_members. unfold version_ltb. first_difference.
  - intros s t _ _ E. rewrite <- !app_assoc in E. split_code E. split; [|done]. apply encoding_eqb_true.
    destruct x, y. cbn in *. bool_to_prop. f_equal; by apply ord_inj.
  - by intros _ _ ->%encoding_eqb_true.
Qed.

Definition opaque_key (e : OpaqueEndpoint) : list Z :=
  int_key (opaque_type e) ++ version_key (rawEncoding e) ++ string_key (rawBytes e).

Lemma coded_opaque : coded anything opaque_ltb opaque_eqb opaque_key.
Proof.
  split; intros x y; unfold opaque_key.
  - intros s t _ _. rewrite <- !app_assoc. compare_members. rewrite (coded_lt _ _ _ _ coded_version) by done.
    compare_members. unfold opaque_ltb. first_difference.
  - intros s t _ _ E. rewrite <- !app_assoc in E. apply (coded_inj _ _ _ _ coded_Z) in E as [? E]; [|done|done].
    apply (coded_inj _ _ _ _ coded_version) in E as [? E]; [|done|done]. split_code E. split; [|done].
    unfold opaque_eqb. by equal_members.
  - intros _ _ H. unfold opaque_eqb in H. tested H. f_equal; [|f_equal; [by apply (coded_same _ _ _ _ coded_version)|]]; same_members.
Qed.

(** ** Endpoints *)

Definition endpoint_key (e : EndpointI) : list Z :=
  match e with
  | TcpEndpointI e => int_key TCPEndpointType ++ tcp_key e
  | SslEndpointI e => int_key SSLEndpointType ++ tcp_key e
  | UdpEndpointI e => int_key UDPEndpointType ++ udp_key e
  | OpaqueEndpointI e => opaque_key e
  end.

Section endpoints.
Context (factories : list EndpointFactory).

(** An endpoint is of the class that the factories have for its type. *)
Definition genuine (e : EndpointI) : Prop := factory_for e factories.

Definition same_class (e e' : EndpointI) : bool :=
  match e, e' with
  | TcpEndpointI _, TcpEndpointI _ | SslEndpointI _, SslEndpointI _ | UdpEndpointI _, UdpEndpointI _
  | OpaqueEndpointI _, OpaqueEndpointI _ => true
  | _, _ => false
  end.

Lemma factory_found f : f ∈ factories -> get_factory (factory_type f) factories <> None.
Proof.
  intros Hin%list_elem_of_In F. unfold get_factory in F. pose proof (find_none _ _ F f Hin) as H.
  cbv beta in H. by rewrite Z.eqb_refl in H.
Qed.

Lemma classes_have_types e e' : genuine e -> genuine e' -> same_class e e' = false -> endpoint_type e <> endpoint_type e'.
Proof.
  assert (forall f o, f ∈ factories -> get_factory (opaque_type o) factories = None -> factory_type f <> opaque_type o) as H.
  { intros f o Hf Ho E. apply factory_found in Hf. congruence. }
  intros He He' Hc E. destruct e as [e|e|e|e], e' as [e'|e'|e'|e']; try done; cbn in E, He, He'; try discriminate E.
  - by destruct (H TcpEndpointFactory e').
  - by destruct (H SslEndpointFactory e').
  - by destruct (H UdpEndpointFactory e').
  - by destruct (H TcpEndpointFactory e).
  - by destruct (H SslEndpointFactory e).
  - by destruct (H UdpEndpointFactory e).
Qed.

Lemma endpoint_key_type e : exists k, endpoint_key e = int_key (endpoint_type e) ++ k.
Proof. destruct e; by eexists. Qed.

Lemma coded_endpoint : coded genuine endpoint_ltb endpoint_eqb endpoint_key.
Proof.
  assert (forall z s t, lex (int_key z ++ s) (int_key z ++ t) = lex s t) as Hz.
  { intros z s t. rewrite (coded_lt _ _ _ _ coded_Z) by done. unfold before. by rewrite Z.ltb_irrefl. }
  split; intros x y.
  - intros s t Hx Hy. destruct (same_class x y) eqn:Ec.
    + destruct x, y; try done; cbn [endpoint_key]; rewrite <- ?app_assoc, ?Hz.
      * by apply (coded_lt _ _ _ _ coded_tcp).
      * by apply (coded_lt _ _ _ _ coded_tcp).
      * by apply (coded_lt _ _ _ _ coded_udp).
      * by apply (coded_lt _ _ _ _ coded_opaque).
    + pose proof (classes_have_types _ _ Hx Hy Ec) as Ht. destruct (endpoint_key_type x) as [k ->], (endpoint_key_type y) as [k' ->].
      rewrite <- !app_assoc, (coded_lt _ _ _ _ coded_Z) by done.
      assert (endpoint_ltb x y = (endpoint_type x <? endpoint_type y)) as E1 by (by destruct x, y).
      assert (endpoint_ltb y x = (endpoint_type y <? endpoint_type x)) as E2 by (by destruct x, y).
      unfold before. rewrite E1, E2. destruct (_ <? _) eqn:H1; [done|]. destruct (endpoint_type y <? _) eqn:H2; [done|].
      bool_to_prop. lia.
  - intros s t Hx Hy E. destruct (same_class x y) eqn:Ec.
    + destruct x, y; try done; cbn [endpoint_key] in E; rewrite <- ?app_assoc in E.
      1,2,3: apply (coded_inj _ _ _ _ coded_Z) in E as [_ E]; [|done|done].
      * by apply (coded_inj _ _ _ _ coded_tcp).
      * by apply (coded_inj _ _ _ _ coded_tcp).
      * by apply (coded_inj _ _ _ _ coded_udp).
      * by apply (coded_inj _ _ _ _ coded_opaque).
    + pose proof (classes_have_types _ _ Hx Hy Ec) as Ht. destruct (endpoint_key_type x) as [k Ek], (endpoint_key_type y) as [k' Ek'].
      rewrite Ek, Ek', <- !app_assoc in E. injection E as E _. done.
  - intros _ _ H. destruct x, y; try done; cbn [endpoint_key endpoint_eqb] in *.
    + f_equal. by apply (coded_same _ _ _ _ coded_tcp).
    + f_equal. by apply (coded_same _ _ _ _ coded_tcp).
    + f_equal. by apply (coded_same _ _ _ _ coded_udp).
    + by apply (coded_same _ _ _ _ coded_opaque).
Qed.
End endpoints.

(** ** The members of a reference *)

Lemma coded_other_eqb {A} (P : A -> Prop) ltb eqb eqb' key : coded P ltb eqb key ->
  (forall x y, P x -> P y -> eqb x y = eqb' x y) -> coded P ltb eqb' key.
Proof.
  intros [H1 H2 H3] He. split; [done| |].
  - intros x y s t Hx Hy. rewrite <- He by done. by apply H2.
  - intros x y Hx Hy. rewrite <- He by done. by apply H3.
Qed.

Definition pair_key (p : str * str) : list Z := string_key p.1 ++ string_key p.2.

Lemma coded_entry : coded anything entry_ltb (fun p q => bool_decide (p = q)) pair_key.
Proof.
  split; intros x y; unfold pair_key.
  - intros s t _ _. rewrite <- !app_assoc. compare_members. unfold entry_ltb. first_difference.
  - intros s t _ _ E. rewrite <- !app_assoc in E. split_code E. split; [|done].
    destruct x as [a b], y as [c d]. apply bool_decide_eq_true.
    f_equal; by apply str_eqb_true.
  - by intros _ _ ->%bool_decide_eq_true.
Qed.

Definition identity_key (i : Identity) : list Z := pair_key (name i, category i).

Lemma coded_identity : coded anything identity_ltb (fun i j => bool_decide (i = j)) identity_key.
Proof.
  apply coded_other_eqb with (eqb := fun i j => bool_decide ((name i, category i) = (name j, category j))).
  - apply (coded_member _ _ _ _ coded_entry (fun i => (name i, category i))).
  - intros [] [] _ _. apply bool_decide_ext. cbn. split; congruence.
Qed.

Definition context_key (c : gmap str str) : list Z := list_key pair_key (in_order c).

Lemma coded_context : coded anything context_ltb (fun c d => bool_decide (c = d)) context_key.
Proof.
  apply coded_other_eqb with (eqb := fun c d => list_eqb (fun p q => bool_decide (p = q)) (in_order c) (in_order d)).
  - pose proof (coded_list _ _ _ _ coded_entry) as Hl.
    assert (forall l : list (str * str), Forall anything l) as Ha by (intros l; by apply Forall_forall).
    split; intros x y.
    + intros s t _ _. by apply (coded_lt _ _ _ _ Hl).
    + intros s t _ _. by apply (coded_inj _ _ _ _ Hl).
    + intros _ _. by apply (coded_same _ _ _ _ Hl).
  - intros x y _ _. apply eq_true_iff_eq. rewrite bool_decide_eq_true.
    assert (forall l m : list (str * str), list_eqb (fun p q => bool_decide (p = q)) l m = true <-> l = m) as H.
    { induction l as [|p l IH]; intros [|q m]; try done. cbn [list_eqb]. rewrite andb_true_iff, bool_decide_eq_true, IH.
      split; [by intros [-> ->]|by intros [= -> ->]]. }
    rewrite H. split; [|by intros ->]. intros E. apply map_to_list_inj.
    by rewrite <- !in_order_Permutation, E.
Qed.

(** A member that is compared only if a flag is set, behind the flag *)
Definition optional_key {A} (key : A -> list Z) (flag : bool) (x : A) : list Z := if flag then key x else [].

Definition base_key (b : ReferenceBase) : list Z :=
  int_key (mode_code (_mode b)) ++ identity_key (_identity b) ++ context_key (_context b) ++ string_key (_facet b) ++
  bool_key (_overrideCompress b) ++ optional_key bool_key (_overrideCompress b) (_compress b) ++ bool_key (_secure b) ++
  version_key (_protocol b) ++ version_key (_encoding b).

Lemma mode_code_inj m m' : mode_code m = mode_code m' -> m = m'.
Proof. by destruct m, m'. Qed.

Lemma coded_base : coded anything base_ltb base_eqb base_key.
Proof.
  split; intros x y; unfold base_key.
  - intros s t _ _. rewrite <- !app_assoc. rewrite (coded_lt _ _ _ _ coded_Z) by done.
    rewrite (coded_lt _ _ _ _ coded_identity), (coded_lt _ _ _ _ coded_context) by done. compare_members.
    assert (forall o o' c c' u v, before bool_ltb o o' (lex (optional_key bool_key o c ++ u) (optional_key bool_key o' c' ++ v)) =
      before bool_ltb o o' (if o then before bool_ltb c c' (lex u v) else lex u v)) as ->.
    { intros [] [] c c' u v; try done. unfold optional_key. by rewrite (coded_lt _ _ _ _ coded_bool) by done. }
    compare_members. rewrite !(coded_lt _ _ _ _ coded_version) by done. unfold base_ltb, before, bool_ltb.
    destruct (_overrideCompress x), (_overrideCompress y); cbn [negb andb]; first_difference.
  - intros s t _ _ E. rewrite <- !app_assoc in E. apply (coded_inj _ _ _ _ coded_Z) in E as [E1 E]; [|done|done].
    apply (coded_inj _ _ _ _ coded_identity) in E as [E2 E]; [|done|done].
    apply (coded_inj _ _ _ _ coded_context) in E as [E3 E]; [|done|done].
    apply (coded_inj _ _ _ _ coded_string) in E as [E4 E]; [|done|done].
    apply (coded_inj _ _ _ _ coded_bool) in E as [E5 E]; [|done|done].
    assert (_overrideCompress x && negb (Bool.eqb (_compress x) (_compress y)) = false /\
      bool_key (_secure x) ++ version_key (_protocol x) ++ version_key (_encoding x) ++ s =
      bool_key (_secure y) ++ version_key (_protocol y) ++ version_key (_encoding y) ++ t) as [E6 E'].
    { apply eqb_prop in E5. rewrite <- E5 in E. unfold optional_key in E. destruct (_overrideCompress x); [|done].
      apply (coded_inj _ _ _ _ coded_bool) in E as [-> E]; [|done|done]. done. }
    apply (coded_inj _ _ _ _ coded_bool) in E' as [E7 E']; [|done|done].
    apply (coded_inj _ _ _ _ coded_version) in E' as [E8 E']; [|done|done].
    apply (coded_inj _ _ _ _ coded_version) in E' as [E9 E']; [|done|done].
    split; [|done]. unfold base_eqb. apply Z.eqb_eq, mode_code_inj in E1.
    rewrite bool_decide_eq_true_2, E2, E3, E4, E5, E6, E7, E8, E9 by done. done.
  - intros _ _ H. unfold base_eqb in H. repeat match type of H with (if ?c then false else _) = true => destruct c eqn:?; [done|] end.
    bool_to_prop. equal_fields. do 5 f_equal. apply (f_equal2 app); [|done].
    unfold optional_key. destruct (_overrideCompress y); [|done]. cbn [andb] in *. bool_to_prop. by equal_fields.
Qed.

(** ** References *)

Fixpoint reference_key (r : Reference) : list Z :=
  match r with
  | FixedReference b c => base_key b ++ int_key 1 ++ int_key (fc_address c)
  | RoutableReference b m l ro =>
      base_key b ++ int_key 0 ++
      bool_key (_preferSecure m) ++ bool_key (_collocationOptimized m) ++ bool_key (_cacheConnection m) ++
      int_key (selection_code (_endpointSelection m)) ++ string_key (_connectionId m) ++ bool_key (_overrideTimeout m) ++
      optional_key int_key (_overrideTimeout m) (_timeout m) ++
      handle_key reference_key ro ++ handle_key reference_key l ++
      string_key (_adapterId m) ++ list_key endpoint_key (_endpoints m) ++ int_key (_locatorCacheTimeout m)
  end.

(** Induction for references whose locators and routers satisfy the property too *)
Definition of_handle {A} (P : A -> Prop) (p : option A) : Prop := match p with Some x => P x | None => True end.

Lemma reference_induction (P : Reference -> Prop) : (forall b c, P (FixedReference b c)) ->
  (forall b m l ro, of_handle P l -> of_handle P ro -> P (RoutableReference b m l ro)) -> forall r, P r.
Proof.
  intros Hf Hr. fix IH 1. intros [b c|b m l ro]; [apply Hf|apply Hr].
  - destruct l as [l|]; [exact (IH l)|exact I].
  - destruct ro as [ro|]; [exact (IH ro)|exact I].
Qed.

Definition swap (p : bool * bool) : bool * bool := (p.2, p.1).

Lemma order_swap r : forall r', reference_order r' r = swap (reference_order r r').
Proof.
  induction r as [b c|b m l ro Hl Hro] using reference_induction; intros [b' c'|b' m' l' ro']; try done.
  assert (forall p q, of_handle (fun r => forall r', reference_order r' r = swap (reference_order r r')) p ->
    handle_order reference_order q p = swap (handle_order reference_order p q)) as H.
  { intros [x|] [y|] Hp; try done. apply Hp. }
  cbn [reference_order]. rewrite (H ro ro'), (H l l') by done.
  by destruct (handle_order reference_order ro ro'), (handle_order reference_order l l').
Qed.

Lemma reference_order_eq x y : reference_order x y = (reference_ltb x y, reference_ltb y x).
Proof. unfold reference_ltb. rewrite (order_swap x y). by destruct (reference_order x y). Qed.

Lemma handle_order_eq p q :
  handle_order reference_order p q = (handle_ltb reference_ltb p q, handle_ltb reference_ltb q p).
Proof. destruct p as [x|], q as [y|]; try done. apply reference_order_eq. Qed.

Lemma routable_reference_ltb b m l ro b' m' l' ro' :
  reference_ltb (RoutableReference b m l ro) (RoutableReference b' m' l' ro') =
    base_before b b' (routable_ltb m m' (handle_ltb reference_ltb ro ro') (handle_ltb reference_ltb ro' ro)
      (handle_ltb reference_ltb l l') (handle_ltb reference_ltb l' l)).
Proof. unfold reference_ltb at 1. cbn [reference_order]. by rewrite !handle_order_eq. Qed.

Lemma base_before_eq b b' rest : base_before b b' rest = before base_ltb b b' rest.
Proof.
  unfold base_before, before. rewrite (coded_neither _ _ _ _ coded_base) by done.
  by destruct (base_ltb b b'), (base_ltb b' b).
Qed.

Lemma fixed_reference_ltb b c b' c' :
  reference_ltb (FixedReference b c) (FixedReference b' c') = before base_ltb b b' (fc_address c <? fc_address c').
Proof. apply base_before_eq. Qed.

Lemma fixed_routable_ltb b c b' m' l' ro' :
  reference_ltb (FixedReference b c) (RoutableReference b' m' l' ro') = before base_ltb b b' false /\
  reference_ltb (RoutableReference b' m' l' ro') (FixedReference b c) = before base_ltb b' b true.
Proof. split; apply base_before_eq. Qed.

Section references.
Context (factories : list EndpointFactory).

(** The endpoints of a reference, and those of its locator and its router, are of
    the classes that the factories have for them. *)
Fixpoint genuine_reference (r : Reference) : Prop :=
  match r with
  | FixedReference _ _ => True
  | RoutableReference _ m l ro =>
      Forall (genuine factories) (_endpoints m) /\ of_handle genuine_reference l /\ of_handle genuine_reference ro
  end.

Lemma selection_code_inj t t' : selection_code t = selection_code t' -> t = t'.
Proof. by destruct t, t'. Qed.

(** What [coded] says of one reference, whatever the other one is *)
Definition coded_at (x : Reference) : Prop := forall y, genuine_reference x -> genuine_reference y ->
  (forall s t, lex (reference_key x ++ s) (reference_key y ++ t) = before reference_ltb x y (lex s t)) /\
  (forall s t, reference_key x ++ s = reference_key y ++ t -> reference_eqb x y = true /\ s = t) /\
  (reference_eqb x y = true -> reference_key x = reference_key y).

Lemma coded_at_handle p q s t : of_handle coded_at p -> of_handle genuine_reference p -> of_handle genuine_reference q ->
  lex (handle_key reference_key p ++ s) (handle_key reference_key q ++ t) = before (handle_ltb reference_ltb) p q (lex s t) /\
  (handle_key reference_key p ++ s = handle_key reference_key q ++ t -> handle_eqb reference_eqb p q = true /\ s = t) /\
  (handle_eqb reference_eqb p q = true -> handle_key reference_key p = handle_key reference_key q).
Proof.
  destruct p as [x|], q as [y|]; intros Hp Hx Hy; cbn in Hp, Hx, Hy; try by split_and!.
  - destruct (Hp y Hx Hy) as (H1 & H2 & H3). split_and!.
    + cbn [handle_key app]. unfold lex in *. cbn [list_ltb]. rewrite Z.ltb_irrefl. cbn [negb orb andb]. apply H1.
    + intros [= E]. by apply H2.
    + intros E. cbn. f_equal. by apply H3.
  - split_and!; [done| |done]. by intros [= ->].
Qed.

Lemma fixed_coded b c : coded_at (FixedReference b c).
Proof.
  intros [b' c'|b' m' l' ro'] _ _; cbn [reference_key]; split_and!.
  - intros s t. rewrite <- !app_assoc, (coded_lt _ _ _ _ coded_base) by done. compare_members.
    unfold before. rewrite !fixed_reference_ltb. first_difference.
  - intros s t E. rewrite <- !app_assoc in E. apply (coded_inj _ _ _ _ coded_base) in E as [E1 E]; [|done|done].
    injection E as E2 E. split; [|done]. cbn. rewrite E1. cbn. by apply Z.eqb_eq.
  - cbn [reference_eqb]. destruct (base_eqb b b') eqn:E1; [|done]. cbn [negb]. intros E2%Z.eqb_eq.
    by rewrite E2, (coded_same _ _ _ _ coded_base _ _ I I E1).
  - intros s t. rewrite <- !app_assoc, (coded_lt _ _ _ _ coded_base) by done.
    unfold before. rewrite (proj1 (fixed_routable_ltb _ _ _ _ _ _)), (proj2 (fixed_routable_ltb _ _ _ _ _ _)). first_difference.
  - intros s t E. rewrite <- !app_assoc in E. apply (coded_inj _ _ _ _ coded_base) in E as [E1 E]; done.
  - done.
Qed.

(** The members that are compared before the router *)
Definition members_key (m : RoutableMembers) : list Z :=
  bool_key (_preferSecure m) ++ bool_key (_collocationOptimized m) ++ bool_key (_cacheConnection m) ++
  int_key (selection_code (_endpointSelection m)) ++ string_key (_connectionId m) ++ bool_key (_overrideTimeout m) ++
  optional_key int_key (_overrideTimeout m) (_timeout m).

Definition members_before (m m' : RoutableMembers) (rest : bool) : bool :=
  before bool_ltb (_preferSecure m) (_preferSecure m')
  (before bool_ltb (_collocationOptimized m) (_collocationOptimized m')
  (before bool_ltb (_cacheConnection m) (_cacheConnection m')
  (before Z.ltb (selection_code (_endpointSelection m)) (selection_code (_endpointSelection m'))
  (before str_ltb (_connectionId m) (_connectionId m')
  (before bool_ltb (_overrideTimeout m) (_overrideTimeout m')
  (if _overrideTimeout m then before Z.ltb (_timeout m) (_timeout m') rest else rest)))))).

Definition members_eqb (m m' : RoutableMembers) : bool :=
  Bool.eqb (_preferSecure m) (_preferSecure m') && Bool.eqb (_collocationOptimized m) (_collocationOptimized m') &&
  Bool.eqb (_cacheConnection m) (_cacheConnection m') && bool_decide (_endpointSelection m = _endpointSelection m') &&
  str_eqb (_connectionId m) (_connectionId m') && Bool.eqb (_overrideTimeout m) (_overrideTimeout m') &&
  (negb (_overrideTimeout m) || (_timeout m =? _timeout m')).

Lemma members_lt m m' s t : lex (members_key m ++ s) (members_key m' ++ t) = members_before m m' (lex s t).
Proof.
  unfold members_key, members_before. rewrite <- !app_assoc. compare_members. do 5 f_equal.
  destruct (_overrideTimeout m), (_overrideTimeout m'); try done. unfold optional_key. by compare_members.
Qed.

Lemma members_inj m m' s t : members_key m ++ s = members_key m' ++ t -> members_eqb m m' = true /\ s = t.
Proof.
  unfold members_key. rewrite <- !app_assoc. intros E.
  do 3 (apply (coded_inj _ _ _ _ coded_bool) in E as [? E]; [|done|done]).
  apply (coded_inj _ _ _ _ coded_Z) in E as [Hs E]; [|done|done].
  apply (coded_inj _ _ _ _ coded_string) in E as [? E]; [|done|done].
  apply (coded_inj _ _ _ _ coded_bool) in E as [Ho E]; [|done|done]. pose proof Ho as Ho'. apply eqb_prop in Ho'.
  rewrite <- Ho' in E. apply Z.eqb_eq, selection_code_inj in Hs. unfold members_eqb. rewrite bool_decide_eq_true_2, Ho by done.
  equal_members. destruct (_overrideTimeout m); cbn in *.
  - by apply (coded_inj _ _ _ _ coded_Z) in E.
  - done.
Qed.

Lemma members_same m m' : members_eqb m m' = true -> members_key m = members_key m'.
Proof.
  unfold members_eqb, members_key. intros H. rewrite !andb_true_iff in H. destruct H as ((((((H1 & H2) & H3) & H4) & H5) & H6) & H7).
  equal_fields. do 6 f_equal. destruct (_overrideTimeout m'); [|done]. cbn in H7. by equal_fields.
Qed.

Lemma routable_reference_eqb b m l ro b' m' l' ro' :
  reference_eqb (RoutableReference b m l ro) (RoutableReference b' m' l' ro') =
    base_eqb b b' && members_eqb m m' && handle_eqb reference_eqb ro ro' && handle_eqb reference_eqb l l' &&
    str_eqb (_adapterId m) (_adapterId m') && list_eqb endpoint_eqb (_endpoints m) (_endpoints m') &&
    (_locatorCacheTimeout m =? _locatorCacheTimeout m').
Proof.
  assert (forall k k', endpoints_eqb k k' = list_eqb endpoint_eqb k k') as He.
  { by induction k as [|e k IH]; intros [|e' k']. }
  unfold members_eqb. cbn [reference_eqb]. rewrite He.
  destruct (base_eqb b b'); [|done]. destruct (Bool.eqb (_preferSecure m) _); [|done].
  destruct (Bool.eqb (_collocationOptimized m) _); [|done]. destruct (Bool.eqb (_cacheConnection m) _); [|done].
  destruct (bool_decide _); [|done]. destruct (str_eqb (_connectionId m) _); [|done].
  destruct (Bool.eqb (_overrideTimeout m) _); [|done].
  destruct (_overrideTimeout m), (_timeout m =? _), (handle_eqb reference_eqb ro ro'), (handle_eqb reference_eqb l l'),
    (list_eqb _ _ _), (str_eqb _ _), (_ =? _); done.
Qed.

(** Equal references have equal hash values. *)
Lemma equal_hash x y : reference_eqb x y = true -> reference_hash x = reference_hash y.
Proof.
  assert (forall b b', base_eqb b b' = true -> base_hash b = base_hash b') as Hb.
  { intros b b' H. unfold base_eqb in H.
    repeat match type of H with (if ?c then false else _) = true => destruct c eqn:?; [done|] end.
    bool_to_prop. unfold base_hash. equal_fields. destruct (_overrideCompress b'); [|done]. cbn [andb] in *.
    bool_to_prop. by equal_fields. }
  destruct x as [b c|b m l ro], y as [b' c'|b' m' l' ro']; try done.
  - cbn. destruct (base_eqb b b') eqn:E; [|done]. intros _. by apply Hb.
  - rewrite routable_reference_eqb, !andb_true_iff. intros ((((((E1 & _) & _) & _) & E5) & _) & _).
    apply str_eqb_true in E5. unfold reference_hash. by rewrite (Hb _ _ E1), E5.
Qed.

Lemma routable_coded b m l ro : of_handle coded_at l -> of_handle coded_at ro -> coded_at (RoutableReference b m l ro).
Proof.
  intros Hl Hro [b' c'|b' m' l' ro'] (Hex & Hlx & Hrx) Hy.
  { cbn [reference_key]. split_and!.
    - intros s t. rewrite <- !app_assoc, (coded_lt _ _ _ _ coded_base) by done.
      unfold before. rewrite (proj1 (fixed_routable_ltb _ _ _ _ _ _)), (proj2 (fixed_routable_ltb _ _ _ _ _ _)). first_difference.
    - intros s t E. rewrite <- !app_assoc in E. apply (coded_inj _ _ _ _ coded_base) in E as [E1 E]; done.
    - done. }
  destruct Hy as (Hey & Hly & Hry). pose proof (coded_list _ _ _ _ (coded_endpoint factories)) as Hep.
  assert (forall n m l ro, reference_key (RoutableReference n m l ro) = base_key n ++ int_key 0 ++ members_key m ++
    handle_key reference_key ro ++ handle_key reference_key l ++ string_key (_adapterId m) ++
    list_key endpoint_key (_endpoints m) ++ int_key (_locatorCacheTimeout m)) as Hkey.
  { intros. unfold members_key. cbn [reference_key]. by rewrite <- !app_assoc. }
  rewrite !Hkey. split_and!.
  - intros s t. rewrite <- !app_assoc, (coded_lt _ _ _ _ coded_base) by done. compare_members.
    rewrite members_lt.
    rewrite (proj1 (coded_at_handle ro ro' _ _ Hro Hrx Hry)), (proj1 (coded_at_handle l l' _ _ Hl Hlx Hly)).
    compare_members. rewrite (coded_lt _ _ _ _ Hep) by done. compare_members.
    unfold before. rewrite !routable_reference_ltb, !base_before_eq. unfold routable_ltb, members_before, before, bool_ltb.
    rewrite Z.ltb_irrefl.
    destruct (_overrideTimeout m), (_overrideTimeout m'); cbn [negb andb]; first_difference.
  - intros s t E. rewrite <- !app_assoc in E. apply (coded_inj _ _ _ _ coded_base) in E as [E1 E]; [|done|done].
    apply (coded_inj _ _ _ _ coded_Z) in E as [_ E]; [|done|done].
    apply members_inj in E as [E2 E].
    apply (proj1 (proj2 (coded_at_handle ro ro' _ _ Hro Hrx Hry))) in E as [E3 E].
    apply (proj1 (proj2 (coded_at_handle l l' _ _ Hl Hlx Hly))) in E as [E4 E].
    apply (coded_inj _ _ _ _ coded_string) in E as [E5 E]; [|done|done].
    apply (coded_inj _ _ _ _ Hep) in E as [E6 E]; [|done|done].
    apply (coded_inj _ _ _ _ coded_Z) in E as [E7 E]; [|done|done].
    split; [|done]. rewrite routable_reference_eqb. by rewrite E1, E2, E3, E4, E5, E6, E7.
  - rewrite routable_reference_eqb, !andb_true_iff. intros ((((((E1 & E2) & E3) & E4) & E5) & E6) & E7).
    rewrite (coded_same _ _ _ _ coded_base _ _ I I E1), (members_same _ _ E2).
    rewrite (proj2 (proj2 (coded_at_handle ro ro' [] [] Hro Hrx Hry)) E3).
    rewrite (proj2 (proj2 (coded_at_handle l l' [] [] Hl Hlx Hly)) E4).
    rewrite (coded_same _ _ _ _ coded_string _ _ I I E5), (coded_same _ _ _ _ Hep _ _ Hex Hey E6).
    by rewrite (coded_same _ _ _ _ coded_Z _ _ I I E7).
Qed.

Lemma coded_reference : coded genuine_reference reference_ltb reference_eqb reference_key.
Proof.
  assert (forall r, coded_at r) as H.
  { intros r. induction r using reference_induction; [apply fixed_coded|by apply routable_coded]. }
  split; intros x y.
  - intros s t Hx Hy. by apply (H x y Hx Hy).
  - intros s t Hx Hy. by apply (H x y Hx Hy).
  - intros Hx Hy. by apply (H x y Hx Hy).
Qed.

(** ** The order *)

(** C22. operator< of references is a strict weak order whose equivalence is
    operator==: it is irreflexive and transitive, references of which neither is
    less are equal, and equal references compare alike with every other one and have
    the same hash value. The endpoints are of the classes that the factories have
    for their types. *)
Theorem reference_order_strict x y z : genuine_reference x -> genuine_reference y -> genuine_reference z ->
  reference_ltb x x = false /\
  (reference_ltb x y = true -> reference_ltb y z = true -> reference_ltb x z = true) /\
  (reference_ltb x y = false -> reference_ltb y x = false -> reference_eqb x y = true) /\
  (reference_eqb x y = true -> reference_ltb x y = false /\ reference_ltb x z = reference_ltb y z /\
    reference_ltb z x = reference_ltb z y /\ reference_hash x = reference_hash y).
Proof.
  intros Hx Hy Hz. pose proof coded_reference as H.
  assert (forall r r', genuine_reference r -> genuine_reference r' -> reference_ltb r r' = lex (reference_key r) (reference_key r')) as Hlt
    by (intros; by apply (coded_ltb _ _ _ _ H)).
  split; [by apply (coded_irrefl _ _ _ _ H)|]. split; [rewrite !Hlt by done; apply lex_trans|]. split.
  - intros E1 E2. rewrite (coded_neither _ _ _ _ H) by done. by rewrite E1, E2.
  - intros E. pose proof (coded_same _ _ _ _ H x y Hx Hy E) as Ek. rewrite !Hlt, Ek, lex_irrefl by done.
    split_and!; [done..|]. by apply equal_hash.
Qed.
End references.


(** A proxy with endpoints and a locator, the same one with another timeout of an
    endpoint, and a fixed one *)
Module SampleOrder.
Definition base : ReferenceBase :=
  MkBase ModeTwoway false (MkIdentity (lit "a") []) (<[lit "k" := lit "v"]> ∅) [] Encoding_1_0 Encoding_1_1 true false.
Definition locator : Reference := RoutableReference base (MkRoutable [] (lit "L") true true false Random 0 false (-1) []) None None.
Definition direct (timeout : Z) : Reference :=
  RoutableReference base (MkRoutable [TcpEndpointI (MkTcp (lit "h") 1 timeout [] false); OpaqueEndpointI (MkOpaque 9 Encoding_1_1 [])] []
    true true false Ordered 0 true 5 []) (Some locator) None.
Definition fixed : Reference := FixedReference base (MkFixedConnection 77 (TcpEndpointI (MkTcp (lit "h") 1 0 [] false)) None).

Lemma direct_genuine t : genuine_reference [TcpEndpointFactory] (direct t).
Proof. split; [|by split; [split; [constructor|]|]]. repeat constructor; set_solver. Qed.
End SampleOrder.

Lemma reference_order_strict_witness :
  reference_ltb (SampleOrder.direct 2) (SampleOrder.direct 7) = true /\
  reference_ltb (SampleOrder.direct 7) SampleOrder.fixed = true /\
  (reference_ltb (SampleOrder.direct 2) (SampleOrder.direct 7) = true ->
   reference_ltb (SampleOrder.direct 7) SampleOrder.fixed = true ->
   reference_ltb (SampleOrder.direct 2) SampleOrder.fixed = true).
Proof.
  split; [by vm_compute|]. split; [by vm_compute|].
  apply (reference_order_strict [TcpEndpointFactory] (SampleOrder.direct 2) (SampleOrder.direct 7) SampleOrder.fixed
    (SampleOrder.direct_genuine 2) (SampleOrder.direct_genuine 7) I).
Defined.
