(* ===== verification/ServantManager.v ===== *)
(** * ServantManager: the active servant map of an object adapter

    cpp/src/Ice/ServantManager.cpp. Servants are found by identity and facet,
    default servants and locators by category. The two lookup hints are
    iterators into the maps; an iterator is the key it stands on, and [None]
    is [end()]. Each operation runs under the mutex of the manager, so the
    operations of concurrent threads are a sequence of these steps. *)

From S2P Require Import Prelude CxxString Stream StringUtil StringUtilSpec OrderedMap Identity.

#[export] Instance Identity_countable : Countable Identity :=
  inj_countable' (fun i => (name i, category i)) (fun p => MkIdentity (fst p) (snd p))
    ltac:(by intros []).

Section manager.
(** Servants, locators, the order that the generated code gives
    identities, and the converter and [deactivate] of the application *)
Context {Object ServantLocator : Type} (ident_ltb : Identity -> Identity -> bool)
  (converter : option (StringConverter ascii)).

Abbreviation FacetMap := (gmap str Object).

Record ServantManager : Type := MkManager {
  instance_ : bool;                                   (** [_instance != 0] *)
  servantMapMap : gmap Identity FacetMap;
  servantMapMapHint : option Identity;
  defaultServantMap : gmap str Object;
  locatorMap : gmap str ServantLocator;
  locatorMapHint : option str
}.

Definition manager_new : ServantManager := MkManager true ∅ None ∅ ∅ None.

Definition set_servants (m : gmap Identity FacetMap) (h : option Identity) (s : ServantManager) : ServantManager :=
  MkManager (instance_ s) m h (defaultServantMap s) (locatorMap s) (locatorMapHint s).
Definition set_defaults (m : gmap str Object) (s : ServantManager) : ServantManager :=
  MkManager (instance_ s) (servantMapMap s) (servantMapMapHint s) m (locatorMap s) (locatorMapHint s).
Definition set_locators (m : gmap str ServantLocator) (h : option str) (s : ServantManager) : ServantManager :=
  MkManager (instance_ s) (servantMapMap s) (servantMapMapHint s) (defaultServantMap s) m h.

Local Abbreviation Mgr := (M ServantManager).

(** Following an iterator that was invalidated is undefined. *)
Definition deref {K V} `{Countable K} (m : gmap K V) (p : option K) : Mgr (option (K * V)) :=
  match p with
  | None => mret None
  | Some k => match m !! k with Some v => mret (Some (k, v)) | None => faultM UndefinedBehaviour end
  end.

(** [p = hint; if(p == end() || p->first != key) p = map.find(key);]: what
    [p] stands on *)
Definition hinted_find {K V} `{Countable K} (m : gmap K V) (hint : option K) (key : K) : Mgr (option (K * V)) :=
  p ← deref m hint;
  match p with
  | Some (k, v) => if bool_decide (k = key) then mret (Some (k, v)) else mret ((fun v => (key, v)) <$> m !! key)
  | None => mret ((fun v => (key, v)) <$> m !! key)
  end.

(** The text of an identity and a facet in an exception *)
Definition servant_id (ident : Identity) (facet : option str) : result str :=
  id ← identityToString converter ident;
  match facet with
  | None | Some [] => Ok id
  | Some facet =>
      fs ← nativeToUTF8 converter facet;
      f ← escapeString fs [];
      Ok (id ++ lit " -f " ++ f)
  end.

Definition not_registered {A} (kind : str) (id : str) : Mgr A := throw (NotRegisteredException kind id).
Definition already_registered {A} (kind : str) (id : str) : Mgr A := throw (AlreadyRegisteredException kind id).

Definition addServant (object : Object) (ident : Identity) (facet : str) : Mgr unit :=
  s ← get;
  assertM (instance_ s);;
  p ← hinted_find (servantMapMap s) (servantMapMapHint s) ident;
  match p with
  | None =>
      modify (set_servants (<[ident := {[facet := object]}]> (servantMapMap s)) (Some ident))
  | Some (k, facets) =>
      match facets !! facet with
      | Some _ => id ← lift (servant_id ident (Some facet)); already_registered (lit "servant") id
      | None => modify (set_servants (<[k := <[facet := object]> facets]> (servantMapMap s)) (Some k))
      end
  end.

Definition addDefaultServant (object : Object) (category : str) : Mgr unit :=
  s ← get;
  assertM (instance_ s);;
  match defaultServantMap s !! category with
  | Some _ => already_registered (lit "default servant") category
  | None => modify (set_defaults (<[category := object]> (defaultServantMap s)))
  end.

(** [_servantMapMap.erase(p)], with the hint moved on when it stands on [p] *)
Definition erase_servants (k : Identity) (s : ServantManager) : ServantManager :=
  let m := delete k (servantMapMap s) in
  set_servants m
    (if bool_decide (servantMapMapHint s = Some k) then next ident_ltb k (servantMapMap s)
     else servantMapMapHint s) s.

Definition removeServant (ident : Identity) (facet : str) : Mgr Object :=
  s ← get;
  assertM (instance_ s);;
  p ← hinted_find (servantMapMap s) (servantMapMapHint s) ident;
  match p with
  | None => id ← lift (servant_id ident (Some facet)); not_registered (lit "servant") id
  | Some (k, facets) =>
      match facets !! facet with
      | None => id ← lift (servant_id ident (Some facet)); not_registered (lit "servant") id
      | Some servant =>
          let facets' := delete facet facets in
          modify (set_servants (<[k := facets']> (servantMapMap s)) (servantMapMapHint s));;
          (if bool_decide (facets' = ∅) then modify (erase_servants k) else mret tt);;
          mret servant
      end
  end.

Definition removeDefaultServant (category : str) : Mgr Object :=
  s ← get;
  assertM (instance_ s);;
  match defaultServantMap s !! category with
  | None => not_registered (lit "default servant") category
  | Some servant =>
      modify (set_defaults (delete category (defaultServantMap s)));;
      mret servant
  end.

Definition removeAllFacets (ident : Identity) : Mgr FacetMap :=
  s ← get;
  assertM (instance_ s);;
  p ← hinted_find (servantMapMap s) (servantMapMapHint s) ident;
  match p with
  | None => id ← lift (servant_id ident None); not_registered (lit "servant") id
  | Some (k, facets) => modify (erase_servants k);; mret facets
  end.

Definition default_for (category : str) (s : ServantManager) : option Object :=
  match defaultServantMap s !! category with
  | Some o => Some o
  | None => defaultServantMap s !! []
  end.

Definition findServant (ident : Identity) (facet : str) : Mgr (option Object) :=
  s ← get;
  p ← hinted_find (servantMapMap s) (servantMapMapHint s) ident;
  match p with
  | None => mret (default_for (category ident) s)
  | Some (k, facets) =>
      match facets !! facet with
      | None => mret (default_for (category ident) s)
      | Some servant => modify (set_servants (servantMapMap s) (Some k));; mret (Some servant)
      end
  end.

Definition findDefaultServant (category : str) : Mgr (option Object) :=
  s ← get; mret (defaultServantMap s !! category).

Definition findAllFacets (ident : Identity) : Mgr FacetMap :=
  s ← get;
  assertM (instance_ s);;
  p ← hinted_find (servantMapMap s) (servantMapMapHint s) ident;
  match p with
  | None => mret ∅
  | Some (k, facets) => modify (set_servants (servantMapMap s) (Some k));; mret facets
  end.

Definition hasServant (ident : Identity) : Mgr bool :=
  s ← get;
  p ← hinted_find (servantMapMap s) (servantMapMapHint s) ident;
  match p with
  | None => mret false
  | Some (k, facets) =>
      modify (set_servants (servantMapMap s) (Some k));;
      assertM (negb (bool_decide (facets = ∅)));;
      mret true
  end.

Definition addServantLocator (locator : ServantLocator) (category : str) : Mgr unit :=
  s ← get;
  assertM (instance_ s);;
  p ← hinted_find (locatorMap s) (locatorMapHint s) category;
  match p with
  | Some _ => already_registered (lit "servant locator") category
  | None => modify (set_locators (<[category := locator]> (locatorMap s)) (Some category))
  end.

Definition removeServantLocator (category : str) : Mgr ServantLocator :=
  s ← get;
  assertM (instance_ s);;
  p ← hinted_find (locatorMap s) (locatorMapHint s) category;
  match p with
  | None => not_registered (lit "servant locator") category
  | Some (k, locator) =>
      let m := delete k (locatorMap s) in
      modify (set_locators m (begin str_ltb m));;
      mret locator
  end.

Definition findServantLocator (category : str) : Mgr (option ServantLocator) :=
  s ← get;
  p ← hinted_find (locatorMap s) (locatorMapHint s) category;
  match p with
  | None => mret None
  | Some (k, locator) => modify (set_locators (locatorMap s) (Some k));; mret (Some locator)
  end.

(** What a call of [deactivate], which the application implements, ends in *)
Inductive deactivation : Type := Deactivated | IceException | UnknownException.

(** A call of [deactivate], or a line of the log that follows it *)
Inductive event : Type :=
  | Deactivate (locator : ServantLocator) (category : str)
  | LogException (category : str)
  | LogUnknownException (category : str).

Definition deactivate_one (deactivate : ServantLocator -> str -> deactivation)
    (p : str * ServantLocator) : list event :=
  Deactivate (snd p) (fst p) ::
  match deactivate (snd p) (fst p) with
  | Deactivated => []
  | IceException => [LogException (fst p)]
  | UnknownException => [LogUnknownException (fst p)]
  end.

(** The locators are deactivated, in the order of their categories, after
    the lock is released; an exception is logged and the loop goes on. *)
Definition destroy (deactivate : ServantLocator -> str -> deactivation) : Mgr (list event) :=
  s ← get;
  assertM (instance_ s);;
  modify (fun s => MkManager false ∅ None (defaultServantMap s) ∅ None);;
  mret (concat (deactivate_one deactivate <$> in_order (locatorMap s))).
End manager.
