(* ===== verification/ServantManagerSpec.v ===== *)
(** * The servant manager refines a table

    What the manager promises: a partial function from identities and facets
    to servants, one from categories to default servants and one from
    categories to locators. The nested maps and the lookup hints are an
    implementation of it: every operation, from every state that the
    operations can reach, answers what the table answers and changes it in
    the same way. *)

From S2P Require Import Prelude CxxString Stream StringUtil StringUtilSpec OrderedMap Identity ServantManager.

Section refinement.
Context {Object ServantLocator : Type} (ident_ltb : Identity -> Identity -> bool)
  (converter : option (StringConverter ascii)) (deactivate : ServantLocator -> str -> deactivation).
Local Abbreviation manager := (@ServantManager Object ServantLocator).

(** ** The table *)

Record table : Type := MkTable {
  t_alive : bool;
  t_servant : Identity -> str -> option Object;
  t_default : str -> option Object;
  t_locator : str -> option ServantLocator
}.

#[export] Instance table_equiv : Equiv table := fun t u =>
  t_alive t = t_alive u /\ (forall i f, t_servant t i f = t_servant u i f) /\
  (forall c, t_default t c = t_default u c) /\ (forall c, t_locator t c = t_locator u c).

#[export] Instance table_equivalence : Equivalence (equiv (A := table)).
Proof.
  split.
  - by intros t.
  - intros t u (?&?&?&?). by split_and!; intros; symmetry.
  - intros t u w (H1&H2&H3&H4) (?&?&?&?). split_and!; [congruence|..]; intros;
      rewrite ?H2, ?H3, ?H4; auto.
Qed.

Definition table_of (s : manager) : table :=
  MkTable (instance_ s) (fun i f => servantMapMap s !! i ≫= fun facets => facets !! f)
    (fun c => defaultServantMap s !! c) (fun c => locatorMap s !! c).

Definition with_servant (i : Identity) (f : str) (o : option Object) (t : table) : table :=
  MkTable (t_alive t) (fun i' f' => if decide (i' = i /\ f' = f) then o else t_servant t i' f')
    (t_default t) (t_locator t).
Definition without_facets (i : Identity) (t : table) : table :=
  MkTable (t_alive t) (fun i' f' => if decide (i' = i) then None else t_servant t i' f')
    (t_default t) (t_locator t).
Definition with_default (c : str) (o : option Object) (t : table) : table :=
  MkTable (t_alive t) (t_servant t) (fun c' => if decide (c' = c) then o else t_default t c') (t_locator t).
Definition with_locator (c : str) (l : option ServantLocator) (t : table) : table :=
  MkTable (t_alive t) (t_servant t) (t_default t) (fun c' => if decide (c' = c) then l else t_locator t c').

(** ** Operations and what the table does *)

Inductive op : Type :=
  | AddServant (o : Object) (i : Identity) (f : str)
  | AddDefaultServant (o : Object) (c : str)
  | RemoveServant (i : Identity) (f : str)
  | RemoveDefaultServant (c : str)
  | RemoveAllFacets (i : Identity)
  | FindServant (i : Identity) (f : str)
  | FindDefaultServant (c : str)
  | FindAllFacets (i : Identity)
  | HasServant (i : Identity)
  | AddServantLocator (l : ServantLocator) (c : str)
  | RemoveServantLocator (c : str)
  | FindServantLocator (c : str)
  | Destroy.

Inductive reply : Type :=
  | RUnit
  | RObject (o : Object)
  | RMaybeObject (o : option Object)
  | RFacets (m : gmap str Object)
  | RBool (b : bool)
  | RLocator (l : ServantLocator)
  | RMaybeLocator (l : option ServantLocator)
  | REvents (l : list (@event ServantLocator)).

Definition run (o : op) : M manager reply :=
  match o with
  | AddServant x i f => addServant converter x i f;; mret RUnit
  | AddDefaultServant x c => addDefaultServant x c;; mret RUnit
  | RemoveServant i f => x ← removeServant ident_ltb converter i f; mret (RObject x)
  | RemoveDefaultServant c => x ← removeDefaultServant c; mret (RObject x)
  | RemoveAllFacets i => m ← removeAllFacets ident_ltb converter i; mret (RFacets m)
  | FindServant i f => x ← findServant i f; mret (RMaybeObject x)
  | FindDefaultServant c => x ← findDefaultServant c; mret (RMaybeObject x)
  | FindAllFacets i => m ← findAllFacets i; mret (RFacets m)
  | HasServant i => x ← hasServant i; mret (RBool x)
  | AddServantLocator l c => addServantLocator l c;; mret RUnit
  | RemoveServantLocator c => l ← removeServantLocator c; mret (RLocator l)
  | FindServantLocator c => l ← findServantLocator c; mret (RMaybeLocator l)
  | Destroy => l ← destroy deactivate; mret (REvents l)
  end.

(** The operations that must not be called after [destroy] *)
Definition needs_instance (o : op) : bool :=
  match o with
  | FindServant _ _ | FindDefaultServant _ | HasServant _ | FindServantLocator _ => false
  | _ => true
  end.

Definition refuses_new (kind : str) (id : result str) : result reply :=
  id ← id; Throw (AlreadyRegisteredException kind id).
Definition refuses_missing (kind : str) (id : result str) : result reply :=
  id ← id; Throw (NotRegisteredException kind id).

(** [m] is the map of the facets of [i]. *)
Definition facets_of (t : table) (i : Identity) (m : gmap str Object) : Prop :=
  forall f, m !! f = t_servant t i f.

Definition promises (o : op) (t : table) (r : result reply) (t' : table) : Prop :=
  match o with
  | AddServant x i f =>
      match t_servant t i f with
      | Some _ => r = refuses_new (lit "servant") (servant_id converter i (Some f)) /\ t' ≡ t
      | None => r = Ok RUnit /\ t' ≡ with_servant i f (Some x) t
      end
  | AddDefaultServant x c =>
      match t_default t c with
      | Some _ => r = refuses_new (lit "default servant") (Ok c) /\ t' ≡ t
      | None => r = Ok RUnit /\ t' ≡ with_default c (Some x) t
      end
  | RemoveServant i f =>
      match t_servant t i f with
      | Some x => r = Ok (RObject x) /\ t' ≡ with_servant i f None t
      | None => r = refuses_missing (lit "servant") (servant_id converter i (Some f)) /\ t' ≡ t
      end
  | RemoveDefaultServant c =>
      match t_default t c with
      | Some x => r = Ok (RObject x) /\ t' ≡ with_default c None t
      | None => r = refuses_missing (lit "default servant") (Ok c) /\ t' ≡ t
      end
  | RemoveAllFacets i =>
      (exists m, m <> ∅ /\ facets_of t i m /\ r = Ok (RFacets m) /\ t' ≡ without_facets i t) \/
      (facets_of t i ∅ /\ r = refuses_missing (lit "servant") (servant_id converter i None) /\ t' ≡ t)
  | FindServant i f =>
      r = Ok (RMaybeObject
        match t_servant t i f, t_default t (category i) with
        | Some x, _ | None, Some x => Some x
        | None, None => t_default t []
        end) /\ t' ≡ t
  | FindDefaultServant c => r = Ok (RMaybeObject (t_default t c)) /\ t' ≡ t
  | FindAllFacets i => exists m, facets_of t i m /\ r = Ok (RFacets m) /\ t' ≡ t
  | HasServant i => exists b, (b = true <-> exists f x, t_servant t i f = Some x) /\ r = Ok (RBool b) /\ t' ≡ t
  | AddServantLocator l c =>
      match t_locator t c with
      | Some _ => r = refuses_new (lit "servant locator") (Ok c) /\ t' ≡ t
      | None => r = Ok RUnit /\ t' ≡ with_locator c (Some l) t
      end
  | RemoveServantLocator c =>
      match t_locator t c with
      | Some l => r = Ok (RLocator l) /\ t' ≡ with_locator c None t
      | None => r = refuses_missing (lit "servant locator") (Ok c) /\ t' ≡ t
      end
  | FindServantLocator c => r = Ok (RMaybeLocator (t_locator t c)) /\ t' ≡ t
  | Destroy =>
      t' ≡ MkTable false (fun _ _ => None) (t_default t) (fun _ => None) /\
      exists calls, r = Ok (REvents (concat (deactivate_one deactivate <$> calls))) /\
        (forall c l, (c, l) ∈ calls <-> t_locator t c = Some l) /\
        Sorted (fun p q => str_ltb (fst p) (fst q) = true) calls
  end.

(** ** The invariant *)

Record inv (s : manager) : Prop := MkInv {
  inv_hint : forall k, servantMapMapHint s = Some k -> is_Some (servantMapMap s !! k);
  inv_facets : forall k m, servantMapMap s !! k = Some m -> m <> ∅;
  inv_locator : forall k, locatorMapHint s = Some k -> is_Some (locatorMap s !! k)
}.

Lemma inv_new : inv manager_new.
Proof. by split. Qed.

Lemma hinted_find_ok {K V} `{Countable K} (m : gmap K V) hint key (s : manager) :
  (forall k, hint = Some k -> is_Some (m !! k)) ->
  hinted_find m hint key s = (Ok ((fun v => (key, v)) <$> m !! key), s).
Proof.
  intros Hh. unfold hinted_find, ServantManager.deref. destruct hint as [k|]; [|done].
  destruct (Hh k eq_refl) as [v Hv]. rewrite Hv. steps.
  destruct (decide (k = key)) as [->|Hne].
  - rewrite bool_decide_eq_true_2 by done. by rewrite Hv.
  - by rewrite bool_decide_eq_false_2 by done.
Qed.

Definition refines (o : op) (s : manager) : Prop :=
  inv (snd (run o s)) /\ promises o (table_of s) (fst (run o s)) (table_of (snd (run o s))).

Lemma refines_intro o s r s' : run o s = (r, s') -> inv s' ->
  promises o (table_of s) r (table_of s') -> refines o s.
Proof. intros E Hi Hp. unfold refines. by rewrite E. Qed.

(** Run an operation from a state of the invariant up to its outcome. *)
Ltac run_op Hinv Hal :=
  unfold run, addServant, addDefaultServant, removeServant, removeDefaultServant, removeAllFacets, findServant,
    findAllFacets, hasServant, addServantLocator, removeServantLocator, findServantLocator, mbind at 1, M_bind at 1;
  rewrite ?bind_get, ?(bind_assert _ _ _ Hal);
  try rewrite (bind_ok _ _ _ _ _ (hinted_find_ok _ _ _ _ (inv_hint _ Hinv)));
  try rewrite (bind_ok _ _ _ _ _ (hinted_find_ok _ _ _ _ (inv_locator _ Hinv))).

(** ** Updates of the maps, seen as updates of the table *)

Lemma table_set_facets i f o m h s :
  (forall f', m !! f' = if decide (f' = f) then o else servantMapMap s !! i ≫= fun facets => facets !! f') ->
  table_of (set_servants (<[i := m]> (servantMapMap s)) h s) ≡ with_servant i f o (table_of s).
Proof.
  intros Hm. split_and!; [done| |done|done]. intros i' f'. simpl.
  destruct (decide (i' = i)) as [->|Hne].
  - rewrite lookup_insert_eq. simpl. rewrite Hm.
    destruct (decide (f' = f)) as [->|]; [by rewrite decide_True|by rewrite decide_False by tauto].
  - rewrite lookup_insert_ne by done. by rewrite decide_False by tauto.
Qed.

Lemma table_delete_facets i h s :
  table_of (set_servants (delete i (servantMapMap s)) h s) ≡ without_facets i (table_of s).
Proof.
  split_and!; [done| |done|done]. intros i' f'. simpl. destruct (decide (i' = i)) as [->|Hne].
  - by rewrite lookup_delete_eq.
  - by rewrite lookup_delete_ne.
Qed.

Lemma table_set_default c o s :
  table_of (set_defaults (partial_alter (fun _ => o) c (defaultServantMap s)) s) ≡ with_default c o (table_of s).
Proof.
  split_and!; [done|done| |done]. intros c'. simpl. destruct (decide (c' = c)) as [->|].
  - by rewrite lookup_partial_alter_eq.
  - by rewrite lookup_partial_alter_ne.
Qed.

Lemma table_set_locator c l h s :
  table_of (set_locators (partial_alter (fun _ => l) c (locatorMap s)) h s) ≡ with_locator c l (table_of s).
Proof.
  split_and!; [done|done|done|]. intros c'. simpl. destruct (decide (c' = c)) as [->|].
  - by rewrite lookup_partial_alter_eq.
  - by rewrite lookup_partial_alter_ne.
Qed.

Lemma inv_set_facets i m h s : inv s -> m <> ∅ ->
  (forall k, h = Some k -> k = i \/ is_Some (servantMapMap s !! k)) ->
  inv (set_servants (<[i := m]> (servantMapMap s)) h s).
Proof.
  intros [Hh Hf Hl] Hm Hk. split; simpl; [intros k Ek|intros k m' Hm'|done].
  - destruct (decide (k = i)) as [->|]; [by rewrite lookup_insert_eq|].
    rewrite lookup_insert_ne by done. by destruct (Hk k Ek).
  - destruct (decide (k = i)) as [->|]; [by rewrite lookup_insert_eq in Hm'; simplify_eq|].
    rewrite lookup_insert_ne in Hm' by done. by eapply Hf.
Qed.

Lemma inv_same_servants i h s : inv s -> is_Some (servantMapMap s !! i) -> h = Some i ->
  inv (set_servants (servantMapMap s) h s).
Proof. intros [Hh Hf Hl] Hi ->. split; simpl; [by intros k [= <-]|done|done]. Qed.

(** The hint that [erase_servants] leaves is not the key it erased. *)
Lemma inv_erase_servants i s : (forall k, ident_ltb k k = false) ->
  (forall k, servantMapMapHint s = Some k -> is_Some (servantMapMap s !! k)) ->
  (forall k m, k <> i -> servantMapMap s !! k = Some m -> m <> ∅) ->
  (forall k, locatorMapHint s = Some k -> is_Some (locatorMap s !! k)) ->
  inv (erase_servants ident_ltb i s).
Proof.
  intros Hirr Hh Hf Hl. split; simpl; [intros k Ek|intros k m Hm|done].
  - assert (k <> i /\ is_Some (servantMapMap s !! k)) as [Hne Hk]; [|by rewrite lookup_delete_ne].
    case_bool_decide as Eh.
    + split; [|by eapply least_in]. intros ->. apply least_accepted in Ek. by rewrite Hirr in Ek.
    + split; [congruence|by apply Hh].
  - destruct (decide (k = i)) as [->|]; [by rewrite lookup_delete_eq in Hm|].
    rewrite lookup_delete_ne in Hm by done. by eapply Hf.
Qed.

Lemma inv_set_locators m h s : inv s -> (forall k, h = Some k -> is_Some (m !! k)) ->
  inv (set_locators m h s).
Proof. intros [Hh Hf Hl] Hm. by split. Qed.

Lemma inv_set_defaults m s : inv s -> inv (set_defaults m s).
Proof. intros [Hh Hf Hl]. by split. Qed.

(** ** Each operation, from its map lookups to its outcome *)

Hypothesis ident_ltb_irrefl : forall k, ident_ltb k k = false.

Lemma refines_addServant x i f s : inv s -> instance_ s = true -> refines (AddServant x i f) s.
Proof.
  intros Hinv Hal.
  destruct (servantMapMap s !! i) as [facets|] eqn:Ei; [destruct (facets !! f) as [y|] eqn:Ef|].
  - apply (refines_intro _ _ (refuses_new (lit "servant") (servant_id converter i (Some f))) s); [|done|].
    + run_op Hinv Hal. rewrite Ei. cbn. rewrite Ef.
      unfold lift, mbind, M_bind, already_registered, throw, refuses_new.
      by destruct (servant_id converter i (Some f)).
    + cbn [promises table_of t_servant]. rewrite Ei. cbn. by rewrite Ef.
  - eapply refines_intro.
    + run_op Hinv Hal. rewrite Ei. cbn. by rewrite Ef.
    + apply inv_set_facets; [done|apply insert_non_empty|]. intros k [= <-]. by left.
    + cbn [promises]. replace (t_servant (table_of s) i f) with (@None Object) by (simpl; by rewrite Ei; cbn; rewrite Ef).
      split; [done|]. apply table_set_facets. intros f'. rewrite Ei. cbn.
      destruct (decide (f' = f)) as [->|]; [by rewrite lookup_insert_eq|by rewrite lookup_insert_ne].
  - eapply refines_intro.
    + run_op Hinv Hal. by rewrite Ei.
    + apply inv_set_facets; [done|apply map_non_empty_singleton|]. intros k [= <-]. by left.
    + cbn [promises]. replace (t_servant (table_of s) i f) with (@None Object) by (simpl; by rewrite Ei).
      split; [done|]. apply table_set_facets. intros f'. rewrite Ei. cbn.
      destruct (decide (f' = f)) as [->|]; [by rewrite lookup_singleton_eq|by rewrite lookup_singleton_ne].
Qed.

Lemma refines_addDefaultServant x c s : inv s -> instance_ s = true -> refines (AddDefaultServant x c) s.
Proof.
  intros Hinv Hal. destruct (defaultServantMap s !! c) as [y|] eqn:Ec; eapply refines_intro.
  - run_op Hinv Hal. by rewrite Ec.
  - done.
  - cbn [promises table_of t_default]. by rewrite Ec.
  - run_op Hinv Hal. by rewrite Ec.
  - by apply inv_set_defaults.
  - cbn [promises table_of t_default]. rewrite Ec. split; [done|]. apply table_set_default.
Qed.

Lemma refines_removeDefaultServant c s : inv s -> instance_ s = true -> refines (RemoveDefaultServant c) s.
Proof.
  intros Hinv Hal. destruct (defaultServantMap s !! c) as [y|] eqn:Ec; eapply refines_intro.
  - run_op Hinv Hal. by rewrite Ec.
  - by apply inv_set_defaults.
  - cbn [promises table_of t_default]. rewrite Ec. split; [done|]. apply (table_set_default c None).
  - run_op Hinv Hal. by rewrite Ec.
  - done.
  - cbn [promises table_of t_default]. by rewrite Ec.
Qed.

Lemma refines_removeServant i f s : inv s -> instance_ s = true -> refines (RemoveServant i f) s.
Proof.
  intros Hinv Hal.
  destruct (servantMapMap s !! i ≫= fun facets => facets !! f) as [x|] eqn:Ex.
  - apply bind_Some in Ex as (facets & Ei & Ef).
    assert (forall f', delete f facets !! f' = if decide (f' = f) then None else
      servantMapMap s !! i ≫= fun m => m !! f') as Hdel.
    { intros f'. rewrite Ei. cbn. destruct (decide (f' = f)) as [->|];
        [apply lookup_delete_eq|by rewrite lookup_delete_ne]. }
    destruct (decide (delete f facets = ∅)) as [Hemp|Hemp]; eapply refines_intro.
    + run_op Hinv Hal. rewrite Ei. cbn. rewrite Ef.
      by rewrite bool_decide_eq_true_2.
    + apply inv_erase_servants; [done|..]; simpl.
      * intros k Hk. destruct (decide (k = i)) as [->|]; [by rewrite lookup_insert_eq|].
        rewrite lookup_insert_ne by done. by apply (inv_hint _ Hinv).
      * intros k m Hne. rewrite lookup_insert_ne by done. apply (inv_facets _ Hinv).
      * apply (inv_locator _ Hinv).
    + cbn [promises table_of t_servant]. rewrite Ei. cbn. rewrite Ef. split; [done|].
      etransitivity; [apply table_delete_facets|].
      split_and!; [done| |done|done]. intros i' f'. simpl. destruct (decide (i' = i)) as [->|].
      * destruct (decide _) as [|Hd]; [done|]. assert (f' <> f) as Hne by tauto.
        specialize (Hdel f'). rewrite Hemp, decide_False in Hdel by done. by rewrite <- Hdel, lookup_empty.
      * rewrite lookup_insert_ne by done. by rewrite decide_False by tauto.
    + run_op Hinv Hal. rewrite Ei. cbn. rewrite Ef.
      by rewrite bool_decide_eq_false_2.
    + apply inv_set_facets; [done|done|]. intros k Hk. right. by apply (inv_hint _ Hinv).
    + cbn [promises table_of t_servant]. rewrite Ei. cbn. rewrite Ef. split; [done|].
      by apply table_set_facets.
  - apply (refines_intro _ _ (refuses_missing (lit "servant") (servant_id converter i (Some f))) s); [|done|].
    + run_op Hinv Hal.
      destruct (servantMapMap s !! i) as [facets|]; cbn in Ex |- *; [rewrite Ex|];
        unfold lift, mbind, M_bind, not_registered, throw, refuses_missing;
        by destruct (servant_id converter i (Some f)).
    + cbn [promises table_of t_servant]. by rewrite Ex.
Qed.

Lemma refines_removeAllFacets i s : inv s -> instance_ s = true -> refines (RemoveAllFacets i) s.
Proof.
  intros Hinv Hal. destruct (servantMapMap s !! i) as [facets|] eqn:Ei.
  - eapply refines_intro.
    + run_op Hinv Hal. by rewrite Ei.
    + apply inv_erase_servants; [done|apply (inv_hint _ Hinv)|intros k m _; apply (inv_facets _ Hinv)|
        apply (inv_locator _ Hinv)].
    + left. exists facets. split_and!; [by eapply inv_facets| |done|apply table_delete_facets].
      intros f. simpl. by rewrite Ei.
  - apply (refines_intro _ _ (refuses_missing (lit "servant") (servant_id converter i None)) s); [|done|].
    + run_op Hinv Hal. rewrite Ei. cbn.
      unfold lift, mbind, M_bind, not_registered, throw, refuses_missing.
      by destruct (servant_id converter i None).
    + right. split_and!; [|done|done]. intros f. simpl. by rewrite Ei.
Qed.

Lemma refines_findServant i f s : inv s -> refines (FindServant i f) s.
Proof.
  intros Hinv.
  destruct (servantMapMap s !! i ≫= fun facets => facets !! f) as [x|] eqn:Ex; eapply refines_intro.
  - apply bind_Some in Ex as (facets & Ei & Ef). run_op Hinv Hinv. rewrite Ei. cbn. by rewrite Ef.
  - apply bind_Some in Ex as (facets & Ei & Ef). by apply (inv_same_servants i).
  - cbn [promises table_of t_servant]. by rewrite Ex.
  - instantiate (1 := s). instantiate (1 := Ok (RMaybeObject (default_for (category i) s))). run_op Hinv Hinv.
    destruct (servantMapMap s !! i) as [facets|]; cbn in Ex |- *; [by rewrite Ex|done].
  - done.
  - cbn [promises table_of t_servant t_default]. rewrite Ex. unfold default_for.
    by destruct (defaultServantMap s !! category i).
Qed.

Lemma refines_findAllFacets i s : inv s -> instance_ s = true -> refines (FindAllFacets i) s.
Proof.
  intros Hinv Hal. destruct (servantMapMap s !! i) as [facets|] eqn:Ei; eapply refines_intro.
  - run_op Hinv Hal. by rewrite Ei.
  - by apply (inv_same_servants i).
  - exists facets. split; [|done]. intros f. simpl. by rewrite Ei.
  - run_op Hinv Hal. by rewrite Ei.
  - done.
  - exists ∅. split; [|done]. intros f. simpl. by rewrite Ei.
Qed.

Lemma refines_hasServant i s : inv s -> refines (HasServant i) s.
Proof.
  intros Hinv. destruct (servantMapMap s !! i) as [facets|] eqn:Ei; eapply refines_intro.
  - run_op Hinv Hinv. rewrite Ei. cbn.
    by rewrite bool_decide_eq_false_2 by (by eapply inv_facets).
  - by apply (inv_same_servants i).
  - exists true. split; [|done]. split; [intros _|done].
    destruct (map_choose facets) as (f & x & Hf); [by eapply inv_facets|].
    exists f, x. simpl. by rewrite Ei.
  - run_op Hinv Hinv. by rewrite Ei.
  - done.
  - exists false. split; [|done]. split; [done|]. intros (f & x & Hf). simpl in Hf. by rewrite Ei in Hf.
Qed.

Lemma refines_addServantLocator l c s : inv s -> instance_ s = true -> refines (AddServantLocator l c) s.
Proof.
  intros Hinv Hal. destruct (locatorMap s !! c) as [l'|] eqn:Ec; eapply refines_intro.
  - run_op Hinv Hal. by rewrite Ec.
  - done.
  - simpl. by rewrite Ec.
  - run_op Hinv Hal. by rewrite Ec.
  - apply inv_set_locators; [done|]. intros k [= <-]. by rewrite lookup_insert_eq.
  - cbn [promises table_of t_locator]. rewrite Ec. split; [done|]. apply table_set_locator.
Qed.

Lemma refines_removeServantLocator c s : inv s -> instance_ s = true -> refines (RemoveServantLocator c) s.
Proof.
  intros Hinv Hal. destruct (locatorMap s !! c) as [l'|] eqn:Ec; eapply refines_intro.
  - run_op Hinv Hal. by rewrite Ec.
  - apply inv_set_locators; [done|]. intros k. apply least_in.
  - cbn [promises table_of t_locator]. rewrite Ec. split; [done|]. apply (table_set_locator c None).
  - run_op Hinv Hal. by rewrite Ec.
  - done.
  - simpl. by rewrite Ec.
Qed.

Lemma refines_findServantLocator c s : inv s -> refines (FindServantLocator c) s.
Proof.
  intros Hinv. destruct (locatorMap s !! c) as [l|] eqn:Ec; eapply refines_intro.
  - run_op Hinv Hinv. by rewrite Ec.
  - apply inv_set_locators; [done|]. by intros k [= <-].
  - simpl. by rewrite Ec.
  - run_op Hinv Hinv. by rewrite Ec.
  - done.
  - simpl. by rewrite Ec.
Qed.

Lemma refines_destroy s : instance_ s = true -> refines Destroy s.
Proof.
  intros Hal. eapply refines_intro.
  - unfold run, destroy, mbind at 1, M_bind at 1. by rewrite bind_get, (bind_assert _ _ _ Hal).
  - by split.
  - split; [by split_and!|]. exists (in_order (locatorMap s)).
    split_and!; [done| |apply in_order_sorted]. intros c l. simpl.
    apply elem_of_in_order.
Qed.

Lemma refines_ok o s : inv s -> needs_instance o = false \/ instance_ s = true -> refines o s.
Proof.
  intros Hinv Hal. destruct o; try (destruct Hal as [Hal|Hal]; [discriminate Hal|]).
  - by apply refines_addServant.
  - by apply refines_addDefaultServant.
  - by apply refines_removeServant.
  - by apply refines_removeDefaultServant.
  - by apply refines_removeAllFacets.
  - by apply refines_findServant.
  - done.
  - by apply refines_findAllFacets.
  - by apply refines_hasServant.
  - by apply refines_addServantLocator.
  - by apply refines_removeServantLocator.
  - by apply refines_findServantLocator.
  - by apply refines_destroy.
Qed.

(** ** Histories

    The lock makes the operations of all threads one sequence. *)

Fixpoint run_all (ops : list op) (s : manager) : list (result reply) * manager :=
  match ops with
  | [] => ([], s)
  | o :: ops =>
      let '(r, s') := run o s in
      let '(rs, s'') := run_all ops s' in (r :: rs, s'')
  end.

Definition is_destroy (o : op) : bool := match o with Destroy => true | _ => false end.

(** Nothing that asserts the instance comes after [destroy]. *)
Fixpoint legal (alive : bool) (ops : list op) : bool :=
  match ops with
  | [] => true
  | o :: ops => (alive || negb (needs_instance o)) && legal (alive && negb (is_destroy o)) ops
  end.

Inductive history : table -> list op -> list (result reply) -> table -> Prop :=
  | history_nil t t' : t' ≡ t -> history t [] [] t'
  | history_cons t o r t1 ops rs t2 :
      promises o t r t1 -> history t1 ops rs t2 -> history t (o :: ops) (r :: rs) t2.

Definition empty_table : table := MkTable true (fun _ _ => None) (fun _ => None) (fun _ => None).

Lemma promises_alive o t r t' : promises o t r t' -> t_alive t' = t_alive t && negb (is_destroy o).
Proof.
  assert (forall t u : table, t ≡ u -> t_alive t = t_alive u) as HA by (by intros ?? []).
  destruct o; cbn [promises is_destroy negb]; rewrite ?andb_true_r, ?andb_false_r; intros H;
    repeat case_match; naive_solver (eauto using eq_trans).
Qed.

Lemma history_of_run ops s : inv s -> legal (instance_ s) ops = true ->
  inv (snd (run_all ops s)) /\ history (table_of s) ops (fst (run_all ops s)) (table_of (snd (run_all ops s))).
Proof.
  revert s. induction ops as [|o ops IH]; intros s Hinv Hl; [by split; [|constructor]|].
  cbn [run_all legal] in *. apply andb_true_iff in Hl as [Hn Hl].
  destruct (refines_ok o s) as [Hi Hp]; [done| |].
  { destruct (instance_ s); [by right|left]. cbn in Hn. by apply negb_true_iff. }
  pose proof (promises_alive _ _ _ _ Hp) as Ha. cbn [table_of t_alive] in Ha.
  destruct (run o s) as [r s'] eqn:E. cbn [fst snd] in *. rewrite <- Ha in Hl.
  destruct (IH s' Hi Hl) as [Hi' Hh]. destruct (run_all ops s') as [rs s''].
  split; [done|]. by econstructor.
Qed.

(** C21. Every sequence of operations on a new servant manager in which nothing that
    asserts the instance follows destroy answers, operation by operation, what a
    plain table of servants, default servants and locators answers, errors included;
    the lookup hints always stand on an entry of their map, and no identity is left
    without facets. *)
Theorem manager_refines ops : legal true ops = true ->
  inv (snd (run_all ops manager_new)) /\
  history empty_table ops (fst (run_all ops manager_new)) (table_of (snd (run_all ops manager_new))).
Proof. intros H. apply (history_of_run ops manager_new); [apply inv_new|done]. Qed.
End refinement.

Definition ident_lex (i j : Identity) : bool :=
  str_ltb (name i) (name j) || (bool_decide (name i = name j) && str_ltb (category i) (category j)).

Lemma manager_refines_witness :
  let x := MkIdentity (lit "x") [] in
  let ops := [AddServant 1%nat x []; AddServantLocator 7%nat (lit "c"); RemoveServant x []; HasServant x;
              AddDefaultServant 2%nat []; Destroy; FindServant x []] in
  fst (run_all ident_lex None (fun _ _ => Deactivated) ops manager_new) =
    [Ok RUnit; Ok RUnit; Ok (RObject 1%nat); Ok (RBool false); Ok RUnit;
     Ok (REvents [Deactivate 7%nat (lit "c")]); Ok (RMaybeObject (Some 2%nat))] /\
  history None (fun _ _ => Deactivated) empty_table ops
    (fst (run_all ident_lex None (fun _ _ => Deactivated) ops manager_new))
    (table_of (snd (run_all ident_lex None (fun _ _ => Deactivated) ops manager_new))).
Proof.
  intros x ops. split; [reflexivity|].
  apply (manager_refines ident_lex None (fun _ _ => Deactivated)); [|reflexivity].
  intros k. unfold ident_lex. rewrite !str_ltb_irrefl. by rewrite andb_false_r.
Defined.
