(* ===== verification/ImplicitContext.v ===== *)
(** * Implicit request contexts

    cpp/src/Ice/ImplicitContextI.cpp, for platforms with pthreads. A shared
    context is one map under a mutex. A per-thread context keeps, for every
    thread, a vector of slots in thread-local storage; each object has an
    index into these vectors, which a later object takes over, and the owner
    of a slot tells whose context it holds. The statics of the class and the
    thread-local vectors of all threads are one state. A [Context*] is the
    place of its slot: every context belongs to one slot. Failures of
    pthread_key_create and pthread_setspecific are left out. *)

From stdpp Require Import gmap.
From S2P Require Import Prelude CxxString.

Abbreviation Context := (gmap str str).

(** [std::map::insert] of a range: keys that are there keep their values. *)
Definition insert_all (m from : Context) : Context := m ∪ from.

Definition is_empty (m : Context) : bool := bool_decide (m = ∅).

(** [val = m[k]; oldVal = val; val = v] *)
Definition old_value (k : str) (m : Context) : str := default [] (m !! k).

(** ** The kinds *)

Inductive kind : Type := NoContext | Shared | PerThread.

(** ImplicitContextI::create *)
Definition create_kind (text : str) : result kind :=
  if str_eqb text (lit "None") || str_eqb text [] then Ok NoContext
  else if str_eqb text (lit "Shared") then Ok Shared
  else if str_eqb text (lit "PerThread") then Ok PerThread
  else Throw (InitializationException
    (lit "'" ++ text ++ lit "' is not a valid value for Ice.ImplicitContext")).

(** ** SharedImplicitContext *)

Module SharedImplicitContext.
Abbreviation Ctx := (M Context).

Definition getContext : Ctx Context := get.
Definition setContext (newContext : Context) : Ctx unit := modify (fun _ => newContext).

Definition containsKey (k : str) : Ctx bool :=
  c ← get; mret (match c !! k with Some _ => true | None => false end).

Definition get_ (k : str) : Ctx str :=
  c ← get; mret (match c !! k with Some v => v | None => [] end).

(** [_context[k]] makes an empty entry first. *)
Definition put (k v : str) : Ctx str :=
  c ← get;
  modify (fun _ => <[k := v]> (<[k := old_value k c]> c));;
  mret (old_value k c).

Definition remove (k : str) : Ctx str :=
  c ← get;
  match c !! k with
  | None => mret []
  | Some v => modify (delete k);; mret v
  end.

(** What [write] marshals *)
Definition written (proxyCtx : Context) : Ctx Context :=
  c ← get;
  mret (if is_empty proxyCtx then c
        else if is_empty c then proxyCtx
        else insert_all proxyCtx c).

Definition combine (proxyCtx : Context) : Ctx Context :=
  c ← get;
  mret (if is_empty proxyCtx then c
        else if is_empty c then proxyCtx
        else insert_all proxyCtx c).
End SharedImplicitContext.

(** ** PerThreadImplicitContext *)

(** [owner] of a slot without a context is arbitrary. *)
Record Slot : Type := MkSlot { slot_context : option Context; slot_owner : Z }.
Definition slot_new : Slot := MkSlot None (-1).

Abbreviation SlotVector := (list Slot).
Abbreviation thread := nat (only parsing).

Record PerThreadImplicitContext : Type := MkPerThread { pt_index : nat; pt_id : Z }.

(** The statics, the value of the key in every thread, and the objects by the
    number under which their owners know them *)
Record Statics : Type := MkStatics {
  nextId : Z;
  indexInUse : option (list bool);
  tls : gmap thread SlotVector;
  objects : gmap nat PerThreadImplicitContext
}.

Definition statics_new : Statics := MkStatics 0 None ∅ ∅.

Definition set_nextId v s := MkStatics v (indexInUse s) (tls s) (objects s).
Definition set_indexInUse v s := MkStatics (nextId s) v (tls s) (objects s).
Definition set_tls f s := MkStatics (nextId s) (indexInUse s) (f (tls s)) (objects s).
Definition set_objects f s := MkStatics (nextId s) (indexInUse s) (tls s) (f (objects s)).

Abbreviation ptM := (M Statics).

(** [v.resize(n, x)] *)
Definition vector_resize {A} (n : nat) (x : A) (v : list A) : list A := take n v ++ replicate (n - length v) x.

Fixpoint first_free (v : list bool) : nat :=
  match v with
  | true :: v' => S (first_free v')
  | _ => O
  end.

Definition deref_in_use : ptM (list bool) :=
  s ← get; match indexInUse s with Some v => mret v | None => faultM UndefinedBehaviour end.

(** The constructor, for the object with the number [k] *)
Definition construct (k : nat) : ptM unit :=
  s ← get;
  let id := nextId s in
  modify (set_nextId (to_signed 64 (id + 1)));;
  let v := match indexInUse s with Some v => v | None => [false] end in
  let i := first_free v in
  let v := if (i =? length v)%nat then vector_resize (S i) false v else v in
  modify (set_indexInUse (Some (<[i := true]> v)));;
  modify (set_objects <[k := MkPerThread i id]>).

(** The destructor *)
Definition destroy (k : nat) (this : PerThreadImplicitContext) : ptM unit :=
  v ← deref_in_use;
  let v := <[pt_index this := false]> v in
  modify (set_indexInUse (if existsb (fun b => b) v then Some v else None));;
  modify (set_objects (delete k)).

(** The place of a context *)
Definition place : Type := thread * nat.

Definition slot_of (p : place) (s : Statics) : option Slot := sv ← tls s !! fst p; sv !! snd p.

Definition set_slot (p : place) (slot : Slot) : ptM unit :=
  modify (set_tls (alter (fun sv => <[snd p := slot]> sv) (fst p))).

Definition read_context (p : place) : ptM Context :=
  s ← get;
  match slot_of p s with
  | Some (MkSlot (Some c) _) => mret c
  | _ => faultM UndefinedBehaviour
  end.

(** [*ctx = c] *)
Definition write_context (p : place) (c : Context) : ptM unit :=
  s ← get;
  match slot_of p s with
  | Some (MkSlot (Some _) owner) => set_slot p (MkSlot (Some c) owner)
  | _ => faultM UndefinedBehaviour
  end.

(** The vector of a thread is made or grown as far as the index. *)
Definition reach_index (t : thread) (index : nat) (allocate : bool) : ptM bool :=
  s ← get;
  match tls s !! t with
  | None =>
      if allocate then modify (set_tls <[t := replicate (S index) slot_new]>);; mret true
      else mret false
  | Some sv =>
      if (length sv <=? index)%nat then
        if allocate then modify (set_tls <[t := vector_resize (S index) slot_new sv]>);; mret true
        else mret false
      else mret true
  end.

Definition getThreadContext (this : PerThreadImplicitContext) (t : thread) (allocate : bool) : ptM (option place) :=
  there ← reach_index t (pt_index this) allocate;
  if negb there then mret None else
  s ← get;
  let p := (t, pt_index this) in
  match slot_of p s with
  | None => faultM UndefinedBehaviour
  | Some (MkSlot (Some c) owner) =>
      (if owner =? pt_id this then mret tt else set_slot p (MkSlot (Some ∅) (pt_id this)));;
      mret (Some p)
  | Some (MkSlot None owner) =>
      if allocate then set_slot p (MkSlot (Some ∅) (pt_id this));; mret (Some p)
      else mret None
  end.

(** The index of the last slot with a context, looked for from the end *)
Fixpoint last_used (sv : SlotVector) : option nat :=
  match sv with
  | [] => None
  | slot :: sv' =>
      match last_used sv' with
      | Some i => Some (S i)
      | None => match slot_context slot with Some _ => Some O | None => None end
      end
  end.

Definition clearThreadContext (this : PerThreadImplicitContext) (t : thread) : ptM unit :=
  s ← get;
  match tls s !! t with
  | Some sv =>
      match sv !! pt_index this with
      | Some slot =>
          let sv := <[pt_index this := MkSlot None (slot_owner slot)]> sv in
          match last_used sv with
          | None => modify (set_tls (delete t))
          | Some i => modify (set_tls <[t := vector_resize (S i) slot_new sv]>)
          end
      | None => mret tt
      end
  | None => mret tt
  end.

Definition getContext (this : PerThreadImplicitContext) (t : thread) : ptM Context :=
  ctx ← getThreadContext this t false;
  match ctx with None => mret ∅ | Some p => read_context p end.

Definition setContext (this : PerThreadImplicitContext) (t : thread) (newContext : Context) : ptM unit :=
  if is_empty newContext then clearThreadContext this t
  else
    ctx ← getThreadContext this t true;
    match ctx with
    | None => faultM AssertionFailure
    | Some p => write_context p newContext
    end.

Definition containsKey (this : PerThreadImplicitContext) (t : thread) (k : str) : ptM bool :=
  ctx ← getThreadContext this t false;
  match ctx with
  | None => mret false
  | Some p => c ← read_context p; mret (match c !! k with Some _ => true | None => false end)
  end.

Definition get_ (this : PerThreadImplicitContext) (t : thread) (k : str) : ptM str :=
  ctx ← getThreadContext this t false;
  match ctx with
  | None => mret []
  | Some p => c ← read_context p; mret (match c !! k with Some v => v | None => [] end)
  end.

Definition put (this : PerThreadImplicitContext) (t : thread) (k v : str) : ptM str :=
  ctx ← getThreadContext this t true;
  match ctx with
  | None => faultM UndefinedBehaviour
  | Some p =>
      c ← read_context p;
      write_context p (<[k := v]> (<[k := old_value k c]> c));;
      mret (old_value k c)
  end.

Definition remove (this : PerThreadImplicitContext) (t : thread) (k : str) : ptM str :=
  ctx ← getThreadContext this t false;
  match ctx with
  | None => mret []
  | Some p =>
      c ← read_context p;
      match c !! k with
      | None => mret []
      | Some v =>
          write_context p (delete k c);;
          (if is_empty (delete k c) then clearThreadContext this t else mret tt);;
          mret v
      end
  end.

(** What [write] marshals, and what [combine] answers *)
Definition combine (this : PerThreadImplicitContext) (t : thread) (proxyCtx : Context) : ptM Context :=
  threadCtx ← getThreadContext this t false;
  match threadCtx with
  | None => mret proxyCtx
  | Some p =>
      c ← read_context p;
      mret (if is_empty c then proxyCtx
            else if is_empty proxyCtx then c
            else insert_all proxyCtx c)
  end.

(** iceImplicitContextThreadDestructor, when a thread ends *)
Definition thread_exit (t : thread) : ptM unit := modify (set_tls (delete t)).
