(* ===== verification/ImplicitContextSpec.v ===== *)
(** * Implicit contexts refine separate maps

    The specification of per-thread contexts: every object has a context of
    its own in every thread, empty at first. The slots, their owners and the
    reuse of indices are invisible. *)

From stdpp Require Import gmap.
From S2P Require Import Prelude CxxString ImplicitContext.

(** ** The specification *)

Record Spec : Type := MkSpec {
  live : gset nat;
  contexts : nat -> thread -> Context
}.

Definition spec_new : Spec := MkSpec ∅ (fun _ _ => ∅).

Definition assign (k : nat) (t : thread) (c : Context) (a : Spec) : Spec :=
  MkSpec (live a) (fun k' t' => if decide (k' = k /\ t' = t) then c else contexts a k' t').

Inductive request : Type :=
  | GetContext | SetContext (c : Context) | ContainsKey (k : str) | Get (k : str)
  | Put (k v : str) | Remove (k : str) | Combine (proxyCtx : Context).

Inductive answer : Type := AUnit | ABool (v : bool) | AText (v : str) | AContext (c : Context).

(** What a request answers about a context, and the context behind it *)
Definition spec_request (r : request) (c : Context) : answer * Context :=
  match r with
  | GetContext => (AContext c, c)
  | SetContext c' => (AUnit, c')
  | ContainsKey k => (ABool (match c !! k with Some _ => true | None => false end), c)
  | Get k => (AText (default [] (c !! k)), c)
  | Put k v => (AText (default [] (c !! k)), <[k := v]> c)
  | Remove k => (AText (default [] (c !! k)), delete k c)
  | Combine proxyCtx => (AContext (proxyCtx ∪ c), c)
  end.

(** ** The requests on an object *)

Definition do_request (this : PerThreadImplicitContext) (t : thread) (r : request) : ptM answer :=
  match r with
  | GetContext => c ← getContext this t; mret (AContext c)
  | SetContext c => setContext this t c;; mret AUnit
  | ContainsKey k => v ← containsKey this t k; mret (ABool v)
  | Get k => v ← get_ this t k; mret (AText v)
  | Put k v => old ← put this t k v; mret (AText old)
  | Remove k => old ← remove this t k; mret (AText old)
  | Combine proxyCtx => c ← combine this t proxyCtx; mret (AContext c)
  end.

(** ** Slots *)

(** The context at a place, with its owner *)
Definition slot_at (s : Statics) (t : thread) (j : nat) : option (Context * Z) :=
  sv ← tls s !! t; slot ← sv !! j; c ← slot_context slot; Some (c, slot_owner slot).

(** The context of the object in the thread *)
Definition view (s : Statics) (this : PerThreadImplicitContext) (t : thread) : Context :=
  match slot_at s t (pt_index this) with
  | Some (c, owner) => if owner =? pt_id this then c else ∅
  | None => ∅
  end.

(** [s'] is [s] with another content of one place. *)
Definition replaced (s : Statics) (t : thread) (j : nat) (x : option (Context * Z)) (s' : Statics) : Prop :=
  nextId s' = nextId s /\ indexInUse s' = indexInUse s /\ objects s' = objects s /\
  forall t' j', slot_at s' t' j' = if decide (t' = t /\ j' = j) then x else slot_at s t' j'.

Definition same_slots (s s' : Statics) : Prop :=
  nextId s' = nextId s /\ indexInUse s' = indexInUse s /\ objects s' = objects s /\
  forall t' j', slot_at s' t' j' = slot_at s t' j'.

Lemma lookup_vector_resize {A} n x (v : list A) j :
  vector_resize n x v !! j = if decide (j < n)%nat then (if decide (j < length v)%nat then v !! j else Some x) else None.
Proof.
  unfold vector_resize. destruct (decide (j < length (take n v)))%nat as [Hj|Hj].
  - rewrite lookup_app_l by done. rewrite length_take in Hj.
    rewrite !decide_True by lia. by rewrite lookup_take_lt by lia.
  - rewrite lookup_app_r by lia. rewrite length_take in *.
    destruct (decide (j < n)%nat); [|rewrite lookup_ge_None_2; [done|rewrite length_replicate; lia]].
    rewrite decide_False by lia. apply lookup_replicate_2. lia.
Qed.

(** A vector that differs in slots without a context only *)
Lemma same_slots_tls s t sv : 
  (forall j, (slot ← sv !! j; c ← slot_context slot; Some (c, slot_owner slot)) = slot_at s t j) ->
  same_slots s (set_tls <[t := sv]> s).
Proof.
  intros Hsv. split_and!; [done..|]. intros t' j'. unfold slot_at at 1. cbn [tls set_tls].
  destruct (decide (t' = t)) as [->|Hne]; [rewrite lookup_insert_eq; apply Hsv|by rewrite lookup_insert_ne].
Qed.

Lemma reach_index_ok t j allocate s : exists there s', reach_index t j allocate s = (Ok there, s') /\ same_slots s s' /\
  if there then is_Some (slot_of (t, j) s') else allocate = false /\ slot_at s t j = None.
Proof.
  unfold reach_index. rewrite bind_get. unfold slot_of. cbn [fst snd].
  assert (same_slots s s) as Hrefl by done.
  destruct (tls s !! t) as [sv|] eqn:Hsv.
  - destruct (length sv <=? j)%nat eqn:Hl; bool_to_prop.
    + destruct allocate.
      * exists true. eexists. split; [done|]. split.
        -- apply same_slots_tls. intros i. rewrite lookup_vector_resize. unfold slot_at. rewrite Hsv. cbn.
           destruct (decide (i < S j)%nat), (decide (i < length sv)%nat); try done;
             rewrite (lookup_ge_None_2 sv) by lia; done.
        -- cbn [tls set_tls]. rewrite lookup_insert_eq. cbn. rewrite lookup_vector_resize, decide_True by lia.
           rewrite decide_False by lia. by eexists.
      * exists false, s. split_and!; try done. unfold slot_at. rewrite Hsv. cbn. rewrite lookup_ge_None_2 by lia. done.
    + exists true, s. split_and!; try done. rewrite Hsv. cbn. by apply lookup_lt_is_Some_2.
  - destruct allocate.
    + exists true. eexists. split; [done|]. split.
      * apply same_slots_tls. intros i. unfold slot_at. rewrite Hsv.
        destruct (replicate (S j) slot_new !! i) as [x|] eqn:E; [|done].
        apply lookup_replicate in E as [-> _]. done.
      * cbn [tls set_tls]. rewrite lookup_insert_eq. change (is_Some (replicate (S j) slot_new !! j)).
        rewrite lookup_replicate_2 by lia. by eexists.
    + exists false, s. split_and!; try done. unfold slot_at. by rewrite Hsv.
Qed.

Lemma slot_at_of s t j : slot_at s t j = slot ← slot_of (t, j) s; c ← slot_context slot; Some (c, slot_owner slot).
Proof. unfold slot_at, slot_of. cbn [fst snd]. by destruct (tls s !! t). Qed.

(** Writing a slot that is there *)
Lemma set_slot_ok s t j slot : is_Some (slot_of (t, j) s) ->
  exists s', set_slot (t, j) slot s = (Ok tt, s') /\ slot_of (t, j) s' = Some slot /\
    replaced s t j (c ← slot_context slot; Some (c, slot_owner slot)) s'.
Proof.
  unfold slot_of. cbn [fst snd]. intros [old Hold]. destruct (tls s !! t) as [sv|] eqn:Hsv; [cbn in Hold|done].
  eexists. split; [done|]. unfold modify, set_tls. cbn [fst snd tls].
  rewrite lookup_alter_eq, Hsv. cbn. rewrite list_lookup_insert_eq by (by eapply lookup_lt_Some). split; [done|].
  split_and!; [done..|]. intros t' j'. unfold slot_at. cbn [tls].
  destruct (decide (t' = t)) as [->|Hne].
  - rewrite lookup_alter_eq, Hsv. cbn. destruct (decide (j' = j)) as [->|Hne].
    + rewrite list_lookup_insert_eq by (by eapply lookup_lt_Some). by rewrite decide_True.
    + rewrite list_lookup_insert_ne by done. rewrite decide_False by tauto. done.
  - rewrite lookup_alter_ne by done. by rewrite decide_False by tauto.
Qed.

(** ** The operations on a slot *)

Lemma replaced_same s t j s' : same_slots s s' -> replaced s t j (slot_at s t j) s'.
Proof.
  intros (? & ? & ? & Hs). split_and!; [done..|]. intros t' j'. rewrite Hs.
  destruct (decide _) as [[-> ->]|]; done.
Qed.

Lemma replaced_trans s s1 s2 t j x y : replaced s t j x s1 -> replaced s1 t j y s2 -> replaced s t j y s2.
Proof.
  intros (? & ? & ? & Hs1) (? & ? & ? & Hs2). split_and!; [congruence..|]. intros t' j'. rewrite Hs2, Hs1.
  by destruct (decide _).
Qed.

Lemma replaced_view s this t c s' : replaced s t (pt_index this) (Some (c, pt_id this)) s' -> view s' this t = c.
Proof. intros (_ & _ & _ & H). unfold view. rewrite H, decide_True, Z.eqb_refl; done. Qed.

(** The place of a context, when there is one, is owned and holds the context
    of the object. *)
Definition found (s : Statics) (this : PerThreadImplicitContext) (t : thread) (allocate : bool) (r : option place)
    (s' : Statics) : Prop :=
  let c := view s this t in
  match r with
  | Some p => p = (t, pt_index this) /\ slot_of p s' = Some (MkSlot (Some c) (pt_id this)) /\
      replaced s t (pt_index this) (Some (c, pt_id this)) s'
  | None => allocate = false /\ c = ∅ /\ same_slots s s'
  end.

Lemma getThreadContext_ok this t allocate s : exists r s',
  getThreadContext this t allocate s = (Ok r, s') /\ found s this t allocate r s'.
Proof.
  unfold getThreadContext. destruct (reach_index_ok t (pt_index this) allocate s) as (there & s1 & Hrun & Hsame & Hthere).
  rewrite (bind_ok _ _ _ _ _ Hrun). destruct there; cbn [negb].
  2:{ destruct Hthere as [-> Hnone]. exists None, s1. split; [done|]. split; [done|].
      split; [|exact Hsame]. unfold view. by rewrite Hnone. }
  rewrite bind_get. destruct Hthere as [slot Hslot].
  pose proof (slot_at_of s1 t (pt_index this)) as Hat. rewrite Hslot in Hat. cbn in Hat.
  assert (slot_at s t (pt_index this) = slot_at s1 t (pt_index this)) as Hats by (symmetry; apply Hsame).
  rewrite Hslot. destruct slot as [[c|] owner]; cbn in Hat.
  - destruct (owner =? pt_id this) eqn:E; bool_to_prop.
    + exists (Some (t, pt_index this)), s1. split; [done|].
      assert (view s this t = c) as Hv by (unfold view; by rewrite Hats, Hat, E, Z.eqb_refl).
      unfold found. rewrite Hv. split; [done|]. split; [by rewrite Hslot, E|]. rewrite <- E, <- Hat, <- Hats.
      by apply replaced_same.
    + destruct (set_slot_ok s1 t (pt_index this) (MkSlot (Some ∅) (pt_id this))) as (s2 & Hrun2 & Hs2 & Hr2); [by eexists|].
      exists (Some (t, pt_index this)), s2. rewrite (bind_ok _ _ _ _ _ Hrun2). split; [done|].
      assert (view s this t = ∅) as Hv by (unfold view; by rewrite Hats, Hat, (proj2 (Z.eqb_neq _ _) E)).
      unfold found. rewrite Hv. split; [done|]. split; [done|]. eapply replaced_trans; [by apply replaced_same|done].
  - assert (view s this t = ∅) as Hv by (unfold view; by rewrite Hats, Hat).
    destruct allocate.
    + destruct (set_slot_ok s1 t (pt_index this) (MkSlot (Some ∅) (pt_id this))) as (s2 & Hrun2 & Hs2 & Hr2); [by eexists|].
      exists (Some (t, pt_index this)), s2. rewrite (bind_ok _ _ _ _ _ Hrun2). split; [done|].
      unfold found. rewrite Hv. split; [done|]. split; [done|]. eapply replaced_trans; [by apply replaced_same|done].
    + exists None, s1. split; [done|]. by split.
Qed.

Lemma last_used_spec sv : match last_used sv with
  | None => forall i slot, sv !! i = Some slot -> slot_context slot = None
  | Some k => (k < length sv)%nat /\ forall i slot, (k < i)%nat -> sv !! i = Some slot -> slot_context slot = None
  end.
Proof.
  induction sv as [|slot sv IH]; cbn [last_used]; [done|].
  destruct (last_used sv) as [k|].
  - destruct IH as [Hk IH]. split; [cbn; lia|]. intros [|i] x Hi Hx; [lia|]. apply (IH i); [lia|exact Hx].
  - destruct (slot_context slot) eqn:E.
    + split; [cbn; lia|]. intros [|i] x Hi Hx; [lia|]. by apply (IH i).
    + intros [|i] x Hx; [by injection Hx as <-|]. by apply (IH i).
Qed.

Definition slot_content (o : option Slot) : option (Context * Z) :=
  slot ← o; c ← slot_context slot; Some (c, slot_owner slot).

Lemma replaced_tls s t j x s' : nextId s' = nextId s -> indexInUse s' = indexInUse s -> objects s' = objects s ->
  (forall t', t' <> t -> forall i, slot_at s' t' i = slot_at s t' i) ->
  (forall i, slot_at s' t i = if decide (i = j) then x else slot_at s t i) -> replaced s t j x s'.
Proof.
  intros ? ? ? Hother Hthis. split_and!; [done..|]. intros t' i.
  destruct (decide (t' = t)) as [->|Hne].
  - rewrite Hthis. destruct (decide (i = j)); [by rewrite decide_True by tauto|by rewrite decide_False by tauto].
  - rewrite Hother by done. by rewrite decide_False by tauto.
Qed.

Lemma clearThreadContext_ok this t s : exists s', clearThreadContext this t s = (Ok tt, s') /\
  replaced s t (pt_index this) None s'.
Proof.
  unfold clearThreadContext. rewrite bind_get. set (j := pt_index this).
  assert (same_slots s s) as Hrefl by done.
  destruct (tls s !! t) as [sv|] eqn:Hsv.
  2:{ exists s. split; [done|]. replace None with (slot_at s t j) at 1 by (unfold slot_at; by rewrite Hsv). by apply replaced_same. }
  destruct (sv !! j) as [slot|] eqn:Hslot.
  2:{ exists s. split; [done|]. replace None with (slot_at s t j) at 1 by (unfold slot_at; rewrite Hsv; cbn; by rewrite Hslot).
      by apply replaced_same. }
  set (sv' := <[j := MkSlot None (slot_owner slot)]> sv).
  assert (forall i, slot_content (sv' !! i) =
    if decide (i = j) then None else slot_at s t i) as Hsv'.
  { intros i. unfold slot_at. rewrite Hsv. cbn. unfold sv'. destruct (decide (i = j)) as [->|Hne].
    - by rewrite list_lookup_insert_eq by (by eapply lookup_lt_Some).
    - by rewrite list_lookup_insert_ne. }
  pose proof (last_used_spec sv') as Hlast. destruct (last_used sv') as [k|].
  - destruct Hlast as [Hk Hlast]. eexists. split; [done|]. apply replaced_tls; [done..| |].
    + intros t' Hne. unfold slot_at. cbn [tls set_tls]. by rewrite lookup_insert_ne.
    + intros i. rewrite <- Hsv'. unfold slot_at. cbn [tls set_tls]. rewrite lookup_insert_eq.
      change (slot_content (vector_resize (S k) slot_new sv' !! i) = slot_content (sv' !! i)).
      rewrite lookup_vector_resize. destruct (decide (i < S k)%nat); [by rewrite decide_True by lia|].
      destruct (sv' !! i) as [x|] eqn:E; [|done]. unfold slot_content. cbn. by rewrite (Hlast i x) by (done || lia).
  - eexists. split; [done|]. apply replaced_tls; [done..| |].
    + intros t' Hne. unfold slot_at. cbn [tls set_tls]. by rewrite lookup_delete_ne.
    + intros i. rewrite <- Hsv'. unfold slot_at. cbn [tls set_tls]. rewrite lookup_delete_eq.
      change (None = slot_content (sv' !! i)). destruct (sv' !! i) as [x|] eqn:E; [|done].
      unfold slot_content. cbn. by rewrite (Hlast i x).
Qed.

(** ** The requests *)

(** What a request does to the slots: the context of the object in the thread
    becomes [c], and no other place changes. *)
Record acts (s : Statics) (this : PerThreadImplicitContext) (t : thread) (c : Context) (s' : Statics) : Prop := Acts {
  ac_next : nextId s' = nextId s;
  ac_use : indexInUse s' = indexInUse s;
  ac_objects : objects s' = objects s;
  ac_elsewhere t' j : ~ (t' = t /\ j = pt_index this) -> slot_at s' t' j = slot_at s t' j;
  ac_view : view s' this t = c;
  ac_owner x o : slot_at s' t (pt_index this) = Some (x, o) -> o = pt_id this \/ slot_at s t (pt_index this) = Some (x, o)
}.

Lemma acts_replaced s this t c s' : replaced s t (pt_index this) (Some (c, pt_id this)) s' -> acts s this t c s'.
Proof.
  intros Hr. pose proof (replaced_view s this t c s' Hr) as Hv. destruct Hr as (Hn & Hu & Ho & Hs). split; try done.
  - intros t' j Hne. by rewrite Hs, decide_False.
  - intros x o. rewrite Hs, decide_True by done. intros [= _ <-]. by left.
Qed.

Lemma acts_cleared s this t s' : replaced s t (pt_index this) None s' -> acts s this t ∅ s'.
Proof.
  intros (Hn & Hu & Ho & Hs). split; try done.
  - intros t' j Hne. by rewrite Hs, decide_False.
  - unfold view. by rewrite Hs, decide_True.
  - intros x o. by rewrite Hs, decide_True.
Qed.

Lemma acts_same s this t s' : same_slots s s' -> acts s this t (view s this t) s'.
Proof.
  intros (Hn & Hu & Ho & Hs). split; try done.
  - unfold view. by rewrite Hs.
  - intros x o. rewrite Hs. auto.
Qed.

Lemma read_context_ok s p c o : slot_of p s = Some (MkSlot (Some c) o) -> read_context p s = (Ok c, s).
Proof. intros Hp. unfold read_context. rewrite bind_get. by rewrite Hp. Qed.

Lemma write_context_ok s t j c c' o : slot_of (t, j) s = Some (MkSlot (Some c) o) -> exists s',
  write_context (t, j) c' s = (Ok tt, s') /\ slot_of (t, j) s' = Some (MkSlot (Some c') o) /\ replaced s t j (Some (c', o)) s'.
Proof.
  intros Hp. unfold write_context. rewrite bind_get, Hp. apply set_slot_ok. by eexists.
Qed.

Lemma option_default (o : option str) : match o with Some v => v | None => [] end = default [] o.
Proof. by destruct o. Qed.

Lemma is_empty_spec c : is_empty c = true <-> c = ∅.
Proof. apply bool_decide_eq_true. Qed.

(** A request that only reads *)
Lemma query_ok {A : Type} (this : PerThreadImplicitContext) (t : thread) (s : Statics) (none : A) (some : Context -> A) : some ∅ = none ->
  exists s', (ctx ← getThreadContext this t false;
    match ctx with None => mret none | Some p => c ← read_context p; mret (some c) end) s
    = (Ok (some (view s this t)), s') /\ acts s this t (view s this t) s'.
Proof.
  intros Hnone. destruct (getThreadContext_ok this t false s) as (r & s' & Hrun & Hf).
  exists s'. rewrite (bind_ok _ _ _ _ _ Hrun). destruct r as [p|].
  - destruct Hf as (-> & Hp & Hr). rewrite (bind_ok _ _ _ _ _ (read_context_ok _ _ _ _ Hp)).
    split; [done|by apply acts_replaced].
  - destruct Hf as (_ & Hv & Hs). split; [by rewrite Hv, <- Hnone|by apply acts_same].
Qed.

Lemma getContext_ok this t s : exists s', getContext this t s = (Ok (view s this t), s') /\ acts s this t (view s this t) s'.
Proof.
  destruct (query_ok this t s (∅ : Context) (fun c => c) eq_refl) as (s' & Hrun & Ha). exists s'. split; [|done].
  rewrite <- Hrun. unfold getContext, mbind, M_bind.
  destruct (getThreadContext this t false s) as [[[p|]| |] s1]; try done. by destruct (read_context p s1) as [[]].
Qed.

Lemma setContext_ok this t c s : exists s', setContext this t c s = (Ok tt, s') /\ acts s this t c s'.
Proof.
  unfold setContext. destruct (is_empty c) eqn:E.
  - apply is_empty_spec in E as ->. destruct (clearThreadContext_ok this t s) as (s' & Hrun & Hr).
    exists s'. split; [done|by apply acts_cleared].
  - destruct (getThreadContext_ok this t true s) as (r & s1 & Hrun & Hf). rewrite (bind_ok _ _ _ _ _ Hrun).
    destruct r as [p|]; [|by destruct Hf]. destruct Hf as (-> & Hp & Hr).
    destruct (write_context_ok _ _ _ _ c _ Hp) as (s2 & Hrun2 & _ & Hr2). exists s2. split; [done|].
    apply acts_replaced. by eapply replaced_trans.
Qed.

Lemma put_ok this t k v s : exists s', put this t k v s = (Ok (default [] (view s this t !! k)), s') /\
  acts s this t (<[k := v]> (view s this t)) s'.
Proof.
  unfold put. destruct (getThreadContext_ok this t true s) as (r & s1 & Hrun & Hf). rewrite (bind_ok _ _ _ _ _ Hrun).
  destruct r as [p|]; [|by destruct Hf]. destruct Hf as (-> & Hp & Hr).
  rewrite (bind_ok _ _ _ _ _ (read_context_ok _ _ _ _ Hp)).
  destruct (write_context_ok _ _ _ _ (<[k := v]> (<[k := old_value k (view s this t)]> (view s this t))) _ Hp) as (s2 & Hrun2 & _ & Hr2).
  exists s2. rewrite (bind_ok _ _ _ _ _ Hrun2). split; [done|]. rewrite insert_insert_eq in Hr2.
  apply acts_replaced. by eapply replaced_trans.
Qed.

Lemma remove_ok this t k s : exists s', remove this t k s = (Ok (default [] (view s this t !! k)), s') /\
  acts s this t (delete k (view s this t)) s'.
Proof.
  unfold remove. destruct (getThreadContext_ok this t false s) as (r & s1 & Hrun & Hf). rewrite (bind_ok _ _ _ _ _ Hrun).
  destruct r as [p|].
  - destruct Hf as (-> & Hp & Hr). rewrite (bind_ok _ _ _ _ _ (read_context_ok _ _ _ _ Hp)).
    destruct (view s this t !! k) as [v|] eqn:E.
    + destruct (write_context_ok _ _ _ _ (delete k (view s this t)) _ Hp) as (s2 & Hrun2 & _ & Hr2).
      rewrite (bind_ok _ _ _ _ _ Hrun2). pose proof (replaced_trans _ _ _ _ _ _ _ Hr Hr2) as Hr3.
      destruct (is_empty (delete k (view s this t))) eqn:Ee.
      * apply is_empty_spec in Ee. destruct (clearThreadContext_ok this t s2) as (s3 & Hrun3 & Hr4).
        rewrite (bind_ok _ _ _ _ _ Hrun3). exists s3. split; [done|]. rewrite Ee.
        apply acts_cleared. by eapply replaced_trans.
      * exists s2. split; [done|]. by apply acts_replaced.
    + exists s1. split; [done|]. rewrite delete_id by done. by apply acts_replaced.
  - destruct Hf as (_ & Hv & Hs). exists s1. rewrite Hv, lookup_empty, delete_empty. split; [done|].
    rewrite <- Hv. by apply acts_same.
Qed.

Lemma combine_ok this t proxyCtx s : exists s', combine this t proxyCtx s = (Ok (proxyCtx ∪ view s this t), s') /\
  acts s this t (view s this t) s'.
Proof.
  destruct (query_ok this t s proxyCtx (fun c => if is_empty c then proxyCtx else if is_empty proxyCtx then c
    else insert_all proxyCtx c)) as (s' & Hrun & Ha); [done|].
  exists s'. split; [|done]. unfold combine. rewrite Hrun. do 2 f_equal. unfold insert_all.
  destruct (is_empty (view s this t)) eqn:E1; [apply is_empty_spec in E1 as ->; by rewrite map_union_empty|].
  destruct (is_empty proxyCtx) eqn:E2; [apply is_empty_spec in E2 as ->; by rewrite map_empty_union|done].
Qed.

Lemma do_request_ok this t r s : exists s',
  do_request this t r s = (Ok (fst (spec_request r (view s this t))), s') /\
  acts s this t (snd (spec_request r (view s this t))) s'.
Proof.
  destruct r as [|c|k|k|k v|k|pc]; cbn [do_request spec_request fst snd].
  - destruct (getContext_ok this t s) as (s' & Hrun & Ha). exists s'. by rewrite (bind_ok _ _ _ _ _ Hrun).
  - destruct (setContext_ok this t c s) as (s' & Hrun & Ha). exists s'. by rewrite (bind_ok _ _ _ _ _ Hrun).
  - destruct (query_ok this t s false (fun c => match c !! k with Some _ => true | None => false end)) as (s' & Hrun & Ha);
      [by rewrite lookup_empty|]. exists s'. by rewrite (bind_ok _ _ _ _ _ Hrun).
  - destruct (query_ok this t s [] (fun c => match c !! k with Some v => v | None => [] end)) as (s' & Hrun & Ha);
      [by rewrite lookup_empty|]. exists s'. rewrite (bind_ok _ _ _ _ _ Hrun). by rewrite option_default.
  - destruct (put_ok this t k v s) as (s' & Hrun & Ha). exists s'. by rewrite (bind_ok _ _ _ _ _ Hrun).
  - destruct (remove_ok this t k s) as (s' & Hrun & Ha). exists s'. by rewrite (bind_ok _ _ _ _ _ Hrun).
  - destruct (combine_ok this t pc s) as (s' & Hrun & Ha). exists s'. by rewrite (bind_ok _ _ _ _ _ Hrun).
Qed.

(** ** Objects, threads and their requests *)

(** The owner of an object knows it by a number. Using a number that has no
    object, or giving it to a second one, is an error of the owner. *)
Inductive event : Type :=
  | Create (k : nat)
  | Destroy (k : nat)
  | Request (k : nat) (t : thread) (r : request)
  | ThreadExit (t : thread).

Definition with_object (k : nat) (f : PerThreadImplicitContext -> ptM answer) : ptM answer :=
  s ← get; match objects s !! k with Some this => f this | None => faultM UndefinedBehaviour end.

Definition do_event (e : event) : ptM answer :=
  match e with
  | Create k =>
      s ← get;
      match objects s !! k with
      | Some _ => faultM UndefinedBehaviour
      | None => construct k;; mret AUnit
      end
  | Destroy k => with_object k (fun this => destroy k this;; mret AUnit)
  | Request k t r => with_object k (fun this => do_request this t r)
  | ThreadExit t => thread_exit t;; mret AUnit
  end.

Definition spec_event (e : event) (a : Spec) : result answer * Spec :=
  match e with
  | Create k =>
      if decide (k ∈ live a) then (Fault UndefinedBehaviour, a)
      else (Ok AUnit, MkSpec ({[k]} ∪ live a) (fun k' t => if decide (k' = k) then ∅ else contexts a k' t))
  | Destroy k =>
      if decide (k ∈ live a) then (Ok AUnit, MkSpec (live a ∖ {[k]}) (contexts a))
      else (Fault UndefinedBehaviour, a)
  | Request k t r =>
      if decide (k ∈ live a)
      then (Ok (fst (spec_request r (contexts a k t))), assign k t (snd (spec_request r (contexts a k t))) a)
      else (Fault UndefinedBehaviour, a)
  | ThreadExit t => (Ok AUnit, MkSpec (live a) (fun k t' => if decide (t' = t) then ∅ else contexts a k t'))
  end.

Fixpoint do_events (es : list event) (s : Statics) : list (result answer) :=
  match es with [] => [] | e :: es' => let '(r, s') := do_event e s in r :: do_events es' s' end.

Fixpoint spec_events (es : list event) (a : Spec) : list (result answer) :=
  match es with [] => [] | e :: es' => let '(r, a') := spec_event e a in r :: spec_events es' a' end.

(** ** The simulation *)

Record simulates (s : Statics) (a : Spec) : Prop := Simulates {
  si_next : 0 <= nextId s;
  si_live k : is_Some (objects s !! k) <-> k ∈ live a;
  si_view k this t : objects s !! k = Some this -> view s this t = contexts a k t;
  si_index k1 k2 o1 o2 : objects s !! k1 = Some o1 -> objects s !! k2 = Some o2 -> pt_index o1 = pt_index o2 -> k1 = k2;
  si_used k this : objects s !! k = Some this -> exists v, indexInUse s = Some v /\ v !! pt_index this = Some true;
  si_owner t j c o : slot_at s t j = Some (c, o) -> 0 <= o < nextId s;
  si_id k this : objects s !! k = Some this -> 0 <= pt_id this < nextId s
}.

Lemma simulates_new : simulates statics_new spec_new.
Proof.
  assert (forall k, objects statics_new !! k = None) as Ho by (intros k; change (objects statics_new) with (∅ : gmap nat PerThreadImplicitContext); apply lookup_empty).
  assert (forall t j, slot_at statics_new t j = None) as Hs
    by (intros t j; unfold slot_at; change (tls statics_new) with (∅ : gmap thread SlotVector); by rewrite lookup_empty).
  split; try (intros *; rewrite ?Ho, ?Hs; done).
Qed.

Lemma first_free_spec v : v !! first_free v <> Some true /\ (first_free v <= length v)%nat.
Proof. induction v as [|[] v [IH Hl]]; cbn; [split; [done|lia]|split; [done|lia]|split; [done|lia]]. Qed.

Lemma simulates_request s a k this t c s' : simulates s a -> objects s !! k = Some this -> acts s this t c s' ->
  simulates s' (assign k t c a).
Proof.
  intros [Hn Hl Hv Hi Hu Ho Hid] Hk [An Au Ao Ae Av Aw]. split; rewrite ?An, ?Au, ?Ao; try done.
  - intros k' o t' Hk'. cbn [contexts assign]. destruct (decide (k' = k /\ t' = t)) as [[-> ->]|Hne].
    + rewrite Hk in Hk'. by injection Hk' as <-.
    + rewrite <- (Hv k' o t' Hk'). unfold view. rewrite Ae; [done|]. intros [-> Hj]. apply Hne. split; [|done].
      by eapply Hi.
  - intros t' j x o Hx. destruct (decide (t' = t /\ j = pt_index this)) as [[-> ->]|Hne].
    + destruct (Aw x o Hx) as [->|Hx']; [by eapply Hid|by eapply Ho].
    + rewrite Ae in Hx by done. by eapply Ho.
Qed.

Lemma simulates_exit s a t : simulates s a -> simulates (set_tls (delete t) s)
  (MkSpec (live a) (fun k t' => if decide (t' = t) then ∅ else contexts a k t')).
Proof.
  intros [Hn Hl Hv Hi Hu Ho Hid].
  assert (forall t' j, slot_at (set_tls (delete t) s) t' j = if decide (t' = t) then None else slot_at s t' j) as Hs.
  { intros t' j. unfold slot_at at 1. cbn [tls set_tls]. destruct (decide (t' = t)) as [->|Hne];
      [by rewrite lookup_delete_eq|by rewrite lookup_delete_ne]. }
  split; try done.
  - intros k this t' Hk. cbn [contexts]. rewrite <- (Hv k this t' Hk). unfold view. rewrite Hs. by destruct (decide (t' = t)).
  - intros t' j c o. rewrite Hs. destruct (decide (t' = t)); [done|]. apply Ho.
Qed.

Lemma simulates_destroy s a k this v : simulates s a -> objects s !! k = Some this -> indexInUse s = Some v ->
  let v' := <[pt_index this := false]> v in
  simulates (set_objects (delete k) (set_indexInUse (if existsb (fun b => b) v' then Some v' else None) s))
    (MkSpec (live a ∖ {[k]}) (contexts a)).
Proof.
  intros [Hn Hl Hv Hi Hu Ho Hid] Hk Huse v'.
  assert (forall k' o, delete k (objects s) !! k' = Some o -> k' <> k /\ objects s !! k' = Some o) as Hd
    by (intros k' o Hk'; by apply lookup_delete_Some in Hk' as [? ?]).
  split; cbn [nextId set_objects set_indexInUse objects indexInUse]; try done.
  - intros k'. destruct (decide (k' = k)) as [->|Hne].
    + rewrite lookup_delete_eq. split; [by intros []|set_solver].
    + rewrite lookup_delete_ne, Hl by done. cbn [live]. set_solver.
  - intros k' o t Hk'. apply Hd in Hk' as [_ Hk']. by apply Hv.
  - intros k1 k2 o1 o2 H1 H2. apply Hd in H1 as [_ H1], H2 as [_ H2]. by eapply Hi.
  - intros k' o Hk'. apply Hd in Hk' as [Hne Hk']. destruct (Hu k' o Hk') as (w & Hw & Htrue).
    rewrite Huse in Hw. injection Hw as <-.
    assert (v' !! pt_index o = Some true) as Hv'.
    { unfold v'. rewrite list_lookup_insert_ne; [done|]. intros Heq. apply Hne. by eapply Hi. }
    exists v'. split; [|done]. assert (existsb (fun b => b) v' = true) as ->; [|done].
    apply existsb_exists. exists true. split; [|done]. apply list_elem_of_In. by eapply list_elem_of_lookup_2.
  - intros k' o Hk'. apply Hd in Hk' as [_ Hk']. by eapply Hid.
Qed.

Definition in_use_after (v : list bool) : list bool :=
  <[first_free v := true]> (if (first_free v =? length v)%nat then vector_resize (S (first_free v)) false v else v).

Lemma in_use_after_spec v j : in_use_after v !! j = Some true <-> j = first_free v \/ v !! j = Some true.
Proof.
  unfold in_use_after. destruct (first_free_spec v) as [Hf Hl]. destruct (decide (j = first_free v)) as [->|Hne].
  - rewrite list_lookup_insert_eq; [tauto|]. destruct (first_free v =? length v)%nat eqn:E; bool_to_prop; [|lia].
    unfold vector_resize. rewrite length_app, length_take, length_replicate. lia.
  - rewrite list_lookup_insert_ne by done. destruct (first_free v =? length v)%nat eqn:E; bool_to_prop; [|tauto].
    rewrite lookup_vector_resize. destruct (decide (j < S (first_free v))%nat), (decide (j < length v)%nat); try tauto; try lia.
    rewrite lookup_ge_None_2 by lia. split; [done|]. intros [?|?]; done.
Qed.

Lemma simulates_construct s a k : simulates s a -> objects s !! k = None -> nextId s + 1 < 2 ^ 63 ->
  exists s', construct k s = (Ok tt, s') /\ nextId s' = nextId s + 1 /\
    simulates s' (MkSpec ({[k]} ∪ live a) (fun k' t => if decide (k' = k) then ∅ else contexts a k' t)).
Proof.
  intros [Hn Hl Hv Hi Hu Ho Hid] Hk Hb. unfold construct. rewrite bind_get, bind_modify, bind_modify.
  set (v := match indexInUse s with Some v => v | None => [false] end).
  eexists. split; [done|]. cbn [nextId set_objects set_indexInUse set_nextId].
  rewrite to_signed_id by (unfold in_signed; lia). split; [done|]. fold (in_use_after v).
  assert (forall k' o, <[k := MkPerThread (first_free v) (nextId s)]> (objects s) !! k' = Some o ->
    (k' = k /\ o = MkPerThread (first_free v) (nextId s)) \/ (k' <> k /\ objects s !! k' = Some o)) as Hins.
  { intros k' o. destruct (decide (k' = k)) as [->|Hne]; [rewrite lookup_insert_eq|rewrite lookup_insert_ne by done];
      [intros [= <-]; by left|by right]. }
  assert (forall k' o, objects s !! k' = Some o -> v !! pt_index o = Some true) as Hold.
  { intros k' o Hk'. destruct (Hu k' o Hk') as (w & Hw & ?). unfold v. by rewrite Hw. }
  pose proof (proj1 (first_free_spec v)) as Hfree.
  split; cbn [nextId set_objects set_indexInUse set_nextId objects indexInUse]; try lia.
  - intros k'. destruct (decide (k' = k)) as [->|Hne].
    + rewrite lookup_insert_eq. cbn [live]. split; [set_solver|by eexists].
    + rewrite lookup_insert_ne, Hl by done. cbn [live]. set_solver.
  - intros k' o t Hk'. cbn [contexts]. apply Hins in Hk' as [[-> ->]|[Hne Hk']].
    + rewrite decide_True by done. unfold view. change (slot_at (set_objects ?f (set_indexInUse ?w (set_nextId ?x s)))) with (slot_at s).
      cbn [pt_index pt_id]. destruct (slot_at s t (first_free v)) as [[c o]|] eqn:E; [|done].
      destruct (o =? nextId s) eqn:Eo; [|done]. bool_to_prop. apply Ho in E. lia.
    + rewrite decide_False by done. by apply (Hv k' o t).
  - intros k1 k2 o1 o2 H1 H2 Hidx. apply Hins in H1 as [[-> ->]|[Hne1 H1]], H2 as [[-> ->]|[Hne2 H2]]; try done.
    + apply Hold in H2. rewrite <- Hidx in H2. done.
    + apply Hold in H1. rewrite Hidx in H1. done.
    + by eapply Hi.
  - intros k' o Hk'. exists (in_use_after v). split; [done|]. apply in_use_after_spec.
    apply Hins in Hk' as [[-> ->]|[Hne Hk']]; [by left|right; by eapply Hold].
  - intros t j c o Hs. change (slot_at s t j = Some (c, o)) in Hs. apply Ho in Hs. lia.
  - intros k' o Hk'. apply Hins in Hk' as [[-> ->]|[Hne Hk']]; [cbn; lia|]. apply Hid in Hk'. lia.
Qed.

(** One event: the same answer, and the states still correspond. *)
Lemma simulates_event e s a : simulates s a -> nextId s + 1 < 2 ^ 63 -> exists s',
  do_event e s = (fst (spec_event e a), s') /\ simulates s' (snd (spec_event e a)) /\ nextId s' <= nextId s + 1.
Proof.
  intros Hs Hb. pose proof Hs as [Hn Hl Hv Hi Hu Ho Hid].
  assert (forall k, (exists this, objects s !! k = Some this /\ k ∈ live a) \/ (objects s !! k = None /\ k ∉ live a)) as Hcase.
  { intros k. pose proof (Hl k) as Hk. destruct (objects s !! k) as [this|]; [left; exists this; split; [done|by apply Hk]|].
    right. split; [done|]. intros Hin. by apply Hk in Hin as []. }
  destruct e as [k|k|k t r|t]; cbn [do_event spec_event].
  - rewrite bind_get. destruct (Hcase k) as [(this & -> & Hin)|[Hk Hin]].
    + rewrite decide_True by done. exists s. split_and!; [done..|]. cbn. lia.
    + rewrite decide_False, Hk by done. destruct (simulates_construct s a k Hs Hk Hb) as (s' & Hrun & Hnx & Hs').
      exists s'. rewrite (bind_ok _ _ _ _ _ Hrun). split; [done|]. split; [done|lia].
  - unfold with_object. rewrite bind_get. destruct (Hcase k) as [(this & Hk & Hin)|[-> Hin]].
    + rewrite decide_True, Hk by done. destruct (Hu k this Hk) as (v & Huse & _).
      eexists. split; [|split; [by apply (simulates_destroy s a k this v)|cbn; lia]].
      unfold destroy, deref_in_use, mbind, M_bind, get, modify. by rewrite Huse.
    + rewrite decide_False by done. exists s. split_and!; [done..|]. lia.
  - unfold with_object. rewrite bind_get. destruct (Hcase k) as [(this & Hk & Hin)|[-> Hin]].
    + rewrite decide_True, Hk by done. destruct (do_request_ok this t r s) as (s' & Hrun & Ha).
      rewrite (Hv k this t Hk) in Hrun, Ha. exists s'. split; [done|]. split; [by eapply simulates_request|].
      rewrite (ac_next _ _ _ _ _ Ha). lia.
    + rewrite decide_False by done. exists s. split_and!; [done..|]. lia.
  - eexists. split; [done|]. split; [by apply simulates_exit|]. cbn. lia.
Qed.

(** C40. Whatever objects are made and destroyed and whatever threads do with them
    and end, fewer than 2^63 events answer what a map from objects and threads to
    contexts answers: a slot that a new object takes over never shows the context of
    its former owner, and no access is undefined. *)
Theorem implicit_contexts_refine es : Z.of_nat (length es) < 2 ^ 63 ->
  do_events es statics_new = spec_events es spec_new.
Proof.
  assert (forall es s a, simulates s a -> nextId s + Z.of_nat (length es) < 2 ^ 63 ->
    do_events es s = spec_events es a) as H; [|intros; apply H; [apply simulates_new|done]].
  clear es. induction es as [|e es IH]; intros s a Hs Hb; cbn [do_events spec_events length] in *; [done|].
  destruct (simulates_event e s a Hs) as (s' & Hrun & Hs' & Hn); [lia|].
  rewrite Hrun. destruct (spec_event e a) as [r a'] eqn:E. cbn [fst snd] in *. f_equal. apply IH; [done|lia].
Qed.

(** A slot with the context of a destroyed object is taken over. *)
Lemma implicit_contexts_refine_witness :
  let es := [Create 0; Request 0 7 (Put (lit "k") (lit "v")); Create 1; Request 1 7 (Put (lit "k") (lit "w"));
             Destroy 0; Create 2; Request 2 7 (Get (lit "k")); Request 1 7 (Combine {[lit "k" := lit "x"; lit "l" := lit "y"]})] in
  spec_events es spec_new = [Ok AUnit; Ok (AText []); Ok AUnit; Ok (AText []); Ok AUnit; Ok AUnit; Ok (AText []);
    Ok (AContext {[lit "k" := lit "x"; lit "l" := lit "y"]})] /\
  do_events es statics_new = spec_events es spec_new.
Proof. split; [vm_compute; reflexivity|]. apply implicit_contexts_refine. cbn. lia. Defined.

(** Both kinds of contexts are combined with that of a proxy in the same way:
    the entries of the proxy win. *)
Lemma shared_combine proxyCtx c : SharedImplicitContext.combine proxyCtx c = (Ok (proxyCtx ∪ c), c).
Proof.
  unfold SharedImplicitContext.combine. rewrite bind_get. unfold mret, M_ret. do 2 f_equal. unfold insert_all.
  destruct (is_empty proxyCtx) eqn:E1; [apply is_empty_spec in E1 as ->; by rewrite map_empty_union|].
  destruct (is_empty c) eqn:E2; [apply is_empty_spec in E2 as ->; by rewrite map_union_empty|done].
Qed.

Lemma shared_written proxyCtx c : SharedImplicitContext.written proxyCtx c = SharedImplicitContext.combine proxyCtx c.
Proof. done. Qed.
