(* ===== verification/GC.v ===== *)
(** * The garbage collector

    cpp/src/Ice/GC.cpp with the reference counts of IceUtil/Shared.cpp and
    Ice/Handle.h, the virtual functions that slice2cpp generates for a class
    with class members (slice2cpp/Gen.cpp), and SlicedData.cpp. The instances of
    Slice classes are counted references with destructors that release their
    members; those that can be on a cycle are candidates of the collector.

    An operation is one step: the code holds [gcRecMutex] while it counts, and
    the destructor that runs behind the lock works on an instance that nobody
    else knows. A reference count is an [int]; it is a [Z] here, for fewer than
    2^31 handles. [gcObjects] lives as long as the collector. *)

From stdpp Require Import gmap.
From S2P Require Import Prelude Hoare.

(** A class without class members, one with class members, and the preserved
    slices of an instance *)
Inductive Kind : Type := LeafInstance | ClassInstance | SlicedInstance.

#[export] Instance Kind_eq_dec : EqDecision Kind.
Proof. solve_decision. Defined.

(** [_ref] and [_noDelete] of [Shared], and the members that are handles, those
    in structures, sequences and dictionaries included; [None] is null. *)
Record Instance : Type := MkInstance {
  kind : Kind;
  members : list (option nat);
  _ref : Z;
  _noDelete : bool
}.

Inductive GCState : Type := NotStarted | Started | Stopping | Stopped.

#[export] Instance GCState_eq_dec : EqDecision GCState.
Proof. solve_decision. Defined.

(** The instances at their addresses, the candidates, and the members of the collector *)
Record World : Type := MkWorld {
  objects : gmap nat Instance;
  gcObjects : gset nat;
  _collecting : bool;
  _state : GCState
}.

Definition world_new : World := MkWorld ∅ ∅ false NotStarted.

Local Abbreviation worldM := (M World).

Definition set_objects o w := MkWorld o (gcObjects w) (_collecting w) (_state w).
Definition set_gcObjects g w := MkWorld (objects w) g (_collecting w) (_state w).
Definition set_collecting c w := MkWorld (objects w) (gcObjects w) c (_state w).
Definition set_state s w := MkWorld (objects w) (gcObjects w) (_collecting w) s.

Definition set_members m x := MkInstance (kind x) m (_ref x) (_noDelete x).
Definition set_ref r x := MkInstance (kind x) (members x) r (_noDelete x).
Definition set_noDelete d x := MkInstance (kind x) (members x) (_ref x) d.

Fixpoint for_each {S A} (f : A -> M S unit) (l : list A) : M S unit :=
  match l with [] => mret tt | a :: l' => f a;; for_each f l' end.

Fixpoint fold_each {S A B} (f : B -> A -> M S B) (b : B) (l : list A) : M S B :=
  match l with [] => mret b | a :: l' => b' ← f b a; fold_each f b' l' end.

(** ** Instances *)

(** An access to an instance that was deleted is undefined. *)
Definition the (p : nat) : worldM Instance :=
  w ← get; match objects w !! p with Some x => mret x | None => faultM UndefinedBehaviour end.
Definition put (p : nat) (x : Instance) : worldM unit := modify (fun w => set_objects (<[p := x]> (objects w)) w).
Definition remove (p : nat) : worldM unit := modify (fun w => set_objects (delete p (objects w)) w).

(** [__usesGC]: the instances that derive from [GCShared] *)
Definition usesGC (x : Instance) : bool := match kind x with LeafInstance => false | _ => true end.

(** The handles that a destructor destroys, the last member first *)
Definition handles (x : Instance) : list nat := omap id (rev (members x)).

(** ** Reference counts *)

(** [IceUtil::Shared::__incRef] *)
Definition Shared_incRef (p : nat) : worldM unit :=
  x ← the p;
  assertM (0 <=? _ref x);;
  put p (set_ref (_ref x + 1) x).

(** [GCShared::__incRef] *)
Definition GCShared_incRef (p : nat) : worldM unit :=
  x ← the p;
  assertM (0 <=? _ref x);;
  (if _ref x =? 0 then
     w ← get;
     assertM (negb (bool_decide (p ∈ gcObjects w)));;
     modify (fun w => set_gcObjects ({[p]} ∪ gcObjects w) w)
   else mret tt);;
  put p (set_ref (_ref x + 1) x).

Definition incRef (p : nat) : worldM unit :=
  x ← the p; if usesGC x then GCShared_incRef p else Shared_incRef p.

(** [IceUtil::Shared::__decRef] until it deletes the instance or does not *)
Definition Shared_decrement (p : nat) : worldM bool :=
  x ← the p;
  assertM (0 <? _ref x);;
  if _ref x - 1 =? 0 then
    put p (set_noDelete true (set_ref 0 x));;
    mret (negb (_noDelete x))
  else (put p (set_ref (_ref x - 1) x);; mret false).

(** [GCShared::__decRef] until it leaves its lock *)
Definition GCShared_decrement (p : nat) : worldM bool :=
  x ← the p;
  assertM (0 <? _ref x);;
  if _ref x - 1 =? 0 then
    put p (set_noDelete true (set_ref 0 x));;
    w ← get;
    assertM (bool_decide (p ∈ gcObjects w));;
    modify (fun w => set_gcObjects (gcObjects w ∖ {[p]}) w);;
    mret (negb (_noDelete x))
  else (put p (set_ref (_ref x - 1) x);; mret false).

(** [delete p]: its handles are destroyed by [dec] *)
Definition delete_instance (dec : nat -> worldM unit) (p : nat) : worldM unit :=
  x ← the p; remove p;; for_each dec (handles x).

Definition decrement (p : nat) : worldM bool :=
  x ← the p; if usesGC x then GCShared_decrement p else Shared_decrement p.

(** [__decRef] *)
Fixpoint decRef (fuel : nat) (p : nat) : worldM unit :=
  doDelete ← decrement p;
  if (doDelete : bool) then
    match fuel with O => faultM OutOfFuel | S fuel' => delete_instance (decRef fuel') p end
  else mret tt.

Definition setNoDelete (p : nat) (d : bool) : worldM unit := x ← the p; put p (set_noDelete d x).

(** [__decRefUnsafe] *)
Definition decRefUnsafe (p : nat) : worldM unit := x ← the p; put p (set_ref (_ref x - 1) x).

(** The destructors that run are those of instances that there are. *)
Definition decRef_all (p : nat) : worldM unit := w ← get; decRef (size (objects w)) p.

Definition set_handle (p i : nat) (q : option nat) : worldM unit :=
  x ← the p; put p (set_members (<[i := q]> (members x)) x).

(** [Handle::operator=] of a member *)
Definition assign (p i : nat) (q : option nat) : worldM unit :=
  x ← the p;
  match members x !! i with
  | None => faultM UndefinedBehaviour
  | Some old =>
      if bool_decide (old = q) then mret tt else
      (match q with Some q => incRef q | None => mret tt end);;
      set_handle p i q;;
      match old with Some old => decRef_all old | None => mret tt end
  end.

(** ** The virtual functions of the candidates *)

Abbreviation GCCountMap := (gmap nat Z).

(** [__addObject], which does nothing for a class without class members *)
Definition addObject (q : nat) (c : GCCountMap) : worldM GCCountMap :=
  y ← the q;
  mret (if usesGC y then <[q := match c !! q with Some n => n + 1 | None => 1 end]> c else c).

(** A member in the generated code, which passes null over *)
Definition class_reachable (c : GCCountMap) (m : option nat) : worldM GCCountMap :=
  match m with Some q => addObject q c | None => mret c end.

(** An entry of a preserved slice, which [SlicedData::__gcReachable] follows as it is *)
Definition slice_reachable (c : GCCountMap) (m : option nat) : worldM GCCountMap :=
  match m with Some q => addObject q c | None => throw NullHandleException end.

(** [__gcReachable] *)
Definition gcReachable (p : nat) (c : GCCountMap) : worldM GCCountMap :=
  x ← the p;
  fold_each (if bool_decide (kind x = SlicedInstance) then slice_reachable else class_reachable) c (members x).

(** [__decRefUnsafe] and [__clearHandleUnsafe] of the handle at [i] *)
Definition unhook (p i q : nat) : worldM unit := decRefUnsafe q;; set_handle p i None.

(** A member in the generated code: unhooked, or assigned null *)
Definition class_clear (p i : nat) : worldM unit :=
  x ← the p;
  match members x !! i with
  | Some (Some q) =>
      y ← the q;
      if usesGC y then unhook p i q else (set_handle p i None;; decRef_all q)
  | _ => mret tt
  end.

(** An entry of a preserved slice in [SlicedData::__gcClear] *)
Definition slice_clear (p i : nat) : worldM unit :=
  x ← the p;
  match members x !! i with
  | Some (Some q) =>
      y ← the q;
      if usesGC y then unhook p i q else mret tt
  | _ => throw NullHandleException
  end.

Definition gcClear_member (p i : nat) : worldM unit :=
  x ← the p; if bool_decide (kind x = SlicedInstance) then slice_clear p i else class_clear p i.

(** [__gcClear]. The entries of all slices are one list here; [objects.clear()]
    destroys the handles of leaves that [SlicedData] leaves in it. *)
Definition gcClear (p : nat) : worldM unit :=
  x ← the p;
  for_each (gcClear_member p) (seq 0 (length (members x)));;
  if bool_decide (kind x = SlicedInstance) then
    x ← the p;
    put p (set_members [] x);;
    for_each decRef_all (omap id (members x))
  else mret tt.

(** ** The collector *)

Section collector.
(** The order of addresses in [std::set] and [std::map] *)
Context (order : gset nat -> list nat).

Fixpoint recursivelyReachable (fuel : nat) (p : nat) (o : gset nat) : worldM (gset nat) :=
  if bool_decide (p ∈ o) then mret o else
  match fuel with
  | O => faultM OutOfFuel
  | S fuel' =>
      tmp ← gcReachable p ∅;
      fold_each (fun o q => recursivelyReachable fuel' q o) ({[p]} ∪ o) (order (dom tmp))
  end.

(** The counts of the candidates, and how often candidates point to each of them *)
Definition count_references : worldM (GCCountMap * GCCountMap) :=
  w ← get;
  fold_each (fun '(counts, reachable) p =>
    x ← the p;
    reachable ← gcReachable p reachable;
    mret (<[p := _ref x]> counts, reachable)) (∅, ∅) (order (gcObjects w)).

Definition subtract (reachable counts : GCCountMap) : worldM GCCountMap :=
  fold_each (fun counts q =>
    match counts !! q, reachable !! q with
    | Some n, Some m => mret (<[q := n - m]> counts)
    | _, _ => faultM AssertionFailure
    end) counts (order (dom reachable)).

Definition live_objects (counts : GCCountMap) : worldM (gset nat) :=
  w ← get;
  fold_each (fun live p =>
    match counts !! p with
    | Some n => if 0 <? n then recursivelyReachable (size (gcObjects w)) p live else mret live
    | None => mret live
    end) ∅ (order (dom counts)).

Definition remove_live (live : gset nat) (counts : GCCountMap) : worldM GCCountMap :=
  fold_each (fun counts p =>
    match counts !! p with Some _ => mret (delete p counts) | None => faultM AssertionFailure end) counts (order live).

Definition sweep (counts : GCCountMap) : worldM unit :=
  for_each gcClear (order (dom counts));;
  for_each (fun p =>
    modify (fun w => set_gcObjects (gcObjects w ∖ {[p]}) w);; delete_instance decRef_all p) (order (dom counts)).

(** The numbers of [GCStats]: examined and collected *)
Definition collectGarbage : worldM (nat * nat) :=
  w ← get;
  if _collecting w then mret (0%nat, 0%nat) else
  modify (set_collecting true);;
  cr ← count_references;
  counts ← subtract (snd cr) (fst cr);
  live ← live_objects counts;
  counts ← remove_live live counts;
  sweep counts;;
  modify (set_collecting false);;
  mret (size (gcObjects w), size (dom counts)).

(** *** The thread *)

(** One turn of the loop of [run]; [false] ends the thread. *)
Definition run_turn (timedOut : bool) : worldM bool :=
  w ← get;
  if bool_decide (_state w = Stopping) then modify (set_state Stopped);; mret false
  else if timedOut then _ ← collectGarbage; mret true
  else mret true.

Definition run_start : worldM unit := modify (set_state Started).

(** [stop], when the thread has been started; [true] when it is to be joined. *)
Definition stop : worldM bool :=
  w ← get;
  match _state w with
  | Stopping | Stopped => mret false
  | _ => modify (set_state Stopping);; mret true
  end.

(** ** A program over these instances *)

(** What a program does with its own handles, and what the collector does *)
Inductive command : Type :=
  | New (p : nat) (k : Kind) (targets : list nat) (nulls : nat)
  | Copy (p : nat)
  | Load (p i : nat)
  | Drop (p : nat)
  | Assign (p i : nat) (q : option nat)
  | SetNoDelete (p : nat) (d : bool)
  | Collect.

(** The constructor copies the handles it is given; the new instance gets a handle. *)
Definition run (c : command) : worldM unit :=
  match c with
  | New p k targets nulls =>
      for_each incRef targets;;
      put p (MkInstance k ((Some <$> targets) ++ replicate nulls None) 0 false);;
      incRef p
  | Copy p => incRef p
  | Load p i =>
      x ← the p;
      match members x !! i with
      | Some (Some q) => incRef q
      | _ => mret tt
      end
  | Drop p => decRef_all p
  | Assign p i q => assign p i q
  | SetNoDelete p d => setNoDelete p d
  | Collect => _ ← collectGarbage; mret tt
  end.

(** How many handles a program holds of each instance *)
Definition more (p : nat) (ext : nat -> nat) : nat -> nat := fun q => if decide (q = p) then S (ext q) else ext q.
Definition less (p : nat) (ext : nat -> nat) : nat -> nat := fun q => if decide (q = p) then pred (ext q) else ext q.

Definition loaded (w : World) (p i : nat) : option nat :=
  x ← objects w !! p; m ← members x !! i; m.

Definition holding (c : command) (w : World) (ext : nat -> nat) : nat -> nat :=
  match c with
  | New p _ _ _ | Copy p => more p ext
  | Load p i => match loaded w p i with Some q => more q ext | None => ext end
  | Drop p => less p ext
  | _ => ext
  end.

(** What a program may do: it uses the instances that it has a handle of, or
    that have no handle at all, as [this] in a constructor; a class without
    class members has no handles, and the entries of preserved slices are not
    null and do not change. *)
Definition within (c : command) (w : World) (ext : nat -> nat) : Prop :=
  match c with
  | New p k targets nulls =>
      objects w !! p = None /\ Forall (fun q => (0 < ext q)%nat) targets /\
      match k with LeafInstance => targets = [] /\ nulls = 0%nat | SlicedInstance => nulls = 0%nat | ClassInstance => True end
  | Copy p => exists x, objects w !! p = Some x /\ ((0 < ext p)%nat \/ _ref x = 0)
  | Drop p | SetNoDelete p _ => (0 < ext p)%nat
  | Load p i => (0 < ext p)%nat
  | Assign p i q => (0 < ext p)%nat /\
      (exists x old, objects w !! p = Some x /\ kind x = ClassInstance /\ members x !! i = Some old) /\
      match q with Some q => (0 < ext q)%nat | None => True end
  | Collect => True
  end.

(** The states that a program reaches, with its handles *)
Inductive reached : World -> (nat -> nat) -> Prop :=
  | reached_new : reached world_new (fun _ => 0%nat)
  | reached_step w ext c r w' : reached w ext -> within c w ext -> run c w = (r, w') -> reached w' (holding c w ext).
End collector.
