(* ===== verification/GCSpec.v ===== *)
(** * What the garbage collector promises

    The reference count of an instance is the number of its handles: those of
    the program and those that are members of other instances. The collector
    deletes the instances that the program cannot reach, and no others. *)

From stdpp Require Import gmap.
From S2P Require Import Prelude Hoare GC.

(** ** Counting handles *)

Definition points_at (q : nat) (m : option nat) : nat := if decide (m = Some q) then 1 else 0.
Definition count (q : nat) (ms : list (option nat)) : nat := sum_list_with (points_at q) ms.
Definition occurrences (q : nat) (l : list nat) : nat := count q (Some <$> l).

#[local] Arguments count : simpl never.

Lemma count_app q l l' : count q (l ++ l') = (count q l + count q l')%nat.
Proof. unfold count. by rewrite sum_list_with_app. Qed.

Lemma count_nil q : count q [] = 0%nat.
Proof. done. Qed.

Lemma count_cons q m ms : count q (m :: ms) = (points_at q m + count q ms)%nat.
Proof. done. Qed.

Lemma count_pos q ms : (0 < count q ms)%nat <-> Some q ∈ ms.
Proof.
  induction ms as [|m ms IH]; [split; [unfold count; cbn; lia|by intros ?%elem_of_nil]|].
  rewrite elem_of_cons, <- IH, count_cons. unfold points_at. destruct (decide _) as [->|Hm]; [split; [by left|lia]|].
  split; [by right|]. intros [<-|?]; [done|lia].
Qed.

Lemma count_insert q ms i old m : ms !! i = Some old ->
  (count q (<[i := m]> ms) + points_at q old = count q ms + points_at q m)%nat.
Proof.
  revert i. induction ms as [|m' ms IH]; intros [|i] H; try done.
  - injection H as ->. change (<[0%nat := m]> (old :: ms)) with (m :: ms). rewrite !count_cons. lia.
  - specialize (IH i H). change (<[S i := m]> (m' :: ms)) with (m' :: <[i := m]> ms). rewrite !count_cons. lia.
Qed.

Lemma count_replicate q n : count q (replicate n None) = 0%nat.
Proof. induction n as [|n IH]; [done|]. exact IH. Qed.

Lemma count_handles q ms : occurrences q (omap id ms) = count q ms.
Proof. unfold occurrences. induction ms as [|[r|] ms IH]; [done| |exact IH].
  cbn [omap list_omap id fmap list_fmap]. by rewrite !count_cons, <- IH.
Qed.

Lemma count_rev q ms : count q (rev ms) = count q ms.
Proof. induction ms as [|m ms IH]; [done|]. cbn [rev]. rewrite count_app, IH, !count_cons. change (count q []) with 0%nat. lia. Qed.

Lemma sum_ext {A} (f g : A -> nat) l : (forall a, a ∈ l -> f a = g a) -> sum_list_with f l = sum_list_with g l.
Proof.
  induction l as [|a l IH]; intros H; [done|]. cbn. rewrite H by (by left). rewrite IH; [done|]. intros b Hb. apply H. by right.
Qed.

Lemma sum_pos {A} (f : A -> nat) l : (0 < sum_list_with f l)%nat <-> exists a, a ∈ l /\ (0 < f a)%nat.
Proof.
  induction l as [|a l IH]; [split; [cbn; lia|by intros (? & ?%elem_of_nil & _)]|]. cbn. split.
  - intros H. destruct (decide (0 < f a)%nat); [exists a; split; [by left|done]|].
    destruct (proj1 IH) as (b & ? & ?); [lia|]. exists b. split; [by right|done].
  - intros (b & [->|Hb]%elem_of_cons & H); [lia|]. assert (0 < sum_list_with f l)%nat; [|lia]. apply IH. eauto.
Qed.

Lemma sum_perm {A} (f : A -> nat) l l' : l ≡ₚ l' -> sum_list_with f l = sum_list_with f l'.
Proof. induction 1; cbn; lia. Qed.

Definition members_at (h : gmap nat Instance) (p : nat) : list (option nat) := default [] (members <$> h !! p).

(** The handles of [q] that the instances of a set hold, and those of all instances *)
Definition held_by (h : gmap nat Instance) (X : gset nat) (q : nat) : nat :=
  sum_list_with (fun p => count q (members_at h p)) (elements X).
Definition total (h : gmap nat Instance) (q : nat) : nat := held_by h (dom h) q.

Lemma held_by_union h X Y q : X ## Y -> held_by h (X ∪ Y) q = (held_by h X q + held_by h Y q)%nat.
Proof.
  intros H. unfold held_by. rewrite (sum_perm _ _ (elements X ++ elements Y)) by by apply elements_disj_union.
  by rewrite sum_list_with_app.
Qed.

Lemma held_by_ext h h' X q : (forall p, p ∈ X -> members_at h p = members_at h' p) -> held_by h X q = held_by h' X q.
Proof. intros H. apply sum_ext. intros p Hp%elem_of_elements. by rewrite H. Qed.

Lemma held_by_pos h X q : (0 < held_by h X q)%nat <-> exists p x, p ∈ X /\ h !! p = Some x /\ Some q ∈ members x.
Proof.
  unfold held_by. rewrite sum_pos. unfold members_at. split.
  - intros (p & Hp%elem_of_elements & H). destruct (h !! p) as [x|] eqn:E; cbn in H; [|unfold count in H; cbn in H; lia].
    exists p, x. split; [done|]. split; [done|]. by apply count_pos.
  - intros (p & x & Hp & E & H). exists p. rewrite elem_of_elements, E. split; [done|]. by apply count_pos.
Qed.

Lemma total_delete h p x q : h !! p = Some x -> total h q = (count q (members x) + total (delete p h) q)%nat.
Proof.
  intros Hp. unfold total. assert (dom h = {[p]} ∪ dom (delete p h)) as E.
  { rewrite dom_delete_L. apply set_eq. intros r. rewrite elem_of_union, elem_of_singleton, elem_of_difference, elem_of_singleton.
    destruct (decide (r = p)) as [->|]; [rewrite elem_of_dom|]; naive_solver. }
  rewrite E, held_by_union by (rewrite dom_delete_L; set_solver). f_equal.
  - unfold held_by. rewrite elements_singleton. cbn. unfold members_at. rewrite Hp. cbn. lia.
  - apply held_by_ext. intros r Hr. unfold members_at. rewrite dom_delete_L in Hr. rewrite lookup_delete_ne; [done|set_solver].
Qed.

Lemma total_new h p x q : h !! p = None -> total (<[p := x]> h) q = (count q (members x) + total h q)%nat.
Proof. intros Hp. rewrite (total_delete _ p x) by apply lookup_insert_eq. by rewrite delete_insert_id. Qed.

Lemma total_update h p x y q : h !! p = Some x ->
  (total (<[p := y]> h) q + count q (members x) = total h q + count q (members y))%nat.
Proof.
  intros Hp. rewrite (total_delete h p x q Hp), (total_delete _ p y q) by apply lookup_insert_eq. rewrite delete_insert_eq. lia.
Qed.

(** ** Counts are right *)

Record core (ext : nat -> nat) (h : gmap nat Instance) : Prop := Core {
  core_ext : forall p, (0 < ext p)%nat -> is_Some (h !! p);
  core_target : forall p x q, h !! p = Some x -> Some q ∈ members x -> is_Some (h !! q);
  core_ref : forall p x, h !! p = Some x -> _ref x = Z.of_nat (ext p + total h p);
  core_leaf : forall p x, h !! p = Some x -> usesGC x = false -> members x = []
}.

Lemma core_equal ext ext' h : (forall p, ext p = ext' p) -> core ext h -> core ext' h.
Proof.
  intros E [H1 H2 H3 H4]. split; [|done| |done].
  - intros p. rewrite <- E. apply H1.
  - intros p. rewrite <- E. apply H3.
Qed.

Definition plus (l : list nat) (ext : nat -> nat) : nat -> nat := fun q => (ext q + occurrences q l)%nat.

Lemma more_at p ext q : more p ext q = (ext q + (if decide (q = p) then 1 else 0))%nat.
Proof. unfold more. destruct (decide _); lia. Qed.

Lemma points_at_some q r : points_at q (Some r) = if decide (q = r) then 1%nat else 0%nat.
Proof. unfold points_at. destruct (decide (q = r)) as [->|H]; [by rewrite decide_True|]. rewrite decide_False; [done|]. by intros [= ->]. Qed.

Lemma points_at_none q : points_at q None = 0%nat.
Proof. done. Qed.

Lemma plus_cons p l ext q : plus (p :: l) ext q = plus l (more p ext) q.
Proof.
  unfold plus, occurrences. rewrite more_at. change (Some <$> p :: l) with (Some p :: (Some <$> l)). rewrite count_cons, points_at_some. lia.
Qed.

Lemma less_more p ext q : less p (more p ext) q = ext q.
Proof. unfold less, more. by destruct (decide _). Qed.

Lemma core_none ext h p : core ext h -> h !! p = None -> ext p = 0%nat /\ total h p = 0%nat.
Proof.
  intros Hc Hp. split.
  - destruct (ext p) eqn:E; [done|]. destruct (core_ext _ _ Hc p) as [x ?]; [lia|congruence].
  - destruct (total h p) eqn:E; [done|]. assert (0 < total h p)%nat as (r & x & _ & Hr & Hx)%held_by_pos by lia.
    destruct (core_target _ _ Hc r x p Hr Hx). congruence.
Qed.

(** Changing what is no handle *)
Lemma core_update ext ext' h p x y : core ext h -> h !! p = Some x -> members y = members x -> kind y = kind x ->
  (forall q, q <> p -> ext' q = ext q) -> _ref y = _ref x + Z.of_nat (ext' p) - Z.of_nat (ext p) -> core ext' (<[p := y]> h).
Proof.
  intros Hc Hp Hm Hk He Hr.
  assert (forall q, total (<[p := y]> h) q = total h q) as Ht.
  { intros q. pose proof (total_update h p x y q Hp) as H. rewrite Hm in H. lia. }
  assert (forall r z, <[p := y]> h !! r = Some z -> exists z', h !! r = Some z' /\ members z = members z' /\ kind z = kind z') as Hz.
  { intros r z H. apply lookup_insert_Some in H as [[-> ->]|[? H]]; eauto. }
  split.
  - intros q Hq. apply lookup_insert_is_Some'. destruct (decide (q = p)) as [->|Hqp]; [by left|]. right.
    rewrite He in Hq by done. by apply (core_ext _ _ Hc).
  - intros r z q H Hq. destruct (Hz r z H) as (z' & H' & E & _). rewrite E in Hq. apply lookup_insert_is_Some'. right.
    by apply (core_target _ _ Hc r z').
  - intros r z H. rewrite Ht. apply lookup_insert_Some in H as [[-> ->]|[Hne H]].
    + rewrite Hr, (core_ref _ _ Hc _ _ Hp). lia.
    + rewrite He by done. by apply (core_ref _ _ Hc).
  - intros r z H Hg. destruct (Hz r z H) as (z' & H' & E & Ek). rewrite E. apply (core_leaf _ _ Hc r z' H').
    unfold usesGC in *. by rewrite <- Ek.
Qed.

Lemma core_more ext h p x : core ext h -> h !! p = Some x -> core (more p ext) (<[p := set_ref (_ref x + 1) x]> h).
Proof.
  intros Hc Hp. apply (core_update ext _ h p x); try done.
  - intros q Hq. rewrite more_at, decide_False by done. lia.
  - rewrite more_at, decide_True by done. cbn. lia.
Qed.

Lemma core_less ext h p x d : core ext h -> h !! p = Some x -> (0 < ext p)%nat ->
  core (less p ext) (<[p := MkInstance (kind x) (members x) (_ref x - 1) d]> h).
Proof.
  intros Hc Hp He. apply (core_update ext _ h p x); try done.
  - intros q Hq. unfold less. by rewrite decide_False.
  - unfold less. rewrite decide_True by done. cbn. lia.
Qed.

(** Handles move between the program and an instance. *)
Lemma core_members ext ext' h p x y : core ext h -> h !! p = Some x -> kind y = kind x -> _ref y = _ref x -> usesGC x = true ->
  (forall q, (ext' q + count q (members y) = ext q + count q (members x))%nat) ->
  (forall q, Some q ∈ members y -> is_Some (h !! q)) ->
  core ext' (<[p := y]> h).
Proof.
  intros Hc Hp Hk Hr Hg He Hm.
  assert (forall q, (0 < count q (members x))%nat -> is_Some (h !! q)) as Ho.
  { intros q Hq%count_pos. by apply (core_target _ _ Hc p x q Hp). }
  split.
  - intros q Hq. apply lookup_insert_is_Some'. right. destruct (decide (0 < count q (members x))%nat); [by apply Ho|].
    apply (core_ext _ _ Hc). specialize (He q). lia.
  - intros r z q H Hq. apply lookup_insert_is_Some'. right. apply lookup_insert_Some in H as [[-> <-]|[_ H]]; [by apply Hm|by apply (core_target _ _ Hc r z)].
  - intros r z H. specialize (He r). pose proof (total_update h p x y r Hp) as Ht. apply lookup_insert_Some in H as [[-> <-]|[_ H]].
    + rewrite Hr, (core_ref _ _ Hc _ _ Hp). lia.
    + rewrite (core_ref _ _ Hc _ _ H). lia.
  - intros r z H Hu. apply lookup_insert_Some in H as [[-> <-]|[_ H]]; [unfold usesGC in *; rewrite Hk in Hu; congruence|].
    by apply (core_leaf _ _ Hc r z).
Qed.

Lemma core_member ext ext' h p x i old m : core ext h -> h !! p = Some x -> members x !! i = Some old -> usesGC x = true ->
  (forall q, (ext' q + points_at q m = ext q + points_at q old)%nat) ->
  (forall q, m = Some q -> is_Some (h !! q)) ->
  core ext' (<[p := set_members (<[i := m]> (members x)) x]> h).
Proof.
  intros Hc Hp Hi Hg He Hm. apply (core_members ext _ _ p x); try done.
  - intros q. specialize (He q). pose proof (count_insert q (members x) i old m Hi). cbn. lia.
  - cbn. intros q Hq. apply list_elem_of_lookup in Hq as [j Hj]. apply list_lookup_insert_Some in Hj as [(-> & Hmq & _)|[_ Hj]].
    + by apply Hm.
    + apply (core_target _ _ Hc p x q Hp). by eapply list_elem_of_lookup_2.
Qed.

(** The handles of an instance that is deleted are the program's to release. *)
Lemma core_delete ext h p x : core ext h -> h !! p = Some x -> _ref x = 0 -> core (plus (handles x) ext) (delete p h).
Proof.
  intros Hc Hp Hr. rewrite (core_ref _ _ Hc _ _ Hp) in Hr.
  assert (forall q, plus (handles x) ext q = (ext q + count q (members x))%nat) as Hh.
  { intros q. unfold plus, handles. by rewrite count_handles, count_rev. }
  assert (forall r z q, h !! r = Some z -> Some q ∈ members z -> q <> p) as Hn.
  { intros r z q Hz Hq ->. assert (0 < total h p)%nat; [|lia]. apply held_by_pos. exists r, z. split; [by eapply elem_of_dom_2|done]. }
  split.
  - intros q. rewrite Hh. intros Hq. assert (q <> p) as Hne.
    { intros ->. assert (0 < count p (members x))%nat as Hx%count_pos by lia. by apply (Hn p x p). }
    rewrite lookup_delete_ne by done. destruct (decide (0 < ext q)%nat); [by apply (core_ext _ _ Hc)|].
    apply (core_target _ _ Hc p x q Hp). apply count_pos. lia.
  - intros r z q [_ Hz]%lookup_delete_Some Hq. rewrite lookup_delete_ne by (apply not_eq_sym; by apply (Hn r z q)).
    by apply (core_target _ _ Hc r z).
  - intros r z [_ Hz]%lookup_delete_Some. rewrite Hh, (core_ref _ _ Hc _ _ Hz), (total_delete h p x r Hp). lia.
  - intros r z [_ Hz]%lookup_delete_Some. by apply (core_leaf _ _ Hc r z).
Qed.

(** A new instance takes the handles of its members over. *)
Lemma core_new ext h p k ts n : core (plus ts ext) h -> h !! p = None ->
  (k = LeafInstance -> ts = [] /\ n = 0%nat) ->
  core ext (<[p := MkInstance k ((Some <$> ts) ++ replicate n None) 0 false]> h).
Proof.
  intros Hc Hp Hk. set (y := MkInstance _ _ _ _). destruct (core_none _ _ p Hc Hp) as [He Ht0].
  assert (forall q, count q (members y) = occurrences q ts) as Hy.
  { intros q. cbn. rewrite count_app, count_replicate. unfold occurrences. lia. }
  split.
  - intros q Hq. apply lookup_insert_is_Some'. right. apply (core_ext _ _ Hc). unfold plus. lia.
  - intros r z q H Hq. apply lookup_insert_is_Some'. right. apply lookup_insert_Some in H as [[-> <-]|[_ H]]; [|by apply (core_target _ _ Hc r z)].
    apply count_pos in Hq. rewrite Hy in Hq. apply (core_ext _ _ Hc). unfold plus. lia.
  - intros r z H. rewrite total_new, Hy by done. apply lookup_insert_Some in H as [[-> <-]|[_ H]].
    + unfold plus in He. cbn. lia.
    + rewrite (core_ref _ _ Hc _ _ H). unfold plus. lia.
  - intros r z H Hu. apply lookup_insert_Some in H as [[-> <-]|[_ H]]; [|by apply (core_leaf _ _ Hc r z)].
    cbn. destruct (Hk) as [-> ->]; [|done]. unfold usesGC in Hu. cbn in Hu. by destruct k.
Qed.

(** ** The state between two operations *)

Record good (ext : nat -> nat) (w : World) : Prop := Good {
  good_core : core ext (objects w);
  good_candidates : forall p, p ∈ gcObjects w <-> exists x, objects w !! p = Some x /\ usesGC x = true /\ 0 < _ref x;
  good_slices : forall p x, objects w !! p = Some x -> kind x = SlicedInstance -> None ∉ members x
}.

Lemma good_equal ext ext' w : (forall p, ext p = ext' p) -> good ext w -> good ext' w.
Proof. intros E [H1 H2 H3]. split; [by eapply core_equal|done|done]. Qed.

Lemma ref_nonneg ext w p x : good ext w -> objects w !! p = Some x -> 0 <= _ref x.
Proof. intros [Hc _ _] Hx. rewrite (core_ref _ _ Hc _ _ Hx). lia. Qed.

(** What no operation on counts changes *)
Definition shape (x : Instance) : Kind * list (option nat) * bool := (kind x, members x, _noDelete x).
Definition same_shape (w w' : World) : Prop := forall p, shape <$> objects w !! p = shape <$> objects w' !! p.
Definition same_thread (w w' : World) : Prop := _collecting w' = _collecting w /\ _state w' = _state w.

Definition never (e : exn) (w : World) : Prop := False.

Lemma wp_the p (Q : Instance -> World -> Prop) E w x : objects w !! p = Some x -> Q x w -> wp (the p) Q E w.
Proof. intros Hp HQ. unfold the. apply wp_bind, wp_get. rewrite Hp. by apply wp_ret. Qed.

Lemma wp_put p x (Q : unit -> World -> Prop) E w : Q tt (set_objects (<[p := x]> (objects w)) w) -> wp (put p x) Q E w.
Proof. intros H. by apply wp_modify. Qed.

(** The candidates follow the counts. *)
Lemma candidates_update w p x y (g : gset nat) : (forall q, q ∈ gcObjects w <-> exists z, objects w !! q = Some z /\ usesGC z = true /\ 0 < _ref z) ->
  objects w !! p = Some x -> kind y = kind x ->
  (p ∈ g <-> usesGC x = true /\ 0 < _ref y) -> (forall q, q <> p -> q ∈ g <-> q ∈ gcObjects w) ->
  forall q, q ∈ g <-> exists z, <[p := y]> (objects w) !! q = Some z /\ usesGC z = true /\ 0 < _ref z.
Proof.
  intros Hc Hp Hk Hg Ho q. destruct (decide (q = p)) as [->|Hq].
  - rewrite Hg, lookup_insert_eq. unfold usesGC. rewrite <- Hk. split; [intros []; eauto|]. by intros (? & [= <-] & ?).
  - rewrite Ho, lookup_insert_ne by done. apply Hc.
Qed.

Lemma slices_update w p x y : (forall q z, objects w !! q = Some z -> kind z = SlicedInstance -> None ∉ members z) ->
  objects w !! p = Some x -> kind y = kind x -> members y = members x ->
  forall q z, <[p := y]> (objects w) !! q = Some z -> kind z = SlicedInstance -> None ∉ members z.
Proof.
  intros Hs Hp Hk Hm q z [[<- <-]|[_ Hz]]%lookup_insert_Some; [rewrite Hk, Hm|]; [by eapply Hs|by eapply Hs].
Qed.

Lemma incRef_good ext w p : good ext w -> is_Some (objects w !! p) ->
  wp (incRef p) (fun _ w' => good (more p ext) w' /\ same_shape w w' /\ same_thread w w') never w.
Proof.
  intros Hg [x Hx]. pose proof (ref_nonneg _ _ _ _ Hg Hx) as Hr. destruct Hg as [Hc Hk Hs]. unfold incRef.
  apply wp_bind. eapply wp_the; [exact Hx|].
  assert (forall (g : gset nat) w', objects w' = objects w -> same_thread w w' -> gcObjects w' = g ->
    (p ∈ g <-> usesGC x = true) -> (forall q, q <> p -> q ∈ g <-> q ∈ gcObjects w) ->
    wp (put p (set_ref (_ref x + 1) x)) (fun _ w' => good (more p ext) w' /\ same_shape w w' /\ same_thread w w') never w') as Hput.
  { intros g w' Ho Ht <- H1 H2. apply wp_put. split; [split|split].
    - cbn. rewrite Ho. by apply core_more.
    - cbn. rewrite Ho. apply (candidates_update w p x); try done. rewrite H1. cbn. split; [|by intros []]. intros ?. split; [done|lia].
    - cbn. rewrite Ho. by apply (slices_update w p x).
    - intros q. cbn. rewrite Ho. destruct (decide (q = p)) as [->|]; [by rewrite Hx, lookup_insert_eq|by rewrite lookup_insert_ne].
    - done. }
  assert (forall q, q <> p -> q ∈ gcObjects w <-> q ∈ gcObjects w) as Hsame by done.
  destruct (usesGC x) eqn:Eu; apply wp_bind; (eapply wp_the; [exact Hx|]); apply wp_bind, wp_assert; try by apply Z.leb_le.
  - apply wp_bind. destruct (_ref x =? 0) eqn:E.
    + apply Z.eqb_eq in E. apply wp_bind, wp_get, wp_bind, wp_assert.
      { apply negb_true_iff, bool_decide_eq_false. intros (y & Hy & _ & Hp)%Hk. rewrite Hx in Hy. injection Hy as <-. lia. }
      apply wp_modify. apply (Hput ({[p]} ∪ gcObjects w)); [done|done|done|set_solver|set_solver].
    + apply Z.eqb_neq in E. apply wp_ret. apply (Hput (gcObjects w)); [done|done|done| |done]. rewrite Hk. split; [done|].
      intros _. exists x. split; [done|]. split; [done|lia].
  - apply (Hput (gcObjects w)); [done|done|done| |done]. rewrite Hk. split; [|done]. intros (y & Hy & ? & _). congruence.
Qed.

(** ** Releasing handles *)

Lemma decrement_last w p x : objects w !! p = Some x -> _ref x = 1 -> (usesGC x = true -> p ∈ gcObjects w) ->
  decrement p w =
    (Ok (negb (_noDelete x)), set_gcObjects (if usesGC x then gcObjects w ∖ {[p]} else gcObjects w)
      (set_objects (<[p := set_noDelete true (set_ref 0 x)]> (objects w)) w)).
Proof.
  intros Hx Hr Hg. unfold decrement, the. unfold mbind, M_bind. cbn [get]. rewrite Hx. cbn.
  destruct (usesGC x) eqn:Eu; unfold GCShared_decrement, Shared_decrement, the, put, modify, assertM, mbind, M_bind;
    cbn [get]; rewrite Hx; cbn; rewrite Hr; change (1 - 1 =? 0) with true; cbn; [|by destruct w].
  by rewrite (bool_decide_eq_true_2 _ (Hg eq_refl)).
Qed.

Lemma decrement_more w p x : objects w !! p = Some x -> 1 < _ref x ->
  decrement p w =
    (Ok false, set_objects (<[p := set_ref (_ref x - 1) x]> (objects w)) w).
Proof.
  intros Hx Hr. unfold decrement, the. unfold mbind, M_bind. cbn [get]. rewrite Hx. cbn.
  destruct (usesGC x) eqn:Eu; unfold GCShared_decrement, Shared_decrement, the, put, modify, assertM, mbind, M_bind;
    cbn [get]; rewrite Hx; cbn; rewrite (proj2 (Z.ltb_lt _ _)) by lia; cbn;
    by rewrite (proj2 (Z.eqb_neq _ _)) by lia.
Qed.

Section release.
Context (dec : nat -> M World unit) (bound : nat).
Context (dec_good : forall p ext w, good ext w -> (0 < ext p)%nat -> (size (objects w) <= bound)%nat ->
  wp (dec p) (fun _ w' => good (less p ext) w' /\ (size (objects w') <= size (objects w))%nat /\ same_thread w w') never w).

Lemma release_all l ext w : good (plus l ext) w -> (size (objects w) <= bound)%nat ->
  wp (for_each dec l) (fun _ w' => good ext w' /\ (size (objects w') <= size (objects w))%nat /\ same_thread w w') never w.
Proof.
  revert ext w. induction l as [|p l IH]; intros ext w Hg Hb; cbn [for_each].
  - apply wp_ret. split; [|done]. eapply good_equal; [|exact Hg]. intros q. unfold plus, occurrences. cbn. unfold count. cbn. lia.
  - apply wp_bind. eapply wp_conseq; [apply (dec_good p (plus (p :: l) ext)); [done| |done]| |done].
    { rewrite plus_cons. unfold plus. rewrite more_at, decide_True by done. lia. }
    cbn. intros _ w1 (H1 & H2 & H3 & H4). eapply wp_conseq; [apply (IH ext); [|lia]| |done].
    { eapply good_equal; [|exact H1]. intros q. unfold less. destruct (decide (q = p)) as [->|Hq]; rewrite plus_cons; unfold plus; rewrite more_at.
      - rewrite decide_True by done. lia.
      - rewrite decide_False by done. lia. }
    cbn. intros _ w2 (? & ? & ? & ?). split_and!; [done|lia|]. split; congruence.
Qed.

(** An instance without handles is deleted with the handles that it has. *)
Lemma delete_good p y ext w : good ext w -> objects w !! p = Some y -> _ref y = 0 -> (size (objects w) <= S bound)%nat ->
  wp (delete_instance dec p) (fun _ w' => good ext w' /\ (size (objects w') < size (objects w))%nat /\ same_thread w w') never w.
Proof.
  intros Hg Hy Hr Hb. unfold delete_instance. apply wp_bind. eapply wp_the; [exact Hy|]. apply wp_bind, wp_modify.
  assert (size (delete p (objects w)) = pred (size (objects w))) as Hd by (apply map_size_delete_Some; by eexists).
  assert (size (objects w) <> 0%nat) as Hsz by (intros E%map_size_empty_iff; by rewrite E in Hy).
  eapply wp_conseq; [apply (release_all (handles y) ext)| |done].
  - destruct Hg as [C1 C2 C3]. split; cbn.
    + by apply (core_delete _ (objects w) p y C1).
    + intros q. rewrite C2. destruct (decide (q = p)) as [->|Hq].
      * rewrite Hy, lookup_delete_eq. split; [intros (? & [= <-] & _ & H); lia|by intros (? & ? & _)].
      * by rewrite lookup_delete_ne by done.
    + intros q z [_ Hz]%lookup_delete_Some. by apply (C3 q).
  - cbn [objects set_objects]. rewrite Hd. lia.
  - cbn [objects set_objects]. intros _ w2 (? & Hle & ? & ?). rewrite Hd in Hle. split_and!; [done|lia|done].
Qed.
End release.

Lemma decRef_good fuel p ext w : good ext w -> (0 < ext p)%nat -> (size (objects w) <= fuel)%nat ->
  wp (decRef fuel p) (fun _ w' => good (less p ext) w' /\ (size (objects w') <= size (objects w))%nat /\ same_thread w w') never w.
Proof.
  revert p ext w. induction fuel as [|fuel IH]; intros p ext w Hg He Hb;
    (destruct Hg as [Hc Hk Hs]; destruct (core_ext _ _ Hc p He) as [x Hx]; pose proof (core_ref _ _ Hc _ _ Hx) as Hr;
     assert (size (objects w) <> 0%nat) as Hsz by (intros E%map_size_empty_iff; by rewrite E in Hx)); [lia|].
  cbn [decRef]. apply wp_bind.
  assert (forall (g : gset nat) d, (p ∈ g <-> usesGC x = true /\ 0 < _ref x - 1) -> (forall q, q <> p -> q ∈ g <-> q ∈ gcObjects w) ->
    good (less p ext) (set_gcObjects g (set_objects (<[p := MkInstance (kind x) (members x) (_ref x - 1) d]> (objects w)) w))) as Hput.
  { intros g d H1 H2. split; cbn.
    - by apply core_less.
    - by apply (candidates_update w p x).
    - by apply (slices_update w p x). }
  assert (forall y, size (<[p := y]> (objects w)) = size (objects w)) as Hsize by (intros y; apply map_size_insert_Some; by eexists).
  assert (usesGC x = true -> p ∈ gcObjects w) as Hgc.
  { intros Hu. apply Hk. exists x. split; [done|]. split; [done|lia]. }
  destruct (decide (_ref x = 1)) as [E0|E0].
  - set (y := set_noDelete true (set_ref 0 x)).
    set (w1 := set_gcObjects (gcObjects w ∖ {[p]}) (set_objects (<[p := y]> (objects w)) w)).
    assert (good (less p ext) w1) as H1.
    { unfold w1, y, set_noDelete, set_ref. cbn. replace 0 with (_ref x - 1) by lia. apply Hput; [|set_solver]. split; [set_solver|lia]. }
    assert (w1 = set_gcObjects (if usesGC x then gcObjects w ∖ {[p]} else gcObjects w) (set_objects (<[p := y]> (objects w)) w)) as Ew.
    { destruct (usesGC x) eqn:Eu; [done|]. unfold w1. f_equal. apply set_eq. intros q. rewrite elem_of_difference, elem_of_singleton.
      split; [by intros []|]. intros Hq. split; [done|]. intros ->. apply Hk in Hq as (z & Hz & Hu & _). congruence. }
    eapply wp_eq; [by apply decrement_last|]. fold y. rewrite <- Ew.
    destruct (_noDelete x); cbn [negb]; [apply wp_ret; split_and!; [done|cbn; by rewrite Hsize|done]|].
    eapply wp_conseq; [apply (delete_good (decRef fuel) fuel IH p y (less p ext) w1 H1); [apply lookup_insert_eq|done|]| |done].
    + cbn. rewrite Hsize. lia.
    + cbn [objects set_objects set_gcObjects w1]. rewrite Hsize. intros _ w2 (? & Hle & ?). split_and!; [done|lia|done].
  - eapply wp_eq; [apply decrement_more; [done|lia]|]. apply wp_ret. split_and!; [|cbn; by rewrite Hsize|done].
    specialize (Hput (gcObjects w) (_noDelete x)). apply Hput; [|done]. rewrite Hk. split.
    + intros (z & Hz & Hu & _). rewrite Hx in Hz. injection Hz as <-. split; [done|lia].
    + intros []. exists x. split; [done|]. split; [done|lia].
Qed.

Lemma decRef_all_good p ext w : good ext w -> (0 < ext p)%nat ->
  wp (decRef_all p) (fun _ w' => good (less p ext) w' /\ same_thread w w') never w.
Proof.
  intros Hg He. unfold decRef_all. apply wp_bind, wp_get.
  eapply wp_conseq; [by apply (decRef_good (size (objects w)))| |done]. by intros _ w' (? & _ & ?).
Qed.

(** ** What a program does *)

Lemma same_shape_trans w1 w2 w3 : same_shape w1 w2 -> same_shape w2 w3 -> same_shape w1 w3.
Proof. intros H1 H2 p. by rewrite H1. Qed.

Lemma same_shape_at w w' p x : same_shape w w' -> objects w !! p = Some x ->
  exists x', objects w' !! p = Some x' /\ kind x' = kind x /\ members x' = members x.
Proof.
  intros H Hx. specialize (H p). rewrite Hx in H. destruct (objects w' !! p) as [x'|]; [|done]. injection H as H1 H2 H3. eauto.
Qed.

Lemma same_shape_exists w w' p : same_shape w w' -> is_Some (objects w !! p) -> is_Some (objects w' !! p).
Proof. intros H [x Hx]. destruct (same_shape_at w w' p x H Hx) as (x' & ? & _). by exists x'. Qed.

Lemma incRef_all_good ts ext w : good ext w -> Forall (fun q => is_Some (objects w !! q)) ts ->
  wp (for_each incRef ts) (fun _ w' => good (plus ts ext) w' /\ same_shape w w' /\ same_thread w w') never w.
Proof.
  revert ext w. induction ts as [|q ts IH]; intros ext w Hg Ht; cbn [for_each].
  - apply wp_ret. split; [|done]. eapply good_equal; [|exact Hg]. intros p. unfold plus, occurrences. cbn. unfold count. cbn. lia.
  - apply Forall_cons in Ht as [Hq Ht]. apply wp_bind. eapply wp_conseq; [by apply (incRef_good ext)| |done].
    intros _ w1 (H1 & H2 & H3 & H4). eapply wp_conseq; [apply (IH (more q ext)); [done|]| |done].
    + eapply Forall_impl; [exact Ht|]. intros r. by apply same_shape_exists.
    + cbn. intros _ w2 (? & ? & ? & ?). split; [|split; [by eapply same_shape_trans|split; congruence]].
      eapply good_equal; [|done]. intros r. by rewrite plus_cons.
Qed.

Lemma new_good ext w p k ts n : good ext w -> within (New p k ts n) w ext ->
  wp (run (fun _ => []) (New p k ts n)) (fun _ w' => good (more p ext) w' /\ same_thread w w') never w.
Proof.
  intros Hg (Hp & Ht & Hk). cbn [run]. apply wp_bind. eapply wp_conseq; [apply (incRef_all_good ts ext); [done|]| |done].
  { eapply Forall_impl; [exact Ht|]. intros q. apply (core_ext _ _ (good_core _ _ Hg)). }
  intros _ w1 ([Hc Hcd Hs] & Hsh & Hth). assert (objects w1 !! p = None) as Hp1.
  { specialize (Hsh p). rewrite Hp in Hsh. by destruct (objects w1 !! p). }
  apply wp_bind, wp_put. set (x := MkInstance _ _ _ _). eapply wp_conseq; [apply (incRef_good ext)| |done].
  - split; cbn.
    + apply (core_new _ _ _ k ts n Hc Hp1). by destruct k.
    + intros q. rewrite Hcd. split.
      * intros (y & Hy & ?). exists y. split; [|done]. rewrite lookup_insert_ne; [done|]. congruence.
      * intros (y & [[<- <-]|[_ Hy]]%lookup_insert_Some & ? & Hr); [by cbn in Hr|]. eauto.
    + intros q y [[<- <-]|[_ Hy]]%lookup_insert_Some; [|by eapply Hs]. cbn. intros ->. rewrite Hk, app_nil_r.
      intros (? & ? & _)%list_elem_of_fmap. done.
  - cbn. rewrite lookup_insert_eq. by eexists.
  - intros _ w2 (H & _ & H1 & H2). split; [done|]. destruct Hth. split; cbn in *; congruence.
Qed.

Lemma set_handle_good ext ext' w p x i old m : good ext w -> objects w !! p = Some x -> kind x = ClassInstance -> members x !! i = Some old ->
  (forall q, (ext' q + points_at q m = ext q + points_at q old)%nat) -> (forall q, m = Some q -> is_Some (objects w !! q)) ->
  wp (set_handle p i m) (fun _ w' => good ext' w' /\ same_thread w w') never w.
Proof.
  intros [Hc Hk Hs] Hx Hkx Hi He Hm. unfold set_handle. apply wp_bind. eapply wp_the; [exact Hx|]. apply wp_put.
  set (y := set_members _ _). split; [|done]. split; cbn.
  - apply (core_member ext ext' _ p x i old m); try done. unfold usesGC. by rewrite Hkx.
  - apply (candidates_update w p x); [done|done|done| |done]. rewrite Hk. split; [|intros []; eauto].
    intros (z & Hz & ? & ?). rewrite Hx in Hz. by injection Hz as <-.
  - intros q z [[<- <-]|[_ Hz]]%lookup_insert_Some; [|by eapply Hs]. cbn. by rewrite Hkx.
Qed.

Lemma assign_good ext w p i q : good ext w -> within (Assign p i q) w ext ->
  wp (assign p i q) (fun _ w' => good ext w' /\ same_thread w w') never w.
Proof.
  intros Hg (_ & (x & old & Hx & Hkx & Hi) & Hq). unfold assign. apply wp_bind. eapply wp_the; [exact Hx|]. rewrite Hi.
  destruct (decide (old = q)) as [->|Hne]; [rewrite bool_decide_eq_true_2 by done; by apply wp_ret|].
  rewrite bool_decide_eq_false_2 by done. apply wp_bind.
  set (ext1 := match q with Some q => more q ext | None => ext end).
  set (ext2 := match old with Some old => more old ext | None => ext end).
  assert (wp (match q with Some q => incRef q | None => mret tt end)
    (fun _ w' => good ext1 w' /\ same_shape w w' /\ same_thread w w') never w) as H1.
  { destruct q as [q|]; [|by apply wp_ret]. apply incRef_good; [done|]. by apply (core_ext _ _ (good_core _ _ Hg)). }
  eapply wp_conseq; [exact H1| |done]. clear H1. intros _ w1 (Hg1 & Hsh & Hth). apply wp_bind.
  destruct (same_shape_at w w1 p x Hsh Hx) as (x1 & Hx1 & Hk1 & Hm1).
  eapply wp_conseq; [apply (set_handle_good ext1 ext2 w1 p x1 i old q); try done|..].
  - by rewrite Hk1.
  - by rewrite Hm1.
  - intros r. unfold ext1, ext2. destruct q as [q|], old as [old|]; rewrite ?more_at, ?points_at_some, ?points_at_none; lia.
  - intros r ->. apply (same_shape_exists w); [done|]. by apply (core_ext _ _ (good_core _ _ Hg)).
  - cbn. intros _ w2 (Hg2 & Hth2). unfold ext2 in Hg2. destruct old as [old|].
    + eapply wp_conseq; [apply (decRef_all_good old _ w2 Hg2)| |done].
      * rewrite more_at, decide_True by done. lia.
      * cbn. intros _ w3 (Hg3 & Hth3). split; [eapply good_equal; [|exact Hg3]; intros r; apply less_more|].
        destruct Hth, Hth2, Hth3. split; congruence.
    + apply wp_ret. split; [done|]. destruct Hth, Hth2. split; congruence.
  - done.
Qed.

Lemma setNoDelete_good ext w p d : good ext w -> is_Some (objects w !! p) ->
  wp (setNoDelete p d) (fun _ w' => good ext w' /\ same_thread w w') never w.
Proof.
  intros [Hc Hk Hs] [x Hx]. unfold setNoDelete. apply wp_bind. eapply wp_the; [exact Hx|]. apply wp_put. split; [|done].
  split; cbn.
  - apply (core_update ext ext _ p x); try done. cbn. lia.
  - apply (candidates_update w p x); [done|done|done| |done]. rewrite Hk. split; [|intros []; eauto].
    intros (z & Hz & ? & ?). rewrite Hx in Hz. by injection Hz as <-.
  - by apply (slices_update w p x).
Qed.

(** ** Counting in the collector *)

Definition candidate (w : World) (q : nat) : bool := match objects w !! q with Some y => usesGC y | None => false end.
Definition value (c : GCCountMap) (q : nat) : Z := default 0 (c !! q).

(** [c'] counts the candidates among the targets [ms] on top of [c]. *)
Definition counted (w : World) (ms : list (option nat)) (c c' : GCCountMap) : Prop := forall q,
  value c' q = value c q + (if candidate w q then Z.of_nat (count q ms) else 0) /\
  (is_Some (c' !! q) <-> is_Some (c !! q) \/ (candidate w q = true /\ (0 < count q ms)%nat)).

Lemma counted_nil w c : counted w [] c c.
Proof. intros q. rewrite count_nil. split; [destruct (candidate w q); lia|]. split; [by left|]. intros [?|[_ ?]]; [done|lia]. Qed.

Lemma counted_app w ms ms' c1 c2 c3 : counted w ms c1 c2 -> counted w ms' c2 c3 -> counted w (ms ++ ms') c1 c3.
Proof.
  intros H1 H2 q. destruct (H1 q) as [V1 D1], (H2 q) as [V2 D2]. rewrite count_app. split.
  - rewrite V2, V1. destruct (candidate w q); lia.
  - rewrite D2, D1. split; [|destruct (decide (0 < count q ms)%nat); intuition lia]. intros [[?|[? ?]]|[? ?]]; [by left|right; split; [done|lia]..].
Qed.

Lemma addObject_counted w q c : is_Some (objects w !! q) ->
  exists c', addObject q c w = (Ok c', w) /\ counted w [Some q] c c'.
Proof.
  intros [y Hy]. unfold addObject, the. unfold mbind, M_bind. cbn [get]. rewrite Hy. unfold mret, M_ret.
  assert (candidate w q = usesGC y) as Hcq by (unfold candidate; by rewrite Hy).
  assert (forall r, count r [Some q] = if decide (r = q) then 1%nat else 0%nat) as Hcount.
  { intros r. rewrite count_cons, points_at_some, count_nil. lia. }
  destruct (usesGC y) eqn:Eu; (eexists; split; [done|]); intros r; rewrite Hcount; destruct (decide (r = q)) as [->|Hr].
  - rewrite Hcq. split.
    + unfold value. rewrite lookup_insert_eq. cbn. destruct (c !! q); cbn; lia.
    + rewrite lookup_insert_eq. split; [right; split; [done|lia]|by eexists].
  - unfold value. rewrite lookup_insert_ne by done. split; [by destruct (candidate w r); lia|]. split; [by left|]. intros [?|[_ ?]]; [done|lia].
  - rewrite Hcq. split; [lia|]. split; [by left|]. by intros [?|[? _]].
  - split; [by destruct (candidate w r); lia|]. split; [by left|]. intros [?|[_ ?]]; [done|lia].
Qed.

(** The instances whose members can be read *)
Definition readable (w : World) (p : nat) (x : Instance) : Prop :=
  objects w !! p = Some x /\ (forall q, Some q ∈ members x -> is_Some (objects w !! q)) /\
  (kind x = SlicedInstance -> None ∉ members x).

Lemma good_readable ext w p x : good ext w -> objects w !! p = Some x -> readable w p x.
Proof.
  intros [Hc _ Hs] Hx. split; [done|]. split; [|by eapply Hs]. intros q. by apply (core_target _ _ Hc p x).
Qed.

Lemma gcReachable_counted w p x c : readable w p x ->
  exists c', gcReachable p c w = (Ok c', w) /\ counted w (members x) c c'.
Proof.
  intros (Hx & Ht & Hn). unfold gcReachable, the. unfold mbind at 1, M_bind at 1. unfold mbind at 1, M_bind at 1. cbn [get]. rewrite Hx.
  unfold mret at 1, M_ret at 1. revert c Ht Hn. generalize (members x) as ms. induction ms as [|m ms IH]; intros c Ht Hn; cbn [fold_each].
  { exists c. split; [done|apply counted_nil]. }
  assert (exists c1, (if bool_decide (kind x = SlicedInstance) then slice_reachable else class_reachable) c m w = (Ok c1, w) /\
    counted w [m] c c1) as (c1 & E1 & H1).
  { destruct m as [q|].
    - destruct (addObject_counted w q c) as (c1 & E & H); [apply Ht; by left|]. exists c1. split; [by destruct (bool_decide _)|done].
    - rewrite bool_decide_eq_false_2 by (intros Hk; apply (Hn Hk); by left). exists c. split; [done|]. intros q.
      rewrite count_cons, points_at_none, count_nil. split; [destruct (candidate w q); lia|]. split; [by left|]. intros [?|[_ ?]]; [done|lia]. }
  destruct (IH c1) as (c2 & E2 & H2); [intros q Hq; apply Ht; by right|intros Hk Hin; apply (Hn Hk); by right|].
  exists c2. split; [by rewrite (bind_ok _ _ _ _ _ E1)|]. by apply (counted_app w [m] ms c c1 c2).
Qed.

Lemma dom_counted w ms c q : counted w ms ∅ c -> q ∈ dom c <-> candidate w q = true /\ Some q ∈ ms.
Proof.
  intros H. destruct (H q) as [_ Hd]. rewrite elem_of_dom, Hd, lookup_empty, count_pos. split; [by intros [[? [=]]|]|by right].
Qed.

(** ** What a program can reach *)

Definition points (h : gmap nat Instance) (p q : nat) : Prop := exists x, h !! p = Some x /\ Some q ∈ members x.

(** The program has a handle; or nobody has one, as for [this] in a constructor;
    or the instance is not to be deleted with its last handle. The collector
    does not ask for the last when it deletes a candidate. *)
Definition root (ext : nat -> nat) (h : gmap nat Instance) (p : nat) : Prop := exists x, h !! p = Some x /\
  ((0 < ext p)%nat \/ _ref x = 0 \/ (usesGC x = false /\ _noDelete x = true)).

Definition reachable (ext : nat -> nat) (h : gmap nat Instance) (p : nat) : Prop :=
  exists r, root ext h r /\ rtc (points h) r p.

(** The candidates that are to be deleted *)
Record garbage (ext : nat -> nat) (w : World) (X : gset nat) : Prop := Garbage {
  garbage_candidates : X ⊆ gcObjects w;
  garbage_unheld : forall p, p ∈ X -> ext p = 0%nat;
  garbage_from : forall p q, points (objects w) p q -> q ∈ X -> p ∈ X;
  garbage_rest : forall p, p ∈ gcObjects w -> p ∉ X -> reachable ext (objects w) p;
  garbage_rest_held : forall p, p ∈ gcObjects w -> p ∉ X ->
    (0 < ext p)%nat \/ (exists q, points (objects w) q p /\ q ∉ X)
}.

Section collector.
Context (order : gset nat -> list nat) (order_perm : forall X, order X ≡ₚ elements X).

Lemma order_elem X p : p ∈ order X <-> p ∈ X.
Proof. by rewrite order_perm, elem_of_elements. Qed.
Lemma order_nodup X : NoDup (order X).
Proof. rewrite order_perm. apply NoDup_elements. Qed.

Section marking.
Context (ext : nat -> nat) (w : World) (w_good : good ext w).
Local Abbreviation G := (gcObjects w).

Lemma candidate_ref p x : p ∈ G -> objects w !! p = Some x -> usesGC x = true /\ 0 < _ref x.
Proof. intros (y & Hy & ? & ?)%(good_candidates _ _ w_good) Hx. rewrite Hx in Hy. by injection Hy as ->. Qed.

Lemma candidate_exists p : p ∈ G -> exists x, objects w !! p = Some x.
Proof. intros (y & Hy & _)%(good_candidates _ _ w_good). eauto. Qed.

(** A candidate that has a handle is in the set. *)
Lemma pointed_candidate p x q : objects w !! p = Some x -> Some q ∈ members x -> candidate w q = true -> q ∈ G.
Proof.
  intros Hx Hq Hc. apply (good_candidates _ _ w_good). unfold candidate in Hc. destruct (objects w !! q) as [y|] eqn:Hy; [|done].
  exists y. split; [done|]. split; [done|]. rewrite (core_ref _ _ (good_core _ _ w_good) _ _ Hy).
  assert (0 < total (objects w) q)%nat; [|lia]. apply held_by_pos. exists p, x. split; [by eapply elem_of_dom_2|done].
Qed.

Lemma count_references_ok : exists counts reachable : GCCountMap, count_references order w = (Ok (counts, reachable), w) /\
  (forall p, counts !! p = if decide (p ∈ G) then _ref <$> objects w !! p else None) /\
  (forall q, value reachable q = if candidate w q then Z.of_nat (held_by (objects w) G q) else 0) /\
  (forall q, is_Some (reachable !! q) -> q ∈ G).
Proof.
  unfold count_references. rewrite bind_get.
  assert (forall (l : list nat) (counts reachable : GCCountMap), (forall p, p ∈ l -> p ∈ G) ->
    exists counts' reachable' : GCCountMap, fold_each (fun '(counts, reachable) p =>
      x ← the p; reachable ← gcReachable p reachable; mret (<[p := _ref x]> counts, reachable)) (counts, reachable) l w =
      (Ok (counts', reachable'), w) /\
    (forall p, counts' !! p = if decide (p ∈ l) then _ref <$> objects w !! p else counts !! p) /\
    (forall q, value reachable' q = value reachable q +
      if candidate w q then Z.of_nat (sum_list_with (fun p => count q (members_at (objects w) p)) l) else 0) /\
    (forall q, is_Some (reachable' !! q) -> is_Some (reachable !! q) \/ q ∈ G)) as H.
  { intros l. induction l as [|p l IH]; intros counts reachable Hl; cbn [fold_each].
    { exists counts, reachable. split; [done|]. split; [intros p; by rewrite decide_False by apply not_elem_of_nil|].
      split; [intros q; cbn; destruct (candidate w q); lia|by left]. }
    destruct (candidate_exists p) as [x Hx]; [apply Hl; by left|].
    destruct (gcReachable_counted w p x reachable) as (r1 & E1 & H1); [by eapply good_readable|].
    destruct (IH (<[p := _ref x]> counts) r1) as (c2 & r2 & E2 & C2 & V2 & D2); [intros q Hq; apply Hl; by right|].
    exists c2, r2. split_and!.
    - assert ((x ← the p; reachable ← gcReachable p reachable; mret (<[p := _ref x]> counts, reachable)) w =
        (Ok (<[p := _ref x]> counts, r1), w)) as E0.
      { unfold the. unfold mbind, M_bind. cbn [get]. rewrite Hx. unfold mret, M_ret. by rewrite E1. }
      by rewrite (bind_ok _ _ _ _ _ E0).
    - intros q. rewrite C2. destruct (decide (q ∈ l)) as [Hq|Hq]; [by rewrite decide_True by (by right)|].
      destruct (decide (q = p)) as [->|Hqp]; [by rewrite lookup_insert_eq, decide_True, Hx by (by left)|].
      rewrite lookup_insert_ne, decide_False; [done| |done]. by rewrite elem_of_cons; intros [?|?].
    - intros q. rewrite V2. destruct (H1 q) as [V1 _]. rewrite V1. cbn. unfold members_at at 2. rewrite Hx. cbn.
      destruct (candidate w q); lia.
    - intros q Hq. destruct (D2 q Hq) as [Hr|?]; [|by right]. destruct (H1 q) as [_ D1]. apply D1 in Hr as [?|[Hcq Hp%count_pos]]; [by left|right].
      by apply (pointed_candidate p x). }
  destruct (H (order G) ∅ ∅) as (counts & reachable & E & C & V & Dm); [intros p; by rewrite order_elem|].
  exists counts, reachable. split; [exact E|]. split_and!.
  - intros p. rewrite C, lookup_empty. destruct (decide (p ∈ G)) as [Hp|Hp]; [by rewrite decide_True by by apply order_elem|].
    rewrite decide_False; [done|]. by rewrite order_elem.
  - intros q. rewrite V. unfold held_by. rewrite (sum_perm _ _ _ (order_perm G)). unfold value. rewrite lookup_empty. cbn. done.
  - intros q Hq. destruct (Dm q Hq) as [[? Hl]|?]; [|done]. by rewrite lookup_empty in Hl.
Qed.

Definition subtracted (reachable counts : GCCountMap) (q : nat) : option Z :=
  match counts !! q with Some n => Some (n - value reachable q) | None => None end.

Lemma subtract_ok (reachable counts : GCCountMap) : (forall q, is_Some (reachable !! q) -> is_Some (counts !! q)) ->
  exists counts' : GCCountMap, subtract order reachable counts w = (Ok counts', w) /\
    forall q, counts' !! q = subtracted reachable counts q.
Proof.
  intros Hd. unfold subtract.
  assert (forall (l : list nat) (counts : GCCountMap), NoDup l -> (forall q, q ∈ l -> is_Some (reachable !! q) /\ is_Some (counts !! q)) ->
    exists counts' : GCCountMap, fold_each (fun counts q => match counts !! q, reachable !! q with
      | Some n, Some m => mret (<[q := n - m]> counts) | _, _ => faultM AssertionFailure end) counts l w = (Ok counts', w) /\
    forall q, counts' !! q = if decide (q ∈ l) then subtracted reachable counts q else counts !! q) as H.
  { intros l. induction l as [|p l IH]; intros c Hn Hl; cbn [fold_each].
    { exists c. split; [done|]. intros q. by rewrite decide_False by apply not_elem_of_nil. }
    apply NoDup_cons in Hn as [Hp Hn]. destruct (Hl p) as [[m Hm] [n Hcn]]; [by left|]. rewrite Hcn, Hm.
    destruct (IH (<[p := n - m]> c)) as (c' & E & Hc'); [done| |].
    { intros q Hq. split; [apply Hl; by right|]. apply lookup_insert_is_Some'. right. apply Hl. by right. }
    exists c'. split; [exact E|]. intros q. rewrite Hc'. destruct (decide (q = p)) as [->|Hqp].
    - rewrite decide_False, decide_True, lookup_insert_eq by (done || by left). unfold subtracted, value. by rewrite Hcn, Hm.
    - unfold subtracted. rewrite !lookup_insert_ne by done. destruct (decide (q ∈ l)) as [Hq|Hq]; [by rewrite decide_True by (by right)|].
      rewrite decide_False; [done|]. by rewrite elem_of_cons; intros [?|?]. }
  destruct (H (order (dom reachable)) counts) as (c' & E & Hc'); [apply order_nodup| |].
  { intros q Hq%order_elem%elem_of_dom. split; [done|by apply Hd]. }
  exists c'. split; [exact E|]. intros q. rewrite Hc'. destruct (decide (q ∈ order (dom reachable))) as [|Hq]; [done|].
  rewrite order_elem, not_elem_of_dom in Hq. unfold subtracted, value. rewrite Hq. cbn. destruct (counts !! q); [|done]. by rewrite Z.sub_0_r.
Qed.

(** *** Marking *)

Definition gc_edge (p q : nat) : Prop := exists x, objects w !! p = Some x /\ Some q ∈ members x /\ candidate w q = true.

(** What marking from the instances [l] adds to the marked ones *)
Record marked (l : list nat) (o o' : gset nat) : Prop := Marked {
  marked_more : o ⊆ o';
  marked_roots : forall p, p ∈ l -> p ∈ o';
  marked_within : o' ⊆ o ∪ G;
  marked_sound : forall q, q ∈ o' -> q ∈ o \/ exists p, p ∈ l /\ rtc gc_edge p q;
  marked_closed : forall q r, q ∈ o' -> q ∉ o -> gc_edge q r -> r ∈ o'
}.

Lemma marked_nil o : marked [] o o.
Proof. split; [done|by intros p ?%elem_of_nil|set_solver|by left|done]. Qed.

Lemma marked_cons p l o o1 o2 : marked [p] o o1 -> marked l o1 o2 -> marked (p :: l) o o2.
Proof.
  intros [A1 A2 A3 A4 A5] [B1 B2 B3 B4 B5]. split.
  - set_solver.
  - intros q [->|Hq]%elem_of_cons; [apply B1, A2; by left|by apply B2].
  - set_solver.
  - intros q [Hq|(r & Hr & ?)]%B4; [|right; exists r; split; [by right|done]].
    apply A4 in Hq as [?|(r & ->%list_elem_of_singleton & ?)]; [by left|right]. exists p. split; [by left|done].
  - intros q r Hq Ho Hqr. destruct (decide (q ∈ o1)) as [H1|H1]; [|by apply (B5 q)]. apply B1. by apply (A5 q).
Qed.

Lemma marked_self p o : p ∈ o -> marked [p] o o.
Proof. intros Hp. split; [done|by intros q ->%list_elem_of_singleton|set_solver|by left|done]. Qed.

Lemma mark_list mark l o n : (forall p o, p ∈ G -> (size (G ∖ o) <= n)%nat -> exists o', mark p o w = (Ok o', w) /\ marked [p] o o') ->
  (forall p, p ∈ l -> p ∈ G) -> (size (G ∖ o) <= n)%nat ->
  exists o', fold_each (fun o q => mark q o) o l w = (Ok o', w) /\ marked l o o'.
Proof.
  intros Hm. revert o. induction l as [|p l IH]; intros o Hl Hn; cbn [fold_each]; [exists o; split; [done|apply marked_nil]|].
  destruct (Hm p o) as (o1 & E1 & H1); [apply Hl; by left|done|].
  destruct (IH o1) as (o2 & E2 & H2); [intros q Hq; apply Hl; by right| |].
  - transitivity (size (G ∖ o)); [|done]. apply subseteq_size. pose proof (marked_more _ _ _ H1). set_solver.
  - exists o2. split; [by rewrite (bind_ok _ _ _ _ _ E1)|by eapply marked_cons].
Qed.

Lemma recursivelyReachable_marks fuel p o : p ∈ G -> (size (G ∖ o) <= fuel)%nat ->
  exists o', recursivelyReachable order fuel p o w = (Ok o', w) /\ marked [p] o o'.
Proof.
  revert p o. induction fuel as [|fuel IH]; intros p o Hp Hn; cbn [recursivelyReachable];
    (destruct (decide (p ∈ o)) as [Ho|Ho]; [rewrite bool_decide_eq_true_2 by done; exists o; split; [done|by apply marked_self]|]);
    rewrite bool_decide_eq_false_2 by done.
  - assert (size (G ∖ o) <> 0%nat); [|lia]. intros H%size_empty_inv. set_solver.
  - destruct (candidate_exists p Hp) as [x Hx]. destruct (gcReachable_counted w p x ∅) as (tmp & E1 & H1); [by eapply good_readable|].
    rewrite (bind_ok _ _ _ _ _ E1). assert (forall q, q ∈ order (dom tmp) -> gc_edge p q /\ q ∈ G) as Hq.
    { intros q Hq%order_elem. apply (dom_counted _ _ _ _ H1) in Hq as [? ?]. split; [by exists x|by eapply pointed_candidate]. }
    destruct (mark_list (recursivelyReachable order fuel) (order (dom tmp)) ({[p]} ∪ o) fuel IH) as (o' & E2 & [B1 B2 B3 B4 B5]).
    + intros q ?. by apply Hq.
    + assert (G ∖ ({[p]} ∪ o) ⊂ G ∖ o) as H%subset_size by set_solver. lia.
    + exists o'. split; [exact E2|]. split.
      * set_solver.
      * intros q ->%list_elem_of_singleton. set_solver.
      * set_solver.
      * intros q [[->%elem_of_singleton|?]%elem_of_union|(r & Hr & Hrq)]%B4; [right|by left|right]; exists p; (split; [by left|]); [done|].
        eapply rtc_l; [|exact Hrq]. by apply Hq.
      * intros q r Hqo Hno Hqr. destruct (decide (q = p)) as [->|Hne]; [|apply (B5 q); set_solver].
        apply B2, order_elem, (dom_counted _ _ _ _ H1). destruct Hqr as (x' & Hx' & ? & ?). rewrite Hx in Hx'. by injection Hx' as <-.
Qed.

Lemma live_objects_ok (counts : GCCountMap) : dom counts = G ->
  exists live, live_objects order counts w = (Ok live, w) /\ live ⊆ G /\
    (forall q r, q ∈ live -> gc_edge q r -> r ∈ live) /\
    (forall p, p ∈ G -> 0 < value counts p -> p ∈ live) /\
    (forall q, q ∈ live -> exists p, p ∈ G /\ 0 < value counts p /\ rtc gc_edge p q).
Proof.
  intros Hd. unfold live_objects. rewrite bind_get.
  assert (forall l live, (forall p, p ∈ l -> p ∈ G) -> live ⊆ G -> exists live', fold_each (fun live p =>
    match counts !! p with
    | Some n => if 0 <? n then recursivelyReachable order (size G) p live else mret live
    | None => mret live end) live l w = (Ok live', w) /\ marked (filter (fun p => 0 < value counts p) l) live live') as H.
  { intros l. induction l as [|p l IH]; intros live Hl Hlive; cbn [fold_each]; [exists live; split; [done|apply marked_nil]|].
    assert (is_Some (counts !! p)) as [n Hn] by (apply elem_of_dom; rewrite Hd; apply Hl; by left). rewrite Hn.
    assert (value counts p = n) as Hv by (unfold value; by rewrite Hn). rewrite filter_cons, Hv.
    destruct (0 <? n) eqn:E0.
    - apply Z.ltb_lt in E0. rewrite decide_True by done.
      destruct (recursivelyReachable_marks (size G) p live) as (l1 & E1 & H1); [apply Hl; by left|apply subseteq_size; set_solver|].
      destruct (IH l1) as (l2 & E2 & H2); [intros q Hq; apply Hl; by right|pose proof (marked_within _ _ _ H1); set_solver|].
      exists l2. split; [by rewrite (bind_ok _ _ _ _ _ E1)|by eapply marked_cons].
    - apply Z.ltb_ge in E0. rewrite decide_False by lia. rewrite bind_ret. apply IH; [|done]. intros q Hq. apply Hl. by right. }
  destruct (H (order (dom counts)) ∅) as (live & E & [B1 B2 B3 B4 B5]); [intros p; by rewrite order_elem, Hd|set_solver|].
  exists live. split; [exact E|]. split_and!.
  - set_solver.
  - intros q r Hq Hr. apply (B5 q); [done|set_solver|done].
  - intros p Hp Hv. apply B2, list_elem_of_filter. split; [done|]. by rewrite order_elem, Hd.
  - intros q [[]%not_elem_of_empty|(p & [Hv Hp]%list_elem_of_filter & Hr)]%B4. exists p. rewrite order_elem, Hd in Hp. done.
Qed.

Lemma remove_live_ok live (counts : GCCountMap) : live ⊆ dom counts ->
  exists counts' : GCCountMap, remove_live order live counts w = (Ok counts', w) /\ dom counts' = dom counts ∖ live.
Proof.
  intros Hl. unfold remove_live.
  assert (forall (l : list nat) (counts : GCCountMap), NoDup l -> (forall q, q ∈ l -> q ∈ dom counts) ->
    exists counts' : GCCountMap, fold_each (fun counts p =>
      match counts !! p with Some _ => mret (delete p counts) | None => faultM AssertionFailure end) counts l w = (Ok counts', w) /\
    dom counts' = dom counts ∖ list_to_set l) as H.
  { intros l. induction l as [|p l IH]; intros c Hn Hin; cbn [fold_each]; [exists c; split; [done|set_solver]|].
    apply NoDup_cons in Hn as [Hp Hn]. assert (is_Some (c !! p)) as [n Hc] by (apply elem_of_dom, Hin; by left). rewrite Hc, bind_ret.
    destruct (IH (delete p c)) as (c' & E & Hd); [done| |].
    - intros q Hq. rewrite dom_delete. apply elem_of_difference. split; [apply Hin; by right|]. intros ->%elem_of_singleton. done.
    - exists c'. split; [exact E|]. rewrite Hd, dom_delete_L. set_solver. }
  destruct (H (order live) counts) as (c' & E & Hd); [apply order_nodup|intros q ?%order_elem; set_solver|].
  exists c'. split; [exact E|]. rewrite Hd. f_equal. apply set_eq. intros q. by rewrite elem_of_list_to_set, order_elem.
Qed.

(** *** What is left *)

(** The candidates whose handles are not all in candidates *)
Definition used (p : nat) : Prop := (0 < ext p)%nat \/ (exists q, points (objects w) q p /\ q ∉ G).

Lemma rest_used p n r : objects w !! p = Some n -> candidate w p = true -> value r p = Z.of_nat (held_by (objects w) G p) ->
  0 < _ref n - value r p <-> used p.
Proof.
  intros Hp Hc ->. rewrite (core_ref _ _ (good_core _ _ w_good) _ _ Hp).
  assert (total (objects w) p = (held_by (objects w) G p + held_by (objects w) (dom (objects w) ∖ G) p)%nat) as ->.
  { unfold total. rewrite <- held_by_union by set_solver. f_equal. apply set_eq. intros q. rewrite elem_of_union, elem_of_difference, elem_of_dom.
    destruct (decide (q ∈ G)) as [Hq|]; [|naive_solver]. destruct (candidate_exists q Hq) as [x Hx]. split; [by left|by eexists]. }
  unfold used. pose proof (held_by_pos (objects w) (dom (objects w) ∖ G) p) as Hpos. split.
  - intros H. destruct (decide (0 < ext p)%nat); [by left|right]. destruct (proj1 Hpos) as (q & x & Hq & Hx & Hm); [lia|].
    exists q. split; [by exists x|set_solver].
  - intros [H|(q & (x & Hx & Hm) & Hq)]; [lia|]. assert (0 < held_by (objects w) (dom (objects w) ∖ G) p)%nat; [|lia].
    apply Hpos. exists q, x. split; [|done]. apply elem_of_difference. split; [by eapply elem_of_dom_2|done].
Qed.

Lemma gc_edge_points p q : gc_edge p q -> points (objects w) p q.
Proof. intros (x & ? & ? & _). by exists x. Qed.

Lemma points_gc_edge p q : points (objects w) p q -> q ∈ G -> gc_edge p q.
Proof.
  intros (x & Hx & Hm) Hq. exists x. split; [done|]. split; [done|]. destruct (candidate_exists q Hq) as [y Hy]. unfold candidate. rewrite Hy.
  by apply (candidate_ref q y).
Qed.

Lemma used_reachable p : p ∈ G -> used p -> reachable ext (objects w) p.
Proof.
  intros Hp [He|(q & Hqp & Hq)].
  - destruct (candidate_exists p Hp) as [x Hx]. exists p. split; [|done]. exists x. split; [done|by left].
  - exists q. split; [|by apply rtc_once]. destruct Hqp as (x & Hx & Hm). exists x. split; [done|]. right. left.
    pose proof (ref_nonneg _ _ _ _ w_good Hx). destruct (decide (_ref x = 0)) as [|Hr]; [done|]. destruct Hq.
    apply (good_candidates _ _ w_good). exists x. split; [done|]. split; [|lia]. destruct (usesGC x) eqn:Eu; [done|].
    rewrite (core_leaf _ _ (good_core _ _ w_good) _ _ Hx Eu) in Hm. by apply elem_of_nil in Hm.
Qed.

Lemma live_garbage live : live ⊆ G -> (forall q r, q ∈ live -> gc_edge q r -> r ∈ live) ->
  (forall p, p ∈ G -> used p -> p ∈ live) -> (forall q, q ∈ live -> exists p, p ∈ G /\ used p /\ rtc gc_edge p q) ->
  garbage ext w (G ∖ live).
Proof.
  intros Hl Hc Hu Hs. split.
  - set_solver.
  - intros p [Hp Hn]%elem_of_difference. destruct (ext p) eqn:E; [done|]. destruct Hn. apply Hu; [done|]. left. lia.
  - intros p q Hpq [Hq Hn]%elem_of_difference. destruct (decide (p ∈ G)) as [HG|HG].
    + apply elem_of_difference. split; [done|]. intros Hp. apply Hn. apply (Hc p); [done|by apply points_gc_edge].
    + destruct Hn. apply Hu; [done|]. right. by exists p.
  - intros p HpG HpX. assert (p ∈ live) as (r & Hr & Hur & Hrp)%Hs by set_solver.
    destruct (used_reachable r Hr Hur) as (r0 & Hr0 & Hr0r). exists r0. split; [done|]. etrans; [exact Hr0r|].
    eapply rtc_subrel; [|exact Hrp]. intros a b. by apply gc_edge_points.
  - intros p HpG HpX. assert (p ∈ live) as (r & Hr & Hur & Hrp)%Hs by set_solver.
    apply rtc_inv_r in Hrp as [->|(q & Hrq & Hqp)].
    + destruct Hur as [?|(q & Hqp & Hq)]; [by left|right]. exists q. split; [done|set_solver].
    + right. exists q. split; [by apply gc_edge_points|]. assert (q ∈ live); [|set_solver].
      assert (forall a b, rtc gc_edge a b -> a ∈ live -> b ∈ live) as Hcl by (induction 1; eauto). apply (Hcl r); [done|by apply Hu].
Qed.
End marking.

(** *** Sweeping *)

Section sweeping.
Context (ext : nat -> nat) (w0 : World) (w0_good : good ext w0) (X : gset nat) (X_garbage : garbage ext w0 X).
Local Abbreviation G := (gcObjects w0).
Local Abbreviation h0 := (objects w0).

(** Where the instances of a later state come from, with handles [ext'] *)
Record swept (ext' : nat -> nat) (w : World) : Prop := Swept {
  sw_core : core ext' (objects w);
  sw_from : forall p x, objects w !! p = Some x -> exists x0, h0 !! p = Some x0 /\ kind x = kind x0 /\ _noDelete x = _noDelete x0 /\
    (p ∉ X -> members x = members x0) /\ _ref x <= _ref x0 /\
    (_ref x = 0 -> usesGC x = false -> _ref x0 = 0 \/ _noDelete x0 = true);
  sw_gone : forall p x0, h0 !! p = Some x0 -> objects w !! p = None -> p ∉ X ->
    usesGC x0 = false /\ 0 < _ref x0 /\ _noDelete x0 = false
}.

Lemma swept_equal ext1 ext2 w : (forall p, ext1 p = ext2 p) -> swept ext1 w -> swept ext2 w.
Proof. intros E [H1 H2 H3]. split; [by eapply core_equal|done|done]. Qed.

Lemma swept_init : swept ext w0.
Proof.
  split; [apply (good_core _ _ w0_good)| |].
  - intros p x Hx. exists x. split_and!; try done. by left.
  - intros p x0 H1 H2. congruence.
Qed.

(** Replacing an instance by one with other handles or a smaller count *)
Lemma swept_update ext1 ext2 w p x y : swept ext1 w -> objects w !! p = Some x -> kind y = kind x -> _noDelete y = _noDelete x ->
  (p ∉ X -> members y = members x) -> _ref y <= _ref x ->
  (_ref y = 0 -> usesGC x = false -> _ref x = 0 \/ _noDelete x = true) ->
  core ext2 (<[p := y]> (objects w)) -> swept ext2 (set_objects (<[p := y]> (objects w)) w).
Proof.
  intros [Hc Hf Hgone] Hx Hk Hd Hm Hr Hz Hc2. split; cbn; [done| |].
  - intros q z [[<- <-]|[_ H]]%lookup_insert_Some; [|by apply Hf]. destruct (Hf p x Hx) as (x0 & H0 & K & N & M & R & Z).
    exists x0. split_and!; [done|congruence|congruence| |lia|].
    + intros Hp. rewrite Hm by done. by apply M.
    + intros Hy0 Hu. assert (usesGC x = false) as Hux by (unfold usesGC in *; by rewrite <- Hk).
      destruct (Hz Hy0 Hux) as [E|E]; [by apply Z|right; congruence].
  - intros q z Hq [H _]%lookup_insert_None. by apply Hgone.
Qed.

Lemma garbage_clear : forall p x, p ∈ X -> h0 !! p = Some x -> usesGC x = true /\ 0 < _ref x.
Proof. intros p x Hp. apply (candidate_ref ext w0 w0_good). by apply (garbage_candidates _ _ _ X_garbage). Qed.

Lemma garbage_exists p : p ∈ X -> exists x, h0 !! p = Some x.
Proof. intros Hp. apply (candidate_exists ext w0 w0_good). by apply (garbage_candidates _ _ _ X_garbage). Qed.

(** The last handle of a leaf deletes it. *)
Lemma decRef_leaf ext' w q y : swept ext' w -> objects w !! q = Some y -> usesGC y = false -> (0 < ext' q)%nat ->
  wp (decRef_all q) (fun _ w' => swept (less q ext') w' /\ gcObjects w' = gcObjects w /\ same_thread w w' /\
    (forall p, p <> q -> objects w' !! p = objects w !! p)) never w.
Proof.
  intros Hs Hy Hu He. unfold decRef_all. apply wp_bind, wp_get. pose proof (sw_core _ _ Hs) as Hc.
  assert (0 < _ref y) as Hr by (rewrite (core_ref _ _ Hc _ _ Hy); lia).
  destruct (size (objects w)) as [|n] eqn:En; [apply map_size_empty_iff in En; by rewrite En in Hy|].
  cbn [decRef]. apply wp_bind. destruct (decide (_ref y = 1)) as [E0|E0].
  - eapply wp_eq; [apply decrement_last; [done|done|by rewrite Hu]|]. rewrite Hu.
    assert (core (less q ext') (<[q := set_noDelete true (set_ref 0 y)]> (objects w))) as Hc2.
    { unfold set_noDelete, set_ref. cbn. replace 0 with (_ref y - 1) by lia. by apply core_less. }
    destruct (_noDelete y) eqn:Ed; cbn [negb].
    + apply wp_ret. split; [|split; [done|split; [done|intros p Hp; cbn; by rewrite lookup_insert_ne]]].
      apply (swept_update ext' _ w q y); try done; cbn; [lia|]. by right.
    + unfold delete_instance. apply wp_bind. eapply wp_the; [cbn; apply lookup_insert_eq|]. apply wp_bind, wp_modify.
      assert (members y = []) as Hm by (by apply (core_leaf _ _ Hc q)). unfold handles. cbn [members set_noDelete set_ref]. rewrite Hm.
      apply wp_ret. split; [|split; [done|split; [done|]]].
      * split; cbn.
        -- eapply core_equal; [|apply (core_delete _ _ q (set_noDelete true (set_ref 0 y)) Hc2); [apply lookup_insert_eq|done]].
           intros p. unfold plus, handles. cbn. rewrite Hm. unfold occurrences. cbn. rewrite count_nil. lia.
        -- intros p x [Hne Hx]%lookup_delete_Some. rewrite lookup_insert_ne in Hx by done. by apply (sw_from _ _ Hs).
        -- intros p x0 Hx0 Hn Hp. destruct (decide (p = q)) as [->|Hne].
           ++ destruct (sw_from _ _ Hs q y Hy) as (z & Hz & K & N & _ & R & _). rewrite Hx0 in Hz. injection Hz as <-.
              unfold usesGC in *. rewrite <- K, <- N. split; [done|]. split; [lia|done].
           ++ rewrite lookup_delete_ne, lookup_insert_ne in Hn by done. by apply (sw_gone _ _ Hs p).
      * intros p Hp. cbn. by rewrite lookup_delete_ne, lookup_insert_ne.
  - eapply wp_eq; [apply decrement_more; [done|lia]|]. apply wp_ret. split; [|split; [done|split; [done|intros p Hp; cbn; by rewrite lookup_insert_ne]]].
    apply (swept_update ext' _ w q y); try done; [cbn; lia..|]. by apply core_less.
Qed.

Definition members_kept (p : nat) (w w' : World) : Prop :=
  forall r, r ∈ X -> r <> p -> members <$> objects w' !! r = members <$> objects w !! r.

Lemma swept_candidate ext' w q y : swept ext' w -> objects w !! q = Some y -> usesGC y = candidate w0 q.
Proof.
  intros Hs Hy. destruct (sw_from _ _ Hs q y Hy) as (y0 & Hy0 & K & _). unfold candidate. rewrite Hy0. unfold usesGC. by rewrite K.
Qed.

Lemma candidate_garbage p : p ∈ X -> candidate w0 p = true.
Proof.
  intros Hp. destruct (garbage_exists p Hp) as [x Hx]. unfold candidate. rewrite Hx. by apply (garbage_clear p x).
Qed.

(** The handle of [p] at [i] goes to the program. *)
Lemma swept_take w p x i q : swept ext w -> p ∈ X -> objects w !! p = Some x -> members x !! i = Some (Some q) ->
  swept (more q ext) (set_objects (<[p := set_members (<[i := None]> (members x)) x]> (objects w)) w).
Proof.
  intros Hs Hp Hx Hi. assert (usesGC x = true) as Hu by (rewrite (swept_candidate _ _ _ _ Hs Hx); by apply candidate_garbage).
  apply (swept_update ext _ w p x); try done.
  - intros ? ?. congruence.
  - apply (core_member ext _ _ p x i (Some q)); try done; [apply (sw_core _ _ Hs)|].
    intros r. rewrite points_at_none, points_at_some, more_at. lia.
Qed.

Definition cleared_at (x x' : Instance) (i : nat) : Prop := kind x' = kind x /\
  (members x' = <[i := None]> (members x) \/
   (kind x = SlicedInstance /\ members x' = members x /\ exists q, members x !! i = Some (Some q) /\ candidate w0 q = false)).

Lemma unhook_ok w p x i q y : swept ext w -> p ∈ X -> objects w !! p = Some x -> members x !! i = Some (Some q) ->
  objects w !! q = Some y -> usesGC y = true ->
  wp (unhook p i q) (fun _ w' => swept ext w' /\ gcObjects w' = gcObjects w /\ same_thread w w' /\ members_kept p w w' /\
    exists x', objects w' !! p = Some x' /\ cleared_at x x' i) never w.
Proof.
  intros Hs Hp Hx Hm Hy Eu. pose proof (swept_take w p x i q Hs Hp Hx Hm) as Ht.
  set (x2 := set_members (<[i := None]> (members x)) x) in *.
  unfold unhook. apply wp_bind. unfold decRefUnsafe. apply wp_bind. eapply wp_the; [exact Hy|]. apply wp_put. unfold set_handle. apply wp_bind.
  assert (exists y1, objects (set_objects (<[p := x2]> (objects w)) w) !! q = Some y1 /\ usesGC y1 = true) as (y1 & Hy1 & Hu1).
  { cbn. destruct (decide (q = p)) as [->|Hq]; [|by rewrite lookup_insert_ne; eauto]. rewrite lookup_insert_eq. exists x2. split; [done|].
    rewrite Hx in Hy. by injection Hy as <-. }
  assert (swept ext (set_objects (<[q := set_ref (_ref y1 - 1) y1]> (<[p := x2]> (objects w))) w)) as Hs2.
  { eapply swept_equal; [apply (less_more q)|]. apply (swept_update _ _ _ q y1 _ Ht Hy1); try done; [cbn; lia|cbn; congruence|].
    apply core_less; [apply (sw_core _ _ Ht)|done|]. rewrite more_at, decide_True by done. lia. }
  destruct (decide (q = p)) as [->|Hq].
  + cbn in Hy1. rewrite lookup_insert_eq in Hy1. injection Hy1 as <-. rewrite Hx in Hy. injection Hy as <-.
    eapply wp_the; [cbn; apply lookup_insert_eq|]. apply wp_put. cbn. rewrite insert_insert_eq in Hs2 |- *. split_and!; try done.
    * intros r _ Hr. cbn. by rewrite lookup_insert_ne.
    * eexists. split; [cbn; apply lookup_insert_eq|]. split; [done|]. by left.
  + cbn in Hy1. rewrite lookup_insert_ne in Hy1 by done. rewrite Hy in Hy1. injection Hy1 as <-.
    eapply wp_the; [cbn; rewrite lookup_insert_ne; done|]. apply wp_put. cbn. rewrite insert_insert_ne by done. split_and!; try done.
    * intros r _ Hr. cbn. destruct (decide (r = q)) as [->|Hrq]; [by rewrite lookup_insert_eq, Hy|].
      by rewrite !lookup_insert_ne.
    * eexists. split; [cbn; rewrite lookup_insert_ne by done; apply lookup_insert_eq|]. split; [done|]. by left.
Qed.

Lemma class_release_ok w p x i q y : swept ext w -> p ∈ X -> objects w !! p = Some x -> members x !! i = Some (Some q) ->
  objects w !! q = Some y -> usesGC y = false ->
  wp (set_handle p i None;; decRef_all q) (fun _ w' => swept ext w' /\ gcObjects w' = gcObjects w /\ same_thread w w' /\
    members_kept p w w' /\ exists x', objects w' !! p = Some x' /\ cleared_at x x' i) never w.
Proof.
  intros Hs Hp Hx Hm Hy Eu. pose proof (swept_take w p x i q Hs Hp Hx Hm) as Ht. pose proof (swept_candidate _ _ _ _ Hs Hy) as Hcy.
  set (x2 := set_members (<[i := None]> (members x)) x) in *. rewrite Eu in Hcy.
  apply wp_bind. unfold set_handle. apply wp_bind. eapply wp_the; [exact Hx|]. apply wp_put.
  assert (q <> p) as Hq.
  { intros ->. rewrite candidate_garbage in Hcy by done. congruence. }
  eapply wp_conseq; [apply (decRef_leaf (more q ext) _ q y Ht); [cbn; by rewrite lookup_insert_ne|done|]| |done].
  { rewrite more_at, decide_True by done. lia. }
  cbn. intros _ w' (Hs' & Hg' & Ht' & Ho). split_and!; try done.
  + eapply swept_equal; [apply (less_more q)|exact Hs'].
  + intros r Hr Hrp. rewrite Ho; [by rewrite lookup_insert_ne|]. intros ->. rewrite candidate_garbage in Hcy by done. congruence.
  + exists x2. split; [rewrite Ho by done; apply lookup_insert_eq|]. split; [done|]. by left.
Qed.

Lemma gcClear_member_ok w p x i : swept ext w -> p ∈ X -> objects w !! p = Some x -> (i < length (members x))%nat ->
  (kind x = SlicedInstance -> members x !! i <> Some None) ->
  wp (gcClear_member p i) (fun _ w' => swept ext w' /\ gcObjects w' = gcObjects w /\ same_thread w w' /\ members_kept p w w' /\
    exists x', objects w' !! p = Some x' /\ cleared_at x x' i) never w.
Proof.
  intros Hs Hp Hx Hi Hn. unfold gcClear_member. apply wp_bind. eapply wp_the; [exact Hx|].
  destruct (lookup_lt_is_Some_2 _ _ Hi) as [[q|] Hm].
  2: { rewrite bool_decide_eq_false_2 by (intros Hk; by apply (Hn Hk)). unfold class_clear. apply wp_bind. eapply wp_the; [exact Hx|].
       rewrite Hm. apply wp_ret. split_and!; try done. exists x. split; [done|]. split; [done|]. left. by rewrite list_insert_id. }
  assert (is_Some (objects w !! q)) as [y Hy] by (apply (core_target _ _ (sw_core _ _ Hs) p x q Hx); by eapply list_elem_of_lookup_2).
  pose proof (swept_candidate _ _ _ _ Hs Hy) as Hcy. destruct (decide (kind x = SlicedInstance)) as [Hk|Hk].
  - rewrite bool_decide_eq_true_2 by done. unfold slice_clear. apply wp_bind. eapply wp_the; [exact Hx|]. rewrite Hm.
    apply wp_bind. eapply wp_the; [exact Hy|]. destruct (usesGC y) eqn:Eu; [by apply (unhook_ok w p x i q y)|].
    apply wp_ret. split_and!; try done. exists x. split; [done|]. split; [done|]. right. split; [done|]. split; [done|]. by exists q.
  - rewrite bool_decide_eq_false_2 by done. unfold class_clear. apply wp_bind. eapply wp_the; [exact Hx|]. rewrite Hm.
    apply wp_bind. eapply wp_the; [exact Hy|]. destruct (usesGC y) eqn:Eu; [by apply (unhook_ok w p x i q y)|].
    by apply (class_release_ok w p x i q y).
Qed.

Lemma members_kept_trans p w1 w2 w3 : members_kept p w1 w2 -> members_kept p w2 w3 -> members_kept p w1 w3.
Proof. intros H1 H2 r Hr Hp. by rewrite H2, H1. Qed.

Lemma same_thread_trans w1 w2 w3 : same_thread w1 w2 -> same_thread w2 w3 -> same_thread w1 w3.
Proof. intros [] []. split; congruence. Qed.

(** The members before [i] are cleared, but for those of slices that are leaves. *)
Definition cleared_to (ms : list (option nat)) (i : nat) (x : Instance) : Prop :=
  length (members x) = length ms /\ (forall j, (i <= j)%nat -> members x !! j = ms !! j) /\
  forall j m, (j < i)%nat -> members x !! j = Some m ->
    m = None \/ (kind x = SlicedInstance /\ exists q, m = Some q /\ candidate w0 q = false).

Lemma clear_loop n : forall i w p x ms, swept ext w -> p ∈ X -> objects w !! p = Some x -> cleared_to ms i x ->
  (i + n = length ms)%nat -> (kind x = SlicedInstance -> None ∉ ms) ->
  wp (for_each (gcClear_member p) (seq i n)) (fun _ w' => swept ext w' /\ gcObjects w' = gcObjects w /\ same_thread w w' /\
    members_kept p w w' /\ exists x', objects w' !! p = Some x' /\ kind x' = kind x /\ cleared_to ms (i + n) x') never w.
Proof.
  induction n as [|n IH]; intros i w p x ms Hs Hp Hx Hcl Hlen Hn; cbn [seq for_each].
  { apply wp_ret. rewrite Nat.add_0_r. split_and!; try done. by exists x. }
  destruct Hcl as (Hl & Hge & Hlt). apply wp_bind.
  eapply wp_conseq; [apply (gcClear_member_ok w p x i Hs Hp Hx); [lia|]| |done].
  { intros Hk. rewrite Hge by done. intros Hi. apply (Hn Hk). by eapply list_elem_of_lookup_2. }
  intros _ w1 (Hs1 & Hg1 & Ht1 & Hm1 & x1 & Hx1 & Hk1 & Hx1m). eapply wp_conseq; [apply (IH (S i) w1 p x1 ms Hs1 Hp Hx1); [|lia|]| |done].
  - destruct Hx1m as [E|(Hks & E & q & Hq & Hqc)]; unfold cleared_to; rewrite Hk1, E.
    + rewrite length_insert. split_and!; [done| |].
      * intros j Hj. rewrite list_lookup_insert_ne by lia. apply Hge. lia.
      * intros j m Hj Hjm. destruct (decide (j = i)) as [->|Hji].
        -- rewrite list_lookup_insert_eq in Hjm by lia. injection Hjm as <-. by left.
        -- rewrite list_lookup_insert_ne in Hjm by done. apply (Hlt j); [lia|done].
    + split_and!; [done| |].
      * intros j Hj. apply Hge. lia.
      * intros j m Hj Hjm. destruct (decide (j = i)) as [->|Hji]; [|apply (Hlt j); [lia|done]].
        right. split; [done|]. exists q. rewrite Hq in Hjm. by injection Hjm as <-.
  - by rewrite Hk1.
  - cbn beta. intros _ w2 (Hs2 & Hg2 & Ht2 & Hm2 & x2 & Hx2 & Hk2 & Hc2). split_and!; [done|congruence|by eapply same_thread_trans|by eapply members_kept_trans|].
    exists x2. split; [done|]. split; [congruence|]. by rewrite Nat.add_succ_r.
Qed.

(** The leaves that slices hold go one by one. *)
Lemma release_leaves l w : swept (plus l ext) w -> Forall (fun q => candidate w0 q = false) l ->
  wp (for_each decRef_all l) (fun _ w' => swept ext w' /\ gcObjects w' = gcObjects w /\ same_thread w w' /\
    forall r, r ∈ X -> objects w' !! r = objects w !! r) never w.
Proof.
  revert w. induction l as [|q l IH]; intros w Hs Hl; cbn [for_each].
  { apply wp_ret. split_and!; try done. eapply swept_equal; [|exact Hs]. intros q. unfold plus, occurrences. cbn. rewrite count_nil. lia. }
  apply Forall_cons in Hl as [Hq Hl]. assert (0 < plus (q :: l) ext q)%nat as He.
  { rewrite plus_cons. unfold plus. rewrite more_at, decide_True by done. lia. }
  destruct (core_ext _ _ (sw_core _ _ Hs) q He) as [y Hy].
  apply wp_bind. eapply wp_conseq; [apply (decRef_leaf _ w q y Hs Hy); [|done]| |done].
  { by rewrite (swept_candidate _ _ _ _ Hs Hy). }
  cbn beta. intros _ w1 (Hs1 & Hg1 & Ht1 & Ho1). eapply wp_conseq; [apply IH; [|done]| |done].
  - eapply swept_equal; [|exact Hs1]. intros r. unfold less. destruct (decide (r = q)) as [->|Hr]; rewrite plus_cons; unfold plus; rewrite more_at.
    + rewrite decide_True by done. lia.
    + rewrite decide_False by done. lia.
  - cbn beta. intros _ w2 (Hs2 & Hg2 & Ht2 & Ho2). split_and!; [done|congruence|by eapply same_thread_trans|].
    intros r Hr. rewrite Ho2, Ho1; [done| |done]. intros ->. rewrite candidate_garbage in Hq; done.
Qed.

Definition all_null (ms : list (option nat)) : Prop := Forall (fun m => m = None) ms.

Lemma gcClear_ok w p x : swept ext w -> p ∈ X -> objects w !! p = Some x -> (kind x = SlicedInstance -> None ∉ members x) ->
  wp (gcClear p) (fun _ w' => swept ext w' /\ gcObjects w' = gcObjects w /\ same_thread w w' /\ members_kept p w w' /\
    exists x', objects w' !! p = Some x' /\ all_null (members x')) never w.
Proof.
  intros Hs Hp Hx Hn. unfold gcClear. apply wp_bind. eapply wp_the; [exact Hx|]. apply wp_bind.
  eapply wp_conseq; [apply (clear_loop (length (members x)) 0 w p x (members x) Hs Hp Hx); [|done|done]| |done].
  { split; [done|]. split; [done|]. intros j m Hj. lia. }
  cbn beta. intros _ w1 (Hs1 & Hg1 & Ht1 & Hm1 & x1 & Hx1 & Hk1 & Hl1 & _ & Hc1). rewrite Nat.add_0_l in Hc1.
  assert (forall m, m ∈ members x1 -> m = None \/ (kind x = SlicedInstance /\ exists q, m = Some q /\ candidate w0 q = false)) as Hall.
  { intros m [j Hj]%list_elem_of_lookup. rewrite <- Hk1. apply (Hc1 j); [|done]. apply lookup_lt_Some in Hj. lia. }
  destruct (decide (kind x = SlicedInstance)) as [Hk|Hk].
  - rewrite bool_decide_eq_true_2 by done. apply wp_bind. eapply wp_the; [exact Hx1|]. apply wp_bind, wp_put.
    assert (usesGC x1 = true) as Hu1 by (unfold usesGC; by rewrite Hk1, Hk).
    set (w2 := set_objects (<[p := set_members [] x1]> (objects w1)) w1).
    assert (swept (plus (omap id (members x1)) ext) w2) as Hs2.
    { apply (swept_update ext _ w1 p x1); try done.
      - intros _ ?. congruence.
      - apply (core_members ext _ _ p x1); try done; [apply (sw_core _ _ Hs1)| |].
        + intros q. cbn. rewrite count_nil. unfold plus. rewrite count_handles. lia.
        + cbn. by intros q ?%elem_of_nil. }
    eapply wp_conseq; [apply (release_leaves _ _ Hs2)| |done].
    + apply Forall_forall. intros q (m & Hm & Hmq)%list_elem_of_omap. destruct m as [r|]; [|done]. cbn in Hmq. injection Hmq as ->.
      destruct (Hall _ Hm) as [?|(_ & r & [= ->] & ?)]; done.
    + cbn beta. intros _ w3 (Hs3 & Hg3 & Ht3 & Ho3). split_and!; [done|cbn in Hg3; congruence|eapply same_thread_trans; [exact Ht1|exact Ht3]| |].
      * intros r Hr Hrp. rewrite Ho3 by done. cbn. rewrite lookup_insert_ne by done. by apply Hm1.
      * exists (set_members [] x1). rewrite Ho3 by done. split; [apply lookup_insert_eq|]. cbn. constructor.
  - rewrite bool_decide_eq_false_2 by done. apply wp_ret. split_and!; try done. exists x1. split; [done|].
    apply Forall_forall. intros m Hm. by destruct (Hall m Hm) as [?|[? _]].
Qed.

Lemma clear_all l w : swept ext w -> NoDup l -> (forall p, p ∈ l -> p ∈ X /\ members <$> objects w !! p = members <$> h0 !! p) ->
  wp (for_each gcClear l) (fun _ w' => swept ext w' /\ gcObjects w' = gcObjects w /\ same_thread w w' /\
    (forall p, p ∈ l -> exists x, objects w' !! p = Some x /\ all_null (members x)) /\
    (forall r, r ∈ X -> r ∉ l -> members <$> objects w' !! r = members <$> objects w !! r)) never w.
Proof.
  revert w. induction l as [|p l IH]; intros w Hs Hnd Hl; cbn [for_each].
  { apply wp_ret. split_and!; try done. by intros p ?%elem_of_nil. }
  apply NoDup_cons in Hnd as [Hpl Hnd]. destruct (Hl p) as [Hp Hm]; [by left|]. destruct (garbage_exists p Hp) as [x0 Hx0].
  rewrite Hx0 in Hm. destruct (objects w !! p) as [x|] eqn:Hx; [|done]. injection Hm as Hm.
  apply wp_bind. eapply wp_conseq; [apply (gcClear_ok w p x Hs Hp Hx)| |done].
  { intros Hk. rewrite Hm. apply (good_slices _ _ w0_good p x0 Hx0). destruct (sw_from _ _ Hs p x Hx) as (z & Hz & K & _).
    rewrite Hx0 in Hz. injection Hz as <-. congruence. }
  cbn beta. intros _ w1 (Hs1 & Hg1 & Ht1 & Hm1 & x1 & Hx1 & Hn1). eapply wp_conseq; [apply (IH w1 Hs1 Hnd)| |done].
  { intros q Hq. destruct (Hl q) as [HqX Hmq]; [by right|]. split; [done|]. rewrite Hm1; [done|done|]. by intros ->. }
  cbn beta. intros _ w2 (Hs2 & Hg2 & Ht2 & Hn2 & Hm2). split_and!; [done|congruence|by eapply same_thread_trans| |].
  - intros q [->|Hq]%elem_of_cons; [|by apply Hn2]. specialize (Hm2 p Hp Hpl). rewrite Hx1 in Hm2.
    destruct (objects w2 !! p) as [x2|]; [|done]. injection Hm2 as Hm2. exists x2. split; [done|]. by rewrite Hm2.
  - intros r Hr [Hrp Hrl]%not_elem_of_cons. rewrite Hm2, Hm1; done.
Qed.

Lemma null_handles x : all_null (members x) -> handles x = [].
Proof.
  unfold handles, all_null. intros H. apply List.Forall_rev in H. revert H. generalize (rev (members x)). intros l. induction 1 as [|m l -> _ IH]; [done|]. exact IH.
Qed.

(** Nobody refers to garbage that is cleared. *)
Lemma cleared_unreferenced w p x : swept ext w -> p ∈ X -> objects w !! p = Some x ->
  (forall q z, q ∈ X -> objects w !! q = Some z -> all_null (members z)) -> _ref x = 0.
Proof.
  intros Hs Hp Hx Hn. rewrite (core_ref _ _ (sw_core _ _ Hs) _ _ Hx), (garbage_unheld _ _ _ X_garbage p Hp).
  destruct (total (objects w) p) eqn:E; [done|]. assert (0 < total (objects w) p)%nat as (q & z & _ & Hz & Hm)%held_by_pos by lia.
  destruct (decide (q ∈ X)) as [Hq|Hq].
  - specialize (Hn q z Hq Hz). unfold all_null in Hn. rewrite Forall_forall in Hn. by specialize (Hn _ Hm).
  - destruct (sw_from _ _ Hs q z Hz) as (z0 & Hz0 & _ & _ & M & _). rewrite (M Hq) in Hm. destruct Hq.
    apply (garbage_from _ _ _ X_garbage q p); [by exists z0|done].
Qed.

Lemma delete_all l w : swept ext w -> NoDup l -> (forall p, p ∈ l -> p ∈ X /\ is_Some (objects w !! p)) ->
  (forall q z, q ∈ X -> objects w !! q = Some z -> all_null (members z)) ->
  wp (for_each (fun p => modify (fun w => set_gcObjects (gcObjects w ∖ {[p]}) w);; delete_instance decRef_all p) l)
    (fun _ w' => swept ext w' /\ gcObjects w' = gcObjects w ∖ list_to_set l /\ same_thread w w' /\
      forall q, objects w' !! q = if decide (q ∈ l) then None else objects w !! q) never w.
Proof.
  revert w. induction l as [|p l IH]; intros w Hs Hnd Hl Hn; cbn [for_each].
  { apply wp_ret. split_and!; [done|set_solver|done|]. intros q. by rewrite decide_False by apply not_elem_of_nil. }
  apply NoDup_cons in Hnd as [Hpl Hnd]. destruct (Hl p) as [Hp [x Hx]]; [by left|].
  apply wp_bind, wp_bind, wp_modify. unfold delete_instance. apply wp_bind. eapply wp_the; [exact Hx|]. apply wp_bind, wp_modify.
  rewrite null_handles by by eapply Hn. apply wp_ret. set (w1 := set_objects _ _).
  assert (swept ext w1) as Hs1.
  { split; cbn.
    - eapply core_equal; [|apply (core_delete _ _ p x (sw_core _ _ Hs) Hx); by eapply cleared_unreferenced].
      intros q. unfold plus. rewrite null_handles by by eapply Hn. unfold occurrences. cbn. rewrite count_nil. lia.
    - intros q z [_ Hz]%lookup_delete_Some. by apply (sw_from _ _ Hs).
    - intros q z Hz Hd Hq. apply (sw_gone _ _ Hs q z Hz); [|done]. rewrite lookup_delete_ne in Hd; [done|]. by intros ->. }
  eapply wp_conseq; [apply (IH w1 Hs1 Hnd)| |done].
  - intros q Hq. destruct (Hl q) as [HqX Hqx]; [by right|]. split; [done|]. cbn. rewrite lookup_delete_ne; [done|]. by intros ->.
  - intros q z HqX Hz. cbn in Hz. apply lookup_delete_Some in Hz as [_ Hz]. by apply (Hn q).
  - cbn beta. intros _ w2 (Hs2 & Hg2 & Ht2 & Ho2). split_and!; [done| |exact Ht2|].
    + rewrite Hg2. cbn. set_solver.
    + intros q. rewrite Ho2. cbn. destruct (decide (q ∈ l)) as [Hq|Hq]; [by rewrite decide_True by (by right)|].
      destruct (decide (q = p)) as [->|Hqp]; [rewrite lookup_delete_eq, decide_True; [done|by left]|].
      rewrite lookup_delete_ne, decide_False; [done| |done]. by rewrite elem_of_cons; intros [?|?].
Qed.

Lemma sweep_ok (counts : GCCountMap) c : dom counts = X ->
  wp (sweep order counts) (fun _ w' => swept ext w' /\ gcObjects w' = G ∖ X /\ _collecting w' = c /\ _state w' = _state w0 /\
    forall p, p ∈ X -> objects w' !! p = None) never (set_collecting c w0).
Proof.
  intros Hd. unfold sweep. rewrite Hd. apply wp_bind.
  assert (swept ext (set_collecting c w0)) as Hs by (destruct swept_init as [? ? ?]; by split).
  eapply wp_conseq; [apply (clear_all (order X) _ Hs (order_nodup X))| |done].
  { intros p Hp%order_elem. done. }
  cbn beta. intros _ w1 (Hs1 & Hg1 & [Ht1 Ht1'] & Hn1 & _). cbn in Hg1, Ht1, Ht1'.
  eapply wp_conseq; [apply (delete_all (order X) w1 Hs1 (order_nodup X))| |done].
  - intros p Hp. split; [by apply order_elem|]. destruct (Hn1 p Hp) as (x & Hx & _). by exists x.
  - intros q z Hq Hz. destruct (Hn1 q) as (x & Hx & Hx0); [by apply order_elem|]. rewrite Hz in Hx. by injection Hx as ->.
  - cbn beta. intros _ w2 (Hs2 & Hg2 & [Ht2 Ht2'] & Ho2). split_and!; [done| |congruence|congruence|].
    + rewrite Hg2, Hg1. f_equal. apply set_eq. intros q. by rewrite elem_of_list_to_set, order_elem.
    + intros p Hp. rewrite Ho2. by rewrite decide_True by by apply order_elem.
Qed.

(** *** After a collection *)

Lemma swept_good w : swept ext w -> gcObjects w = G ∖ X -> (forall p, p ∈ X -> objects w !! p = None) -> good ext w.
Proof.
  intros Hs Hg Hx. split; [apply (sw_core _ _ Hs)| |].
  - intros p. rewrite Hg. split.
    + intros [HpG HpX]%elem_of_difference. destruct (candidate_exists ext w0 w0_good p HpG) as [x0 Hx0].
      destruct (candidate_ref ext w0 w0_good p x0 HpG Hx0) as [Hu Hr]. destruct (objects w !! p) as [x|] eqn:Hp.
      2: { destruct (sw_gone _ _ Hs p x0 Hx0 Hp HpX). congruence. }
      exists x. split; [done|]. destruct (sw_from _ _ Hs p x Hp) as (z & Hz & K & _). rewrite Hx0 in Hz. injection Hz as <-.
      split; [unfold usesGC in *; by rewrite K|]. rewrite (core_ref _ _ (sw_core _ _ Hs) _ _ Hp).
      destruct (garbage_rest_held _ _ _ X_garbage p HpG HpX) as [?|(q & (y & Hy & Hm) & HqX)]; [lia|].
      assert (0 < total (objects w) p)%nat; [|lia]. apply held_by_pos. destruct (objects w !! q) as [z|] eqn:Hq.
      * exists q, z. split; [by eapply elem_of_dom_2|]. split; [done|]. destruct (sw_from _ _ Hs q z Hq) as (z0 & Hz0 & _ & _ & M & _).
        rewrite Hy in Hz0. injection Hz0 as <-. by rewrite (M HqX).
      * destruct (sw_gone _ _ Hs q y Hy Hq HqX) as (Hu' & _). rewrite (core_leaf _ _ (good_core _ _ w0_good) q y Hy Hu') in Hm.
        by apply elem_of_nil in Hm.
    + intros (x & Hp & Hu & Hr). destruct (sw_from _ _ Hs p x Hp) as (x0 & Hx0 & K & _ & _ & R & _). apply elem_of_difference. split.
      * apply (good_candidates _ _ w0_good). exists x0. split; [done|]. split; [unfold usesGC in *; by rewrite <- K|lia].
      * intros HpX. rewrite Hx in Hp; done.
  - intros p x Hp Hk. destruct (sw_from _ _ Hs p x Hp) as (x0 & Hx0 & K & _ & M & _). rewrite M by (intros HpX; by rewrite Hx in Hp).
    apply (good_slices _ _ w0_good p x0 Hx0). congruence.
Qed.

(** A reachable instance survives. *)
Lemma reachable_survives w p : swept ext w -> (forall q, q ∈ X -> objects w !! q = None) -> reachable ext h0 p ->
  (p ∉ X) /\ is_Some (objects w !! p).
Proof.
  intros Hs Hx (r & Hr & Hrp). refine (rtc_ind_r (fun p => (p ∉ X) /\ is_Some (objects w !! p)) r _ _ p Hrp).
  - destruct Hr as (x & Hx0 & Hroot). assert (r ∉ X) as HrX.
    { intros HrX. destruct (garbage_clear r x HrX Hx0) as [Hu Href]. pose proof (garbage_unheld _ _ _ X_garbage r HrX) as He.
      destruct Hroot as [?|[?|[? _]]]; [lia|lia|congruence]. }
    split; [done|]. destruct (objects w !! r) as [y|] eqn:Hy; [by eexists|].
    destruct (sw_gone _ _ Hs r x Hx0 Hy HrX) as (Hu & Href & Hd). destruct Hroot as [He|[?|[_ ?]]]; [|lia|congruence].
    destruct (core_ext _ _ (sw_core _ _ Hs) r He). congruence.
  - intros a b _ Hab [HaX [z Hz]]. split; [intros HbX; by apply HaX, (garbage_from _ _ _ X_garbage a b)|].
    destruct Hab as (x & Hxa & Hm). destruct (sw_from _ _ Hs a z Hz) as (z0 & Hz0 & _ & _ & M & _). rewrite Hxa in Hz0. injection Hz0 as <-.
    apply (core_target _ _ (sw_core _ _ Hs) a z b Hz). by rewrite (M HaX).
Qed.

(** What survives is reachable. *)
Lemma survivor_reachable w p x : swept ext w -> gcObjects w = G ∖ X -> (forall q, q ∈ X -> objects w !! q = None) ->
  objects w !! p = Some x -> reachable ext h0 p.
Proof.
  intros Hs Hg Hx Hp. assert (p ∉ X) as HpX by (intros HpX; by rewrite Hx in Hp).
  destruct (sw_from _ _ Hs p x Hp) as (x0 & Hx0 & K & N & M & R & Z).
  assert (_ref x0 = 0 -> reachable ext h0 p) as Hfloat.
  { intros Hr. exists p. split; [|done]. exists x0. split; [done|]. right. by left. }
  destruct (usesGC x0) eqn:Eu.
  - destruct (decide (p ∈ G)) as [HpG|HpG]; [by apply (garbage_rest _ _ _ X_garbage)|]. apply Hfloat.
    pose proof (ref_nonneg _ _ _ _ w0_good Hx0). destruct (decide (_ref x0 = 0)) as [|Hr]; [done|]. destruct HpG.
    apply (good_candidates _ _ w0_good). exists x0. split; [done|]. split; [done|lia].
  - assert (usesGC x = false) as Eux by (unfold usesGC in *; by rewrite K).
    pose proof (core_ref _ _ (sw_core _ _ Hs) _ _ Hp) as Hr. destruct (decide (_ref x = 0)) as [E|E].
    { destruct (Z E Eux) as [?|?]; [by apply Hfloat|]. exists p. split; [|done]. exists x0. split; [done|]. by right; right. }
    destruct (decide (0 < ext p)%nat) as [He|He].
    { exists p. split; [|done]. exists x0. split; [done|by left]. }
    assert (0 < total (objects w) p)%nat as (q & y & _ & Hy & Hm)%held_by_pos by lia.
    assert (q ∉ X) as HqX by (intros HqX; by rewrite Hx in Hy).
    destruct (sw_from _ _ Hs q y Hy) as (y0 & Hy0 & Kq & _ & Mq & _). rewrite (Mq HqX) in Hm.
    assert (usesGC y0 = true) as Hu0.
    { destruct (usesGC y0) eqn:Eq; [done|]. rewrite (core_leaf _ _ (good_core _ _ w0_good) q y0 Hy0 Eq) in Hm. by apply elem_of_nil in Hm. }
    assert (reachable ext h0 q) as (r & Hr0 & Hrq).
    { destruct (decide (q ∈ G)) as [HqG|HqG]; [by apply (garbage_rest _ _ _ X_garbage)|]. exists q. split; [|done]. exists y0. split; [done|].
      right. left. pose proof (ref_nonneg _ _ _ _ w0_good Hy0). destruct (decide (_ref y0 = 0)) as [|Hne]; [done|]. destruct HqG.
      apply (good_candidates _ _ w0_good). exists y0. split; [done|]. split; [done|lia]. }
    exists r. split; [done|]. eapply rtc_r; [exact Hrq|]. by exists y0.
Qed.
End sweeping.

Lemma garbage_count (G X : gset nat) : X ⊆ G -> (size X + size (G ∖ X) = size G)%nat.
Proof. intros H. rewrite <- size_union by set_solver. f_equal. by rewrite <- union_difference_L. Qed.

(** *** The whole collection *)

(** What a collection of [w] leaves *)
Definition collected (ext : nat -> nat) (w : World) (examined deleted : nat) (w' : World) : Prop :=
  good ext w' /\ same_thread w w' /\
  examined = size (gcObjects w) /\ (deleted + size (gcObjects w') = examined)%nat /\
  (forall p, is_Some (objects w' !! p) <-> reachable ext (objects w) p) /\
  (forall p x', objects w' !! p = Some x' -> exists x, objects w !! p = Some x /\ shape x' = shape x).

(** The candidates that marking leaves are garbage. *)
Lemma mark_garbage ext w : good ext w -> exists counts reachable counts1 live counts2 : _,
  count_references order w = (Ok (counts, reachable), w) /\
  subtract order reachable counts w = (Ok counts1, w) /\
  live_objects order counts1 w = (Ok live, w) /\
  remove_live order live counts1 w = (Ok counts2, w) /\
  garbage ext w (dom counts2).
Proof.
  intros Hg. destruct (count_references_ok ext w Hg) as (counts & reachable & E1 & C & V & Dm).
  assert (forall p, is_Some (counts !! p) <-> p ∈ gcObjects w) as Hdom.
  { intros p. rewrite C. destruct (decide (p ∈ gcObjects w)) as [Hp|Hp]; [|split; [by intros [? [=]]|done]].
    destruct (candidate_exists ext w Hg p Hp) as [x Hx]. rewrite Hx. split; [done|]. by intros _; eexists. }
  destruct (subtract_ok w reachable counts) as (counts1 & E2 & C1); [intros q Hq; apply Hdom; by apply Dm|].
  assert (forall p, is_Some (counts1 !! p) <-> p ∈ gcObjects w) as Hdom1.
  { intros p. rewrite C1, <- Hdom. unfold subtracted. destruct (counts !! p); [split; intros; by eexists|done]. }
  assert (dom counts1 = gcObjects w) as Hd1 by (apply set_eq; intros p; by rewrite elem_of_dom, Hdom1).
  assert (forall p, p ∈ gcObjects w -> 0 < value counts1 p <-> used ext w p) as Hused.
  { intros p Hp. destruct (candidate_exists ext w Hg p Hp) as [x Hx]. destruct (candidate_ref ext w Hg p x Hp Hx) as [Hu _].
    assert (candidate w p = true) as Hc by (unfold candidate; by rewrite Hx).
    rewrite <- (rest_used ext w Hg p x reachable Hx Hc); [|by rewrite V, Hc]. unfold value at 1. rewrite C1. unfold subtracted.
    rewrite C, decide_True, Hx by done. done. }
  destruct (live_objects_ok ext w Hg counts1 Hd1) as (live & E3 & L1 & L2 & L3 & L4).
  destruct (remove_live_ok ext w Hg live counts1) as (counts2 & E4 & D2); [by rewrite Hd1|].
  exists counts, reachable, counts1, live, counts2. split_and!; try done. rewrite D2, Hd1. apply (live_garbage ext w Hg); try done.
  - intros p Hp Hpu. apply L3; [done|]. by apply Hused.
  - intros q Hq. destruct (L4 q Hq) as (p & Hp & Hv & Hpq). exists p. split; [done|]. split; [by apply Hused|done].
Qed.

Lemma collect_ok ext w : good ext w -> _collecting w = false ->
  wp (collectGarbage order) (fun r w' => collected ext w (fst r) (snd r) w') never w.
Proof.
  intros Hg Hc. unfold collectGarbage. apply wp_bind, wp_get. rewrite Hc. apply wp_bind, wp_modify.
  set (w1 := set_collecting true w). assert (good ext w1) as Hg1 by (destruct Hg; by split).
  destruct (mark_garbage ext w1 Hg1) as (counts & reachable & counts1 & live & counts2 & E1 & E2 & E3 & E4 & HX).
  apply wp_bind. eapply wp_eq; [exact E1|]. cbn [fst snd]. apply wp_bind. eapply wp_eq; [exact E2|].
  apply wp_bind. eapply wp_eq; [exact E3|]. apply wp_bind. eapply wp_eq; [exact E4|].
  apply wp_bind. eapply wp_conseq; [apply (sweep_ok ext w1 Hg1 _ HX counts2 true eq_refl)| |done].
  cbn beta. intros _ w2 (Hs & Hgc & Hcol & Hst & Hx). apply wp_bind, wp_modify, wp_ret. cbn [fst snd].
  pose proof (swept_good ext w1 Hg1 _ HX w2 Hs Hgc Hx) as Hg2. split_and!.
  - destruct Hg2. by split.
  - split; [cbn; by rewrite Hc|exact Hst].
  - done.
  - cbn. rewrite Hgc. apply garbage_count. apply (garbage_candidates _ _ _ HX).
  - intros p. cbn. split.
    + intros [x Hp]. by apply (survivor_reachable ext w1 Hg1 _ HX w2 p x).
    + intros Hr. by apply (reachable_survives ext w1 Hg1 _ HX w2 p).
  - cbn. intros p x' Hp. destruct (sw_from _ _ _ _ Hs p x' Hp) as (x & Hx0 & K & N & M & _). exists x. split; [done|].
    unfold shape. rewrite K, N, M; [done|]. intros HpX. by rewrite Hx in Hp.
Qed.

(** ** Programs *)

Lemma load_good ext w p i : good ext w -> within (Load p i) w ext ->
  wp (run order (Load p i)) (fun _ w' => good (holding (Load p i) w ext) w' /\ same_thread w w') never w.
Proof.
  intros Hg He. destruct (core_ext _ _ (good_core _ _ Hg) p He) as [x Hx]. cbn [run holding]. unfold loaded. rewrite Hx.
  apply wp_bind. eapply wp_the; [exact Hx|]. cbn. destruct (members x !! i) as [[q|]|] eqn:Hi; [|by apply wp_ret..]. cbn.
  eapply wp_conseq; [apply (incRef_good ext w q Hg)| |done].
  - apply (core_target _ _ (good_core _ _ Hg) p x q Hx). by eapply list_elem_of_lookup_2.
  - by intros _ w' (? & _ & ?).
Qed.

Lemma run_good c ext w : good ext w -> _collecting w = false -> within c w ext ->
  wp (run order c) (fun _ w' => good (holding c w ext) w' /\ same_thread w w') never w.
Proof.
  intros Hg Hc Hw. destruct c as [p k ts n|p|p i|p|p i q|p d|].
  - by apply (new_good ext w p k ts n).
  - destruct Hw as (x & Hx & _). eapply wp_conseq; [apply (incRef_good ext w p Hg); by eexists| |done]. by intros _ w' (? & _ & ?).
  - by apply load_good.
  - by apply decRef_all_good.
  - by apply assign_good.
  - apply setNoDelete_good; [done|]. by apply (core_ext _ _ (good_core _ _ Hg)).
  - apply wp_bind. eapply wp_conseq; [apply (collect_ok ext w Hg Hc)| |done]. intros r w' (? & ? & _). by apply wp_ret.
Qed.

Lemma good_new : good (fun _ => 0%nat) world_new.
Proof.
  split; [split|..]; cbn.
  - intros p. lia.
  - by intros p x q Hp.
  - by intros p x Hp.
  - by intros p x Hp.
  - intros p. split; [by intros ?%elem_of_empty|by intros (x & Hp & _)].
  - by intros p x Hp.
Qed.

Lemma reached_good w ext : reached order w ext -> good ext w /\ _collecting w = false.
Proof.
  induction 1 as [|w ext c r w' _ [Hg Hc] Hw Hr]; [split; [exact good_new|done]|].
  pose proof (run_good c ext w Hg Hc Hw) as H. unfold wp in H. rewrite Hr in H.
  destruct r as [u|e|f]; [|done..]. destruct H as [? [Hcol _]]. split; [done|congruence].
Qed.

(** C19. In every state that a program reaches, whatever its classes and the order
    of addresses, a collection ends without a fault; it deletes exactly the
    instances that no root leads to, on cycles or not, where the roots are those
    that the program has a handle of, those that nobody has a handle of yet, and
    leaves that are not to be deleted; the others keep their members and their flag,
    their counts are right again, and the statistics have the numbers of candidates
    examined and deleted. *)
Theorem collector_exact w ext : reached order w ext -> exists examined deleted w',
  collectGarbage order w = (Ok (examined, deleted), w') /\ collected ext w examined deleted w'.
Proof.
  intros [Hg Hc]%reached_good. pose proof (collect_ok ext w Hg Hc) as H. unfold wp in H.
  destruct (collectGarbage order w) as [[[n m]|e|f] w']; [|done..]. by exists n, m, w'.
Qed.

(** C20. In every state that a program reaches, the reference count of an instance
    is the number of its handles, those of the program and those in members of
    instances; no handle dangles; and everything that the program may do next, a
    collection included, ends without a fault or an exception. *)
Theorem counts_right w ext c : reached order w ext -> within c w ext ->
  (forall p x, objects w !! p = Some x -> _ref x = Z.of_nat (ext p + total (objects w) p)) /\
  (forall q, (0 < ext q)%nat -> is_Some (objects w !! q)) /\
  (forall p x q, objects w !! p = Some x -> Some q ∈ members x -> is_Some (objects w !! q)) /\
  exists w', run order c w = (Ok tt, w').
Proof.
  intros [Hg Hc]%reached_good Hw. split_and!.
  - apply (core_ref _ _ (good_core _ _ Hg)).
  - apply (core_ext _ _ (good_core _ _ Hg)).
  - apply (core_target _ _ (good_core _ _ Hg)).
  - pose proof (run_good c ext w Hg Hc Hw) as H. unfold wp in H. destruct (run order c w) as [[[]|e|f] w']; [|done..]. by exists w'.
Qed.
End collector.

(** ** A cycle with a leaf, and an instance that is in use *)

Module SampleGarbage.
Definition next (s : World * (nat -> nat)) (c : command) : World * (nat -> nat) :=
  ((run elements c (fst s)).2, holding c (fst s) (snd s)).
Definition after (cs : list command) : World * (nat -> nat) := fold_left next cs (world_new, fun _ => 0%nat).

Fixpoint allowed (s : World * (nat -> nat)) (cs : list command) : Prop :=
  match cs with [] => True | c :: cs' => within c (fst s) (snd s) /\ allowed (next s c) cs' end.

Definition program : list command :=
  [New 3 LeafInstance [] 0; New 1 ClassInstance [3%nat] 1; New 2 ClassInstance [1%nat] 0; Assign 1 1 (Some 2%nat);
   New 4 ClassInstance [] 1; Drop 3; Drop 1; Drop 2].

Lemma reached_all cs s : reached elements s.1 s.2 -> allowed s cs -> reached elements (fold_left next cs s).1 (fold_left next cs s).2.
Proof.
  revert s. induction cs as [|c cs IH]; intros s Hr Ha; [done|]. destruct Ha as [Hw Ha]. apply IH; [|done].
  eapply reached_step; [exact Hr|exact Hw|apply surjective_pairing].
Qed.

Lemma program_reached : reached elements (after program).1 (after program).2.
Proof.
  apply reached_all; [apply reached_new|].
  do 3 (split; [split; [vm_compute; done|split; [repeat constructor; vm_compute; lia|by repeat split]]|]).
  split; [split; [vm_compute; lia|split; [by eexists _, _|vm_compute; lia]]|].
  split; [split; [vm_compute; done|split; [constructor|done]]|].
  do 3 (split; [vm_compute; lia|]). done.
Qed.
End SampleGarbage.

Example cycle_collected : exists w', collectGarbage elements (SampleGarbage.after SampleGarbage.program).1 = (Ok (3%nat, 2%nat), w') /\
  dom (objects w') = {[4%nat]}.
Proof. eexists. split; [vm_compute; reflexivity|]. by vm_compute. Qed.

Lemma collector_exact_witness : let '(w, ext) := SampleGarbage.after SampleGarbage.program in
  exists examined deleted w', collectGarbage elements w = (Ok (examined, deleted), w') /\ collected ext w examined deleted w'.
Proof. apply (collector_exact elements (fun X => reflexivity _) _ _ SampleGarbage.program_reached). Defined.

Lemma counts_right_witness : let '(w, ext) := SampleGarbage.after SampleGarbage.program in
  (forall p x, objects w !! p = Some x -> _ref x = Z.of_nat (ext p + total (objects w) p)) /\
  (forall q, (0 < ext q)%nat -> is_Some (objects w !! q)) /\
  (forall p x q, objects w !! p = Some x -> Some q ∈ members x -> is_Some (objects w !! q)) /\
  exists w', run elements (Load 4 0) w = (Ok tt, w').
Proof.
  apply (counts_right elements (fun X => reflexivity _) _ _ (Load 4 0) SampleGarbage.program_reached). vm_compute. lia.
Defined.
