(* ===== verification/PropertyNames.v ===== *)
(** * The known properties

    cpp/src/Ice/PropertyNames.h and cpp/src/Ice/PropertyNames.cpp: the table of
    the properties of each top-level prefix, with the deprecated ones, and the
    prefixes that the command line understands. *)

From S2P Require Import Prelude CxxString.

Record Property : Type := MkProperty {
  pattern : str;
  deprecated : bool;
  deprecatedBy : option str
}.

Definition IcePropsData : list Property := [
  MkProperty (lit "Ice.ACM.Client") false None;
  MkProperty (lit "Ice.ACM.Server") false None;
  MkProperty (lit "Ice.Admin.ACM") false None;
  MkProperty (lit "Ice.Admin.AdapterId") false None;
  MkProperty (lit "Ice.Admin.Endpoints") false None;
  MkProperty (lit "Ice.Admin.Locator.EndpointSelection") false None;
  MkProperty (lit "Ice.Admin.Locator.ConnectionCached") false None;
  MkProperty (lit "Ice.Admin.Locator.PreferSecure") false None;
  MkProperty (lit "Ice.Admin.Locator.LocatorCacheTimeout") false None;
  MkProperty (lit "Ice.Admin.Locator.Locator") false None;
  MkProperty (lit "Ice.Admin.Locator.Router") false None;
  MkProperty (lit "Ice.Admin.Locator.CollocationOptimized") false None;
  MkProperty (lit "Ice.Admin.Locator") false None;
  MkProperty (lit "Ice.Admin.PublishedEndpoints") false None;
  MkProperty (lit "Ice.Admin.ReplicaGroupId") false None;
  MkProperty (lit "Ice.Admin.Router.EndpointSelection") false None;
  MkProperty (lit "Ice.Admin.Router.ConnectionCached") false None;
  MkProperty (lit "Ice.Admin.Router.PreferSecure") false None;
  MkProperty (lit "Ice.Admin.Router.LocatorCacheTimeout") false None;
  MkProperty (lit "Ice.Admin.Router.Locator") false None;
  MkProperty (lit "Ice.Admin.Router.Router") false None;
  MkProperty (lit "Ice.Admin.Router.CollocationOptimized") false None;
  MkProperty (lit "Ice.Admin.Router") false None;
  MkProperty (lit "Ice.Admin.ProxyOptions") false None;
  MkProperty (lit "Ice.Admin.ThreadPool.Size") false None;
  MkProperty (lit "Ice.Admin.ThreadPool.SizeMax") false None;
  MkProperty (lit "Ice.Admin.ThreadPool.SizeWarn") false None;
  MkProperty (lit "Ice.Admin.ThreadPool.StackSize") false None;
  MkProperty (lit "Ice.Admin.ThreadPool.Serialize") false None;
  MkProperty (lit "Ice.Admin.ThreadPool.ThreadIdleTime") false None;
  MkProperty (lit "Ice.Admin.ThreadPool.ThreadPriority") false None;
  MkProperty (lit "Ice.Admin.DelayCreation") false None;
  MkProperty (lit "Ice.Admin.Facets") false None;
  MkProperty (lit "Ice.Admin.InstanceName") false None;
  MkProperty (lit "Ice.Admin.ServerId") false None;
  MkProperty (lit "Ice.BackgroundLocatorCacheUpdates") false None;
  MkProperty (lit "Ice.BatchAutoFlush") false None;
  MkProperty (lit "Ice.ChangeUser") false None;
  MkProperty (lit "Ice.ClientAccessPolicyProtocol") false None;
  MkProperty (lit "Ice.Compression.Level") false None;
  MkProperty (lit "Ice.Config") false None;
  MkProperty (lit "Ice.ConsoleListener") false None;
  MkProperty (lit "Ice.Default.CollocationOptimized") false None;
  MkProperty (lit "Ice.Default.EncodingVersion") false None;
  MkProperty (lit "Ice.Default.EndpointSelection") false None;
  MkProperty (lit "Ice.Default.Host") false None;
  MkProperty (lit "Ice.Default.Locator.EndpointSelection") false None;
  MkProperty (lit "Ice.Default.Locator.ConnectionCached") false None;
  MkProperty (lit "Ice.Default.Locator.PreferSecure") false None;
  MkProperty (lit "Ice.Default.Locator.LocatorCacheTimeout") false None;
  MkProperty (lit "Ice.Default.Locator.Locator") false None;
  MkProperty (lit "Ice.Default.Locator.Router") false None;
  MkProperty (lit "Ice.Default.Locator.CollocationOptimized") false None;
  MkProperty (lit "Ice.Default.Locator") false None;
  MkProperty (lit "Ice.Default.LocatorCacheTimeout") false None;
  MkProperty (lit "Ice.Default.Package") false None;
  MkProperty (lit "Ice.Default.PreferSecure") false None;
  MkProperty (lit "Ice.Default.Protocol") false None;
  MkProperty (lit "Ice.Default.Router.EndpointSelection") false None;
  MkProperty (lit "Ice.Default.Router.ConnectionCached") false None;
  MkProperty (lit "Ice.Default.Router.PreferSecure") false None;
  MkProperty (lit "Ice.Default.Router.LocatorCacheTimeout") false None;
  MkProperty (lit "Ice.Default.Router.Locator") false None;
  MkProperty (lit "Ice.Default.Router.Router") false None;
  MkProperty (lit "Ice.Default.Router.CollocationOptimized") false None;
  MkProperty (lit "Ice.Default.Router") false None;
  MkProperty (lit "Ice.Default.SlicedFormat") false None;
  MkProperty (lit "Ice.IPv4") false None;
  MkProperty (lit "Ice.IPv6") false None;
  MkProperty (lit "Ice.EventLog.Source") false None;
  MkProperty (lit "Ice.FactoryAssemblies") false None;
  MkProperty (lit "Ice.GC.Interval") false None;
  MkProperty (lit "Ice.ImplicitContext") false None;
  MkProperty (lit "Ice.InitPlugins") false None;
  MkProperty (lit "Ice.LogFile") false None;
  MkProperty (lit "Ice.MessageSizeMax") false None;
  MkProperty (lit "Ice.MonitorConnections") false None;
  MkProperty (lit "Ice.Nohup") false None;
  MkProperty (lit "Ice.NullHandleAbort") false None;
  MkProperty (lit "Ice.Override.CloseTimeout") false None;
  MkProperty (lit "Ice.Override.Compress") false None;
  MkProperty (lit "Ice.Override.ConnectTimeout") false None;
  MkProperty (lit "Ice.Override.Timeout") false None;
  MkProperty (lit "Ice.Override.Secure") false None;
  MkProperty (lit "Ice.Package.*") false None;
  MkProperty (lit "Ice.Plugin.*") false None;
  MkProperty (lit "Ice.PluginLoadOrder") false None;
  MkProperty (lit "Ice.PreferIPv6Address") false None;
  MkProperty (lit "Ice.PrintAdapterReady") false None;
  MkProperty (lit "Ice.PrintProcessId") false None;
  MkProperty (lit "Ice.PrintStackTraces") false None;
  MkProperty (lit "Ice.ProgramName") false None;
  MkProperty (lit "Ice.RetryIntervals") false None;
  MkProperty (lit "Ice.ServerIdleTime") false None;
  MkProperty (lit "Ice.SOCKSProxyHost") false None;
  MkProperty (lit "Ice.SOCKSProxyPort") false None;
  MkProperty (lit "Ice.StdErr") false None;
  MkProperty (lit "Ice.StdOut") false None;
  MkProperty (lit "Ice.SyslogFacility") false None;
  MkProperty (lit "Ice.ThreadPool.Client.Size") false None;
  MkProperty (lit "Ice.ThreadPool.Client.SizeMax") false None;
  MkProperty (lit "Ice.ThreadPool.Client.SizeWarn") false None;
  MkProperty (lit "Ice.ThreadPool.Client.StackSize") false None;
  MkProperty (lit "Ice.ThreadPool.Client.Serialize") false None;
  MkProperty (lit "Ice.ThreadPool.Client.ThreadIdleTime") false None;
  MkProperty (lit "Ice.ThreadPool.Client.ThreadPriority") false None;
  MkProperty (lit "Ice.ThreadPool.Server.Size") false None;
  MkProperty (lit "Ice.ThreadPool.Server.SizeMax") false None;
  MkProperty (lit "Ice.ThreadPool.Server.SizeWarn") false None;
  MkProperty (lit "Ice.ThreadPool.Server.StackSize") false None;
  MkProperty (lit "Ice.ThreadPool.Server.Serialize") false None;
  MkProperty (lit "Ice.ThreadPool.Server.ThreadIdleTime") false None;
  MkProperty (lit "Ice.ThreadPool.Server.ThreadPriority") false None;
  MkProperty (lit "Ice.ThreadPriority") false None;
  MkProperty (lit "Ice.Trace.Admin.Properties") false None;
  MkProperty (lit "Ice.Trace.GC") false None;
  MkProperty (lit "Ice.Trace.Locator") false None;
  MkProperty (lit "Ice.Trace.Network") false None;
  MkProperty (lit "Ice.Trace.Protocol") false None;
  MkProperty (lit "Ice.Trace.Retry") false None;
  MkProperty (lit "Ice.Trace.Slicing") false None;
  MkProperty (lit "Ice.Trace.ThreadPool") false None;
  MkProperty (lit "Ice.UDP.RcvSize") false None;
  MkProperty (lit "Ice.UDP.SndSize") false None;
  MkProperty (lit "Ice.TCP.Backlog") false None;
  MkProperty (lit "Ice.TCP.RcvSize") false None;
  MkProperty (lit "Ice.TCP.SndSize") false None;
  MkProperty (lit "Ice.UseApplicationClassLoader") false None;
  MkProperty (lit "Ice.UseSyslog") false None;
  MkProperty (lit "Ice.Warn.AMICallback") false None;
  MkProperty (lit "Ice.Warn.Connections") false None;
  MkProperty (lit "Ice.Warn.Datagrams") false None;
  MkProperty (lit "Ice.Warn.Dispatch") false None;
  MkProperty (lit "Ice.Warn.Endpoints") false None;
  MkProperty (lit "Ice.Warn.UnknownProperties") false None;
  MkProperty (lit "Ice.Warn.UnusedProperties") false None;
  MkProperty (lit "Ice.CacheMessageBuffers") false None;
  MkProperty (lit "Ice.Voip") false None
].

Definition IceMXPropsData : list Property := [
  MkProperty (lit "IceMX.Metrics.*.GroupBy") false None;
  MkProperty (lit "IceMX.Metrics.*.Map") false None;
  MkProperty (lit "IceMX.Metrics.*.RetainDetached") false None;
  MkProperty (lit "IceMX.Metrics.*.Accept") false None;
  MkProperty (lit "IceMX.Metrics.*.Reject") false None;
  MkProperty (lit "IceMX.Metrics.*") false None
].

Definition IceBoxPropsData : list Property := [
  MkProperty (lit "IceBox.InheritProperties") false None;
  MkProperty (lit "IceBox.InstanceName") false None;
  MkProperty (lit "IceBox.LoadOrder") false None;
  MkProperty (lit "IceBox.PrintServicesReady") false None;
  MkProperty (lit "IceBox.Service.*") false None;
  MkProperty (lit "IceBox.ServiceManager.ACM") false None;
  MkProperty (lit "IceBox.ServiceManager.AdapterId") false None;
  MkProperty (lit "IceBox.ServiceManager.Endpoints") false None;
  MkProperty (lit "IceBox.ServiceManager.Locator.EndpointSelection") false None;
  MkProperty (lit "IceBox.ServiceManager.Locator.ConnectionCached") false None;
  MkProperty (lit "IceBox.ServiceManager.Locator.PreferSecure") false None;
  MkProperty (lit "IceBox.ServiceManager.Locator.LocatorCacheTimeout") false None;
  MkProperty (lit "IceBox.ServiceManager.Locator.Locator") false None;
  MkProperty (lit "IceBox.ServiceManager.Locator.Router") false None;
  MkProperty (lit "IceBox.ServiceManager.Locator.CollocationOptimized") false None;
  MkProperty (lit "IceBox.ServiceManager.Locator") false None;
  MkProperty (lit "IceBox.ServiceManager.PublishedEndpoints") false None;
  MkProperty (lit "IceBox.ServiceManager.ReplicaGroupId") false None;
  MkProperty (lit "IceBox.ServiceManager.Router.EndpointSelection") false None;
  MkProperty (lit "IceBox.ServiceManager.Router.ConnectionCached") false None;
  MkProperty (lit "IceBox.ServiceManager.Router.PreferSecure") false None;
  MkProperty (lit "IceBox.ServiceManager.Router.LocatorCacheTimeout") false None;
  MkProperty (lit "IceBox.ServiceManager.Router.Locator") false None;
  MkProperty (lit "IceBox.ServiceManager.Router.Router") false None;
  MkProperty (lit "IceBox.ServiceManager.Router.CollocationOptimized") false None;
  MkProperty (lit "IceBox.ServiceManager.Router") false None;
  MkProperty (lit "IceBox.ServiceManager.ProxyOptions") false None;
  MkProperty (lit "IceBox.ServiceManager.ThreadPool.Size") false None;
  MkProperty (lit "IceBox.ServiceManager.ThreadPool.SizeMax") false None;
  MkProperty (lit "IceBox.ServiceManager.ThreadPool.SizeWarn") false None;
  MkProperty (lit "IceBox.ServiceManager.ThreadPool.StackSize") false None;
  MkProperty (lit "IceBox.ServiceManager.ThreadPool.Serialize") false None;
  MkProperty (lit "IceBox.ServiceManager.ThreadPool.ThreadIdleTime") false None;
  MkProperty (lit "IceBox.ServiceManager.ThreadPool.ThreadPriority") false None;
  MkProperty (lit "IceBox.Trace.ServiceObserver") false None;
  MkProperty (lit "IceBox.UseSharedCommunicator.*") false None
].

Definition IceBoxAdminPropsData : list Property := [
  MkProperty (lit "IceBoxAdmin.ServiceManager.Proxy.EndpointSelection") false None;
  MkProperty (lit "IceBoxAdmin.ServiceManager.Proxy.ConnectionCached") false None;
  MkProperty (lit "IceBoxAdmin.ServiceManager.Proxy.PreferSecure") false None;
  MkProperty (lit "IceBoxAdmin.ServiceManager.Proxy.LocatorCacheTimeout") false None;
  MkProperty (lit "IceBoxAdmin.ServiceManager.Proxy.Locator") false None;
  MkProperty (lit "IceBoxAdmin.ServiceManager.Proxy.Router") false None;
  MkProperty (lit "IceBoxAdmin.ServiceManager.Proxy.CollocationOptimized") false None;
  MkProperty (lit "IceBoxAdmin.ServiceManager.Proxy") false None
].

Definition IceGridAdminPropsData : list Property := [
  MkProperty (lit "IceGridAdmin.AuthenticateUsingSSL") false None;
  MkProperty (lit "IceGridAdmin.MetricsConfig") false None;
  MkProperty (lit "IceGridAdmin.Username") false None;
  MkProperty (lit "IceGridAdmin.Password") false None;
  MkProperty (lit "IceGridAdmin.Replica") false None;
  MkProperty (lit "IceGridAdmin.Trace.Observers") false None;
  MkProperty (lit "IceGridAdmin.Trace.SaveToRegistry") false None
].

Definition IceGridPropsData : list Property := [
  MkProperty (lit "IceGrid.AdminRouter.ACM") false None;
  MkProperty (lit "IceGrid.AdminRouter.AdapterId") false None;
  MkProperty (lit "IceGrid.AdminRouter.Endpoints") false None;
  MkProperty (lit "IceGrid.AdminRouter.Locator.EndpointSelection") false None;
  MkProperty (lit "IceGrid.AdminRouter.Locator.ConnectionCached") false None;
  MkProperty (lit "IceGrid.AdminRouter.Locator.PreferSecure") false None;
  MkProperty (lit "IceGrid.AdminRouter.Locator.LocatorCacheTimeout") false None;
  MkProperty (lit "IceGrid.AdminRouter.Locator.Locator") false None;
  MkProperty (lit "IceGrid.AdminRouter.Locator.Router") false None;
  MkProperty (lit "IceGrid.AdminRouter.Locator.CollocationOptimized") false None;
  MkProperty (lit "IceGrid.AdminRouter.Locator") false None;
  MkProperty (lit "IceGrid.AdminRouter.PublishedEndpoints") false None;
  MkProperty (lit "IceGrid.AdminRouter.ReplicaGroupId") false None;
  MkProperty (lit "IceGrid.AdminRouter.Router.EndpointSelection") false None;
  MkProperty (lit "IceGrid.AdminRouter.Router.ConnectionCached") false None;
  MkProperty (lit "IceGrid.AdminRouter.Router.PreferSecure") false None;
  MkProperty (lit "IceGrid.AdminRouter.Router.LocatorCacheTimeout") false None;
  MkProperty (lit "IceGrid.AdminRouter.Router.Locator") false None;
  MkProperty (lit "IceGrid.AdminRouter.Router.Router") false None;
  MkProperty (lit "IceGrid.AdminRouter.Router.CollocationOptimized") false None;
  MkProperty (lit "IceGrid.AdminRouter.Router") false None;
  MkProperty (lit "IceGrid.AdminRouter.ProxyOptions") false None;
  MkProperty (lit "IceGrid.AdminRouter.ThreadPool.Size") false None;
  MkProperty (lit "IceGrid.AdminRouter.ThreadPool.SizeMax") false None;
  MkProperty (lit "IceGrid.AdminRouter.ThreadPool.SizeWarn") false None;
  MkProperty (lit "IceGrid.AdminRouter.ThreadPool.StackSize") false None;
  MkProperty (lit "IceGrid.AdminRouter.ThreadPool.Serialize") false None;
  MkProperty (lit "IceGrid.AdminRouter.ThreadPool.ThreadIdleTime") false None;
  MkProperty (lit "IceGrid.AdminRouter.ThreadPool.ThreadPriority") false None;
  MkProperty (lit "IceGrid.InstanceName") false None;
  MkProperty (lit "IceGrid.Node.ACM") false None;
  MkProperty (lit "IceGrid.Node.AdapterId") false None;
  MkProperty (lit "IceGrid.Node.Endpoints") false None;
  MkProperty (lit "IceGrid.Node.Locator.EndpointSelection") false None;
  MkProperty (lit "IceGrid.Node.Locator.ConnectionCached") false None;
  MkProperty (lit "IceGrid.Node.Locator.PreferSecure") false None;
  MkProperty (lit "IceGrid.Node.Locator.LocatorCacheTimeout") false None;
  MkProperty (lit "IceGrid.Node.Locator.Locator") false None;
  MkProperty (lit "IceGrid.Node.Locator.Router") false None;
  MkProperty (lit "IceGrid.Node.Locator.CollocationOptimized") false None;
  MkProperty (lit "IceGrid.Node.Locator") false None;
  MkProperty (lit "IceGrid.Node.PublishedEndpoints") false None;
  MkProperty (lit "IceGrid.Node.ReplicaGroupId") false None;
  MkProperty (lit "IceGrid.Node.Router.EndpointSelection") false None;
  MkProperty (lit "IceGrid.Node.Router.ConnectionCached") false None;
  MkProperty (lit "IceGrid.Node.Router.PreferSecure") false None;
  MkProperty (lit "IceGrid.Node.Router.LocatorCacheTimeout") false None;
  MkProperty (lit "IceGrid.Node.Router.Locator") false None;
  MkProperty (lit "IceGrid.Node.Router.Router") false None;
  MkProperty (lit "IceGrid.Node.Router.CollocationOptimized") false None;
  MkProperty (lit "IceGrid.Node.Router") false None;
  MkProperty (lit "IceGrid.Node.ProxyOptions") false None;
  MkProperty (lit "IceGrid.Node.ThreadPool.Size") false None;
  MkProperty (lit "IceGrid.Node.ThreadPool.SizeMax") false None;
  MkProperty (lit "IceGrid.Node.ThreadPool.SizeWarn") false None;
  MkProperty (lit "IceGrid.Node.ThreadPool.StackSize") false None;
  MkProperty (lit "IceGrid.Node.ThreadPool.Serialize") false None;
  MkProperty (lit "IceGrid.Node.ThreadPool.ThreadIdleTime") false None;
  MkProperty (lit "IceGrid.Node.ThreadPool.ThreadPriority") false None;
  MkProperty (lit "IceGrid.Node.AllowRunningServersAsRoot") false None;
  MkProperty (lit "IceGrid.Node.AllowEndpointsOverride") false None;
  MkProperty (lit "IceGrid.Node.CollocateRegistry") false None;
  MkProperty (lit "IceGrid.Node.Data") false None;
  MkProperty (lit "IceGrid.Node.DisableOnFailure") false None;
  MkProperty (lit "IceGrid.Node.Name") false None;
  MkProperty (lit "IceGrid.Node.Output") false None;
  MkProperty (lit "IceGrid.Node.ProcessorSocketCount") false None;
  MkProperty (lit "IceGrid.Node.PrintServersReady") false None;
  MkProperty (lit "IceGrid.Node.PropertiesOverride") false None;
  MkProperty (lit "IceGrid.Node.RedirectErrToOut") false None;
  MkProperty (lit "IceGrid.Node.Trace.Activator") false None;
  MkProperty (lit "IceGrid.Node.Trace.Adapter") false None;
  MkProperty (lit "IceGrid.Node.Trace.Patch") false None;
  MkProperty (lit "IceGrid.Node.Trace.Replica") false None;
  MkProperty (lit "IceGrid.Node.Trace.Server") false None;
  MkProperty (lit "IceGrid.Node.UserAccounts") false None;
  MkProperty (lit "IceGrid.Node.UserAccountMapper.EndpointSelection") false None;
  MkProperty (lit "IceGrid.Node.UserAccountMapper.ConnectionCached") false None;
  MkProperty (lit "IceGrid.Node.UserAccountMapper.PreferSecure") false None;
  MkProperty (lit "IceGrid.Node.UserAccountMapper.LocatorCacheTimeout") false None;
  MkProperty (lit "IceGrid.Node.UserAccountMapper.Locator") false None;
  MkProperty (lit "IceGrid.Node.UserAccountMapper.Router") false None;
  MkProperty (lit "IceGrid.Node.UserAccountMapper.CollocationOptimized") false None;
  MkProperty (lit "IceGrid.Node.UserAccountMapper") false None;
  MkProperty (lit "IceGrid.Node.WaitTime") false None;
  MkProperty (lit "IceGrid.Registry.AdminCryptPasswords") false None;
  MkProperty (lit "IceGrid.Registry.AdminPermissionsVerifier.EndpointSelection") false None;
  MkProperty (lit "IceGrid.Registry.AdminPermissionsVerifier.ConnectionCached") false None;
  MkProperty (lit "IceGrid.Registry.AdminPermissionsVerifier.PreferSecure") false None;
  MkProperty (lit "IceGrid.Registry.AdminPermissionsVerifier.LocatorCacheTimeout") false None;
  MkProperty (lit "IceGrid.Registry.AdminPermissionsVerifier.Locator") false None;
  MkProperty (lit "IceGrid.Registry.AdminPermissionsVerifier.Router") false None;
  MkProperty (lit "IceGrid.Registry.AdminPermissionsVerifier.CollocationOptimized") false None;
  MkProperty (lit "IceGrid.Registry.AdminPermissionsVerifier") false None;
  MkProperty (lit "IceGrid.Registry.AdminSessionFilters") false None;
  MkProperty (lit "IceGrid.Registry.AdminSessionManager.ACM") false None;
  MkProperty (lit "IceGrid.Registry.AdminSessionManager.AdapterId") false None;
  MkProperty (lit "IceGrid.Registry.AdminSessionManager.Endpoints") false None;
  MkProperty (lit "IceGrid.Registry.AdminSessionManager.Locator.EndpointSelection") false None;
  MkProperty (lit "IceGrid.Registry.AdminSessionManager.Locator.ConnectionCached") false None;
  MkProperty (lit "IceGrid.Registry.AdminSessionManager.Locator.PreferSecure") false None;
  MkProperty (lit "IceGrid.Registry.AdminSessionManager.Locator.LocatorCacheTimeout") false None;
  MkProperty (lit "IceGrid.Registry.AdminSessionManager.Locator.Locator") false None;
  MkProperty (lit "IceGrid.Registry.AdminSessionManager.Locator.Router") false None;
  MkProperty (lit "IceGrid.Registry.AdminSessionManager.Locator.CollocationOptimized") false None;
  MkProperty (lit "IceGrid.Registry.AdminSessionManager.Locator") false None;
  MkProperty (lit "IceGrid.Registry.AdminSessionManager.PublishedEndpoints") false None;
  MkProperty (lit "IceGrid.Registry.AdminSessionManager.ReplicaGroupId") false None;
  MkProperty (lit "IceGrid.Registry.AdminSessionManager.Router.EndpointSelection") false None;
  MkProperty (lit "IceGrid.Registry.AdminSessionManager.Router.ConnectionCached") false None;
  MkProperty (lit "IceGrid.Registry.AdminSessionManager.Router.PreferSecure") false None;
  MkProperty (lit "IceGrid.Registry.AdminSessionManager.Router.LocatorCacheTimeout") false None;
  MkProperty (lit "IceGrid.Registry.AdminSessionManager.Router.Locator") false None;
  MkProperty (lit "IceGrid.Registry.AdminSessionManager.Router.Router") false None;
  MkProperty (lit "IceGrid.Registry.AdminSessionManager.Router.CollocationOptimized") false None;
  MkProperty (lit "IceGrid.Registry.AdminSessionManager.Router") false None;
  MkProperty (lit "IceGrid.Registry.AdminSessionManager.ProxyOptions") false None;
  MkProperty (lit "IceGrid.Registry.AdminSessionManager.ThreadPool.Size") false None;
  MkProperty (lit "IceGrid.Registry.AdminSessionManager.ThreadPool.SizeMax") false None;
  MkProperty (lit "IceGrid.Registry.AdminSessionManager.ThreadPool.SizeWarn") false None;
  MkProperty (lit "IceGrid.Registry.AdminSessionManager.ThreadPool.StackSize") false None;
  MkProperty (lit "IceGrid.Registry.AdminSessionManager.ThreadPool.Serialize") false None;
  MkProperty (lit "IceGrid.Registry.AdminSessionManager.ThreadPool.ThreadIdleTime") false None;
  MkProperty (lit "IceGrid.Registry.AdminSessionManager.ThreadPool.ThreadPriority") false None;
  MkProperty (lit "IceGrid.Registry.AdminSSLPermissionsVerifier.EndpointSelection") false None;
  MkProperty (lit "IceGrid.Registry.AdminSSLPermissionsVerifier.ConnectionCached") false None;
  MkProperty (lit "IceGrid.Registry.AdminSSLPermissionsVerifier.PreferSecure") false None;
  MkProperty (lit "IceGrid.Registry.AdminSSLPermissionsVerifier.LocatorCacheTimeout") false None;
  MkProperty (lit "IceGrid.Registry.AdminSSLPermissionsVerifier.Locator") false None;
  MkProperty (lit "IceGrid.Registry.AdminSSLPermissionsVerifier.Router") false None;
  MkProperty (lit "IceGrid.Registry.AdminSSLPermissionsVerifier.CollocationOptimized") false None;
  MkProperty (lit "IceGrid.Registry.AdminSSLPermissionsVerifier") false None;
  MkProperty (lit "IceGrid.Registry.Client.ACM") false None;
  MkProperty (lit "IceGrid.Registry.Client.AdapterId") false None;
  MkProperty (lit "IceGrid.Registry.Client.Endpoints") false None;
  MkProperty (lit "IceGrid.Registry.Client.Locator.EndpointSelection") false None;
  MkProperty (lit "IceGrid.Registry.Client.Locator.ConnectionCached") false None;
  MkProperty (lit "IceGrid.Registry.Client.Locator.PreferSecure") false None;
  MkProperty (lit "IceGrid.Registry.Client.Locator.LocatorCacheTimeout") false None;
  MkProperty (lit "IceGrid.Registry.Client.Locator.Locator") false None;
  MkProperty (lit "IceGrid.Registry.Client.Locator.Router") false None;
  MkProperty (lit "IceGrid.Registry.Client.Locator.CollocationOptimized") false None;
  MkProperty (lit "IceGrid.Registry.Client.Locator") false None;
  MkProperty (lit "IceGrid.Registry.Client.PublishedEndpoints") false None;
  MkProperty (lit "IceGrid.Registry.Client.ReplicaGroupId") false None;
  MkProperty (lit "IceGrid.Registry.Client.Router.EndpointSelection") false None;
  MkProperty (lit "IceGrid.Registry.Client.Router.ConnectionCached") false None;
  MkProperty (lit "IceGrid.Registry.Client.Router.PreferSecure") false None;
  MkProperty (lit "IceGrid.Registry.Client.Router.LocatorCacheTimeout") false None;
  MkProperty (lit "IceGrid.Registry.Client.Router.Locator") false None;
  MkProperty (lit "IceGrid.Registry.Client.Router.Router") false None;
  MkProperty (lit "IceGrid.Registry.Client.Router.CollocationOptimized") false None;
  MkProperty (lit "IceGrid.Registry.Client.Router") false None;
  MkProperty (lit "IceGrid.Registry.Client.ProxyOptions") false None;
  MkProperty (lit "IceGrid.Registry.Client.ThreadPool.Size") false None;
  MkProperty (lit "IceGrid.Registry.Client.ThreadPool.SizeMax") false None;
  MkProperty (lit "IceGrid.Registry.Client.ThreadPool.SizeWarn") false None;
  MkProperty (lit "IceGrid.Registry.Client.ThreadPool.StackSize") false None;
  MkProperty (lit "IceGrid.Registry.Client.ThreadPool.Serialize") false None;
  MkProperty (lit "IceGrid.Registry.Client.ThreadPool.ThreadIdleTime") false None;
  MkProperty (lit "IceGrid.Registry.Client.ThreadPool.ThreadPriority") false None;
  MkProperty (lit "IceGrid.Registry.CryptPasswords") false None;
  MkProperty (lit "IceGrid.Registry.Data") false None;
  MkProperty (lit "IceGrid.Registry.DefaultTemplates") false None;
  MkProperty (lit "IceGrid.Registry.DynamicRegistration") false None;
  MkProperty (lit "IceGrid.Registry.Internal.ACM") false None;
  MkProperty (lit "IceGrid.Registry.Internal.AdapterId") false None;
  MkProperty (lit "IceGrid.Registry.Internal.Endpoints") false None;
  MkProperty (lit "IceGrid.Registry.Internal.Locator.EndpointSelection") false None;
  MkProperty (lit "IceGrid.Registry.Internal.Locator.ConnectionCached") false None;
  MkProperty (lit "IceGrid.Registry.Internal.Locator.PreferSecure") false None;
  MkProperty (lit "IceGrid.Registry.Internal.Locator.LocatorCacheTimeout") false None;
  MkProperty (lit "IceGrid.Registry.Internal.Locator.Locator") false None;
  MkProperty (lit "IceGrid.Registry.Internal.Locator.Router") false None;
  MkProperty (lit "IceGrid.Registry.Internal.Locator.CollocationOptimized") false None;
  MkProperty (lit "IceGrid.Registry.Internal.Locator") false None;
  MkProperty (lit "IceGrid.Registry.Internal.PublishedEndpoints") false None;
  MkProperty (lit "IceGrid.Registry.Internal.ReplicaGroupId") false None;
  MkProperty (lit "IceGrid.Registry.Internal.Router.EndpointSelection") false None;
  MkProperty (lit "IceGrid.Registry.Internal.Router.ConnectionCached") false None;
  MkProperty (lit "IceGrid.Registry.Internal.Router.PreferSecure") false None;
  MkProperty (lit "IceGrid.Registry.Internal.Router.LocatorCacheTimeout") false None;
  MkProperty (lit "IceGrid.Registry.Internal.Router.Locator") false None;
  MkProperty (lit "IceGrid.Registry.Internal.Router.Router") false None;
  MkProperty (lit "IceGrid.Registry.Internal.Router.CollocationOptimized") false None;
  MkProperty (lit "IceGrid.Registry.Internal.Router") false None;
  MkProperty (lit "IceGrid.Registry.Internal.ProxyOptions") false None;
  MkProperty (lit "IceGrid.Registry.Internal.ThreadPool.Size") false None;
  MkProperty (lit "IceGrid.Registry.Internal.ThreadPool.SizeMax") false None;
  MkProperty (lit "IceGrid.Registry.Internal.ThreadPool.SizeWarn") false None;
  MkProperty (lit "IceGrid.Registry.Internal.ThreadPool.StackSize") false None;
  MkProperty (lit "IceGrid.Registry.Internal.ThreadPool.Serialize") false None;
  MkProperty (lit "IceGrid.Registry.Internal.ThreadPool.ThreadIdleTime") false None;
  MkProperty (lit "IceGrid.Registry.Internal.ThreadPool.ThreadPriority") false None;
  MkProperty (lit "IceGrid.Registry.NodeSessionTimeout") false None;
  MkProperty (lit "IceGrid.Registry.PermissionsVerifier.EndpointSelection") false None;
  MkProperty (lit "IceGrid.Registry.PermissionsVerifier.ConnectionCached") false None;
  MkProperty (lit "IceGrid.Registry.PermissionsVerifier.PreferSecure") false None;
  MkProperty (lit "IceGrid.Registry.PermissionsVerifier.LocatorCacheTimeout") false None;
  MkProperty (lit "IceGrid.Registry.PermissionsVerifier.Locator") false None;
  MkProperty (lit "IceGrid.Registry.PermissionsVerifier.Router") false None;
  MkProperty (lit "IceGrid.Registry.PermissionsVerifier.CollocationOptimized") false None;
  MkProperty (lit "IceGrid.Registry.PermissionsVerifier") false None;
  MkProperty (lit "IceGrid.Registry.ReplicaName") false None;
  MkProperty (lit "IceGrid.Registry.ReplicaSessionTimeout") false None;
  MkProperty (lit "IceGrid.Registry.RequireNodeCertCN") false None;
  MkProperty (lit "IceGrid.Registry.RequireReplicaCertCN") false None;
  MkProperty (lit "IceGrid.Registry.Server.ACM") false None;
  MkProperty (lit "IceGrid.Registry.Server.AdapterId") false None;
  MkProperty (lit "IceGrid.Registry.Server.Endpoints") false None;
  MkProperty (lit "IceGrid.Registry.Server.Locator.EndpointSelection") false None;
  MkProperty (lit "IceGrid.Registry.Server.Locator.ConnectionCached") false None;
  MkProperty (lit "IceGrid.Registry.Server.Locator.PreferSecure") false None;
  MkProperty (lit "IceGrid.Registry.Server.Locator.LocatorCacheTimeout") false None;
  MkProperty (lit "IceGrid.Registry.Server.Locator.Locator") false None;
  MkProperty (lit "IceGrid.Registry.Server.Locator.Router") false None;
  MkProperty (lit "IceGrid.Registry.Server.Locator.CollocationOptimized") false None;
  MkProperty (lit "IceGrid.Registry.Server.Locator") false None;
  MkProperty (lit "IceGrid.Registry.Server.PublishedEndpoints") false None;
  MkProperty (lit "IceGrid.Registry.Server.ReplicaGroupId") false None;
  MkProperty (lit "IceGrid.Registry.Server.Router.EndpointSelection") false None;
  MkProperty (lit "IceGrid.Registry.Server.Router.ConnectionCached") false None;
  MkProperty (lit "IceGrid.Registry.Server.Router.PreferSecure") false None;
  MkProperty (lit "IceGrid.Registry.Server.Router.LocatorCacheTimeout") false None;
  MkProperty (lit "IceGrid.Registry.Server.Router.Locator") false None;
  MkProperty (lit "IceGrid.Registry.Server.Router.Router") false None;
  MkProperty (lit "IceGrid.Registry.Server.Router.CollocationOptimized") false None;
  MkProperty (lit "IceGrid.Registry.Server.Router") false None;
  MkProperty (lit "IceGrid.Registry.Server.ProxyOptions") false None;
  MkProperty (lit "IceGrid.Registry.Server.ThreadPool.Size") false None;
  MkProperty (lit "IceGrid.Registry.Server.ThreadPool.SizeMax") false None;
  MkProperty (lit "IceGrid.Registry.Server.ThreadPool.SizeWarn") false None;
  MkProperty (lit "IceGrid.Registry.Server.ThreadPool.StackSize") false None;
  MkProperty (lit "IceGrid.Registry.Server.ThreadPool.Serialize") false None;
  MkProperty (lit "IceGrid.Registry.Server.ThreadPool.ThreadIdleTime") false None;
  MkProperty (lit "IceGrid.Registry.Server.ThreadPool.ThreadPriority") false None;
  MkProperty (lit "IceGrid.Registry.SessionFilters") false None;
  MkProperty (lit "IceGrid.Registry.SessionManager.ACM") false None;
  MkProperty (lit "IceGrid.Registry.SessionManager.AdapterId") false None;
  MkProperty (lit "IceGrid.Registry.SessionManager.Endpoints") false None;
  MkProperty (lit "IceGrid.Registry.SessionManager.Locator.EndpointSelection") false None;
  MkProperty (lit "IceGrid.Registry.SessionManager.Locator.ConnectionCached") false None;
  MkProperty (lit "IceGrid.Registry.SessionManager.Locator.PreferSecure") false None;
  MkProperty (lit "IceGrid.Registry.SessionManager.Locator.LocatorCacheTimeout") false None;
  MkProperty (lit "IceGrid.Registry.SessionManager.Locator.Locator") false None;
  MkProperty (lit "IceGrid.Registry.SessionManager.Locator.Router") false None;
  MkProperty (lit "IceGrid.Registry.SessionManager.Locator.CollocationOptimized") false None;
  MkProperty (lit "IceGrid.Registry.SessionManager.Locator") false None;
  MkProperty (lit "IceGrid.Registry.SessionManager.PublishedEndpoints") false None;
  MkProperty (lit "IceGrid.Registry.SessionManager.ReplicaGroupId") false None;
  MkProperty (lit "IceGrid.Registry.SessionManager.Router.EndpointSelection") false None;
  MkProperty (lit "IceGrid.Registry.SessionManager.Router.ConnectionCached") false None;
  MkProperty (lit "IceGrid.Registry.SessionManager.Router.PreferSecure") false None;
  MkProperty (lit "IceGrid.Registry.SessionManager.Router.LocatorCacheTimeout") false None;
  MkProperty (lit "IceGrid.Registry.SessionManager.Router.Locator") false None;
  MkProperty (lit "IceGrid.Registry.SessionManager.Router.Router") false None;
  MkProperty (lit "IceGrid.Registry.SessionManager.Router.CollocationOptimized") false None;
  MkProperty (lit "IceGrid.Registry.SessionManager.Router") false None;
  MkProperty (lit "IceGrid.Registry.SessionManager.ProxyOptions") false None;
  MkProperty (lit "IceGrid.Registry.SessionManager.ThreadPool.Size") false None;
  MkProperty (lit "IceGrid.Registry.SessionManager.ThreadPool.SizeMax") false None;
  MkProperty (lit "IceGrid.Registry.SessionManager.ThreadPool.SizeWarn") false None;
  MkProperty (lit "IceGrid.Registry.SessionManager.ThreadPool.StackSize") false None;
  MkProperty (lit "IceGrid.Registry.SessionManager.ThreadPool.Serialize") false None;
  MkProperty (lit "IceGrid.Registry.SessionManager.ThreadPool.ThreadIdleTime") false None;
  MkProperty (lit "IceGrid.Registry.SessionManager.ThreadPool.ThreadPriority") false None;
  MkProperty (lit "IceGrid.Registry.SessionTimeout") false None;
  MkProperty (lit "IceGrid.Registry.SSLPermissionsVerifier.EndpointSelection") false None;
  MkProperty (lit "IceGrid.Registry.SSLPermissionsVerifier.ConnectionCached") false None;
  MkProperty (lit "IceGrid.Registry.SSLPermissionsVerifier.PreferSecure") false None;
  MkProperty (lit "IceGrid.Registry.SSLPermissionsVerifier.LocatorCacheTimeout") false None;
  MkProperty (lit "IceGrid.Registry.SSLPermissionsVerifier.Locator") false None;
  MkProperty (lit "IceGrid.Registry.SSLPermissionsVerifier.Router") false None;
  MkProperty (lit "IceGrid.Registry.SSLPermissionsVerifier.CollocationOptimized") false None;
  MkProperty (lit "IceGrid.Registry.SSLPermissionsVerifier") false None;
  MkProperty (lit "IceGrid.Registry.Trace.Application") false None;
  MkProperty (lit "IceGrid.Registry.Trace.Adapter") false None;
  MkProperty (lit "IceGrid.Registry.Trace.Locator") false None;
  MkProperty (lit "IceGrid.Registry.Trace.Node") false None;
  MkProperty (lit "IceGrid.Registry.Trace.Object") false None;
  MkProperty (lit "IceGrid.Registry.Trace.Patch") false None;
  MkProperty (lit "IceGrid.Registry.Trace.Replica") false None;
  MkProperty (lit "IceGrid.Registry.Trace.Server") false None;
  MkProperty (lit "IceGrid.Registry.Trace.Session") false None;
  MkProperty (lit "IceGrid.Registry.Trace.Subscriber") false None;
  MkProperty (lit "IceGrid.Registry.Trace.Topic") false None;
  MkProperty (lit "IceGrid.Registry.Trace.TopicManager") false None;
  MkProperty (lit "IceGrid.Registry.UserAccounts") false None;
  MkProperty (lit "IceGrid.SQL.DatabaseType") false None;
  MkProperty (lit "IceGrid.SQL.EncodingVersion") false None;
  MkProperty (lit "IceGrid.SQL.HostName") false None;
  MkProperty (lit "IceGrid.SQL.Port") false None;
  MkProperty (lit "IceGrid.SQL.DatabaseName") false None;
  MkProperty (lit "IceGrid.SQL.UserName") false None;
  MkProperty (lit "IceGrid.SQL.Password") false None
].

Definition IcePatch2PropsData : list Property := [
  MkProperty (lit "IcePatch2.ACM") false None;
  MkProperty (lit "IcePatch2.AdapterId") false None;
  MkProperty (lit "IcePatch2.Endpoints") false None;
  MkProperty (lit "IcePatch2.Locator.EndpointSelection") false None;
  MkProperty (lit "IcePatch2.Locator.ConnectionCached") false None;
  MkProperty (lit "IcePatch2.Locator.PreferSecure") false None;
  MkProperty (lit "IcePatch2.Locator.LocatorCacheTimeout") false None;
  MkProperty (lit "IcePatch2.Locator.Locator") false None;
  MkProperty (lit "IcePatch2.Locator.Router") false None;
  MkProperty (lit "IcePatch2.Locator.CollocationOptimized") false None;
  MkProperty (lit "IcePatch2.Locator") false None;
  MkProperty (lit "IcePatch2.PublishedEndpoints") false None;
  MkProperty (lit "IcePatch2.ReplicaGroupId") false None;
  MkProperty (lit "IcePatch2.Router.EndpointSelection") false None;
  MkProperty (lit "IcePatch2.Router.ConnectionCached") false None;
  MkProperty (lit "IcePatch2.Router.PreferSecure") false None;
  MkProperty (lit "IcePatch2.Router.LocatorCacheTimeout") false None;
  MkProperty (lit "IcePatch2.Router.Locator") false None;
  MkProperty (lit "IcePatch2.Router.Router") false None;
  MkProperty (lit "IcePatch2.Router.CollocationOptimized") false None;
  MkProperty (lit "IcePatch2.Router") false None;
  MkProperty (lit "IcePatch2.ProxyOptions") false None;
  MkProperty (lit "IcePatch2.ThreadPool.Size") false None;
  MkProperty (lit "IcePatch2.ThreadPool.SizeMax") false None;
  MkProperty (lit "IcePatch2.ThreadPool.SizeWarn") false None;
  MkProperty (lit "IcePatch2.ThreadPool.StackSize") false None;
  MkProperty (lit "IcePatch2.ThreadPool.Serialize") false None;
  MkProperty (lit "IcePatch2.ThreadPool.ThreadIdleTime") false None;
  MkProperty (lit "IcePatch2.ThreadPool.ThreadPriority") false None;
  MkProperty (lit "IcePatch2.ChunkSize") true (Some (lit "IcePatch2Client.ChunkSize"));
  MkProperty (lit "IcePatch2.Directory") false None;
  MkProperty (lit "IcePatch2.InstanceName") false None;
  MkProperty (lit "IcePatch2.Remove") true (Some (lit "IcePatch2Client.Remove"));
  MkProperty (lit "IcePatch2.Thorough") true (Some (lit "IcePatch2Client.Thorough"))
].

Definition IcePatch2ClientPropsData : list Property := [
  MkProperty (lit "IcePatch2Client.ChunkSize") false None;
  MkProperty (lit "IcePatch2Client.Directory") false None;
  MkProperty (lit "IcePatch2Client.Proxy") false None;
  MkProperty (lit "IcePatch2Client.Remove") false None;
  MkProperty (lit "IcePatch2Client.Thorough") false None
].

Definition IceSSLPropsData : list Property := [
  MkProperty (lit "IceSSL.Alias") false None;
  MkProperty (lit "IceSSL.CertAuthDir") false None;
  MkProperty (lit "IceSSL.CertAuthFile") false None;
  MkProperty (lit "IceSSL.CertFile") false None;
  MkProperty (lit "IceSSL.CertVerifier") false None;
  MkProperty (lit "IceSSL.CheckCertName") false None;
  MkProperty (lit "IceSSL.CheckCRL") false None;
  MkProperty (lit "IceSSL.Ciphers") false None;
  MkProperty (lit "IceSSL.DefaultDir") false None;
  MkProperty (lit "IceSSL.DH.*") false None;
  MkProperty (lit "IceSSL.EntropyDaemon") false None;
  MkProperty (lit "IceSSL.FindCert.*") false None;
  MkProperty (lit "IceSSL.ImportCert.*") false None;
  MkProperty (lit "IceSSL.InitOpenSSL") false None;
  MkProperty (lit "IceSSL.KeyFile") false None;
  MkProperty (lit "IceSSL.Keychain") false None;
  MkProperty (lit "IceSSL.KeychainPassword") false None;
  MkProperty (lit "IceSSL.KeySet") false None;
  MkProperty (lit "IceSSL.Keystore") false None;
  MkProperty (lit "IceSSL.KeystorePassword") false None;
  MkProperty (lit "IceSSL.KeystoreType") false None;
  MkProperty (lit "IceSSL.Password") false None;
  MkProperty (lit "IceSSL.PasswordCallback") false None;
  MkProperty (lit "IceSSL.PasswordRetryMax") false None;
  MkProperty (lit "IceSSL.PersistKeySet") false None;
  MkProperty (lit "IceSSL.Protocols") false None;
  MkProperty (lit "IceSSL.Random") false None;
  MkProperty (lit "IceSSL.Trace.Security") false None;
  MkProperty (lit "IceSSL.TrustOnly") false None;
  MkProperty (lit "IceSSL.TrustOnly.Client") false None;
  MkProperty (lit "IceSSL.TrustOnly.Server") false None;
  MkProperty (lit "IceSSL.TrustOnly.Server.*") false None;
  MkProperty (lit "IceSSL.Truststore") false None;
  MkProperty (lit "IceSSL.TruststorePassword") false None;
  MkProperty (lit "IceSSL.TruststoreType") false None;
  MkProperty (lit "IceSSL.VerifyDepthMax") false None;
  MkProperty (lit "IceSSL.VerifyPeer") false None
].

Definition IceStormAdminPropsData : list Property := [
  MkProperty (lit "IceStormAdmin.TopicManager.*") false None
].

Definition Glacier2PropsData : list Property := [
  MkProperty (lit "Glacier2.AddSSLContext") true None;
  MkProperty (lit "Glacier2.AddConnectionContext") false None;
  MkProperty (lit "Glacier2.Client.ACM") false None;
  MkProperty (lit "Glacier2.Client.AdapterId") false None;
  MkProperty (lit "Glacier2.Client.Endpoints") false None;
  MkProperty (lit "Glacier2.Client.Locator.EndpointSelection") false None;
  MkProperty (lit "Glacier2.Client.Locator.ConnectionCached") false None;
  MkProperty (lit "Glacier2.Client.Locator.PreferSecure") false None;
  MkProperty (lit "Glacier2.Client.Locator.LocatorCacheTimeout") false None;
  MkProperty (lit "Glacier2.Client.Locator.Locator") false None;
  MkProperty (lit "Glacier2.Client.Locator.Router") false None;
  MkProperty (lit "Glacier2.Client.Locator.CollocationOptimized") false None;
  MkProperty (lit "Glacier2.Client.Locator") false None;
  MkProperty (lit "Glacier2.Client.PublishedEndpoints") false None;
  MkProperty (lit "Glacier2.Client.ReplicaGroupId") false None;
  MkProperty (lit "Glacier2.Client.Router.EndpointSelection") false None;
  MkProperty (lit "Glacier2.Client.Router.ConnectionCached") false None;
  MkProperty (lit "Glacier2.Client.Router.PreferSecure") false None;
  MkProperty (lit "Glacier2.Client.Router.LocatorCacheTimeout") false None;
  MkProperty (lit "Glacier2.Client.Router.Locator") false None;
  MkProperty (lit "Glacier2.Client.Router.Router") false None;
  MkProperty (lit "Glacier2.Client.Router.CollocationOptimized") false None;
  MkProperty (lit "Glacier2.Client.Router") false None;
  MkProperty (lit "Glacier2.Client.ProxyOptions") false None;
  MkProperty (lit "Glacier2.Client.ThreadPool.Size") false None;
  MkProperty (lit "Glacier2.Client.ThreadPool.SizeMax") false None;
  MkProperty (lit "Glacier2.Client.ThreadPool.SizeWarn") false None;
  MkProperty (lit "Glacier2.Client.ThreadPool.StackSize") false None;
  MkProperty (lit "Glacier2.Client.ThreadPool.Serialize") false None;
  MkProperty (lit "Glacier2.Client.ThreadPool.ThreadIdleTime") false None;
  MkProperty (lit "Glacier2.Client.ThreadPool.ThreadPriority") false None;
  MkProperty (lit "Glacier2.Client.AlwaysBatch") false None;
  MkProperty (lit "Glacier2.Client.Buffered") false None;
  MkProperty (lit "Glacier2.Client.ForwardContext") false None;
  MkProperty (lit "Glacier2.Client.SleepTime") false None;
  MkProperty (lit "Glacier2.Client.Trace.Override") false None;
  MkProperty (lit "Glacier2.Client.Trace.Reject") false None;
  MkProperty (lit "Glacier2.Client.Trace.Request") false None;
  MkProperty (lit "Glacier2.Filter.Address.Reject") false None;
  MkProperty (lit "Glacier2.Filter.Address.Accept") false None;
  MkProperty (lit "Glacier2.Filter.ProxySizeMax") false None;
  MkProperty (lit "Glacier2.Filter.Category.Accept") false None;
  MkProperty (lit "Glacier2.Filter.Category.AcceptUser") false None;
  MkProperty (lit "Glacier2.Filter.AdapterId.Accept") false None;
  MkProperty (lit "Glacier2.Filter.Identity.Accept") false None;
  MkProperty (lit "Glacier2.CryptPasswords") false None;
  MkProperty (lit "Glacier2.InstanceName") false None;
  MkProperty (lit "Glacier2.PermissionsVerifier.EndpointSelection") false None;
  MkProperty (lit "Glacier2.PermissionsVerifier.ConnectionCached") false None;
  MkProperty (lit "Glacier2.PermissionsVerifier.PreferSecure") false None;
  MkProperty (lit "Glacier2.PermissionsVerifier.LocatorCacheTimeout") false None;
  MkProperty (lit "Glacier2.PermissionsVerifier.Locator") false None;
  MkProperty (lit "Glacier2.PermissionsVerifier.Router") false None;
  MkProperty (lit "Glacier2.PermissionsVerifier.CollocationOptimized") false None;
  MkProperty (lit "Glacier2.PermissionsVerifier") false None;
  MkProperty (lit "Glacier2.ReturnClientProxy") false None;
  MkProperty (lit "Glacier2.SSLPermissionsVerifier.EndpointSelection") false None;
  MkProperty (lit "Glacier2.SSLPermissionsVerifier.ConnectionCached") false None;
  MkProperty (lit "Glacier2.SSLPermissionsVerifier.PreferSecure") false None;
  MkProperty (lit "Glacier2.SSLPermissionsVerifier.LocatorCacheTimeout") false None;
  MkProperty (lit "Glacier2.SSLPermissionsVerifier.Locator") false None;
  MkProperty (lit "Glacier2.SSLPermissionsVerifier.Router") false None;
  MkProperty (lit "Glacier2.SSLPermissionsVerifier.CollocationOptimized") false None;
  MkProperty (lit "Glacier2.SSLPermissionsVerifier") false None;
  MkProperty (lit "Glacier2.RoutingTable.MaxSize") false None;
  MkProperty (lit "Glacier2.Server.ACM") false None;
  MkProperty (lit "Glacier2.Server.AdapterId") false None;
  MkProperty (lit "Glacier2.Server.Endpoints") false None;
  MkProperty (lit "Glacier2.Server.Locator.EndpointSelection") false None;
  MkProperty (lit "Glacier2.Server.Locator.ConnectionCached") false None;
  MkProperty (lit "Glacier2.Server.Locator.PreferSecure") false None;
  MkProperty (lit "Glacier2.Server.Locator.LocatorCacheTimeout") false None;
  MkProperty (lit "Glacier2.Server.Locator.Locator") false None;
  MkProperty (lit "Glacier2.Server.Locator.Router") false None;
  MkProperty (lit "Glacier2.Server.Locator.CollocationOptimized") false None;
  MkProperty (lit "Glacier2.Server.Locator") false None;
  MkProperty (lit "Glacier2.Server.PublishedEndpoints") false None;
  MkProperty (lit "Glacier2.Server.ReplicaGroupId") false None;
  MkProperty (lit "Glacier2.Server.Router.EndpointSelection") false None;
  MkProperty (lit "Glacier2.Server.Router.ConnectionCached") false None;
  MkProperty (lit "Glacier2.Server.Router.PreferSecure") false None;
  MkProperty (lit "Glacier2.Server.Router.LocatorCacheTimeout") false None;
  MkProperty (lit "Glacier2.Server.Router.Locator") false None;
  MkProperty (lit "Glacier2.Server.Router.Router") false None;
  MkProperty (lit "Glacier2.Server.Router.CollocationOptimized") false None;
  MkProperty (lit "Glacier2.Server.Router") false None;
  MkProperty (lit "Glacier2.Server.ProxyOptions") false None;
  MkProperty (lit "Glacier2.Server.ThreadPool.Size") false None;
  MkProperty (lit "Glacier2.Server.ThreadPool.SizeMax") false None;
  MkProperty (lit "Glacier2.Server.ThreadPool.SizeWarn") false None;
  MkProperty (lit "Glacier2.Server.ThreadPool.StackSize") false None;
  MkProperty (lit "Glacier2.Server.ThreadPool.Serialize") false None;
  MkProperty (lit "Glacier2.Server.ThreadPool.ThreadIdleTime") false None;
  MkProperty (lit "Glacier2.Server.ThreadPool.ThreadPriority") false None;
  MkProperty (lit "Glacier2.Server.AlwaysBatch") false None;
  MkProperty (lit "Glacier2.Server.Buffered") false None;
  MkProperty (lit "Glacier2.Server.ForwardContext") false None;
  MkProperty (lit "Glacier2.Server.SleepTime") false None;
  MkProperty (lit "Glacier2.Server.Trace.Override") false None;
  MkProperty (lit "Glacier2.Server.Trace.Request") false None;
  MkProperty (lit "Glacier2.SessionManager.EndpointSelection") false None;
  MkProperty (lit "Glacier2.SessionManager.ConnectionCached") false None;
  MkProperty (lit "Glacier2.SessionManager.PreferSecure") false None;
  MkProperty (lit "Glacier2.SessionManager.LocatorCacheTimeout") false None;
  MkProperty (lit "Glacier2.SessionManager.Locator") false None;
  MkProperty (lit "Glacier2.SessionManager.Router") false None;
  MkProperty (lit "Glacier2.SessionManager.CollocationOptimized") false None;
  MkProperty (lit "Glacier2.SessionManager") false None;
  MkProperty (lit "Glacier2.SSLSessionManager.EndpointSelection") false None;
  MkProperty (lit "Glacier2.SSLSessionManager.ConnectionCached") false None;
  MkProperty (lit "Glacier2.SSLSessionManager.PreferSecure") false None;
  MkProperty (lit "Glacier2.SSLSessionManager.LocatorCacheTimeout") false None;
  MkProperty (lit "Glacier2.SSLSessionManager.Locator") false None;
  MkProperty (lit "Glacier2.SSLSessionManager.Router") false None;
  MkProperty (lit "Glacier2.SSLSessionManager.CollocationOptimized") false None;
  MkProperty (lit "Glacier2.SSLSessionManager") false None;
  MkProperty (lit "Glacier2.SessionTimeout") false None;
  MkProperty (lit "Glacier2.Trace.RoutingTable") false None;
  MkProperty (lit "Glacier2.Trace.Session") false None
].

Definition FreezePropsData : list Property := [
  MkProperty (lit "Freeze.DbEnv.*.CheckpointPeriod") false None;
  MkProperty (lit "Freeze.DbEnv.*.DbHome") false None;
  MkProperty (lit "Freeze.DbEnv.*.DbPrivate") false None;
  MkProperty (lit "Freeze.DbEnv.*.DbRecoverFatal") false None;
  MkProperty (lit "Freeze.DbEnv.*.EncodingVersion") false None;
  MkProperty (lit "Freeze.DbEnv.*.LockFile") false None;
  MkProperty (lit "Freeze.DbEnv.*.OldLogsAutoDelete") false None;
  MkProperty (lit "Freeze.DbEnv.*.PeriodicCheckpointMinSize") false None;
  MkProperty (lit "Freeze.Evictor.*.BtreeMinKey") false None;
  MkProperty (lit "Freeze.Evictor.*.Checksum") false None;
  MkProperty (lit "Freeze.Evictor.*.MaxTxSize") false None;
  MkProperty (lit "Freeze.Evictor.*.PageSize") false None;
  MkProperty (lit "Freeze.Evictor.*.PopulateEmptyIndices") false None;
  MkProperty (lit "Freeze.Evictor.*.RollbackOnUserException") false None;
  MkProperty (lit "Freeze.Evictor.*.SavePeriod") false None;
  MkProperty (lit "Freeze.Evictor.*.SaveSizeTrigger") false None;
  MkProperty (lit "Freeze.Evictor.*.StreamTimeout") false None;
  MkProperty (lit "Freeze.Map.*.BtreeMinKey") false None;
  MkProperty (lit "Freeze.Map.*.Checksum") false None;
  MkProperty (lit "Freeze.Map.*.PageSize") false None;
  MkProperty (lit "Freeze.Trace.DbEnv") false None;
  MkProperty (lit "Freeze.Trace.Evictor") false None;
  MkProperty (lit "Freeze.Trace.Map") false None;
  MkProperty (lit "Freeze.Trace.Transaction") false None;
  MkProperty (lit "Freeze.Warn.Deadlocks") false None;
  MkProperty (lit "Freeze.Warn.Rollback") false None
].

(** The arrays end at a null pointer. *)
Definition validProps : list (list Property) :=
  [IcePropsData; IceMXPropsData; IceBoxPropsData; IceBoxAdminPropsData;
   IceGridAdminPropsData; IceGridPropsData; IcePatch2PropsData;
   IcePatch2ClientPropsData; IceSSLPropsData; IceStormAdminPropsData;
   Glacier2PropsData; FreezePropsData].

Definition clPropNames : list str :=
  [lit "Ice"; lit "IceMX"; lit "IceBox"; lit "IceBoxAdmin"; lit "IceGridAdmin"; lit
   "IceGrid"; lit "IcePatch2"; lit "IcePatch2Client"; lit "IceSSL"; lit
   "IceStormAdmin"; lit "Glacier2"; lit "Freeze"].
