(* ===== verification/Properties.v ===== *)
(** * Properties

    cpp/src/Ice/PropertiesI.cpp: the property set of a communicator, the parser
    of configuration lines, command-line options and configuration files. Each
    operation runs under the mutex of the set. The warnings go to the logger of
    the process, of which the state keeps the text. *)

From S2P Require Import Prelude CxxString Stream StringUtil OrderedMap Identity PropertyNames.

Record PropertyValue : Type := MkValue { value_ : str; used : bool }.

Record PropertiesI : Type := MkProperties {
  properties_ : gmap str PropertyValue;
  converter_ : option (StringConverter ascii);
  warnings_ : list str                      (** what [getProcessLogger()] was given *)
}.

Definition set_properties (m : gmap str PropertyValue) (s : PropertiesI) : PropertiesI :=
  MkProperties m (converter_ s) (warnings_ s).

Abbreviation Props := (M PropertiesI).

Definition warning (msg : str) : Props unit :=
  modify (fun s => MkProperties (properties_ s) (converter_ s) (warnings_ s ++ [msg])).

(** [p->second.used = true] for the entry [p] of [key] *)
Definition mark_used (key : str) : Props unit :=
  modify (fun s => set_properties (alter (fun p => MkValue (value_ p) true) key (properties_ s)) s).

(** ** Reading *)

Definition getPropertyWithDefault (key value : str) : Props str :=
  s ← get;
  match properties_ s !! key with
  | Some p => mark_used key;; mret (value_ p)
  | None => mret value
  end.

Definition getProperty (key : str) : Props str :=
  s ← get;
  match properties_ s !! key with
  | Some p => mark_used key;; mret (value_ p)
  | None => mret []
  end.

Definition getPropertyAsIntWithDefault (key : str) (value : Z) : Props Z :=
  s ← get;
  match properties_ s !! key with
  | Some p =>
      mark_used key;;
      match istream_int_eof (value_ p) with
      | Some v => mret v
      | None =>
          warning (lit "numeric property " ++ key ++ lit " set to non-numeric value, defaulting to "
                   ++ show_int value);;
          mret value
      end
  | None => mret value
  end.

Definition getPropertyAsInt (key : str) : Props Z := getPropertyAsIntWithDefault key 0.

Definition list_delimiters : str := [","%char; chr 32; chr 9; chr 13; chr 10].

Definition getPropertyAsListWithDefault (key : str) (value : list str) : Props (list str) :=
  s ← get;
  match properties_ s !! key with
  | Some p =>
      mark_used key;;
      let '(result, matched) := splitString (value_ p) list_delimiters in
      (if negb matched
       then warning (lit "mismatched quotes in property " ++ key ++ lit "'s value, returning default value")
       else mret tt);;
      mret (if (length result =? 0)%nat then value else result)
  | None => mret value
  end.

Definition getPropertyAsList (key : str) : Props (list str) := getPropertyAsListWithDefault key [].

Definition has_prefix (prefix key : str) : bool := (length prefix =? 0)%nat || starts_with prefix key.

Definition getPropertiesForPrefix (prefix : str) : Props (gmap str str) :=
  s ← get;
  modify (set_properties (map_imap (fun k p =>
    Some (if has_prefix prefix k then MkValue (value_ p) true else p)) (properties_ s)));;
  mret (map_imap (fun k p => if has_prefix prefix k then Some (value_ p) else None) (properties_ s)).

Definition getUnusedProperties : Props (gset str) :=
  gets (fun s => dom (filter (fun kp => used (snd kp) = false) (properties_ s))).

Definition getCommandLineOptions : Props (list str) :=
  gets (fun s => (fun kp => lit "--" ++ fst kp ++ lit "=" ++ value_ (snd kp)) <$> in_order (properties_ s)).

(** ** Setting *)

(** The loop over the properties of one prefix: whether the key was found, the
    pattern that differs in case only, and the key that is set *)
Fixpoint check_props (props : list Property) (currentKey : str) : Props (bool * option str * str) :=
  match props with
  | [] => mret (false, None, currentKey)
  | prop :: props' =>
      found ← lift (match_ currentKey (pattern prop) false);
      currentKey ←
        (if found && deprecated prop then
           warning (lit "deprecated property: " ++ currentKey);;
           mret (default currentKey (deprecatedBy prop))
         else mret currentKey);
      if found : bool then mret (true, None, currentKey)
      else
        mismatchCase ← lift (match_ (toUpper currentKey) (toUpper (pattern prop)) false);
        if mismatchCase : bool then mret (true, Some (pattern prop), currentKey)
        else check_props props' currentKey
  end.

Definition warn_unknown (r : bool * option str * str) : Props unit :=
  match r with
  | (false, _, currentKey) => warning (lit "unknown property: `" ++ currentKey ++ lit "'")
  | (true, Some otherKey, currentKey) =>
      warning (lit "unknown property: `" ++ currentKey ++ lit "'; did you mean `" ++ otherKey ++ lit "'")
  | (true, None, _) => mret tt
  end.

Fixpoint check_arrays (arrays : list (list Property)) (prefix currentKey : str) : Props str :=
  match arrays with
  | [] => mret currentKey
  | [] :: _ => faultM UndefinedBehaviour
  | ((first :: _) as props) :: arrays' =>
      match find_char "." 0 (pattern first) with
      | None => faultM AssertionFailure
      | Some dotPos =>
          let propPrefix := substr 0 dotPos (pattern first) in
          if negb (str_eqb (toUpper propPrefix) (toUpper prefix)) then check_arrays arrays' prefix currentKey
          else
            r ← check_props props currentKey;
            warn_unknown r;;
            check_arrays arrays' prefix (snd r)
      end
  end.

(** "Set or clear the property." *)
Definition store_property (currentKey value : str) : Props unit :=
  s ← get;
  if negb (length value =? 0)%nat then
    let u := match properties_ s !! currentKey with Some p => used p | None => false end in
    modify (set_properties (<[currentKey := MkValue value u]> (properties_ s)))
  else modify (set_properties (delete currentKey (properties_ s))).

Definition setProperty (key value : str) : Props unit :=
  let currentKey := trim key in
  if (length currentKey =? 0)%nat
  then throw (InitializationException (lit "Attempt to set property with empty key"))
  else
    currentKey ←
      match find_char "." 0 currentKey with
      | Some dotPos => check_arrays validProps (substr 0 dotPos currentKey) currentKey
      | None => mret currentKey
      end;
    store_property currentKey value.

(** ** Configuration lines *)

Inductive ParseState : Type := Key | Value.

(** The variables of the loop of [parseLine] *)
Record line_parse : Type := MkParse {
  key : str;
  value : str;
  state : ParseState;
  whitespace_ : str;
  escapedspace : str
}.

(** [key += whitespace; whitespace.clear(); key += text] *)
Definition add_key (text : str) (p : line_parse) : line_parse :=
  MkParse (key p ++ whitespace_ p ++ text) (value p) (state p) [] (escapedspace p).

(** [value += value.length() == 0 ? escapedspace : whitespace] and so on *)
Definition add_value (text : str) (p : line_parse) : line_parse :=
  MkParse (key p) (value p ++ (if (length (value p) =? 0)%nat then escapedspace p else whitespace_ p) ++ text)
    (state p) [] [].

Definition space : ascii := chr 32.
Definition hash : ascii := "#".
Definition equals : ascii := "=".

(** A character of the key behind a backslash, and one of the value *)
Definition escaped_in_key (c : ascii) (p : line_parse) : line_parse :=
  if ceq c backslash || ceq c hash || ceq c equals then add_key [c] p
  else if ceq c space then
    (if (length (key p) =? 0)%nat then p
     else MkParse (key p) (value p) (state p) (whitespace_ p ++ [c]) (escapedspace p))
  else add_key [backslash; c] p.

Definition escaped_in_value (c : ascii) (p : line_parse) : line_parse :=
  if ceq c backslash || ceq c hash || ceq c equals then add_value [c] p
  else if ceq c space then
    MkParse (key p) (value p) (state p) (whitespace_ p ++ [c]) (escapedspace p ++ [c])
  else add_value [backslash; c] p.

Definition blank_in (text : str) (c : ascii) (p : line_parse) : line_parse :=
  if (length text =? 0)%nat then p
  else MkParse (key p) (value p) (state p) (whitespace_ p ++ [c]) (escapedspace p).

(** The loop over the characters of the line; it ends early at a comment. *)
Fixpoint parse_loop (line : str) (p : line_parse) : line_parse :=
  match line with
  | [] => p
  | c :: line' =>
      match state p with
      | Key =>
          if ceq c backslash then
            match line' with
            | [] => MkParse (key p ++ whitespace_ p ++ [c]) (value p) Key (whitespace_ p) (escapedspace p)
            | d :: line'' => parse_loop line'' (escaped_in_key d p)
            end
          else if mem_char c whitespace then parse_loop line' (blank_in (key p) c p)
          else if ceq c equals then parse_loop line' (MkParse (key p) (value p) Value [] (escapedspace p))
          else if ceq c hash then p
          else parse_loop line' (add_key [c] p)
      | Value =>
          if ceq c backslash then
            match line' with
            | [] =>
                MkParse (key p)
                  (value p ++ (if (length (value p) =? 0)%nat then escapedspace p else whitespace_ p) ++ [c])
                  Value (whitespace_ p) (escapedspace p)
            | d :: line'' => parse_loop line'' (escaped_in_value d p)
            end
          else if mem_char c whitespace then parse_loop line' (blank_in (value p) c p)
          else if ceq c hash then
            MkParse (key p) (value p ++ escapedspace p) Value (whitespace_ p) (escapedspace p)
          else parse_loop line' (add_value [c] p)
      end
  end.

Definition invalid_entry (line : str) : str := lit "invalid config file entry: " ++ [dquote] ++ line ++ [dquote].

Definition parseLine (line : str) (converter : option (StringConverter ascii)) : Props unit :=
  let p := parse_loop line (MkParse [] [] Key [] []) in
  let value := value p ++ escapedspace p in
  let empty := (length (key p) =? 0)%nat in
  match state p, empty with
  | Key, false | Value, true => warning (invalid_entry line)
  | Key, true => mret tt
  | Value, false =>
      key ← lift (UTF8ToNative converter (key p));
      value ← lift (UTF8ToNative converter value);
      setProperty key value
  end.

(** ** Command-line options *)

(** [opt += "=1"] for an option without a value, then [opt.substr(2)] *)
Definition option_line (opt : str) : str :=
  drop 2 (match find_char equals 0 opt with None => opt ++ lit "=1" | Some _ => opt end).

Fixpoint option_loop (pfx : str) (options : list str) : Props (list str) :=
  match options with
  | [] => mret []
  | opt :: options' =>
      if bool_decide (find_str pfx opt = Some 0%nat) then
        parseLine (option_line opt) None;;
        option_loop pfx options'
      else
        result ← option_loop pfx options';
        mret (opt :: result)
  end.

Definition option_prefix (prefix : str) : str :=
  lit "--" ++
  match last prefix with
  | None => prefix
  | Some c => if ceq c "." then prefix else prefix ++ lit "."
  end.

Definition parseCommandLineOptions (prefix : str) (options : list str) : Props (list str) :=
  option_loop (option_prefix prefix) options.

Fixpoint prefix_loop (prefixes : list str) (args : list str) : Props (list str) :=
  match prefixes with
  | [] => mret args
  | i :: prefixes' =>
      args ← parseCommandLineOptions i args;
      prefix_loop prefixes' args
  end.

Definition parseIceCommandLineOptions (options : list str) : Props (list str) := prefix_loop clPropNames options.

(** ** Configuration files *)

Section files.
(** The files by the UTF-8 form of their path, and the variable [ICE_CONFIG] *)
Context (files : str -> option str) (ICE_CONFIG : option str).

(** [while(getline(in, line))] *)
Fixpoint getlines (line content : str) : list str :=
  match content with
  | [] => if (length line =? 0)%nat then [] else [line]
  | c :: content' => if ceq c (chr 10) then line :: getlines [] content' else getlines (line ++ [c]) content'
  end.

Definition UTF8_BOM : str := [chr 239; chr 187; chr 191].

Definition skip_bom (line : str) : str := if starts_with UTF8_BOM line then drop 3 line else line.

Fixpoint parse_lines (lines : list str) : Props unit :=
  match lines with
  | [] => mret tt
  | line :: lines' =>
      s ← get;
      parseLine line (converter_ s);;
      parse_lines lines'
  end.

Definition load (file : str) : Props unit :=
  s ← get;
  path ← lift (nativeToUTF8 (converter_ s) file);
  match files path with
  | None => throw (FileException file)
  | Some content =>
      match getlines [] content with
      | [] => mret tt
      | line :: lines => parse_lines (skip_bom line :: lines)
      end
  end.

Fixpoint load_all (fs : list str) : Props unit :=
  match fs with [] => mret tt | f :: fs' => load (trim f);; load_all fs' end.

Definition ice_config : str := lit "Ice.Config".

Definition loadConfig : Props unit :=
  value ← getProperty ice_config;
  let value :=
    if (length value =? 0)%nat || str_eqb value (lit "1") then
      match ICE_CONFIG with Some ((_ :: _) as s) => s | _ => value end
    else value in
  if negb (length value =? 0)%nat then
    load_all (fst (splitString value (lit ",")));;
    modify (fun s => set_properties (<[ice_config := MkValue value true]> (properties_ s)) s)
  else mret tt.

(** ** Construction *)

(** The arguments that stay, and whether one of them named configuration files *)
Fixpoint config_loop (args : list str) : Props (list str * bool) :=
  match args with
  | [] => mret ([], false)
  | s :: args' =>
      if bool_decide (find_str (lit "--Ice.Config") s = Some 0%nat) then
        parseLine (option_line s) None;;
        r ← config_loop args';
        mret (fst r, true)
      else
        r ← config_loop args';
        mret (s :: fst r, snd r)
  end.

Definition program_name : str := lit "Ice.ProgramName".

(** [replace(name.begin(), name.end(), '\\', '/')] *)
Definition forward_slashes (name : str) : str := (fun c => if ceq c backslash then slash_ else c) <$> name.

Definition set_program_name (args : list str) : Props unit :=
  s ← get;
  match properties_ s !! program_name with
  | None =>
      match args with
      | name :: _ =>
          modify (set_properties (<[program_name := MkValue (forward_slashes name) true]> (properties_ s)))
      | [] => mret tt
      end
  | Some _ => mark_used program_name
  end.

(** The constructor with arguments; the state it starts from holds the
    properties of [defaults]. The answer is what is left in [args]. *)
Definition properties_args (args : list str) : Props (list str) :=
  set_program_name args;;
  r ← config_loop args;
  s ← get;
  (if snd r || bool_decide (properties_ s !! ice_config = None) then loadConfig else mret tt);;
  parseIceCommandLineOptions (fst r).
End files.

Definition properties_new (converter : option (StringConverter ascii)) : PropertiesI := MkProperties ∅ converter [].

Definition clone (s : PropertiesI) : PropertiesI := MkProperties (properties_ s) (converter_ s) (warnings_ s).
