(* ===== verification/PropertiesSpec.v ===== *)
(** * What properties promise

    Setting a property changes this property only, and fails for an empty key
    only: the table of known properties never makes it fail. Every line of a
    configuration file is read; a key and a value that are written with escape
    sequences are read back, and the options of a property set, given to
    another one, restore it. *)

From S2P Require Import Prelude CxxString Stream StringUtil StringUtilSpec OrderedMap Identity.
From S2P Require Import PropertyNames Properties.

(** ** The table of known properties *)

Definition nonempty {A} (l : list A) : bool := negb (length l =? 0)%nat.

Lemma nonempty_true {A} (l : list A) : nonempty l = true <-> l <> [].
Proof. unfold nonempty. by rewrite negb_true_iff, Nat.eqb_neq, length_zero_iff_nil. Qed.

Definition prop_ok (p : Property) : bool :=
  nonempty (pattern p) && match deprecatedBy p with Some k => nonempty k | None => true end.

(** What the assertions and the indices of [setProperty] need of the arrays *)
Definition array_ok (props : list Property) : bool :=
  match props with
  | [] => false
  | p :: _ => bool_decide (is_Some (find_char "." 0 (pattern p)))
  end && forallb prop_ok props.

Lemma validProps_ok : forallb array_ok validProps = true.
Proof. by vm_compute. Qed.

(** A deprecated property of the table gives way to another one. *)
Definition renamed (k k' : str) : Prop :=
  exists p, p ∈ concat validProps /\ deprecated p = true /\ match_ k (pattern p) false = Ok true /\
    deprecatedBy p = Some k'.

(** No deprecated property of the table that has a replacement matches [k]. *)
Definition settled (k : str) : bool :=
  forallb (fun p => negb (deprecated p && bool_decide (is_Some (deprecatedBy p)) &&
    match match_ k (pattern p) false with Ok true => true | _ => false end)) (concat validProps).

Lemma settled_renamed k k' : settled k = true -> rtc renamed k k' -> k' = k.
Proof.
  intros Hs Hr. destruct Hr as [|k k1 k2 (p & Hin & Hd & Hm & Hb)]; [done|].
  unfold settled in Hs. rewrite forallb_forall in Hs. apply list_elem_of_In in Hin.
  specialize (Hs p Hin). by rewrite Hd, Hm, Hb in Hs.
Qed.

(** ** Setting a property *)

(** [s] after some more warnings *)
Definition warned (msgs : list str) (s : PropertiesI) : PropertiesI :=
  MkProperties (properties_ s) (converter_ s) (warnings_ s ++ msgs).

Lemma warned_nil s : warned [] s = s.
Proof. unfold warned. rewrite app_nil_r. by destruct s. Qed.

Lemma warned_warned m1 m2 s : warned m2 (warned m1 s) = warned (m1 ++ m2) s.
Proof. unfold warned. simpl. by rewrite app_assoc. Qed.

Lemma warning_ok msg s : warning msg s = (Ok tt, warned [msg] s).
Proof. done. Qed.

Lemma toUpper_nonempty s : s <> [] -> toUpper s <> [].
Proof. by destruct s. Qed.

Lemma check_props_ok props : forall k s, forallb prop_ok props = true -> k <> [] ->
  (forall p, p ∈ props -> p ∈ concat validProps) ->
  exists f o k' msgs, check_props props k s = (Ok (f, o, k'), warned msgs s) /\ k' <> [] /\ rtc renamed k k'.
Proof.
  induction props as [|p props IH]; intros k s Hok Hk Hin.
  { exists false, None, k, []. by rewrite warned_nil. }
  cbn [forallb] in Hok. apply andb_true_iff in Hok as [Hp Hok].
  unfold prop_ok in Hp. apply andb_true_iff in Hp as [Hpat Hby]. apply nonempty_true in Hpat.
  destruct (match_total k (pattern p) false Hk Hpat) as [r Hr].
  cbn [check_props]. rewrite (bind_lift _ _ _ _ Hr). destruct r; cbn [andb].
  - destruct (deprecated p) eqn:Ed; [|exists true, None, k, []; by rewrite warned_nil].
    erewrite bind_ok by (by erewrite bind_ok by apply warning_ok).
    exists true, None, (default k (deprecatedBy p)), [lit "deprecated property: " ++ k]. split; [done|].
    destruct (deprecatedBy p) as [k1|] eqn:Eb; [|done]. apply nonempty_true in Hby. split; [done|].
    apply rtc_once. exists p. split_and!; [apply Hin; left|done|done|done].
  - rewrite bind_ret.
    destruct (match_total (toUpper k) (toUpper (pattern p)) false) as [u Hu]; [by apply toUpper_nonempty..|].
    rewrite (bind_lift _ _ _ _ Hu). destruct u.
    + exists true, (Some (pattern p)), k, []. by rewrite warned_nil.
    + apply IH; [done|done|]. intros q Hq. apply Hin. by right.
Qed.

Lemma warn_unknown_ok r s : exists msgs, warn_unknown r s = (Ok tt, warned msgs s).
Proof. destruct r as [[[] []] ?]; eexists; by try apply warning_ok; rewrite warned_nil. Qed.

Lemma check_arrays_ok prefix arrays : forall k s, forallb array_ok arrays = true -> k <> [] ->
  (forall props, props ∈ arrays -> props ∈ validProps) ->
  exists k' msgs, check_arrays arrays prefix k s = (Ok k', warned msgs s) /\ rtc renamed k k'.
Proof.
  induction arrays as [|props arrays IH]; intros k s Hok Hk Hin.
  { exists k, []. by rewrite warned_nil. }
  cbn [forallb] in Hok. apply andb_true_iff in Hok as [Hp Hok].
  assert (forall props', props' ∈ arrays -> props' ∈ validProps) as Hin' by (intros; apply Hin; by right).
  destruct props as [|p props]; [done|]. unfold array_ok in Hp. apply andb_true_iff in Hp as [Hdot Hprops].
  apply bool_decide_eq_true in Hdot as [dotPos Hdot]. cbn [check_arrays]. rewrite Hdot. cbv zeta.
  case_if; [by apply IH|].
  destruct (check_props_ok (p :: props) k s) as (f & o & k1 & m1 & E1 & Hk1 & R1); [done|done| |].
  { intros q Hq. apply list_elem_of_In, in_concat. exists (p :: props).
    split; apply list_elem_of_In; [apply Hin; left|done]. }
  rewrite (bind_ok _ _ _ _ _ E1).
  destruct (warn_unknown_ok (f, o, k1) (warned m1 s)) as [m2 E2]. rewrite (bind_ok _ _ _ _ _ E2). cbn [snd].
  destruct (IH k1 (warned m2 (warned m1 s)) Hok Hk1 Hin') as (k2 & m3 & E3 & R3).
  exists k2, (m1 ++ m2 ++ m3). rewrite E3, !warned_warned, app_assoc. split; [done|]. by transitivity k1.
Qed.

(** The map after a property was set or cleared *)
Definition updated (k v : str) (m : gmap str PropertyValue) : gmap str PropertyValue :=
  if nonempty v then <[k := MkValue v (default false (used <$> m !! k))]> m else delete k m.

Lemma setProperty_ok k v s : trim k <> [] -> exists k' msgs,
  setProperty k v s = (Ok tt, set_properties (updated k' v (properties_ s)) (warned msgs s)) /\ rtc renamed (trim k) k'.
Proof.
  intros Hk. unfold setProperty. rewrite (proj2 (Nat.eqb_neq (length _) 0)) by (by rewrite length_zero_iff_nil).
  assert (exists k' msgs, (match find_char "." 0 (trim k) with
    | Some dotPos => check_arrays validProps (substr 0 dotPos (trim k)) (trim k)
    | None => mret (trim k) end) s = (Ok k', warned msgs s) /\ rtc renamed (trim k) k') as (k' & msgs & E & R).
  { destruct (find_char "." 0 (trim k)); [|exists (trim k), []; by rewrite warned_nil].
    apply check_arrays_ok; [apply validProps_ok|done|done]. }
  rewrite (bind_ok _ _ _ _ _ E). exists k', msgs. split; [|done].
  unfold store_property, updated, nonempty. step. simpl.
  destruct (length v =? 0)%nat; cbn [negb]; [done|]. by destruct (properties_ s !! k').
Qed.

Lemma setProperty_settled k v s : trim k <> [] -> settled (trim k) = true -> exists msgs,
  setProperty k v s = (Ok tt, set_properties (updated (trim k) v (properties_ s)) (warned msgs s)).
Proof.
  intros Hk Hs. destruct (setProperty_ok k v s Hk) as (k' & msgs & E & R).
  rewrite (settled_renamed _ _ Hs R) in E. by exists msgs.
Qed.

(** Setting a property throws InitializationException exactly when the trimmed
    key is empty, and otherwise succeeds with the table of known properties: it sets
    or clears one property, the trimmed key or the replacement of a deprecated one,
    keeps its mark of use, and only adds warnings. *)
Lemma setProperty_outcomes k v s :
  (trim k = [] /\ exists reason, setProperty k v s = (Throw (InitializationException reason), s)) \/
  (trim k <> [] /\ exists k' msgs, rtc renamed (trim k) k' /\
    setProperty k v s = (Ok tt, set_properties (updated k' v (properties_ s)) (warned msgs s))).
Proof.
  destruct (decide (trim k = [])) as [E|Hk]; [left|right]; split; try done.
  - eexists. unfold setProperty. by rewrite E.
  - destruct (setProperty_ok k v s Hk) as (k' & msgs & E & R). by exists k', msgs.
Qed.

Example setProperty_deprecated :
  let r := setProperty (lit "IcePatch2.ChunkSize") (lit "7") (properties_new None) in
  fst (getProperty (lit "IcePatch2Client.ChunkSize") (snd r)) = Ok (lit "7") /\
  warnings_ (snd r) = [lit "deprecated property: IcePatch2.ChunkSize"].
Proof. by vm_compute. Qed.

(** ** Reading a line that was written with escape sequences *)

Definition key_escape (c : ascii) : str :=
  if ceq c backslash || ceq c hash || ceq c equals then [backslash; c] else [c].
Definition value_escape (c : ascii) : str :=
  if ceq c backslash || ceq c hash || ceq c equals || ceq c space then [backslash; c] else [c].

(** The line for a key and a value *)
Definition written (k v : str) : str := (k ≫= key_escape) ++ [equals] ++ (v ≫= value_escape).

(** What the loop does with one character of the key, and of the value *)
Definition key_step (p : line_parse) (c : ascii) : line_parse :=
  if mem_char c whitespace then blank_in (key p) c p else add_key [c] p.
Definition value_step (p : line_parse) (c : ascii) : line_parse :=
  if ceq c space then MkParse (key p) (value p) (state p) (whitespace_ p ++ [c]) (escapedspace p ++ [c])
  else add_value [c] p.

Lemma state_key_step p c : state (key_step p c) = state p.
Proof. unfold key_step, blank_in. by repeat case_if. Qed.

Lemma state_value_step p c : state (value_step p c) = state p.
Proof. unfold value_step. by case_if. Qed.

Lemma not_blank c : ~ blank c <-> mem_char c whitespace = false.
Proof. by rewrite mem_char_false. Qed.

Lemma parse_key_char c rest p : state p = Key ->
  parse_loop (key_escape c ++ rest) p = parse_loop rest (key_step p c).
Proof.
  intros Hp. unfold key_escape. destruct (ceq c backslash || ceq c hash || ceq c equals) eqn:E; cbn [app parse_loop].
  - rewrite Hp, ceq_refl. unfold escaped_in_key. rewrite E. unfold key_step.
    destruct (mem_char c whitespace) eqn:Ew; [|done]. exfalso.
    rewrite !orb_true_iff, !ceq_true in E.
    by destruct E as [[->| ->]| ->]; vm_compute in Ew.
  - rewrite !orb_false_iff in E. destruct E as [[E1 E2] E3]. rewrite Hp, E1, E2, E3. unfold key_step.
    by destruct (mem_char c whitespace).
Qed.

Lemma parse_key_chars k : forall rest p, state p = Key ->
  parse_loop ((k ≫= key_escape) ++ rest) p = parse_loop rest (foldl key_step p k).
Proof.
  induction k as [|c k IH]; intros rest p Hp; [done|].
  change ((c :: k) ≫= key_escape) with (key_escape c ++ (k ≫= key_escape)). rewrite <- app_assoc.
  rewrite parse_key_char by done. apply IH. by rewrite state_key_step.
Qed.

Lemma parse_value_char c rest p : state p = Value -> (c = space \/ ~ blank c) ->
  parse_loop (value_escape c ++ rest) p = parse_loop rest (value_step p c).
Proof.
  intros Hp Hc. unfold value_escape.
  destruct (ceq c backslash || ceq c hash || ceq c equals || ceq c space) eqn:E; cbn [app parse_loop].
  - rewrite Hp, ceq_refl. unfold escaped_in_value, value_step. apply orb_true_iff in E as [E|E].
    + rewrite E. destruct (ceq c space) eqn:Es; [|done]. apply ceq_true in Es as ->. done.
    + apply ceq_true in E as ->. done.
  - rewrite !orb_false_iff in E. destruct E as [[[E1 E2] E3] E4]. rewrite Hp, E1, E2. unfold value_step. rewrite E4.
    destruct Hc as [->|Hc]; [by rewrite ceq_refl in E4|]. apply not_blank in Hc. by rewrite Hc.
Qed.

Lemma parse_value_chars v : forall rest p, state p = Value -> Forall (fun c => c = space \/ ~ blank c) v ->
  parse_loop ((v ≫= value_escape) ++ rest) p = parse_loop rest (foldl value_step p v).
Proof.
  induction v as [|c v IH]; intros rest p Hp Hv; [done|]. apply Forall_cons in Hv as [Hc Hv].
  change ((c :: v) ≫= value_escape) with (value_escape c ++ (v ≫= value_escape)). rewrite <- app_assoc.
  rewrite parse_value_char by done. apply IH; [by rewrite state_value_step|done].
Qed.

(** The key is what was read, but for the blanks at its end. *)
Lemma key_steps k : forall p, key p <> [] ->
  key (foldl key_step p k) ++ whitespace_ (foldl key_step p k) = key p ++ whitespace_ p ++ k /\
  key (foldl key_step p k) <> [] /\
  (forall c, last k = Some c -> ~ blank c -> whitespace_ (foldl key_step p k) = []) /\
  value (foldl key_step p k) = value p /\ escapedspace (foldl key_step p k) = escapedspace p.
Proof.
  induction k as [|c k IH] using rev_ind; intros p Hp; [by rewrite app_nil_r|].
  rewrite foldl_app. cbn [foldl]. destruct (IH p Hp) as (H1 & H2 & _ & H4 & H5).
  set (q := foldl key_step p k) in *. rewrite last_snoc. destruct (mem_char c whitespace) eqn:Ec.
  - assert (key_step q c = MkParse (key q) (value q) (state q) (whitespace_ q ++ [c]) (escapedspace q)) as ->.
    { unfold key_step, blank_in. rewrite Ec. by destruct (key q). }
    cbn [key whitespace_ value escapedspace]. split_and!; [|done| |done|done].
    + rewrite app_assoc, H1. by rewrite <- !app_assoc.
    + intros d [= <-] Hd. apply not_blank in Hd. congruence.
  - assert (key_step q c = add_key [c] q) as -> by (unfold key_step; by rewrite Ec).
    unfold add_key. cbn [key whitespace_ value escapedspace]. split_and!; [| |done|done|done].
    + rewrite app_nil_r, app_assoc, H1. by rewrite <- !app_assoc.
    + by destruct (key q).
Qed.

Lemma key_read k p : edged k -> key p = [] -> whitespace_ p = [] ->
  key (foldl key_step p k) = k /\ value (foldl key_step p k) = value p /\
  escapedspace (foldl key_step p k) = escapedspace p.
Proof.
  intros (c & d & Hh & Hl & Hc & Hd) Hk Hw. destruct k as [|x k]; [done|]. injection Hh as ->.
  apply not_blank in Hc. cbn [foldl]. replace (key_step p c) with (add_key [c] p) by (unfold key_step; by rewrite Hc).
  destruct (key_steps k (add_key [c] p)) as (H1 & _ & H3 & H4 & H5).
  { unfold add_key. rewrite Hk, Hw. done. }
  split; [|by rewrite H4, H5]. unfold add_key in H1 at 3 4. cbn [key whitespace_] in H1. rewrite Hk, Hw in H1.
  destruct k as [|y k].
  { unfold add_key. simpl. by rewrite Hk, Hw. }
  rewrite (H3 d) in H1; [by rewrite app_nil_r in H1|by rewrite last_cons_cons in Hl|done].
Qed.

Lemma value_steps v p : whitespace_ p = escapedspace p ->
  whitespace_ (foldl value_step p v) = escapedspace (foldl value_step p v) /\
  value (foldl value_step p v) ++ escapedspace (foldl value_step p v) = value p ++ escapedspace p ++ v /\
  key (foldl value_step p v) = key p.
Proof.
  intros Hp. induction v as [|c v (H1 & H2 & H3)] using rev_ind; [by rewrite app_nil_r|].
  rewrite foldl_app. cbn [foldl]. set (q := foldl value_step p v) in *. unfold value_step. case_if.
  - cbn [key whitespace_ value escapedspace]. split_and!; [by rewrite H1| |done].
    rewrite app_assoc, H2. by rewrite <- !app_assoc.
  - unfold add_value. cbn [key whitespace_ value escapedspace]. split_and!; [done| |done].
    rewrite H1. replace (if (length (value q) =? 0)%nat then escapedspace q else escapedspace q)
      with (escapedspace q) by (by destruct (length (value q) =? 0)%nat).
    rewrite app_nil_r, app_assoc, H2. by rewrite <- !app_assoc.
Qed.

(** C31. A line made of a key and a value, with a backslash before every backslash,
    hash and equal sign and before every space of the value, sets the property of
    that key to that value, for every key that starts and ends with a character that
    is not blank and every value without tabs and line ends. *)
Theorem parseLine_written k v converter : edged k -> Forall (fun c => c = space \/ ~ blank c) v ->
  parseLine (written k v) converter ≡
    (k ← lift (UTF8ToNative converter k); v ← lift (UTF8ToNative converter v); setProperty k v).
Proof.
  intros Hk Hv s. unfold parseLine, written. rewrite parse_key_chars by done.
  set (p0 := MkParse [] [] Key [] []).
  destruct (key_read k p0 Hk eq_refl eq_refl) as (Ek & Ev & Ee).
  assert (state (foldl key_step p0 k) = Key) as Es.
  { clear. induction k as [|c k IH] using rev_ind; [done|]. rewrite foldl_app. cbn [foldl]. by rewrite state_key_step. }
  cbn [app parse_loop]. rewrite Es. cbn [ceq]. change (ceq equals backslash) with false.
  change (mem_char equals whitespace) with false. rewrite ceq_refl. cbv iota. rewrite Ek, Ev, Ee.
  rewrite <- (app_nil_r (v ≫= value_escape)), parse_value_chars by done. cbn [parse_loop].
  set (p1 := MkParse k (value p0) Value [] (escapedspace p0)).
  destruct (value_steps v p1 eq_refl) as (_ & Hval & Hkey). rewrite Hval, Hkey.
  assert (state (foldl value_step p1 v) = Value) as Es1.
  { clear. induction v as [|c v IH] using rev_ind; [done|]. rewrite foldl_app. cbn [foldl]. by rewrite state_value_step. }
  rewrite Es1. cbn [key p1]. destruct Hk as (c & _ & Hh & _). by destruct k.
Qed.

Lemma parseLine_written_witness :
  written (lit "a#b c") (lit " #x ") = lit "a\#b c=\ \#x\ " /\
  parseLine (lit "a\#b c=\ \#x\ ") None (properties_new None) =
    (setProperty (lit "a#b c") (lit " #x ") (properties_new None)).
Proof.
  split; [by vm_compute|].
  assert (edged (lit "a#b c")) as He.
  { exists "a"%char, "c"%char. split_and!; [done|done|..]; by apply not_blank. }
  pose proof (parseLine_written (lit "a#b c") (lit " #x ") None He) as H.
  apply H. repeat (apply Forall_cons; split; [(by left) || (right; by apply not_blank)|]). by apply Forall_nil.
Defined.

(** ** Every line is read *)

(** The key never starts with a blank. *)
Definition key_inv (p : line_parse) : Prop :=
  (forall c, head (key p) = Some c -> ~ blank c) /\ (state p = Key -> key p = [] -> whitespace_ p = []).

Lemma key_inv_key p v st w e : key_inv p -> (st = Key -> key p = [] -> w = []) -> key_inv (MkParse (key p) v st w e).
Proof. intros [Hh _] Hw. by split. Qed.

Lemma key_inv_add c text p : key_inv p -> state p = Key -> ~ blank c -> key_inv (add_key (c :: text) p).
Proof.
  intros [Hh Hw] Hs Hc. split; unfold add_key; cbn [key whitespace_ state]; [|done].
  intros d Hd. destruct (key p) as [|x k] eqn:Ek; [|by apply Hh].
  rewrite (Hw Hs eq_refl) in Hd. by injection Hd as <-.
Qed.

Lemma key_inv_blank text c p : key_inv p -> (state p = Key -> text = key p) -> key_inv (blank_in text c p).
Proof.
  intros Hp Ht. unfold blank_in. case_if; [done|]. apply key_inv_key; [done|]. intros Hs Hk.
  rewrite (Ht Hs), Hk in E. done.
Qed.

Lemma backslash_not_blank : ~ blank backslash.
Proof. by apply not_blank. Qed.

Lemma key_inv_escaped_in_key c p : key_inv p -> state p = Key -> key_inv (escaped_in_key c p).
Proof.
  intros Hp Hs. unfold escaped_in_key. case_if.
  - apply key_inv_add; [done|done|]. apply not_blank.
    rewrite !orb_true_iff, !ceq_true in E. by destruct E as [[->| ->]| ->].
  - repeat case_if; [done| |by apply key_inv_add, backslash_not_blank].
    apply key_inv_key; [done|]. intros _ Hk. by rewrite Hk in E1.
Qed.

Lemma key_inv_escaped_in_value c p : key_inv p -> state p = Value -> key_inv (escaped_in_value c p).
Proof.
  intros Hp Hs. unfold escaped_in_value, add_value. repeat case_if; apply key_inv_key; congruence || done.
Qed.

Lemma parse_loop_key_inv n : forall line p, (length line <= n)%nat -> key_inv p -> key_inv (parse_loop line p).
Proof.
  induction n as [|n IH]; intros [|c line] p Hn Hp; [done|simpl in Hn; lia|done|]. simpl in Hn.
  cbn [parse_loop]. destruct (state p) eqn:Es.
  - case_if.
    + destruct line as [|d line].
      * split; cbn [key whitespace_]; [|by intros _ [_ [? _]%app_nil]%app_nil]. intros x Hx.
        pose proof (key_inv_add backslash [] p Hp Es backslash_not_blank) as [H _]. apply ceq_true in E as ->. by apply H.
      * apply IH; [simpl in Hn; lia|]. by apply key_inv_escaped_in_key.
    + case_if; [apply IH; [lia|by apply key_inv_blank]|].
      case_if; [apply IH; [lia|by apply key_inv_key]|].
      case_if; [done|]. apply IH; [lia|]. apply key_inv_add; [done|done|]. by apply not_blank.
  - case_if.
    + destruct line as [|d line]; [by apply key_inv_key|].
      apply IH; [simpl in Hn; lia|]. by apply key_inv_escaped_in_value.
    + case_if; [apply IH; [lia|apply key_inv_blank; [done|congruence]]|].
      case_if; [by apply key_inv_key|]. apply IH; [lia|]. unfold add_value. apply key_inv_key; congruence || done.
Qed.

(** Without a string converter every line of a configuration file is processed
    without an exception or a failed assertion: the parser never hands an empty key
    to setProperty. *)
Lemma parseLine_never_fails line s : fst (parseLine line None s) = Ok tt.
Proof.
  unfold parseLine. set (p := parse_loop line _).
  assert (key_inv p) as [Hh _].
  { by apply (parse_loop_key_inv (length line)). }
  destruct (state p), (length (key p) =? 0)%nat eqn:E; [done|done|done|]. cbn [UTF8ToNative].
  rewrite !(bind_lift (Ok _) _ _ _ eq_refl). bool_to_prop.
  destruct (key p) as [|c k]; [done|].
  destruct (setProperty_ok (c :: k) (value p ++ escapedspace p) s) as (k' & msgs & -> & _); [|done].
  by apply trim_nonempty, Hh.
Qed.

(** ** Lookups *)

(** The value of a property, empty when it is not set *)
Definition value_of (k : str) (s : PropertiesI) : str := from_option value_ [] (properties_ s !! k).

Lemma getProperty_value k s : exists s', getProperty k s = (Ok (value_of k s), s').
Proof.
  unfold getProperty, value_of. step. destruct (properties_ s !! k) as [p|]; [|by eexists].
  unfold mark_used. step. by eexists.
Qed.

Lemma value_of_updated k v k2 msgs s :
  value_of k2 (set_properties (updated k v (properties_ s)) (warned msgs s)) =
    if decide (k2 = k) then v else value_of k2 s.
Proof.
  unfold value_of, updated. simpl. destruct (decide (k2 = k)) as [->|Hne], v as [|c v]; cbn [nonempty length Nat.eqb negb].
  - by rewrite lookup_delete_eq.
  - by rewrite lookup_insert_eq.
  - by rewrite lookup_delete_ne.
  - by rewrite lookup_insert_ne.
Qed.

(** After a property is set its value is read back under the trimmed key, every
    other property keeps its value, and an empty value clears the property. *)
Theorem getProperty_setProperty k v k2 s : trim k <> [] -> settled (trim k) = true ->
  fst ((setProperty k v;; getProperty k2) s) =
    if decide (k2 = trim k) then Ok v else fst (getProperty k2 s).
Proof.
  intros Hk Hs. destruct (setProperty_settled k v s Hk Hs) as [msgs E]. rewrite (bind_ok _ _ _ _ _ E).
  destruct (getProperty_value k2 s) as [s1 ->].
  destruct (getProperty_value k2 (set_properties (updated (trim k) v (properties_ s)) (warned msgs s))) as [s2 ->].
  cbn [fst]. rewrite value_of_updated. by case_match.
Qed.

Lemma getProperty_setProperty_witness :
  fst ((setProperty (lit " Ice.Trace.Network ") (lit "2");; getProperty (lit "Ice.Trace.Network")) (properties_new None)) =
    Ok (lit "2").
Proof.
  rewrite (getProperty_setProperty (lit " Ice.Trace.Network ") (lit "2")); [reflexivity|done|by vm_compute].
Defined.

(** The keys that nothing has asked for *)
Definition unused (s : PropertiesI) : gset str :=
  dom (filter (fun kp => used (snd kp) = false) (properties_ s)).

Lemma elem_of_unused k s : k ∈ unused s <-> exists p, properties_ s !! k = Some p /\ used p = false.
Proof.
  unfold unused. rewrite elem_of_dom. split.
  - intros [p Hp]. apply map_lookup_filter_Some in Hp as [Hp Hu]. by exists p.
  - intros (p & Hp & Hu). exists p. by apply map_lookup_filter_Some.
Qed.

(** Reading a property takes exactly its key from the unused properties;
    reading by prefix answers exactly the properties with the prefix and takes
    exactly these from the unused ones. *)
Theorem reads_mark_used s :
  (forall k, fst (getUnusedProperties (snd (getProperty k s))) = Ok (unused s ∖ {[k]})) /\
  (forall prefix k, exists m, fst (getPropertiesForPrefix prefix s) = Ok m /\
    m !! k = (if has_prefix prefix k then value_ <$> properties_ s !! k else None) /\
    (k ∈ unused (snd (getPropertiesForPrefix prefix s)) <-> k ∈ unused s /\ has_prefix prefix k = false)).
Proof.
  split.
  - intros k. cbn [getUnusedProperties gets fst]. f_equal. apply leibniz_equiv. intros k2.
    change (dom _) with (unused (snd (getProperty k s))).
    rewrite elem_of_difference, elem_of_singleton, !elem_of_unused. unfold getProperty. step.
    destruct (properties_ s !! k) as [p|] eqn:Ek.
    + unfold mark_used. step. cbn [snd mret M_ret set_properties properties_].
      destruct (decide (k2 = k)) as [->|Hne]; [rewrite lookup_alter_eq, Ek|rewrite lookup_alter_ne by done]; simpl; naive_solver.
    + cbn [snd mret M_ret]. naive_solver congruence.
  - intros prefix k. unfold getPropertiesForPrefix. step. rewrite bind_modify. eexists. split; [done|].
    cbn [snd mret M_ret]. rewrite !elem_of_unused. simpl. rewrite !map_lookup_imap.
    destruct (properties_ s !! k) as [p|]; simpl; destruct (has_prefix prefix k); simpl; naive_solver.
Qed.

(** ** Options of the command line *)

(** A key, and a value, that need no escape sequences *)
Definition plain_key (k : str) : Prop :=
  edged k /\ Forall (fun c => c <> backslash /\ c <> hash /\ c <> equals) k /\ settled k = true.
Definition plain_value (v : str) : Prop :=
  edged v /\ Forall (fun c => c <> backslash /\ c <> hash) v.

Lemma plain_key_written k : Forall (fun c => c <> backslash /\ c <> hash /\ c <> equals) k -> (k ≫= key_escape) = k.
Proof.
  induction 1 as [|c k (H1 & H2 & H3) _ IH]; [done|]. cbn [mbind list_bind] in *.
  change (key_escape c ++ (k ≫= key_escape) = c :: k). rewrite IH. unfold key_escape.
  by rewrite !(proj2 (ceq_false c _)).
Qed.

Definition plain_step (p : line_parse) (c : ascii) : line_parse :=
  if mem_char c whitespace then blank_in (value p) c p else add_value [c] p.

Lemma parse_plain_chars v : forall p, state p = Value -> Forall (fun c => c <> backslash /\ c <> hash) v ->
  parse_loop v p = foldl plain_step p v.
Proof.
  induction v as [|c v IH]; intros p Hp Hv; [done|]. apply Forall_cons in Hv as [(H1 & H2) Hv].
  cbn [parse_loop foldl]. rewrite Hp, (proj2 (ceq_false c backslash)), (proj2 (ceq_false c hash)) by done.
  unfold plain_step at 2. destruct (mem_char c whitespace); apply IH; try done.
  unfold blank_in. by case_if.
Qed.

Lemma plain_steps v : forall p, value p <> [] -> escapedspace p = [] ->
  let q := foldl plain_step p v in
  value q ++ whitespace_ q = value p ++ whitespace_ p ++ v /\ value q <> [] /\ escapedspace q = [] /\
  (forall c, last v = Some c -> ~ blank c -> whitespace_ q = []) /\ key q = key p /\ state q = state p.
Proof.
  induction v as [|c v IH] using rev_ind; intros p Hp He; [by rewrite app_nil_r|].
  rewrite foldl_app. cbn [foldl]. destruct (IH p Hp He) as (H1 & H2 & H3 & _ & H5 & H6).
  set (q := foldl plain_step p v) in *. rewrite last_snoc. cbv zeta. destruct (mem_char c whitespace) eqn:Ec.
  - assert (plain_step q c = MkParse (key q) (value q) (state q) (whitespace_ q ++ [c]) (escapedspace q)) as ->.
    { unfold plain_step, blank_in. rewrite Ec. by destruct (value q). }
    cbn [key value state whitespace_ escapedspace]. split_and!; [|done|done| |done|done].
    + rewrite app_assoc, H1. by rewrite <- !app_assoc.
    + intros d [= <-] Hd. apply not_blank in Hd. congruence.
  - assert (plain_step q c = MkParse (key q) (value q ++ whitespace_ q ++ [c]) (state q) [] []) as ->.
    { unfold plain_step, add_value. rewrite Ec. by destruct (value q). }
    cbn [key value state whitespace_ escapedspace]. split_and!; [|by destruct (value q)|done|done|done|done].
    rewrite app_nil_r, app_assoc, H1. by rewrite <- !app_assoc.
Qed.

(** The loop on the line of a plain key and a plain value *)
Lemma parse_plain k v : plain_key k -> plain_value v ->
  let q := parse_loop (k ++ [equals] ++ v) (MkParse [] [] Key [] []) in
  key q = k /\ value q ++ escapedspace q = v /\ state q = Value.
Proof.
  intros (Hk & Hkp & _) (Hv & Hvp). cbv zeta.
  assert (k ++ [equals] ++ v = (k ≫= key_escape) ++ [equals] ++ v) as -> by (by rewrite plain_key_written).
  rewrite parse_key_chars by done.
  set (p0 := MkParse [] [] Key [] []). destruct (key_read k p0 Hk eq_refl eq_refl) as (Ek & Ev & Ee).
  assert (state (foldl key_step p0 k) = Key) as Es.
  { clear. induction k as [|c k IH] using rev_ind; [done|]. rewrite foldl_app. cbn [foldl]. by rewrite state_key_step. }
  cbn [app parse_loop]. rewrite Es. change (ceq equals backslash) with false.
  change (mem_char equals whitespace) with false. rewrite ceq_refl. cbv iota. rewrite Ek, Ev, Ee.
  rewrite parse_plain_chars by done. destruct Hv as (c & d & Hh & Hl & Hc & Hd).
  destruct v as [|x v]; [done|]. injection Hh as ->. apply not_blank in Hc. cbn [foldl].
  replace (plain_step _ c) with (MkParse k [c] Value [] []) by (unfold plain_step; by rewrite Hc).
  destruct (plain_steps v (MkParse k [c] Value [] [])) as (H1 & _ & H3 & H4 & H5 & H6); [done|done|].
  cbv zeta. rewrite H3, H5, H6. split_and!; [done| |done]. cbn [value whitespace_ app] in H1.
  destruct v as [|y v]; [done|]. rewrite app_nil_r, <- H1, (H4 d), app_nil_r; [done| |done].
  by rewrite last_cons_cons in Hl.
Qed.

Lemma parseLine_plain k v s : plain_key k -> plain_value v -> exists msgs,
  parseLine (k ++ [equals] ++ v) None s = (Ok tt, set_properties (updated k v (properties_ s)) (warned msgs s)).
Proof.
  intros Hk Hv. destruct (parse_plain k v Hk Hv) as (E1 & E2 & E3). unfold parseLine. cbv zeta. rewrite E1, E2, E3.
  destruct Hk as (He & _ & Hset). pose proof (trim_id k He) as Ht. destruct He as (c & _ & Hh & _).
  destruct k as [|x k]; [done|]. cbn [length Nat.eqb UTF8ToNative]. rewrite !(bind_lift (Ok _) _ _ _ eq_refl).
  destruct (setProperty_settled (x :: k) v s) as [msgs E]; [by rewrite Ht|by rewrite Ht|].
  exists msgs. by rewrite E, Ht.
Qed.

(** The options of the entries of a list, as [getCommandLineOptions] renders them *)
Definition rendered (l : list (str * PropertyValue)) : list str :=
  (fun kp => lit "--" ++ fst kp ++ lit "=" ++ value_ (snd kp)) <$> l.

(** An entry without its mark *)
Definition fresh (kp : str * PropertyValue) : str * PropertyValue := (fst kp, MkValue (value_ (snd kp)) false).

Lemma find_char_mem c s : c ∈ s -> is_Some (find_char c 0 s).
Proof. intros H. destruct (find_char c 0 s) eqn:E; [done|]. by apply find_char_None in E. Qed.

Lemma option_line_rendered k v : option_line (lit "--" ++ k ++ lit "=" ++ v) = k ++ [equals] ++ v.
Proof.
  unfold option_line. destruct (find_char_mem equals (lit "--" ++ k ++ lit "=" ++ v)) as [n ->]; [|done].
  rewrite !elem_of_app. right. right. left. left.
Qed.

Lemma replay pfx l : forall s,
  Forall (fun kp => plain_key (fst kp) /\ plain_value (value_ (snd kp)) /\
    starts_with pfx (lit "--" ++ fst kp) = true /\ properties_ s !! fst kp = None) l ->
  NoDup l.*1 -> exists msgs,
  option_loop pfx (rendered l) s =
    (Ok [], set_properties (list_to_map (fresh <$> l) ∪ properties_ s) (warned msgs s)).
Proof.
  induction l as [|[k p] l IH]; intros s Hl Hnd.
  { exists []. rewrite warned_nil. cbn. rewrite (left_id_L ∅ (∪)). by destruct s. }
  apply Forall_cons in Hl as [(Hk & Hv & Hpfx & Hnone) Hl]. cbn [fst snd] in *. apply NoDup_cons in Hnd as [Hnk Hnd].
  change (rendered ((k, p) :: l)) with ((lit "--" ++ k ++ lit "=" ++ value_ p) :: rendered l). cbn [option_loop].
  rewrite bool_decide_eq_true_2.
  2:{ apply find_str_zero. apply starts_with_spec in Hpfx as [t Ht]. rewrite app_assoc, Ht, <- app_assoc.
      apply starts_with_app. }
  rewrite option_line_rendered. destruct (parseLine_plain k (value_ p) s Hk Hv) as [m1 E1].
  rewrite (bind_ok _ _ _ _ _ E1). unfold updated. rewrite Hnone.
  assert (nonempty (value_ p) = true) as -> by (apply nonempty_true; destruct Hv as ((? & ? & Hh & _) & _); by intros E; rewrite E in Hh).
  cbn [default fmap option_fmap option_map from_option id].
  edestruct (IH (set_properties (<[k:=MkValue (value_ p) false]> (properties_ s)) (warned m1 s))) as [m2 E2].
  - rewrite Forall_forall in Hl |- *. intros [k2 p2] Hin. destruct (Hl _ Hin) as (H1 & H2 & H3 & H4).
    split_and!; [done|done|done|]. cbn [fst] in *. simpl.
    rewrite lookup_insert_ne; [done|]. intros ->. apply Hnk, list_elem_of_fmap. by exists (k2, p2).
  - done.
  - exists (m1 ++ m2). rewrite E2. cbn [properties_ set_properties fmap list_fmap fresh fst snd list_to_map foldr uncurry].
    f_equal. unfold set_properties, warned. cbn [properties_ converter_ warnings_]. rewrite <- app_assoc. f_equal.
    rewrite <- insert_union_r; [by rewrite insert_union_l|].
    apply not_elem_of_list_to_map_1. by rewrite <- list_fmap_compose.
Qed.

(** C38. The command-line options of a property set whose keys have the prefix, and
    whose keys and values need no escape sequences, restore the values of all its
    properties when an empty property set parses them, and none of the options is
    left over. *)
Theorem command_line_roundtrip prefix s s0 : properties_ s0 = ∅ ->
  map_Forall (fun k p => plain_key k /\ plain_value (value_ p) /\
    starts_with (option_prefix prefix) (lit "--" ++ k) = true) (properties_ s) ->
  exists opts s', getCommandLineOptions s = (Ok opts, s) /\
    parseCommandLineOptions prefix opts s0 = (Ok [], s') /\ value_ <$> properties_ s' = value_ <$> properties_ s.
Proof.
  intros H0 Hm. exists (rendered (in_order (properties_ s))).
  destruct (replay (option_prefix prefix) (in_order (properties_ s)) s0) as [msgs E].
  - apply Forall_forall. intros [k p] Hin. apply elem_of_in_order in Hin. destruct (Hm k p Hin) as (? & ? & ?).
    by rewrite H0, lookup_empty.
  - rewrite in_order_Permutation. apply NoDup_fst_map_to_list.
  - eexists. split; [done|]. split; [exact E|]. cbn [set_properties properties_]. rewrite H0, (right_id_L ∅ (∪)).
    apply map_eq. intros k. rewrite !lookup_fmap.
    assert (forall l : list (str * PropertyValue),
      value_ <$> ((list_to_map (fresh <$> l) : gmap str PropertyValue) !! k)
        = value_ <$> ((list_to_map l : gmap str PropertyValue) !! k)) as Hl.
    { induction l as [|[k2 p2] l IH]; [done|]. cbn [fmap list_fmap fresh list_to_map foldr fst snd] in *.
      destruct (decide (k = k2)) as [->|]; [by rewrite !lookup_insert_eq|by rewrite !lookup_insert_ne]. }
    rewrite Hl. f_equal. rewrite <- (list_to_map_to_list (properties_ s)) at 2. f_equal.
    apply list_to_map_proper; [|apply in_order_Permutation].
    rewrite in_order_Permutation. apply NoDup_fst_map_to_list.
Qed.

Lemma command_line_roundtrip_witness :
  let s := MkProperties {[lit "Ice.Trace" := MkValue (lit "2 x=y") true]} None [] in
  exists opts s', getCommandLineOptions s = (Ok opts, s) /\
    parseCommandLineOptions (lit "Ice") opts (properties_new None) = (Ok [], s') /\
    value_ <$> properties_ s' = value_ <$> properties_ s.
Proof.
  intros s. apply (command_line_roundtrip (lit "Ice")); [done|]. apply map_Forall_singleton.
  split_and!; [split_and!|split|done].
  - exists "I"%char, "e"%char. split_and!; [done|done|..]; by apply not_blank.
  - repeat (apply Forall_cons; split; [by split_and!|]). by apply Forall_nil.
  - by vm_compute.
  - exists "2"%char, "y"%char. split_and!; [done|done|..]; by apply not_blank.
  - repeat (apply Forall_cons; split; [by split_and!|]). by apply Forall_nil.
Defined.

(** ** Configuration files *)

Lemma getlines_nonempty content : forall line, line <> [] -> getlines line content <> [].
Proof.
  induction content as [|c content IH]; intros line Hl; cbn [getlines].
  - by destruct line.
  - case_if; [done|]. apply IH. by destruct line.
Qed.

(** The first line is what was read of it and the rest, up to the line feed. *)
Lemma getlines_line content : forall line l ls, getlines line content = l :: ls ->
  exists r t, l = line ++ r /\ content = r ++ t /\
    forall pre, pre ++ line <> [] -> getlines (pre ++ line) content = (pre ++ l) :: ls.
Proof.
  induction content as [|c content IH]; intros line l ls E; cbn [getlines] in *.
  - destruct line as [|x line]; [done|]. injection E as <- <-. exists [], []. rewrite app_nil_r.
    split_and!; [done|done|]. intros pre Hp. by destruct (pre ++ x :: line).
  - destruct (ceq c (chr 10)) eqn:Ec.
    + injection E as <- <-. exists [], (c :: content). by rewrite app_nil_r.
    + destruct (IH (line ++ [c]) l ls E) as (r & t & -> & -> & Hr). exists (c :: r), t. rewrite <- app_assoc.
      split_and!; [done|done|]. intros pre Hp. rewrite <- app_assoc, Hr, <- app_assoc; [done|]. by destruct pre, line.
Qed.

Lemma skip_bom_app line : skip_bom (UTF8_BOM ++ line) = line.
Proof. unfold skip_bom. by rewrite starts_with_app. Qed.

Lemma skip_bom_none line t : starts_with UTF8_BOM (line ++ t) = false -> skip_bom line = line.
Proof.
  intros H. unfold skip_bom. destruct (starts_with UTF8_BOM line) eqn:E; [|done].
  apply starts_with_spec in E as [u ->]. by rewrite <- app_assoc, starts_with_app in H.
Qed.

(** Loading a file that starts with the UTF-8 byte order mark has the same
    outcome as loading it without the mark. *)
Theorem load_skips_bom file path content s :
  nativeToUTF8 (converter_ s) file = Ok path -> starts_with UTF8_BOM content = false ->
  load (fun p => if str_eqb p path then Some (UTF8_BOM ++ content) else None) file s =
  load (fun p => if str_eqb p path then Some content else None) file s.
Proof.
  intros Hp Hc. unfold load. step. step. rewrite !(bind_lift _ _ _ _ Hp), !(proj2 (str_eqb_true path path)) by done.
  change (getlines [] (UTF8_BOM ++ content)) with (getlines UTF8_BOM content).
  destruct content as [|c content]; [by cbn; rewrite bind_get|]. cbn [getlines].
  destruct (ceq c (chr 10)); [done|]. cbn [app]. change (UTF8_BOM ++ [c]) with (UTF8_BOM ++ [c]).
  destruct (getlines [c] content) as [|l ls] eqn:E; [by apply getlines_nonempty in E|].
  destruct (getlines_line _ _ _ _ E) as (r & t & -> & -> & ->); [|done].
  by rewrite skip_bom_app, (skip_bom_none _ t).
Qed.

Lemma load_skips_bom_witness :
  let content := lit "a=1" ++ [chr 10] ++ lit "# comment" in
  fst ((load (fun p => if str_eqb p (lit "f") then Some (UTF8_BOM ++ content) else None) (lit "f");;
        getProperty (lit "a")) (properties_new None)) = Ok (lit "1") /\
  load (fun p => if str_eqb p (lit "f") then Some (UTF8_BOM ++ content) else None) (lit "f") (properties_new None) =
  load (fun p => if str_eqb p (lit "f") then Some content else None) (lit "f") (properties_new None).
Proof. intros content. split; [by vm_compute|]. by apply load_skips_bom. Defined.

(** ** What the code does beside its intent *)

(** An escaped space before a comment is appended to the value twice, while the
    same value without a comment has one space. *)
Theorem escaped_space_doubled :
  fst ((parseLine (lit "a=\ # comment") None;; getProperty (lit "a")) (properties_new None)) = Ok (lit "  ") /\
  fst ((parseLine (lit "a=\ ") None;; getProperty (lit "a")) (properties_new None)) = Ok (lit " ").
Proof. by vm_compute. Qed.

(** A list property with an unmatched quote is answered as far as it was split,
    although the warning says that the default value is returned. *)
Theorem mismatched_list_kept :
  let s := MkProperties {[lit "a" := MkValue (lit "x,'y") false]} None [] in
  fst (getPropertyAsListWithDefault (lit "a") [lit "default"] s) = Ok [lit "x"; lit "y"] /\
  warnings_ (snd (getPropertyAsListWithDefault (lit "a") [lit "default"] s)) =
    [lit "mismatched quotes in property a's value, returning default value"].
Proof. by vm_compute. Qed.

(** With ICE_CONFIG not set, the argument --Ice.Config without a value makes
    the constructor load a file named 1. *)
Theorem config_option_alone :
  fst (properties_args (fun _ => None) None [lit "prog"; lit "--Ice.Config"] (properties_new None)) =
    Throw (FileException (lit "1")).
Proof. by vm_compute. Qed.
