(* ===== verification/OptionsSplit.v ===== *)
(** * The shell-like splitter of command lines

    Options::split of cpp/src/IceUtil/Options.cpp: words are separated by
    blanks and may hold parts in single quotes, double quotes or the ANSI
    quotes of bash. The loop of the source runs over indices of the trimmed
    line; here a turn takes the character at [i] and the rest of the line
    behind it, so that [i < l.size() - 1] says that the rest is not empty. *)

From S2P Require Import Prelude CxxString StringUtil.

(** Internal Field Separator *)
Definition IFS : str := [" "%char; chr 9; chr 10].

Definition is_ifs (c : ascii) : bool := mem_char c IFS.

Inductive ParseState : Type := Normal | DoubleQuote | SingleQuote | ANSIQuote.

#[export] Instance ParseState_eq : EqDecision ParseState.
Proof. solve_decision. Defined.

Definition newline : ascii := chr 10.
Definition dollar : ascii := "$".

(** The line without the blanks at its ends; [None] when nothing is left *)
Definition strip_ifs (line : str) : option str :=
  match find_first_not_of IFS 0 line, find_last_not_of IFS line with
  | Some start, Some end_ => Some (substr start (end_ - start + 1) line)
  | _, _ => None
  end.

(** What one turn of the loop leaves: the state, the word so far, the words
    before it and the rest of the line *)
Definition turn : Type := ParseState * str * list str * str.

Fixpoint skip_ifs (rest : str) : str :=
  match rest with
  | c :: rest' => if is_ifs c then skip_ifs rest' else rest
  | [] => []
  end.

Definition normal_turn (c : ascii) (rest : str) (arg : str) (vec : list str) : turn :=
  if ceq c backslash then
    match rest with
    | [] => (Normal, arg, vec, [])
    | d :: rest' =>
        if ceq d newline then (Normal, arg, vec, rest')
        else if mem_char d [" "%char; dollar; squote; dquote] then (Normal, arg ++ [d], vec, rest')
        else (Normal, arg ++ [backslash; d], vec, rest')
    end
  else if ceq c squote then (SingleQuote, arg, vec, rest)
  else if ceq c dquote then (DoubleQuote, arg, vec, rest)
  else if ceq c dollar then
    match rest with
    | d :: rest' => if ceq d squote then (ANSIQuote, arg, vec, rest') else (Normal, arg ++ [dollar], vec, rest)
    | [] => (Normal, arg ++ [dollar], vec, [])
    end
  else if is_ifs c then (Normal, [], vec ++ [arg], skip_ifs rest)
  else (Normal, arg ++ [c], vec, rest).

Definition double_turn (c : ascii) (rest : str) (arg : str) (vec : list str) : turn :=
  match (if ceq c backslash then rest else []) with
  | d :: rest' =>
      if mem_char d [dquote; backslash; newline] then (DoubleQuote, arg ++ [d], vec, rest')
      else (DoubleQuote, arg ++ [backslash; d], vec, rest')
  | [] =>
      if ceq c dquote then (Normal, arg, vec, rest) else (DoubleQuote, arg ++ [c], vec, rest)
  end.

Definition single_turn (c : ascii) (rest : str) (arg : str) (vec : list str) : turn :=
  if ceq c squote then (Normal, arg, vec, rest) else (SingleQuote, arg ++ [c], vec, rest).

(** Up to [n] digits of an escape sequence: the value and the rest *)
Fixpoint octal_digits (n : nat) (us : Z) (rest : str) : Z * str :=
  match n, rest with
  | S n', c :: rest' =>
      if between 48 55 c then octal_digits n' (us * 8 + ord c - 48) rest' else (us, rest)
  | _, _ => (us, rest)
  end.

Definition isxdigit (c : ascii) : bool := between 48 57 c || between 97 102 c || between 65 70 c.

Definition xdigit_value (c : ascii) : Z :=
  if isdigit c then ord c - 48 else if islower c then ord c - 97 + 10 else ord c - 65 + 10.

Fixpoint hex_digits (n : nat) (ull : Z) (rest : str) : Z * str :=
  match n, rest with
  | S n', c :: rest' =>
      if isxdigit c then hex_digits n' (ull * 16 + xdigit_value c) rest' else (ull, rest)
  | _, _ => (ull, rest)
  end.

(** The single-letter escape sequences *)
Definition ansi_letter (c : ascii) : option ascii :=
  if ceq c "a" then Some (chr 7)
  else if ceq c "b" then Some (chr 8)
  else if ceq c "f" then Some (chr 12)
  else if ceq c "n" then Some (chr 10)
  else if ceq c "r" then Some (chr 13)
  else if ceq c "t" then Some (chr 9)
  else if ceq c "v" then Some (chr 11)
  else if ceq c backslash then Some backslash
  else if ceq c squote then Some squote
  else if ceq c "e" then Some (chr 27)
  else None.

(** What the sequence [\c d] stands for *)
Definition control_char (d : ascii) : str :=
  if isAlpha d || ceq d "@" || between 91 95 d
  then [chr (ord (toupper d) - 64)]
  else [backslash; "c"%char; d].

(** The escape sequence of the backslash and [c]: the characters it stands
    for and the rest of the line. A [\c] at the end of the line reads the
    character at [l.size()] of a string that is not constant. *)
Definition ansi_escape (c : ascii) (rest : str) : result (str * str) :=
  match ansi_letter c with
  | Some e => Ok ([e], rest)
  | None =>
      if between 48 55 c then
        let '(us, rest') := octal_digits 3 0 (c :: rest) in Ok ([chr us], rest')
      else if ceq c "x" then
        match rest with
        | d :: _ =>
            if negb (isxdigit d) then Ok ([backslash; "x"%char], rest)
            else let '(ull, rest') := hex_digits 2 0 rest in Ok ([chr ull], rest')
        | [] => Ok ([chr 0], [])
        end
      else if ceq c "c" then
        match rest with
        | d :: rest' => Ok (control_char d, rest')
        | [] => Fault UndefinedBehaviour
        end
      else Ok ([backslash; c], rest)
  end.

Definition ansi_turn (c : ascii) (rest : str) (arg : str) (vec : list str) : result turn :=
  if ceq c backslash then
    match rest with
    | [] => Ok (ANSIQuote, arg, vec, [])
    | d :: rest' =>
        '(cs, rest'') ← ansi_escape d rest';
        Ok (ANSIQuote, arg ++ cs, vec, rest'')
    end
  else if ceq c squote then Ok (Normal, arg, vec, rest)
  else Ok (ANSIQuote, arg ++ [c], vec, rest).

Definition split_turn (state : ParseState) (c : ascii) (rest : str) (arg : str) (vec : list str) : result turn :=
  match state with
  | Normal => Ok (normal_turn c rest arg vec)
  | DoubleQuote => Ok (double_turn c rest arg vec)
  | SingleQuote => Ok (single_turn c rest arg vec)
  | ANSIQuote => ansi_turn c rest arg vec
  end.

(** Every turn takes at least one character. *)
Fixpoint words_loop (fuel : nat) (state : ParseState) (arg : str) (vec : list str) (l : str) :
    result (ParseState * str * list str) :=
  match l with
  | [] => Ok (state, arg, vec)
  | c :: rest =>
      match fuel with
      | O => Fault OutOfFuel
      | S fuel' =>
          '(state', arg', vec', rest') ← split_turn state c rest arg vec;
          words_loop fuel' state' arg' vec' rest'
      end
  end.

Definition split_end (r : ParseState * str * list str) : result (list str) :=
  let '(state, arg, vec) := r in
  match state with
  | Normal => Ok (vec ++ [arg])
  | SingleQuote => Throw (BadOptException (lit "missing closing single quote"))
  | DoubleQuote => Throw (BadOptException (lit "missing closing double quote"))
  | ANSIQuote => Throw (BadOptException (lit "unterminated $' quote"))
  end.

Definition split (line : str) : result (list str) :=
  match strip_ifs line with
  | None => Ok []
  | Some l => words_loop (length l) Normal [] [] l ≫= split_end
  end.

(** ** Every turn uses the rest of the line *)

Lemma suffix_cons_r (c : ascii) (r l : str) : r `suffix_of` l -> r `suffix_of` c :: l.
Proof. intros [k ->]. by exists (c :: k). Qed.

Create HintDb split.
#[local] Hint Resolve suffix_cons_r : split.
#[local] Hint Extern 1 (?l `suffix_of` ?l) => reflexivity : split.

Lemma skip_ifs_suffix rest : skip_ifs rest `suffix_of` rest.
Proof.
  induction rest as [|c rest IH]; cbn [skip_ifs]; [done|]. destruct (is_ifs c); auto with split.
Qed.

Lemma octal_digits_suffix n us rest : (octal_digits n us rest).2 `suffix_of` rest.
Proof.
  revert us rest. induction n as [|n IH]; intros us [|c rest]; cbn [octal_digits]; try done.
  destruct (between 48 55 c); [auto with split|done].
Qed.

Lemma hex_digits_suffix n ull rest : (hex_digits n ull rest).2 `suffix_of` rest.
Proof.
  revert ull rest. induction n as [|n IH]; intros ull [|c rest]; cbn [hex_digits]; try done.
  destruct (isxdigit c); [auto with split|done].
Qed.

#[local] Hint Resolve skip_ifs_suffix : split.

Lemma ansi_escape_suffix c rest cs rest' :
  ansi_escape c rest = Ok (cs, rest') -> rest' `suffix_of` c :: rest.
Proof.
  unfold ansi_escape. destruct (ansi_letter c); [injection 1 as <- <-; auto with split|].
  destruct (between 48 55 c).
  - pose proof (octal_digits_suffix 3 0 (c :: rest)) as Hl.
    destruct (octal_digits 3 0 (c :: rest)) as [us r]. injection 1 as <- <-. exact Hl.
  - destruct (ceq c "x"); [destruct rest as [|d rest]|]; [injection 1 as <- <-; auto with split| |].
    + destruct (negb (isxdigit d)); [injection 1 as <- <-; auto with split|].
      pose proof (hex_digits_suffix 2 0 (d :: rest)) as Hl.
      destruct (hex_digits 2 0 (d :: rest)) as [u r]. injection 1 as <- <-. auto with split.
    + destruct (ceq c "c"); [destruct rest as [|d rest]; [done|]|]; injection 1 as <- <-; auto with split.
Qed.

Definition rest_of (t : turn) : str := let '(_, _, _, rest) := t in rest.

Lemma normal_turn_suffix c rest arg vec : rest_of (normal_turn c rest arg vec) `suffix_of` rest.
Proof. unfold normal_turn. repeat case_match; cbn [rest_of] in *; auto with split. Qed.

Lemma double_turn_suffix c rest arg vec : rest_of (double_turn c rest arg vec) `suffix_of` rest.
Proof.
  unfold double_turn. destruct (ceq c backslash).
  - destruct rest; repeat case_match; cbn [rest_of]; auto with split.
  - destruct (ceq c dquote); cbn [rest_of]; auto with split.
Qed.

Lemma single_turn_suffix c rest arg vec : rest_of (single_turn c rest arg vec) `suffix_of` rest.
Proof. unfold single_turn. destruct (ceq c squote); cbn [rest_of]; auto with split. Qed.

Lemma ansi_turn_suffix c rest arg vec t : ansi_turn c rest arg vec = Ok t -> rest_of t `suffix_of` rest.
Proof.
  unfold ansi_turn. destruct (ceq c backslash); [destruct rest as [|d rest]|].
  - by injection 1 as <-.
  - cbn. destruct (ansi_escape d rest) as [[cs r]| |] eqn:He; cbn; [|done..].
    injection 1 as <-. by eapply ansi_escape_suffix.
  - destruct (ceq c squote); injection 1 as <-; cbn [rest_of]; auto with split.
Qed.

Lemma split_turn_suffix state c rest arg vec t :
  split_turn state c rest arg vec = Ok t -> rest_of t `suffix_of` rest.
Proof.
  destruct state; cbn [split_turn]; intros Ht; [injection Ht as <-..|by eapply ansi_turn_suffix].
  - apply normal_turn_suffix.
  - apply double_turn_suffix.
  - apply single_turn_suffix.
Qed.

(** The line in which a turn of the loop would read behind its end *)
Definition cut_control (l : str) : Prop := exists p, l = p ++ [backslash; "c"%char].

Lemma cut_control_suffix p l : cut_control l -> cut_control (p ++ l).
Proof. intros [q ->]. exists (p ++ q). by rewrite app_assoc. Qed.

Lemma ansi_escape_outcome c rest :
  (exists cs rest', ansi_escape c rest = Ok (cs, rest')) \/ (c = "c"%char /\ rest = [] /\ ansi_escape c rest = Fault UndefinedBehaviour).
Proof.
  unfold ansi_escape. destruct (ansi_letter c); [eauto|].
  destruct (between 48 55 c).
  - destruct (octal_digits 3 0 (c :: rest)); eauto.
  - destruct (ceq c "x"); [destruct rest as [|d rest]; [eauto|]|].
    + destruct (negb (isxdigit d)); [eauto|]. destruct (hex_digits 2 0 (d :: rest)); eauto.
    + destruct (ceq c "c") eqn:Ec; [|eauto]. apply ceq_true in Ec.
      destruct rest as [|d rest]; eauto.
Qed.

Lemma split_turn_outcome state c rest arg vec :
  (exists t, split_turn state c rest arg vec = Ok t) \/ (cut_control (c :: rest) /\
    split_turn state c rest arg vec = Fault UndefinedBehaviour).
Proof.
  destruct state; cbn [split_turn]; eauto. unfold ansi_turn.
  destruct (ceq c backslash) eqn:Ec; [|destruct (ceq c squote); eauto]. apply ceq_true in Ec as ->.
  destruct rest as [|d rest]; [eauto|].
  destruct (ansi_escape_outcome d rest) as [(cs & r & ->)|(-> & -> & ->)]; cbn; [eauto|].
  right. split; [by exists []|done].
Qed.

(** The loop ends within its fuel, and without a fault unless the line ends
    in a cut control sequence. *)
Lemma words_loop_outcome fuel : forall state arg vec l, (length l <= fuel)%nat ->
  (exists r, words_loop fuel state arg vec l = Ok r) \/ (cut_control l /\
    words_loop fuel state arg vec l = Fault UndefinedBehaviour).
Proof.
  induction fuel as [|fuel IH]; intros state arg vec [|c rest] Hl; cbn [words_loop length] in *; eauto; [lia|].
  destruct (split_turn_outcome state c rest arg vec) as [([[[st a] v] r] & Ht)|[Hc ->]]; [|by right].
  rewrite Ht. cbn. pose proof (split_turn_suffix _ _ _ _ _ _ Ht) as Hs. cbn [rest_of] in Hs.
  destruct (IH st a v r) as [?|[Hc ->]]; [|by left|right].
  - apply suffix_length in Hs. lia.
  - split; [|done]. destruct Hs as [k ->]. by apply (cut_control_suffix (c :: k)).
Qed.

(** Splitting a command line ends with its words or with a BadOptException for
    a quote that is not closed, and needs no more turns than the line has
    characters. Left out are lines whose last characters are a backslash and a c:
    only there can the source read behind the end of the line. *)
Lemma split_outcome line : (forall l, strip_ifs line = Some l -> ~ cut_control l) ->
  (exists words, split line = Ok words) \/ (exists reason, split line = Throw (BadOptException reason)).
Proof.
  unfold split. destruct (strip_ifs line) as [l|]; [|eauto]. intros Hc.
  destruct (words_loop_outcome (length l) Normal [] [] l) as [[[[[] arg] vec] ->]|[Hcut _]];
    cbn; eauto. by destruct (Hc l).
Qed.

Lemma split_outcome_witness : exists line, (exists words, split line = Ok words) \/
  (exists reason, split line = Throw (BadOptException reason)).
Proof.
  exists (lit "  prog -a 'b c' ok"). apply split_outcome. intros l Hl.
  vm_compute in Hl. injection Hl as <-. intros [p Hp].
  apply (f_equal (last)) in Hp. rewrite last_app in Hp. discriminate.
Defined.

(** The case that the theorem leaves out *)
Example split_reads_behind_the_end : split (lit "a $'b\c") = Fault UndefinedBehaviour.
Proof. reflexivity. Qed.

Example split_mixed :
  split (lit "  prog -a 'b c'  $'x\ty'\'z  C:\tmp ") =
  Ok [lit "prog"; lit "-a"; lit "b c"; lit "x" ++ [chr 9] ++ lit "y'z"; lit "C:\tmp"].
Proof. reflexivity. Qed.

(** ** Writing words *)

(** [run] is the loop with the fuel it needs. *)
Definition run (state : ParseState) (arg : str) (vec : list str) (l : str) : result (ParseState * str * list str) :=
  words_loop (length l) state arg vec l.

Lemma words_loop_fuel f1 : forall f2 state arg vec l, (length l <= f1)%nat -> (length l <= f2)%nat ->
  words_loop f1 state arg vec l = words_loop f2 state arg vec l.
Proof.
  induction f1 as [|f1 IH]; intros [|f2] state arg vec [|c rest] H1 H2; cbn [length] in *; try lia; try done.
  cbn [words_loop]. destruct (split_turn state c rest arg vec) as [[[[st a] v] r]| |] eqn:Ht; cbn; try done.
  apply split_turn_suffix in Ht. cbn [rest_of] in Ht. apply suffix_length in Ht. apply IH; lia.
Qed.

Lemma run_cons state arg vec c rest st a v r : split_turn state c rest arg vec = Ok (st, a, v, r) ->
  run state arg vec (c :: rest) = run st a v r.
Proof.
  intros Ht. unfold run. cbn [length words_loop]. rewrite Ht. cbn.
  apply split_turn_suffix in Ht. cbn [rest_of] in Ht. apply suffix_length in Ht. apply words_loop_fuel; lia.
Qed.

(** The ways to write a word: as it is, or in one of the quotes. In single
    quotes a single quote closes them, is written behind a backslash and
    opens them again. *)
Inductive style : Type := Plain | InDouble | InSingle | InANSI.

Definition escape_in (specials : str) (c : ascii) : str := if mem_char c specials then [backslash; c] else [c].

Definition reopen_single (c : ascii) : str := if ceq c squote then [squote; backslash; squote; squote] else [c].

Definition written (s : style) (w : str) : str :=
  match s with
  | Plain => w
  | InDouble => dquote :: (w ≫= escape_in [dquote; backslash]) ++ [dquote]
  | InSingle => squote :: (w ≫= reopen_single) ++ [squote]
  | InANSI => dollar :: squote :: (w ≫= escape_in [squote; backslash]) ++ [squote]
  end.

Definition plain_char (c : ascii) : bool :=
  negb (mem_char c [" "%char; chr 9; newline; backslash; squote; dquote; dollar]).

(** A word is written as it is when it has no blank, quote, dollar sign or
    backslash, and is not empty. *)
Definition can_write (s : style) (w : str) : bool :=
  match s with Plain => match w with [] => false | _ => forallb plain_char w end | _ => true end.

Lemma run_plain w : forall arg vec rest, forallb plain_char w = true ->
  run Normal arg vec (w ++ rest) = run Normal (arg ++ w) vec rest.
Proof.
  induction w as [|c w IH]; intros arg vec rest Hw; [by rewrite app_nil_r|].
  cbn [forallb] in Hw. apply andb_true_iff in Hw as [Hc Hw]. change ((c :: w) ++ rest) with (c :: w ++ rest).
  rewrite (run_cons _ _ _ _ _ Normal (arg ++ [c]) vec (w ++ rest)), IH, <- app_assoc; [done..|].
  revert Hc. unfold plain_char, split_turn, normal_turn, is_ifs, IFS, mem_char, newline. cbn [existsb].
  rewrite negb_true_iff, !orb_false_iff. intros (-> & -> & -> & -> & -> & -> & -> & _). done.
Qed.

(** A quoted word: the quote is closed by one character, and every other
    character of the word is written so that it arrives. *)
Lemma run_body st (enc : ascii -> str) (close : ascii) :
  (forall c arg vec rest, run st arg vec (enc c ++ rest) = run st (arg ++ [c]) vec rest) ->
  (forall arg vec rest, run st arg vec (close :: rest) = run Normal arg vec rest) ->
  forall w arg vec rest,
  run st arg vec ((w ≫= enc) ++ close :: rest) = run Normal (arg ++ w) vec rest.
Proof.
  intros Henc Hclose. induction w as [|c w IH]; intros arg vec rest.
  - rewrite app_nil_r. apply Hclose.
  - rewrite bind_cons, <- app_assoc, Henc, IH, <- app_assoc. done.
Qed.

Lemma run_double c arg vec rest :
  run DoubleQuote arg vec (escape_in [dquote; backslash] c ++ rest) = run DoubleQuote (arg ++ [c]) vec rest.
Proof.
  unfold escape_in, mem_char. cbn [existsb].
  destruct (ceq c dquote) eqn:Hq; [apply ceq_true in Hq as ->; by apply run_cons|].
  destruct (ceq c backslash) eqn:Hb; [apply ceq_true in Hb as ->; by apply run_cons|].
  apply run_cons. cbn [split_turn]. unfold double_turn. by rewrite Hb, Hq.
Qed.

Lemma run_single c arg vec rest :
  run SingleQuote arg vec (reopen_single c ++ rest) = run SingleQuote (arg ++ [c]) vec rest.
Proof.
  unfold reopen_single. destruct (ceq c squote) eqn:Hq; [apply ceq_true in Hq as ->|].
  - cbn [app]. rewrite (run_cons _ _ _ _ _ Normal arg vec (backslash :: squote :: squote :: rest)) by done.
    rewrite (run_cons _ _ _ _ _ Normal (arg ++ [squote]) vec (squote :: rest)) by done. by apply run_cons.
  - apply run_cons. cbn [split_turn]. unfold single_turn. by rewrite Hq.
Qed.

Lemma run_ansi c arg vec rest :
  run ANSIQuote arg vec (escape_in [squote; backslash] c ++ rest) = run ANSIQuote (arg ++ [c]) vec rest.
Proof.
  unfold escape_in, mem_char. cbn [existsb].
  destruct (ceq c squote) eqn:Hq; [apply ceq_true in Hq as ->; by apply run_cons|].
  destruct (ceq c backslash) eqn:Hb; [apply ceq_true in Hb as ->; by apply run_cons|].
  apply run_cons. cbn [split_turn]. unfold ansi_turn. by rewrite Hb, Hq.
Qed.

Lemma run_written s w arg vec rest : can_write s w = true ->
  run Normal arg vec (written s w ++ rest) = run Normal (arg ++ w) vec rest.
Proof.
  destruct s; cbn [can_write written]; intros Hw.
  - destruct w as [|c w]; [done|]. by apply run_plain.
  - cbn [app]. rewrite <- app_assoc, (run_cons _ _ _ _ _ DoubleQuote arg vec ((w ≫= escape_in [dquote; backslash]) ++ [dquote] ++ rest)) by done.
    apply run_body; [apply run_double|]. intros. by apply run_cons.
  - cbn [app]. rewrite <- app_assoc, (run_cons _ _ _ _ _ SingleQuote arg vec ((w ≫= reopen_single) ++ [squote] ++ rest)) by done.
    apply run_body; [apply run_single|]. intros. by apply run_cons.
  - cbn [app]. rewrite <- app_assoc.
    rewrite (run_cons _ _ _ _ _ ANSIQuote arg vec ((w ≫= escape_in [squote; backslash]) ++ [squote] ++ rest)) by done.
    apply run_body; [apply run_ansi|]. intros. by apply run_cons.
Qed.

(** ** Writing lines *)

(** Words behind their separators *)
Definition word : Type := style * str.
Definition written_word (w : word) : str := written w.1 w.2.
Definition word_ok (w : word) : bool := can_write w.1 w.2.

Fixpoint written_words (l : list (str * word)) : str :=
  match l with
  | [] => []
  | (sep, w) :: l' => sep ++ written_word w ++ written_words l'
  end.

Definition blanks (sep : str) : bool := forallb is_ifs sep.
Definition separated (x : str * word) : bool :=
  match x.1 with [] => false | _ => blanks x.1 end && word_ok x.2.

Definition starts_solid (l : str) : Prop := exists c l', l = c :: l' /\ is_ifs c = false.
Definition ends_solid (l : str) : Prop := exists c l', l = l' ++ [c] /\ is_ifs c = false.

Lemma plain_char_solid c : plain_char c = true -> is_ifs c = false.
Proof.
  unfold plain_char, is_ifs, IFS, mem_char, newline. cbn [existsb].
  rewrite negb_true_iff, !orb_false_iff. by intros (-> & -> & -> & _).
Qed.

Lemma written_starts_solid w : word_ok w = true -> starts_solid (written_word w).
Proof.
  destruct w as [[] w]; unfold word_ok, written_word; cbn [can_write written fst snd]; intros Hw;
    [|by eexists _, _..].
  destruct w as [|c w]; [done|]. cbn [forallb] in Hw. apply andb_true_iff in Hw as [Hc _].
  exists c, w. split; [done|]. by apply plain_char_solid.
Qed.

Lemma written_ends_solid w : word_ok w = true -> ends_solid (written_word w).
Proof.
  destruct w as [[] w]; unfold word_ok, written_word; cbn [can_write written fst snd]; intros Hw.
  - destruct w as [|c w _] using rev_ind; [done|]. exists c, w. split; [done|]. apply plain_char_solid.
    destruct (w ++ [c]) eqn:E; [by destruct w|]. rewrite <- E, forallb_app in Hw. cbn in Hw.
    apply andb_true_iff in Hw as [_ Hw]. by rewrite andb_true_r in Hw.
  - exists dquote, (dquote :: (w ≫= escape_in [dquote; backslash])). done.
  - exists squote, (squote :: (w ≫= reopen_single)). done.
  - exists squote, (dollar :: squote :: (w ≫= escape_in [squote; backslash])). done.
Qed.

Lemma skip_blanks sep l : blanks sep = true -> starts_solid l -> skip_ifs (sep ++ l) = l.
Proof.
  intros Hsep (c & l' & -> & Hc). induction sep as [|d sep IH]; cbn [app skip_ifs].
  - by rewrite Hc.
  - unfold blanks in *. cbn [forallb] in Hsep. apply andb_true_iff in Hsep as [-> Hsep]. auto.
Qed.

Lemma run_separator c sep l arg vec : is_ifs c = true -> blanks sep = true -> starts_solid l ->
  run Normal arg vec (c :: sep ++ l) = run Normal [] (vec ++ [arg]) l.
Proof.
  intros Hc Hsep Hl. rewrite (run_cons _ _ _ _ _ Normal [] (vec ++ [arg]) l); [done|].
  rewrite <- (skip_blanks sep l) at 2 by done. cbn [split_turn]. unfold normal_turn. rewrite Hc.
  assert (c = " "%char \/ c = chr 9 \/ c = chr 10) as [->|[->| ->]]; [|done..].
  revert Hc. unfold is_ifs, IFS, mem_char. cbn [existsb]. rewrite !orb_true_iff, !ceq_true. naive_solver.
Qed.

Lemma starts_solid_app l l' : starts_solid l -> starts_solid (l ++ l').
Proof. intros (c & k & -> & Hc). by exists c, (k ++ l'). Qed.

Lemma run_words l : forall arg vec, forallb separated l = true ->
  (run Normal arg vec (written_words l) ≫= split_end) = Ok (vec ++ arg :: map (fun x => snd (snd x)) l).
Proof.
  induction l as [|[sep w] l IH]; intros arg vec Hl; [done|].
  cbn [forallb written_words map snd] in *. apply andb_true_iff in Hl as [Hw Hl].
  unfold separated in Hw. cbn [fst snd] in Hw. apply andb_true_iff in Hw as [Hsep Hw].
  destruct sep as [|c sep]; [done|]. unfold blanks in Hsep. cbn [forallb] in Hsep.
  apply andb_true_iff in Hsep as [Hc Hsep]. cbn [app].
  rewrite run_separator; [|done..|by apply starts_solid_app, written_starts_solid].
  unfold written_word. rewrite run_written by done. cbn [app]. rewrite IH, <- app_assoc by done. done.
Qed.

Lemma blanks_spec sep : blanks sep = true <-> forall c, c ∈ sep -> is_ifs c = true.
Proof.
  unfold blanks. rewrite forallb_forall. split; intros H c Hc; apply H; by apply list_elem_of_In.
Qed.

Lemma blanks_reverse sep : blanks sep = true -> blanks (reverse sep) = true.
Proof. rewrite !blanks_spec. intros H c Hc. apply H. by rewrite elem_of_reverse in Hc. Qed.

Lemma starts_solid_find lead l : blanks lead = true -> starts_solid l ->
  find_if (fun c => negb (mem_char c IFS)) (lead ++ l) = Some (length lead).
Proof.
  intros Hl (c & l' & -> & Hc). apply find_if_app.
  - apply Forall_forall. intros d Hd. rewrite negb_false_iff. by apply (proj1 (blanks_spec lead) Hl).
  - rewrite negb_true_iff. exact Hc.
Qed.

(** Blanks at both ends are stripped, and nothing else. *)
Lemma strip_blanks lead body trail : blanks lead = true -> blanks trail = true ->
  starts_solid body -> ends_solid body -> strip_ifs (lead ++ body ++ trail) = Some body.
Proof.
  intros Hl Ht Hs (d & body' & Hb & Hd). unfold strip_ifs, find_first_not_of, find_last_not_of, find_if_from.
  rewrite drop_0, starts_solid_find; [|done|by apply starts_solid_app].
  replace (reverse (lead ++ body ++ trail)) with (reverse trail ++ d :: reverse body' ++ reverse lead)
    by (rewrite Hb, reverse_app, reverse_app, reverse_snoc, <- app_assoc; done).
  rewrite starts_solid_find; [|by apply blanks_reverse|by eexists d, _].
  cbn. f_equal. unfold substr. rewrite !length_app, length_reverse, Hb, length_app. cbn.
  rewrite drop_app_length. rewrite <- Hb. apply take_app_length'. rewrite Hb, length_app. cbn. lia.
Qed.

Lemma ends_solid_app l l' : ends_solid l' -> ends_solid (l ++ l').
Proof. intros (c & k & -> & Hc). exists c, (l ++ k). by rewrite app_assoc. Qed.

Lemma written_words_solid l : forall w, word_ok w = true -> forallb separated l = true ->
  ends_solid (written_word w ++ written_words l).
Proof.
  induction l as [|[sep w'] l IH]; intros w Hw Hl; cbn [written_words forallb] in *.
  - rewrite app_nil_r. by apply written_ends_solid.
  - apply andb_true_iff in Hl as [[_ Hw']%andb_true_iff Hl].
    apply ends_solid_app, ends_solid_app. by apply IH.
Qed.

(** C26. The words of a command line come back however they are written: as they
    are, in double, single or ANSI quotes, with any blanks between them and around
    the line. *)
Theorem split_written lead w l trail :
  blanks lead = true -> blanks trail = true -> word_ok w = true -> forallb separated l = true ->
  split (lead ++ (written_word w ++ written_words l) ++ trail) = Ok (snd w :: map (fun x => snd (snd x)) l).
Proof.
  intros Hlead Htrail Hw Hl. unfold split.
  rewrite strip_blanks; [|done|done|by apply starts_solid_app, written_starts_solid|by apply written_words_solid].
  change (words_loop _ Normal [] [] ?k) with (run Normal [] [] k).
  unfold written_word at 1. rewrite run_written by done. by apply (run_words l (w.2) []).
Qed.

Lemma split_written_witness :
  split (lit " prog 'it'\''s'  " ++ [dquote; backslash; dquote; dquote; " "%char])
  = Ok [lit "prog"; lit "it's"; [dquote]].
Proof.
  exact (split_written [" "%char] (Plain, lit "prog")
    [([" "%char], (InSingle, lit "it's")); (lit "  ", (InDouble, [dquote]))] [" "%char]
    eq_refl eq_refl eq_refl eq_refl).
Defined.
