(* ===== verification/Options.v ===== *)
(** * The option parser

    cpp/src/IceUtil/Options.cpp and Options.h: declaration of options with
    short and long names, defaults and repetition, parsing of an argument
    vector, and the queries. OptionDetails and OptionValueVector are shared
    between the two names of an option and changed in place: they live in two
    stores, and the maps hold their indices. An OptionValue is never changed
    after it was made, so its string stands for it. The mutex is left out:
    every operation runs under it from its beginning to its end. *)

From stdpp Require Import gmap.
From S2P Require Import Prelude CxxString StringUtil OptionsSplit.

Inductive LengthType : Type := ShortOpt | LongOpt.
Inductive RepeatType : Type := Repeat | NoRepeat.
Inductive ArgType : Type := NeedArg | NoArg.

#[export] Instance LengthType_eq : EqDecision LengthType.
Proof. solve_decision. Defined.
#[export] Instance RepeatType_eq : EqDecision RepeatType.
Proof. solve_decision. Defined.
#[export] Instance ArgType_eq : EqDecision ArgType.
Proof. solve_decision. Defined.

Record OptionDetails : Type := MkDetails {
  od_length : LengthType;
  od_arg : ArgType;
  od_repeat : RepeatType;
  od_hasDefault : bool
}.

Record Options : Type := MkOptions {
  details : list OptionDetails;       (* the OptionDetails objects *)
  vectors : list (list str);          (* the OptionValueVector objects *)
  validOpts : gmap str nat;
  opts : gmap str str;
  ropts : gmap str nat;
  synonyms : gmap str str;
  parseCalled : bool
}.

(** Options::Options *)
Definition options_new : Options := MkOptions [] [] ∅ ∅ ∅ ∅ false.

Definition set_details f s := MkOptions (f (details s)) (vectors s) (validOpts s) (opts s) (ropts s) (synonyms s) (parseCalled s).
Definition set_vectors f s := MkOptions (details s) (f (vectors s)) (validOpts s) (opts s) (ropts s) (synonyms s) (parseCalled s).
Definition set_validOpts f s := MkOptions (details s) (vectors s) (f (validOpts s)) (opts s) (ropts s) (synonyms s) (parseCalled s).
Definition set_opts f s := MkOptions (details s) (vectors s) (validOpts s) (f (opts s)) (ropts s) (synonyms s) (parseCalled s).
Definition set_ropts f s := MkOptions (details s) (vectors s) (validOpts s) (opts s) (f (ropts s)) (synonyms s) (parseCalled s).
Definition set_synonyms f s := MkOptions (details s) (vectors s) (validOpts s) (opts s) (ropts s) (f (synonyms s)) (parseCalled s).
Definition set_parseCalled v s := MkOptions (details s) (vectors s) (validOpts s) (opts s) (ropts s) (synonyms s) v.

Abbreviation opM := (M Options).

(** Dereference of a handle *)
Definition deref {A} (o : option A) : opM A :=
  match o with Some a => mret a | None => faultM UndefinedBehaviour end.

Definition detail (h : nat) : opM OptionDetails := s ← get; deref (details s !! h).
Definition vector (k : nat) : opM (list str) := s ← get; deref (vectors s !! k).

(** The member [parseCalled] *)
Definition was_called : opM bool := gets parseCalled.

(** [isEmpty opt] is [opt.empty()]. *)
Definition isEmpty (s : str) : bool := match s with [] => true | _ => false end.

(** ** Declaring options *)

Definition whitespace : str := [" "%char; chr 9; chr 10; chr 13; chr 12; chr 11].
Definition has_whitespace (s : str) : bool :=
  match find_first_of whitespace 0 s with Some _ => true | None => false end.

Definition illegal {A} (reason : str) : result A := Throw (IllegalArgumentException reason).

Definition checkArgs (shortOpt longOpt : str) (needArg : bool) (dflt : str) : result unit :=
  if isEmpty shortOpt && isEmpty longOpt then
    illegal (lit "short and long option cannot both be empty")
  else
  _ ← (if isEmpty shortOpt then Ok tt
       else if negb (length shortOpt =? 1)%nat then
         illegal (lit "`" ++ shortOpt ++ lit "': a short option cannot specify more than one option")
       else if has_whitespace shortOpt then
         illegal (lit "`" ++ shortOpt ++ lit "': a short option cannot be whitespace")
       else if ceq (at_ shortOpt 0) "-" then
         illegal (lit "`" ++ shortOpt ++ lit "': a short option cannot be `-'")
       else Ok tt);
  _ ← (if isEmpty longOpt then Ok tt
       else if has_whitespace longOpt then
         illegal (lit "`" ++ longOpt ++ lit "': a long option cannot contain whitespace")
       else if ceq (at_ longOpt 0) "-" then
         illegal (lit "`" ++ longOpt ++ lit "': a long option must not contain a leading `-'")
       else Ok tt);
  if negb needArg && negb (isEmpty dflt) then
    illegal (lit "a default value can be specified only for options requiring an argument")
  else Ok tt.

(** ** The values of options *)

Definition getSynonym (optName : str) : opM str :=
  gets (fun s => match synonyms s !! optName with Some n => n | None => [] end).

Definition updateSynonyms (shortOpt longOpt : str) : opM unit :=
  if negb (isEmpty shortOpt) && negb (isEmpty longOpt) then
    modify (set_synonyms (fun m => <[longOpt := shortOpt]> (<[shortOpt := longOpt]> m)))
  else mret tt.

Definition setNonRepeatingOpt (opt val : str) : opM unit :=
  if isEmpty opt then mret tt else
  s ← get;
  match opts s !! opt with
  | None => mret tt
  | Some _ => h ← deref (validOpts s !! opt); d ← detail h; assertM (od_hasDefault d)
  end;;
  modify (set_opts <[opt := val]>);;
  synonym ← getSynonym opt;
  if isEmpty synonym then mret tt else modify (set_opts <[synonym := val]>).

(** The first value given replaces the default; the others are added. *)
Definition replace_or_append (h k : nat) (val : str) : opM unit :=
  d ← detail h;
  vals ← vector k;
  if od_hasDefault d && (length vals =? 1)%nat then
    modify (set_vectors <[k := <[0%nat := val]> vals]>);;
    modify (set_details <[h := MkDetails (od_length d) (od_arg d) (od_repeat d) false]>)
  else modify (set_vectors <[k := vals ++ [val]]>).

(** [assert(_validOpts.find(name) != end() && it->second->repeat == Repeat)] *)
Definition assert_repeating (name : str) : opM unit :=
  s ← get;
  assertM (match validOpts s !! name with Some _ => true | None => false end);;
  h ← deref (validOpts s !! name);
  d ← detail h;
  assertM (bool_decide (od_repeat d = Repeat)).

Definition setRepeatingOpt (opt val : str) : opM unit :=
  if isEmpty opt then mret tt else
  s ← get;
  assertM (match validOpts s !! opt with Some _ => true | None => false end);;
  vpos ← deref (validOpts s !! opt);
  synonym ← getSynonym opt;
  match ropts s !! opt, ropts s !! synonym with
  | Some pos, _ =>
      assert_repeating opt;;
      modify (set_ropts <[opt := pos]>);;
      replace_or_append vpos pos val
  | None, Some spos =>
      assert_repeating synonym;;
      modify (set_ropts <[synonym := spos]>);;
      replace_or_append vpos spos val
  | None, None =>
      let ovp := length (vectors s) in
      modify (set_vectors (fun v => v ++ [[val]]));;
      modify (set_ropts <[opt := ovp]>);;
      if isEmpty synonym then mret tt else modify (set_ropts <[synonym := ovp]>)
  end.

Definition setOpt (opt1 opt2 val : str) (rt : RepeatType) : opM unit :=
  assertM (negb (isEmpty opt1 && isEmpty opt2));;
  match rt with
  | NoRepeat => setNonRepeatingOpt opt1 val;; setNonRepeatingOpt opt2 val
  | Repeat => setRepeatingOpt opt1 val;; setRepeatingOpt opt2 val
  end.

Definition check_duplicate (name : str) : opM unit :=
  s ← get;
  match (if isEmpty name then None else validOpts s !! name) with
  | Some _ => throw (IllegalArgumentException (lit "`" ++ name ++ lit "': duplicate option"))
  | None => mret tt
  end.

(** [odp->length = lt; _validOpts[name] = odp] when the name is not empty *)
Definition enter_name (name : str) (odp : nat) (lt : LengthType) : opM unit :=
  if isEmpty name then mret tt else
  d ← detail odp;
  modify (set_details <[odp := MkDetails lt (od_arg d) (od_repeat d) (od_hasDefault d)]>);;
  modify (set_validOpts <[name := odp]>).

(** The member [length] of a new OptionDetails is not initialized before one
    of the names is entered, which is always the case behind [checkArgs]. *)
Definition addValidOpt (shortOpt longOpt : str) (at_type : ArgType) (dflt : str) (rt : RepeatType) : opM unit :=
  check_duplicate shortOpt;;
  check_duplicate longOpt;;
  s ← get;
  let odp := length (details s) in
  modify (set_details (fun l => l ++ [MkDetails ShortOpt at_type rt (negb (isEmpty dflt))]));;
  enter_name shortOpt odp ShortOpt;;
  enter_name longOpt odp LongOpt;;
  updateSynonyms shortOpt longOpt;;
  if bool_decide (at_type = NeedArg) && negb (isEmpty dflt) then setOpt shortOpt longOpt dflt rt else mret tt.

Definition addOpt (shortOpt longOpt : str) (at_type : ArgType) (dflt : str) (rt : RepeatType) : opM unit :=
  called ← was_called;
  if (called : bool) then throw (APIException (lit "cannot add options after parse() was called")) else
  lift (checkArgs shortOpt longOpt (bool_decide (at_type = NeedArg)) dflt);;
  addValidOpt shortOpt longOpt at_type dflt rt.

(** ** Parsing *)

(** The iterator into [_validOpts]: the details of the option *)
Definition checkOpt (opt : str) (lt : LengthType) : opM nat :=
  s ← get;
  match validOpts s !! opt with
  | None =>
      throw (BadOptException (lit "invalid option: `-"
        ++ (match lt with LongOpt => lit "-" | ShortOpt => [] end) ++ opt ++ lit "'"))
  | Some pos => mret pos
  end.

(** The set of options that may not come again *)
Definition note_seen (dashes opt : str) (pos : nat) (seen : gset str) : opM (gset str) :=
  d ← detail pos;
  match od_repeat d with
  | Repeat => mret seen
  | NoRepeat =>
      if bool_decide (opt ∈ seen) then
        throw (BadOptException (lit "`" ++ dashes ++ opt ++ lit ":' option cannot be repeated"))
      else
        synonym ← getSynonym opt;
        mret (if isEmpty synonym then {[opt]} ∪ seen else {[synonym]} ∪ ({[opt]} ∪ seen))
  end.

(** What the three branches for an argument leave: the option that has not
    got its value yet ([argDone] is false), the options seen, and the
    arguments that are no options *)
Definition arg_state : Type := option (str * nat) * gset str * list str.

Definition parse_long (a : str) (seen : gset str) (result : list str) : opM arg_state :=
  let p := find_char "=" 2 a in
  let opt := match p with Some p => substr 2 (p - 2) a | None => drop 2 a end in
  pos ← checkOpt opt LongOpt;
  seen ← note_seen (lit "--") opt pos seen;
  match p with
  | Some p =>
      d ← detail pos;
      if bool_decide (od_arg d = NoArg) && negb (p =? length a - 1)%nat then
        throw (BadOptException (lit "`" ++ a ++ lit "': option does not take an argument"))
      else
        setOpt opt [] (drop (S p) a) (od_repeat d);;
        mret (None, seen, result)
  | None => mret (Some (opt, pos), seen, result)
  end.

(** The characters of a short option, from [p] to the end; [pending] is the
    last option looked up. *)
Fixpoint parse_short (cs : str) (pending : option (str * nat)) (seen : gset str) (result : list str) : opM arg_state :=
  match cs with
  | [] => mret (pending, seen, result)
  | c :: cs' =>
      let opt := [c] in
      pos ← checkOpt opt ShortOpt;
      seen ← note_seen (lit "-") opt pos seen;
      d ← detail pos;
      if bool_decide (od_arg d = NeedArg) && negb (isEmpty cs') then
        setOpt opt [] cs' (od_repeat d);;
        mret (None, seen, result)
      else parse_short cs' (Some (opt, pos)) seen result
  end.

Definition parse_arg (a : str) (seen : gset str) (result : list str) : opM arg_state :=
  if starts_with (lit "--") a then parse_long a seen result
  else match a with
       | c :: cs => if ceq c "-" then parse_short cs None seen result else mret (None, seen, result ++ [a])
       | [] => mret (None, seen, result ++ [a])
       end.

(** [args] are the arguments from [i] on. The second result are those behind
    the end of the options. *)
Fixpoint parse_args (args : list str) (seen : gset str) (result : list str) : opM (list str * list str) :=
  match args with
  | [] => mret (result, [])
  | a :: rest =>
      if str_eqb a (lit "-") || str_eqb a (lit "--") then mret (result, rest) else
      r ← parse_arg a seen result;
      match (r : arg_state) with
      | (None, seen, result) => parse_args rest seen result
      | (Some (opt, pos), seen, result) =>
          d ← detail pos;
          match od_arg d with
          | NeedArg =>
              match rest with
              | [] =>
                  throw (BadOptException (lit "`-" ++ (if (length opt =? 1)%nat then [] else lit "-") ++ opt
                    ++ lit "' option requires an argument"))
              | val :: rest' =>
                  setOpt opt [] val (od_repeat d);;
                  parse_args rest' seen result
              end
          | NoArg =>
              setOpt opt [] (lit "1") (od_repeat d);;
              parse_args rest seen result
          end
      end
  end.

Definition parse (args : list str) : opM (list str) :=
  called ← was_called;
  if (called : bool) then throw (APIException (lit "cannot call parse() more than once on the same Option instance")) else
  modify (set_parseCalled true);;
  r ← parse_args (drop 1 args) ∅ [];
  modify (set_synonyms (fun _ => ∅));;
  mret (fst r ++ snd r).

(** ** Queries *)

Definition check_parsed : opM unit :=
  called ← was_called;
  if (called : bool) then mret tt else throw (APIException (lit "cannot lookup options before calling parse()")).

Definition checkOptIsValid (opt : str) : opM OptionDetails :=
  s ← get;
  match validOpts s !! opt with
  | None => throw (IllegalArgumentException (lit "`" ++ opt ++ lit "': invalid option"))
  | Some pos => detail pos
  end.

Definition dashes (d : OptionDetails) : str :=
  lit "`-" ++ match od_length d with LongOpt => lit "-" | ShortOpt => [] end.

Definition checkOptHasArg (opt : str) : opM OptionDetails :=
  d ← checkOptIsValid opt;
  match od_arg d with
  | NoArg => throw (IllegalArgumentException (dashes d ++ opt ++ lit "': option does not take arguments"))
  | NeedArg => mret d
  end.

Definition isSet (opt : str) : opM bool :=
  check_parsed;;
  d ← checkOptIsValid opt;
  s ← get;
  mret (match od_repeat d with
        | NoRepeat => match opts s !! opt with Some _ => true | None => false end
        | Repeat => match ropts s !! opt with Some _ => true | None => false end
        end).

Definition optArg (opt : str) : opM str :=
  check_parsed;;
  d ← checkOptHasArg opt;
  match od_repeat d with
  | Repeat =>
      throw (IllegalArgumentException (dashes d ++ opt
        ++ lit "': is a repeating option -- use argVec() to get its arguments"))
  | NoRepeat => gets (fun s => match opts s !! opt with Some v => v | None => [] end)
  end.

Definition argVec (opt : str) : opM (list str) :=
  check_parsed;;
  d ← checkOptHasArg opt;
  match od_repeat d with
  | NoRepeat =>
      throw (IllegalArgumentException (dashes d ++ opt
        ++ lit "': is a non-repeating option -- use optArg() to get its argument"))
  | Repeat =>
      s ← get;
      match ropts s !! opt with Some k => vector k | None => mret [] end
  end.
