(* ===== verification/OptionsSpec.v ===== *)
(** * What the option parser promises

    The invariant of an Options object over its two stores, the effect of
    one assignment on both names of an option, and the absence of failed
    assertions for every sequence of calls. *)

From stdpp Require Import gmap.
From S2P Require Import Prelude Hoare CxxString StringUtil OptionsSplit Options.

(** [wf seen s]: the names of an option share one OptionDetails, their values
    and their vector; [seen] is the set that [parse] builds, empty before. *)
Record wf (seen : gset str) (s : Options) : Prop := Wf {
  wf_valid o h : validOpts s !! o = Some h ->
    o <> [] /\ head o <> Some "-"%char /\ exists d, details s !! h = Some d;
  wf_syn a c : synonyms s !! a = Some c -> exists h, validOpts s !! a = Some h /\ validOpts s !! c = Some h;
  wf_opts o v : opts s !! o = Some v -> exists h d, validOpts s !! o = Some h /\ details s !! h = Some d /\
    od_repeat d = NoRepeat /\ (od_hasDefault d = true \/ o ∈ seen);
  wf_opts_same a c h : validOpts s !! a = Some h -> validOpts s !! c = Some h -> opts s !! a = opts s !! c;
  wf_ropts o k : ropts s !! o = Some k -> (exists v, vectors s !! k = Some v) /\
    exists h d, validOpts s !! o = Some h /\ details s !! h = Some d /\ od_repeat d = Repeat;
  wf_ropts_same a c h : validOpts s !! a = Some h -> validOpts s !! c = Some h -> ropts s !! a = ropts s !! c;
  wf_ropts_inj a c k : ropts s !! a = Some k -> ropts s !! c = Some k -> validOpts s !! a = validOpts s !! c;
  wf_seen a c h : a ∈ seen -> validOpts s !! a = Some h -> validOpts s !! c = Some h -> c ∈ seen
}.

(** Until the end of [parse] the two names of an option know each other. *)
Definition complete (s : Options) : Prop := forall a c h,
  validOpts s !! a = Some h -> validOpts s !! c = Some h -> a = c \/ synonyms s !! a = Some c.

(** The values of a repeating option *)
Definition values (s : Options) (o : str) : option (list str) := k ← ropts s !! o; vectors s !! k.

(** The default of a repeating option is its only value. *)
Definition defaults_stored (s : Options) : Prop := forall o h d,
  validOpts s !! o = Some h -> details s !! h = Some d -> od_repeat d = Repeat -> od_hasDefault d = true ->
  exists v, values s o = Some [v].

(** ** The effect of one assignment *)

Definition no_default (d : OptionDetails) : OptionDetails :=
  MkDetails (od_length d) (od_arg d) (od_repeat d) false.

Definition replaces (d : OptionDetails) (vals : option (list str)) : bool :=
  od_hasDefault d && match vals with Some [_] => true | _ => false end.

Definition extended (d : OptionDetails) (vals : option (list str)) (v : str) : list str :=
  if replaces d vals then [v] else default [] vals ++ [v].

(** From [s], the option called [name] with the details [d] at [h] gets the
    value [v]. *)
Record assigned (s : Options) (name : str) (h : nat) (d : OptionDetails) (v : str) (s' : Options) : Prop := Assigned {
  as_valid : validOpts s' = validOpts s;
  as_synonyms : synonyms s' = synonyms s;
  as_called : parseCalled s' = parseCalled s;
  as_details : details s' =
    if bool_decide (od_repeat d = Repeat) && replaces d (values s name) then <[h := no_default d]> (details s)
    else details s;
  as_opts o : opts s' !! o =
    if bool_decide (validOpts s !! o = Some h /\ od_repeat d = NoRepeat) then Some v else opts s !! o;
  as_values o : values s' o =
    if bool_decide (validOpts s !! o = Some h /\ od_repeat d = Repeat) then Some (extended d (values s name) v)
    else values s o
}.

(** A map in which the name and its synonym have got an entry *)
Definition both_names {A} (s : Options) (name : str) (a : A) (m : gmap str A) : gmap str A :=
  match synonyms s !! name with Some c => <[c := a]> (<[name := a]> m) | None => <[name := a]> m end.

Lemma lookup_both_names {A} seen s name h (a : A) m o : wf seen s -> complete s ->
  validOpts s !! name = Some h ->
  both_names s name a m !! o = if bool_decide (validOpts s !! o = Some h) then Some a else m !! o.
Proof.
  intros Hw Hc Hn. unfold both_names.
  destruct (synonyms s !! name) as [c|] eqn:Hsyn.
  - destruct (wf_syn _ _ Hw _ _ Hsyn) as (h' & Hn' & Hvc). simplify_eq.
    destruct (decide (o = c)) as [->|Hoc]; [by rewrite lookup_insert_eq, bool_decide_true|].
    rewrite lookup_insert_ne by done.
    destruct (decide (o = name)) as [->|Hon]; [by rewrite lookup_insert_eq, bool_decide_true|].
    rewrite lookup_insert_ne by done. rewrite bool_decide_false; [done|]. intros Ho.
    destruct (Hc name o h Hn Ho); congruence.
  - destruct (decide (o = name)) as [->|Hon]; [by rewrite lookup_insert_eq, bool_decide_true|].
    rewrite lookup_insert_ne by done. rewrite bool_decide_false; [done|]. intros Ho.
    destruct (Hc name o h Hn Ho); congruence.
Qed.

Lemma isEmpty_false o : o <> [] -> isEmpty o = false.
Proof. by destruct o. Qed.

Lemma bind_deref {A B} (x : A) (k : A -> opM B) s o : o = Some x -> mbind k (deref o) s = k x s.
Proof. by intros ->. Qed.

Lemma bind_detail {B} h d (k : OptionDetails -> opM B) s : details s !! h = Some d -> mbind k (detail h) s = k d s.
Proof. intros Hd. unfold detail, deref, mbind, M_bind, get. by rewrite Hd. Qed.

Lemma bind_vector {B} i v (k : list str -> opM B) s : vectors s !! i = Some v -> mbind k (vector i) s = k v s.
Proof. intros Hd. unfold vector, deref, mbind, M_bind, get. by rewrite Hd. Qed.

Definition synonym_of (s : Options) (o : str) : str := match synonyms s !! o with Some n => n | None => [] end.

Lemma bind_synonym {B} o (k : str -> opM B) s : mbind k (getSynonym o) s = k (synonym_of s o) s.
Proof. done. Qed.

(** The part of the code that writes an entry for the name and for its
    synonym, when it has one *)
Lemma write_both {A} (set : (gmap str A -> gmap str A) -> Options -> Options) seen s name (a : A) :
  wf seen s ->
  (forall f, synonyms (set f s) = synonyms s) -> (forall f g, set f (set g s) = set (fun m => f (g m)) s) ->
  (modify (set <[name := a]>);;
   synonym ← getSynonym name;
   if isEmpty synonym then mret tt else modify (set <[synonym := a]>)) s
  = (Ok tt, set (both_names s name a) s).
Proof.
  intros Hw Hs Hf. rewrite bind_modify, bind_synonym. unfold synonym_of, both_names. rewrite Hs.
  destruct (synonyms s !! name) as [c|] eqn:Hsyn; [|done].
  destruct (wf_syn _ _ Hw _ _ Hsyn) as (h' & _ & Hvc). rewrite isEmpty_false by apply (wf_valid _ _ Hw _ _ Hvc).
  unfold modify. by rewrite Hf.
Qed.

Lemma setNonRepeatingOpt_ok seen s name h d v : wf seen s -> complete s ->
  validOpts s !! name = Some h -> details s !! h = Some d -> od_repeat d = NoRepeat ->
  (opts s !! name = None \/ od_hasDefault d = true) ->
  setNonRepeatingOpt name v s = (Ok tt, set_opts (both_names s name v) s).
Proof.
  intros Hw Hc Hn Hd Hr Hdef. unfold setNonRepeatingOpt.
  rewrite isEmpty_false by apply (wf_valid _ _ Hw _ _ Hn). rewrite bind_get.
  erewrite bind_ok; [by apply (write_both set_opts seen)|].
  destruct (opts s !! name) as [w|] eqn:Ho; [|done]. destruct Hdef as [|Hdef]; [done|].
  by rewrite (bind_deref h), (bind_detail h d), Hdef by done.
Qed.

Lemma assigned_nonrepeating seen s name h d v : wf seen s -> complete s ->
  validOpts s !! name = Some h -> details s !! h = Some d -> od_repeat d = NoRepeat ->
  assigned s name h d v (set_opts (both_names s name v) s).
Proof.
  intros Hw Hc Hn Hd Hr. split; try done.
  - by rewrite Hr.
  - intros o. cbn. rewrite (lookup_both_names seen s name h) by done. rewrite Hr.
    repeat case_bool_decide; naive_solver.
  - intros o. rewrite Hr, bool_decide_false by (intros []; congruence). done.
Qed.

Lemma wf_nonrepeating seen s name h d v : wf seen s -> complete s ->
  validOpts s !! name = Some h -> details s !! h = Some d -> od_repeat d = NoRepeat ->
  (od_hasDefault d = true \/ name ∈ seen) ->
  wf seen (set_opts (both_names s name v) s).
Proof.
  intros Hw Hc Hn Hd Hr Hdef.
  pose proof (fun o => lookup_both_names seen s name h v (opts s) o Hw Hc Hn) as Hl.
  destruct Hw as [Hv Hs Ho Hos Hro Hrs Hri Hse]. split; try assumption; cbn [opts validOpts details set_opts synonyms vectors ropts].
  - intros o w. rewrite Hl. case_bool_decide as E; [|apply Ho].
    intros _. exists h, d. split_and!; try done. destruct Hdef as [|Hdef]; [by left|right].
    by apply (Hse name o h).
  - intros a c j Ha Hb. rewrite !Hl, (Hos a c j Ha Hb), Ha, Hb. done.
Qed.

(** The two cases of a repeating option: the vector exists, or it is made *)
Definition grown (s : Options) (h k : nat) (d : OptionDetails) (vals : list str) (v : str) : Options :=
  if od_hasDefault d && (length vals =? 1)%nat then
    set_details <[h := no_default d]> (set_vectors <[k := <[0%nat := v]> vals]> s)
  else set_vectors <[k := vals ++ [v]]> s.

Definition started (s : Options) (name v : str) : Options :=
  set_ropts (both_names s name (length (vectors s))) (set_vectors (fun l => l ++ [[v]]) s).

Lemma replace_or_append_ok s h k d vals v : details s !! h = Some d -> vectors s !! k = Some vals ->
  replace_or_append h k v s = (Ok tt, grown s h k d vals v).
Proof.
  intros Hd Hk. unfold replace_or_append, grown.
  rewrite (bind_detail h d), (bind_vector k vals) by done.
  by destruct (od_hasDefault d && (length vals =? 1)%nat).
Qed.

Lemma assert_repeating_ok {B} s name h d (k : unit -> opM B) : validOpts s !! name = Some h -> details s !! h = Some d ->
  od_repeat d = Repeat -> mbind k (assert_repeating name) s = k tt s.
Proof.
  intros Hn Hd Hr. unfold assert_repeating. erewrite bind_ok; [done|].
  rewrite bind_get, Hn, (bind_assert true), (bind_deref h), (bind_detail h d) by done.
  by rewrite bool_decide_true.
Qed.

Lemma ropts_synonym seen s name h : wf seen s -> validOpts s !! name = Some h -> ropts s !! name = None ->
  ropts s !! synonym_of s name = None.
Proof.
  intros Hw Hn Hr. unfold synonym_of. destruct (synonyms s !! name) as [c|] eqn:Hs.
  - destruct (wf_syn _ _ Hw _ _ Hs) as (j & Ha & Hb). by rewrite <- (wf_ropts_same _ _ Hw _ _ _ Ha Hb).
  - destruct (ropts s !! []) as [k|] eqn:E; [|done].
    destruct (wf_ropts _ _ Hw _ _ E) as (_ & j & d & Hj & _). by destruct (wf_valid _ _ Hw _ _ Hj).
Qed.

Lemma setRepeatingOpt_grows seen s name h d v k vals : wf seen s ->
  validOpts s !! name = Some h -> details s !! h = Some d -> od_repeat d = Repeat ->
  ropts s !! name = Some k -> vectors s !! k = Some vals ->
  setRepeatingOpt name v s = (Ok tt, grown s h k d vals v).
Proof.
  intros Hw Hn Hd Hr Hk Hv. unfold setRepeatingOpt.
  rewrite isEmpty_false by apply (wf_valid _ _ Hw _ _ Hn).
  rewrite bind_get, Hn, (bind_assert true), (bind_deref h), bind_synonym, Hk by done.
  rewrite (assert_repeating_ok s name h d), bind_modify by done.
  replace (set_ropts <[name := k]> s) with s; [by apply replace_or_append_ok|].
  destruct s. unfold set_ropts. cbn in *. by rewrite insert_id.
Qed.

Lemma setRepeatingOpt_starts seen s name h d v : wf seen s ->
  validOpts s !! name = Some h -> details s !! h = Some d -> od_repeat d = Repeat ->
  ropts s !! name = None -> setRepeatingOpt name v s = (Ok tt, started s name v).
Proof.
  intros Hw Hn Hd Hr Hk. unfold setRepeatingOpt.
  rewrite isEmpty_false by apply (wf_valid _ _ Hw _ _ Hn).
  rewrite bind_get, Hn, (bind_assert true), (bind_deref h), bind_synonym, Hk by done.
  rewrite (ropts_synonym seen s name h), bind_modify, bind_modify by done.
  unfold started, both_names, synonym_of. destruct (synonyms s !! name) as [c|] eqn:Hs; [|done].
  destruct (wf_syn _ _ Hw _ _ Hs) as (h' & _ & Hvc). rewrite isEmpty_false by apply (wf_valid _ _ Hw _ _ Hvc).
  done.
Qed.

Lemma replaces_length d vals : replaces d (Some vals) = od_hasDefault d && (length vals =? 1)%nat.
Proof. unfold replaces. by destruct vals as [|? []]. Qed.

(** Vectors are shared by the names of one option and by no others. *)
Lemma assigned_grown seen s name h d v k vals : wf seen s ->
  validOpts s !! name = Some h -> details s !! h = Some d -> od_repeat d = Repeat ->
  ropts s !! name = Some k -> vectors s !! k = Some vals ->
  assigned s name h d v (grown s h k d vals v).
Proof.
  intros Hw Hn Hd Hr Hk Hv. assert (values s name = Some vals) as Hvals by (unfold values; by rewrite Hk).
  assert (forall o, validOpts (grown s h k d vals v) !! o = validOpts s !! o /\
    ropts (grown s h k d vals v) !! o = ropts s !! o /\ opts (grown s h k d vals v) !! o = opts s !! o)
    as Hsame by (intros o; unfold grown; by case_if).
  split; try (unfold grown; by case_if).
  - rewrite Hvals, Hr, replaces_length. unfold grown. by case_if.
  - intros o. rewrite Hr, bool_decide_false by (intros []; congruence). apply Hsame.
  - intros o. unfold values at 1. destruct (Hsame o) as (_ & -> & _).
    unfold extended. rewrite Hvals, replaces_length. case_bool_decide as Ho.
    + destruct Ho as [Ho _]. rewrite (wf_ropts_same _ _ Hw _ _ _ Ho Hn), Hk. cbn. unfold grown.
      case_if; cbn; rewrite list_lookup_insert_eq by (by eapply lookup_lt_Some); [|done].
      bool_to_prop. by destruct vals as [|? []].
    + unfold values. destruct (ropts s !! o) as [j|] eqn:Hj; [cbn|done].
      assert (j <> k) by (intros ->; apply Ho; by rewrite (wf_ropts_inj _ _ Hw _ _ _ Hj Hk)).
      unfold grown. case_if; cbn; by rewrite list_lookup_insert_ne.
Qed.

Lemma values_fresh seen s name h : wf seen s -> validOpts s !! name = Some h -> ropts s !! name = None ->
  forall o, validOpts s !! o = Some h -> values s o = None.
Proof. intros Hw Hn Hr o Ho. unfold values. by rewrite (wf_ropts_same _ _ Hw _ _ _ Ho Hn), Hr. Qed.

Lemma assigned_started seen s name h d v : wf seen s -> complete s ->
  validOpts s !! name = Some h -> details s !! h = Some d -> od_repeat d = Repeat ->
  ropts s !! name = None -> assigned s name h d v (started s name v).
Proof.
  intros Hw Hc Hn Hd Hr Hk.
  pose proof (values_fresh seen s name h Hw Hn Hk name Hn) as Hvals.
  split; try done.
  - rewrite Hvals. unfold replaces. by rewrite !andb_false_r.
  - intros o. rewrite Hr, bool_decide_false by (intros []; congruence). done.
  - intros o. unfold values at 1, started. cbn [ropts set_ropts vectors set_vectors].
    rewrite (lookup_both_names seen s name h) by done. unfold extended. rewrite Hvals.
    assert (replaces d None = false) as -> by (unfold replaces; apply andb_false_r).
    repeat case_bool_decide; [|naive_solver..|].
    + cbn. by rewrite list_lookup_middle.
    + unfold values. destruct (ropts s !! o) as [j|] eqn:Hj; [cbn|done].
      destruct (wf_ropts _ _ Hw _ _ Hj) as ((w & Hw') & _). rewrite Hw'. by apply lookup_app_l_Some.
Qed.

(** Changing details keeps them where they are and keeps what is not the
    default. *)
Definition same_kind (l l' : list OptionDetails) : Prop := forall h d, l !! h = Some d ->
  exists d', l' !! h = Some d' /\ od_repeat d' = od_repeat d /\ od_arg d' = od_arg d /\
    (od_repeat d = NoRepeat -> d' = d).

Lemma same_kind_refl l : same_kind l l.
Proof. intros h d Hd. by exists d. Qed.

Lemma same_kind_no_default l h d : l !! h = Some d -> od_repeat d = Repeat -> same_kind l (<[h := no_default d]> l).
Proof.
  intros Hd Hr j e He. destruct (decide (j = h)) as [->|Hj].
  - rewrite Hd in He. injection He as <-. exists (no_default d). rewrite list_lookup_insert_eq by (by eapply lookup_lt_Some).
    split_and!; try done. congruence.
  - exists e. by rewrite list_lookup_insert_ne.
Qed.

(** What keeps the invariant when the values of repeating options change *)
Lemma wf_repeating (seen : gset str) (s : Options) (D : list OptionDetails) (V : list (list str)) (R : gmap str nat) : wf seen s ->
  same_kind (details s) D ->
  (forall o k, R !! o = Some k -> is_Some (V !! k) /\
     exists h d, validOpts s !! o = Some h /\ details s !! h = Some d /\ od_repeat d = Repeat) ->
  (forall a c h, validOpts s !! a = Some h -> validOpts s !! c = Some h -> R !! a = R !! c) ->
  (forall a c k, R !! a = Some k -> R !! c = Some k -> validOpts s !! a = validOpts s !! c) ->
  wf seen (MkOptions D V (validOpts s) (opts s) R (synonyms s) (parseCalled s)).
Proof.
  intros [Hv Hs Ho Hos Hro Hrs Hri Hse] HD HR Hsame Hinj. split; try assumption; cbn.
  - intros o h Hh. destruct (Hv o h Hh) as (? & ? & d & Hd). destruct (HD h d Hd) as (d' & ? & _). eauto.
  - intros o v Hov. destruct (Ho o v Hov) as (h & d & Hh & Hd & Hr & Hor).
    destruct (HD h d Hd) as (d' & Hd' & _ & _ & Heq). specialize (Heq Hr) as ->. eauto 10.
  - intros o k Hk. destruct (HR o k Hk) as ([vs Hvs] & h & d & Hh & Hd & Hr). split; [by exists vs|].
    destruct (HD h d Hd) as (d' & Hd' & Hr' & _). exists h, d'. by rewrite Hr'.
Qed.

Lemma wf_grown seen s name h d v k vals : wf seen s ->
  validOpts s !! name = Some h -> details s !! h = Some d -> od_repeat d = Repeat ->
  ropts s !! name = Some k -> vectors s !! k = Some vals -> wf seen (grown s h k d vals v).
Proof.
  intros Hw Hn Hd Hr Hk Hv.
  assert (forall w o j, ropts s !! o = Some j -> is_Some (<[k := w]> (vectors s) !! j) /\
     exists h d, validOpts s !! o = Some h /\ details s !! h = Some d /\ od_repeat d = Repeat) as HR.
  { intros w o j Hj. destruct (wf_ropts _ _ Hw _ _ Hj) as ((x & Hx) & ?). split; [|done].
    apply list_lookup_insert_is_Some. eauto. }
  unfold grown, set_details, set_vectors. cbn.
  case_if; (apply wf_repeating; [done| | |exact (wf_ropts_same _ _ Hw)|exact (wf_ropts_inj _ _ Hw)]);
    auto using same_kind_refl, same_kind_no_default.
Qed.

Lemma wf_started seen s name h d v : wf seen s -> complete s ->
  validOpts s !! name = Some h -> details s !! h = Some d -> od_repeat d = Repeat ->
  ropts s !! name = None -> wf seen (started s name v).
Proof.
  intros Hw Hc Hn Hd Hr Hk.
  pose proof (fun o => lookup_both_names seen s name h (length (vectors s)) (ropts s) o Hw Hc Hn) as Hl.
  assert (forall o, ropts s !! o <> Some (length (vectors s))) as Hnew.
  { intros o Ho. destruct (wf_ropts _ _ Hw _ _ Ho) as ((x & Hx%lookup_lt_Some) & _). lia. }
  unfold started, set_ropts, set_vectors. cbn. apply wf_repeating; auto using same_kind_refl.
  - intros o k. rewrite Hl. case_bool_decide as Ho.
    + injection 1 as <-. split; [by rewrite list_lookup_middle|by exists h, d].
    + intros Hok. destruct (wf_ropts _ _ Hw _ _ Hok) as ((x & Hx) & ?). split; [|done].
      exists x. by apply lookup_app_l_Some.
  - intros a c j Ha Hb. rewrite !Hl, Ha, Hb. case_bool_decide; [done|]. by eapply wf_ropts_same.
  - intros a c k. rewrite !Hl. pose proof (Hnew a). pose proof (Hnew c).
    repeat case_bool_decide; intros; try congruence. by eapply wf_ropts_inj.
Qed.

(** ** One assignment, of either kind *)

Definition set_one (name val : str) (rt : RepeatType) : opM unit :=
  match rt with NoRepeat => setNonRepeatingOpt name val | Repeat => setRepeatingOpt name val end.

(** A non-repeating option gets a value only once, apart from its default. *)
Definition settable (seen : gset str) (s : Options) (name : str) (d : OptionDetails) : Prop :=
  od_repeat d = NoRepeat -> od_hasDefault d = true \/ (name ∈ seen /\ opts s !! name = None).

Lemma complete_assigned s name h d v s' : assigned s name h d v s' -> complete s -> complete s'.
Proof. intros Ha Hc a c j. rewrite (as_valid _ _ _ _ _ _ Ha), (as_synonyms _ _ _ _ _ _ Ha). apply Hc. Qed.

Lemma set_one_ok seen s name h d v : wf seen s -> complete s ->
  validOpts s !! name = Some h -> details s !! h = Some d -> settable seen s name d ->
  exists s', set_one name v (od_repeat d) s = (Ok tt, s') /\ assigned s name h d v s' /\ wf seen s' /\ complete s'.
Proof.
  intros Hw Hc Hn Hd Hset. assert (exists s', set_one name v (od_repeat d) s = (Ok tt, s') /\
    assigned s name h d v s' /\ wf seen s') as (s' & ? & Ha & ?).
  { destruct (od_repeat d) eqn:Hr; cbn [set_one].
    - destruct (ropts s !! name) as [k|] eqn:Hk.
      + destruct (wf_ropts _ _ Hw _ _ Hk) as ((vals & Hv) & _). exists (grown s h k d vals v).
        split_and!; [by eapply setRepeatingOpt_grows|by eapply assigned_grown|by eapply wf_grown].
      + exists (started s name v).
        split_and!; [by eapply setRepeatingOpt_starts|by eapply assigned_started|by eapply wf_started].
    - specialize (Hset Hr). exists (set_opts (both_names s name v) s).
      split_and!; [eapply setNonRepeatingOpt_ok; try done; tauto|by eapply assigned_nonrepeating|].
      eapply wf_nonrepeating; try done. tauto. }
  eauto 6 using complete_assigned.
Qed.

Lemma setOpt_one name v rt s s' : name <> [] -> set_one name v rt s = (Ok tt, s') -> setOpt name [] v rt s = (Ok tt, s').
Proof.
  intros Hn H. unfold setOpt. rewrite isEmpty_false by done. destruct rt; cbn [set_one] in H;
    cbn [andb negb]; rewrite (bind_assert true) by done; by rewrite (bind_ok _ _ _ _ _ H).
Qed.

Lemma setOpt_ok seen s name h d v : wf seen s -> complete s ->
  validOpts s !! name = Some h -> details s !! h = Some d -> settable seen s name d ->
  exists s', setOpt name [] v (od_repeat d) s = (Ok tt, s') /\ assigned s name h d v s' /\ wf seen s' /\ complete s'.
Proof.
  intros Hw Hc Hn Hd Hset. destruct (set_one_ok seen s name h d v) as (s' & Hrun & ?); try done.
  exists s'. split; [|done]. apply setOpt_one; [|done]. by apply (wf_valid _ _ Hw _ _ Hn).
Qed.

Lemma same_kind_assigned s name h d v s' : assigned s name h d v s' -> details s !! h = Some d ->
  same_kind (details s) (details s').
Proof.
  intros Ha Hd. rewrite (as_details _ _ _ _ _ _ Ha).
  case_bool_decide as Hr; cbn [andb]; [|apply same_kind_refl].
  destruct (replaces d _); [by apply same_kind_no_default|apply same_kind_refl].
Qed.

Lemma values_same seen s a c h : wf seen s -> validOpts s !! a = Some h -> validOpts s !! c = Some h ->
  values s a = values s c.
Proof. intros Hw Ha Hb. unfold values. by rewrite (wf_ropts_same _ _ Hw _ _ _ Ha Hb). Qed.

Lemma defaults_assigned seen s name h d v s' : wf seen s -> validOpts s !! name = Some h ->
  details s !! h = Some d -> assigned s name h d v s' -> defaults_stored s -> defaults_stored s'.
Proof.
  intros Hw Hn Hd [Hv _ _ HD _ HV] Hs o j e Hj He Hr Hdef. rewrite Hv in Hj. rewrite HV, Hj.
  destruct (decide (j = h)) as [->|Hne].
  - rewrite HD in He. destruct (bool_decide (od_repeat d = Repeat) && replaces d (values s name)) eqn:E.
    + rewrite list_lookup_insert_eq in He by (by eapply lookup_lt_Some). by injection He as <-.
    + rewrite Hd in He. injection He as <-. rewrite bool_decide_true in E by done. cbn in E.
      destruct (Hs name h d Hn Hd Hr Hdef) as (x & Hx). rewrite Hx in E. unfold replaces in E. by rewrite Hdef in E.
  - rewrite bool_decide_false by (intros []; congruence). apply (Hs o j e); try done.
    rewrite HD in He. destruct (bool_decide _ && _); [|done]. by rewrite list_lookup_insert_ne in He.
Qed.

(** ** Parsing keeps the invariant *)

Lemma wp_detail h d (Q : OptionDetails -> Options -> Prop) E s : details s !! h = Some d -> Q d s -> wp (detail h) Q E s.
Proof. intros Hd HQ. unfold wp, detail, mbind, M_bind, get, deref. by rewrite Hd. Qed.

Lemma wf_more_seen seen seen' s : wf seen s -> seen ⊆ seen' ->
  (forall a c h, a ∈ seen' -> a ∉ seen -> validOpts s !! a = Some h -> validOpts s !! c = Some h -> c ∈ seen') ->
  wf seen' s.
Proof.
  intros [Hv Hs Ho Hos Hro Hrs Hri Hse] Hsub Hcl. split; try assumption.
  - intros o v Hov. destruct (Ho o v Hov) as (h & d & ? & ? & ? & [?|?]); eauto 10.
  - intros a c h Ha Hva Hvc. destruct (decide (a ∈ seen)) as [Hin|Hout]; [|by eapply Hcl].
    apply Hsub. by eapply Hse.
Qed.

(** What is known of an option that was looked up *)
Definition known (seen : gset str) (s : Options) (opt : str) (pos : nat) : Prop :=
  exists d, validOpts s !! opt = Some pos /\ details s !! pos = Some d /\ settable seen s opt d.

Lemma note_seen_ok dashes opt pos seen s d : wf seen s -> complete s ->
  validOpts s !! opt = Some pos -> details s !! pos = Some d ->
  wp (note_seen dashes opt pos seen) (fun seen' s' => s' = s /\ wf seen' s /\ settable seen' s opt d)
    (fun _ s' => s' = s) s.
Proof.
  intros Hw Hc Hn Hd. unfold note_seen. apply wp_bind, (wp_detail pos d); [done|].
  destruct (od_repeat d) eqn:Hr; [by split_and!; [| |congruence]|].
  case_bool_decide as Hin; [done|]. cbn [getSynonym]. unfold wp. rewrite bind_synonym.
  set (seen' := if isEmpty (synonym_of s opt) then _ else _). cbn.
  assert (forall c, c ∈ seen' <-> c = opt \/ (c = synonym_of s opt /\ synonyms s !! opt = Some c) \/ c ∈ seen) as Hs.
  { intros c. unfold seen', synonym_of. destruct (synonyms s !! opt) as [b|] eqn:Hb; [|cbn; set_solver].
    destruct (wf_syn _ _ Hw _ _ Hb) as (j & _ & Hj). rewrite isEmpty_false by apply (wf_valid _ _ Hw _ _ Hj).
    set_solver. }
  split_and!; [done| |].
  - apply (wf_more_seen seen); [done|intros c Hcs; apply Hs; auto|].
    intros a c h Ha Hout Hva Hvc. apply Hs in Ha as [->|[[-> Hsyn]|?]]; [| |done].
    + rewrite Hva in Hn. destruct (Hc opt c h Hva Hvc) as [->|Hs']; apply Hs; [auto|].
      right; left. unfold synonym_of. by rewrite Hs'.
    + destruct (wf_syn _ _ Hw _ _ Hsyn) as (j & Hj & Hj'). rewrite Hva in Hj'. injection Hj' as <-.
      destruct (Hc opt c h Hj Hvc) as [->|Hs']; apply Hs; [auto|]. right; left. unfold synonym_of. by rewrite Hs'.
  - intros _. destruct (opts s !! opt) as [w|] eqn:Ho.
    + destruct (wf_opts _ _ Hw _ _ Ho) as (j & e & ? & ? & _ & [?|?]); [|done]. simplify_eq. by left.
    + right. split; [apply Hs; auto|done].
Qed.

(** Between two steps of [parse]; after an exception only [wf] is left. *)
Definition parsing (seen : gset str) (s : Options) : Prop := wf seen s /\ complete s /\ parseCalled s = true.
Definition interrupted (_ : exn) (s : Options) : Prop := exists seen, wf seen s /\ parseCalled s = true.

Definition arg_post (r : arg_state) (s : Options) : Prop :=
  let '(pending, seen, _) := r in
  parsing seen s /\ forall opt pos, pending = Some (opt, pos) -> known seen s opt pos.

Lemma wp_setOpt (seen : gset str) (s : Options) (name : str) h d v (Q : unit -> Options -> Prop) E : parsing seen s ->
  validOpts s !! name = Some h -> details s !! h = Some d -> settable seen s name d ->
  (forall s', parsing seen s' -> Q tt s') -> wp (setOpt name [] v (od_repeat d)) Q E s.
Proof.
  intros (Hw & Hc & Hp) Hn Hd Hset HQ.
  destruct (setOpt_ok seen s name h d v) as (s' & Hrun & Ha & Hw' & Hc'); try done.
  unfold wp. rewrite Hrun. apply HQ. split_and!; [done..|]. by rewrite (as_called _ _ _ _ _ _ Ha).
Qed.

Lemma wp_checkOpt (opt : str) (lt : LengthType) (seen : gset str) (s : Options) (Q : nat -> Options -> Prop) : wf seen s -> parseCalled s = true ->
  (forall pos d, validOpts s !! opt = Some pos -> details s !! pos = Some d -> Q pos s) ->
  wp (checkOpt opt lt) Q interrupted s.
Proof.
  intros Hw Hp HQ. unfold checkOpt. apply wp_bind, wp_get.
  destruct (validOpts s !! opt) as [pos|] eqn:Hpos; [|apply wp_throw; by exists seen].
  destruct (wf_valid _ _ Hw _ _ Hpos) as (_ & _ & d & Hd). apply wp_ret. by eapply HQ.
Qed.

(** Look an option up and note it as seen. *)
Lemma wp_lookup {B : Type} (opt : str) (lt : LengthType) (dashes : str) (seen : gset str) (s : Options)
    (k : nat -> gset str -> opM B) (Q : B -> Options -> Prop) : parsing seen s ->
  (forall pos d seen', validOpts s !! opt = Some pos -> details s !! pos = Some d ->
     parsing seen' s -> settable seen' s opt d -> wp (k pos seen') Q interrupted s) ->
  wp (pos ← checkOpt opt lt; seen' ← note_seen dashes opt pos seen; k pos seen') Q interrupted s.
Proof.
  intros (Hw & Hc & Hp) HQ. apply wp_bind, (wp_checkOpt opt lt seen); [done..|]. intros pos d Hn Hd.
  apply wp_bind. eapply wp_conseq; [by apply note_seen_ok| |].
  - intros seen' s' (-> & Hw' & Hset). by eapply HQ.
  - intros e s' ->. by exists seen.
Qed.

Lemma parse_long_ok a seen result s : parsing seen s -> wp (parse_long a seen result) arg_post interrupted s.
Proof.
  intros Hp. unfold parse_long. set (opt := match find_char _ _ _ with Some p => _ | None => _ end).
  apply wp_lookup; [done|].
  intros pos d seen' Hn Hd Hp' Hset.
  destruct (find_char _ _ _) as [p|].
  - apply wp_bind, (wp_detail pos d); [done|]. destruct (_ && _).
    + apply wp_throw. exists seen'. by destruct Hp' as (? & _ & ?).
    + apply wp_bind. by eapply wp_setOpt.
  - apply wp_ret. split; [done|]. intros o q [= <- <-]. by exists d.
Qed.

Lemma parse_short_ok cs : forall pending seen result s, parsing seen s ->
  (forall opt pos, pending = Some (opt, pos) -> known seen s opt pos) ->
  wp (parse_short cs pending seen result) arg_post interrupted s.
Proof.
  induction cs as [|c cs IH]; intros pending seen result s Hp Hpend; cbn [parse_short].
  - apply wp_ret. by split.
  - apply wp_lookup; [done|].
    intros pos d seen' Hn Hd Hp' Hset.
    apply wp_bind, (wp_detail pos d); [done|]. destruct (_ && _).
    + apply wp_bind. by eapply wp_setOpt.
    + apply IH; [done|]. intros o q [= <- <-]. by exists d.
Qed.

Lemma parse_arg_ok a seen result s : parsing seen s -> wp (parse_arg a seen result) arg_post interrupted s.
Proof.
  intros Hp. unfold parse_arg. destruct (starts_with _ a); [by apply parse_long_ok|].
  destruct a as [|c cs]; [by apply wp_ret; split|].
  destruct (ceq c "-"); [by apply parse_short_ok|by apply wp_ret; split].
Qed.

Lemma parse_args_ok n : forall args seen result s, (length args <= n)%nat -> parsing seen s ->
  wp (parse_args args seen result) (fun _ s' => exists seen', parsing seen' s') interrupted s.
Proof.
  induction n as [|n IH]; intros [|a rest] seen result s Hn Hp; cbn [length] in Hn; try lia; cbn [parse_args].
  1,2: by apply wp_ret; eexists.
  destruct (_ || _); [by apply wp_ret; eexists|].
  apply wp_bind. eapply wp_conseq; [by apply parse_arg_ok| |done].
  intros [[[[opt pos]|] seen'] result'] s' [Hp' Hk]; [|apply IH; [lia|done]].
  destruct (Hk opt pos eq_refl) as (d & Hv & Hd & Hset).
  apply wp_bind, (wp_detail pos d); [done|]. destruct (od_arg d).
  - destruct rest as [|val rest]; [apply wp_throw; exists seen'; by destruct Hp' as (? & _ & ?)|].
    apply wp_bind. eapply wp_setOpt; try done. intros s'' Hs''. cbn [length] in Hn. apply IH; [lia|done].
  - apply wp_bind. eapply wp_setOpt; try done. intros s'' Hs''. apply IH; [lia|done].
Qed.

(** ** The calls of a client *)

(** The state between two calls *)
Definition inv (s : Options) : Prop :=
  (exists seen, wf seen s) /\ (parseCalled s = false -> (wf ∅ s /\ complete s) /\ defaults_stored s).

Lemma wf_synonyms_cleared seen s : wf seen s -> wf seen (set_synonyms (fun _ => ∅) s).
Proof. intros [Hv Hs Ho Hos Hro Hrs Hri Hse]. by split. Qed.

Lemma wf_called seen s v : wf seen s -> wf seen (set_parseCalled v s).
Proof. intros [Hv Hs Ho Hos Hro Hrs Hri Hse]. by split. Qed.

Lemma parse_ok args s : inv s -> wp (parse args) (fun _ s' => inv s') (fun _ s' => inv s') s.
Proof.
  intros [[seen Hseen] Hi]. unfold parse. apply wp_bind, wp_gets.
  destruct (parseCalled s) eqn:Hp; [apply wp_throw; split; [by exists seen|congruence]|].
  destruct (Hi eq_refl) as [[Hw Hc] _]. apply wp_bind, wp_modify, wp_bind.
  eapply wp_conseq; [eapply parse_args_ok; [done|split_and!; [by apply wf_called|done..]]| |].
  - intros r s' (seen' & Hw' & _ & Hp'). apply wp_bind, wp_modify, wp_ret.
    split; [exists seen'; by apply wf_synonyms_cleared|cbn; congruence].
  - intros e s' (seen' & Hw' & Hp'). split; [by exists seen'|congruence].
Qed.

(** ** Declaring an option keeps the invariant *)

Definition names_of (shortOpt longOpt o : str) : Prop := o <> [] /\ (o = shortOpt \/ o = longOpt).

#[export] Instance names_of_dec shortOpt longOpt o : Decision (names_of shortOpt longOpt o).
Proof. unfold names_of. apply _. Defined.

Lemma checkArgs_ok shortOpt longOpt needArg dflt : checkArgs shortOpt longOpt needArg dflt = Ok tt ->
  (forall o, names_of shortOpt longOpt o -> head o <> Some "-"%char) /\ (needArg = false -> dflt = []).
Proof.
  unfold checkArgs. intros H. destruct (isEmpty shortOpt && isEmpty longOpt); [done|].
  assert (forall (r : result unit) k, (mbind (M := result) (fun _ => k) r) = Ok tt -> r = Ok tt /\ k = Ok tt) as Hbind.
  { intros [[]| |] k; cbn; [auto|done..]. }
  apply Hbind in H as [Hs [Hl Hd]%Hbind]. split.
  - intros o [Hne [-> | ->]].
    + clear Hl. destruct shortOpt as [|c cs]; [done|]. cbn [isEmpty] in Hs.
      destruct (negb _); [done|]. destruct (has_whitespace _); [done|].
      destruct (ceq _ "-") eqn:E; [done|]. apply ceq_false in E. cbn in *. congruence.
    + clear Hs. destruct longOpt as [|c cs]; [done|]. cbn [isEmpty] in Hl. destruct (has_whitespace _); [done|].
      destruct (ceq _ "-") eqn:E; [done|]. apply ceq_false in E. cbn in *. congruence.
  - intros ->. by destruct dflt.
Qed.

(** [s'] is [s] with a new option and no value for it. *)
Record declared (s : Options) (shortOpt longOpt : str) (d : OptionDetails) (s' : Options) : Prop := Declared {
  de_details j : details s' !! j = if bool_decide (j = length (details s)) then Some d else details s !! j;
  de_valid o : validOpts s' !! o =
    if bool_decide (names_of shortOpt longOpt o) then Some (length (details s)) else validOpts s !! o;
  de_syn o : synonyms s' !! o =
    if bool_decide (shortOpt <> [] /\ longOpt <> [] /\ o = longOpt) then Some shortOpt
    else if bool_decide (shortOpt <> [] /\ longOpt <> [] /\ o = shortOpt) then Some longOpt
    else synonyms s !! o;
  de_opts : opts s' = opts s;
  de_ropts : ropts s' = ropts s;
  de_vectors : vectors s' = vectors s;
  de_called : parseCalled s' = parseCalled s
}.

(** The state before the default is set *)
Definition with_names (s : Options) (shortOpt longOpt : str) (d : OptionDetails) : Options :=
  let n := length (details s) in
  let add o m := if isEmpty o then m else <[o := n]> m in
  MkOptions (details s ++ [d]) (vectors s) (add longOpt (add shortOpt (validOpts s))) (opts s) (ropts s)
    (if negb (isEmpty shortOpt) && negb (isEmpty longOpt)
     then <[longOpt := shortOpt]> (<[shortOpt := longOpt]> (synonyms s)) else synonyms s) (parseCalled s).

Lemma isEmpty_true o : isEmpty o = true <-> o = [].
Proof. by destruct o. Qed.

Lemma declared_with_names s shortOpt longOpt d : declared s shortOpt longOpt d (with_names s shortOpt longOpt d).
Proof.
  split; try done; cbn.
  - intros j. case_bool_decide as Hj; [subst j; by rewrite list_lookup_middle|].
    destruct (decide (j < length (details s))%nat); [by rewrite lookup_app_l|].
    rewrite !lookup_ge_None_2; [done|lia|]. rewrite length_app. cbn. lia.
  - intros o. assert (forall (name : str) (m : gmap str nat),
      (if isEmpty name then m else <[name := length (details s)]> m) !! o
      = if bool_decide (name <> [] /\ o = name) then Some (length (details s)) else m !! o) as Hadd.
    { intros name m. destruct (isEmpty name) eqn:E; [apply isEmpty_true in E as ->; by rewrite bool_decide_false by tauto|].
      assert (name <> []) by (intros ->; done). case_bool_decide as Ho.
      - destruct Ho as [_ ->]. by rewrite lookup_insert_eq.
      - by rewrite lookup_insert_ne by naive_solver. }
    rewrite !Hadd. unfold names_of. repeat case_bool_decide; naive_solver.
  - intros o. destruct (isEmpty shortOpt) eqn:Es, (isEmpty longOpt) eqn:El; cbn [negb andb];
      rewrite ?isEmpty_true in *; try (rewrite !bool_decide_false by naive_solver; done).
    assert (shortOpt <> [] /\ longOpt <> []) as [Hs Hl] by (split; intros ->; done).
    destruct (decide (o = longOpt)) as [->|Hol]; [by rewrite lookup_insert_eq, bool_decide_true|].
    rewrite lookup_insert_ne, bool_decide_false by naive_solver.
    destruct (decide (o = shortOpt)) as [->|Hos]; [by rewrite lookup_insert_eq, bool_decide_true|].
    by rewrite lookup_insert_ne, bool_decide_false by naive_solver.
Qed.

Section declare.
Context (s s' : Options) (shortOpt longOpt : str) (d : OptionDetails).
Context (Hw : wf ∅ s) (Hc : complete s) (Hde : declared s shortOpt longOpt d s').
Context (Hfresh : forall o, names_of shortOpt longOpt o -> validOpts s !! o = None).
Context (Hhead : forall o, names_of shortOpt longOpt o -> head o <> Some "-"%char).

Lemma old_details h e : details s !! h = Some e -> details s' !! h = Some e.
Proof.
  intros He. rewrite (de_details _ _ _ _ _ Hde), bool_decide_false; [done|].
  apply lookup_lt_Some in He. lia.
Qed.

Lemma old_valid o h : validOpts s !! o = Some h -> validOpts s' !! o = Some h.
Proof.
  intros Ho. rewrite (de_valid _ _ _ _ _ Hde), bool_decide_false; [done|].
  intros Hn. by rewrite (Hfresh o Hn) in Ho.
Qed.

(** A valid name is new or old, and its handle says which. *)
Lemma valid_cases o h : validOpts s' !! o = Some h ->
  (names_of shortOpt longOpt o /\ h = length (details s)) \/
  (validOpts s !! o = Some h /\ (h < length (details s))%nat).
Proof.
  rewrite (de_valid _ _ _ _ _ Hde). case_bool_decide as Ho; [injection 1 as <-; by left|].
  intros Hv. right. split; [done|]. destruct (wf_valid _ _ Hw _ _ Hv) as (_ & _ & e & He).
  by apply lookup_lt_Some in He.
Qed.

Lemma new_opts o : names_of shortOpt longOpt o -> opts s !! o = None.
Proof.
  intros Ho. destruct (opts s !! o) as [v|] eqn:E; [|done].
  destruct (wf_opts _ _ Hw _ _ E) as (h & e & Hv & _). by rewrite (Hfresh o Ho) in Hv.
Qed.

Lemma new_ropts o : names_of shortOpt longOpt o -> ropts s !! o = None.
Proof.
  intros Ho. destruct (ropts s !! o) as [v|] eqn:E; [|done].
  destruct (wf_ropts _ _ Hw _ _ E) as (_ & h & e & Hv & _). by rewrite (Hfresh o Ho) in Hv.
Qed.

Lemma complete_declared : complete s'.
Proof.
  intros a c h Ha Hb. destruct (decide (a = c)) as [|Hne]; [by left|right].
  rewrite (de_syn _ _ _ _ _ Hde).
  destruct (valid_cases _ _ Ha) as [[Na ->]|[Va Hlt]], (valid_cases _ _ Hb) as [[Nb ?]|[Vb ?]]; try lia.
  - destruct Na as [? [-> | ->]], Nb as [? [-> | ->]]; try done.
    + by rewrite bool_decide_false, bool_decide_true by naive_solver.
    + by rewrite bool_decide_true by naive_solver.
  - destruct (Hc a c h Va Vb) as [|Hs]; [done|].
    assert (~ names_of shortOpt longOpt a) as Hna by (intros Hn; by rewrite (Hfresh a Hn) in Va).
    unfold names_of in Hna. rewrite !bool_decide_false; [done|..]; intros (? & ? & ->); apply Hna; auto.
Qed.

Lemma wf_declared : wf ∅ s'.
Proof.
  split.
  - intros o h Ho. destruct (valid_cases _ _ Ho) as [[Hn ->]|[Hv _]].
    + split_and!; [apply Hn|by apply Hhead|]. exists d. rewrite (de_details _ _ _ _ _ Hde). by rewrite bool_decide_true.
    + destruct (wf_valid _ _ Hw _ _ Hv) as (? & ? & e & He). eauto using old_details.
  - intros a c. rewrite (de_syn _ _ _ _ _ Hde).
    assert (forall o, names_of shortOpt longOpt o -> validOpts s' !! o = Some (length (details s))) as Hnew.
    { intros o Ho. by rewrite (de_valid _ _ _ _ _ Hde), bool_decide_true. }
    repeat case_bool_decide; [intros [= <-]; exists (length (details s)); split; apply Hnew; unfold names_of; naive_solver..|].
    intros Hs. destruct (wf_syn _ _ Hw _ _ Hs) as (h & Ha & Hb). eauto using old_valid.
  - intros o v. rewrite (de_opts _ _ _ _ _ Hde). intros Ho.
    destruct (wf_opts _ _ Hw _ _ Ho) as (h & e & Hv & He & ?). eauto 10 using old_valid, old_details.
  - intros a c h Ha Hb. rewrite (de_opts _ _ _ _ _ Hde).
    destruct (valid_cases _ _ Ha) as [[Na ->]|[Va Hlt]], (valid_cases _ _ Hb) as [[Nb ?]|[Vb ?]]; try lia.
    + by rewrite !new_opts.
    + by apply (wf_opts_same _ _ Hw _ _ h).
  - intros o k. rewrite (de_ropts _ _ _ _ _ Hde), (de_vectors _ _ _ _ _ Hde). intros Ho.
    destruct (wf_ropts _ _ Hw _ _ Ho) as (? & h & e & Hv & He & ?). eauto 10 using old_valid, old_details.
  - intros a c h Ha Hb. rewrite (de_ropts _ _ _ _ _ Hde).
    destruct (valid_cases _ _ Ha) as [[Na ->]|[Va Hlt]], (valid_cases _ _ Hb) as [[Nb ?]|[Vb ?]]; try lia.
    + by rewrite !new_ropts.
    + by apply (wf_ropts_same _ _ Hw _ _ h).
  - intros a c k. rewrite (de_ropts _ _ _ _ _ Hde). intros Ha Hb.
    destruct (wf_ropts _ _ Hw _ _ Ha) as (_ & h & e & Hv & _), (wf_ropts _ _ Hw _ _ Hb) as (_ & h' & e' & Hv' & _).
    rewrite (old_valid _ _ Hv), (old_valid _ _ Hv'), <- Hv, <- Hv'. by apply (wf_ropts_inj _ _ Hw _ _ k).
  - intros a c h []%not_elem_of_empty.
Qed.
End declare.

(** ** Setting the default *)

Lemma replaces_none d : replaces d None = false.
Proof. apply andb_false_r. Qed.

(** The first value of a new option *)
Lemma defaults_first seen s name h d v s' : wf seen s -> validOpts s !! name = Some h ->
  values s name = None -> assigned s name h d v s' ->
  (forall o j e, validOpts s !! o = Some j -> j <> h -> details s !! j = Some e -> od_repeat e = Repeat ->
     od_hasDefault e = true -> exists w, values s o = Some [w]) ->
  details s !! h = Some d -> defaults_stored s'.
Proof.
  intros Hw Hn Hnone [Hv _ _ HD _ HV] Hold Hd o j e Hj He Hr Hdef. rewrite Hv in Hj. rewrite HV, Hj.
  rewrite HD, Hnone, replaces_none, andb_false_r in He.
  destruct (decide (j = h)) as [->|Hne].
  - rewrite Hd in He. injection He as <-. rewrite bool_decide_true by done. unfold extended.
    rewrite Hnone, replaces_none. by exists v.
  - rewrite bool_decide_false by (intros []; congruence). by eapply Hold.
Qed.

Lemma setOpt_empty_right name v rt s : name <> [] -> setOpt name [] v rt s = set_one name v rt s.
Proof.
  intros Hn. unfold setOpt. rewrite isEmpty_false by done. cbn [andb negb]. rewrite (bind_assert true) by done.
  destruct rt; cbn [set_one]; [destruct (setRepeatingOpt name v s) as [[[]|e|f] s'] eqn:E|
    destruct (setNonRepeatingOpt name v s) as [[[]|e|f] s'] eqn:E];
    unfold mbind, M_bind; rewrite E; done.
Qed.

Lemma setOpt_empty_left name v rt s : name <> [] -> setOpt [] name v rt s = set_one name v rt s.
Proof.
  intros Hn. unfold setOpt. rewrite (isEmpty_false name) by done. cbn [andb negb isEmpty].
  rewrite (bind_assert true) by done. by destruct rt.
Qed.

Lemma setOpt_both a c v rt s s1 : a <> [] -> set_one a v rt s = (Ok tt, s1) ->
  setOpt a c v rt s = (match c with [] => mret tt | _ => set_one c v rt end) s1.
Proof.
  intros Ha H. unfold setOpt. rewrite (isEmpty_false a) by done. cbn [andb negb].
  rewrite (bind_assert true) by done.
  destruct rt; cbn [set_one] in *; rewrite (bind_ok _ _ _ _ _ H); by destruct c.
Qed.

Lemma set_default s shortOpt longOpt h d v : wf ∅ s -> complete s ->
  (exists o, names_of shortOpt longOpt o) ->
  (forall o, names_of shortOpt longOpt o -> validOpts s !! o = Some h /\ values s o = None) ->
  details s !! h = Some d -> od_hasDefault d = true ->
  (forall o j e, validOpts s !! o = Some j -> j <> h -> details s !! j = Some e -> od_repeat e = Repeat ->
     od_hasDefault e = true -> exists w, values s o = Some [w]) ->
  exists s', setOpt shortOpt longOpt v (od_repeat d) s = (Ok tt, s') /\ wf ∅ s' /\ complete s' /\
    defaults_stored s' /\ parseCalled s' = parseCalled s.
Proof.
  intros Hw Hc Hex Hnames Hd Hdef Hold.
  assert (forall o, names_of shortOpt longOpt o -> exists s1, set_one o v (od_repeat d) s = (Ok tt, s1) /\
    assigned s o h d v s1 /\ wf ∅ s1 /\ complete s1 /\ defaults_stored s1) as Hfirst.
  { intros o Ho. destruct (Hnames o Ho) as [Hv Hnone].
    destruct (set_one_ok ∅ s o h d v) as (s1 & ? & Ha & ? & ?); try done; [by left|].
    eauto 10 using defaults_first. }
  destruct shortOpt as [|c cs].
  - destruct Hex as (o & Ho). assert (o = longOpt) as -> by (destruct Ho as [? [-> | ->]]; done).
    destruct (Hfirst longOpt Ho) as (s1 & Hrun & Ha & ? & ? & ?). exists s1.
    rewrite setOpt_empty_left by apply Ho. by rewrite (as_called _ _ _ _ _ _ Ha).
  - destruct (Hfirst (c :: cs)) as (s1 & Hrun & Ha & Hw1 & Hc1 & Hs1); [split; [done|by left]|].
    rewrite (setOpt_both _ _ _ _ _ s1) by done.
    destruct longOpt as [|c' cs']; [exists s1; by rewrite (as_called _ _ _ _ _ _ Ha)|].
    destruct (Hnames (c :: cs)) as [Hv Hnone]; [split; [done|by left]|].
    destruct (Hnames (c' :: cs')) as [Hv' _]; [split; [done|by right]|].
    assert (details s1 !! h = Some d) as Hd1
      by (rewrite (as_details _ _ _ _ _ _ Ha), Hnone, replaces_none, andb_false_r; done).
    rewrite <- (as_valid _ _ _ _ _ _ Ha) in Hv'.
    destruct (set_one_ok ∅ s1 (c' :: cs') h d v) as (s2 & Hrun2 & Ha2 & Hw2 & Hc2); try done; [by left|].
    exists s2. split_and!; try done; [by apply (defaults_assigned ∅ s1 (c' :: cs') h d v)|].
    by rewrite (as_called _ _ _ _ _ _ Ha2), (as_called _ _ _ _ _ _ Ha).
Qed.

(** ** The whole of addOpt *)

Lemma check_duplicate_cases name s :
  (check_duplicate name s = (Ok tt, s) /\ (name <> [] -> validOpts s !! name = None)) \/
  (exists e, check_duplicate name s = (Throw e, s)).
Proof.
  unfold check_duplicate. rewrite bind_get. destruct (isEmpty name) eqn:E.
  - left. split; [done|]. by apply isEmpty_true in E as ->.
  - destruct (validOpts s !! name); [right; by eexists|by left].
Qed.

Definition entered_name (name : str) (odp : nat) (lt : LengthType) (d : OptionDetails) (s : Options) : Options :=
  if isEmpty name then s else
  set_validOpts <[name := odp]>
    (set_details <[odp := MkDetails lt (od_arg d) (od_repeat d) (od_hasDefault d)]> s).

Lemma enter_name_run name odp lt d s : details s !! odp = Some d ->
  enter_name name odp lt s = (Ok tt, entered_name name odp lt d s).
Proof.
  intros Hd. unfold enter_name, entered_name. destruct (isEmpty name); [done|]. by rewrite (bind_detail odp d).
Qed.

(** The details that both names get: the length is that of the last name. *)
Definition new_details (longOpt : str) (at_type : ArgType) (dflt : str) (rt : RepeatType) : OptionDetails :=
  MkDetails (if isEmpty longOpt then ShortOpt else LongOpt) at_type rt (negb (isEmpty dflt)).

Lemma insert_last {A} (l : list A) x y : <[length l := x]> (l ++ [y]) = l ++ [x].
Proof. induction l; cbn; [done|]. by f_equal. Qed.

Lemma addValidOpt_names s shortOpt longOpt at_type dflt rt :
  (forall o, names_of shortOpt longOpt o -> validOpts s !! o = None) ->
  addValidOpt shortOpt longOpt at_type dflt rt s =
  (if bool_decide (at_type = NeedArg) && negb (isEmpty dflt) then setOpt shortOpt longOpt dflt rt else mret tt)
    (with_names s shortOpt longOpt (new_details longOpt at_type dflt rt)).
Proof.
  intros Hfresh. unfold addValidOpt.
  assert (forall name, name = shortOpt \/ name = longOpt -> check_duplicate name s = (Ok tt, s)) as Hdup.
  { intros name Hname. unfold check_duplicate. rewrite bind_get. destruct (isEmpty name) eqn:E; [done|].
    rewrite Hfresh; [done|]. split; [by intros ->|done]. }
  rewrite (bind_ok _ _ _ _ _ (Hdup shortOpt (or_introl eq_refl))).
  rewrite (bind_ok _ _ _ _ _ (Hdup longOpt (or_intror eq_refl))).
  rewrite bind_get, bind_modify. set (n := length (details s)).
  set (d0 := MkDetails ShortOpt at_type rt (negb (isEmpty dflt))).
  set (s1 := set_details (fun l => l ++ [d0]) s).
  assert (details s1 !! n = Some d0) as Hn by apply (list_lookup_middle (details s) [] d0 n eq_refl).
  assert (forall y, <[n := y]> (details s ++ [d0]) = details s ++ [y]) as Hins by (intros; apply insert_last).
  rewrite (bind_ok _ _ _ _ _ (enter_name_run shortOpt n ShortOpt d0 s1 Hn)).
  set (s2 := set_validOpts (fun m => if isEmpty shortOpt then m else <[shortOpt := n]> m) s1).
  assert (entered_name shortOpt n ShortOpt d0 s1 = s2) as ->.
  { unfold entered_name, s2. destruct (isEmpty shortOpt); [by destruct s|]. unfold s1, set_validOpts, set_details. cbn.
    by rewrite Hins. }
  rewrite (bind_ok _ _ _ _ _ (enter_name_run longOpt n LongOpt d0 s2 Hn)).
  erewrite bind_ok; [done|].
  unfold updateSynonyms, with_names, entered_name, new_details, s2, s1, set_validOpts, set_details, set_synonyms, modify.
  fold n. destruct (isEmpty longOpt); cbn; rewrite ?Hins; by destruct (isEmpty shortOpt).
Qed.

(** An accepted declaration: the new state before its default is set *)
Lemma declare_ok s shortOpt longOpt at_type dflt rt : wf ∅ s -> complete s -> defaults_stored s ->
  checkArgs shortOpt longOpt (bool_decide (at_type = NeedArg)) dflt = Ok tt ->
  (forall o, names_of shortOpt longOpt o -> validOpts s !! o = None) ->
  exists s', addValidOpt shortOpt longOpt at_type dflt rt s = (Ok tt, s') /\
    wf ∅ s' /\ complete s' /\ defaults_stored s' /\ parseCalled s' = parseCalled s.
Proof.
  intros Hw Hc Hs Hargs Hfresh. rewrite (addValidOpt_names s) by done.
  destruct (checkArgs_ok _ _ _ _ Hargs) as [Hhead Hdflt].
  set (d := new_details longOpt at_type dflt rt). pose proof (declared_with_names s shortOpt longOpt d) as Hde.
  set (s1 := with_names s shortOpt longOpt d) in *.
  assert (wf ∅ s1) as Hw1 by (by eapply (wf_declared s)).
  assert (complete s1) as Hc1 by (by eapply (complete_declared s)).
  assert (forall o j e, validOpts s1 !! o = Some j -> j <> length (details s) -> details s1 !! j = Some e ->
     od_repeat e = Repeat -> od_hasDefault e = true -> exists w, values s1 o = Some [w]) as Hold.
  { intros o j e Hj Hne He. rewrite (de_details _ _ _ _ _ Hde), bool_decide_false in He by done.
    destruct (valid_cases s s1 shortOpt longOpt d Hw Hde o j Hj) as [[_ ?]|[Hv _]]; [done|].
    unfold values. rewrite (de_ropts _ _ _ _ _ Hde), (de_vectors _ _ _ _ _ Hde). by apply (Hs o j e). }
  destruct (bool_decide (at_type = NeedArg) && negb (isEmpty dflt)) eqn:Hset.
  - apply andb_true_iff in Hset as [_ Hnd]. change rt with (od_repeat d).
    apply (set_default s1 shortOpt longOpt (length (details s)) d dflt); try done.
    + unfold checkArgs in Hargs. destruct shortOpt as [|c cs]; [destruct longOpt as [|c cs]; [done|]|];
        exists (c :: cs); split; auto.
    + intros o Ho. rewrite (de_valid _ _ _ _ _ Hde), bool_decide_true by done. split; [done|].
      unfold values. by rewrite (de_ropts _ _ _ _ _ Hde), (new_ropts s shortOpt longOpt).
    + rewrite (de_details _ _ _ _ _ Hde). by rewrite bool_decide_true.
  - exists s1. split_and!; try done. intros o j e Hj He Hr Hdef.
    destruct (decide (j = length (details s))) as [->|Hne]; [|by eapply Hold].
    rewrite (de_details _ _ _ _ _ Hde), bool_decide_true in He by done. injection He as <-.
    cbn in Hdef. rewrite Hdef, andb_true_r in Hset. rewrite Hset in Hdflt.
    by rewrite Hdflt in Hdef.
Qed.

Lemma addOpt_ok s shortOpt longOpt at_type dflt rt : inv s ->
  wp (addOpt shortOpt longOpt at_type dflt rt) (fun _ s' => inv s') (fun _ s' => s' = s) s.
Proof.
  intros [[seen Hseen] Hi]. unfold addOpt. apply wp_bind, wp_gets.
  destruct (parseCalled s) eqn:Hp; [by apply wp_throw|]. destruct (Hi eq_refl) as [[Hw Hc] Hs].
  apply wp_bind, wp_lift. destruct (checkArgs _ _ _ _) as [[]| |] eqn:Hargs; [|done|].
  2:{ revert Hargs. unfold checkArgs, illegal. repeat case_match; cbn; congruence. }
  destruct (check_duplicate_cases shortOpt s) as [[H1 Hf1]|[e H1]];
    [|by unfold addValidOpt, wp; rewrite (bind_throw _ _ _ _ _ H1)].
  destruct (check_duplicate_cases longOpt s) as [[H2 Hf2]|[e H2]];
    [|by unfold addValidOpt, wp; rewrite (bind_ok _ _ _ _ _ H1), (bind_throw _ _ _ _ _ H2)].
  destruct (declare_ok s shortOpt longOpt at_type dflt rt) as (s' & Hrun & Hw' & Hc' & Hs' & Hp'); try done.
  { intros o [Hne [-> | ->]]; auto. }
  unfold wp. rewrite Hrun. split; [by exists ∅|]. by rewrite Hp'.
Qed.

(** ** The state behind declarations

    [declaration]: the arguments of a call of addOpt *)
Record declaration : Type := Declaration {
  d_short : str;
  d_long : str;
  d_arg : ArgType;
  d_default : str;
  d_repeat : RepeatType
}.

Fixpoint declare (ds : list declaration) : opM unit :=
  match ds with
  | [] => mret tt
  | D :: ds' => addOpt (d_short D) (d_long D) (d_arg D) (d_default D) (d_repeat D);; declare ds'
  end.

Definition calls_option (D : declaration) (o : str) : Prop := names_of (d_short D) (d_long D) o.
#[export] Instance calls_option_dec D o : Decision (calls_option D o).
Proof. apply names_of_dec. Defined.

Definition two_names (D : declaration) : bool := negb (isEmpty (d_short D)) && negb (isEmpty (d_long D)).

(** The default is marked as one that a value replaces; setting it for the
    second name of a repeating option takes the mark away. *)
Definition default_marked (D : declaration) : bool :=
  negb (isEmpty (d_default D)) && match d_repeat D with NoRepeat => true | Repeat => negb (two_names D) end.

Definition default_value (D : declaration) : option str := if isEmpty (d_default D) then None else Some (d_default D).

Definition details_of (D : declaration) (d : OptionDetails) : Prop :=
  od_arg d = d_arg D /\ od_repeat d = d_repeat D /\ od_hasDefault d = default_marked D.

Definition first_value (D : declaration) : option str := match d_repeat D with NoRepeat => default_value D | Repeat => None end.
Definition first_values (D : declaration) : option (list str) :=
  match d_repeat D with NoRepeat => None | Repeat => (fun v => [v]) <$> default_value D end.

(** The objects of [ds] in the order of their declaration, with their defaults *)
Record described (ds : list declaration) (s : Options) : Prop := Described {
  dc_details : Forall2 details_of ds (details s);
  dc_valid o h : validOpts s !! o = Some h <-> exists D, ds !! h = Some D /\ calls_option D o;
  dc_opts h D o : ds !! h = Some D -> calls_option D o -> opts s !! o = first_value D;
  dc_values h D o : ds !! h = Some D -> calls_option D o -> values s o = first_values D
}.

(** [s'] is [s] with the default [v] of the option at [h], whose details are
    [d] before and [d'] behind. *)
Record defaulted (s : Options) (h : nat) (d d' : OptionDetails) (v : str) (s' : Options) : Prop := Defaulted {
  df_valid : validOpts s' = validOpts s;
  df_details j : details s' !! j = if bool_decide (j = h) then Some d' else details s !! j;
  df_opts o : opts s' !! o =
    if bool_decide (validOpts s !! o = Some h /\ od_repeat d = NoRepeat) then Some v else opts s !! o;
  df_values o : values s' o =
    if bool_decide (validOpts s !! o = Some h /\ od_repeat d = Repeat) then Some [v] else values s o
}.

Lemma defaulted_once seen s name h d v s' : wf seen s -> validOpts s !! name = Some h -> details s !! h = Some d ->
  values s name = None -> assigned s name h d v s' -> defaulted s h d d v s'.
Proof.
  intros Hw Hn Hd Hnone [Hv _ _ HD HO HV]. split; [done| |done|].
  - intros j. rewrite HD, Hnone, replaces_none, andb_false_r.
    clear HD HO HV. case_bool_decide as Hj; [by rewrite Hj|done].
  - intros o. rewrite HV. unfold extended. by rewrite Hnone, replaces_none.
Qed.

Lemma defaulted_twice s name h d v s1 s2 : defaulted s h d d v s1 -> od_hasDefault d = true ->
  validOpts s !! name = Some h -> details s !! h = Some d -> assigned s1 name h d v s2 ->
  defaulted s h d (match od_repeat d with Repeat => no_default d | NoRepeat => d end) v s2.
Proof.
  intros [Hv1 HD1 HO1 HV1] Hdef Hn Hd [Hv _ _ HD HO HV].
  assert (values s1 name = match od_repeat d with Repeat => Some [v] | NoRepeat => values s name end) as Hval.
  { rewrite HV1, Hn. destruct (od_repeat d); [by rewrite bool_decide_true|by rewrite bool_decide_false by (by intros [])]. }
  split.
  - congruence.
  - intros j. rewrite HD, Hval. unfold replaces. rewrite Hdef.
    destruct (od_repeat d) eqn:Hr; [rewrite bool_decide_true by done|rewrite bool_decide_false by done; apply HD1]. cbn [andb].
    destruct (decide (j = h)) as [->|Hj].
    + rewrite bool_decide_true by done. rewrite list_lookup_insert_eq; [done|]. apply lookup_lt_is_Some_1. exists d.
      by rewrite HD1, bool_decide_true.
    + by rewrite list_lookup_insert_ne, HD1, !bool_decide_false by done.
  - intros o. rewrite HO, Hv1, HO1. by destruct (bool_decide (_ /\ _)).
  - intros o. rewrite HV, Hv1, (HV1 o). destruct (bool_decide (validOpts s !! o = Some h /\ od_repeat d = Repeat)) eqn:E; [|done].
    apply bool_decide_eq_true in E as [_ Hr]. unfold extended, replaces. by rewrite Hval, Hr, Hdef.
Qed.

(** Setting the default of a new option *)
Lemma set_default_state s shortOpt longOpt h d v : wf ∅ s -> complete s ->
  (exists o, names_of shortOpt longOpt o) ->
  (forall o, names_of shortOpt longOpt o -> validOpts s !! o = Some h /\ values s o = None) ->
  details s !! h = Some d -> od_hasDefault d = true ->
  exists s', setOpt shortOpt longOpt v (od_repeat d) s = (Ok tt, s') /\
    defaulted s h d (match od_repeat d with
      | Repeat => if negb (isEmpty shortOpt) && negb (isEmpty longOpt) then no_default d else d
      | NoRepeat => d end) v s'.
Proof.
  intros Hw Hc Hex Hnames Hd Hdef.
  assert (forall o, names_of shortOpt longOpt o -> exists s1, set_one o v (od_repeat d) s = (Ok tt, s1) /\
    defaulted s h d d v s1 /\ wf ∅ s1 /\ complete s1) as Hfirst.
  { intros o Ho. destruct (Hnames o Ho) as [Hv Hnone].
    destruct (set_one_ok ∅ s o h d v) as (s1 & ? & Ha & ? & ?); try done; [by left|].
    exists s1. split; [done|]. split; [by eapply defaulted_once|done]. }
  destruct shortOpt as [|c cs].
  - destruct Hex as (o & Ho). assert (o = longOpt) as -> by (destruct Ho as [? [-> | ->]]; done).
    destruct (Hfirst longOpt Ho) as (s1 & Hrun & Ha & _). exists s1.
    rewrite setOpt_empty_left by apply Ho. split; [done|]. by destruct (od_repeat d).
  - destruct (Hfirst (c :: cs)) as (s1 & Hrun & Ha & Hw1 & Hc1); [split; [done|by left]|].
    rewrite (setOpt_both _ _ _ _ _ s1) by done.
    destruct longOpt as [|c' cs']; [exists s1; split; [done|]; by destruct (od_repeat d)|].
    destruct (Hnames (c' :: cs')) as [Hv' _]; [split; [done|by right]|].
    destruct (set_one_ok ∅ s1 (c' :: cs') h d v) as (s2 & Hrun2 & Ha2 & _); try done.
    { by rewrite (df_valid _ _ _ _ _ _ Ha). }
    { by rewrite (df_details _ _ _ _ _ _ Ha), bool_decide_true. }
    { by left. }
    exists s2. split; [done|]. by apply (defaulted_twice s (c' :: cs') h d v s1).
Qed.

Lemma lookup_snoc_case {A} (l : list A) x j : (l ++ [x]) !! j = if bool_decide (j = length l) then Some x else l !! j.
Proof.
  case_bool_decide as Hj; [subst j; by rewrite list_lookup_middle|].
  destruct (decide (j < length l)%nat); [by rewrite lookup_app_l|].
  rewrite !lookup_ge_None_2; [done|lia|]. rewrite length_app. cbn. lia.
Qed.

(** One more option *)
Lemma described_snoc ds s D d s' : described ds s -> details_of D d ->
  (forall o, calls_option D o -> validOpts s !! o = None) ->
  (forall j, details s' !! j = if bool_decide (j = length (details s)) then Some d else details s !! j) ->
  (forall o, validOpts s' !! o = if bool_decide (calls_option D o) then Some (length (details s)) else validOpts s !! o) ->
  (forall o, opts s' !! o = if bool_decide (calls_option D o) then first_value D else opts s !! o) ->
  (forall o, values s' o = if bool_decide (calls_option D o) then first_values D else values s o) ->
  described (ds ++ [D]) s'.
Proof.
  intros [Hds Hv Ho Hva] Hd Hfresh HD HV HO HVa. pose proof (Forall2_length _ _ _ Hds) as Hlen.
  assert (forall h D' o, ds !! h = Some D' -> calls_option D' o -> bool_decide (calls_option D o) = false) as Hold.
  { intros h D' o Hh Hn. apply bool_decide_false. intros Hc. pose proof (proj2 (Hv o h) (ex_intro _ D' (conj Hh Hn))) as H.
    by rewrite (Hfresh o Hc) in H. }
  split.
  - apply Forall2_lookup. intros j. rewrite lookup_snoc_case, HD, Hlen. case_bool_decide; [by constructor|].
    by apply Forall2_lookup.
  - intros o h. rewrite HV. setoid_rewrite lookup_snoc_case. rewrite <- Hlen. split.
    + case_bool_decide as Hc; [intros [= <-]; exists D; by rewrite bool_decide_true|].
      intros (D' & Hh & Hn)%Hv. exists D'. rewrite bool_decide_false; [done|]. apply lookup_lt_Some in Hh. lia.
    + intros (D' & Hh & Hn). case_bool_decide as Hj; [injection Hh as ->; by rewrite bool_decide_true, Hj|].
      rewrite (Hold h D' o) by done. apply Hv. by exists D'.
  - intros h D' o. rewrite lookup_snoc_case, HO. case_bool_decide as Hj; [intros [= ->] Hn; by rewrite bool_decide_true|].
    intros Hh Hn. rewrite (Hold h D' o) by done. by apply (Ho h).
  - intros h D' o. rewrite lookup_snoc_case, HVa. case_bool_decide as Hj; [intros [= ->] Hn; by rewrite bool_decide_true|].
    intros Hh Hn. rewrite (Hold h D' o) by done. by apply (Hva h).
Qed.

Lemma described_add ds s D s' : described ds s -> wf ∅ s -> complete s ->
  checkArgs (d_short D) (d_long D) (bool_decide (d_arg D = NeedArg)) (d_default D) = Ok tt ->
  (forall o, calls_option D o -> validOpts s !! o = None) ->
  addValidOpt (d_short D) (d_long D) (d_arg D) (d_default D) (d_repeat D) s = (Ok tt, s') -> described (ds ++ [D]) s'.
Proof.
  intros Hds Hw Hc Hargs Hfresh. rewrite addValidOpt_names by done. destruct (checkArgs_ok _ _ _ _ Hargs) as [Hhead Hdflt].
  set (d := new_details (d_long D) (d_arg D) (d_default D) (d_repeat D)).
  pose proof (declared_with_names s (d_short D) (d_long D) d) as Hde. set (s1 := with_names _ _ _ d) in *.
  assert (wf ∅ s1) as Hw1 by (by eapply (wf_declared s)).
  assert (complete s1) as Hc1 by (by eapply (complete_declared s)).
  assert (forall o, calls_option D o -> opts s !! o = None) as Hopts by (by apply (new_opts s (d_short D) (d_long D))).
  assert (forall o, values s1 o = values s o) as Hvals1.
  { intros o. unfold values. by rewrite (de_ropts _ _ _ _ _ Hde), (de_vectors _ _ _ _ _ Hde). }
  assert (forall o, calls_option D o -> values s o = None) as Hvals.
  { intros o Ho. unfold values. by rewrite (new_ropts s (d_short D) (d_long D)). }
  assert (forall o, (validOpts s1 !! o = Some (length (details s))) <-> calls_option D o) as Hnew.
  { intros o. rewrite (de_valid _ _ _ _ _ Hde). destruct (decide (calls_option D o)) as [Ho|Ho]; [by rewrite bool_decide_true|]. rewrite bool_decide_false by done.
    split; [|done]. intros Hv.
    destruct (wf_valid _ _ Hw _ _ Hv) as (_ & _ & e & He%lookup_lt_Some). lia. }
  destruct (isEmpty (d_default D)) eqn:Ed.
  - rewrite andb_false_r. intros [= <-]. apply (described_snoc ds s D d); try done.
    + split; [done|]. split; [done|]. unfold default_marked, d. cbn. by rewrite Ed.
    + intros j. by rewrite (de_details _ _ _ _ _ Hde).
    + intros o. by rewrite (de_valid _ _ _ _ _ Hde).
    + intros o. rewrite (de_opts _ _ _ _ _ Hde). destruct (decide (calls_option D o)) as [Ho|Ho]; [rewrite bool_decide_true by done|by rewrite bool_decide_false]. rewrite Hopts by done.
      unfold first_value, default_value. rewrite Ed. by destruct (d_repeat D).
    + intros o. rewrite Hvals1. destruct (decide (calls_option D o)) as [Ho|Ho]; [rewrite bool_decide_true by done|by rewrite bool_decide_false]. rewrite Hvals by done.
      unfold first_values, default_value. rewrite Ed. by destruct (d_repeat D).
  - assert (d_arg D = NeedArg) as Harg.
    { destruct (d_arg D) eqn:Ha; [done|]. specialize (Hdflt eq_refl). by rewrite Hdflt in Ed. }
    rewrite Harg, bool_decide_true by done. cbn [andb negb].
    destruct (set_default_state s1 (d_short D) (d_long D) (length (details s)) d (d_default D)) as (s2 & Hrun & [Hv HD HO HV]); try done.
    { unfold checkArgs in Hargs. destruct (d_short D) as [|c cs]; [destruct (d_long D) as [|c cs]; [done|]|]; exists (c :: cs); split; auto. }
    { intros o Ho. split; [by apply Hnew|]. rewrite Hvals1. by apply Hvals. }
    { rewrite (de_details _ _ _ _ _ Hde). by rewrite bool_decide_true. }
    { unfold d. cbn. by rewrite Ed. }
    change (od_repeat d) with (d_repeat D) in *. rewrite Hrun. intros [= <-].
    match type of HD with context [Some ?x] => apply (described_snoc ds s D x); try done end.
    + unfold details_of, default_marked, two_names. rewrite Ed. destruct (d_repeat D) eqn:Hr; [|unfold d, new_details; cbn; by rewrite ?Ed].
      destruct (negb (isEmpty (d_short D)) && negb (isEmpty (d_long D))); unfold d, new_details; cbn; by rewrite ?Ed, ?Hr.
    + intros j. rewrite HD, (de_details _ _ _ _ _ Hde). by destruct (bool_decide (j = _)).
    + intros o. rewrite Hv. apply (de_valid _ _ _ _ _ Hde).
    + intros o. rewrite HO, (de_opts _ _ _ _ _ Hde). unfold first_value, default_value. rewrite Ed.
      destruct (decide (calls_option D o)) as [Ho|Ho]; [rewrite (bool_decide_true (calls_option D o)) by done|
        by rewrite !bool_decide_false by (rewrite ?Hnew; tauto)].
      destruct (d_repeat D); [rewrite bool_decide_false by (by intros []); by apply Hopts|].
      rewrite bool_decide_true; [done|]. split; [by apply Hnew|done].
    + intros o. rewrite HV, Hvals1. unfold first_values, default_value. rewrite Ed.
      destruct (decide (calls_option D o)) as [Ho|Ho]; [rewrite (bool_decide_true (calls_option D o)) by done|
        by rewrite !bool_decide_false by (rewrite ?Hnew; tauto)].
      destruct (d_repeat D); [|rewrite bool_decide_false by (by intros []); by apply Hvals].
      rewrite bool_decide_true; [done|]. split; [by apply Hnew|done].
Qed.

Lemma addOpt_called s D s' : inv s ->
  addOpt (d_short D) (d_long D) (d_arg D) (d_default D) (d_repeat D) s = (Ok tt, s') -> parseCalled s' = parseCalled s.
Proof.
  intros [_ Hi]. unfold addOpt, was_called. rewrite bind_gets. destruct (parseCalled s) eqn:Hp; [done|].
  destruct (Hi eq_refl) as [[Hw Hc] Hs]. unfold lift. unfold mbind at 1, M_bind at 1.
  destruct (checkArgs _ _ _ _) as [[]| |] eqn:Hargs; [|done..]. intros Hrun.
  destruct (check_duplicate_cases (d_short D) s) as [[H1 Hf1]|[e H1]];
    [|by unfold addValidOpt in Hrun; rewrite (bind_throw _ _ _ _ _ H1) in Hrun].
  destruct (check_duplicate_cases (d_long D) s) as [[H2 Hf2]|[e H2]];
    [|by unfold addValidOpt in Hrun; rewrite (bind_ok _ _ _ _ _ H1), (bind_throw _ _ _ _ _ H2) in Hrun].
  destruct (declare_ok s (d_short D) (d_long D) (d_arg D) (d_default D) (d_repeat D)) as (s2 & Hrun2 & _ & _ & _ & Hp2); try done.
  { intros o [Hne [-> | ->]]; auto. }
  congruence.
Qed.

Lemma described_addOpt ds s D s' : described ds s -> inv s ->
  addOpt (d_short D) (d_long D) (d_arg D) (d_default D) (d_repeat D) s = (Ok tt, s') -> described (ds ++ [D]) s'.
Proof.
  intros Hds [_ Hi]. unfold addOpt, was_called. rewrite bind_gets. destruct (parseCalled s) eqn:Hp; [done|].
  destruct (Hi eq_refl) as [[Hw Hc] _]. unfold lift. unfold mbind at 1, M_bind at 1.
  destruct (checkArgs _ _ _ _) as [[]| |] eqn:Hargs; [|done..]. intros Hrun.
  assert (forall o, calls_option D o -> validOpts s !! o = None) as Hfresh.
  { unfold addValidOpt in Hrun.
    destruct (check_duplicate_cases (d_short D) s) as [[H1 Hf1]|[e H1]]; [|by rewrite (bind_throw _ _ _ _ _ H1) in Hrun].
    rewrite (bind_ok _ _ _ _ _ H1) in Hrun.
    destruct (check_duplicate_cases (d_long D) s) as [[H2 Hf2]|[e H2]]; [|by rewrite (bind_throw _ _ _ _ _ H2) in Hrun].
    intros o [Hne [-> | ->]]; auto. }
  by apply (described_add ds s D).
Qed.

Lemma described_declare ds2 : forall ds1 s s', described ds1 s -> inv s -> declare ds2 s = (Ok tt, s') ->
  described (ds1 ++ ds2) s' /\ inv s' /\ parseCalled s' = parseCalled s.
Proof.
  induction ds2 as [|D ds2 IH]; intros ds1 s s' Hds Hi; cbn [declare]; [intros [= <-]; by rewrite app_nil_r|].
  pose proof (addOpt_ok s (d_short D) (d_long D) (d_arg D) (d_default D) (d_repeat D) Hi) as Hok. unfold wp in Hok.
  unfold mbind at 1, M_bind at 1.
  destruct (addOpt _ _ _ _ _ s) as [[[]|e|f] s1] eqn:Hrun; [|done..]. intros Hrest.
  pose proof (described_addOpt ds1 s D s1 Hds Hi Hrun) as Hds1.
  destruct (IH (ds1 ++ [D]) s1 s' Hds1 Hok Hrest) as (H1 & H2 & H3). rewrite <- app_assoc in H1. split; [done|]. split; [done|].
  rewrite H3. by apply (addOpt_called s D s1).
Qed.

(** ** Queries *)

Lemma wp_query s o (Q : OptionDetails -> Options -> Prop) E : inv s ->
  (forall h d, validOpts s !! o = Some h -> details s !! h = Some d -> Q d s) -> (forall e, E e s) ->
  wp (checkOptIsValid o) Q E s.
Proof.
  intros [[seen Hw] _] HQ HE. unfold checkOptIsValid. apply wp_bind, wp_get.
  destruct (validOpts s !! o) as [h|] eqn:Hv; [|by apply wp_throw].
  destruct (wf_valid _ _ Hw _ _ Hv) as (_ & _ & d & Hd). apply (wp_detail h d); [done|]. by eapply HQ.
Qed.

Lemma wp_query_arg s o (Q : OptionDetails -> Options -> Prop) E : inv s ->
  (forall h d, validOpts s !! o = Some h -> details s !! h = Some d -> od_arg d = NeedArg -> Q d s) ->
  (forall e, E e s) -> wp (checkOptHasArg o) Q E s.
Proof.
  intros Hi HQ HE. unfold checkOptHasArg. apply wp_bind, wp_query; [done| |done].
  intros h d Hv Hd. destruct (od_arg d) eqn:Ha; [apply wp_ret; by eapply HQ|by apply wp_throw].
Qed.

Lemma wp_check_parsed s (Q : unit -> Options -> Prop) E : Q tt s -> (forall e, E e s) -> wp check_parsed Q E s.
Proof. intros HQ HE. unfold check_parsed. apply wp_bind, wp_gets. destruct (parseCalled s); [by apply wp_ret|by apply wp_throw]. Qed.

(** The calls of a client and their answers; an exception is caught and the
    object is used on. *)
Inductive call : Type :=
  | AddOpt (shortOpt longOpt : str) (at_type : ArgType) (dflt : str) (rt : RepeatType)
  | Parse (args : list str)
  | IsSet (opt : str)
  | OptArg (opt : str)
  | ArgVec (opt : str).

Inductive answer : Type := Done | Bool (v : bool) | Text (v : str) | Words (v : list str).

Definition do_call (c : call) : opM answer :=
  match c with
  | AddOpt shortOpt longOpt at_type dflt rt => addOpt shortOpt longOpt at_type dflt rt;; mret Done
  | Parse args => r ← parse args; mret (Words r)
  | IsSet opt => r ← isSet opt; mret (Bool r)
  | OptArg opt => r ← optArg opt; mret (Text r)
  | ArgVec opt => r ← argVec opt; mret (Words r)
  end.

Fixpoint do_calls (cs : list call) (s : Options) : list (result answer) * Options :=
  match cs with
  | [] => ([], s)
  | c :: cs' => let '(r, s1) := do_call c s in let '(rs, s2) := do_calls cs' s1 in (r :: rs, s2)
  end.

Lemma do_call_ok c s : inv s -> wp (do_call c) (fun _ s' => inv s') (fun _ s' => inv s') s.
Proof.
  intros Hi. destruct c; cbn [do_call]; apply wp_bind.
  - eapply wp_conseq; [by apply addOpt_ok|done|by intros e s' ->].
  - eapply wp_conseq; [by apply parse_ok|done|done].
  - apply wp_bind, wp_check_parsed; [|done]. apply wp_bind, wp_query; [done| |done]. intros h d _ _.
    apply wp_bind, wp_get, wp_ret. done.
  - apply wp_bind, wp_check_parsed; [|done]. apply wp_bind, wp_query_arg; [done| |done]. intros h d _ _ _.
    destruct (od_repeat d); [by apply wp_throw|by apply wp_gets].
  - apply wp_bind, wp_check_parsed; [|done]. apply wp_bind, wp_query_arg; [done| |done]. intros h d _ _ _.
    destruct (od_repeat d); [|by apply wp_throw]. apply wp_bind, wp_get.
    destruct (ropts s !! opt) as [k|] eqn:Hk; [|by apply wp_ret].
    destruct Hi as [[seen Hw] Hi']. destruct (wf_ropts _ _ Hw _ _ Hk) as ((v & Hv) & _).
    unfold wp. unfold vector, mbind, M_bind, get, deref. rewrite Hv. split; [by exists seen|done].
Qed.

Lemma inv_options_new : inv options_new.
Proof.
  assert (forall o h, validOpts options_new !! o <> Some h) as Hv by (intros o h; change (validOpts options_new) with (∅ : gmap str nat); by rewrite lookup_empty).
  assert (wf ∅ options_new) as Hw.
  { split; intros * H1; try (by destruct (Hv _ _ H1)); unfold options_new in H1; cbn [opts ropts synonyms] in H1;
      try by rewrite lookup_empty in H1.
    by apply not_elem_of_empty in H1. }
  split; [by exists ∅|]. intros _. split; [split; [done|]|].
  - intros a c h H1. by destruct (Hv _ _ H1).
  - intros o h d H1. by destruct (Hv _ _ H1).
Qed.

Lemma described_new : described [] options_new.
Proof. by split; [constructor|split; [done|intros (D & Hh & _)]|..]. Qed.

Lemma do_calls_inv cs : forall s, inv s -> inv (snd (do_calls cs s)).
Proof.
  induction cs as [|c cs IH]; intros s Hi; cbn [do_calls]; [done|].
  pose proof (do_call_ok c s Hi) as Hc. unfold wp in Hc.
  destruct (do_call c s) as [[a|e|g] s1]; [| |done]; specialize (IH s1 Hc); by destruct (do_calls cs s1).
Qed.

(** C25. No sequence of calls on an Options object, with any arguments, violates an
    assertion of the parser or follows a handle that is not there: every call ends
    with an answer or an exception, also after earlier calls threw in the middle of
    their work. *)
Theorem options_never_fault cs r f : r ∈ fst (do_calls cs options_new) -> r <> Fault f.
Proof.
  assert (forall cs s, inv s -> r ∈ fst (do_calls cs s) -> r <> Fault f) as H; [|apply H, inv_options_new].
  clear cs. induction cs as [|c cs IH]; intros s Hi; cbn [do_calls]; [by intros []%not_elem_of_nil|].
  pose proof (do_call_ok c s Hi) as Hc. unfold wp in Hc.
  destruct (do_call c s) as [[a|e|g] s1]; [| |done];
    specialize (IH s1 Hc); destruct (do_calls cs s1) as [rs s2]; cbn [fst] in *;
    rewrite elem_of_cons; intros [->|Hr]; auto.
Qed.


Lemma options_never_fault_witness :
  let answers := fst (do_calls [AddOpt (lit "I") [] NeedArg (lit "d") Repeat;
    Parse [lit "prog"; lit "-I"; lit "x"]; ArgVec (lit "I")] options_new) in
  answers = [Ok Done; Ok (Words []); Ok (Words [lit "x"])] /\ forall r f, r ∈ answers -> r <> Fault f.
Proof.
  split; [vm_compute; reflexivity|]. intros r f. apply options_never_fault.
Defined.
