(* ===== verification/OptionsParse.v ===== *)
(** * Command lines that are well formed

    A well-formed command line is a list of items: long options, clusters of
    short options, their arguments, and words. [parse] returns the words, and
    the queries answer with the values that the items give, over the
    defaults. *)

From stdpp Require Import gmap.
From S2P Require Import Prelude Hoare CxxString StringUtil OptionsSplit Options OptionsSpec.

(** ** Items *)

(** [ShortNames flags c]: a cluster of short options that ends in [c] *)
Inductive spelling : Type := LongName (o : str) | ShortNames (flags : str) (c : ascii).
Inductive given_value : Type := NoValue | Joined (v : str) | Separate (v : str).
Inductive item : Type := Opt (n : spelling) (v : given_value) | Word (w : str).

Definition name_of (n : spelling) : str := match n with LongName o => o | ShortNames _ c => [c] end.

Definition one_char (c : ascii) : str := [c].

Definition mentioned (n : spelling) : list str :=
  match n with LongName o => [o] | ShortNames flags c => map one_char (flags ++ [c]) end.

Definition spelled (n : spelling) : str :=
  match n with LongName o => lit "--" ++ o | ShortNames flags c => lit "-" ++ flags ++ [c] end.

Definition joined (n : spelling) (v : str) : str :=
  spelled n ++ match n with LongName _ => lit "=" ++ v | ShortNames _ _ => v end.

Definition item_text (i : item) : list str :=
  match i with
  | Opt n NoValue => [spelled n]
  | Opt n (Joined v) => [joined n v]
  | Opt n (Separate v) => [spelled n; v]
  | Word w => [w]
  end.

Definition item_words (i : item) : list str := match i with Word w => [w] | Opt _ _ => [] end.

(** What an item sets: of a cluster only its last option *)
Definition item_sets (i : item) : list (str * str) :=
  match i with
  | Opt n NoValue => [(name_of n, lit "1")]
  | Opt n (Joined v) | Opt n (Separate v) => [(name_of n, v)]
  | Word _ => []
  end.

Definition item_mentions (i : item) : list str := match i with Opt n _ => mentioned n | Word _ => [] end.

(** ** The table of options *)

(** The handle of an option with the members that never change *)
Definition kind_of (s : Options) (o : str) : option (nat * ArgType * RepeatType) :=
  h ← validOpts s !! o; d ← details s !! h; Some (h, od_arg d, od_repeat d).

Section kinds.
Context (kind : str -> option (nat * ArgType * RepeatType)).

Definition is_flag (o : str) : bool :=
  match kind o with Some (_, NoArg, _) => true | _ => false end.
Definition takes_value (o : str) : bool :=
  match kind o with Some (_, NeedArg, _) => true | _ => false end.

Definition item_ok (i : item) : bool :=
  match i with
  | Word w => match w with c :: _ => negb (ceq c "-") | [] => true end
  | Opt n v =>
      match n with
      | LongName o => negb (mem_char "=" o)
      | ShortNames flags _ => forallb (fun c => is_flag (one_char c)) flags
      end &&
      match v with
      | NoValue => is_flag (name_of n)
      | Joined v => takes_value (name_of n) && match n with ShortNames _ _ => negb (isEmpty v) | LongName _ => true end
      | Separate _ => takes_value (name_of n)
      end
  end.

Definition handle_once (o : str) : option nat :=
  match kind o with Some (h, _, NoRepeat) => Some h | _ => None end.

(** The options of a list that may come only once, by their handles *)
Definition once (l : list str) : list nat := omap handle_once l.

(** The values that a list of settings gives to the option at [h] *)
Definition given (h : nat) (l : list (str * str)) : list str :=
  omap (fun x => match kind x.1 with Some (j, _, _) => if (j =? h)%nat then Some x.2 else None | None => None end) l.
End kinds.

Lemma kind_of_Some s o h at_type rt : kind_of s o = Some (h, at_type, rt) <->
  exists d, validOpts s !! o = Some h /\ details s !! h = Some d /\ od_arg d = at_type /\ od_repeat d = rt.
Proof.
  unfold kind_of. destruct (validOpts s !! o) as [j|]; cbn; [|naive_solver].
  destruct (details s !! j) as [d|] eqn:Hd; cbn; naive_solver.
Qed.

Lemma kind_assigned s name h d v s' : assigned s name h d v s' -> details s !! h = Some d ->
  forall o, kind_of s' o = kind_of s o.
Proof.
  intros Ha Hd o. unfold kind_of. rewrite (as_valid _ _ _ _ _ _ Ha), (as_details _ _ _ _ _ _ Ha).
  destruct (validOpts s !! o) as [j|]; cbn; [|done]. destruct (_ && _); [|done].
  destruct (decide (j = h)) as [->|Hne]; [|by rewrite list_lookup_insert_ne].
  rewrite list_lookup_insert_eq, Hd by (by eapply lookup_lt_Some). done.
Qed.

(** ** A sequence of assignments *)

Inductive gives : Options -> list (str * str) -> Options -> Prop :=
  | gives_nil s : gives s [] s
  | gives_cons seen s name h d v s1 l s2 :
      wf seen s -> validOpts s !! name = Some h -> details s !! h = Some d ->
      assigned s name h d v s1 -> gives s1 l s2 -> gives s ((name, v) :: l) s2.

Lemma gives_app s1 l1 s2 : gives s1 l1 s2 -> forall l2 s3, gives s2 l2 s3 -> gives s1 (l1 ++ l2) s3.
Proof. induction 1; intros; cbn; [done|]. econstructor; eauto. Qed.

Lemma kind_gives s l s' : gives s l s' -> forall o, kind_of s' o = kind_of s o.
Proof.
  induction 1 as [|seen s name h d v s1 l s2 Hw Hn Hd Ha _ IH]; intros o; [done|].
  rewrite IH. by eapply kind_assigned.
Qed.

Lemma valid_gives s l s' : gives s l s' -> validOpts s' = validOpts s.
Proof. induction 1 as [|seen s name h d v s1 l s2 Hw Hn Hd Ha _ IH]; [done|]. by rewrite IH, (as_valid _ _ _ _ _ _ Ha). Qed.

Lemma called_gives s l s' : gives s l s' -> parseCalled s' = parseCalled s.
Proof. induction 1 as [|seen s name h d v s1 l s2 Hw Hn Hd Ha _ IH]; [done|]. by rewrite IH, (as_called _ _ _ _ _ _ Ha). Qed.

Lemma given_ext k1 k2 h l : (forall o, k1 o = k2 o) -> given k1 h l = given k2 h l.
Proof. intros Hk. unfold given. induction l as [|x l IH]; cbn; [done|]. by rewrite Hk, IH. Qed.

Lemma once_ext k1 k2 l : (forall o, k1 o = k2 o) -> once k1 l = once k2 l.
Proof. intros Hk. unfold once, handle_once. induction l as [|x l IH]; cbn; [done|]. by rewrite Hk, IH. Qed.

Lemma given_cons s h d name v l j : validOpts s !! name = Some j -> details s !! j = Some d ->
  given (kind_of s) h ((name, v) :: l) = (if (j =? h)%nat then [v] else []) ++ given (kind_of s) h l.
Proof.
  intros Hn Hd. unfold given. cbn. assert (kind_of s name = Some (j, od_arg d, od_repeat d)) as ->
    by (apply kind_of_Some; eauto 10).
  by destruct (j =? h)%nat.
Qed.

(** The last value of a non-repeating option counts. *)
Lemma gives_opts s l s' : gives s l s' -> forall o h at_type, kind_of s o = Some (h, at_type, NoRepeat) ->
  opts s' !! o = match last (given (kind_of s) h l) with Some v => Some v | None => opts s !! o end.
Proof.
  induction 1 as [|seen s name j d v s1 l s2 Hw Hn Hd Ha _ IH]; intros o h at_type Ho; [done|].
  rewrite (IH o h at_type) by (by rewrite (kind_assigned _ _ _ _ _ _ Ha Hd)).
  rewrite (given_ext _ _ _ _ (kind_assigned _ _ _ _ _ _ Ha Hd)), (given_cons s h d name v l j) by done.
  rewrite last_app. destruct (last (given (kind_of s) h l)) as [w|]; [done|].
  rewrite (as_opts _ _ _ _ _ _ Ha). apply kind_of_Some in Ho as (e & Hv & He & _ & Hr). rewrite Hv.
  destruct (Nat.eqb_spec j h) as [->|Hne].
  - simplify_eq. by rewrite bool_decide_true.
  - rewrite bool_decide_false by (intros []; congruence). done.
Qed.

(** The values of a repeating option: those given, behind the values that
    were there, unless these are a default *)
Definition spliced (hd : bool) (cur : option (list str)) (vs : list str) : option (list str) :=
  match vs with [] => cur | _ => Some ((if hd then [] else default [] cur) ++ vs) end.

Lemma extended_spliced d cur v : (od_hasDefault d = true -> exists w, cur = Some [w]) ->
  extended d cur v = (if od_hasDefault d then [] else default [] cur) ++ [v].
Proof.
  unfold extended, replaces. destruct (od_hasDefault d); [|done]. intros Hd. by destruct (Hd eq_refl) as (w & ->).
Qed.

Lemma gives_values s l s' : gives s l s' -> defaults_stored s -> forall o h d,
  validOpts s !! o = Some h -> details s !! h = Some d -> od_repeat d = Repeat ->
  values s' o = spliced (od_hasDefault d) (values s o) (given (kind_of s) h l).
Proof.
  induction 1 as [|seen s name j e v s1 l s2 Hw Hn He Ha _ IH]; intros Hdef o h d Ho Hd Hr; [done|].
  rewrite (given_cons s h e name v l j) by done.
  rewrite <- (given_ext _ _ h l (kind_assigned _ _ _ _ _ _ Ha He)).
  assert (defaults_stored s1) as Hdef1 by (by apply (defaults_assigned seen s name j e v)).
  pose proof (as_values _ _ _ _ _ _ Ha o) as Hval. rewrite Ho in Hval.
  pose proof (as_details _ _ _ _ _ _ Ha) as HD.
  assert (validOpts s1 !! o = Some h) as Ho1 by (by rewrite (as_valid _ _ _ _ _ _ Ha)).
  destruct (Nat.eqb_spec j h) as [->|Hne].
  - rewrite Hd in He. injection He as <-. rewrite bool_decide_true in Hval by done.
    rewrite (values_same seen s name o h) in HD, Hval by done.
    assert (od_hasDefault d = true -> exists w, values s o = Some [w]) as Hd1 by (intros; by eapply Hdef).
    rewrite extended_spliced in Hval by done. rewrite bool_decide_true in HD by done. cbn [andb] in HD.
    destruct (od_hasDefault d) eqn:Hhd.
    + destruct (Hd1 eq_refl) as (w & Hw1). rewrite Hw1 in HD. unfold replaces in HD. rewrite Hhd in HD. cbn in HD.
      rewrite (IH Hdef1 o h (no_default d)); [|done|by rewrite HD, list_lookup_insert_eq by (by eapply lookup_lt_Some)|done].
      rewrite Hval. cbn. by destruct (given _ h l).
    + unfold replaces in HD. rewrite Hhd in HD. cbn in HD.
      rewrite (IH Hdef1 o h d); [|done|by rewrite HD|done]. rewrite Hval, Hhd. cbn.
      destruct (given _ h l); cbn; [done|]. by rewrite <- app_assoc.
  - rewrite bool_decide_false in Hval by (intros []; congruence). cbn [app].
    rewrite (IH Hdef1 o h d), Hval; [done..| |done]. rewrite HD. destruct (_ && _); [|done].
    by rewrite list_lookup_insert_ne.
Qed.

(** ** Running the parser over an item *)

(** No option of [hs] has been seen. *)
Definition unseen (seen : gset str) (s : Options) (hs : list nat) : Prop :=
  forall o h, o ∈ seen -> validOpts s !! o = Some h -> h ∉ hs.

Lemma unseen_gives seen s l s' hs : gives s l s' -> unseen seen s hs -> unseen seen s' hs.
Proof. intros Hg Hu o h. rewrite (valid_gives _ _ _ Hg). apply Hu. Qed.

Lemma note_seen_run dashes o seen s h d hs : parsing seen s ->
  validOpts s !! o = Some h -> details s !! h = Some d ->
  NoDup (once (kind_of s) [o] ++ hs) -> unseen seen s (once (kind_of s) [o] ++ hs) ->
  exists seen', note_seen dashes o h seen s = (Ok seen', s) /\ parsing seen' s /\ settable seen' s o d /\
    unseen seen' s hs.
Proof.
  intros (Hw & Hc & Hp) Hn Hd Hnd Hu. pose proof (note_seen_ok dashes o h seen s d Hw Hc Hn Hd) as Hok.
  assert (exists seen', note_seen dashes o h seen s = (Ok seen', s) /\ unseen seen' s hs) as (seen' & Hrun & Hu').
  { assert (kind_of s o = Some (h, od_arg d, od_repeat d)) as Hk by (apply kind_of_Some; eauto 10).
    clear Hok. unfold once, handle_once in Hnd, Hu. cbn in Hnd, Hu. rewrite Hk in Hnd, Hu.
    unfold note_seen. rewrite (bind_detail h d) by done. destruct (od_repeat d); [by exists seen|].
    rewrite bool_decide_false.
    2:{ intros Hin. apply (Hu o h); [done..|]. by left. }
    rewrite bind_synonym. eexists. split; [done|]. cbn in Hnd, Hu. apply NoDup_cons in Hnd as [Hh _].
    assert (unseen ({[o]} ∪ seen) s hs) as Hone.
    { intros a j [->%elem_of_singleton|Ha]%elem_of_union Hj; [by simplify_eq|].
      intros Hin. apply (Hu a j); [done..|]. by right. }
    unfold synonym_of. destruct (synonyms s !! o) as [c|] eqn:Hs; [|done].
    destruct (wf_syn _ _ Hw _ _ Hs) as (i & Hi & Hci). destruct (isEmpty c); [done|].
    intros a j [->%elem_of_singleton|Ha]%elem_of_union Hj; [by simplify_eq|by apply (Hone a j)]. }
  exists seen'. unfold wp in Hok. rewrite Hrun in Hok. destruct Hok as (_ & ? & ?). by split_and!.
Qed.

Lemma checkOpt_run o lt s h : validOpts s !! o = Some h -> checkOpt o lt s = (Ok h, s).
Proof. intros Hn. unfold checkOpt. rewrite bind_get. by rewrite Hn. Qed.

Lemma setOpt_run seen s name h d v hs : parsing seen s ->
  validOpts s !! name = Some h -> details s !! h = Some d -> settable seen s name d -> unseen seen s hs ->
  exists s', setOpt name [] v (od_repeat d) s = (Ok tt, s') /\ gives s [(name, v)] s' /\ parsing seen s' /\
    unseen seen s' hs.
Proof.
  intros (Hw & Hc & Hp) Hn Hd Hset Hu. destruct (setOpt_ok seen s name h d v) as (s' & Hrun & Ha & Hw' & Hc'); try done.
  assert (gives s [(name, v)] s') as Hg by (econstructor; try done; constructor).
  assert (parseCalled s' = true) by (by rewrite (as_called _ _ _ _ _ _ Ha)).
  exists s'. split; [done|]. split; [done|]. split; [by split_and!|by eapply unseen_gives].
Qed.

Lemma once_cons kind o l : once kind (o :: l) = once kind [o] ++ once kind l.
Proof. unfold once. cbn. by destruct (handle_once kind o). Qed.

Lemma once_app kind l1 l2 : once kind (l1 ++ l2) = once kind l1 ++ once kind l2.
Proof. apply omap_app. Qed.

(** The flags of a cluster are looked up and noted, and nothing else. *)
Lemma parse_short_flags flags : forall rest pending seen result s hs, parsing seen s ->
  forallb (fun c => is_flag (kind_of s) (one_char c)) flags = true ->
  NoDup (once (kind_of s) (map one_char flags) ++ hs) ->
  unseen seen s (once (kind_of s) (map one_char flags) ++ hs) ->
  exists seen' pending', parse_short (flags ++ rest) pending seen result s = parse_short rest pending' seen' result s /\
    parsing seen' s /\ unseen seen' s hs.
Proof.
  induction flags as [|c flags IH]; intros rest pending seen result s hs Hp Hf Hnd Hu; [by exists seen, pending|].
  cbn [forallb map app parse_short] in *. apply andb_true_iff in Hf as [Hc Hf].
  rewrite once_cons, <- app_assoc in Hnd, Hu.
  unfold is_flag in Hc. destruct (kind_of s (one_char c)) as [[[h []] rt]|] eqn:Hk; try done.
  apply kind_of_Some in Hk as (d & Hn & Hd & Harg & _). fold (one_char c).
  rewrite (bind_ok _ _ _ _ _ (checkOpt_run _ _ _ _ Hn)).
  destruct (note_seen_run (lit "-") (one_char c) seen s h d (once (kind_of s) (map one_char flags) ++ hs))
    as (seen1 & Hrun & Hp1 & _ & Hu1); try done.
  rewrite (bind_ok _ _ _ _ _ Hrun), (bind_detail h d) by done. rewrite Harg. rewrite bool_decide_false by done. cbn [andb].
  apply IH; try done. by apply NoDup_app in Hnd as (_ & _ & ?).
Qed.

Lemma find_equals o v : mem_char "=" o = false ->
  find_char "=" 2 (lit "--" ++ o ++ lit "=" ++ v) = Some (2 + length o)%nat.
Proof.
  intros Ho. unfold find_char, find_if_from.
  change (drop 2 (lit "--" ++ o ++ lit "=" ++ v)) with (o ++ "="%char :: v).
  rewrite (find_if_app (ceq "=") o v "="); [done| |apply ceq_refl].
  apply mem_char_false in Ho. apply Forall_forall. intros c Hc. apply ceq_false. by intros <-.
Qed.

Lemma find_no_equals o : mem_char "=" o = false -> find_char "=" 2 (lit "--" ++ o) = None.
Proof.
  intros Ho. unfold find_char, find_if_from. change (drop 2 (lit "--" ++ o)) with o.
  apply mem_char_false in Ho. rewrite (proj2 (find_if_None (ceq "=") o)); [done|].
  apply Forall_forall. intros c Hc. apply ceq_false. by intros <-.
Qed.

(** What is known of the name of an item *)
Definition named (s : Options) (n : spelling) (h : nat) (d : OptionDetails) : Prop :=
  validOpts s !! name_of n = Some h /\ details s !! h = Some d /\
  match n with
  | LongName o => mem_char "=" o = false
  | ShortNames flags _ => forallb (fun c => is_flag (kind_of s) (one_char c)) flags = true
  end.

Lemma one_char_valid seen s c h : wf seen s -> validOpts s !! one_char c = Some h -> c <> "-"%char.
Proof. intros Hw Hv. destruct (wf_valid _ _ Hw _ _ Hv) as (_ & Hh & _). cbn in Hh. congruence. Qed.

Lemma cluster_starts seen s flags c h v : wf seen s -> validOpts s !! one_char c = Some h ->
  forallb (fun c => is_flag (kind_of s) (one_char c)) flags = true ->
  starts_with (lit "--") ("-"%char :: (flags ++ [c]) ++ v) = false /\
  exists x, head ((flags ++ [c]) ++ v) = Some x /\ x <> "-"%char.
Proof.
  intros Hw Hv Hf. assert (exists x l, (flags ++ [c]) ++ v = x :: l /\ x <> "-"%char) as (x & l & -> & Hx).
  { destruct flags as [|x flags]; [exists c, v; split; [done|by eapply one_char_valid]|].
    exists x, ((flags ++ [c]) ++ v). split; [done|]. cbn [forallb] in Hf. apply andb_true_iff in Hf as [Hx _].
    unfold is_flag in Hx. destruct (kind_of s (one_char x)) as [[[j a] r]|] eqn:Hk; [|done].
    apply kind_of_Some in Hk as (d & Hx' & _). by eapply one_char_valid. }
  split; [|by exists x]. apply not_true_is_false. rewrite starts_with_spec. intros [t Ht].
  change (lit "--" ++ t) with ("-"%char :: "-"%char :: t) in Ht. congruence.
Qed.

Lemma parse_arg_spelled seen s n h d result hs : parsing seen s -> named s n h d ->
  NoDup (once (kind_of s) (mentioned n) ++ hs) -> unseen seen s (once (kind_of s) (mentioned n) ++ hs) ->
  exists seen', parse_arg (spelled n) seen result s = (Ok (Some (name_of n, h), seen', result), s) /\
    parsing seen' s /\ settable seen' s (name_of n) d /\ unseen seen' s hs.
Proof.
  intros Hp (Hn & Hd & Hm) Hnd Hu. destruct n as [o|flags c]; cbn [name_of spelled mentioned] in *.
  - destruct (note_seen_run (lit "--") o seen s h d hs) as (seen' & Hrun & ? & ? & ?); try done.
    exists seen'. split; [|by split_and!]. unfold parse_arg. rewrite starts_with_app. unfold parse_long.
    rewrite find_no_equals by done. change (drop 2 (lit "--" ++ o)) with o.
    rewrite (bind_ok _ _ _ _ _ (checkOpt_run _ _ _ _ Hn)). by rewrite (bind_ok _ _ _ _ _ Hrun).
  - rewrite map_app, once_app, <- app_assoc in Hnd, Hu.
    destruct (parse_short_flags flags [c] None seen result s (once (kind_of s) (map one_char [c]) ++ hs))
      as (seen1 & pend & Hrun1 & Hp1 & Hu1); try done.
    destruct (note_seen_run (lit "-") (one_char c) seen1 s h d hs) as (seen' & Hrun & ? & ? & ?); try done.
    { by apply NoDup_app in Hnd as (_ & _ & ?). }
    exists seen'. split; [|by split_and!].
    destruct (cluster_starts seen s flags c h [] (proj1 Hp) Hn Hm) as [Hst _]. rewrite app_nil_r in Hst.
    unfold parse_arg. change (lit "-" ++ flags ++ [c]) with ("-"%char :: flags ++ [c]).
    rewrite Hst, ceq_refl, Hrun1. cbn [parse_short].
    fold (one_char c). rewrite (bind_ok _ _ _ _ _ (checkOpt_run _ _ _ _ Hn)), (bind_ok _ _ _ _ _ Hrun).
    rewrite (bind_detail h d) by done. cbn [isEmpty negb]. by rewrite andb_false_r.
Qed.

Lemma parse_arg_joined seen s n h d v result hs : parsing seen s -> named s n h d -> od_arg d = NeedArg ->
  (match n with ShortNames _ _ => v <> [] | LongName _ => True end) ->
  NoDup (once (kind_of s) (mentioned n) ++ hs) -> unseen seen s (once (kind_of s) (mentioned n) ++ hs) ->
  exists seen' s', parse_arg (joined n v) seen result s = (Ok (None, seen', result), s') /\
    gives s [(name_of n, v)] s' /\ parsing seen' s' /\ unseen seen' s' hs.
Proof.
  intros Hp (Hn & Hd & Hm) Harg Hv Hnd Hu.
  destruct n as [o|flags c]; unfold joined; cbn [name_of spelled mentioned] in *.
  - destruct (note_seen_run (lit "--") o seen s h d hs) as (seen' & Hrun & Hp' & Hset & Hu'); try done.
    destruct (setOpt_run seen' s o h d v hs) as (s' & Hrun2 & ? & ? & ?); try done.
    exists seen', s'. split; [|done]. unfold parse_arg. rewrite <- app_assoc, starts_with_app. unfold parse_long.
    rewrite find_equals by done.
    replace (substr 2 (2 + length o - 2) (lit "--" ++ o ++ lit "=" ++ v)) with o.
    2:{ unfold substr. change (drop 2 (lit "--" ++ o ++ lit "=" ++ v)) with (o ++ lit "=" ++ v).
        by rewrite take_app_length' by lia. }
    rewrite (bind_ok _ _ _ _ _ (checkOpt_run _ _ _ _ Hn)), (bind_ok _ _ _ _ _ Hrun), (bind_detail h d) by done.
    rewrite Harg, bool_decide_false by done. cbn [andb].
    replace (drop (S (2 + length o)) (lit "--" ++ o ++ lit "=" ++ v)) with v.
    2:{ change (drop (S (2 + length o)) (lit "--" ++ o ++ lit "=" ++ v)) with (drop (S (length o)) (o ++ "="%char :: v)).
        change (o ++ "="%char :: v) with (o ++ ["="%char] ++ v). rewrite app_assoc, drop_app_length'; [done|].
        rewrite length_app. cbn. lia. }
    by rewrite (bind_ok _ _ _ _ _ Hrun2).
  - rewrite map_app, once_app, <- app_assoc in Hnd, Hu.
    destruct (parse_short_flags flags (c :: v) None seen result s (once (kind_of s) (map one_char [c]) ++ hs))
      as (seen1 & pend & Hrun1 & Hp1 & Hu1); try done.
    destruct (note_seen_run (lit "-") (one_char c) seen1 s h d hs) as (seen' & Hrun & Hp' & Hset & Hu'); try done.
    { by apply NoDup_app in Hnd as (_ & _ & ?). }
    destruct (setOpt_run seen' s (one_char c) h d v hs) as (s' & Hrun2 & ? & ? & ?); try done.
    exists seen', s'. split; [|done].
    destruct (cluster_starts seen s flags c h v (proj1 Hp) Hn Hm) as [Hst _].
    unfold parse_arg. change ((lit "-" ++ flags ++ [c]) ++ v) with ("-"%char :: (flags ++ [c]) ++ v).
    rewrite Hst, ceq_refl, <- app_assoc. cbn [app]. rewrite Hrun1. cbn [parse_short].
    fold (one_char c). rewrite (bind_ok _ _ _ _ _ (checkOpt_run _ _ _ _ Hn)), (bind_ok _ _ _ _ _ Hrun).
    rewrite (bind_detail h d) by done. rewrite Harg, bool_decide_true by done.
    rewrite isEmpty_false by done. cbn [negb andb]. by rewrite (bind_ok _ _ _ _ _ Hrun2).
Qed.

(** No item is taken for the end of the options. *)
Definition ends_options (a : str) : bool := str_eqb a (lit "-") || str_eqb a (lit "--").

Lemma not_end_long (x : ascii) l : ends_options ("-"%char :: "-"%char :: x :: l) = false.
Proof. unfold ends_options. rewrite orb_false_iff, !str_eqb_false. done. Qed.

Lemma not_end_short (x : ascii) l : x <> "-"%char -> ends_options ("-"%char :: x :: l) = false.
Proof. intros Hx. unfold ends_options. rewrite orb_false_iff, !str_eqb_false. split; [done|by intros [= ->]]. Qed.

Lemma spelled_not_end seen s n h d v : wf seen s -> named s n h d -> ends_options (spelled n ++ v) = false.
Proof.
  intros Hw (Hn & Hd & Hm). destruct n as [o|flags c]; cbn [name_of spelled] in *.
  - destruct (wf_valid _ _ Hw _ _ Hn) as (Ho & _). destruct o as [|x o]; [done|].
    apply (not_end_long x (o ++ v)).
  - destruct (cluster_starts seen s flags c h v Hw Hn Hm) as [_ (x & Hx & Hne)].
    change ((lit "-" ++ flags ++ [c]) ++ v) with ("-"%char :: (flags ++ [c]) ++ v).
    destruct ((flags ++ [c]) ++ v) as [|y l]; [done|]. cbn in Hx. injection Hx as ->. by apply not_end_short.
Qed.

Lemma alone_not_end seen s n h d : wf seen s -> named s n h d -> ends_options (spelled n) = false.
Proof. intros Hw Hn. rewrite <- (app_nil_r (spelled n)). by eapply spelled_not_end. Qed.

Lemma kind_named s n at_type : (match at_type with NoArg => is_flag (kind_of s) (name_of n)
    | NeedArg => takes_value (kind_of s) (name_of n) end) = true ->
  match n with
  | LongName o => negb (mem_char "=" o)
  | ShortNames flags _ => forallb (fun c => is_flag (kind_of s) (one_char c)) flags
  end = true -> exists h d, named s n h d /\ od_arg d = at_type.
Proof.
  intros Hk Hn. unfold is_flag, takes_value in Hk.
  destruct (kind_of s (name_of n)) as [[[h a] r]|] eqn:Hkind; [|by destruct at_type].
  apply kind_of_Some in Hkind as (d & Hv & Hd & Ha & _). exists h, d.
  split; [|destruct at_type, a; congruence]. split_and!; [done..|].
  destruct n; [by apply negb_true_iff|done].
Qed.

Lemma forallb_pointwise {A} (f g : A -> bool) l : (forall x, f x = g x) -> forallb f l = forallb g l.
Proof. intros Hfg. induction l as [|x l IH]; cbn; [done|]. by rewrite Hfg, IH. Qed.

Lemma item_ok_ext k1 k2 i : (forall o, k1 o = k2 o) -> item_ok k1 i = item_ok k2 i.
Proof.
  intros Hk. unfold item_ok, is_flag, takes_value.
  destruct i as [[] []|]; cbn; rewrite ?Hk; try done; f_equal; apply forallb_pointwise; intros; by rewrite Hk.
Qed.

Lemma parse_word kind w rest seen result s : item_ok kind (Word w) = true ->
  parse_args (w :: rest) seen result s = parse_args rest seen (result ++ [w]) s.
Proof.
  intros Hok. cbn [parse_args]. fold (ends_options w).
  destruct w as [|c w]; [done|]. cbn in Hok. apply negb_true_iff in Hok.
  assert (c <> "-"%char) by (intros ->; by rewrite ceq_refl in Hok).
  assert (ends_options (c :: w) = false) as ->
    by (unfold ends_options; rewrite orb_false_iff, !str_eqb_false; by split; intros [= -> _]).
  assert (starts_with (lit "--") (c :: w) = false) as Hst.
  { apply not_true_is_false. rewrite starts_with_spec. intros [t Ht].
    change (lit "--" ++ t) with ("-"%char :: "-"%char :: t) in Ht. congruence. }
  unfold parse_arg. rewrite Hst, Hok. by rewrite bind_ret.
Qed.

Section items.
Context (kind : str -> option (nat * ArgType * RepeatType)).

Definition sets (items : list item) : list (str * str) := items ≫= item_sets.
Definition mentions (items : list item) : list str := items ≫= item_mentions.
Definition texts (items : list item) : list str := items ≫= item_text.
Definition words (items : list item) : list str := items ≫= item_words.

(** One item, and what is left to parse behind it *)
Lemma parse_word_item i rest seen result s hs : (forall o, kind_of s o = kind o) ->
  parsing seen s -> item_ok kind i = true ->
  NoDup (once kind (item_mentions i) ++ hs) -> unseen seen s (once kind (item_mentions i) ++ hs) ->
  exists seen' s', parse_args (item_text i ++ rest) seen result s = parse_args rest seen' (result ++ item_words i) s' /\
    gives s (item_sets i) s' /\ parsing seen' s' /\ unseen seen' s' hs.
Proof.
  intros Hkind Hp Hok Hnd Hu. rewrite <- (once_ext _ _ _ Hkind) in Hnd, Hu.
  rewrite <- (item_ok_ext _ _ _ Hkind) in Hok. rename Hok into Hok'.
  clear Hkind. destruct i as [n v|w]; cbn [item_text item_words item_sets item_mentions] in *.
  2:{ exists seen, s. split; [by apply (parse_word (kind_of s))|split; [constructor|done]]. }
  rewrite app_nil_r. cbn [item_ok] in Hok'. apply andb_true_iff in Hok' as [Hn Hv].
  destruct v as [|v|v]; cbn [app].
  - destruct (kind_named s n NoArg Hv Hn) as (h & d & Hnamed & Harg).
    destruct (parse_arg_spelled seen s n h d result hs) as (seen' & Hrun & Hp' & Hset & Hu'); try done.
    destruct (setOpt_run seen' s (name_of n) h d (lit "1") hs) as (s' & Hrun2 & ? & ? & ?); try done; [apply Hnamed..|].
    exists seen', s'. split; [|done]. cbn [parse_args]. fold (ends_options (spelled n)).
    rewrite (alone_not_end seen s n h d) by (done || apply Hp).
    rewrite (bind_ok _ _ _ _ _ Hrun). cbn beta iota.
    rewrite (bind_detail h d), Harg by apply Hnamed. by rewrite (bind_ok _ _ _ _ _ Hrun2).
  - apply andb_true_iff in Hv as [Hv Hne]. destruct (kind_named s n NeedArg Hv Hn) as (h & d & Hnamed & Harg).
    destruct (parse_arg_joined seen s n h d v result hs) as (seen' & s' & Hrun & ? & ? & ?); try done.
    { destruct n; [done|]. intros ->. done. }
    exists seen', s'. split; [|done]. cbn [parse_args]. fold (ends_options (joined n v)).
    unfold joined at 1. rewrite (spelled_not_end seen s n h d) by (done || apply Hp).
    by rewrite (bind_ok _ _ _ _ _ Hrun).
  - destruct (kind_named s n NeedArg Hv Hn) as (h & d & Hnamed & Harg).
    destruct (parse_arg_spelled seen s n h d result hs) as (seen' & Hrun & Hp' & Hset & Hu'); try done.
    destruct (setOpt_run seen' s (name_of n) h d v hs) as (s' & Hrun2 & ? & ? & ?); try done; [apply Hnamed..|].
    exists seen', s'. split; [|done]. cbn [parse_args]. fold (ends_options (spelled n)).
    rewrite (alone_not_end seen s n h d) by (done || apply Hp).
    rewrite (bind_ok _ _ _ _ _ Hrun). cbn beta iota.
    rewrite (bind_detail h d), Harg by apply Hnamed. by rewrite (bind_ok _ _ _ _ _ Hrun2).
Qed.

Lemma parse_items items : forall seen result s tail hs, (forall o, kind_of s o = kind o) ->
  parsing seen s -> forallb (item_ok kind) items = true ->
  NoDup (once kind (mentions items) ++ hs) -> unseen seen s (once kind (mentions items) ++ hs) ->
  exists seen' s', parse_args (texts items ++ tail) seen result s =
      parse_args tail seen' (result ++ words items) s' /\ gives s (sets items) s' /\ parsing seen' s'.
Proof.
  induction items as [|i items IH]; intros seen result s tail hs Hk Hp Hok Hnd Hu.
  - exists seen, s. unfold words. cbn. rewrite app_nil_r. split_and!; try done. constructor.
  - cbn [forallb] in Hok. apply andb_true_iff in Hok as [Hi Hok].
    unfold mentions, texts, sets, words in *. rewrite !bind_cons in *.
    rewrite once_app, <- app_assoc in Hnd, Hu.
    destruct (parse_word_item i (texts items ++ tail) seen result s (once kind (mentions items) ++ hs))
      as (seen1 & s1 & Hrun & Hg & Hp1 & Hu1); try done.
    destruct (IH seen1 (result ++ item_words i) s1 tail hs) as (seen2 & s2 & Hrun2 & Hg2 & Hp2); try done.
    { intros o. by rewrite (kind_gives _ _ _ Hg). }
    { by apply NoDup_app in Hnd as (_ & _ & ?). }
    exists seen2, s2. unfold texts in *. rewrite <- app_assoc, Hrun, Hrun2, <- app_assoc.
    split; [done|]. split; [by eapply gives_app|done].
Qed.
End items.

(** Nothing, or a dash or two and arguments that are not looked at *)
Definition line_end (tail : list str) : bool := match tail with [] => true | e :: _ => ends_options e end.

Lemma parse_tail tail seen result s : line_end tail = true ->
  parse_args tail seen result s = (Ok (result, drop 1 tail), s).
Proof. destruct tail as [|e tail]; [done|]. cbn [line_end parse_args]. fold (ends_options e). by intros ->. Qed.

Definition is_set (vs : list str) (before : bool) : bool := match vs with [] => before | _ => true end.

Definition has {A} (o : option A) : bool := match o with Some _ => true | None => false end.

(** The answers behind a command line that gives the values [vs] to the
    option [o], whose state before was that in [s] *)
Definition answers (s s' : Options) (o : str) (d : OptionDetails) (vs : list str) : Prop :=
  isSet o s' = (Ok (is_set vs (match od_repeat d with NoRepeat => has (opts s !! o) | Repeat => has (values s o) end)), s') /\
  (od_arg d = NeedArg ->
   match od_repeat d with
   | NoRepeat => optArg o s' = (Ok (List.last vs (default [] (opts s !! o))), s')
   | Repeat => argVec o s' = (Ok (default [] (spliced (od_hasDefault d) (values s o) vs)), s')
   end).

Lemma List_last {A} (l : list A) (x : A) : List.last l x = default x (last l).
Proof. induction l as [|a [|b l] IH]; [done..|]. exact IH. Qed.

Lemma query_run s o h d B (k : OptionDetails -> opM B) : parseCalled s = true -> validOpts s !! o = Some h ->
  details s !! h = Some d -> (check_parsed;; d ← checkOptIsValid o; k d) s = k d s.
Proof.
  intros Hp Hv Hd. erewrite bind_ok; [|unfold check_parsed, was_called; rewrite bind_gets, Hp; done].
  unfold checkOptIsValid. erewrite bind_ok; [done|]. rewrite bind_get, Hv. unfold detail. rewrite bind_get, Hd. done.
Qed.

Lemma query_arg_run s o h d B (k : OptionDetails -> opM B) : parseCalled s = true -> validOpts s !! o = Some h ->
  details s !! h = Some d -> od_arg d = NeedArg -> (check_parsed;; d ← checkOptHasArg o; k d) s = k d s.
Proof.
  intros Hp Hv Hd Ha. erewrite bind_ok; [|unfold check_parsed, was_called; rewrite bind_gets, Hp; done].
  unfold checkOptHasArg, checkOptIsValid. erewrite bind_ok; [done|].
  erewrite bind_ok; [|rewrite bind_get, Hv; unfold detail; rewrite bind_get, Hd; done]. by rewrite Ha.
Qed.

Lemma has_values seen s o : wf seen s -> has (ropts s !! o) = has (values s o).
Proof.
  intros Hw. unfold values. destruct (ropts s !! o) as [k|] eqn:Hk; [cbn|done].
  destruct (wf_ropts _ _ Hw _ _ Hk) as ((v & ->) & _). done.
Qed.

Lemma answers_gives seen s l s' s2 o h d : gives s l s' -> defaults_stored s -> wf seen s2 ->
  s2 = set_synonyms (fun _ => ∅) s' -> parseCalled s2 = true ->
  validOpts s !! o = Some h -> details s !! h = Some d -> answers s s2 o d (given (kind_of s) h l).
Proof.
  intros Hg Hdef Hw -> Hp Hv Hd.
  assert (kind_of s o = Some (h, od_arg d, od_repeat d)) as Hk by (apply kind_of_Some; eauto 10).
  pose proof Hk as Hk'. rewrite <- (kind_gives _ _ _ Hg) in Hk'. apply kind_of_Some in Hk' as (e & Hve & He & Hae & Hre).
  pose proof (gives_opts _ _ _ Hg o h (od_arg d)) as Hopts. pose proof (gives_values _ _ _ Hg Hdef o h d Hv Hd) as Hvals.
  split.
  - unfold isSet. rewrite (query_run _ o h e), bind_get, Hre by done.
    unfold mret, M_ret. do 2 f_equal. destruct (od_repeat d) eqn:Hr.
    + change (has (ropts s' !! o) = is_set (given (kind_of s) h l) (has (values s o))).
      pose proof (has_values seen _ o Hw) as Hhas. change (has (ropts s' !! o) = has (values s' o)) in Hhas.
      rewrite Hhas, Hvals by done. by destruct (given _ h l).
    + change (has (opts s' !! o) = is_set (given (kind_of s) h l) (has (opts s !! o))).
      rewrite Hopts by done. destruct (given (kind_of s) h l) as [|v vs]; [done|]. by rewrite last_cons; destruct (last vs).
  - intros Ha. destruct (od_repeat d) eqn:Hr.
    + unfold argVec. rewrite (query_arg_run _ o h e), Hre, bind_get by (done || congruence).
      specialize (Hvals eq_refl). unfold values in Hvals at 1. cbn [ropts set_synonyms].
      destruct (ropts s' !! o) as [k|] eqn:Hro; [cbn in Hvals|by rewrite <- Hvals].
      destruct (wf_ropts _ _ Hw o k Hro) as ((v & Hkv) & _). cbn [vectors set_synonyms] in Hkv.
      unfold vector. rewrite bind_get. cbn [vectors set_synonyms]. rewrite Hkv. rewrite Hkv in Hvals.
      by rewrite <- Hvals.
    + unfold optArg. rewrite (query_arg_run _ o h e), Hre by (done || congruence).
      unfold gets. cbn [opts set_synonyms]. rewrite Hopts, List_last by done. by destruct (last _), (opts s !! o).
Qed.

(** For any table of options: every answer follows from the values given to the
    option at its handle. *)
Lemma parse_answers s prog items tail : inv s -> parseCalled s = false ->
  forallb (item_ok (kind_of s)) items = true -> NoDup (once (kind_of s) (mentions items)) ->
  line_end tail = true ->
  exists s', parse (prog :: texts items ++ tail) s = (Ok (words items ++ drop 1 tail), s') /\
    forall o h d, validOpts s !! o = Some h -> details s !! h = Some d ->
    answers s s' o d (given (kind_of s) h (sets items)).
Proof.
  intros [_ Hi] Hp Hok Hnd Htail. destruct (Hi Hp) as [[Hw Hc] Hdef].
  set (s0 := set_parseCalled true s).
  destruct (parse_items (kind_of s) items ∅ [] s0 tail []) as (seen' & s1 & Hrun & Hg & Hw1 & Hc1 & Hp1); try done.
  { split_and!; [by apply wf_called|done..]. }
  { by rewrite app_nil_r. }
  rewrite (parse_tail tail) in Hrun by done. cbn [app] in Hrun.
  exists (set_synonyms (fun _ => ∅) s1). split.
  - unfold parse, was_called. rewrite bind_gets, Hp, bind_modify. fold s0. cbn [drop].
    rewrite (bind_ok _ _ _ _ _ Hrun), bind_modify. done.
  - intros o h d Hv Hd. apply (answers_gives seen' s0 (sets items) s1); try done. by apply wf_synonyms_cleared.
Qed.

(** ** From the declarations to the answers *)

(** The position of the declaration of an option, and what it says *)
Definition kinds (ds : list declaration) (o : str) : option (nat * ArgType * RepeatType) :=
  match list_find (fun D => calls_option D o) ds with Some (h, D) => Some (h, d_arg D, d_repeat D) | None => None end.

(** The values that settings give to either name of an option *)
Definition values_for (D : declaration) (l : list (str * str)) : list str :=
  omap (fun x => if decide (calls_option D x.1) then Some x.2 else None) l.

(** The values of a repeating option: the default counts when no value is
    given, and also in front of the values when the option has two names. *)
Definition all_values (D : declaration) (vs : list str) : list str :=
  let dflt := if isEmpty (d_default D) then [] else [d_default D] in
  if two_names D then dflt ++ vs else match vs with [] => dflt | _ => vs end.

Definition answered (D : declaration) (vs : list str) (o : str) (s : Options) : Prop :=
  isSet o s = (Ok (is_set vs (negb (isEmpty (d_default D)))), s) /\
  (d_arg D = NeedArg ->
   match d_repeat D with
   | NoRepeat => optArg o s = (Ok (List.last vs (d_default D)), s)
   | Repeat => argVec o s = (Ok (all_values D vs), s)
   end).

Lemma described_kind ds s o : described ds s -> kind_of s o = kinds ds o.
Proof.
  intros Hds. unfold kinds. destruct (list_find _ ds) as [[h D]|] eqn:Hf.
  - apply list_find_Some in Hf as (Hh & Ho & _). apply kind_of_Some.
    destruct (Forall2_lookup_l _ _ _ _ _ (dc_details _ _ Hds) Hh) as (d & Hd & Ha & Hr & _).
    exists d. split; [|done]. apply (dc_valid _ _ Hds). by exists D.
  - apply list_find_None in Hf. destruct (kind_of s o) as [[[h a] r]|] eqn:E; [|done].
    apply kind_of_Some in E as (d & (D & Hh & Hn)%(dc_valid _ _ Hds) & _). rewrite Forall_forall in Hf.
    destruct (Hf D); [|done]. by eapply list_elem_of_lookup_2.
Qed.

Lemma described_given ds s h D l : described ds s -> ds !! h = Some D -> given (kind_of s) h l = values_for D l.
Proof.
  intros Hds Hh. unfold given, values_for. induction l as [|[o v] l IH]; [done|]. cbn. rewrite IH.
  assert (match kind_of s o with Some (j, _, _) => if (j =? h)%nat then Some v else None | None => None end
    = if decide (calls_option D o) then Some v else None) as ->; [|done].
  destruct (decide (calls_option D o)) as [Ho|Ho].
  - destruct (Forall2_lookup_l _ _ _ _ _ (dc_details _ _ Hds) Hh) as (d & Hd & Ha & Hr & _).
    assert (kind_of s o = Some (h, d_arg D, d_repeat D)) as ->; [|by rewrite Nat.eqb_refl].
    apply kind_of_Some. exists d. split; [|done]. apply (dc_valid _ _ Hds). by exists D.
  - destruct (kind_of s o) as [[[j a] r]|] eqn:E; [|done]. destruct (Nat.eqb_spec j h) as [->|]; [|done].
    apply kind_of_Some in E as (d & (D' & Hh' & Hn)%(dc_valid _ _ Hds) & _). congruence.
Qed.

Lemma described_answers ds s s' h D o d vs : described ds s -> ds !! h = Some D -> calls_option D o ->
  details s !! h = Some d -> answers s s' o d vs -> answered D vs o s'.
Proof.
  intros Hds Hh Ho Hd [H1 H2]. pose proof (dc_opts _ _ Hds h D o Hh Ho) as Hopts.
  pose proof (dc_values _ _ Hds h D o Hh Ho) as Hvals.
  destruct (Forall2_lookup_l _ _ _ _ _ (dc_details _ _ Hds) Hh) as (e & He & Ha & Hr & Hdef). rewrite Hd in He. injection He as <-.
  unfold first_value, first_values, default_value in *. rewrite Hr in *. split.
  - rewrite H1. do 3 f_equal. destruct (d_repeat D); [rewrite Hvals|rewrite Hopts]; by destruct (isEmpty (d_default D)).
  - intros Hn. rewrite <- Ha in Hn. specialize (H2 Hn). destruct (d_repeat D) eqn:Er.
    + rewrite H2, Hvals. do 2 f_equal. unfold spliced, all_values. rewrite Hdef. unfold default_marked. rewrite Er.
      destruct (isEmpty (d_default D)), (two_names D), vs; done.
    + rewrite H2, Hopts. do 3 f_equal. destruct (isEmpty (d_default D)) eqn:Ed; [|done]. by apply isEmpty_true in Ed as ->.
Qed.

(** C24. A command line of well-formed items for the options that are declared,
    where a non-repeating option comes once at most, is parsed: the words come back
    in their order, with everything behind a dash that ends the options, and every
    query answers by the declaration and the values given to either name of the
    option. An option is set when it has a value or a default; a non-repeating one
    answers its value or else its default; a repeating one answers all its values,
    or its default when it has none, but with the default in front of them when it
    has two names. Of a cluster of short options only the last one is set. *)
Theorem parse_written ds s prog items tail : declare ds options_new = (Ok tt, s) ->
  forallb (item_ok (kinds ds)) items = true -> NoDup (once (kinds ds) (mentions items)) -> line_end tail = true ->
  exists s', parse (prog :: texts items ++ tail) s = (Ok (words items ++ drop 1 tail), s') /\
    forall D o, D ∈ ds -> calls_option D o -> answered D (values_for D (sets items)) o s'.
Proof.
  intros Hdecl Hok Hnd Htail.
  destruct (described_declare ds [] options_new s described_new inv_options_new Hdecl) as (Hds & Hi & Hp). cbn [app] in Hds.
  destruct (parse_answers s prog items tail) as (s' & Hrun & Hans); [done|by rewrite Hp| | |done|].
  { rewrite <- Hok. apply forallb_pointwise. intros i. apply item_ok_ext. intros o. by apply described_kind. }
  { rewrite (once_ext _ (kinds ds)); [done|]. intros o. by apply described_kind. }
  exists s'. split; [done|]. intros D o [h Hh]%list_elem_of_lookup Ho.
  destruct (Forall2_lookup_l _ _ _ _ _ (dc_details _ _ Hds) Hh) as (d & Hd & _).
  assert (validOpts s !! o = Some h) as Hv by (apply (dc_valid _ _ Hds); by exists D).
  specialize (Hans o h d Hv Hd). rewrite (described_given ds s h D) in Hans by done. by eapply described_answers.
Qed.

Module Sample.
Definition declared : list declaration := [
  Declaration (lit "a") (lit "all") NoArg [] NoRepeat;
  Declaration (lit "b") [] NoArg [] NoRepeat;
  Declaration (lit "o") (lit "out") NeedArg (lit "a.out") NoRepeat;
  Declaration (lit "D") [] NeedArg (lit "none") Repeat;
  Declaration (lit "I") (lit "include") NeedArg (lit ".") Repeat].

Definition table : Options := snd (declare declared options_new).

Definition declarations : list call :=
  (fun D => AddOpt (d_short D) (d_long D) (d_arg D) (d_default D) (d_repeat D)) <$> declared.

Definition line : list item := [
  Opt (ShortNames (lit "a") "b") NoValue; Word (lit "x.c"); Opt (LongName (lit "include")) (Joined (lit "inc"));
  Opt (ShortNames [] "D") (Joined (lit "N=1")); Opt (ShortNames [] "D") (Separate (lit "-M"))].
End Sample.

Lemma parse_written_witness :
  exists s', parse ([lit "cc"; lit "-ab"; lit "x.c"; lit "--include=inc"; lit "-DN=1"; lit "-D"; lit "-M"; lit "--"; lit "-z"])
      Sample.table = (Ok [lit "x.c"; lit "-z"], s') /\
    forall D o, D ∈ Sample.declared -> calls_option D o -> answered D (values_for D (sets Sample.line)) o s'.
Proof.
  apply (parse_written Sample.declared Sample.table (lit "cc") Sample.line [lit "--"; lit "-z"]).
  - vm_compute. reflexivity.
  - vm_compute. reflexivity.
  - apply (bool_decide_unpack _). vm_compute. exact I.
  - reflexivity.
Defined.

(** The answers behind that line: of the cluster [-ab] only the last option
    is set, and the default of a repeating option stays when the option has
    two names. *)
Example sample_answers :
  fst (do_calls (Sample.declarations ++ [
    Parse [lit "cc"; lit "-ab"; lit "x.c"; lit "--include=inc"; lit "-DN=1"; lit "-D"; lit "-M"; lit "--"; lit "-z"];
    IsSet (lit "a"); IsSet (lit "b"); OptArg (lit "out"); ArgVec (lit "D"); ArgVec (lit "I")]) options_new)
  = [Ok Done; Ok Done; Ok Done; Ok Done; Ok Done; Ok (Words [lit "x.c"; lit "-z"]);
     Ok (Bool false); Ok (Bool true); Ok (Text (lit "a.out")); Ok (Words [lit "N=1"; lit "-M"]);
     Ok (Words [lit "."; lit "inc"])].
Proof. vm_compute. reflexivity. Qed.
