(* ===== verification/ReferenceFactory.v ===== *)
(** * Proxies as text, as properties and on the wire

    cpp/src/Ice/ReferenceFactory.cpp makes references from strings, from
    properties and from streams; Reference.cpp prints and marshals them;
    ProxyFactory.cpp is what the communicator and the streams call. A proxy is
    modelled by its reference, a null proxy by [None]. *)

From S2P Require Import Prelude CxxString Layout Protocol Stream Encaps StreamString StringUtil OrderedMap StreamHelpers.
From S2P Require Import Identity Endpoint Reference PropertyNames Properties.

(** What a communicator is configured with: its string converter, the defaults
    of [DefaultsAndOverrides], its endpoint factories, and the default locator and
    router of its [ReferenceFactory] *)
Class Instance_ : Type := {
  converter : option (StringConverter ascii);
  defaultCollocationOptimization : bool;
  defaultPreferSecure : bool;
  defaultEndpointSelection : EndpointSelectionType;
  defaultLocatorCacheTimeout : Z;
  defaultEncoding : EncodingVersion;
  factories : list EndpointFactory;
  defaultLocator : option Reference;
  defaultRouter : option Reference
}.

Definition Protocol_1_0 : EncodingVersion := MkEncoding (chr 1) (chr 0).

(** ** Text *)

Section text.
Context `{IN : Instance_}.

(** The text in quotes when it has a character that separates the parts of a proxy *)
Definition quoted (s : str) : str :=
  if bool_decide (is_Some (find_first_of (lit " :@") 0 s)) then [dquote] ++ s ++ [dquote] else s.

Definition mode_text (m : Mode) : str :=
  match m with
  | ModeTwoway => lit " -t"
  | ModeOneway => lit " -o"
  | ModeBatchOneway => lit " -O"
  | ModeDatagram => lit " -d"
  | ModeBatchDatagram => lit " -D"
  end.

(** [Reference::toString] *)
Definition base_toString (r : ReferenceBase) : result str :=
  id ← identityToString converter (_identity r);
  facet ←
    (if empty_string (_facet r) then Ok []
     else
       fs ← nativeToUTF8 converter (_facet r);
       fs ← escapeString fs [];
       Ok (lit " -f " ++ quoted fs));
  Ok (quoted id ++ facet ++ mode_text (_mode r) ++
      (if _secure r then lit " -s" else []) ++
      (if encoding_eqb (_protocol r) Protocol_1_0 then [] else lit " -p " ++ versionToString (_protocol r)) ++
      lit " -e " ++ versionToString (_encoding r)).

Definition endpoints_text (l : list EndpointI) : str :=
  l ≫= fun e => let endp := endpoint_toString e in if empty_string endp then [] else lit ":" ++ endp.

(** [FixedReference::toString] and [RoutableReference::toString] *)
Definition reference_toString (r : Reference) : result str :=
  match r with
  | FixedReference _ _ => Throw FixedProxyException
  | RoutableReference base m _ _ =>
      result ← base_toString base;
      if negb (no_endpoints (_endpoints m)) then Ok (result ++ endpoints_text (_endpoints m))
      else if negb (empty_string (_adapterId m)) then
        a ← nativeToUTF8 converter (_adapterId m);
        a ← escapeString a [];
        Ok (result ++ lit " @ " ++ quoted a)
      else Ok result
  end.

(** [ProxyFactory::proxyToString] *)
Definition proxyToString (p : option Reference) : result str :=
  match p with Some r => reference_toString r | None => Ok [] end.

(** [RoutableReference::toProperty] *)
Fixpoint toProperty (prefix : str) (r : Reference) : result (gmap str str) :=
  match r with
  | FixedReference _ _ => Throw FixedProxyException
  | RoutableReference _ m locatorInfo routerInfo =>
      text ← reference_toString r;
      let flag (b : bool) := if b then lit "1" else lit "0" in
      let properties :=
        <[prefix ++ lit ".LocatorCacheTimeout" := show_int (_locatorCacheTimeout m)]>
        (<[prefix ++ lit ".EndpointSelection" :=
            match _endpointSelection m with Random => lit "Random" | Ordered => lit "Ordered" end]>
        (<[prefix ++ lit ".PreferSecure" := flag (_preferSecure m)]>
        (<[prefix ++ lit ".ConnectionCached" := flag (_cacheConnection m)]>
        (<[prefix ++ lit ".CollocationOptimized" := flag (_collocationOptimized m)]>
        (<[prefix := text]> ∅))))) in
      properties ←
        match routerInfo with
        | Some router => routerProperties ← toProperty (prefix ++ lit ".Router") router; Ok (routerProperties ∪ properties)
        | None => Ok properties
        end;
      match locatorInfo with
      | Some locator => locatorProperties ← toProperty (prefix ++ lit ".Locator") locator; Ok (locatorProperties ∪ properties)
      | None => Ok properties
      end
  end.

(** ** Parsing *)

Definition proxy_error (what s : str) : exn := ProxyParseException (what ++ lit "`" ++ s ++ lit "'").

(** A word that may be enclosed in quotes, with the positions of its first
    character and behind it *)
Definition quotable_word (stops : str) (mismatched : exn) (s : str) (beg : nat) : result (str * nat * nat) :=
  match checkQuote s beg with
  | None => Throw mismatched
  | Some O => let end_ := find_end stops beg s in Ok (substr beg (end_ - beg) s, beg, end_)
  | Some end_ => Ok (substr (S beg) (end_ - S beg) s, S beg, S end_)
  end.

Definition separators : str := delim ++ lit ":@".

(** What the options of a proxy set *)
Record ProxyOptions : Type := MkOptions {
  o_facet : str;
  o_mode : Mode;
  o_secure : bool;
  o_encoding : EncodingVersion;
  o_protocol : EncodingVersion
}.

(** [catch(const IceUtil::IllegalArgumentException&)] *)
Definition unescaped (what s argument : str) : result str :=
  match unescapeString argument 0 (length argument) with
  | Throw (IllegalArgumentException reason) =>
      Throw (ProxyParseException (lit "invalid " ++ what ++ lit " in `" ++ s ++ lit "': " ++ reason))
  | r => r
  end.

(** [catch(const Ice::VersionParseException&)] *)
Definition version_argument (what s argument : str) : result EncodingVersion :=
  match stringToVersion argument with
  | Throw (VersionParseException why) =>
      Throw (ProxyParseException
        (lit "invalid " ++ what ++ lit " version `" ++ argument ++ lit "' in `" ++ s ++ lit "':" ++ [chr 10] ++ why))
  | r => r
  end.

(** The [switch] over an option *)
Definition proxy_option (s option argument : str) (o : ProxyOptions) : result ProxyOptions :=
  let '(MkOptions facet mode secure encoding protocol) := o in
  let flag (o : ProxyOptions) : result ProxyOptions :=
    if empty_string argument then Ok o
    else Throw (proxy_error (lit "unexpected argument `" ++ argument ++ lit "' provided for " ++ option ++ lit " option in ") s) in
  let missing := proxy_error (lit "no argument provided for " ++ option ++ lit " option in ") s in
  let c := at_ option 1 in
  if ceq c "f" then
    if empty_string argument then Throw missing
    else
      facet ← unescaped (lit "facet") s argument;
      facet ← UTF8ToNative converter facet;
      Ok (MkOptions facet mode secure encoding protocol)
  else if ceq c "t" then flag (MkOptions facet ModeTwoway secure encoding protocol)
  else if ceq c "o" then flag (MkOptions facet ModeOneway secure encoding protocol)
  else if ceq c "O" then flag (MkOptions facet ModeBatchOneway secure encoding protocol)
  else if ceq c "d" then flag (MkOptions facet ModeDatagram secure encoding protocol)
  else if ceq c "D" then flag (MkOptions facet ModeBatchDatagram secure encoding protocol)
  else if ceq c "s" then flag (MkOptions facet mode true encoding protocol)
  else if ceq c "e" then
    if empty_string argument then Throw missing
    else
      encoding ← version_argument (lit "encoding") s argument;
      Ok (MkOptions facet mode secure encoding protocol)
  else if ceq c "p" then
    if empty_string argument then Throw missing
    else
      protocol ← version_argument (lit "protocol") s argument;
      Ok (MkOptions facet mode secure encoding protocol)
  else Throw (proxy_error (lit "unknown option `" ++ option ++ lit "' in ") s).

(** The argument of an option, if there is one, and the position behind it *)
Definition proxy_argument (s option : str) (end_ : nat) : result (str * nat) :=
  match find_first_not_of delim end_ s with
  | Some argumentBeg =>
      if mem_char (at_ s argumentBeg) (lit "@:-") then Ok ([], end_)
      else
        r ← quotable_word separators
              (proxy_error (lit "mismatched quotes around value for " ++ option ++ lit " option in ") s) s argumentBeg;
        Ok (r.1.1, r.2)
  | None => Ok ([], end_)
  end.

(** The loop over the options, with the position where it stopped: [None] at
    the end of the text *)
Fixpoint proxy_options (fuel : nat) (s : str) (end_ : nat) (o : ProxyOptions) : result (ProxyOptions * option nat) :=
  match fuel with
  | O => Fault OutOfFuel
  | S fuel' =>
      match find_first_not_of delim end_ s with
      | None => Ok (o, None)
      | Some beg =>
          if mem_char (at_ s beg) (lit ":@") then Ok (o, Some beg)
          else
            let end_ := find_end separators beg s in
            if (beg =? end_)%nat then Ok (o, Some beg)
            else
              let option := substr beg (end_ - beg) s in
              if negb (length option =? 2)%nat || negb (ceq (at_ option 0) "-") then
                Throw (proxy_error (lit "expected a proxy option but found `" ++ option ++ lit "' in ") s)
              else
                r ← proxy_argument s option end_;
                o ← proxy_option s option (r.1) o;
                proxy_options fuel' s (r.2) o
      end
  end.

(** Whether the colon at [end_] stands between two quotes, looked for from
    [quote] on *)
Fixpoint colon_quoted (fuel : nat) (s : str) (end_ quote : nat) : bool :=
  match fuel with
  | O => false
  | S fuel' =>
      match find_char dquote quote s with
      | None => false
      | Some quote =>
          if (end_ <? quote)%nat then false
          else
            match find_char dquote (S quote) s with
            | None => false
            | Some quote => if (end_ <? quote)%nat then true else colon_quoted fuel' s end_ (S quote)
            end
      end
  end.

(** The end of the endpoint that starts at [beg]: the next colon outside of quotes *)
Fixpoint endpoint_end (fuel : nat) (s : str) (beg end_ : nat) : result nat :=
  match fuel with
  | O => Fault OutOfFuel
  | S fuel' =>
      match find_char ":" end_ s with
      | None => Ok (length s)
      | Some end_ => if colon_quoted (S (length s)) s end_ beg then endpoint_end fuel' s beg (S end_) else Ok end_
      end
  end.
End text.

(** What the text of a proxy says *)
Record ProxyText : Type := MkProxyText {
  pt_identity : Identity;
  pt_options : ProxyOptions;
  pt_endpoints : list EndpointI;
  pt_adapterId : str;
  pt_unknownEndpoints : list str
}.

(** What goes to the logger of the communicator, which is not part of the state *)
Definition log_warning (msg : str) : Props unit := mret tt.

(** Reading and writing endpoints takes a host, the coders of the streams, and
    the stream that the factory makes for an opaque endpoint. *)
Section proxies.
Context `{PL : Platform} {D E : Type} `{CO : Coders D E} {OC : ObjectDecoding (BasicStream D E)}.
Context `{IN : Instance_} `{ED : EndpointDefaults} (temporary : BasicStream D E) (fuel : nat).
Local Abbreviation stream := (BasicStream D E).

(** The loop over the endpoints: the known and the unknown ones *)
Fixpoint proxy_endpoints (n : nat) (s : str) (end_ : nat) (endpoints : list EndpointI) (unknownEndpoints : list str)
    : result (list EndpointI * list str) :=
  match n with
  | O => Fault OutOfFuel
  | S n' =>
      if (end_ <? length s)%nat && ceq (at_ s end_) ":" then
        let beg := S end_ in
        end_ ← endpoint_end (S (length s)) s beg beg;
        let es := substr beg (end_ - beg) s in
        endp ← endpoint_create fuel temporary factories es false;
        match endp with
        | Some endp => proxy_endpoints n' s end_ (endpoints ++ [endp]) unknownEndpoints
        | None => proxy_endpoints n' s end_ endpoints (unknownEndpoints ++ [es])
        end
      else Ok (endpoints, unknownEndpoints)
  end.

(** The part behind [@] *)
Definition proxy_adapter (s : str) (beg : nat) : result str :=
  match find_first_not_of delim (S beg) s with
  | None => Throw (proxy_error (lit "missing adapter id in ") s)
  | Some beg =>
      r ← quotable_word delim (proxy_error (lit "mismatched quotes around adapter id in ") s) s beg;
      let '(adapterstr, _, end_) := r in
      match find_first_not_of delim end_ s with
      | Some _ =>
          Throw (proxy_error (lit "invalid trailing characters after `" ++ substr 0 (S end_) s ++ lit "' in ") s)
      | None =>
          adapter ← unescaped (lit "adapter id") s adapterstr;
          if empty_string adapter then Throw (proxy_error (lit "empty adapter id in ") s)
          else UTF8ToNative converter adapter
      end
  end.

(** [ReferenceFactory::create(str, propertyPrefix)] up to the creation of the
    reference *)
Definition parse_proxy (s : str) : result (option ProxyText) :=
  if empty_string s then Ok None
  else
    match find_first_not_of delim 0 s with
    | None => Throw (proxy_error (lit "no non-whitespace characters found in ") s)
    | Some beg =>
        r ← quotable_word separators (proxy_error (lit "mismatched quotes around identity in ") s) s beg;
        let '(idstr, beg, end_) := r in
        if (beg =? end_)%nat then Throw (proxy_error (lit "no identity in ") s)
        else
          ident ← stringToIdentity converter idstr;
          if empty_string (name ident) then
            if negb (empty_string (category ident)) then
              Throw (IllegalIdentityException (name ident) (category ident))
            else
              match find_first_not_of delim end_ s with
              | Some _ => Throw (proxy_error (lit "invalid characters after identity in ") s)
              | None => Ok None
              end
          else
            r ← proxy_options (S (length s)) s end_ (MkOptions [] ModeTwoway false defaultEncoding Protocol_1_0);
            let '(o, beg) := r in
            match beg with
            | None => Ok (Some (MkProxyText ident o [] [] []))
            | Some beg =>
                if ceq (at_ s beg) ":" then
                  r ← proxy_endpoints (S (length s)) s beg [] [];
                  match r with
                  | ([], []) => Fault AssertionFailure
                  | ([], e :: _) =>
                      Throw (EndpointParseException (lit "invalid endpoint `" ++ e ++ lit "' in `" ++ s ++ lit "'"))
                  | (endpoints, unknownEndpoints) => Ok (Some (MkProxyText ident o endpoints [] unknownEndpoints))
                  end
                else if ceq (at_ s beg) "@" then
                  adapter ← proxy_adapter s beg;
                  Ok (Some (MkProxyText ident o [] adapter []))
                else Throw (proxy_error (lit "malformed proxy ") s)
            end
    end.

(** ** Creation *)

(** The names behind the prefix of the properties of a proxy *)
Definition suffixes : list str :=
  [lit "EndpointSelection"; lit "ConnectionCached"; lit "PreferSecure"; lit "LocatorCacheTimeout"; lit "Locator";
   lit "Router"; lit "CollocationOptimized"].

Definition checkForUnknownProperties (prefix : str) : Props unit :=
  if existsb (fun p => starts_with p prefix) clPropNames then mret tt
  else
    props ← getPropertiesForPrefix (prefix ++ lit ".");
    let unknownProps :=
      List.filter (fun p => negb (existsb (fun suffix => str_eqb p (prefix ++ lit "." ++ suffix)) suffixes))
        (fst <$> in_order props) in
    if (length unknownProps =? 0)%nat then mret tt
    else log_warning (lit "found unknown properties for proxy '" ++ prefix ++ lit "':" ++
           (unknownProps ≫= fun p => chr 10 :: lit "    " ++ p)).

(** The info of a locator that is called with the encoding of the reference *)
Definition locator_info (encoding : EncodingVersion) (locator : option Reference) : result (option Reference) :=
  match locator with
  | None => Ok None
  | Some l => if negb (encoding_eqb (getEncoding l) encoding) then
                l' ← changeEncoding encoding l; locator_get (Some l')
              else locator_get (Some l)
  end.

Definition ends_with (p s : str) : bool := str_eqb (drop (length s - length p) s) p.

(** The private [create]: the last step of all the others. [propertyToProxy]
    is [Communicator::propertyToProxy]. *)
Definition create (propertyToProxy : str -> Props (option Reference)) (ident : Identity) (facet : str) (mode : Mode)
    (secure : bool) (protocol encoding : EncodingVersion) (endpoints : list EndpointI) (adapterId propertyPrefix : str)
    : Props Reference :=
  locatorInfo ← lift (locator_info encoding defaultLocator);
  routerInfo ← lift (router_get defaultRouter);
  if empty_string propertyPrefix then
    lift (new_RoutableReference ident facet mode secure protocol encoding endpoints adapterId locatorInfo routerInfo
      defaultCollocationOptimization true defaultPreferSecure defaultEndpointSelection defaultLocatorCacheTimeout)
  else
    warn ← getPropertyAsIntWithDefault (lit "Ice.Warn.UnknownProperties") 1;
    (if 0 <? warn then checkForUnknownProperties propertyPrefix else mret tt);;
    locator ← propertyToProxy (propertyPrefix ++ lit ".Locator");
    locatorInfo ← match locator with Some _ => lift (locator_info encoding locator) | None => mret locatorInfo end;
    router ← propertyToProxy (propertyPrefix ++ lit ".Router");
    routerInfo ←
      match router with
      | Some _ =>
          if (7 <? length propertyPrefix)%nat && ends_with (lit ".Router") propertyPrefix then
            text ← getProperty (propertyPrefix ++ lit ".Router");
            log_warning (lit "`" ++ propertyPrefix ++ lit ".Router=" ++ text ++
              lit "': cannot set a router on a router; setting ignored");;
            mret routerInfo
          else lift (router_get router)
      | None => mret routerInfo
      end;
    let flag key (b : bool) := v ← getPropertyAsIntWithDefault (propertyPrefix ++ key) (if b then 1 else 0); mret (0 <? v) in
    collocationOptimized ← flag (lit ".CollocationOptimized") defaultCollocationOptimization;
    cacheConnection ← flag (lit ".ConnectionCached") true;
    preferSecure ← flag (lit ".PreferSecure") defaultPreferSecure;
    type ← getProperty (propertyPrefix ++ lit ".EndpointSelection");
    endpointSelection ←
      (if empty_string type then mret defaultEndpointSelection
       else
         type ← getProperty (propertyPrefix ++ lit ".EndpointSelection");
         if str_eqb type (lit "Random") then mret Random
         else if str_eqb type (lit "Ordered") then mret Ordered
         else throw (EndpointSelectionTypeParseException
                (lit "illegal value `" ++ type ++ lit "'; expected `Random' or `Ordered'")));
    locatorCacheTimeout ← getPropertyAsIntWithDefault (propertyPrefix ++ lit ".LocatorCacheTimeout") defaultLocatorCacheTimeout;
    lift (new_RoutableReference ident facet mode secure protocol encoding endpoints adapterId locatorInfo routerInfo
      collocationOptimized cacheConnection preferSecure endpointSelection locatorCacheTimeout).

(** [ReferenceFactory::create(str, propertyPrefix)] *)
Definition create_from_string (propertyToProxy : str -> Props (option Reference)) (s propertyPrefix : str)
    : Props (option Reference) :=
  text ← lift (parse_proxy s);
  match text with
  | None => mret None
  | Some t =>
      let o := pt_options t in
      (if (0 <? length (pt_unknownEndpoints t))%nat then
         warn ← getPropertyAsIntWithDefault (lit "Ice.Warn.Endpoints") 1;
         if 0 <? warn then
           log_warning (lit "Proxy contains unknown endpoints:" ++
             (pt_unknownEndpoints t ≫= fun e => lit " `" ++ e ++ lit "'"))
         else mret tt
       else mret tt);;
      r ← create propertyToProxy (pt_identity t) (o_facet o) (o_mode o) (o_secure o) (o_protocol o) (o_encoding o)
            (pt_endpoints t) (pt_adapterId t) propertyPrefix;
      mret (Some r)
  end.

(** [ProxyFactory::propertyToProxy]. The properties of a proxy name a locator
    and a router that are themselves given by properties: the depth bounds this
    nesting. *)
Fixpoint propertyToProxy (depth : nat) (prefix : str) : Props (option Reference) :=
  match depth with
  | O => faultM OutOfFuel
  | S depth' =>
      proxy ← getProperty prefix;
      create_from_string (propertyToProxy depth') proxy prefix
  end.

(** [ProxyFactory::stringToProxy] *)
Definition stringToProxy (s : str) : Props (option Reference) :=
  create_from_string (fun _ => faultM OutOfFuel) s [].

Definition no_identity (ident : Identity) : bool := empty_string (name ident) && empty_string (category ident).

(** [ReferenceFactory::create] from a template, with endpoints or the id of an adapter *)
Definition create_with_endpoints (ident : Identity) (facet : str) (tmpl : Reference) (endpoints : list EndpointI)
    : Props (option Reference) :=
  if no_identity ident then mret None
  else r ← create (fun _ => faultM OutOfFuel) ident facet (getMode tmpl) (getSecure tmpl) (getProtocol tmpl)
         (getEncoding tmpl) endpoints [] []; mret (Some r).

Definition create_with_adapter (ident : Identity) (facet : str) (tmpl : Reference) (adapterId : str)
    : Props (option Reference) :=
  if no_identity ident then mret None
  else r ← create (fun _ => faultM OutOfFuel) ident facet (getMode tmpl) (getSecure tmpl) (getProtocol tmpl)
         (getEncoding tmpl) [] adapterId []; mret (Some r).

(** [ReferenceFactory::create(ident, connection)] *)
Definition create_fixed (ident : Identity) (connection : FixedConnection) : option Reference :=
  if no_identity ident then None
  else Some (FixedReference
    (MkBase (if datagram (fc_endpoint connection) then ModeDatagram else ModeTwoway) (secure (fc_endpoint connection))
       ident ∅ [] Protocol_1_0 defaultEncoding false false) connection).

(** ** On the wire *)

(** [Reference::streamWrite] *)
Definition base_streamWrite (r : ReferenceBase) : M stream unit :=
  write_StringSeq (if empty_string (_facet r) then [] else [_facet r]) true;;
  write_Byte (chr (mode_code (_mode r)));;
  write_Bool (_secure r);;
  enc ← getWriteEncoding;
  if encoding_eqb enc Encoding_1_0 then mret tt
  else write_EncodingVersion (_protocol r);; write_EncodingVersion (_encoding r).

(** [FixedReference::streamWrite] and [RoutableReference::streamWrite] *)
Definition reference_streamWrite (r : Reference) : M stream unit :=
  match r with
  | FixedReference _ _ => throw FixedProxyException
  | RoutableReference base m _ _ =>
      base_streamWrite base;;
      let sz := to_i32 (Z.of_nat (length (_endpoints m))) in
      writeSize sz;;
      if negb (sz =? 0) then
        assertM (empty_string (_adapterId m));;
        write_each endpoint_streamWrite (_endpoints m)
      else write_string (_adapterId m) true
  end.

(** The generated operations on the struct [Identity] *)
Definition write_Identity (ident : Identity) : M stream unit :=
  write_string (name ident) true;; write_string (category ident) true.
Definition read_Identity : M stream Identity :=
  n ← read_string true; c ← read_string true; mret (MkIdentity n c).

(** [ProxyFactory::proxyToStream] *)
Definition proxyToStream (p : option Reference) : M stream unit :=
  match p with
  | Some r => write_Identity (getIdentity r);; reference_streamWrite r
  | None => write_Identity (MkIdentity [] [])
  end.

Definition mode_of (c : byte) : option Mode :=
  match ord c with
  | 0 => Some ModeTwoway
  | 1 => Some ModeOneway
  | 2 => Some ModeBatchOneway
  | 3 => Some ModeDatagram
  | 4 => Some ModeBatchDatagram
  | _ => None
  end.

(** What [ReferenceFactory::create(ident, s)] reads *)
Definition read_reference (ident : Identity) : M stream (option (str * Mode * bool * EncodingVersion * EncodingVersion *
    list EndpointI * str)) :=
  if no_identity ident then mret None
  else
    facetPath ← read_StringSeq true;
    facet ← match facetPath with [] => mret [] | [facet] => mret facet | _ => throw ProxyUnmarshalException end;
    modeAsByte ← read_Byte;
    match mode_of modeAsByte with
    | None => throw ProxyUnmarshalException
    | Some mode =>
        secure ← read_Bool;
        enc ← getReadEncoding;
        versions ←
          (if negb (encoding_eqb enc Encoding_1_0) then
             protocol ← read_EncodingVersion; encoding ← read_EncodingVersion; mret (protocol, encoding)
           else mret (Protocol_1_0, Encoding_1_0));
        sz ← readSize;
        rest ←
          (if 0 <? sz then
             endpoints ← read_each (endpoint_read fuel factories) (Z.to_nat sz); mret (endpoints, [])
           else adapterId ← read_string true; mret ([], adapterId));
        mret (Some (facet, mode, secure, versions.1, versions.2, rest.1, rest.2))
    end.

(** [ProxyFactory::streamToProxy]. The properties are not used: the reference
    is created with no prefix. *)
Definition streamToProxy : M stream (option Reference) :=
  ident ← read_Identity;
  r ← read_reference ident;
  match r with
  | None => mret None
  | Some (facet, mode, secure, protocol, encoding, endpoints, adapterId) =>
      r ← lift (fst (create (fun _ => faultM OutOfFuel) ident facet mode secure protocol encoding endpoints adapterId []
            (MkProperties ∅ None [])));
      mret (Some r)
  end.
End proxies.
