(* ===== verification/ReferenceText.v ===== *)
(** * The text of a proxy

    What [stringToProxy] makes of the text of a reference. The parts of the text
    are escaped, and quoted when they have a separator; the proof follows the
    parser from one part to the next: the identity, the options with their
    arguments, and the endpoints or the id of the adapter. *)

From S2P Require Import Prelude CxxString Layout Protocol Stream Encaps StreamString StringUtil StringUtilSpec Base64.
From S2P Require Import OrderedMap StreamHelpers StreamSpec EncapsSpec Identity Endpoint EndpointText Reference PropertyNames Properties ReferenceFactory.

(** ** Positions *)

Lemma at_drop (s : str) pos u rest k : drop pos s = u ++ rest -> (k < length u)%nat -> at_ s (pos + k) = u !!! k.
Proof. intros Hs Hk. unfold at_. by rewrite <- lookup_total_drop, Hs, lookup_total_app_l. Qed.

Lemma drop_next (s : str) pos u rest : drop pos s = u ++ rest -> drop (pos + length u) s = rest.
Proof. intros Hs. by rewrite <- drop_drop, Hs, drop_app_length. Qed.

Lemma drop_bound (s : str) pos u rest : drop pos s = u ++ rest -> u <> [] -> (pos + length u <= length s)%nat.
Proof.
  intros Hs Hu. apply (f_equal length) in Hs. rewrite length_drop, length_app in Hs.
  destruct u; [done|]. cbn [length] in *. lia.
Qed.

Lemma find_if_at P s pos u c rest : drop pos s = u ++ c :: rest -> Forall (fun d => P d = false) u -> P c = true ->
  find_if_from P pos s = Some (pos + length u)%nat.
Proof. intros Hs Hu Hc. unfold find_if_from. by rewrite Hs, find_if_app. Qed.

Lemma find_if_nowhere P s pos : Forall (fun d => P d = false) (drop pos s) -> find_if_from P pos s = None.
Proof. intros H. unfold find_if_from. by rewrite (proj2 (find_if_None _ _) H). Qed.

(** A list splits at the first element with a property. *)
Lemma split_first (P : ascii -> bool) u : Forall (fun d => P d = false) u \/
  exists a c b, u = a ++ c :: b /\ Forall (fun d => P d = false) a /\ P c = true.
Proof.
  induction u as [|d u IH]; [by left; constructor|]. destruct (P d) eqn:Hd; [by right; exists [], d, u|].
  destruct IH as [IH|(a & c & b & -> & Ha & Hc)]; [left; by constructor|].
  right. exists (d :: a), c, b. split; [done|]. split; [by constructor|done].
Qed.

(** ** Escaped text *)

(** Every double quote is behind a backslash; [prev] says whether a backslash
    is in front of the text. *)
Fixpoint covered (prev : bool) (t : str) : bool :=
  match t with
  | [] => true
  | c :: t' => (negb (ceq c dquote) || prev) && covered (ceq c backslash) t'
  end.

Lemma covered_weaken prev t : covered false t = true -> covered prev t = true.
Proof. destruct t as [|c t], prev; cbn; [done..| |done]. by destruct (ceq c dquote). Qed.

Lemma covered_app a b : forall prev, covered prev a = true -> covered false b = true -> covered prev (a ++ b) = true.
Proof.
  induction a as [|c a IH]; intros prev Ha Hb; [by apply covered_weaken|]. cbn [covered app] in *.
  apply andb_true_iff in Ha as [-> Ha]. by apply IH.
Qed.

(** What an unescaped quote would do to the parser: the first quote in a
    covered text is behind a backslash. *)
Lemma covered_first u v : Forall (fun d => ceq dquote d = false) u -> forall prev, covered prev (u ++ dquote :: v) = true ->
  match u with [] => prev = true | _ => last u = Some backslash end /\ covered false v = true.
Proof.
  induction 1 as [|c u Hc Hu IH]; intros prev H; cbn [app covered] in H; apply andb_true_iff in H as [H1 H2].
  - cbn in H1. by split.
  - destruct (IH _ H2) as [Hl Hv]. split; [|done]. destruct u as [|d u].
    + apply ceq_true in Hl as ->. done.
    + exact Hl.
Qed.

(** A part of the text of a proxy *)
Record part_ok (t : str) : Prop := {
  part_nonempty : t <> [];
  part_printable : Forall (fun c => printable c = true) t;
  part_covered : covered false t = true;
  part_start : at_ t 0 <> dquote /\ at_ t 0 <> squote
}.

Lemma part_app a b : part_ok a -> Forall (fun c => printable c = true) b -> covered false b = true -> part_ok (a ++ b).
Proof.
  intros [Hne Hp Hc Hs] Hb Hcb. split.
  - by destruct a.
  - by apply Forall_app.
  - by apply covered_app.
  - by destruct a.
Qed.

Definition part_check (special : str) (c : ascii) : bool :=
  let e := encodeChar c special in
  negb (bool_decide (e = [])) && forallb printable e && covered false e && negb (ceq (at_ e 0) dquote) && negb (ceq (at_ e 0) squote).

Lemma part_checked special e : (forall c, part_check special c = true) -> e <> [] ->
  part_ok (e ≫= fun c => encodeChar c special).
Proof.
  intros Hall. assert (forall c, part_ok (encodeChar c special)) as Hc.
  { intros c. specialize (Hall c). unfold part_check in Hall. cbv zeta in Hall.
    bool_to_prop. split; [by eapply bool_decide_eq_false| |done|done].
    apply Forall_forall. intros d Hd. eapply forallb_forall; [eassumption|by apply list_elem_of_In]. }
  destruct e as [|c e]; [done|]. intros _. revert c.
  induction e as [|d e IH]; intros c; cbn [mbind list_bind]; [rewrite app_nil_r; apply Hc|].
  destruct (IH d). by apply part_app.
Qed.

Lemma escaped_part s : s <> [] -> part_ok (escaped s).
Proof. apply part_checked. apply forall_byte. by vm_compute. Qed.

Definition plain_escaped (s : str) : str := s ≫= fun c => encodeChar c [].

Lemma plain_escaped_part s : s <> [] -> part_ok (plain_escaped s).
Proof. apply part_checked. apply forall_byte. by vm_compute. Qed.

(** ** Quoted words *)

Definition needs_quotes (t : str) : bool := bool_decide (is_Some (find_first_of (lit " :@") 0 t)).

(** The closing quote is taken for an escaped one behind a backslash. *)
Definition quote_safe (t : str) : Prop := needs_quotes t = true -> last t <> Some backslash.

Lemma quoted_eq t : quoted t = if needs_quotes t then dquote :: t ++ [dquote] else t.
Proof. done. Qed.

Lemma quoted_nonempty t : t <> [] -> quoted t <> [].
Proof. rewrite quoted_eq. by destruct (needs_quotes t). Qed.

Lemma ceq_sym c d : ceq c d = ceq d c.
Proof. apply eq_true_iff_eq. rewrite !ceq_true. by split. Qed.

Lemma no_quotes_no_separators t : part_ok t -> needs_quotes t = false ->
  Forall (fun c => mem_char c separators = false) t.
Proof.
  intros [_ Hp _ _] Hn. unfold needs_quotes in Hn. apply bool_decide_eq_false, eq_None_not_Some in Hn.
  unfold find_first_of, find_if_from in Hn. rewrite drop_0, fmap_None, find_if_None in Hn.
  rewrite Forall_forall in *. intros c Hc. specialize (Hp c Hc). specialize (Hn c Hc).
  pose proof (forall_byte (fun c => negb (printable c) || mem_char c (lit " :@") || negb (mem_char c separators))
    ltac:(by vm_compute) c) as H. cbv beta in H. rewrite Hp, Hn in H. by apply negb_true_iff in H.
Qed.

Lemma quote_loop_covered fuel s : forall start t rest prev,
  drop start s = t ++ dquote :: rest -> (1 <= start)%nat -> ceq (at_ s (start - 1)) backslash = prev -> covered prev t = true ->
  match t with [] => prev = false | _ => last t <> Some backslash end -> (length t < fuel)%nat ->
  quote_loop fuel s dquote start = Some (start + length t)%nat.
Proof.
  induction fuel as [|fuel IH]; intros start t rest prev Hs H1 Hprev Hc Hl Hf; [lia|]. cbn [quote_loop].
  assert (start < length s)%nat as Hlt.
  { apply (f_equal length) in Hs. rewrite length_drop, length_app in Hs. cbn in Hs. lia. }
  rewrite (proj2 (Nat.ltb_lt _ _) Hlt). unfold find_char.
  assert (forall u v, drop start s = u ++ v -> u <> [] -> Some (at_ s (start + length u - 1)) = last u) as Hlast.
  { intros u v Hu Hne. rewrite last_lookup. destruct u as [|c u] using rev_ind; [done|].
    rewrite length_app. cbn [length]. rewrite Nat.add_1_r. cbn [Nat.pred].
    replace (start + S (length u) - 1)%nat with (start + length u)%nat by lia.
    rewrite (at_drop _ _ _ _ (length u) Hu) by (rewrite length_app; cbn; lia).
    rewrite list_lookup_lookup_total_lt; [done|rewrite length_app; cbn; lia]. }
  destruct (split_first (ceq dquote) t) as [Hn|(u & d & v & -> & Hu & Hd)].
  - rewrite (find_if_at _ _ _ t dquote rest) by (done || apply ceq_refl).
    assert (ceq (at_ s (start + length t - 1)) backslash = false) as ->; [|done].
    destruct t as [|c t]; [by rewrite Nat.add_0_r, Hprev|]. apply ceq_false. intros E.
    apply Hl. rewrite <- (Hlast (c :: t) _ Hs) by done. by f_equal.
  - apply ceq_true in Hd as <-. rewrite <- app_assoc in Hs. cbn [app] in Hs.
    rewrite (find_if_at _ _ _ _ _ _ Hs) by (done || apply ceq_refl).
    destruct (covered_first _ _ Hu _ Hc) as [Hu2 Hv].
    assert (ceq (at_ s (start + length u - 1)) backslash = true) as ->.
    { destruct u as [|c u]; [by rewrite Nat.add_0_r, Hprev|]. apply ceq_true.
      rewrite <- (Hlast (c :: u) _ Hs) in Hu2 by done. by injection Hu2. }
    cbn [negb]. rewrite length_app in *. cbn [length] in *.
    assert (at_ s (start + length u) = dquote) as Hat.
    { replace (start + length u)%nat with ((start + length u) + 0)%nat by lia.
      by rewrite (at_drop _ _ [dquote] (v ++ dquote :: rest)) by (try apply (drop_next _ _ _ _ Hs); cbn; lia). }
    rewrite (IH _ v rest false).
    + f_equal. lia.
    + rewrite <- drop_drop, (drop_next _ _ _ _ Hs). done.
    + lia.
    + rewrite Nat.add_sub, Hat. done.
    + done.
    + destruct v as [|x v]; [done|]. assert (last (u ++ dquote :: x :: v) <> Some backslash) as Hl' by (by destruct u).
      by rewrite last_app_cons in Hl'.
    + lia.
Qed.

Definition stops_at (stops rest : str) : Prop := match rest with [] => True | c :: _ => mem_char c stops = true end.

Lemma find_end_stops stops s pos w rest : drop pos s = w ++ rest -> (pos <= length s)%nat ->
  Forall (fun c => mem_char c stops = false) w -> stops_at stops rest -> find_end stops pos s = (pos + length w)%nat.
Proof.
  intros Hs Hp Hw Hr. unfold find_end, find_first_of. destruct rest as [|c rest].
  - rewrite find_if_nowhere by (rewrite Hs, app_nil_r; done). cbn.
    apply (f_equal length) in Hs. rewrite length_drop, app_nil_r in Hs. lia.
  - by rewrite (find_if_at _ _ _ _ _ _ Hs).
Qed.

(** A quoted part is read as the part. *)
Lemma quotable_word_quoted stops err s pos t rest : drop pos s = quoted t ++ rest -> part_ok t -> quote_safe t ->
  (forall c, mem_char c stops = true -> mem_char c separators = true) -> stops_at stops rest ->
  exists beg, quotable_word stops err s pos = Ok (t, beg, (pos + length (quoted t))%nat) /\
    (beg < pos + length (quoted t))%nat.
Proof.
  intros Hs Ht Hq Hstops Hr. pose proof (quoted_nonempty t (part_nonempty t Ht)) as Hne.
  pose proof (drop_bound _ _ _ _ Hs Hne) as Hb. unfold quotable_word, checkQuote.
  assert (pos < length s)%nat as Hlt by (destruct (quoted t); [done|]; cbn in *; lia).
  rewrite (proj2 (Nat.ltb_lt _ _) Hlt).
  assert (at_ s pos = at_ (quoted t) 0) as ->.
  { replace pos with (pos + 0)%nat by lia. apply (at_drop _ _ _ _ _ Hs). destruct (quoted t); [done|]. cbn. lia. }
  rewrite quoted_eq in *. destruct (needs_quotes t) eqn:Enq.
  - change (at_ (dquote :: t ++ [dquote]) 0) with dquote. rewrite ceq_refl. cbn [orb].
    assert (drop (pos + 1) s = t ++ dquote :: rest) as Hs1.
    { rewrite <- drop_drop, Hs. cbn [app drop]. by rewrite <- app_assoc. }
    assert (at_ s pos = dquote) as Hat.
    { replace pos with (pos + 0)%nat by lia. rewrite (at_drop _ _ _ _ _ Hs) by (cbn; lia). done. }
    rewrite (quote_loop_covered _ _ _ t rest false Hs1).
    + replace (pos + 1 + length t)%nat with (S (pos + length t)) by lia. cbv iota.
      exists (S pos). replace (S (pos + length t) - S pos)%nat with (length t) by lia.
      unfold substr. rewrite <- Nat.add_1_r, Hs1, take_app_length. cbn [length]. rewrite length_app. cbn [length].
      split; [|lia]. f_equal. f_equal. lia.
    + lia.
    + by rewrite Nat.add_sub, Hat.
    + by destruct Ht.
    + pose proof (part_nonempty t Ht). specialize (Hq Enq). destruct t; [done|]. exact Hq.
    + apply (f_equal length) in Hs1. rewrite length_drop, length_app in Hs1. cbn in Hs1. lia.
  - destruct (part_start t Ht) as [H1 H2]. rewrite !(proj2 (ceq_false _ _)) by done. cbn [orb].
    exists pos. rewrite (find_end_stops _ _ _ t rest); [|done|lia| |done].
    + replace (pos + length t - pos)%nat with (length t) by lia. unfold substr. rewrite Hs, take_app_length.
      split; [done|]. destruct t; [done|]. cbn. lia.
    + eapply Forall_impl; [apply (no_quotes_no_separators t Ht Enq)|]. intros c Hc.
      destruct (mem_char c stops) eqn:E; [|done]. apply Hstops in E. congruence.
Qed.

(** ** Options *)

Lemma after_space s pos c rest : drop pos s = chr 32 :: c :: rest -> is_delim c = false ->
  find_first_not_of delim pos s = Some (S pos) /\ at_ s (S pos) = c /\ drop (S pos) s = c :: rest.
Proof.
  intros Hs Hc. split; [|split].
  - unfold find_first_not_of. rewrite (find_if_at _ s pos [chr 32] c rest); [f_equal; cbn; lia|exact Hs|by repeat constructor|].
    unfold is_delim in Hc. by rewrite Hc.
  - rewrite <- Nat.add_1_r. by rewrite (at_drop _ _ [chr 32; c] rest _ Hs) by (cbn; lia).
  - by rewrite <- Nat.add_1_r, <- drop_drop, Hs.
Qed.

(** An option with its argument, if it has one *)
Definition item : Type := ascii * option str.

Definition argument_text (a : option str) : str := match a with Some t => chr 32 :: quoted t | None => [] end.
Definition item_text (i : item) : str := [chr 32; "-"%char; i.1] ++ argument_text (i.2).

Definition argument_ok (a : option str) : Prop :=
  match a with
  | Some t => part_ok t /\ quote_safe t /\ (needs_quotes t = true \/ at_ t 0 <> "-"%char)
  | None => True
  end.
Definition item_ok (i : item) : Prop := mem_char (i.1) separators = false /\ argument_ok (i.2).

(** What the options come to *)
Fixpoint parse_items `{Instance_} (s : str) (l : list item) (o : ProxyOptions) : result ProxyOptions :=
  match l with
  | [] => Ok o
  | (c, a) :: l => o ← proxy_option s ["-"%char; c] (default [] a) o; parse_items s l o
  end.

(** What can follow the options: nothing, endpoints or an adapter *)
Definition tail_ok (rest : str) : Prop :=
  match rest with [] => True | c :: r => c = ":"%char \/ c = chr 32 /\ exists r', r = "@"%char :: r' end.
Definition tail_pos (pos : nat) (rest : str) : option nat :=
  match rest with [] => None | c :: _ => Some (if ceq c ":" then pos else S pos) end.

Lemma tail_search s pos rest : drop pos s = rest -> tail_ok rest ->
  find_first_not_of delim pos s = tail_pos pos rest /\
  forall p, tail_pos pos rest = Some p -> mem_char (at_ s p) (lit ":@") = true.
Proof.
  intros Hs Hr. destruct rest as [|c r]; [split; [|done]|destruct Hr as [->|[-> [r' ->]]]].
  - apply find_if_nowhere. rewrite Hs. constructor.
  - split.
    + unfold find_first_not_of. rewrite (find_if_at _ s pos [] ":" r); [|done|constructor|done]. cbn. by rewrite Nat.add_0_r.
    + intros p [= <-]. pose proof (at_drop s pos [":"%char] r 0 Hs ltac:(cbn; lia)) as H. rewrite Nat.add_0_r in H. by rewrite H.
  - destruct (after_space _ _ _ _ Hs eq_refl) as (F & Hat & _). split; [exact F|]. intros p [= <-]. by rewrite Hat.
Qed.

Lemma quoted_first t : part_ok t -> exists c r, quoted t = c :: r /\ is_delim c = false /\
  (needs_quotes t = true \/ at_ t 0 <> "-"%char -> mem_char c (lit "@:-") = false).
Proof.
  intros Ht. rewrite quoted_eq. destruct (needs_quotes t) eqn:E; [by eexists _, _|].
  pose proof (no_quotes_no_separators t Ht E) as Hn. destruct t as [|c r]; [by destruct (part_nonempty _ Ht)|].
  apply Forall_cons in Hn as [Hc _]. exists c, r. split; [done|].
  pose proof (forall_byte (fun c => mem_char c separators || (negb (is_delim c) && (ceq c "-" || negb (mem_char c (lit "@:-")))))
    ltac:(by vm_compute) c) as H. cbv beta in H. rewrite Hc in H. cbn [orb] in H. bool_to_prop. split; [done|].
  intros [?|Hd]; [done|]. cbn in Hd. apply ceq_false in Hd. match goal with H : _ || _ = true |- _ => rewrite Hd in H; cbn [orb] in H end. by bool_to_prop.
Qed.

Section options.
Context `{IN : Instance_}.

Definition items_text (l : list item) : str := l ≫= item_text.

Lemma items_stop l rest : tail_ok rest -> stops_at separators (items_text l ++ rest).
Proof. destruct l as [|i l]; [|done]. cbn. destruct rest as [|c r]; [done|]. by intros [->|[-> _]]. Qed.

Lemma no_argument s pos option l rest : drop pos s = items_text l ++ rest -> tail_ok rest ->
  proxy_argument s option pos = Ok ([], pos).
Proof.
  intros Hs Hr. unfold proxy_argument. destruct l as [|[c a] l].
  - change (drop pos s = rest) in Hs. destruct (tail_search _ _ _ Hs Hr) as [-> H]. destruct (tail_pos pos rest) as [p|]; [|done].
    specialize (H p eq_refl). pose proof (forall_byte (fun c => negb (mem_char c (lit ":@")) || mem_char c (lit "@:-"))
      ltac:(by vm_compute) (at_ s p)) as H'. cbv beta in H'. rewrite H in H'. cbn [negb orb] in H'. by rewrite H'.
  - destruct (after_space s pos "-" (c :: argument_text a ++ items_text l ++ rest)) as (-> & -> & _); [rewrite Hs; cbn; by rewrite <- !app_assoc|done|done].
Qed.

Lemma argument_found s pos option t rest : drop pos s = argument_text (Some t) ++ rest -> argument_ok (Some t) ->
  stops_at separators rest -> proxy_argument s option pos = Ok (t, (pos + length (argument_text (Some t)))%nat).
Proof.
  intros Hs (Ht & Hq & Hd) Hr. destruct (quoted_first t Ht) as (c & r & E & Hc & Hm). specialize (Hm Hd).
  destruct (after_space s pos c (r ++ rest)) as (F & Hat & Hs1); [by rewrite Hs; cbn; rewrite E|done|].
  unfold proxy_argument. rewrite F, Hat, Hm.
  destruct (quotable_word_quoted separators (proxy_error (lit "mismatched quotes around value for " ++ option ++ lit " option in ") s)
    s (S pos) t rest) as (beg & -> & _); try done; [by rewrite Hs1, E|].
  cbn [mbind result_bind fst snd argument_text length]. do 2 f_equal. lia.
Qed.

Lemma items_length i l : length (items_text (i :: l)) = (3 + length (argument_text (i.2)) + length (items_text l))%nat.
Proof. change (items_text (i :: l)) with (item_text i ++ items_text l). unfold item_text. rewrite !length_app. cbn. lia. Qed.

Lemma proxy_options_items s rest : tail_ok rest -> forall fuel l pos o, drop pos s = items_text l ++ rest ->
  Forall item_ok l -> (length (items_text l) < fuel)%nat ->
  proxy_options fuel s pos o = o ← parse_items s l o; Ok (o, tail_pos (pos + length (items_text l)) rest).
Proof.
  intros Hr. induction fuel as [|fuel IH]; intros l pos o Hs Hl Hf; [lia|]. cbn [proxy_options].
  destruct l as [|[c a] l].
  { change (drop pos s = rest) in Hs. destruct (tail_search _ _ _ Hs Hr) as [-> Hp]. cbn [parse_items mbind result_bind items_text list_bind length].
    rewrite Nat.add_0_r. destruct (tail_pos pos rest) as [p|]; [|done]. by rewrite Hp. }
  pose proof (items_length (c, a) l) as El. cbn [snd] in El.
  apply Forall_cons in Hl as [[Hc Ha] Hl]. cbn [fst snd] in Hc, Ha.
  assert (drop pos s = (chr 32 :: ["-"%char; c]) ++ argument_text a ++ items_text l ++ rest) as Hs0.
  { rewrite Hs. cbn. by rewrite <- app_assoc. }
  rewrite El in Hf.
  destruct (after_space s pos "-" (c :: argument_text a ++ items_text l ++ rest)) as (F & Hat & Hs1); [exact Hs0|done|].
  rewrite F, Hat. change (mem_char "-" (lit ":@")) with false. cbv iota.
  assert (stops_at separators (argument_text a ++ items_text l ++ rest)) as Hstop.
  { destruct a; [done|]. by apply items_stop. }
  rewrite (find_end_stops _ _ _ ["-"%char; c] (argument_text a ++ items_text l ++ rest)); [|done| | |done].
  2:{ apply (f_equal length) in Hs1. rewrite length_drop in Hs1. cbn in Hs1. lia. }
  2:{ by repeat constructor. }
  cbn [length]. rewrite (proj2 (Nat.eqb_neq (S pos) (S pos + 2))) by lia.
  replace (S pos + 2 - S pos)%nat with 2%nat by lia. unfold substr. rewrite Hs1. cbn [take]. rewrite take_0.
  change (negb (length ["-"%char; c] =? 2)%nat || negb (ceq (at_ ["-"%char; c] 0) "-")) with false. cbv iota.
  pose proof (drop_next _ _ _ _ Hs0) as Hs2. cbn [length] in Hs2. replace (pos + 3)%nat with (S pos + 2)%nat in Hs2 by lia.
  assert (proxy_argument s ["-"%char; c] (S pos + 2) = Ok (default [] a, (S pos + 2 + length (argument_text a))%nat)) as ->.
  { destruct a as [t|]; [apply argument_found with (items_text l ++ rest); [done|done|by apply items_stop]|].
    cbn [argument_text length]. rewrite Nat.add_0_r. by apply no_argument with l rest. }
  cbn [mbind result_bind fst snd parse_items]. destruct (proxy_option s _ _ o) as [o'| |]; cbn [mbind result_bind]; [|done|done].
  rewrite (IH l).
  - destruct (parse_items s l o'); cbn [mbind result_bind]; [|done|done]. do 3 f_equal.
    transitivity (pos + (3 + length (argument_text a) + length (items_text l)))%nat; [lia|f_equal; symmetry; exact El].
  - by apply drop_next in Hs2.
  - done.
  - lia.
Qed.
End options.

(** ** The options of a reference *)

(** Characters that have no meaning for the parser *)
Definition tame (c : ascii) : bool :=
  printable c && negb (mem_char c separators) && negb (ceq c dquote) && negb (ceq c squote).

Definition all_tame (t : str) : Prop := Forall (fun c => tame c = true) t.

Lemma tame_part t : t <> [] -> all_tame t -> part_ok t /\ needs_quotes t = false.
Proof.
  intros Hne Ht. assert (forall c, tame c = true -> printable c = true /\ c <> dquote /\ c <> squote /\
    mem_char c (lit " :@") = false) as H.
  { intros c Hc. pose proof (forall_byte (fun c => negb (tame c) || negb (mem_char c (lit " :@"))) ltac:(by vm_compute) c) as H.
    cbv beta in H. rewrite Hc in H. unfold tame in Hc. cbn [negb orb] in H. by bool_to_prop. }
  split; [split|].
  - done.
  - eapply Forall_impl; [exact Ht|]. intros c Hc. by apply H.
  - clear Hne. generalize false at 1. induction Ht as [|c t Hc _ IH]; intros prev; [done|]. cbn [covered].
    apply H in Hc as (_ & Hq & _). rewrite (proj2 (ceq_false _ _) Hq). apply IH.
  - destruct t as [|c t]; [done|]. apply Forall_cons in Ht as [Hc _]. cbn. by apply H in Hc as (_ & ? & ? & _).
  - apply bool_decide_eq_false. intros [p Hp]. apply find_if_from_Some in Hp as (Hp & Hc & _).
    unfold at_ in Hc. unfold all_tame in Ht. rewrite Forall_lookup in Ht.
    assert (t !! p = Some (t !!! p)) as E by (apply list_lookup_lookup_total_lt; lia).
    apply Ht, H in E as (_ & _ & _ & E). congruence.
Qed.

Lemma digit_tame c : isdigit c = true -> tame c = true.
Proof.
  intros Hc. pose proof (forall_byte (fun c => negb (isdigit c) || tame c) ltac:(by vm_compute) c) as H.
  cbv beta in H. by rewrite Hc in H.
Qed.

Lemma show_int_tame z : all_tame (show_int z) /\ show_int z <> [].
Proof.
  destruct (show_int_digits z) as (ds & Hd & Hne & ->). split; [|by destruct (z <? 0), ds].
  apply Forall_app. split; [by destruct (z <? 0); repeat constructor|].
  eapply Forall_impl; [exact Hd|]. apply digit_tame.
Qed.

Lemma version_tame v : all_tame (versionToString v) /\ versionToString v <> [] /\ at_ (versionToString v) 0 <> "-"%char.
Proof.
  destruct (version_word v) as [[Hne _] Hd]. unfold dashed in Hd. apply ceq_false in Hd.
  split; [|by split]. unfold versionToString. destruct (show_int_tame (ord (major v))), (show_int_tame (ord (minor v))).
  apply Forall_app. split; [done|]. by constructor.
Qed.

Lemma version_argument_ok v : argument_ok (Some (versionToString v)) /\ quoted (versionToString v) = versionToString v.
Proof.
  destruct (version_tame v) as (Ht & Hne & Hd). destruct (tame_part _ Hne Ht) as [Hp Hq]. rewrite quoted_eq, Hq.
  split; [|done]. split; [done|]. split; [|by right]. unfold quote_safe. by rewrite Hq.
Qed.

Definition mode_item (m : Mode) : item :=
  (match m with
   | ModeTwoway => "t" | ModeOneway => "o" | ModeBatchOneway => "O" | ModeDatagram => "d" | ModeBatchDatagram => "D"
   end%char, None).

(** The options of a reference whose facet has the UTF-8 form [fu] *)
Definition option_items (fu : str) (b : ReferenceBase) : list item :=
  (if empty_string (_facet b) then [] else [("f"%char, Some (plain_escaped fu))]) ++ [mode_item (_mode b)] ++
  (if _secure b then [("s"%char, None)] else []) ++
  (if encoding_eqb (_protocol b) Protocol_1_0 then [] else [("p"%char, Some (versionToString (_protocol b)))]) ++
  [("e"%char, Some (versionToString (_encoding b)))].

Lemma unescape_plain u : unescapeString (plain_escaped u) 0 (length (plain_escaped u)) = Ok u.
Proof.
  unfold unescapeString. rewrite Nat.leb_refl. cbn [Nat.leb andb].
  rewrite (decodeString_encoded [] u); [done|constructor| |lia|lia]. by rewrite drop_0.
Qed.

Section base.
Context `{IN : Instance_}.

(** A text in the native coding with its UTF-8 form *)
Definition survives_ (s u : str) : Prop := survives converter s u.

Lemma survives_nonempty s u : survives converter s u -> s <> [] -> u <> [].
Proof. intros [_ H] Hs ->. unfold UTF8ToNative in H. destruct converter; injection H; congruence. Qed.

Lemma version_item c v :
  [(c, Some (versionToString v))] ≫= item_text = [chr 32; "-"%char; c; chr 32] ++ versionToString v.
Proof.
  change ((item_text (c, Some (versionToString v)) ++ []) = [chr 32; "-"%char; c; chr 32] ++ versionToString v).
  rewrite app_nil_r. unfold item_text, argument_text. cbn [fst snd]. by rewrite (proj2 (version_argument_ok v)).
Qed.

Lemma base_text b id fu : identityToString converter (_identity b) = Ok id -> survives converter (_facet b) fu ->
  base_toString b = Ok (quoted id ++ items_text (option_items fu b)).
Proof.
  intros Hid [Hf _]. unfold base_toString. rewrite Hid. cbn [mbind result_bind].
  assert (items_text (option_items fu b) =
    (if empty_string (_facet b) then [] else lit " -f " ++ quoted (plain_escaped fu)) ++ mode_text (_mode b) ++
    (if _secure b then lit " -s" else []) ++
    (if encoding_eqb (_protocol b) Protocol_1_0 then [] else lit " -p " ++ versionToString (_protocol b)) ++
    lit " -e " ++ versionToString (_encoding b)) as ->.
  { unfold items_text, option_items. rewrite !bind_app. f_equal; [|f_equal; [|f_equal; [|f_equal]]].
    - destruct (empty_string _); [done|]. by cbn; rewrite app_nil_r.
    - by destruct (_mode b).
    - by destruct (_secure b).
    - destruct (encoding_eqb _ _); [done|]. apply (version_item "p").
    - apply (version_item "e"). }
  destruct (empty_string (_facet b)); [done|]. by rewrite Hf.
Qed.

Lemma version_argument_show what s v : 1 <= ord (major v) -> version_argument what s (versionToString v) = Ok v.
Proof. intros H. unfold version_argument. by rewrite version_parsed. Qed.

Lemma versionToString_nonempty v : empty_string (versionToString v) = false.
Proof. unfold empty_string. apply nonempty_length. apply version_tame. Qed.

Lemma parse_item s c a l o :
  parse_items s ((c, Some a) :: l) o = (o' ← proxy_option s ["-"%char; c] a o; parse_items s l o').
Proof. done. Qed.

Lemma protocol_option s v f m se en pr : 1 <= ord (major v) ->
  proxy_option s (lit "-p") (versionToString v) (MkOptions f m se en pr) = Ok (MkOptions f m se en v).
Proof.
  intros H. unfold proxy_option. rewrite versionToString_nonempty, (version_argument_show (lit "protocol")) by done. done.
Qed.

Lemma encoding_option s v f m se en pr : 1 <= ord (major v) ->
  proxy_option s (lit "-e") (versionToString v) (MkOptions f m se en pr) = Ok (MkOptions f m se v pr).
Proof.
  intros H. unfold proxy_option. rewrite versionToString_nonempty, version_argument_show by done. done.
Qed.

(** The options of a reference set its mode, its facet and its versions. *)
Lemma option_items_parsed s b fu enc : survives converter (_facet b) fu -> 1 <= ord (major (_protocol b)) ->
  1 <= ord (major (_encoding b)) ->
  parse_items s (option_items fu b) (MkOptions [] ModeTwoway false enc Protocol_1_0) =
    Ok (MkOptions (_facet b) (_mode b) (_secure b) (_encoding b) (_protocol b)).
Proof.
  intros Hf Hp He. destruct b as [m se ident cx f p e oc co]. unfold option_items.
  cbn [_facet _mode _secure _protocol _encoding] in *.
  set (rest := [mode_item m] ++ _).
  transitivity (parse_items s rest (MkOptions f ModeTwoway false enc Protocol_1_0)).
  { destruct (empty_string f) eqn:Ef; [by destruct f|]. cbn [app parse_items default from_option id].
    assert (fu <> []) as Hne by (apply (survives_nonempty f); [done|]; by intros ->).
    assert (empty_string (plain_escaped fu) = false) as En by apply nonempty_length, (plain_escaped_part fu Hne).
    unfold proxy_option. cbn [at_]. change (ceq (at_ ["-"%char; "f"%char] 1) "f") with true. cbv iota.
    unfold unescaped. rewrite unescape_plain, En. cbn [mbind result_bind]. rewrite (proj2 Hf). done. }
  unfold rest. clear rest. cbn [app].
  set (rest := (if se then _ else _) ++ _).
  transitivity (parse_items s rest (MkOptions f m false enc Protocol_1_0)); [by destruct m|].
  unfold rest. clear rest. set (rest := (if encoding_eqb p _ then _ else _) ++ _).
  transitivity (parse_items s rest (MkOptions f m se enc Protocol_1_0)); [by destruct se|].
  unfold rest. clear rest.
  transitivity (parse_items s [("e"%char, Some (versionToString e))] (MkOptions f m se enc p)).
  { destruct (encoding_eqb p Protocol_1_0) eqn:Ep; [by apply encoding_eqb_true in Ep as ->|].
    cbn [app]. rewrite parse_item. by rewrite protocol_option. }
  rewrite parse_item. by rewrite encoding_option.
Qed.

Lemma option_items_ok b fu : survives converter (_facet b) fu ->
  (_facet b <> [] -> argument_ok (Some (plain_escaped fu))) -> Forall item_ok (option_items fu b).
Proof.
  intros Hs Hf. unfold option_items. word_list.
  - destruct (empty_string (_facet b)) eqn:E; [constructor|]. word_list. split; [done|].
    apply Hf. intros E2. by rewrite E2 in E.
  - by destruct (_mode b).
  - destruct (_secure b); by repeat constructor.
  - destruct (encoding_eqb _ _); [constructor|]. word_list. split; [done|]. apply version_argument_ok.
  - split; [done|]. apply version_argument_ok.
Qed.
End base.

(** ** Endpoints *)

(** Whether the number of quotes is odd *)
Fixpoint odd_quotes (t : str) : bool := match t with [] => false | c :: t' => xorb (ceq dquote c) (odd_quotes t') end.

Lemma odd_quotes_app a b : odd_quotes (a ++ b) = xorb (odd_quotes a) (odd_quotes b).
Proof. induction a as [|c a IH]; [done|]. cbn [app odd_quotes]. by rewrite IH, xorb_assoc. Qed.

Lemma odd_quotes_none a : Forall (fun d => ceq dquote d = false) a -> odd_quotes a = false.
Proof. induction 1 as [|c a Hc _ IH]; [done|]. cbn [odd_quotes]. by rewrite Hc, IH. Qed.

Lemma odd_quotes_cons a : odd_quotes (dquote :: a) = negb (odd_quotes a).
Proof. by cbn; destruct (odd_quotes a). Qed.

(** The text is followed by an even number of quotes, and the colons stand
    behind an odd number of them. *)
Fixpoint balanced (inq : bool) (t : str) : bool :=
  match t with
  | [] => negb inq
  | c :: t' => (negb (ceq ":" c) || inq) && balanced (xorb inq (ceq dquote c)) t'
  end.

Lemma balanced_app a b : balanced false b = true -> forall inq, balanced inq a = true -> balanced inq (a ++ b) = true.
Proof.
  intros Hb. induction a as [|c a IH]; intros inq Ha; cbn [balanced app] in *; [by destruct inq|].
  apply andb_true_iff in Ha as [-> Ha]. by apply IH.
Qed.

(** What [balanced] says about a colon *)
Lemma balanced_colon a b inq : balanced inq (a ++ ":"%char :: b) = true ->
  xorb inq (odd_quotes a) = true /\ balanced true b = true.
Proof.
  revert inq. induction a as [|c a IH]; intros inq H; cbn [app balanced] in H; apply andb_true_iff in H as [H1 H2].
  - cbn in *. destruct inq; [by split|done].
  - destruct (IH _ H2) as [Ho Hb]. split; [|done]. cbn [odd_quotes]. by rewrite <- xorb_assoc.
Qed.

Lemma balanced_quote b : balanced true b = true -> exists b1 b2, b = b1 ++ dquote :: b2 /\ Forall (fun d => ceq dquote d = false) b1.
Proof.
  destruct (split_first (ceq dquote) b) as [Hn|(a & c & d & -> & Ha & Hc)].
  - induction Hn as [|c b Hc _ IH]; [done|]. cbn [balanced]. rewrite Hc, orb_true_r. cbn [andb xorb]. intros H. destruct (IH H) as (b1 & b2 & -> & Hb).
    exists (c :: b1), b2. split; [done|]. by constructor.
  - apply ceq_true in Hc as <-. intros _. by exists a, d.
Qed.

Lemma balanced_parity t inq : balanced inq t = true -> odd_quotes t = inq.
Proof.
  revert inq. induction t as [|c t IH]; intros inq H; cbn [balanced] in H; [by destruct inq|].
  apply andb_true_iff in H as [_ H]. apply IH in H. cbn [odd_quotes]. rewrite H. by destruct inq, (ceq dquote c).
Qed.

(** The two searches of a turn of [colon_quoted] *)
Lemma find_quote s pos u rest : drop pos s = u ++ dquote :: rest -> Forall (fun d => ceq dquote d = false) u ->
  find_char dquote pos s = Some (pos + length u)%nat /\ drop (S (pos + length u)) s = rest.
Proof.
  intros Hs Hu. split; [by apply (find_if_at _ _ _ _ _ _ Hs)|].
  rewrite <- Nat.add_1_r, <- drop_drop, (drop_next _ _ _ _ Hs). done.
Qed.

(** A quote that is not in [u] is found behind it, if at all. *)
Lemma find_quote_behind s pos u rest : drop pos s = u ++ ":"%char :: rest -> Forall (fun d => ceq dquote d = false) u ->
  match find_char dquote pos s with Some q => (pos + length u <? q)%nat = true | None => dquote ∉ rest end.
Proof.
  intros Hs Hu. unfold find_char, find_if_from. rewrite Hs.
  destruct (find_if (ceq dquote) (u ++ ":"%char :: rest)) as [k|] eqn:F; cbn [fmap option_fmap option_map].
  - apply find_if_Some in F as (c & Hc & Hq & _). apply ceq_true in Hq as <-. apply Nat.ltb_lt.
    destruct (decide (length u < k)%nat) as [|Hn]; [lia|]. exfalso.
    destruct (decide (k = length u)) as [->|Hk].
    + rewrite lookup_app_r, Nat.sub_diag in Hc by done. done.
    + rewrite lookup_app_l in Hc by lia. rewrite Forall_lookup in Hu. specialize (Hu _ _ Hc). by rewrite ceq_refl in Hu.
  - apply find_if_None in F. rewrite Forall_forall in F. intros Hin.
    specialize (F dquote ltac:(set_solver)). by rewrite ceq_refl in F.
Qed.

Lemma colon_quoted_parity fuel s : forall pos u rest, drop pos s = u ++ ":"%char :: rest -> (length u < fuel)%nat ->
  (odd_quotes u = true -> dquote ∈ rest) -> colon_quoted fuel s (pos + length u) pos = odd_quotes u.
Proof.
  induction fuel as [|fuel IH]; intros pos u rest Hs Hf Hq; [lia|]. cbn [colon_quoted].
  destruct (split_first (ceq dquote) u) as [Hn|(a & c & u' & -> & Ha & Hc)].
  - rewrite (odd_quotes_none _ Hn). pose proof (find_quote_behind _ _ _ _ Hs Hn) as H.
    destruct (find_char dquote pos s); [|done]. by rewrite H.
  - apply ceq_true in Hc as <-. rewrite <- app_assoc in Hs. cbn [app] in Hs.
    destruct (find_quote _ _ _ _ Hs Ha) as [-> Hs1]. rewrite length_app in *. cbn [length] in *.
    rewrite (proj2 (Nat.ltb_ge _ _)) by lia.
    rewrite odd_quotes_app, odd_quotes_cons, (odd_quotes_none _ Ha), xorb_false_l in *.
    destruct (split_first (ceq dquote) u') as [Hn|(b & c & u2 & -> & Hb & Hc)].
    + rewrite (odd_quotes_none _ Hn) in *. pose proof (find_quote_behind _ _ _ _ Hs1 Hn) as H.
      destruct (find_char dquote _ s) as [q|]; [|by destruct H; apply Hq].
      by replace (pos + (length a + S (length u')))%nat with (S (pos + length a) + length u')%nat by lia; rewrite H.
    + apply ceq_true in Hc as <-. rewrite <- app_assoc in Hs1. cbn [app] in Hs1.
      destruct (find_quote _ _ _ _ Hs1 Hb) as [-> Hs2]. rewrite length_app in *. cbn [length] in *.
      rewrite (proj2 (Nat.ltb_ge _ _)) by lia.
      rewrite odd_quotes_app, odd_quotes_cons, (odd_quotes_none _ Hb), xorb_false_l, negb_involutive in *.
      replace (pos + (length a + S (length b + S (length u2))))%nat
        with (S (S (pos + length a) + length b) + length u2)%nat by lia.
      apply IH with rest; [done|lia|done].
Qed.

(** What follows an endpoint: the next endpoint or the end *)
Definition endpoint_stop (rest : str) : Prop := match rest with [] => True | c :: _ => c = ":"%char end.

Lemma endpoint_end_balanced fuel s beg rest : endpoint_stop rest -> forall w1 w2,
  drop beg s = w1 ++ w2 ++ rest -> balanced (odd_quotes w1) w2 = true -> (length w2 < fuel)%nat -> (beg <= length s)%nat ->
  endpoint_end fuel s beg (beg + length w1) = Ok (beg + length w1 + length w2)%nat.
Proof.
  intros Hr. induction fuel as [|fuel IH]; intros w1 w2 Hs Hb Hf Hle; [lia|]. cbn [endpoint_end].
  pose proof (drop_next _ _ _ _ Hs) as Hs1.
  assert (length (w1 ++ w2 ++ rest) < S (length s))%nat as Hls.
  { rewrite <- Hs, length_drop. lia. }
  rewrite !length_app in Hls.
  destruct (split_first (ceq ":") w2) as [Hn|(a & c & b & -> & Ha & Hc)].
  - destruct rest as [|c rest].
    + unfold find_char. rewrite find_if_nowhere by (rewrite Hs1, app_nil_r; done).
      apply (f_equal length) in Hs. rewrite length_drop, !length_app in Hs. cbn [length] in Hs. f_equal. lia.
    + cbn in Hr. subst c. unfold find_char. rewrite (find_if_at _ _ _ _ _ _ Hs1) by done.
      rewrite <- Nat.add_assoc, <- length_app.
      rewrite (colon_quoted_parity _ s beg (w1 ++ w2) rest).
      * rewrite odd_quotes_app, (balanced_parity _ _ Hb), xorb_nilpotent. done.
      * by rewrite <- app_assoc.
      * rewrite length_app. lia.
      * rewrite odd_quotes_app, (balanced_parity _ _ Hb), xorb_nilpotent. done.
  - apply ceq_true in Hc as <-. destruct (balanced_colon _ _ _ Hb) as [Ho Hb2].
    rewrite <- odd_quotes_app in Ho. rewrite <- app_assoc in Hs, Hs1. cbn [app] in Hs, Hs1.
    unfold find_char. rewrite (find_if_at _ _ _ _ _ _ Hs1) by done.
    rewrite <- Nat.add_assoc, <- length_app. rewrite !length_app in Hls. cbn [length] in Hls.
    rewrite (colon_quoted_parity _ s beg (w1 ++ a) (b ++ rest)).
    + rewrite Ho. replace (S (beg + length (w1 ++ a))) with (beg + length (w1 ++ a ++ [":"%char]))%nat
        by (rewrite !length_app; cbn; lia).
      rewrite (IH (w1 ++ a ++ [":"%char]) b).
      * f_equal. rewrite !length_app. cbn [length]. lia.
      * rewrite Hs. by rewrite <- !app_assoc.
      * by rewrite app_assoc, odd_quotes_app, Ho.
      * rewrite length_app in Hf. cbn [length] in Hf. lia.
      * done.
    + by rewrite <- app_assoc.
    + rewrite length_app. lia.
    + intros _. destruct (balanced_quote _ Hb2) as (b1 & b2 & -> & _). set_solver.
Qed.

(** *** The text of an endpoint is balanced. *)

Definition inert (c : ascii) : bool := negb (ceq ":" c) && negb (ceq dquote c).

Lemma balanced_inert t : Forall (fun c => inert c = true) t -> balanced false t = true.
Proof.
  induction 1 as [|c t Hc _ IH]; [done|]. unfold inert in Hc. cbn [balanced].
  apply andb_true_iff in Hc as [-> Hc]. apply negb_true_iff in Hc as ->. exact IH.
Qed.

Lemma tame_inert c : tame c = true -> inert c = true.
Proof.
  intros Hc. pose proof (forall_byte (fun c => negb (tame c) || inert c) ltac:(by vm_compute) c) as H.
  cbv beta in H. by rewrite Hc in H.
Qed.

Lemma balanced_tame t : all_tame t -> balanced false t = true.
Proof. intros H. apply balanced_inert. eapply Forall_impl; [exact H|]. apply tame_inert. Qed.

Lemma no_quote h : dquote ∉ h -> Forall (fun d => ceq dquote d = false) h.
Proof. intros Hh. apply Forall_forall. intros c Hc. apply ceq_false. by intros <-. Qed.

Lemma balanced_quoted h : dquote ∉ h -> balanced false (dquote :: h ++ [dquote]) = true.
Proof.
  intros Hh. apply no_quote in Hh. cbn [balanced]. rewrite orb_false_r. cbn [andb]. rewrite ceq_refl, xorb_true_r. cbn [negb].
  rewrite andb_true_iff. split; [done|].
  induction Hh as [|c h Hc _ IH]; [done|]. cbn [app balanced]. by rewrite orb_true_r, Hc.
Qed.

Lemma balanced_quoted_host h : hostname h -> balanced false (quoted_host h) = true.
Proof.
  intros (_ & _ & _ & Hh). unfold quoted_host. case_bool_decide as Hc; [by apply balanced_quoted|].
  apply eq_None_not_Some, find_char_None in Hc. apply balanced_inert, Forall_forall. intros c Hin.
  unfold inert. apply andb_true_iff. split; apply negb_true_iff, ceq_false; by intros <-.
Qed.

Lemma balanced_spaced ws : Forall (fun w => balanced false w = true) ws -> balanced false (spaced ws) = true.
Proof.
  induction 1 as [|w ws Hw _ IH]; [done|]. change (spaced (w :: ws)) with ((chr 32 :: w) ++ spaced ws).
  apply balanced_app; [done|]. exact Hw.
Qed.

(** The interface of a UDP endpoint is printed without quotes. *)
Definition colon_free (e : EndpointI) : Prop :=
  match e with UdpEndpointI e => ":"%char ∉ mcastInterface e | _ => True end.

Section endpoints.
Context `{ED : EndpointDefaults}.

Lemma host_words_balanced h : host_printable h -> Forall (fun w => balanced false w = true) (host_words h).
Proof.
  intros [[-> _]|Hh]; [constructor|]. pose proof (balanced_quoted_host h Hh). unfold host_words.
  destruct h; word_list; done.
Qed.

Lemma int_words_balanced o z : balanced false o = true -> Forall (fun w => balanced false w = true) (int_words o z).
Proof. intros Ho. unfold int_words. case_if; word_list; [done|]. apply balanced_tame, show_int_tame. Qed.

Lemma if_word_balanced (c : bool) o : balanced false o = true ->
  Forall (fun w => balanced false w = true) (if c then [o] else []).
Proof. intros H. destruct c; word_list. done. Qed.

Lemma int_balanced z : balanced false (show_int z) = true.
Proof. apply balanced_tame, show_int_tame. Qed.

Lemma endpoint_text_balanced e : printable_endpoint e -> colon_free e ->
  endpoint_toString e <> [] /\ balanced false (endpoint_toString e) = true.
Proof.
  assert (forall proto ws, proto <> [] -> balanced false proto = true -> Forall (fun w => balanced false w = true) ws ->
    proto ++ spaced ws <> [] /\ balanced false (proto ++ spaced ws) = true) as H.
  { intros proto ws Hne Hp Hw. split; [by destruct proto|]. apply balanced_app; [by apply balanced_spaced|done]. }
  intros Hp Hc. destruct e as [e|e|e|e]; cbn [endpoint_toString printable_endpoint colon_free] in *.
  1,2: rewrite tcp_words by done; apply H; [done..|]; pose proof (proj1 Hp); word_list;
    by auto using host_words_balanced, int_words_balanced, if_word_balanced, int_balanced.
  - rewrite udp_words. apply H; [done..|]. destruct Hp as (Hh & _ & Hm & _). unfold udp_word_list. word_list;
      auto using host_words_balanced, int_words_balanced, if_word_balanced, int_balanced.
    destruct Hm as [->|(_ & _ & _ & Hq)]; [constructor|]. destruct (mcastInterface e) as [|c m]; [constructor|].
    word_list; [done|]. apply balanced_inert, Forall_forall. intros d Hin.
    unfold inert. apply andb_true_iff. split; apply negb_true_iff, ceq_false; by intros <-.
  - destruct Hp as (_ & _ & Hb). destruct (Base64.encode_line _ Hb) as (_ & _ & Hl).
    assert (opaque_toString e = lit "opaque" ++ spaced [lit "-t"; show_int (opaque_type e); lit "-e";
      versionToString (rawEncoding e); lit "-v"; Base64.encode (rawBytes e)]) as ->
      by (unfold opaque_toString, spaced; cbn; by rewrite ?app_nil_r, <- ?app_assoc).
    apply H; [done..|]. word_list; try done; [apply int_balanced|by apply balanced_tame, version_tame|].
    apply balanced_inert. eapply Forall_impl; [exact Hl|]. intros c Hc'.
    pose proof (forall_byte (fun c => negb (Base64.isBase64 c) || inert c) ltac:(by vm_compute) c) as Hi.
    cbv beta in Hi. by rewrite Hc' in Hi.
Qed.
End endpoints.

(** ** The whole text *)

Section proxies.
Context `{PL : Platform} {D E : Type} `{CO : Coders D E} {OC : ObjectDecoding (BasicStream D E)}.
Context `{IN : Instance_} `{ED : EndpointDefaults} (temporary : BasicStream D E) (fuel : nat).

(** An endpoint whose text is parsed back by the factories of the communicator *)
Definition endpoint_ok (e : EndpointI) : Prop := factory_for e factories /\ printable_endpoint e /\ colon_free e.

Lemma endpoints_text_cons e l : endpoint_toString e <> [] ->
  endpoints_text (e :: l) = ":"%char :: endpoint_toString e ++ endpoints_text l.
Proof.
  intros Hne. change (endpoints_text (e :: l)) with
    ((if empty_string (endpoint_toString e) then [] else lit ":" ++ endpoint_toString e) ++ endpoints_text l).
  unfold empty_string. by rewrite nonempty_length.
Qed.

Lemma endpoints_text_stop l : Forall endpoint_ok l -> endpoint_stop (endpoints_text l).
Proof.
  destruct 1 as [|e l (_ & Hp & Hc) _]; [done|]. rewrite endpoints_text_cons; [done|].
  by apply endpoint_text_balanced.
Qed.

Lemma proxy_endpoints_parsed s : forall l n pos acc unknown, drop pos s = endpoints_text l -> (pos <= length s)%nat ->
  Forall endpoint_ok l -> (length s - pos < n)%nat ->
  proxy_endpoints temporary fuel n s pos acc unknown = Ok (acc ++ l, unknown).
Proof.
  induction l as [|e l IH]; intros n pos acc unknown Hs Hpos Hl Hn; (destruct n as [|n]; [lia|]); cbn [proxy_endpoints].
  - assert (length s <= pos)%nat.
    { apply (f_equal length) in Hs. rewrite length_drop in Hs. cbn in Hs. lia. }
    by rewrite (proj2 (Nat.ltb_ge _ _)), app_nil_r by done.
  - apply Forall_cons in Hl as [(Hf & Hp & Hc) Hl]. destruct (endpoint_text_balanced e Hp Hc) as [Hne Hb].
    rewrite endpoints_text_cons in Hs by done. set (w := endpoint_toString e) in *.
    assert (pos < length s)%nat as Hlt.
    { apply (f_equal length) in Hs. rewrite length_drop in Hs. cbn in Hs. lia. }
    rewrite (proj2 (Nat.ltb_lt _ _) Hlt).
    pose proof (at_drop s pos [":"%char] (w ++ endpoints_text l) 0 Hs ltac:(cbn; lia)) as Hat.
    rewrite Nat.add_0_r in Hat. rewrite Hat. cbn [andb].
    change (ceq ([":"%char] !!! 0%nat) ":") with true. cbv iota.
    assert (drop (S pos) s = w ++ endpoints_text l) as Hs1 by (by rewrite <- Nat.add_1_r, <- drop_drop, Hs).
    pose proof (drop_bound _ _ _ _ Hs1 Hne) as Hb1.
    pose proof (endpoint_end_balanced (S (length s)) s (S pos) _ (endpoints_text_stop l Hl) [] w Hs1 Hb) as Hend.
    cbn [length] in Hend. rewrite Nat.add_0_r in Hend. rewrite Hend by lia. cbn [mbind result_bind].
    replace (S pos + length w - S pos)%nat with (length w) by lia. unfold substr. rewrite Hs1, take_app_length.
    pose proof (endpoint_text_parsed fuel temporary factories e false Hf Hp) as Hcreate. fold w in Hcreate.
    rewrite Hcreate. cbn [mbind result_bind].
    rewrite (IH n); [by rewrite <- app_assoc| |lia|done|].
    + by apply drop_next in Hs1.
    + destruct w; [done|]. cbn [length] in *. lia.
Qed.

(** The id of an adapter with the UTF-8 form [u] *)
Definition adapter_ok (a u : str) : Prop :=
  survives converter a u /\ a <> [] /\ quote_safe (plain_escaped u).

Lemma proxy_adapter_parsed s pos a u : drop pos s = lit "@ " ++ quoted (plain_escaped u) -> adapter_ok a u ->
  proxy_adapter s pos = Ok a.
Proof.
  intros Hs (Hu & Hne & Hq). pose proof (survives_nonempty _ _ Hu Hne) as Hune.
  pose proof (plain_escaped_part u Hune) as Hp. destruct (quoted_first _ Hp) as (c & r & Eq & Hc & _).
  unfold proxy_adapter.
  assert (drop (S pos) s = chr 32 :: quoted (plain_escaped u)) as Hs1 by (by rewrite <- Nat.add_1_r, <- drop_drop, Hs).
  rewrite Eq in Hs1. destruct (after_space _ _ _ _ Hs1 Hc) as (-> & _ & Hs2).
  rewrite <- Eq, <- (app_nil_r (quoted _)) in Hs2.
  destruct (quotable_word_quoted delim (proxy_error (lit "mismatched quotes around adapter id in ") s) s _ _ [] Hs2 Hp Hq)
    as (beg & -> & _); [|done|].
  { intros d Hd. pose proof (forall_byte (fun d => negb (mem_char d delim) || mem_char d separators) ltac:(by vm_compute) d) as H.
    cbv beta in H. by rewrite Hd in H. }
  cbn [mbind result_bind]. apply drop_next in Hs2.
  assert (find_first_not_of delim (S (S pos) + length (quoted (plain_escaped u))) s = None) as ->.
  { apply find_if_nowhere. rewrite Hs2. constructor. }
  unfold unescaped. rewrite unescape_plain. cbn [mbind result_bind]. unfold empty_string.
  rewrite nonempty_length by done. apply Hu.
Qed.

(** A reference whose parts have the UTF-8 forms [nu], [cu], [fu] and [au] and can
    be read back from the text *)
Record printable_reference (r : Reference) (nu cu fu au : str) : Prop := {
  pr_name : survives converter (name (getIdentity r)) nu /\ name (getIdentity r) <> [];
  pr_category : survives converter (category (getIdentity r)) cu /\ last cu <> Some backslash;
  pr_identity : quote_safe (identity_text nu cu);
  pr_facet : survives converter (getFacet r) fu /\ (getFacet r <> [] ->
    quote_safe (plain_escaped fu) /\ (needs_quotes (plain_escaped fu) = true \/ at_ (plain_escaped fu) 0 <> "-"%char));
  pr_protocol : 1 <= ord (major (getProtocol r));
  pr_encoding : 1 <= ord (major (getEncoding r));
  pr_endpoints : Forall endpoint_ok (getEndpoints r);
  pr_adapter : getAdapterId r = [] \/ adapter_ok (getAdapterId r) au
}.

(** The reference has the default locator, router and settings of the communicator. *)
Definition default_settings (r : Reference) : Prop :=
  forall st, create (fun _ => faultM OutOfFuel) (getIdentity r) (getFacet r) (getMode r) (getSecure r) (getProtocol r)
    (getEncoding r) (getEndpoints r) (getAdapterId r) [] st = (Ok r, st).

Lemma default_settings_parts r : default_settings r ->
  exists b m l ro, r = RoutableReference b m l ro /\ (_adapterId m = [] \/ _endpoints m = []).
Proof.
  intros H. specialize (H (MkProperties ∅ None [])). unfold create, lift in H. cbn [mbind M_bind] in H.
  destruct (locator_info _ _) as [l| |]; cbn in H; [|done|done].
  destruct (router_get _) as [ro| |]; cbn in H; [|done|done].
  unfold new_RoutableReference in H.
  destruct (empty_string (getAdapterId r) || no_endpoints (getEndpoints r)) eqn:Eb; [|done].
  injection H as H. rewrite <- H. do 4 eexists. split; [done|]. rewrite <- H in Eb. cbn in Eb |- *.
  apply orb_true_iff in Eb as [Eb|Eb]; [left|right]; by apply Nat.eqb_eq, length_zero_iff_nil in Eb.
Qed.

Lemma identity_text_part nu cu : nu <> [] -> part_ok (identity_text nu cu).
Proof.
  intros Hn. unfold identity_text. destruct (length cu =? 0)%nat eqn:Eb; [by apply escaped_part|].
  apply part_app; [apply escaped_part; by intros ->|..]; destruct (escaped_part nu Hn) as [_ Hp Hc _].
  - by constructor.
  - by apply (covered_app [slash_]).
Qed.

(** The part of the text behind the options *)
Definition tail_text (m : RoutableMembers) (au : str) : str :=
  if no_endpoints (_endpoints m) then
    if empty_string (_adapterId m) then [] else lit " @ " ++ quoted (plain_escaped au)
  else endpoints_text (_endpoints m).

Lemma reference_text b m l ro nu cu fu au : printable_reference (RoutableReference b m l ro) nu cu fu au ->
  reference_toString (RoutableReference b m l ro) =
    Ok (quoted (identity_text nu cu) ++ items_text (option_items fu b) ++ tail_text m au).
Proof.
  intros [[Hn _] [Hc Hl] _ [Hf _] _ _ _ Ha]. cbn in Hn, Hc, Hf, Ha.
  destruct (identity_text_parsed converter _ nu cu Hn Hc Hl) as [Hid _].
  unfold reference_toString. rewrite (base_text b _ fu Hid Hf). cbn [mbind result_bind]. unfold tail_text.
  destruct (no_endpoints (_endpoints m)); cbn [negb]; [|by rewrite <- app_assoc].
  destruct (empty_string (_adapterId m)) eqn:Eb; cbn [negb]; [by rewrite app_nil_r|].
  destruct Ha as [Ha|((Ha & _) & _)]; [by rewrite Ha in Eb|]. rewrite Ha. cbn [mbind result_bind].
  change (escapeString au []) with (Ok (plain_escaped au) : result str). cbn [mbind result_bind]. by rewrite <- app_assoc.
Qed.

Lemma tail_text_ok m au : Forall endpoint_ok (_endpoints m) -> tail_ok (tail_text m au).
Proof.
  intros He. unfold tail_text. destruct (no_endpoints _).
  - destruct (empty_string _); [done|]. right. by eauto.
  - pose proof (endpoints_text_stop _ He) as H. destruct (endpoints_text _); [done|]. by left.
Qed.

Lemma parse_proxy_text b m l ro nu cu fu au : printable_reference (RoutableReference b m l ro) nu cu fu au ->
  (_adapterId m = [] \/ _endpoints m = []) ->
  parse_proxy temporary fuel (quoted (identity_text nu cu) ++ items_text (option_items fu b) ++ tail_text m au) =
    Ok (Some (MkProxyText (_identity b) (MkOptions (_facet b) (_mode b) (_secure b) (_encoding b) (_protocol b))
      (_endpoints m) (_adapterId m) [])).
Proof.
  intros [[Hn Hne] [Hc Hl] Hq [Hf Hfq] Hp He Hep Ha] Hxor. cbn in Hn, Hne, Hc, Hf, Hfq, Hp, He, Hep, Ha.
  pose proof (survives_nonempty _ _ Hn Hne) as Hnu. pose proof (identity_text_part nu cu Hnu) as Hid.
  destruct (identity_text_parsed converter _ nu cu Hn Hc Hl) as [_ Hparse].
  destruct (quoted_first _ Hid) as (c & r & Eq & Hcd & _).
  set (rest := items_text (option_items fu b) ++ tail_text m au).
  set (s := quoted (identity_text nu cu) ++ rest).
  pose proof (tail_text_ok m au Hep) as Htail.
  assert (drop 0 s = quoted (identity_text nu cu) ++ rest) as Hs by apply drop_0.
  unfold parse_proxy. unfold empty_string at 1. rewrite nonempty_length by (unfold s; by rewrite Eq).
  assert (find_first_not_of delim 0 s = Some 0%nat) as ->.
  { unfold find_first_not_of. apply (find_if_at _ s 0 [] c (r ++ rest)); [by rewrite Hs, Eq|constructor|].
    unfold is_delim in Hcd. by rewrite Hcd. }
  destruct (quotable_word_quoted separators (proxy_error (lit "mismatched quotes around identity in ") s) s 0 _ rest Hs Hid Hq)
    as (beg & -> & Hbeg); [done|by apply items_stop|].
  cbn [mbind result_bind]. rewrite (proj2 (Nat.eqb_neq _ _)) by lia.
  rewrite Hparse. cbn [mbind result_bind]. unfold empty_string at 1. rewrite nonempty_length by done.
  apply drop_next in Hs. rewrite Nat.add_0_l in *. set (pos := length (quoted (identity_text nu cu))) in *.
  rewrite (proxy_options_items s (tail_text m au) Htail (S (length s)) (option_items fu b)); [|done| |].
  2:{ apply option_items_ok; [done|]. intros Hne2. destruct (Hfq Hne2). split; [|done].
      apply plain_escaped_part. by apply (survives_nonempty (_facet b)). }
  2:{ unfold s, rest. rewrite !length_app. lia. }
  rewrite (option_items_parsed s b fu) by done. cbn [mbind result_bind].
  unfold rest in Hs. apply drop_next in Hs. set (p := (pos + _)%nat) in *.
  unfold tail_text in *. destruct (no_endpoints (_endpoints m)) eqn:En.
  - apply Nat.eqb_eq, length_zero_iff_nil in En. rewrite En.
    destruct (empty_string (_adapterId m)) eqn:Ea.
    + apply Nat.eqb_eq, length_zero_iff_nil in Ea. by rewrite Ea.
    + destruct Ha as [Ha|Ha]; [by rewrite Ha in Ea|].
      destruct (after_space s p "@" (chr 32 :: quoted (plain_escaped au)) Hs eq_refl) as (_ & Hat & Hs1).
      change (tail_pos p (lit " @ " ++ quoted (plain_escaped au))) with (Some (S p)). cbv iota. rewrite Hat.
      change (ceq "@" ":") with false. change (ceq "@" "@") with true. cbv iota.
      by rewrite (proxy_adapter_parsed s (S p) _ au Hs1 Ha).
  - assert (_adapterId m = []) as Ea by (destruct Hxor as [?|Em]; [done|by rewrite Em in En]).
    rewrite Ea. destruct (_endpoints m) as [|e l'] eqn:El; [done|]. pose proof Hep as [(_ & Hpe & Hce) _]%Forall_cons.
    rewrite endpoints_text_cons in * by (by apply endpoint_text_balanced). cbn [tail_pos]. rewrite ceq_refl.
    pose proof (at_drop s p [":"%char] _ 0 Hs ltac:(cbn; lia)) as Hat. rewrite Nat.add_0_r in Hat. rewrite Hat.
    change (ceq ([":"%char] !!! 0%nat) ":") with true. cbv iota.
    rewrite (proxy_endpoints_parsed s (e :: l')); [done| |by apply (f_equal length) in Hs; rewrite length_drop in Hs; cbn in Hs; lia|done|lia].
    rewrite endpoints_text_cons; [done|by apply endpoint_text_balanced].
Qed.

(** C7. A routable proxy with the default settings of its communicator is printed,
    and the text is parsed back to the same reference: identity with category,
    facet, mode, security, versions, TCP, SSL, UDP and opaque endpoints or the id of
    an adapter, escaped and quoted where they hold separators. It needs parts that
    survive the string converter, a category and quoted parts that do not end in a
    backslash, a facet that is quoted or does not start with a minus sign, and
    endpoints whose values have a text. *)
Theorem proxy_text_roundtrip r nu cu fu au st : printable_reference r nu cu fu au -> default_settings r ->
  exists text, proxyToString (Some r) = Ok text /\ stringToProxy temporary fuel text st = (Ok (Some r), st).
Proof.
  intros Hr Hd. destruct (default_settings_parts r Hd) as (b & m & l & ro & -> & Hxor).
  eexists. split; [by apply (reference_text b m l ro nu cu fu au)|].
  unfold stringToProxy, create_from_string. rewrite (parse_proxy_text b m l ro) by done.
  exact (bind_ok _ (fun r => mret (Some r)) _ _ _ (Hd st)).
Qed.
End proxies.

(** ** A communicator and a proxy *)

Module SampleProxy.
Definition host_defaults : EndpointDefaults := {| defaultHost := []; defaultProtocol := lit "tcp" |}.

(** A communicator with TCP and UDP endpoints and a default locator *)
Definition locator : Reference :=
  RoutableReference
    (MkBase ModeTwoway false (MkIdentity (lit "Locator") (lit "Ice")) ∅ [] Protocol_1_0 Encoding_1_1 false false)
    (MkRoutable [] (lit "Registry") true true false Random (-1) false (-1) []) None None.

Definition communicator : Instance_ := {|
  converter := None;
  defaultCollocationOptimization := true;
  defaultPreferSecure := false;
  defaultEndpointSelection := Random;
  defaultLocatorCacheTimeout := -1;
  defaultEncoding := Encoding_1_1;
  factories := [TcpEndpointFactory; UdpEndpointFactory];
  defaultLocator := Some locator;
  defaultRouter := None
|}.

(** The identity has a slash and a quote, the facet a separator; an endpoint has an
    IPv6 address, and one has a type the communicator does not know. *)
Definition proxy : Reference :=
  RoutableReference
    (MkBase ModeOneway true (MkIdentity (lit "a/b" ++ [dquote]) (lit "my objects")) ∅ (lit "v 2") Encoding_1_1 Encoding_1_1 false false)
    (MkRoutable [TcpEndpointI (MkTcp (lit "::1") 10000 (-1) [] true);
                 UdpEndpointI (MkUdp (lit "239.255.1.1") 9999 (lit "eth0") 3 false [] false);
                 OpaqueEndpointI (MkOpaque 77 Encoding_1_1 (lit "abcd"))] [] true true false Random (-1) false (-1) [])
    (Some locator) None.

Definition text : str :=
  dquote :: lit "my objects/a\/b\" ++ [dquote; dquote] ++ lit " -f " ++ [dquote] ++ lit "v 2" ++ [dquote] ++ lit " -o -s -p 1.1 -e 1.1" ++
  lit ":tcp -h " ++ [dquote] ++ lit "::1" ++ [dquote] ++ lit " -p 10000 -z" ++
  lit ":udp -h 239.255.1.1 -p 9999 --interface eth0 --ttl 3:opaque -t 77 -e 1.1 -v YWJjZA==".

Lemma proxy_printable : printable_reference (IN := communicator) (ED := host_defaults) proxy
  (lit "a/b" ++ [dquote]) (lit "my objects") (lit "v 2") [].
Proof.
  split.
  - by split.
  - split; [done|]. by intros [= ?].
  - intros _. by intros [= ?].
  - split; [done|]. intros _. split; [|by left]. intros _. by intros [= ?].
  - by vm_compute.
  - by vm_compute.
  - assert (forall h, negb (bool_decide (h = [])) && forallb (fun c => negb (is_delim c)) h && negb (str_eqb h (lit "*")) &&
      negb (dashed h) && forallb (fun c => negb (ceq c dquote)) h = true -> hostname h) as Hh.
    { intros h H. rewrite !andb_true_iff, !negb_true_iff, !forallb_forall in H. destruct H as ((((H1 & H2) & H3) & H4) & H5).
      split; [split|split; [|split; [done|]]].
      - by eapply bool_decide_eq_false.
      - apply Forall_forall. intros c Hc. by apply negb_true_iff, H2, list_elem_of_In.
      - by apply str_eqb_false.
      - intros Hin%list_elem_of_In%H5. by rewrite ceq_refl in Hin. }
    repeat apply Forall_cons_2; [..|constructor].
    + split; [left|]. split; [|done]. split; [right; by apply Hh|]. split; [cbn; lia|]. split; [by left|done].
    + split; [right; left|]. split.
      * split; [right; by apply Hh|]. split; [cbn; lia|]. split; [right; by apply Hh|]. split; [right; cbn; lia|done].
      * cbn. apply mem_char_false. done.
    + split; [done|]. split; [|done]. split; [cbn; lia|]. split; [by vm_compute|cbn; lia].
  - by left.
Qed.
End SampleProxy.

Lemma proxy_text_roundtrip_witness :
  proxyToString (IN := SampleProxy.communicator) (Some SampleProxy.proxy) = Ok SampleProxy.text /\
  exists text, proxyToString (IN := SampleProxy.communicator) (Some SampleProxy.proxy) = Ok text /\
    stringToProxy (PL := Sample.x86) (CO := no_coders) (OC := no_classes) (IN := SampleProxy.communicator)
      (ED := SampleProxy.host_defaults) (Sample.receiver []) 1 text (MkProperties ∅ None []) =
      (Ok (Some SampleProxy.proxy), MkProperties ∅ None []).
Proof.
  split; [by vm_compute|].
  apply (proxy_text_roundtrip (PL := Sample.x86) (CO := no_coders) (OC := no_classes) (IN := SampleProxy.communicator)
    (ED := SampleProxy.host_defaults) (Sample.receiver []) 1 SampleProxy.proxy _ _ _ _ _ SampleProxy.proxy_printable).
  intros st. reflexivity.
Defined.
