(* ===== verification/ReferenceWire.v ===== *)
(** * Proxies on the wire

    A proxy that is marshalled by one host is unmarshalled by another one as the
    reference that its own factory makes of the transmitted parts. *)

From S2P Require Import Prelude CxxString Buffer Layout Protocol Stream Wire Codecs StreamString.
From S2P Require Import OrderedMap StreamHelpers StreamSpec Encaps EncapsSpec EncapsWire StringUtil.
From S2P Require Import Identity Endpoint EndpointText EndpointWire Reference PropertyNames Properties ReferenceFactory ReferenceText.

(** ** The bytes of a proxy *)

Definition facet_path (facet : str) : list str := if empty_string facet then [] else [facet].

(** An encapsulation with encoding 1.0 has no room for the versions. *)
Definition version_bytes (enc : EncodingVersion) (r : Reference) : list byte :=
  if encoding_eqb enc Encoding_1_0 then []
  else [major (getProtocol r); minor (getProtocol r); major (getEncoding r); minor (getEncoding r)].

(** The bytes of an identity, and of a proxy for a peer with another converter; [need] is
    the room that the writer asks for. *)
Definition identity_wire (C1 C2 : Config) (ident : Identity) : list byte -> nat -> Prop :=
  wire C1 C2 (TStruct (TString true) (TString true)) (name ident, category ident).

Inductive target_wire (C1 C2 : Config) (r : Reference) : list byte -> nat -> Prop :=
  | endpoints_wire : getEndpoints r <> [] -> getAdapterId r = [] -> int_length (getEndpoints r) ->
      Forall (sendable_endpoint (c_write (Config := C1))) (getEndpoints r) ->
      let bs := size_bytes (Z.of_nat (length (getEndpoints r))) ++
        (getEndpoints r ≫= endpoint_bytes (c_write (Config := C1))) in
      target_wire C1 C2 r bs (length bs)
  | adapter_wire bs need : getEndpoints r = [] -> wire C1 C2 (TString true) (getAdapterId r) bs need ->
      target_wire C1 C2 r (size_bytes 0 ++ bs) (1 + need).

Inductive proxy_wire (C1 C2 : Config) (r : Reference) : list byte -> nat -> Prop :=
  | proxy_wire_parts bi ni bf nf bt nt : identity_wire C1 C2 (getIdentity r) bi ni ->
      wire C1 C2 (TStringSeq true) (facet_path (getFacet r)) bf nf -> target_wire C1 C2 r bt nt ->
      let bs := bi ++ bf ++ [chr (mode_code (getMode r)); byte_of_bool (getSecure r)] ++
        version_bytes (c_write (Config := C1)) r ++ bt in
      proxy_wire C1 C2 r bs (length bs + ni + nf + nt).

(** The versions that arrive *)
Definition sent_protocol (enc : EncodingVersion) (r : Reference) : EncodingVersion :=
  if encoding_eqb enc Encoding_1_0 then Protocol_1_0 else getProtocol r.
Definition sent_encoding (enc : EncodingVersion) (r : Reference) : EncodingVersion :=
  if encoding_eqb enc Encoding_1_0 then Encoding_1_0 else getEncoding r.

(** [r'] is what the factory of the receiver makes of what arrives of [r]. *)
Definition arrives_as `{Instance_} (enc : EncodingVersion) (r r' : Reference) : Prop :=
  fst (create (fun _ => faultM OutOfFuel) (getIdentity r) (getFacet r) (getMode r) (getSecure r) (sent_protocol enc r)
    (sent_encoding enc r) (transmitted <$> getEndpoints r) (getAdapterId r) [] (MkProperties ∅ None [])) = Ok r'.

(** ** Writing *)

Section writing.
Context `{PL : Platform} {D E : Type} `{CO : Coders D E} {OC : ObjectDecoding (BasicStream D E)}.
Context (C1 C2 : Config).
Local Existing Instance C1.
Local Abbreviation stream := (BasicStream D E).

Lemma sends_each {A} need (w : A -> M stream unit) (f : A -> list byte) l :
  Forall (fun x => sends C1 (length (f x)) (w x) (f x)) l -> (length (l ≫= f) <= need)%nat ->
  sends C1 need (write_each w l) (l ≫= f).
Proof.
  revert need. induction l as [|x l IH]; intros need Hl Hn.
  - eapply sends_le; [apply sends_writes, writes_is_within, writes_ret|lia].
  - apply Forall_cons in Hl as [Hx Hl]. change ((x :: l) ≫= f) with (f x ++ (l ≫= f)) in *. cbn [write_each].
    rewrite length_app in Hn. eapply sends_le; [eapply sends_bind; [exact Hx|by apply IH]|]. lia.
Qed.

Lemma writes_encoding {A} need (k : EncodingVersion -> M stream A) bs a :
  writes_within need (k c_write) bs a -> writes_within need (mbind k getWriteEncoding) bs a.
Proof.
  intros [Hl Hk]. split; [done|]. intros s Hf. unfold getWriteEncoding. step.
  replace (write_encoding s) with (c_write (Config := C1)) by (symmetry; apply Hf). by apply Hk.
Qed.

Lemma write_EncodingVersion_writes v : writes_within 2 (write_EncodingVersion (D := D) (E := E) v) [major v; minor v] tt.
Proof. apply (writes_then _ _ [_] [_]); apply writes_is_within, write_Byte_writes. Qed.

Lemma target_sends r b m l ro bs need : r = RoutableReference b m l ro -> target_wire C1 C2 r bs need ->
  sends C1 need (D := D) (E := E)
    (let sz := to_i32 (Z.of_nat (length (_endpoints m))) in
     writeSize sz;;
     if negb (sz =? 0) then assertM (empty_string (_adapterId m));; write_each endpoint_streamWrite (_endpoints m)
     else write_string (_adapterId m) true) bs.
Proof.
  intros -> [Hne Ha Hl He bs'|bs' need' Hn Hw]; cbn [getEndpoints getAdapterId] in *; cbv zeta.
  - rewrite to_i32_length by done. rewrite (proj2 (Z.eqb_neq (Z.of_nat (length (_endpoints m))) 0)) by (destruct (_endpoints m); [done|cbn; lia]).
    cbn [negb]. rewrite Ha. subst bs'. eapply sends_le; [eapply sends_bind|].
    + apply sends_writes, writes_is_within, writeSize_writes. lia.
    + eapply sends_eq; [intros s; by apply bind_assert|]. apply sends_each; [|done].
      eapply Forall_impl; [exact He|]. intros e He'. by apply endpoint_sends.
    + rewrite length_app. lia.
  - rewrite Hn. cbn [length to_i32]. change (to_i32 (Z.of_nat 0)) with 0. cbn [Z.eqb negb].
    eapply sends_le; [eapply sends_bind|].
    + apply sends_writes, writes_is_within, writeSize_writes. lia.
    + apply sends_writes. by apply (ty_writes C1 C2 (TString true)).
    + cbn. lia.
Qed.

Lemma writes_bind_le {A B} n n1 n2 (m : M stream A) (k : A -> M stream B) bs1 bs2 a c :
  writes_within n1 m bs1 a -> writes_within n2 (k a) bs2 c -> (n1 <= n)%nat -> (length bs1 + n2 <= n)%nat ->
  writes_within n (mbind k m) (bs1 ++ bs2) c.
Proof.
  intros Hm Hk H1 H2. destruct (writes_within_bind _ _ _ _ _ _ _ _ Hm Hk) as [Hl H].
  split; [lia|]. intros s Hf. apply H. eapply fits_le; [exact Hf|lia].
Qed.

Lemma base_written b m l ro bf nf : wire C1 C2 (TStringSeq true) (facet_path (_facet b)) bf nf ->
  let bs := bf ++ [chr (mode_code (_mode b)); byte_of_bool (_secure b)] ++ version_bytes c_write (RoutableReference b m l ro) in
  writes_within (length bs + nf) (base_streamWrite (D := D) (E := E) b) bs tt.
Proof.
  intros Hf bs. subst bs. set (vs := version_bytes c_write _).
  assert (writes_within (length vs) (enc ← getWriteEncoding; if encoding_eqb enc Encoding_1_0 then mret tt
    else write_EncodingVersion (D := D) (E := E) (_protocol b);; write_EncodingVersion (_encoding b)) vs tt) as Hv.
  { apply writes_encoding. unfold vs, version_bytes. destruct (encoding_eqb c_write Encoding_1_0).
    - apply writes_is_within, writes_ret.
    - apply (writes_within_bind 2 2 _ _ [_; _] [_; _] tt); apply write_EncodingVersion_writes. }
  rewrite length_app. cbn [length app].
  eapply writes_bind_le; [apply (ty_writes C1 C2 (TStringSeq true) _ _ _ Hf)| |lia|].
  - eapply (writes_bind_le (2 + length vs) 1 (1 + length vs) _ _ [_]); [apply writes_is_within, write_Byte_writes| |lia|cbn; lia].
    eapply (writes_bind_le _ 1 _ _ _ [_]); [apply writes_is_within, write_Bool_writes|exact Hv|lia|cbn; lia].
  - lia.
Qed.

Lemma proxy_sends b m l ro bs need : proxy_wire C1 C2 (RoutableReference b m l ro) bs need ->
  sends C1 need (proxyToStream (D := D) (E := E) (Some (RoutableReference b m l ro))) bs.
Proof.
  intros [bi ni bf nf bt nt Hi Hf Ht bs']. pose proof (target_sends _ b m l ro bt nt eq_refl Ht) as Htail.
  pose proof (base_written b m l ro bf nf Hf) as Hbase. cbv zeta in Hbase.
  set (bb := bf ++ [chr (mode_code (_mode b)); byte_of_bool (_secure b)] ++ version_bytes c_write (RoutableReference b m l ro)) in *.
  assert (bs' = bi ++ bb ++ bt) as -> by (unfold bs', bb; by rewrite <- !app_assoc).
  eapply sends_le; [eapply sends_bind|].
  - apply sends_writes. apply (ty_writes C1 C2 (TStruct (TString true) (TString true)) _ _ _ Hi).
  - eapply sends_bind; [apply sends_writes, Hbase|exact Htail].
  - rewrite !length_app. lia.
Qed.
End writing.

(** ** Reading *)

Section reading.
Context `{PL : Platform} {D E : Type} `{CO : Coders D E} {OC : ObjectDecoding (BasicStream D E)}.
Context (C1 C2 : Config) `{IN : Instance_}.
Local Existing Instance C2.
Local Abbreviation stream := (BasicStream D E).

Lemma fetches_ty t v bs need : wire C1 C2 t v bs need -> fetches C2 (read_ty (D := D) (E := E) t) bs v.
Proof. intros Hw. eapply fetches_reads, (ty_reads C1 C2 t _ _ _ Hw). Qed.

Lemma fetches_pure {A B} (a : A) (k : A -> M stream B) bs c : fetches C2 (k a) bs c -> fetches C2 (mbind k (mret a)) bs c.
Proof. intros Hk. apply (fetches_bind C2 _ _ [] _ a); [apply fetches_ret|exact Hk]. Qed.

Lemma fetches_encoding {A} (k : EncodingVersion -> M stream A) bs a :
  fetches C2 (k c_read) bs a -> fetches C2 (mbind k getReadEncoding) bs a.
Proof.
  intros Hk s rest n Hs Hr Hn Hp. unfold getReadEncoding. step.
  replace (read_encoding s) with (c_read (Config := C2)) by (symmetry; apply Hs). by eapply Hk.
Qed.

Lemma fetches_each {A B} (rd : M stream B) (f : A -> list byte) (g : A -> B) l :
  Forall (fun x => fetches C2 rd (f x) (g x)) l -> fetches C2 (read_each rd (length l)) (l ≫= f) (g <$> l).
Proof.
  induction 1 as [|x l Hx _ IH]; [apply fetches_ret|]. cbn [length read_each].
  eapply fetches_bind; [exact Hx|]. exact (fetches_bind_ret C2 _ (cons (g x)) _ _ IH).
Qed.

Lemma fetches_byte c : fetches C2 (read_Byte (D := D) (E := E)) [c] c.
Proof. eapply fetches_reads, read_Byte_reads. Qed.

Lemma fetches_version v : fetches C2 (read_EncodingVersion (D := D) (E := E)) [major v; minor v] v.
Proof.
  eapply (fetches_bind C2 _ _ [_] [_]); [apply fetches_byte|].
  rewrite <- (app_nil_r [minor v]). eapply fetches_bind; [apply fetches_byte|]. destruct v. apply fetches_ret.
Qed.

Lemma mode_of_code m : mode_of (chr (mode_code m)) = Some m.
Proof. by destruct m. Qed.

Lemma target_fetches r bs need fuel : c_read = c_write (Config := C1) -> target_wire C1 C2 r bs need ->
  Forall (fun e => factory_for e factories) (getEndpoints r) ->
  fetches C2 (sz ← readSize;
    if 0 <? sz then endpoints ← read_each (endpoint_read (S fuel) factories) (Z.to_nat sz); mret (endpoints, [])
    else adapterId ← read_string true; mret ([], adapterId)) bs (transmitted <$> getEndpoints r, getAdapterId r).
Proof.
  intros Henc Ht Hf. destruct Ht as [Hne Ha Hl He bs'|bs' need' Hn Hw].
  - eapply fetches_bind; [eapply fetches_reads, readSize_reads; unfold int_length in Hl; lia|].
    rewrite (proj2 (Z.ltb_lt 0 (Z.of_nat _))) by (destruct (getEndpoints r); [done|cbn; lia]). rewrite Nat2Z.id, Ha.
    apply fetches_bind_ret with (f := fun l => (l, [])).
    apply (fetches_each _ (endpoint_bytes c_write) transmitted). rewrite Forall_forall in *. intros e Hin. specialize (He e Hin).
    rewrite <- Henc in *. apply endpoint_fetches; [exact He|by apply Hf].
  - eapply fetches_bind; [eapply fetches_reads, (readSize_reads 0); lia|]. rewrite Hn.
    apply fetches_bind_ret with (f := fun a => ([], a)). apply (fetches_ty (TString true) _ _ _ Hw).
Qed.

Lemma identity_fetches ident bs need : identity_wire C1 C2 ident bs need ->
  fetches C2 (read_Identity (D := D) (E := E)) bs ident.
Proof.
  intros (bs1 & bs2 & n1 & n2 & H1 & H2 & -> & _). unfold read_Identity.
  eapply fetches_bind; [apply (fetches_ty (TString true) _ _ _ H1)|].
  destruct ident as [n c]. apply (fetches_bind_ret C2 _ (MkIdentity n) _ _ (fetches_ty (TString true) _ _ _ H2)).
Qed.

Lemma reference_fetches r bf nf bt nt fuel : c_read = c_write (Config := C1) ->
  wire C1 C2 (TStringSeq true) (facet_path (getFacet r)) bf nf -> target_wire C1 C2 r bt nt ->
  no_identity (getIdentity r) = false -> Forall (fun e => factory_for e factories) (getEndpoints r) ->
  fetches C2 (read_reference (D := D) (E := E) (S fuel) (getIdentity r))
    (bf ++ [chr (mode_code (getMode r)); byte_of_bool (getSecure r)] ++ version_bytes c_read r ++ bt)
    (Some (getFacet r, getMode r, getSecure r, sent_protocol c_read r, sent_encoding c_read r,
      transmitted <$> getEndpoints r, getAdapterId r)).
Proof.
  intros Henc Hf Ht Hid Hfs. unfold read_reference. rewrite Hid.
  eapply fetches_bind; [apply (fetches_ty (TStringSeq true) _ _ _ Hf)|].
  assert (match facet_path (getFacet r) with [] => mret [] | [facet] => mret facet
    | _ => throw ProxyUnmarshalException end = mret (getFacet r) :> M stream str) as ->.
  { unfold facet_path. by destruct (getFacet r). }
  apply fetches_pure. eapply (fetches_bind C2 _ _ [_]); [apply fetches_byte|]. rewrite mode_of_code.
  eapply (fetches_bind C2 _ _ [_]); [eapply fetches_reads, read_Bool_reads|].
  apply fetches_encoding. eapply fetches_bind with (a := (sent_protocol c_read r, sent_encoding c_read r)).
  { unfold version_bytes, sent_protocol, sent_encoding.
    destruct (encoding_eqb c_read Encoding_1_0); cbn [negb]; [apply fetches_ret|].
    apply (fetches_bind C2 _ _ [_; _] [_; _] (getProtocol r)); [apply fetches_version|].
    apply (fetches_bind_ret C2 _ (pair (getProtocol r)) _ _ (fetches_version (getEncoding r))). }
  cbv beta. cbn [fst snd].
  pose proof (target_fetches r bt nt fuel Henc Ht Hfs) as Htail.
  eapply fetches_eq; [|apply (fetches_bind_ret C2 _ (fun rest => Some (getFacet r, getMode r, getSecure r, sent_protocol c_read r,
    sent_encoding c_read r, rest.1, rest.2)) _ _ Htail)].
  intros s. by_steps.
Qed.

Lemma proxy_fetches r bs need r' fuel : c_read = c_write (Config := C1) -> proxy_wire C1 C2 r bs need ->
  no_identity (getIdentity r) = false -> Forall (fun e => factory_for e factories) (getEndpoints r) ->
  arrives_as c_read r r' -> fetches C2 (streamToProxy (D := D) (E := E) (S fuel)) bs (Some r').
Proof.
  intros Henc [bi ni bf nf bt nt Hi Hf Ht bs'] Hid Hfs Hr. unfold bs'. clear bs'. unfold streamToProxy.
  eapply fetches_bind; [apply (identity_fetches _ _ _ Hi)|]. rewrite <- Henc.
  rewrite <- (app_nil_r (bf ++ _)).
  eapply fetches_bind; [by apply (reference_fetches r bf nf bt nt fuel)|]. cbv beta iota.
  unfold arrives_as in Hr. rewrite Hr. apply fetches_pure with (a := r'). apply fetches_ret.
Qed.
End reading.

(** ** From host to host *)

Section hosts.
Context {D E D2 E2 : Type} `{CO : Coders D2 E2} {OC : ObjectDecoding (BasicStream D2 E2)} `{IN : Instance_}.

(** C8. A routable proxy that one host marshals is unmarshalled by a host with
    another byte order, string converter and configuration as the reference that the
    factory of the receiver makes of the transmitted parts, and exactly its bytes
    are consumed; a stream with encoding 1.0 loses the versions, and an endpoint its
    connection id and multicast settings. *)
Theorem proxy_arrives (PL1 PL2 : Platform) (C1 C2 : Config) b m l ro r r' bs need (s1 : BasicStream D E)
    (s2 : BasicStream D2 E2) rest fuel :
  r = RoutableReference b m l ro ->
  c_read (Config := C2) = c_write (Config := C1) -> proxy_wire C1 C2 r bs need -> no_identity (getIdentity r) = false ->
  Forall (fun e => factory_for e factories) (getEndpoints r) -> arrives_as (c_read (Config := C2)) r r' ->
  fits (CF := C1) s1 need -> readable (CF := C2) s2 -> startSeq s2 = -1 -> remaining s2 = bs ++ rest ->
  (exists p, proxyToStream (PL := PL1) (Some r) s1 = (Ok tt, set_write (writeEncaps s1) p (appended bs s1))) /\
  exists s2', streamToProxy (PL := PL2) (S fuel) s2 = (Ok (Some r'), s2') /\ remaining s2' = rest.
Proof.
  intros -> Henc Hw Hid Hf Ha Hfit Hs Hseq Hr.
  split; [by apply (proxy_sends (PL := PL1) C1 C2 b m l ro bs need Hw)|].
  destruct (proxy_fetches (PL := PL2) C1 C2 _ bs need r' fuel Henc Hw Hid Hf Ha s2 rest 0%nat) as (s2' & E' & F & _);
    [done|done|lia|by left|].
  exists s2'. split; [exact E'|]. by eapply fetched_readable.
Qed.
End hosts.

(** ** A proxy that is sent *)

Module SampleProxyWire.
Import SampleProxy.

(** Both sides use no string converter. *)
Definition cfg : Config := {| c_string := None; c_wstring := Sample.doubling; c_read := Encoding_1_1; c_write := Encoding_1_1 |}.
Definition sender : BasicStream unit unit := stream_new Encoding_1_1 1000 false None Sample.doubling.

Definition bytes : list byte := b (proxyToStream (PL := Sample.sparc) (Some proxy) sender).2.
Definition receiver : BasicStream unit unit := stream_over Encoding_1_1 1000 bytes 4096 None Sample.doubling.

(** The receiver has no default locator, and a UDP endpoint arrives without its
    multicast settings. *)
Definition peer : Instance_ := {|
  converter := None;
  defaultCollocationOptimization := true;
  defaultPreferSecure := true;
  defaultEndpointSelection := Ordered;
  defaultLocatorCacheTimeout := 60;
  defaultEncoding := Encoding_1_1;
  factories := [SslEndpointFactory; TcpEndpointFactory; UdpEndpointFactory];
  defaultLocator := None;
  defaultRouter := None
|}.

Definition received : Reference :=
  RoutableReference
    (MkBase ModeOneway true (MkIdentity (lit "a/b" ++ [dquote]) (lit "my objects")) ∅ (lit "v 2") Encoding_1_1 Encoding_1_1 false false)
    (MkRoutable [TcpEndpointI (MkTcp (lit "::1") 10000 (-1) [] true);
                 UdpEndpointI (MkUdp (lit "239.255.1.1") 9999 [] (-1) false [] false);
                 OpaqueEndpointI (MkOpaque 77 Encoding_1_1 (lit "abcd"))] [] true true true Ordered 60 false (-1) []) None None.

Lemma string_unconverted v : Z.of_nat (length v) < 2 ^ 31 -> wire cfg cfg (TString true) v (seq_bytes v v) (length (seq_bytes v v)).
Proof. intros Hv. exists v. split; [done|]. split; [|done]. split; [exact Hv|]. split; [exact Hv|]. by destruct v. Qed.

Lemma proxy_on_wire : exists need, proxy_wire cfg cfg proxy bytes need /\ (need <= 1000)%nat.
Proof.
  eexists. split; [|shelve].
  assert (forall bs n, proxy_wire cfg cfg proxy bs n -> bs = bytes -> proxy_wire cfg cfg proxy bytes n) as H by (by intros ?? ? <-).
  eapply H.
  - eapply proxy_wire_parts.
    + eexists _, _, _, _. split; [apply string_unconverted; vm_compute; done|]. split; [apply string_unconverted; vm_compute; done|]. done.
    + eexists _, _. split; [eapply each_cons; [apply string_unconverted; vm_compute; done|apply each_nil]|]. done.
    + apply endpoints_wire; [done..|]. repeat apply Forall_cons_2; [..|constructor]; (split; [done|]); (split; [vm_compute; done|]).
      * split; [vm_compute; done|]. split; unfold in_range, in_signed; cbn; lia.
      * split; [vm_compute; done|]. unfold in_range, in_signed; cbn; lia.
      * unfold in_range, in_signed; cbn; lia.
  - by vm_compute.
  Unshelve. vm_compute. lia.
Qed.
Lemma receiver_readable : readable (CF := cfg) receiver.
Proof.
  assert ((b_end receiver <? 5000) = true) as Eb by by vm_compute. apply Z.ltb_lt in Eb.
  assert (0 <= b_end receiver) by (unfold b_end; lia).
  split; [change (i receiver) with 0; lia|]. split; [lia|]. split; [change (b_begin receiver) with 4096; lia|]. by repeat split.
Qed.
End SampleProxyWire.

Lemma proxy_arrives_witness :
  exists s2', streamToProxy (PL := Sample.x86) (CO := no_coders) (OC := no_classes) (IN := SampleProxyWire.peer) 1 SampleProxyWire.receiver =
    (Ok (Some SampleProxyWire.received), s2') /\ remaining s2' = [].
Proof.
  destruct SampleProxyWire.proxy_on_wire as (need & Hw & Hn).
  apply (proxy_arrives (CO := no_coders) (OC := no_classes) (IN := SampleProxyWire.peer) Sample.sparc Sample.x86
    SampleProxyWire.cfg SampleProxyWire.cfg _ _ _ _ SampleProxy.proxy SampleProxyWire.received SampleProxyWire.bytes need SampleProxyWire.sender
    SampleProxyWire.receiver [] 0 eq_refl eq_refl Hw eq_refl).
  - repeat constructor; set_solver.
  - by vm_compute.
  - split; [by split_and!|]. right. cbn. lia.
  - apply SampleProxyWire.receiver_readable.
  - done.
  - by vm_compute.
Defined.
