(* ===== verification/Dispatch.v ===== *)
(** * Dispatching requests

    cpp/src/Ice/Incoming.cpp, Incoming.h and IncomingAsync.cpp: reading a
    request from the stream of a connection, looking its servant up,
    dispatching, and answering with the results or with the exception that was
    raised, at once or later by an asynchronous callback. The code of an
    application (the operations of a servant, a servant locator, the callbacks
    of interceptors, the members of user exceptions) and the text that an
    exception prints are parameters. Observers, warnings and stack traces are
    left out. *)

From stdpp Require Import gmap.
From S2P Require Import Prelude Hoare CxxString Buffer Layout Protocol Stream StreamString StreamHelpers Encaps.
From S2P Require Import OrderedMap Identity Reference ReferenceFactory ServantManager ImplicitContext.

(** ReplyStatus.h *)
Definition replyOK : Z := 0.
Definition replyUserException : Z := 1.
Definition replyObjectNotExist : Z := 2.
Definition replyFacetNotExist : Z := 3.
Definition replyOperationNotExist : Z := 4.
Definition replyUnknownLocalException : Z := 5.
Definition replyUnknownUserException : Z := 6.
Definition replyUnknownException : Z := 7.

(** The generated comparison of versions *)
Definition encoding_ltb (v w : EncodingVersion) : bool :=
  (ord (major v) <? ord (major w)) ||
  (negb (ord (major w) <? ord (major v)) && (ord (minor v) <? ord (minor w))).

(** The request that is being dispatched. Its encoding is set when the
    parameters are read; before, the member is not initialised. *)
Record Current : Type := MkCurrent {
  c_requestId : Z;
  c_id : Identity;
  c_facet : str;
  c_operation : str;
  c_mode : byte;
  c_ctx : Context;
  c_encoding : option EncodingVersion
}.

Definition set_encoding (enc : EncodingVersion) (c : Current) : Current :=
  MkCurrent (c_requestId c) (c_id c) (c_facet c) (c_operation c) (c_mode c) (c_ctx c) (Some enc).

Inductive DispatchStatus : Type := DispatchOK | DispatchUserException | DispatchAsync.

Section dispatch.
Context `{PL : Platform} {D E : Type} `{CO : Coders D E} {OC : ObjectDecoding (BasicStream D E)}.
Context {Object ServantLocator Cookie Callback : Type}.
Local Abbreviation stream := (BasicStream D E).
Local Abbreviation Manager := (@ServantManager Object ServantLocator).
Implicit Types (e : exn) (c : Current) (os : stream).

(** How the generated code writes a user exception, what an exception prints,
    and the streams that the instance makes *)
Context (ue_write : nat -> M stream unit) (print : exn -> str) (new_stream : stream).

(** The locator: what [locate] and [finished] answer *)
Context (locate : ServantLocator -> Current -> result (option Object * Cookie)).
Context (locator_finished : ServantLocator -> Current -> Object -> option Cookie -> result unit).

(** What a callback of an interceptor answers to a response ([inl ok]) or to an exception *)
Context (callback : Callback -> bool + exn -> result bool).

(** ** The state *)

(** What the connection and the locator are called for *)
Inductive call : Type :=
  | SendResponse (os : stream) (compress : byte)
  | SendNoResponse
  | InvokeException (ex : exn) (invokeNum : Z)
  | FinishServant (locator : ServantLocator) (servant : Object).

Record IncomingBase : Type := MkBase {
  _current : Current;
  _servant : option Object;
  _locator : option ServantLocator;
  _cookie : option Cookie;
  _response : bool;
  _compress : byte;
  _os : stream;
  _connection : bool;                                  (** [_connection != 0] *)
  _queue : list Callback                               (** [_interceptorAsyncCallbackQueue] *)
}.

(** An object with the calls it has made *)
Record Env : Type := MkEnv { base : IncomingBase; calls : list call }.

Local Abbreviation envM := (M Env).

Definition set_current x v := MkBase x (_servant v) (_locator v) (_cookie v) (_response v) (_compress v) (_os v) (_connection v) (_queue v).
Definition set_servant x v := MkBase (_current v) x (_locator v) (_cookie v) (_response v) (_compress v) (_os v) (_connection v) (_queue v).
Definition set_locator x v := MkBase (_current v) (_servant v) x (_cookie v) (_response v) (_compress v) (_os v) (_connection v) (_queue v).
Definition set_cookie x v := MkBase (_current v) (_servant v) (_locator v) x (_response v) (_compress v) (_os v) (_connection v) (_queue v).
Definition set_os x v := MkBase (_current v) (_servant v) (_locator v) (_cookie v) (_response v) (_compress v) x (_connection v) (_queue v).
Definition set_connection x v := MkBase (_current v) (_servant v) (_locator v) (_cookie v) (_response v) (_compress v) (_os v) x (_queue v).
Definition set_queue x v := MkBase (_current v) (_servant v) (_locator v) (_cookie v) (_response v) (_compress v) (_os v) (_connection v) x.

Definition change (f : IncomingBase -> IncomingBase) : envM unit := modify (fun v => MkEnv (f (base v)) (calls v)).
Definition on_os {A} (m : M stream A) : envM A :=
  on (fun v => _os (base v)) (fun os v => MkEnv (set_os os (base v)) (calls v)) m.
Definition calling (x : call) : envM unit := modify (fun v => MkEnv (base v) (calls v ++ [x])).

(** The constructor, for the connection *)
Definition base_new (requestId : Z) (response : bool) (compress : byte) : IncomingBase :=
  MkBase (MkCurrent requestId (MkIdentity [] []) [] [] (chr 0) ∅ None) None None None response compress new_stream true [].

(** [this->__adopt(other)]: the two objects *)
Definition adopt (this other : IncomingBase) : IncomingBase * IncomingBase :=
  let '(os, other_os) := swap (_os this) (_os other) in
  (MkBase (_current this) (_servant other) (_locator other) (_cookie other) (_response other) (_compress other)
     os (_connection other) (_queue this),
   MkBase (_current other) None None None false (chr 0) other_os false (_queue other)).

(** ** The reply *)

Definition status_position : nat := headerSize + 4.

(** [_os.b.resize(headerSize + 4)] *)
Definition rewind_os : M stream unit := resize status_position.

Definition send_response : envM unit :=
  v ← get;
  if _connection (base v) then calling (SendResponse (_os (base v)) (_compress (base v))) else faultM UndefinedBehaviour.

Definition send_no_response : envM unit :=
  v ← get; if _connection (base v) then calling SendNoResponse else faultM UndefinedBehaviour.

(** A reply that [w] writes when the caller waits for one *)
Definition respond (w : M stream unit) : envM unit :=
  v ← get;
  if _response (base v) then on_os w;; send_response else send_no_response.

(** The encoding of the reply, where the code asserts that it is known *)
Definition known_encoding : envM EncodingVersion :=
  v ← get; match c_encoding (_current (base v)) with Some enc => mret enc | None => faultM UndefinedBehaviour end.

Definition at_status : envM EncodingVersion :=
  v ← get;
  assertM (b_size (_os (base v)) =? status_position)%nat;;
  enc ← known_encoding;
  assertM (negb (encoding_ltb enc Encoding_1_0));;
  mret enc.

Definition startWriteParams (format : FormatType) : envM unit :=
  v ← get;
  if _response (base v) then
    enc ← at_status;
    on_os (write_Byte (chr 0);; startWriteEncaps enc format)
  else mret tt.

(** [*(_os.b.begin() + headerSize + 4) = status] *)
Definition endWriteParams (ok : bool) : envM unit :=
  v ← get;
  if _response (base v) then
    on_os (store status_position [chr (if ok then replyOK else replyUserException)];; endWriteEncaps)
  else mret tt.

Definition writeEmptyParams : envM unit :=
  v ← get;
  if _response (base v) then
    enc ← at_status;
    on_os (write_Byte (chr replyOK);; writeEmptyEncaps enc)
  else mret tt.

Definition writeParamEncaps (bytes : list byte) (sz : Z) (ok : bool) : envM unit :=
  v ← get;
  if _response (base v) then
    enc ← at_status;
    on_os (write_Byte (chr (if ok then replyOK else replyUserException));;
           if sz =? 0 then writeEmptyEncaps enc else writeEncaps_bytes bytes sz)
  else mret tt.

(** The exception is written to the stream even when no reply is sent. *)
Definition writeUserException (ex : nat) (format : FormatType) : envM unit :=
  startWriteParams format;; on_os (ue_write ex);; endWriteParams false.

(** ** Exceptions *)

(** The members of a request failure that are not set are filled in. *)
Definition fill_id (c : Current) (name category : str) : Identity :=
  if empty_string name then c_id c else MkIdentity name category.
Definition fill (from s : str) : str := if empty_string s && negb (empty_string from) then from else s.

(** For compatibility with the old FacetPath *)
Definition facetPath (facet : str) : list str := if empty_string facet then [] else [facet].

Definition write_failed (status : Z) (id : Identity) (facet operation : str) : M stream unit :=
  rewind_os;;
  assertM ((status =? replyObjectNotExist) || (status =? replyFacetNotExist) || (status =? replyOperationNotExist));;
  write_Byte (chr status);;
  write_Identity id;;
  write_StringSeq (facetPath facet) true;;
  write_string operation false.

Definition write_unknown (status : Z) (text : str) : M stream unit :=
  rewind_os;; write_Byte (chr status);; write_string text false.

(** The status and the text for an exception that is no request failure *)
Definition unknown_status (e : exn) : Z * str :=
  match e with
  | Prelude.UnknownException status unknown => (status, unknown)
  | UnknownUserException unknown => (replyUnknownUserException, unknown)
  | UserException _ => (replyUnknownUserException, print e)
  | StdException what => (replyUnknownException, lit "std::exception: " ++ what)
  | BadAlloc => (replyUnknownException, lit "std::exception: std::bad_alloc")
  | LocalExceptionWrapper _ _ | OtherException => (replyUnknownException, lit "unknown c++ exception")
  | _ => (if is_local e then replyUnknownLocalException else replyUnknownException, print e)
  end.

Definition write_failure (c : Current) (e : exn) : M stream unit :=
  match e with
  | RequestFailedException status name category facet operation =>
      write_failed status (fill_id c name category) (fill (c_facet c) facet) (fill (c_operation c) operation)
  | _ => write_unknown (fst (unknown_status e)) (snd (unknown_status e))
  end.

(** Both functions of this name: what is no [std::exception] is unknown. *)
Definition handleException (e : exn) : envM unit :=
  v ← get;
  assertM (_connection (base v));;
  respond (write_failure (_current (base v)) e);;
  change (set_connection false).

(** The encapsulation of a user exception behind its status *)
Definition write_user (enc : EncodingVersion) (ex : nat) : M stream unit :=
  write_Byte (chr replyUserException);;
  startWriteEncaps enc DefaultFormat;;
  ue_write ex;;
  endWriteEncaps.

(** The result tells whether the dispatch goes on. The encoding of the request
    is read without knowing that it is set. *)
Definition servantLocatorFinished : envM bool :=
  v ← get;
  match _locator (base v), _servant (base v) with
  | Some l, Some sv =>
      calling (FinishServant l sv);;
      match locator_finished l (_current (base v)) sv (_cookie (base v)) with
      | Ok _ => mret true
      | Throw (UserException ex) =>
          assertM (_connection (base v));;
          (if _response (base v) then
             on_os rewind_os;;
             on_os (write_Byte (chr replyUserException));;
             enc ← known_encoding;
             on_os (startWriteEncaps enc DefaultFormat;; ue_write ex;; endWriteEncaps);;
             send_response
           else send_no_response);;
          change (set_connection false);;
          mret false
      | Throw e => handleException e;; mret false
      | Fault f => faultM f
      end
  | _, _ => faultM AssertionFailure
  end.

(** ** Incoming and its asynchronous callbacks *)

Record IncomingAsync : Type := MkAsync {
  as_base : IncomingBase;
  _retriable : bool;
  _active : bool
}.

(** An Incoming, the callbacks that were made from it, the manager it was
    given and the calls of all of them *)
Record Incoming : Type := MkIncoming {
  in_base : IncomingBase;
  _is : stream;
  _inParamPos : option Z;                              (** [None] is the null pointer. *)
  _cb : option nat;                                    (** the callback that is set active *)
  in_asyncs : list IncomingAsync;
  in_manager : option Manager;
  in_calls : list call
}.

Local Abbreviation inM := (M Incoming).

Definition set_base x n := MkIncoming x (_is n) (_inParamPos n) (_cb n) (in_asyncs n) (in_manager n) (in_calls n).
Definition set_is x n := MkIncoming (in_base n) x (_inParamPos n) (_cb n) (in_asyncs n) (in_manager n) (in_calls n).
Definition set_inParamPos x n := MkIncoming (in_base n) (_is n) x (_cb n) (in_asyncs n) (in_manager n) (in_calls n).
Definition set_cb x n := MkIncoming (in_base n) (_is n) (_inParamPos n) x (in_asyncs n) (in_manager n) (in_calls n).
Definition set_asyncs x n := MkIncoming (in_base n) (_is n) (_inParamPos n) (_cb n) x (in_manager n) (in_calls n).
Definition set_manager x n := MkIncoming (in_base n) (_is n) (_inParamPos n) (_cb n) (in_asyncs n) x (in_calls n).
Definition set_calls x n := MkIncoming (in_base n) (_is n) (_inParamPos n) (_cb n) (in_asyncs n) (in_manager n) x.

Definition on_base {A} (m : envM A) : inM A :=
  on (fun n => MkEnv (in_base n) (in_calls n)) (fun v n => set_calls (calls v) (set_base (base v) n)) m.
Definition on_is {A} (m : M stream A) : inM A := on _is set_is m.
Definition change_base (f : IncomingBase -> IncomingBase) : inM unit := on_base (change f).

(** The callback with a number *)
Definition the_async (k : nat) : inM IncomingAsync :=
  n ← get; match in_asyncs n !! k with Some a => mret a | None => faultM UndefinedBehaviour end.
Definition set_async (k : nat) (a : IncomingAsync) : inM unit := modify (fun n => set_asyncs (<[k := a]> (in_asyncs n)) n).

Definition on_async {A} (k : nat) (m : envM A) : inM A :=
  a ← the_async k;
  n ← get;
  let '(r, v) := m (MkEnv (as_base a) (in_calls n)) in
  set_async k (MkAsync (base v) (_retriable a) (_active a));;
  modify (set_calls (calls v));;
  lift r.

(** [Incoming::Incoming], over the stream that [invoke] gets *)
Definition incoming_new (requestId : Z) (response : bool) (compress : byte) (input : stream) (manager : option Manager)
    : Incoming :=
  MkIncoming (base_new requestId response compress) input None None [] manager [].

Definition construct_incoming : inM unit :=
  n ← get;
  if _response (in_base n) then
    on_base (on_os (writeBlob replyHdr;; write_Int (c_requestId (_current (in_base n)))))
  else mret tt.

(** [try]: an exception becomes a result. *)
Definition attempt {S A} (m : M S A) : M S (A + exn) := fun s =>
  match m s with
  | (Ok a, s') => (Ok (inl a), s')
  | (Throw e, s') => (Ok (inr e), s')
  | (Fault f, s') => (Fault f, s')
  end.

(** *** Parameters (Incoming.h) *)

Definition startReadParams : inM unit :=
  enc ← on_is startReadEncaps; change_base (fun v => set_current (set_encoding enc (_current v)) v).
Definition endReadParams (fuel : nat) : inM unit := on_is (endReadEncaps fuel).
Definition readEmptyParams : inM unit :=
  enc ← on_is skipEmptyEncaps; change_base (fun v => set_current (set_encoding enc (_current v)) v).
Definition readParamEncaps : inM (list byte) :=
  r ← on_is readEncaps_bytes;
  change_base (fun v => set_current (set_encoding (snd r) (_current v)) v);;
  mret (fst r).

(** *** Asynchronous dispatch *)

(** The constructor of a callback takes over what the Incoming holds; the
    result is the number of the callback. *)
Definition async_new : inM nat :=
  n ← get;
  let v := in_base n in
  let '(mine, yours) := adopt (MkBase (_current v) None None None false (chr 0) new_stream false (_queue v)) v in
  let k := length (in_asyncs n) in
  let retriable := bool_decide (is_Some (_inParamPos n)) in
  modify (set_asyncs (in_asyncs n ++ [MkAsync mine retriable true]));;
  modify (set_base yours);;
  (if retriable then
     assertM (match _cb n with None => true | Some _ => false end);;
     modify (set_cb (Some k))
   else mret tt);;
  mret k.

Definition deactivate (k : nat) : inM unit :=
  a ← the_async k;
  assertM (_retriable a);;
  if negb (_active a) then throw ResponseSentException else
  n ← get;
  let '(mine, yours) := adopt (in_base n) (as_base a) in
  modify (set_base mine);;
  set_async k (MkAsync yours (_retriable a) false).

Definition killAsync : inM unit :=
  n ← get;
  match _cb n with
  | Some k => deactivate k;; modify (set_cb None)
  | None => mret tt
  end.

Definition push (cb : Callback) : inM unit := change_base (fun v => set_queue (cb :: _queue v) v).
Definition pop : inM unit := change_base (fun v => set_queue (tail (_queue v)) v).

Definition startOver : inM unit :=
  n ← get;
  match _inParamPos n with
  | None => modify (set_inParamPos (Some (i (_is n))))
  | Some pos =>
      killAsync;;
      on_is (modify (set_i pos));;
      on_base (on_os rewind_os)
  end.

(** The interceptors are asked in turn; one of them keeps the answer to itself
    with [false] or an exception. *)
Fixpoint interceptors_allow (queue : list Callback) (answer : bool + exn) : bool :=
  match queue with
  | [] => true
  | cb :: queue' =>
      match callback cb answer with Ok true => interceptors_allow queue' answer | _ => false end
  end.

(** The common start of [__validateResponse] and [ice_exception] *)
Definition claim (k : nat) (answer : bool + exn) : inM bool :=
  a ← the_async k;
  if _retriable a then
    if negb (interceptors_allow (_queue (as_base a)) answer) then mret false
    else if negb (_active a) then mret false
    else set_async k (MkAsync (as_base a) (_retriable a) false);; mret true
  else mret true.

Definition validateResponse (k : nat) (ok : bool) : inM bool := claim k (inl ok).

(** The end of a dispatch by [finish], with the handler of [__response] and
    [__exception] *)
Definition async_end (finish : envM unit) : envM unit :=
  try_local
    (v ← get;
     ok ← match _locator (base v) with Some _ => servantLocatorFinished | None => mret true end;
     if (ok : bool) then finish else mret tt)
    (fun e => v ← get;
      if _connection (base v) then calling (InvokeException e 1) else faultM UndefinedBehaviour).

Definition send_reply : envM unit :=
  v ← get;
  assertM (_connection (base v));;
  (if _response (base v) then send_response else send_no_response);;
  change (set_connection false).

Definition async_response (k : nat) : inM unit := on_async k (async_end send_reply).
Definition async_exception (k : nat) (e : exn) : inM unit := on_async k (async_end (handleException e)).

(** Without a connection the response has been sent: a warning. *)
Definition ice_exception (k : nat) (e : exn) : inM unit :=
  mine ← claim k (inr e);
  if negb mine then mret tt else
  a ← the_async k;
  if _connection (as_base a) then async_exception k e else mret tt.

(** AMD_Object_ice_invoke::ice_response *)
Definition ice_response (k : nat) (ok : bool) (outEncaps : list byte) : inM unit :=
  mine ← validateResponse k ok;
  if negb mine then mret tt else
  written ← on_async k (try_local
    (writeParamEncaps outEncaps (to_i32 (Z.of_nat (length outEncaps))) ok;; mret true)
    (fun e => async_end (handleException e);; mret false));
  if (written : bool) then async_response k else mret tt.

(** ** Servants of the runtime (Object.cpp) *)

Section object.
(** The virtual functions of a servant, and the fuel for its parameters *)
Context (ice_isA : str -> Current -> result bool) (ice_ping : Current -> result unit)
  (ice_ids : Current -> result (list str)) (ice_id : Current -> result str) (fuel : nat).

Definition current : inM Current := n ← get; mret (_current (in_base n)).

Definition object_isA : inM DispatchStatus :=
  c ← current;
  startReadParams;;
  id ← on_is (read_string false);
  endReadParams fuel;;
  ret ← lift (ice_isA id c);
  on_base (startWriteParams DefaultFormat;; on_os (write_Bool ret);; endWriteParams true);;
  mret DispatchOK.

Definition object_ping : inM DispatchStatus :=
  c ← current; readEmptyParams;; lift (ice_ping c);; on_base writeEmptyParams;; mret DispatchOK.

(** [&ret[0]] of an empty vector is undefined. *)
Definition object_ids : inM DispatchStatus :=
  c ← current; readEmptyParams;;
  ret ← lift (ice_ids c);
  on_base (startWriteParams DefaultFormat);;
  match ret with
  | [] => faultM UndefinedBehaviour
  | _ => on_base (on_os (write_StringSeq ret false);; endWriteParams true);; mret DispatchOK
  end.

Definition object_id : inM DispatchStatus :=
  c ← current; readEmptyParams;;
  ret ← lift (ice_id c);
  on_base (startWriteParams DefaultFormat;; on_os (write_string ret false);; endWriteParams true);;
  mret DispatchOK.

Definition operation_not_exist (c : Current) : exn :=
  RequestFailedException replyOperationNotExist (name (c_id c)) (category (c_id c)) (c_facet c) (c_operation c).

(** Object::__dispatch *)
Definition object_dispatch : inM DispatchStatus :=
  c ← current;
  if str_eqb (c_operation c) (lit "ice_id") then object_id
  else if str_eqb (c_operation c) (lit "ice_ids") then object_ids
  else if str_eqb (c_operation c) (lit "ice_isA") then object_isA
  else if str_eqb (c_operation c) (lit "ice_ping") then object_ping
  else throw (operation_not_exist c).
End object.

(** Blobject::__dispatch, and BlobjectArray::__dispatch *)
Definition blobject_dispatch (ice_invoke : list byte -> Current -> result (bool * list byte)) : inM DispatchStatus :=
  inEncaps ← readParamEncaps;
  c ← current;
  r ← lift (ice_invoke inEncaps c);
  on_base (if (length (snd r) =? 0)%nat then writeParamEncaps [] 0 (fst r)
           else writeParamEncaps (snd r) (to_i32 (Z.of_nat (length (snd r)))) (fst r));;
  mret (if (fst r : bool) then DispatchOK else DispatchUserException).

(** BlobjectAsync::__dispatch. [ice_invoke_async] may answer through the callback already. *)
Definition blobject_async_dispatch (ice_invoke_async : nat -> list byte -> Current -> inM unit) : inM DispatchStatus :=
  inEncaps ← readParamEncaps;
  k ← async_new;
  c ← current;
  r ← attempt (ice_invoke_async k inEncaps c);
  (match r with inl _ => mret tt | inr e => ice_exception k e end);;
  mret DispatchAsync.

(** DispatchInterceptor::__dispatch around [dispatch] of the application *)
Definition response_sent (e : exn) : bool := match e with ResponseSentException => true | _ => false end.

Definition interceptor_dispatch (dispatch : inM DispatchStatus) : inM DispatchStatus :=
  r ← attempt (status ← dispatch; (match status with DispatchAsync => mret tt | _ => killAsync end);; mret status);
  match r with
  | inl status => mret status
  | inr e =>
      if response_sent e then mret DispatchAsync
      else
        r ← attempt killAsync;
        match r with
        | inl _ => throw e
        | inr e' => if response_sent e' then mret DispatchAsync else throw e'
        end
  end.

(** Object::ice_dispatch of a request that an interceptor passes on. [_in.pop()] runs in a destructor. *)
Definition ice_dispatch (dispatch : inM DispatchStatus) (cb : option Callback) : inM DispatchStatus :=
  match cb with
  | Some cb =>
      push cb;;
      r ← attempt (startOver;; dispatch);
      pop;;
      match r with inl status => mret status | inr e => throw e end
  | None => startOver;; dispatch
  end.

(** ** Incoming::invoke *)

Context (servant_dispatch : Object -> inM DispatchStatus).

(** [while(sz--)]: a key that comes again does not replace the first one. *)
Fixpoint read_context (sz : nat) (ctx : Context) : M stream Context :=
  match sz with
  | O => mret ctx
  | S sz' =>
      k ← read_string true; v ← read_string true;
      read_context sz' (match ctx !! k with Some _ => ctx | None => <[k := v]> ctx end)
  end.

Definition read_facet : M stream str :=
  facetPath ← read_StringSeq true;
  match facetPath with
  | [] => mret []
  | [facet] => mret facet
  | _ => throw (MarshalException [])
  end.

(** The request behind its header *)
Definition read_current (requestId : Z) : M stream Current :=
  id ← read_Identity;
  facet ← read_facet;
  operation ← read_string false;
  mode ← read_Byte;
  sz ← readSize;
  ctx ← read_context (Z.to_nat sz) ∅;
  mret (MkCurrent requestId id facet operation mode ctx None).

Definition on_manager {A} (m : M Manager A) : inM (option A) :=
  n ← get;
  match in_manager n with
  | None => mret None
  | Some mgr =>
      let '(r, mgr') := m mgr in
      modify (set_manager (Some mgr'));;
      a ← lift r; mret (Some a)
  end.

(** The locator for a category, then the default one *)
Definition find_locator (category : str) : inM (option ServantLocator) :=
  l ← on_manager (findServantLocator category);
  match l with
  | Some None =>
      if negb (empty_string category) then l ← on_manager (findServantLocator []); mret (default None l)
      else mret None
  | _ => mret (default None l)
  end.

(** The locator is asked for the servant; [true] when the request has been answered. *)
Definition ask_locator (l : ServantLocator) : inM bool :=
  change_base (set_locator (Some l));;
  c ← current;
  match locate l c with
  | Ok (sv, cookie) =>
      change_base (set_servant sv);; change_base (set_cookie (Some cookie));; mret false
  | Throw (UserException ex) =>
      enc ← on_is skipEncaps;
      on_base (respond (write_user enc ex);; change (set_connection false));;
      mret true
  | Throw e => on_is skipEncaps;; on_base (handleException e);; mret true
  | Fault f => faultM f
  end.

Definition find_servant : inM bool :=
  c ← current;
  sv ← on_manager (findServant (c_id c) (c_facet c));
  match sv with
  | None => mret false
  | Some (Some sv) => change_base (set_servant (Some sv));; mret false
  | Some None =>
      l ← find_locator (category (c_id c));
      match l with Some l => ask_locator l | None => mret false end
  end.

(** There is no servant: the parameters are skipped. *)
Definition not_found : inM bool :=
  on_is skipEncaps;;
  c ← current;
  has ← on_manager (hasServant (c_id c));
  throw (RequestFailedException
    (match has with Some true => replyFacetNotExist | _ => replyObjectNotExist end)
    (name (c_id c)) (category (c_id c)) (c_facet c) (c_operation c)).

(** The body of the try block; [true] when nothing is left to do. *)
Definition dispatch_body : inM bool :=
  n ← get;
  match _servant (in_base n) with
  | Some sv =>
      status ← servant_dispatch sv;
      match status with
      | DispatchAsync => mret true
      | _ =>
          n ← get;
          match _locator (in_base n) with
          | Some _ => ok ← on_base servantLocatorFinished; mret (negb ok)
          | None => mret false
          end
      end
  | None => not_found
  end.

(** Both handlers *)
Definition dispatch_failed (e : exn) : inM unit :=
  n ← get;
  ok ← match _servant (in_base n), _locator (in_base n) with
       | Some _, Some _ => on_base servantLocatorFinished
       | _, _ => mret true
       end;
  if (ok : bool) then on_base (handleException e) else mret tt.

(** Behind the try block *)
Definition reply : envM unit :=
  v ← get;
  (if _response (base v) then send_response else send_no_response);;
  change (set_connection false).

Definition dispatch_request : inM unit :=
  r ← attempt dispatch_body;
  match r with
  | inl true => mret tt
  | inl false => on_base reply
  | inr e => dispatch_failed e
  end.

Definition invoke : inM unit :=
  n ← get;
  c ← on_is (read_current (c_requestId (_current (in_base n))));
  change_base (set_current c);;
  answered ← find_servant;
  if (answered : bool) then mret tt else dispatch_request.

(** ** ConnectionI::invokeAll *)

(** The requests of a message that are being dispatched, one after the other *)
Record Dispatches : Type := MkDispatches {
  d_stream : stream;
  d_manager : option Manager;
  d_invokeNum : Z;
  d_incoming : list Incoming;                          (** those that were constructed *)
  d_failed : list (exn * Z)                            (** the calls of [invokeException] *)
}.

Definition invoke_one (response : bool) (requestId : Z) (compress : byte) : M Dispatches unit := fun d =>
  let '(r, n) := (construct_incoming;; invoke) (incoming_new requestId response compress (d_stream d) (d_manager d)) in
  (r, MkDispatches (_is n) (in_manager n) (d_invokeNum d) (d_incoming d ++ [n]) (d_failed d)).

Fixpoint invoke_loop (fuel : nat) (datagram : bool) (requestId : Z) (compress : byte) : M Dispatches unit :=
  d ← get;
  if 0 <? d_invokeNum d then
    match fuel with
    | O => faultM OutOfFuel
    | S fuel' =>
        let response := negb datagram && negb (requestId =? 0) in
        assertM (negb response || (d_invokeNum d =? 1));;
        invoke_one response requestId compress;;
        modify (fun d => MkDispatches (d_stream d) (d_manager d) (d_invokeNum d - 1) (d_incoming d) (d_failed d));;
        invoke_loop fuel' datagram requestId compress
    end
  else mret tt.

Definition invokeAll (datagram : bool) (requestId : Z) (compress : byte) : M Dispatches unit :=
  try_local
    (d ← get;
     invoke_loop (Z.to_nat (d_invokeNum d)) datagram requestId compress;;
     modify (fun d => MkDispatches (clear (d_stream d)) (d_manager d) (d_invokeNum d) (d_incoming d) (d_failed d)))
    (fun ex => modify (fun d =>
      MkDispatches (d_stream d) (d_manager d) (d_invokeNum d) (d_incoming d) (d_failed d ++ [(ex, d_invokeNum d)]))).
End dispatch.
