(* ===== verification/DispatchSpec.v ===== *)
(** * What dispatching promises

    A request is answered once: whatever the servant, the locator and the
    application do, the right to answer stays in one place, at the Incoming or
    at one asynchronous callback, until the response is handed to the
    connection. Reading a request from arbitrary bytes stays in the buffer. *)

From stdpp Require Import gmap.
From S2P Require Import Prelude Hoare CxxString Buffer Layout Protocol Stream Wire Codecs StreamString StreamHelpers.
From S2P Require Import StreamSpec Encaps EncapsSpec OrderedMap Identity Reference ReferenceFactory ServantManager ImplicitContext Dispatch.

Create HintDb kept discriminated.
Create HintDb keeps discriminated.

Section spec.
Context `{PL : Platform} {D E : Type} `{CO : Coders D E} {OC : ObjectDecoding (BasicStream D E)}.
Context {Object ServantLocator Cookie Callback : Type}.
Local Abbreviation stream := (BasicStream D E).
Context (ue_write : nat -> M stream unit) (print : exn -> str) (new_stream : stream).
Context (locate : ServantLocator -> Current -> result (option Object * Cookie)).
Context (locator_finished : ServantLocator -> Current -> Object -> option Cookie -> result unit).
Context (callback : Callback -> bool + exn -> result bool).
Local Abbreviation Base := (@IncomingBase D E Object ServantLocator Cookie Callback).
Local Abbreviation env := (@Env D E Object ServantLocator Cookie Callback).
Local Abbreviation incoming := (@Incoming D E Object ServantLocator Cookie Callback).
Local Abbreviation action := (@call D E Object ServantLocator).
Local Abbreviation handleException := (handleException (Object := Object) (ServantLocator := ServantLocator)
  (Cookie := Cookie) (Callback := Callback) print).
Local Abbreviation servantLocatorFinished := (servantLocatorFinished (Callback := Callback) ue_write print locator_finished).
Implicit Types (v : env) (n : incoming) (x : Base) (e : exn).

(** ** The right to answer *)

Definition owns x : nat := Nat.b2n (_connection x).

Definition is_answer (c : action) : bool :=
  match c with SendResponse _ _ | SendNoResponse => true | _ => false end.
Definition answers (l : list action) : nat := length (List.filter is_answer l).

Fixpoint async_owners (l : list (@IncomingAsync D E Object ServantLocator Cookie Callback)) : nat :=
  match l with [] => O | a :: l' => (owns (as_base a) + async_owners l')%nat end.

#[local] Arguments answers : simpl never.
#[local] Arguments owns : simpl never.

(** The rights to answer that are held, and those that have been used *)
Definition token n : nat := (owns (in_base n) + async_owners (in_asyncs n) + answers (in_calls n))%nat.

Record inv n : Prop := Inv {
  inv_token : token n = 1%nat;
  inv_cb : is_Some (_cb n) -> _connection (in_base n) = false
}.

(** The Incoming is done: the request has been answered, or one callback will answer it. *)
Definition settled n : Prop :=
  _connection (in_base n) = false /\ (async_owners (in_asyncs n) + answers (in_calls n) = 1)%nat.

(** Nobody has answered, or is going to. *)
Definition unanswered n : Prop :=
  _connection (in_base n) = true /\ async_owners (in_asyncs n) = 0%nat /\ answers (in_calls n) = 0%nat.

(** ** The operations of both kinds of objects *)

Definition held v : nat := (owns (base v) + answers (calls v))%nat.

(** The right is kept or used, and never got back. *)
Definition kept {A} (m : M env A) : Prop := forall v,
  held (m v).2 = held v /\ (_connection (base v) = false -> _connection (base (m v).2) = false).

Lemma kept_ret {A} (a : A) : kept (mret a).
Proof. done. Qed.
Lemma kept_throw {A} e : kept (throw (A := A) e).
Proof. done. Qed.
Lemma kept_fault {A} f : kept (faultM (A := A) f).
Proof. done. Qed.
Lemma kept_get : kept get.
Proof. done. Qed.
Lemma kept_lift {A} (r : result A) : kept (lift r).
Proof. done. Qed.
Lemma kept_assert c : kept (assertM c).
Proof. by destruct c. Qed.

Lemma kept_bind {A B} (m : M env A) (k : A -> M env B) : kept m -> (forall a, kept (k a)) -> kept (mbind k m).
Proof.
  intros Hm Hk v. unfold mbind, M_bind. destruct (Hm v) as [H1 H2]. destruct (m v) as [[a|e|f] v']; [|done..].
  cbn in *. destruct (Hk a v') as [H3 H4]. rewrite H3, H1. auto.
Qed.

Lemma kept_on_os {A} (m : M stream A) : kept (on_os m).
Proof. intros v. unfold on_os, on. by destruct (m _). Qed.

Lemma answers_app l m : answers (l ++ m) = (answers l + answers m)%nat.
Proof. unfold answers. by rewrite List.filter_app, length_app. Qed.

Lemma kept_calling c : is_answer c = false -> kept (calling c).
Proof. intros Hc v. split; [|done]. unfold held. cbn. rewrite answers_app. unfold answers at 2. cbn. rewrite Hc. cbn. lia. Qed.

(** A response is sent and the connection forgotten. *)
Lemma kept_use {A} (a : A) (m : M env unit) (c : env -> action) :
  (forall v, m v = if _connection (base v) then calling (c v) v else faultM UndefinedBehaviour v) ->
  (forall v, is_answer (c v) = true) -> kept (m;; change (set_connection false);; mret a).
Proof.
  intros Hm Hc v. unfold mbind, M_bind. rewrite Hm. destruct (_connection (base v)) eqn:Ec; [|done]. cbn.
  split; [|done]. unfold held. cbn. rewrite answers_app. unfold owns. cbn. rewrite Ec.
  unfold answers at 2. cbn. rewrite Hc. cbn. lia.
Qed.

Lemma kept_assoc {A B C} (m : M env A) (k : A -> M env B) (h : B -> M env C) :
  kept (mbind (fun a => mbind h (k a)) m) -> kept (mbind h (mbind k m)).
Proof. intros H v. specialize (H v). unfold mbind, M_bind in *. by destruct (m v) as [[a|e|f] v']. Qed.

Lemma kept_if {A} (c : bool) (m1 m2 : M env A) : kept m1 -> kept m2 -> kept (if c then m1 else m2).
Proof. by destruct c. Qed.

Lemma kept_sent {A} (a : A) : kept (send_response;; change (set_connection false);; mret a).
Proof. apply kept_use with (c := fun v => SendResponse (_os (base v)) (_compress (base v))); [|done]. intros v. unfold send_response. steps. by destruct (_connection _). Qed.

Lemma kept_not_sent {A} (a : A) : kept (send_no_response;; change (set_connection false);; mret a).
Proof. apply kept_use with (c := fun _ => SendNoResponse); [|done]. intros v. unfold send_no_response. steps. by destruct (_connection _). Qed.

Lemma kept_responded {A} (a : A) w : kept (respond w;; change (set_connection false);; mret a).
Proof.
  unfold respond. apply kept_assoc, kept_bind; [apply kept_get|]. intros v. destruct (_response (base v)).
  - apply kept_assoc, kept_bind; [apply kept_on_os|]. intros _. apply kept_sent.
  - apply kept_not_sent.
Qed.

Lemma kept_no_result (m : M env unit) : kept (m;; mret tt) -> kept m.
Proof. intros H v. specialize (H v). unfold mbind, M_bind in H. by destruct (m v) as [[[]|e|f] v']. Qed.

Lemma kept_handleException e : kept (handleException e).
Proof.
  apply kept_bind; [apply kept_get|]. intros v. apply kept_bind; [apply kept_assert|]. intros _.
  apply kept_no_result, kept_assoc, kept_responded.
Qed.

#[local] Hint Resolve kept_handleException : kept.

Ltac keep :=
  repeat match goal with
  | |- kept _ => solve [auto 3 with kept nocore]
  | |- forall _, _ => intros ?
  | |- kept (mret _) => apply kept_ret
  | |- kept (throw _) => apply kept_throw
  | |- kept (faultM _) => apply kept_fault
  | |- kept get => apply kept_get
  | |- kept (lift _) => apply kept_lift
  | |- kept (assertM _) => apply kept_assert
  | |- kept (on_os _) => apply kept_on_os
  | |- kept (calling (FinishServant _ _)) => by apply kept_calling
  | |- kept (calling (InvokeException _ _)) => by apply kept_calling
  | |- kept (mbind _ (mbind _ _)) => apply kept_assoc
  | |- kept (mbind _ send_response) => apply kept_sent
  | |- kept (mbind _ send_no_response) => apply kept_not_sent
  | |- kept (mbind _ (if ?c then _ else _)) => destruct c
  | |- kept (mbind _ _) => apply kept_bind
  | |- kept (if ?c then _ else _) => apply kept_if
  | |- kept (match ?x with _ => _ end) => destruct x
  end.

Lemma kept_known_encoding : kept known_encoding.
Proof. unfold known_encoding. keep. Qed.
#[local] Hint Resolve kept_known_encoding : kept.

Lemma kept_at_status : kept at_status.
Proof. unfold at_status. keep. Qed.
#[local] Hint Resolve kept_at_status : kept.

Lemma kept_startWriteParams format : kept (startWriteParams format).
Proof. unfold startWriteParams. keep. Qed.

Lemma kept_endWriteParams ok : kept (endWriteParams ok).
Proof. unfold endWriteParams. keep. Qed.

Lemma kept_writeEmptyParams : kept writeEmptyParams.
Proof. unfold writeEmptyParams. keep. Qed.

Lemma kept_writeParamEncaps bytes sz ok : kept (writeParamEncaps bytes sz ok).
Proof. unfold writeParamEncaps. keep. Qed.
#[local] Hint Resolve kept_startWriteParams kept_endWriteParams kept_writeEmptyParams kept_writeParamEncaps : kept.

Lemma kept_writeUserException ex format : kept (writeUserException ue_write ex format).
Proof. unfold writeUserException. keep. Qed.

Lemma kept_servantLocatorFinished : kept servantLocatorFinished.
Proof. unfold servantLocatorFinished. keep. Qed.

Lemma kept_reply : kept reply.
Proof. unfold reply. apply kept_no_result. keep. Qed.

Lemma kept_send_reply : kept send_reply.
Proof. unfold send_reply. apply kept_no_result. keep. Qed.
#[local] Hint Resolve kept_writeUserException kept_servantLocatorFinished kept_reply kept_send_reply : kept.

Lemma kept_try_local {A} (m : M env A) h : kept m -> (forall e, kept (h e)) -> kept (try_local m h).
Proof.
  intros Hm Hh v. unfold try_local. destruct (Hm v) as [H1 H2]. destruct (m v) as [[a|e|f] v']; [done| |done].
  destruct (is_local e); [|done]. cbn in *. destruct (Hh e v') as [H3 H4]. rewrite H3, H1. auto.
Qed.

Lemma kept_async_end (m : M env unit) : kept m -> kept (async_end ue_write print locator_finished m).
Proof. intros Hm. unfold async_end. apply kept_try_local; [|intros e]; keep. Qed.

(** ** The operations of an Incoming *)

(** They keep the invariant, however they end. *)
Definition keeps {A} (m : M incoming A) : Prop := forall n, inv n -> inv (m n).2.

Lemma incoming_ret {A} (a : A) : keeps (mret a).
Proof. by intros n. Qed.
Lemma incoming_throw {A} e : keeps (throw (A := A) e).
Proof. by intros n. Qed.
Lemma incoming_fault {A} f : keeps (faultM (A := A) f).
Proof. by intros n. Qed.
Lemma keeps_get : keeps get.
Proof. by intros n. Qed.
Lemma keeps_lift {A} (r : result A) : keeps (lift r).
Proof. by intros n. Qed.
Lemma keeps_assert c : keeps (assertM c).
Proof. by destruct c; intros n. Qed.

Lemma incoming_bind {A B} (m : M incoming A) (k : A -> M incoming B) : keeps m -> (forall a, keeps (k a)) -> keeps (mbind k m).
Proof.
  intros Hm Hk n Hn. unfold mbind, M_bind. pose proof (Hm n Hn) as H1. destruct (m n) as [[a|e|f] n']; [|done..].
  by apply Hk.
Qed.

Lemma keeps_attempt {A} (m : M incoming A) : keeps m -> keeps (attempt m).
Proof. intros Hm n Hn. unfold attempt. specialize (Hm n Hn). by destruct (m n) as [[a|e|f] n']. Qed.

Lemma keeps_modify (f : incoming -> incoming) : (forall n, inv n -> inv (f n)) -> keeps (modify f).
Proof. intros Hf n Hn. by apply Hf. Qed.

Lemma keeps_on_is {A} (m : M stream A) : keeps (on_is m).
Proof. intros n [H1 H2]. unfold on_is, on. destruct (m (_is n)). by split. Qed.

Lemma keeps_on_base {A} (m : M env A) : kept m -> keeps (on_base m).
Proof.
  intros Hm n [H1 H2]. unfold on_base, on. specialize (Hm (MkEnv (in_base n) (in_calls n))).
  destruct (m _) as [r v]. cbn in *. destruct Hm as [H3 H4]. split.
  - unfold token, held in *. cbn in *. lia.
  - intros Hcb. cbn. auto.
Qed.

Lemma keeps_change_base (f : Base -> Base) : (forall x, _connection (f x) = _connection x) -> keeps (change_base f).
Proof.
  intros Hf. apply keeps_on_base. intros v. cbn. unfold held, owns. cbn. rewrite Hf. done.
Qed.

Lemma async_owners_insert l k a a' : l !! k = Some a ->
  (async_owners (<[k := a']> l) + owns (as_base a) = async_owners l + owns (as_base a'))%nat.
Proof.
  revert l. induction k as [|k IH]; intros [|y l] Hl; [done| |done|].
  - injection Hl as ->. change (<[0%nat := a']> (a :: l)) with (a' :: l). cbn [async_owners]. lia.
  - specialize (IH l Hl). change (<[S k := a']> (y :: l)) with (y :: <[k := a']> l). cbn [async_owners]. lia.
Qed.

Lemma async_owners_app l a : async_owners (l ++ [a]) = (async_owners l + owns (as_base a))%nat.
Proof. induction l as [|y l IH]; cbn [app async_owners]; lia. Qed.

(** A callback changes, and holds as much as before. *)
Lemma inv_set_asyncs l n : inv n -> async_owners l = async_owners (in_asyncs n) -> inv (set_asyncs l n).
Proof. intros [H1 H2] Hl. split; [|done]. unfold token in *. cbn. by rewrite Hl. Qed.

Lemma keeps_on_async {A} k (m : M env A) : kept m -> keeps (on_async k m).
Proof.
  intros Hm n [H1 H2]. unfold on_async, the_async. unfold mbind, M_bind. cbn.
  destruct (in_asyncs n !! k) as [a|] eqn:Ea; [|by split]. cbn.
  specialize (Hm (MkEnv (as_base a) (in_calls n))). destruct (m _) as [r v]. cbn in *. destruct Hm as [H3 _].
  split; [|done]. unfold token, held in *. cbn in *.
  pose proof (async_owners_insert _ _ _ (MkAsync (base v) (_retriable a) (_active a)) Ea) as H. cbn in H. lia.
Qed.

Lemma keeps_the_async k : keeps (the_async k).
Proof. intros n. unfold the_async. unfold mbind, M_bind. cbn. by destruct (in_asyncs n !! k). Qed.

Lemma async_owners_same l k a r b : l !! k = Some a -> async_owners (<[k := MkAsync (as_base a) r b]> l) = async_owners l.
Proof. intros Ha. pose proof (async_owners_insert _ _ _ (MkAsync (as_base a) r b) Ha) as H. cbn in H. lia. Qed.

Lemma keeps_claim k answer : keeps (claim callback k answer).
Proof.
  intros n Hn. unfold claim, the_async. unfold mbind, M_bind. cbn.
  destruct (in_asyncs n !! k) as [a|] eqn:Ea; [|done]. cbn.
  destruct (_retriable a); [|done]. destruct (interceptors_allow _ _ _); [|done]. cbn.
  destruct (_active a); [|done]. cbn. apply inv_set_asyncs; [done|]. by apply async_owners_same.
Qed.

Lemma keeps_async_new : keeps (async_new new_stream).
Proof.
  intros n [H1 H2]. unfold async_new. unfold mbind, M_bind. cbn.
  assert (token (set_base (adopt (MkBase (_current (in_base n)) None None None false (chr 0) new_stream false (_queue (in_base n)))
    (in_base n)).2 (set_asyncs (in_asyncs n ++ [MkAsync (adopt (MkBase (_current (in_base n)) None None None false (chr 0)
    new_stream false (_queue (in_base n))) (in_base n)).1 (bool_decide (is_Some (_inParamPos n))) true]) n)) = 1%nat) as Ht.
  { unfold token in *. cbn. rewrite async_owners_app. cbn. unfold owns in *. cbn. lia. }
  cbn in Ht. case_bool_decide; [destruct (_cb n) eqn:Ecb|]; cbn; by split.
Qed.

Lemma keeps_killAsync : keeps killAsync.
Proof.
  intros n Hn. unfold killAsync. unfold mbind, M_bind. cbn. destruct (_cb n) as [k|] eqn:Ecb; [|exact Hn].
  unfold deactivate, the_async. unfold mbind, M_bind. cbn.
  destruct (in_asyncs n !! k) as [a|] eqn:Ea; [|exact Hn]. cbn.
  destruct (_retriable a); [|exact Hn]. destruct (_active a); [|exact Hn]. cbn.
  destruct Hn as [H1 H2]. split; [|by intros [? [=]]]. unfold token in *. cbn in *.
  rewrite Ecb in H2. pose proof (H2 ltac:(done)) as Hc. pose proof (async_owners_insert _ _ _
    (MkAsync (adopt (in_base n) (as_base a)).2 true false) Ea) as H. cbn in H. unfold owns in *. cbn in *.
  rewrite Hc in H1. cbn in *. lia.
Qed.

#[local] Hint Resolve incoming_ret incoming_throw incoming_fault keeps_get keeps_lift keeps_assert keeps_on_is keeps_the_async
  keeps_claim keeps_async_new keeps_killAsync : keeps.

Ltac keeping :=
  repeat match goal with
  | |- keeps _ => solve [auto 1 with keeps nocore]
  | |- forall _, _ => intros ?
  | |- keeps (on_base _) => apply keeps_on_base; keep
  | |- keeps (on_async _ _) => apply keeps_on_async; keep
  | |- keeps (change_base _) => by apply keeps_change_base
  | |- keeps (attempt _) => apply keeps_attempt
  | |- keeps (mbind _ _) => apply incoming_bind
  | |- keeps (if ?c then _ else _) => destruct c
  | |- keeps (match ?x with _ => _ end) => destruct x
  end.

Lemma keeps_push cb : keeps (push cb).
Proof. unfold push. keeping. Qed.
Lemma keeps_pop : keeps pop.
Proof. unfold pop. keeping. Qed.

Lemma keeps_startOver : keeps startOver.
Proof. unfold startOver. keeping. apply keeps_modify. intros n [H1 H2]. by split. Qed.
#[local] Hint Resolve keeps_push keeps_pop keeps_startOver : keeps.

#[local] Hint Resolve kept_async_end : kept.

Lemma keeps_async_response k : keeps (async_response ue_write print locator_finished k).
Proof. unfold async_response. keeping. Qed.
Lemma keeps_async_exception k e : keeps (async_exception ue_write print locator_finished k e).
Proof. unfold async_exception. keeping. Qed.
#[local] Hint Resolve keeps_async_response keeps_async_exception : keeps.

Lemma keeps_ice_exception k e : keeps (ice_exception ue_write print locator_finished callback k e).
Proof. unfold ice_exception. keeping. Qed.

Lemma keeps_ice_response k ok out : keeps (ice_response ue_write print locator_finished callback k ok out).
Proof.
  unfold ice_response, validateResponse. keeping. apply kept_try_local; keep.
Qed.
#[local] Hint Resolve keeps_ice_exception keeps_ice_response : keeps.

(** ** Servants *)

(** A servant keeps the right to answer; an asynchronous one has passed it on. *)
Record lawful (m : M incoming DispatchStatus) : Prop := Lawful {
  lawful_keeps : keeps m;
  lawful_async n n' : inv n -> m n = (Ok DispatchAsync, n') -> _connection (in_base n') = false
}.

(** A servant that an interceptor dispatches to *)
Record cooperative (m : M incoming DispatchStatus) : Prop := Cooperative {
  cooperative_lawful : lawful m;
  cooperative_sent n n' : inv n -> m n = (Throw ResponseSentException, n') -> _connection (in_base n') = false
}.

Definition never_async (m : M incoming DispatchStatus) : Prop := forall n n', m n <> (Ok DispatchAsync, n').

Lemma never_async_bind {A} (m : M incoming A) k : (forall a, never_async (k a)) -> never_async (mbind k m).
Proof. intros Hk n n'. unfold mbind, M_bind. destruct (m n) as [[a|e|f] n1]; [apply Hk|done..]. Qed.

Ltac never :=
  repeat match goal with
  | |- never_async (mbind _ _) => apply never_async_bind; intros ?
  | |- never_async (if ?b then _ else _) => destruct b
  | |- never_async (mret (if ?b then _ else _)) => destruct b
  | |- never_async (match ?x with _ => _ end) => destruct x
  end; done.

Lemma lawful_intro m : keeps m -> never_async m -> lawful m.
Proof. intros H1 H2. split; [done|]. intros n n' _ H. by destruct (H2 n n'). Qed.

Lemma keeps_object_dispatch ice_isA ice_ping ice_ids ice_id fuel :
  keeps (object_dispatch ice_isA ice_ping ice_ids ice_id fuel).
Proof.
  unfold object_dispatch, object_id, object_ids, object_isA, object_ping, current, startReadParams, endReadParams, readEmptyParams.
  keeping.
Qed.

Lemma object_dispatch_lawful ice_isA ice_ping ice_ids ice_id fuel :
  lawful (object_dispatch ice_isA ice_ping ice_ids ice_id fuel).
Proof.
  apply lawful_intro; [apply keeps_object_dispatch|]. unfold object_dispatch, object_id, object_ids, object_isA, object_ping.
  never.
Qed.

Lemma blobject_dispatch_lawful ice_invoke : lawful (blobject_dispatch ice_invoke).
Proof. apply lawful_intro; unfold blobject_dispatch, readParamEncaps, current; [keeping|never]. Qed.

(** The base of the Incoming stays empty once it has handed everything over. *)
Definition empty_stays {A} (m : M incoming A) : Prop := forall n,
  _connection (in_base n) = false -> _connection (in_base (m n).2) = false.

Definition empties {A} (m : M incoming A) : Prop := forall n a n', m n = (Ok a, n') -> _connection (in_base n') = false.

Lemma empty_stays_bind {A B} (m : M incoming A) (k : A -> M incoming B) :
  empty_stays m -> (forall a, empty_stays (k a)) -> empty_stays (mbind k m).
Proof.
  intros Hm Hk n Hn. specialize (Hm n Hn). unfold mbind, M_bind. destruct (m n) as [[a|e|f] n']; [|done..]. by apply Hk.
Qed.

Lemma empty_stays_attempt {A} (m : M incoming A) : empty_stays m -> empty_stays (attempt m).
Proof. intros Hm n Hn. specialize (Hm n Hn). unfold attempt. by destruct (m n) as [[a|e|f] n']. Qed.

Lemma empty_stays_on_base {A} (m : M env A) : kept m -> empty_stays (on_base m).
Proof.
  intros Hm n Hn. unfold on_base, on. destruct (Hm (MkEnv (in_base n) (in_calls n))) as [_ H].
  destruct (m _) as [r v]. cbn in *. auto.
Qed.

Lemma empty_stays_on_async {A} k (m : M env A) : empty_stays (on_async k m).
Proof.
  intros n Hn. unfold on_async, the_async. unfold mbind, M_bind. cbn.
  destruct (in_asyncs n !! k) as [a|]; [|done]. cbn. by destruct (m _).
Qed.

Lemma empty_stays_claim k answer : empty_stays (claim callback k answer).
Proof.
  intros n Hn. unfold claim, the_async. unfold mbind, M_bind. cbn. destruct (in_asyncs n !! k) as [a|]; [|done]. cbn.
  destruct (_retriable a); [|done]. destruct (interceptors_allow _ _ _); [|done]. cbn. by destruct (_active a).
Qed.

Lemma empty_stays_the_async k : empty_stays (the_async k).
Proof. intros n Hn. unfold the_async. unfold mbind, M_bind. cbn. by destruct (in_asyncs n !! k). Qed.

Lemma empty_stays_ice_exception k e : empty_stays (ice_exception ue_write print locator_finished callback k e).
Proof.
  unfold ice_exception. apply empty_stays_bind; [apply empty_stays_claim|]. intros []; [|by intros n].
  apply empty_stays_bind; [apply empty_stays_the_async|]. intros a. destruct (_connection _); [|by intros n].
  apply empty_stays_on_async.
Qed.

Lemma empties_bind {A B} (m : M incoming A) (k : A -> M incoming B) :
  empties m -> (forall a, empty_stays (k a)) -> empties (mbind k m).
Proof.
  intros Hm Hk n b n'. unfold mbind, M_bind. destruct (m n) as [[a|e|f] n1] eqn:E1; [|done..]. intros E2.
  pose proof (Hk a n1 (Hm _ _ _ E1)) as H. by rewrite E2 in H.
Qed.

Lemma empties_later {A B} (m : M incoming A) (k : A -> M incoming B) : (forall a, empties (k a)) -> empties (mbind k m).
Proof. intros Hk n b n'. unfold mbind, M_bind. destruct (m n) as [[a|e|f] n1]; [apply Hk|done..]. Qed.

Lemma empties_async_new : empties (async_new new_stream).
Proof.
  intros n a n'. unfold async_new. unfold mbind, M_bind. cbn.
  case_bool_decide; [destruct (_cb n)|]; cbn; [done|by intros [= _ <-]..].
Qed.

(** The application may answer through its callback before it returns. *)
Lemma blobject_async_dispatch_lawful ice_invoke_async :
  (forall k bytes c, keeps (ice_invoke_async k bytes c)) -> (forall k bytes c, empty_stays (ice_invoke_async k bytes c)) ->
  lawful (blobject_async_dispatch ue_write print new_stream locator_finished callback ice_invoke_async).
Proof.
  intros H1 H2. assert (empties (blobject_async_dispatch ue_write print new_stream locator_finished callback
    ice_invoke_async)) as He.
  { apply empties_later. intros bytes. apply empties_bind; [apply empties_async_new|]. intros k.
    apply empty_stays_bind; [by intros n|]. intros n. apply empty_stays_bind; [|intros r].
    - by apply empty_stays_attempt.
    - apply empty_stays_bind; [|by intros _ m]. destruct r; [by intros m|apply empty_stays_ice_exception]. }
  split; [|intros n n' _ Hm; exact (He _ _ _ Hm)].
  unfold blobject_async_dispatch, readParamEncaps, current. keeping.
Qed.

(** A callback that cannot be killed has answered. *)
Lemma killAsync_sent n n' : inv n -> killAsync n = (Throw ResponseSentException, n') -> _connection (in_base n') = false.
Proof.
  intros [_ H]. unfold killAsync. unfold mbind, M_bind. cbn. destruct (_cb n) as [k|]; [|done].
  unfold deactivate, the_async. unfold mbind, M_bind. cbn. destruct (in_asyncs n !! k) as [a|]; [|done]. cbn.
  destruct (_retriable a); [|done]. destruct (_active a); [done|]. cbn. intros [= <-]. auto.
Qed.

(** The guarded part of an interceptor *)
Definition guarded (d : M incoming DispatchStatus) : M incoming DispatchStatus :=
  status ← d; (match status with DispatchAsync => mret tt | _ => killAsync end);; mret status.

Lemma guarded_cooperative d : cooperative d -> cooperative (guarded d).
Proof.
  intros [[H1 H2] H3]. split; [split|].
  - unfold guarded. keeping.
  - intros n n' Hn. unfold guarded. unfold mbind, M_bind. destruct (d n) as [[[]|e|f] n1] eqn:E1; [..|done|done].
    + by destruct (killAsync n1) as [[]?].
    + by destruct (killAsync n1) as [[]?].
    + intros [= <-]. exact (H2 n _ Hn E1).
  - intros n n' Hn. unfold guarded. unfold mbind, M_bind. pose proof (H1 n Hn) as Hn1.
    destruct (d n) as [[[]|e|f] n1] eqn:E1; [..|intros [= -> <-]; exact (H3 n _ Hn E1)|done].
    + destruct (killAsync n1) as [[]?] eqn:E2; [done| |done]. intros [= -> <-]. exact (killAsync_sent n1 _ Hn1 E2).
    + destruct (killAsync n1) as [[]?] eqn:E2; [done| |done]. intros [= -> <-]. exact (killAsync_sent n1 _ Hn1 E2).
    + done.
Qed.

(** An interceptor dispatches as often as it likes, and kills what still goes on. *)
Lemma interceptor_cooperative d : cooperative d -> cooperative (interceptor_dispatch d).
Proof.
  intros Hd. apply guarded_cooperative in Hd as [[H1 H2] H3]. fold (guarded d) in *.
  assert (forall n, inv n -> match interceptor_dispatch d n with
    | (Ok DispatchAsync, n') => _connection (in_base n') = false
    | (Throw e, _) => response_sent e = false | _ => True end) as H.
  { intros n Hn. unfold interceptor_dispatch. fold (guarded d). unfold mbind, M_bind, attempt.
    pose proof (H1 n Hn) as Hn1. destruct (guarded d n) as [[st|e|f] n1] eqn:E1; cbn in Hn1; [|..|done].
    - destruct st; [done..|exact (H2 n _ Hn E1)].
    - destruct (response_sent e) eqn:Ee; [destruct e; try done; exact (H3 n _ Hn E1)|].
      destruct (killAsync n1) as [[u|e'|f] n2] eqn:E2; [done| |done].
      destruct (response_sent e') eqn:Ee'; [|done]. destruct e'; try done. exact (killAsync_sent n1 _ Hn1 E2). }
  split; [split|].
  - unfold interceptor_dispatch. fold (guarded d). keeping.
  - intros n n' Hn E1. specialize (H n Hn). by rewrite E1 in H.
  - intros n n' Hn E1. specialize (H n Hn). by rewrite E1 in H.
Qed.

Lemma startOver_sent n n' : inv n -> startOver n = (Throw ResponseSentException, n') -> _connection (in_base n') = false.
Proof.
  intros Hn. unfold startOver. unfold mbind, M_bind. cbn. destruct (_inParamPos n) as [pos|]; [|done].
  destruct (killAsync n) as [[u|e|f] n1] eqn:E1; [| |done].
  - cbn. unfold on_base, on_os, on, rewind_os, resize. unfold mbind, M_bind. cbn. by destruct (_ && _).
  - intros [= -> <-]. exact (killAsync_sent n _ Hn E1).
Qed.

(** A request that is passed on to a servant *)
Lemma ice_dispatch_cooperative d cb : cooperative d -> cooperative (ice_dispatch d cb).
Proof.
  intros [[H1 H2] H3].
  assert (cooperative (startOver;; d)) as [[G1 G2] G3].
  { split; [split|].
    - keeping.
    - intros n n' Hn. unfold mbind, M_bind. pose proof (keeps_startOver n Hn) as Hn1.
      destruct (startOver n) as [[u|e|f] n1]; [by apply H2|done..].
    - intros n n' Hn. unfold mbind, M_bind. pose proof (keeps_startOver n Hn) as Hn1.
      destruct (startOver n) as [[u|e|f] n1] eqn:E1; [by apply H3|intros [= -> <-]; exact (startOver_sent n _ Hn E1)|done]. }
  destruct cb as [cb|]; [|done].
  assert (forall n, inv n -> match ice_dispatch d (Some cb) n with
    | (Ok DispatchAsync, n') | (Throw ResponseSentException, n') => _connection (in_base n') = false | _ => True end) as H.
  { intros n Hn. unfold ice_dispatch, attempt. unfold mbind at 1, M_bind at 1. pose proof (keeps_push cb n Hn) as Hn1.
    destruct (push cb n) as [[u|e|f] n1] eqn:Ep; [|done..]. cbn in Hn1. clear Ep. unfold mbind at 1, M_bind at 1.
    specialize (G2 n1). specialize (G3 n1).
    destruct ((startOver;; d) n1) as [[st|e|f] n2] eqn:E1; [| |done].
    - destruct st; [done..|]. exact (G2 _ Hn1 eq_refl).
    - destruct e; try done. exact (G3 _ Hn1 eq_refl). }
  split; [split|].
  - unfold ice_dispatch. keeping.
  - intros n n' Hn E1. specialize (H n Hn). by rewrite E1 in H.
  - intros n n' Hn E1. specialize (H n Hn). by rewrite E1 in H.
Qed.

(** ** One request *)

Section requests.
Context (servant_dispatch : Object -> M incoming DispatchStatus).
Context (servants : forall sv, lawful (servant_dispatch sv)).
Local Abbreviation dispatch_body := (dispatch_body ue_write print locator_finished servant_dispatch).
Local Abbreviation dispatch_request := (dispatch_request ue_write print locator_finished servant_dispatch).
Local Abbreviation invoke := (invoke ue_write print locate locator_finished servant_dispatch).

(** Whether the right is still with the Incoming when [m] has ended: [Q] for a
    result, [T] for an exception *)
Definition ends {A} (m : M incoming A) (Q : A -> bool -> Prop) (T : bool -> Prop) n : Prop :=
  match m n with
  | (Ok a, n') => inv n' /\ Q a (_connection (in_base n'))
  | (Throw _, n') => inv n' /\ T (_connection (in_base n'))
  | (Fault _, _) => True
  end.

Lemma ends_bind {A B} (m : M incoming A) (k : A -> M incoming B) Q Q' T n : ends m Q T n ->
  (forall a n', inv n' -> Q a (_connection (in_base n')) -> ends (k a) Q' T n') -> ends (mbind k m) Q' T n.
Proof.
  unfold ends at 1, ends at 2, mbind, M_bind. intros Hm Hk. destruct (m n) as [[a|e|x] n']; [|done..].
  destruct Hm. by apply Hk.
Qed.

Lemma ends_ret {A} (a : A) (Q : A -> bool -> Prop) T n : inv n -> Q a (_connection (in_base n)) -> ends (mret a) Q T n.
Proof. by split. Qed.

Lemma ends_weaken {A} (m : M incoming A) (Q Q' : A -> bool -> Prop) (T T' : bool -> Prop) n : ends m Q T n ->
  (forall a b, Q a b -> Q' a b) -> (forall b, T b -> T' b) -> ends m Q' T' n.
Proof. unfold ends. intros H HQ HT. destruct (m n) as [[a|e|x] n']; naive_solver. Qed.

Lemma ends_keeps {A} (m : M incoming A) n : keeps m -> inv n -> ends m (fun _ _ => True) (fun _ => True) n.
Proof. intros Hm Hn. unfold ends. specialize (Hm n Hn). by destruct (m n) as [[a|e|x] n']. Qed.

(** An operation that leaves the right where it is *)
Lemma ends_frame {A} (m : M incoming A) n : keeps m -> frame (fun n => _connection (in_base n)) m -> inv n ->
  ends m (fun _ b => b = _connection (in_base n)) (fun b => b = _connection (in_base n)) n.
Proof.
  intros Hm Hf Hn. unfold ends. specialize (Hm n Hn). specialize (Hf n). by destruct (m n) as [[a|e|x] n'].
Qed.

Lemma frame_on_is {A} (m : M stream A) : frame (fun n : incoming => _connection (in_base n)) (on_is m).
Proof. intros n. unfold on_is, on. by destruct (m (_is n)). Qed.

Lemma frame_change_base (f : Base -> Base) : (forall x, _connection (f x) = _connection x) ->
  frame (fun n => _connection (in_base n)) (change_base f).
Proof. intros Hf n. apply Hf. Qed.

Lemma frame_on_manager {A} (m : M _ A) : frame (fun n : incoming => _connection (in_base n)) (on_manager m).
Proof.
  intros n. unfold on_manager. unfold mbind, M_bind. cbn. destruct (in_manager n) as [mgr|]; [|done].
  destruct (m mgr) as [[a|e|x] mgr']; done.
Qed.

Lemma keeps_on_manager {A} (m : M _ A) : keeps (on_manager m).
Proof.
  intros n [H1 H2]. unfold on_manager. unfold mbind, M_bind. cbn. destruct (in_manager n) as [mgr|]; [|by split].
  destruct (m mgr) as [[a|e|x] mgr']; by split.
Qed.

(** Of the operations of both kinds of objects *)
Definition env_ends {A} (m : M env A) (Q : A -> bool -> Prop) (T : bool -> Prop) v : Prop :=
  match m v with
  | (Ok a, v') => Q a (_connection (base v'))
  | (Throw _, v') => T (_connection (base v'))
  | (Fault _, _) => True
  end.

Lemma ends_on_base {A} (m : M env A) Q T n : kept m -> env_ends m Q T (MkEnv (in_base n) (in_calls n)) -> inv n ->
  ends (on_base m) Q T n.
Proof.
  intros Hk He Hn. pose proof (keeps_on_base m Hk n Hn) as H. unfold ends, env_ends, on_base, on in *.
  by destruct (m _) as [[a|e|x] v].
Qed.

Lemma respond_ends w v : _connection (base v) = true ->
  env_ends (respond w;; change (set_connection false)) (fun _ b => b = false) (fun b => b = true) v.
Proof.
  intros Hc. unfold env_ends, respond, send_response, send_no_response, on_os, on. unfold mbind, M_bind. cbn.
  destruct (_response (base v)); cbn.
  - destruct (w _) as [[u|e|x] os]; cbn; [|done..]. by rewrite Hc.
  - by rewrite Hc.
Qed.

Lemma handleException_ends e v : env_ends (handleException e) (fun _ b => b = false) (fun b => b = true) v.
Proof.
  unfold env_ends, Dispatch.handleException. unfold mbind at 1, M_bind at 1. cbn [get].
  destruct (_connection (base v)) eqn:Hc; [|done]. unfold mbind at 1, M_bind at 1. cbn [assertM mret M_ret].
  exact (respond_ends _ v Hc).
Qed.

Lemma reply_ends v : env_ends reply (fun _ b => b = false) (fun b => b = true) v.
Proof.
  unfold env_ends, reply, send_response, send_no_response. unfold mbind, M_bind. cbn.
  destruct (_response (base v)), (_connection (base v)) eqn:Hc; cbn; rewrite ?Hc; done.
Qed.

Lemma env_ends_bind {A B} (m : M env A) (k : A -> M env B) Q Q' T v : env_ends m Q T v ->
  (forall a v', Q a (_connection (base v')) -> env_ends (k a) Q' T v') -> env_ends (mbind k m) Q' T v.
Proof. unfold env_ends at 1, env_ends at 2, mbind, M_bind. intros Hm Hk. destruct (m v) as [[a|e|x] v']; [by apply Hk|done..]. Qed.

Lemma env_ends_weaken {A} (m : M env A) (Q Q' : A -> bool -> Prop) T v : env_ends m Q T v ->
  (forall a b, Q a b -> Q' a b) -> env_ends m Q' T v.
Proof. unfold env_ends. intros Hm HQ. destruct (m v) as [[a|e|x] v']; auto. Qed.

(** While the object holds the right *)
Lemma env_ends_on_os {A} (m : M stream A) v : _connection (base v) = true ->
  env_ends (on_os m) (fun _ b => b = true) (fun b => b = true) v.
Proof. intros Hc. unfold env_ends, on_os, on. by destruct (m _) as [[a|e|x] os]. Qed.

Lemma env_ends_sent {A} (a : A) (m : M env unit) v : _connection (base v) = true -> m = send_response \/ m = send_no_response ->
  env_ends (m;; change (set_connection false);; mret a) (fun r b => r = a /\ b = false) (fun b => b = true) v.
Proof.
  intros Hc [-> | ->]; unfold env_ends, send_response, send_no_response; unfold mbind, M_bind; cbn; by rewrite Hc.
Qed.

Lemma env_ends_assoc {A B C} (m : M env A) (k : A -> M env B) (h : B -> M env C) Q T v :
  env_ends (mbind (fun a => mbind h (k a)) m) Q T v -> env_ends (mbind h (mbind k m)) Q T v.
Proof. unfold env_ends, mbind, M_bind. by destruct (m v) as [[a|e|f] v']. Qed.

(** The reply with a user exception *)
Lemma user_reply_ends ex (response : bool) v : _connection (base v) = true -> env_ends
  ((if response then
      on_os rewind_os;; on_os (write_Byte (chr replyUserException));;
      enc ← known_encoding;
      on_os (startWriteEncaps enc DefaultFormat;; ue_write ex;; endWriteEncaps);;
      send_response
    else send_no_response);; change (set_connection false);; mret false)
  (fun r b => r = false /\ b = false) (fun b => b = true) v.
Proof.
  intros Hc. destruct response; [|apply env_ends_sent; auto].
  apply env_ends_assoc, env_ends_bind with (Q := fun _ b => b = true); [by apply env_ends_on_os|intros _ v1 H1].
  apply env_ends_assoc, env_ends_bind with (Q := fun _ b => b = true); [by apply env_ends_on_os|intros _ v2 H2].
  apply env_ends_assoc, env_ends_bind with (Q := fun _ b => b = true).
  { unfold env_ends, known_encoding. unfold mbind, M_bind. cbn. by destruct (c_encoding _). }
  intros enc v3 H3.
  apply env_ends_assoc, env_ends_bind with (Q := fun _ b => b = true); [by apply env_ends_on_os|intros _ v4 H4].
  apply env_ends_sent; auto.
Qed.

Lemma servantLocatorFinished_ends v : env_ends servantLocatorFinished
  (fun ok b => if ok then b = _connection (base v) else b = false) (fun b => b = true) v.
Proof.
  unfold Dispatch.servantLocatorFinished.
  apply env_ends_bind with (Q := fun a b => a = v /\ b = _connection (base v)); [done|]. intros v0 v1 [-> H1].
  destruct (_locator (base v)) as [l|]; [|done]. destruct (_servant (base v)) as [sv|]; [|done].
  apply env_ends_bind with (Q := fun _ b => b = _connection (base v)); [done|]. intros _ v2 H2.
  assert (forall ex, env_ends (handleException ex;; mret false)
    (fun ok b => if ok then b = _connection (base v) else b = false) (fun b => b = true) v2) as Hh.
  { intros ex. eapply env_ends_bind; [apply handleException_ends|]. by intros [] v3 ?. }
  destruct (locator_finished _ _ _ _) as [u|e|f]; [done| |done]. destruct e; try apply Hh.
  destruct (_connection (base v)) eqn:Hc; [|done].
  apply env_ends_bind with (Q := fun _ b => b = true); [done|]. intros _ v3 H3.
  eapply env_ends_weaken; [exact (user_reply_ends ex (_response (base v)) v3 H3)|].
  by intros ok c' [-> ->].
Qed.

(** Dispatching ends with the right used or passed on, whatever happened before. *)
Lemma keeps_dispatch_body : keeps dispatch_body.
Proof.
  unfold Dispatch.dispatch_body, not_found, current. keeping; try apply keeps_on_manager. apply lawful_keeps, servants.
Qed.

Lemma dispatch_body_ends n : inv n ->
  ends dispatch_body (fun answered b => answered = true -> b = false) (fun _ => True) n.
Proof.
  intros Hn. unfold Dispatch.dispatch_body. apply ends_bind with (Q := fun _ _ => True); [by apply ends_keeps; [apply keeps_get|]|].
  intros n0 n1 Hn1 _. destruct (_servant (in_base n0)) as [sv|].
  - apply ends_bind with (Q := fun st b => st = DispatchAsync -> b = false).
    + unfold ends. pose proof (lawful_keeps _ (servants sv) n1 Hn1) as H1. pose proof (lawful_async _ (servants sv) n1) as H2.
      destruct (servant_dispatch sv n1) as [[st|e|f] n2]; [|done..]. split; [done|]. intros ->. by apply H2.
    + intros st n2 Hn2 Hst. assert (ends (n ← get; match _locator (in_base n) with
        | Some _ => ok ← on_base servantLocatorFinished; mret (negb ok) | None => mret false end)
        (fun answered b => answered = true -> b = false) (fun _ => True) n2) as H.
      { apply ends_bind with (Q := fun _ _ => True); [by apply ends_keeps; [apply keeps_get|]|]. intros n3 n4 Hn4 _.
        destruct (_locator (in_base n3)); [|by apply ends_ret].
        eapply ends_bind; [eapply ends_weaken; [apply ends_on_base; [apply kept_servantLocatorFinished|
          apply servantLocatorFinished_ends|done]|intros a b0 Ha; exact Ha|done]|].
        intros [] n5 Hn5 Hb; apply ends_ret; cbn in *; auto; done. }
      destruct st; [exact H..|]. apply ends_ret; auto.
  - apply ends_bind with (Q := fun _ _ => True); [by apply ends_keeps; [apply keeps_on_is|]|]. intros _ n2 Hn2 _.
    unfold current. unfold ends. unfold mbind at 1, M_bind at 1. cbn [mbind M_bind get mret M_ret].
    pose proof (keeps_on_manager (hasServant (c_id (_current (in_base n2)))) n2 Hn2) as H.
    unfold mbind, M_bind. cbn. destruct (on_manager _ n2) as [[a|e|f] n3]; done.
Qed.

Lemma dispatch_failed_ends e n : inv n ->
  ends (dispatch_failed ue_write print locator_finished e) (fun _ b => b = false) (fun b => b = true) n.
Proof.
  intros Hn. unfold dispatch_failed. apply ends_bind with (Q := fun _ _ => True).
  { split; [done|]. done. }
  intros n0 n1 Hn1 _. apply ends_bind with (Q := fun (ok : bool) b => ok = false -> b = false).
  - destruct (_servant (in_base n0)); [|by apply ends_ret]. destruct (_locator (in_base n0)); [|by apply ends_ret].
    eapply ends_weaken; [apply ends_on_base; [apply kept_servantLocatorFinished|apply servantLocatorFinished_ends|done]|..|done].
    intros [] b; cbn; auto; done.
  - intros [] n2 Hn2 Hb; [|apply ends_ret; auto].
    apply ends_on_base; [apply kept_handleException|apply handleException_ends|done].
Qed.

Lemma dispatch_request_ends n : inv n -> ends dispatch_request (fun _ b => b = false) (fun b => b = true) n.
Proof.
  intros Hn. unfold Dispatch.dispatch_request.
  apply ends_bind with (Q := fun r b => r = inl true -> b = false).
  - pose proof (dispatch_body_ends n Hn) as H. unfold ends, attempt in *.
    destruct (dispatch_body n) as [[a|e|f] n']; [|by destruct H|done]. destruct H as [H1 H2]. split; [done|].
    intros [= ->]. auto.
  - intros [[]|e] n' Hn' Hb; [by apply ends_ret; auto| |by apply dispatch_failed_ends].
    apply ends_on_base; [apply kept_reply|apply reply_ends|done].
Qed.

Lemma ask_locator_ends l n : inv n -> _connection (in_base n) = true ->
  ends (ask_locator ue_write print locate l) (fun answered b => b = negb answered) (fun b => b = true) n.
Proof.
  intros Hn Hc. unfold ask_locator.
  apply ends_bind with (Q := fun _ b => b = true).
  { eapply ends_weaken; [apply ends_frame; [by apply keeps_change_base|by apply frame_change_base|done]|..]; cbn; congruence. }
  intros _ n1 Hn1 Hc1. apply ends_bind with (Q := fun _ b => b = true); [by split|]. intros c n2 Hn2 Hc2.
  assert (forall A (m : M stream A) Q (k : A -> M incoming bool), (forall a n', inv n' -> _connection (in_base n') = true ->
    ends (k a) Q (fun b => b = true) n') -> ends (mbind k (on_is m)) Q (fun b => b = true) n2) as Hskip.
  { intros A m Q k Hk. apply ends_bind with (Q := fun _ b => b = true); [|exact Hk].
    eapply ends_weaken; [apply ends_frame; [apply keeps_on_is|apply frame_on_is|done]|..]; cbn; congruence. }
  assert (forall e n', inv n' -> ends (on_base (handleException e);; mret true) (fun answered b => b = negb answered)
    (fun b => b = true) n') as Hraise.
  { intros e n' Hn'. eapply ends_bind; [apply ends_on_base; [apply kept_handleException|apply handleException_ends|done]|].
    intros [] n3 Hn3 Hb. by apply ends_ret. }
  destruct (locate l c) as [[sv cookie]|e|f]; [|destruct e; try (apply Hskip; intros; by apply Hraise)|done].
  - apply ends_bind with (Q := fun _ b => b = true).
    { eapply ends_weaken; [apply ends_frame; [by apply keeps_change_base|by apply frame_change_base|done]|..]; cbn; congruence. }
    intros _ n3 Hn3 Hc3. apply ends_bind with (Q := fun _ b => b = true); [|by intros _ n4 ? ?; apply ends_ret].
    eapply ends_weaken; [apply ends_frame; [by apply keeps_change_base|by apply frame_change_base|done]|..]; cbn; congruence.
  - apply Hskip. intros enc n3 Hn3 Hc3. eapply ends_bind; [apply ends_on_base; [|by apply respond_ends|done]|].
    + apply kept_no_result, kept_assoc, kept_responded.
    + intros [] n4 Hn4 Hb. by apply ends_ret.
Qed.

Lemma ends_pure {A B} (m : M incoming A) (k : A -> M incoming B) Q n : keeps m ->
  frame (fun n => _connection (in_base n)) m -> inv n -> _connection (in_base n) = true ->
  (forall a n', inv n' -> _connection (in_base n') = true -> ends (k a) Q (fun b => b = true) n') ->
  ends (mbind k m) Q (fun b => b = true) n.
Proof.
  intros Hm Hf Hn Hc Hk. apply ends_bind with (Q := fun _ b => b = true); [|exact Hk].
  eapply ends_weaken; [by apply ends_frame|..]; cbn; congruence.
Qed.

Lemma find_locator_ends category n : inv n -> _connection (in_base n) = true ->
  ends (find_locator category) (fun _ b => b = true) (fun b => b = true) n.
Proof.
  intros Hn Hc. unfold find_locator. apply ends_pure; [apply keeps_on_manager|apply frame_on_manager|done..|].
  intros l n1 Hn1 Hc1. destruct l as [[l|]|]; [by apply ends_ret| |by apply ends_ret].
  destruct (negb _); [|by apply ends_ret]. apply ends_pure; [apply keeps_on_manager|apply frame_on_manager|done..|].
  intros l n2 Hn2 Hc2. by apply ends_ret.
Qed.

Lemma find_servant_ends n : inv n -> _connection (in_base n) = true ->
  ends (find_servant ue_write print locate) (fun answered b => b = negb answered) (fun b => b = true) n.
Proof.
  intros Hn Hc. unfold find_servant, current. apply ends_pure; [by intros n0 ?|by intros n0|done..|].
  intros c n1 Hn1 Hc1. apply ends_pure; [apply keeps_on_manager|apply frame_on_manager|done..|].
  intros [[sv|]|] n2 Hn2 Hc2; [..|by apply ends_ret].
  - apply ends_pure; [by apply keeps_change_base|by apply frame_change_base|done..|]. intros _ n3 Hn3 Hc3. by apply ends_ret.
  - eapply ends_bind; [by apply find_locator_ends|]. intros [l|] n3 Hn3 Hc3; [by apply ask_locator_ends|by apply ends_ret].
Qed.

(** [invoke] leaves nothing to be done when it returns, and everything when it throws. *)
Lemma invoke_ends n : inv n -> _connection (in_base n) = true ->
  ends invoke (fun _ b => b = false) (fun b => b = true) n.
Proof.
  intros Hn Hc. unfold Dispatch.invoke. apply ends_pure; [by intros n0 ?|by intros n0|done..|]. intros n0 n1 Hn1 Hc1.
  apply ends_pure; [apply keeps_on_is|apply frame_on_is|done..|]. intros c n2 Hn2 Hc2.
  apply ends_pure; [by apply keeps_change_base|by apply frame_change_base|done..|]. intros _ n3 Hn3 Hc3.
  eapply ends_bind; [by apply find_servant_ends|]. intros [] n4 Hn4 Hb; [by apply ends_ret|by apply dispatch_request_ends].
Qed.

(** ** The requests of a message *)

Local Abbreviation dispatches := (@Dispatches D E Object ServantLocator Cookie Callback).

Lemma settled_inv n : inv n -> _connection (in_base n) = false -> settled n.
Proof. intros [H _] Hc. split; [done|]. unfold token, owns in H. rewrite Hc in H. cbn in H. lia. Qed.

Lemma unanswered_inv n : inv n -> _connection (in_base n) = true -> unanswered n.
Proof. intros [H _] Hc. split; [done|]. unfold token, owns in H. rewrite Hc in H. cbn in H. lia. Qed.

Lemma inv_incoming_new requestId response compress input manager :
  inv (incoming_new new_stream requestId response compress input manager).
Proof. split; [done|]. by intros [? [=]]. Qed.

Lemma construct_ends n : inv n -> _connection (in_base n) = true ->
  ends construct_incoming (fun _ b => b = true) (fun b => b = true) n.
Proof.
  intros Hn Hc. unfold construct_incoming. apply ends_pure; [by intros n0 ?|by intros n0|done..|]. intros n0 n1 Hn1 Hc1.
  destruct (_response _); [|by apply ends_ret]. apply ends_on_base; [apply kept_on_os| |done]. by apply env_ends_on_os.
Qed.

(** One more Incoming, which has settled its request, or has thrown without an answer *)
Lemma invoke_one_ok response requestId compress (d : dispatches) :
  match invoke_one ue_write print new_stream locate locator_finished servant_dispatch response requestId compress d with
  | (Ok _, d') => exists n, settled n /\ d_incoming d' = d_incoming d ++ [n] /\ d_invokeNum d' = d_invokeNum d /\ d_failed d' = d_failed d
  | (Throw _, d') => exists n, unanswered n /\ d_incoming d' = d_incoming d ++ [n] /\ d_invokeNum d' = d_invokeNum d /\ d_failed d' = d_failed d
  | (Fault _, _) => True
  end.
Proof.
  unfold invoke_one. set (n0 := incoming_new _ _ _ _ _ _).
  assert (ends (construct_incoming;; invoke) (fun _ b => b = false) (fun b => b = true) n0) as H.
  { apply ends_bind with (Q := fun _ b => b = true); [by apply construct_ends; [apply inv_incoming_new|]|].
    intros _ n1 Hn1 Hc1. by apply invoke_ends. }
  unfold ends in H. destruct ((construct_incoming;; invoke) n0) as [[u|e|f] n]; [..|done]; destruct H as [Hn Hc]; exists n.
  - split; [by apply settled_inv|done].
  - split; [by apply unanswered_inv|done].
Qed.

(** The requests of a message from [d] to [d']: those that were dispatched
    before the first that threw are settled, and the exception is told with the
    number of those that are left, the one that threw included. *)
Definition settles (r : result unit) (d d' : dispatches) : Prop :=
  exists ns, Forall settled ns /\
    ((r = Ok tt /\ d_incoming d' = d_incoming d ++ ns /\ d_invokeNum d = Z.of_nat (length ns) /\ d_failed d' = []) \/
     (exists e n, unanswered n /\ d_incoming d' = d_incoming d ++ ns ++ [n] /\
        Z.of_nat (length ns) < d_invokeNum d /\
        if is_local e then r = Ok tt /\ d_failed d' = [(e, d_invokeNum d - Z.of_nat (length ns))]
        else r = Throw e /\ d_failed d' = [])).

Lemma invoke_loop_ok fuel datagram requestId compress (d : dispatches) : d_invokeNum d = Z.of_nat fuel -> d_failed d = [] ->
  match invoke_loop ue_write print new_stream locate locator_finished servant_dispatch fuel datagram requestId compress d with
  | (Ok _, d') => exists ns, Forall settled ns /\ d_incoming d' = d_incoming d ++ ns /\ length ns = fuel /\ d_failed d' = []
  | (Throw _, d') => exists ns n, Forall settled ns /\ unanswered n /\ d_incoming d' = d_incoming d ++ ns ++ [n] /\
      (length ns < fuel)%nat /\ d_invokeNum d' = d_invokeNum d - Z.of_nat (length ns) /\ d_failed d' = []
  | (Fault _, _) => True
  end.
Proof.
  revert d. induction fuel as [|fuel IH]; intros d Hd Hf; cbn [invoke_loop]; unfold mbind at 1, M_bind at 1; cbn [get].
  { rewrite Hd. cbn. exists []. by rewrite app_nil_r. }
  rewrite (proj2 (Z.ltb_lt 0 (d_invokeNum d))) by lia. unfold assertM. destruct (_ || _); [|done].
  unfold mret, M_ret. unfold mbind at 1, M_bind at 1. unfold mbind at 1, M_bind at 1. pose proof (invoke_one_ok (negb datagram && negb (requestId =? 0)) requestId compress d) as H1.
  destruct (invoke_one _ _ _ _ _ _ _ _ _ d) as [[u|e|f] d1]; [|..|done]; destruct H1 as (n & Hn & Hi & Hk & Hff).
  - unfold mbind at 1, M_bind at 1. cbn [modify]. set (d2 := MkDispatches _ _ _ _ _). specialize (IH d2 ltac:(cbn; lia) ltac:(cbn; congruence)).
    destruct (invoke_loop _ _ _ _ _ _ fuel _ _ _ d2) as [[u2|e|f] d3].
    + destruct IH as (ns & Hns & Hi2 & Hl & Hf2). exists (n :: ns). cbn in Hi2. rewrite Hi2, Hi, <- app_assoc. cbn. by split_and!; [constructor|..|lia|].
    + destruct IH as (ns & n2 & Hns & Hn2 & Hi2 & Hl & Hk2 & Hf2). exists (n :: ns), n2. cbn in Hi2, Hk2. rewrite Hi2, Hi, <- app_assoc. cbn. split_and!; [by constructor|done..|lia|lia|done].
    + done.
  - exists [], n. rewrite Hi. cbn. split_and!; [done..|lia|lia|congruence].
Qed.

(** C11. Every request of a message is answered once: whatever the servants, servant
    locators and interceptors do, a request that was dispatched has been answered or
    belongs to the one asynchronous callback that will answer it, and when a request
    throws out of its dispatch, the connection is told the exception with the number
    of requests that are left. Servants are those of the runtime or any that keep to
    what the Incoming offers them; runs that fail an assertion or read an encoding
    that was never set are left out. *)
Theorem invokeAll_settles datagram requestId compress (d d' : dispatches) r : 0 <= d_invokeNum d -> d_failed d = [] ->
  invokeAll ue_write print new_stream locate locator_finished servant_dispatch datagram requestId compress d = (r, d') ->
  (forall f, r <> Fault f) -> settles r d d'.
Proof.
  intros Hd Hf. unfold invokeAll, try_local. unfold mbind at 1, M_bind at 1. cbn [get].
  pose proof (invoke_loop_ok (Z.to_nat (d_invokeNum d)) datagram requestId compress d ltac:(lia) Hf) as H.
  unfold mbind at 1, M_bind at 1. destruct (invoke_loop _ _ _ _ _ _ _ _ _ _ d) as [[u|e|f] d1].
  - destruct H as (ns & Hns & Hi & Hl & Hf1). intros [= <- <-] _. exists ns. split; [done|]. left. cbn. split_and!; [done..|lia|done].
  - destruct H as (ns & n & Hns & Hn & Hi & Hl & Hk & Hf1). destruct (is_local e) eqn:Ee.
    + intros [= <- <-] _. exists ns. split; [done|]. right. exists e, n. cbn. rewrite Ee, Hf1, Hk. split_and!; [done..|lia|done|done].
    + intros [= <- <-] _. exists ns. split; [done|]. right. exists e, n. rewrite Ee. split_and!; [done..|lia|done|done].
  - intros [= <- <-] Hff. by destruct (Hff f).
Qed.
End requests.
End spec.

(** ** A batch of three requests *)

Module SampleBatch.

(** The operation [op] of the objects [x], [z] and [x], with empty parameters:
    there is no object [z]. *)
Definition request (name : Z) : list byte := chr <$> [1; name; 0; 0; 2; 111; 112; 0; 0; 6; 0; 0; 0; 1; 1].
Definition input : BasicStream unit unit :=
  stream_over Encoding_1_1 100 (request 120 ++ request 122 ++ request 120) 4096 None Sample.doubling.
Definition reply_stream : BasicStream unit unit := stream_new Encoding_1_1 100 false None Sample.doubling.

Definition manager : ServantManager :=
  (addServant (ServantLocator := unit) None tt (MkIdentity (lit "x") []) [] manager_new).2.
Definition requests (bytes : BasicStream unit unit) : Dispatches (Cookie := unit) (Callback := unit) :=
  MkDispatches bytes (Some manager) 3 [] [].

(** A servant that answers with no results *)
Definition dispatch (sv : unit) : M (@Incoming unit unit unit unit unit unit) DispatchStatus :=
  blobject_dispatch (PL := Sample.x86) (fun _ _ => Ok (true, [])).

Definition run (bytes : BasicStream unit unit) : result unit * @Dispatches unit unit unit unit unit unit :=
  invokeAll (PL := Sample.x86) (fun _ => mret tt) (fun _ => []) reply_stream
    (fun _ _ => Ok (None, tt)) (fun _ _ _ _ => Ok tt) dispatch false 0 (chr 0) (requests bytes).
End SampleBatch.

Example batch_dispatched : in_calls <$> d_incoming (SampleBatch.run SampleBatch.input).2 =
  [[SendNoResponse]; [SendNoResponse]; [SendNoResponse]].
Proof. by vm_compute. Qed.

Lemma invokeAll_settles_witness :
  settles (Ok tt) (SampleBatch.requests SampleBatch.input) (SampleBatch.run SampleBatch.input).2.
Proof.
  apply (invokeAll_settles (PL := Sample.x86) (fun _ => mret tt) (fun _ => [])
    SampleBatch.reply_stream (fun _ _ => Ok (None, tt)) (fun _ _ _ _ => Ok tt) SampleBatch.dispatch
    (fun _ => blobject_dispatch_lawful (PL := Sample.x86) (fun _ _ => Ok (true, [])))
    false 0 (chr 0) (SampleBatch.requests SampleBatch.input)); [done|done|by vm_compute|done].
Defined.

(** ** Reading a request from arbitrary bytes

    Whatever a peer sends, reading the header of a request stays in the
    buffer and ends with a request or an exception. A string converter may
    throw, as the ones of the application do. *)

Section read.
Context `{PL : Platform} {D E : Type} `{CO : Coders D E}.
Local Abbreviation stream := (BasicStream D E).
Implicit Types s : stream.

Definition sound s : Prop :=
  in_bounds s /\
  match stringConverter s with Some conv => forall bs f, fromUTF8 conv bs <> Fault f | None => True end.

(** [m] ends in a sound stream with the same bytes *)
Definition total {A} (m : M stream A) : Prop := forall s, sound s ->
  wp m (fun _ s' => sound s' /\ b s' = b s) (fun _ s' => sound s' /\ b s' = b s) s.

Lemma total_ret {A} (a : A) : total (mret a).
Proof. by intros s. Qed.
Lemma total_throw {A} e : total (throw (A := A) e).
Proof. by intros s. Qed.

Lemma total_bind {A B} (m : M stream A) (k : A -> M stream B) : total m -> (forall a, total (k a)) -> total (mbind k m).
Proof.
  intros Hm Hk s Hs. apply wp_bind. eapply wp_conseq; [by apply Hm| |done]. cbn. intros a s1 [H1 E1].
  eapply wp_conseq; [by apply Hk|..]; cbn; intros ? s2 []; split; congruence.
Qed.

Lemma sound_set_i s n : sound s -> (n <= length (remaining s))%nat -> sound (set_i (i s + Z.of_nat n) s).
Proof. intros [H1 H2] Hn. split; [by apply in_bounds_set_i|done]. Qed.

Lemma total_read_Byte : total read_Byte.
Proof.
  intros s Hs. unfold wp. rewrite read_Byte_any by apply Hs. destruct (remaining s) as [|c l] eqn:E1; [done|].
  split; [|done]. apply (sound_set_i s 1); [done|]. rewrite E1. cbn. lia.
Qed.

Lemma total_read_Int : total read_Int.
Proof.
  intros s Hs. unfold wp, read_Int. rewrite read_scalar_any by apply Hs. destruct (_ <? _)%nat eqn:E1; [done|].
  bool_to_prop. split; [|done]. by apply sound_set_i.
Qed.

Lemma total_readSize : total readSize.
Proof.
  intros s Hs. unfold wp. rewrite readSize_any by apply Hs. pose proof (size_at_length (remaining s)).
  destruct (snd _); (split; [|done]); by apply sound_set_i.
Qed.

Lemma wp_bytes_at s n : sound s -> Z.of_nat n <= b_end s - i s ->
  wp (bytes_at (i s) n) (fun _ s' => s' = s) (fun _ s' => s' = s) s.
Proof.
  intros Hs Hn. pose proof (length_remaining s (proj1 Hs)). unfold wp. rewrite bytes_at_prefix; [done|apply Hs|lia].
Qed.

Lemma total_read_string convert : total (read_string convert).
Proof.
  unfold read_string. apply total_bind; [apply total_readSize|]. intros sz. destruct (0 <? sz) eqn:E0; [|apply total_ret].
  bool_to_prop. intros s Hs. apply wp_bind, wp_get. destruct (_ <? _) eqn:E1; [done|]. bool_to_prop.
  pose proof (length_remaining s (proj1 Hs)) as Hl.
  assert (wp (if convert && bool_decide (is_Some (stringConverter s)) then readConverted sz else bytes_at (i s) (Z.to_nat sz))
    (fun _ s' => s' = s) (fun _ s' => s' = s) s) as Hm.
  { destruct (convert && _) eqn:Ec; [|apply wp_bytes_at; [done|lia]]. apply andb_true_iff in Ec as [_ Ec].
    apply bool_decide_eq_true in Ec as [conv Ec]. unfold readConverted. apply wp_bind, wp_get. rewrite Ec.
    apply wp_bind. eapply wp_conseq; [by apply wp_bytes_at; [|lia]| |done]. intros bs s' ->. apply wp_lift.
    destruct Hs as [_ Hc]. rewrite Ec in Hc. specialize (Hc bs). destruct (fromUTF8 conv bs); [done..|]. by apply (Hc f). }
  apply wp_bind. eapply wp_conseq; [exact Hm| |by intros e s' ->]. intros v s' ->.
  apply wp_bind, wp_modify, wp_ret. split; [|done]. replace sz with (Z.of_nat (Z.to_nat sz)) by lia.
  apply sound_set_i; [done|lia].
Qed.

Lemma total_read_each {A} (m : M stream A) n : total m -> total (read_each m n).
Proof.
  intros Hm. induction n as [|n IH]; [apply total_ret|]. cbn [read_each].
  apply total_bind; [done|]. intros x. apply total_bind; [done|]. intros l. apply total_ret.
Qed.

Lemma total_modify (f : stream -> stream) : (forall s, sound s -> sound (f s) /\ b (f s) = b s) -> total (modify f).
Proof. intros Hf s Hs. apply wp_modify. by apply Hf. Qed.

Lemma total_get_bind {A} (k : stream -> M stream A) : (forall s, total (k s)) -> total (s ← get; k s).
Proof. intros Hk s Hs. apply wp_bind, wp_get. by apply Hk. Qed.

Lemma total_readAndCheckSeqSize w : total (readAndCheckSeqSize w).
Proof.
  unfold readAndCheckSeqSize. apply total_bind; [apply total_readSize|]. intros sz. destruct (sz =? 0); [apply total_ret|].
  apply total_get_bind. intros s. apply total_bind; [destruct (_ || _); by apply total_modify|]. intros _.
  apply total_get_bind. intros s'. destruct (_ <? _); [apply total_throw|apply total_ret].
Qed.

Lemma total_read_StringSeq convert : total (read_StringSeq convert).
Proof.
  unfold read_StringSeq. apply total_bind; [apply total_readAndCheckSeqSize|]. intros sz.
  destruct (0 <? sz); [apply total_read_each, total_read_string|apply total_ret].
Qed.

Lemma total_read_context n ctx : total (read_context n ctx).
Proof.
  revert ctx. induction n as [|n IH]; intros ctx; [apply total_ret|]. cbn [read_context].
  apply total_bind; [apply total_read_string|]. intros k. apply total_bind; [apply total_read_string|]. intros v. apply IH.
Qed.

Lemma total_read_facet : total read_facet.
Proof.
  unfold read_facet. apply total_bind; [apply total_read_StringSeq|].
  intros [|facet [|]]; [apply total_ret..|apply total_throw].
Qed.

Lemma total_read_current requestId : total (read_current requestId).
Proof.
  unfold read_current. apply total_bind.
  { unfold read_Identity. repeat (apply total_bind; [apply total_read_string|intros ?]). apply total_ret. }
  intros id. apply total_bind; [apply total_read_facet|]. intros facet.
  apply total_bind; [apply total_read_string|]. intros operation. apply total_bind; [apply total_read_Byte|]. intros mode.
  apply total_bind; [apply total_readSize|]. intros sz. apply total_bind; [apply total_read_context|].
  intros ctx. apply total_ret.
Qed.

(** C36. Whatever bytes a peer sends as a request, reading its identity, facet,
    operation, mode and context ends with a request or an exception, with the cursor
    in the buffer and the bytes as they were. *)
Theorem read_current_total requestId s : sound s ->
  match read_current requestId s with
  | (Ok _, s') | (Throw _, s') => sound s' /\ b s' = b s
  | (Fault _, _) => False
  end.
Proof. intros Hs. exact (total_read_current requestId s Hs). Qed.
End read.

Lemma read_current_total_witness :
  let s : BasicStream unit unit := stream_over Encoding_1_1 100 (chr <$> [1; 120; 0; 2]) 4096 None Sample.doubling in
  sound s /\ exists s', read_current (PL := Sample.x86) 7 s = (Throw UnmarshalOutOfBoundsException, s') /\
    sound s' /\ b s' = b s.
Proof.
  intros s. assert (sound s) as Hs by by (split; [split|]). split; [exact Hs|].
  pose proof (read_current_total (PL := Sample.x86) 7 s Hs) as H.
  destruct (read_current 7 s) as [r s'] eqn:E. exists s'. by vm_compute in E; simplify_eq.
Defined.
