(* ===== verification/Invocation.v ===== *)
(** * Invoking operations

    cpp/src/Ice/Outgoing.cpp and Outgoing.h, the synchronous invocation of a
    remote operation, with ProxyFactory.cpp and Proxy.cpp for its retries. The
    request handler and its connection are known by the calls that are made to
    them; what they do meanwhile (the request is sent, a reply arrives, the
    connection fails, time passes) is a list of events that an invocation
    waits for. Observers and traces are left out. *)

From stdpp Require Import gmap.
From S2P Require Import Prelude Hoare CxxString Buffer Layout Protocol Stream StreamString StreamHelpers Encaps.
From S2P Require Import OrderedMap Identity Reference PropertyNames Properties ReferenceFactory ImplicitContext ServantManager Dispatch.

(** ** Outgoing *)

(** [LocalExceptionWrapper::throwWrapper]; [print] is what an exception prints, with its stack trace *)
Definition throwWrapper (print : exn -> str) (e : exn) : exn :=
  match e with
  | UserException _ => LocalExceptionWrapper (UnknownUserException (print e)) false
  | Prelude.UnknownException _ _ | UnknownUserException _ => LocalExceptionWrapper e false
  | RequestFailedException status _ _ _ _ =>
      if (status =? replyObjectNotExist) || (status =? replyFacetNotExist) || (status =? replyOperationNotExist)
      then LocalExceptionWrapper e false
      else LocalExceptionWrapper (Prelude.UnknownException replyUnknownLocalException (print e)) false
  | StdException what => LocalExceptionWrapper (Prelude.UnknownException replyUnknownException (lit "std::exception: " ++ what)) false
  | BadAlloc => LocalExceptionWrapper (Prelude.UnknownException replyUnknownException (lit "std::exception: std::bad_alloc")) false
  | _ => if is_local e then LocalExceptionWrapper (Prelude.UnknownException replyUnknownLocalException (print e)) false
         else LocalExceptionWrapper (Prelude.UnknownException replyUnknownException (lit "std::exception: " ++ print e)) false
  end.

Inductive OutgoingState : Type :=
  StateUnsent | StateInProgress | StateOK | StateUserException | StateLocalException | StateFailed.

#[export] Instance OutgoingState_eq_dec : EqDecision OutgoingState.
Proof. solve_decision. Defined.

(** [_state <= StateInProgress] *)
Definition in_progress (s : OutgoingState) : bool := match s with StateUnsent | StateInProgress => true | _ => false end.

(** How a request gets its context: the explicit one, or the one of the proxy and an implicit one *)
Inductive ContextSource : Type :=
  | ExplicitContext (context : Context)
  | ProxyContext
  | WithImplicitContext (written : Context -> Context).

Section outgoing.
Context `{PL : Platform} {D E : Type} `{CO : Coders D E} {OC : ObjectDecoding (BasicStream D E)}.
Local Abbreviation stream := (BasicStream D E).

(** The calls to the request handler and its connection *)
Inductive handler_call : Type :=
  | PrepareBatchRequest | AbortBatchRequest | FinishBatchRequest (os : stream) | SendRequest (os : stream)
  | ConnectionException (ex : exn).

Record Outgoing : Type := MkOutgoing {
  _reference : Reference;                              (** [_handler->getReference()] *)
  _exception : option exn;
  _state : OutgoingState;
  _out_encoding : EncodingVersion;
  _out_is : stream;
  _out_os : stream;
  _sent : bool;
  og_calls : list handler_call
}.

Local Abbreviation outM := (M Outgoing).

Definition set_exception x o := MkOutgoing (_reference o) x (_state o) (_out_encoding o) (_out_is o) (_out_os o) (_sent o) (og_calls o).
Definition set_state x o := MkOutgoing (_reference o) (_exception o) x (_out_encoding o) (_out_is o) (_out_os o) (_sent o) (og_calls o).
Definition set_out_is x o := MkOutgoing (_reference o) (_exception o) (_state o) (_out_encoding o) x (_out_os o) (_sent o) (og_calls o).
Definition set_out_os x o := MkOutgoing (_reference o) (_exception o) (_state o) (_out_encoding o) (_out_is o) x (_sent o) (og_calls o).
Definition set_sent x o := MkOutgoing (_reference o) (_exception o) (_state o) (_out_encoding o) (_out_is o) (_out_os o) x (og_calls o).
Definition set_og_calls x o := MkOutgoing (_reference o) (_exception o) (_state o) (_out_encoding o) (_out_is o) (_out_os o) (_sent o) x.

Definition on_out_os {A} (m : M stream A) : outM A := on _out_os set_out_os m.
Definition on_out_is {A} (m : M stream A) : outM A := on _out_is set_out_is m.
Definition call_handler (c : handler_call) : outM unit := modify (fun o => set_og_calls (og_calls o ++ [c]) o).

Definition is_batch (m : Mode) : bool := match m with ModeBatchOneway | ModeBatchDatagram => true | _ => false end.

(** The members before the body of the constructor, over new streams of the instance *)
Definition outgoing_new (r : Reference) (new_stream : stream) : Outgoing :=
  MkOutgoing r None StateUnsent (getCompatibleEncoding (getEncoding r)) new_stream new_stream false [].

Definition abort (ex : exn) : outM unit :=
  o ← get;
  assertM (bool_decide (_state o = StateUnsent));;
  (if is_batch (getMode (_reference o)) then call_handler AbortBatchRequest else mret tt);;
  throw ex.

Definition write_Context (c : Context) : M stream unit :=
  write_dict_helper (fun k => write_string k true) (fun v => write_string v true) (in_order c).

Definition request_context (source : ContextSource) (r : Reference) : Context :=
  match source with
  | ExplicitContext context => context
  | ProxyContext => _context (base_of r)
  | WithImplicitContext written => written (_context (base_of r))
  end.

(** What the constructor writes behind the message header *)
Definition write_request (r : Reference) (operation : str) (mode : byte) (source : ContextSource) : M stream unit :=
  write_Identity (getIdentity r);;
  write_StringSeq (facetPath (getFacet r)) true;;
  write_string operation false;;
  write_Byte mode;;
  write_Context (request_context source r).

(** [prepare] is [prepareBatchRequest] of the handler on the stream. *)
Definition construct_outgoing (prepare : M stream unit) (operation : str) (mode : byte) (source : ContextSource) : outM unit :=
  o ← get;
  let r := _reference o in
  lift (checkSupportedProtocol (getCompatibleProtocol (getProtocol r)));;
  (if is_batch (getMode r) then call_handler PrepareBatchRequest;; on_out_os prepare
   else on_out_os (writeBlob requestHdr));;
  try_local (on_out_os (write_request r operation mode source)) abort.

(** *** Parameters *)

Definition og_startWriteParams (format : FormatType) : outM unit :=
  o ← get; on_out_os (startWriteEncaps (_out_encoding o) format).
Definition og_endWriteParams : outM unit := on_out_os endWriteEncaps.
Definition og_writeEmptyParams : outM unit := o ← get; on_out_os (writeEmptyEncaps (_out_encoding o)).
Definition og_writeParamEncaps (encaps : list byte) (size : Z) : outM unit :=
  o ← get; on_out_os (if size =? 0 then writeEmptyEncaps (_out_encoding o) else writeEncaps_bytes encaps size).
Definition og_startReadParams : outM unit := _ ← on_out_is startReadEncaps; mret tt.
Definition og_endReadParams (fuel : nat) : outM unit := on_out_is (endReadEncaps fuel).
Definition og_readEmptyParams : outM unit := _ ← on_out_is skipEmptyEncaps; mret tt.
Definition og_readParamEncaps : outM (list byte) := r ← on_out_is readEncaps_bytes; mret (fst r).
Definition hasResponse : outM bool := o ← get; mret (negb (b_size (_out_is o) =? 0)%nat).

(** *** Notifications of the connection *)

Definition og_sent : outM unit := modify (set_sent true).

(** A reply, whose stream stands behind the request id *)
Definition read_failed (status : Z) : M stream exn :=
  ident ← read_Identity;
  facet ← read_facet;
  operation ← read_string false;
  mret (RequestFailedException status (name ident) (category ident) facet operation).

Definition read_unknown (status : Z) : M stream exn :=
  unknown ← read_string false;
  mret (if status =? replyUnknownUserException then UnknownUserException unknown else Prelude.UnknownException status unknown).

(** The state and the exception that a reply leads to *)
Definition read_reply : M stream (OutgoingState * option exn) :=
  c ← read_Byte;
  let replyStatus := ord c in
  if replyStatus =? replyOK then mret (StateOK, None)
  else if replyStatus =? replyUserException then mret (StateUserException, None)
  else if (replyStatus =? replyObjectNotExist) || (replyStatus =? replyFacetNotExist) || (replyStatus =? replyOperationNotExist)
  then ex ← read_failed replyStatus; mret (StateLocalException, Some ex)
  else if (replyStatus =? replyUnknownException) || (replyStatus =? replyUnknownLocalException)
    || (replyStatus =? replyUnknownUserException)
  then ex ← read_unknown replyStatus; mret (StateLocalException, Some ex)
  else mret (StateLocalException, Some UnknownReplyStatusException).

(** [finished(BasicStream&)]: the caller's stream is swapped with the own one. *)
Definition finished_reply (reply : stream) : outM unit :=
  o ← get;
  assertM (bool_decide (getMode (_reference o) = ModeTwoway));;
  assertM (in_progress (_state o));;
  modify (set_out_is (fst (swap (_out_is o) reply)));;
  r ← on_out_is read_reply;
  (match snd r with Some ex => modify (set_exception (Some ex)) | None => mret tt end);;
  modify (set_state (fst r)).

Definition finished_exception (ex : exn) (sent : bool) : outM unit :=
  o ← get;
  assertM (in_progress (_state o));;
  modify (set_state StateFailed);;
  modify (set_exception (Some ex));;
  modify (set_sent sent).

Inductive event : Type :=
  | EventSent
  | EventReply (reply : stream)
  | EventFinished (ex : exn) (sent : bool)
  | EventTimeout.                                      (** of a wait with a timeout *)

(** An exception of [finished_reply] goes to the thread of the connection. *)
Definition deliver (ev : event) : outM unit :=
  match ev with
  | EventSent => og_sent
  | EventReply reply => _ ← attempt (finished_reply reply); mret tt
  | EventFinished ex sent => finished_exception ex sent
  | EventTimeout => mret tt
  end.

(** [while(c) wait();]: the events that are left. A wait without an end is out of fuel. *)
Fixpoint wait_while (c : Outgoing -> bool) (events : list event) : outM (list event) :=
  o ← get;
  if c o then
    match events with
    | [] => faultM OutOfFuel
    | ev :: events' => deliver ev;; wait_while c events'
    end
  else mret events.

(** With a timeout: whether the request has timed out *)
Fixpoint wait_reply (timeout : Z) (events : list event) : outM (bool * list event) :=
  o ← get;
  if bool_decide (_state o = StateInProgress) then
    match events with
    | [] => faultM OutOfFuel
    | EventTimeout :: events' => if 0 <=? timeout then mret (true, events') else wait_reply timeout events'
    | ev :: events' =>
        deliver ev;;
        (if 0 <=? timeout then
           o ← get; mret (bool_decide (_state o = StateInProgress), events')
         else wait_reply timeout events')
    end
  else mret (false, events).

(** What the caller of a twoway request is told *)
Definition repeatable (ex : exn) : bool :=
  match ex with
  | CloseConnectionException => true
  | RequestFailedException status _ _ _ _ => status =? replyObjectNotExist
  | _ => false
  end.

Definition twoway_outcome : outM bool :=
  o ← get;
  match _exception o with
  | Some ex => if negb (_sent o) || repeatable ex then throw ex else throw (LocalExceptionWrapper ex false)
  | None =>
      if bool_decide (_state o = StateUserException) then mret false
      else assertM (bool_decide (_state o = StateOK));; mret true
  end.

Definition unsent (o : Outgoing) : bool := negb (bool_decide (_state o = StateFailed)) && negb (_sent o).

(** [send] is what [sendRequest] of the handler answers: whether there is a
    connection to wait for, with its timeout. *)
Definition og_invoke (send : result (option Z)) (events : list event) : outM bool :=
  o ← get;
  assertM (bool_decide (_state o = StateUnsent));;
  modify (set_state StateInProgress);;
  match getMode (_reference o) with
  | ModeTwoway =>
      call_handler (SendRequest (_out_os o));;
      connection ← lift send;
      match connection with
      | None => faultM AssertionFailure
      | Some timeout =>
          events ← wait_while unsent events;
          r ← wait_reply timeout events;
          (if (fst r : bool) then
             call_handler (ConnectionException TimeoutException);;
             _ ← wait_while (fun o => bool_decide (_state o = StateInProgress)) (snd r); mret tt
           else mret tt);;
          twoway_outcome
      end
  | ModeOneway | ModeDatagram =>
      call_handler (SendRequest (_out_os o));;
      connection ← lift send;
      match connection with
      | None => mret true
      | Some _ =>
          _ ← wait_while unsent events;
          o ← get;
          match _exception o with Some ex => throw ex | None => mret true end
      end
  | ModeBatchOneway | ModeBatchDatagram =>
      call_handler (FinishBatchRequest (_out_os o));; lift send;; mret true
  end.
End outgoing.

(** *** BatchOutgoing *)

(** Flushing the batch of a handler, which has a reference, or of a connection *)
Record BatchOutgoing : Type := MkBatchOutgoing { bo_sent : bool; bo_exception : option exn }.

Inductive batch_event : Type := BatchSent | BatchFinished (ex : exn).

Definition batch_new (handler : option Reference) : result BatchOutgoing :=
  match handler with
  | Some r => checkSupportedProtocol (getProtocol r);; mret (MkBatchOutgoing false None)
  | None => Ok (MkBatchOutgoing false None)
  end.

Definition batch_deliver (ev : batch_event) (o : BatchOutgoing) : BatchOutgoing :=
  match ev with
  | BatchSent => MkBatchOutgoing true (bo_exception o)
  | BatchFinished ex => MkBatchOutgoing (bo_sent o) (Some ex)
  end.

Fixpoint batch_wait (events : list batch_event) : M BatchOutgoing unit :=
  o ← get;
  if negb (bool_decide (is_Some (bo_exception o))) && negb (bo_sent o) then
    match events with
    | [] => faultM OutOfFuel
    | ev :: events' => modify (batch_deliver ev);; batch_wait events'
    end
  else mret tt.

(** [flush] is what [flushBatchRequests] answers. *)
Definition batch_invoke (flush : result bool) (events : list batch_event) : M BatchOutgoing unit :=
  sent ← lift flush;
  if (sent : bool) then mret tt else
  batch_wait events;;
  o ← get;
  match bo_exception o with Some ex => throw ex | None => mret tt end.

(** ** Retries *)

(** [ProxyFactory::ProxyFactory]: the property Ice.RetryIntervals as a list *)
Fixpoint retry_intervals (retryValues : list str) (seen : list Z) : list Z :=
  match retryValues with
  | [] => seen
  | p :: rest =>
      let v := default 0 (istream_int_eof p) in
      if (v =? -1) && (length seen =? 0)%nat then seen
      else retry_intervals rest (seen ++ [if 0 <? v then v else 0])
  end.

Definition proxy_factory (retryValues : list str) : list Z :=
  if (length retryValues =? 0)%nat then [0] else retry_intervals retryValues [].

(** What a retry does to the tables of routers and locators *)
Inductive cache_event : Type := ClearRouterCache | ClearLocatorCache.

Definition is_marshal (ex : exn) : bool :=
  match ex with
  | MarshalException _ | UnmarshalOutOfBoundsException | EncapsulationException _ | MemoryLimitException _ _
  | NoObjectFactoryException _ _ | UnexpectedObjectException _ _ _ | MemoryLimit | ProxyUnmarshalException => true
  | _ => false
  end.

Definition is_close_connection (ex : exn) : bool := match ex with CloseConnectionException => true | _ => false end.

(** [checkRetryAfterException]: the interval and the new count, with the caches that are cleared *)
Definition count_retry (intervals : list Z) (ex : exn) (cnt : Z) : result (Z * Z) :=
  let cnt := to_i32 (cnt + 1) in
  if negb (0 <? cnt) then Fault AssertionFailure
  else if (cnt =? to_i32 (Z.of_nat (length intervals) + 1)) && is_close_connection ex then Ok (0, cnt)
  else if to_i32 (Z.of_nat (length intervals)) <? cnt then Throw ex
  else match intervals !! Z.to_nat (cnt - 1) with Some interval => Ok (interval, cnt) | None => Fault UndefinedBehaviour end.

Definition checkRetryAfterException (intervals : list Z) (ex : exn) (r : Reference) (cnt : Z)
    : result (Z * Z) * list cache_event :=
  if is_batch (getMode r) then (Throw ex, [])
  else
    match ex with
    | RequestFailedException status _ _ _ operation =>
        if status =? replyObjectNotExist then
          if bool_decide (is_Some (getRouterInfo r)) && str_eqb operation (lit "ice_add_proxy") then
            (Ok (0, cnt), [ClearRouterCache])
          else if isIndirect r then
            (count_retry intervals ex cnt,
             if isWellKnown r && bool_decide (is_Some (getLocatorInfo r)) then [ClearLocatorCache] else [])
          else (Throw ex, [])
        else (Throw ex, [])
    | _ => if is_marshal ex then (Throw ex, []) else (count_retry intervals ex cnt, [])
    end.

(** [IceProxy::Ice::Object::__handleException], without the delegate that is forgotten *)
Definition proxy_handleException (intervals : list Z) (ex : exn) (r : Reference) (cnt : Z) : result (Z * Z) :=
  if cnt =? -1 then Throw ex
  else match fst (checkRetryAfterException intervals ex r cnt) with
       | Throw CommunicatorDestroyedException => Throw ex
       | x => x
       end.

(** [__handleExceptionWrapper] and [__handleExceptionWrapperRelaxed]: the count *)
Definition handleExceptionWrapper (ex : exn) (retry : bool) (cnt : Z) : result Z :=
  if retry then Ok cnt else Throw ex.

Definition handleExceptionWrapperRelaxed (intervals : list Z) (ex : exn) (retry : bool) (r : Reference) (cnt : Z) : result Z :=
  if retry then Ok cnt else p ← proxy_handleException intervals ex r cnt; mret (snd p).

(** The loop of [ice_invoke]: [tries] is what the delegates answer, one after
    the other. The result comes with the number of tries that were made. *)
Fixpoint retry_loop (intervals : list Z) (r : Reference) (canRetry : bool) (cnt : Z) (tries : list (result bool))
    : result bool * nat :=
  match tries with
  | [] => (Fault OutOfFuel, O)
  | t :: tries' =>
      let again (c : result Z) :=
        match c with
        | Ok cnt' => let '(x, n) := retry_loop intervals r canRetry cnt' tries' in (x, S n)
        | Throw e => (Throw e, 1%nat)
        | Fault f => (Fault f, 1%nat)
        end in
      match t with
      | Throw (LocalExceptionWrapper ex retry) =>
          again (if canRetry then handleExceptionWrapperRelaxed intervals ex retry r cnt
                 else handleExceptionWrapper ex retry cnt)
      | Throw e =>
          if is_local e then again (p ← proxy_handleException intervals e r cnt; mret (snd p)) else (Throw e, 1%nat)
      | x => (x, 1%nat)
      end
  end.
