(* ===== verification/InvocationSpec.v ===== *)
(** * From an invocation to its dispatch and back

    The request that a client writes is the request that the server's dispatch
    sees, and the failure of a dispatch is the exception that the client gets,
    between hosts with different byte orders, converters and encodings. A failed
    invocation is retried within bounds, and only when it may be. *)

From stdpp Require Import gmap.
From S2P Require Import Prelude Hoare CxxString Buffer Layout Protocol Stream Wire Codecs StreamString.
From S2P Require Import OrderedMap StreamHelpers StreamSpec Encaps EncapsSpec EncapsWire.
From S2P Require Import Identity Reference ReferenceFactory ReferenceText ReferenceWire ImplicitContext ServantManager Dispatch Invocation.

(** ** The bytes of a request *)

Definition context_wire (C1 C2 : Config) (ctx : Context) : list byte -> nat -> Prop :=
  sized (each (entry_rel (string_rel C1 C2 true) (string_rel C1 C2 true))) (in_order ctx).

Inductive request_wire (C1 C2 : Config) (r : Reference) (operation : str) (mode : byte) (ctx : Context)
    : list byte -> nat -> Prop :=
  | request_parts bi ni bf nf bo no bc nc :
      identity_wire C1 C2 (getIdentity r) bi ni ->
      wire C1 C2 (TStringSeq true) (facetPath (getFacet r)) bf nf ->
      wire C1 C2 (TString false) operation bo no ->
      context_wire C1 C2 ctx bc nc ->
      let bs := bi ++ bf ++ bo ++ [mode] ++ bc in
      request_wire C1 C2 r operation mode ctx bs (length bs + ni + nf + no + nc).

Section request.
Context (C1 C2 : Config).

(** *** Writing *)

Section writing.
Context `{PL : Platform} {D E : Type}.
Local Existing Instance C1.

Lemma writes_within_le {A} n n' (m : M (BasicStream D E) A) bs a : writes_within n m bs a -> (n <= n')%nat ->
  writes_within n' m bs a.
Proof. intros [Hl Hm] Hn. split; [lia|]. intros s Hs. apply Hm. eapply fits_le; [exact Hs|lia]. Qed.

Lemma write_Context_writes ctx bc nc : context_wire C1 C2 ctx bc nc ->
  writes_within nc (write_Context (D := D) (E := E) ctx) bc tt.
Proof.
  intros Hc. unfold write_Context, write_dict_helper. revert bc nc Hc.
  change (forall bs n, context_wire C1 C2 ctx bs n -> writes_within n (write_seq_helper
    (write_entry (fun k => write_string (D := D) (E := E) k true) (fun v => write_string v true)) (in_order ctx)) bs tt).
  intros bs n. apply (seq_helper_writes C1 _ _ (entry_writes C1 _ _ _ _ (string_writes C1 C2 true) (string_writes C1 C2 true))).
Qed.

Lemma write_request_writes r operation mode source bs need :
  request_wire C1 C2 r operation mode (request_context source r) bs need ->
  writes_within need (write_request (D := D) (E := E) r operation mode source) bs tt.
Proof.
  intros [bi ni bf nf bo no bc nc Hi Hf Ho Hc bs']. unfold write_request.
  eapply writes_within_le.
  - eapply writes_within_bind; [apply (ty_writes C1 C2 (TStruct (TString true) (TString true)) _ _ _ Hi)|].
    eapply writes_within_bind; [apply (ty_writes C1 C2 (TStringSeq true) _ _ _ Hf)|].
    eapply writes_within_bind; [apply (ty_writes C1 C2 (TString false) _ _ _ Ho)|].
    eapply writes_within_bind; [apply writes_is_within, write_Byte_writes|apply (write_Context_writes _ _ _ Hc)].
  - subst bs'. rewrite !length_app. cbn. lia.
Qed.
End writing.

(** *** Reading *)

Section reading.
Context `{PL : Platform} {D E : Type} `{CO : Coders D E} {OC : ObjectDecoding (BasicStream D E)}.
Local Existing Instance C2.

Lemma fetches_facet facet bs need : wire C1 C2 (TStringSeq true) (facetPath facet) bs need ->
  fetches C2 (read_facet (D := D) (E := E)) bs facet.
Proof.
  intros Hf. unfold read_facet. rewrite <- (app_nil_r bs).
  eapply fetches_bind; [apply (fetches_ty C1 C2 (TStringSeq true) _ _ _ Hf)|].
  unfold facetPath, empty_string. destruct facet; apply fetches_ret.
Qed.

(** New keys are inserted, one by one. *)
Lemma fetches_context (l : list (str * str)) (bs : list byte) (n : nat) (ctx : Context) :
  each (entry_rel (string_rel C1 C2 true) (string_rel C1 C2 true)) l bs n ->
  NoDup l.*1 -> (forall k, k ∈ l.*1 -> ctx !! k = None) ->
  fetches C2 (read_context (D := D) (E := E) (length l) ctx) bs (list_to_map l ∪ ctx).
Proof.
  intros He. revert ctx. induction He as [|[k v] l bs1 bs2 n1 n2 (bk & bv & nk & nv & Hk & Hv & -> & _) _ IH]; intros ctx Hd Hn.
  { cbn. rewrite (left_id_L ∅ (∪)). apply fetches_ret. }
  cbn [length read_context]. cbn in Hd. apply NoDup_cons in Hd as [Hk2 Hd]. rewrite <- app_assoc. cbn [fst snd] in *.
  eapply fetches_bind; [apply (fetches_ty C1 C2 (TString true) _ _ _ Hk)|].
  eapply fetches_bind; [apply (fetches_ty C1 C2 (TString true) _ _ _ Hv)|].
  cbn beta. rewrite (Hn k) by (cbn; left).
  assert (list_to_map ((k, v) :: l) ∪ ctx = list_to_map l ∪ <[k := v]> ctx :> Context) as ->.
  { cbn [list_to_map foldr uncurry]. apply map_eq. intros j. destruct (decide (j = k)) as [->|Hj].
    - rewrite lookup_union, lookup_insert_eq, (lookup_union _ _ k), lookup_insert_eq.
      rewrite (not_elem_of_list_to_map_1 l k Hk2), (Hn k) by (cbn; left). done.
    - rewrite !lookup_union, !lookup_insert_ne by done. done. }
  apply IH; [done|]. intros j Hj. destruct (decide (j = k)) as [->|Hjk]; [done|].
  rewrite lookup_insert_ne by done. apply Hn. cbn. by right.
Qed.

Lemma fetches_request r operation mode ctx bs need requestId : request_wire C1 C2 r operation mode ctx bs need ->
  fetches C2 (read_current (D := D) (E := E) requestId) bs
    (MkCurrent requestId (getIdentity r) (getFacet r) operation mode ctx None).
Proof.
  intros [bi ni bf nf bo no bc nc Hi Hf Ho (body & n & He & -> & _ & Hl) bs']. unfold bs', read_current. clear bs'.
  eapply fetches_bind; [apply (identity_fetches C1 C2 _ _ _ Hi)|]. eapply fetches_bind; [apply (fetches_facet _ _ _ Hf)|].
  eapply fetches_bind; [apply (fetches_ty C1 C2 (TString false) _ _ _ Ho)|].
  eapply fetches_bind; [apply fetches_byte|]. unfold seq_bytes. 
  eapply fetches_bind; [eapply fetches_reads, readSize_reads; unfold int_length in Hl; lia|].
  rewrite Nat2Z.id. rewrite <- (app_nil_r body).
  eapply fetches_bind; [apply (fetches_context _ _ _ ∅ He)|].
  - rewrite in_order_Permutation. apply NoDup_fst_map_to_list.
  - intros k _. apply lookup_empty.
  - rewrite (right_id_L ∅ (∪)). assert (list_to_map (in_order ctx) = ctx :> Context) as ->; [|apply fetches_ret].
    apply map_eq. intros k. apply option_eq. intros v. rewrite <- elem_of_list_to_map;
      [apply elem_of_in_order|rewrite in_order_Permutation; apply NoDup_fst_map_to_list].
Qed.
End reading.
End request.

(** ** From client to server *)

Section hosts.
Context {D E D2 E2 : Type} `{CO1 : Coders D E} `{CO : Coders D2 E2} {OC : ObjectDecoding (BasicStream D2 E2)}.

(** C13. The request that an invocation writes behind the message header is read by
    the dispatch of the server as the same identity, facet, operation, mode and
    context, between hosts with different byte orders and string converters. *)
Theorem request_is_dispatched (PL1 PL2 : Platform) (C1 C2 : Config) r operation mode source bs need prepare
    (s1 : BasicStream D E) (s2 : BasicStream D2 E2) rest requestId :
  is_batch (getMode r) = false -> isSupported (getCompatibleProtocol (getProtocol r)) currentProtocol = true ->
  request_wire C1 C2 r operation mode (request_context source r) bs need ->
  fits (CF := C1) s1 (length requestHdr + need) -> readable (CF := C2) s2 -> startSeq s2 = -1 -> remaining s2 = bs ++ rest ->
  construct_outgoing (PL := PL1) prepare operation mode source (outgoing_new r s1) =
    (Ok tt, set_out_os (appended (requestHdr ++ bs) s1) (outgoing_new r s1)) /\
  exists s2', read_current (PL := PL2) requestId s2 =
    (Ok (MkCurrent requestId (getIdentity r) (getFacet r) operation mode (request_context source r) None), s2') /\
    remaining s2' = rest.
Proof.
  intros Hb Hp Hw Hf Hs Hseq Hr. split.
  - unfold construct_outgoing. unfold mbind at 1, M_bind at 1. cbn [get].
    unfold checkSupportedProtocol. cbn [_reference outgoing_new]. rewrite Hp, Hb.
    unfold mbind at 1, M_bind at 1. cbn [lift]. unfold mbind at 1, M_bind at 1. unfold on_out_os at 1, on at 1.
    change (_out_os (outgoing_new r s1)) with s1. pose proof (writeBlob_writes (CF := C1) requestHdr s1) as Hh.
    rewrite Hh by (eapply fits_le; [exact Hf|lia]). unfold try_local, on_out_os, on.
    change (_out_os (set_out_os ?s _)) with s.
    rewrite (proj2 (write_request_writes C1 C2 (PL := PL1) r operation mode source bs need Hw) (appended requestHdr s1)).
    + by rewrite appended_app.
    + by apply (fits_appended s1 requestHdr need).
  - destruct (fetches_request C1 C2 (PL := PL2) r operation mode _ bs need requestId Hw s2 rest 0%nat) as (s2' & E1 & F & _);
      [done|done|lia|by left|].
    exists s2'. split; [exact E1|]. by eapply fetched_readable.
Qed.
End hosts.

(** ** From server to client *)

Definition or_else (s s' : str) : str := match s with [] => s' | _ => s end.

(** What the client gets for a failure of the dispatch of [c], by the reply
    status of the protocol: 5 for a local, 6 for a user and 7 for any other
    exception. An empty member of a request failure is that of the request. *)
Definition failure_of (print : exn -> str) (c : Current) (e : exn) : exn :=
  match e with
  | RequestFailedException status nm cat facet operation =>
      RequestFailedException status (or_else nm (name (c_id c)))
        (match nm with [] => category (c_id c) | _ => cat end)
        (or_else facet (c_facet c)) (or_else operation (c_operation c))
  | UnknownUserException text => UnknownUserException text
  | Prelude.UnknownException status text => Prelude.UnknownException status text
  | UserException _ => UnknownUserException (print e)
  | StdException what => Prelude.UnknownException 7 (lit "std::exception: " ++ what)
  | BadAlloc => Prelude.UnknownException 7 (lit "std::exception: std::bad_alloc")
  | LocalExceptionWrapper _ _ | OtherException => Prelude.UnknownException 7 (lit "unknown c++ exception")
  | _ => Prelude.UnknownException (if is_local e then 5 else 7) (print e)
  end.

(** The server has no such object: it did not execute the request. *)
Definition object_missing (e : exn) : bool :=
  match e with RequestFailedException 2 _ _ _ _ => true | _ => false end.

Definition request_failure (status : Z) : Prop :=
  status = replyObjectNotExist \/ status = replyFacetNotExist \/ status = replyOperationNotExist.
Definition unknown_failure (status : Z) : Prop :=
  status = replyUnknownException \/ status = replyUnknownLocalException \/ status = replyUnknownUserException.

(** The bytes of a failure behind the request id *)
Inductive failure_wire (C1 C2 : Config) : exn -> list byte -> nat -> Prop :=
  | failed_wire status nm cat facet operation bi ni bf nf bo no : request_failure status ->
      identity_wire C1 C2 (MkIdentity nm cat) bi ni ->
      wire C1 C2 (TStringSeq true) (facetPath facet) bf nf ->
      wire C1 C2 (TString false) operation bo no ->
      failure_wire C1 C2 (RequestFailedException status nm cat facet operation) (chr status :: bi ++ bf ++ bo)
        (1 + length bi + length bf + length bo + ni + nf + no)
  | unknown_wire status text bt nt : status = replyUnknownException \/ status = replyUnknownLocalException ->
      wire C1 C2 (TString false) text bt nt ->
      failure_wire C1 C2 (Prelude.UnknownException status text) (chr status :: bt) (1 + nt)
  | unknown_user_wire text bt nt : wire C1 C2 (TString false) text bt nt ->
      failure_wire C1 C2 (UnknownUserException text) (chr replyUnknownUserException :: bt) (1 + nt).

Section reply.
Context (C1 C2 : Config).

Section writing.
Context `{PL : Platform} {D E : Type}.
Local Existing Instance C1.
Local Abbreviation stream := (BasicStream D E).

(** Behind the rewinding of the stream to the status *)
Definition writes_rewound (need : nat) (m : M stream unit) (bs : list byte) : Prop :=
  forall s, (status_position <= length (b s))%nat -> fits s 0 -> fits (set_b (take status_position (b s)) s) need ->
    (rewind_os;; m) s = (Ok tt, set_b (take status_position (b s) ++ bs) s).

Lemma rewound need (m : M stream unit) bs : writes_within need m bs tt -> writes_rewound need m bs.
Proof.
  intros [_ Hm] s Hl H0 Hf. unfold rewind_os.
  assert (resize status_position s = (Ok tt, set_b (take status_position (b s)) s)) as Hr.
  { rewrite <- (set_b_same s) at 1. rewrite resize_set_b.
    - unfold ByteSeq.resize. by rewrite (proj2 (Nat.sub_0_le _ _) Hl), app_nil_r.
    - destruct H0 as [_ [H0|H0]]; [by left|right]. unfold b_size in H0. lia. }
  rewrite (bind_ok _ _ _ _ _ Hr). by rewrite Hm.
Qed.

Lemma failed_writes status id facet operation bi ni bf nf bo no : request_failure status -> identity_wire C1 C2 id bi ni ->
  wire C1 C2 (TStringSeq true) (facetPath facet) bf nf -> wire C1 C2 (TString false) operation bo no ->
  writes_within (1 + length bi + length bf + length bo + ni + nf + no)
    (write_Byte (chr status);; write_Identity (D := D) (E := E) id;; write_StringSeq (facetPath facet) true;;
     write_string operation false) (chr status :: bi ++ bf ++ bo) tt.
Proof.
  intros _ Hi Hf Ho. eapply writes_within_le.
  - eapply (writes_within_bind _ _ _ _ [_]); [apply writes_is_within, write_Byte_writes|].
    eapply writes_within_bind; [apply (ty_writes C1 C2 (TStruct (TString true) (TString true)) _ _ _ Hi)|].
    eapply writes_within_bind; [apply (ty_writes C1 C2 (TStringSeq true) _ _ _ Hf)|apply (ty_writes C1 C2 (TString false) _ _ _ Ho)].
  - cbn. lia.
Qed.

Lemma unknown_writes status text bt nt : wire C1 C2 (TString false) text bt nt ->
  writes_within (1 + nt) (write_Byte (D := D) (E := E) (chr status);; write_string text false) (chr status :: bt) tt.
Proof.
  intros Ht. eapply writes_within_le.
  - eapply (writes_within_bind _ _ _ _ [_]); [apply writes_is_within, write_Byte_writes|apply (ty_writes C1 C2 (TString false) _ _ _ Ht)].
  - cbn. lia.
Qed.
End writing.

Section reading.
Context `{PL : Platform} {D E : Type} `{CO : Coders D E} {OC : ObjectDecoding (BasicStream D E)}.
Local Existing Instance C2.

Lemma fetches_failure e bs need : failure_wire C1 C2 e bs need ->
  fetches C2 (read_reply (D := D) (E := E)) bs (StateLocalException, Some e).
Proof.
  intros [status nm cat facet operation bi ni bf nf bo no Hs Hi Hf Ho|status text bt nt Hs Ht|text bt nt Ht]; unfold read_reply;
    (eapply (fetches_bind C2 _ _ [_]); [apply fetches_byte|]).
  - assert (fetches C2 (read_failed (D := D) (E := E) status) (bi ++ bf ++ bo) (RequestFailedException status nm cat facet operation)) as H.
    { unfold read_failed. eapply fetches_bind; [apply (identity_fetches C1 C2 _ _ _ Hi)|].
      eapply fetches_bind; [apply (fetches_facet C1 C2 _ _ _ Hf)|].
      apply (fetches_bind_ret C2 _ (fun o => RequestFailedException status nm cat facet o)).
      apply (fetches_ty C1 C2 (TString false) _ _ _ Ho). }
    apply fetches_bind_ret with (f := fun e => (StateLocalException, Some e)) in H.
    by destruct Hs as [->|[->| ->]].
  - assert (fetches C2 (read_unknown (D := D) (E := E) status) bt (Prelude.UnknownException status text)) as H.
    { unfold read_unknown. apply (fetches_ty (D := D) (E := E) C1 C2 (TString false)) in Ht.
      apply fetches_bind_ret with (f := fun u => if status =? replyUnknownUserException then UnknownUserException u
        else Prelude.UnknownException status u) in Ht. by destruct Hs as [->| ->]. }
    apply fetches_bind_ret with (f := fun e => (StateLocalException, Some e)) in H.
    by destruct Hs as [->| ->].
  - assert (fetches C2 (read_unknown (D := D) (E := E) replyUnknownUserException) bt (UnknownUserException text)) as H.
    { unfold read_unknown. apply (fetches_ty (D := D) (E := E) C1 C2 (TString false)) in Ht.
      by apply fetches_bind_ret with (f := fun u => UnknownUserException u) in Ht. }
    by apply fetches_bind_ret with (f := fun e => (StateLocalException, Some e)) in H.
Qed.
End reading.
End reply.

Section failures.
Context {D E D2 E2 : Type} `{CO1 : Coders D E} `{CO : Coders D2 E2} {OC : ObjectDecoding (BasicStream D2 E2)}.
Context {Object ServantLocator Cookie Callback : Type}.
Local Abbreviation env := (@Env D E Object ServantLocator Cookie Callback).

(** The bytes that are kept of a reply, with new ones behind them *)
Definition after_status (bs : list byte) (s : BasicStream D E) : BasicStream D E :=
  set_b (take status_position (b s) ++ bs) s.

Definition reply_room (C : Config) (s : BasicStream D E) (need : nat) : Prop :=
  (status_position <= length (b s))%nat /\ fits (CF := C) s 0 /\ fits (CF := C) (set_b (take status_position (b s)) s) need.

Lemma filled from s : fill from s = or_else s from.
Proof. unfold fill, empty_string. by destruct s, from. Qed.

Lemma filled_id c nm cat : fill_id c nm cat =
  MkIdentity (or_else nm (name (c_id c))) (match nm with [] => category (c_id c) | _ => cat end).
Proof. unfold fill_id, empty_string. destruct nm; [by destruct (c_id c)|done]. Qed.

(** A failure is a request failure, or its status and text are those that
    the client gets. *)
Lemma failure_cases `{PL : Platform} (C1 C2 : Config) print (c : Current) e bs need :
  failure_wire C1 C2 (failure_of print c e) bs need ->
  (exists status nm cat facet operation, e = RequestFailedException status nm cat facet operation) \/
  exists status text bt nt, write_failure (D := D) (E := E) print c e = write_unknown status text /\
    bs = chr status :: bt /\ need = (1 + nt)%nat /\ wire C1 C2 (TString false) text bt nt.
Proof.
  intros Hw. destruct e; try (right; cbn [failure_of is_local] in Hw; inversion Hw; subst; by eauto 10).
  left. by eauto 8.
Qed.

Lemma failure_written `{PL : Platform} (C1 C2 : Config) print e c bs need (s : BasicStream D E) :
  failure_wire C1 C2 (failure_of print c e) bs need -> reply_room C1 s need ->
  write_failure print c e s = (Ok tt, after_status bs s).
Proof.
  intros Hw (H1 & H2 & H3).
  destruct (failure_cases C1 C2 print c e bs need Hw) as [(status & nm & cat & facet & operation & ->)|
    (status & text & bt & nt & -> & -> & -> & Ht)].
  - cbn [failure_of] in Hw. inversion Hw as [? ? ? ? ? bi ni bf nf bo no Hs Hi Hfa Ho| |]; subst.
    cbn [write_failure]. rewrite filled_id, !filled. unfold write_failed.
    replace ((status =? replyObjectNotExist) || (status =? replyFacetNotExist) || (status =? replyOperationNotExist)) with true
      by (by destruct Hs as [->|[->| ->]]).
    apply (rewound C1 _ _ _ (failed_writes C1 C2 status (MkIdentity _ _) _ _ bi ni bf nf bo no Hs Hi Hfa Ho)); done.
  - apply (rewound C1 _ _ _ (unknown_writes C1 C2 status text bt nt Ht)); done.
Qed.

(** The client repeats the request for no other failure of a dispatch. *)
Lemma repeatable_failure print (c : Current) e : repeatable (failure_of print c e) = object_missing e.
Proof. by destruct e. Qed.

Lemma handleException_replies `{PL : Platform} (C1 C2 : Config) print e (v : env) bs need :
  _connection (base v) = true -> _response (base v) = true ->
  failure_wire C1 C2 (failure_of print (_current (base v)) e) bs need -> reply_room C1 (_os (base v)) need ->
  handleException print e v = (Ok tt, MkEnv (set_connection false (set_os (after_status bs (_os (base v))) (base v)))
    (calls v ++ [SendResponse (after_status bs (_os (base v))) (Dispatch._compress (base v))])).
Proof.
  intros Hc Hr Hw Hroom. unfold handleException. unfold mbind at 1, M_bind at 1. cbn [get].
  unfold mbind at 1, M_bind at 1. rewrite Hc. unfold assertM, mret, M_ret.
  unfold mbind at 1, M_bind at 1. unfold respond. unfold mbind at 1, M_bind at 1. cbn [get]. rewrite Hr.
  unfold mbind at 1, M_bind at 1. unfold on_os, on.
  rewrite (failure_written C1 C2 print e _ bs need _ Hw Hroom). unfold send_response, mbind, M_bind. cbn. by rewrite Hc.
Qed.

(** C15. The exception of a dispatch reaches the caller: a missing object, facet or
    operation arrives with its identity, facet and operation, those that were empty
    filled in from the request; a user exception that the operation does not declare
    arrives as unknown user exception, a local one as unknown local exception and
    any other as unknown exception, with the text that the server prints for it, and
    one that is already unknown as it is; and the caller is told not to repeat the
    request unless it was not sent or the reply status is 2, no such object. *)
Theorem failure_arrives (PL1 PL2 : Platform) (C1 C2 : Config) print e (v : env) bs need (o : @Outgoing D2 E2)
    (reply : BasicStream D2 E2) :
  let os := after_status bs (_os (base v)) in
  let failure := failure_of print (_current (base v)) e in
  let answer := fst (swap (_out_is o) reply) in
  _connection (base v) = true -> _response (base v) = true ->
  failure_wire C1 C2 failure bs need -> reply_room C1 (_os (base v)) need ->
  getMode (_reference o) = ModeTwoway -> in_progress (_state o) = true ->
  b reply = b os -> i reply = Z.of_nat status_position -> readable (CF := C2) answer -> startSeq answer = -1 ->
  handleException (PL := PL1) print e v = (Ok tt, MkEnv (set_connection false (set_os os (base v)))
    (calls v ++ [SendResponse os (Dispatch._compress (base v))])) /\
  exists o', finished_reply (PL := PL2) reply o = (Ok tt, o') /\
    fst (twoway_outcome o') = Throw (if negb (_sent o) || object_missing e then failure else LocalExceptionWrapper failure false).
Proof.
  intros os failure answer Hc Hr Hw Hroom Hm Hst Hb Hi Hrd Hseq. split; [by apply (handleException_replies C1 C2 print e v bs need)|].
  assert (remaining answer = bs) as Hrem.
  { unfold remaining. change (b answer) with (b reply). change (i answer) with (i reply). rewrite Hb, Hi. unfold os, after_status.
    cbn [b set_b]. destruct Hroom as [Hl _]. rewrite Nat2Z.id. rewrite drop_app_length'; [done|]. rewrite length_take. lia. }
  rewrite <- (app_nil_r bs) in Hrem.
  destruct (fetches_failure C1 C2 (PL := PL2) failure bs need Hw answer [] 0%nat) as (s' & E1 & _); [done|done|cbn; lia|by left|].
  exists (set_state StateLocalException (set_exception (Some failure) (set_out_is s' (set_out_is answer o)))). split.
  - unfold finished_reply. rewrite bind_get, Hm, Hst. rewrite bool_decide_eq_true_2 by done.
    unfold mbind, M_bind, assertM, mret, M_ret, modify, on_out_is, on. fold answer.
    change (_out_is (set_out_is answer o)) with answer. by rewrite E1.
  - unfold twoway_outcome. rewrite bind_get. cbn. unfold failure. rewrite repeatable_failure.
    by destruct (negb (_sent o) || object_missing e).
Qed.
End failures.

(** ** Results *)

Section results.
Context {D E D2 E2 : Type} `{CO1 : Coders D E} `{CO : Coders D2 E2} {OC : ObjectDecoding (BasicStream D2 E2)}.
Context {Object ServantLocator Cookie Callback : Type}.
Local Abbreviation env := (@Env D E Object ServantLocator Cookie Callback).

Lemma at_status_ok `{PL : Platform} (v : env) enc : b_size (_os (base v)) = status_position ->
  c_encoding (_current (base v)) = Some enc -> encoding_ltb enc Encoding_1_0 = false -> at_status v = (Ok enc, v).
Proof.
  intros Hsz Henc Hlt. unfold at_status. rewrite bind_get, Hsz. rewrite bind_assert by done.
  unfold known_encoding. unfold mbind, M_bind. cbn [get]. rewrite Henc. unfold mret, M_ret. by rewrite Hlt.
Qed.

(** C14. The encapsulation with results or with a user exception that a dispatch
    writes is what the caller gets: the invocation answers whether there was a user
    exception, and reading the parameters gives exactly the bytes that were written.
    *)
Theorem results_arrive (PL1 PL2 : Platform) (C1 C2 : Config) enc body (ok : bool) (v : env) request_enc (o : @Outgoing D2 E2)
    (reply : BasicStream D2 E2) :
  let bytes := encaps_bytes enc body in
  let os := appended (chr (if ok then replyOK else replyUserException) :: bytes) (_os (base v)) in
  let answer := fst (swap (_out_is o) reply) in
  Dispatch._response (base v) = true -> b_size (_os (base v)) = status_position ->
  c_encoding (_current (base v)) = Some request_enc -> encoding_ltb request_enc Encoding_1_0 = false ->
  fits (CF := C1) (_os (base v)) (1 + length bytes) -> Z.of_nat (length bytes) < 2 ^ 31 ->
  getMode (_reference o) = ModeTwoway -> in_progress (_state o) = true -> _exception o = None ->
  b reply = b os -> i reply = Z.of_nat status_position -> readable (CF := C2) answer -> startSeq answer = -1 ->
  writeParamEncaps (PL := PL1) bytes (to_i32 (Z.of_nat (length bytes))) ok v = (Ok tt, MkEnv (set_os os (base v)) (calls v)) /\
  exists o1 o2, finished_reply (PL := PL2) reply o = (Ok tt, o1) /\ fst (twoway_outcome o1) = Ok ok /\
    og_readParamEncaps (PL := PL2) o1 = (Ok bytes, o2).
Proof.
  intros bytes os answer Hr Hsz Henc Hlt Hfit Hlen Hm Hst Hex Hb Hi Hrd Hseq.
  assert (6 <= length bytes)%nat as H6 by (unfold bytes; rewrite length_encaps_bytes; lia).
  split.
  - unfold writeParamEncaps. rewrite bind_get, Hr. rewrite (bind_ok _ _ _ _ _ (at_status_ok v _ Hsz Henc Hlt)).
    unfold on_os, on.
    assert (writes_within (CF := C1) (1 + length bytes) (write_Byte (D := D) (E := E) (chr (if ok then replyOK else replyUserException));;
      if to_i32 (Z.of_nat (length bytes)) =? 0 then writeEmptyEncaps (PL := PL1) request_enc
      else writeEncaps_bytes bytes (to_i32 (Z.of_nat (length bytes)))) (chr (if ok then replyOK else replyUserException) :: bytes) tt) as [_ Hw].
    { eapply (writes_within_bind 1 (length bytes) _ _ [_]); [apply writes_is_within, write_Byte_writes|].
      rewrite to_i32_id by lia. rewrite (proj2 (Z.eqb_neq _ 0)) by lia. unfold writeEncaps_bytes.
      rewrite (proj2 (Z.ltb_ge _ 6)) by lia. rewrite Nat2Z.id, take_ge by lia. apply writes_is_within, append_writes. }
    by rewrite Hw.
  - assert (remaining answer = chr (if ok then replyOK else replyUserException) :: bytes) as Hrem.
    { unfold remaining. change (b answer) with (b reply). change (i answer) with (i reply). rewrite Hb, Hi.
      unfold os, appended. cbn [b set_b]. rewrite Nat2Z.id. by apply drop_app_length'. }
    assert (fetches C2 (read_reply (PL := PL2) (D := D2) (E := E2)) [chr (if ok then replyOK else replyUserException)]
      (if ok then StateOK else StateUserException, None)) as Hf.
    { unfold read_reply. eapply (fetches_bind C2 _ _ [_] []); [apply fetches_byte|]. destruct ok; apply fetches_ret. }
    destruct (Hf answer bytes 0%nat Hrd Hrem) as (s1 & E1 & F1 & _); [lia|by left|].
    destruct (fetched_readable C2 answer s1 [chr (if ok then replyOK else replyUserException)] bytes Hrd Hrem F1) as [(Hb1 & He1 & _) Hr1].
    rewrite <- (app_nil_r bytes) in Hr1. destruct (skip_encaps_exact enc body [] s1 Hb1 He1 Hr1) as (_ & Hskip & _).
    eexists (set_state (if ok then StateOK else StateUserException) (set_out_is s1 (set_out_is answer o))), _. split_and!.
    + unfold finished_reply. rewrite bind_get, Hm, Hst. rewrite bool_decide_eq_true_2 by done.
      unfold mbind, M_bind, assertM, mret, M_ret, modify, on_out_is, on. fold answer.
      change (_out_is (set_out_is answer o)) with answer. by rewrite E1.
    + unfold twoway_outcome. rewrite bind_get. cbn [_exception set_state set_out_is _state]. rewrite Hex. by destruct ok.
    + unfold og_readParamEncaps, on_out_is, on. unfold mbind, M_bind. change (_out_is (set_state _ (set_out_is s1 _))) with s1.
      rewrite Hskip. done.
Qed.
End results.

(** ** A oneway request with a context *)

Module SampleInvocation.
Import SampleProxyWire.

Definition context : Context := {[ lit "user" := lit "joe" ]}.
Definition bytes : list byte :=
  b (write_request (PL := Sample.sparc) SampleProxy.proxy (lit "op") (chr 1) (ExplicitContext context) sender).2.
Definition receiver : BasicStream unit unit := stream_over Encoding_1_1 1000 bytes 4096 None Sample.doubling.

Lemma context_in_order : in_order context = [(lit "user", lit "joe")].
Proof. apply Permutation_singleton_r. rewrite in_order_Permutation. unfold context. by rewrite map_to_list_singleton. Qed.

Lemma unconverted_rel convert v : Z.of_nat (length v) < 2 ^ 31 -> string_rel cfg cfg convert v (seq_bytes v v) (length (seq_bytes v v)).
Proof. intros Hv. exists v. split; [done|]. split; [|by destruct convert]. split; [exact Hv|]. split; [exact Hv|]. by destruct convert, v. Qed.

Lemma request_on_wire : exists need,
  request_wire cfg cfg SampleProxy.proxy (lit "op") (chr 1) context bytes need /\ (need <= 900)%nat.
Proof.
  eexists. split; [|shelve].
  assert (forall bs n, request_wire cfg cfg SampleProxy.proxy (lit "op") (chr 1) context bs n -> bs = bytes ->
    request_wire cfg cfg SampleProxy.proxy (lit "op") (chr 1) context bytes n) as H by (by intros ?? ? <-).
  eapply H.
  - eapply request_parts.
    + eexists _, _, _, _. split; [apply unconverted_rel; vm_compute; done|]. split; [apply unconverted_rel; vm_compute; done|]. done.
    + eexists _, _. split; [eapply each_cons; [apply unconverted_rel; vm_compute; done|apply each_nil]|]. done.
    + apply unconverted_rel; vm_compute; done.
    + unfold context_wire. rewrite context_in_order. eexists _, _. split; [|done].
      eapply each_cons; [|apply each_nil].
      eexists _, _, _, _. split; [apply unconverted_rel; vm_compute; done|]. split; [apply unconverted_rel; vm_compute; done|]. done.
  - by vm_compute.
  Unshelve. vm_compute. lia.
Qed.

Lemma over_readable bs : Z.of_nat (length bs) < 2 ^ 20 ->
  readable (CF := cfg) (D := unit) (E := unit) (stream_over Encoding_1_1 1000 bs 4096 None Sample.doubling).
Proof.
  intros Hl. split; [cbn; unfold b_end; cbn; lia|]. split; [unfold b_end; cbn; lia|].
  split; [unfold b_end, b_begin; cbn; lia|]. by repeat split.
Qed.
End SampleInvocation.

Lemma request_is_dispatched_witness :
  let r := SampleProxy.proxy in
  let source := ExplicitContext SampleInvocation.context in
  exists s2', read_current (PL := Sample.x86) 0 SampleInvocation.receiver =
    (Ok (MkCurrent 0 (getIdentity r) (getFacet r) (lit "op") (chr 1) SampleInvocation.context None), s2') /\ remaining s2' = [].
Proof.
  intros r source. destruct SampleInvocation.request_on_wire as (need & Hw & Hn).
  apply (request_is_dispatched Sample.sparc Sample.x86 SampleProxyWire.cfg SampleProxyWire.cfg
    r (lit "op") (chr 1) source SampleInvocation.bytes need (mret tt) SampleProxyWire.sender SampleInvocation.receiver [] 0
    eq_refl eq_refl Hw).
  - split; [by split_and!|]. right. cbn. lia.
  - apply SampleInvocation.over_readable. by vm_compute.
  - done.
  - by rewrite app_nil_r.
Defined.

(** ** An operation that does not exist, and one with results *)

Module SampleReply.
Import SampleProxyWire SampleInvocation.

Definition sent_current : Current :=
  MkCurrent 9 (MkIdentity (lit "x") []) (lit "v2") (lit "op") (chr 0) ∅ (Some Encoding_1_1).
Definition reply_header : list byte := replyHdr ++ le_bytes 4 9.
Definition incoming_base : @IncomingBase unit unit unit unit unit unit :=
  MkBase sent_current (Some tt) None None true (chr 0)
    (set_b reply_header (stream_new Encoding_1_1 1000 false None Sample.doubling)) true [].
Definition env : Env := MkEnv incoming_base [].

(** The exception has no identity, facet and operation: those of the request are filled in. *)
Definition raised : exn := RequestFailedException replyOperationNotExist [] [] [] [].
Definition told : exn := RequestFailedException replyOperationNotExist (lit "x") [] (lit "v2") (lit "op").
Definition told_bytes : list byte := chr <$> [4; 1; 120; 0; 1; 2; 118; 50; 2; 111; 112].

Definition reply_with (bs : list byte) : BasicStream unit unit :=
  set_i (Z.of_nat status_position) (stream_over Encoding_1_1 1000 (reply_header ++ bs) 4096 None Sample.doubling).
Definition outgoing : @Outgoing unit unit :=
  MkOutgoing SampleProxy.locator None StateInProgress Encoding_1_1
    (stream_new Encoding_1_1 1000 false None Sample.doubling) (stream_new Encoding_1_1 1000 false None Sample.doubling) true [].

Lemma told_on_wire : failure_wire cfg cfg told told_bytes 21.
Proof.
  assert (forall e bs n, failure_wire cfg cfg e bs n -> e = told -> bs = told_bytes -> n = 21%nat ->
    failure_wire cfg cfg told told_bytes 21) as H by (by intros ??? ? <- <- <-).
  eapply H; [eapply (failed_wire cfg cfg replyOperationNotExist (lit "x") [] (lit "v2") (lit "op"))|..].
  - by right; right.
  - eexists _, _, _, _. split; [apply unconverted_rel; vm_compute; done|]. split; [apply unconverted_rel; vm_compute; done|]. done.
  - eexists _, _. split; [eapply each_cons; [apply unconverted_rel; vm_compute; done|apply each_nil]|]. done.
  - apply unconverted_rel; vm_compute; done.
  - done.
  - by vm_compute.
  - by vm_compute.
Qed.

Lemma answer_readable bs : Z.of_nat (length (reply_header ++ bs)) < 2 ^ 20 -> (status_position <= length (reply_header ++ bs))%nat ->
  readable (CF := cfg) (fst (swap (_out_is outgoing) (reply_with bs))).
Proof.
  intros H1 H2. set (s := fst _).
  assert (b_end s = Z.of_nat (length (reply_header ++ bs))) as Eb by done. assert (i s = Z.of_nat status_position) as Ei by done.
  split; [lia|]. split; [lia|]. split; [change (b_begin s) with 4096; lia|]. by repeat split.
Qed.
End SampleReply.

Lemma failure_arrives_witness :
  let os := after_status SampleReply.told_bytes (_os SampleReply.incoming_base) in
  handleException (PL := Sample.sparc) (fun _ => []) SampleReply.raised SampleReply.env =
    (Ok tt, MkEnv (set_connection false (set_os os SampleReply.incoming_base)) [SendResponse os (chr 0)]) /\
  exists o', finished_reply (PL := Sample.x86) (SampleReply.reply_with SampleReply.told_bytes) SampleReply.outgoing = (Ok tt, o') /\
    fst (twoway_outcome o') = Throw (LocalExceptionWrapper SampleReply.told false).
Proof.
  apply (failure_arrives Sample.sparc Sample.x86 SampleProxyWire.cfg SampleProxyWire.cfg (fun _ => []) SampleReply.raised
    SampleReply.env SampleReply.told_bytes 21 SampleReply.outgoing (SampleReply.reply_with SampleReply.told_bytes)
    eq_refl eq_refl SampleReply.told_on_wire).
  - split; [vm_compute; lia|]. split; (split; [by split_and!|]); right; vm_compute; lia.
  - done.
  - done.
  - by vm_compute.
  - done.
  - apply SampleReply.answer_readable; vm_compute; [done|lia].
  - done.
Defined.

Lemma results_arrive_witness :
  let bytes := encaps_bytes Encoding_1_1 [chr 7] in
  let os := appended (chr replyOK :: bytes) (_os SampleReply.incoming_base) in
  writeParamEncaps (PL := Sample.sparc) bytes (to_i32 (Z.of_nat (length bytes))) true SampleReply.env =
    (Ok tt, MkEnv (set_os os SampleReply.incoming_base) []) /\
  exists o1 o2, finished_reply (PL := Sample.x86) (SampleReply.reply_with (chr replyOK :: bytes)) SampleReply.outgoing = (Ok tt, o1) /\
    fst (twoway_outcome o1) = Ok true /\ og_readParamEncaps (PL := Sample.x86) o1 = (Ok bytes, o2).
Proof.
  apply (results_arrive Sample.sparc Sample.x86 SampleProxyWire.cfg SampleProxyWire.cfg Encoding_1_1 [chr 7] true SampleReply.env
    Encoding_1_1 SampleReply.outgoing (SampleReply.reply_with (chr replyOK :: encaps_bytes Encoding_1_1 [chr 7]))).
  1-4, 6-11, 13: done.
  - split; [by split_and!|]. right. vm_compute. lia.
  - apply SampleReply.answer_readable; vm_compute; [done|lia].
Defined.

(** ** Retries

    The retries of a failed invocation are bounded by the retry intervals of
    the communicator, and a request that may have been executed is repeated
    only when its operation is idempotent: a twoway request is invoked again
    when it was not sent, or when the server promises not to execute it. *)

Section retries.
Context (intervals : list Z) (r : Reference).
Context (intervals_small : Z.of_nat (length intervals) < 2 ^ 31 - 2).
Local Abbreviation limit := (Z.of_nat (length intervals)).

(** A counted retry uses up one interval; only a graceful close gets one more. *)
Lemma count_retry_ok ex cnt interval cnt' : 0 <= cnt <= limit + 1 -> count_retry intervals ex cnt = Ok (interval, cnt') ->
  cnt' = cnt + 1 /\ cnt' <= limit + 1.
Proof.
  intros Hc. unfold count_retry. rewrite !to_i32_id by lia. rewrite (proj2 (Z.ltb_lt 0 (cnt + 1))) by lia. cbn [negb].
  destruct (_ && _) eqn:E1.
  - apply andb_true_iff in E1 as [E1 _]. apply Z.eqb_eq in E1. intros [= <- <-]. lia.
  - destruct (_ <? _) eqn:E2; [done|]. bool_to_prop. destruct (_ !! _); [|done]. intros [= <- <-]. lia.
Qed.

Lemma count_retry_no_fault ex cnt f : 0 <= cnt <= limit + 1 -> count_retry intervals ex cnt <> Fault f.
Proof.
  intros Hc. unfold count_retry. rewrite !to_i32_id by lia. rewrite (proj2 (Z.ltb_lt 0 (cnt + 1))) by lia. cbn [negb].
  destruct (_ && _); [done|]. destruct (_ <? _) eqn:E2; [done|]. bool_to_prop.
  destruct (lookup_lt_is_Some_2 intervals (Z.to_nat (cnt + 1 - 1))) as [x ->]; [lia|done].
Qed.

(** The router is asked to forget a proxy for this exception, which is retried without being counted. *)
Definition adds_proxy (ex : exn) : bool :=
  match ex with
  | RequestFailedException status _ _ _ operation =>
      (status =? replyObjectNotExist) && bool_decide (is_Some (getRouterInfo r)) && str_eqb operation (lit "ice_add_proxy")
  | _ => false
  end.

Lemma check_counts ex cnt : adds_proxy ex = false ->
  fst (checkRetryAfterException intervals ex r cnt) = Throw ex \/
  fst (checkRetryAfterException intervals ex r cnt) = count_retry intervals ex cnt.
Proof.
  intros Ha. unfold checkRetryAfterException. destruct (is_batch _); [by left|].
  destruct ex; cbn [is_marshal adds_proxy] in *; try by (left; done) || (right; done).
  destruct (_ =? replyObjectNotExist); [|by left]. cbn [andb] in Ha. rewrite Ha. destruct (isIndirect r); [by right|by left].
Qed.

Lemma proxy_counts ex cnt : adds_proxy ex = false -> 0 <= cnt <= limit + 1 ->
  match proxy_handleException intervals ex r cnt with
  | Ok p => snd p = cnt + 1 /\ cnt + 1 <= limit + 1
  | Throw _ => True
  | Fault _ => False
  end.
Proof.
  intros Ha Hc. unfold proxy_handleException. destruct (cnt =? -1); [done|].
  destruct (check_counts ex cnt Ha) as [-> | ->]; [by destruct ex|].
  pose proof (count_retry_ok ex cnt) as H1. pose proof (count_retry_no_fault ex cnt) as H2.
  destruct (count_retry intervals ex cnt) as [[interval cnt']|e|f].
  - destruct (H1 interval cnt' Hc eq_refl). cbn. lia.
  - by destruct e.
  - by destruct (H2 f Hc).
Qed.

(** What a try may answer: no exception that says that the request can be
    repeated freely, and none for the router *)
Definition counted (t : result bool) : Prop :=
  match t with
  | Throw (LocalExceptionWrapper ex retry) => retry = false /\ adds_proxy ex = false
  | Throw ex => adds_proxy ex = false
  | Ok _ => True
  | Fault _ => False
  end.

Lemma retry_loop_bounded canRetry cnt tries : 0 <= cnt <= limit + 1 -> Forall counted tries ->
  let '(x, n) := retry_loop intervals r canRetry cnt tries in
  Z.of_nat n <= limit + 2 - cnt /\ (limit + 2 - cnt <= Z.of_nat (length tries) -> forall f, x <> Fault f).
Proof.
  revert cnt. induction tries as [|t tries IH]; intros cnt Hc Ht; cbn [retry_loop length].
  { split; lia. }
  apply Forall_cons in Ht as [Ht Hts].
  assert (forall c : result Z, match c with Ok cnt' => cnt' = cnt + 1 /\ cnt + 1 <= limit + 1 | Throw _ => True | Fault _ => False end ->
    let '(x, n) := match c with
      | Ok cnt' => let '(x, n) := retry_loop intervals r canRetry cnt' tries in (x, S n)
      | Throw e => (Throw e, 1%nat) | Fault f => (Fault f, 1%nat) end in
    Z.of_nat n <= limit + 2 - cnt /\ (limit + 2 - cnt <= Z.of_nat (S (length tries)) -> forall f, x <> Fault f)) as Hagain.
  { intros [cnt'|e|f]; [intros [-> Hl]| |done].
    - specialize (IH (cnt + 1) ltac:(lia) Hts). destruct (retry_loop _ _ _ _ _) as [x n]. destruct IH as [H1 H2].
      split; [lia|]. intros Hn. apply H2. lia.
    - split; [lia|]. by intros _ f. }
  assert (forall ex, adds_proxy ex = false -> match (p ← proxy_handleException intervals ex r cnt; mret (snd p)) with
    | Ok cnt' => cnt' = cnt + 1 /\ cnt + 1 <= limit + 1 | Throw _ => True | Fault _ => False end) as Hp.
  { intros ex Ha. pose proof (proxy_counts ex cnt Ha Hc) as H. by destruct (proxy_handleException intervals ex r cnt). }
  destruct t as [v|e|f]; [split; [lia|by intros]| |done].
  assert (forall e, adds_proxy e = false -> let '(x, n) := if is_local e then
      match (p ← proxy_handleException intervals e r cnt; mret (snd p)) with
      | Ok cnt' => let '(x, n) := retry_loop intervals r canRetry cnt' tries in (x, S n)
      | Throw e => (Throw e, 1%nat) | Fault f => (Fault f, 1%nat) end else (Throw e, 1%nat) in
    Z.of_nat n <= limit + 2 - cnt /\ (limit + 2 - cnt <= Z.of_nat (S (length tries)) -> forall f, x <> Fault f)) as Hlocal.
  { intros e0 Ha. destruct (is_local e0); [|split; [lia|by intros]]. apply Hagain, Hp, Ha. }
  destruct e; cbn [counted] in Ht; try exact (Hlocal _ Ht).
  destruct Ht as [-> Ha]. apply Hagain. destruct canRetry; [|done]. by apply Hp.
Qed.

(** C35. An invocation is tried at most two times more than there are retry
    intervals, whatever the tries answer, and ends with a result or an exception, if
    no try asks for a repetition that is not counted: a wrapped exception that may
    always be repeated, or a router that has forgotten the proxy. *)
Theorem retries_bounded canRetry tries : Forall counted tries -> limit + 2 <= Z.of_nat (length tries) ->
  Z.of_nat (snd (retry_loop intervals r canRetry 0 tries)) <= limit + 2 /\
  forall f, fst (retry_loop intervals r canRetry 0 tries) <> Fault f.
Proof.
  intros Ht Hl. pose proof (retry_loop_bounded canRetry 0 tries ltac:(lia) Ht) as H.
  destruct (retry_loop _ _ _ _ _) as [x n]. destruct H as [H1 H2]. split; [cbn; lia|]. apply H2. lia.
Qed.
End retries.

(** ** At most once *)

Section once.
Context `{PL : Platform} {D E : Type} `{CO : Coders D E} {OC : ObjectDecoding (BasicStream D E)}.
Local Abbreviation outM := (M (@Outgoing D E)).

Definition never_throws {A} (m : outM A) : Prop := forall o e o', m o <> (Throw e, o').

Lemma never_throws_bind {A B} (m : outM A) (k : A -> outM B) : never_throws m -> (forall a, never_throws (k a)) ->
  never_throws (mbind k m).
Proof.
  intros Hm Hk o e o'. unfold mbind, M_bind. pose proof (Hm o) as H. destruct (m o) as [[a|e1|f] o1].
  - apply Hk.
  - by destruct (H e1 o1).
  - done.
Qed.

Lemma never_throws_assert b : never_throws (assertM (S := @Outgoing D E) b).
Proof. by destruct b. Qed.

Lemma deliver_never_throws ev : never_throws (deliver ev).
Proof.
  destruct ev; unfold deliver; try done.
  - intros o e o'. unfold mbind, M_bind, attempt. by destruct (finished_reply _ _) as [[] ?].
  - unfold finished_exception. repeat (apply never_throws_bind; [done || apply never_throws_assert|intros]). done.
Qed.

Lemma wait_while_never_throws c events : never_throws (wait_while c events).
Proof.
  induction events as [|ev events IH]; cbn [wait_while]; (apply never_throws_bind; [done|intros o]); destruct (c o); try done.
  apply never_throws_bind; [apply deliver_never_throws|done].
Qed.

Lemma wait_reply_never_throws timeout events : never_throws (wait_reply timeout events).
Proof.
  induction events as [|ev events IH]; cbn [wait_reply]; (apply never_throws_bind; [done|intros o]);
    destruct (bool_decide _); try done.
  destruct ev; try by destruct (0 <=? timeout).
  all: apply never_throws_bind; [apply deliver_never_throws|intros _]; by destruct (0 <=? timeout).
Qed.

(** Where the exceptions of an invocation come from *)
Definition raised_by (send : result (option Z)) (t : result bool) (o' : @Outgoing D E) : Prop :=
  forall e, t = Throw e -> send = Throw e \/
    exists ex, _exception o' = Some ex /\
      if negb (_sent o') || repeatable ex then e = ex else e = LocalExceptionWrapper ex false.

Lemma twoway_raised send (o : @Outgoing D E) : raised_by send (twoway_outcome o).1 (twoway_outcome o).2.
Proof.
  intros e. unfold twoway_outcome. rewrite bind_get. destruct (_exception o) as [ex|] eqn:Eo.
  - destruct (_ || _) eqn:Er; intros [= <-]; right; exists ex; cbn; by rewrite Er.
  - destruct (bool_decide _); [done|]. unfold assertM, mbind, M_bind. by destruct (bool_decide _).
Qed.

Lemma raised_bind {A} send (m : outM A) (k : A -> outM bool) o : never_throws m ->
  (forall a o1, raised_by send (k a o1).1 (k a o1).2) -> raised_by send (mbind k m o).1 (mbind k m o).2.
Proof.
  intros Hm Hk. unfold mbind, M_bind. pose proof (Hm o) as H. destruct (m o) as [[a|e|f] o1]; [apply Hk| |done].
  by destruct (H e o1).
Qed.

Lemma raised_lift send (k : option Z -> outM bool) o : (forall a o1, raised_by send (k a o1).1 (k a o1).2) ->
  raised_by send (mbind k (lift send) o).1 (mbind k (lift send) o).2.
Proof.
  intros Hk. unfold mbind, M_bind, lift. destruct send as [a|e|f]; [apply Hk| |done]. intros ? [= <-]. by left.
Qed.

Lemma og_invoke_raised send events (o : @Outgoing D E) : getMode (_reference o) = ModeTwoway ->
  raised_by send (og_invoke send events o).1 (og_invoke send events o).2.
Proof.
  intros Hm. unfold og_invoke. rewrite bind_get, Hm.
  apply raised_bind; [apply never_throws_assert|intros _ o1]. apply raised_bind; [done|intros _ o2].
  apply raised_bind; [done|intros _ o3]. apply raised_lift. intros [timeout|] o3'; [|done].
  apply raised_bind; [apply wait_while_never_throws|intros events1 o4].
  apply raised_bind; [apply wait_reply_never_throws|intros [timed_out events2] o5].
  apply raised_bind; [|intros _ o6; apply twoway_raised].
  destruct timed_out; [|done]. apply never_throws_bind; [done|intros _].
  apply never_throws_bind; [apply wait_while_never_throws|done].
Qed.

(** *** A request that was sent *)

(** A step that leaves the request sent, and whose result is [P] *)
Definition keeps_sent {A} (P : A -> Prop) (m : outM A) : Prop := forall o, _sent o = true ->
  match m o with
  | (Ok a, o') => _sent o' = true /\ P a
  | (Throw _, o') => _sent o' = true
  | (Fault _, _) => True
  end.

(** The request handler does not say later that the request was not sent. *)
Definition calm (events : list (@event D E)) : Prop := forall ex, EventFinished ex false ∉ events.
Definition any {A} : A -> Prop := fun _ => True.

Lemma keeps_sent_bind {A B} (P : A -> Prop) (Q : B -> Prop) (m : outM A) (k : A -> outM B) :
  keeps_sent P m -> (forall a, P a -> keeps_sent Q (k a)) -> keeps_sent Q (mbind k m).
Proof.
  intros Hm Hk o Ho. specialize (Hm o Ho). unfold mbind, M_bind. destruct (m o) as [[a|e|f] o1]; [|done..].
  destruct Hm as [H1 H2]. by apply Hk.
Qed.

Lemma keeps_sent_ret {A} (P : A -> Prop) a : P a -> keeps_sent P (mret a).
Proof. by intros H o Ho. Qed.

Lemma keeps_sent_modify f : (forall o, _sent (f o) = _sent o) -> keeps_sent any (modify f).
Proof. intros H o Ho. split; [by rewrite H|done]. Qed.

Lemma keeps_sent_assert b : keeps_sent any (assertM (S := @Outgoing D E) b).
Proof. by destruct b; intros o Ho. Qed.

Lemma keeps_sent_get {B} (Q : B -> Prop) (k : @Outgoing D E -> outM B) :
  (forall o, keeps_sent Q (k o)) -> keeps_sent Q (mbind k get).
Proof. intros Hk o Ho. rewrite bind_get. by apply Hk. Qed.

Lemma keeps_sent_stream {A} (m : M (BasicStream D E) A) : keeps_sent any (on_out_is m).
Proof. intros o Ho. unfold on_out_is, on. by destruct (m (_out_is o)) as [[] ?]. Qed.

Lemma keeps_sent_reply reply : keeps_sent any (finished_reply reply).
Proof.
  unfold finished_reply. apply keeps_sent_get. intros o. eapply keeps_sent_bind; [apply keeps_sent_assert|intros _ _].
  eapply keeps_sent_bind; [apply keeps_sent_assert|intros _ _]. eapply keeps_sent_bind; [by apply keeps_sent_modify|intros _ _].
  eapply keeps_sent_bind; [apply keeps_sent_stream|intros [st ex] _]. eapply (keeps_sent_bind any); [|intros _ _; by apply keeps_sent_modify].
  cbn. destruct ex; [by apply keeps_sent_modify|by apply keeps_sent_ret].
Qed.

Lemma keeps_sent_deliver ev : (forall ex, ev <> EventFinished ex false) -> keeps_sent any (deliver ev).
Proof.
  intros Hev. destruct ev as [|reply|ex sent|]; unfold deliver.
  - intros o Ho. by split.
  - eapply (keeps_sent_bind any); [|intros; by apply keeps_sent_ret]. intros o Ho. pose proof (keeps_sent_reply reply o Ho) as H.
    unfold attempt. destruct (finished_reply reply o) as [[a|e|f] o']; [|done..]. by destruct H.
  - destruct sent; [|by destruct (Hev ex)]. unfold finished_exception. apply keeps_sent_get. intros o.
    eapply keeps_sent_bind; [apply keeps_sent_assert|intros _ _]. do 2 (eapply keeps_sent_bind; [by apply keeps_sent_modify|intros _ _]).
    intros o' _. by split.
  - by apply keeps_sent_ret.
Qed.

Lemma calm_cons ev events : calm (ev :: events) -> (forall ex, ev <> EventFinished ex false) /\ calm events.
Proof. intros H. split; intros ex; [intros ->; apply (H ex); by left|]. intros Hin. apply (H ex). by right. Qed.

Lemma calm_or events : calm events \/ exists ex, EventFinished ex false ∈ events.
Proof.
  induction events as [|ev events [IH|[ex IH]]]; [left; by intros ex ?%elem_of_nil| |right; exists ex; by right].
  assert ((exists ex, ev = EventFinished ex false) \/ forall ex, ev <> EventFinished ex false) as [[ex ->]|Hev].
  { destruct ev as [| |ex []|]; try (by right); left; by exists ex. }
  - right. exists ex. by left.
  - left. intros ex [Heq|Hin]%elem_of_cons; [by apply (Hev ex)|by apply (IH ex)].
Qed.

Lemma keeps_sent_wait c events : calm events -> keeps_sent calm (wait_while c events).
Proof.
  induction events as [|ev events IH]; intros Hc; cbn [wait_while]; apply keeps_sent_get; intros o;
    (destruct (c o); [|by apply keeps_sent_ret]); [done|].
  apply calm_cons in Hc as [Hev Hc]. eapply keeps_sent_bind; [by apply keeps_sent_deliver|intros _ _; by apply IH].
Qed.

Lemma keeps_sent_wait_reply timeout events : calm events -> keeps_sent (fun r => calm r.2) (wait_reply timeout events).
Proof.
  induction events as [|ev events IH]; intros Hc; cbn [wait_reply]; apply keeps_sent_get; intros o;
    (destruct (bool_decide _); [|by apply keeps_sent_ret]); [done|].
  apply calm_cons in Hc as [Hev Hc].
  assert (keeps_sent (fun r => calm r.2) (deliver ev;;
    (if 0 <=? timeout then o ← get; mret (bool_decide (_state o = StateInProgress), events) else wait_reply timeout events))) as H.
  { eapply keeps_sent_bind; [by apply keeps_sent_deliver|intros _ _]. destruct (0 <=? timeout); [|by apply IH].
    apply keeps_sent_get. intros o'. by apply keeps_sent_ret. }
  destruct ev; try exact H. destruct (0 <=? timeout); [by apply keeps_sent_ret|by apply IH].
Qed.

Lemma keeps_sent_outcome : keeps_sent any (twoway_outcome (D := D) (E := E)).
Proof.
  unfold twoway_outcome. apply keeps_sent_get. intros o. destruct (_exception o) as [ex|].
  - by destruct (_ || _); intros o' Ho.
  - destruct (bool_decide _); [by apply keeps_sent_ret|]. eapply keeps_sent_bind; [apply keeps_sent_assert|intros; by apply keeps_sent_ret].
Qed.

(** The waits of a request that has been sent *)
Lemma keeps_sent_waits timeout events : calm events ->
  keeps_sent any (events ← wait_while unsent events;
    r ← wait_reply timeout events;
    (if (fst r : bool) then
       call_handler (ConnectionException TimeoutException);;
       _ ← wait_while (fun o => bool_decide (_state o = StateInProgress)) (snd r); mret tt
     else mret tt);;
    twoway_outcome).
Proof.
  intros Hc. eapply keeps_sent_bind; [by apply keeps_sent_wait|intros events1 Hc1].
  eapply keeps_sent_bind; [by apply keeps_sent_wait_reply|intros [timed_out events2] Hc2].
  eapply (keeps_sent_bind any); [|intros _ _; apply keeps_sent_outcome]. destruct timed_out; [|by apply keeps_sent_ret].
  eapply keeps_sent_bind; [by apply keeps_sent_modify|intros _ _].
  eapply keeps_sent_bind; [by apply keeps_sent_wait|intros _ _; by apply keeps_sent_ret].
Qed.

Lemma og_invoke_sent send rest (o : @Outgoing D E) : getMode (_reference o) = ModeTwoway -> calm rest ->
  match og_invoke send (EventSent :: rest) o with
  | (Throw _, o') => (exists e, send = Throw e) \/ _sent o' = true
  | _ => True
  end.
Proof.
  intros Hm Hc. unfold og_invoke. rewrite bind_get, Hm. destruct (bool_decide (_state o = StateUnsent)); [|done].
  rewrite bind_assert, bind_modify by done. erewrite bind_ok by reflexivity.
  destruct send as [[timeout|]|e|f]; [|done|left; by exists e|done].
  set (o1 := set_og_calls _ _). erewrite (bind_ok (lift (Ok (Some timeout)))) by reflexivity. cbn beta iota.
  assert (calm (EventSent :: rest)) as Hc' by (intros ex [?|?]%elem_of_cons; [done|by apply (Hc ex)]).
  destruct (_sent o1) eqn:Es.
  - pose proof (keeps_sent_waits timeout (EventSent :: rest) Hc' o1 Es) as H.
    match type of H with match ?m with _ => _ end => destruct m as [[] ?] end; by auto.
  - pose proof (keeps_sent_waits timeout rest Hc (set_sent true o1) eq_refl) as H.
    assert (wait_while unsent (EventSent :: rest) o1 = wait_while unsent rest (set_sent true o1)) as Ew.
    { cbn [wait_while]. rewrite bind_get. unfold unsent at 1. by rewrite Es. }
    assert (forall B (k : list event -> outM B), mbind k (wait_while unsent (EventSent :: rest)) o1 =
      mbind k (wait_while unsent rest) (set_sent true o1)) as Eb by (intros; unfold mbind, M_bind; by rewrite Ew).
    rewrite Eb. match type of H with match ?m with _ => _ end => destruct m as [[] ?] end; by auto.
Qed.

Lemma repeatable_cases ex : repeatable ex = true -> ex = CloseConnectionException \/
  exists nm cat facet operation, ex = RequestFailedException 2 nm cat facet operation.
Proof.
  destruct ex; try done; [by left|]. cbn. intros ->%Z.eqb_eq. right. by eauto 8.
Qed.

(** C12. At most once: a twoway invocation of an operation that is not idempotent is
    tried again only when its request handler refused to send it, when it was not
    sent (and if the handler had reported it as sent, the handler has reported since
    that it was not), or when its exception is CloseConnectionException, the
    graceful close, or the reply status 2, no such object. *)
Theorem sent_request_not_repeated intervals r cnt send events (o : @Outgoing D E) tries :
  getMode (_reference o) = ModeTwoway ->
  let '(t, o') := og_invoke send events o in
  (1 < snd (retry_loop intervals r false cnt (t :: tries)))%nat ->
  (exists e, send = Throw e) \/
  exists ex, _exception o' = Some ex /\ t = Throw ex /\
    ((_sent o' = false /\ (head events = Some EventSent -> exists ex', EventFinished ex' false ∈ events)) \/
     ex = CloseConnectionException \/
     exists nm cat facet operation, ex = RequestFailedException 2 nm cat facet operation).
Proof.
  intros Hm. pose proof (og_invoke_raised send events o Hm) as H.
  assert (forall rest, events = EventSent :: rest -> calm rest -> match og_invoke send events o with
    | (Throw _, o') => (exists e, send = Throw e) \/ _sent o' = true | _ => True end) as Hs
    by (intros rest -> Hc; by apply og_invoke_sent).
  destruct (og_invoke send events o) as [t o']. cbn in H.
  destruct t as [v|e|f]; [cbn; lia| |cbn; lia]. destruct (H e eq_refl) as [->|(ex & Hex & He)]; [by left; exists e|].
  destruct (negb (_sent o') || repeatable ex) eqn:Er; [|subst e; cbn; lia].
  subst e. intros _. apply orb_true_iff in Er as [Er%negb_true_iff|Er]; [|right; exists ex; eauto using repeatable_cases].
  destruct events as [|[| | |] rest]; try (right; exists ex; split; [done|]; split; [done|]; left; by split).
  destruct (calm_or rest) as [Hc|[ex' Hin]].
  - destruct (Hs rest eq_refl Hc) as [?|?]; [by left|congruence].
  - right. exists ex. split; [done|]. split; [done|]. left. split; [done|]. intros _. exists ex'. by right.
Qed.
End once.

(** Two intervals: a closed connection is tried four times, and a lost one three times. *)
Example closed_retried : retry_loop [0; 100] SampleProxy.locator true 0 (repeat (Throw CloseConnectionException) 4) =
  (Throw CloseConnectionException, 4%nat).
Proof. reflexivity. Qed.

Example lost_retried : retry_loop [0; 100] SampleProxy.locator true 0 (repeat (Throw (ConnectionLostException 0)) 4) =
  (Throw (ConnectionLostException 0), 3%nat).
Proof. reflexivity. Qed.

Lemma retries_bounded_witness :
  let tries := repeat (Throw CloseConnectionException) 5 in
  Z.of_nat (snd (retry_loop [0; 100] SampleProxy.locator true 0 tries)) <= 4 /\
  forall f, fst (retry_loop [0; 100] SampleProxy.locator true 0 tries) <> Fault f.
Proof.
  intros tries. apply (retries_bounded [0; 100] SampleProxy.locator); [done| |done].
  by repeat constructor.
Defined.

(** A request that was sent when the server closes gracefully, and one whose connection is lost *)
Definition invocation : @Outgoing unit unit :=
  outgoing_new SampleProxy.locator (stream_new Encoding_1_1 1000 false None Sample.doubling).
Definition interrupted (ex : exn) : result bool * @Outgoing unit unit :=
  og_invoke (PL := Sample.x86) (Ok (Some (-1))) [EventSent; EventFinished ex true] invocation.

Example lost_not_repeated :
  retry_loop [0; 100] SampleProxy.locator false 0 [(interrupted (ConnectionLostException 0)).1; Ok true] =
  (Throw (ConnectionLostException 0), 1%nat).
Proof. reflexivity. Qed.

Definition closing : list (@event unit unit) := [EventSent; EventFinished CloseConnectionException true].

Lemma sent_request_not_repeated_witness :
  let '(t, o') := og_invoke (PL := Sample.x86) (Ok (Some (-1))) closing invocation in
  (exists e, Ok (Some (-1)) = Throw e) \/
  exists ex, _exception o' = Some ex /\ t = Throw ex /\
    ((_sent o' = false /\ (head closing = Some EventSent -> exists ex', EventFinished ex' false ∈ closing)) \/
     ex = CloseConnectionException \/
     exists nm cat facet operation, ex = RequestFailedException 2 nm cat facet operation).
Proof.
  apply (sent_request_not_repeated (PL := Sample.x86) [0; 100] SampleProxy.locator 0 (Ok (Some (-1)))
    closing invocation [Ok true] eq_refl).
  vm_compute. lia.
Defined.
