(* ===== verification/Transceiver.v ===== *)
(** * Transceivers

    A transceiver moves the bytes of a [Buffer] between a connection and a
    socket that does not block. [Class Transceiver] is the interface
    (cpp/src/Ice/Transceiver.h) and [TransceiverLaws] what a connection relies
    on. [TcpTransceiver] and [UdpTransceiver] (cpp/src/Ice/TcpTransceiver.cpp,
    cpp/src/Ice/UdpTransceiver.cpp, without proxies and for platforms with
    select) implement it. The system calls are parameters: a transceiver holds
    the list of answers that they will give, and a call without an answer
    would block. *)

From S2P Require Import Prelude Hoare Buffer Protocol.

(** ** Buffers and operations *)

(** The members of [Buffer]: its bytes, and the cursor as an offset. *)
Record Buf : Type := MkBuf { buf_b : list byte; buf_i : Z }.

Definition buf_end (u : Buf) : Z := Z.of_nat (length (buf_b u)).
Definition set_buf_i (x : Z) (u : Buf) : Buf := MkBuf (buf_b u) x.

(** The bits of [SocketOperation]; [SocketOperationConnect] is the bit of
    [SocketOperationWrite]. *)
Record SocketOperation : Type := MkOp { op_read : bool; op_write : bool }.

#[export] Instance SocketOperation_eq_dec : EqDecision SocketOperation.
Proof. solve_decision. Defined.

Definition SocketOperationNone : SocketOperation := MkOp false false.
Definition SocketOperationRead : SocketOperation := MkOp true false.
Definition SocketOperationWrite : SocketOperation := MkOp false true.
Definition SocketOperationConnect : SocketOperation := SocketOperationWrite.

(** ** The interface *)

(** [sent] is the history of the bytes that the network has taken, and
    [tr_datagram] what [datagram()] answers for the endpoint. *)
Class Transceiver : Type := {
  net : Type;
  sent : net -> list byte;
  tr_datagram : bool;
  tr_initialize : M (net * (Buf * Buf)) SocketOperation;
  tr_write : M (net * Buf) bool;
  tr_read : M (net * Buf) bool;
  tr_close : M net unit;
  tr_checkSendSize : Buf -> nat -> result unit
}.

(** "It's impossible for packetSize to be more than an Int". *)
Definition in_buf (u : Buf) : Prop := 0 <= buf_i u <= buf_end u /\ buf_end u < 2 ^ 31.

(** The bytes from the offset [x] to the offset [y] *)
Definition between (u : Buf) (x y : Z) : list byte :=
  take (Z.to_nat (y - x)) (drop (Z.to_nat x) (buf_b u)).

(** [catch(const SocketException&)] *)
Definition is_SocketException (ex : exn) : bool :=
  match ex with SocketException _ | ConnectionLostException _ => true | _ => false end.

Lemma socket_local e : is_SocketException e = true -> is_local e = true.
Proof. by destruct e. Qed.

(** [usable]: the socket is open; [connected]: [initialize] is done;
    [writable] and [readable]: the buffers that [write] and [read] accept. *)
Class TransceiverLaws (TR : Transceiver) : Type := {
  usable : net -> Prop;
  connected : net -> Prop;
  writable : Buf -> Prop;
  readable : Buf -> Prop;
  stream_law u : tr_datagram = false -> writable u /\ readable u;
  readable_law b : readable (MkBuf b 0);
  initialize_law n u v : usable n ->
    wp tr_initialize (fun op s' => usable s'.1 /\ sent s'.1 = sent n /\ s'.2 = (u, v) /\
        (op = SocketOperationNone -> connected s'.1) /\
        (op = SocketOperationNone \/ op = SocketOperationRead \/ op = SocketOperationWrite))
      (fun e s' => is_SocketException e = true /\ usable s'.1 /\ sent s'.1 = sent n /\ s'.2 = (u, v)) (n, (u, v));
  write_law n u : usable n -> connected n -> in_buf u -> writable u ->
    wp tr_write
      (fun done s' => usable s'.1 /\ connected s'.1 /\ buf_b s'.2 = buf_b u /\
        buf_i u <= buf_i s'.2 <= buf_end u /\ (done = true -> buf_i s'.2 = buf_end u) /\
        sent s'.1 = sent n ++ between u (buf_i u) (buf_i s'.2) /\ (done = false -> writable s'.2))
      (fun e s' => is_local e = true /\ usable s'.1 /\ connected s'.1 /\ buf_b s'.2 = buf_b u /\
        buf_i u <= buf_i s'.2 <= buf_end u /\ sent s'.1 = sent n ++ between u (buf_i u) (buf_i s'.2) /\
        writable s'.2)
      (n, u);
  read_law n u : usable n -> connected n -> in_buf u -> readable u ->
    wp tr_read
      (fun done s' => usable s'.1 /\ connected s'.1 /\ sent s'.1 = sent n /\ in_buf s'.2 /\
        (tr_datagram = false -> length (buf_b s'.2) = length (buf_b u)) /\
        (done = true -> buf_i s'.2 = buf_end s'.2) /\ (done = false -> readable s'.2))
      (fun e s' => is_local e = true /\ usable s'.1 /\ connected s'.1 /\ sent s'.1 = sent n /\ in_buf s'.2 /\
        readable s'.2 /\ (tr_datagram = false -> length (buf_b s'.2) = length (buf_b u))) (n, u);
  close_law n : usable n -> wp tr_close (fun _ n' => sent n' = sent n)
    (fun e n' => is_local e = true /\ sent n' = sent n) n;
  checkSendSize_law b x m : Z.of_nat m < 2 ^ 31 -> match tr_checkSendSize (MkBuf b x) m with
    | Ok _ => (length b <= m)%nat /\ writable (MkBuf b 0)
    | Throw e => is_local e = true
    | Fault _ => False
    end
}.

(** ** The system calls *)

(** What [send] answers: how many bytes it took, or its error. *)
Inductive SendResult : Type :=
  | Taken (n : nat)
  | SendInterrupted
  | SendNoBuffers (errno : Z)
  | SendWouldBlock
  | SendConnectionLost (errno : Z)
  | SendError (errno : Z).

(** What [recv] answers: the bytes it stored, or its error. *)
Inductive RecvResult : Type :=
  | Received (bs : list byte)
  | RecvInterrupted
  | RecvNoBuffers (errno : Z)
  | RecvWouldBlock
  | RecvTruncated (bs : list byte)
  | RecvConnectionLost (errno : Z)
  | RecvError (errno : Z).

(** The socket as the transceivers see it: whether it is open, the answers to
    come, what [doFinishConnect] throws, if anything, what [closeSocket]
    throws, and the bytes taken so far. *)
Record Socket : Type := MkSocket {
  fd_open : bool;
  sends : list SendResult;
  recvs : list RecvResult;
  connect_error : option exn;
  close_error : option exn;
  taken : list byte
}.

Definition set_sends rs k := MkSocket (fd_open k) rs (recvs k) (connect_error k) (close_error k) (taken k).
Definition set_recvs rs k := MkSocket (fd_open k) (sends k) rs (connect_error k) (close_error k) (taken k).
Definition take_bytes bs k :=
  MkSocket (fd_open k) (sends k) (recvs k) (connect_error k) (close_error k) (taken k ++ bs).
Definition close_fd k := MkSocket false (sends k) (recvs k) (connect_error k) (close_error k) (taken k).

(** [doFinishConnect] and [closeSocket] *)
Definition doFinishConnect (k : Socket) : result unit :=
  match connect_error k with Some e => Throw e | None => Ok tt end.
Definition closeSocket (k : Socket) : result unit :=
  match close_error k with Some e => Throw e | None => Ok tt end.

(** [Ex::throwMemoryLimitException] *)
Definition check_message_size (u : Buf) (max : nat) : result unit :=
  if (max <? length (buf_b u))%nat
  then Throw (MemoryLimitException (Z.of_nat (length (buf_b u))) (Z.of_nat max)) else Ok tt.

(** ** TcpTransceiver *)

Module TcpTransceiver.

Inductive State : Type :=
  | StateNeedConnect
  | StateConnectPending
  | StateConnected.

Record t : Type := Mk { state_ : State; socket : Socket }.

Definition set_socket k n := Mk (state_ n) k.

Definition initialize : M (t * (Buf * Buf)) SocketOperation :=
  s ← get;
  match state_ s.1 with
  | StateNeedConnect =>
      modify (fun s => (Mk StateConnectPending (socket s.1), s.2));;
      mret SocketOperationConnect
  | StateConnectPending =>
      lift (doFinishConnect (socket s.1));;
      modify (fun s => (Mk StateConnected (socket s.1), s.2));;
      mret SocketOperationNone
  | StateConnected => mret SocketOperationNone
  end.

Definition close : M t unit :=
  n ← get;
  assertM (fd_open (socket n));;
  modify (fun n => set_socket (close_fd (socket n)) n);;
  lift (closeSocket (socket n)).

(** The loop of [write], over the answers of [send]; [p] is [packetSize]. *)
Fixpoint write_loop (rs : list SendResult) (p : Z) (s : Socket * Buf) : result bool * (Socket * Buf) :=
  let '(k, u) := s in
  if buf_i u =? buf_end u then (Ok true, (set_sends rs k, u))
  else if negb (fd_open k) then (Fault AssertionFailure, (set_sends rs k, u))
  else
    match rs with
    | [] => (Ok false, (set_sends [] k, u))
    | r :: rs' =>
        let fail e := (Throw e, (set_sends rs' k, u)) in
        match r with
        | Taken n =>
            let ret := Z.min (Z.of_nat n) p in
            if ret =? 0 then fail (ConnectionLostException 0)
            else
              let u' := set_buf_i (buf_i u + ret) u in
              let left_ := buf_end u - buf_i u' in
              write_loop rs' (if left_ <? p then to_i32 left_ else p)
                (take_bytes (between u (buf_i u) (buf_i u')) k, u')
        | SendInterrupted => write_loop rs' p (k, u)
        | SendNoBuffers errno =>
            if 1024 <? p then write_loop rs' (p / 2) (k, u) else fail (SocketException errno)
        | SendWouldBlock => (Ok false, (set_sends rs' k, u))
        | SendConnectionLost errno => fail (ConnectionLostException errno)
        | SendError errno => fail (SocketException errno)
        end
    end.

Definition on_socket {A} (m : M (Socket * Buf) A) : M (t * Buf) A :=
  on (fun s => (socket s.1, s.2)) (fun r s => (set_socket r.1 s.1, r.2)) m.

Definition write : M (t * Buf) bool :=
  on_socket (fun s => write_loop (sends s.1) (to_i32 (buf_end s.2 - buf_i s.2)) s).

(** The loop of [read], over the answers of [recv], which stores at the
    cursor at most [p] bytes. *)
Fixpoint read_loop (rs : list RecvResult) (p : Z) (s : Socket * Buf) : result bool * (Socket * Buf) :=
  let '(k, u) := s in
  if buf_i u =? buf_end u then (Ok true, (set_recvs rs k, u))
  else if negb (fd_open k) then (Fault AssertionFailure, (set_recvs rs k, u))
  else
    match rs with
    | [] => (Ok false, (set_recvs [] k, u))
    | r :: rs' =>
        let fail e := (Throw e, (set_recvs rs' k, u)) in
        match r with
        | Received bs =>
            let ret := take (Z.to_nat p) bs in
            match ret with
            | [] => fail (ConnectionLostException 0)
            | _ =>
                let u' := MkBuf (ByteSeq.store (Z.to_nat (buf_i u)) ret (buf_b u))
                  (buf_i u + Z.of_nat (length ret)) in
                read_loop rs' (to_i32 (buf_end u' - buf_i u')) (k, u')
            end
        | RecvInterrupted => read_loop rs' p (k, u)
        | RecvNoBuffers errno =>
            if 1024 <? p then read_loop rs' (p / 2) (k, u) else fail (SocketException errno)
        | RecvWouldBlock => (Ok false, (set_recvs rs' k, u))
        | RecvConnectionLost errno => fail (ConnectionLostException errno)
        | RecvTruncated _ => fail (SocketException 0)
        | RecvError errno => fail (SocketException errno)
        end
    end.

Definition read : M (t * Buf) bool :=
  on_socket (fun s => read_loop (recvs s.1) (to_i32 (buf_end s.2 - buf_i s.2)) s).

Definition checkSendSize (u : Buf) (messageSizeMax : nat) : result unit := check_message_size u messageSizeMax.

#[export] Instance transceiver : Transceiver := {
  net := t;
  sent n := taken (socket n);
  tr_datagram := false;
  tr_initialize := initialize;
  tr_write := write;
  tr_read := read;
  tr_close := close;
  tr_checkSendSize := checkSendSize
}.
End TcpTransceiver.

(** ** UdpTransceiver *)

Module UdpTransceiver.

Inductive State : Type :=
  | StateNeedConnect
  | StateConnectPending
  | StateConnected
  | StateNotConnected.

(** [has_peer]: the family of [_peerAddr] is one of a peer. *)
Record t : Type := Mk { state_ : State; has_peer : bool; incoming : bool; socket : Socket }.

Definition set_socket k n := Mk (state_ n) (has_peer n) (incoming n) k.
Definition set_state x n := Mk x (has_peer n) (incoming n) (socket n).
Definition set_peer n := Mk (state_ n) true (incoming n) (socket n).

Definition udpOverhead : Z := 20 + 8.
Definition maxPacketSize : Z := 65535 - udpOverhead.

Section sizes.
Variables sndSize rcvSize : Z.

Definition initialize : M (t * (Buf * Buf)) SocketOperation :=
  s ← get;
  match state_ s.1 with
  | StateNeedConnect =>
      modify (fun s => (set_state StateConnectPending s.1, s.2));;
      mret SocketOperationConnect
  | StateConnectPending =>
      lift (doFinishConnect (socket s.1));;
      modify (fun s => (set_state StateConnected s.1, s.2));;
      mret SocketOperationNone
  | StateConnected | StateNotConnected => mret SocketOperationNone
  end.

Definition close : M t unit :=
  n ← get;
  assertM (fd_open (socket n));;
  lift (closeSocket (socket n));;
  modify (fun n => set_socket (close_fd (socket n)) n).

Definition at_least_connected (x : State) : bool :=
  match x with StateConnected | StateNotConnected => true | _ => false end.

(** [repeat: ret = ::send(...)]: a datagram socket takes all of a datagram. *)
Fixpoint write_loop (rs : list SendResult) (s : Socket * Buf) : result bool * (Socket * Buf) :=
  let '(k, u) := s in
  match rs with
  | [] => (Ok false, (set_sends [] k, u))
  | r :: rs' =>
      let fail e := (Throw e, (set_sends rs' k, u)) in
      match r with
      | Taken _ => (Ok true, (set_sends rs' (take_bytes (buf_b u) k), set_buf_i (buf_end u) u))
      | SendInterrupted => write_loop rs' (k, u)
      | SendWouldBlock => (Ok false, (set_sends rs' k, u))
      | SendNoBuffers errno | SendConnectionLost errno | SendError errno => fail (SocketException errno)
      end
  end.

Definition on_socket {A} (m : M (Socket * Buf) A) : M (t * Buf) A :=
  on (fun s => (socket s.1, s.2)) (fun r s => (set_socket r.1 s.1, r.2)) m.

Definition write : M (t * Buf) bool :=
  s ← get;
  assertM (buf_i s.2 =? 0);;
  assertM (fd_open (socket s.1) && at_least_connected (state_ s.1));;
  assertM (buf_end s.2 <=? Z.min maxPacketSize (sndSize - udpOverhead));;
  match state_ s.1 with
  | StateConnected => on_socket (fun s => write_loop (sends s.1) s)
  | _ =>
      if has_peer s.1 then on_socket (fun s => write_loop (sends s.1) s)
      else throw (SocketException 0)
  end.

(** [repeat: ret = ::recv(...)] into a buffer of [packetSize] bytes: the
    number of bytes of the datagram, of which [buf.b] has the first. *)
Fixpoint read_loop (rs : list RecvResult) (s : Socket * Buf) : result (option nat) * (Socket * Buf) :=
  let '(k, u) := s in
  match rs with
  | [] => (Ok None, (set_recvs [] k, u))
  | r :: rs' =>
      let fail e := (Throw e, (set_recvs rs' k, u)) in
      match r with
      | Received bs =>
          let bs' := take (length (buf_b u)) bs in
          (Ok (Some (length bs')), (set_recvs rs' k, MkBuf (ByteSeq.store 0 bs' (buf_b u)) 0))
      | RecvTruncated bs =>
          (Ok (Some (length (buf_b u))),
            (set_recvs rs' k, MkBuf (ByteSeq.store 0 (take (length (buf_b u)) bs) (buf_b u)) 0))
      | RecvInterrupted => read_loop rs' (k, u)
      | RecvWouldBlock => (Ok None, (set_recvs rs' k, u))
      | RecvConnectionLost errno => fail (ConnectionLostException errno)
      | RecvNoBuffers errno | RecvError errno => fail (SocketException errno)
      end
  end.

Definition is_connected (x : State) : bool := match x with StateConnected => true | _ => false end.
Definition needs_connect (x : State) : bool := match x with StateNeedConnect => true | _ => false end.

Definition read : M (t * Buf) bool :=
  s ← get;
  assertM (buf_i s.2 =? 0);;
  assertM (fd_open (socket s.1));;
  let packetSize := Z.min maxPacketSize (rcvSize - udpOverhead) in
  modify (fun s => (s.1, MkBuf (ByteSeq.resize (Z.to_nat packetSize) (buf_b s.2)) 0));;
  assertM (is_connected (state_ s.1) || incoming s.1);;
  ret ← on_socket (fun s => read_loop (recvs s.1) s);
  match ret with
  | None => mret false
  | Some n =>
      (if is_connected (state_ s.1) then mret tt else modify (fun s => (set_peer s.1, s.2)));;
      (if needs_connect (state_ s.1) then modify (fun s => (set_state StateConnected s.1, s.2)) else mret tt);;
      modify (fun s => (s.1, MkBuf (ByteSeq.resize n (buf_b s.2)) (Z.of_nat n)));;
      mret true
  end.

Definition checkSendSize (u : Buf) (messageSizeMax : nat) : result unit :=
  check_message_size u messageSizeMax;;
  let packetSize := Z.min maxPacketSize (sndSize - udpOverhead) in
  if packetSize <? to_i32 (buf_end u) then Throw DatagramLimitException else Ok tt.

Definition transceiver : Transceiver := {|
  net := t;
  sent n := taken (socket n);
  tr_datagram := true;
  tr_initialize := initialize;
  tr_write := write;
  tr_read := read;
  tr_close := close;
  tr_checkSendSize := checkSendSize
|}.
End sizes.
End UdpTransceiver.

(** ** The implementations keep the laws *)

Definition local_errors (k : Socket) : Prop :=
  (forall e, connect_error k = Some e -> is_SocketException e = true) /\
  (forall e, close_error k = Some e -> is_local e = true).

Lemma between_nil u x : between u x x = [].
Proof. unfold between. by rewrite Z.sub_diag, take_0. Qed.

Lemma between_app u x y z : 0 <= x <= y -> y <= z ->
  between u x y ++ between u y z = between u x z.
Proof.
  intros. unfold between.
  replace (Z.to_nat (z - x)) with (Z.to_nat (y - x) + Z.to_nat (z - y))%nat by lia.
  replace (drop (Z.to_nat y) (buf_b u)) with (drop (Z.to_nat (y - x)) (drop (Z.to_nat x) (buf_b u))).
  { by rewrite <- take_take_drop. }
  rewrite drop_drop. f_equal. lia.
Qed.

Section tcp.
Import TcpTransceiver.

(** What [write_loop] does in the state [(k, u)] *)
Definition tcp_wrote (k : Socket) (u : Buf) (r : result bool * (Socket * Buf)) : Prop :=
  let '(res, (k', u')) := r in
  match res with Fault _ => False | Throw e => is_local e = true | Ok d => d = true -> buf_i u' = buf_end u end /\
  fd_open k' = fd_open k /\ local_errors k' = local_errors k /\
  buf_b u' = buf_b u /\ buf_i u <= buf_i u' <= buf_end u /\
  taken k' = taken k ++ between u (buf_i u) (buf_i u').

Lemma tcp_wrote_here k u res rs : 0 <= buf_i u <= buf_end u ->
  match res with Fault _ => False | Throw e => is_local e = true | Ok d => d = true -> buf_i u = buf_end u end ->
  tcp_wrote k u (res, (set_sends rs k, u)).
Proof. intros. unfold tcp_wrote. split_and!; try done; try lia. by rewrite between_nil, app_nil_r. Qed.

Lemma tcp_write_loop_spec rs p k u :
  fd_open k = true -> in_buf u -> (buf_i u = buf_end u \/ 0 < p <= buf_end u - buf_i u) ->
  tcp_wrote k u (write_loop rs p (k, u)).
Proof.
  revert p k u. induction rs as [|r rs IH]; intros p k u Hfd [Hi Hs] Hp; cbn [write_loop].
  { destruct (Z.eqb_spec (buf_i u) (buf_end u)); [by apply tcp_wrote_here|]. rewrite Hfd. by apply tcp_wrote_here. }
  destruct (Z.eqb_spec (buf_i u) (buf_end u)) as [|Hne]; [by apply tcp_wrote_here|]. rewrite Hfd. cbn [negb].
  destruct Hp as [?|Hp]; [done|].
  destruct r as [n| |errno| |errno|errno]; try (by apply tcp_wrote_here).
  - destruct (Z.eqb_spec (Z.min (Z.of_nat n) p) 0); [by apply tcp_wrote_here|].
    set (x := Z.min (Z.of_nat n) p) in *. set (u' := set_buf_i (buf_i u + x) u).
    assert (buf_end u' = buf_end u) as He by done. assert (buf_i u' = buf_i u + x) as Hi' by done.
    assert (tcp_wrote (take_bytes (between u (buf_i u) (buf_i u')) k) u'
      (write_loop rs (if buf_end u - buf_i u' <? p then to_i32 (buf_end u - buf_i u') else p)
        (take_bytes (between u (buf_i u) (buf_i u')) k, u'))) as HIH.
    { apply IH; [done|split; lia|]. destruct (Z.eq_dec (buf_i u') (buf_end u)) as [?|Hx]; [left; lia|right].
      case_if; bool_to_prop; [rewrite to_i32_id by lia|]; lia. }
    destruct (write_loop rs _ _) as [res [k' u'']]. unfold tcp_wrote in *. cbn in HIH.
    destruct HIH as (H1 & H2 & H3 & H5 & H6 & H7).
    change (buf_end u') with (buf_end u) in *.
    split_and!; try done; try lia.
    rewrite H7, <- app_assoc. f_equal. change (between u' ?a ?b) with (between u a b).
    apply between_app; lia.
  - apply IH; [done|by split|by right].
  - case_if; bool_to_prop; [|by apply tcp_wrote_here]. apply IH; [done|by split|right].
    Z.to_euclidean_division_equations; lia.
Qed.

Definition tcp_got (k : Socket) (u : Buf) (r : result bool * (Socket * Buf)) : Prop :=
  let '(res, (k', u')) := r in
  match res with Fault _ => False | Throw e => is_local e = true | Ok d => d = true -> buf_i u' = buf_end u' end /\
  fd_open k' = fd_open k /\ local_errors k' = local_errors k /\
  taken k' = taken k /\ length (buf_b u') = length (buf_b u) /\ in_buf u'.

Lemma tcp_got_here k u res rs : in_buf u ->
  match res with Fault _ => False | Throw e => is_local e = true | Ok d => d = true -> buf_i u = buf_end u end ->
  tcp_got k u (res, (set_recvs rs k, u)).
Proof. intros. unfold tcp_got. by split_and!. Qed.

Lemma tcp_read_loop_spec rs p k u :
  fd_open k = true -> in_buf u -> (buf_i u = buf_end u \/ 0 < p <= buf_end u - buf_i u) ->
  tcp_got k u (read_loop rs p (k, u)).
Proof.
  revert p k u. induction rs as [|r rs IH]; intros p k u Hfd Hin Hp; cbn [read_loop].
  { destruct (Z.eqb_spec (buf_i u) (buf_end u)); [by apply tcp_got_here|]. rewrite Hfd. by apply tcp_got_here. }
  destruct (Z.eqb_spec (buf_i u) (buf_end u)) as [|Hne]; [by apply tcp_got_here|]. rewrite Hfd. cbn [negb].
  destruct Hp as [?|Hp]; [done|].
  destruct r as [bs| |errno| |bs|errno|errno]; try (by apply tcp_got_here).
  - destruct (take (Z.to_nat p) bs) as [|c l] eqn:El; [by apply tcp_got_here|]. rewrite <- El.
    set (ret := take (Z.to_nat p) bs) in *.
    assert (0 < length ret <= Z.to_nat p)%nat as Hlen.
    { split; [rewrite El; cbn; lia|]. unfold ret. rewrite length_take. lia. }
    set (u' := MkBuf _ _). destruct Hin as [Hi Hs].
    assert (length (buf_b u') = length (buf_b u)) as Hb by apply ByteSeq.length_store.
    assert (buf_end u' = buf_end u) as He by (unfold buf_end; by rewrite Hb).
    assert (buf_i u' = buf_i u + Z.of_nat (length ret)) as Hi' by done.
    assert (in_buf u') as Hin' by (split; lia).
    assert (tcp_got k u' (read_loop rs (to_i32 (buf_end u' - buf_i u')) (k, u'))) as HIH.
    { apply IH; [done..|]. destruct (Z.eq_dec (buf_i u') (buf_end u')); [by left|right].
      rewrite to_i32_id by lia. lia. }
    destruct (read_loop rs _ _) as [res [k' u'']]. unfold tcp_got in *.
    destruct HIH as (H1 & H2 & H3 & H5 & H6 & H7). split_and!; try done; congruence.
  - apply IH; [done|done|by right].
  - case_if; bool_to_prop; [|by apply tcp_got_here]. apply IH; [done|done|right].
    Z.to_euclidean_division_equations; lia.
Qed.
End tcp.

(** The packet size that the two loops start with *)
Lemma packetSize_start u : in_buf u ->
  buf_i u = buf_end u \/ 0 < to_i32 (buf_end u - buf_i u) <= buf_end u - buf_i u.
Proof.
  intros [Hi Hs]. destruct (Z.eq_dec (buf_i u) (buf_end u)); [by left|right]. rewrite to_i32_id by lia. lia.
Qed.

(** A [TcpTransceiver] keeps the laws on an open socket. *)
#[export] Program Instance tcp_laws : TransceiverLaws TcpTransceiver.transceiver := {
  usable n := fd_open (TcpTransceiver.socket n) = true /\ local_errors (TcpTransceiver.socket n);
  connected n := True;
  writable u := True;
  readable u := True
}.
Next Obligation. done. Qed.
Next Obligation. done. Qed.
Next Obligation.
  intros [[] k] u v [Hfd He]; cbn in *; unfold TcpTransceiver.initialize; wp_steps; cbn; wp_steps; cbn;
    try (by split_and!; auto).
  unfold doFinishConnect. destruct (connect_error k) as [e|] eqn:Ee; cbn; [split_and!; try done; by apply (proj1 He)|].
  wp_steps. by split_and!; auto.
Qed.
Next Obligation.
  intros [x k] u [Hfd He] _ Hin _. cbn in *. unfold TcpTransceiver.write, TcpTransceiver.on_socket. apply wp_on.
  pose proof (tcp_write_loop_spec (sends k) _ k u Hfd Hin (packetSize_start u Hin)) as Hs.
  unfold wp. cbn in *.
  destruct (TcpTransceiver.write_loop _ _ _) as [[d|e|f] [k' u']]; cbn in *;
    destruct Hs as (? & Ho & Hl & ? & ? & ?); rewrite ?Ho, ?Hl; try done; split_and!; try done; lia.
Qed.
Next Obligation.
  intros [x k] u [Hfd He] _ Hin _. cbn in *. unfold TcpTransceiver.read, TcpTransceiver.on_socket. apply wp_on.
  pose proof (tcp_read_loop_spec (recvs k) _ k u Hfd Hin (packetSize_start u Hin)) as Hs.
  unfold wp. cbn in *.
  destruct (TcpTransceiver.read_loop _ _ _) as [[d|e|f] [k' u']]; cbn in *;
    destruct Hs as (? & Ho & Hl & ? & ? & ?); rewrite ?Ho, ?Hl; try done; split_and!; try done; lia.
Qed.
Next Obligation.
  intros [x k] [Hfd [Hc Hl]]. cbn in *. unfold TcpTransceiver.close. apply wp_bind, wp_get. cbn. rewrite Hfd.
  wp_steps. apply wp_assert; [done|]. wp_steps. cbn. unfold closeSocket.
  destruct (close_error k) as [e|] eqn:Ee; [split; [by apply Hl|done]|done].
Qed.
Next Obligation.
  intros b x m Hm. cbn. unfold TcpTransceiver.checkSendSize, check_message_size. cbn -[Nat.ltb].
  case_if; bool_to_prop; cbn; [done|]. split; [lia|done].
Qed.

Section udp.
Import UdpTransceiver.

Lemma udp_write_loop_spec rs k u :
  match write_loop rs (k, u) with
  | (Ok d, (k', u')) => fd_open k' = fd_open k /\ local_errors k' = local_errors k /\
      (if d : bool then u' = set_buf_i (buf_end u) u /\ taken k' = taken k ++ buf_b u
       else u' = u /\ taken k' = taken k)
  | (Throw e, (k', u')) => is_local e = true /\ fd_open k' = fd_open k /\ local_errors k' = local_errors k /\
      u' = u /\ taken k' = taken k
  | (Fault _, _) => False
  end.
Proof. induction rs as [|[n| |e| |e|e] rs IH]; cbn; try by split_and!. done. Qed.

Lemma udp_read_loop_spec rs k u :
  match read_loop rs (k, u) with
  | (Ok d, (k', u')) => fd_open k' = fd_open k /\ local_errors k' = local_errors k /\ taken k' = taken k /\
      length (buf_b u') = length (buf_b u) /\ (buf_i u = 0 -> buf_i u' = 0) /\
      match d with Some n => (n <= length (buf_b u))%nat | None => True end
  | (Throw e, (k', u')) => is_local e = true /\ fd_open k' = fd_open k /\ local_errors k' = local_errors k /\
      taken k' = taken k /\ u' = u
  | (Fault _, _) => False
  end.
Proof.
  induction rs as [|[bs| |e| |bs|e|e] rs IH]; cbn -[ByteSeq.store]; try (by split_and!); try done.
  - rewrite ByteSeq.length_store, length_take. split_and!; try done; lia.
  - rewrite ByteSeq.length_store. by split_and!.
Qed.
End udp.

(** A [UdpTransceiver] keeps the laws for the datagrams that fit. *)
#[export] Program Instance udp_laws sndSize rcvSize :
    TransceiverLaws (UdpTransceiver.transceiver sndSize rcvSize) := {
  usable n := fd_open (UdpTransceiver.socket n) = true /\ local_errors (UdpTransceiver.socket n) /\
    (UdpTransceiver.state_ n = UdpTransceiver.StateNotConnected -> UdpTransceiver.incoming n = true);
  connected n := UdpTransceiver.at_least_connected (UdpTransceiver.state_ n) = true;
  writable u := buf_i u = 0 /\
    buf_end u <= Z.min UdpTransceiver.maxPacketSize (sndSize - UdpTransceiver.udpOverhead);
  readable u := buf_i u = 0
}.
Next Obligation. done. Qed.
Next Obligation. done. Qed.
Next Obligation.
  intros snd rcv [x p inc k] u v (Hfd & He & Hinc). cbn in *. unfold UdpTransceiver.initialize.
  destruct x; wp_steps; cbn; wp_steps; cbn; try (by split_and!; auto).
  unfold doFinishConnect. destruct (connect_error k) as [e|] eqn:Ee; cbn; [split_and!; try done; by apply (proj1 He)|].
  wp_steps. by split_and!; auto.
Qed.
Next Obligation.
  intros snd rcv [x p inc k] u (Hfd & He & Hinc) Hc Hin [Hi Hf]. cbn in *. unfold UdpTransceiver.write.
  apply wp_bind, wp_get. cbn.
  apply wp_bind, wp_assert; [by rewrite Hi|]. apply wp_bind, wp_assert; [by rewrite Hfd|].
  apply wp_bind, wp_assert; [by apply Z.leb_le|].
  assert (between u 0 (buf_end u) = buf_b u) as Hb.
  { unfold between, buf_end. rewrite drop_0, Z.sub_0_r, Nat2Z.id. apply firstn_all. }
  assert (0 <= buf_end u) by (unfold buf_end; lia).
  match goal with |- wp _ ?Q ?E ?t =>
    assert (wp (UdpTransceiver.on_socket (fun s => UdpTransceiver.write_loop (sends s.1) s)) Q E t) as Hw end;
    [|destruct x; try done; destruct p; try done; cbn; rewrite between_nil, app_nil_r; by split_and!; try lia].
  unfold UdpTransceiver.on_socket. apply wp_on. pose proof (udp_write_loop_spec (sends k) k u) as Hs.
  unfold wp. cbn. destruct (UdpTransceiver.write_loop _ _) as [[d|e|f] [k' u']]; cbn in *; [|
    destruct Hs as (? & Ho & Hl & -> & Ht); rewrite Ho, Hl, between_nil, app_nil_r; by split_and!; try lia|done].
  destruct Hs as (Ho & Hl & Hd). rewrite Ho, Hl. destruct d; destruct Hd as [-> Ht]; cbn.
  - rewrite Hi, Hb. by split_and!; try lia.
  - rewrite between_nil, app_nil_r. by split_and!; try lia.
Qed.
Next Obligation.
  intros snd rcv [x p inc k] u (Hfd & He & Hinc) Hc Hin Hi. cbn in *. unfold UdpTransceiver.read.
  apply wp_bind, wp_get. cbn. apply wp_bind, wp_assert; [by apply Z.eqb_eq|]. apply wp_bind, wp_assert; [done|].
  apply wp_bind, wp_modify. apply wp_bind, wp_assert; [by destruct x; try done; cbn; apply Hinc|].
  set (n := Z.to_nat _).
  assert (Z.of_nat n < 65536) by (unfold n, UdpTransceiver.maxPacketSize, UdpTransceiver.udpOverhead; lia).
  apply wp_bind. unfold UdpTransceiver.on_socket at 1. apply wp_on. cbn.
  pose proof (udp_read_loop_spec (recvs k) k (MkBuf (ByteSeq.resize n (buf_b u)) 0)) as Hs.
  unfold wp at 1. cbn. destruct (UdpTransceiver.read_loop _ _) as [[d|e|f] [k' u']]; cbn in *; [|
    destruct Hs as (? & Ho & Hl & Ht & ->); rewrite Ho, Hl; unfold in_buf, buf_end; cbn; rewrite ByteSeq.length_resize;
      split_and!; try done; lia|done].
  rewrite ByteSeq.length_resize in Hs. destruct Hs as (Ho & Hl & Ht & Hb & Hi' & Hd).
  destruct d as [m|].
  - destruct x; try done; cbn; wp_steps; cbn; unfold in_buf, buf_end; cbn; rewrite ?ByteSeq.length_resize;
      split_and!; try done; try lia; try congruence.
  - wp_steps. cbn. unfold in_buf, buf_end. rewrite Hb, Hi' by done. split_and!; try done; try lia; congruence.
Qed.
Next Obligation.
  intros snd rcv [x p inc k] (Hfd & He & Hinc). cbn in *. unfold UdpTransceiver.close. wp_steps.
  apply wp_assert; [done|]. wp_steps. cbn. unfold closeSocket.
  destruct (close_error k) as [e|] eqn:Ee; [split; [by apply (proj2 He)|done]|by wp_steps].
Qed.
Next Obligation.
  intros snd rcv b x m Hm. cbn. unfold UdpTransceiver.checkSendSize, check_message_size. cbn -[Nat.ltb].
  destruct (_ <? _)%nat eqn:Em; bool_to_prop; cbn; [done|]. case_if; bool_to_prop; cbn; [done|].
  rewrite to_i32_id in * by (unfold buf_end; cbn; lia). split_and!; [lia|done|done].
Qed.
