(* ===== verification/ConnectionData.v ===== *)
(** * ConnectionI: the members of a connection

    cpp/src/Ice/ConnectionI.h. A connection is an object of its threads: each
    operation locks it, so an operation is one step on the record
    [ConnectionI]. The record has the members of the class that carry state,
    and what the collaborators keep for this connection: its transceiver, the
    operations that the selector watches, the [FinishedWorkItem]s in the work
    queue of the thread pool, its two tasks in the timer, its membership in
    the connection monitor, the monotonic clock, and the calls that the
    connection made on the objects of its callers. Observers, traces and
    warnings have no part in it. *)

From S2P Require Import Prelude Hoare Buffer Layout Protocol Stream Encaps Transceiver.

(** ** States *)

Inductive State : Type :=
  | StateNotInitialized
  | StateNotValidated
  | StateActive
  | StateHolding
  | StateClosing
  | StateClosed
  | StateFinished.

#[export] Instance State_eq_dec : EqDecision State.
Proof. solve_decision. Defined.

(** The values of the enumerators, which the code compares *)
Definition state_code (s : State) : Z :=
  match s with
  | StateNotInitialized => 0
  | StateNotValidated => 1
  | StateActive => 2
  | StateHolding => 3
  | StateClosing => 4
  | StateClosed => 5
  | StateFinished => 6
  end.

Declare Scope state_scope.
Delimit Scope state_scope with state.
Notation "a <= b" := (state_code a <= state_code b) : state_scope.
Notation "a < b" := (state_code a < state_code b) : state_scope.
Notation "a <=? b" := (state_code a <=? state_code b) : state_scope.
Notation "a <? b" := (state_code a <? state_code b) : state_scope.
Notation "a =? b" := (state_code a =? state_code b) : state_scope.

Lemma state_code_inj a b : state_code a = state_code b -> a = b.
Proof. by destruct a, b. Qed.

(** ** Messages and callers *)

(** The object that an [OutgoingMessage] belongs to: none for a response and
    a close message, an [OutgoingMessageCallback], or an
    [OutgoingAsyncMessageCallback]. [wants_sent] is what its [__sent] answers:
    whether its sent callback has to be called. *)
Inductive Target : Type :=
  | NoTarget
  | Out (call : nat)
  | OutAsync (call : nat) (wants_sent : bool).

#[export] Instance Target_eq_dec : EqDecision Target.
Proof. solve_decision. Defined.

(** Calls on the callers, which their addresses tell apart, on the start
    callback and on the reaper *)
Inductive Event : Type :=
  | CallSent (call : nat) (notify : bool)
  | CallFinished (call : nat) (ex : exn) (isSent : bool)
  | CallReply (call : nat) (message : list byte)
  | CallReplyAsync (call : nat) (message : list byte)
  | StartCompleted (callback : nat)
  | StartFailed (callback : nat) (ex : exn)
  | ReaperAdd.

(** [AsyncStatus] *)
Record AsyncStatus : Type := MkStatus { statusSent : bool; invokeSentCallback : bool }.
Definition AsyncStatusQueued : AsyncStatus := MkStatus false false.

Inductive DestructionReason : Type := ObjectAdapterDeactivated | CommunicatorDestroyed.

(** ** What a connection is configured with *)

(** Parameters of the communicator ([Instance]), of the endpoint and of the
    adapters. *)
Class Settings : Type := {
  instance_messageSizeMax : nat;
  instance_stringConverter : option (StringConverter ascii);
  instance_wstringConverter : StringConverter wchar;
  clientACM : Z;
  property_compressionLevel : Z;
  property_batchAutoFlush : bool;
  endpoint_timeout : Z;
  overrideConnectTimeout : option Z;
  overrideCloseTimeout : option Z;
  adapter_ACM : nat -> Z;
  adapter_getServantManager : nat -> option nat
}.

(** The functions of bzip2, for a buffer of [room] bytes, where the platform
    has the library. They fail with a code. *)
Class BZip2 : Type := {
  has_bzip2 : bool;
  bz_compress : Z -> Z -> list byte -> list byte + Z;
  bz_decompress : Z -> list byte -> list byte + Z
}.

(** How a synchronous call reads its reply ([Outgoing::finished]). *)
Class ReplyReader (D E : Type) : Type := {
  outgoing_finished : BasicStream D E -> result unit
}.

(** ** The members *)

Section connection.
Context {D E : Type} {TR : Transceiver}.
Local Abbreviation stream := (BasicStream D E).

Record OutgoingMessage : Type := MkMessage {
  om_stream : stream;
  om_target : Target;
  om_compress : bool;
  om_requestId : Z;
  om_adopted : bool;
  om_isSent : bool
}.

Definition set_om_stream (s : stream) (m : OutgoingMessage) : OutgoingMessage :=
  MkMessage s (om_target m) (om_compress m) (om_requestId m) (om_adopted m) (om_isSent m).

Record ConnectionI : Type := MkConnection {
  _adapter : option nat;
  _servantManager : option nat;
  _writeTimeoutScheduled : bool;
  _readTimeoutScheduled : bool;
  _startCallback : option nat;
  _acmTimeout : Z;
  _acmAbsoluteTimeout : Z;
  _compressionLevel : Z;
  _nextRequestId : Z;
  _requests : gmap Z nat;
  _requestsHint : option Z;
  _asyncRequests : gmap Z nat;
  _asyncRequestsHint : option Z;
  _exception : option exn;
  _batchAutoFlush : bool;
  _batchStream : stream;
  _batchStreamInUse : bool;
  _batchRequestNum : Z;
  _batchRequestCompress : bool;
  _batchMarker : nat;
  _sendStreams : list OutgoingMessage;
  _readStream : stream;
  _readHeader : bool;
  _writeStream : stream;
  _dispatchCount : Z;
  _state : State;
  _shutdownInitiated : bool;
  _validated : bool;
  _transceiver : net;
  _registered : SocketOperation;
  finish_items : nat;
  write_task : bool;
  read_task : bool;
  monitored : bool;
  clock : Z;
  calls : list Event
}.

Definition eta_ (c : ConnectionI) : ConnectionI :=
  MkConnection (_adapter c) (_servantManager c) (_writeTimeoutScheduled c) (_readTimeoutScheduled c)
  (_startCallback c) (_acmTimeout c) (_acmAbsoluteTimeout c) (_compressionLevel c) (_nextRequestId c) (_requests
  c) (_requestsHint c) (_asyncRequests c) (_asyncRequestsHint c) (_exception c) (_batchAutoFlush c)
  (_batchStream c) (_batchStreamInUse c) (_batchRequestNum c) (_batchRequestCompress c) (_batchMarker c)
  (_sendStreams c) (_readStream c) (_readHeader c) (_writeStream c) (_dispatchCount c) (_state c)
  (_shutdownInitiated c) (_validated c) (_transceiver c) (_registered c) (finish_items c) (write_task c)
  (read_task c) (monitored c) (clock c) (calls c).

(** [member f x c]: the object [c] with the member [f] assigned. *)
Ltac member f x c :=
  let e := eval cbv beta delta [eta_] in (eta_ c) in
  let p := eval pattern (f c) in e in
  lazymatch p with ?g _ => let r := eval cbv beta in (g x) in exact r end.

Definition set_adapter (x : option nat) (c : ConnectionI) : ConnectionI := ltac:(member _adapter x c).
Definition set_servantManager (x : option nat) (c : ConnectionI) : ConnectionI := ltac:(member _servantManager x c).
Definition set_writeTimeoutScheduled (x : bool) (c : ConnectionI) : ConnectionI := ltac:(member _writeTimeoutScheduled x c).
Definition set_readTimeoutScheduled (x : bool) (c : ConnectionI) : ConnectionI := ltac:(member _readTimeoutScheduled x c).
Definition set_startCallback (x : option nat) (c : ConnectionI) : ConnectionI := ltac:(member _startCallback x c).
Definition set_acmAbsoluteTimeout (x : Z) (c : ConnectionI) : ConnectionI := ltac:(member _acmAbsoluteTimeout x c).
Definition set_nextRequestId (x : Z) (c : ConnectionI) : ConnectionI := ltac:(member _nextRequestId x c).
Definition set_requests (x : gmap Z nat) (c : ConnectionI) : ConnectionI := ltac:(member _requests x c).
Definition set_requestsHint (x : option Z) (c : ConnectionI) : ConnectionI := ltac:(member _requestsHint x c).
Definition set_asyncRequests (x : gmap Z nat) (c : ConnectionI) : ConnectionI := ltac:(member _asyncRequests x c).
Definition set_asyncRequestsHint (x : option Z) (c : ConnectionI) : ConnectionI := ltac:(member _asyncRequestsHint x c).
Definition set_exception (x : option exn) (c : ConnectionI) : ConnectionI := ltac:(member _exception x c).
Definition set_batchStream (x : stream) (c : ConnectionI) : ConnectionI := ltac:(member _batchStream x c).
Definition set_batchStreamInUse (x : bool) (c : ConnectionI) : ConnectionI := ltac:(member _batchStreamInUse x c).
Definition set_batchRequestNum (x : Z) (c : ConnectionI) : ConnectionI := ltac:(member _batchRequestNum x c).
Definition set_batchRequestCompress (x : bool) (c : ConnectionI) : ConnectionI := ltac:(member _batchRequestCompress x c).
Definition set_batchMarker (x : nat) (c : ConnectionI) : ConnectionI := ltac:(member _batchMarker x c).
Definition set_sendStreams (x : list OutgoingMessage) (c : ConnectionI) : ConnectionI := ltac:(member _sendStreams x c).
Definition set_readStream (x : stream) (c : ConnectionI) : ConnectionI := ltac:(member _readStream x c).
Definition set_readHeader (x : bool) (c : ConnectionI) : ConnectionI := ltac:(member _readHeader x c).
Definition set_writeStream (x : stream) (c : ConnectionI) : ConnectionI := ltac:(member _writeStream x c).
Definition set_dispatchCount (x : Z) (c : ConnectionI) : ConnectionI := ltac:(member _dispatchCount x c).
Definition set_state (x : State) (c : ConnectionI) : ConnectionI := ltac:(member _state x c).
Definition set_shutdownInitiated (x : bool) (c : ConnectionI) : ConnectionI := ltac:(member _shutdownInitiated x c).
Definition set_validated (x : bool) (c : ConnectionI) : ConnectionI := ltac:(member _validated x c).
Definition set_transceiver (x : net) (c : ConnectionI) : ConnectionI := ltac:(member _transceiver x c).
Definition set_registered (x : SocketOperation) (c : ConnectionI) : ConnectionI := ltac:(member _registered x c).
Definition set_finish_items (x : nat) (c : ConnectionI) : ConnectionI := ltac:(member finish_items x c).
Definition set_write_task (x : bool) (c : ConnectionI) : ConnectionI := ltac:(member write_task x c).
Definition set_read_task (x : bool) (c : ConnectionI) : ConnectionI := ltac:(member read_task x c).
Definition set_monitored (x : bool) (c : ConnectionI) : ConnectionI := ltac:(member monitored x c).
Definition set_clock (x : Z) (c : ConnectionI) : ConnectionI := ltac:(member clock x c).
Definition set_calls (x : list Event) (c : ConnectionI) : ConnectionI := ltac:(member calls x c).

(** ** Local variables of [message]

    The arguments of [DispatchDispatcherCall], which [message] and
    [parseMessage] fill in while they work. *)
Record Job : Type := MkJob {
  startCB : option nat;
  sentCBs : list Target;
  compress : byte;
  requestId : Z;
  invokeNum : Z;
  servantManager : option nat;
  adapter : option nat;
  outAsync : option nat;
  job_stream : stream
}.

Definition eta_job (j : Job) : Job :=
  MkJob (startCB j) (sentCBs j) (compress j) (requestId j) (invokeNum j) (servantManager j) (adapter j)
    (outAsync j) (job_stream j).

Ltac job_member f x j :=
  let e := eval cbv beta delta [eta_job] in (eta_job j) in
  let p := eval pattern (f j) in e in
  lazymatch p with ?g _ => let r := eval cbv beta in (g x) in exact r end.

Definition set_startCB (x : option nat) (j : Job) : Job := ltac:(job_member startCB x j).
Definition set_sentCBs (x : list Target) (j : Job) : Job := ltac:(job_member sentCBs x j).
Definition set_compress (x : byte) (j : Job) : Job := ltac:(job_member compress x j).
Definition set_requestId (x : Z) (j : Job) : Job := ltac:(job_member requestId x j).
Definition set_invokeNum (x : Z) (j : Job) : Job := ltac:(job_member invokeNum x j).
Definition set_job_servantManager (x : option nat) (j : Job) : Job := ltac:(job_member servantManager x j).
Definition set_job_adapter (x : option nat) (j : Job) : Job := ltac:(job_member adapter x j).
Definition set_outAsync (x : option nat) (j : Job) : Job := ltac:(job_member outAsync x j).
Definition set_job_stream (x : stream) (j : Job) : Job := ltac:(job_member job_stream x j).
End connection.
