(* ===== verification/ConnectionSend.v ===== *)
(** * ConnectionI: timers, threads, and the queue of outgoing messages

    cpp/src/Ice/ConnectionI.h (scheduleTimeout, unscheduleTimeout) and the
    part of cpp/src/Ice/ConnectionI.cpp that frames, compresses and sends
    messages, for platforms with select: [OutgoingMessage], [sendMessage],
    [doCompress], [doUncompress], [connectTimeout], [closeTimeout]. *)

From S2P Require Import Prelude Hoare Buffer Layout Protocol Stream Encaps Transceiver ConnectionData.

Section send.
Context `{PL : Platform} {D E : Type} {TR : Transceiver} {ST : Settings} {BZ : BZip2}.
Local Abbreviation stream := (BasicStream D E).
Local Abbreviation conn := (@ConnectionI D E TR).
Local Abbreviation message := (@OutgoingMessage D E).

(** [BasicStream(_instance, currentProtocolEncoding, unlimited)] *)
Definition new_stream (unlim : bool) : stream :=
  stream_new currentProtocolEncoding instance_messageSizeMax unlim instance_stringConverter
    instance_wstringConverter.

Definition emit (e : Event) : M conn unit := modify (fun c => set_calls (calls c ++ [e]) c).

(** ** The thread pool and the timer *)

(** [Selector::update] on [EventHandler::_registered] *)
Definition selector_update (remove add : SocketOperation) (r : SocketOperation) : SocketOperation :=
  MkOp (op_read r && negb (op_read remove) || op_read add)
    (op_write r && negb (op_write remove) || op_write add).

Definition pool_update (remove add : SocketOperation) : M conn unit :=
  modify (fun c => set_registered (selector_update remove add (_registered c)) c).
Definition pool_register (op : SocketOperation) : M conn unit := pool_update SocketOperationNone op.
Definition pool_unregister (op : SocketOperation) : M conn unit := pool_update op SocketOperationNone.
Definition pool_finish : M conn unit :=
  modify (fun c => set_finish_items (S (finish_items c)) (set_registered SocketOperationNone c)).

(** [Timer::schedule] throws for a task that is already scheduled, and the
    handler in [scheduleTimeout] is [assert(false)]. *)
Definition scheduleTimeout (status : SocketOperation) (timeout : Z) : M conn unit :=
  if timeout <? 0 then mret tt
  else
    when (op_read status) (
      c ← get;
      assertM (negb (read_task c));;
      modify (fun c => set_readTimeoutScheduled true (set_read_task true c)));;
    when (op_write status) (
      c ← get;
      assertM (negb (write_task c));;
      modify (fun c => set_writeTimeoutScheduled true (set_write_task true c))).

Definition unscheduleTimeout (status : SocketOperation) : M conn unit :=
  c ← get;
  when (op_read status && _readTimeoutScheduled c)
    (modify (fun c => set_readTimeoutScheduled false (set_read_task false c)));;
  when (op_write status && _writeTimeoutScheduled c)
    (modify (fun c => set_writeTimeoutScheduled false (set_write_task false c))).

Definition connectTimeout : Z := default endpoint_timeout overrideConnectTimeout.
Definition closeTimeout : Z := default endpoint_timeout overrideCloseTimeout.

(** [_acmAbsoluteTimeout = now + seconds(_acmTimeout)], in microseconds *)
Definition touch_acm : M conn unit :=
  c ← get;
  when (0 <? _acmTimeout c) (modify (set_acmAbsoluteTimeout (clock c + _acmTimeout c * 1000000))).

(** ** Streams and the transceiver *)

(** A null cursor *)
Definition null_i : Z := -1.

Definition buf_of (s : stream) : Buf := MkBuf (b s) (i s).
Definition set_buf (u : Buf) (s : stream) : stream := set_i (buf_i u) (set_b (buf_b u) s).

(** [_transceiver->write(_writeStream)] and [_transceiver->read(_readStream)] *)
Definition write_writeStream : M conn bool :=
  on (fun c => (_transceiver c, buf_of (_writeStream c)))
    (fun r c => set_transceiver r.1 (set_writeStream (set_buf r.2 (_writeStream c)) c)) tr_write.
Definition read_readStream : M conn bool :=
  on (fun c => (_transceiver c, buf_of (_readStream c)))
    (fun r c => set_transceiver r.1 (set_readStream (set_buf r.2 (_readStream c)) c)) tr_read.

(** [_transceiver->write(stream)] for a stream that the connection does not
    hold: the answer and the stream it leaves. *)
Definition write_stream (s : stream) : M conn (bool * stream) := fun c =>
  let '(r, (n, u)) := tr_write (_transceiver c, buf_of s) in
  (done ← r; Ok (done, set_buf u s), set_transceiver n c).

Definition on_readStream {A} (m : M stream A) : M conn A := on _readStream set_readStream m.
Definition on_writeStream {A} (m : M stream A) : M conn A := on _writeStream set_writeStream m.

(** ** OutgoingMessage *)

(** [adopt(str)]; with [None], the message adopts the stream it has. *)
Definition adopt (str : option stream) (m : message) : message :=
  let adopt_stream s :=
    MkMessage (fst (swap (new_stream false) s)) (om_target m) (om_compress m) (om_requestId m) true (om_isSent m) in
  match str with
  | Some s => adopt_stream s
  | None =>
      if om_adopted m then m
      else
        match om_target m with
        | NoTarget => adopt_stream (om_stream m)
        | _ => m
        end
  end.

(** [sent(connection, notify)] *)
Definition message_sent (m : message) (notify : bool) : M conn bool :=
  match om_target m with
  | NoTarget => mret false
  | Out call => emit (CallSent call notify);; mret false
  | OutAsync call wants_sent => emit (CallSent call notify);; mret wants_sent
  end.

(** [finished(ex)] *)
Definition message_finished (ex : exn) (m : message) : M conn unit :=
  match om_target m with
  | NoTarget => mret tt
  | Out call | OutAsync call _ => emit (CallFinished call ex (om_isSent m))
  end.

(** ** Framing *)

(** "No compression, just fill in the message size." *)
Definition frame_plain (compress : bool) : M stream unit :=
  when compress (store 9 [chr 1]);;
  sz ← gets b_size;
  store 10 (encode_scalar Int (to_i32 (Z.of_nat sz)));;
  modify (set_i 0).

(** [compressedLen] before the call: [uncompressedLen * 1.01 + 600] *)
Definition compress_room (uncompressedLen : Z) : Z := uncompressedLen * 101 / 100 + 600.

(** The codes of bzlib.h *)
Definition getBZ2Error (bzError : Z) : str :=
  if bzError =? 1 then lit ": BZ_RUN_OK"
  else if bzError =? 2 then lit ": BZ_FLUSH_OK"
  else if bzError =? 3 then lit ": BZ_FINISH_OK"
  else if bzError =? 4 then lit ": BZ_STREAM_END"
  else if bzError =? -9 then lit ": BZ_CONFIG_ERROR"
  else if bzError =? -1 then lit ": BZ_SEQUENCE_ERROR"
  else if bzError =? -2 then lit ": BZ_PARAM_ERROR"
  else if bzError =? -3 then lit ": BZ_MEM_ERROR"
  else if bzError =? -4 then lit ": BZ_DATA_ERROR"
  else if bzError =? -5 then lit ": BZ_DATA_ERROR_MAGIC"
  else if bzError =? -6 then lit ": BZ_IO_ERROR"
  else if bzError =? -7 then lit ": BZ_UNEXPECTED_EOF"
  else if bzError =? -8 then lit ": BZ_OUTBUFF_FULL"
  else [].

Definition compression_failed {A} (code : Z) : result A :=
  Throw (CompressionException (lit "BZ2_bzBuffToBuffCompress failed" ++ getBZ2Error code)).

(** The compressed stream, and the uncompressed one, whose header has changed *)
Definition doCompress (level : Z) (uncompressed : stream) : result (stream * stream) :=
  let uncompressedLen := Z.of_nat (b_size uncompressed - headerSize) in
  match bz_compress level (compress_room uncompressedLen) (drop headerSize (b uncompressed)) with
  | inr code => compression_failed code
  | inl out =>
      let compressedSize := (headerSize + 4 + length out)%nat in
      let '(r, u) := store 10 (encode_scalar Int (to_i32 (Z.of_nat compressedSize))) uncompressed in
      _ ← r;
      let uncompressedSize := encode_scalar Int (to_i32 (Z.of_nat (b_size u))) in
      Ok (set_b (take headerSize (b u) ++ uncompressedSize ++ out) (new_stream false), u)
  end.

Definition doUncompress (compressed : stream) : result stream :=
  let '(r, c) := read_Int (set_i (Z.of_nat headerSize) compressed) in
  uncompressedSize ← r;
  if uncompressedSize <=? Z.of_nat headerSize then Throw IllegalMessageSizeException
  else
    let '(r, u) := resize (Z.to_nat uncompressedSize) (new_stream false) in
    _ ← r;
    match bz_decompress (uncompressedSize - Z.of_nat headerSize) (drop (headerSize + 4) (b compressed)) with
    | inr code => compression_failed code
    | inl out => Ok (set_b (ByteSeq.store 0 (take headerSize (b compressed)) (ByteSeq.store headerSize out (b u))) u)
    end.

(** The bytes of a message are ready to be sent: the stream to write, and
    whether it is a compressed one that replaces the stream of the message. *)
Definition frame (level : Z) (m : message) : result (stream * bool) :=
  if has_bzip2 && om_compress m && (100 <=? b_size (om_stream m))%nat then
    let '(r, u) := store 9 [chr 2] (om_stream m) in
    _ ← r;
    cs ← doCompress level u;
    Ok (set_i 0 cs.1, true)
  else
    let '(r, u) := frame_plain (om_compress m) (om_stream m) in
    _ ← r;
    Ok (u, false).

(** ** sendMessage *)

(** [_writeStream.swap] with the stream of the last or the first message *)
Definition swap_writeStream (m : message) (c : conn) : message * conn :=
  let '(w, s) := swap (_writeStream c) (om_stream m) in
  (set_om_stream s m, set_writeStream w c).

Definition is_nil {A} (l : list A) : bool := match l with [] => true | _ => false end.

Definition sendMessage (m : message) : M conn AsyncStatus :=
  c ← get;
  assertM (_state c <? StateClosed)%state;;
  let m := set_om_stream (set_i null_i (om_stream m)) m in
  if negb (is_nil (_sendStreams c)) then
    modify (fun c => set_sendStreams (_sendStreams c ++ [adopt None m]) c);;
    mret AsyncStatusQueued
  else
    framed ← lift (frame (_compressionLevel c) m);
    written ← write_stream framed.1;
    if written.1 : bool then
      invoke ← message_sent m false;
      touch_acm;;
      mret (MkStatus true invoke)
    else
      let m := if framed.2 : bool then adopt (Some written.2) m
               else adopt None (set_om_stream written.2 m) in
      modify (fun c => let '(m, c) := swap_writeStream m c in set_sendStreams (_sendStreams c ++ [m]) c);;
      scheduleTimeout SocketOperationWrite endpoint_timeout;;
      pool_register SocketOperationWrite;;
      mret AsyncStatusQueued.
End send.
