(* ===== verification/ConnectionState.v ===== *)
(** * ConnectionI: construction, validation and the change of state

    cpp/src/Ice/ConnectionI.cpp: the constructor, [setState] in its two forms,
    [initiateShutdown], [initialize] and [validate]. *)

From S2P Require Import Prelude Hoare Buffer Layout Protocol Stream Encaps Transceiver ConnectionData ConnectionSend.

Section state.
Context `{PL : Platform} {D E : Type} {TR : Transceiver} {ST : Settings} {BZ : BZip2}.
Local Abbreviation stream := (BasicStream D E).
Local Abbreviation conn := (@ConnectionI D E TR).
Local Abbreviation message := (@OutgoingMessage D E).

(** ** Construction *)

Definition clamp_compressionLevel (level : Z) : Z :=
  if level <? 1 then 1 else if 9 <? level then 9 else level.

Definition ConnectionI_new (n : net) (now : Z) (adapter : option nat) : conn :=
  MkConnection adapter (adapter ≫= adapter_getServantManager) false false None
    (if tr_datagram then 0 else match adapter with Some a => adapter_ACM a | None => clientACM end) 0
    (clamp_compressionLevel property_compressionLevel)
    1 ∅ None ∅ None
    None property_batchAutoFlush (new_stream property_batchAutoFlush) false 0
    false 0 []
    (new_stream false) false (new_stream false) 0 StateNotInitialized
    false false
    n SocketOperationNone 0 false false
    false now [].

(** ** The change of state *)

(** The 14 bytes of a message without a body *)
Definition header (messageType compress : byte) : M stream unit :=
  write_Byte (chr 73);; write_Byte (chr 99);; write_Byte (chr 101);; write_Byte (chr 80);;
  write_EncodingVersion currentProtocol;;
  write_EncodingVersion currentProtocolEncoding;;
  write_Byte messageType;;
  write_Byte compress;;
  write_Int (Z.of_nat headerSize).

(** "The CloseConnection message": compression supported but not used *)
Definition initiateShutdown : M conn unit :=
  c ← get;
  assertM (_state c =? StateClosing)%state;;
  assertM (_dispatchCount c =? 0);;
  assertM (negb (_shutdownInitiated c));;
  modify (set_shutdownInitiated true);;
  when (negb tr_datagram) (
    let '(r, os) := header closeConnectionMsg (chr 1) (new_stream false) in
    lift r;;
    status ← sendMessage (MkMessage os NoTarget false 0 false false);
    when (statusSent status) (scheduleTimeout SocketOperationWrite closeTimeout)).

(** The state that [setState] switches to: no graceful shutdown for a datagram
    connection and before the validation. *)
Definition effective_state (current state : State) : State :=
  if tr_datagram && bool_decide (state = StateClosing) then StateClosed
  else if (current <=? StateNotValidated)%state && bool_decide (state = StateClosing) then StateClosed
  else state.

(** The [switch] of [setState]: whether it goes on to the new state *)
Definition leave_state (state : State) : M conn bool :=
  c ← get;
  let current := _state c in
  match state with
  | StateNotInitialized => assertM false;; mret true
  | StateNotValidated =>
      if negb (bool_decide (current = StateNotInitialized))
      then assertM (bool_decide (current = StateClosed));; mret false
      else mret true
  | StateActive =>
      if negb (bool_decide (current = StateHolding)) && negb (bool_decide (current = StateNotValidated))
      then mret false
      else pool_register SocketOperationRead;; mret true
  | StateHolding =>
      if negb (bool_decide (current = StateActive)) && negb (bool_decide (current = StateNotValidated))
      then mret false
      else when (bool_decide (current = StateActive)) (pool_unregister SocketOperationRead);; mret true
  | StateClosing =>
      if (StateClosed <=? current)%state then mret false
      else when (bool_decide (current = StateHolding)) (pool_register SocketOperationRead);; mret true
  | StateClosed =>
      if bool_decide (current = StateFinished) then mret false
      else pool_finish;; mret true
  | StateFinished =>
      assertM (bool_decide (current = StateClosed));;
      on _transceiver set_transceiver tr_close;;
      mret true
  end.

(** [setState(state)] up to the notification: whether the state has changed.
    "unexpected connection exception" are logged and ignored. *)
Definition switchState (state : State) : M conn bool :=
  c ← get;
  let current := _state c in
  let state := effective_state current state in
  if bool_decide (current = state) then mret false
  else
    go ← try_local (leave_state state) (fun _ => mret true);
    if go : bool then
      when (0 <? _acmTimeout c) (
        if bool_decide (state = StateActive) then modify (set_monitored true)
        else when (bool_decide (current = StateActive)) (modify (set_monitored false)));;
      modify (set_state state);;
      mret true
    else mret false.

(** [_exception.reset(ex.ice_clone())], unless there is one *)
Definition set_first_exception (ex : exn) : M conn unit :=
  c ← get;
  match _exception c with
  | Some _ => mret tt
  | None =>
      assertM (negb (bool_decide (_state c = StateClosed)));;
      modify (set_exception (Some ex))
  end.

(** [setState(StateClosed, ex)]. Its inner call has nothing left to do after
    the switch, since the state is not [StateClosing] then. *)
Definition close_with (ex : exn) : M conn unit :=
  c ← get;
  if bool_decide (_state c = StateClosed) then mret tt
  else
    set_first_exception ex;;
    switchState StateClosed;;
    mret tt.

(** [setState(state)] *)
Definition setState (state : State) : M conn unit :=
  switched ← switchState state;
  c ← get;
  when ((switched : bool) && bool_decide (_state c = StateClosing) && (_dispatchCount c =? 0))
    (try_local initiateShutdown close_with).

(** [setState(state, ex)] *)
Definition setState_ex (state : State) (ex : exn) : M conn unit :=
  c ← get;
  assertM (StateClosing <=? state)%state;;
  if bool_decide (_state c = state) then mret tt
  else
    set_first_exception ex;;
    setState state.

(** ** Validation *)

Definition initialize_streams : M (net * (stream * stream)) SocketOperation :=
  on (fun s => (s.1, (buf_of s.2.1, buf_of s.2.2)))
    (fun r s => (r.1, (set_buf r.2.1 s.2.1, set_buf r.2.2 s.2.2))) tr_initialize.

Definition initialize (operation : SocketOperation) : M conn bool :=
  s ← on (fun c => (_transceiver c, (_readStream c, _writeStream c)))
        (fun r c => set_transceiver r.1 (set_readStream r.2.1 (set_writeStream r.2.2 c))) initialize_streams;
  if negb (bool_decide (s = SocketOperationNone)) then
    scheduleTimeout s connectTimeout;;
    pool_update operation s;;
    mret false
  else
    setState StateNotValidated;;
    mret true.

(** The checks on the header of the message that validates a connection *)
Definition check_validate_header : M stream unit :=
  m0 ← read_Byte; m1 ← read_Byte; m2 ← read_Byte; m3 ← read_Byte;
  if negb (bool_decide ([m0; m1; m2; m3] = magic)) then throw (BadMagicException [m0; m1; m2; m3])
  else
    pv ← read_EncodingVersion;
    lift (checkSupportedProtocol pv);;
    ev ← read_EncodingVersion;
    lift (checkSupportedProtocolEncoding ev);;
    messageType ← read_Byte;
    if negb (ceq messageType validateConnectionMsg) then throw ConnectionNotValidatedException
    else
      compress ← read_Byte;
      size ← read_Int;
      if negb (size =? Z.of_nat headerSize) then throw IllegalMessageSizeException else mret tt.

(** "The server side has the active role for connection validation." *)
Definition validate_server (operation : SocketOperation) : M conn bool :=
  c ← get;
  when (is_nil (b (_writeStream c))) (
    on_writeStream (header validateConnectionMsg (chr 0);; modify (set_i 0)));;
  c ← get;
  done ← (if i (_writeStream c) =? b_end (_writeStream c) then mret true else write_writeStream);
  if negb done then
    scheduleTimeout SocketOperationWrite connectTimeout;;
    pool_update operation SocketOperationWrite;;
    mret false
  else mret true.

(** "The client side has the passive role for connection validation." *)
Definition validate_client (operation : SocketOperation) : M conn bool :=
  c ← get;
  when (is_nil (b (_readStream c))) (
    modify (set_readStream (set_i 0 (set_b (ByteSeq.resize headerSize (b (_readStream c))) (_readStream c)))));;
  c ← get;
  done ← (if i (_readStream c) =? b_end (_readStream c) then mret true else read_readStream);
  if negb done then
    scheduleTimeout SocketOperationRead connectTimeout;;
    pool_update operation SocketOperationRead;;
    mret false
  else
    c ← get;
    assertM (i (_readStream c) =? b_end (_readStream c));;
    on_readStream (modify (set_i 0);; check_validate_header);;
    modify (set_validated true);;
    mret true.

(** [_readStream.resize(headerSize); _readStream.i = _readStream.b.begin()] *)
Definition reset_readStream : M conn unit :=
  on_readStream (resize headerSize;; modify (set_i 0));;
  modify (set_readHeader true).

Definition validate (operation : SocketOperation) : M conn bool :=
  done ← (if tr_datagram then mret true
    else
      c ← get;
      match _adapter c with
      | Some _ => validate_server operation
      | None => validate_client operation
      end);
  if done : bool then
    on_writeStream (resize 0;; modify (set_i 0));;
    reset_readStream;;
    mret true
  else mret false.
End state.
