(* ===== verification/Connection.v ===== *)
(** * ConnectionI: the operations of a connection

    cpp/src/Ice/ConnectionI.cpp. Each operation runs with the connection
    locked. One that waits on the monitor is split: its guard is the condition
    of its [while] loop, and the step that follows runs when the guard holds.
    Callbacks that run without the lock are the business of [dispatch] and
    [invokeAll], which come back with [sendResponse], [sendNoResponse],
    [invokeException] and [dispatch_done]. *)

From S2P Require Import Prelude Hoare Buffer Layout Protocol Stream Encaps Transceiver.
From S2P Require Import ConnectionData ConnectionSend ConnectionState OrderedMap.

Section connection.
Context `{PL : Platform} {D E : Type} {TR : Transceiver} {ST : Settings} {BZ : BZip2} {RR : ReplyReader D E}.
Local Abbreviation stream := (BasicStream D E).
Local Abbreviation conn := (@ConnectionI D E TR).
Local Abbreviation omessage := (@OutgoingMessage D E).
Local Abbreviation job := (@Job D E).

(** [_exception->ice_throw()], after [assert(_exception.get())] *)
Definition throw_exception {A} : M conn A :=
  c ← get;
  match _exception c with
  | Some ex => throw ex
  | None => faultM AssertionFailure
  end.

(** ** Life cycle *)

(** How [start] ends: the connection is ready, it is not validated yet and
    the callback is stored, or the caller has to wait. *)
Inductive StartOutcome : Type := Started | StartPending | StartWaiting.

Definition exception (ex : exn) : M conn unit := setState_ex StateClosed ex.

(** The handler of [start]. Without a callback, the caller waits until the
    connection is finished and gets the exception. *)
Definition start_failed {A} (callback : option nat) (outcome : A) (ex : exn) : M conn A :=
  exception ex;;
  match callback with
  | Some cb =>
      c ← get;
      match _exception c with
      | Some ex => emit (StartFailed cb ex);; mret outcome
      | None => faultM UndefinedBehaviour
      end
  | None => throw ex
  end.

Definition start (callback : option nat) : M conn StartOutcome :=
  outcome ← try_local (
    c ← get;
    if (StateClosed <=? _state c)%state then throw_exception
    else
      ready ← initialize SocketOperationNone;
      ready ← (if ready : bool then validate SocketOperationNone else mret false);
      if ready : bool then setState StateHolding;; mret Started
      else
        match callback with
        | Some cb => modify (set_startCallback (Some cb));; mret StartPending
        | None => mret StartWaiting
        end) (start_failed callback StartPending);
  match outcome, callback with
  | Started, Some cb => emit (StartCompleted cb);; mret Started
  | _, _ => mret outcome
  end.

(** [while(_state <= StateNotValidated)] in [start] *)
Definition start_waits (c : conn) : bool := (_state c <=? StateNotValidated)%state.

Definition start_resume : M conn unit :=
  try_local (
    c ← get;
    if (StateClosing <=? _state c)%state then throw_exception
    else setState StateHolding) (start_failed None tt).

Definition activate : M conn unit :=
  c ← get;
  if (_state c <=? StateNotValidated)%state then mret tt
  else touch_acm;; setState StateActive.

Definition hold : M conn unit :=
  c ← get;
  if (_state c <=? StateNotValidated)%state then mret tt
  else setState StateHolding.

Definition destroy (reason : DestructionReason) : M conn unit :=
  match reason with
  | ObjectAdapterDeactivated => setState_ex StateClosing ObjectAdapterDeactivatedException
  | CommunicatorDestroyed => setState_ex StateClosing CommunicatorDestroyedException
  end.

(** [while(!_requests.empty() || !_asyncRequests.empty())] in [close(false)] *)
Definition close_waits (c : conn) : bool :=
  negb (bool_decide (_requests c = ∅)) || negb (bool_decide (_asyncRequests c = ∅)).

Definition close (force : bool) : M conn unit :=
  if force then setState_ex StateClosed ForcedCloseConnectionException
  else setState_ex StateClosing CloseConnectionException.

Definition isActiveOrHolding (c : conn) : bool :=
  (StateNotValidated <? _state c)%state && (_state c <? StateClosing)%state.

Definition isFinished (c : conn) : bool :=
  negb (negb (bool_decide (_state c = StateFinished)) || negb (_dispatchCount c =? 0)).

Definition throwException : M conn unit :=
  c ← get;
  match _exception c with
  | Some ex => assertM (StateClosing <=? _state c)%state;; throw ex
  | None => mret tt
  end.

Definition waitUntilHolding_waits (c : conn) : bool :=
  (_state c <? StateHolding)%state || (0 <? _dispatchCount c).

Definition waitUntilFinished_waits (c : conn) : bool :=
  (_state c <? StateFinished)%state || (0 <? _dispatchCount c).

Definition waitUntilFinished : M conn unit :=
  c ← get;
  assertM (bool_decide (_state c = StateFinished));;
  modify (set_adapter None).

(** Active connection management; the monitor skips a connection that is
    locked. *)
Definition monitor (now : Z) : M conn unit :=
  c ← get;
  if negb (bool_decide (_state c = StateActive)) then mret tt
  else if (_acmTimeout c <=? 0) || negb (bool_decide (_requests c = ∅)) ||
    negb (bool_decide (_asyncRequests c = ∅)) || (0 <? _dispatchCount c) ||
    (Z.of_nat headerSize <? to_i32 (b_end (_readStream c))) ||
    negb (is_nil (b (_writeStream c))) || negb (is_nil (b (_batchStream c))) then mret tt
  else when (_acmAbsoluteTimeout c <=? now) (setState_ex StateClosing ConnectionTimeoutException).

Definition timedOut : M conn unit :=
  c ← get;
  if (_state c <=? StateNotValidated)%state then setState_ex StateClosed ConnectTimeoutException
  else if (_state c <? StateClosing)%state then setState_ex StateClosed TimeoutException
  else if bool_decide (_state c = StateClosing) then setState_ex StateClosed CloseTimeoutException
  else mret tt.

Definition setAdapter (a : option nat) : M conn unit :=
  c ← get;
  if (_state c <=? StateNotValidated)%state || (StateClosing <=? _state c)%state then mret tt
  else
    match a with
    | Some a =>
        modify (set_servantManager (adapter_getServantManager a));;
        modify (set_adapter (match adapter_getServantManager a with Some _ => Some a | None => None end))
    | None => modify (set_adapter None);; modify (set_servantManager None)
    end.

(** [getInfo] fails for a connection that is closed. *)
Definition getInfo : M conn unit :=
  c ← get;
  if (StateClosed <=? _state c)%state then throw_exception else mret tt.

(** ** Requests *)

(** [requestId = _nextRequestId++], starting again at 1 after the largest *)
Definition nextRequestId : M conn Z :=
  c ← get;
  let requestId := _nextRequestId c in
  modify (set_nextRequestId (to_i32 (requestId + 1)));;
  if requestId <=? 0 then modify (set_nextRequestId 2);; mret 1
  else mret requestId.

(** [catch(const LocalException& ex) { setState(StateClosed, ex);
    _exception->ice_throw(); }] *)
Definition sendMessage_or_close (m : omessage) : M conn AsyncStatus :=
  try_local (sendMessage m) (fun ex => setState_ex StateClosed ex;; throw_exception).

(** The part that [sendRequest] and [sendAsyncRequest] share: the request id
    and the message with it *)
Definition number_request (os : stream) (response : bool) : M conn (Z * stream) :=
  c ← get;
  match _exception c with
  | Some ex => throw (LocalExceptionWrapper ex true)
  | None =>
      assertM (StateNotValidated <? _state c)%state;;
      assertM (_state c <? StateClosing)%state;;
      lift (tr_checkSendSize (buf_of os) instance_messageSizeMax);;
      if response then
        requestId ← nextRequestId;
        let '(r, os) := store headerSize (encode_scalar Int requestId) os in
        lift r;;
        mret (requestId, os)
      else mret (0, os)
  end.

(** [_requests.insert(_requests.end(), pair(requestId, out))], which keeps an
    entry that is there: the iterator to the entry of the key. *)
Definition insert_request (requestId : Z) (call : nat) (m : gmap Z nat) : gmap Z nat :=
  match m !! requestId with Some _ => m | None => <[requestId := call]> m end.

Definition sendRequest (call : nat) (os : stream) (compress response : bool) : M conn bool :=
  numbered ← number_request os response;
  let '(requestId, os) := numbered in
  status ← sendMessage_or_close (MkMessage os (Out call) compress requestId false false);
  when response (
    modify (fun c => set_requestsHint (Some requestId) (set_requests (insert_request requestId call (_requests c)) c)));;
  mret (statusSent status).

Definition sendAsyncRequest (call : nat) (wants_sent : bool) (os : stream) (compress response : bool) :
    M conn AsyncStatus :=
  numbered ← number_request os response;
  let '(requestId, os) := numbered in
  status ← sendMessage_or_close (MkMessage os (OutAsync call wants_sent) compress requestId false false);
  when response (
    modify (fun c => set_asyncRequestsHint (Some requestId)
      (set_asyncRequests (insert_request requestId call (_asyncRequests c)) c)));;
  mret status.

(** ** Batch requests *)

(** [BasicStream dummy; _batchStream.swap(dummy)] and the members that go
    with the batch *)
Definition reset_batch : M conn unit :=
  modify (fun c => set_batchMarker 0 (set_batchRequestCompress false (set_batchRequestNum 0
    (set_batchStream (fst (swap (_batchStream c) (new_stream (_batchAutoFlush c)))) c)))).

(** [while(_batchStreamInUse && !_exception.get())] *)
Definition batch_waits (c : conn) : bool := _batchStreamInUse c && bool_decide (_exception c = None).

Definition on_batchStream {A} (m : M stream A) : M conn A := on _batchStream set_batchStream m.

(** The caller gets the batch in its own stream. *)
Definition prepareBatchRequest (os : stream) : M conn stream :=
  c ← get;
  match _exception c with
  | Some ex =>
      if is_nil (b (_batchStream c)) then throw (LocalExceptionWrapper ex true) else throw ex
  | None =>
      assertM (StateNotValidated <? _state c)%state;;
      assertM (_state c <? StateClosing)%state;;
      when (is_nil (b (_batchStream c))) (
        try_local (on_batchStream (writeBlob requestBatchHdr)) (fun ex => setState_ex StateClosed ex;; throw ex));;
      modify (set_batchStreamInUse true);;
      c ← get;
      modify (set_batchMarker (b_size (_batchStream c)));;
      let '(batch, os) := swap (_batchStream c) os in
      modify (set_batchStream batch);;
      mret os
  end.

Definition abortBatchRequest : M conn unit :=
  reset_batch;;
  c ← get;
  assertM (_batchStreamInUse c);;
  modify (set_batchStreamInUse false).

(** "Fill in the number of requests in the batch." *)
Definition number_batch : M conn unit :=
  c ← get;
  on_batchStream (store headerSize (encode_scalar Int (_batchRequestNum c))).

(** Whether the batch has to be flushed before the last request: its size is
    over the limit, and it is not the first one. *)
Definition batch_over_limit : M conn bool :=
  c ← get;
  if _batchAutoFlush c then
    match tr_checkSendSize (buf_of (_batchStream c)) instance_messageSizeMax with
    | Ok _ => mret false
    | Throw ex => if 0 <? _batchRequestNum c then mret true else throw ex
    | Fault f => faultM f
    end
  else mret false.

(** Sends the batch without the last request, with which a new one starts. *)
Definition flush_before_last : M conn unit :=
  c ← get;
  let lastRequest := drop (_batchMarker c) (b (_batchStream c)) in
  modify (set_batchStream (set_b (ByteSeq.resize (_batchMarker c) (b (_batchStream c))) (_batchStream c)));;
  number_batch;;
  c ← get;
  sendMessage_or_close (MkMessage (_batchStream c) NoTarget (_batchRequestCompress c) 0 false false);;
  reset_batch;;
  let size := (length requestBatchHdr + length lastRequest)%nat in
  if (instance_messageSizeMax <? size)%nat
  then throw (MemoryLimitException (Z.of_nat size) (Z.of_nat instance_messageSizeMax))
  else
    on_batchStream (writeBlob requestBatchHdr);;
    if is_nil lastRequest then faultM UndefinedBehaviour
    else on_batchStream (writeBlob lastRequest).

Definition finishBatchRequest (os : stream) (compress : bool) : M conn unit :=
  try_local (
    c ← get;
    modify (set_batchStream (fst (swap (_batchStream c) os)));;
    match _exception c with
    | Some ex => throw ex
    | None =>
        flush ← batch_over_limit;
        when flush flush_before_last;;
        c ← get;
        modify (set_batchRequestNum (to_i32 (_batchRequestNum c + 1)));;
        when compress (modify (set_batchRequestCompress true));;
        c ← get;
        assertM (_batchStreamInUse c);;
        modify (set_batchStreamInUse false)
    end) (fun ex => abortBatchRequest;; throw ex).

(** The part that the two forms of flushing share, for a batch that is not
    empty: the batch becomes the message of the caller. *)
Definition flush_batch (target : Target) (os : stream) : M conn AsyncStatus :=
  number_batch;;
  c ← get;
  let '(batch, os) := swap (_batchStream c) os in
  modify (set_batchStream batch);;
  status ← sendMessage_or_close (MkMessage os target (_batchRequestCompress c) 0 false false);
  reset_batch;;
  mret status.

Definition flushBatchRequests (call : nat) (os : stream) : M conn bool :=
  c ← get;
  match _exception c with
  | Some ex => throw ex
  | None =>
      if _batchRequestNum c =? 0 then
        emit (CallSent call false);;
        mret true
      else
        status ← flush_batch (Out call) os;
        mret (statusSent status)
  end.

Definition flushAsyncBatchRequests (call : nat) (wants_sent : bool) (os : stream) : M conn AsyncStatus :=
  c ← get;
  match _exception c with
  | Some ex => throw ex
  | None =>
      if _batchRequestNum c =? 0 then
        emit (CallSent call false);;
        mret (MkStatus true wants_sent)
      else flush_batch (OutAsync call wants_sent) os
  end.

(** ** The end of a dispatch *)

(** [if(--_dispatchCount == 0)] and what follows it *)
Definition one_dispatch_less : M conn unit :=
  modify (fun c => set_dispatchCount (to_i32 (_dispatchCount c - 1)) c);;
  c ← get;
  when ((_dispatchCount c =? 0) && bool_decide (_state c = StateFinished)) (emit ReaperAdd).

Definition shutdown_if_idle : M conn unit :=
  c ← get;
  when (bool_decide (_state c = StateClosing) && (_dispatchCount c =? 0)) initiateShutdown.

Definition sendResponse (os : stream) (compressFlag : byte) : M conn unit :=
  c ← get;
  assertM (StateNotValidated <? _state c)%state;;
  try_local (
    one_dispatch_less;;
    c ← get;
    if (StateClosed <=? _state c)%state then throw_exception
    else
      sendMessage (MkMessage os NoTarget (0 <? ord compressFlag) 0 false false);;
      shutdown_if_idle) (setState_ex StateClosed).

Definition sendNoResponse : M conn unit :=
  c ← get;
  assertM (StateNotValidated <? _state c)%state;;
  try_local (
    one_dispatch_less;;
    c ← get;
    if (StateClosed <=? _state c)%state then throw_exception
    else shutdown_if_idle) (setState_ex StateClosed).

Definition invokeException (ex : exn) (invokeNum : Z) : M conn unit :=
  setState_ex StateClosed ex;;
  when (0 <? invokeNum) (
    c ← get;
    assertM (0 <? _dispatchCount c);;
    modify (set_dispatchCount (to_i32 (_dispatchCount c - invokeNum)));;
    c ← get;
    assertM (0 <=? _dispatchCount c);;
    when ((_dispatchCount c =? 0) && bool_decide (_state c = StateFinished)) (emit ReaperAdd)).

(** "Decrease dispatch count", at the end of [dispatch] *)
Definition dispatch_done : M conn unit :=
  modify (fun c => set_dispatchCount (to_i32 (_dispatchCount c - 1)) c);;
  c ← get;
  when (_dispatchCount c =? 0) (
    if bool_decide (_state c = StateClosing) && negb (_shutdownInitiated c)
    then try_local initiateShutdown (setState_ex StateClosed)
    else when (bool_decide (_state c = StateFinished)) (emit ReaperAdd)).

(** ** Receiving *)

(** The header of a message, which [message] has read into [_readStream] *)
Definition check_header : M stream Z :=
  m ← readBlob 4;
  if negb (bool_decide (m = magic)) then throw (BadMagicException m)
  else
    pv ← read_EncodingVersion;
    lift (checkSupportedProtocol pv);;
    ev ← read_EncodingVersion;
    lift (checkSupportedProtocolEncoding ev);;
    messageType ← read_Byte;
    compress ← read_Byte;
    size ← read_Int;
    if size <? Z.of_nat headerSize then throw IllegalMessageSizeException
    else if to_i32 (Z.of_nat instance_messageSizeMax) <? size then throw MemoryLimit
    else mret size.

Definition readHeader : M conn unit :=
  modify (set_readHeader false);;
  pos ← gets (fun c => i (_readStream c));
  if pos <? Z.of_nat headerSize then throw IllegalMessageSizeException
  else
    on_readStream (
      modify (set_i 0);;
      size ← check_header;
      s ← get;
      when (to_i32 (b_end s) <? size) (modify (set_b (ByteSeq.resize (Z.to_nat size) (b s))));;
      modify (set_i pos)).

(** The write of [message]: whether the message in [_writeStream] is sent *)
Definition message_write : M conn bool :=
  c ← get;
  if is_nil (b (_writeStream c)) then mret true
  else if i (_writeStream c) =? b_end (_writeStream c) then mret true
  else
    done ← write_writeStream;
    if done : bool then
      c ← get;
      assertM (i (_writeStream c) =? b_end (_writeStream c));;
      mret true
    else scheduleTimeout SocketOperationWrite endpoint_timeout;; mret false.

(** The read of [message]: whether a whole message is in [_readStream] *)
Definition message_read : M conn bool :=
  c ← get;
  if is_nil (b (_readStream c)) then mret true
  else
    ready ← (if _readHeader c then
        full ← (if i (_readStream c) =? b_end (_readStream c) then mret true else read_readStream);
        if full : bool then
          c ← get;
          assertM (i (_readStream c) =? b_end (_readStream c));;
          readHeader;;
          mret true
        else mret false
      else mret true);
    if negb ready then mret false
    else
      c ← get;
      if i (_readStream c) =? b_end (_readStream c) then mret true
      else if tr_datagram then throw DatagramLimitException
      else
        done ← read_readStream;
        if done : bool then
          c ← get;
          assertM (i (_readStream c) =? b_end (_readStream c));;
          mret true
        else scheduleTimeout SocketOperationRead endpoint_timeout;; mret false.

(** Operations on the two halves of the state of [message] *)
Definition on_conn {A} (m : M conn A) : M (job * conn) A := on snd (fun c s => (s.1, c)) m.
Definition on_job (f : job -> job) : M (job * conn) unit := modify (fun s => (f s.1, s.2)).
Definition on_stream {A} (m : M stream A) : M (job * conn) A :=
  on (fun s => job_stream s.1) (fun t s => (set_job_stream t s.1, s.2)) m.

(** The entry of a reply: the hints first, then the tables. [inl] is an entry
    of [_requests] and [inr] one of [_asyncRequests]. *)
Definition hint_is (hint : option Z) (requestId : Z) : bool := bool_decide (hint = Some requestId).

(** The iterator may be dereferenced: it is [end()] or at an entry. *)
Definition valid_hint (hint : option Z) (m : gmap Z nat) : bool :=
  match hint with None => true | Some k => bool_decide (is_Some (m !! k)) end.

Definition find_reply (requestId : Z) : M conn (nat + nat) :=
  c ← get;
  if negb (valid_hint (_requestsHint c) (_requests c)) then faultM UndefinedBehaviour
  else
    let p := if hint_is (_requestsHint c) requestId then _requests c !! requestId else None in
    match p with
    | Some out => mret (inl out)
    | None =>
        if negb (valid_hint (_asyncRequestsHint c) (_asyncRequests c)) then faultM UndefinedBehaviour
        else
          let q := if hint_is (_asyncRequestsHint c) requestId then _asyncRequests c !! requestId else None in
          match q with
          | Some out => mret (inr out)
          | None =>
              match _requests c !! requestId, _asyncRequests c !! requestId with
              | Some out, _ => mret (inl out)
              | None, Some out => mret (inr out)
              | None, None => throw UnknownRequestIdException
              end
          end
    end.

(** [erase(p++)] with the hint at [p], or [erase(p)] *)
Definition erase_request (requestId : Z) (m : gmap Z nat) (hint : option Z) : gmap Z nat * option Z :=
  (delete requestId m, if hint_is hint requestId then next Z.ltb requestId m else hint).

Definition handle_reply : M (job * conn) unit :=
  requestId ← on_stream read_Int;
  on_job (set_requestId requestId);;
  entry ← on_conn (find_reply requestId);
  s ← get;
  match entry with
  | inl out =>
      on_conn (emit (CallReply out (b (job_stream s.1))));;
      on_job (set_job_stream (new_stream false));;
      lift (outgoing_finished (job_stream s.1));;
      on_conn (modify (fun c => let '(m, h) := erase_request requestId (_requests c) (_requestsHint c) in
        set_requestsHint h (set_requests m c)))
  | inr out =>
      on_job (set_outAsync (Some out));;
      on_conn (modify (fun c => let '(m, h) := erase_request requestId (_asyncRequests c) (_asyncRequestsHint c) in
        set_asyncRequestsHint h (set_asyncRequests m c)));;
      on_conn (emit (CallReplyAsync out (b (job_stream s.1))));;
      on_job (set_job_stream (new_stream false))
  end.

(** Requests are dispatched by the servants of the adapter at that time. *)
Definition take_adapter : M (job * conn) unit :=
  modify (fun s => (set_job_servantManager (_servantManager s.2) (set_job_adapter (_adapter s.2) s.1), s.2)).

Definition more_dispatches (n : Z) : M (job * conn) unit :=
  on_conn (modify (fun c => set_dispatchCount (to_i32 (_dispatchCount c + n)) c)).

Definition handle_request : M (job * conn) unit :=
  requestId ← on_stream read_Int;
  on_job (set_requestId requestId);;
  on_job (set_invokeNum 1);;
  take_adapter;;
  more_dispatches 1.

Definition handle_requestBatch : M (job * conn) unit :=
  invokeNum ← on_stream read_Int;
  if invokeNum <? 0 then
    on_job (set_invokeNum 0);;
    throw UnmarshalOutOfBoundsException
  else
    on_job (set_invokeNum invokeNum);;
    take_adapter;;
    more_dispatches invokeNum.

Definition handle_message (messageType : byte) : M (job * conn) unit :=
  s ← get;
  let closing := bool_decide (_state s.2 = StateClosing) in
  if ceq messageType closeConnectionMsg then
    when (negb tr_datagram) (on_conn (setState_ex StateClosed CloseConnectionException))
  else if ceq messageType requestMsg then when (negb closing) handle_request
  else if ceq messageType requestBatchMsg then when (negb closing) handle_requestBatch
  else if ceq messageType replyMsg then handle_reply
  else if ceq messageType validateConnectionMsg then mret tt
  else throw UnknownMessageException.

(** Type and compression status, and the stream with its body *)
Definition open_message : M (job * conn) byte :=
  on_stream (modify (set_i 8));;
  messageType ← on_stream read_Byte;
  compress ← on_stream read_Byte;
  on_job (set_compress compress);;
  when (ord compress =? 2) (
    if has_bzip2 then
      s ← get;
      u ← lift (doUncompress (job_stream s.1));
      on_stream (modify (set_b (b u)))
    else throw (FeatureNotSupportedException (lit "Cannot uncompress compressed message")));;
  on_stream (modify (set_i (Z.of_nat headerSize)));;
  mret messageType.

Definition parseMessage : M (job * conn) unit :=
  s ← get;
  assertM ((StateNotValidated <? _state s.2) && (_state s.2 <? StateClosed))%state;;
  modify (fun s => let '(r, t) := swap (_readStream s.2) (job_stream s.1) in
    (set_job_stream t s.1, set_readStream r s.2));;
  on_conn reset_readStream;;
  s ← get;
  assertM (i (job_stream s.1) =? b_end (job_stream s.1));;
  on_conn (modify (set_validated true));;
  try_local (messageType ← open_message; handle_message messageType) (fun ex =>
    if tr_datagram then mret tt else on_conn (setState_ex StateClosed ex)).

(** ** Sending the queue *)

(** The loop of [sendNextMessage], whose message at the front is sent;
    [true] when it ends with an empty queue, [false] for a [return]. *)
Fixpoint sendNext_loop (fuel : nat) : M (job * conn) bool :=
  match fuel with
  | O => faultM OutOfFuel
  | S fuel' =>
      s ← get;
      match _sendStreams s.2 with
      | [] => faultM UndefinedBehaviour
      | m :: rest =>
          let '(m, c) := swap_writeStream m s.2 in
          on_conn (modify (fun _ => c));;
          invoke ← on_conn (message_sent m true);
          when invoke (on_job (fun j => set_sentCBs (sentCBs j ++ [om_target m]) j));;
          on_conn (modify (set_sendStreams rest));;
          s ← get;
          if (StateClosed <=? _state s.2)%state then mret false
          else
            match rest with
            | [] => mret true
            | m :: rest =>
                assertM (i (om_stream m) =? null_i);;
                framed ← lift (frame (_compressionLevel s.2) m);
                let m := if framed.2 : bool then adopt (Some framed.1) m else set_om_stream framed.1 m in
                let m := set_om_stream (set_i 0 (om_stream m)) m in
                on_conn (modify (fun c => let '(m, c) := swap_writeStream m c in set_sendStreams (m :: rest) c));;
                s ← get;
                assertM (negb (i (_writeStream s.2) =? null_i));;
                done ← (if i (_writeStream s.2) =? b_end (_writeStream s.2) then mret true
                        else on_conn write_writeStream);
                if done : bool then sendNext_loop fuel'
                else on_conn (scheduleTimeout SocketOperationWrite endpoint_timeout);; mret false
            end
      end
  end.

Definition sendNextMessage : M (job * conn) unit :=
  s ← get;
  assertM (negb (is_nil (_sendStreams s.2)));;
  assertM (negb (is_nil (b (_writeStream s.2))) && (i (_writeStream s.2) =? b_end (_writeStream s.2)));;
  finished ← try_local (sendNext_loop (length (_sendStreams s.2)))
    (fun ex => on_conn (setState_ex StateClosed ex);; mret false);
  when finished (
    s ← get;
    assertM (is_nil (b (_writeStream s.2)));;
    on_conn (pool_unregister SocketOperationWrite);;
    when (bool_decide (_state s.2 = StateClosing))
      (on_conn (scheduleTimeout SocketOperationWrite closeTimeout))).

(** ** message *)

(** The handlers of [message]: a datagram connection drops what it has
    received, a stream connection is closed. *)
Definition message_failed (ex : exn) : M conn unit :=
  match ex with
  | DatagramLimitException => reset_readStream
  | _ =>
      if is_SocketException ex then setState_ex StateClosed ex
      else if tr_datagram then reset_readStream
      else setState_ex StateClosed ex
  end.

Definition has_callbacks (j : job) : bool :=
  negb (is_nil (sentCBs j)) || bool_decide (is_Some (outAsync j)).

(** A connection that is ready starts in holding state. *)
Definition message_validate (operation : SocketOperation) : M (job * conn) bool :=
  s ← get;
  ready ← (if bool_decide (_state s.2 = StateNotInitialized) then on_conn (initialize operation) else mret true);
  if negb ready then mret false
  else
    s ← get;
    ready ← (if (_state s.2 <=? StateNotValidated)%state then on_conn (validate operation) else mret true);
    if negb ready then mret false
    else
      on_conn (pool_unregister operation);;
      on_conn (setState StateHolding);;
      modify (fun s => (set_startCB (_startCallback s.2) s.1, set_startCallback None s.2));;
      mret true.

Definition message_work (operation : SocketOperation) : M (job * conn) bool :=
  on_conn (unscheduleTimeout operation);;
  wrote ← (if op_write operation then on_conn message_write else mret true);
  if negb wrote then mret false
  else
    got ← (if op_read operation then on_conn message_read else mret true);
    if negb got then mret false
    else
      s ← get;
      if (_state s.2 <=? StateNotValidated)%state then message_validate operation
      else
        assertM (_state s.2 <=? StateClosing)%state;;
        when (op_read operation) parseMessage;;
        when (op_write operation) sendNextMessage;;
        s ← get;
        when (has_callbacks s.1) (more_dispatches 1);;
        mret true.

Definition new_job (current : stream) : job :=
  MkJob None [] (chr 0) 0 0 None None None current.

(** [message(current)]: what is left to dispatch without the lock, if
    anything. [current] is the stream of the thread. *)
Definition message (operation : SocketOperation) (current : stream) : M conn (option job) := fun c =>
  if (StateClosed <=? _state c)%state then (Ok None, c)
  else
    let '(r, (j, c')) := try_local (message_work operation)
      (fun ex => on_conn (message_failed ex);; mret false) (new_job current, c) in
    match r with
    | Ok true => let '(_, c'') := touch_acm c' in (Ok (Some j), c'')
    | Ok false => (Ok None, c')
    | Throw e => (Throw e, c')
    | Fault f => (Fault f, c')
    end.

(** ** The end of a connection *)

(** The first part of [finished], on a thread of the pool *)
Definition finished : M conn unit :=
  c ← get;
  assertM (bool_decide (_state c = StateClosed));;
  unscheduleTimeout (MkOp true true).

(** The loop over [_sendStreams] in [finish] *)
Definition finish_message (ex : exn) (m : omessage) : M conn unit :=
  message_finished ex m;;
  when (negb (om_requestId m =? 0)) (
    match om_target m with
    | Out _ => modify (fun c => set_requests (delete (om_requestId m) (_requests c)) c)
    | _ => modify (fun c => set_asyncRequests (delete (om_requestId m) (_asyncRequests c)) c)
    end).

Fixpoint for_each {A} (f : A -> M conn unit) (l : list A) : M conn unit :=
  match l with
  | [] => mret tt
  | x :: l' => f x;; for_each f l'
  end.

(** The calls of a table, in the order of their ids *)
Definition table_calls (m : gmap Z nat) : list nat :=
  (merge_sort (fun p q => fst p <=? fst q) (map_to_list m)).*2.

(** [*_exception.get()] *)
Definition the_exception : M conn exn :=
  c ← get;
  match _exception c with
  | Some ex => mret ex
  | None => faultM UndefinedBehaviour
  end.

Definition finish : M conn unit :=
  c ← get;
  match _startCallback c with
  | Some cb =>
      ex ← the_exception;
      emit (StartFailed cb ex);;
      modify (set_startCallback None)
  | None => mret tt
  end;;
  c ← get;
  match _sendStreams c with
  | [] => mret tt
  | m :: rest =>
      when (negb (is_nil (b (_writeStream c)))) (
        modify (fun c => let '(m, c) := swap_writeStream m c in set_sendStreams (m :: rest) c));;
      ex ← the_exception;
      c ← get;
      for_each (finish_message ex) (_sendStreams c);;
      modify (set_sendStreams [])
  end;;
  c ← get;
  for_each (fun call => ex ← the_exception; emit (CallFinished call ex true)) (table_calls (_requests c));;
  modify (set_requests ∅);;
  for_each (fun call => ex ← the_exception; emit (CallFinished call ex true))
    (table_calls (_asyncRequests c));;
  modify (set_asyncRequests ∅);;
  setState StateFinished;;
  c ← get;
  when (_dispatchCount c =? 0) (emit ReaperAdd).
End connection.
