(* ===== verification/ConnectionFrame.v ===== *)
(** * Framing: what a message looks like on the wire

    The bytes that [sendMessage] and [sendNextMessage] write for a message
    depend on the bytes of its stream and on its compression only
    ([frame_bytes]). The lemmas give the effect of the operations of
    BasicStream.v on a stream that [ConnectionI] sends or receives. *)

From S2P Require Import Prelude Hoare Buffer Layout Protocol Stream Wire Encaps Transceiver.
From S2P Require Import ConnectionData ConnectionSend ConnectionState Connection StreamSpec.

Section frame.
Context `{PL : Platform} {D E : Type} {TR : Transceiver} {ST : Settings} {BZ : BZip2}.
Local Abbreviation stream := (BasicStream D E).
Local Abbreviation omessage := (@OutgoingMessage D E).
Implicit Types (s : stream).

(** ** Operations on streams *)

Lemma wp_resize n s Q F :
  Q tt (set_b (ByteSeq.resize n (b s)) s) -> (forall e, is_local e = true -> F e s) -> wp (resize n) Q F s.
Proof. intros HQ HF. unfold resize. apply wp_bind, wp_get. case_if; [by apply HF|done]. Qed.

Lemma wp_resize_fits n s Q F : (n <= messageSizeMax s)%nat ->
  Q tt (set_b (ByteSeq.resize n (b s)) s) -> wp (resize n) Q F s.
Proof.
  intros Hn HQ. unfold resize. apply wp_bind, wp_get. rewrite (proj2 (Nat.ltb_ge _ _)) by done.
  by rewrite andb_false_r.
Qed.

Lemma wp_store pos src s Q F : (pos + length src <= length (b s))%nat ->
  Q tt (set_b (ByteSeq.store pos src (b s)) s) -> wp (store pos src) Q F s.
Proof.
  intros Hl HQ. unfold store. apply wp_bind, wp_get. unfold b_size.
  by rewrite (proj2 (Nat.leb_le _ _)).
Qed.

Lemma wp_write_Byte c s Q F : Q tt (appended [c] s) -> wp (write_Byte c) Q F s.
Proof. done. Qed.

Lemma wp_write_scalar k v s Q F :
  Q tt (appended (encode_scalar k v) s) -> (forall e, is_local e = true -> F e s) -> wp (write_scalar k v) Q F s.
Proof.
  intros HQ HF. unfold write_scalar. apply wp_bind, wp_gets, wp_bind, wp_resize; [|done].
  apply wp_store; cbn.
  - rewrite ByteSeq.length_resize, encode_scalar_le, length_le_bytes. done.
  - unfold b_size. rewrite encode_scalar_le in *. rewrite <- (length_le_bytes (sizeof k) v) at 2.
    by rewrite ByteSeq.resize_store.
Qed.

(** [s'] is [s] with another cursor, that is not behind the end unless it was
    there already. *)
Definition moved s s' : Prop := exists x, s' = set_i x s /\ 0 <= x /\ (i s <= b_end s -> x <= b_end s).

Lemma moved_refl s : 0 <= i s -> moved s s.
Proof. intros. exists (i s). split; [by destruct s|done]. Qed.

Lemma moved_trans s1 s2 s3 : moved s1 s2 -> moved s2 s3 -> moved s1 s3.
Proof. intros (x & -> & H1 & H2) (y & -> & H3 & H4). exists y. split; [by destruct s1|]. split; [done|]. intros. by apply H4, H2. Qed.

Lemma advance_moved s v : in_bounds s -> 0 <= v <= b_end s - i s -> moved s (set_i (i s + v) s).
Proof. intros [? ?] ?. exists (i s + v). split; [done|]. lia. Qed.

(** An operation that reads arbitrary bytes, wherever the cursor stands, and
    stays inside the buffer; and what it answers *)
Definition reads_as {A} (P : A -> Prop) (m : M stream A) : Prop := forall s, 0 <= i s ->
  wp m (fun a s' => P a /\ moved s s') (fun e s' => is_local e = true /\ moved s s') s.
Definition reads_safely {A} (m : M stream A) : Prop := reads_as (fun _ => True) m.

Lemma reads_as_bind {A B} (P : B -> Prop) (m : M stream A) (k : A -> M stream B) :
  reads_safely m -> (forall a, reads_as P (k a)) -> reads_as P (mbind k m).
Proof.
  intros Hm Hk s Hs. apply wp_bind. eapply wp_conseq; [by apply Hm| |done].
  intros a s' (_ & Hs'). assert (0 <= i s') by (by destruct Hs' as (x & -> & ? & _)).
  eapply wp_conseq; [by apply Hk| |]; cbn; intros ? s2 [? ?]; (split; [done|by eapply moved_trans]).
Qed.

Lemma reads_as_ret {A} (P : A -> Prop) (a : A) : P a -> reads_as P (mret a).
Proof. intros HP s Hs. split; [done|by apply moved_refl]. Qed.

Lemma reads_throw {A} (P : A -> Prop) e : is_local e = true -> reads_as P (throw (A := A) e).
Proof. intros He s Hs. split; [done|by apply moved_refl]. Qed.

Lemma reads_lift {A} (r : result A) :
  match r with Ok _ => True | Throw e => is_local e = true | Fault _ => False end -> reads_safely (lift r).
Proof. intros Hr s Hs. apply wp_lift. destruct r; [|by split; [|apply moved_refl]|done]. split; [done|by apply moved_refl]. Qed.

Lemma reads_if {A} (P : A -> Prop) (c : bool) (m1 m2 : M stream A) :
  (c = true -> reads_as P m1) -> (c = false -> reads_as P m2) -> reads_as P (if c then m1 else m2).
Proof. destruct c; auto. Qed.

Lemma read_Byte_safely : reads_safely read_Byte.
Proof.
  intros s Hs. unfold read_Byte. apply wp_bind, wp_get. case_if; [split; [done|by apply moved_refl]|]. bool_to_prop.
  assert (in_bounds s) as Hin by (split; lia). pose proof (length_remaining s Hin) as Hl.
  destruct (remaining s) as [|c l] eqn:Hr; [cbn in Hl; lia|].
  apply wp_bind. eapply wp_eq; [by apply (byte_at_head s c l)|]. unfold advance. wp_steps. split; [done|].
  apply advance_moved; [done|lia].
Qed.

Lemma read_bytes_as {A} (P : A -> Prop) (f : list byte -> A) n : 0 <= n ->
  (forall bs, length bs = Z.to_nat n -> P (f bs)) ->
  reads_as P (s ← get;
    if b_end s - i s <? n then throwUnmarshalOutOfBounds
    else v ← bytes_at (i s) (Z.to_nat n); advance n;; mret (f v)).
Proof.
  intros Hn HP s Hs. apply wp_bind, wp_get. case_if; [split; [done|by apply moved_refl]|]. bool_to_prop.
  assert (in_bounds s) as Hin by (split; lia). pose proof (length_remaining s Hin) as Hl.
  apply wp_bind. eapply wp_eq; [apply bytes_at_prefix; [done|lia]|]. unfold advance. wp_steps.
  split; [|apply advance_moved; [done|lia]]. apply HP. rewrite length_take. lia.
Qed.

Lemma read_scalar_as k : reads_as (in_range k) (read_scalar k).
Proof.
  intros s Hs. pose proof (read_bytes_as (in_range k) (decode_scalar k) (Z.of_nat (sizeof k)) ltac:(lia)) as H.
  rewrite Nat2Z.id in H. refine (H _ s Hs). intros bs Hl. rewrite decode_scalar_le by done. by apply value_of_bits_range.
Qed.

Lemma reads_as_weaken {A} (P : A -> Prop) (m : M stream A) : reads_as P m -> reads_safely m.
Proof. intros H s Hs. eapply wp_conseq; [by apply H|by intros a s' [_ ?]|done]. Qed.

Lemma read_scalar_safely k : reads_safely (read_scalar k).
Proof. apply (reads_as_weaken _ _ (read_scalar_as k)). Qed.

Lemma readBlob_safely n : reads_safely (readBlob n).
Proof.
  unfold readBlob. intros s Hs. case_if; [|split; [done|by apply moved_refl]]. bool_to_prop.
  by apply (read_bytes_as _ (fun v => v)); [lia| |].
Qed.

Lemma read_EncodingVersion_safely : reads_safely read_EncodingVersion.
Proof. repeat (apply reads_as_bind; [apply read_Byte_safely|intros ?]). by apply reads_as_ret. Qed.

Lemma checkSupported_local v :
  match checkSupportedProtocol v with Ok _ => True | Throw e => is_local e = true | Fault _ => False end /\
  match checkSupportedProtocolEncoding v with Ok _ => True | Throw e => is_local e = true | Fault _ => False end.
Proof.
  unfold checkSupportedProtocol, checkSupportedProtocolEncoding, checkSupported.
  by destruct (isSupported v currentProtocol), (isSupported v currentProtocolEncoding).
Qed.

Ltac reads :=
  repeat (lazymatch goal with
    | |- reads_as _ (mbind _ _) => apply reads_as_bind; [|intros ?]
    | |- reads_as _ (if _ then _ else _) => apply reads_if; intros ?
    | |- reads_as _ (throw _) => by apply reads_throw
    | |- reads_safely (mbind _ _) => apply reads_as_bind; [|intros ?]
    | |- reads_safely (throw _) => by apply reads_throw
    | |- reads_safely (if _ then _ else _) => apply reads_if; intros ?
    | |- reads_safely read_Byte => apply read_Byte_safely
    | |- reads_safely read_Int => apply read_scalar_safely
    | |- reads_safely (readBlob _) => apply readBlob_safely
    | |- reads_safely read_EncodingVersion => apply read_EncodingVersion_safely
    | |- reads_safely (lift _) => apply reads_lift, checkSupported_local
    end).

(** The size that a valid header announces is between 14 and the limit. *)
Lemma check_header_safely : Z.of_nat instance_messageSizeMax < 2 ^ 31 ->
  reads_as (fun size => Z.of_nat headerSize <= size <= Z.of_nat instance_messageSizeMax) check_header.
Proof.
  intros Hmax. unfold check_header. reads. apply reads_as_ret. bool_to_prop. rewrite to_i32_id in * by lia. lia.
Qed.

Lemma check_validate_header_safely : reads_safely check_validate_header.
Proof. unfold check_validate_header. reads. by apply reads_as_ret. Qed.

(** ** Framing *)

Definition header_bytes (messageType compress : byte) : list byte :=
  magic ++ [protocolMajor; protocolMinor; protocolEncodingMajor; protocolEncodingMinor; messageType; compress] ++
  encode_scalar Int (Z.of_nat headerSize).

Lemma length_header_bytes t c : length (header_bytes t c) = headerSize.
Proof. unfold header_bytes. rewrite encode_scalar_le. done. Qed.

Lemma wp_header t cc s Q F :
  Q tt (appended (header_bytes t cc) s) ->
  (forall e, is_local e = true -> F e (appended (take 10 (header_bytes t cc)) s)) -> wp (header t cc) Q F s.
Proof.
  intros HQ HF. unfold header, write_EncodingVersion.
  repeat lazymatch goal with
    | |- wp (mbind _ _) _ _ _ => apply wp_bind
    | |- wp (write_Byte _) _ _ _ => apply wp_write_Byte; cbv beta; rewrite ?appended_app
    end.
  apply wp_write_scalar; [|by intros; apply HF]. by rewrite appended_app.
Qed.

Lemma header_result t cc s : let '(r, os) := header t cc s in
  match r with Ok _ => b os = b s ++ header_bytes t cc | Throw e => is_local e = true | Fault _ => False end.
Proof.
  assert (wp (header t cc) (fun _ s' => b s' = b s ++ header_bytes t cc) (fun e _ => is_local e = true) s) as H
    by (by apply wp_header).
  by apply wp_elim in H as [([] & s' & -> & H)|(e & s' & -> & H)].
Qed.

(** The bytes of a message as they are sent, and whether they are compressed *)
Definition frame_bytes (level : Z) (compress : bool) (bs : list byte) : result (list byte * bool) :=
  if has_bzip2 && compress && (100 <=? length bs)%nat then
    let u := ByteSeq.store 9 [chr 2] bs in
    match bz_compress level (compress_room (Z.of_nat (length u - headerSize))) (drop headerSize u) with
    | inr code => compression_failed code
    | inl out =>
        let u := ByteSeq.store 10 (encode_scalar Int (to_i32 (Z.of_nat (headerSize + 4 + length out)))) u in
        Ok (take headerSize u ++ encode_scalar Int (to_i32 (Z.of_nat (length u))) ++ out, true)
    end
  else if (length bs <? headerSize)%nat then Fault UndefinedBehaviour
  else
    let u := if compress then ByteSeq.store 9 [chr 1] bs else bs in
    Ok (ByteSeq.store 10 (encode_scalar Int (to_i32 (Z.of_nat (length bs)))) u, false).

Lemma store_eq pos src s : store pos src s =
  if (pos + length src <=? length (b s))%nat then (Ok tt, set_b (ByteSeq.store pos src (b s)) s)
  else (Fault UndefinedBehaviour, s).
Proof. unfold store. step. unfold b_size. by case_if. Qed.

Lemma length_encode_Int v : length (encode_scalar Int v) = 4%nat.
Proof. by rewrite encode_scalar_le, length_le_bytes. Qed.

Lemma frame_plain_eq compress s :
  frame_plain compress s =
    if (length (b s) <? headerSize)%nat then (Fault UndefinedBehaviour, (frame_plain compress s).2)
    else (Ok tt, set_i 0 (set_b (ByteSeq.store 10 (encode_scalar Int (to_i32 (Z.of_nat (length (b s)))))
      (if compress then ByteSeq.store 9 [chr 1] (b s) else b s)) s)).
Proof.
  destruct (length (b s) <? headerSize)%nat eqn:El; bool_to_prop; unfold headerSize in *.
  - apply injective_projections; [|done]. unfold frame_plain, when.
    destruct compress.
    + unfold mbind at 1, M_bind at 1. rewrite store_eq. case_if; bool_to_prop; [|done]. step.
      unfold b_size. cbn [b set_b]. rewrite ByteSeq.length_store. unfold mbind at 1, M_bind at 1.
      rewrite store_eq, length_encode_Int. cbn [b set_b]. rewrite ByteSeq.length_store.
      by rewrite (proj2 (Nat.leb_gt _ _)) by lia.
    + steps. unfold mbind at 1, M_bind at 1. rewrite store_eq, length_encode_Int.
      by rewrite (proj2 (Nat.leb_gt _ _)) by lia.
  - unfold frame_plain, when. destruct compress.
    + rewrite (bind_ok _ _ _ tt (set_b (ByteSeq.store 9 [chr 1] (b s)) s)).
      2:{ rewrite store_eq. cbn [length]. by rewrite (proj2 (Nat.leb_le _ _)) by lia. }
      step. unfold b_size. cbn [b set_b]. rewrite ByteSeq.length_store.
      erewrite bind_ok.
      2:{ rewrite store_eq, length_encode_Int. cbn [b set_b]. rewrite ByteSeq.length_store.
          by rewrite (proj2 (Nat.leb_le _ _)) by lia. }
      done.
    + steps. erewrite bind_ok; [done|]. rewrite store_eq, length_encode_Int.
      by rewrite (proj2 (Nat.leb_le _ _)) by (unfold b_size; lia).
Qed.

(** [frame] writes these bytes, from the first one. *)
Lemma frame_bytes_of level (m : omessage) :
  match frame level m with
  | Ok (s, c) => frame_bytes level (om_compress m) (b (om_stream m)) = Ok (b s, c) /\ i s = 0
  | Throw e => frame_bytes level (om_compress m) (b (om_stream m)) = Throw e /\ is_local e = true
  | Fault f => frame_bytes level (om_compress m) (b (om_stream m)) = Fault f
  end.
Proof.
  unfold frame, frame_bytes. unfold b_size. set (bs := b (om_stream m)).
  destruct (has_bzip2 && om_compress m && (100 <=? length bs)%nat) eqn:Ec.
  - bool_to_prop. rewrite store_eq. fold bs. cbn [length].
    rewrite (proj2 (Nat.leb_le _ _)) by lia. cbn [mbind result_bind].
    unfold doCompress, b_size. cbn [b set_b].
    destruct (bz_compress _ _ _) as [out|code]; [|done].
    rewrite store_eq, length_encode_Int. cbn [b set_b]. rewrite ByteSeq.length_store.
    by rewrite (proj2 (Nat.leb_le _ _)) by lia.
  - pose proof (frame_plain_eq (om_compress m) (om_stream m)) as Hf. fold bs in Hf.
    destruct (length bs <? headerSize)%nat.
    + by rewrite Hf.
    + by rewrite Hf.
Qed.
End frame.
