(* ===== verification/ConnectionQueue.v ===== *)
(** * The queue of outgoing messages: its invariant

    While a connection is active, holding or closing, [_sendStreams] is empty
    together with [_writeStream], or [_writeStream] has the message at the
    front and the selector watches the socket for writing ([queue_ok]).
    [sendMessage] keeps it. *)

From S2P Require Import Prelude Hoare Buffer Layout Protocol Stream Wire Encaps Transceiver.
From S2P Require Import ConnectionData ConnectionSend ConnectionState Connection StreamSpec ConnectionFrame.

Section queue.
Context `{PL : Platform} {D E : Type} {TR : Transceiver} {ST : Settings} {BZ : BZip2} {LW : TransceiverLaws TR}.
Local Abbreviation stream := (BasicStream D E).
Local Abbreviation omessage := (@OutgoingMessage D E).
Local Abbreviation conn := (@ConnectionI D E TR).
Implicit Types (s : stream) (c : conn) (m : omessage).

(** ** The invariant *)

(** A message that the transceiver accepts, from its first byte. The code
    relies on its size; compression may fail. *)
Definition sendable (level : Z) (compress : bool) (bs : list byte) : Prop :=
  match frame_bytes level compress bs with
  | Ok (fb, _) => in_buf (MkBuf fb 0) /\ writable (MkBuf fb 0)
  | Throw _ => True
  | Fault _ => False
  end.

(** A message that waits behind the first one *)
Definition waiting (level : Z) (m : omessage) : Prop :=
  i (om_stream m) = null_i /\ sendable level (om_compress m) (b (om_stream m)).

Definition queue_ok c : Prop :=
  match _sendStreams c with
  | [] => b (_writeStream c) = [] /\ op_write (_registered c) = false /\ write_task c = false
  | m :: rest =>
      b (om_stream m) = [] /\ b (_writeStream c) <> [] /\ in_buf (buf_of (_writeStream c)) /\
      (i (_writeStream c) = b_end (_writeStream c) \/ writable (buf_of (_writeStream c))) /\
      op_write (_registered c) = true /\ Forall (waiting (_compressionLevel c)) rest
  end.

(** The bytes of a message on the wire *)
Definition framed (level : Z) (m : omessage) : list byte :=
  match frame_bytes level (om_compress m) (b (om_stream m)) with Ok (fb, _) => fb | _ => [] end.

(** What is to be written after the message at the front, and in all *)
Definition behind_front c : list byte := concat (framed (_compressionLevel c) <$> tail (_sendStreams c)).
Definition backlog c : list byte :=
  match _sendStreams c with
  | [] => []
  | _ :: _ => between (buf_of (_writeStream c)) (i (_writeStream c)) (b_end (_writeStream c)) ++ behind_front c
  end.

(** The bytes that the connection has committed to the wire, in their order *)
Definition wire c : list byte := sent (_transceiver c) ++ backlog c.

(** A frame announces its own length. *)
Definition is_frame (fb : list byte) : Prop :=
  (headerSize <= length fb)%nat /\ take 4 (drop 10 fb) = encode_scalar Int (to_i32 (Z.of_nat (length fb))).

Lemma store_read pos src l : (pos + length src <= length l)%nat ->
  take (length src) (drop pos (ByteSeq.store pos src l)) = src.
Proof.
  intros Hl. rewrite <- (take_drop pos l), <- (take_drop (length src) (drop pos l)).
  rewrite ByteSeq.store_mid by (rewrite ?length_take, ?length_drop; lia).
  rewrite drop_app_length' by (rewrite length_take; lia). by rewrite take_app_length.
Qed.

Lemma framed_is_frame level compress bs fb z : frame_bytes level compress bs = Ok (fb, z) -> is_frame fb.
Proof.
  unfold frame_bytes, is_frame. intros H.
  destruct (has_bzip2 && compress && (100 <=? length bs)%nat) eqn:Ec; bool_to_prop.
  - cbn zeta in H. destruct (bz_compress _ _ _) as [out|]; [|done]. set (size := (headerSize + 4 + length out)%nat) in H.
    set (u := ByteSeq.store 10 _ _) in H.
    assert (fb = take headerSize u ++ encode_scalar Int (to_i32 (Z.of_nat (length u))) ++ out) as -> by congruence. clear H.
    assert (length u = length bs) as Hu by (unfold u; by rewrite !ByteSeq.length_store).
    rewrite !length_app, length_take, Hu, length_encode_Int. unfold headerSize in *.
    replace (14 `min` length bs + (4 + length out))%nat with size by (unfold size; lia).
    split; [unfold size; lia|]. rewrite drop_app_le by (rewrite length_take, Hu; lia).
    rewrite take_app_le by (rewrite length_drop, length_take, Hu; lia).
    rewrite take_drop_commute, take_take. change ((10 + 4) `min` 14)%nat with (10 + 4)%nat. rewrite <- take_drop_commute.
    rewrite <- (length_encode_Int (to_i32 (Z.of_nat size))) at 1. apply store_read.
    rewrite length_encode_Int, ByteSeq.length_store. lia.
  - destruct (length bs <? headerSize)%nat eqn:El; bool_to_prop; [done|]. injection H as <- <-. unfold headerSize in *.
    assert (length (if compress then ByteSeq.store 9 [chr 1] bs else bs) = length bs) as Hl by (by case_if; rewrite ?ByteSeq.length_store).
    rewrite ByteSeq.length_store, Hl. split; [done|].
    rewrite <- (length_encode_Int (to_i32 (Z.of_nat (length bs)))) at 1. apply store_read. rewrite length_encode_Int. lia.
Qed.

(** A task that is in the timer is known to be scheduled. *)
Definition tasks_ok c : Prop :=
  (write_task c = true -> _writeTimeoutScheduled c = true) /\
  (read_task c = true -> _readTimeoutScheduled c = true).

(** ** What sending changes *)

Definition sends_to n q w r ev a wt wts c : conn :=
  set_transceiver n (set_sendStreams q (set_writeStream w (set_registered r (set_calls ev
    (set_acmAbsoluteTimeout a (set_write_task wt (set_writeTimeoutScheduled wts c))))))).

(** [c'] is [c] after some sending; the read interest of the selector and the
    calls so far are untouched. *)
Definition sends c c' : Prop :=
  exists n q w r ev a wt wts, c' = sends_to n q w r (calls c ++ ev) a wt wts c /\
    op_read r = op_read (_registered c).

Lemma sends_refl c : sends c c.
Proof.
  exists (_transceiver c), (_sendStreams c), (_writeStream c), (_registered c), [], (_acmAbsoluteTimeout c),
    (write_task c), (_writeTimeoutScheduled c). split; [|done]. rewrite app_nil_r. by destruct c.
Qed.

Lemma sends_trans c1 c2 c3 : sends c1 c2 -> sends c2 c3 -> sends c1 c3.
Proof.
  intros (n & q & w & r & ev & a & wt & wts & -> & Hr) (n' & q' & w' & r' & ev' & a' & wt' & wts' & -> & Hr').
  exists n', q', w', r', (ev ++ ev'), a', wt', wts'. cbn in *. split; [|congruence]. by rewrite app_assoc.
Qed.

#[export] Instance sends_preorder : PreOrder sends.
Proof. split; [intros c; apply sends_refl|intros c1 c2 c3; apply sends_trans]. Qed.

Ltac sends_here :=
  match goal with |- sends ?c ?c' =>
    exists (_transceiver c'), (_sendStreams c'), (_writeStream c'), (_registered c'), [], (_acmAbsoluteTimeout c'),
      (write_task c'), (_writeTimeoutScheduled c'); rewrite app_nil_r; by destruct c
  end.

Lemma sends_net n c : sends c (set_transceiver n c).
Proof. sends_here. Qed.
Lemma sends_queue q c : sends c (set_sendStreams q c).
Proof. sends_here. Qed.
Lemma sends_write w c : sends c (set_writeStream w c).
Proof. sends_here. Qed.
Lemma sends_acm a c : sends c (set_acmAbsoluteTimeout a c).
Proof. sends_here. Qed.
Lemma sends_task t c : sends c (set_writeTimeoutScheduled t (set_write_task t c)).
Proof. sends_here. Qed.
Lemma sends_interest r c : op_read r = op_read (_registered c) -> sends c (set_registered r c).
Proof. intros. sends_here. Qed.
Lemma sends_call ev c : sends c (set_calls (calls c ++ ev) c).
Proof.
  exists (_transceiver c), (_sendStreams c), (_writeStream c), (_registered c), ev, (_acmAbsoluteTimeout c),
    (write_task c), (_writeTimeoutScheduled c). by destruct c.
Qed.

(** ** Messages keep their bytes *)

Lemma swap_b s t : b (fst (swap s t)) = b t /\ b (snd (swap s t)) = b s /\
  i (fst (swap s t)) = i t /\ i (snd (swap s t)) = i s.
Proof. done. Qed.

Lemma adopt_stream_b str m : match str with
  | Some s => b (om_stream (adopt str m)) = b s /\ i (om_stream (adopt str m)) = i s
  | None => b (om_stream (adopt str m)) = b (om_stream m) /\ i (om_stream (adopt str m)) = i (om_stream m)
  end.
Proof. destruct str as [s|]; [done|]. cbn. destruct (om_adopted m), (om_target m) eqn:?; by split. Qed.

Lemma adopt_same str m : om_target (adopt str m) = om_target m /\ om_compress (adopt str m) = om_compress m /\
  om_requestId (adopt str m) = om_requestId m.
Proof. destruct str; [done|]. cbn. destruct (om_adopted m), (om_target m) eqn:?; by split_and!. Qed.

(** Framed bytes are never empty. *)
Lemma frame_bytes_nonempty level compress bs fb z : frame_bytes level compress bs = Ok (fb, z) -> fb <> [].
Proof.
  unfold frame_bytes. intros H Hfb. subst fb.
  destruct (has_bzip2 && compress && (100 <=? length bs)%nat) eqn:Ec; bool_to_prop.
  - destruct (bz_compress _ _ _) as [out|]; [|done]. apply (f_equal (fun r => match r with Ok (x, _) => length x | _ => 0%nat end)) in H.
    rewrite !length_app, length_take, !ByteSeq.length_store, length_encode_Int in H. cbn [length] in H. lia.
  - destruct (length bs <? headerSize)%nat eqn:El; bool_to_prop; [done|]. unfold headerSize in *.
    apply (f_equal (fun r => match r with Ok (x, _) => length x | _ => 0%nat end)) in H.
    cbn [length] in H. rewrite ByteSeq.length_store in H.
    destruct compress; rewrite ?ByteSeq.length_store in H; lia.
Qed.

(** ** The transceiver and streams *)

(** The socket of a connection that may send is open and connected. *)
Definition net_ready c : Prop := usable (_transceiver c) /\ connected (_transceiver c).

Lemma wp_write_stream s c Q F : net_ready c -> in_buf (buf_of s) -> writable (buf_of s) ->
  (forall n x, usable n -> connected n -> i s <= x <= b_end s ->
    sent n = sent (_transceiver c) ++ between (buf_of s) (i s) x ->
    (x = b_end s -> Q (true, set_buf (MkBuf (b s) x) s) (set_transceiver n c)) /\
    (writable (MkBuf (b s) x) -> Q (false, set_buf (MkBuf (b s) x) s) (set_transceiver n c)) /\
    (forall e, is_local e = true -> F e (set_transceiver n c))) ->
  wp (write_stream s) Q F c.
Proof.
  intros [Hu Hc] Hin Hw H. pose proof (write_law (_transceiver c) (buf_of s) Hu Hc Hin Hw) as Hl.
  unfold wp, write_stream in *. destruct (tr_write (_transceiver c, buf_of s)) as [[d|e|f] [n u]]; cbn in *; [| |done].
  - destruct Hl as (Hu' & Hc' & Hb & Hi & Hd & Hs & Hw'). destruct u as [ub ui]. cbn in *. subst ub.
    destruct (H n ui Hu' Hc' Hi Hs) as (H1 & H2 & H3). destruct d; [by apply H1, Hd|by apply H2, Hw'].
  - destruct Hl as (He & Hu' & Hc' & Hb & Hi & Hs & _). by apply (H n (buf_i u) Hu' Hc' Hi Hs).
Qed.

Lemma wp_scheduleTimeout_write t c Q F : (0 <= t -> write_task c = false) ->
  Q tt c -> Q tt (set_writeTimeoutScheduled true (set_write_task true c)) ->
  wp (scheduleTimeout SocketOperationWrite t) Q F c.
Proof.
  intros Ht H1 H2. unfold scheduleTimeout. case_if; [by apply wp_ret|]. bool_to_prop. cbn.
  apply wp_bind, wp_ret, wp_bind, wp_get, wp_bind, wp_assert; [by rewrite Ht|]. by apply wp_modify.
Qed.

Lemma between_whole (s : stream) x : 0 <= x <= b_end s ->
  between (MkBuf (b s) 0) 0 x ++ between (MkBuf (b s) x) x (b_end s) = b s.
Proof.
  intros Hx. change (between (MkBuf (b s) x) x (b_end s)) with (between (MkBuf (b s) 0) x (b_end s)).
  rewrite between_app by lia. unfold between. cbn. rewrite Z.sub_0_r. unfold b_end, b_size. rewrite Nat2Z.id. apply firstn_all.
Qed.

(** ** sendMessage *)

(** The state is one in which messages are sent. *)
Definition may_send c : Prop := (_state c < StateClosed)%state /\ net_ready c /\ queue_ok c /\ tasks_ok c.

(** [c'] is [c] after some sending and may send again. *)
Definition sent_ok c c' : Prop := sends c c' /\ net_ready c' /\ queue_ok c' /\ tasks_ok c'.

(** A message that waits is on the wire as well. *)
Lemma wire_queued m m' c : _sendStreams c <> [] -> b (om_stream m') = b (om_stream m) -> om_compress m' = om_compress m ->
  wire (set_sendStreams (_sendStreams c ++ [m']) c) = wire c ++ framed (_compressionLevel c) m.
Proof.
  intros Hne Hb Hz. unfold wire, backlog, behind_front. cbn. destruct (_sendStreams c) as [|m0 rest]; [done|]. cbn.
  rewrite fmap_app, concat_app. cbn. rewrite app_nil_r. unfold framed at 2. rewrite Hb, Hz. by rewrite <- !app_assoc.
Qed.

Lemma message_sent_eq m notify c :
  exists ev, message_sent m notify c =
    (Ok (match om_target m with OutAsync _ w => w | _ => false end), set_calls (calls c ++ ev) c).
Proof.
  unfold message_sent. destruct (om_target m) as [|call|call w].
  - exists []. rewrite app_nil_r. by destruct c.
  - by exists [CallSent call notify].
  - by exists [CallSent call notify].
Qed.

Lemma touch_acm_eq c : exists a, touch_acm c = (Ok tt, set_acmAbsoluteTimeout a c).
Proof.
  unfold touch_acm. step. unfold when. case_if; [by eexists|].
  exists (_acmAbsoluteTimeout c). by destruct c.
Qed.

(** [sendMessage] commits the frame of the message to the wire, behind what
    is there. *)
Definition committed m c c' : Prop :=
  sent_ok c c' /\ wire c' = wire c ++ framed (_compressionLevel c) m.

Lemma sendMessage_commits m c : may_send c -> sendable (_compressionLevel c) (om_compress m) (b (om_stream m)) ->
  wp (sendMessage m) (fun _ => committed m c) (fun e c' => is_local e = true /\ sent_ok c c') c.
Proof.
  intros (Hst & Hn & Hq & Ht) Hm. unfold sendMessage. apply wp_bind, wp_get, wp_bind, wp_assert; [by apply Z.ltb_lt|].
  set (m' := set_om_stream _ m).
  assert (waiting (_compressionLevel c) (adopt None m')) as Hwait.
  { pose proof (adopt_stream_b None m') as [Hb Hi]. pose proof (adopt_same None m') as (_ & Hz & _).
    unfold waiting. rewrite Hb, Hi, Hz. by split. }
  destruct (_sendStreams c) as [|m0 rest] eqn:Eq; cbn [is_nil negb].
  2:{ apply wp_bind, wp_modify, wp_ret.
      refine (conj (conj (sends_queue _ _) (conj Hn (conj _ Ht))) _).
      2:{ pose proof (adopt_stream_b None m') as [Hb _]. pose proof (adopt_same None m') as (_ & Hz & _).
          apply wire_queued; [by rewrite Eq|done..]. }
      unfold queue_ok in *. cbn -[adopt]. rewrite Eq in *. cbn -[adopt]. destruct Hq as (? & ? & ? & ? & ? & Hr). split_and!; try done.
      apply Forall_app. split; [done|]. by constructor. }
  pose proof Hq as Hq'. unfold queue_ok in Hq. rewrite Eq in Hq. destruct Hq as (Hw & Hr & Hwt).
  pose proof (frame_bytes_of (_compressionLevel c) m') as Hf. unfold sendable in Hm.
  change (om_compress m') with (om_compress m) in Hf. change (b (om_stream m')) with (b (om_stream m)) in Hf.
  apply wp_bind, wp_lift. destruct (frame (_compressionLevel c) m') as [[s z]|e|f].
  2:{ destruct Hf as [_ He]. by refine (conj He (conj (sends_refl _) (conj Hn (conj Hq' Ht)))). }
  2:{ by rewrite Hf in Hm. }
  destruct Hf as [Hfb Hi]. pose proof (frame_bytes_nonempty _ _ _ _ _ Hfb) as Hne. rewrite Hfb in Hm.
  assert (buf_of s = MkBuf (b s) 0) as Hbuf by (unfold buf_of; by rewrite Hi).
  apply wp_bind, wp_write_stream; [done|cbn [fst]; rewrite Hbuf; by apply Hm..|].
  cbn [fst]. intros n x Hu Hcn Hx Hsent. rewrite Hbuf, Hi in Hsent. rewrite Hi in Hx.
  assert (in_buf (MkBuf (b s) x)) as Hin by (destruct Hm as [[? ?] ?]; split; done).
  assert (queue_ok (set_transceiver n c)) as Hqn by (unfold queue_ok; cbn; by rewrite Eq).
  split_and!.
  - intros Hend. cbn [fst snd]. destruct (message_sent_eq m' false (set_transceiver n c)) as [ev Hev].
    apply wp_bind. eapply wp_eq; [exact Hev|]. apply wp_bind.
    destruct (touch_acm_eq (set_calls (calls (set_transceiver n c) ++ ev) (set_transceiver n c))) as [a Ha].
    eapply wp_eq; [exact Ha|]. apply wp_ret.
    refine (conj (conj _ (conj (conj Hu Hcn) (conj Hqn Ht))) _).
    + by etrans; [apply sends_net|etrans; [apply sends_call|apply sends_acm]].
    + unfold wire, backlog. cbn. rewrite Eq, !app_nil_r, Hsent. f_equal. unfold framed. rewrite Hfb.
      pose proof (between_whole s x Hx) as Hwhole. rewrite <- Hend, between_nil, app_nil_r in Hwhole. exact Hwhole.
  - intros Hwr. cbn [fst snd]. set (s' := set_buf _ s). set (m2 := if z then _ else _).
    assert (b (om_stream m2) = b s /\ i (om_stream m2) = x) as [Hb2 Hi2].
    { subst m2. destruct z; [done|]. apply (adopt_stream_b None (set_om_stream s' m')). }
    apply wp_bind, wp_modify. cbn -[swap]. pose proof (swap_b (_writeStream c) (om_stream m2)) as (S1 & S2 & S3 & S4).
    unfold swap_writeStream. cbn -[swap]. destruct (swap (_writeStream c) (om_stream m2)) as [w ms] eqn:Esw.
    cbn [fst snd] in *. change (_sendStreams (set_writeStream w (set_transceiver n c))) with (_sendStreams c).
    rewrite Eq. cbn [app].
    set (c1 := set_sendStreams _ _).
    assert (sends c c1) as Hs1.
    { etrans; [apply sends_net|]. etrans; [apply sends_write|]. apply sends_queue. }
    assert (forall c2, _sendStreams c2 = _sendStreams c1 -> _writeStream c2 = _writeStream c1 ->
      op_write (_registered c2) = true -> queue_ok c2) as Hq2.
    { intros c2 E1 E2 E3. unfold queue_ok. rewrite E1, E2. cbn. unfold buf_of. rewrite S1, S3, Hb2, Hi2.
      split_and!; try done; [by rewrite S2|by right]. }
    assert (forall c2, sent_ok c c2 -> _sendStreams c2 = _sendStreams c1 -> _writeStream c2 = _writeStream c1 ->
      _transceiver c2 = n -> committed m c c2) as Hc.
    { intros c2 Hs E1 E2 E3. split; [done|]. unfold wire, backlog, behind_front. rewrite E1, E2, E3, Eq.
      cbn -[swap between]. rewrite !app_nil_r, Hsent, <- app_assoc. f_equal.
      unfold buf_of. rewrite S1, S3, Hb2, Hi2. unfold b_end at 1, b_size. rewrite S1, Hb2.
      unfold framed. rewrite Hfb. by apply between_whole. }
    apply wp_bind, wp_scheduleTimeout_write; [by intros _| |].
    + apply wp_bind. unfold pool_register, pool_update. apply wp_modify, wp_ret. cbn -[c1].
      apply Hc; [|done..]. refine (conj _ (conj (conj Hu Hcn) (conj _ Ht))).
      * etrans; [exact Hs1|]. apply sends_interest. cbn. by rewrite andb_true_r, orb_false_r.
      * apply Hq2; [done..|]. cbn. by rewrite orb_true_r.
    + apply wp_bind. unfold pool_register, pool_update. apply wp_modify, wp_ret. cbn -[c1].
      apply Hc; [|done..]. refine (conj _ (conj (conj Hu Hcn) (conj _ _))).
      * etrans; [exact Hs1|]. etrans; [apply (sends_task true)|]. apply sends_interest. cbn. by rewrite andb_true_r, orb_false_r.
      * apply Hq2; [done..|]. cbn. by rewrite orb_true_r.
      * split; [done|]. apply Ht.
  - intros e He. by refine (conj He (conj (sends_net _ _) (conj (conj Hu Hcn) (conj Hqn Ht)))).
Qed.

Lemma sendMessage_ok m c : may_send c -> sendable (_compressionLevel c) (om_compress m) (b (om_stream m)) ->
  wp (sendMessage m) (fun _ => sent_ok c) (fun e c' => is_local e = true /\ sent_ok c c') c.
Proof. intros. eapply wp_conseq; [by apply sendMessage_commits| |done]. by intros _ c' [? _]. Qed.
End queue.
