(* ===== verification/ConnectionInv.v ===== *)
(** * The invariant of a connection and the change of state

    [conn_ok] relates the members of a connection: the recorded exception and
    the state, the count of dispatches and the graceful shutdown, the queue of
    messages and the selector, the tables of requests and their hints, the
    timer tasks, the work item that finishes the connection. [setState] keeps
    it in every form, and none of its assertions fails. *)

From S2P Require Import Prelude Hoare Buffer Layout Protocol Stream Wire Encaps Transceiver.
From S2P Require Import ConnectionData ConnectionSend ConnectionState Connection StreamSpec ConnectionFrame ConnectionQueue.

(** The theorems on connections are about a communicator whose message limit
    has room for a header and is an [Int] (Instance.cpp sees to both), without
    a close timeout: see [close_timeout_scheduled_twice]. *)
Class Limits {ST : Settings} : Prop := {
  no_close_timeout : closeTimeout < 0;
  message_limit : Z.of_nat headerSize <= Z.of_nat instance_messageSizeMax < 2 ^ 31
}.

Section invariant.
Context `{PL : Platform} {D E : Type} {TR : Transceiver} {ST : Settings} {BZ : BZip2} {LW : TransceiverLaws TR}.
Local Abbreviation stream := (BasicStream D E).
Local Abbreviation omessage := (@OutgoingMessage D E).
Local Abbreviation conn := (@ConnectionI D E TR).
Implicit Types (s : stream) (c : conn) (m : omessage).

(** ** The invariant *)

(** Before the validation, a connection carries no messages, and the selector
    watches the one operation it waits for, for which a timeout may run. *)
Record young c : Prop := {
  young_queue : _sendStreams c = [];
  young_requests : _requests c = ∅;
  young_asyncRequests : _asyncRequests c = ∅;
  young_count : _dispatchCount c = 0;
  young_batch : _batchStreamInUse c = false;
  young_interest : op_read (_registered c) && op_write (_registered c) = false;
  young_write_task : write_task c = true -> op_write (_registered c) = true;
  young_read_task : read_task c = true -> op_read (_registered c) = true;
  young_write : in_buf (buf_of (_writeStream c));
  young_datagram : tr_datagram = true -> b (_writeStream c) = [];
  young_fresh : _state c = StateNotInitialized -> b (_writeStream c) = [] /\ b (_readStream c) = []
}.

(** The batch has no requests, or at least its header; while a caller has it,
    the marker is behind the header. *)
Definition batch_ok c : Prop :=
  if _batchStreamInUse c then (length requestBatchHdr <= _batchMarker c)%nat
  else (b (_batchStream c) = [] /\ _batchRequestNum c = 0) \/
    (length requestBatchHdr <= length (b (_batchStream c)))%nat.

(** Nobody looks at the batch of a connection that has an exception. *)
Definition batch_fine c : Prop := _exception c = None -> batch_ok c.

Definition reading_ok c : Prop :=
  in_buf (buf_of (_readStream c)) /\
  (i (_readStream c) = b_end (_readStream c) \/ readable (buf_of (_readStream c))) /\
  messageSizeMax (_readStream c) = instance_messageSizeMax.

Record conn_ok c : Prop := {
  ok_exception : (StateClosing <= _state c)%state <-> is_Some (_exception c);
  ok_local : forall e, _exception c = Some e -> is_local e = true;
  ok_shutdown : _shutdownInitiated c = true -> (StateClosing <= _state c)%state;
  ok_closing : _state c = StateClosing ->
    tr_datagram = false /\ (_dispatchCount c = 0 -> _shutdownInitiated c = true);
  ok_count : 0 <= _dispatchCount c < 2 ^ 31;
  ok_finish : finish_items c = if bool_decide (_state c = StateClosed) then 1%nat else 0%nat;
  ok_callback : is_Some (_startCallback c) -> (_state c <= StateNotValidated)%state \/ _state c = StateClosed;
  ok_usable : _state c <> StateFinished -> usable (_transceiver c);
  ok_connected : (StateNotInitialized < _state c)%state -> (_state c < StateClosed)%state -> connected (_transceiver c);
  ok_young : (_state c <= StateNotValidated)%state -> young c;
  ok_queue : (StateNotValidated < _state c)%state -> (_state c < StateClosed)%state -> queue_ok c;
  ok_tasks : tasks_ok c;
  ok_finished : _state c = StateFinished -> _sendStreams c = [] /\ _requests c = ∅ /\ _asyncRequests c = ∅ /\
    _startCallback c = None;
  ok_hints : (_state c < StateClosed)%state ->
    valid_hint (_requestsHint c) (_requests c) = true /\ valid_hint (_asyncRequestsHint c) (_asyncRequests c) = true;
  ok_reading : (_state c < StateClosed)%state -> reading_ok c;
  ok_ids : - 2 ^ 31 <= _nextRequestId c < 2 ^ 31
}.

(** A new connection is in order. *)
Lemma ConnectionI_new_ok n now adapter : usable n -> conn_ok (ConnectionI_new n now adapter).
Proof.
  intros Hn. unfold ConnectionI_new. constructor; cbn; try done; try lia.
  - intros _. split_and!; try done. by left.
Qed.

(** ** Closing *)

(** [c] closed because of [ex], which is recorded if it is the first one *)
Definition closed_by (monitor : bool) (ex : exn) c : conn :=
  set_state StateClosed (set_monitored monitor (set_finish_items (S (finish_items c))
    (set_registered SocketOperationNone (set_exception (Some (default ex (_exception c))) c)))).

Definition closes (ex : exn) c c' : Prop :=
  c' = c /\ (StateClosed <= _state c)%state \/
  (exists monitor, c' = closed_by monitor ex c) /\ (_state c < StateClosed)%state.

Lemma set_first_exception_eq ex c : _state c <> StateClosed \/ is_Some (_exception c) ->
  set_first_exception ex c = (Ok tt, set_exception (Some (default ex (_exception c))) c).
Proof.
  intros Hc. unfold set_first_exception. step. destruct (_exception c) as [e|] eqn:Ee; cbn.
  - rewrite <- Ee. by destruct c.
  - destruct Hc as [Hc|[? ?]]; [|done]. rewrite bind_assert; [done|]. by rewrite bool_decide_eq_false_2.
Qed.

Lemma switchState_closed c : (_state c < StateClosed)%state -> exists monitor,
  switchState StateClosed c = (Ok true, set_state StateClosed (set_monitored monitor
    (set_finish_items (S (finish_items c)) (set_registered SocketOperationNone c)))).
Proof.
  intros Hc. unfold switchState. step.
  assert (effective_state (_state c) StateClosed = StateClosed) as ->.
  { unfold effective_state. by rewrite !andb_false_r. }
  rewrite bool_decide_eq_false_2 by (intros Ec; rewrite Ec in Hc; cbn in Hc; lia).
  assert (try_local (leave_state StateClosed) (fun _ => mret true) c =
    (Ok true, set_finish_items (S (finish_items c)) (set_registered SocketOperationNone c))) as E1.
  { unfold try_local, leave_state. step.
    by rewrite bool_decide_eq_false_2 by (intros Ec; rewrite Ec in Hc; cbn in Hc; lia). }
  rewrite (bind_ok _ _ _ _ _ E1). cbn. unfold when.
  destruct (0 <? _acmTimeout c); [destruct (bool_decide (_state c = StateActive))|].
  - by exists false.
  - exists (monitored c). by destruct c.
  - exists (monitored c). by destruct c.
Qed.

Lemma switchState_finished c : _state c = StateFinished -> switchState StateClosed c = (Ok false, c).
Proof.
  intros Hf. unfold switchState. step. rewrite Hf.
  assert (effective_state StateFinished StateClosed = StateClosed) as ->.
  { unfold effective_state. by rewrite !andb_false_r. }
  rewrite bool_decide_eq_false_2 by done.
  assert (try_local (leave_state StateClosed) (fun _ => mret true) c = (Ok false, c)) as E1.
  { unfold try_local, leave_state. step. by rewrite Hf. }
  by rewrite (bind_ok _ _ _ _ _ E1).
Qed.

Lemma setState_ex_closed_eq ex c : (_state c = StateFinished -> is_Some (_exception c)) -> exists c', setState_ex StateClosed ex c = (Ok tt, c') /\ closes ex c c'.
Proof.
  intros Hok. unfold setState_ex. step. rewrite bind_assert by done.
  destruct (decide (_state c = StateClosed)) as [Hc|Hc].
  { rewrite bool_decide_eq_true_2 by done. exists c. split; [done|]. left. rewrite Hc. split; [done|cbn; lia]. }
  rewrite bool_decide_eq_false_2 by done. rewrite (bind_ok _ _ _ _ _ (set_first_exception_eq ex c (or_introl Hc))).
  unfold setState. destruct (decide (_state c = StateFinished)) as [Hf|Hf].
  - destruct (Hok Hf) as [e He].
    assert (set_exception (Some (default ex (_exception c))) c = c) as ->.
    { rewrite He. cbn. rewrite <- He. by destruct c. }
    exists c. rewrite (bind_ok _ _ _ _ _ (switchState_finished c Hf)). split; [done|].
    left. rewrite Hf. split; [done|cbn; lia].
  - set (c1 := set_exception _ c).
    assert (_state c1 < StateClosed)%state as Hlt.
    { change (_state c1) with (_state c). destruct (_state c); cbn in *; try lia; done. }
    destruct (switchState_closed c1 Hlt) as [monitor Hs]. rewrite (bind_ok _ _ _ _ _ Hs). cbn.
    eexists. split; [done|]. right. split; [|done]. by exists monitor.
Qed.

(** The graceful shutdown has no part in a connection that is closed. *)
Lemma closed_by_ok sh monitor ex c : conn_ok (set_shutdownInitiated sh c) -> is_local ex = true ->
  (_state c < StateClosed)%state -> conn_ok (closed_by monitor ex c).
Proof.
  intros Hok Hex Hlt. destruct Hok.
  assert (_state c <> StateClosed) as Hn by (intros Ec; rewrite Ec in Hlt; cbn in Hlt; lia).
  constructor; cbn in *; try done; try lia.
  - intros e [= <-]. destruct (_exception c) as [e|] eqn:Ee; [by apply ok_local0|done].
  - rewrite ok_finish0. by rewrite bool_decide_eq_false_2.
  - intros _. by right.
  - intros _. apply ok_usable0. intros Ec. rewrite Ec in Hlt. cbn in Hlt. lia.
Qed.

Lemma same_shutdown c : set_shutdownInitiated (_shutdownInitiated c) c = c.
Proof. by destruct c. Qed.

Lemma closed_ok ex c c' : conn_ok c -> is_local ex = true -> closes ex c c' -> conn_ok c'.
Proof.
  intros Hok Hex [[-> _]|[[monitor ->] Hlt]]; [done|]. apply (closed_by_ok (_shutdownInitiated c)); [|done..].
  by rewrite same_shutdown.
Qed.

Lemma finished_exception c : conn_ok c -> _state c = StateFinished -> is_Some (_exception c).
Proof. intros Hok Hf. apply (ok_exception c Hok). rewrite Hf. cbn. lia. Qed.

(** [setState(StateClosed, ex)] from any state *)
Lemma wp_close ex c Q F : conn_ok c -> is_local ex = true ->
  (forall c', closes ex c c' -> conn_ok c' -> (StateClosed <= _state c')%state -> Q tt c') ->
  wp (setState_ex StateClosed ex) Q F c.
Proof.
  intros Hok Hex HQ. destruct (setState_ex_closed_eq ex c (finished_exception c Hok)) as (c' & Hs & Hc).
  eapply wp_eq; [exact Hs|].
  apply HQ; [done|by eapply closed_ok|]. destruct Hc as [[-> ?]|[[monitor ->] ?]]; [done|cbn; lia].
Qed.

(** [close_with] is [setState(StateClosed, ex)]: nothing follows the switch. *)
Lemma switchState_state st c c' : switchState st c = (Ok true, c') -> _state c' = effective_state (_state c) st.
Proof.
  unfold switchState. rewrite bind_get. case_if; [done|]. intros H. apply bind_inv in H as (go & c1 & _ & H).
  destruct go; [|done]. apply bind_inv in H as (? & c2 & _ & H). rewrite bind_modify in H. by injection H as <-.
Qed.

Lemma close_with_eq ex c : close_with ex c = setState_ex StateClosed ex c.
Proof.
  unfold close_with, setState_ex. rewrite !bind_get, bind_assert by done. case_if; [done|].
  unfold mbind at 1 3, M_bind at 1 3. destruct (set_first_exception ex c) as [[[]|e|f] c1]; try done.
  unfold setState, mbind, M_bind. destruct (switchState StateClosed c1) as [[[]|e|f] c2] eqn:E2; try done.
  apply switchState_state in E2. unfold effective_state in E2. rewrite !andb_false_r in E2. cbn in E2.
  cbn. rewrite E2. by cbn.
Qed.

(** ** What a change of state leaves alone *)

(** [c'] comes from [c] by sending messages and changing the state: the count
    of dispatches, the tables of requests and the batch are untouched, a
    closing connection does not come back, and the first exception stays. *)
Record moves c c' : Prop := {
  mv_count : _dispatchCount c' = _dispatchCount c;
  mv_shutdown : _shutdownInitiated c' = true -> _shutdownInitiated c = true \/ _dispatchCount c = 0;
  mv_state : (StateClosing <= _state c)%state -> (_state c <= _state c')%state;
  mv_exception : forall e, _exception c = Some e -> _exception c' = Some e;
  mv_tables : _requests c' = _requests c /\ _requestsHint c' = _requestsHint c /\
    _asyncRequests c' = _asyncRequests c /\ _asyncRequestsHint c' = _asyncRequestsHint c /\
    _nextRequestId c' = _nextRequestId c;
  mv_batch : _batchStreamInUse c' = _batchStreamInUse c /\ _batchStream c' = _batchStream c /\
    _batchMarker c' = _batchMarker c /\ _batchRequestNum c' = _batchRequestNum c
}.

#[export] Instance moves_preorder : PreOrder moves.
Proof.
  split.
  - intros c. split; try done; auto.
  - intros c1 c2 c3 [H1 H2 H3 H4 H5 H6] [G1 G2 G3 G4 G5 G6]. split; [congruence| | | |intuition congruence|intuition congruence].
    + intros Hs. destruct (G2 Hs); [by apply H2|right; congruence].
    + intros Hc. pose proof (H3 Hc). etrans; [by apply H3|]. apply G3. lia.
    + auto.
Qed.

Lemma sends_moves c c' : sends c c' -> moves c c'.
Proof. intros (n & q & w & r & ev & a & wt & wts & -> & _). split; cbn; try done; auto; lia. Qed.

Lemma closes_moves ex c c' : closes ex c c' -> moves c c'.
Proof.
  intros [[-> _]|[[monitor ->] Hlt]]; [done|]. split; cbn; try done; auto.
  - destruct (_state c); cbn in *; lia.
  - intros e He. by rewrite He.
Qed.

Lemma sends_ok c c' : conn_ok c -> (StateNotValidated < _state c)%state -> (_state c < StateClosed)%state ->
  sent_ok c c' -> conn_ok c'.
Proof.
  intros Hok Hlo Hhi (Hs & Hn & Hq & Ht). pose proof Hs as (n & q & w & r & ev & a & wt & wts & Hc' & _).
  destruct Hok. rewrite Hc' in *. destruct Hn. constructor; cbn in *; try done.
  - intros Hy. lia.
  - intros Ef. rewrite Ef in Hhi. cbn in Hhi. lia.
Qed.

Lemma may_send_ok c : conn_ok c -> (StateNotValidated < _state c)%state -> (_state c < StateClosed)%state -> may_send c.
Proof.
  intros [] ??. split_and!; [done| |by auto|by apply ok_tasks0..]. split.
  - apply ok_usable0. intros Ef. rewrite Ef in *. cbn in *. lia.
  - apply ok_connected0; [cbn in *; lia|done].
Qed.
(** ** The graceful shutdown *)

Context `{LI : !Limits}.

Lemma wp_no_close_timeout c Q F : Q tt c -> wp (scheduleTimeout SocketOperationWrite closeTimeout) Q F c.
Proof. intros HQ. unfold scheduleTimeout. by rewrite (proj2 (Z.ltb_lt _ _) (@no_close_timeout _ LI)). Qed.

(** The close message is one that a stream connection may send. *)
Lemma close_message_sendable level t cc : tr_datagram = false -> sendable level false (header_bytes t cc).
Proof.
  intros Hd. unfold sendable, frame_bytes. rewrite andb_false_r. cbn [andb].
  rewrite length_header_bytes. cbn -[header_bytes]. split; [|by apply stream_law].
  unfold in_buf, buf_end, buf_b, buf_i. rewrite ByteSeq.length_store, length_header_bytes. unfold headerSize. lia.
Qed.

(** [initiateShutdown] in a closing connection that is in order but for the
    shutdown *)
Lemma initiateShutdown_ok c : conn_ok (set_shutdownInitiated true c) -> _state c = StateClosing ->
  _dispatchCount c = 0 -> _shutdownInitiated c = false ->
  wp initiateShutdown (fun _ c' => conn_ok c' /\ sends (set_shutdownInitiated true c) c')
    (fun e c' => is_local e = true /\ conn_ok c' /\ sends (set_shutdownInitiated true c) c') c.
Proof.
  intros Hok Hst Hdc Hsh. unfold initiateShutdown. apply wp_bind, wp_get.
  apply wp_bind, wp_assert; [by rewrite Hst|]. apply wp_bind, wp_assert; [by rewrite Hdc|].
  apply wp_bind, wp_assert; [by rewrite Hsh|]. apply wp_bind, wp_modify.
  set (c1 := set_shutdownInitiated true c) in *.
  assert (_state c1 = StateClosing) as Hst1 by done.
  destruct (ok_closing c1 Hok Hst1) as [Hd _]. rewrite Hd. cbn [negb when].
  pose proof (header_result closeConnectionMsg (chr 1) (new_stream (D:=D) (E:=E) false)) as Hr.
  destruct (header closeConnectionMsg (chr 1) (new_stream false)) as [r os].
  apply wp_bind, wp_lift. destruct r as [[]|e|f]; [|by split_and!; [..|apply sends_refl]|done].
  assert (conn_ok c1 /\ (StateNotValidated < _state c1)%state /\ (_state c1 < StateClosed)%state) as (_ & Hlo & Hhi).
  { rewrite Hst1. by split_and!. }
  apply wp_bind. eapply wp_conseq.
  - apply sendMessage_ok; [by apply may_send_ok|]. cbn [om_compress om_stream]. rewrite Hr. by apply close_message_sendable.
  - intros st c2 Hs. assert (conn_ok c2) as Hok2 by (by apply (sends_ok c1)).
    unfold when. case_if; [apply wp_no_close_timeout|apply wp_ret]; (split; [done|apply Hs]).
  - intros e c2 [He Hs]. split_and!; [done|by apply (sends_ok c1)|apply Hs].
Qed.

(** [try { initiateShutdown(); } catch(ex) { setState(StateClosed, ex); }] *)
Lemma try_shutdown_ok c Q F (handler : exn -> M conn unit) :
  (forall ex c, handler ex c = setState_ex StateClosed ex c) ->
  conn_ok (set_shutdownInitiated true c) -> _state c = StateClosing ->
  _dispatchCount c = 0 -> _shutdownInitiated c = false ->
  (forall c', conn_ok c' -> moves c c' -> Q tt c') ->
  wp (try_local initiateShutdown handler) Q F c.
Proof.
  intros Hh Hok Hst Hdc Hsh HQ.
  assert (moves c (set_shutdownInitiated true c)) as Hm by (split; cbn; try done; auto; lia).
  apply wp_try. eapply wp_conseq; [by apply initiateShutdown_ok|..].
  - intros [] c' [Hok' Hs]. apply HQ; [done|]. etrans; [exact Hm|by apply sends_moves].
  - intros e c' (He & Hok' & Hs). rewrite He. unfold wp. rewrite Hh. apply wp_close; [done..|].
    intros c2 Hc Hok2 _. apply HQ; [done|]. etrans; [exact Hm|]. etrans; [by apply sends_moves|by eapply closes_moves].
Qed.
(** [setState(StateClosed, ex)] when the shutdown has not been initiated yet *)
Lemma wp_close_pending ex c Q F : conn_ok (set_shutdownInitiated true c) -> _state c = StateClosing -> is_local ex = true ->
  (forall c', conn_ok c' -> moves c c' -> Q tt c') -> wp (setState_ex StateClosed ex) Q F c.
Proof.
  intros Hok Hst Hex HQ.
  destruct (setState_ex_closed_eq ex c ltac:(by rewrite Hst)) as (c' & Hs & Hc). eapply wp_eq; [exact Hs|].
  pose proof (closes_moves _ _ _ Hc). destruct Hc as [[_ Hc]|[[monitor ->] Hlt]]; [rewrite Hst in Hc; cbn in Hc; lia|].
  apply HQ; [|done]. by apply (closed_by_ok true).
Qed.

(** ** setState(StateClosing, ex) *)

Lemma switchState_effective st1 st2 c : effective_state (_state c) st1 = effective_state (_state c) st2 ->
  switchState st1 c = switchState st2 c.
Proof. intros H. unfold switchState. rewrite !bind_get. by rewrite H. Qed.

Lemma effective_closing current : effective_state current StateClosing =
  if tr_datagram || (current <=? StateNotValidated)%state then StateClosed else StateClosing.
Proof. unfold effective_state. rewrite !andb_true_r. by destruct tr_datagram, (current <=? StateNotValidated)%state. Qed.

Lemma effective_other current st : st <> StateClosing -> effective_state current st = st.
Proof. intros H. unfold effective_state. by rewrite (bool_decide_eq_false_2 _ H), !andb_false_r. Qed.

(** [c] with a new state, and what the selector and the monitor watch; the
    interest in writing is the same. *)
Definition switched (st : State) c c' : Prop :=
  exists mo r, c' = set_state st (set_monitored mo (set_registered r c)) /\ op_write r = op_write (_registered c).

(** The end of [switchState] once it knows that the state changes *)
Lemma switchState_go st r c : effective_state (_state c) st = st -> _state c <> st ->
  leave_state st c = (Ok true, set_registered r c) -> op_write r = op_write (_registered c) ->
  exists c', switchState st c = (Ok true, c') /\ switched st c c'.
Proof.
  intros He Hne Hl Hr. unfold switchState. rewrite bind_get, He, bool_decide_eq_false_2 by done.
  assert (try_local (leave_state st) (fun _ => mret true) c = (Ok true, set_registered r c)) as E1
    by (unfold try_local; by rewrite Hl).
  rewrite (bind_ok _ _ _ _ _ E1). unfold when.
  destruct (0 <? _acmTimeout c); [destruct (bool_decide (st = StateActive)); [|destruct (bool_decide (_state c = StateActive))]|].
  - eexists. split; [done|]. by exists true, r.
  - eexists. split; [done|]. by exists false, r.
  - eexists. split; [done|]. exists (monitored c), r. split; [by destruct c|done].
  - eexists. split; [done|]. exists (monitored c), r. split; [by destruct c|done].
Qed.

(** A validated connection goes to another state before it is closed. *)
Lemma switched_ok st c c' : conn_ok c -> (StateNotValidated < _state c)%state -> (_state c < StateClosing)%state ->
  (StateNotValidated < st)%state -> (st < StateClosing)%state -> switched st c c' -> conn_ok c' /\ moves c c'.
Proof.
  intros Hok Hlo Hhi Hlo' Hhi' (mo & r & -> & Hr). split; [|split; cbn in *; try done; auto; intros; lia].
  assert (_state c <> StateFinished /\ _state c <> StateClosed /\ ~ (_state c <= StateNotValidated)%state) as (H1 & H2 & H3).
  { destruct (_state c); cbn in *; try (exfalso; lia); split_and!; try done; lia. }
  assert (st <> StateFinished /\ st <> StateClosed /\ st <> StateClosing /\ ~ (st <= StateNotValidated)%state) as (G1 & G2 & G3 & G4).
  { destruct st; cbn in *; try (exfalso; lia); split_and!; try done; lia. }
  destruct Hok. constructor; cbn in *; try done; try lia; auto with lia.
  - split; [lia|]. intros Hx. apply ok_exception0 in Hx. lia.
  - intros Hx. apply ok_shutdown0 in Hx. lia.
  - rewrite ok_finish0. by rewrite !bool_decide_eq_false_2.
  - intros Hx. by destruct (ok_callback0 Hx).
  - intros _ _. unfold queue_ok in *. cbn. rewrite Hr. apply ok_queue0; lia.
Qed.

(** The selector after [_register(Read)] and [unregister(Read)] *)
Definition reads_more c := selector_update SocketOperationNone SocketOperationRead (_registered c).
Definition reads_less c := selector_update SocketOperationRead SocketOperationNone (_registered c).

Lemma interest_kept c : op_write (reads_more c) = op_write (_registered c) /\ op_write (reads_less c) = op_write (_registered c).
Proof. cbn. by rewrite andb_true_r, orb_false_r. Qed.

Lemma same_registered c : set_registered (_registered c) c = c.
Proof. by destruct c. Qed.

(** [setState(StateActive)] and [setState(StateHolding)] of a connection that
    is validated *)
Lemma wp_setState_validated st c Q F : conn_ok c -> (StateNotValidated < _state c)%state ->
  st = StateActive \/ st = StateHolding ->
  (forall c', conn_ok c' -> moves c c' -> (StateNotValidated < _state c')%state -> Q tt c') ->
  wp (setState st) Q F c.
Proof.
  intros Hok Hlo Hst HQ. unfold setState.
  assert ((exists c', switchState st c = (Ok true, c') /\ switched st c c' /\ (_state c < StateClosing)%state) \/
    switchState st c = (Ok false, c)) as [(c' & Hs & Hsw & Hhi)|Hs].
  { assert (effective_state (_state c) st = st) as He by (apply effective_other; by destruct Hst as [->| ->]).
    pose proof (interest_kept c) as [Hm Hl].
    destruct (decide (_state c = StateActive)) as [Hc|Hc]; [|destruct (decide (_state c = StateHolding)) as [Hc'|Hc']].
    - destruct Hst as [->| ->].
      + right. unfold switchState. by rewrite bind_get, He, bool_decide_eq_true_2.
      + left. destruct (switchState_go StateHolding (reads_less c) c He) as (c' & Hs & Hsw); [by rewrite Hc|..|done|].
        { unfold leave_state. rewrite bind_get, Hc. done. }
        exists c'. split_and!; [done..|]. rewrite Hc. cbn. lia.
    - destruct Hst as [->| ->].
      + left. destruct (switchState_go StateActive (reads_more c) c He) as (c' & Hs & Hsw); [by rewrite Hc'|..|done|].
        { unfold leave_state. rewrite bind_get, Hc'. done. }
        exists c'. split_and!; [done..|]. rewrite Hc'. cbn. lia.
      + right. unfold switchState. by rewrite bind_get, He, bool_decide_eq_true_2.
    - right. unfold switchState. rewrite bind_get, He. case_if; [done|].
      assert (try_local (leave_state st) (fun _ => mret true) c = (Ok false, c)) as E1.
      { unfold try_local, leave_state. assert (_state c <> StateNotValidated) as Hn by (intros Ec; rewrite Ec in *; cbn in *; lia).
        destruct Hst as [->| ->]; rewrite bind_get, !bool_decide_eq_false_2 by done; done. }
      by rewrite (bind_ok _ _ _ _ _ E1). }
  - apply wp_bind. eapply wp_eq; [exact Hs|]. cbv beta. apply wp_bind, wp_get.
    assert (_state c' = st) as Hst' by (by destruct Hsw as (mo & r & -> & _)).
    rewrite Hst', bool_decide_eq_false_2 by (by destruct Hst as [->| ->]). apply wp_ret.
    destruct (switched_ok st c c' Hok Hlo Hhi) as [Hok' Hm]; [by destruct Hst as [->| ->]..|done|].
    apply HQ; [done..|]. rewrite Hst'. by destruct Hst as [->| ->].
  - apply wp_bind. eapply wp_eq; [exact Hs|]. cbv beta. apply wp_bind, wp_get. apply wp_ret. by apply HQ.
Qed.
(** [setState(StateClosing, ex)] of a connection that is closed already *)
Lemma switchState_closing_late c : (StateClosed <= _state c)%state ->
  switchState StateClosing c = (Ok false, c).
Proof.
  intros Hc. unfold switchState. rewrite bind_get, effective_closing.
  assert ((_state c <=? StateNotValidated)%state = false) as -> by (apply Z.leb_gt; cbn in *; lia).
  rewrite orb_false_r. case_if; [done|]. bool_to_prop.
  set (st := if tr_datagram then _ else _) in *.
  assert (try_local (leave_state st) (fun _ => mret true) c = (Ok false, c)) as E1.
  { unfold try_local, leave_state, st in *. rewrite bind_get. apply bool_decide_eq_false in E0.
    destruct tr_datagram.
    - rewrite bool_decide_eq_true_2; [done|]. destruct (_state c); cbn in *; try lia; done.
    - by rewrite (proj2 (Z.leb_le _ _) Hc). }
  by rewrite (bind_ok _ _ _ _ _ E1).
Qed.

(** The connection is closing: in order, but for the shutdown that has not
    been initiated yet if nothing is being dispatched. *)
Lemma switched_closing_ok ex c c' : conn_ok c -> (StateNotValidated < _state c)%state -> (_state c < StateClosing)%state ->
  tr_datagram = false -> is_local ex = true ->
  switched StateClosing (set_exception (Some (default ex (_exception c))) c) c' ->
  conn_ok (set_shutdownInitiated (bool_decide (_dispatchCount c = 0)) c') /\ moves c c' /\
  _state c' = StateClosing /\ _shutdownInitiated c' = false.
Proof.
  intros Hok Hlo Hhi Hd Hex (mo & r & -> & Hr).
  assert (_state c <> StateFinished /\ _state c <> StateClosed /\ ~ (_state c <= StateNotValidated)%state) as (H1 & H2 & H3).
  { destruct (_state c); cbn in *; try (exfalso; lia); split_and!; try done; lia. }
  assert (_shutdownInitiated c = false) as Hsh.
  { destruct (_shutdownInitiated c) eqn:Es; [|done]. apply (ok_shutdown c Hok) in Es. lia. }
  split_and!; [|split; cbn in *; try done; auto; try (intros; lia)|done|done].
  2:{ intros e He. by rewrite He. }
  destruct Hok. constructor; cbn in *; try done; try lia; auto with lia.
  - intros e [= <-]. destruct (_exception c) eqn:Ee; [by apply ok_local0|done].
  - intros _. split; [done|]. intros Hz. by rewrite bool_decide_eq_true_2.
  - rewrite ok_finish0. by rewrite !bool_decide_eq_false_2.
  - intros Hx. by destruct (ok_callback0 Hx).
  - intros _ _. unfold queue_ok in *. cbn in *. rewrite Hr. apply ok_queue0; lia.
Qed.

Lemma set_shutdown_false c : _shutdownInitiated c = false -> set_shutdownInitiated false c = c.
Proof. intros <-. apply same_shutdown. Qed.

(** [setState(StateClosing, ex)] from any state *)
Lemma wp_closing ex c Q F : conn_ok c -> is_local ex = true ->
  (forall c', conn_ok c' -> moves c c' -> (StateClosing <= _state c')%state -> Q tt c') ->
  wp (setState_ex StateClosing ex) Q F c.
Proof.
  intros Hok Hex HQ. unfold setState_ex. apply wp_bind, wp_get, wp_bind, wp_assert; [done|].
  case_if; [apply bool_decide_eq_true in E0; apply wp_ret, HQ; [done..|]; by rewrite E0|].
  apply bool_decide_eq_false in E0.
  assert (_state c <> StateClosed \/ is_Some (_exception c)) as Hfirst.
  { destruct (decide (_state c = StateClosed)) as [Ec|]; [right|by left]. apply (ok_exception c Hok). rewrite Ec. cbn. lia. }
  apply wp_bind. eapply wp_eq; [by apply set_first_exception_eq|]. set (c1 := set_exception _ c).
  destruct (decide (StateClosed <= _state c)%state) as [Hc|Hc].
  { assert (is_Some (_exception c)) as [e He] by (apply (ok_exception c Hok); cbn in *; lia).
    assert (c1 = c) as -> by (unfold c1; rewrite He; cbn; rewrite <- He; by destruct c).
    unfold setState. apply wp_bind. eapply wp_eq; [by apply switchState_closing_late|].
    apply wp_bind, wp_get, wp_ret, HQ; [done..|]. cbn in *. lia. }
  assert (_state c < StateClosing)%state as Hhi by (destruct (_state c); cbn in *; try lia; done).
  destruct (tr_datagram || (_state c <=? StateNotValidated)%state) eqn:Eeff.
  - assert (setState StateClosing c1 = setState_ex StateClosed ex c) as Heq.
    { unfold setState_ex. rewrite bind_get, bind_assert, bool_decide_eq_false_2 by
        (try done; intros Ec; rewrite Ec in *; cbn in *; lia).
      rewrite (bind_ok _ _ _ _ _ (set_first_exception_eq ex c Hfirst)). fold c1. unfold setState.
      unfold mbind at 1 3, M_bind at 1 3. rewrite (switchState_effective StateClosing StateClosed); [done|].
      rewrite effective_closing, effective_other by done. change (_state c1) with (_state c). by rewrite Eeff. }
    unfold wp. rewrite Heq. apply wp_close; [done..|]. intros c' Hc' Hok' Hst. apply HQ; [done|by eapply closes_moves|].
    cbn in *. lia.
  - apply orb_false_iff in Eeff as [Hd Hlo]. apply Z.leb_gt in Hlo.
    assert (exists c', switchState StateClosing c1 = (Ok true, c') /\ switched StateClosing c1 c') as (c' & Hs & Hsw).
    { pose proof (interest_kept c1) as [Hm _].
      apply (switchState_go _ (if bool_decide (_state c1 = StateHolding) then reads_more c1 else _registered c1)).
      - rewrite effective_closing. change (_state c1) with (_state c). rewrite Hd.
        by rewrite (proj2 (Z.leb_gt _ _) Hlo).
      - done.
      - unfold leave_state. rewrite bind_get. change (_state c1) with (_state c).
        rewrite (proj2 (Z.leb_gt (state_code StateClosed) (state_code (_state c)))) by (cbn in *; lia). unfold when.
        case_if; [done|]. change (_registered c) with (_registered c1). rewrite same_registered. done.
      - by case_if. }
    destruct (switched_closing_ok ex c c' Hok Hlo Hhi Hd Hex Hsw) as (Hok' & Hm & Hst & Hsh).
    unfold setState. apply wp_bind. eapply wp_eq; [exact Hs|]. apply wp_bind, wp_get.
    rewrite Hst, bool_decide_eq_true_2 by done. cbn [andb].
    rewrite (mv_count _ _ Hm). destruct (decide (_dispatchCount c = 0)) as [Hz|Hz].
    + rewrite (proj2 (Z.eqb_eq _ _) Hz). cbn [when]. rewrite bool_decide_eq_true_2 in Hok' by done.
      apply try_shutdown_ok; [apply close_with_eq|done|done|by rewrite (mv_count _ _ Hm)|done|].
      intros c2 Hok2 Hm2. apply HQ; [done|by etrans|]. pose proof (mv_state _ _ Hm2) as Hx. rewrite Hst in Hx.
      apply Hx. done.
    + rewrite (proj2 (Z.eqb_neq _ _) Hz). rewrite bool_decide_eq_false_2 in Hok' by done.
      rewrite (set_shutdown_false _ Hsh) in Hok'. apply wp_ret, HQ; [done..|]. by rewrite Hst.
Qed.
(** ** What every operation keeps *)

Record steady c c' : Prop := {
  st_count : _dispatchCount c' = _dispatchCount c;
  st_shutdown : _shutdownInitiated c' = true -> _shutdownInitiated c = true \/ _dispatchCount c = 0;
  st_state : (StateClosing <= _state c)%state -> (_state c <= _state c')%state;
  st_exception : forall e, _exception c = Some e -> _exception c' = Some e;
  st_batch : batch_fine c -> batch_fine c'
}.

Lemma moves_steady c c' : moves c c' -> steady c c'.
Proof.
  intros [????? (H1 & H2 & H3 & H4)]. split; [done..|]. unfold batch_fine, batch_ok. rewrite H1, H2, H3, H4.
  intros Hb Hex. apply Hb. destruct (_exception c) as [e|] eqn:Ee; [|done]. by rewrite (mv_exception0 e) in Hex.
Qed.

#[export] Instance steady_preorder : PreOrder steady.
Proof.
  split.
  - intros c. split; try done; auto.
  - intros c1 c2 c3 [H1 H2 H3 H4 ?] [G1 G2 G3 G4 ?]. split; [congruence|..|auto|auto].
    + intros Hs. destruct (G2 Hs); [by apply H2|right; congruence].
    + intros Hc. pose proof (H3 Hc). etrans; [by apply H3|]. apply G3. lia.
Qed.

(** An operation that neither faults nor breaks the invariant, whether it
    returns or throws *)
Definition keeps {A} (m : M conn A) c : Prop :=
  wp m (fun _ c' => conn_ok c' /\ steady c c') (fun _ c' => conn_ok c' /\ steady c c') c.

Lemma keeps_ret {A} (a : A) c : conn_ok c -> keeps (mret a) c.
Proof. intros. by apply wp_ret. Qed.

Lemma keeps_throw {A} e c : conn_ok c -> keeps (A := A) (throw e) c.
Proof. intros. by apply wp_throw. Qed.

Lemma keeps_bind {A B} (m : M conn A) (k : A -> M conn B) c :
  keeps m c -> (forall a c', conn_ok c' -> steady c c' -> keeps (k a) c') -> keeps (mbind k m) c.
Proof.
  intros Hm Hk. apply wp_bind. eapply wp_conseq; [exact Hm| |done]. intros a c' [Hok Hs]. cbv beta.
  eapply wp_conseq; [by apply Hk|..]; intros ? c2 [??]; (split; [done|by etrans]).
Qed.

Lemma keeps_close ex c : conn_ok c -> is_local ex = true -> keeps (setState_ex StateClosed ex) c.
Proof. intros. apply wp_close; [done..|]. intros c' Hc Hok _. split; [done|]. by eapply moves_steady, closes_moves. Qed.

Lemma keeps_closing ex c : conn_ok c -> is_local ex = true -> keeps (setState_ex StateClosing ex) c.
Proof. intros. apply wp_closing; [done..|]. intros c' Hok Hm _. split; [done|by apply moves_steady]. Qed.
End invariant.
