(* ===== verification/ConnectionRequests.v ===== *)
(** * Requests, batches and responses keep the invariant

    Each operation of a caller and each end of a dispatch, from a connection
    in order, does not fault and leaves the connection in order. *)

From S2P Require Import Prelude Hoare Buffer Layout Protocol Stream Wire Encaps Transceiver.
From S2P Require Import ConnectionData ConnectionSend ConnectionState Connection StreamSpec.
From S2P Require Import ConnectionFrame ConnectionQueue ConnectionInv.

Section requests.
Context `{PL : Platform} {D E : Type} {TR : Transceiver} {ST : Settings} {BZ : BZip2} {LW : TransceiverLaws TR}.
Context `{LI : !Limits}.
Local Abbreviation stream := (BasicStream D E).
Local Abbreviation omessage := (@OutgoingMessage D E).
Local Abbreviation conn := (@ConnectionI D E TR).
Implicit Types (s : stream) (c : conn) (m : omessage).

(** The connection is validated, as it is for every caller that has it. *)
Definition validated c : Prop := (StateNotValidated < _state c)%state.

Lemma open_state c : conn_ok c -> validated c -> _exception c = None ->
  (_state c < StateClosing)%state /\ may_send c.
Proof.
  intros Hok Hv Hex. assert (_state c < StateClosing)%state as Hlt.
  { destruct (Z.lt_ge_cases (state_code (_state c)) (state_code StateClosing)) as [|Hge]; [done|].
    apply (ok_exception c Hok) in Hge as [e He]. congruence. }
  split; [done|]. apply may_send_ok; [done..|]. cbn in *. lia.
Qed.

(** [_exception->ice_throw()] after a connection has been closed *)
Lemma wp_throw_exception {A} c (Q : A -> conn -> Prop) F : conn_ok c -> (StateClosing <= _state c)%state ->
  (forall e, is_local e = true -> _exception c = Some e -> F e c) -> wp throw_exception Q F c.
Proof.
  intros Hok Hst HF. unfold throw_exception. apply wp_bind, wp_get.
  destruct (proj1 (ok_exception c Hok) Hst) as [e He]. rewrite He. apply wp_throw, HF; [by apply (ok_local c Hok)|done].
Qed.

Lemma keeps_throw_exception {A} c : conn_ok c -> (StateClosing <= _state c)%state -> keeps (A := A) throw_exception c.
Proof. intros. by apply wp_throw_exception. Qed.

(** Calls on the callers change nothing in the connection. *)
Lemma calls_ok ev c : conn_ok c -> conn_ok (set_calls ev c).
Proof. intros Hok. destruct Hok. constructor; cbn in *; try done. intros Hy. by destruct (ok_young Hy). Qed.

Lemma keeps_emit ev c : conn_ok c -> keeps (emit ev) c.
Proof. intros. apply wp_modify. split; [by apply calls_ok|]. split; try done; cbn; auto; lia. Qed.

(** ** Sending a message, or closing the connection *)

Lemma wp_sendMessage_or_close m c Q F : conn_ok c -> validated c -> (_state c < StateClosed)%state ->
  sendable (_compressionLevel c) (om_compress m) (b (om_stream m)) ->
  (forall status c', conn_ok c' -> sends c c' -> Q status c') ->
  (forall e c', is_local e = true -> conn_ok c' -> moves c c' -> _exception c' = Some e -> F e c') ->
  wp (sendMessage_or_close m) Q F c.
Proof.
  intros Hok Hv Hst Hm HQ HF. apply wp_try. eapply wp_conseq; [apply sendMessage_ok; [by apply may_send_ok|done]|..].
  - intros status c' Hs. apply HQ; [by apply (sends_ok c)|by apply Hs].
  - intros e c' [He Hs]. rewrite He. assert (conn_ok c') as Hok' by (by apply (sends_ok c)).
    apply wp_bind, wp_close; [done..|]. intros c2 Hc Hok2 Hst2. apply wp_throw_exception; [done|cbn in *; lia|].
    intros e2 He2 Hex2. apply HF; [done..| |done]. etrans; [by apply sends_moves, Hs|by eapply closes_moves].
Qed.

(** ** Requests *)

Lemma nextRequestId_ok c : - 2 ^ 31 <= _nextRequestId c < 2 ^ 31 ->
  exists id next, nextRequestId c = (Ok id, set_nextRequestId next c) /\ 0 < id < 2 ^ 31 /\
    - 2 ^ 31 <= next < 2 ^ 31 /\ id = (if _nextRequestId c <=? 0 then 1 else _nextRequestId c) /\
    next = to_i32 (id + 1).
Proof.
  intros Hr. unfold nextRequestId. steps. case_if; bool_to_prop.
  - exists 1, 2. by split_and!.
  - eexists _, _. split; [done|]. pose proof (to_signed_range 32 (_nextRequestId c + 1) ltac:(lia)).
    unfold in_signed in *. split_and!; try done; lia.
Qed.

(** A request whose bytes, with any id, may be sent *)
Definition request_sendable level (compress response : bool) (bs : list byte) : Prop :=
  if response then (headerSize + 4 <= length bs)%nat /\
    forall id, sendable level compress (ByteSeq.store headerSize (encode_scalar Int id) bs)
  else sendable level compress bs.

Lemma number_request_ok os compress response c : conn_ok c -> validated c ->
  request_sendable (_compressionLevel c) compress response (b os) ->
  wp (number_request os response)
    (fun r c' => conn_ok c' /\ (exists next, c' = set_nextRequestId next c) /\ (_state c < StateClosing)%state /\
      sendable (_compressionLevel c) compress (b r.2) /\ (if response then 0 < r.1 else r.1 = 0))
    (fun _ c' => c' = c) c.
Proof.
  intros Hok Hv Hm. unfold number_request. apply wp_bind, wp_get.
  destruct (_exception c) as [e|] eqn:Eex; [done|].
  destruct (open_state c Hok Hv Eex) as [Hlt Hsend].
  apply wp_bind, wp_assert; [by apply Z.ltb_lt|]. apply wp_bind, wp_assert; [by apply Z.ltb_lt|].
  pose proof (checkSendSize_law (b os) (i os) instance_messageSizeMax (proj2 message_limit)) as Hcheck.
  apply wp_bind, wp_lift. destruct (tr_checkSendSize _ _) as [[]|e|f]; [|done|done].
  destruct response.
  2:{ apply wp_ret. split_and!; try done. exists (_nextRequestId c). by destruct c. }
  destruct (nextRequestId_ok c (ok_ids c Hok)) as (id & next & Hn & Hid & Hnext & _).
  apply wp_bind. eapply wp_eq; [exact Hn|]. cbv beta. destruct Hm as [Hlen Hm].
  rewrite store_eq, length_encode_Int, (proj2 (Nat.leb_le _ _)) by done. apply wp_bind, wp_lift, wp_ret.
  refine (conj _ (conj _ (conj Hlt (conj (Hm id) (proj1 Hid))))); [|by exists next]. destruct Hok. unfold validated in Hv. constructor; cbn in *; try done. intros; lia.
Qed.

Lemma valid_hint_insert id call (t : gmap Z nat) : valid_hint (Some id) (insert_request id call t) = true.
Proof.
  unfold valid_hint, insert_request. apply bool_decide_eq_true_2.
  destruct (t !! id) as [x|] eqn:Et; [by exists x|]. rewrite lookup_insert_eq. by eexists.
Qed.

(** Entering a call into one of the tables *)
Lemma tables_ok h1 (m1 : gmap Z nat) h2 (m2 : gmap Z nat) c : conn_ok c -> validated c -> (_state c <> StateFinished) ->
  valid_hint h1 m1 = true -> valid_hint h2 m2 = true ->
  conn_ok (set_requestsHint h1 (set_requests m1 (set_asyncRequestsHint h2 (set_asyncRequests m2 c)))).
Proof.
  intros Hok Hv Hf H1 H2. unfold validated in *. destruct Hok. constructor; cbn in *; try done.
  intros Hx. lia.
Qed.

(** The common part of [sendRequest] and [sendAsyncRequest]: [enter] is the
    change of the tables. *)
Lemma keeps_request {A} target (enter : Z -> conn -> conn) (answer : AsyncStatus -> A) os compress response c :
  conn_ok c -> validated c -> request_sendable (_compressionLevel c) compress response (b os) ->
  (forall id c', conn_ok c' -> validated c' -> (_state c' < StateClosed)%state ->
    conn_ok (enter id c') /\ steady c' (enter id c')) ->
  keeps (numbered ← number_request os response;
    let '(requestId, os) := numbered in
    status ← sendMessage_or_close (MkMessage os target compress requestId false false);
    when response (modify (enter requestId));;
    mret (answer status)) c.
Proof.
  intros Hok Hv Hm Hin. unfold keeps. apply wp_bind.
  eapply wp_conseq; [by apply number_request_ok|..]; [|intros e c' ->; by split].
  intros [id os'] c1 (Hok1 & (next & ->) & Hlt & Hs & _). set (c1 := set_nextRequestId next c) in *.
  assert (steady c c1) as Hst1 by (split; cbn; try done; auto; lia).
  apply wp_bind, wp_sendMessage_or_close; [done|done|cbn in *; lia|done|..].
  - intros status c2 Hok2 Hs2. assert (steady c c2) as Hst2 by (etrans; [done|by apply moves_steady, sends_moves]).
    assert (_state c2 = _state c) as Est by (by destruct Hs2 as (? & ? & ? & ? & ? & ? & ? & ? & -> & _)).
    apply wp_bind, wp_when; intros Hr; [|by apply wp_ret]. apply wp_modify, wp_ret.
    destruct (Hin id c2 Hok2) as [? ?]; [unfold validated in *; by rewrite Est|rewrite Est; cbn in *; lia|].
    split; [done|by etrans].
  - intros e c2 _ Hok2 Hm2 _. split; [done|]. etrans; [done|by apply moves_steady].
Qed.

Lemma enter_ok h1 (m1 : gmap Z nat) h2 (m2 : gmap Z nat) c : conn_ok c -> validated c -> (_state c < StateClosed)%state ->
  (valid_hint (_requestsHint c) (_requests c) = true -> valid_hint h1 m1 = true) ->
  (valid_hint (_asyncRequestsHint c) (_asyncRequests c) = true -> valid_hint h2 m2 = true) ->
  let c' := set_requestsHint h1 (set_requests m1 (set_asyncRequestsHint h2 (set_asyncRequests m2 c))) in
  conn_ok c' /\ steady c c'.
Proof.
  intros Hok Hv Hst H1 H2. pose proof (ok_hints c Hok Hst) as [Hh1 Hh2]. split; [|by split; try done; auto; cbn; lia].
  apply tables_ok; auto. intros Ef. rewrite Ef in Hst. cbn in Hst. lia.
Qed.

Lemma keeps_sendRequest call os compress response c : conn_ok c -> validated c ->
  request_sendable (_compressionLevel c) compress response (b os) -> keeps (sendRequest call os compress response) c.
Proof.
  intros. unfold sendRequest. apply keeps_request; [done..|]. intros id c' Hok' Hv' Hst'.
  pose proof (enter_ok (Some id) (insert_request id call (_requests c')) (_asyncRequestsHint c') (_asyncRequests c')
    c' Hok' Hv' Hst' (fun _ => valid_hint_insert _ _ _) (fun Hh => Hh)) as Hr. by destruct c'.
Qed.

Lemma keeps_sendAsyncRequest call w os compress response c : conn_ok c -> validated c ->
  request_sendable (_compressionLevel c) compress response (b os) ->
  keeps (sendAsyncRequest call w os compress response) c.
Proof.
  intros. unfold sendAsyncRequest. apply (keeps_request _ _ (fun status => status)); [done..|]. intros id c' Hok' Hv' Hst'.
  pose proof (enter_ok (_requestsHint c') (_requests c') (Some id) (insert_request id call (_asyncRequests c'))
    c' Hok' Hv' Hst' (fun Hh => Hh) (fun _ => valid_hint_insert _ _ _)) as Hr. by destruct c'.
Qed.

(** ** Batches *)

(** [c] with another batch *)
Definition batch_to str inuse mk num z c : conn :=
  set_batchStream str (set_batchStreamInUse inuse (set_batchMarker mk (set_batchRequestNum num
    (set_batchRequestCompress z c)))).

Definition batches c c' : Prop := exists str inuse mk num z, c' = batch_to str inuse mk num z c.

#[export] Instance batches_preorder : PreOrder batches.
Proof.
  split.
  - intros c. exists (_batchStream c), (_batchStreamInUse c), (_batchMarker c), (_batchRequestNum c),
      (_batchRequestCompress c). by destruct c.
  - intros c1 c2 c3 (?&?&?&?&?&->) (str&iu&mk&num&z&->). by exists str, iu, mk, num, z.
Qed.

Ltac batches_here := match goal with |- batches ?c ?c' =>
  exists (_batchStream c'), (_batchStreamInUse c'), (_batchMarker c'), (_batchRequestNum c'), (_batchRequestCompress c');
  by destruct c end.

Lemma batches_stream str c : batches c (set_batchStream str c).
Proof. batches_here. Qed.

Lemma batches_ok c c' : conn_ok c -> validated c -> batches c c' -> conn_ok c'.
Proof.
  intros Hok Hv (str & inuse & mk & num & z & ->). unfold validated in Hv.
  destruct Hok. constructor; cbn in *; try done. intros; lia.
Qed.

Lemma batches_steady c c' : batches c c' -> batch_fine c' -> steady c c'.
Proof. intros (str & inuse & mk & num & z & ->) Hb. by split; try done; auto; cbn; lia. Qed.

Lemma wp_writeBlob v s Q F : Q tt (appended v s) -> (forall e, is_local e = true -> F e s) -> wp (writeBlob v) Q F s.
Proof.
  intros HQ HF. unfold writeBlob. case_if; bool_to_prop.
  - unfold append. apply wp_bind, wp_gets, wp_bind, wp_resize; [|done].
    apply wp_store; cbn; [by rewrite ByteSeq.length_resize|]. unfold b_size. by rewrite ByteSeq.resize_store.
  - apply wp_ret. destruct v; [|cbn in *; lia]. by rewrite appended_nil in HQ.
Qed.

Lemma keeps_prepareBatchRequest os c : conn_ok c -> batch_fine c -> validated c -> batch_waits c = false ->
  keeps (prepareBatchRequest os) c.
Proof.
  intros Hok Hb Hv Hw. unfold prepareBatchRequest, keeps. apply wp_bind, wp_get.
  destruct (_exception c) as [e|] eqn:Eex; [by case_if; apply keeps_throw|].
  destruct (open_state c Hok Hv Eex) as [Hlt _].
  assert (_batchStreamInUse c = false) as Hiu.
  { unfold batch_waits in Hw. rewrite Eex, bool_decide_eq_true_2 in Hw by done. by rewrite andb_true_r in Hw. }
  specialize (Hb Eex). unfold batch_ok in Hb. rewrite Hiu in Hb.
  apply wp_bind, wp_assert; [by apply Z.ltb_lt|]. apply wp_bind, wp_assert; [by apply Z.ltb_lt|].
  assert (forall c1, batches c c1 -> (length requestBatchHdr <= length (b (_batchStream c1)))%nat ->
    wp (modify (set_batchStreamInUse true);; c ← get; modify (set_batchMarker (b_size (_batchStream c)));;
      let '(batch, os) := swap (_batchStream c) os in modify (set_batchStream batch);; mret os)
      (fun _ c' => conn_ok c' /\ steady c c') (fun _ c' => conn_ok c' /\ steady c c') c1) as Hrest.
  { intros c1 H1 Hlen. apply wp_bind, wp_modify, wp_bind, wp_get, wp_bind, wp_modify.
    destruct (swap _ os) as [batch os'] eqn:Es. apply wp_bind, wp_modify, wp_ret.
    assert (batches c (set_batchStream batch (set_batchMarker (b_size (_batchStream (set_batchStreamInUse true c1)))
      (set_batchStreamInUse true c1)))) as H2 by (etrans; [done|batches_here]).
    split; [by apply (batches_ok c)|]. apply batches_steady; [done|]. by intros _. }
  apply wp_bind, wp_when; intros Hnil.
  - apply wp_try, wp_on. assert (b (_batchStream c) = []) as Hn by (by destruct (b (_batchStream c))).
    apply wp_writeBlob.
    + apply Hrest; [batches_here|]. cbn -[requestBatchHdr]. rewrite length_app. lia.
    + intros e He. rewrite He. replace (set_batchStream _ c) with c by (by destruct c).
      apply wp_bind. eapply wp_conseq; [by apply keeps_close|..]; [|done]. intros [] c' ?. by apply wp_throw.
  - apply Hrest; [done|]. destruct Hb as [[Hn _]|Hl]; [|done]. by rewrite Hn in Hnil.
Qed.

Lemma abortBatchRequest_ok c Q F : conn_ok c -> validated c -> _batchStreamInUse c = true ->
  (forall c', conn_ok c' -> batches c c' -> batch_fine c' -> Q tt c') -> wp abortBatchRequest Q F c.
Proof.
  intros Hok Hv Hiu HQ. unfold abortBatchRequest, reset_batch. apply wp_bind, wp_modify, wp_bind, wp_get.
  apply wp_bind, wp_assert; [done|]. apply wp_modify. match goal with |- Q _ ?x => set (c' := x) end.
  assert (batches c c') as Hbs by batches_here. apply HQ; [by apply (batches_ok c)|done|]. intros _. by left.
Qed.

Lemma keeps_abortBatchRequest c : conn_ok c -> validated c -> _batchStreamInUse c = true -> keeps abortBatchRequest c.
Proof. intros. apply abortBatchRequest_ok; [done..|]. intros c' Hok' Hb Hf. split; [done|by apply batches_steady]. Qed.

(** The bytes of a batch, with any count of requests, may be sent. *)
Definition batch_sendable c (bs : list byte) : Prop :=
  forall num, sendable (_compressionLevel c) (_batchRequestCompress c) (ByteSeq.store headerSize (encode_scalar Int num) bs).

Lemma wp_number_batch c Q F : (length requestBatchHdr <= length (b (_batchStream c)))%nat ->
  Q tt (set_batchStream (set_b (ByteSeq.store headerSize (encode_scalar Int (_batchRequestNum c)) (b (_batchStream c)))
    (_batchStream c)) c) -> wp number_batch Q F c.
Proof.
  intros Hl HQ. unfold number_batch. apply wp_bind, wp_get, wp_on, wp_store; [|done].
  rewrite length_encode_Int. exact Hl.
Qed.

(** A batch with an exception, or in order *)
Lemma keeps_reset_batch c : conn_ok c -> validated c -> _batchStreamInUse c = false -> keeps reset_batch c.
Proof.
  intros Hok Hv Hiu. unfold reset_batch. apply wp_modify. match goal with |- conn_ok ?x /\ _ => set (c' := x) end.
  assert (batches c c') as Hbs by batches_here. split; [by apply (batches_ok c)|]. apply batches_steady; [done|].
  intros _. unfold batch_ok. cbn. rewrite Hiu. by left.
Qed.

Lemma batches_moves_steady c c1 c2 c3 : batches c c1 -> moves c1 c2 -> batches c2 c3 -> batch_fine c3 -> steady c c3.
Proof.
  intros (str & iu & mk & num & z & ->) Hm (str' & iu' & mk' & num' & z' & ->) Hb.
  pose proof (moves_steady _ _ Hm) as [H1 H2 H3 H4 _]. by split; cbn in *.
Qed.

(** Sending a batch: the connection is in order but for its batch. *)
Lemma wp_send_batch m c c1 Q F : conn_ok c -> validated c -> (_state c < StateClosed)%state ->
  batches c c1 -> sendable (_compressionLevel c1) (om_compress m) (b (om_stream m)) ->
  (forall status c2, conn_ok c2 -> sends c1 c2 -> Q status c2) ->
  (forall e c2, conn_ok c2 -> steady c c2 -> _batchStreamInUse c2 = _batchStreamInUse c1 -> F e c2) ->
  wp (sendMessage_or_close m) Q F c1.
Proof.
  intros Hok Hv Hst Hb Hm HQ HF. pose proof (batches_ok c c1 Hok Hv Hb) as Hok1.
  assert (_state c1 = _state c) as Est by (by destruct Hb as (?&?&?&?&?&->)).
  apply wp_sendMessage_or_close; [done|unfold validated in *; by rewrite Est|by rewrite Est|done|done|].
  intros e c2 _ Hok2 Hm2 Hex. apply HF; [done| |apply Hm2]. apply (batches_moves_steady c c1 c2); [done..|].
  unfold batch_fine. congruence.
Qed.

Lemma keeps_flush_batch target os c : conn_ok c -> batch_fine c -> validated c -> _exception c = None ->
  _batchStreamInUse c = false -> _batchRequestNum c <> 0 -> batch_sendable c (b (_batchStream c)) ->
  keeps (flush_batch target os) c.
Proof.
  intros Hok Hb Hv Hex Hiu Hnum Hm. unfold flush_batch, keeps. destruct (open_state c Hok Hv Hex) as [Hlt _].
  specialize (Hb Hex). unfold batch_ok in Hb. rewrite Hiu in Hb. destruct Hb as [[_ ?]|Hl]; [done|].
  apply wp_bind, wp_number_batch; [done|]. apply wp_bind, wp_get. cbn -[swap].
  destruct (swap _ os) as [batch os'] eqn:Es. apply wp_bind, wp_modify.
  match goal with |- wp _ _ _ ?x => set (c1 := x) end. assert (batches c c1) as Hb1 by batches_here.
  apply wp_bind. eapply (wp_send_batch _ c); [done..|cbn in *; lia|done| | |done].
  - cbn [om_compress om_stream]. pose proof (swap_b (set_b (ByteSeq.store headerSize (encode_scalar Int (_batchRequestNum c))
      (b (_batchStream c))) (_batchStream c)) os) as (_ & Hos & _). rewrite Es in Hos. cbn in Hos. rewrite Hos. apply Hm.
  - intros status c2 Hok2 Hs2. pose proof (sends_moves _ _ Hs2) as Hm2.
    assert (_state c2 = _state c) as Est by (by destruct Hs2 as (?&?&?&?&?&?&?&?&->&_)).
    unfold reset_batch. apply wp_bind, wp_modify, wp_ret. match goal with |- conn_ok ?x /\ _ => set (c3 := x) end.
    assert (batches c2 c3) as Hb3 by batches_here.
    split; [apply (batches_ok c2); [done|unfold validated in *; by rewrite Est|done]|].
    apply (batches_moves_steady c c1 c2); [done..|]. intros _. unfold batch_ok.
    change (_batchStreamInUse c3) with (_batchStreamInUse c2). destruct (mv_batch _ _ Hm2) as [-> _].
    change (_batchStreamInUse c1) with (_batchStreamInUse c). rewrite Hiu. by left.
Qed.

(** The two forms of flushing differ in what they answer. *)
Lemma keeps_flushBatchRequests call os c : conn_ok c -> batch_fine c -> validated c -> batch_waits c = false ->
  batch_sendable c (b (_batchStream c)) ->
  keeps (flushBatchRequests call os) c /\ forall w, keeps (flushAsyncBatchRequests call w os) c.
Proof.
  intros Hok Hb Hv Hw Hm. unfold flushBatchRequests, flushAsyncBatchRequests, keeps.
  split; [|intros w]; (apply wp_bind, wp_get; destruct (_exception c) as [e|] eqn:Eex; [by apply wp_throw|]; case_if; bool_to_prop;
    [apply keeps_bind; [by apply keeps_emit|intros; by apply keeps_ret]|]).
  all: assert (_batchStreamInUse c = false) as Hiu by (unfold batch_waits in Hw; rewrite Eex, bool_decide_eq_true_2 in Hw by done;
    by rewrite andb_true_r in Hw).
  - apply keeps_bind; [by apply keeps_flush_batch|]. intros. by apply keeps_ret.
  - by apply keeps_flush_batch.
Qed.

(** [c'] comes from [c] by changes of the batch, and by sending in between *)
Definition batching c c' : Prop := exists c1 c2, batches c c1 /\ moves c1 c2 /\ batches c2 c'.

Lemma batching_more c c1 c2 : batching c c1 -> batches c1 c2 -> batching c c2.
Proof. intros (c3 & c4 & H1 & H2 & H3) H. exists c3, c4. split; [done|]. split; [done|by etrans]. Qed.

Lemma batching_batches c c' : batches c c' -> batching c c'.
Proof. intros H. by exists c', c'. Qed.

Lemma batching_steady c c' : batching c c' -> batch_fine c' -> steady c c'.
Proof. intros (c1 & c2 & H1 & H2 & H3) Hb. by apply (batches_moves_steady c c1 c2). Qed.

(** A caller has the batch still. *)
Definition in_use c c' : Prop := conn_ok c' /\ validated c' /\ _batchStreamInUse c' = true /\ batching c c'.

Lemma batches_validated c c' : validated c -> batches c c' -> validated c'.
Proof. by intros Hv (?&?&?&?&?&->). Qed.

Lemma in_use_more c c1 c2 : in_use c c1 -> batches c1 c2 -> _batchStreamInUse c2 = true -> in_use c c2.
Proof.
  intros (Hok & Hv & Hiu & Hb) H Hiu'. split; [by apply (batches_ok c1)|].
  split; [by apply (batches_validated c1)|]. split; [done|]. by apply (batching_more c c1).
Qed.

Lemma in_use_stream c c1 str : in_use c c1 -> in_use c (set_batchStream str c1).
Proof. intros H. apply (in_use_more c c1); [done|apply batches_stream|]. by destruct H as (_ & _ & ? & _). Qed.

Lemma wp_batch_over_limit c Q F : (forall flush, Q flush c) -> (forall e, is_local e = true -> F e c) ->
  wp batch_over_limit Q F c.
Proof.
  intros HQ HF. unfold batch_over_limit. apply wp_bind, wp_get. case_if; [|by apply wp_ret].
  pose proof (checkSendSize_law (b (_batchStream c)) (i (_batchStream c)) instance_messageSizeMax (proj2 message_limit)) as Hl.
  unfold buf_of.
  destruct (tr_checkSendSize _ _) as [[]|e|f]; [by apply wp_ret| |done].
  case_if; [by apply wp_ret|]. apply wp_throw, HF. by destruct Hl.
Qed.

Lemma flush_before_last_ok c c1 : conn_ok c -> validated c -> batches c c1 -> _batchStreamInUse c1 = true ->
  (_state c < StateClosed)%state ->
  (length requestBatchHdr <= _batchMarker c1 < length (b (_batchStream c1)))%nat ->
  batch_sendable c1 (take (_batchMarker c1) (b (_batchStream c1))) ->
  wp flush_before_last
    (fun _ c2 => in_use c c2 /\ (length requestBatchHdr <= length (b (_batchStream c2)))%nat)
    (fun e c2 => in_use c c2 /\ is_local e = true) c1.
Proof.
  intros Hok Hv H1 Hiu Hst Hmk Hm. unfold flush_before_last. apply wp_bind, wp_get, wp_bind, wp_modify.
  rewrite ByteSeq.resize_le by lia. set (bs := take _ _) in *.
  assert (length bs = _batchMarker c1) as Hbs by (unfold bs; rewrite length_take; lia).
  apply wp_bind, wp_number_batch; [cbn -[requestBatchHdr]; lia|]. apply wp_bind, wp_get. cbn [_batchStream b set_b set_batchStream].
  match goal with |- wp _ _ _ ?x => set (c2 := x) end.
  assert (batches c c2) as H2 by (etrans; [done|batches_here]).
  assert (forall c3, conn_ok c3 -> moves c2 c3 -> validated c3 -> in_use c c3) as Huse.
  { intros c3 Hok3 Hm3 Hv3. split; [done|]. split; [done|]. split; [|by exists c2, c3].
    destruct (mv_batch _ _ Hm3) as [-> _]. exact Hiu. }
  assert (_state c2 = _state c) as Est by (by destruct H2 as (?&?&?&?&?&->)).
  apply wp_bind, wp_sendMessage_or_close; [by apply (batches_ok c)|by apply (batches_validated c)|by rewrite Est|..].
  { apply (Hm (_batchRequestNum c1)). }
  2:{ intros e c3 He Hok3 Hm3 Hex3. split; [|done]. apply Huse; [done..|].
      assert (StateClosing <= _state c3)%state by (apply (ok_exception c3 Hok3); by eexists).
      unfold validated. cbn in *. lia. }
  intros status c3 Hok3 Hs3.
  assert (in_use c c3) as H3.
  { apply Huse; [done|by apply sends_moves|]. apply (batches_validated _ _ Hv) in H2.
    by destruct Hs3 as (?&?&?&?&?&?&?&?&->&_). }
  apply wp_bind, wp_modify. match goal with |- wp _ _ _ ?x => set (c4 := x) end.
  assert (in_use c c4) as H4 by (apply (in_use_more c c3); [done|batches_here|apply H3]).
  case_if; [by apply wp_throw|]. apply wp_bind, wp_on, wp_writeBlob.
  2:{ intros e He. split; [|done]. by replace (set_batchStream _ c4) with c4 by (by destruct c4). }
  match goal with |- wp _ _ _ ?x => set (c5 := x) end.
  assert (in_use c c5) as H5 by (by apply in_use_stream).
  case_if.
  { exfalso. assert (length (drop (_batchMarker c1) (b (_batchStream c1))) <> 0%nat) as Hx by (rewrite length_drop; lia).
    by destruct (drop _ _). }
  apply wp_on, wp_writeBlob.
  - split; [by apply in_use_stream|]. cbn -[requestBatchHdr].
    rewrite !length_app. lia.
  - intros e He. split; [|done]. by replace (set_batchStream _ c5) with c5 by (by destruct c5).
Qed.

Lemma keeps_finishBatchRequest os compress c : conn_ok c -> batch_fine c -> validated c -> _batchStreamInUse c = true ->
  (_batchMarker c < length (b os))%nat -> batch_sendable c (take (_batchMarker c) (b os)) ->
  keeps (finishBatchRequest os compress) c.
Proof.
  intros Hok Hb Hv Hiu Hlen Hm. unfold finishBatchRequest. apply wp_try.
  assert (in_use c c) as Huse by (split; [done|]; split; [done|]; split; [done|by apply batching_batches]).
  eapply (wp_conseq _ (fun _ c' => conn_ok c' /\ steady c c') _ (fun e c' => in_use c c' /\ is_local e = true)).
  2:{ done. }
  2:{ intros e c1 [(Hok1 & Hv1 & Hiu1 & Hb1) ->]. apply wp_bind, abortBatchRequest_ok; [done..|].
      intros c2 Hok2 Hb2 Hf2. apply wp_throw. split; [done|]. apply batching_steady; [|done]. by apply (batching_more _ c1). }
  apply wp_bind, wp_get, wp_bind, wp_modify. match goal with |- wp _ _ _ ?x => set (c1 := x) end.
  assert (batches c c1) as H1 by batches_here.
  assert (in_use c c1) as Huse1 by (by apply (in_use_more c c)).
  destruct (_exception c) as [e|] eqn:Eex; [apply wp_throw; split; [done|by apply (ok_local c Hok)]|].
  destruct (open_state c Hok Hv Eex) as [Hlt _]. specialize (Hb Eex). unfold batch_ok in Hb. rewrite Hiu in Hb.
  assert (forall c2, in_use c c2 /\ (length requestBatchHdr <= length (b (_batchStream c2)))%nat ->
    wp (c ← get; modify (set_batchRequestNum (to_i32 (_batchRequestNum c + 1)));;
        when compress (modify (set_batchRequestCompress true));;
        c ← get; assertM (_batchStreamInUse c);; modify (set_batchStreamInUse false))
      (fun _ c' => conn_ok c' /\ steady c c') (fun e c' => in_use c c' /\ is_local e = true) c2) as Hend.
  { intros c2 [(Hok2 & Hv2 & Hiu2 & Hb2) Hl]. apply wp_bind, wp_get, wp_bind, wp_modify. apply wp_bind, wp_when; intros _.
    1: apply wp_modify.
    all: apply wp_bind, wp_get, wp_bind, wp_assert; [done|]; apply wp_modify; match goal with |- conn_ok ?x /\ _ => set (c3 := x) end;
      assert (batches c2 c3) as Hb3 by batches_here; split; [by apply (batches_ok c2)|];
      (apply batching_steady; [by apply (batching_more c c2)|]); intros _; by right. }
  apply wp_bind, wp_batch_over_limit.
  2:{ intros e He. by split. }
  intros flush. apply wp_bind. destruct flush.
  - eapply wp_conseq; [apply (flush_before_last_ok c); [done..|cbn in *; lia|done|done]|..]; [|done].
    intros [] c2 H2. by apply Hend.
  - apply wp_ret, Hend. split; [done|]. cbn -[requestBatchHdr]. lia.
Qed.
End requests.
