(* ===== verification/ConnectionDispatch.v ===== *)
(** * The end of a dispatch keeps the invariant

    [sendResponse], [sendNoResponse], [invokeException] and the end of
    [dispatch] take back what [message] has added to [_dispatchCount]; the
    last one of a closing connection initiates the graceful shutdown. *)

From S2P Require Import Prelude Hoare Buffer Layout Protocol Stream Wire Encaps Transceiver.
From S2P Require Import ConnectionData ConnectionSend ConnectionState Connection StreamSpec.
From S2P Require Import ConnectionFrame ConnectionQueue ConnectionInv ConnectionRequests.

Section dispatch.
Context `{PL : Platform} {D E : Type} {TR : Transceiver} {ST : Settings} {BZ : BZip2} {LW : TransceiverLaws TR}.
Context `{LI : !Limits}.
Local Abbreviation stream := (BasicStream D E).
Local Abbreviation omessage := (@OutgoingMessage D E).
Local Abbreviation conn := (@ConnectionI D E TR).
Implicit Types (s : stream) (c : conn) (m : omessage).

(** [c] with [n] dispatches less *)
Definition less (n : Z) c : conn := set_dispatchCount (_dispatchCount c - n) c.

(** A dispatch of a closing connection is only left while the shutdown has
    not been initiated. *)
Definition awaits_dispatch c : Prop := _state c = StateClosing -> _shutdownInitiated c = false.

(** The connection is in order, but for the shutdown that is due. *)
Definition shutdown_due c : Prop :=
  conn_ok (set_shutdownInitiated true c) /\ _state c = StateClosing /\ _dispatchCount c = 0 /\
  _shutdownInitiated c = false.

Lemma less_ok n c : conn_ok c -> validated c -> 0 <= n <= _dispatchCount c -> awaits_dispatch c ->
  (conn_ok (less n c) /\ (_state c = StateClosing -> _dispatchCount c - n <> 0)) \/ shutdown_due (less n c).
Proof.
  intros Hok Hv Hn Hw. unfold validated in Hv.
  destruct (decide (_state c = StateClosing /\ _dispatchCount c - n = 0)) as [[Hst Hz]|Hno].
  - right. split; [|exact (conj Hst (conj Hz (Hw Hst)))]. destruct Hok. constructor; cbn in *; try done; try lia.
    + intros _. rewrite Hst. cbn. lia.
    + intros _. split; [by apply ok_closing|done].
  - left. split; [|naive_solver]. destruct Hok. constructor; cbn in *; try done; try lia.
    intros Hst. destruct (ok_closing Hst). split; [done|]. intros Hz. destruct Hno. split; [done|lia].
Qed.

(** Without that, the shutdown has been initiated. *)
Lemma less_ok_any n c : conn_ok c -> validated c -> 0 <= n <= _dispatchCount c ->
  (conn_ok (less n c) /\ (_state c = StateClosing -> _dispatchCount c - n = 0 -> _shutdownInitiated c = true)) \/
  shutdown_due (less n c).
Proof.
  intros Hok Hv Hn. destruct (_shutdownInitiated c) eqn:Hsh.
  - left. split; [|done]. unfold validated in Hv. destruct Hok. constructor; cbn in *; try done; try lia.
    intros Hst. by destruct (ok_closing Hst).
  - destruct (less_ok n c Hok Hv Hn ltac:(by intros _)) as [[Hok' Hc]|]; [left|by right]. split; [done|].
    intros Hst Hz. by destruct (Hc Hst).
Qed.

Lemma wp_less n c Q F : conn_ok c -> 0 <= n <= _dispatchCount c -> Q tt (less n c) ->
  wp (modify (fun c => set_dispatchCount (to_i32 (_dispatchCount c - n)) c)) Q F c.
Proof.
  intros Hok Hn HQ. apply wp_modify. rewrite to_i32_id; [done|]. pose proof (ok_count c Hok). lia.
Qed.

(** [initiateShutdown] when it is due *)
Lemma wp_shutdown_due c Q F : shutdown_due c -> (forall c', conn_ok c' -> moves c c' -> Q tt c') ->
  (forall e c', is_local e = true -> conn_ok c' -> moves c c' -> F e c') -> wp initiateShutdown Q F c.
Proof.
  intros (Hok & Hst & Hz & Hsh) HQ HF.
  assert (moves c (set_shutdownInitiated true c)) as Hm by (split; cbn; try done; auto; lia).
  eapply wp_conseq; [by apply initiateShutdown_ok|..].
  - intros [] c' [Hok' Hs]. apply HQ; [done|]. etrans; [exact Hm|by apply sends_moves].
  - intros e c' (He & Hok' & Hs). apply HF; [done..|]. etrans; [exact Hm|by apply sends_moves].
Qed.

(** *** Responses *)

(** What a dispatch leaves: the count without [n], and whatever sending and
    closing may change. *)
Definition ended (n : Z) c c' : Prop := conn_ok c' /\ steady (less n c) c'.

Lemma ended_less n c c1 c' : ended n c c1 -> conn_ok c' -> moves c1 c' -> ended n c c'.
Proof. intros [_ H1] Hok Hm. split; [done|]. etrans; [done|by apply moves_steady]. Qed.

(** The rest of a response after the count, in a state where the shutdown may
    be due; the handler closes the connection. *)
Lemma finish_dispatch (rest : M conn unit) c : conn_ok c -> validated c -> 0 < _dispatchCount c -> awaits_dispatch c ->
  (forall c1, conn_ok c1 -> _state c1 = _state c -> (_state c1 < StateClosed)%state ->
     (_state c1 = StateClosing -> _dispatchCount c1 <> 0) -> less 1 c = c1 ->
     wp rest (fun _ c' => conn_ok c' /\ moves c1 c') (fun e c' => is_local e = true /\ conn_ok c' /\ moves c1 c') c1) ->
  (forall c1, shutdown_due c1 -> less 1 c = c1 ->
     wp rest (fun _ c' => conn_ok c' /\ moves c1 c')
       (fun e c' => is_local e = true /\ (conn_ok c' \/ shutdown_due c') /\ moves c1 c') c1) ->
  wp (try_local (
    one_dispatch_less;;
    c ← get;
    if (StateClosed <=? _state c)%state then throw_exception else rest) (setState_ex StateClosed))
    (fun _ => ended 1 c) (fun _ _ => False) c.
Proof.
  intros Hok Hv Hn Hw H1 H2. apply wp_try, wp_bind. unfold one_dispatch_less. apply wp_bind, wp_less; [done|lia|].
  apply wp_bind, wp_get.
  set (c1 := less 1 c). change (_state c1) with (_state c).
  destruct (less_ok 1 c Hok Hv ltac:(lia) Hw) as [[Hok1 Hc1]|Hdue].
  - eapply (wp_conseq _ (fun _ c2 => conn_ok c2 /\ moves c1 c2 /\ (c2 = c1 \/ _state c2 = StateFinished)) _ (fun _ _ => False)).
    { apply wp_when; intros Hf.
      - bool_to_prop. apply bool_decide_eq_true in H0.
        destruct (keeps_emit ReaperAdd c1 Hok1) as [? _]. split; [done|]. split; [|right; done]. apply sends_moves, sends_call.
      - split; [done|]. split; [done|by left]. }
    2:{ done. }
    intros [] c2 (Hok2 & Hm2 & Hor). apply wp_bind, wp_get. case_if; bool_to_prop.
    + apply wp_throw_exception; [done|cbn in *; lia|]. intros e He _. rewrite He. apply wp_close; [done..|].
      intros c3 Hc3 Hok3 _. split; [done|]. apply moves_steady. etrans; [done|by eapply closes_moves].
    + destruct Hor as [->|Hf]; [|rewrite Hf in *; cbn in *; lia].
      eapply wp_conseq; [apply H1; [done|done|cbn in *; lia|done|done]|..].
      * intros [] c' [Hok' Hm']. split; [done|by apply moves_steady].
      * intros e c' (He & Hok' & Hm'). rewrite He. apply wp_close; [done..|].
        intros c3 Hc3 Hok3 _. split; [done|]. apply moves_steady. etrans; [done|by eapply closes_moves].
  - pose proof Hdue as (_ & Hst & _). change (_state c = StateClosing) in Hst. unfold when.
    rewrite Hst, andb_false_r. apply wp_ret, wp_bind, wp_get. change (_state c1) with (_state c).
    rewrite Hst. cbn [state_code Z.leb]. eapply wp_conseq; [by apply H2|..].
    + intros [] c' [Hok' Hm']. split; [done|by apply moves_steady].
    + intros e c' (He & [Hok'|Hdue'] & Hm'); rewrite He.
      * apply wp_close; [done..|]. intros c3 Hc3 Hok3 _. split; [done|]. apply moves_steady. etrans; [done|by eapply closes_moves].
      * destruct Hdue' as (Hok' & Hst' & _). apply wp_close_pending; [done..|]. intros c3 Hok3 Hm3. split; [done|].
        apply moves_steady. by etrans.
Qed.

Lemma wp_sendMessage m c : conn_ok c -> validated c -> (_state c < StateClosed)%state ->
  sendable (_compressionLevel c) (om_compress m) (b (om_stream m)) ->
  wp (sendMessage m) (fun _ c' => conn_ok c' /\ sends c c') (fun e c' => is_local e = true /\ conn_ok c' /\ sends c c') c.
Proof.
  intros Hok Hv Hst Hm. eapply wp_conseq; [apply sendMessage_ok; [by apply may_send_ok|done]|..].
  - intros st c' Hs. split; [by apply (sends_ok c)|apply Hs].
  - intros e c' [He Hs]. split; [done|]. split; [by apply (sends_ok c)|apply Hs].
Qed.

Lemma sent_shutdown sh c c' : sent_ok c c' -> sent_ok (set_shutdownInitiated sh c) (set_shutdownInitiated sh c').
Proof.
  intros (Hs & H). split; [|exact H]. destruct Hs as (n & q & w & r & ev & a & wt & wts & -> & Hr).
  by exists n, q, w, r, ev, a, wt, wts.
Qed.

(** The same while the shutdown is due *)
Lemma wp_sendMessage_due m c : shutdown_due c ->
  sendable (_compressionLevel c) (om_compress m) (b (om_stream m)) ->
  wp (sendMessage m) (fun _ c' => shutdown_due c' /\ moves c c')
    (fun e c' => is_local e = true /\ shutdown_due c' /\ moves c c') c.
Proof.
  intros (Hok & Hst & Hz & Hsh) Hm. set (c1 := set_shutdownInitiated true c) in *.
  assert (_state c1 = StateClosing) as Hst1 by done.
  assert (StateNotValidated < _state c1)%state as Hlo by (by rewrite Hst1).
  assert (_state c1 < StateClosed)%state as Hhi by (by rewrite Hst1).
  assert (may_send c1) as Hms by (by apply may_send_ok).
  assert (forall c', sent_ok c c' -> shutdown_due c' /\ moves c c') as Hend.
  { intros c' Hs. pose proof (sends_moves _ _ (proj1 Hs)) as Hmv. split; [|done].
    split; [by apply (sends_ok c1), sent_shutdown|].
    destruct Hs as [(n & q & w & r & ev & a & wt & wts & -> & Hr) _]. exact (conj Hst (conj Hz Hsh)). }
  eapply wp_conseq; [apply sendMessage_ok; [exact Hms|done]|..].
  - intros st c' Hs. by apply Hend.
  - intros e c' [He Hs]. split; [done|by apply Hend].
Qed.

Lemma shutdown_if_idle_no c Q F : (_state c = StateClosing -> _dispatchCount c <> 0) -> Q tt c -> wp shutdown_if_idle Q F c.
Proof.
  intros Hn HQ. unfold shutdown_if_idle. apply wp_bind, wp_get, wp_when; [|done]. intros H.
  apply andb_true_iff in H as [H1%bool_decide_eq_true H2%Z.eqb_eq]. by destruct (Hn H1).
Qed.

Lemma shutdown_if_idle_due c : shutdown_due c ->
  wp shutdown_if_idle (fun _ c' => conn_ok c' /\ moves c c')
    (fun e c' => is_local e = true /\ (conn_ok c' \/ shutdown_due c') /\ moves c c') c.
Proof.
  intros Hdue. pose proof Hdue as (_ & Hst & Hz & _). unfold shutdown_if_idle. apply wp_bind, wp_get, wp_when.
  - intros _. apply wp_shutdown_due; [done|done|]. intros e c' ???. split; [done|]. by split; [left|].
  - intros H. rewrite bool_decide_eq_true_2, (proj2 (Z.eqb_eq _ _) Hz) in H by done. done.
Qed.

(** The shutdown stays due, or the exception closes the connection. *)
Lemma sendNoResponse_ok c : conn_ok c -> validated c -> 0 < _dispatchCount c -> awaits_dispatch c ->
  wp sendNoResponse (fun _ => ended 1 c) (fun _ _ => False) c.
Proof.
  intros Hok Hv Hn Hw. unfold sendNoResponse. apply wp_bind, wp_get, wp_bind, wp_assert; [by apply Z.ltb_lt|].
  apply finish_dispatch; [done..| |].
  - intros c1 Hok1 Hst1 Hlt Hidle _. by apply shutdown_if_idle_no.
  - intros c1 Hdue _. by apply shutdown_if_idle_due.
Qed.

Lemma sendResponse_ok os flag c : conn_ok c -> validated c -> 0 < _dispatchCount c -> awaits_dispatch c ->
  sendable (_compressionLevel c) (0 <? ord flag) (b os) ->
  wp (sendResponse os flag) (fun _ => ended 1 c) (fun _ _ => False) c.
Proof.
  intros Hok Hv Hn Hw Hm. unfold sendResponse. apply wp_bind, wp_get, wp_bind, wp_assert; [by apply Z.ltb_lt|].
  apply finish_dispatch; [done..| |].
  - intros c1 Hok1 Hst1 Hlt Hidle <-. apply wp_bind. eapply wp_conseq; [by apply wp_sendMessage|..].
    + intros st c2 [Hok2 Hs2]. pose proof (sends_moves _ _ Hs2) as Hm2. apply shutdown_if_idle_no; [|done].
      rewrite (mv_count _ _ Hm2). by destruct Hs2 as (?&?&?&?&?&?&?&?&->&_).
    + intros e c2 (He & Hok2 & Hs2). split; [done|]. split; [done|by apply sends_moves].
  - intros c1 Hdue <-. apply wp_bind. eapply wp_conseq; [by apply wp_sendMessage_due|..].
    + intros st c2 [Hdue2 Hm2]. eapply wp_conseq; [by apply shutdown_if_idle_due|..].
      * intros [] c3 [? ?]. split; [done|by etrans].
      * intros e c3 (? & ? & ?). split; [done|]. split; [done|by etrans].
    + intros e c2 (He & Hdue2 & Hm2). split; [done|]. by split; [right|].
Qed.

(** "Decrease dispatch count", once the callbacks have been called *)
Lemma dispatch_done_ok c : conn_ok c -> validated c -> 0 < _dispatchCount c ->
  wp dispatch_done (fun _ => ended 1 c) (fun _ _ => False) c.
Proof.
  intros Hok Hv Hn. unfold dispatch_done. apply wp_bind, wp_less; [done|lia|]. apply wp_bind, wp_get.
  set (c1 := less 1 c). destruct (less_ok_any 1 c Hok Hv ltac:(lia)) as [[Hok1 Hsh]|Hdue].
  - apply wp_when; [|by split]. intros Hz%Z.eqb_eq. case_if; bool_to_prop.
    + apply bool_decide_eq_true in H. exfalso. change (_state c = StateClosing) in H.
      change (_shutdownInitiated c1) with (_shutdownInitiated c) in *. by rewrite (Hsh H Hz) in *.
    + apply wp_when; intros _; [|by split]. destruct (keeps_emit ReaperAdd c1 Hok1) as [H1 H2]. by split.
  - pose proof Hdue as (Hd & Hst & Hz & Hsh). apply wp_when; intros Hz'.
    2:{ exfalso. apply Z.eqb_neq in Hz'. exact (Hz' Hz). }
    change (_shutdownInitiated c1) with (_shutdownInitiated (less 1 c)). change (_state c1) with (_state (less 1 c)).
    rewrite Hst, Hsh. cbn [negb]. rewrite bool_decide_eq_true_2 by done. cbn [andb].
    apply try_shutdown_ok; [done..|]. intros c' Hok' Hm. split; [done|by apply moves_steady].
Qed.

Lemma invokeException_ok ex n c : conn_ok c -> is_local ex = true -> validated c -> 0 <= n <= _dispatchCount c ->
  wp (invokeException ex n) (fun _ => ended n c) (fun _ _ => False) c.
Proof.
  intros Hok Hex Hv Hn. unfold invokeException. apply wp_bind, wp_close; [done..|]. intros c1 Hc1 Hok1 Hst1.
  pose proof (closes_moves _ _ _ Hc1) as Hm1. pose proof (mv_count _ _ Hm1) as Hcount.
  assert (steady (less n c) (less n c1)) as Hs.
  { destruct (moves_steady _ _ Hm1) as [H1 H2 H3 H4 H5]. split; cbn; [lia| |done|done|done].
    intros Hs. destruct (H2 Hs) as [?|Hz]; [by left|right]. lia. }
  apply wp_when; intros Hpos; bool_to_prop.
  2:{ assert (n = 0) as -> by lia. assert (less 0 c1 = c1) as Hl by (unfold less; rewrite Z.sub_0_r; by destruct c1).
      rewrite Hl in Hs. by split. }
  destruct (less_ok n c1 Hok1) as [[Hok2 _]|(_ & Hst & _)].
  - unfold validated. cbn in *. lia.
  - lia.
  - intros Hst. rewrite Hst in Hst1. cbn in Hst1. lia.
  - apply wp_bind, wp_get, wp_bind, wp_assert; [apply Z.ltb_lt; lia|].
    apply wp_bind, wp_less; [done|lia|]. apply wp_bind, wp_get, wp_bind, wp_assert; [apply Z.leb_le; cbn; lia|].
    apply wp_when; intros _; [|by split].
    destruct (keeps_emit ReaperAdd _ Hok2) as [H1 H2]. split; [done|by etrans].
  - change (_state c1 = StateClosing) in Hst. rewrite Hst in Hst1. cbn in Hst1. lia.
Qed.
End dispatch.
