(* ===== verification/ConnectionOpen.v ===== *)
(** * Opening a connection keeps the invariant

    [initialize] and [validate] on both sides, [start] with and without a
    callback, and the operations of the life cycle. *)

From S2P Require Import Prelude Hoare Buffer Layout Protocol Stream Wire Encaps Transceiver.
From S2P Require Import ConnectionData ConnectionSend ConnectionState Connection StreamSpec.
From S2P Require Import ConnectionFrame ConnectionQueue ConnectionInv ConnectionRequests.

Section opening.
Context `{PL : Platform} {D E : Type} {TR : Transceiver} {ST : Settings} {BZ : BZip2} {LW : TransceiverLaws TR}.
Context `{LI : !Limits}.
Local Abbreviation stream := (BasicStream D E).
Local Abbreviation omessage := (@OutgoingMessage D E).
Local Abbreviation conn := (@ConnectionI D E TR).
Implicit Types (s : stream) (c : conn) (m : omessage).

(** ** The first changes of state *)

Lemma setState_opens st c :
  _state c = StateNotInitialized /\ st = StateNotValidated \/ _state c = StateNotValidated /\ st = StateHolding ->
  exists mo, setState st c = (Ok tt, set_state st (set_monitored mo c)).
Proof.
  intros Hst. exists (monitored c).
  assert (switchState st c = (Ok true, set_state st (set_monitored (monitored c) c))) as Hs.
  { unfold switchState. rewrite bind_get, effective_other by (by destruct Hst as [[_ ->]|[_ ->]]).
    rewrite bool_decide_eq_false_2 by (destruct Hst as [[-> ->]|[-> ->]]; done).
    assert (try_local (leave_state st) (fun _ => mret true) c = (Ok true, c)) as E1.
    { unfold try_local, leave_state. destruct Hst as [[Hst ->]|[Hst ->]]; by rewrite bind_get, Hst. }
    rewrite (bind_ok _ _ _ _ _ E1). unfold when.
    assert ((if 0 <? _acmTimeout c then
        (if bool_decide (st = StateActive) then modify (set_monitored true)
         else if bool_decide (_state c = StateActive) then modify (set_monitored false) else mret tt)
      else mret tt) c = (Ok tt, c)) as E2.
    { case_if; [|done]. rewrite !bool_decide_eq_false_2; [done|..]; destruct Hst as [[Hs0 Hs1]|[Hs0 Hs1]]; congruence. }
    rewrite (bind_ok _ _ _ _ _ E2). by destruct c. }
  unfold setState. rewrite (bind_ok _ _ _ _ _ Hs), bind_get. cbn [_state set_state].
  rewrite bool_decide_eq_false_2 by (by destruct Hst as [[_ ->]|[_ ->]]). done.
Qed.

(** The selector watches [op], and no timeout runs. *)
Definition idle (op : SocketOperation) c : Prop :=
  _registered c = op /\ write_task c = false /\ read_task c = false.

Lemma initialized_ok mo c : conn_ok c -> _state c = StateNotInitialized -> connected (_transceiver c) ->
  conn_ok (set_state StateNotValidated (set_monitored mo c)).
Proof.
  intros Hok Hst Hc. destruct Hok. rewrite Hst in *. cbn in *. destruct (ok_young ltac:(lia)).
  constructor; cbn; try done; try lia; auto with lia.
Qed.

(** The members that opening changes besides the state *)
Definition opens c c' : Prop :=
  exists n w r rh reg wt wts rt rts v,
    c' = set_transceiver n (set_writeStream w (set_readStream r (set_readHeader rh (set_registered reg
      (set_write_task wt (set_writeTimeoutScheduled wts (set_read_task rt (set_readTimeoutScheduled rts
        (set_validated v c))))))))).

Lemma opens_moves c c' : opens c c' -> moves c c' /\ _state c' = _state c.
Proof. intros (?&?&?&?&?&?&?&?&?&?&->). by split; [split; cbn; try done; auto; lia|]. Qed.

#[export] Instance opens_preorder : PreOrder opens.
Proof.
  split.
  - intros c. exists (_transceiver c), (_writeStream c), (_readStream c), (_readHeader c), (_registered c),
      (write_task c), (_writeTimeoutScheduled c), (read_task c), (_readTimeoutScheduled c), (_validated c). by destruct c.
  - intros c1 c2 c3 (?&?&?&?&?&?&?&?&?&?&->) (n&w&r&rh&reg&wt&wts&rt&rts&v&->).
    by exists n, w, r, rh, reg, wt, wts, rt, rts, v.
Qed.

(** An opening connection stays in order when its transceiver, its streams
    and what it waits for are in order. *)
Lemma opens_ok c c' : conn_ok c -> (_state c <= StateNotValidated)%state -> opens c c' ->
  usable (_transceiver c') -> ((StateNotInitialized < _state c)%state -> connected (_transceiver c')) ->
  young c' -> tasks_ok c' -> reading_ok c' -> conn_ok c'.
Proof.
  intros Hok Hst (?&?&?&?&?&?&?&?&?&?&->) Hu Hc Hy Ht Hr. destruct Hok.
  constructor; cbn in *; try done; intros; auto; lia.
Qed.

Lemma selector_switch op (s : SocketOperation) : selector_update op s op = s.
Proof. unfold selector_update. rewrite !andb_negb_r. by destruct s. Qed.

(** Waiting for an operation of the socket *)
Lemma wp_wait op (s : SocketOperation) t c Q F : conn_ok c -> (_state c <= StateNotValidated)%state -> idle op c ->
  s = SocketOperationRead \/ s = SocketOperationWrite ->
  (forall c', conn_ok c' -> opens c c' -> Q false c') ->
  wp (scheduleTimeout s t;; pool_update op s;; mret false) Q F c.
Proof.
  intros Hok Hst (Hr & Hwt & Hrt) Hs HQ. destruct (ok_young c Hok Hst).
  set (after wt wts rt rts := set_transceiver (_transceiver c) (set_writeStream (_writeStream c)
    (set_readStream (_readStream c) (set_readHeader (_readHeader c) (set_registered s (set_write_task wt
    (set_writeTimeoutScheduled wts (set_read_task rt (set_readTimeoutScheduled rts (set_validated (_validated c) c)))))))))).
  assert (forall wt wts rt rts, (wt = true -> s = SocketOperationWrite /\ wts = true) ->
    (rt = true -> s = SocketOperationRead /\ rts = true) -> Q false (after wt wts rt rts)) as Hend.
  { intros wt wts rt rts H1 H2.
    assert (opens c (after wt wts rt rts)) as Ho by (by eexists _, _, _, _, _, _, _, _, _, _).
    apply HQ; [|done]. apply (opens_ok c); try done.
    - apply (ok_usable c Hok). intros Ef. rewrite Ef in Hst. cbn in Hst. lia.
    - intros Hi. apply (ok_connected c Hok); [done|]. cbn in *. lia.
    - constructor; cbn; try done.
      + by destruct Hs as [->| ->].
      + intros Hw. by destruct (H1 Hw) as [-> _].
      + intros Hw. by destruct (H2 Hw) as [-> _].
    - split; cbn; intros Hx; [by apply H1|by apply H2].
    - apply (ok_reading c Hok). cbn in *. lia. }
  unfold scheduleTimeout, pool_update. case_if; bool_to_prop.
  - apply wp_bind, wp_ret, wp_bind, wp_modify, wp_ret. rewrite Hr, selector_switch.
    specialize (Hend false (_writeTimeoutScheduled c) false (_readTimeoutScheduled c) ltac:(done) ltac:(done)).
    unfold after in Hend. destruct c; cbn in *. by subst.
  - destruct Hs as [->| ->]; cbn -[selector_update].
    + apply wp_bind, wp_bind, wp_bind, wp_get, wp_bind, wp_assert; [by rewrite Hrt|].
      apply wp_modify, wp_ret, wp_bind, wp_modify, wp_ret. cbn -[selector_update]. rewrite Hr, selector_switch.
      specialize (Hend false (_writeTimeoutScheduled c) true true ltac:(done) ltac:(done)).
      unfold after in Hend. destruct c; cbn in *. by subst.
    + apply wp_bind, wp_bind, wp_ret, wp_bind, wp_get, wp_bind, wp_assert; [by rewrite Hwt|].
      apply wp_modify, wp_bind, wp_modify, wp_ret. cbn -[selector_update]. rewrite Hr, selector_switch.
      specialize (Hend true true false (_readTimeoutScheduled c) ltac:(done) ltac:(done)).
      unfold after in Hend. destruct c; cbn in *. by subst.
Qed.

Lemma set_buf_same s : set_buf (buf_of s) s = s.
Proof. by destruct s. Qed.

Lemma opens_net n c : opens c (set_transceiver n c).
Proof.
  exists n, (_writeStream c), (_readStream c), (_readHeader c), (_registered c), (write_task c),
    (_writeTimeoutScheduled c), (read_task c), (_readTimeoutScheduled c), (_validated c). by destruct c.
Qed.

Lemma net_changed n c : conn_ok c -> (_state c <= StateNotValidated)%state -> usable n ->
  ((StateNotInitialized < _state c)%state -> connected n) -> conn_ok (set_transceiver n c).
Proof.
  intros Hok Hst Hu Hc. apply (opens_ok c); [done..|apply opens_net|done|done| |apply (ok_tasks c Hok)|].
  - by destruct (ok_young c Hok Hst).
  - apply (ok_reading c Hok). cbn in *. lia.
Qed.

(** [c'] has got from [c] to the state [st] that follows it. *)
Definition advances (st : State) c c' : Prop :=
  exists c1 mo, opens c c1 /\ c' = set_state st (set_monitored mo c1) /\ (_state c <= StateNotValidated)%state.

Lemma advances_moves st c c' : advances st c c' -> moves c c' /\ _state c' = st.
Proof.
  intros (c1 & mo & Ho & -> & Hst). destruct (opens_moves _ _ Ho) as [[H1 H2 H3 H4 H5 H6] _].
  split; [|done]. split; cbn in *; try done. intros. lia.
Qed.

Lemma initialize_ok op c : conn_ok c -> _state c = StateNotInitialized -> idle op c ->
  wp (initialize op)
    (fun ready c' => conn_ok c' /\ if ready : bool then advances StateNotValidated c c' /\ idle op c' else opens c c')
    (fun e c' => is_SocketException e = true /\ conn_ok c' /\ opens c c') c.
Proof.
  intros Hok Hst Hidle. assert (_state c <= StateNotValidated)%state as Hle by (by rewrite Hst).
  assert (usable (_transceiver c)) as Hu by (apply (ok_usable c Hok); by rewrite Hst).
  assert (forall n, set_transceiver n (set_readStream (set_buf (buf_of (_readStream c)) (_readStream c))
    (set_writeStream (set_buf (buf_of (_writeStream c)) (_writeStream c)) c)) = set_transceiver n c) as Hsame
    by (intros n; rewrite !set_buf_same; by destruct c).
  unfold initialize. apply wp_bind, wp_on. unfold initialize_streams. apply wp_on. cbn [fst snd].
  eapply wp_conseq; [by apply initialize_law|..].
  - intros s [n [u v]] (Hu' & Hsent & [= -> ->] & Hc & Hs). cbn [fst snd] in *. rewrite Hsame.
    assert (conn_ok (set_transceiver n c)) as Hok1 by (apply net_changed; [done..|]; rewrite Hst; cbn; lia).
    destruct (decide (s = SocketOperationNone)) as [H|H];
      [rewrite bool_decide_eq_true_2 by done|rewrite bool_decide_eq_false_2 by done]; cbn [negb]; cycle 1.
    + apply (wp_wait op); [done|done|done|by naive_solver|].
      intros c' Hok' Ho. split; [done|]. etrans; [apply opens_net|done].
    + apply wp_bind.
      destruct (setState_opens StateNotValidated (set_transceiver n c)) as [mo Hs']; [by left|].
      eapply wp_eq; [exact Hs'|]. apply wp_ret. split; [apply initialized_ok; [done|done|by apply Hc]|].
      split; [|exact Hidle]. exists (set_transceiver n c), mo. split; [apply opens_net|done].
  - intros e [n [u v]] (He & Hu' & Hsent & [= -> ->]). cbn [fst snd] in *. rewrite Hsame.
    split; [done|]. split; [apply net_changed; [done..|]; rewrite Hst; cbn; lia|apply opens_net].
Qed.

(** ** The streams of a connection that is being opened *)

Definition streams_to n w r rh v c : conn :=
  set_transceiver n (set_writeStream w (set_readStream r (set_readHeader rh (set_validated v c)))).

Lemma streams_opens n w r rh v c : opens c (streams_to n w r rh v c).
Proof.
  exists n, w, r, rh, (_registered c), (write_task c),
    (_writeTimeoutScheduled c), (read_task c), (_readTimeoutScheduled c), v. by destruct c.
Qed.

Lemma streams_ok n w r rh v c : conn_ok c -> _state c = StateNotValidated -> usable n -> connected n ->
  in_buf (buf_of w) -> (tr_datagram = true -> b w = []) -> reading_ok (set_readStream r c) ->
  conn_ok (streams_to n w r rh v c).
Proof.
  intros Hok Hst Hu Hc Hw Hd Hr. assert (_state c <= StateNotValidated)%state as Hle by (by rewrite Hst).
  apply (opens_ok c); [done..|apply streams_opens|done|done| |apply (ok_tasks c Hok)|done].
  destruct (ok_young c Hok Hle). constructor; try done. cbn. by rewrite Hst.
Qed.

Lemma wp_write_writeStream c Q F : net_ready c -> in_buf (buf_of (_writeStream c)) -> writable (buf_of (_writeStream c)) ->
  (forall n x, usable n -> connected n -> i (_writeStream c) <= x <= b_end (_writeStream c) ->
    sent n = sent (_transceiver c) ++ between (buf_of (_writeStream c)) (i (_writeStream c)) x ->
    let c' := set_transceiver n (set_writeStream (set_i x (_writeStream c)) c) in
    (x = b_end (_writeStream c) -> Q true c') /\ (writable (MkBuf (b (_writeStream c)) x) -> Q false c') /\
    (forall e, is_local e = true -> writable (MkBuf (b (_writeStream c)) x) -> F e c')) ->
  wp write_writeStream Q F c.
Proof.
  intros [Hu Hc] Hin Hw H. unfold write_writeStream. apply wp_on. eapply wp_conseq; [by apply write_law|..].
  - intros d [n [ub x]] (Hu' & Hc' & Hb & Hi & Hd & Hs & Hw'). cbn [fst snd buf_b buf_i] in *. subst ub.
    destruct (H n x Hu' Hc' Hi Hs) as (H1 & H2 & H3). replace (set_buf _ _) with (set_i x (_writeStream c)) by done.
    destruct d; [by apply H1, Hd|by apply H2, Hw'].
  - intros e [n [ub x]] (He & Hu' & Hc' & Hb & Hi & Hs & Hwr). cbn [fst snd buf_b buf_i] in *. subst ub.
    replace (set_buf _ _) with (set_i x (_writeStream c)) by done. by apply (H n x Hu' Hc' Hi Hs).
Qed.

Lemma wp_read_readStream c Q F : net_ready c -> reading_ok c -> i (_readStream c) <> b_end (_readStream c) ->
  (forall n u, usable n -> connected n -> sent n = sent (_transceiver c) -> in_buf u ->
    (tr_datagram = false -> length (buf_b u) = length (b (_readStream c))) ->
    let c' := set_transceiver n (set_readStream (set_buf u (_readStream c)) c) in
    (buf_i u = buf_end u -> Q true c') /\ (readable u -> Q false c') /\
    (forall e, is_local e = true -> readable u -> F e c')) ->
  wp read_readStream Q F c.
Proof.
  intros [Hu Hc] (Hin & Hr & _) Hne H. destruct Hr as [?|Hr]; [done|]. unfold read_readStream. apply wp_on. eapply wp_conseq; [by apply read_law|..].
  - intros d [n u] (Hu' & Hc' & Hs & Hin' & Hl & Hd & Hw'). cbn [fst snd] in *.
    destruct (H n u Hu' Hc' Hs Hin' Hl) as (H1 & H2 & H3). destruct d; [by apply H1, Hd|by apply H2, Hw'].
  - intros e [n u] (He & Hu' & Hc' & Hs & Hin' & Hr' & Hl). cbn [fst snd] in *.
    by apply (H n u Hu' Hc' Hs Hin' Hl).
Qed.

Lemma in_buf_move x s : in_buf (buf_of s) -> i s <= x <= b_end s -> in_buf (buf_of (set_i x s)).
Proof.
  unfold in_buf, buf_of, buf_end, b_end, b_size. cbn. intros [[? ?] ?] [? ?]. split; [split|]; [|done..]. by etrans.
Qed.

Lemma streams_same n w c : set_transceiver n (set_writeStream w c) = streams_to n w (_readStream c) (_readHeader c) (_validated c) c.
Proof. by destruct c. Qed.

Lemma streams_same_r n r c : set_transceiver n (set_readStream r c) = streams_to n (_writeStream c) r (_readHeader c) (_validated c) c.
Proof. by destruct c. Qed.

(** [c'] is [c] with other streams, and in order. *)
Definition restreamed c c' : Prop := conn_ok c' /\ opens c c' /\
  _registered c' = _registered c /\ write_task c' = write_task c /\ read_task c' = read_task c.

Lemma restreamed_refl c : conn_ok c -> restreamed c c.
Proof. by intros. Qed.

Lemma restreamed_trans c1 c2 c3 : restreamed c1 c2 -> restreamed c2 c3 -> restreamed c1 c3.
Proof. intros (H1&H2&H3&H4&H5) (G1&G2&G3&G4&G5). split; [done|]. split; [by etrans|]. split_and!; congruence. Qed.

Lemma restreamed_idle op c c' : restreamed c c' -> idle op c -> idle op c'.
Proof. intros (_&_&H3&H4&H5) (G3&G4&G5). split_and!; congruence. Qed.

Lemma restreamed_state c c' : restreamed c c' -> _state c' = _state c.
Proof. intros (_&Ho&_). by destruct (opens_moves _ _ Ho). Qed.

Lemma restream n w r rh v c : conn_ok c -> _state c = StateNotValidated -> usable n -> connected n ->
  in_buf (buf_of w) -> (tr_datagram = true -> b w = []) -> reading_ok (set_readStream r c) ->
  restreamed c (streams_to n w r rh v c).
Proof. intros. split; [by apply streams_ok|]. split; [apply streams_opens|done]. Qed.

Lemma ready_of c : conn_ok c -> _state c = StateNotValidated -> net_ready c.
Proof. intros Hok Hst. split; [apply (ok_usable c Hok); by rewrite Hst|]. apply (ok_connected c Hok); by rewrite Hst. Qed.

Lemma reading_of c : conn_ok c -> _state c = StateNotValidated -> reading_ok c.
Proof. intros Hok Hst. apply (ok_reading c Hok). by rewrite Hst. Qed.

Lemma restream_write w c : conn_ok c -> _state c = StateNotValidated -> in_buf (buf_of w) ->
  (tr_datagram = true -> b w = []) -> restreamed c (set_writeStream w c).
Proof.
  intros Hok Hst Hw Hd. destruct (ready_of c Hok Hst).
  replace (set_writeStream w c) with (set_transceiver (_transceiver c) (set_writeStream w c)) by (by destruct c).
  rewrite streams_same. apply restream; [done..|]. exact (reading_of c Hok Hst).
Qed.

Lemma restream_read r rh v c : conn_ok c -> _state c = StateNotValidated -> reading_ok (set_readStream r c) ->
  restreamed c (set_readStream r (set_readHeader rh (set_validated v c))).
Proof.
  intros Hok Hst Hr. destruct (ready_of c Hok Hst). destruct (ok_young c Hok ltac:(by rewrite Hst)).
  replace (set_readStream r (set_readHeader rh (set_validated v c))) with
    (streams_to (_transceiver c) (_writeStream c) r rh v c) by (by destruct c).
  by apply restream.
Qed.

(** What [validate] and its parts leave when they return [ready], and when
    they throw *)
Definition validating op c (ready : bool) c' : Prop :=
  if ready then restreamed c c' /\ idle op c' else conn_ok c' /\ opens c c'.

Lemma validate_server_ok op c : conn_ok c -> _state c = StateNotValidated -> idle op c -> tr_datagram = false ->
  wp (validate_server op) (validating op c) (fun e c' => is_local e = true /\ restreamed c c') c.
Proof.
  intros Hok Hst Hidle Hd. unfold validate_server. apply wp_bind, wp_get, wp_bind.
  assert (forall c1, restreamed c c1 -> wp (c ← get;
    done ← (if i (_writeStream c) =? b_end (_writeStream c) then mret true else write_writeStream);
    if negb done then
      scheduleTimeout SocketOperationWrite connectTimeout;; pool_update op SocketOperationWrite;; mret false
    else mret true) (validating op c) (fun e c' => is_local e = true /\ restreamed c c') c1) as Hrest.
  { intros c1 Hr1. pose proof (restreamed_state _ _ Hr1) as Hst1. rewrite Hst in Hst1.
    assert (conn_ok c1) as Hok1 by apply Hr1. destruct (ok_young c1 Hok1 ltac:(by rewrite Hst1)).
    apply wp_bind, wp_get, wp_bind.
    assert (forall c2, restreamed c1 c2 -> validating op c true c2 /\
      wp (scheduleTimeout SocketOperationWrite connectTimeout;; pool_update op SocketOperationWrite;; mret false)
        (validating op c) (fun e c' => is_local e = true /\ restreamed c c') c2) as Hend.
    { intros c2 Hr2. assert (restreamed c c2) as Hr by by eapply restreamed_trans.
      pose proof (restreamed_idle op _ _ Hr Hidle). split; [done|].
      pose proof (restreamed_state _ _ Hr) as Hst2. rewrite Hst in Hst2.
      apply (wp_wait op); [apply Hr|by rewrite Hst2|done|by right|]. intros c3 Hok3 Ho3. split; [done|].
      etrans; [apply Hr|done]. }
    case_if; [apply wp_ret; cbn [negb]; apply wp_ret; apply Hend; by apply restreamed_refl|].
    apply wp_write_writeStream; [by apply ready_of|done|by apply stream_law|].
    intros n x Hu Hc Hx _. rewrite streams_same.
    assert (restreamed c1 (streams_to n (set_i x (_writeStream c1)) (_readStream c1) (_readHeader c1) (_validated c1) c1)) as Hr2.
    { apply restream; [done..| | |].
      - by apply in_buf_move.
      - intros Hd'. congruence.
      - exact (reading_of c1 Hok1 Hst1). }
    split_and!.
    - intros _. cbn [negb]. apply wp_ret. by apply Hend.
    - intros _. cbn [negb]. by apply Hend.
    - intros e He _. split; [done|]. by eapply restreamed_trans. }
  apply wp_when; intros Hnil; [|by apply Hrest, restreamed_refl].
  assert (b (_writeStream c) = []) as Hn by (by destruct (b (_writeStream c))).
  destruct (ok_young c Hok ltac:(by rewrite Hst)) as [_ _ _ _ _ _ _ _ Hw _ _].
  assert (i (_writeStream c) = 0) as Hi0.
  { destruct Hw as [Hi _]. unfold buf_of, buf_end in Hi. cbn in Hi. rewrite Hn in Hi. cbn in Hi. lia. }
  assert (forall bs x, (length bs <= headerSize)%nat -> 0 <= x <= Z.of_nat (length bs) ->
    restreamed c (set_writeStream (set_i x (appended bs (_writeStream c))) c)) as Hsome.
  { intros bs x Hl Hx. apply restream_write; [done|done| |congruence].
    unfold in_buf, buf_of, buf_end, headerSize in *. cbn. rewrite Hn. cbn [app]. lia. }
  apply wp_on, wp_bind, wp_header.
  - apply wp_modify, Hrest, Hsome; rewrite length_header_bytes; unfold headerSize; lia.
  - intros e He. split; [done|].
    replace (appended _ (_writeStream c)) with (set_i 0 (appended (take 10 (header_bytes validateConnectionMsg (chr 0)))
      (_writeStream c))) by (rewrite <- Hi0; by destruct (_writeStream c)).
    apply Hsome; rewrite length_take, length_header_bytes; unfold headerSize; lia.
Qed.

Lemma reading_moved c s' : reading_ok c -> moved (_readStream c) s' -> tr_datagram = false -> reading_ok (set_readStream s' c).
Proof.
  intros ([Hi Hl] & Hr & Hm) (x & -> & Hx & Hle) Hd. unfold reading_ok, in_buf, buf_of, buf_end in *. cbn in *.
  split_and!; try done; [|by right; apply stream_law]. apply Hle. unfold b_end, b_size. lia.
Qed.

(** The limit on messages is one on headers and bodies. *)
Lemma wp_resize_read n c Q F : (forall e, is_local e = true -> F e c) ->
  Q tt (set_readStream (set_b (ByteSeq.resize n (b (_readStream c))) (_readStream c)) c) ->
  wp (on_readStream (resize n)) Q F c.
Proof.
  intros HF HQ. apply wp_on, wp_resize; [done|]. intros e He.
  replace (set_readStream (_readStream c) c) with c by (by destruct c). by apply HF.
Qed.

Lemma fresh_reading r c : (length (b r) = headerSize)%nat -> i r = 0 -> messageSizeMax r = instance_messageSizeMax ->
  reading_ok (set_readStream r c).
Proof.
  intros Hl Hi Hm. unfold reading_ok, in_buf, buf_of, buf_end. cbn. rewrite Hl, Hi. unfold headerSize.
  split_and!; try done; try lia. right. apply readable_law.
Qed.

Lemma validate_client_ok op c : conn_ok c -> _state c = StateNotValidated -> idle op c -> tr_datagram = false ->
  wp (validate_client op) (validating op c) (fun e c' => is_local e = true /\ restreamed c c') c.
Proof.
  intros Hok Hst Hidle Hd. unfold validate_client. apply wp_bind, wp_get, wp_bind.
  assert (forall c1, restreamed c c1 -> wp (c ← get;
    done ← (if i (_readStream c) =? b_end (_readStream c) then mret true else read_readStream);
    if negb done then
      scheduleTimeout SocketOperationRead connectTimeout;; pool_update op SocketOperationRead;; mret false
    else
      c ← get;
      assertM (i (_readStream c) =? b_end (_readStream c));;
      on_readStream (modify (set_i 0);; check_validate_header);;
      modify (set_validated true);;
      mret true) (validating op c) (fun e c' => is_local e = true /\ restreamed c c') c1) as Hrest.
  { intros c1 Hr1. pose proof (restreamed_state _ _ Hr1) as Hst1. rewrite Hst in Hst1.
    assert (conn_ok c1) as Hok1 by apply Hr1. apply wp_bind, wp_get, wp_bind.
    assert (forall c2, restreamed c1 c2 -> i (_readStream c2) = b_end (_readStream c2) ->
      wp (c ← get;
          assertM (i (_readStream c) =? b_end (_readStream c));;
          on_readStream (modify (set_i 0);; check_validate_header);;
          modify (set_validated true);;
          mret true) (validating op c) (fun e c' => is_local e = true /\ restreamed c c') c2) as Hcheck.
    { intros c2 Hr2 Hend. apply wp_bind, wp_get, wp_bind, wp_assert; [by apply Z.eqb_eq|]. apply wp_bind, wp_on.
      assert (restreamed c c2) as Hr by by eapply restreamed_trans.
      assert (_state c2 = StateNotValidated) as Hst2 by (by rewrite (restreamed_state _ _ Hr)).
      assert (conn_ok c2) as Hok2 by apply Hr. pose proof (reading_of c2 Hok2 Hst2) as Hre.
      assert (forall s' v, moved (set_i 0 (_readStream c2)) s' ->
        restreamed c (set_readStream s' (set_readHeader (_readHeader c2) (set_validated v c2)))) as Hmv.
      { intros s' v (x & -> & Hx & Hle). eapply restreamed_trans; [exact Hr|].
        apply restream_read; [done..|]. apply reading_moved; [done| |done]. exists x. split; [done|]. split; [done|].
        intros _. apply Hle. cbn. unfold b_end, b_size. lia. }
      apply wp_bind, wp_modify. eapply wp_conseq; [by apply check_validate_header_safely|..].
      - intros [] s' [_ Hs']. apply wp_bind, wp_modify, wp_ret. specialize (Hmv s' true Hs').
        replace (set_validated true (set_readStream s' c2)) with
          (set_readStream s' (set_readHeader (_readHeader c2) (set_validated true c2))) by (by destruct c2).
        split; [done|]. by apply (restreamed_idle op c).
      - intros e s' [He Hs']. split; [done|]. specialize (Hmv s' (_validated c2) Hs').
        by replace (set_readStream s' c2) with (set_readStream s' (set_readHeader (_readHeader c2)
          (set_validated (_validated c2) c2))) by (by destruct c2). }
    case_if; bool_to_prop; [apply wp_ret; cbn [negb]; apply Hcheck; [by apply restreamed_refl|done]|].
    apply wp_read_readStream; [by apply ready_of|by apply reading_of|done|].
    intros n u Hu Hc _ Hin Hl. rewrite streams_same_r.
    assert (readable u -> restreamed c1 (streams_to n (_writeStream c1) (set_buf u (_readStream c1)) (_readHeader c1) (_validated c1) c1)) as Hr2.
    { intros Hru. destruct (ok_young c1 Hok1 ltac:(by rewrite Hst1)).
      apply restream; [done..|]. destruct u as [ub ux]. split; [exact Hin|]. split; [by right|].
      by destruct (reading_of c1 Hok1 Hst1) as (_ & _ & ?). }
    split_and!.
    - intros Hend. cbn [negb]. apply Hcheck; [by apply Hr2, stream_law|]. exact Hend.
    - intros Hru. cbn [negb]. specialize (Hr2 Hru). set (c2 := streams_to _ _ _ _ _ _) in *.
      assert (restreamed c c2) as Hr by by eapply restreamed_trans.
      apply (wp_wait op); [apply Hr|rewrite (restreamed_state _ _ Hr); by rewrite Hst|by apply (restreamed_idle op c)|by left|].
      intros c3 Hok3 Ho3. split; [done|]. etrans; [apply Hr|done].
    - intros e He Hru. split; [done|]. eapply restreamed_trans; [exact Hr1|by apply Hr2]. }
  apply wp_when; intros Hnil; [|by apply Hrest, restreamed_refl].
  apply wp_modify, Hrest. pose proof (reading_of c Hok Hst) as (_ & _ & Hm).
  replace (set_readStream _ c) with (set_readStream (set_i 0 (set_b (ByteSeq.resize headerSize (b (_readStream c))) (_readStream c)))
    (set_readHeader (_readHeader c) (set_validated (_validated c) c))) by (by destruct c).
  apply restream_read; [done..|]. apply fresh_reading; [apply ByteSeq.length_resize|done|done].
Qed.

Lemma wp_reset_readStream c Q F : messageSizeMax (_readStream c) = instance_messageSizeMax ->
  Q tt (set_readStream (set_i 0 (set_b (ByteSeq.resize headerSize (b (_readStream c))) (_readStream c)))
    (set_readHeader true (set_validated (_validated c) c))) -> wp reset_readStream Q F c.
Proof.
  intros Hm HQ. unfold reset_readStream. apply wp_bind, wp_on, wp_bind, wp_resize_fits.
  - rewrite Hm. pose proof message_limit. lia.
  - apply wp_modify, wp_modify. by destruct c.
Qed.

Lemma validate_ok op c : conn_ok c -> _state c = StateNotValidated -> idle op c ->
  wp (validate op)
    (fun ready c' => if ready : bool then restreamed c c' /\ idle op c' /\ b (_writeStream c') = [] else conn_ok c' /\ opens c c')
    (fun e c' => is_local e = true /\ restreamed c c') c.
Proof.
  intros Hok Hst Hidle. unfold validate. apply wp_bind.
  eapply (wp_conseq _ (validating op c) _ (fun e c' => is_local e = true /\ restreamed c c')); [|intros ready c1 H1|done].
  - destruct tr_datagram eqn:Hd; [apply wp_ret; split; [by apply restreamed_refl|done]|].
    apply wp_bind, wp_get. destruct (_adapter c); [by apply validate_server_ok|by apply validate_client_ok].
  - destruct ready; [|by apply wp_ret]. destruct H1 as [Hr1 Hidle1]. assert (conn_ok c1) as Hok1 by apply Hr1.
    assert (_state c1 = StateNotValidated) as Hst1 by (by rewrite (restreamed_state _ _ Hr1)).
    apply wp_bind, wp_on, wp_bind, wp_resize_fits; [lia|].
    apply wp_modify. set (w := set_i 0 _).
    assert (b w = []) as Hw by done.
    assert (restreamed c1 (set_writeStream w c1)) as Hr2 by (apply restream_write; [done..| |done]; by split).
    assert (restreamed c (set_writeStream w c1)) as Hr by by eapply restreamed_trans.
    set (c2 := set_writeStream w c1) in *. apply wp_bind, wp_reset_readStream; [by destruct (reading_of c1 Hok1 Hst1) as (_ & _ & ?)|].
    apply wp_ret. match goal with |- restreamed _ ?x /\ _ => set (c3 := x) end.
    assert (restreamed c2 c3) as Hr3.
    { apply restream_read; [apply Hr|by rewrite (restreamed_state _ _ Hr)|].
      apply fresh_reading; [apply ByteSeq.length_resize|done|]. by destruct (reading_of c1 Hok1 Hst1) as (_ & _ & ?). }
    assert (restreamed c c3) as Hr4 by by eapply restreamed_trans.
    split; [done|]. split; [by apply (restreamed_idle op c)|done].
Qed.

(** A connection that is ready starts in holding state. *)
Lemma held_ok mo c : conn_ok c -> _state c = StateNotValidated -> idle SocketOperationNone c -> b (_writeStream c) = [] ->
  conn_ok (set_startCallback None (set_state StateHolding (set_monitored mo c))).
Proof.
  intros Hok Hst (Hreg & Hwt & Hrt) Hw. destruct Hok. rewrite Hst in *. cbn in *. destruct (ok_young ltac:(lia)).
  constructor; cbn; try done; try lia; auto with lia.
  intros _ _. unfold queue_ok. cbn. rewrite young_queue, Hreg. done.
Qed.

Lemma wp_setState_held c Q F : conn_ok c -> _state c = StateNotValidated -> idle SocketOperationNone c ->
  b (_writeStream c) = [] ->
  (forall c', conn_ok (set_startCallback None c') -> advances StateHolding c c' -> _startCallback c' = _startCallback c -> Q tt c') ->
  wp (setState StateHolding) Q F c.
Proof.
  intros Hok Hst Hidle Hw HQ. destruct (setState_opens StateHolding c) as [mo Hs]; [by right|].
  eapply wp_eq; [exact Hs|]. apply HQ; [by apply held_ok| |done]. exists c, mo. split; [done|]. split; [done|]. by rewrite Hst.
Qed.
End opening.
