(* ===== verification/ConnectionLife.v ===== *)
(** * The life cycle of a connection keeps the invariant

    [start] and the wait that follows it, [activate], [hold], [destroy],
    [close], [exception], [timedOut], [monitor], [setAdapter]. *)

From S2P Require Import Prelude Hoare Buffer Layout Protocol Stream Wire Encaps Transceiver.
From S2P Require Import ConnectionData ConnectionSend ConnectionState Connection StreamSpec.
From S2P Require Import ConnectionFrame ConnectionQueue ConnectionInv ConnectionRequests ConnectionOpen.

Section life.
Context `{PL : Platform} {D E : Type} {TR : Transceiver} {ST : Settings} {BZ : BZip2} {LW : TransceiverLaws TR}.
Context `{LI : !Limits}.
Local Abbreviation stream := (BasicStream D E).
Local Abbreviation omessage := (@OutgoingMessage D E).
Local Abbreviation conn := (@ConnectionI D E TR).
Implicit Types (s : stream) (c : conn) (m : omessage).

Lemma keeps_conseq {A} (m : M conn A) c c' : steady c c' -> keeps m c' -> 
  wp m (fun _ c2 => conn_ok c2 /\ steady c c2) (fun _ c2 => conn_ok c2 /\ steady c c2) c'.
Proof. intros Hs Hm. eapply wp_conseq; [exact Hm|..]; intros ? c2 [??]; (split; [done|by etrans]). Qed.

Lemma keeps_try {A} (m : M conn A) h c :
  wp m (fun _ c' => conn_ok c' /\ steady c c') (fun e c' => is_local e = true /\ conn_ok c' /\ steady c c') c ->
  (forall e c', is_local e = true -> conn_ok c' -> keeps (h e) c') -> keeps (try_local m h) c.
Proof.
  intros Hm Hh. apply wp_try. eapply wp_conseq; [exact Hm|done|]. intros e c' (He & Hok & Hs). rewrite He.
  apply keeps_conseq; [done|by apply Hh].
Qed.

Lemma keeps_when (b : bool) (m : M conn unit) c : conn_ok c -> (b = true -> keeps m c) -> keeps (when b m) c.
Proof. intros Hok Hm. destruct b; [by apply Hm|by apply keeps_ret]. Qed.

(** ** Starting *)

Lemma keeps_start_failed {A} cb (outcome : A) e c : is_local e = true -> conn_ok c -> keeps (start_failed cb outcome e) c.
Proof.
  intros He Hok. unfold start_failed, exception. apply wp_bind, wp_close; [done..|]. intros c1 Hc1 Hok1 Hst1.
  apply keeps_conseq; [by eapply moves_steady, closes_moves|]. destruct cb as [cb|]; [|by apply keeps_throw].
  apply wp_bind, wp_get. destruct (proj1 (ok_exception c1 Hok1)) as [e' ->]; [cbn in *; lia|].
  apply keeps_bind; [by apply keeps_emit|]. intros. by apply keeps_ret.
Qed.

Lemma set_startCallback_ok cb c : conn_ok c -> (_state c <= StateNotValidated)%state ->
  conn_ok (set_startCallback (Some cb) c) /\ steady c (set_startCallback (Some cb) c).
Proof.
  intros Hok Hst. split; [|by split; try done; auto; cbn; lia]. destruct Hok.
  constructor; cbn in *; try done; auto.
  - intros Hy. by destruct (ok_young Hy).
  - intros Hf. rewrite Hf in Hst. cbn in Hst. lia.
Qed.

Lemma opens_callback c c' : opens c c' -> _startCallback c' = _startCallback c.
Proof. by intros (?&?&?&?&?&?&?&?&?&?&->). Qed.

Lemma same_callback c : _startCallback c = None -> conn_ok (set_startCallback None c) -> conn_ok c.
Proof. intros H1 H2. replace c with (set_startCallback None c) by (rewrite <- H1; by destruct c). done. Qed.

(** [start] runs on a connection that nothing else has touched, unless it has
    been closed in between. *)
Definition may_start c : Prop := _startCallback c = None /\
  (_state c = StateNotInitialized /\ idle SocketOperationNone c \/ (StateClosed <= _state c)%state).

Lemma keeps_start cb c : conn_ok c -> may_start c -> keeps (start cb) c.
Proof.
  intros Hok [Hcb Hst]. unfold start. apply keeps_bind.
  2:{ intros out c' Hok' _. destruct out, cb; try (by apply keeps_ret). apply keeps_bind; [by apply keeps_emit|].
      intros. by apply keeps_ret. }
  apply keeps_try; [|intros; by apply keeps_start_failed].
  apply wp_bind, wp_get. case_if; bool_to_prop.
  { apply wp_throw_exception; [done|cbn in *; lia|]. intros e He _. by split. }
  destruct Hst as [[Hst Hidle]|]; [|lia].
  assert (forall c1, conn_ok c1 -> moves c c1 -> (_state c1 <= StateNotValidated)%state ->
    wp (match cb with
        | Some cb => modify (set_startCallback (Some cb));; mret StartPending
        | None => mret StartWaiting
        end) (fun _ c' => conn_ok c' /\ steady c c') (fun e c' => is_local e = true /\ conn_ok c' /\ steady c c') c1) as Hwait.
  { intros c1 Hok1 Hm1%moves_steady Hst1. destruct cb as [cb|]; [|by apply wp_ret].
    apply wp_bind, wp_modify, wp_ret. destruct (set_startCallback_ok cb c1 Hok1 Hst1). split; [done|by etrans]. }
  apply wp_bind. eapply wp_conseq; [by apply initialize_ok|..].
  2:{ intros e c1 (He%socket_local & Hok1 & Ho1). split; [done|]. split; [done|]. by apply moves_steady, opens_moves. }
  intros ready c1 [Hok1 H1]. apply wp_bind. destruct ready.
  2:{ apply wp_ret. destruct (opens_moves _ _ H1) as [? Hst1]. apply Hwait; [done..|]. by rewrite Hst1, Hst. }
  destruct H1 as [Ha1 Hidle1]. destruct (advances_moves _ _ _ Ha1) as [Hm1 Hst1].
  assert (_startCallback c1 = None) as Hcb1 by (destruct Ha1 as (c0 & mo & Ho & -> & _); cbn; by rewrite (opens_callback _ _ Ho)).
  eapply wp_conseq; [by apply validate_ok|..].
  2:{ intros e c2 [He Hr2]. split; [done|]. split; [apply Hr2|]. apply moves_steady. etrans; [done|]. by apply opens_moves, Hr2. }
  intros ready c2 H2. destruct ready.
  2:{ destruct H2 as [Hok2 Ho2]. destruct (opens_moves _ _ Ho2) as [Hm2 Hst2]. apply Hwait; [done|by etrans|]. by rewrite Hst2, Hst1. }
  destruct H2 as (Hr2 & Hidle2 & Hw2). destruct (opens_moves _ _ (proj1 (proj2 Hr2))) as [Hm2 Hst2].
  apply wp_bind, wp_setState_held; [apply Hr2|by rewrite Hst2|done..|].
  intros c3 Hok3 Ha3 Hcb3. destruct (advances_moves _ _ _ Ha3) as [Hm3 _]. apply wp_ret.
  split; [|apply moves_steady; etrans; [done|by etrans]]. apply same_callback; [|done].
  rewrite Hcb3, (opens_callback _ _ (proj1 (proj2 Hr2))). done.
Qed.

Lemma keeps_setState_validated st c : conn_ok c -> validated c -> st = StateActive \/ st = StateHolding ->
  keeps (setState st) c.
Proof. intros. apply wp_setState_validated; [done..|]. intros c' Hok Hm _. split; [done|by apply moves_steady]. Qed.

(** The caller of [start] goes on when the connection is validated. *)
Lemma keeps_start_resume c : conn_ok c -> start_waits c = false -> keeps start_resume c.
Proof.
  intros Hok Hw%Z.leb_gt. unfold start_resume. apply keeps_try; [|intros; by apply keeps_start_failed].
  apply wp_bind, wp_get. case_if; bool_to_prop.
  - apply wp_throw_exception; [done|cbn in *; lia|]. intros e He _. by split.
  - apply wp_setState_validated; [done..|by right|]. intros c' Hok' Hm _. split; [done|by apply moves_steady].
Qed.

Lemma keeps_touch_acm c : conn_ok c -> keeps touch_acm c.
Proof.
  intros Hok. destruct (touch_acm_eq c) as [a Ha]. eapply wp_eq; [exact Ha|]. split.
  - destruct Hok. constructor; cbn in *; try done. intros Hy. by destruct (ok_young Hy).
  - by split; try done; auto; cbn; lia.
Qed.

Lemma keeps_activate c : conn_ok c -> keeps activate c.
Proof.
  intros Hok. unfold activate. apply wp_bind, wp_get. case_if; bool_to_prop; [by apply keeps_ret|].
  destruct (touch_acm_eq c) as [a Ha]. pose proof (keeps_touch_acm c Hok) as Hk. apply wp_bind.
  pose proof (wp_inv_ok _ _ _ _ _ _ Hk Ha) as [Hok1 Hs1]. eapply wp_eq; [exact Ha|].
  apply keeps_conseq; [done|]. apply keeps_setState_validated; [done|done|by left].
Qed.

Lemma keeps_hold c : conn_ok c -> keeps hold c.
Proof.
  intros Hok. unfold hold. apply wp_bind, wp_get. case_if; bool_to_prop; [by apply keeps_ret|].
  apply keeps_setState_validated; [done|done|by right].
Qed.

Lemma keeps_destroy reason c : conn_ok c -> keeps (destroy reason) c.
Proof. intros Hok. destruct reason; by apply keeps_closing. Qed.

Lemma keeps_close_force force c : conn_ok c -> keeps (close force) c.
Proof. intros Hok. destruct force; [by apply keeps_close|by apply keeps_closing]. Qed.

Lemma keeps_exception e c : conn_ok c -> is_local e = true -> keeps (exception e) c.
Proof. apply keeps_close. Qed.

Lemma keeps_timedOut c : conn_ok c -> keeps timedOut c.
Proof. intros Hok. unfold timedOut. apply wp_bind, wp_get. repeat case_if; by apply keeps_close || apply keeps_ret. Qed.

Lemma keeps_monitor now c : conn_ok c -> keeps (monitor now) c.
Proof.
  intros Hok. unfold monitor. apply wp_bind, wp_get. repeat case_if; try (by apply keeps_ret).
  apply keeps_when; [done|]. intros _. by apply keeps_closing.
Qed.

Lemma set_adapters_ok a sm c : conn_ok c -> conn_ok (set_adapter a (set_servantManager sm c)) /\
  steady c (set_adapter a (set_servantManager sm c)).
Proof.
  intros Hok. split; [|by split; try done; auto; cbn; lia]. destruct Hok. constructor; cbn in *; try done.
  intros Hy. by destruct (ok_young Hy).
Qed.

Lemma keeps_setAdapter a c : conn_ok c -> keeps (setAdapter a) c.
Proof.
  intros Hok. unfold setAdapter. apply wp_bind, wp_get. case_if; [by apply keeps_ret|]. destruct a as [a|].
  - apply wp_bind, wp_modify, wp_modify. by apply set_adapters_ok.
  - apply wp_bind, wp_modify, wp_modify.
    replace (set_servantManager None (set_adapter None c)) with (set_adapter None (set_servantManager None c)) by (by destruct c).
    by apply set_adapters_ok.
Qed.

Lemma keeps_getInfo c : conn_ok c -> keeps getInfo c.
Proof.
  intros Hok. unfold getInfo. apply wp_bind, wp_get. case_if; bool_to_prop; [|by apply keeps_ret].
  apply keeps_throw_exception; [done|cbn in *; lia].
Qed.

Lemma keeps_throwException c : conn_ok c -> keeps throwException c.
Proof.
  intros Hok. unfold throwException. apply wp_bind, wp_get. destruct (_exception c) as [e|] eqn:Ee; [|by apply keeps_ret].
  apply wp_bind, wp_assert; [|by apply wp_throw]. apply Z.leb_le, (ok_exception c Hok). by rewrite Ee.
Qed.
End life.
