(* ===== verification/ConnectionReceive.v ===== *)
(** * Reading and writing in [message] keep the invariant

    [message_write] goes on with the message at the front of the queue,
    [message_read] reads the header and the body of the next message. *)

From S2P Require Import Prelude Hoare Buffer Layout Protocol Stream Wire Encaps Transceiver.
From S2P Require Import ConnectionData ConnectionSend ConnectionState Connection StreamSpec.
From S2P Require Import ConnectionFrame ConnectionQueue ConnectionInv ConnectionRequests ConnectionOpen.

Section receive.
Context `{PL : Platform} {D E : Type} {TR : Transceiver} {ST : Settings} {BZ : BZip2} {LW : TransceiverLaws TR}.
Context `{LI : !Limits}.
Local Abbreviation stream := (BasicStream D E).
Local Abbreviation omessage := (@OutgoingMessage D E).
Local Abbreviation conn := (@ConnectionI D E TR).
Implicit Types (s : stream) (c : conn) (m : omessage).

(** ** What reading changes *)

Definition receives_to n r rh rt rts c : conn :=
  set_transceiver n (set_readStream r (set_readHeader rh (set_read_task rt (set_readTimeoutScheduled rts c)))).

Definition receives c c' : Prop := exists n r rh rt rts, c' = receives_to n r rh rt rts c.

#[export] Instance receives_preorder : PreOrder receives.
Proof.
  split.
  - intros c. exists (_transceiver c), (_readStream c), (_readHeader c), (read_task c), (_readTimeoutScheduled c). by destruct c.
  - intros c1 c2 c3 (?&?&?&?&?&->) (n&r&rh&rt&rts&->). by exists n, r, rh, rt, rts.
Qed.

Lemma receives_moves c c' : receives c c' -> moves c c'.
Proof. intros (?&?&?&?&?&->). split; cbn; try done; auto; lia. Qed.

Lemma receives_ok n r rh rt rts c : conn_ok c -> (StateNotInitialized < _state c)%state -> (_state c < StateClosed)%state ->
  usable n -> connected n -> reading_ok (set_readStream r c) -> (rt = true -> op_read (_registered c) = true /\ rts = true) ->
  conn_ok (receives_to n r rh rt rts c).
Proof.
  intros Hok Hlo Hhi Hu Hc Hr Ht. destruct Hok. constructor; cbn in *; try done.
  - intros Hy. destruct (ok_young Hy). constructor; cbn; try done.
    + intros Hrt. by destruct (Ht Hrt).
    + intros Hst. rewrite Hst in Hlo. cbn in Hlo. lia.
  - destruct ok_tasks. split; cbn; [done|]. intros Hrt. by destruct (Ht Hrt).
Qed.

(** A connection in order but for what it was reading *)
Definition unread c : Prop :=
  (exists r rh, conn_ok (set_readStream r (set_readHeader rh c))) /\ messageSizeMax (_readStream c) = instance_messageSizeMax.

Lemma unread_of c : conn_ok c -> (_state c < StateClosed)%state -> unread c.
Proof.
  intros Hok Hst. destruct (ok_reading c Hok Hst) as (_ & _ & Hm). split; [|done].
  exists (_readStream c), (_readHeader c). by destruct c.
Qed.

Lemma unread_stream r rh c : unread c -> messageSizeMax r = instance_messageSizeMax -> unread (set_readStream r (set_readHeader rh c)).
Proof. intros [(r' & rh' & Hok) _] Hm. split; [|done]. exists r', rh'. by destruct c. Qed.

Lemma to_i32_end s : in_buf (buf_of s) -> to_i32 (b_end s) = b_end s.
Proof. intros [_ H]. unfold buf_of, buf_end in H. cbn in H. apply to_i32_id. unfold b_end, b_size. lia. Qed.

Lemma readHeader_ok c : unread c -> in_buf (buf_of (_readStream c)) -> i (_readStream c) = b_end (_readStream c) ->
  wp readHeader
    (fun _ c' => exists r, c' = set_readStream r (set_readHeader false c) /\ in_buf (buf_of r) /\
      messageSizeMax r = instance_messageSizeMax)
    (fun e c' => is_local e = true /\ unread c' /\ exists r, c' = set_readStream r (set_readHeader false c)) c.
Proof.
  intros Hun Hin Hend. pose proof Hun as [_ Hm]. unfold readHeader. apply wp_bind, wp_modify, wp_bind, wp_gets.
  change (_readStream (set_readHeader false c)) with (_readStream c). case_if; bool_to_prop.
  { apply wp_throw. split; [done|]. replace (set_readHeader false c) with (set_readStream (_readStream c) (set_readHeader false c))
      by (by destruct c). split; [by apply unread_stream|by exists (_readStream c)]. }
  assert (forall s', messageSizeMax s' = instance_messageSizeMax ->
    unread (set_readStream s' (set_readHeader false c)) /\
    exists r, set_readStream s' (set_readHeader false c) = set_readStream r (set_readHeader false c)) as Hany.
  { intros s' Hs'. split; [by apply unread_stream|by exists s']. }
  apply wp_on, wp_bind, wp_modify, wp_bind. change (_readStream (set_readHeader false c)) with (_readStream c).
  pose proof message_limit as [_ Hmax].
  eapply wp_conseq; [by apply (check_header_safely Hmax)|..].
  2:{ intros e s' [He (x & -> & _)]. split; [done|]. by apply Hany. }
  intros size s' [Hsize (x & -> & Hx & _)]. apply wp_bind, wp_get. set (r0 := set_i x _).
  assert (b r0 = b (_readStream c)) as Hb0 by done.
  assert (to_i32 (b_end r0) = b_end (_readStream c)) as Hend0.
  { change (b_end r0) with (b_end (_readStream c)). by apply to_i32_end. }
  rewrite Hend0. destruct Hin as [Hi Hl]. unfold buf_of, buf_end in Hi, Hl. cbn in Hi, Hl.
  apply wp_bind, wp_when; intros Hlt; bool_to_prop; apply wp_modify.
  - apply wp_modify. eexists. split; [done|]. cbn -[ByteSeq.resize]. split; [|done].
    unfold in_buf, buf_of, buf_end. cbn -[ByteSeq.resize]. rewrite ByteSeq.length_resize. unfold b_end, b_size in *. lia.
  - eexists. split; [done|]. split; [|done]. unfold in_buf, buf_of, buf_end. cbn. lia.
Qed.

Lemma receives_refl_stream r rh c : receives c (set_readStream r (set_readHeader rh c)).
Proof. exists (_transceiver c), r, rh, (read_task c), (_readTimeoutScheduled c). by destruct c. Qed.

(** The stream has changed, and the connection is in order. *)
Lemma restream_ok n r rh c : conn_ok c -> (StateNotInitialized < _state c)%state -> (_state c < StateClosed)%state ->
  read_task c = false -> usable n -> connected n -> reading_ok (set_readStream r c) ->
  conn_ok (set_transceiver n (set_readStream r (set_readHeader rh c))).
Proof.
  intros Hok Hlo Hhi Ht Hu Hc Hr.
  replace (set_transceiver n (set_readStream r (set_readHeader rh c))) with
    (receives_to n r rh (read_task c) (_readTimeoutScheduled c) c) by (by destruct c).
  apply receives_ok; [done..|]. by rewrite Ht.
Qed.

Lemma restream_same_ok r rh c : conn_ok c -> (StateNotInitialized < _state c)%state -> (_state c < StateClosed)%state ->
  read_task c = false -> reading_ok (set_readStream r c) -> conn_ok (set_readStream r (set_readHeader rh c)).
Proof.
  intros Hok Hlo Hhi Ht Hr.
  replace (set_readStream r (set_readHeader rh c)) with
    (set_transceiver (_transceiver c) (set_readStream r (set_readHeader rh c))) by (by destruct c).
  apply restream_ok; [done..| |by apply (ok_connected c Hok)|done].
  apply (ok_usable c Hok). intros Ef. rewrite Ef in Hhi. cbn in Hhi. lia.
Qed.

(** One read into the stream, if it is not full *)
Lemma fill_ok c : conn_ok c -> (StateNotInitialized < _state c)%state -> (_state c < StateClosed)%state -> read_task c = false ->
  wp (if i (_readStream c) =? b_end (_readStream c) then mret true else read_readStream)
    (fun full c' => conn_ok c' /\ receives c c' /\ read_task c' = false /\ _readHeader c' = _readHeader c /\
      (full = true -> i (_readStream c') = b_end (_readStream c')))
    (fun e c' => is_local e = true /\ conn_ok c' /\ receives c c') c.
Proof.
  intros Hok Hlo Hhi Ht. case_if; bool_to_prop; [by apply wp_ret|].
  assert (net_ready c) as Hready.
  { split; [apply (ok_usable c Hok)|by apply (ok_connected c Hok)]. intros Ef. rewrite Ef in Hhi. cbn in Hhi. lia. }
  pose proof (ok_reading c Hok Hhi) as Hre. apply wp_read_readStream; [done..|].
  intros n u Hu Hc _ Hin Hl.
  assert ((i (set_buf u (_readStream c)) = b_end (set_buf u (_readStream c)) \/ readable u) ->
    conn_ok (set_transceiver n (set_readStream (set_buf u (_readStream c)) c))) as Hok'.
  { intros Hor. replace (set_transceiver n (set_readStream (set_buf u (_readStream c)) c)) with
      (set_transceiver n (set_readStream (set_buf u (_readStream c)) (set_readHeader (_readHeader c) c))) by (by destruct c).
    apply restream_ok; [done..|]. destruct u. split; [exact Hin|]. split; [exact Hor|]. apply Hre. }
  assert (receives c (set_transceiver n (set_readStream (set_buf u (_readStream c)) c))) as Hrec.
  { exists n, (set_buf u (_readStream c)), (_readHeader c), (read_task c), (_readTimeoutScheduled c). by destruct c. }
  split_and!.
  - intros Hend. split; [apply Hok'; by left|]. by split_and!.
  - intros Hr. split; [apply Hok'; by right|]. by split_and!.
  - intros e He Hr. split; [done|]. split; [apply Hok'; by right|done].
Qed.

Lemma message_read_ok c : conn_ok c -> (_state c < StateClosed)%state -> read_task c = false -> op_read (_registered c) = true ->
  wp message_read
    (fun got c' => conn_ok c' /\ receives c c' /\ (got = true -> read_task c' = false /\ i (_readStream c') = b_end (_readStream c')))
    (fun e c' => is_local e = true /\ unread c' /\ receives c c' /\ _state c <> StateNotInitialized) c.
Proof.
  intros Hok Hst Ht Hreg. unfold message_read. apply wp_bind, wp_get.
  pose proof (ok_reading c Hok Hst) as Hre. case_if.
  { apply wp_ret. split; [done|]. split; [done|]. intros _. split; [done|].
    assert (b (_readStream c) = []) as Hb by (by destruct (b (_readStream c))).
    destruct Hre as ([Hi _] & _). unfold buf_of, buf_end in Hi. cbn in Hi. unfold b_end, b_size. rewrite Hb in *. cbn in *. lia. }
  assert (_state c <> StateNotInitialized) as Hni.
  { intros Hni. destruct (ok_young c Hok ltac:(by rewrite Hni)). destruct (young_fresh Hni) as [_ Hb]. by rewrite Hb in *. }
  assert (StateNotInitialized < _state c)%state as Hlo by (destruct (_state c); cbn; try lia; done).
  (** The header, or what there is of it *)
  apply wp_bind. eapply (wp_conseq _ (fun (ready : bool) c1 => receives c c1 /\ read_task c1 = false /\
      unread c1 /\ in_buf (buf_of (_readStream c1)) /\ (conn_ok c1 \/
        ready = true /\ exists c0, conn_ok c0 /\ receives c c0 /\ exists r, c1 = set_readStream r (set_readHeader false c0)))
    _ (fun e c' => is_local e = true /\ unread c' /\ receives c c')).
  { destruct (_readHeader c).
    2:{ apply wp_ret. split; [done|]. split; [done|]. split; [by apply unread_of|]. split; [apply Hre|by left]. }
    apply wp_bind. eapply wp_conseq; [by apply fill_ok|..].
    2:{ intros e c1 (He & Hok1 & Hrec). split; [done|]. split; [|done]. apply unread_of; [done|].
        by destruct Hrec as (?&?&?&?&?&->). }
    intros full c1 (Hok1 & Hrec & Ht1 & _ & Hfull).
    assert (_state c1 < StateClosed)%state as Hst1 by (by destruct Hrec as (?&?&?&?&?&->)).
    destruct full.
    2:{ apply wp_ret. split; [done|]. split; [done|]. split; [by apply unread_of|]. split; [by apply ok_reading|by left]. }
    apply wp_bind, wp_get, wp_bind, wp_assert; [by apply Z.eqb_eq, Hfull|]. apply wp_bind.
    eapply wp_conseq; [apply readHeader_ok; [by apply unread_of|by apply ok_reading|by apply Hfull]|..].
    - intros [] c2 (r & -> & Hin & Hm). apply wp_ret. split; [etrans; [done|by apply receives_refl_stream]|].
      split; [done|]. split; [by apply unread_stream; [apply unread_of|]|]. split; [done|]. right. split; [done|].
      exists c1. split; [done|]. split; [done|by exists r].
    - intros e c2 (He & Hun & r & ->). split; [done|]. split; [done|]. etrans; [done|by apply receives_refl_stream]. }
  2:{ intros e c' (He & Hun & Hrec). by split_and!. }
  intros ready c1 (Hrec & Ht1 & Hun & Hin & Hor).
  assert (_state c1 = _state c /\ _registered c1 = _registered c) as [Est Ereg] by (by destruct Hrec as (?&?&?&?&?&->)).
  destruct ready; cbn [negb].
  2:{ apply wp_ret. destruct Hor as [Hok1|[? _]]; [|done]. by split_and!. }
  assert (i (_readStream c1) = b_end (_readStream c1) \/ tr_datagram = false -> conn_ok c1) as Hok1.
  { intros Hfull. destruct Hor as [?|(_ & c0 & Hok0 & Hrec0 & r & ->)]; [done|].
    assert (_state c0 = _state c) as Est0 by (by destruct Hrec0 as (?&?&?&?&?&->)).
    apply restream_same_ok; [done|by rewrite Est0|by rewrite Est0|done|].
    split; [exact Hin|]. split; [|apply Hun]. destruct Hfull; [by left|]. right. by apply stream_law. }
  apply wp_bind, wp_get. destruct (i (_readStream c1) =? b_end (_readStream c1)) eqn:Efull.
  { apply wp_ret. bool_to_prop. split; [by apply Hok1; left|]. by split_and!. }
  destruct tr_datagram eqn:Hd; [apply wp_throw; by split_and!|]. apply wp_bind.
  assert (read_readStream = if i (_readStream c1) =? b_end (_readStream c1) then mret true else read_readStream) as -> by (by rewrite Efull).
  eapply wp_conseq; [apply fill_ok; [by apply Hok1; right|by rewrite Est|by rewrite Est|done]|..].
  2:{ intros e c2 (He & Hok2 & Hrec2). assert (receives c c2) as Hr by by etrans.
      split; [done|]. split; [|done]. apply unread_of; [done|]. by destruct Hr as (?&?&?&?&?&->). }
  intros got c2 (Hok2 & Hrec2 & Ht2 & _ & Hgot). assert (receives c c2) as Hr by by etrans. destruct got.
  - specialize (Hgot eq_refl). apply wp_bind, wp_get, wp_bind, wp_assert; [by apply Z.eqb_eq|]. apply wp_ret. by split_and!.
  - apply wp_bind. eapply (wp_conseq _ (fun _ c3 => conn_ok c3 /\ receives c c3) _ (fun _ _ => False)); [|intros [] c3 [? ?]; by apply wp_ret|done].
    unfold scheduleTimeout. case_if; [by apply wp_ret|]. cbn. apply wp_bind, wp_bind, wp_get, wp_bind, wp_assert; [by rewrite Ht2|].
    apply wp_modify, wp_ret.
    replace (set_readTimeoutScheduled true (set_read_task true c2)) with
      (receives_to (_transceiver c2) (_readStream c2) (_readHeader c2) true true c2) by (by destruct c2).
    assert (_state c2 = _state c /\ _registered c2 = _registered c) as [Est2 Ereg2] by (by destruct Hr as (?&?&?&?&?&->)).
    split; [|etrans; [done|by eexists _, _, _, _, _]].
    apply receives_ok; [done|by rewrite Est2..| | | |by rewrite Ereg2].
    + apply (ok_usable _ Hok2). rewrite Est2. intros Ef. rewrite Ef in Hst. cbn in Hst. lia.
    + apply (ok_connected _ Hok2); by rewrite Est2.
    + replace (set_readStream (_readStream c2) c2) with c2 by (by destruct c2). apply (ok_reading _ Hok2). by rewrite Est2.
Qed.

(** ** Writing *)

Lemma young_wait c : conn_ok c -> (_state c <= StateNotValidated)%state -> op_write (_registered c) = true ->
  write_task c = false ->
  wp (scheduleTimeout SocketOperationWrite endpoint_timeout) (fun _ c' => conn_ok c' /\ opens c c') (fun _ _ => False) c.
Proof.
  intros Hok Hst Hreg Ht. apply wp_scheduleTimeout_write; [done|by split|].
  assert (opens c (set_writeTimeoutScheduled true (set_write_task true c))) as Ho.
  { exists (_transceiver c), (_writeStream c), (_readStream c), (_readHeader c), (_registered c), true, true, (read_task c),
      (_readTimeoutScheduled c), (_validated c). by destruct c. }
  split; [|done]. apply (opens_ok c); [done|done|done| | | | |].
  - apply (ok_usable c Hok). intros Ef. rewrite Ef in Hst. cbn in Hst. lia.
  - intros Hlo. apply (ok_connected c Hok); [done|]. cbn in *. lia.
  - destruct (ok_young c Hok Hst). by constructor.
  - destruct (ok_tasks c Hok). by split.
  - apply (ok_reading c Hok). cbn in *. lia.
Qed.

Lemma message_write_young_ok c : conn_ok c -> (_state c <= StateNotValidated)%state ->
  op_write (_registered c) = true -> write_task c = false ->
  wp message_write (fun done c' => if done : bool then restreamed c c' else conn_ok c' /\ opens c c')
    (fun e c' => is_local e = true /\ restreamed c c' /\ _state c <> StateNotInitialized) c.
Proof.
  intros Hok Hst Hreg Ht. destruct (ok_young c Hok Hst). unfold message_write. apply wp_bind, wp_get.
  case_if; [by apply wp_ret, restreamed_refl|]. case_if; bool_to_prop; [by apply wp_ret, restreamed_refl|].
  assert (_state c <> StateNotInitialized) as Hni.
  { intros Hni. destruct (young_fresh Hni) as [Hb _]. by rewrite Hb in *. }
  assert (_state c = StateNotValidated) as Hnv by (destruct (_state c); cbn in Hst; try lia; done).
  assert (tr_datagram = false) as Hd by (destruct tr_datagram; [by rewrite young_datagram in *|done]).
  apply wp_bind, wp_write_writeStream; [by apply ready_of|done|by apply stream_law|].
  intros n x Hu Hc Hx _. rewrite streams_same.
  assert (restreamed c (streams_to n (set_i x (_writeStream c)) (_readStream c) (_readHeader c) (_validated c) c)) as Hr.
  { apply restream; [done..|by apply in_buf_move|congruence|exact (reading_of c Hok Hnv)]. }
  set (c1 := streams_to _ _ _ _ _ _) in *. split_and!.
  - intros Hend. apply wp_bind, wp_get, wp_bind, wp_assert; [by apply Z.eqb_eq|]. by apply wp_ret.
  - intros _. pose proof Hr as (Hok1 & Ho1 & Hg1 & Hw1 & _). apply wp_bind. eapply wp_conseq; [apply young_wait|..].
    + done.
    + by rewrite (restreamed_state _ _ Hr).
    + by rewrite Hg1.
    + by rewrite Hw1.
    + intros [] c2 [Hok2 Ho2]. apply wp_ret. split; [done|by etrans].
    + done.
  - intros e He _. exact (conj He (conj Hr Hni)).
Qed.

(** The cursor of the message at the front moves: the same bytes are on the
    wire. *)
Lemma wire_moved n x c : _sendStreams c <> [] -> 0 <= i (_writeStream c) <= x -> x <= b_end (_writeStream c) ->
  sent n = sent (_transceiver c) ++ between (buf_of (_writeStream c)) (i (_writeStream c)) x ->
  wire (set_transceiver n (set_writeStream (set_i x (_writeStream c)) c)) = wire c.
Proof.
  intros Hq Hx Hend Hs. unfold wire, backlog, behind_front. cbn [_sendStreams _transceiver set_transceiver set_writeStream].
  destruct (_sendStreams c) as [|m rest]; [done|]. rewrite Hs, <- app_assoc. f_equal. rewrite app_assoc. f_equal.
  by apply (between_app (buf_of (_writeStream c))).
Qed.

Lemma message_write_wire c : conn_ok c -> validated c -> (_state c < StateClosed)%state ->
  op_write (_registered c) = true -> write_task c = false ->
  wp message_write
    (fun done c' => sent_ok c c' /\ (done = true -> i (_writeStream c') = b_end (_writeStream c') /\
       b (_writeStream c') <> [] /\ write_task c' = false /\ _sendStreams c' = _sendStreams c) /\ wire c' = wire c)
    (fun e c' => is_local e = true /\ sent_ok c c' /\ wire c' = wire c) c.
Proof.
  intros Hok Hv Hst Hreg Ht. destruct (may_send_ok c Hok Hv Hst) as (_ & Hn & Hq & Htk). unfold message_write.
  pose proof Hq as Hq0. unfold queue_ok in Hq. destruct (_sendStreams c) as [|m rest] eqn:Eq.
  { destruct Hq as (_ & Hq & _). congruence. }
  destruct Hq as (Hfront & Hb & Hin & Hw & Hr & Hrest). apply wp_bind, wp_get. case_if; [by destruct (b (_writeStream c))|].
  case_if; bool_to_prop; [by apply wp_ret|]. destruct Hw as [|Hw]; [done|].
  apply wp_bind, wp_write_writeStream; [done..|]. intros n x Hu Hc Hx Hs.
  assert (_sendStreams c <> []) as Hq by (by rewrite Eq). destruct (proj1 Hin) as [Hpos _]. cbn [buf_of buf_i] in Hpos.
  pose proof (wire_moved n x c Hq (conj Hpos (proj1 Hx)) (proj2 Hx) Hs) as Hwire.
  set (c1 := set_transceiver n (set_writeStream (set_i x (_writeStream c)) c)) in *.
  assert (sends c c1) as Hs1 by (etrans; [apply sends_write|apply sends_net]).
  assert ((x = b_end (_writeStream c) \/ writable (MkBuf (b (_writeStream c)) x)) -> sent_ok c c1) as Hsent.
  { intros Hor. split; [done|]. split; [done|]. split; [|done]. unfold queue_ok. cbn. rewrite Eq.
    split; [done|]. split; [done|]. split; [by apply in_buf_move|]. split; [exact Hor|done]. }
  split_and!.
  - intros Hend. apply wp_bind, wp_get, wp_bind, wp_assert; [by apply Z.eqb_eq|]. apply wp_ret.
    refine (conj (Hsent (or_introl Hend)) (conj (fun _ => conj Hend (conj Hb (conj Ht Eq))) Hwire)).
  - intros Hwr. assert (sent_ok c c1) as (_ & Hn1 & Hq1 & Ht1) by (by apply Hsent; right).
    apply wp_bind, wp_scheduleTimeout_write; [done| |]; apply wp_ret; (split; [|by split]).
    + by split.
    + split; [etrans; [done|apply sends_task]|]. split; [done|]. split; [|by destruct Ht1].
      unfold queue_ok in *. cbn in *. by rewrite Eq in *.
  - intros e He Hwr. exact (conj He (conj (Hsent (or_intror Hwr)) Hwire)).
Qed.

Lemma message_write_ok c : conn_ok c -> validated c -> (_state c < StateClosed)%state ->
  op_write (_registered c) = true -> write_task c = false ->
  wp message_write
    (fun done c' => sent_ok c c' /\ (done = true -> i (_writeStream c') = b_end (_writeStream c') /\
       b (_writeStream c') <> [] /\ write_task c' = false /\ _sendStreams c' = _sendStreams c))
    (fun e c' => is_local e = true /\ sent_ok c c') c.
Proof.
  intros. eapply wp_conseq; [by apply message_write_wire|..].
  - by intros d c' (? & ? & _).
  - by intros e c' (? & ? & _).
Qed.
End receive.
