(* ===== verification/ConnectionParse.v ===== *)
(** * Parsing a message keeps the invariant

    [parseMessage] on arbitrary bytes: it faults on none of them, a message
    that is not valid closes a stream connection and is dropped by a datagram
    connection, and the count of dispatches grows by the requests found. *)

From S2P Require Import Prelude Hoare Buffer Layout Protocol Stream Wire Encaps Transceiver.
From S2P Require Import ConnectionData ConnectionSend ConnectionState OrderedMap Connection StreamSpec.
From S2P Require Import ConnectionFrame ConnectionQueue ConnectionInv ConnectionRequests ConnectionOpen ConnectionReceive.

(** A synchronous call reads its reply or throws a local exception. *)
Class ReplyLaws {D E : Type} (RR : ReplyReader D E) : Prop := {
  reply_law (s : BasicStream D E) :
    match outgoing_finished s with Ok _ => True | Throw e => is_local e = true | Fault _ => False end
}.

(** The requests that a message has brought *)
Definition dispatches {D E} (j : @Job D E) : Z := invokeNum j.

Section parse.
Context `{PL : Platform} {D E : Type} {TR : Transceiver} {ST : Settings} {BZ : BZip2} {LW : TransceiverLaws TR}.
Context `{LI : !Limits} {RR : ReplyReader D E} {RL : ReplyLaws RR}.
Local Abbreviation stream := (BasicStream D E).
Local Abbreviation omessage := (@OutgoingMessage D E).
Local Abbreviation conn := (@ConnectionI D E TR).
Local Abbreviation job := (@Job D E).
Implicit Types (c : conn) (j : job).

(** ** What parsing changes *)

Definition handles_to r rh v h1 m1 h2 m2 ev d c : conn :=
  set_readStream r (set_readHeader rh (set_validated v (set_requestsHint h1 (set_requests m1
    (set_asyncRequestsHint h2 (set_asyncRequests m2 (set_calls ev (set_dispatchCount d c)))))))).

Definition handles c c' : Prop :=
  exists r rh v h1 m1 h2 m2 ev d, c' = handles_to r rh v h1 m1 h2 m2 ev d c.

#[export] Instance handles_preorder : PreOrder handles.
Proof.
  split.
  - intros c. exists (_readStream c), (_readHeader c), (_validated c), (_requestsHint c), (_requests c),
      (_asyncRequestsHint c), (_asyncRequests c), (calls c), (_dispatchCount c). by destruct c.
  - intros c1 c2 c3 (?&?&?&?&?&?&?&?&?&->) (r&rh&v&h1&m1&h2&m2&ev&d&->).
    by exists r, rh, v, h1, m1, h2, m2, ev, d.
Qed.

Definition hints_valid c : Prop :=
  valid_hint (_requestsHint c) (_requests c) = true /\ valid_hint (_asyncRequestsHint c) (_asyncRequests c) = true.

(** A connection that is parsing is in order, but for the count. *)
Definition parsing c0 c : Prop := handles c0 c /\ hints_valid c /\ reading_ok c.

Lemma reread_ok r rh v c : conn_ok c -> validated c -> reading_ok (set_readStream r c) ->
  conn_ok (set_readStream r (set_readHeader rh (set_validated v c))).
Proof. intros Hok Hv Hr. unfold validated in Hv. destruct Hok. constructor; cbn in *; try done. intros; lia. Qed.

Lemma parsing_ok c0 c : conn_ok c0 -> validated c0 -> (_state c0 < StateClosed)%state -> parsing c0 c ->
  conn_ok (set_dispatchCount (_dispatchCount c0) c).
Proof.
  intros Hok Hv Hst ((r&rh&v&h1&m1&h2&m2&ev&d&->) & [Hh1 Hh2] & Hr). cbn in Hh1, Hh2.
  pose proof (calls_ok ev c0 Hok) as H1. set (c1 := set_calls ev c0) in *.
  assert (_state c1 <> StateFinished) as Hf by (change (_state c1) with (_state c0); intros Hf; rewrite Hf in Hst; cbn in Hst; lia).
  pose proof (tables_ok h1 m1 h2 m2 c1 H1 Hv Hf Hh1 Hh2) as H2.
  pose proof (reread_ok r rh v _ H2 Hv Hr) as H3. unfold c1 in H3. by destruct c0.
Qed.

Lemma handles_steady c0 c : handles c0 c -> steady c0 (set_dispatchCount (_dispatchCount c0) c).
Proof. intros (?&?&?&?&?&?&?&?&?&->). by split; try done; auto; cbn; lia. Qed.

(** ** Replies *)

Lemma find_reply_ok id c Q F : hints_valid c ->
  (forall call, _requests c !! id = Some call -> Q (inl call) c) ->
  (forall call, _asyncRequests c !! id = Some call -> Q (inr call) c) ->
  (_requests c !! id = None -> _asyncRequests c !! id = None -> F UnknownRequestIdException c) ->
  wp (find_reply id) Q F c.
Proof.
  intros [H1 H2] Hl Hr Hn. unfold find_reply. apply wp_bind, wp_get. rewrite H1, H2. cbn [negb].
  destruct (hint_is (_requestsHint c) id).
  { destruct (_requests c !! id) as [call|] eqn:E1; [by apply Hl|].
    destruct (hint_is (_asyncRequestsHint c) id); destruct (_asyncRequests c !! id) as [call|] eqn:E2;
      solve [by apply Hr|by apply Hn]. }
  destruct (hint_is (_asyncRequestsHint c) id).
  { destruct (_asyncRequests c !! id) as [call|] eqn:E2; [by apply Hr|].
    destruct (_requests c !! id) as [call|] eqn:E1; [by apply Hl|by apply Hn]. }
  destruct (_requests c !! id) as [call|] eqn:E1; [by apply Hl|].
  destruct (_asyncRequests c !! id) as [call|] eqn:E2; [by apply Hr|by apply Hn].
Qed.

(** The hint stays at an entry when an entry is erased. *)
Lemma erase_valid id (m : gmap Z nat) h : valid_hint h m = true ->
  valid_hint (erase_request id m h).2 (erase_request id m h).1 = true.
Proof.
  unfold erase_request, hint_is. cbn. intros Hv. destruct (bool_decide (h = Some id)) eqn:Eh.
  - unfold valid_hint. destruct (next Z.ltb id m) as [k|] eqn:En; [|done]. apply bool_decide_eq_true_2.
    pose proof (least_accepted _ _ _ _ En) as Hlt. pose proof (least_in _ _ _ _ En).
    rewrite lookup_delete_ne; [done|]. intros ->. rewrite Z.ltb_irrefl in Hlt. done.
  - apply bool_decide_eq_false in Eh. unfold valid_hint in *. destruct h as [k|]; [|done].
    apply bool_decide_eq_true in Hv. apply bool_decide_eq_true_2. rewrite lookup_delete_ne; [done|]. congruence.
Qed.

(** ** The two halves of the state *)

Lemma wp_on_conn {A} (m : M conn A) Q F j c :
  wp m (fun a c' => Q a (j, c')) (fun e c' => F e (j, c')) c -> wp (on_conn m) Q F (j, c).
Proof. intros H. by apply wp_on. Qed.

Lemma wp_on_job f Q F j c : Q tt (f j, c) -> wp (on_job f) Q F (j, c).
Proof. done. Qed.

Lemma wp_on_stream {A} (P : A -> Prop) (m : M stream A) Q F j c : reads_as P m -> 0 <= i (job_stream j) ->
  (forall a x, P a -> 0 <= x -> Q a (set_job_stream (set_i x (job_stream j)) j, c)) ->
  (forall e x, is_local e = true -> 0 <= x -> F e (set_job_stream (set_i x (job_stream j)) j, c)) ->
  wp (on_stream m) Q F (j, c).
Proof.
  intros Hm Hi HQ HF. apply wp_on. eapply wp_conseq; [by apply Hm|..].
  - intros a s' [Ha (x & -> & Hx & _)]. by apply HQ.
  - intros e s' [He (x & -> & Hx & _)]. by apply HF.
Qed.

(** The parts of a job that parsing leaves alone *)
Definition same_job j j' : Prop := sentCBs j' = sentCBs j /\ startCB j' = startCB j.

(** A job without requests, while the connection is parsing *)
Definition idle_job c0 j0 (s : job * conn) : Prop :=
  parsing c0 s.2 /\ _dispatchCount s.2 = _dispatchCount c0 /\ invokeNum s.1 = 0 /\ same_job j0 s.1.

(** The job at the end of a message: its requests are in the count. *)
Definition counted_job c0 j0 (s : job * conn) : Prop :=
  parsing c0 s.2 /\ 0 <= invokeNum s.1 < 2 ^ 31 /\
  _dispatchCount s.2 = to_i32 (_dispatchCount c0 + invokeNum s.1) /\ same_job j0 s.1 /\
  (0 < invokeNum s.1 -> _state c0 <> StateClosing).

Lemma idle_counted c0 j0 s : conn_ok c0 -> idle_job c0 j0 s -> counted_job c0 j0 s.
Proof.
  intros Hok (Hp & Hd & Hi & Hj). pose proof (ok_count c0 Hok). split; [done|]. rewrite Hi, Hd.
  split; [lia|]. split; [rewrite to_i32_id; lia|]. split; [done|lia].
Qed.

Lemma parsing_tables h1 (m1 : gmap Z nat) h2 (m2 : gmap Z nat) c0 c : parsing c0 c ->
  valid_hint h1 m1 = true -> valid_hint h2 m2 = true ->
  parsing c0 (set_requestsHint h1 (set_requests m1 (set_asyncRequestsHint h2 (set_asyncRequests m2 c)))).
Proof.
  intros (Hh & _ & Hr) H1 H2. split; [|by split]. etrans; [exact Hh|].
  exists (_readStream c), (_readHeader c), (_validated c), h1, m1, h2, m2, (calls c), (_dispatchCount c). by destruct c.
Qed.

Lemma parsing_calls ev c0 c : parsing c0 c -> parsing c0 (set_calls ev c).
Proof.
  intros (Hh & Hv & Hr). split; [|by split]. etrans; [exact Hh|].
  exists (_readStream c), (_readHeader c), (_validated c), (_requestsHint c), (_requests c),
    (_asyncRequestsHint c), (_asyncRequests c), ev, (_dispatchCount c). by destruct c.
Qed.

Lemma parsing_count d c0 c : parsing c0 c -> parsing c0 (set_dispatchCount d c).
Proof.
  intros (Hh & Hv & Hr). split; [|by split]. etrans; [exact Hh|].
  exists (_readStream c), (_readHeader c), (_validated c), (_requestsHint c), (_requests c),
    (_asyncRequestsHint c), (_asyncRequests c), (calls c), d. by destruct c.
Qed.

Lemma handle_reply_ok c0 j0 s : 0 <= i (job_stream s.1) -> idle_job c0 j0 s ->
  wp handle_reply (fun _ => idle_job c0 j0) (fun e s' => is_local e = true /\ idle_job c0 j0 s') s.
Proof.
  destruct s as [j c]. intros Hi (Hp & Hd & Hn & Hj). unfold handle_reply.
  apply wp_bind, (wp_on_stream (fun _ => True)); [apply read_scalar_safely|done| |].
  2:{ intros e x He _. split; [done|]. by split. }
  intros id x _ _. apply wp_bind, wp_on_job, wp_bind, wp_on_conn. apply find_reply_ok; [apply Hp|..].
  3:{ intros _ _. split; [done|]. by split. }
  - intros call Hcall. apply wp_bind, wp_get. apply wp_bind, wp_on_conn, wp_modify, wp_bind, wp_on_job, wp_bind, wp_lift.
    set (reply := job_stream _). pose proof (reply_law reply) as Hl.
    destruct (outgoing_finished reply) as [[]|e|f]; [| |done].
    + apply wp_on_conn, wp_modify. set (c1 := set_calls _ c).
      destruct (erase_request id (_requests c1) (_requestsHint c1)) as [m h] eqn:Ee.
      assert (valid_hint h m = true) as Hv.
      { pose proof (erase_valid id (_requests c) (_requestsHint c) (proj1 (proj1 (proj2 Hp)))) as Hv.
        change (_requests c1) with (_requests c) in Ee. change (_requestsHint c1) with (_requestsHint c) in Ee.
        by rewrite Ee in Hv. }
      split; [|by split]. replace (set_requestsHint h (set_requests m c1)) with
        (set_requestsHint h (set_requests m (set_asyncRequestsHint (_asyncRequestsHint c1) (set_asyncRequests (_asyncRequests c1) c1))))
        by (by destruct c1).
      apply parsing_tables; [by apply parsing_calls|done|apply Hp].
    + split; [done|]. split; [by apply parsing_calls|by split].
  - intros call Hcall. apply wp_bind, wp_get. apply wp_bind, wp_on_job, wp_bind, wp_on_conn, wp_modify.
    destruct (erase_request id (_asyncRequests c) (_asyncRequestsHint c)) as [m h] eqn:Ee.
    assert (valid_hint h m = true) as Hv.
    { pose proof (erase_valid id (_asyncRequests c) (_asyncRequestsHint c) (proj2 (proj1 (proj2 Hp)))) as Hv. by rewrite Ee in Hv. }
    apply wp_bind, wp_on_conn, wp_modify, wp_on_job. split; [|by split]. apply parsing_calls.
    replace (set_asyncRequestsHint h (set_asyncRequests m c)) with
      (set_requestsHint (_requestsHint c) (set_requests (_requests c) (set_asyncRequestsHint h (set_asyncRequests m c))))
      by (by destruct c).
    apply parsing_tables; [done|apply Hp|done].
Qed.

(** The count of dispatches grows by the requests of the message. *)
Lemma more_dispatches_ok c0 j0 j c n : conn_ok c0 -> parsing c0 c -> _dispatchCount c = _dispatchCount c0 ->
  invokeNum j = n -> 0 <= n < 2 ^ 31 -> same_job j0 j -> _state c0 <> StateClosing ->
  wp (take_adapter;; more_dispatches n) (fun _ => counted_job c0 j0) (fun _ _ => False) (j, c).
Proof.
  intros Hok Hp Hd Hn Hr Hj Hc. unfold take_adapter. apply wp_bind, wp_modify. unfold more_dispatches.
  apply wp_on_conn, wp_modify. split; [by apply parsing_count|]. cbn. rewrite Hn, Hd. split_and!; try done; lia.
Qed.

Lemma handle_request_ok c0 j0 s : conn_ok c0 -> 0 <= i (job_stream s.1) -> idle_job c0 j0 s -> _state c0 <> StateClosing ->
  wp handle_request (fun _ => counted_job c0 j0) (fun e s' => is_local e = true /\ idle_job c0 j0 s') s.
Proof.
  destruct s as [j c]. intros Hok Hi (Hp & Hd & Hn & Hj) Hc. unfold handle_request.
  apply wp_bind, (wp_on_stream (fun _ => True)); [apply read_scalar_safely|done| |].
  2:{ intros e x He _. split; [done|]. by split. }
  intros id x _ _. apply wp_bind, wp_on_job, wp_bind, wp_on_job.
  eapply wp_conseq; [by apply (more_dispatches_ok c0 j0)|done|done].
Qed.

Lemma handle_requestBatch_ok c0 j0 s : conn_ok c0 -> 0 <= i (job_stream s.1) -> idle_job c0 j0 s -> _state c0 <> StateClosing ->
  wp handle_requestBatch (fun _ => counted_job c0 j0) (fun e s' => is_local e = true /\ idle_job c0 j0 s') s.
Proof.
  destruct s as [j c]. intros Hok Hi (Hp & Hd & Hn & Hj) Hc. unfold handle_requestBatch.
  apply wp_bind, (wp_on_stream (in_range Int)); [apply read_scalar_as|done| |].
  2:{ intros e x He _. split; [done|]. by split. }
  intros n x Hn' _. unfold in_range, in_signed in Hn'. cbn in Hn'. case_if; bool_to_prop.
  - apply wp_bind, wp_on_job, wp_throw. split; [done|]. by split.
  - apply wp_bind, wp_on_job. eapply wp_conseq; [apply (more_dispatches_ok c0 j0); try done; lia|done|done].
Qed.

(** ** The message *)

Lemma doUncompress_local (t : stream) :
  match doUncompress t with Ok _ => True | Throw e => is_local e = true | Fault _ => False end.
Proof.
  unfold doUncompress.
  pose proof (read_scalar_safely Int (set_i (Z.of_nat headerSize) t) ltac:(cbn; lia)) as Hr.
  apply wp_elim in Hr as [(n & t' & Hr & _)|(e & t' & Hr & He & _)]; unfold read_Int; rewrite Hr; [|done].
  cbn [mbind result_bind]. case_if; [done|].
  assert (wp (resize (Z.to_nat n)) (fun _ _ => True) (fun e _ => is_local e = true) (new_stream (D:=D) (E:=E) false)) as Hz
    by (by apply wp_resize).
  apply wp_elim in Hz as [([] & u & Hz & _)|(e & u & Hz & He)]; rewrite Hz; [|done]. cbn [mbind result_bind].
  by destruct (bz_decompress _ _).
Qed.

Lemma idle_job_stream t c0 j0 j c : idle_job c0 j0 (j, c) -> idle_job c0 j0 (set_job_stream t j, c).
Proof. intros (Hp & Hd & Hn & Hj). by split. Qed.

Lemma open_message_ok c0 j0 s : idle_job c0 j0 s ->
  wp open_message (fun _ s' => idle_job c0 j0 s' /\ 0 <= i (job_stream s'.1)) (fun e s' => is_local e = true /\ idle_job c0 j0 s') s.
Proof.
  destruct s as [j c]. intros Hs. unfold open_message. apply wp_bind, wp_on, wp_modify. cbn [fst snd].
  apply wp_bind, (wp_on_stream (fun _ => True)); [apply read_Byte_safely|cbn; lia| |].
  2:{ intros e x He _. split; [done|]. by apply idle_job_stream, idle_job_stream. }
  intros messageType x _ Hx. apply wp_bind, (wp_on_stream (fun _ => True)); [apply read_Byte_safely|done| |].
  2:{ intros e y He _. split; [done|]. by do 3 apply idle_job_stream. }
  intros compress y _ Hy. apply wp_bind, wp_on_job.
  assert (idle_job c0 j0 (set_compress compress (set_job_stream (set_i y (job_stream (set_job_stream (set_i x
    (job_stream (set_job_stream (set_i 8 (job_stream j)) j))) (set_job_stream (set_i 8 (job_stream j)) j))))
    (set_job_stream (set_i x (job_stream (set_job_stream (set_i 8 (job_stream j)) j))) (set_job_stream (set_i 8 (job_stream j)) j))), c)) as Hj1 by exact Hs.
  set (j1 := set_compress compress _) in *. clearbody j1.
  assert (forall j', idle_job c0 j0 (j', c) -> wp (on_stream (modify (set_i (Z.of_nat headerSize)));; mret messageType)
    (fun _ s' => idle_job c0 j0 s' /\ 0 <= i (job_stream s'.1)) (fun e s' => is_local e = true /\ idle_job c0 j0 s') (j', c)) as Hend.
  { intros j' Hj'. apply wp_bind, wp_on, wp_modify, wp_ret. cbn [fst snd]. split; [by apply idle_job_stream|cbn; lia]. }
  apply wp_bind, wp_when; intros _; [|by apply Hend]. case_if; [|by apply wp_throw].
  apply wp_bind, wp_get, wp_bind, wp_lift. cbn [fst]. pose proof (doUncompress_local (job_stream j1)) as Hu.
  destruct (doUncompress _) as [u|e|f]; [|done|done]. apply wp_on, wp_modify. apply Hend. by apply idle_job_stream.
Qed.

(** What parsing a message leaves: the connection parses still, or the message
    had no requests and has closed it. *)
Definition parsed c0 j0 (s : job * conn) : Prop :=
  counted_job c0 j0 s \/
  exists ex c1, idle_job c0 j0 (s.1, c1) /\ is_local ex = true /\ closes ex c1 s.2.

Lemma parsing_close ex c0 j0 j c Q F : (_state c0 < StateClosed)%state -> idle_job c0 j0 (j, c) -> is_local ex = true ->
  (forall s', parsed c0 j0 s' -> Q tt s') -> wp (on_conn (setState_ex StateClosed ex)) Q F (j, c).
Proof.
  intros Hst Hj Hex HQ. apply wp_on_conn.
  assert (_state c = _state c0) as Est by (by destruct Hj as [[(?&?&?&?&?&?&?&?&?&Hc) _] _]; cbn in Hc; rewrite Hc).
  destruct (setState_ex_closed_eq ex c) as (c' & Hs & Hc).
  { rewrite Est. intros Hf. rewrite Hf in Hst. cbn in Hst. lia. }
  eapply wp_eq; [exact Hs|]. apply HQ. right. by exists ex, c.
Qed.

Lemma handle_message_ok t c0 j0 s : conn_ok c0 -> (_state c0 < StateClosed)%state -> 0 <= i (job_stream s.1) -> idle_job c0 j0 s ->
  wp (handle_message t) (fun _ => parsed c0 j0) (fun e s' => is_local e = true /\ idle_job c0 j0 s') s.
Proof.
  destruct s as [j c]. intros Hok Hst Hi Hs. unfold handle_message. apply wp_bind, wp_get. cbn [snd].
  assert (_state c = _state c0) as Est by (by destruct Hs as [[(?&?&?&?&?&?&?&?&?&Hc) _] _]; cbn in Hc; rewrite Hc).
  assert (forall s', idle_job c0 j0 s' -> parsed c0 j0 s') as Hidle by (intros s' Hs'; left; by apply idle_counted).
  case_if.
  { apply wp_when; intros _; [|by apply Hidle]. by apply (parsing_close _ c0 j0). }
  rewrite Est. case_if.
  { apply wp_when; intros Hc; [|by apply Hidle]. bool_to_prop. apply bool_decide_eq_false in Hc.
    eapply wp_conseq; [by apply (handle_request_ok c0 j0)|by left|done]. }
  case_if.
  { apply wp_when; intros Hc; [|by apply Hidle]. bool_to_prop. apply bool_decide_eq_false in Hc.
    eapply wp_conseq; [by apply (handle_requestBatch_ok c0 j0)|by left|done]. }
  case_if.
  { eapply wp_conseq; [by apply (handle_reply_ok c0 j0)|intros; by apply Hidle|done]. }
  case_if; [by apply wp_ret, Hidle|by apply wp_throw].
Qed.

Lemma parseMessage_ok j c : conn_ok c -> validated c -> (_state c < StateClosed)%state ->
  i (_readStream c) = b_end (_readStream c) -> invokeNum j = 0 ->
  wp parseMessage (fun _ => parsed c j) (fun _ _ => False) (j, c).
Proof.
  intros Hok Hv Hst Hend Hj. unfold parseMessage. pose proof (ok_reading c Hok Hst) as (_ & _ & Hm).
  apply wp_bind, wp_get, wp_bind, wp_assert. { apply andb_true_iff. split; by apply Z.ltb_lt. }
  apply wp_bind, wp_modify. cbn [fst snd]. destruct (swap (_readStream c) (job_stream j)) as [r t] eqn:Esw.
  assert (messageSizeMax r = instance_messageSizeMax) as Hr by (unfold swap in Esw; injection Esw as <- _; exact Hm).
  pose proof (swap_b (_readStream c) (job_stream j)) as (_ & Hb & _ & Hi). rewrite Esw in Hb, Hi. cbn [snd] in Hb, Hi.
  apply wp_bind, wp_on_conn, wp_reset_readStream; [done|].
  apply wp_bind, wp_get, wp_bind, wp_assert.
  { apply Z.eqb_eq. cbn [fst job_stream set_job_stream]. rewrite Hi, Hend. unfold b_end, b_size. by rewrite Hb. }
  apply wp_bind, wp_on_conn, wp_modify. set (c1 := set_validated true _). set (j1 := set_job_stream t j).
  assert (idle_job c j (j1, c1)) as Hidle.
  { split; [|by split]. split; [|split; [exact (ok_hints c Hok Hst)|]].
    - exists (set_i 0 (set_b (ByteSeq.resize headerSize (b r)) r)), true, true, (_requestsHint c), (_requests c),
        (_asyncRequestsHint c), (_asyncRequests c), (calls c), (_dispatchCount c). unfold c1. by destruct c.
    - apply (fresh_reading (set_i 0 (set_b (ByteSeq.resize headerSize (b r)) r)) c);
        [apply ByteSeq.length_resize|done|done]. }
  apply wp_try, wp_bind. eapply (wp_conseq _ (fun _ => _) _ (fun e s' => is_local e = true /\ idle_job c j s')).
  - by apply (open_message_ok c j).
  - intros t' [j2 c2] [Hs Hi2]. eapply wp_conseq; [by apply (handle_message_ok t' c j)|done|].
    intros e [j3 c3] [He Hs3]. rewrite He. case_if; [|by apply (parsing_close e c j)].
    apply wp_ret. left. by apply idle_counted.
  - intros e [j3 c3] [He Hs3]. rewrite He. case_if; [|by apply (parsing_close e c j)].
    apply wp_ret. left. by apply idle_counted.
Qed.
End parse.
