(* ===== verification/ConnectionNext.v ===== *)
(** * Sending the queue keeps the invariant

    [sendNextMessage] takes the message at the front of the queue, which is
    sent, and goes on with the rest until the socket is full or the queue is
    empty. It ends within as many rounds as there are messages. *)

From S2P Require Import Prelude Hoare Buffer Layout Protocol Stream Wire Encaps Transceiver.
From S2P Require Import ConnectionData ConnectionSend ConnectionState OrderedMap Connection StreamSpec.
From S2P Require Import ConnectionFrame ConnectionQueue ConnectionInv ConnectionRequests ConnectionOpen ConnectionReceive ConnectionParse.

Section next.
Context `{PL : Platform} {D E : Type} {TR : Transceiver} {ST : Settings} {BZ : BZip2} {LW : TransceiverLaws TR}.
Context `{LI : !Limits} {RR : ReplyReader D E}.
Local Abbreviation stream := (BasicStream D E).
Local Abbreviation omessage := (@OutgoingMessage D E).
Local Abbreviation conn := (@ConnectionI D E TR).
Local Abbreviation job := (@Job D E).
Implicit Types (c : conn) (j : job) (m : omessage).

(** The front message is in [_writeStream], and sent. *)
Definition front_sent c : Prop := exists m rest, _sendStreams c = m :: rest /\ b (om_stream m) = [] /\
  i (_writeStream c) = b_end (_writeStream c) /\
  ((_state c < StateClosed)%state -> net_ready c /\ op_write (_registered c) = true /\ Forall (waiting (_compressionLevel c)) rest).

(** What the loop leaves: the callbacks of the messages that were sent, and
    the queue. *)
Definition sending j c (s : job * conn) : Prop :=
  (exists cbs, s.1 = set_sentCBs cbs j) /\ sends c s.2 /\ (usable (_transceiver c) -> usable (_transceiver s.2)) /\
  write_task s.2 = false /\ _registered s.2 = _registered c.

Definition sentNext j c (finished : bool) (s : job * conn) : Prop :=
  (exists cbs, s.1 = set_sentCBs cbs j) /\
  if finished then sending j c s /\ net_ready s.2 /\ _sendStreams s.2 = [] /\ b (_writeStream s.2) = [] /\
    (_state c < StateClosed)%state /\ sent (_transceiver s.2) = sent (_transceiver c) ++ behind_front c
  else if (_state c <? StateClosed)%state then sent_ok c s.2 /\ wire s.2 = sent (_transceiver c) ++ behind_front c
  else sending j c s.

Lemma sending_refl j c : write_task c = false -> sending j c (j, c).
Proof. intros Ht. split; [|by split_and!; try done; apply sends_refl]. exists (sentCBs j). by destruct j. Qed.

Lemma sends_state c c' : sends c c' -> _state c' = _state c /\ _compressionLevel c' = _compressionLevel c /\
  _dispatchCount c' = _dispatchCount c /\ _shutdownInitiated c' = _shutdownInitiated c.
Proof. by intros (?&?&?&?&?&?&?&?&->&_). Qed.

(** The front message is done with: the stream goes back to it, its owner is
    told, and it leaves the queue. *)
Lemma pop_front {A} j c m rest (k : M (job * conn) A) Q F :
  _sendStreams c = m :: rest -> b (om_stream m) = [] -> write_task c = false ->
  (forall cbs c1, sending j c (set_sentCBs cbs j, c1) -> _sendStreams c1 = rest -> b (_writeStream c1) = [] ->
     _transceiver c1 = _transceiver c -> wp k Q F (set_sentCBs cbs j, c1)) ->
  wp (let '(m, c) := swap_writeStream m c in
      on_conn (modify (fun _ => c));;
      invoke ← on_conn (message_sent m true);
      when invoke (on_job (fun j => set_sentCBs (sentCBs j ++ [om_target m]) j));;
      on_conn (modify (set_sendStreams rest));;
      k) Q F (j, c).
Proof.
  intros Hq Hb Ht HQ. unfold swap_writeStream.
  pose proof (swap_b (_writeStream c) (om_stream m)) as (Hw & _). destruct (swap _ _) as [w t] eqn:Es. cbn [fst] in Hw.
  apply wp_bind, wp_on_conn, wp_modify, wp_bind, wp_on_conn. set (c1 := set_writeStream w c). set (m1 := set_om_stream t m).
  destruct (message_sent_eq m1 true c1) as [ev He]. eapply wp_eq; [exact He|]. set (c2 := set_calls _ c1).
  assert (forall cbs, wp k Q F (set_sentCBs cbs j, set_sendStreams rest c2)) as Hend.
  { intros cbs. apply HQ; [|done|by rewrite <- Hb, <- Hw|done]. split; [by exists cbs|]. split; [|done].
    etrans; [apply (sends_write w)|]. etrans; [apply (sends_call ev)|]. apply sends_queue. }
  apply wp_bind, wp_when; intros Hi.
  - apply wp_on_job, wp_bind, wp_on_conn, wp_modify, Hend.
  - apply wp_bind, wp_on_conn, wp_modify. specialize (Hend (sentCBs j)). by destruct j.
Qed.

(** The next message goes to the front. *)
Lemma push_front j c m rest (s : stream) z (m' : omessage) : _sendStreams c = m :: rest -> b (_writeStream c) = [] -> write_task c = false ->
  i s = 0 -> frame_bytes (_compressionLevel c) (om_compress m) (b (om_stream m)) = Ok (b s, z) ->
  b (om_stream m') = b s -> i (om_stream m') = 0 ->
  let c' := (let '(m, c) := swap_writeStream m' c in set_sendStreams (m :: rest) c) in
  sending j c (j, c') /\ _transceiver c' = _transceiver c /\ b (_writeStream c') = b s /\ i (_writeStream c') = 0 /\
  exists m2, _sendStreams c' = m2 :: rest /\ b (om_stream m2) = [].
Proof.
  intros Hq Hb Ht Hi Hf Hb' Hi'. unfold swap_writeStream. pose proof (swap_b (_writeStream c) (om_stream m')) as (H1 & H2 & H3 & H4).
  destruct (swap _ _) as [w t] eqn:Es. cbn [fst snd] in *. cbn zeta.
  split.
  { split; [exists (sentCBs j); by destruct j|]. split; [|done]. etrans; [apply (sends_write w)|apply sends_queue]. }
  split; [done|]. cbn. split; [by rewrite H1, Hb'|]. split; [by rewrite H3|]. exists (set_om_stream t m'). split; [done|].
  cbn. by rewrite H2.
Qed.

(** Sending [c1] after [c] has sent its front *)
Lemma sentNext_trans j c c1 cbs finished s : sending j c (set_sentCBs cbs j, c1) ->
  sent (_transceiver c1) ++ behind_front c1 = sent (_transceiver c) ++ behind_front c ->
  sentNext (set_sentCBs cbs j) c1 finished s -> sentNext j c finished s.
Proof.
  intros (_ & Hs & Hu & Ht & Hr) Hw [[cbs' Hj] H].
  assert (sends c s.2 -> s.1 = set_sentCBs cbs' (set_sentCBs cbs j) -> exists cbs, s.1 = set_sentCBs cbs j) as Hcbs.
  { intros _ ->. by exists cbs'. }
  destruct (sends_state _ _ Hs) as (Est & _ & _ & _). cbn [snd] in *.
  assert (sending (set_sentCBs cbs j) c1 s -> sending j c s) as Htr.
  { intros (_ & Hs' & Hu' & Ht' & Hr'). split; [by exists cbs'|]. split; [by etrans|]. split; [auto|]. split; [done|congruence]. }
  split; [by exists cbs'|]. rewrite <- Est. destruct finished.
  - destruct H as (H1 & H2 & H3 & H4 & H5 & H6). split; [by apply Htr|]. split; [done|]. split; [done|]. split; [done|].
    split; [done|congruence].
  - case_if; [|by apply Htr]. destruct H as [(H1 & H2) H3]. split; [|congruence]. split; [by etrans|done].
Qed.

Definition loop_failed j c e (s : job * conn) : Prop :=
  is_local e = true /\ (_state c < StateClosed)%state /\ net_ready s.2 /\ sending j c s.

Lemma loop_failed_trans j c c1 cbs e s : sending j c (set_sentCBs cbs j, c1) ->
  loop_failed (set_sentCBs cbs j) c1 e s -> loop_failed j c e s.
Proof.
  intros (_ & Hs & Hu & Ht & Hr) (He & Hst & Hn & (cbs' & Hj) & Hs' & Hu' & Ht' & Hr'). cbn [snd] in *.
  destruct (sends_state _ _ Hs) as (Est & _ & _ & _). split; [done|]. split; [by rewrite <- Est|]. split; [done|].
  split; [by exists cbs'|]. split; [by etrans|]. split; [auto|]. split; [done|congruence].
Qed.

Lemma sending_trans j c c1 c2 cbs : sending j c (set_sentCBs cbs j, c1) -> sends c1 c2 ->
  (usable (_transceiver c1) -> usable (_transceiver c2)) -> write_task c2 = false -> _registered c2 = _registered c1 ->
  sending j c (set_sentCBs cbs j, c2).
Proof.
  intros (_ & Hs & Hu & Ht & Hr) Hs' Hu' Ht' Hr'. cbn [snd] in *. split; [by exists cbs|]. split; [by etrans|].
  split; [auto|]. split; [done|]. cbn [snd]. congruence.
Qed.

Lemma sendNext_loop_ok fuel : forall j c, front_sent c -> write_task c = false -> tasks_ok c ->
  (length (_sendStreams c) <= fuel)%nat ->
  wp (sendNext_loop fuel) (sentNext j c) (loop_failed j c) (j, c).
Proof.
  induction fuel as [|fuel IH]; intros j c (m & rest & Hq & Hb & Hi & Hok) Ht Htk Hfuel.
  { rewrite Hq in Hfuel. cbn in Hfuel. lia. }
  cbn [sendNext_loop]. apply wp_bind, wp_get. cbn [snd]. rewrite Hq.
  apply pop_front; [done..|]. intros cbs c1 Hs1 Hq1 Hw1 Hn1.
  destruct (sends_state _ _ (proj1 (proj2 Hs1))) as (Est & Elv & _ & _). cbn [snd] in Est, Elv.
  assert (_registered c1 = _registered c) as Ereg by apply Hs1. assert (write_task c1 = false) as Ht1 by apply Hs1.
  apply wp_bind, wp_get. cbn [snd]. case_if; bool_to_prop.
  { apply wp_ret. split; [by exists cbs|]. rewrite <- Est. rewrite (proj2 (Z.ltb_ge _ _)) by done. done. }
  assert (_state c < StateClosed)%state as Hlt by (by rewrite <- Est). destruct (Hok Hlt) as (Hnet & Hreg & Hrest).
  assert (net_ready c1) as Hnet1 by (unfold net_ready; by rewrite Hn1).
  destruct rest as [|m1 rest1].
  { apply wp_ret. split; [by exists cbs|]. split; [done|]. split; [done|]. split; [done|]. split; [done|]. split; [done|].
    cbn [snd]. unfold behind_front. rewrite Hn1, Hq. cbn. by rewrite app_nil_r. }
  apply Forall_cons in Hrest as [Hm1 Hrest1]. destruct Hm1 as [Hnull Hm1].
  apply wp_bind, wp_assert; [by apply Z.eqb_eq|]. apply wp_bind, wp_lift. rewrite Elv.
  pose proof (frame_bytes_of (_compressionLevel c) m1) as Hf. unfold sendable in Hm1.
  destruct (frame (_compressionLevel c) m1) as [[s z]|e|f].
  2:{ split; [by apply Hf|]. split; [done|]. by split. }
  2:{ by rewrite Hf in Hm1. }
  destruct Hf as [Hfb Hi0]. pose proof (frame_bytes_nonempty _ _ _ _ _ Hfb) as Hne. cbn [fst snd].
  set (m2 := if z then _ else _).
  assert (b (om_stream (set_om_stream (set_i 0 (om_stream m2)) m2)) = b s) as Hb2 by (by destruct z).
  destruct (push_front (set_sentCBs cbs j) c1 m1 rest1 s z (set_om_stream (set_i 0 (om_stream m2)) m2) Hq1 Hw1 Ht1 Hi0)
    as (Hs2 & Hn2 & Hb3 & Hi3 & m3 & Hq3 & Hb4); [by rewrite Elv|done|done|].
  apply wp_bind, wp_on_conn, wp_modify. set (c2 := let '(m, c) := swap_writeStream _ c1 in _) in *.
  destruct (sends_state _ _ (proj1 (proj2 Hs2))) as (Est2 & Elv2 & _ & _). cbn [snd] in Est2, Elv2.
  apply wp_bind, wp_get. cbn [snd]. apply wp_bind, wp_assert; [by rewrite Hi3|].
  assert (net_ready c2) as Hnet2 by (unfold net_ready; by rewrite Hn2).
  assert (buf_of (_writeStream c2) = MkBuf (b s) 0) as Hbuf by (unfold buf_of; by rewrite Hb3, Hi3).
  rewrite Hfb in Hm1.
  assert (i (_writeStream c2) <> b_end (_writeStream c2)) as Hlong.
  { rewrite Hi3. unfold b_end, b_size. rewrite Hb3. destruct (b s); [done|cbn; lia]. }
  rewrite (proj2 (Z.eqb_neq _ _) Hlong). apply wp_bind, wp_on_conn, wp_write_writeStream; [done|by rewrite Hbuf; apply Hm1..|].
  intros n x Hu Hc Hx Hsent. rewrite Hbuf, Hi3, Hn2, Hn1 in Hsent. rewrite Hi3 in Hx.
  set (c3 := set_transceiver n (set_writeStream (set_i x (_writeStream c2)) c2)).
  assert (b_end (_writeStream c2) = b_end s) as Hlen by (unfold b_end, b_size; by rewrite Hb3). rewrite Hlen in *.
  assert (sends c1 c3) as Hs3.
  { etrans; [apply Hs2|]. etrans; [apply sends_write|apply sends_net]. }
  assert (sending j c (set_sentCBs cbs j, c3)) as Hsd.
  { apply (sending_trans j c c1); [done|done|done|apply Hs2|apply Hs2]. }
  assert (behind_front c = b s ++ concat (framed (_compressionLevel c) <$> rest1)) as Htodo.
  { unfold behind_front. rewrite Hq. cbn. unfold framed at 1. by rewrite Hfb. }
  assert (_compressionLevel c3 = _compressionLevel c) as Elv3 by (change (_compressionLevel c3) with (_compressionLevel c2); congruence).
  assert (behind_front c3 = concat (framed (_compressionLevel c) <$> rest1)) as Htodo3.
  { unfold behind_front. rewrite Elv3. change (_sendStreams c3) with (_sendStreams c2). by rewrite Hq3. }
  assert (op_write (_registered c3) = true) as Hreg3.
  { destruct Hs2 as (_ & _ & _ & _ & Hr2). cbn [snd] in Hr2. change (_registered c3) with (_registered c2). congruence. }
  assert (tasks_ok c3) as Htk3.
  { split.
    - assert (write_task c3 = false) as Hw3 by apply Hs2. by rewrite Hw3.
    - destruct Hs3 as (?&?&?&?&?&?&?&?&->&_). destruct Hs1 as (_ & (?&?&?&?&?&?&?&?&Hc1&_) & _). cbn in Hc1. subst c1. apply Htk. }
  assert (wire c3 = sent (_transceiver c) ++ behind_front c) as Hwire.
  { unfold wire, backlog. change (_sendStreams c3) with (_sendStreams c2). rewrite Hq3, Htodo3, Htodo.
    change (_transceiver c3) with n. rewrite Hsent, <- app_assoc. f_equal. rewrite app_assoc. f_equal.
    change (between (buf_of (_writeStream c3)) (i (_writeStream c3)) (b_end (_writeStream c3))) with
      (between (MkBuf (b (_writeStream c2)) x) x (b_end (_writeStream c2))).
    rewrite Hb3, Hlen. by apply between_whole. }
  assert (_sendStreams c3 = m3 :: rest1) as Hq4 by exact Hq3. assert (write_task c3 = false) as Ht3 by apply Hsd.
  assert (forall c', sends c c' -> _sendStreams c' = m3 :: rest1 -> _writeStream c' = _writeStream c3 ->
    _transceiver c' = n -> op_write (_registered c') = true -> tasks_ok c' -> _compressionLevel c' = _compressionLevel c ->
    writable (MkBuf (b s) x) -> sent_ok c c' /\ wire c' = sent (_transceiver c) ++ behind_front c) as Hwait.
  { intros c' Hs' Hq' Hw' Hn' Hr' Ht' Hl' Hwr. split.
    - split; [done|]. split; [by split; rewrite Hn'|]. split; [|done]. unfold queue_ok. rewrite Hq', Hw'.
      split; [done|]. change (b (_writeStream c3)) with (b (_writeStream c2)). rewrite Hb3. split; [done|].
      split; [|split; [right; unfold buf_of; change (b (_writeStream c3)) with (b (_writeStream c2)); by rewrite Hb3|]].
      + apply in_buf_move; [by rewrite Hbuf; apply Hm1|by rewrite Hi3, Hlen].
      + split; [done|]. by rewrite Hl'.
    - rewrite <- Hwire. unfold wire, backlog, behind_front. by rewrite Hq', Hw', Hn', Hl', Hq4, Elv3. }
  split_and!.
  - intros Hend. cbn [negb]. eapply wp_conseq; [apply IH; [|done|done|]|..].
    + exists m3, rest1. split; [done|]. split; [done|]. split; [exact (eq_trans Hend (eq_sym Hlen))|]. intros _.
      split; [done|]. split; [done|]. by rewrite Elv3.
    + rewrite Hq4. rewrite Hq in Hfuel. cbn in *. lia.
    + intros finished s' Hs'. apply (sentNext_trans j c c3 cbs); [done| |done]. rewrite <- Hwire.
      unfold wire, backlog. rewrite Hq4. change (i (_writeStream c3)) with x.
      change (b_end (_writeStream c3)) with (b_end (_writeStream c2)). by rewrite Hlen, Hend, between_nil.
    + intros e s' Hs'. by apply (loop_failed_trans j c c3 cbs).
  - intros Hwr. cbn [negb]. rewrite Hb3 in Hwr. apply wp_bind, wp_on_conn.
    apply wp_scheduleTimeout_write; [done| |]; apply wp_ret; (split; [by exists cbs|]); rewrite (proj2 (Z.ltb_lt _ _)) by done.
    + by apply Hwait; try apply Hsd.
    + apply Hwait; try done; [etrans; [apply Hsd|apply sends_task]|]. split; [done|apply Htk3].
  - intros e He _. split; [done|]. by split.
Qed.

(** What [sendNextMessage] leaves: the connection may go on sending, or it is
    closed because of an error. *)
Definition sentAll j c (s : job * conn) : Prop :=
  (exists cbs, s.1 = set_sentCBs cbs j) /\
  if (_state c <? StateClosed)%state then
    (sent_ok c s.2 /\ wire s.2 = sent (_transceiver c) ++ behind_front c) \/
    (exists e c1, is_local e = true /\ net_ready c1 /\ sending j c (s.1, c1) /\ closes e c1 s.2)
  else sending j c s.

Lemma sendNextMessage_ok j c : front_sent c -> b (_writeStream c) <> [] -> write_task c = false -> tasks_ok c ->
  wp sendNextMessage (fun _ => sentAll j c) (fun _ _ => False) (j, c).
Proof.
  intros Hf Hb Ht Htk. pose proof Hf as (m & rest & Hq & _ & Hi & _). unfold sendNextMessage.
  apply wp_bind, wp_get. cbn [snd]. apply wp_bind, wp_assert; [by rewrite Hq|].
  apply wp_bind, wp_assert. { rewrite (proj2 (Z.eqb_eq _ _) Hi). by destruct (b (_writeStream c)). }
  apply wp_bind, wp_try. eapply wp_conseq; [by apply sendNext_loop_ok|..].
  - intros finished [j1 c1] [Hj H]. destruct finished; cbn [snd fst] in *.
    2:{ apply wp_ret. split; [done|]. case_if; [by left|done]. }
    destruct H as (Hs & Hn & Hq1 & Hw1 & Hlt & Hsent). unfold when at 1.
    apply wp_bind, wp_get. cbn [snd]. apply wp_bind, wp_assert; [by rewrite Hw1|]. apply wp_bind, wp_on_conn, wp_modify.
    set (c2 := set_registered _ c1).
    assert (sentAll j c (j1, c2)) as Hend.
    { split; [done|]. rewrite (proj2 (Z.ltb_lt _ _)) by done. left. cbn [snd]. split.
      - split; [etrans; [apply Hs|]; apply sends_interest; cbn; by rewrite andb_true_r, orb_false_r|].
        split; [done|]. split; [|].
        + unfold queue_ok. cbn. rewrite Hq1, Hw1, andb_false_r. split; [done|]. split; [done|]. apply Hs.
        + assert (tasks_ok c1) as Htk1; [|exact Htk1]. split; [assert (write_task c1 = false) as Hw0 by apply Hs; by rewrite Hw0|].
          destruct Hs as (_ & (?&?&?&?&?&?&?&?&Hc1&_) & _). cbn in Hc1. subst c1. apply Htk.
      - unfold wire, backlog. cbn. rewrite Hq1, app_nil_r. exact Hsent. }
    apply wp_when; intros _; [|done]. by apply wp_on_conn, wp_no_close_timeout.
  - intros e [j1 c1] (He & Hlt & Hn & Hs). rewrite He. apply wp_bind, wp_on_conn. cbn [snd] in *.
    destruct (sends_state _ _ (proj1 (proj2 Hs))) as (Est & _). cbn [snd] in Est.
    destruct (setState_ex_closed_eq e c1) as (c2 & Hs2 & Hc2).
    { rewrite Est. intros Hfin. rewrite Hfin in Hlt. cbn in Hlt. lia. }
    eapply wp_eq; [exact Hs2|]. apply wp_ret. split; [apply Hs|]. rewrite (proj2 (Z.ltb_lt _ _)) by done.
    right. exists e, c1. by split.
Qed.
End next.
