(* ===== verification/ConnectionMessage.v ===== *)
(** * message keeps the invariant

    What a thread of the pool does with a connection whose socket is ready:
    it validates the connection, or reads, parses and writes messages. *)

From S2P Require Import Prelude Hoare Buffer Layout Protocol Stream Wire Encaps Transceiver.
From S2P Require Import ConnectionData ConnectionSend ConnectionState OrderedMap Connection StreamSpec.
From S2P Require Import ConnectionFrame ConnectionQueue ConnectionInv ConnectionRequests ConnectionOpen.
From S2P Require Import ConnectionLife ConnectionReceive ConnectionParse ConnectionNext.

Section message.
Context `{PL : Platform} {D E : Type} {TR : Transceiver} {ST : Settings} {BZ : BZip2} {LW : TransceiverLaws TR}.
Context `{LI : !Limits} {RR : ReplyReader D E} {RL : ReplyLaws RR}.
Local Abbreviation stream := (BasicStream D E).
Local Abbreviation omessage := (@OutgoingMessage D E).
Local Abbreviation conn := (@ConnectionI D E TR).
Local Abbreviation job := (@Job D E).
Implicit Types (c : conn) (j : job) (m : omessage).

(** The selector reports operations that it watches. *)
Definition ready (op : SocketOperation) c : Prop :=
  (op_read op = true -> op_read (_registered c) = true) /\ (op_write op = true -> op_write (_registered c) = true) /\
  op_read op || op_write op = true.

(** ** The timeouts *)

Definition times_to rt rts wt wts c : conn :=
  set_read_task rt (set_readTimeoutScheduled rts (set_write_task wt (set_writeTimeoutScheduled wts c))).

Lemma times_ok rt rts wt wts c : conn_ok c -> (rt = true -> read_task c = true /\ rts = true) ->
  (wt = true -> write_task c = true /\ wts = true) -> conn_ok (times_to rt rts wt wts c).
Proof.
  intros Hok Hr Hw. destruct Hok. constructor; cbn in *; try done.
  - intros Hy. destruct (ok_young Hy). constructor; cbn; try done; intros Hx; [by apply young_write_task, Hw|by apply young_read_task, Hr].
  - intros H1 H2. specialize (ok_queue H1 H2). unfold queue_ok in *. cbn. destruct (_sendStreams c); [|done].
    destruct ok_queue as (Hq1 & Hq2 & Hq3). split; [done|]. split; [done|]. destruct wt; [|done]. by destruct (Hw eq_refl); congruence.
  - split; cbn; intros Hx; [by apply Hw|by apply Hr].
Qed.

Lemma times_steady rt rts wt wts c : moves c (times_to rt rts wt wts c).
Proof. by split; try done; auto; cbn; lia. Qed.

Lemma unscheduleTimeout_eq op c : tasks_ok c -> exists rts wts, unscheduleTimeout op c =
  (Ok tt, times_to (if op_read op then false else read_task c) rts (if op_write op then false else write_task c) wts c) /\
  (op_read op = false -> rts = _readTimeoutScheduled c) /\ (op_write op = false -> wts = _writeTimeoutScheduled c).
Proof.
  intros [Hw Hr].
  exists (if op_read op && _readTimeoutScheduled c then false else _readTimeoutScheduled c),
    (if op_write op && _writeTimeoutScheduled c then false else _writeTimeoutScheduled c). split.
  - unfold unscheduleTimeout. rewrite bind_get. unfold when. destruct c; cbn in *.
    destruct (op_read op), (op_write op), _readTimeoutScheduled, _writeTimeoutScheduled, read_task, write_task;
      cbn; try done; exfalso; naive_solver.
  - by split; intros ->.
Qed.

Lemma unscheduleTimeout_ok op c Q F : conn_ok c ->
  (forall rt rts wt wts, let c' := times_to rt rts wt wts c in conn_ok c' ->
     (op_read op = true -> rt = false) -> (op_write op = true -> wt = false) ->
     (read_task c = false -> rt = false) -> (write_task c = false -> wt = false) -> Q tt c') ->
  wp (unscheduleTimeout op) Q F c.
Proof.
  intros Hok HQ. destruct (ok_tasks c Hok) as [Hw Hr].
  destruct (unscheduleTimeout_eq op c (conj Hw Hr)) as (rts & wts & Heq & Hrts & Hwts).
  eapply wp_eq; [exact Heq|]. apply HQ.
  - apply times_ok; [done|..]; destruct (op_read op), (op_write op); try done; intros Hx; (split; [done|]).
    1,2: rewrite Hrts by done; auto. 1,2: rewrite Hwts by done; auto.
  - by intros ->.
  - by intros ->.
  - intros ->. by destruct (op_read op).
  - intros ->. by destruct (op_write op).
Qed.

(** ** Validation *)

(** What [message] leaves before it handles an exception: the connection is in
    order, but for what it was reading. *)
Definition failing c e c' : Prop :=
  is_local e = true /\ unread c' /\ moves c c' /\ _dispatchCount c' = _dispatchCount c /\
  (_state c' < StateClosed)%state /\ (_state c' = StateNotInitialized -> is_SocketException e = true).

Lemma failing_of c e c' : is_local e = true -> conn_ok c' -> moves c c' -> (_state c' < StateClosed)%state ->
  (_state c' = StateNotInitialized -> is_SocketException e = true) -> failing c e c'.
Proof. intros He Hok Hm Hst Hs. split; [done|]. split; [by apply unread_of|]. split; [done|]. split; [apply Hm|done]. Qed.

Lemma failing_trans c c1 e c' : moves c c1 -> failing c1 e c' -> failing c e c'.
Proof.
  intros Hm (He & Hun & Hm' & Hd & H). split; [done|]. split; [done|]. split; [by etrans|]. split; [|done].
  by rewrite Hd, (mv_count _ _ Hm).
Qed.

Lemma message_validate_ok op j c : conn_ok c -> (_state c <= StateNotValidated)%state -> idle op c ->
  wp (message_validate op)
    (fun (done : bool) s => conn_ok s.2 /\ moves c s.2 /\
       (done = true -> s.1 = set_startCB (startCB s.1) j /\ _state s.2 = StateHolding))
    (fun e s => s.1 = j /\ failing c e s.2) (j, c).
Proof.
  intros Hok Hst Hidle. unfold message_validate. apply wp_bind, wp_get, wp_bind. cbn [snd].
  eapply (wp_conseq _ (fun (ready : bool) s => s.1 = j /\ conn_ok s.2 /\ moves c s.2 /\
    (ready = true -> _state s.2 = StateNotValidated /\ idle op s.2)) _ (fun e s => s.1 = j /\ failing c e s.2)).
  { destruct (decide (_state c = StateNotInitialized)) as [Hni|Hni];
      [rewrite bool_decide_eq_true_2 by done|rewrite bool_decide_eq_false_2 by done].
    - apply wp_on_conn. eapply wp_conseq; [by apply initialize_ok|..]; cbn [fst snd].
      + intros r c1 [Hok1 H1]. split; [done|]. split; [done|]. destruct r.
        * destruct H1 as [Ha Hi]. by destruct (advances_moves _ _ _ Ha).
        * by destruct (opens_moves _ _ H1).
      + intros e c1 (He & Hok1 & Ho). destruct (opens_moves _ _ Ho) as [Hm Hst1]. split; [done|].
        apply failing_of; [by apply socket_local|done|done|by rewrite Hst1, Hni|done].
    - apply wp_ret. split; [done|]. split; [done|]. split; [done|]. intros _. split; [|done].
      cbn [snd]. destruct (_state c); cbn in *; try lia; done. }
  2:{ done. }
  intros r [j1 c1] (Hj1 & Hok1 & Hm1 & Hr). cbn [fst snd] in *. subst j1. destruct r; cbn [negb].
  2:{ apply wp_ret. by split_and!. }
  destruct (Hr eq_refl) as [Hst1 Hidle1]. apply wp_bind, wp_get, wp_bind. cbn [snd]. rewrite Hst1. cbn [state_code Z.leb Z.compare Pos.compare].
  apply wp_on_conn. eapply wp_conseq; [by apply validate_ok|..]; cbn [fst snd].
  2:{ intros e c2 [He Hr2]. split; [done|]. pose proof (restreamed_state _ _ Hr2) as Est. rewrite Hst1 in Est.
      apply (failing_trans c c1); [done|]. apply failing_of; [done|apply Hr2|by apply opens_moves, Hr2|by rewrite Est|by rewrite Est]. }
  intros r c2 H2. destruct r; cbn [negb].
  2:{ destruct H2 as [Hok2 Ho2]. apply wp_ret. split; [done|]. split; [etrans; [done|by apply opens_moves]|done]. }
  destruct H2 as (Hr2 & Hidle2 & Hw2). pose proof (restreamed_state _ _ Hr2) as Est. rewrite Hst1 in Est.
  assert (conn_ok c2) as Hok2 by apply Hr2. apply wp_bind, wp_on_conn, wp_modify.
  set (c3 := set_registered _ c2). destruct Hidle2 as (Hreg & Hwt & Hrt).
  assert (_registered c3 = SocketOperationNone) as Hreg3.
  { cbn. rewrite Hreg. unfold selector_update. cbn. rewrite !andb_negb_r. done. }
  assert (opens c2 c3) as Ho3.
  { exists (_transceiver c2), (_writeStream c2), (_readStream c2), (_readHeader c2), (_registered c3), (write_task c2),
      (_writeTimeoutScheduled c2), (read_task c2), (_readTimeoutScheduled c2), (_validated c2). by destruct c2. }
  assert (conn_ok c3) as Hok3.
  { destruct (ready_of c2 Hok2 Est) as [Hu2 Hc2]. apply (opens_ok c2); [done|by rewrite Est|done|done|done| | |].
    - destruct (ok_young c2 Hok2 ltac:(by rewrite Est)). constructor; rewrite ?Hreg3; try done; cbn; intros; congruence.
    - apply (ok_tasks c2 Hok2).
    - exact (reading_of c2 Hok2 Est). }
  assert (moves c c3) as Hm3.
  { etrans; [done|]. etrans; [by apply opens_moves, Hr2|]. by apply opens_moves. }
  apply wp_bind, wp_on_conn, wp_setState_held; [done|done|done|done|].
  intros c4 Hok4 Ha4 _. destruct (advances_moves _ _ _ Ha4) as [Hm4 Hst4]. apply wp_bind, wp_modify, wp_ret. cbn [fst snd].
  split; [done|]. split; [|done]. etrans; [done|]. etrans; [exact Hm4|]. by split; try done; auto; cbn; lia.
Qed.

(** ** Sending in a connection that is closed, or gets closed *)

Lemma sends_late_ok c c1 : conn_ok c -> _state c = StateClosed -> sends c c1 -> usable (_transceiver c1) -> tasks_ok c1 ->
  conn_ok c1.
Proof.
  intros Hok Hst Hs Hu Ht. pose proof Hs as (n & q & w & r & ev & a & wt & wts & Hc' & _).
  destruct Hok. rewrite Hc' in *. constructor; cbn in *; try done; rewrite Hst; cbn; try done; intros; lia.
Qed.

Lemma sends_closed_by mo ex c c1 : sends c c1 -> sends (closed_by mo ex c) (closed_by mo ex c1).
Proof.
  intros (n & q & w & r & ev & a & wt & wts & -> & _).
  exists n, q, w, SocketOperationNone, ev, a, wt, wts. by destruct c.
Qed.

(** An error while the queue is sent closes the connection. *)
Lemma sends_closes_ok ex c c1 c2 : conn_ok c -> (_state c < StateClosed)%state -> is_local ex = true -> sends c c1 ->
  usable (_transceiver c1) -> tasks_ok c1 -> closes ex c1 c2 -> conn_ok c2 /\ moves c c2.
Proof.
  intros Hok Hst Hex Hs Hu Ht Hc. split; [|etrans; [by apply sends_moves|by eapply closes_moves]].
  destruct (sends_state _ _ Hs) as (Est & _). destruct Hc as [[_ Hc]|[[mo ->] _]]; [rewrite Est in Hc; lia|].
  apply (sends_late_ok (closed_by mo ex c)); [|done|by apply sends_closed_by|done|done].
  apply (closed_by_ok (_shutdownInitiated c)); [by rewrite same_shutdown|done|done].
Qed.

(** The count of dispatches has no part in sending. *)
Lemma sends_count n c c1 : sends c c1 -> sends (set_dispatchCount n c) (set_dispatchCount n c1).
Proof.
  intros (n' & q & w & r & ev & a & wt & wts & -> & Hr). by exists n', q, w, r, ev, a, wt, wts.
Qed.

Lemma closes_count n ex c c1 : closes ex c c1 -> closes ex (set_dispatchCount n c) (set_dispatchCount n c1).
Proof. intros [[-> ?]|[[mo ->] ?]]; [by left|right]. split; [by exists mo|done]. Qed.

Lemma tasks_after c c1 : tasks_ok c -> sends c c1 -> write_task c1 = false -> tasks_ok c1.
Proof. intros [_ Hr] (?&?&?&?&?&?&?&?&->&_) Hw. split; [by rewrite Hw|exact Hr]. Qed.

(** [sendNextMessage] on a connection that is in order with the count [n] *)
Lemma sendNextMessage_keeps n j c : conn_ok (set_dispatchCount n c) -> validated c -> (_state c <= StateClosed)%state ->
  front_sent c -> b (_writeStream c) <> [] -> write_task c = false ->
  wp sendNextMessage
    (fun _ s => (exists cbs, s.1 = set_sentCBs cbs j) /\ conn_ok (set_dispatchCount n s.2) /\
       moves (set_dispatchCount n c) (set_dispatchCount n s.2) /\ _dispatchCount s.2 = _dispatchCount c /\
       (_state s.2 = _state c \/ _state s.2 = StateClosed) /\ _shutdownInitiated s.2 = _shutdownInitiated c)
    (fun _ _ => False) (j, c).
Proof.
  intros Hok Hv Hst Hf Hb Ht. assert (tasks_ok c) as Htk by apply (ok_tasks _ Hok).
  eapply wp_conseq; [by apply sendNextMessage_ok|..]; [|done].
  intros [] [j1 c1] [Hj H]. split; [done|]. cbn [snd] in *.
  destruct (_state c <? StateClosed)%state eqn:Ecl; bool_to_prop.
  - destruct H as [[(Hs & Hn & Hq & Htk1) _]|(e & c2 & He & Hn & Hs & Hc)].
    + split; [|split; [by apply sends_moves, sends_count|split; [|split; [left|]]; apply sends_state, Hs]].
      apply (sends_ok (set_dispatchCount n c)); [done|done|done|]. split; [by apply sends_count|]. by split.
    + destruct Hs as (_ & Hs & _ & Ht2 & _). cbn [snd] in *.
      destruct (sends_closes_ok e (set_dispatchCount n c) (set_dispatchCount n c2) (set_dispatchCount n c1)) as [Hok1 Hm1].
      * done.
      * done.
      * done.
      * by apply sends_count.
      * apply Hn.
      * exact (tasks_after c c2 Htk Hs Ht2).
      * by apply (closes_count n).
      * split; [done|]. split; [done|].
        rewrite (mv_count _ _ (closes_moves _ _ _ Hc)). split; [apply sends_state, Hs|].
        destruct (sends_state _ _ Hs) as (Est & _ & _ & Esh).
        destruct Hc as [[-> _]|[[mo ->] _]]; (split; [|exact Esh]); [by left|by right].
  - destruct H as (_ & Hs & Hu & Ht1 & _). cbn [snd] in *.
    assert (_state c = StateClosed) as Hcl by (apply state_code_inj; lia).
    split; [|split; [by apply sends_moves, sends_count|split; [|split; [left|]]; apply sends_state, Hs]].
    apply (sends_late_ok (set_dispatchCount n c)); [done|done|by apply sends_count| |exact (tasks_after c c1 Htk Hs Ht1)].
    apply Hu. apply (ok_usable _ Hok). cbn. by rewrite Hcl.
Qed.

(** ** message *)

(** The callbacks of a job count as one dispatch. *)
Definition callbacks j : Z := if has_callbacks j then 1 else 0.

(** A job to dispatch: the connection is in order with its former count, to
    which the requests and the callbacks of the job are added. *)
Definition dispatching c (s : job * conn) : Prop :=
  conn_ok (set_dispatchCount (_dispatchCount c) s.2) /\ steady c (set_dispatchCount (_dispatchCount c) s.2) /\
  0 <= invokeNum s.1 < 2 ^ 31 /\ (0 < invokeNum s.1 -> _shutdownInitiated s.2 = false) /\ validated s.2 /\
  _dispatchCount s.2 = to_i32 (to_i32 (_dispatchCount c + invokeNum s.1) + callbacks s.1).

Lemma same_count c : set_dispatchCount (_dispatchCount c) c = c.
Proof. by destruct c. Qed.

Lemma count_range c : conn_ok c -> to_i32 (_dispatchCount c) = _dispatchCount c.
Proof. intros Hok. pose proof (ok_count c Hok). apply to_i32_id. lia. Qed.

Lemma message_young_ok op current c : conn_ok c -> (_state c <= StateNotValidated)%state -> ready op c ->
  wp (message_work op) (fun (done : bool) s => if done then dispatching c s else conn_ok s.2 /\ moves c s.2)
    (fun e s => failing c e s.2) (new_job current, c).
Proof.
  intros Hok Hst (Hr1 & Hr2 & Hr3). unfold message_work. apply wp_bind, wp_on_conn, unscheduleTimeout_ok; [done|].
  intros rt rts wt wts c1 Hok1 Hrt Hwt Hrt' Hwt'. destruct (ok_young c Hok Hst).
  assert (_registered c = op) as Hop.
  { destruct op as [r w], (_registered c) as [r' w']. cbn in *. destruct r, w, r', w'; naive_solver. }
  assert (idle op c1) as Hidle1.
  { split; [done|]. rewrite Hop in *. cbn. split.
    - destruct (op_write op) eqn:E1; [by apply Hwt|]. apply Hwt'. destruct (write_task c); [|done]. specialize (young_write_task eq_refl). congruence.
    - destruct (op_read op) eqn:E1; [by apply Hrt|]. apply Hrt'. destruct (read_task c); [|done]. specialize (young_read_task eq_refl). congruence. }
  assert (moves c c1) as Hm1 by apply times_steady. assert (_state c1 = _state c) as Est1 by done. clearbody c1.
  apply wp_bind. eapply (wp_conseq _ (fun (done : bool) s => s.1 = new_job current /\
    if done then restreamed c1 s.2 else conn_ok s.2 /\ opens c1 s.2) _ (fun e s => failing c e s.2)); [| |done].
  { case_if; [|by apply wp_ret; split; [|apply restreamed_refl]]. apply wp_on_conn.
    eapply wp_conseq; [apply message_write_young_ok; [done|by rewrite Est1|by destruct Hidle1 as (-> & _)|apply Hidle1]|..]; cbn [fst snd].
    - by intros done c2 H.
    - intros e c2 (He & Hr & Hni). pose proof (restreamed_state _ _ Hr) as Est2. rewrite Est1 in Est2.
      apply (failing_trans c c1); [done|]. apply failing_of; [done|apply Hr|by apply opens_moves, Hr|rewrite Est2; cbn in *; lia|].
      rewrite Est2. congruence. }
  intros done [j2 c2] [Hj2 H2]. cbn [fst snd] in *. subst j2. destruct done; cbn [negb].
  2:{ apply wp_ret. destruct H2 as [Hok2 Ho2]. split; [done|]. etrans; [done|by apply opens_moves]. }
  pose proof (restreamed_state _ _ H2) as Est2. rewrite Est1 in Est2. pose proof (restreamed_idle _ _ _ H2 Hidle1) as Hidle2.
  assert (conn_ok c2) as Hok2 by apply H2. assert (moves c c2) as Hm2 by (etrans; [done|by apply opens_moves, H2]).
  apply wp_bind. eapply (wp_conseq _ (fun (done : bool) s => s.1 = new_job current /\ conn_ok s.2 /\ receives c2 s.2 /\
    (done = true -> read_task s.2 = false)) _ (fun e s => failing c e s.2)); [| |done].
  { case_if; [|by apply wp_ret; cbn; split_and!; try done; intros _; apply Hidle2]. apply wp_on_conn.
    eapply wp_conseq; [apply message_read_ok; [done|rewrite Est2; cbn in *; lia|apply Hidle2|by destruct Hidle2 as (-> & _)]|..]; cbn [fst snd].
    - intros d c3 (Hok3 & Hrec & Hd). split; [done|]. split; [done|]. split; [done|]. intros Hd'. by apply Hd.
    - intros e c3 (He & Hun & Hrec & Hni). pose proof (receives_moves _ _ Hrec) as Hm3.
      assert (_state c3 = _state c2) as Est3 by (by destruct Hrec as (?&?&?&?&?&->)).
      split; [done|]. split; [done|]. split; [by etrans|]. split; [by rewrite (mv_count _ _ Hm3), (mv_count _ _ Hm2)|].
      rewrite Est3. split; [rewrite Est2; cbn in *; lia|done]. }
  intros done [j3 c3] (Hj3 & Hok3 & Hrec & Hd). cbn [fst snd] in *. subst j3.
  assert (moves c c3) as Hm3 by (etrans; [done|by apply receives_moves]). destruct done; cbn [negb]; [|by apply wp_ret].
  assert (_state c3 = _state c) as Est3 by (rewrite <- Est2; by destruct Hrec as (?&?&?&?&?&->)).
  assert (idle op c3) as Hidle3.
  { destruct Hidle2 as (H21 & H22 & _). specialize (Hd eq_refl). destruct Hrec as (?&?&?&?&?&->). by split_and!. }
  apply wp_bind, wp_get. cbn [snd]. rewrite Est3, (proj2 (Z.leb_le _ _)) by done.
  eapply wp_conseq; [apply message_validate_ok; [done|by rewrite Est3|done]|..].
  - intros done [j4 c4] (Hok4 & Hm4 & Hdone). cbn [fst snd] in *. assert (moves c c4) as Hm by by etrans.
    destruct done; [|done]. destruct (Hdone eq_refl) as [Hj4 Hst4].
    assert (set_dispatchCount (_dispatchCount c) c4 = c4) as Hsame by (rewrite <- (mv_count _ _ Hm); apply same_count).
    unfold dispatching. cbn [fst snd]. rewrite Hsame, Hj4. split; [done|]. split; [by apply moves_steady|].
    cbn [invokeNum set_startCB new_job]. split; [lia|]. split; [lia|]. split; [unfold validated; by rewrite Hst4|].
    rewrite (mv_count _ _ Hm). unfold callbacks, has_callbacks. cbn. rewrite !Z.add_0_r, !count_range; [done..|]; by rewrite ?count_range.
  - intros e [j4 c4] [_ Hf]. cbn [snd] in *. by apply (failing_trans c c3).
Qed.

(** What parsing leaves for the rest of [message] *)
Record parsed_from c (s : job * conn) : Prop := {
  pf_ok : conn_ok (set_dispatchCount (_dispatchCount c) s.2);
  pf_steady : steady c (set_dispatchCount (_dispatchCount c) s.2);
  pf_jobs : 0 <= invokeNum s.1 < 2 ^ 31;
  pf_closing : 0 < invokeNum s.1 -> _state c <> StateClosing;
  pf_count : _dispatchCount s.2 = to_i32 (_dispatchCount c + invokeNum s.1);
  pf_state : _state s.2 = _state c \/ _state s.2 = StateClosed;
  pf_queue : _sendStreams s.2 = _sendStreams c /\ _writeStream s.2 = _writeStream c /\ write_task s.2 = write_task c /\
    _compressionLevel s.2 = _compressionLevel c /\ _transceiver s.2 = _transceiver c;
  pf_shutdown : _shutdownInitiated s.2 = _shutdownInitiated c;
  pf_registered : (_state s.2 < StateClosed)%state -> _registered s.2 = _registered c
}.

Lemma handles_same c c' : handles c c' -> _state c' = _state c /\ _registered c' = _registered c /\
  _shutdownInitiated c' = _shutdownInitiated c /\
  (_sendStreams c' = _sendStreams c /\ _writeStream c' = _writeStream c /\ write_task c' = write_task c /\
    _compressionLevel c' = _compressionLevel c /\ _transceiver c' = _transceiver c).
Proof. by intros (?&?&?&?&?&?&?&?&?&->). Qed.

Lemma parsed_parsed_from j c s : conn_ok c -> validated c -> (_state c < StateClosed)%state -> parsed c j s -> parsed_from c s.
Proof.
  intros Hok Hv Hst [(Hp & Hi & Hd & _ & Hc)|(ex & c1 & (Hp & Hd & Hi & _) & Hex & Hcl)]; cbn [fst snd] in *.
  - destruct (handles_same _ _ (proj1 Hp)) as (H1 & H2 & H0 & H3). split; try done.
    + by apply parsing_ok.
    + apply handles_steady, Hp.
    + by left.
  - destruct (handles_same _ _ (proj1 Hp)) as (H1 & H2 & H0 & H3).
    assert (set_dispatchCount (_dispatchCount c) c1 = c1) as Hsame by (rewrite <- Hd; apply same_count).
    assert (conn_ok c1) as Hok1 by (rewrite <- Hsame; by apply parsing_ok).
    assert (steady c c1) as Hs1 by (rewrite <- Hsame; apply handles_steady, Hp).
    assert (_dispatchCount s.2 = _dispatchCount c) as Hd2 by (rewrite <- Hd; apply (closes_moves _ _ _ Hcl)).
    assert (set_dispatchCount (_dispatchCount c) s.2 = s.2) as Hsame2 by (rewrite <- Hd2; apply same_count).
    split; rewrite ?Hsame2, ?Hi, ?Z.add_0_r; try done; try lia.
    + by apply (closed_ok ex c1).
    + etrans; [exact Hs1|]. by eapply moves_steady, closes_moves.
    + by rewrite Hd2, count_range.
    + destruct Hcl as [[-> _]|[[mo ->] _]]; [by left|by right].
    + destruct Hcl as [[-> _]|[[mo ->] _]]; [done|]. cbn. intuition.
    + by destruct Hcl as [[-> _]|[[mo ->] _]].
    + destruct Hcl as [[-> _]|[[mo ->] _]]; [done|]. cbn. lia.
Qed.

(** The queue is ready for [sendNextMessage] once the front has been written. *)
Lemma front_of c s : conn_ok c -> validated c -> (_state c < StateClosed)%state -> parsed_from c s ->
  op_write (_registered c) = true -> i (_writeStream c) = b_end (_writeStream c) -> front_sent s.2.
Proof.
  intros Hok Hv Hst [_ _ _ _ _ Hs (H1 & H2 & H3 & H4 & H5) _ Hr] Hw Hi.
  destruct (may_send_ok c Hok Hv Hst) as (_ & Hn & Hq & _). unfold queue_ok in Hq.
  destruct (_sendStreams c) as [|m rest] eqn:Eq; [destruct Hq as (_ & Hq & _); congruence|].
  destruct Hq as (Hb & _ & _ & _ & _ & Hrest). exists m, rest. rewrite H1, H2, H4. split; [done|]. split; [done|]. split; [done|].
  intros Hlt. rewrite (Hr Hlt). split; [unfold net_ready; by rewrite H5|done].
Qed.

Lemma message_valid_ok op current c : conn_ok c -> validated c -> (_state c < StateClosed)%state -> ready op c ->
  wp (message_work op) (fun (done : bool) s => if done then dispatching c s else conn_ok s.2 /\ moves c s.2)
    (fun e s => failing c e s.2) (new_job current, c).
Proof.
  intros Hok Hv Hst (Hr1 & Hr2 & Hr3). unfold message_work. apply wp_bind, wp_on_conn, unscheduleTimeout_ok; [done|].
  intros rt rts wt wts c1 Hok1 Hrt Hwt _ _.
  assert (op_write op = true -> write_task c1 = false) as Hwt1 by exact Hwt.
  assert (op_read op = true -> read_task c1 = false) as Hrt1 by exact Hrt.
  assert (_registered c1 = _registered c) as Ereg1 by done.
  assert (moves c c1) as Hm1 by apply times_steady. assert (_state c1 = _state c) as Est1 by done. clearbody c1.
  assert (forall e c', is_local e = true -> unread c' -> moves c c' -> _state c' = _state c -> failing c e c') as Hfail.
  { intros e c' He Hun Hm Est. split; [done|]. split; [done|]. split; [done|]. split; [apply Hm|]. rewrite Est. split; [done|].
    intros Hni. unfold validated in Hv. rewrite Hni in Hv. cbn in Hv. lia. }
  apply wp_bind. eapply (wp_conseq _ (fun (done : bool) s => s.1 = new_job current /\ conn_ok s.2 /\ sends c1 s.2 /\
    (done = true -> op_write op = true -> i (_writeStream s.2) = b_end (_writeStream s.2) /\ b (_writeStream s.2) <> [] /\
      write_task s.2 = false /\ op_write (_registered s.2) = true)) _ (fun e s => failing c e s.2)); [| |done].
  { case_if; [|by apply wp_ret; split_and!; try done; apply sends_refl]. apply wp_on_conn.
    eapply wp_conseq; [apply message_write_ok; [done|unfold validated in *; by rewrite Est1|by rewrite Est1|rewrite Ereg1; by apply Hr2|by apply Hwt1]|..];
      cbn [fst snd].
    - intros d c2 [Hs Hd]. split; [done|]. split; [apply (sends_ok c1); [done|by rewrite Est1..|done]|]. split; [apply Hs|].
      intros Hd' _. destruct (Hd Hd') as (H1 & H2 & H3 & H4). split; [done|]. split; [done|]. split; [done|].
      destruct Hs as (_ & _ & Hq & _). unfold queue_ok in Hq. destruct (_sendStreams c2); [by destruct Hq as [? _]|apply Hq].
    - intros e c2 [He Hs]. apply Hfail; [done| |etrans; [done|apply sends_moves, Hs]|by destruct (sends_state _ _ (proj1 Hs)) as [-> _]].
      apply unread_of; [apply (sends_ok c1); [done|by rewrite Est1..|done]|]. destruct (sends_state _ _ (proj1 Hs)) as [-> _]. by rewrite Est1. }
  intros done [j2 c2] (Hj2 & Hok2 & Hs2 & Hd2). cbn [fst snd] in *. subst j2.
  assert (moves c c2) as Hm2 by (etrans; [done|by apply sends_moves]).
  assert (_state c2 = _state c) as Est2 by (destruct (sends_state _ _ Hs2) as [-> _]; done).
  destruct done; cbn [negb]; [|by apply wp_ret]. specialize (Hd2 eq_refl).
  assert (op_read op = true -> read_task c2 = false /\ op_read (_registered c2) = true) as Hr2'.
  { intros Hro. specialize (Hrt1 Hro). specialize (Hr1 Hro). rewrite <- Ereg1 in Hr1.
    destruct Hs2 as (?&?&?&?&?&?&?&?&->&Hr). cbn in *. by rewrite Hr. }
  apply wp_bind. eapply (wp_conseq _ (fun (done : bool) s => s.1 = new_job current /\ conn_ok s.2 /\ receives c2 s.2 /\
    (done = true -> op_read op = true -> i (_readStream s.2) = b_end (_readStream s.2))) _ (fun e s => failing c e s.2)); [| |done].
  { case_if; [|by apply wp_ret]. destruct (Hr2' eq_refl) as [Hrt2 Hreg2]. apply wp_on_conn.
    eapply wp_conseq; [apply message_read_ok; [done|by rewrite Est2|done|done]|..]; cbn [fst snd].
    - intros d c3 (Hok3 & Hrec & Hd). split; [done|]. split; [done|]. split; [done|]. intros Hd' _. by apply Hd.
    - intros e c3 (He & Hun & Hrec & _). apply Hfail; [done|done|etrans; [done|by apply receives_moves]|].
      rewrite <- Est2. by destruct Hrec as (?&?&?&?&?&->). }
  intros done [j3 c3] (Hj3 & Hok3 & Hrec & Hd3). cbn [fst snd] in *. subst j3.
  assert (moves c c3) as Hm3 by (etrans; [done|by apply receives_moves]). destruct done; cbn [negb]; [|by apply wp_ret].
  specialize (Hd3 eq_refl).
  assert (_state c3 = _state c) as Est3 by (rewrite <- Est2; by destruct Hrec as (?&?&?&?&?&->)).
  assert (op_write op = true -> i (_writeStream c3) = b_end (_writeStream c3) /\ b (_writeStream c3) <> [] /\
      write_task c3 = false /\ op_write (_registered c3) = true) as Hd3' by (by destruct Hrec as (?&?&?&?&?&->)).
  clear Hd2 Hr2' Hwt1 Hrt1. assert (validated c3) as Hv3 by (unfold validated in *; by rewrite Est3).
  assert (_state c3 < StateClosed)%state as Hst3 by (by rewrite Est3).
  pose proof (mv_count _ _ Hm3) as Hn3. apply wp_bind, wp_get. cbn [snd].
  rewrite (proj2 (Z.leb_gt (state_code (_state c3)) (state_code StateNotValidated))) by exact Hv3.
  apply wp_bind, wp_assert; [apply Z.leb_le; cbn in *; lia|].
  apply wp_bind. eapply (wp_conseq _ (fun _ s => parsed_from c3 s) _ (fun _ _ => False)); [| |done].
  { apply wp_when; intros Hop.
    - eapply wp_conseq; [apply parseMessage_ok; [done..|by apply Hd3|done]| |done].
      intros [] s Hs. by eapply parsed_parsed_from.
    - apply (parsed_parsed_from (new_job current)); [done..|]. left. apply idle_counted; [done|].
      split; [|done]. split; [done|]. split; [exact (ok_hints c3 Hok3 Hst3)|exact (ok_reading c3 Hok3 Hst3)]. }
  intros [] [j4 c4] Hp. apply wp_bind.
  eapply (wp_conseq _ (fun _ s => (exists cbs, s.1 = set_sentCBs cbs j4) /\ conn_ok (set_dispatchCount (_dispatchCount c3) s.2) /\
    moves (set_dispatchCount (_dispatchCount c3) c4) (set_dispatchCount (_dispatchCount c3) s.2) /\
    _dispatchCount s.2 = _dispatchCount c4 /\ (_state s.2 = _state c4 \/ _state s.2 = StateClosed) /\
    _shutdownInitiated s.2 = _shutdownInitiated c4) _ (fun _ _ => False)); [| |done].
  { pose proof Hp as [Hok4 Hs4 _ _ _ Hst4 (Hq & Hw & Ht & _) _ _]. cbn [fst snd] in *.
    apply wp_when; intros Hop.
    - destruct (Hd3' Hop) as (H1 & H2 & H3 & H4). apply sendNextMessage_keeps; [done|..].
      + destruct Hst4 as [He|He]; unfold validated; rewrite He; [exact Hv3|cbn; lia].
      + destruct Hst4 as [He|He]; rewrite He; cbn in *; lia.
      + by apply (front_of c3 (j4, c4)).
      + by rewrite Hw.
      + by rewrite Ht.
    - split; [exists (sentCBs j4); by destruct j4|]. split_and!; try done; by left. }
  intros [] [j5 c5] ((cbs & Hj5) & Hok5 & Hm5 & Hc5 & Hst5 & Hsh5). cbn [fst snd] in *. subst j5.
  destruct Hp as [_ Hs4 Hj4 Hcl4 Hc4 Hst4 _ Hsh4 _]. cbn [fst snd] in *.
  apply wp_bind, wp_get. cbn [fst].
  assert (validated c5) as Hv5.
  { unfold validated. destruct Hst5 as [->| ->]; [|cbn; lia]. destruct Hst4 as [->| ->]; [exact Hv3|cbn; lia]. }
  assert (forall d, d = to_i32 (to_i32 (_dispatchCount c + invokeNum j4) + callbacks (set_sentCBs cbs j4)) ->
    dispatching c (set_sentCBs cbs j4, set_dispatchCount d c5)) as Hend.
  { intros d Hd. unfold dispatching. cbn [fst snd]. rewrite Hn3 in Hok5, Hm5, Hs4.
    change (set_dispatchCount (_dispatchCount c) (set_dispatchCount d c5)) with (set_dispatchCount (_dispatchCount c) c5).
    split; [done|]. split.
    - etrans; [by apply moves_steady|]. etrans; [exact Hs4|]. by apply moves_steady.
    - split; [done|]. split; [|split; [exact Hv5|done]]. intros Hpos. cbn. rewrite Hsh5, Hsh4.
      destruct (_shutdownInitiated c3) eqn:Es; [|done]. apply (ok_shutdown c3 Hok3) in Es. specialize (Hcl4 Hpos).
      destruct (_state c3); cbn in *; try lia; done. }
  assert (_dispatchCount c5 = to_i32 (_dispatchCount c + invokeNum j4)) as Hc by (by rewrite Hc5, Hc4, Hn3).
  apply wp_bind, wp_when; intros Hcb.
  - apply wp_on_conn, wp_modify, wp_ret. apply Hend. unfold callbacks. by rewrite Hcb, Hc.
  - apply wp_ret. rewrite <- (same_count c5). apply Hend. unfold callbacks. rewrite Hcb, Hc, Z.add_0_r.
    pose proof (to_signed_range 32 (_dispatchCount c + invokeNum j4) ltac:(lia)) as Hr.
    rewrite (to_i32_id (to_i32 _)); [done|exact Hr].
Qed.

(** ** The handlers *)

Lemma set_read_ok r rh c : conn_ok c -> _state c <> StateNotInitialized ->
  ((_state c < StateClosed)%state -> reading_ok (set_readStream r c)) -> conn_ok (set_readStream r (set_readHeader rh c)).
Proof.
  intros Hok Hni Hr. destruct Hok. constructor; cbn in *; try done.
  intros Hy. destruct (ok_young Hy). constructor; cbn; done.
Qed.

Lemma unread_state c : unread c -> exists c0, conn_ok c0 /\ _state c0 = _state c /\ receives c c0 /\
  c = set_readStream (_readStream c) (set_readHeader (_readHeader c) c0) /\ moves c c0.
Proof.
  intros [(r & rh & Hok) _]. exists (set_readStream r (set_readHeader rh c)). split; [done|]. split; [done|].
  assert (receives c (set_readStream r (set_readHeader rh c))) as Hrec by apply receives_refl_stream.
  split; [done|]. split; [by destruct c|by apply receives_moves].
Qed.

Lemma message_failed_ok c e c' : failing c e c' ->
  wp (message_failed e) (fun _ c2 => conn_ok c2 /\ moves c c2) (fun _ _ => False) c'.
Proof.
  intros (He & Hun & Hm & Hd & Hst & Hni). pose proof Hun as [_ Hmax].
  destruct (unread_state c' Hun) as (c0 & Hok0 & Hst0 & _ & Hc0 & Hm0).
  assert (_state c' <> StateNotInitialized -> wp reset_readStream (fun _ c2 => conn_ok c2 /\ moves c c2) (fun _ _ => False) c') as Hreset.
  { intros Hn. apply wp_reset_readStream; [done|]. set (r := set_i 0 _). destruct Hun as [(r0 & rh0 & Hok) _].
    assert (set_readStream r (set_readHeader true (set_validated (_validated c') c')) =
      set_readStream r (set_readHeader true (set_readStream r0 (set_readHeader rh0 c')))) as -> by (by destruct c').
    split.
    - apply set_read_ok; [done|done|]. intros _. apply fresh_reading; [apply ByteSeq.length_resize|done|done].
    - etrans; [exact Hm|]. by split; try done; auto; cbn; lia. }
  assert (wp (setState_ex StateClosed e) (fun _ c2 => conn_ok c2 /\ moves c c2) (fun _ _ => False) c') as Hclose.
  { destruct (setState_ex_closed_eq e c') as (c2 & Hs & Hc2).
    { intros Hf. rewrite Hf in Hst. cbn in Hst. lia. }
    eapply wp_eq; [exact Hs|]. split; [|etrans; [exact Hm|by eapply closes_moves]].
    destruct Hc2 as [[_ Hx]|[[mo ->] _]]; [lia|].
    assert (conn_ok (closed_by mo e c0)) as Hok1.
    { apply (closed_by_ok (_shutdownInitiated c0)); [by rewrite same_shutdown|done|by rewrite Hst0]. }
    assert (closed_by mo e c' = set_readStream (_readStream c') (set_readHeader (_readHeader c') (closed_by mo e c0))) as ->.
    { rewrite Hc0 at 1. by destruct c0. }
    apply set_read_ok; [done|done|]. cbn. lia. }
  unfold message_failed. destruct (is_SocketException e) eqn:Es.
  { by destruct e. }
  assert (_state c' <> StateNotInitialized) as Hn by (intros Hn; specialize (Hni Hn); congruence).
  specialize (Hreset Hn). destruct e; try (by destruct tr_datagram); try done.
Qed.

(** What [message] leaves *)
Definition got_message c (r : option job) c' : Prop :=
  match r with
  | None => conn_ok c' /\ steady c c'
  | Some j => dispatching c (j, c')
  end.

Lemma message_ok op current c : conn_ok c -> ready op c ->
  wp (message op current) (got_message c) (fun _ _ => False) c.
Proof.
  intros Hok Hr. unfold wp, message. case_if; bool_to_prop; [done|].
  assert (wp (try_local (message_work op) (fun ex => on_conn (message_failed ex);; mret false))
    (fun (done : bool) s => if done then dispatching c s else conn_ok s.2 /\ moves c s.2) (fun _ _ => False)
    (new_job current, c)) as H.
  { apply wp_try. eapply (wp_conseq _ _ _ (fun e s => failing c e s.2)).
    - destruct (Z.le_gt_cases (state_code (_state c)) (state_code StateNotValidated)).
      + by apply message_young_ok.
      + by apply message_valid_ok.
    - done.
    - intros e [j c'] Hf. pose proof Hf as [He _]. rewrite He. apply wp_bind, wp_on_conn.
      eapply wp_conseq; [by apply (message_failed_ok c)|..]; [|done]. intros [] c2 H2. by apply wp_ret. }
  unfold wp in H. destruct (try_local _ _ _) as [[[]|e|f] [j c']]; [| |done..].
  2:{ cbn [snd] in H. split; [apply H|apply moves_steady, H]. }
  destruct (touch_acm_eq c') as [a Ha]. rewrite Ha. destruct H as (H1 & H2 & H3 & H4 & H5 & H6). cbn [fst snd] in *.
  assert (steady (set_dispatchCount (_dispatchCount c) c') (set_dispatchCount (_dispatchCount c) (set_acmAbsoluteTimeout a c'))) as Hs
    by (by split; try done; auto; cbn; lia).
  split.
  - cbn [snd]. set (c0 := set_dispatchCount (_dispatchCount c) c') in *.
    change (set_dispatchCount (_dispatchCount c) (set_acmAbsoluteTimeout a c')) with (set_acmAbsoluteTimeout a c0).
    clearbody c0. destruct H1. constructor; cbn in *; try done. intros Hy. by destruct (ok_young Hy).
  - split; [by etrans|done].
Qed.
End message.
