(* ===== verification/ConnectionFinish.v ===== *)
(** * The end of a connection

    [finished] and [finish], which the thread pool runs once for a connection
    that is closed: the start callback, the messages of the queue and the
    requests without a reply are told about the exception, in that order. *)

From S2P Require Import Prelude Hoare Buffer Layout Protocol Stream Wire Encaps Transceiver.
From S2P Require Import ConnectionData ConnectionSend ConnectionState OrderedMap Connection StreamSpec.
From S2P Require Import ConnectionFrame ConnectionQueue ConnectionInv ConnectionRequests ConnectionOpen.
From S2P Require Import ConnectionLife ConnectionReceive ConnectionParse ConnectionNext ConnectionMessage.

Section finish.
Context `{PL : Platform} {D E : Type} {TR : Transceiver} {ST : Settings} {BZ : BZip2} {LW : TransceiverLaws TR}.
Context `{LI : !Limits}.
Local Abbreviation stream := (BasicStream D E).
Local Abbreviation omessage := (@OutgoingMessage D E).
Local Abbreviation conn := (@ConnectionI D E TR).
Implicit Types (c : conn) (m : omessage) (t : gmap Z nat).

(** [FinishedWorkItem::execute] takes the item out of the queue of the thread
    pool and calls [finished]. *)
Definition finish_work : M conn unit :=
  modify (fun c => set_finish_items (pred (finish_items c)) c);;
  finished;;
  finish.

(** ** What [finish] tells, and to whom *)

Definition told (ex : exn) m : list Event :=
  match om_target m with
  | NoTarget => []
  | Out call | OutAsync call _ => [CallFinished call ex (om_isSent m)]
  end.

(** The requests that are in the queue are told only once. *)
Definition drop_requests t (queue : list omessage) : gmap Z nat :=
  foldl (fun t m =>
    match om_target m with
    | Out _ => if om_requestId m =? 0 then t else delete (om_requestId m) t
    | _ => t
    end) t queue.

Definition drop_asyncRequests t (queue : list omessage) : gmap Z nat :=
  foldl (fun t m =>
    match om_target m with
    | Out _ => t
    | _ => if om_requestId m =? 0 then t else delete (om_requestId m) t
    end) t queue.

Definition told_calls (ex : exn) (l : list nat) : list Event := (fun call => CallFinished call ex true) <$> l.

Definition finish_events (ex : exn) c : list Event :=
  match _startCallback c with Some cb => [StartFailed cb ex] | None => [] end ++
  concat (told ex <$> _sendStreams c) ++
  told_calls ex (table_calls (drop_requests (_requests c) (_sendStreams c))) ++
  told_calls ex (table_calls (drop_asyncRequests (_asyncRequests c) (_sendStreams c))) ++
  (if _dispatchCount c =? 0 then [ReaperAdd] else []).

Lemma finish_message_eq ex m c : finish_message ex m c =
  (Ok tt, set_requests (drop_requests (_requests c) [m]) (set_asyncRequests (drop_asyncRequests (_asyncRequests c) [m])
    (set_calls (calls c ++ told ex m) c))).
Proof.
  unfold finish_message, message_finished, told, drop_requests, drop_asyncRequests. cbn [foldl].
  destruct (om_target m) as [|call|call w]; destruct (om_requestId m =? 0); cbn; rewrite ?app_nil_r; by destruct c.
Qed.

Lemma finish_queue_eq ex queue : forall c, for_each (finish_message ex) queue c =
  (Ok tt, set_requests (drop_requests (_requests c) queue) (set_asyncRequests (drop_asyncRequests (_asyncRequests c) queue)
    (set_calls (calls c ++ concat (told ex <$> queue)) c))).
Proof.
  induction queue as [|m queue IH]; intros c; cbn [for_each].
  - cbn. rewrite app_nil_r. by destruct c.
  - rewrite (bind_ok _ _ _ _ _ (finish_message_eq ex m c)), IH. cbn. rewrite <- app_assoc. by destruct c.
Qed.

Lemma the_exception_eq ex c : _exception c = Some ex -> the_exception c = (Ok ex, c).
Proof. intros Hex. unfold the_exception. by rewrite bind_get, Hex. Qed.

Lemma tell_calls_eq ex l : forall c, _exception c = Some ex ->
  for_each (fun call => ex ← the_exception; emit (CallFinished call ex true)) l c =
  (Ok tt, set_calls (calls c ++ told_calls ex l) c).
Proof.
  induction l as [|call l IH]; intros c Hex; cbn [for_each].
  - cbn. rewrite app_nil_r. by destruct c.
  - assert ((ex ← the_exception; emit (CallFinished call ex true)) c =
      (Ok tt, set_calls (calls c ++ [CallFinished call ex true]) c)) as Hone.
    { rewrite (bind_ok _ _ _ _ _ (the_exception_eq ex c Hex)). done. }
    rewrite (bind_ok _ _ _ _ _ Hone), IH by done. cbn. rewrite <- app_assoc. by destruct c.
Qed.

Lemma setState_finished_eq c : _state c = StateClosed -> usable (_transceiver c) ->
  exists n mo, sent n = sent (_transceiver c) /\
    setState StateFinished c = (Ok tt, set_state StateFinished (set_monitored mo (set_transceiver n c))).
Proof.
  intros Hst Hu. pose proof (close_law _ Hu) as Hc.
  assert (exists n, sent n = sent (_transceiver c) /\
    try_local (leave_state StateFinished) (fun _ => mret true) c = (Ok true, set_transceiver n c)) as (n & Hn & Hl).
  { unfold try_local, leave_state. rewrite bind_get, bind_assert by (by rewrite bool_decide_eq_true_2).
    unfold on, mbind, M_bind. apply wp_elim in Hc as [([] & n & -> & Hn)|(e & n & -> & He & Hn)].
    - exists n. by split.
    - exists n. rewrite He. by split. }
  exists n, (monitored c). split; [done|]. unfold setState.
  assert (switchState StateFinished c = (Ok true, set_state StateFinished (set_monitored (monitored c) (set_transceiver n c)))) as Hs.
  { unfold switchState. rewrite bind_get, effective_other, bool_decide_eq_false_2 by (rewrite ?Hst; done).
    rewrite (bind_ok _ _ _ _ _ Hl). unfold when. rewrite Hst. cbn [bool_decide].
    rewrite !(bool_decide_eq_false_2 (StateFinished = StateActive)), !(bool_decide_eq_false_2 (StateClosed = StateActive)) by done.
    destruct (0 <? _acmTimeout c); by destruct c. }
  rewrite (bind_ok _ _ _ _ _ Hs), bind_get. cbn [_state set_state].
  by rewrite bool_decide_eq_false_2.
Qed.

(** The queue is told, with the stream back in the message at its front. *)
Lemma finish_sendStreams_eq ex c : _exception c = Some ex -> exists w,
  (match _sendStreams c with
   | [] => mret tt
   | m :: rest =>
       when (negb (is_nil (b (_writeStream c)))) (
         modify (fun c => let '(m, c) := swap_writeStream m c in set_sendStreams (m :: rest) c));;
       ex ← the_exception;
       c ← get;
       for_each (finish_message ex) (_sendStreams c);;
       modify (set_sendStreams [])
   end) c = (Ok tt, set_sendStreams [] (set_writeStream w (set_requests (drop_requests (_requests c) (_sendStreams c))
      (set_asyncRequests (drop_asyncRequests (_asyncRequests c) (_sendStreams c))
      (set_calls (calls c ++ concat (told ex <$> _sendStreams c)) c))))).
Proof.
  intros Hex. destruct (_sendStreams c) as [|m rest] eqn:Eq.
  { exists (_writeStream c). cbn. rewrite app_nil_r. destruct c; cbn in *. by subst. }
  assert (exists w m', when (negb (is_nil (b (_writeStream c))))
      (modify (fun c => let '(m, c) := swap_writeStream m c in set_sendStreams (m :: rest) c)) c =
      (Ok tt, set_sendStreams (m' :: rest) (set_writeStream w c)) /\ om_target m' = om_target m /\
      om_requestId m' = om_requestId m /\ om_isSent m' = om_isSent m) as (w & m' & Hw & Ht & Hi & Hs).
  { unfold when. case_if.
    - unfold swap_writeStream. eexists _, _. by split_and!.
    - exists (_writeStream c), m. split; [|done]. destruct c; cbn in *. by subst. }
  exists w. rewrite (bind_ok _ _ _ _ _ Hw). set (c1 := set_sendStreams _ _).
  rewrite (bind_ok _ _ _ _ _ (the_exception_eq ex c1 Hex)), bind_get, (bind_ok _ _ _ _ _ (finish_queue_eq ex _ c1)).
  cbn [_sendStreams c1 set_sendStreams]. unfold drop_requests, drop_asyncRequests. cbn [foldl fmap list_fmap concat].
  unfold told at 1 2. rewrite Ht, Hi, Hs. by destruct c.
Qed.

(** [finish] of a connection that is closed: every member that it leaves *)
Definition wound_up n w mo ev c : conn :=
  set_calls ev (set_state StateFinished (set_monitored mo (set_transceiver n (set_writeStream w (set_asyncRequests ∅
    (set_requests ∅ (set_sendStreams [] (set_startCallback None c)))))))).

Lemma finish_eq ex c : _state c = StateClosed -> _exception c = Some ex -> usable (_transceiver c) ->
  exists n w mo, sent n = sent (_transceiver c) /\
    finish c = (Ok tt, wound_up n w mo (calls c ++ finish_events ex c) c).
Proof.
  intros Hst Hex Hu. unfold finish. rewrite bind_get.
  (** the start callback *)
  set (ev1 := match _startCallback c with Some cb => [StartFailed cb ex] | None => [] end).
  set (c1 := set_startCallback None (set_calls (calls c ++ ev1) c)).
  assert (match _startCallback c with
          | Some cb => ex ← the_exception; emit (StartFailed cb ex);; modify (set_startCallback None)
          | None => mret tt
          end c = (Ok tt, c1)) as H1.
  { unfold c1, ev1. destruct (_startCallback c) eqn:Ecb.
    - by rewrite (bind_ok _ _ _ _ _ (the_exception_eq ex c Hex)).
    - rewrite app_nil_r. by destruct c; cbn in *; subst. }
  rewrite (bind_ok _ _ _ _ _ H1), bind_get.
  (** the queue *)
  destruct (finish_sendStreams_eq ex c1 Hex) as [w H2]. rewrite (bind_ok _ _ _ _ _ H2), bind_get.
  change (_sendStreams c1) with (_sendStreams c) in *. change (_requests c1) with (_requests c) in *.
  change (_asyncRequests c1) with (_asyncRequests c) in *.
  set (queue := _sendStreams c) in *. set (t1 := drop_requests _ _) in *. set (t2 := drop_asyncRequests _ _) in *.
  set (c2 := set_sendStreams [] _) in *.
  (** the tables *)
  rewrite (bind_ok _ _ _ _ _ (tell_calls_eq ex (table_calls (_requests c2)) c2 Hex)), bind_modify.
  set (c3 := set_requests ∅ _).
  change (_asyncRequests c2) with (_asyncRequests c3).
  rewrite (bind_ok _ _ _ _ _ (tell_calls_eq ex (table_calls (_asyncRequests c3)) c3 Hex)), bind_modify.
  set (c4 := set_asyncRequests ∅ _).
  destruct (setState_finished_eq c4 Hst Hu) as (n & mo & Hn & H4). rewrite (bind_ok _ _ _ _ _ H4), bind_get.
  exists n, w, mo. split; [done|]. unfold when.
  change (_dispatchCount _) with (_dispatchCount c) at 1.
  unfold finish_events. fold ev1. fold queue. fold t1. fold t2.
  assert (calls c4 = calls c ++ ev1 ++ concat (told ex <$> queue) ++ told_calls ex (table_calls t1) ++ told_calls ex (table_calls t2)) as Hcalls.
  { unfold c4, c3, c2, c1. cbn [calls set_asyncRequests set_requests set_calls set_sendStreams set_writeStream set_startCallback
      _requests _asyncRequests]. by rewrite <- !app_assoc. }
  assert (forall ev, set_calls ev (set_state StateFinished (set_monitored mo (set_transceiver n c4))) = wound_up n w mo ev c) as Hend
    by (intros ev; unfold c4, c3, c2, c1, wound_up; by destruct c).
  case_if.
  - unfold emit, modify. rewrite Hend. cbn [calls set_state set_monitored set_transceiver]. rewrite Hcalls.
    by rewrite <- !app_assoc.
  - rewrite app_nil_r, <- Hcalls, <- Hend. by destruct c4.
Qed.

(** The state after [FinishedWorkItem] has run *)
Definition finished_state n w mo ev rts wts c : conn :=
  wound_up n w mo ev (times_to false rts false wts (set_finish_items 0 c)).

Lemma finished_ok n w mo ev rts wts c : conn_ok c -> _state c = StateClosed -> conn_ok (finished_state n w mo ev rts wts c).
Proof.
  intros Hok Hst. assert (is_Some (_exception c)) as Hex by (apply (ok_exception c Hok); by rewrite Hst).
  unfold finished_state, wound_up. destruct Hok. destruct c. cbn in *. subst. constructor; cbn in *; done || lia.
Qed.

Lemma finish_work_eq ex c : conn_ok c -> _state c = StateClosed -> _exception c = Some ex ->
  exists n w mo rts wts, sent n = sent (_transceiver c) /\
    finish_work c = (Ok tt, finished_state n w mo (calls c ++ finish_events ex c) rts wts c).
Proof.
  intros Hok Hst Hex. unfold finish_work. rewrite bind_modify.
  assert (pred (finish_items c) = 0%nat) as -> by (by rewrite (ok_finish c Hok), bool_decide_eq_true_2).
  set (c1 := set_finish_items 0 c).
  destruct (unscheduleTimeout_eq (MkOp true true) c1 (ok_tasks c Hok)) as (rts & wts & Hu & _).
  assert (finished c1 = (Ok tt, times_to false rts false wts c1)) as Hf.
  { unfold finished. rewrite bind_get, bind_assert by (by apply bool_decide_eq_true_2). done. }
  rewrite (bind_ok _ _ _ _ _ Hf). set (c2 := times_to false rts false wts c1).
  assert (usable (_transceiver c2)) as Hus by (apply (ok_usable c Hok); by rewrite Hst).
  destruct (finish_eq ex c2 Hst Hex Hus) as (n & w & mo & Hn & He). exists n, w, mo, rts, wts. by split.
Qed.

(** A connection that is closed gets finished: nothing throws on the way. *)
Lemma keeps_finish_work c : conn_ok c -> _state c = StateClosed ->
  wp finish_work (fun _ c' => conn_ok c' /\ steady c c' /\ _state c' = StateFinished) (fun _ _ => False) c.
Proof.
  intros Hok Hst. destruct (proj1 (ok_exception c Hok)) as [ex Hex]; [by rewrite Hst|].
  destruct (finish_work_eq ex c Hok Hst Hex) as (n & w & mo & rts & wts & _ & He). eapply wp_eq; [exact He|].
  split; [by apply finished_ok|]. split; [|done]. split; try done; auto.
  intros _. cbn. rewrite Hst. cbn. lia.
Qed.
End finish.
