(* ===== verification/ConnectionSystem.v ===== *)
(** * A connection and those who use it

    The transitions of a connection: what its callers, its dispatches, the
    thread pool, the timer and the connection monitor do to it, each with the
    condition under which they do it. A ledger holds the requests and the
    callbacks that are being dispatched. Everything that is reachable is in
    order, and no transition faults. *)

From S2P Require Import Prelude Hoare Buffer Layout Protocol Stream Wire Encaps Transceiver.
From S2P Require Import ConnectionData ConnectionSend ConnectionState OrderedMap Connection StreamSpec.
From S2P Require Import ConnectionFrame ConnectionQueue ConnectionInv ConnectionRequests ConnectionDispatch ConnectionOpen.
From S2P Require Import ConnectionLife ConnectionReceive ConnectionParse ConnectionNext ConnectionMessage ConnectionFinish.

Section system.
Context `{PL : Platform} {D E : Type} {TR : Transceiver} {ST : Settings} {BZ : BZip2} {LW : TransceiverLaws TR}.
Context `{LI : !Limits} {RR : ReplyReader D E} {RL : ReplyLaws RR}.
Local Abbreviation stream := (BasicStream D E).
Local Abbreviation conn := (@ConnectionI D E TR).
Local Abbreviation job := (@Job D E).
Implicit Types (c : conn) (j : job) (os : stream).

(** ** Transitions *)

Inductive Action : Type :=
  | AStart (callback : option nat)
  | AStartResume
  | AActivate
  | AHold
  | ADestroy (reason : DestructionReason)
  | AClose (force : bool)
  | AException (ex : exn)
  | ASetAdapter (adapter : option nat)
  | AGetInfo
  | AThrowException
  | AWaitUntilFinished
  | ATick (now : Z)
  | AMonitor (now : Z)
  | AWriteTimer
  | AReadTimer
  | ASendRequest (call : nat) (os : stream) (compress response : bool)
  | ASendAsyncRequest (call : nat) (wants_sent : bool) (os : stream) (compress response : bool)
  | APrepareBatchRequest (os : stream)
  | AAbortBatchRequest
  | AFinishBatchRequest (os : stream) (compress : bool)
  | AFlushBatchRequests (call : nat) (os : stream)
  | AFlushAsyncBatchRequests (call : nat) (wants_sent : bool) (os : stream)
  | ASendResponse (os : stream) (compressFlag : byte)
  | ASendNoResponse
  | AInvokeException (ex : exn) (invokeNum : Z)
  | ADispatchDone
  | AMessage (operation : SocketOperation) (current : stream)
  | AFinishWork.

Definition quiet {A} (m : M conn A) : M conn (option job) := m;; mret None.

(** [TimeoutCallback::runTimerTask]: the timer has taken the task out. *)
Definition run (a : Action) : M conn (option job) :=
  match a with
  | AStart cb => quiet (start cb)
  | AStartResume => quiet start_resume
  | AActivate => quiet activate
  | AHold => quiet hold
  | ADestroy reason => quiet (destroy reason)
  | AClose force => quiet (close force)
  | AException ex => quiet (exception ex)
  | ASetAdapter adapter => quiet (setAdapter adapter)
  | AGetInfo => quiet getInfo
  | AThrowException => quiet throwException
  | AWaitUntilFinished => quiet waitUntilFinished
  | ATick now => quiet (modify (set_clock now))
  | AMonitor now => quiet (monitor now)
  | AWriteTimer => quiet (modify (set_write_task false);; timedOut)
  | AReadTimer => quiet (modify (set_read_task false);; timedOut)
  | ASendRequest call os compress response => quiet (sendRequest call os compress response)
  | ASendAsyncRequest call w os compress response => quiet (sendAsyncRequest call w os compress response)
  | APrepareBatchRequest os => quiet (prepareBatchRequest os)
  | AAbortBatchRequest => quiet abortBatchRequest
  | AFinishBatchRequest os compress => quiet (finishBatchRequest os compress)
  | AFlushBatchRequests call os => quiet (flushBatchRequests call os)
  | AFlushAsyncBatchRequests call w os => quiet (flushAsyncBatchRequests call w os)
  | ASendResponse os flag => quiet (sendResponse os flag)
  | ASendNoResponse => quiet sendNoResponse
  | AInvokeException ex n => quiet (invokeException ex n)
  | ADispatchDone => quiet dispatch_done
  | AMessage op current => message op current
  | AFinishWork => quiet finish_work
  end.

(** ** The ledger *)

Record System : Type := MkSystem {
  sys_conn : conn;
  owed_requests : Z;
  owed_callbacks : Z
}.

(** Who may do what, and when *)
Definition guard (a : Action) (s : System) : Prop :=
  let c := sys_conn s in
  match a with
  | AStart _ => may_start c
  | AStartResume => start_waits c = false
  | AException ex => is_local ex = true
  | AWaitUntilFinished => waitUntilFinished_waits c = false
  | AWriteTimer => write_task c = true
  | AReadTimer => read_task c = true
  | ASendRequest _ os compress response | ASendAsyncRequest _ _ os compress response =>
      validated c /\ request_sendable (_compressionLevel c) compress response (b os)
  | APrepareBatchRequest _ => validated c /\ batch_waits c = false
  | AAbortBatchRequest => validated c /\ _batchStreamInUse c = true
  | AFinishBatchRequest os _ => validated c /\ _batchStreamInUse c = true /\ (_batchMarker c < length (b os))%nat /\
      batch_sendable c (take (_batchMarker c) (b os))
  | AFlushBatchRequests _ _ | AFlushAsyncBatchRequests _ _ _ =>
      validated c /\ batch_waits c = false /\ batch_sendable c (b (_batchStream c))
  | ASendResponse os flag => 0 < owed_requests s /\ sendable (_compressionLevel c) (0 <? ord flag) (b os)
  | ASendNoResponse => 0 < owed_requests s
  | AInvokeException ex n => 0 <= n <= owed_requests s /\ 0 < owed_requests s /\ is_local ex = true
  | ADispatchDone => 0 < owed_callbacks s
  | AMessage op _ => ready op c
  | AFinishWork => (0 < finish_items c)%nat
  | _ => True
  end.

Definition account (a : Action) (r : result (option job)) (s : System) (c : conn) : System :=
  match a, r with
  | ASendResponse _ _, _ | ASendNoResponse, _ => MkSystem c (owed_requests s - 1) (owed_callbacks s)
  | AInvokeException _ n, _ => MkSystem c (owed_requests s - n) (owed_callbacks s)
  | ADispatchDone, _ => MkSystem c (owed_requests s) (owed_callbacks s - 1)
  | AMessage _ _, Ok (Some j) => MkSystem c (owed_requests s + invokeNum j) (owed_callbacks s + callbacks j)
  | _, _ => MkSystem c (owed_requests s) (owed_callbacks s)
  end.

(** The dispatches of a connection fit into its count. *)
Definition fits (s : System) : Prop := owed_requests s + owed_callbacks s < 2 ^ 31.

Inductive step (s : System) : System -> Prop :=
  | do_action a r c' : guard a s -> run a (sys_conn s) = (r, c') -> fits (account a r s c') ->
      step s (account a r s c').

Inductive reachable (n : net) (now : Z) (adapter : option nat) : System -> Prop :=
  | reach_new : reachable n now adapter (MkSystem (ConnectionI_new n now adapter) 0 0)
  | reach_step s s' : reachable n now adapter s -> step s s' -> reachable n now adapter s'.

(** ** The invariant *)

Record in_order (s : System) : Prop := {
  io_conn : conn_ok (sys_conn s);
  io_batch : batch_fine (sys_conn s);
  io_count : _dispatchCount (sys_conn s) = owed_requests s + owed_callbacks s;
  io_owed : 0 <= owed_requests s /\ 0 <= owed_callbacks s;
  io_shutdown : _shutdownInitiated (sys_conn s) = true -> owed_requests s = 0
}.

(** Nothing is dispatched before the validation. *)
Lemma dispatch_validated s : in_order s -> 0 < owed_requests s + owed_callbacks s -> validated (sys_conn s).
Proof.
  intros [Hok _ Hc _ _] Hpos. unfold validated.
  destruct (Z.le_gt_cases (state_code (_state (sys_conn s))) (state_code StateNotValidated)) as [Hy|]; [|done].
  destruct (ok_young _ Hok Hy). lia.
Qed.

Lemma new_in_order n now adapter : usable n -> in_order (MkSystem (ConnectionI_new n now adapter) 0 0).
Proof.
  intros Hn. split; [by apply ConnectionI_new_ok| |done|done|done]. intros _. by left.
Qed.

(** A step that leaves the ledger alone *)
Lemma steady_in_order s c' : in_order s -> conn_ok c' -> steady (sys_conn s) c' ->
  in_order (MkSystem c' (owed_requests s) (owed_callbacks s)).
Proof.
  intros [Hok Hb Hc Ho Hs] Hok' Hst. destruct Hst as [H1 H2 _ _ H5]. split; cbn; auto; [lia|].
  intros Hsh. destruct (H2 Hsh) as [?|Hz]; [by apply Hs|]. lia.
Qed.

(** One that ends [n] dispatches *)
Lemma ended_in_order s c' n k : in_order s -> ended (n + k) (sys_conn s) c' -> 0 <= n <= owed_requests s ->
  0 <= k <= owed_callbacks s -> in_order (MkSystem c' (owed_requests s - n) (owed_callbacks s - k)).
Proof.
  intros [Hok Hb Hc Ho Hs] [Hok' [H1 H2 _ _ H5]] Hn Hk. cbn in *. split; cbn; auto; try lia.
  intros Hsh. destruct (H2 Hsh) as [?|Hz]; [specialize (Hs H); lia|]. lia.
Qed.

(** Closing is not undone, and the first exception stays. *)
Definition lasts c c' : Prop :=
  ((StateClosing <= _state c)%state -> (_state c <= _state c')%state) /\
  (forall e, _exception c = Some e -> _exception c' = Some e).

#[export] Instance lasts_preorder : PreOrder lasts.
Proof.
  split; [by split|]. intros c1 c2 c3 [H1 H2] [G1 G2]. split; [|auto].
  intros Hc. pose proof (H1 Hc). etrans; [done|]. apply G1. lia.
Qed.

Lemma steady_lasts c c' : steady c c' -> lasts c c'.
Proof. by intros []. Qed.

Lemma ended_lasts n c c' : ended n c c' -> lasts c c'.
Proof. by intros [_ []]. Qed.

(** The transitions that somebody else than a caller drives: there is nobody
    to throw to. *)
Definition may_throw (a : Action) : bool :=
  match a with
  | ASendResponse _ _ | ASendNoResponse | AInvokeException _ _ | ADispatchDone | AMessage _ _ | AFinishWork => false
  | _ => true
  end.

(** What a transition establishes *)
Definition establishes (a : Action) (s : System) : Prop :=
  wp (run a)
    (fun r c' => lasts (sys_conn s) c' /\ (fits (account a (Ok r) s c') -> in_order (account a (Ok r) s c')))
    (fun e c' => may_throw a = true /\ lasts (sys_conn s) c' /\ in_order (account a (Throw e) s c')) (sys_conn s).

Lemma quiet_establishes {A} (m : M conn A) a s : in_order s -> may_throw a = true -> run a = quiet m ->
  (forall r c', account a r s c' = MkSystem c' (owed_requests s) (owed_callbacks s)) ->
  keeps m (sys_conn s) -> establishes a s.
Proof.
  intros Hs Hm Hr Ha Hk. unfold establishes. rewrite Hr. apply wp_bind. eapply wp_conseq; [exact Hk|..].
  - intros x c' [Hok Hst]. apply wp_ret. rewrite Ha. split; [by apply steady_lasts|]. intros _. by apply steady_in_order.
  - intros e c' [Hok Hst]. rewrite Ha. split; [done|]. split; [by apply steady_lasts|]. by apply steady_in_order.
Qed.

Lemma end_establishes (m : M conn unit) a s n k : in_order s -> run a = quiet m ->
  (forall r c', account a r s c' = MkSystem c' (owed_requests s - n) (owed_callbacks s - k)) ->
  0 <= n <= owed_requests s -> 0 <= k <= owed_callbacks s ->
  wp m (fun _ => ended (n + k) (sys_conn s)) (fun _ _ => False) (sys_conn s) -> establishes a s.
Proof.
  intros Hs Hr Ha Hn Hk Hm. unfold establishes. rewrite Hr. apply wp_bind. eapply wp_conseq; [exact Hm|..].
  - intros [] c' He. apply wp_ret. rewrite Ha. split; [by eapply ended_lasts|]. intros _. by apply ended_in_order.
  - done.
Qed.

Lemma dispatch_facts s : in_order s -> 0 < owed_requests s ->
  conn_ok (sys_conn s) /\ validated (sys_conn s) /\ 0 < _dispatchCount (sys_conn s) /\ awaits_dispatch (sys_conn s).
Proof.
  intros Hs Hpos. pose proof Hs as [Hok Hb Hc Ho Hsh]. split; [done|]. split; [apply dispatch_validated; [done|lia]|].
  split; [lia|]. intros _. destruct (_shutdownInitiated (sys_conn s)); [specialize (Hsh eq_refl); lia|done].
Qed.

Lemma keeps_timer rt wt c : conn_ok c -> (rt = true -> read_task c = true) -> (wt = true -> write_task c = true) ->
  keeps timedOut (set_read_task rt (set_write_task wt c)).
Proof.
  intros Hok Hr Hw. apply keeps_timedOut. destruct (ok_tasks c Hok) as [Htw Htr].
  assert (set_read_task rt (set_write_task wt c) = times_to rt (_readTimeoutScheduled c) wt (_writeTimeoutScheduled c) c) as ->
    by (by destruct c).
  apply times_ok; [done|..]; intros Hx; (split; [auto|]); [by apply Htr, Hr|by apply Htw, Hw].
Qed.

Lemma keeps_after {A} f (m : M conn A) c : steady c (f c) -> keeps m (f c) -> keeps (modify f;; m) c.
Proof. intros Hs Hm. apply wp_bind, wp_modify. by apply keeps_conseq. Qed.

Lemma keeps_timers c : conn_ok c ->
  keeps (modify (set_write_task false);; timedOut) c /\ keeps (modify (set_read_task false);; timedOut) c.
Proof.
  intros Hok. split; apply keeps_after; try (by split; try done; auto; cbn; lia).
  - assert (set_write_task false c = set_read_task (read_task c) (set_write_task false c)) as -> by (by destruct c).
    by apply keeps_timer.
  - assert (set_read_task false c = set_read_task false (set_write_task (write_task c) c)) as -> by (by destruct c).
    by apply keeps_timer.
Qed.

Lemma message_establishes op current s : in_order s -> guard (AMessage op current) s -> establishes (AMessage op current) s.
Proof.
  intros Hs Hg. pose proof Hs as [Hok Hb Hc Ho Hsh]. unfold establishes. cbn [run].
  eapply wp_conseq; [by apply message_ok|..]; [|done].
  intros [j|] c' Hm; [|split; [apply steady_lasts, Hm|intros _; by apply steady_in_order; [|apply Hm|apply Hm]]].
  split; [by split; apply Hm|]. intros Hf.
  destruct Hm as (Hok' & [H1 H2 H3 H4 H5] & Hj & Hnew & Hv & Hd). cbn [fst snd] in *.
  unfold fits, account in *. cbn in Hf. assert (0 <= callbacks j <= 1) by (unfold callbacks; case_if; lia).
  assert (_dispatchCount c' = _dispatchCount (sys_conn s) + invokeNum j + callbacks j) as Hd'.
  { rewrite Hd, (to_i32_id (_ + invokeNum j)), to_i32_id; lia. }
  split; cbn; [| |lia|lia|].
  - destruct Hok'. unfold validated in Hv. constructor; cbn in *; try done; try lia.
    intros Hcl. destruct (ok_closing Hcl) as [Hdg Hz]. split; [done|]. intros Hz'. apply Hz. lia.
  - intros Hex. by apply H5.
  - intros Hs'. destruct (Z.eq_dec (invokeNum j) 0) as [->|Hne]; [|rewrite Hnew in Hs' by lia; done].
    destruct (H2 Hs') as [Hs''|Hz]; [specialize (Hsh Hs''); lia|lia].
Qed.

Lemma keeps_waitUntilFinished c : conn_ok c -> waitUntilFinished_waits c = false -> keeps waitUntilFinished c.
Proof.
  intros Hok Hw. unfold waitUntilFinished_waits in Hw. apply orb_false_iff in Hw as [Hw _]. bool_to_prop.
  unfold waitUntilFinished. apply wp_bind, wp_get, wp_bind, wp_assert.
  { apply bool_decide_eq_true_2. destruct (_state c); cbn in Hw; try lia; done. }
  apply wp_modify. destruct (set_adapters_ok None (_servantManager c) c Hok) as [H1 H2].
  assert (set_adapter None c = set_adapter None (set_servantManager (_servantManager c) c)) as -> by (by destruct c). done.
Qed.

Lemma keeps_tick now c : conn_ok c -> keeps (modify (set_clock now)) c.
Proof.
  intros Hok. apply wp_modify. split; [|by split; try done; auto; cbn; lia].
  destruct Hok. constructor; cbn in *; try done. intros Hy. by destruct (ok_young Hy).
Qed.

(** Every transition keeps a system in order, whether it returns or throws. *)
Lemma action_establishes a s : in_order s -> guard a s -> establishes a s.
Proof.
  intros Hs Hg. pose proof Hs as [Hok Hb Hc Ho Hsh].
  destruct a; cbn [guard] in Hg;
    try (eapply quiet_establishes; [done|reflexivity|reflexivity|by intros [|?|?]|]).
  - by apply keeps_start.
  - by apply keeps_start_resume.
  - by apply keeps_activate.
  - by apply keeps_hold.
  - by apply keeps_destroy.
  - by apply keeps_close_force.
  - by apply keeps_exception.
  - by apply keeps_setAdapter.
  - by apply keeps_getInfo.
  - by apply keeps_throwException.
  - by apply keeps_waitUntilFinished.
  - by apply keeps_tick.
  - by apply keeps_monitor.
  - by apply keeps_timers.
  - by apply keeps_timers.
  - destruct Hg. by apply keeps_sendRequest.
  - destruct Hg. by apply keeps_sendAsyncRequest.
  - destruct Hg. by apply keeps_prepareBatchRequest.
  - destruct Hg. by apply keeps_abortBatchRequest.
  - destruct Hg as (? & ? & ? & ?). by apply keeps_finishBatchRequest.
  - destruct Hg as (? & ? & ?). by apply keeps_flushBatchRequests.
  - destruct Hg as (? & ? & ?). by apply keeps_flushBatchRequests.
  - destruct Hg as [Hpos Hm]. destruct (dispatch_facts s Hs Hpos) as (? & ? & ? & ?).
    apply (end_establishes (sendResponse os compressFlag) _ _ 1 0); [done|done| |lia|lia|].
    + intros. by rewrite Z.sub_0_r.
    + by apply sendResponse_ok.
  - destruct (dispatch_facts s Hs Hg) as (? & ? & ? & ?).
    apply (end_establishes sendNoResponse _ _ 1 0); [done|done| |lia|lia|].
    + intros. by rewrite Z.sub_0_r.
    + by apply sendNoResponse_ok.
  - destruct Hg as (Hn & Hpos & Hex). destruct (dispatch_facts s Hs Hpos) as (? & ? & ? & ?).
    apply (end_establishes (invokeException ex invokeNum) _ _ invokeNum 0); [done|done| |lia|lia|].
    + intros. by rewrite Z.sub_0_r.
    + rewrite Z.add_0_r. apply invokeException_ok; [done..|lia].
  - apply (end_establishes dispatch_done _ _ 0 1); [done|done| |lia|lia|].
    + intros. by rewrite Z.sub_0_r.
    + apply dispatch_done_ok; [done|apply dispatch_validated; [done|lia]|lia].
  - by apply message_establishes.
  - assert (_state (sys_conn s) = StateClosed) as Hst.
    { rewrite (ok_finish _ Hok) in Hg. case_bool_decide; [done|lia]. }
    unfold establishes. apply wp_bind. eapply wp_conseq; [by apply keeps_finish_work|..]; [|done].
    intros [] c' (H1 & H2 & _). apply wp_ret. split; [by apply steady_lasts|]. intros _. by apply steady_in_order.
Qed.

Lemma step_lasts s s' : in_order s -> step s s' -> lasts (sys_conn s) (sys_conn s').
Proof.
  intros Hs [a r c' Hg Hr Hf]. pose proof (action_establishes a s Hs Hg) as He. unfold establishes, wp in He.
  rewrite Hr in He. assert (sys_conn (account a r s c') = c') as ->.
  { destruct a; try done. destruct r as [[]| |]; done. }
  destruct r as [x|e|f]; [by apply He|by apply He|done].
Qed.

Lemma reachable_in_order n now adapter s : usable n -> reachable n now adapter s -> in_order s.
Proof.
  intros Hn. induction 1 as [|s s' _ IH Hstep]; [by apply new_in_order|].
  destruct Hstep as [a r c' Hg Hr Hf]. pose proof (action_establishes a s IH Hg) as He.
  unfold establishes, wp in He. rewrite Hr in He. destruct r as [x|e|f]; [by apply He|apply He|done].
Qed.
End system.
