(* ===== verification/ConnectionWire.v ===== *)
(** * Messages across the wire

    What a connection frames, its peer opens: the header of a framed message
    passes the checks of [readHeader] with the size of the frame, and
    [parseMessage] finds the body that was framed, compressed or not. For the
    functions of bzip2, [BZip2Laws] states that they are inverse. *)

From S2P Require Import Prelude Hoare Buffer Layout Protocol Stream Wire Encaps Transceiver.
From S2P Require Import ConnectionData ConnectionSend ConnectionState OrderedMap Connection StreamSpec EncapsSpec.
From S2P Require Import ConnectionFrame ConnectionQueue ConnectionInv ConnectionRequests ConnectionDispatch ConnectionOpen ConnectionParse.

(** Bytes that were compressed come back in a buffer of their length. *)
Class BZip2Laws (BZ : BZip2) : Prop := {
  bz_lossless level room bs out : bz_compress level room bs = inl out ->
    bz_decompress (Z.of_nat (length bs)) out = inl bs
}.

Section wire.
Context `{PL : Platform} {D E : Type} {TR : Transceiver} {ST : Settings} {BZ : BZip2} {LW : TransceiverLaws TR}.
Context `{LI : !Limits} {BL : BZip2Laws BZ} {RR : ReplyReader D E}.
Local Abbreviation stream := (BasicStream D E).
Local Abbreviation conn := (@ConnectionI D E TR).
Local Abbreviation job := (@Job D E).
Implicit Types (s : stream) (c : conn) (j : job) (bs rest : list byte).

(** ** The shape of messages *)

Definition message_bytes (t flag : byte) (size rest : list byte) : list byte :=
  magic ++ [protocolMajor; protocolMinor; protocolEncodingMajor; protocolEncodingMinor; t; flag] ++ size ++ rest.

Lemma length_message_bytes t flag size rest : length (message_bytes t flag size rest) = (10 + length size + length rest)%nat.
Proof. unfold message_bytes. rewrite !length_app. cbn [length]. change (length magic) with 4%nat. lia. Qed.

Definition size_field (n : nat) : list byte := le_bytes 4 (Z.of_nat n).

Lemma length_size_field n : length (size_field n) = 4%nat.
Proof. apply length_le_bytes. Qed.

Lemma encode_size n : Z.of_nat n < 2 ^ 31 -> encode_scalar Int (to_i32 (Z.of_nat n)) = size_field n.
Proof. intros Hn. by rewrite encode_scalar_le, to_i32_id by lia. Qed.

Lemma store_flag flag' t flag size rest :
  ByteSeq.store 9 [flag'] (message_bytes t flag size rest) = message_bytes t flag' size rest.
Proof.
  exact (ByteSeq.store_mid 9 [flag'] (magic ++ [protocolMajor; protocolMinor; protocolEncodingMajor; protocolEncodingMinor; t])
    [flag] (size ++ rest) eq_refl eq_refl).
Qed.

Lemma store_size size' t flag size rest : length size' = length size ->
  ByteSeq.store 10 size' (message_bytes t flag size rest) = message_bytes t flag size' rest.
Proof.
  intros Hl. exact (ByteSeq.store_mid 10 size'
    (magic ++ [protocolMajor; protocolMinor; protocolEncodingMajor; protocolEncodingMinor; t; flag]) size rest eq_refl Hl).
Qed.

Lemma take_header t flag size rest : length size = 4%nat ->
  take headerSize (message_bytes t flag size rest) = message_bytes t flag size [] /\
  drop headerSize (message_bytes t flag size rest) = rest.
Proof.
  intros Hl. assert (message_bytes t flag size rest = message_bytes t flag size [] ++ rest) as ->.
  { unfold message_bytes. by rewrite app_nil_r, <- !app_assoc. }
  assert (headerSize = length (message_bytes t flag size [])) as -> by (by rewrite length_message_bytes, Hl).
  by rewrite take_app_length, drop_app_length.
Qed.

(** What follows the header of a frame: the body, or its length before
    compression and the compressed body *)
Definition carries (level : Z) (flag : byte) (payload : list byte) (body : list byte) : Prop :=
  (flag = chr 0 \/ flag = chr 1) /\ payload = body \/
  flag = chr 2 /\ has_bzip2 = true /\ (86 <= length body)%nat /\ exists room out,
    bz_compress level room body = inl out /\ payload = size_field (headerSize + length body) ++ out.

Lemma frame_carries level cz t size body fb z : length size = 4%nat ->
  frame_bytes level cz (message_bytes t (chr 0) size body) = Ok (fb, z) ->
  Z.of_nat (length fb) < 2 ^ 31 -> Z.of_nat (headerSize + length body) < 2 ^ 31 ->
  exists flag payload, fb = message_bytes t flag (size_field (length fb)) payload /\ carries level flag payload body.
Proof.
  intros Hsize Hf Hfb Hlen. unfold frame_bytes in Hf. rewrite length_message_bytes, Hsize in Hf. cbn [Nat.add] in Hf.
  destruct (has_bzip2 && cz && _) eqn:Ec; bool_to_prop.
  - cbn zeta in Hf. rewrite store_flag in Hf. destruct (take_header t (chr 2) size body Hsize) as [_ Hd]. rewrite Hd in Hf.
    destruct (bz_compress level _ body) as [out|code] eqn:Eb; [|done].
    rewrite store_size in Hf by (by rewrite length_encode_Int).
    rewrite (proj1 (take_header t (chr 2) _ body (length_encode_Int _))) in Hf.
    rewrite length_message_bytes, length_encode_Int in Hf.
    match type of Hf with Ok (?x, _) = _ => assert (fb = x) as -> by congruence end. clear Hf.
    rewrite !length_app, length_message_bytes, !length_encode_Int in Hfb |- *. cbn [length] in *.
    exists (chr 2), (size_field (headerSize + length body) ++ out).
    unfold headerSize in *. rewrite !encode_size by (cbn in *; lia). split.
    + unfold message_bytes. rewrite app_nil_r, <- !app_assoc. done.
    + right. split_and!; [done|done|lia|]. by exists (compress_room (Z.of_nat (length (message_bytes t (chr 2) size body) - 14))), out.
  - rewrite (proj2 (Nat.ltb_ge _ _)) in Hf by (unfold headerSize; lia).
    exists (if cz then chr 1 else chr 0), body.
    assert (fb = message_bytes t (if cz then chr 1 else chr 0) (size_field (14 + length body)) body) as ->.
    { injection Hf as <- _. rewrite encode_size by (unfold headerSize in *; lia).
      destruct cz; rewrite ?store_flag; by rewrite store_size by (by rewrite length_size_field). }
    rewrite length_message_bytes, length_size_field. split; [done|]. left. split; [by destruct cz; [right|left]|done].
Qed.
(** ** The header *)

Definition accepts_size (n : nat) : Prop := (headerSize <= n)%nat /\ (n <= instance_messageSizeMax)%nat.

Lemma size_in_range n : Z.of_nat n < 2 ^ 31 -> in_range Int (Z.of_nat n).
Proof. intros. unfold in_range, in_signed. cbn -[Z.pow]. lia. Qed.

(** Reading at the offset [x] *)
Lemma read_Byte_at x s y rest : in_bounds (set_i x s) -> remaining (set_i x s) = y :: rest ->
  read_Byte (set_i x s) = (Ok y, set_i (x + 1) s) /\ in_bounds (set_i (x + 1) s) /\ remaining (set_i (x + 1) s) = rest.
Proof. intros Hs Hr. exact (read_Byte_next _ _ _ Hs Hr). Qed.

Lemma read_Int_at x s v rest : in_range Int v -> in_bounds (set_i x s) -> remaining (set_i x s) = le_bytes 4 v ++ rest ->
  read_Int (set_i x s) = (Ok v, set_i (x + 4) s) /\ in_bounds (set_i (x + 4) s) /\ remaining (set_i (x + 4) s) = rest.
Proof. intros Hv Hs Hr. exact (read_scalar_next Int v _ _ Hs Hv Hr). Qed.

Lemma read_EncodingVersion_at x s y z rest : in_bounds (set_i x s) -> remaining (set_i x s) = y :: z :: rest ->
  read_EncodingVersion (set_i x s) = (Ok (MkEncoding y z), set_i (x + 1 + 1) s) /\ in_bounds (set_i (x + 1 + 1) s) /\
  remaining (set_i (x + 1 + 1) s) = rest.
Proof.
  intros Hs Hr. destruct (read_Byte_at _ _ _ _ Hs Hr) as (H1 & Hs1 & Hr1).
  destruct (read_Byte_at _ _ _ _ Hs1 Hr1) as (H2 & Hs2 & Hr2). split; [|done].
  unfold read_EncodingVersion. by rewrite (bind_ok _ _ _ _ _ H1), (bind_ok _ _ _ _ _ H2).
Qed.

(** The next value that [H] reads from a stream whose bytes are known *)
Ltac reads_next H Hs Hr :=
  let H1 := fresh in let Hs' := fresh in let Hr' := fresh in
  destruct H as (H1 & Hs' & Hr'); rewrite (bind_ok _ _ _ _ _ H1); clear H1 Hs Hr;
  rename Hs' into Hs; rename Hr' into Hr.

Lemma header_accepted t flag payload s n : Z.of_nat instance_messageSizeMax < 2 ^ 31 -> accepts_size n ->
  in_bounds s -> remaining s = message_bytes t flag (size_field n) payload ->
  check_header s = (Ok (Z.of_nat n), set_i (i s + Z.of_nat headerSize) s).
Proof.
  intros Hmax [Hlo Hhi] Hs Hr. unfold check_header.
  assert (readBlob 4 s = (Ok magic, set_i (i s + 4) s) /\ in_bounds (set_i (i s + 4) s) /\
    remaining (set_i (i s + 4) s) = drop 4 (message_bytes t flag (size_field n) payload)) as H.
  { assert (4 <= length (remaining s))%nat as Hl by (rewrite Hr, length_message_bytes; lia).
    pose proof (length_remaining s Hs) as Hrem. split; [|split].
    - unfold readBlob. cbn [Z.ltb Z.compare]. step. rewrite (proj2 (Z.ltb_ge _ _)) by lia.
      rewrite (bind_ok _ _ _ _ _ (bytes_at_prefix s 4 Hs Hl)), Hr. done.
    - by apply (in_bounds_set_i s 4).
    - rewrite <- Hr. by apply (remaining_set_i s 4). }
  reads_next H Hs Hr. rewrite bool_decide_eq_true_2 by done. cbn [negb].
  cbn [message_bytes magic app drop] in Hr. change (drop 0 ?l) with l in Hr.
  reads_next (read_EncodingVersion_at _ _ _ _ _ Hs Hr) Hs Hr. erewrite bind_lift by reflexivity.
  reads_next (read_EncodingVersion_at _ _ _ _ _ Hs Hr) Hs Hr. erewrite bind_lift by reflexivity.
  reads_next (read_Byte_at _ _ _ _ Hs Hr) Hs Hr. reads_next (read_Byte_at _ _ _ _ Hs Hr) Hs Hr.
  reads_next (read_Int_at _ _ _ _ (size_in_range n ltac:(lia)) Hs Hr) Hs Hr.
  rewrite (proj2 (Z.ltb_ge (Z.of_nat n) _)) by lia. rewrite to_i32_id by lia.
  rewrite (proj2 (Z.ltb_ge _ (Z.of_nat n))) by lia.
  unfold mret, M_ret. f_equal. f_equal. unfold headerSize. lia.
Qed.
(** [readHeader] of the first bytes of a frame makes room for the rest. *)
Lemma readHeader_makes_room t flag payload c n :
  accepts_size n -> b (_readStream c) = message_bytes t flag (size_field n) payload ->
  i (_readStream c) = Z.of_nat headerSize -> (length (b (_readStream c)) <= n)%nat ->
  exists c', readHeader c = (Ok tt, c') /\ i (_readStream c') = Z.of_nat headerSize /\
    b (_readStream c') = ByteSeq.resize n (b (_readStream c)) /\ _readHeader c' = false.
Proof.
  intros Hn Hb Hi Hl. pose proof (proj2 message_limit) as Hmax. unfold readHeader. rewrite bind_modify, bind_gets.
  set (s := _readStream c) in *. change (i (_readStream (set_readHeader false c))) with (i s). rewrite Hi, Z.ltb_irrefl.
  unfold on_readStream, on. change (_readStream (set_readHeader false c)) with s. rewrite bind_modify.
  assert (length (b s) = (10 + 4 + length payload)%nat) as Hlen by (by rewrite Hb, length_message_bytes, length_size_field).
  assert (in_bounds (set_i 0 s)) as Hs by (unfold in_bounds, b_end, b_size; cbn; lia).
  rewrite (bind_ok _ _ _ _ _ (header_accepted t flag payload (set_i 0 s) n Hmax Hn Hs Hb)), bind_get.
  rewrite (to_i32_id (b_end _)) by (unfold b_end, b_size, accepts_size in *; cbn; lia). unfold when.
  destruct (b_end _ <? Z.of_nat n) eqn:El; (eexists; split; [reflexivity|]); (split; [done|]; split; [|done]).
  - cbn. by rewrite Nat2Z.id.
  - bool_to_prop. unfold b_end, b_size in El. cbn in El |- *. rewrite ByteSeq.resize_le by lia. symmetry. apply take_ge. lia.
Qed.

(** ** Opening a message *)

Lemma doUncompress_compressed t flag size body out level room (comp : stream) : length size = 4%nat ->
  b comp = message_bytes t flag size (size_field (headerSize + length body) ++ out) ->
  bz_compress level room body = inl out -> (0 < length body)%nat ->
  (headerSize + length body <= instance_messageSizeMax)%nat ->
  exists u : stream, doUncompress comp = Ok u /\ b u = message_bytes t flag size body.
Proof.
  intros Hsize Hb Hz Hpos Hfit. pose proof (proj2 message_limit) as Hmax. unfold doUncompress.
  destruct (take_header t flag size (size_field (headerSize + length body) ++ out) Hsize) as [Htake Hdrop].
  rewrite <- Hb in Htake, Hdrop.
  assert (length (b comp) = (14 + (4 + length out))%nat) as Hlen.
  { by rewrite Hb, length_message_bytes, length_app, length_size_field, Hsize. }
  assert (in_bounds (set_i (Z.of_nat headerSize) comp)) as Hin.
  { unfold in_bounds, b_end, b_size. cbn [b i set_i]. rewrite Hlen. unfold headerSize. lia. }
  destruct (read_Int_at (Z.of_nat headerSize) comp (Z.of_nat (headerSize + length body)) out) as (Hread & _).
  { apply size_in_range. lia. } { done. } { exact Hdrop. }
  rewrite Hread. cbn [mbind result_bind]. rewrite (proj2 (Z.leb_gt _ _)) by lia.
  set (n := (headerSize + length body)%nat). rewrite Nat2Z.id. unfold resize, new_stream. rewrite bind_get.
  cbn [unlimited messageSizeMax stream_new negb andb]. rewrite (proj2 (Nat.ltb_ge _ _)) by done. cbn [modify mbind result_bind].
  replace (Z.of_nat n - Z.of_nat headerSize) with (Z.of_nat (length body)) by (unfold n; lia).
  replace (drop (headerSize + 4) (b comp)) with out.
  2:{ rewrite <- drop_drop, Hdrop. rewrite drop_app_length'; [done|by rewrite length_size_field]. }
  rewrite (bz_lossless _ _ _ _ Hz). eexists. split; [done|]. cbn [b set_b stream_new].
  set (l := ByteSeq.resize n []). assert (length l = n) as Hl by apply ByteSeq.length_resize.
  rewrite <- (take_drop headerSize l), <- (app_nil_r (drop headerSize l)).
  rewrite (ByteSeq.store_mid headerSize body (take headerSize l) (drop headerSize l) []).
  2:{ rewrite length_take, Hl. unfold n. lia. } 2:{ rewrite length_drop, Hl. unfold n. lia. }
  rewrite Htake, app_nil_r.
  change (take headerSize l ++ body) with ([] ++ take headerSize l ++ body).
  rewrite ByteSeq.store_mid; [|done|].
  - unfold message_bytes. by rewrite app_nil_r, <- !app_assoc.
  - rewrite length_message_bytes, length_take, Hl, Hsize. unfold n, headerSize. cbn. lia.
Qed.
(** [open_message] of a frame finds the type and the body. *)
Lemma open_message_eq level t flag size payload body j c : length size = 4%nat -> carries level flag payload body ->
  (headerSize + length body <= instance_messageSizeMax)%nat -> b (job_stream j) = message_bytes t flag size payload ->
  exists s, open_message (j, c) = (Ok t, (set_job_stream s (set_compress flag j), c)) /\
    in_bounds (set_i (Z.of_nat headerSize) s) /\ s = set_i (Z.of_nat headerSize) s /\
    b s = message_bytes t flag size body.
Proof.
  intros Hsize Hc Hfit Hb. unfold open_message. set (s0 := job_stream j) in *.
  assert (length (b s0) = (10 + 4 + length payload)%nat) as Hlen by (by rewrite Hb, length_message_bytes, Hsize).
  assert (in_bounds (set_i 8 s0)) as Hs by (unfold in_bounds, b_end, b_size; cbn; lia).
  assert (remaining (set_i 8 s0) = t :: flag :: size ++ payload) as Hr by (unfold remaining; cbn [i set_i b]; by rewrite Hb).
  assert (on_stream (modify (set_i 8)) (j, c) = (Ok tt, (set_job_stream (set_i 8 s0) j, c))) as H1 by done.
  rewrite (bind_ok _ _ _ _ _ H1). clear H1.
  assert (forall x (v : byte) s j, read_Byte (set_i x s) = (Ok v, set_i (x + 1) s) ->
    on_stream read_Byte (set_job_stream (set_i x s) j, c) = (Ok v, (set_job_stream (set_i (x + 1) s) j, c))) as Hbyte.
  { intros x v s j' H. unfold on_stream, on. cbn [fst snd job_stream set_job_stream]. rewrite H. done. }
  destruct (read_Byte_at _ _ _ _ Hs Hr) as (H1 & Hs1 & Hr1). rewrite (bind_ok _ _ _ _ _ (Hbyte _ _ _ _ H1)).
  destruct (read_Byte_at _ _ _ _ Hs1 Hr1) as (H2 & Hs2 & Hr2). rewrite (bind_ok _ _ _ _ _ (Hbyte _ _ _ _ H2)).
  unfold on_job at 1. rewrite bind_modify. unfold when.
  set (s1 := set_i (8 + 1 + 1) s0) in *. cbn [fst snd].
  assert (forall s2 : stream, b s2 = message_bytes t flag size body -> in_bounds (set_i (Z.of_nat headerSize) s2)) as Hin.
  { intros s2 H. unfold in_bounds, b_end, b_size. cbn [b i set_i]. rewrite H, length_message_bytes, Hsize. unfold headerSize. lia. }
  destruct Hc as [[Hflag ->]|(-> & Hz & Hlong & room & out & Hout & ->)].
  - rewrite (proj2 (Z.eqb_neq _ _)) by (destruct Hflag as [-> | ->]; by vm_compute).
    exists (set_i (Z.of_nat headerSize) s1). split; [done|]. split; [by apply (Hin s1)|]. by split.
  - change (ord (chr 2) =? 2) with true. rewrite Hz. cbv iota.
    destruct (doUncompress_compressed t (chr 2) size body out level room s1) as (u & Hu & Hub); [done..|lia|done|].
    set (j1 := set_compress (chr 2) (set_job_stream s1 j)).
    assert ((s ← get; u ← lift (doUncompress (job_stream s.1)); on_stream (modify (set_b (b u)))) (j1, c) =
      (Ok tt, (set_job_stream (set_b (b u) s1) j1, c))) as H3.
    { rewrite bind_get. change (job_stream (j1, c).1) with s1. erewrite bind_lift by exact Hu. done. }
    rewrite (bind_ok _ _ _ _ _ H3). exists (set_i (Z.of_nat headerSize) (set_b (b u) s1)).
    split; [done|]. split; [by apply Hin|]. by split.
Qed.
(** ** Arrival *)

(** A whole frame is in [_readStream]. *)
Definition received (fb : list byte) c : Prop :=
  validated c /\ (_state c < StateClosed)%state /\ reading_ok c /\
  b (_readStream c) = fb /\ i (_readStream c) = b_end (_readStream c).

(** The connection is about to read the next header. *)
Definition next_header c c1 : Prop :=
  exists r, c1 = set_validated true (set_readHeader true (set_readStream r c)) /\
    length (b r) = headerSize /\ i r = 0.

Lemma parse_opens level t flag payload body fb j c : received fb c -> carries level flag payload body ->
  (headerSize + length body <= instance_messageSizeMax)%nat ->
  fb = message_bytes t flag (size_field (length fb)) payload ->
  exists s c1, parseMessage (j, c) =
      try_local (handle_message t) (fun ex => if tr_datagram then mret tt else on_conn (setState_ex StateClosed ex))
        (set_job_stream s (set_compress flag j), c1) /\
    next_header c c1 /\ in_bounds s /\ i s = Z.of_nat headerSize /\ b s = message_bytes t flag (size_field (length fb)) body.
Proof.
  intros (Hv & Hst & (Hin & _ & Hmax) & Hb & Hi) Hc Hfit Hfb. unfold parseMessage. rewrite bind_get.
  rewrite bind_assert by (apply andb_true_iff; split; by apply Z.ltb_lt). rewrite bind_modify. cbn [fst snd].
  set (s0 := _readStream c) in *. pose proof (swap_b s0 (job_stream j)) as (S1 & S2 & S3 & S4).
  destruct (swap s0 (job_stream j)) as [r0 t0] eqn:Esw. cbn [fst snd] in *.
  assert (messageSizeMax r0 = instance_messageSizeMax) as Hm by (by injection Esw as <- _).
  set (r := set_i 0 (set_b (ByteSeq.resize headerSize (b r0)) r0)).
  set (c1 := set_readHeader true (set_readStream r c)). set (j1 := set_job_stream t0 j).
  assert (on_conn reset_readStream (j1, set_readStream r0 c) = (Ok tt, (j1, c1))) as H1.
  { assert (wp reset_readStream (fun _ c' => c' = c1) (fun _ _ => False) (set_readStream r0 c)) as H.
    { apply wp_reset_readStream; [done|]. unfold c1, r. by destruct c. }
    apply wp_elim in H as [([] & c' & He & ->)|(e & c' & _ & [])]. unfold on_conn, on. cbn [fst snd]. by rewrite He. }
  rewrite (bind_ok _ _ _ _ _ H1), bind_get. cbn [fst snd job_stream j1 set_job_stream].
  rewrite bind_assert.
  2:{ apply Z.eqb_eq. rewrite S4, Hi. unfold b_end, b_size. by rewrite S2. }
  assert (on_conn (modify (set_validated true)) (j1, c1) = (Ok tt, (j1, set_validated true c1))) as H2 by done.
  rewrite (bind_ok _ _ _ _ _ H2).
  destruct (open_message_eq level t flag (size_field (length fb)) payload body j1 (set_validated true c1))
    as (s & Ho & Hs & Hi' & Hbs); [by rewrite length_size_field|done|done| |].
  { cbn [job_stream j1 set_job_stream]. by rewrite S2, Hb. }
  exists s, (set_validated true c1). unfold try_local. rewrite (bind_ok _ _ _ _ _ Ho).
  split; [done|]. split.
  - exists r. split; [done|]. split; [apply ByteSeq.length_resize|done].
  - rewrite <- Hi' in Hs. split; [done|]. split; [by rewrite Hi'|done].
Qed.

(** The first integer of the body *)
Lemma read_body_Int s t flag size id body : length size = 4%nat -> in_bounds s -> i s = Z.of_nat headerSize ->
  b s = message_bytes t flag size (encode_scalar Int id ++ body) -> in_range Int id ->
  read_Int s = (Ok id, set_i (Z.of_nat headerSize + 4) s) /\ remaining (set_i (Z.of_nat headerSize + 4) s) = body.
Proof.
  intros Hl Hs Hi Hb Hid. assert (s = set_i (Z.of_nat headerSize) s) as Es by (rewrite <- Hi; by destruct s).
  assert (remaining s = le_bytes 4 id ++ body) as Hr.
  { unfold remaining. rewrite Hi, Nat2Z.id, Hb. rewrite (proj2 (take_header t flag size _ Hl)). by rewrite encode_scalar_le. }
  rewrite Es in Hs, Hr. destruct (read_Int_at _ _ _ _ Hid Hs Hr) as (H1 & _ & H2). by rewrite Es.
Qed.

(** A size that is filled in later *)
Definition no_size : list byte := [chr 0; chr 0; chr 0; chr 0].

Lemma length_no_size : length no_size = 4%nat.
Proof. done. Qed.

Definition request_message (id : Z) (body : list byte) : list byte :=
  ByteSeq.store headerSize (encode_scalar Int id) (requestHdr ++ body).

Lemma request_message_bytes id body :
  request_message id body = message_bytes requestMsg (chr 0) no_size (encode_scalar Int id ++ body).
Proof.
  unfold request_message. change (requestHdr ++ body) with
    (message_bytes requestMsg (chr 0) no_size [] ++ no_size ++ body).
  rewrite ByteSeq.store_mid; [|done|by rewrite length_encode_Int]. unfold message_bytes. by rewrite !app_nil_r, <- !app_assoc.
Qed.
Definition reply_message (id : Z) (body : list byte) : list byte := replyHdr ++ encode_scalar Int id ++ body.

(** C9. A request that one connection has framed, compressed or not, is parsed by
    its peer into one invocation with the same request id and the same body,
    dispatched through the adapter of that time, with the dispatch count one higher
    and the next header expected. *)
Theorem request_arrives level cz id body fb z j c :
  frame_bytes level cz (request_message id body) = Ok (fb, z) -> Z.of_nat (length fb) < 2 ^ 31 ->
  received fb c -> _state c <> StateClosing -> in_range Int id ->
  (headerSize + 4 + length body <= instance_messageSizeMax)%nat ->
  exists j' c' c1, parseMessage (j, c) = (Ok tt, (j', c')) /\
    requestId j' = id /\ invokeNum j' = 1 /\ remaining (job_stream j') = body /\
    adapter j' = _adapter c /\ servantManager j' = _servantManager c /\
    next_header c c1 /\ c' = set_dispatchCount (to_i32 (_dispatchCount c + 1)) c1.
Proof.
  intros Hf Hfb Hc Hst Hid Hfit. pose proof (proj2 message_limit) as Hmax. rewrite request_message_bytes in Hf.
  set (payload := encode_scalar Int id ++ body) in *.
  assert (length payload = (4 + length body)%nat) as Hlen by (unfold payload; by rewrite length_app, length_encode_Int).
  destruct (frame_carries level cz _ _ payload fb z length_no_size Hf Hfb) as (flag & p & Hshape & Hcar); [lia|].
  destruct (parse_opens level _ _ _ _ fb j c Hc Hcar ltac:(lia) Hshape) as (s & c1 & Hp & Hn & Hs & Hi & Hb).
  destruct (read_body_Int s requestMsg flag (size_field (length fb)) id body (length_size_field _) Hs Hi Hb Hid) as [Hread Hrem].
  destruct Hn as (r & Hc1 & Hr). set (s' := set_i (Z.of_nat headerSize + 4) s) in *.
  set (j1 := set_job_stream s (set_compress flag j)) in *.
  exists (set_job_servantManager (_servantManager c) (set_job_adapter (_adapter c) (set_invokeNum 1 (set_requestId id
    (set_job_stream s' j1))))), (set_dispatchCount (to_i32 (_dispatchCount c + 1)) c1), c1.
  split; [|split_and!; [done..|by exists r|done]].
  rewrite Hp. unfold handle_message, try_local. rewrite bind_get. cbn [snd].
  change (ceq requestMsg closeConnectionMsg) with false. change (ceq requestMsg requestMsg) with true. cbv iota.
  assert (_state c1 = _state c) as -> by (by subst c1). rewrite bool_decide_eq_false_2 by done. cbn [negb when].
  assert (on_stream read_Int (j1, c1) = (Ok id, (set_job_stream s' j1, c1))) as H1.
  { unfold on_stream, on. change (job_stream (j1, c1).1) with s. by rewrite Hread. }
  unfold handle_request. rewrite (bind_ok _ _ _ _ _ H1). by subst c1.
Qed.

(** C27. A framed reply, compressed or not, to an asynchronous request reaches the
    caller that waits under its id with the body that was framed, and the entry of
    the request is gone. *)
Theorem reply_arrives level cz id call body fb z j c :
  frame_bytes level cz (reply_message id body) = Ok (fb, z) -> Z.of_nat (length fb) < 2 ^ 31 ->
  received fb c -> in_range Int id -> (headerSize + 4 + length body <= instance_messageSizeMax)%nat ->
  hints_valid c -> _requests c !! id = None -> _asyncRequests c !! id = Some call ->
  exists j' c' c1 reply, parseMessage (j, c) = (Ok tt, (j', c')) /\
    outAsync j' = Some call /\ drop (headerSize + 4) reply = body /\ next_header c c1 /\
    c' = set_calls (calls c ++ [CallReplyAsync call reply])
      (set_asyncRequestsHint (erase_request id (_asyncRequests c) (_asyncRequestsHint c)).2
        (set_asyncRequests (delete id (_asyncRequests c)) c1)).
Proof.
  intros Hf Hfb Hc Hid Hfit Hh Hno Hyes. pose proof (proj2 message_limit) as Hmax.
  set (payload := encode_scalar Int id ++ body) in *.
  assert (length payload = (4 + length body)%nat) as Hlen by (unfold payload; by rewrite length_app, length_encode_Int).
  change (reply_message id body) with (message_bytes replyMsg (chr 0) no_size payload) in Hf.
  destruct (frame_carries level cz _ _ payload fb z length_no_size Hf Hfb) as (flag & p & Hshape & Hcar); [lia|].
  destruct (parse_opens level _ _ _ _ fb j c Hc Hcar ltac:(lia) Hshape) as (s & c1 & Hp & Hn & Hs & Hi & Hb).
  destruct (read_body_Int s replyMsg flag (size_field (length fb)) id body (length_size_field _) Hs Hi Hb Hid) as [Hread Hrem].
  destruct Hn as (r & Hc1 & Hr). set (s' := set_i (Z.of_nat headerSize + 4) s) in *.
  set (j1 := set_job_stream s (set_compress flag j)) in *.
  exists (set_job_stream (new_stream false) (set_outAsync (Some call) (set_requestId id (set_job_stream s' j1)))).
  eexists _, c1, (b s'). split; [|split; [done|split; [|split; [by exists r|reflexivity]]]].
  2:{ unfold remaining in Hrem. cbn [i set_i s'] in Hrem. rewrite <- Hrem. f_equal. }
  rewrite Hp. unfold handle_message, try_local. rewrite bind_get. cbn [snd].
  change (ceq replyMsg closeConnectionMsg) with false. change (ceq replyMsg requestMsg) with false.
  change (ceq replyMsg requestBatchMsg) with false. change (ceq replyMsg replyMsg) with true. cbv iota.
  assert (on_stream read_Int (j1, c1) = (Ok id, (set_job_stream s' j1, c1))) as H1.
  { unfold on_stream, on. change (job_stream (j1, c1).1) with s. by rewrite Hread. }
  unfold handle_reply. rewrite (bind_ok _ _ _ _ _ H1).
  rewrite (bind_ok (on_job (set_requestId id)) _ _ tt (set_requestId id (set_job_stream s' j1), c1)) by done.
  assert (find_reply id c1 = (Ok (inr call), c1)) as H2.
  { assert (wp (find_reply id) (fun e c' => e = inr call /\ c' = c1) (fun _ _ => False) c1) as Hw.
    { apply find_reply_ok; subst c1; [done|..]; cbn; [congruence|intros ?; rewrite Hyes; by intros [= ->]|congruence]. }
    by apply wp_elim in Hw as [(e & c' & -> & -> & ->)|(e & c' & _ & [])]. }
  assert (forall j, on_conn (find_reply id) (j, c1) = (Ok (inr call), (j, c1))) as H3.
  { intros j'. unfold on_conn, on. cbn [snd]. by rewrite H2. }
  rewrite (bind_ok _ _ _ _ _ (H3 _)). by subst c1.
Qed.
End wire.
