(* ===== verification/ConnectionExample.v ===== *)
(** * A client on a TCP socket

    A concrete connection: its platform, its configuration, a socket that
    answers in a given way, and the script that runs a list of transitions.
    The witnesses of the theorems on connections run on it. *)

From S2P Require Import Prelude Hoare Buffer Layout Protocol Stream Wire Encaps Transceiver.
From S2P Require Import ConnectionData ConnectionSend ConnectionState OrderedMap Connection StreamSpec.
From S2P Require Import ConnectionFrame ConnectionQueue ConnectionInv ConnectionRequests ConnectionDispatch ConnectionOpen.
From S2P Require Import ConnectionLife ConnectionReceive ConnectionParse ConnectionNext ConnectionMessage ConnectionFinish.
From S2P Require Import ConnectionSystem ConnectionWire.

Module Client.

#[export] Instance platform : Platform.
Proof. refine {| host := LittleEndian; host_x86 := true |}. done. Defined.

Definition wide : StringConverter wchar := {| toUTF8 := fun _ => ([], Ok tt); fromUTF8 := fun _ => Ok [] |}.

#[export] Instance settings : Settings := {|
  instance_messageSizeMax := 1000; instance_stringConverter := None; instance_wstringConverter := wide;
  clientACM := 0; property_compressionLevel := 1; property_batchAutoFlush := true; endpoint_timeout := -1;
  overrideConnectTimeout := None; overrideCloseTimeout := None;
  adapter_ACM := fun _ => 0; adapter_getServantManager := fun a => Some a |}.

#[export] Instance bzip2 : BZip2 := {|
  has_bzip2 := true; bz_compress := fun _ _ l => inl (chr 66 :: l);
  bz_decompress := fun _ l => match l with [] => inr (-5) | _ :: l => inl l end |}.

#[export] Instance bzip2_laws : BZip2Laws bzip2.
Proof. constructor. intros level room bs out [= <-]. done. Qed.

#[export] Instance reply_reader : ReplyReader unit unit := {| outgoing_finished := fun _ => Ok tt |}.

#[export] Instance reply_laws : ReplyLaws reply_reader.
Proof. by constructor. Qed.

#[export] Instance limits : Limits.
Proof. constructor; cbn; [done|]. unfold headerSize. lia. Qed.

Abbreviation conn := (@ConnectionI unit unit TcpTransceiver.transceiver).
Abbreviation system := (@System unit unit TcpTransceiver.transceiver).
Abbreviation action := (@Action unit unit).

Definition hdr (t : byte) (size : Z) (body : list byte) : list byte :=
  magic ++ [protocolMajor; protocolMinor; protocolEncodingMajor; protocolEncodingMinor; t; chr 0] ++ le_bytes 4 size ++ body.

(** The peer validates the connection and answers the first request. *)
Definition sock : Socket := MkSocket true [Taken 10; SendWouldBlock; Taken 100]
  [Received (hdr validateConnectionMsg 14 []); RecvWouldBlock;
   Received (hdr replyMsg 19 (le_bytes 4 1 ++ [chr 0]))] None None [].

Definition tcp : net (Transceiver := TcpTransceiver.transceiver) := TcpTransceiver.Mk TcpTransceiver.StateConnected sock.

Lemma tcp_usable : usable tcp.
Proof. done. Qed.

Definition start_of (n : net (Transceiver := TcpTransceiver.transceiver)) : system := MkSystem (ConnectionI_new (TR := TcpTransceiver.transceiver) n 0 None) 0 0.

(** The request of a call, and the messages that it is made of *)
Definition request : BasicStream unit unit := set_b (requestHdr ++ [chr 0; chr 9]) (new_stream false).

Definition perform (a : action) (s : system) : system :=
  let '(r, c) := run a (sys_conn s) in account a r s c.

Definition script (l : list action) (s : system) : system := foldl (fun s a => perform a s) s l.

Fixpoint allowed (l : list action) (s : system) : Prop :=
  match l with
  | [] => True
  | a :: l => guard a s /\ fits (perform a s) /\ allowed l (perform a s)
  end.

Lemma script_steps l : forall s, allowed l s -> rtc step s (script l s).
Proof.
  induction l as [|a l IH]; intros s Hl; [done|]. destruct Hl as (Hg & Hf & Hl). econstructor; [|by apply IH].
  unfold perform in *. destruct (run a (sys_conn s)) as [r c] eqn:Er. by apply do_action.
Qed.
Lemma plain_sendable level bs : (headerSize <= length bs)%nat -> Z.of_nat (length bs) < 2 ^ 31 ->
  sendable (TR := TcpTransceiver.transceiver) level false bs.
Proof.
  intros Hlo Hhi. unfold sendable, frame_bytes. rewrite andb_false_r. cbn [andb].
  rewrite (proj2 (Nat.ltb_ge _ _)) by done. split; [|by apply stream_law].
  unfold in_buf, buf_end. cbn [buf_b buf_i]. rewrite ByteSeq.length_store. lia.
Qed.

Lemma request_allowed (s : system) compress : validated (sys_conn s) -> compress = false ->
  validated (sys_conn s) /\ request_sendable (TR := TcpTransceiver.transceiver) (_compressionLevel (sys_conn s)) compress true (b request).
Proof.
  intros Hv ->. assert (length (b request) = 20%nat) as Hl by done. split; [done|]. split; [rewrite Hl; unfold headerSize; lia|].
  intros id. apply plain_sendable; rewrite ByteSeq.length_store, Hl; unfold headerSize; lia.
Qed.

(** The connection is validated, and a request is half sent. *)
Definition opened : list action := [AStart (Some 7%nat); AActivate; ASendRequest 42 request false true].

Lemma opened_allowed : allowed opened (start_of tcp).
Proof.
  split; [split; [done|left; split; [done|]]|].
  { unfold idle. vm_compute. done. }
  split; [done|]. split; [done|]. split; [done|]. split; [|done]. by apply request_allowed.
Qed.

(** The same with an asynchronous request, and a frame that has arrived *)
Definition async_opened : list action := [AStart (Some 7%nat); AActivate; ASendAsyncRequest 43 true request false true].

Definition arrived (fb : list byte) : conn :=
  set_readStream (set_i (Z.of_nat (length fb)) (set_b fb (new_stream false)))
    (sys_conn (script async_opened (start_of tcp))).

Definition long_body : list byte := replicate 100 (chr 7).
End Client.

(** ** A server with a close timeout *)

(** Two requests arrive. The response to the first has to wait for the
    socket, the connection is closed gracefully, and the selector finds the
    socket ready for writing before the second response is there. *)
Module Server.
Import Client.

Definition timed : Settings := {|
  instance_messageSizeMax := 1000; instance_stringConverter := None; instance_wstringConverter := wide;
  clientACM := 0; property_compressionLevel := 1; property_batchAutoFlush := true; endpoint_timeout := -1;
  overrideConnectTimeout := None; overrideCloseTimeout := Some 1000;
  adapter_ACM := fun _ => 0; adapter_getServantManager := fun a => Some a |}.

Definition request_of (id : Z) : list RecvResult :=
  [Received (hdr requestMsg 20 []); Received (le_bytes 4 id ++ [chr 0; chr 9])].

Definition sock : Socket := MkSocket true [Taken 14; SendWouldBlock; Taken 100; Taken 100; Taken 100]
  (request_of 1 ++ request_of 2) None None [].

Definition server : conn := ConnectionI_new (TR := TcpTransceiver.transceiver) (ST := timed)
  (TcpTransceiver.Mk TcpTransceiver.StateConnected sock) 0 (Some 3%nat).

Definition play (l : list action) (c : conn) : conn := foldl (fun c a => (run (ST := timed) a c).2) c l.

Definition current : BasicStream unit unit := new_stream (ST := timed) false.
Definition response (id : Z) : BasicStream unit unit := set_b (replyHdr ++ le_bytes 4 id ++ [chr 0]) current.

Definition before_second_response : list action :=
  [AStart None; AActivate; AMessage SocketOperationRead current; AMessage SocketOperationRead current;
   ASendResponse (response 1) (chr 0); AClose false; AMessage SocketOperationWrite current].
End Server.
