(* ===== verification/ConnectionSpec.v ===== *)
(** * The properties of a connection

    What holds in every state that a connection reaches ([reachable], see
    ConnectionSystem.v), whatever its callers, the network and the timer do:
    the invariant, that no operation faults, that closing is final, that every
    outstanding call is told about the end exactly once, that replies find
    their requests, that the bytes on the wire are the frames of the messages
    in the order of [sendMessage], and the sequence of the request ids. The
    module [Client] is a connection on which the witnesses run. *)

From S2P Require Import Prelude Hoare Buffer Layout Protocol Stream Wire Encaps Transceiver.
From S2P Require Import ConnectionData ConnectionSend ConnectionState OrderedMap Connection StreamSpec.
From S2P Require Import ConnectionFrame ConnectionQueue ConnectionInv ConnectionRequests ConnectionDispatch ConnectionOpen.
From S2P Require Import ConnectionLife ConnectionReceive ConnectionParse ConnectionNext ConnectionMessage ConnectionFinish.
From S2P Require Import ConnectionSystem ConnectionWire ConnectionExample.

Section properties.
Context `{PL : Platform} {D E : Type} {TR : Transceiver} {ST : Settings} {BZ : BZip2} {LW : TransceiverLaws TR}.
Context `{LI : !Limits} {RR : ReplyReader D E} {RL : ReplyLaws RR}.
Local Abbreviation stream := (BasicStream D E).
Local Abbreviation omessage := (@OutgoingMessage D E).
Local Abbreviation conn := (@ConnectionI D E TR).
Local Abbreviation job := (@Job D E).
Local Abbreviation system := (@System D E TR).
Implicit Types (c : conn) (j : job) (m : omessage) (t : gmap Z nat).

(** ** Reachable states *)

Lemma reachable_steps n now adapter (s s' : system) :
  reachable n now adapter s -> rtc step s s' -> reachable n now adapter s'.
Proof. intros Hs. induction 1 as [|s s1 s' H1 _ IH]; [done|]. apply IH. by eapply reach_step. Qed.



(** C18. From the closing state on, a connection has an exception, which is never
    replaced by a later one, and its state only moves forward. *)
Theorem closing_is_final n now adapter (s s' : system) :
  usable n -> reachable n now adapter s -> rtc step s s' -> (StateClosing <= _state (sys_conn s))%state ->
  (_state (sys_conn s) <= _state (sys_conn s'))%state /\
  exists ex, is_local ex = true /\ _exception (sys_conn s) = Some ex /\ _exception (sys_conn s') = Some ex.
Proof.
  intros Hn Hs Hr Hc. assert (lasts (sys_conn s) (sys_conn s')) as [H1 H2].
  { induction Hr as [|s s1 s' Hst Hr IH]; [done|]. pose proof (reachable_in_order _ _ _ _ Hn Hs) as Hok.
    pose proof (step_lasts _ _ Hok Hst) as Hl. etrans; [exact Hl|]. apply IH; [by eapply reach_step|].
    destruct Hl as [Hl _]. specialize (Hl Hc). lia. }
  split; [by apply H1|]. pose proof (io_conn _ (reachable_in_order _ _ _ _ Hn Hs)) as Hok.
  destruct (proj1 (ok_exception _ Hok) Hc) as [ex Hex]. exists ex. split; [by eapply ok_local|]. split; [done|by apply H2].
Qed.

(** ** The end *)

Definition queued_call m : option nat :=
  match om_target m with Out call | OutAsync call _ => Some call | NoTarget => None end.

(** The request of a message that is still in the queue is in its table. *)
Definition linked_to t1 t2 m : Prop :=
  om_requestId m = 0 \/
  match om_target m with
  | NoTarget => False
  | Out call => t1 !! om_requestId m = Some call
  | OutAsync call _ => t2 !! om_requestId m = Some call
  end.

Definition linked c : Prop :=
  Forall (linked_to (_requests c) (_asyncRequests c)) (_sendStreams c) /\
  NoDup (filter (fun id => id <> 0) (om_requestId <$> _sendStreams c)).

(** The callers that wait for the connection: the messages in the queue that
    expect no reply, and the requests *)
Definition unanswered (queue : list omessage) : list nat :=
  omap (fun m => if om_requestId m =? 0 then queued_call m else None) queue.

Definition outstanding c : list nat :=
  unanswered (_sendStreams c) ++ table_calls (_requests c) ++ table_calls (_asyncRequests c).

(** Who is told, with the exception *)
Definition calls_told (l : list Event) : list (nat * exn) :=
  omap (fun e => match e with CallFinished call ex _ => Some (call, ex) | _ => None end) l.

Lemma table_calls_perm t : table_calls t ≡ₚ (map_to_list t).*2.
Proof. unfold table_calls. by rewrite merge_sort_Permutation. Qed.

Lemma table_calls_delete t id call : t !! id = Some call -> table_calls t ≡ₚ call :: table_calls (delete id t).
Proof. intros H. rewrite !table_calls_perm. by rewrite <- (map_to_list_delete t id call H). Qed.

Lemma calls_told_app l k : calls_told (l ++ k) = calls_told l ++ calls_told k.
Proof. apply omap_app. Qed.

Lemma calls_told_table ex l : calls_told (told_calls ex l) = (fun call => (call, ex)) <$> l.
Proof. induction l as [|call l IH]; [done|]. by rewrite fmap_cons, <- IH. Qed.

Lemma linked_delete t1 t2 m id : om_requestId m <> id \/ om_requestId m = 0 -> linked_to t1 t2 m ->
  linked_to (delete id t1) t2 m /\ linked_to t1 (delete id t2) m.
Proof.
  intros Hid [H0|H]; [by split; left|]. destruct Hid as [Hid|H0]; [|by split; left].
  split; right; destruct (om_target m); try done; by rewrite lookup_delete_ne.
Qed.

Lemma queue_told ex queue : forall t1 t2, Forall (linked_to t1 t2) queue ->
  NoDup (filter (fun id => id <> 0) (om_requestId <$> queue)) ->
  calls_told (concat (told ex <$> queue)) ++
    calls_told (told_calls ex (table_calls (drop_requests t1 queue))) ++
    calls_told (told_calls ex (table_calls (drop_asyncRequests t2 queue))) ≡ₚ
  (fun call => (call, ex)) <$> (unanswered queue ++ table_calls t1 ++ table_calls t2).
Proof.
  induction queue as [|m queue IH]; intros t1 t2 Hl Hnd.
  { unfold drop_requests, drop_asyncRequests. cbn [foldl]. by rewrite !calls_told_table, <- fmap_app. }
  apply Forall_cons in Hl as [Hm Hl]. rewrite fmap_cons, filter_cons in Hnd. cbn [fmap list_fmap concat].
  rewrite calls_told_app, <- app_assoc. unfold drop_requests, drop_asyncRequests, unanswered. cbn [foldl omap list_omap].
  fold (unanswered queue). destruct (om_requestId m =? 0) eqn:E0; bool_to_prop.
  { rewrite decide_False in Hnd by (intros Hx; by apply Hx). unfold told at 1, queued_call.
    destruct (om_target m) as [|call|call w]; cbn [calls_told omap list_omap app fmap list_fmap]; [by apply IH| |];
      constructor; by apply IH. }
  rewrite decide_True in Hnd by done. apply NoDup_cons in Hnd as [Hnin Hnd]. destruct Hm as [?|Hm]; [done|].
  assert (Forall (fun m' => om_requestId m' <> om_requestId m \/ om_requestId m' = 0) queue) as Hfresh.
  { apply Forall_forall. intros m' Hin. destruct (decide (om_requestId m' = 0)); [by right|left]. intros Heq. apply Hnin.
    apply list_elem_of_filter. split; [done|]. apply list_elem_of_fmap. by exists m'. }
  unfold told at 1. destruct (om_target m) as [|call|call w]; [done|..]; cbn [calls_told omap list_omap app].
  - rewrite (table_calls_delete t1 _ _ Hm). rewrite fmap_app. cbn [app fmap list_fmap].
    rewrite <- Permutation_middle. constructor. rewrite <- fmap_app. apply IH; [|done].
    apply Forall_forall. intros m' Hin. rewrite Forall_forall in Hfresh, Hl. apply linked_delete; auto.
  - rewrite (table_calls_delete t2 _ _ Hm). rewrite (app_assoc (unanswered queue)), fmap_app. cbn [app fmap list_fmap].
    rewrite <- Permutation_middle. constructor. rewrite <- fmap_app, <- (app_assoc (unanswered queue)). apply IH; [|done].
    apply Forall_forall. intros m' Hin. rewrite Forall_forall in Hfresh, Hl. apply linked_delete; auto.
Qed.

(** C17. When a closed connection is finished, every outstanding caller (the
    requests without a reply, and the queued messages that expect none) is told
    about the recorded exception, each exactly once, provided that the requests of
    queued messages are in the tables; nobody is left, and the state is finished. *)
Theorem finish_tells_each_call_once n now adapter (s : system) :
  usable n -> reachable n now adapter s -> _state (sys_conn s) = StateClosed -> linked (sys_conn s) ->
  exists ex c', _exception (sys_conn s) = Some ex /\ finish_work (sys_conn s) = (Ok tt, c') /\
    (exists ev, calls c' = calls (sys_conn s) ++ ev /\
       calls_told ev ≡ₚ (fun call => (call, ex)) <$> outstanding (sys_conn s)) /\
    _state c' = StateFinished /\ outstanding c' = [] /\ _startCallback c' = None.
Proof.
  intros Hn Hs Hst [Hl Hnd]. pose proof (io_conn _ (reachable_in_order _ _ _ _ Hn Hs)) as Hok. set (c := sys_conn s) in *.
  destruct (proj1 (ok_exception _ Hok)) as [ex Hex]; [by rewrite Hst|].
  destruct (finish_work_eq ex c Hok Hst Hex) as (n' & w & mo & rts & wts & _ & He). exists ex. eexists. split; [done|].
  split; [exact He|]. split; [|done]. eexists. split; [done|]. unfold finish_events.
  rewrite !calls_told_app. unfold outstanding. rewrite <- (queue_told ex _ _ _ Hl Hnd).
  destruct (_startCallback c), (_dispatchCount c =? 0); cbn [calls_told omap list_omap app]; by rewrite ?app_nil_r.
Qed.
(** ** Replies *)

(** C28. Before a connection is closed, in every state that it reaches without a
    close timeout and with fewer than 2^31 requests being dispatched at a time, the
    search for the caller of a reply, which tries the hints first, uses no stale
    hint and changes nothing: it answers a caller that one of the two tables has for
    the id, or UnknownRequestIdException exactly when neither has one. For an id
    that is not in both tables, as it may be when the ids have wrapped around, the
    answer is that of plain lookups. *)
Theorem find_reply_is_lookup n now adapter (s : system) id :
  usable n -> reachable n now adapter s -> (_state (sys_conn s) < StateClosed)%state ->
  let c := sys_conn s in
  match find_reply id c with
  | (Ok (inl call), c') => c' = c /\ _requests c !! id = Some call
  | (Ok (inr call), c') => c' = c /\ _asyncRequests c !! id = Some call
  | (Throw e, c') => c' = c /\ e = UnknownRequestIdException /\ _requests c !! id = None /\ _asyncRequests c !! id = None
  | (Fault _, _) => False
  end /\
  (_requests c !! id = None \/ _asyncRequests c !! id = None ->
   find_reply id c =
     (match _requests c !! id, _asyncRequests c !! id with
      | Some call, _ => Ok (inl call)
      | None, Some call => Ok (inr call)
      | None, None => Throw UnknownRequestIdException
      end, c)).
Proof.
  intros Hn Hs Hst c. pose proof (io_conn _ (reachable_in_order _ _ _ _ Hn Hs)) as Hok. fold c in Hok, Hst.
  pose proof (find_reply_ok id c (fun r c' => c' = c /\ match r with
    | inl call => _requests c !! id = Some call | inr call => _asyncRequests c !! id = Some call end)
    (fun e c' => c' = c /\ e = UnknownRequestIdException /\ _requests c !! id = None /\ _asyncRequests c !! id = None)
    (ok_hints c Hok Hst)) as H.
  apply wp_elim in H as [([call|call] & c' & -> & -> & Hr)|(e & c' & -> & -> & -> & Hr1 & Hr2)]; auto;
    (split; [done|]).
  - by rewrite Hr.
  - rewrite Hr. by intros [->|?].
  - by rewrite Hr1, Hr2.
Qed.

(** ** The wire *)

(** C10. A connection is a queue of bytes to its peer: sendMessage appends one whole
    frame, which announces its own length, to what has been sent and what waits,
    whether the message is written at once, in part or queued; on a transceiver
    error it throws a local exception. *)
Theorem sendMessage_commits_in_order n now adapter (s : system) m fb z :
  usable n -> reachable n now adapter s -> validated (sys_conn s) -> (_state (sys_conn s) < StateClosed)%state ->
  frame_bytes (_compressionLevel (sys_conn s)) (om_compress m) (b (om_stream m)) = Ok (fb, z) ->
  in_buf (MkBuf fb 0) -> writable (MkBuf fb 0) ->
  match sendMessage m (sys_conn s) with
  | (Ok _, c') => wire c' = wire (sys_conn s) ++ fb /\ is_frame fb
  | (Throw e, _) => is_local e = true
  | (Fault _, _) => False
  end.
Proof.
  intros Hn Hs Hv Hst Hf Hin Hw. pose proof (io_conn _ (reachable_in_order _ _ _ _ Hn Hs)) as Hok.
  pose proof (sendMessage_commits m (sys_conn s) (may_send_ok _ Hok Hv Hst)) as H. unfold sendable in H. rewrite Hf in H.
  destruct (wp_elim _ _ _ _ (H (conj Hin Hw))) as [(x & c' & -> & _ & Hwire)|(e & c' & -> & He & _)]; [|done].
  split; [|by eapply framed_is_frame]. rewrite Hwire. unfold framed. by rewrite Hf.
Qed.

(** The thread pool finds the socket ready for writing: what is on the wire
    stays, or the connection is closed because of an error. *)
Definition pumped c c' : Prop := wire c' = wire c \/ _state c' = StateClosed.

Lemma pump_failed c e c' : conn_ok c' -> is_local e = true -> (_state c' < StateClosed)%state -> wire c' = wire c ->
  _state c' <> StateNotInitialized -> wp (message_failed e) (fun _ => pumped c) (fun _ _ => False) c'.
Proof.
  intros Hok He Hst Hw Hni.
  assert (wp (setState_ex StateClosed e) (fun _ => pumped c) (fun _ _ => False) c') as Hclose.
  { apply wp_close; [done..|]. intros c2 [[-> Hx]|[[mo ->] _]] _ _; [lia|by right]. }
  assert (wp reset_readStream (fun _ => pumped c) (fun _ _ => False) c') as Hreset.
  { apply wp_reset_readStream; [by apply (ok_reading c' Hok Hst)|]. by left. }
  unfold message_failed. destruct e; try done; by destruct tr_datagram.
Qed.

Lemma pump_ok current c : conn_ok c -> validated c -> (_state c < StateClosed)%state -> op_write (_registered c) = true ->
  wp (message SocketOperationWrite current) (fun _ => pumped c) (fun _ _ => False) c.
Proof.
  intros Hok Hv Hst Hreg.
  assert (wp (try_local (message_work SocketOperationWrite) (fun ex => on_conn (message_failed ex);; mret false))
    (fun _ s => pumped c s.2) (fun _ _ => False) (new_job current, c)) as H.
  { apply wp_try. eapply (wp_conseq _ _ _ (fun e s => is_local e = true /\ conn_ok s.2 /\ (_state s.2 < StateClosed)%state /\
      wire s.2 = wire c /\ _state s.2 <> StateNotInitialized)); [| |].
    2:{ intros x s Hx. exact Hx. }
    2:{ intros e [j1 c1] (He & Hok1 & Hst1 & Hw1 & Hn1). rewrite He. apply wp_bind, wp_on_conn.
        eapply wp_conseq; [by apply (pump_failed c)|..]; [|done]. intros [] c2 H2. by apply wp_ret. }
    unfold message_work. apply wp_bind, wp_on_conn, unscheduleTimeout_ok; [done|].
    intros rt rts wt wts c1 Hok1 _ Hwt _ _. specialize (Hwt eq_refl). cbn [op_write op_read SocketOperationWrite].
    assert (wire c1 = wire c /\ validated c1 /\ (_state c1 < StateClosed)%state /\ op_write (_registered c1) = true /\
      write_task c1 = false) as (Hw1 & Hv1 & Hst1 & Hreg1 & Ht1) by done. clearbody c1.
    apply wp_bind, wp_on_conn. eapply wp_conseq; [by apply message_write_wire|..]; cbn [fst snd].
    2:{ intros e c2 (He & Hs & Hw2). pose proof (proj1 (sends_state _ _ (proj1 Hs))) as Est. split; [done|].
        split; [by apply (sends_ok c1)|]. rewrite Est. split; [done|]. split; [congruence|].
        intros Hx. unfold validated in Hv1. rewrite Hx in Hv1. cbn in Hv1. lia. }
    intros d c2 (Hs & Hd & Hw2). destruct d; cbn [negb]; [|apply wp_ret; left; cbn; congruence].
    pose proof (proj1 (sends_state _ _ (proj1 Hs))) as Est. destruct (Hd eq_refl) as (Hi & Hb & Ht & Hq).
    apply wp_bind, wp_ret. cbn [negb]. apply wp_bind, wp_get. cbn [snd].
    rewrite Est, (proj2 (Z.leb_gt (state_code (_state c1)) _)) by exact Hv1.
    apply wp_bind, wp_assert; [apply Z.leb_le; cbn in *; lia|]. apply wp_bind. cbn [when]. apply wp_ret.
    assert (front_sent c2) as Hf.
    { destruct Hs as (Hs & Hn & Hqok & _). unfold queue_ok in Hqok.
      destruct (_sendStreams c2) as [|m rest] eqn:Eq; [by destruct Hqok|]. exists m, rest.
      destruct Hqok as (H1 & H2 & H3 & _ & H4 & H5). split; [done|]. split; [done|]. split; [done|]. by intros _. }
    apply wp_bind. eapply wp_conseq; [apply sendNextMessage_ok; [exact Hf|exact Hb|exact Ht|apply Hs]|..]; [|done].
    intros [] [j3 c3] [_ H3]. cbn [snd] in *. rewrite Est, (proj2 (Z.ltb_lt _ _)) in H3 by done.
    assert (pumped c c3) as Hp.
    { destruct H3 as [[_ Hw3]|(e & c4 & He & Hn4 & Hs4 & Hc4)].
      - left. rewrite Hw3, <- Hw1, <- Hw2. unfold wire, backlog. destruct Hf as (m & rest & -> & _).
        by rewrite Hi, between_nil.
      - right. destruct Hs4 as (_ & Hs4 & _). cbn [snd] in Hs4.
        pose proof (proj1 (sends_state _ _ Hs4)) as Est4. rewrite Est in Est4.
        destruct Hc4 as [[_ Hx]|[[mo ->] _]]; [rewrite Est4 in Hx; lia|done]. }
    apply wp_bind, wp_get, wp_bind, wp_when; intros _; [apply wp_on_conn, wp_modify|]; by apply wp_ret. }
  unfold wp, message in *. rewrite (proj2 (Z.leb_gt _ _)) by done.
  destruct (try_local _ _ _) as [[[]|e|f] [j' c']]; [|done..].
  destruct (touch_acm_eq c') as [a ->]. exact H.
Qed.

(** C16. When the socket is ready for writing, message moves bytes from the backlog
    to the socket without losing, repeating or reordering any, for every answer of
    the transceiver, or the connection is closed because of an error. *)
Theorem write_event_keeps_the_order n now adapter (s : system) current :
  usable n -> reachable n now adapter s -> validated (sys_conn s) -> (_state (sys_conn s) < StateClosed)%state ->
  op_write (_registered (sys_conn s)) = true ->
  exists r c', message SocketOperationWrite current (sys_conn s) = (Ok r, c') /\
    (wire c' = wire (sys_conn s) \/ _state c' = StateClosed).
Proof.
  intros Hn Hs Hv Hst Hreg. pose proof (io_conn _ (reachable_in_order _ _ _ _ Hn Hs)) as Hok.
  pose proof (pump_ok current _ Hok Hv Hst Hreg) as H.
  apply wp_elim in H as [(r & c' & -> & H)|(e & c' & _ & [])]. by exists r, c'.
Qed.

(** ** Request ids *)

(** The ids of the next [k] requests *)
Fixpoint next_ids (k : nat) : M conn (list Z) :=
  match k with
  | O => mret []
  | S k => id ← nextRequestId; ids ← next_ids k; mret (id :: ids)
  end.

(** The [k]-th request id of a connection, from 0 *)
Definition request_id (k : Z) : Z := k mod (2 ^ 31 - 1) + 1.

Lemma request_id_next k : 0 <= k -> to_i32 (request_id k + 1) = request_id (k + 1) \/
  to_i32 (request_id k + 1) = - 2 ^ 31 /\ request_id (k + 1) = 1.
Proof.
  intros Hk. unfold request_id. pose proof (Z.mod_pos_bound k (2 ^ 31 - 1) ltac:(lia)) as Hb.
  pose proof (Z.div_mod k (2 ^ 31 - 1) ltac:(lia)) as Hd. set (q := k / (2 ^ 31 - 1)) in *. set (r := k mod (2 ^ 31 - 1)) in *.
  destruct (Z.eq_dec r (2 ^ 31 - 2)) as [Hr|Hr].
  - right. rewrite Hr. split; [by vm_compute|]. rewrite <- (Z.mod_unique_pos (k + 1) (2 ^ 31 - 1) (q + 1) 0); lia.
  - left. rewrite to_i32_id by lia. rewrite <- (Z.mod_unique_pos (k + 1) (2 ^ 31 - 1) q (r + 1)); lia.
Qed.

Lemma next_ids_eq n : forall k c, 0 <= k ->
  _nextRequestId c = request_id k \/ _nextRequestId c = - 2 ^ 31 /\ request_id k = 1 ->
  exists c', next_ids n c = (Ok (request_id <$> seqZ k (Z.of_nat n)), c').
Proof.
  induction n as [|n IH]; intros k c Hk Hc; [by exists c|].
  assert (- 2 ^ 31 <= _nextRequestId c < 2 ^ 31 /\ request_id k = (if _nextRequestId c <=? 0 then 1 else _nextRequestId c))
    as [Hr Hid].
  { pose proof (Z.mod_pos_bound k (2 ^ 31 - 1) ltac:(lia)). destruct Hc as [-> |[-> ->]].
    - unfold request_id. split; [lia|]. by rewrite (proj2 (Z.leb_gt _ _)) by lia.
    - by split. }
  destruct (nextRequestId_ok c Hr) as (id & next & Hn & _ & _ & Hi & Hnext). rewrite <- Hid in Hi. subst id next.
  cbn [next_ids]. rewrite (bind_ok _ _ _ _ _ Hn).
  destruct (IH (k + 1) (set_nextRequestId (to_i32 (request_id k + 1)) c)) as [c' Hc'].
  { lia. } { by apply request_id_next. }
  exists c'. rewrite (bind_ok _ _ _ _ _ Hc'). rewrite (seqZ_cons k) by lia. rewrite fmap_cons.
  by replace (Z.pred (Z.of_nat (S n))) with (Z.of_nat n) by lia.
Qed.

(** The request ids of a connection run from 1 to 2^31-1 and start again at 1:
    the k-th is k mod (2^31-1) + 1, through the wrap-around of the counter. *)
Lemma request_ids_cycle net0 now adapter n :
  exists c', next_ids n (ConnectionI_new net0 now adapter) =
    (Ok ((fun k => k mod (2 ^ 31 - 1) + 1) <$> seqZ 0 (Z.of_nat n)), c').
Proof. apply next_ids_eq; [lia|by left]. Qed.
End properties.

(** ** Witnesses *)

Section witnesses.
Import Client.

Local Abbreviation s0 := (start_of tcp).
Local Abbreviation s1 := (script opened (start_of tcp)).
Local Abbreviation s2 := (script [AClose true] s1).
Local Abbreviation s3 := (script [AFinishWork] s2).

Lemma opened_reachable : reachable (TR := TcpTransceiver.transceiver) tcp 0 None s1.
Proof. apply (reachable_steps _ _ _ s0); [apply reach_new|apply script_steps, opened_allowed]. Qed.

Lemma opened_open : validated (sys_conn s1).
Proof. by vm_compute. Qed.
Lemma opened_not_closed : (_state (sys_conn s1) < StateClosed)%state.
Proof. by vm_compute. Qed.
Lemma opened_writes : op_write (_registered (sys_conn s1)) = true.
Proof. by vm_compute. Qed.
Lemma opened_level : _compressionLevel (sys_conn s1) = 1.
Proof. by vm_compute. Qed.

Lemma closed_steps : rtc step s1 s2.
Proof. by apply script_steps. Qed.

Lemma closed_reachable : reachable tcp 0 None s2.
Proof. apply (reachable_steps _ _ _ s1); [apply opened_reachable|apply closed_steps]. Qed.

Lemma finished_steps : rtc step s2 s3.
Proof. apply script_steps. split; [vm_compute; lia|done]. Qed.



Lemma closing_is_final_witness :
  (_state (sys_conn s2) <= _state (sys_conn s3))%state /\
  exists ex, is_local ex = true /\ _exception (sys_conn s2) = Some ex /\ _exception (sys_conn s3) = Some ex.
Proof. apply (closing_is_final tcp 0 None); [done|apply closed_reachable|apply finished_steps|by vm_compute]. Defined.

Lemma finish_tells_each_call_once_witness :
  exists ex c', _exception (sys_conn s2) = Some ex /\ finish_work (sys_conn s2) = (Ok tt, c') /\
    (exists ev, calls c' = calls (sys_conn s2) ++ ev /\
       calls_told ev ≡ₚ (fun call => (call, ex)) <$> outstanding (sys_conn s2)) /\
    _state c' = StateFinished /\ outstanding c' = [] /\ _startCallback c' = None.
Proof.
  apply (finish_tells_each_call_once tcp 0 None); [done|apply closed_reachable|done|].
  split; [|by vm_compute; apply NoDup_singleton].
  assert (_sendStreams (sys_conn s2) = [hd (MkMessage request NoTarget false 0 false false) (_sendStreams (sys_conn s2))])
    as -> by (vm_compute; reflexivity).
  apply Forall_singleton. right. vm_compute. reflexivity.
Defined.

Lemma find_reply_is_lookup_witness : find_reply 1 (sys_conn s1) = (Ok (inl 42%nat), sys_conn s1).
Proof.
  assert (_requests (sys_conn s1) !! 1 = Some 42%nat) as H1 by (vm_compute; reflexivity).
  assert (_asyncRequests (sys_conn s1) !! 1 = None) as H2 by (vm_compute; reflexivity).
  destruct (find_reply_is_lookup tcp 0 None s1 1 tcp_usable opened_reachable opened_not_closed) as [_ H].
  rewrite H by (right; exact H2). rewrite H1. reflexivity.
Defined.

(** The bytes of [Client.request] on the wire *)
Definition request_frame : list byte :=
  Eval vm_compute in match frame_bytes 1 false (b Client.request) with Ok (fb, _) => fb | _ => [] end.

Lemma request_framed : frame_bytes (_compressionLevel (sys_conn s1)) false (b Client.request) = Ok (request_frame, false).
Proof. vm_compute. reflexivity. Qed.

Lemma sendMessage_commits_in_order_witness :
  match sendMessage (MkMessage request NoTarget false 0 false false) (sys_conn s1) with
  | (Ok _, c') => wire c' = wire (sys_conn s1) ++ request_frame /\ is_frame request_frame
  | (Throw e, _) => is_local e = true
  | (Fault _, _) => False
  end.
Proof.
  assert (in_buf (MkBuf request_frame 0)) as Hin by done.
  assert (writable (TransceiverLaws := tcp_laws) (MkBuf request_frame 0)) as Hw by (by apply stream_law).
  exact (sendMessage_commits_in_order tcp 0 None s1 (MkMessage request NoTarget false 0 false false) _ _ tcp_usable opened_reachable opened_open opened_not_closed
    request_framed Hin Hw).
Defined.

Lemma write_event_keeps_the_order_witness :
  exists r c', message SocketOperationWrite (new_stream false) (sys_conn s1) = (Ok r, c') /\
    (wire c' = wire (sys_conn s1) \/ _state c' = StateClosed).
Proof.
  exact (write_event_keeps_the_order tcp 0 None s1 _ tcp_usable opened_reachable opened_open opened_not_closed opened_writes).
Defined.

(** A request that is compressed, and the reply to an asynchronous request *)
Definition long_request : list byte :=
  Eval vm_compute in match frame_bytes 1 true (request_message 5 long_body) with Ok (fb, _) => fb | _ => [] end.
Definition short_reply : list byte :=
  Eval vm_compute in match frame_bytes 1 true (reply_message 1 [chr 0]) with Ok (fb, _) => fb | _ => [] end.

Lemma arrived_received fb : Z.of_nat (length fb) < 2 ^ 31 -> received fb (arrived fb).
Proof.
  intros Hl. split; [by vm_compute|]. split; [by vm_compute|]. split; [|by split]. split; [|split; [by left|done]].
  unfold in_buf, buf_end, buf_of, arrived. cbn [_readStream set_readStream b i set_i set_b buf_b buf_i]. lia.
Qed.

Lemma request_arrives_witness (j := new_job (new_stream false)) :
  exists j' c' c1, parseMessage (j, arrived long_request) = (Ok tt, (j', c')) /\
    requestId j' = 5 /\ invokeNum j' = 1 /\ remaining (job_stream j') = long_body /\
    adapter j' = None /\ servantManager j' = None /\ next_header (arrived long_request) c1 /\
    c' = set_dispatchCount 1 c1.
Proof.
  apply (request_arrives 1 true 5 long_body long_request true).
  - vm_compute. reflexivity.
  - done.
  - by apply arrived_received.
  - by vm_compute.
  - done.
  - vm_compute. lia.
Defined.

Lemma reply_arrives_witness (j := new_job (new_stream false)) :
  exists j' c' c1 reply, parseMessage (j, arrived short_reply) = (Ok tt, (j', c')) /\
    outAsync j' = Some 43%nat /\ drop (headerSize + 4) reply = [chr 0] /\ next_header (arrived short_reply) c1 /\
    c' = set_calls (calls (arrived short_reply) ++ [CallReplyAsync 43 reply])
      (set_asyncRequestsHint (erase_request 1 (_asyncRequests (arrived short_reply)) (_asyncRequestsHint (arrived short_reply))).2
        (set_asyncRequests (delete 1 (_asyncRequests (arrived short_reply))) c1)).
Proof.
  apply (reply_arrives 1 true 1 43 [chr 0] short_reply false).
  - vm_compute. reflexivity.
  - done.
  - by apply arrived_received.
  - done.
  - vm_compute. lia.
  - split; vm_compute; reflexivity.
  - vm_compute. reflexivity.
  - vm_compute. reflexivity.
Defined.
End witnesses.

(** ** A close timeout is scheduled twice *)

Section closing.
Import Client.

(** With a close timeout, a graceful shutdown while one request is dispatched
    and the queue has just been sent schedules the write timer a second time when
    the response is sent, which fails the assertion in scheduleTimeout. *)
Lemma close_timeout_scheduled_twice :
  (run (ST := Server.timed) (ASendResponse (Server.response 2) (chr 0))
    (Server.play Server.before_second_response Server.server)).1 = Fault AssertionFailure.
Proof. vm_compute. reflexivity. Qed.
End closing.
